(* ===== verification/_CoqProject ===== *)
-Q . S2P
Prelude.v
Generations.v
Host.v
CacheTypes.v
ForkPages.v
ForkForest.v
DirtyPages.v
SharedCache.v
SharedCacheInv.v
SharedCacheSteps.v
SharedCacheOps.v
SharedCacheIO.v
SharedCacheLife.v
SharedCacheLens.v
SharedCacheForeign.v
Identity.v
MemStore.v
SharedCacheSpec.v
PageCache.v
PageCacheInv.v
PageCacheOps.v
PageCacheSpec.v
PageCacheExample.v
Storage.v
DurableCowDisk.v
CowDisk.v
RedoxBranch.v
DiskLog.v
DurableFiles.v
DurableNumbers.v
DurableDisk.v
DurableOps.v
DiskIO.v
DurableSpec.v
RedoxFacts.v
RedoxExample.v
RedoxNodeStore.v
VmmTypes.v
VirtioFs.v
VirtioFsInv.v
VirtioFsLaws.v
VirtioFsOps.v
VirtioFsHost.v
VirtioFsWindow.v
VirtioFsSpec.v
VirtioFsTheorems.v
VirtioFsExample.v
Lineages.v
LineageIds.v
ForkSupervisor.v
ForkSupervisorSpec.v
Ram.v
RamInv.v
RamMap.v
RamFork.v
RamOps.v
RamBranch.v
RamMemory.v
RamSpec.v
RamSafety.v
RamOrigin.v
RamDurable.v
RamCopy.v
RamArchive.v
RamRestore.v
RamRecovery.v
RamExample.v
KvmVmm.v
KvmSupervisor.v
KvmRecovery.v
KvmRuns.v
KvmForest.v
KvmOps.v
KvmLive.v
KvmLogs.v
KvmLink.v
KvmForks.v
KvmManifest.v
KvmHistory.v
KvmExample.v
