(* ===== verification/Prelude.v ===== *)
(** * minidox: copy-on-write memory and filesystem state for forkable microVMs

    minidox runs microVMs that can be forked while they run: the child gets
    the parent's RAM and files as they are at one instant, and afterwards
    neither sees what the other does.  Nothing is copied at a fork but what the
    guest has changed since the last one.  A forest of VMs can be checkpointed
    to a directory and opened again after a crash of the host.  This library
    is a shallow embedding of the Rust crates under src/crates/ with the
    theorems that make them correct.

    ** The program and the files that model it

    - crates/minidox-fork/src/lib.rs.  The reference model: page branches
      ([ForkPages]), [ForkForest] ([ForkForest]), and the supervisor that pairs
      a RAM branch with a branch of the page cache ([ForkSupervisor], its
      theorems and an example in [ForkSupervisorSpec]).
    - crates/minidox-cache/src/lib.rs.  The page cache of one file system
      behind DAX mappings ([PageCache]; [PageCacheInv], [PageCacheOps],
      [PageCacheSpec], [PageCacheExample]) on host files ([Host]) and any
      [NodeStore] ([CacheTypes]; [MemStore] is one in memory).
    - crates/minidox-cache/src/branching.rs.  The page cache shared by the
      branches of a lineage ([DirtyPages], [SharedCache]; [SharedCacheInv],
      [SharedCacheSteps], [SharedCacheOps], [SharedCacheIO],
      [SharedCacheLife], [SharedCacheLens], [SharedCacheForeign],
      [SharedCacheSpec]).
    - crates/minidox-redoxfs/src/branching.rs.  Identities of file pages
      ([Identity]); copy-on-write disks ([CowDisk], [DiskIO]) and their durable
      layers ([DurableCowDisk], [DiskLog], [DurableFiles], [DurableNumbers],
      [DurableDisk], [DurableOps], [DurableSpec]) on a directory that a crash
      may set back ([Storage]); RedoxFS branches ([RedoxBranch], [RedoxFacts],
      [RedoxExample]).  crates/minidox-redoxfs/src/lib.rs is [RedoxNodeStore].
    - crates/minidox-vmm/src/ram.rs.  Guest RAM in generations of pages
      ([VmmTypes], [Ram], [RamInv], [RamMap], [RamFork], [RamOps],
      [RamBranch], [RamMemory], [RamSpec], [RamSafety]) and its durable form
      ([RamDurable], [RamOrigin], [RamCopy], [RamArchive], [RamRestore],
      [RamRecovery], [RamExample]).
    - crates/minidox-vmm/src/virtiofs.rs.  The virtio-fs device backend with
      its DAX windows ([VirtioFs], [VirtioFsLaws], [VirtioFsInv],
      [VirtioFsOps], [VirtioFsHost], [VirtioFsWindow], [VirtioFsSpec],
      [VirtioFsTheorems], [VirtioFsExample]) and the lineages of a process
      ([Lineages], [LineageIds]).
    - crates/minidox-vmm/src/linux.rs.  The requests to Cloud Hypervisor
      ([KvmVmm]).
    - crates/minidox-vmm/src/supervisor.rs.  [KvmSupervisor], its checkpoints
      and restarts ([KvmRecovery]), and their theorems: VMs go on running
      ([KvmRuns], [KvmForest], [KvmOps], [KvmLive]), the manifest
      ([KvmManifest]), and the supervisor as a run of the guest RAM system
      ([KvmLogs], [KvmLink], [KvmForks], [KvmHistory]); [KvmExample] has a
      VMM that satisfies the laws and evaluates the theorems on it.

    The parts meet as in the code: a VM of the KVM supervisor has a backend (a
    raw KVM VM or a Cloud Hypervisor worker), a RAM and a virtio-fs branch; the
    branch is served by the shared cache of its lineage, whose store is a
    RedoxFS branch on a copy-on-write disk.  An operation of the supervisor is
    the composition of the operations of these parts on one world that holds
    the RAM files, the lineages, the VMM and the directory of the forest.

    ** How code becomes definitions

    State is explicit: an operation is a function [M St E A] from a state to a
    state and a [result], the [Result] of the source, with the notation of a
    monad.  A failure keeps the state reached so far, so what an early [?]
    leaves behind is part of the model; panics are the value [Panicked] where
    the code can panic.  Sixty-four-bit numbers are [N] with the checks,
    saturation or wrap-around of the source.  [Arc]-shared objects are numbers
    or immutable generations ([Generations]); mutable objects that are shared,
    such as host files and the cache of a lineage, live in the state once.  A
    [BTreeMap] is a [gmap] that is listed in the order of its keys.  What drops
    at the end of a scope and does something ([Drop]) is called where Rust
    calls it.

    The host may fail: [sto_sched] and [h_sched] list how each of the next
    calls ends (in full, short, or with an error), and theorems hold for all
    lists unless they ask for a calm host, the empty list.  A crash
    ([crash_to]) keeps what was synchronised and any part of what was not;
    directories, which the code creates and does not synchronise into their
    parents, are taken to survive it.

    Loops of the source that are not structural have a bound that is enough:
    [create_numbered_rounds] and [link_numbered_rounds] one round more than
    there are names and outstanding host choices ([DurableNumbers] proves that
    the unbounded loop needs no more); the copy loops of [Host], [Storage] and
    [RamDurable] as many rounds as bytes, since every round transfers one or
    fails; the mapping loops of [Ram] as many as pages.  Every operation is a
    total function, and running out of rounds is never its result.

    ** What is proved

    Specifications are relations on reachable states: [ram_trans],
    [history_step], the [step]s of durable disks, runs of [page_request],
    [request], [dax_request] and [kvm_op], and [forest_history], which puts
    calls of the KVM supervisor, guests that run, crashes and restarts in any
    order.  The proofs use weakest preconditions ([wp]) with one rule per
    operation, and [keeps] for what an operation leaves alone.

    - Forks are snapshots and branches are isolated: for pages and the forest
      ([ForkForest]), the shared cache ([SharedCacheSpec]), DAX windows
      ([VirtioFsTheorems]), guest RAM forked stopped or running ([RamSafety]),
      the supervisor of minidox-fork ([ForkSupervisorSpec]) and the memory of
      the VMs of the KVM supervisor ([KvmHistory]).
    - What a guest sees through a mapping is what its file holds: coherence of
      mappings in both caches and in DAX windows.
    - Writes reach the store, reads return what was written, accounting counts.
    - Checkpoints survive crashes: disks ([DurableSpec]), RedoxFS lineages
      ([RedoxFacts]), RAM ([RamRecovery]) and the manifest of a forest
      ([KvmManifest]).
    - The whole forest survives crashes ([KvmHistory]): the KVM supervisor is
      simulated by the system of guest RAM, with the dirty pages KVM and Cloud
      Hypervisor log as the guests' logs, and what a restart brings back is
      what a checkpoint saw.  A call is taken to end the process when it
      panics, the counters of pages, generations and VMs have room for the
      call ([op_room]).  Two exceptions are part of the statements: [open]
      may find no VMs when the host fails the call that looks for the manifest
      ([exists] takes every error for a missing file), and a VM whose dirty log
      was read by a fork or checkpoint that failed afterwards has lost those
      pages ([gu_lost]).
    - The KVM supervisor leaves no VM paused, but for VMs a pause or resume
      request failed for, and does not panic ([KvmLive]).  The theorem runs the
      supervisor over a VMM that records which requests failed ([Watched] in
      [KvmRuns]); [KvmExample] shows a failed pause after which the VM stays
      stopped.
    - Failures that lose data or block a branch: an append cut short spoils the
      later checkpoints of its disk ([DurableSpec]), a failed read keeps its
      branch from being forked or removed ([SharedCacheSpec]); a guest's store
      through a read-only DAX mapping reaches the branches that share the page,
      a page left mapped by a request that was not undone is never replaced,
      and a guest with a mapping of a file it closed cannot be forked or
      checkpointed ([VirtioFsTheorems]).  The theorems on coherence and
      isolation of DAX windows are therefore about guests that store only where
      they asked for a writable mapping, in runs where what failed was undone
      ([may_request], [undone]); those on disks keep the disks whose append
      failed apart ([Tracked]).  [RamExample] evaluates a failed fork that
      loses a guest's writes.

    ** Not modelled

    The vendored RedoxFS engine, Cloud Hypervisor, KVM and [serde_json] are
    third-party code the crates only call.  They are the type classes
    [RedoxEngine], [Vmm] and [ManifestCodec]; what theorems rely on is stated as
    laws ([RedoxLaws], [VmmRunLaws], [QuietLaws], [VmmLogLaws],
    [ManifestCodecLaws], [SparseLaws]) of which the example files have
    instances.  The laws let any request fail and leave the VMs it names paused
    or stopped; dirty pages are logged only of memory for which logging was
    turned on, and a failed request may lose any part of a log.  Thread scheduling inside the VMM and the memory model of the
    processor are not modelled: the stores of guests happen between the calls
    of the supervisor, and during the first copy of a Cloud Hypervisor VM's
    fork, while it runs ([guest_only]).  The FUSE wire format, crate re-exports, the
    boot probe and scripts are left out; tests of the crates are the source of
    some examples. *)

From stdpp Require Export base tactics list gmap sets strings sorting.
From Stdlib Require Export NArith.
From Stdlib Require Strings.Byte.

#[global] Open Scope N_scope.
#[global] Set Default Goal Selector "!".
#[global] Set Warnings "-clear-no-such-hyp".

Declare Scope minidox_scope.
Delimit Scope minidox_scope with minidox.
#[global] Open Scope minidox_scope.

Create HintDb minidox.
Create Rewrite HintDb minidox.

(** ** Bytes *)

Abbreviation byte := Byte.byte.
Abbreviation zero_byte := Byte.x00.

#[export] Instance byte_eq_dec : EqDecision byte := Byte.byte_eq_dec.

(** ** Results and the state-and-error monad

    A Rust function that mutates its receiver and returns [Result<T, E>]
    becomes a function from the state to the new state and a result.  An
    early return with [?] keeps every mutation made before it, so the state
    is returned on both branches. *)

Inductive result (E A : Type) : Type :=
  | Ok (a : A)
  | Err (e : E).
Arguments Ok {E A} a.
Arguments Err {E A} e.

#[export] Instance result_eq_dec {E A} `{EqDecision E} `{EqDecision A} :
  EqDecision (result E A).
Proof. solve_decision. Defined.

#[export] Instance result_ret {E} : MRet (result E) := fun A a => Ok a.
#[export] Instance result_bind {E} : MBind (result E) := fun A B f r =>
  match r with Ok a => f a | Err e => Err e end.

Definition is_ok {E A} (r : result E A) : bool :=
  match r with Ok _ => true | Err _ => false end.

Definition map_err {E F A} (f : E -> F) (r : result E A) : result F A :=
  match r with Ok a => Ok a | Err e => Err (f e) end.

(** [Option::ok_or]. *)
Definition ok_or {E A} (e : E) (o : option A) : result E A :=
  match o with Some a => Ok a | None => Err e end.

Definition M (St E A : Type) : Type := St -> St * result E A.

#[export] Instance M_ret {St E} : MRet (M St E) := fun A a s => (s, Ok a).
#[export] Instance M_bind {St E} : MBind (M St E) := fun A B f m s =>
  match m s with
  | (s', Ok a) => f a s'
  | (s', Err e) => (s', Err e)
  end.

Section monad.
Context {St E : Type}.

Definition throw {A} (e : E) : M St E A := fun s => (s, Err e).
Definition get : M St E St := fun s => (s, Ok s).
Definition gets {A} (f : St -> A) : M St E A := fun s => (s, Ok (f s)).
Definition modify (f : St -> St) : M St E unit := fun s => (f s, Ok tt).
Definition lift {A} (r : result E A) : M St E A := fun s => (s, r).

(** Run a computation and keep its result as a value: the code that holds a
    [Result] in a variable, runs something else and only then applies [?]. *)
Definition attempt {A} (m : M St E A) : M St E (result E A) := fun s =>
  let '(s', r) := m s in (s', Ok r).

Definition with_err {F A} (f : E -> F) (m : M St E A) : M St F A := fun s =>
  let '(s', r) := m s in (s', map_err f r).

(** A [for] loop whose body may fail. *)
Fixpoint for_each {A} (f : A -> M St E unit) (l : list A) : M St E unit :=
  match l with
  | [] => mret tt
  | x :: l' => f x ≫= fun _ => for_each f l'
  end.

(** Weakest precondition: [Q] on success, [R] on error. *)
Definition wp {A} (m : M St E A) (Q : A -> St -> Prop) (R : E -> St -> Prop)
    (s : St) : Prop :=
  match m s with
  | (s', Ok a) => Q a s'
  | (s', Err e) => R e s'
  end.

Lemma wp_ret {A} (a : A) Q R s : wp (mret a) Q R s <-> Q a s.
Proof. done. Qed.

Lemma wp_throw {A} e (Q : A -> St -> Prop) R s : wp (throw e) Q R s <-> R e s.
Proof. done. Qed.

Lemma wp_get Q R s : wp get Q R s <-> Q s s.
Proof. done. Qed.

Lemma wp_gets {A} (f : St -> A) Q R s : wp (gets f) Q R s <-> Q (f s) s.
Proof. done. Qed.

Lemma wp_modify f Q R s : wp (modify f) Q R s <-> Q tt (f s).
Proof. done. Qed.

Lemma wp_bind {A B} (m : M St E A) (f : A -> M St E B) Q R s :
  wp (m ≫= f) Q R s <-> wp m (fun a => wp (f a) Q R) R s.
Proof. unfold wp, mbind, M_bind. by destruct (m s) as [s' [a|e]]. Qed.

Lemma wp_assoc {A B C} (m : M St E A) (f : A -> M St E B) (g : B -> M St E C) Q R s :
  wp ((m ≫= f) ≫= g) Q R s -> wp (m ≫= fun a => f a ≫= g) Q R s.
Proof. unfold wp, mbind, M_bind. by destruct (m s) as [s' [a|e]]. Qed.

Lemma wp_lift {A} (r : result E A) Q R s :
  wp (lift r) Q R s <-> match r with Ok a => Q a s | Err e => R e s end.
Proof. unfold wp, lift. by destruct r. Qed.

Lemma wp_attempt {A} (m : M St E A) Q R s :
  wp (attempt m) Q R s <->
  wp m (fun a => Q (Ok a)) (fun e => Q (Err e)) s.
Proof. unfold wp, attempt. by destruct (m s) as [s' [a|e]]. Qed.

Lemma wp_mono {A} (m : M St E A) (Q Q' : A -> St -> Prop) (R R' : E -> St -> Prop) s :
  wp m Q R s ->
  (forall a s', Q a s' -> Q' a s') ->
  (forall e s', R e s' -> R' e s') ->
  wp m Q' R' s.
Proof. unfold wp. destruct (m s) as [s' [a|e]]; auto. Qed.

Lemma wp_any {A} (m : M St E A) (Q : A -> St -> Prop) (R : E -> St -> Prop) s :
  (forall a s', Q a s') -> (forall e s', R e s') -> wp m Q R s.
Proof. unfold wp. destruct (m s) as [s' [a|e]]; auto. Qed.

Lemma wp_elim {A} (m : M St E A) Q R s s' r :
  wp m Q R s -> m s = (s', r) ->
  match r with Ok a => Q a s' | Err e => R e s' end.
Proof. unfold wp. intros H Heq. rewrite Heq in H. by destruct r. Qed.

(** The loop rule: an invariant indexed by the items done and still to do. *)
Lemma wp_for_each {A} (f : A -> M St E unit) (I : list A -> list A -> St -> Prop) R l s :
  I [] l s ->
  (forall done x todo s', l = done ++ x :: todo -> I done (x :: todo) s' ->
    wp (f x) (fun _ => I (done ++ [x]) todo) R s') ->
  wp (for_each f l) (fun _ => I l []) R s.
Proof.
  intros Hinit Hstep.
  enough (forall todo done s', l = done ++ todo -> I done todo s' ->
    wp (for_each f todo) (fun _ => I l []) R s') as H by (by apply (H l [])).
  induction todo as [|x todo IH]; intros done s' Hl HI; cbn.
  - rewrite app_nil_r in Hl. by subst.
  - rewrite wp_bind. eapply wp_mono; [by eapply Hstep | | done].
    intros [] s'' HI'. apply (IH (done ++ [x])); [|done].
    by rewrite <-app_assoc.
Qed.
End monad.

Lemma wp_with_err {St E F A} (f : E -> F) (m : M St E A) Q R s :
  wp (with_err f m) Q R s <-> wp m Q (fun e => R (f e)) s.
Proof. unfold wp, with_err. by destruct (m s) as [s' [a|e]]. Qed.

(** Run a computation on a component of a larger state. *)
Definition zoom {St Sub E A} (proj : St -> Sub) (upd : Sub -> St -> St)
    (m : M Sub E A) : M St E A := fun s =>
  let '(sub, r) := m (proj s) in (upd sub s, r).

Lemma wp_zoom {St Sub E A} (proj : St -> Sub) (upd : Sub -> St -> St)
    (m : M Sub E A) Q R s :
  wp (zoom proj upd m) Q R s <->
  wp m (fun a sub => Q a (upd sub s)) (fun e sub => R e (upd sub s)) (proj s).
Proof. unfold wp, zoom. by destruct (m (proj s)) as [s' [a|e]]. Qed.

(** Step a weakest-precondition goal through the monad's own operations. *)
Ltac wp_step :=
  lazymatch goal with
  | |- wp (mbind _ _) _ _ _ => rewrite wp_bind
  | |- wp (mret _) _ _ _ => rewrite wp_ret
  | |- wp (throw _) _ _ _ => rewrite wp_throw
  | |- wp get _ _ _ => rewrite wp_get
  | |- wp (gets _) _ _ _ => rewrite wp_gets
  | |- wp (modify _) _ _ _ => rewrite wp_modify
  | |- wp (lift _) _ _ _ => rewrite wp_lift
  | |- wp (attempt _) _ _ _ => rewrite wp_attempt
  | |- wp (with_err _ _) _ _ _ => rewrite wp_with_err
  | |- wp (zoom _ _ _) _ _ _ => rewrite wp_zoom
  end.
Ltac wp_steps := repeat (wp_step; cbv beta).

(** ** What a computation keeps

    [keeps P m]: whatever the result of [m], the state after it is related by
    [P] to the state before it. *)

Definition keeps {St E A} (P : relation St) (m : M St E A) : Prop := forall s, P s (m s).1.

Section keeps.
Context {St E : Type} (P : relation St) `{!PreOrder P}.

Lemma keeps_ret {A} (a : A) : keeps (E := E) P (mret a).
Proof. intros s. cbn. reflexivity. Qed.
Lemma keeps_throw {A} (e : E) : keeps (A := A) P (throw e).
Proof. intros s. cbn. reflexivity. Qed.
Lemma keeps_get : keeps (E := E) P get.
Proof. intros s. cbn. reflexivity. Qed.
Lemma keeps_gets {A} (f : St -> A) : keeps (E := E) P (gets f).
Proof. intros s. cbn. reflexivity. Qed.
Lemma keeps_lift {A} (r : result E A) : keeps P (lift r).
Proof. intros s. cbn. reflexivity. Qed.
Lemma keeps_modify (f : St -> St) : (forall s, P s (f s)) -> keeps (E := E) P (modify f).
Proof. intros Hf s. apply Hf. Qed.
Lemma keeps_bind {A B} (m : M St E A) (f : A -> M St E B) :
  keeps P m -> (forall a, keeps P (f a)) -> keeps P (m ≫= f).
Proof.
  intros Hm Hf s. specialize (Hm s). unfold mbind, M_bind. destruct (m s) as [s' [a|e]]; cbn in *; [|done].
  etrans; [exact Hm|apply Hf].
Qed.
Lemma keeps_attempt {A} (m : M St E A) : keeps P m -> keeps P (attempt m).
Proof. intros Hm s. specialize (Hm s). unfold attempt. by destruct (m s). Qed.
Lemma keeps_for_each {A} (f : A -> M St E unit) l : (forall a, keeps P (f a)) -> keeps P (for_each f l).
Proof. intros Hf. induction l as [|a l IH]; cbn; [apply keeps_ret|]. apply keeps_bind; auto. Qed.
End keeps.

Lemma wp_keeps {St E A} (P : relation St) (m : M St E A) (Q : A -> St -> Prop) (R : E -> St -> Prop) s :
  keeps P m -> (forall a s', P s s' -> Q a s') -> (forall e s', P s s' -> R e s') -> wp m Q R s.
Proof. intros Hm HQ HR. specialize (Hm s). unfold wp. destruct (m s) as [s' [a|e]]; auto. Qed.

Lemma keeps_with_err {St E F A} P (f : E -> F) (m : M St E A) : keeps P m -> keeps P (with_err f m).
Proof. intros Hm s. specialize (Hm s). unfold with_err. by destruct (m s). Qed.

Lemma keeps_zoom {St Sub E A} (P : relation Sub) (P' : relation St) proj upd (m : M Sub E A) :
  (forall s sub, P (proj s) sub -> P' s (upd sub s)) -> keeps P m -> keeps P' (zoom proj upd m).
Proof. intros HP Hm s. specialize (Hm (proj s)). unfold zoom. destruct (m (proj s)) as [sub r]. by apply HP. Qed.

(** Go through the monad's own operations and the cases of the code. *)
Ltac keeps_step :=
  lazymatch goal with
  | |- keeps _ (mbind _ _) => apply keeps_bind; [apply _| |intros ?]
  | |- keeps _ (mret _) => apply keeps_ret, _
  | |- keeps _ (throw _) => apply keeps_throw, _
  | |- keeps _ get => apply keeps_get, _
  | |- keeps _ (gets _) => apply keeps_gets, _
  | |- keeps _ (lift _) => apply keeps_lift, _
  | |- keeps _ (attempt _) => apply keeps_attempt
  | |- keeps _ (for_each _ _) => apply keeps_for_each; [apply _|intros ?]
  | |- keeps _ (match ?x with _ => _ end) => destruct x
  | |- keeps _ (if ?x then _ else _) => destruct x
  end.
Ltac keeps_steps := repeat (keeps_step; cbv beta zeta).

(** ** 64-bit unsigned arithmetic

    [u64] and, on the supported 64-bit hosts, [usize] values are binary
    naturals; the width is written out where the code can observe it. *)

Definition u64_MAX : N := 18446744073709551615.

Definition u64_wf (x : N) : Prop := x <= u64_MAX.

Definition checked_add (a b : N) : option N :=
  if a + b <=? u64_MAX then Some (a + b) else None.
Definition checked_sub (a b : N) : option N :=
  if b <=? a then Some (a - b) else None.
Definition checked_mul (a b : N) : option N :=
  if a * b <=? u64_MAX then Some (a * b) else None.
Definition wrapping_add (a b : N) : N := (a + b) mod (u64_MAX + 1).
Definition saturating_add (a b : N) : N := N.min (a + b) u64_MAX.

(** [u64::checked_next_multiple_of]. *)
Definition checked_next_multiple_of (x m : N) : option N :=
  if x mod m =? 0 then Some x else checked_add x (m - x mod m).

(** Decide every comparison of naturals in the goal or a hypothesis. *)
Ltac cmp :=
  repeat match goal with
  | |- context [?a <=? ?b] => destruct (N.leb_spec a b)
  | |- context [?a <? ?b] => destruct (N.ltb_spec a b)
  | |- context [?a =? ?b] => destruct (N.eqb_spec a b)
  | H : context [?a <=? ?b] |- _ => destruct (N.leb_spec a b)
  | H : context [?a <? ?b] |- _ => destruct (N.ltb_spec a b)
  | H : context [?a =? ?b] |- _ => destruct (N.eqb_spec a b)
  end.
Ltac cmp_solve := cmp; split; intros; destruct_and?; simplify_eq; f_equal; lia.

Lemma checked_add_Some a b c : checked_add a b = Some c <-> c = a + b /\ a + b <= u64_MAX.
Proof. unfold checked_add. cmp_solve. Qed.

Lemma checked_add_None a b : checked_add a b = None <-> u64_MAX < a + b.
Proof. unfold checked_add. cmp_solve. Qed.

Lemma checked_sub_Some a b c : checked_sub a b = Some c <-> c = a - b /\ b <= a.
Proof. unfold checked_sub. cmp_solve. Qed.

Lemma checked_sub_None a b : checked_sub a b = None <-> a < b.
Proof. unfold checked_sub. cmp_solve. Qed.

Lemma checked_mul_Some a b c : checked_mul a b = Some c <-> c = a * b /\ a * b <= u64_MAX.
Proof. unfold checked_mul. cmp_solve. Qed.

Lemma wrapping_add_small a b : a + b <= u64_MAX -> wrapping_add a b = a + b.
Proof. intros ?. unfold wrapping_add. apply N.mod_small. lia. Qed.

(** Membership in the half-open range [lo..hi]. *)
Definition in_range (lo hi a : N) : bool := (lo <=? a) && (a <? hi).

Lemma in_range_spec lo hi a : reflect (lo <= a < hi) (in_range lo hi a).
Proof.
  apply iff_reflect. unfold in_range. rewrite andb_true_iff, N.leb_le, N.ltb_lt. done.
Qed.

Lemma in_range_true lo hi a : lo <= a < hi -> in_range lo hi a = true.
Proof. destruct (in_range_spec lo hi a); done. Qed.

Lemma in_range_false lo hi a : ~ (lo <= a < hi) -> in_range lo hi a = false.
Proof. destruct (in_range_spec lo hi a); done. Qed.

(** ** Pages *)

Definition PAGE_SIZE : N := 4096.
Definition page_nat : nat := N.to_nat PAGE_SIZE.
Definition zero_page : list byte := replicate page_nat zero_byte.

#[global] Opaque page_nat.
#[global] Arguments PAGE_SIZE : simpl never.

Lemma page_nat_N : N.of_nat page_nat = PAGE_SIZE.
Proof. Transparent page_nat. unfold page_nat. Opaque page_nat. lia. Qed.

Lemma length_zero_page : length zero_page = page_nat.
Proof. apply length_replicate. Qed.

(** The step used by every loop that walks a byte range page by page. *)
Lemma page_offset_lt c : c mod PAGE_SIZE < PAGE_SIZE.
Proof. apply N.mod_lt. done. Qed.

Lemma page_split c : c = PAGE_SIZE * (c / PAGE_SIZE) + c mod PAGE_SIZE.
Proof. apply N.div_mod. done. Qed.

(** ** Slices

    [slice off len l] is [&l[off..off + len]]; [splice off new l] is the list
    after [l[off..off + new.len()].copy_from_slice(new)]. *)

Definition lenN {A} (l : list A) : N := N.of_nat (length l).

Definition slice {A} (off len : N) (l : list A) : list A :=
  take (N.to_nat len) (drop (N.to_nat off) l).

Definition splice {A} (off : N) (new l : list A) : list A :=
  take (N.to_nat off) l ++ new ++ drop (N.to_nat off + length new) l.

(** [Vec::resize] and [File::set_len]: truncate, or extend with zero bytes. *)
Definition resize_bytes (n : N) (l : list byte) : list byte :=
  take (N.to_nat n) l ++ replicate (N.to_nat n - length l) zero_byte.

(** Element access by a [u64] index. *)
Definition nthN {A} (l : list A) (i : N) : option A := l !! N.to_nat i.

Section slices.
Context {A : Type}.
Implicit Types (l new : list A).

Lemma lenN_app l1 l2 : lenN (l1 ++ l2) = lenN l1 + lenN l2.
Proof. unfold lenN. rewrite length_app. lia. Qed.

Lemma nthN_lt l i : i < lenN l -> is_Some (nthN l i).
Proof. unfold nthN, lenN. intros. apply lookup_lt_is_Some. lia. Qed.

Lemma nthN_ge l i : lenN l <= i -> nthN l i = None.
Proof. unfold nthN, lenN. intros. apply lookup_ge_None. lia. Qed.

Lemma nthN_Some_lt l i x : nthN l i = Some x -> i < lenN l.
Proof. unfold nthN, lenN. intros H%lookup_lt_Some. lia. Qed.

Lemma nthN_app l1 l2 i :
  nthN (l1 ++ l2) i = if i <? lenN l1 then nthN l1 i else nthN l2 (i - lenN l1).
Proof.
  unfold nthN, lenN. cmp.
  - apply lookup_app_l. lia.
  - rewrite lookup_app_r by lia. f_equal. lia.
Qed.

Lemma list_eq_nthN l1 l2 : (forall i, nthN l1 i = nthN l2 i) -> l1 = l2.
Proof.
  intros H. apply list_eq. intros i.
  specialize (H (N.of_nat i)). unfold nthN in H. by rewrite Nat2N.id in H.
Qed.

Lemma length_slice off len l :
  length (slice off len l) = Nat.min (N.to_nat len) (length l - N.to_nat off).
Proof. unfold slice. by rewrite length_take, length_drop. Qed.

Lemma lenN_slice off len l :
  off + len <= lenN l -> lenN (slice off len l) = len.
Proof. unfold lenN. rewrite length_slice. lia. Qed.

Lemma nthN_slice off len l i :
  nthN (slice off len l) i = if i <? len then nthN l (off + i) else None.
Proof.
  unfold slice, nthN. cmp.
  - rewrite lookup_take_lt by lia. rewrite lookup_drop. f_equal. lia.
  - apply lookup_ge_None. rewrite length_take. lia.
Qed.

Lemma length_splice off new l :
  off + lenN new <= lenN l -> length (splice off new l) = length l.
Proof.
  unfold splice, lenN. rewrite !length_app, length_take, length_drop. lia.
Qed.

Lemma lenN_splice off new l :
  off + lenN new <= lenN l -> lenN (splice off new l) = lenN l.
Proof. intros. unfold lenN at 1. by rewrite length_splice. Qed.

Lemma nthN_splice off new l i :
  off + lenN new <= lenN l ->
  nthN (splice off new l) i =
    if (off <=? i) && (i <? off + lenN new) then nthN new (i - off) else nthN l i.
Proof.
  unfold splice, nthN, lenN. intros Hle.
  cmp; cbn [andb].
  - rewrite lookup_app_r by (rewrite length_take; lia).
    rewrite lookup_app_l by (rewrite length_take; lia).
    f_equal. rewrite length_take. lia.
  - rewrite lookup_app_r by (rewrite length_take; lia).
    rewrite lookup_app_r by (rewrite length_take; lia).
    rewrite lookup_drop. f_equal. rewrite length_take. lia.
  - rewrite lookup_app_l by (rewrite length_take; lia).
    rewrite lookup_take_lt by lia. done.
  - lia.
Qed.

Lemma slice_all l : slice 0 (lenN l) l = l.
Proof. unfold slice, lenN. rewrite Nat2N.id. apply firstn_all. Qed.

Lemma slice_zero off l : slice off 0 l = [].
Proof. done. Qed.

Lemma slice_split off n m l :
  slice off (n + m) l = slice off n l ++ slice (off + n) m l.
Proof.
  apply list_eq_nthN. intros i. unfold nthN at 2.
  destruct (decide (N.to_nat i < length (slice off n l))%nat) as [Hlt|Hge].
  - rewrite lookup_app_l by done. fold (nthN (slice off n l) i).
    rewrite !nthN_slice. rewrite length_slice in Hlt. cmp; done || lia.
  - rewrite lookup_app_r by lia. rewrite length_slice in *.
    destruct (decide (lenN l <= off + n)) as [Hl|Hl]; unfold lenN in *.
    + rewrite nthN_slice, lookup_ge_None_2 by (rewrite length_slice; lia).
      cmp; [|done]. apply nthN_ge. unfold lenN. lia.
    + rewrite Nat.min_l in * by lia.
      replace (N.to_nat i - N.to_nat n)%nat with (N.to_nat (i - n)) by lia.
      fold (nthN (slice (off + n) m l) (i - n)). rewrite !nthN_slice.
      cmp; try lia; [f_equal; lia | done].
Qed.

Lemma splice_all new l : length new = length l -> splice 0 new l = new.
Proof.
  intros H. unfold splice. cbn. rewrite H, drop_ge by lia. by rewrite app_nil_r.
Qed.
End slices.

Lemma length_resize n l : length (resize_bytes n l) = N.to_nat n.
Proof. unfold resize_bytes. rewrite length_app, length_take, length_replicate. lia. Qed.

Lemma lenN_resize n l : lenN (resize_bytes n l) = n.
Proof. unfold lenN. rewrite length_resize. lia. Qed.

Lemma nthN_resize n l i :
  nthN (resize_bytes n l) i =
    if i <? n then Some (default zero_byte (nthN l i)) else None.
Proof.
  unfold resize_bytes, nthN. cmp.
  - destruct (decide (N.to_nat i < length l)%nat) as [Hlt|Hge].
    + rewrite lookup_app_l by (rewrite length_take; lia).
      rewrite lookup_take_lt by lia.
      by destruct (lookup_lt_is_Some_2 l (N.to_nat i) Hlt) as [x ->].
    + rewrite lookup_app_r by (rewrite length_take; lia).
      rewrite (lookup_ge_None_2 l) by lia.
      apply lookup_replicate_2. rewrite length_take. lia.
  - apply lookup_ge_None. rewrite length_app, length_take, length_replicate. lia.
Qed.

(** ** Ordered iteration

    [BTreeMap] and [BTreeSet] are finite maps and sets; where the code
    iterates over one, the order of the keys is the order of the loop. *)

Class KeyOrder (K : Type) := {
  key_le : relation K;
  key_le_dec :: RelDecision key_le;
  key_le_total :: Total key_le;
  key_le_trans :: Transitive key_le;
  key_le_antisymm :: AntiSymm (=) key_le
}.

#[export] Instance N_key_order : KeyOrder N := {| key_le := N.le |}.

Definition pair_le {K1 K2} `{KeyOrder K1} `{KeyOrder K2} (p q : K1 * K2) : Prop :=
  (p.1 <> q.1 /\ key_le p.1 q.1) \/ (p.1 = q.1 /\ key_le p.2 q.2).

#[export, program] Instance pair_key_order {K1 K2} `{KeyOrder K1} `{KeyOrder K2}
    `{EqDecision K1} : KeyOrder (K1 * K2) := {| key_le := pair_le |}.
Next Obligation. intros. unfold RelDecision, pair_le. intros. apply _. Defined.
Next Obligation.
  intros K1 K2 ??? [a b] [c d]. unfold pair_le; cbn.
  destruct (decide (a = c)) as [->|Hne].
  - destruct (total key_le b d); auto.
  - destruct (total key_le a c); [left|right]; left; auto.
Qed.
Next Obligation.
  intros K1 K2 ??? [a b] [c d] [e f]. unfold pair_le; cbn.
  intros [[Hn1 H1]|[-> H1]] [[Hn2 H2]|[-> H2]].
  - left. split; [|by etrans]. intros ->. apply Hn1. by apply (anti_symm key_le).
  - by left.
  - by left.
  - right. split; [done|]. by etrans.
Qed.
Next Obligation.
  intros K1 K2 ??? [a b] [c d]. unfold pair_le; cbn.
  intros [[Hn1 H1]|[-> H1]] [[Hn2 H2]|[? H2]]; simplify_eq; try done.
  - exfalso. apply Hn1. by apply (anti_symm key_le).
  - f_equal. by apply (anti_symm key_le).
Qed.

Definition btree_elems {K} `{Countable K} `{KeyOrder K} (s : gset K) : list K :=
  merge_sort key_le (elements s).

Definition btree_keys {K V} `{Countable K} `{KeyOrder K} (m : gmap K V) : list K :=
  merge_sort key_le (map_to_list m).*1.

Section btree.
Context {K V : Type} `{Countable K} `{!KeyOrder K}.
Implicit Types (s : gset K) (m : gmap K V).

Lemma elem_of_btree_elems s k : k ∈ btree_elems s <-> k ∈ s.
Proof. unfold btree_elems. by rewrite merge_sort_Permutation, elem_of_elements. Qed.

Lemma NoDup_btree_elems s : NoDup (btree_elems s).
Proof. unfold btree_elems. rewrite merge_sort_Permutation. apply NoDup_elements. Qed.

Lemma elem_of_btree_keys m k : k ∈ btree_keys m <-> is_Some (m !! k).
Proof.
  unfold btree_keys. rewrite merge_sort_Permutation, list_elem_of_fmap. split.
  - intros [[k' v] [-> Hin%elem_of_map_to_list]]. cbn. eauto.
  - intros [v Hv]. exists (k, v). by rewrite elem_of_map_to_list.
Qed.

Lemma NoDup_btree_keys m : NoDup (btree_keys m).
Proof. unfold btree_keys. rewrite merge_sort_Permutation. apply NoDup_fst_map_to_list. Qed.

Lemma btree_keys_sorted m : StronglySorted key_le (btree_keys m).
Proof. unfold btree_keys. apply StronglySorted_merge_sort; apply _. Qed.
End btree.

(** [for (k, v) in &src { dst.entry(k).or_insert(v) }]. *)
Definition or_insert_all {K V} `{Countable K} (dst src : gmap K V) : gmap K V :=
  map_fold (fun k v acc => match acc !! k with Some _ => acc | None => <[k:=v]> acc end)
    dst src.

(** [dst.extend(src)]. *)
Definition extend {K V} `{Countable K} (dst src : gmap K V) : gmap K V :=
  map_fold (fun k v acc => <[k:=v]> acc) dst src.

Section map_loops.
Context {K V : Type} `{Countable K}.
Implicit Types (dst src : gmap K V).

Lemma or_insert_all_union dst src : or_insert_all dst src = dst ∪ src.
Proof.
  unfold or_insert_all. revert src.
  apply (map_fold_weak_ind (fun r m => r = dst ∪ m)).
  - by rewrite (right_id_L ∅ (∪)).
  - intros k v m r Hk ->. apply map_eq. intros j.
    rewrite (lookup_union dst (<[k:=v]> m)).
    destruct ((dst ∪ m) !! k) eqn:Hl; rewrite lookup_union, Hk in Hl;
      destruct (dst !! k) eqn:Hd; cbn in Hl; try done;
      (destruct (decide (k = j)) as [<-|Hne];
       [rewrite ?lookup_union, ?Hk, !lookup_insert_eq, Hd
       |rewrite ?lookup_insert_ne, lookup_union by done]; done).
Qed.

Lemma extend_union dst src : extend dst src = src ∪ dst.
Proof.
  unfold extend. revert src.
  apply (map_fold_weak_ind (fun r m => r = m ∪ dst)).
  - by rewrite (left_id_L ∅ (∪)).
  - intros k v m r Hk ->. by rewrite insert_union_l.
Qed.
End map_loops.

#[export] Hint Rewrite @or_insert_all_union @extend_union : minidox.

(** How many times each identity is referenced: the accounting loops count,
    per physical page or block, the branches that reach it. *)
Definition bump {K} `{Countable K} (refs : gmap K N) (k : K) : gmap K N :=
  <[k := default 0 (refs !! k) + 1]> refs.

(** [*references.entry(id).or_default() += 1] for every element of a set. *)
Definition bump_all {K} `{Countable K} (refs : gmap K N) (ids : gset K) : gmap K N :=
  set_fold (fun k r => bump r k) refs ids.

Definition count_shared {K} `{Countable K} (refs : gmap K N) : nat :=
  size (filter (fun kv : K * N => 1 < kv.2) refs).

Definition count_refs {K} `{Countable K} (sets : list (gset K)) : gmap K N :=
  foldl bump_all ∅ sets.

(** Number of the given sets that contain [k]. *)
Definition holders {K} `{Countable K} (k : K) (sets : list (gset K)) : nat :=
  length (filter (fun s => k ∈ s) sets).

Section accounting.
Context {K : Type} `{Countable K}.
Implicit Types (refs : gmap K N) (ids : gset K) (sets : list (gset K)).

Lemma lookup_bump_all refs ids k :
  bump_all refs ids !! k =
    if decide (k ∈ ids) then Some (default 0 (refs !! k) + 1) else refs !! k.
Proof.
  unfold bump_all. revert ids.
  apply (set_fold_ind_L (fun r ids => r !! k =
    if decide (k ∈ ids) then Some (default 0 (refs !! k) + 1) else refs !! k)).
  - by rewrite decide_False by set_solver.
  - intros x ids r Hx IH. unfold bump. destruct (decide (x = k)) as [->|Hne].
    + rewrite lookup_insert_eq, IH, decide_False, decide_True by set_solver. done.
    + rewrite lookup_insert_ne, IH by done.
      destruct (decide (k ∈ ids)); [rewrite decide_True|rewrite decide_False];
        set_solver.
Qed.

Lemma lookup_count_refs sets k :
  count_refs sets !! k =
    if decide (holders k sets = 0%nat) then None else Some (N.of_nat (holders k sets)).
Proof.
  unfold count_refs. induction sets as [|ids sets IH] using rev_ind; [done|].
  rewrite foldl_snoc, lookup_bump_all, IH. unfold holders. rewrite filter_app, length_app.
  rewrite filter_cons, filter_nil. destruct (decide (k ∈ ids)) as [Hin|Hin]; cbn [length].
  - rewrite (decide_False (P := _ + 1 = 0)%nat) by lia.
    destruct (decide _) as [H0|H0]; unfold holders in H0; cbn; f_equal; lia.
  - by rewrite Nat.add_0_r.
Qed.

Lemma holders_pos k sets : holders k sets <> 0%nat <-> exists s, s ∈ sets /\ k ∈ s.
Proof.
  unfold holders. split.
  - intros Hn. destruct (filter _ sets) as [|s l] eqn:Hf; [done|].
    assert (s ∈ filter (fun s => k ∈ s) sets) as [??]%list_elem_of_filter
      by (rewrite Hf; left). eauto.
  - intros [s [Hs Hk]] H0%length_zero_iff_nil.
    assert (s ∈ filter (fun s => k ∈ s) sets) as Hin by (by apply list_elem_of_filter).
    rewrite H0 in Hin. by apply not_elem_of_nil in Hin.
Qed.

(** The number of entries is the number of distinct identities reached. *)
Lemma dom_count_refs sets : dom (count_refs sets) = ⋃ sets.
Proof.
  apply set_eq. intros k. rewrite elem_of_dom, elem_of_union_list, lookup_count_refs.
  setoid_rewrite <-holders_pos. case_decide; split; intros Hx.
  - by destruct Hx.
  - done.
  - done.
  - eauto.
Qed.

(** The entries counted more than once are the identities at least two of
    the sets contain. *)
Lemma dom_shared_refs sets k :
  k ∈ dom (filter (fun kv : K * N => 1 < kv.2) (count_refs sets)) <->
  (2 <= holders k sets)%nat.
Proof.
  rewrite elem_of_dom. unfold is_Some. setoid_rewrite map_lookup_filter_Some.
  setoid_rewrite lookup_count_refs. cbn. case_decide; split.
  - by intros [n [[=] _]].
  - lia.
  - intros [n [[= <-] Hlt]]. lia.
  - intros. eexists. split; [done|]. lia.
Qed.

Lemma count_shared_le_size refs : (count_shared refs <= size refs)%nat.
Proof. apply map_subseteq_size, map_filter_subseteq. Qed.
End accounting.

(** Linear arithmetic with division and remainder by the page size. *)
Ltac divlia :=
  unfold PAGE_SIZE in *; zify; Z.to_euclidean_division_equations; lia.

(** Name the page number and page offset of an address and forget how they
    are computed, so that the rest of the goal is linear. *)
Ltac page_abs x :=
  let q := fresh "q" in let r := fresh "r" in
  pose proof (page_split x); pose proof (page_offset_lt x);
  set (q := x / PAGE_SIZE) in *; set (r := x mod PAGE_SIZE) in *; clearbody q r.
Ltac pagelia := unfold PAGE_SIZE in *; lia.

(** The cursor step of every page-by-page loop: either the chunk reaches the
    end of its page, or it reaches the end of the range. *)
Lemma cursor_step c e :
  c < e ->
  let n := N.min (PAGE_SIZE - c mod PAGE_SIZE) (e - c) in
  0 < n /\ c + n <= e /\ n <= PAGE_SIZE - c mod PAGE_SIZE /\
  (c + n = e \/ (c + n) mod PAGE_SIZE = 0 /\ (c + n) / PAGE_SIZE = c / PAGE_SIZE + 1) /\
  (forall a, c <= a < c + n ->
     a / PAGE_SIZE = c / PAGE_SIZE /\ a mod PAGE_SIZE = c mod PAGE_SIZE + (a - c)) /\
  (forall a, a / PAGE_SIZE = c / PAGE_SIZE -> c mod PAGE_SIZE <= a mod PAGE_SIZE ->
     a mod PAGE_SIZE < c mod PAGE_SIZE + n -> c <= a < c + n /\ a - c = a mod PAGE_SIZE - c mod PAGE_SIZE).
Proof.
  intros Hlt n. pose proof (page_offset_lt c) as Hm. pose proof (page_split c) as Hs.
  assert (0 < n) by lia. assert (c + n <= e) by lia.
  assert (n <= PAGE_SIZE - c mod PAGE_SIZE) by lia.
  split_and!; try lia.
  - destruct (decide (c + n = e)); [by left|right].
    assert (n = PAGE_SIZE - c mod PAGE_SIZE) as Hn by lia. rewrite Hn. clearbody n. split; divlia.
  - intros a Ha. clearbody n. split; divlia.
  - intros a H2 H3 H4. pose proof (page_split a). rewrite H2 in *. lia.
Qed.

(** Take one occurrence of [x] out of a list. *)
Fixpoint remove_one {A} `{EqDecision A} (x : A) (l : list A) : option (list A) :=
  match l with
  | [] => None
  | y :: l' => if decide (x = y) then Some l' else (fun r => y :: r) <$> remove_one x l'
  end.

Lemma remove_one_perm {A} `{EqDecision A} (x : A) l l' :
  remove_one x l = Some l' -> l ≡ₚ x :: l'.
Proof.
  revert l'. induction l as [|y l IH]; intros l'; cbn; [done|].
  case_decide; [by intros; simplify_eq|].
  destruct (remove_one x l) as [r|]; cbn; [|done]. intros [= <-].
  rewrite (IH r) by done. constructor.
Qed.
