(* ===== verification/Generations.v ===== *)
(** * Immutable generation chains

    Four structures of the code are chains of immutable layers linked by an
    optional [Arc] to a parent: [PageGeneration] (minidox-fork),
    [DirtyGeneration] (minidox-cache), [IdentityGeneration] and
    [DiskGeneration] (minidox-redoxfs).  A chain is never mutated after it is
    published, so an [Arc] to it is its value.  This file has the recursion
    the four share: lookup from the newest layer outwards, the two ways the
    code flattens a chain into one map, and the fork that seals the pending
    writes of a branch as a new layer. *)

From S2P Require Import Prelude.

#[local] Set Warnings "-register-all".

Inductive Generation (P : Type) : Type :=
  | mkGeneration (parent : option (Generation P)) (payload : P).
Arguments mkGeneration {P} parent payload.

Definition gen_parent {P} (g : Generation P) : option (Generation P) :=
  let '(mkGeneration p _) := g in p.
Definition gen_payload {P} (g : Generation P) : P :=
  let '(mkGeneration _ l) := g in l.

(** The induction principle through the optional parent. *)
Lemma Generation_rect' {P} (Q : Generation P -> Prop) :
  (forall l, Q (mkGeneration None l)) ->
  (forall p l, Q p -> Q (mkGeneration (Some p) l)) ->
  forall g, Q g.
Proof. intros H0 H1. fix IH 1. intros [[p|] l]; [apply H1, IH | apply H0]. Qed.

(** [self.layer.get(key).or_else(|| self.parent.and_then(|p| p.get(key)))]. *)
Fixpoint gen_lookup {P V} (f : P -> option V) (g : Generation P) : option V :=
  let '(mkGeneration parent l) := g in
  match f l with
  | Some v => Some v
  | None => match parent with Some p => gen_lookup f p | None => None end
  end.

(** [while let Some(current) = generation { for .. { visible.entry(k).or_insert(v) } }]. *)
Fixpoint gen_or_insert {P K V} `{Countable K} (f : P -> gmap K V) (visible : gmap K V)
    (g : Generation P) : gmap K V :=
  let '(mkGeneration parent l) := g in
  let visible' := or_insert_all visible (f l) in
  match parent with Some p => gen_or_insert f visible' p | None => visible' end.

(** [if let Some(p) = parent { p.visible(out) }; out.extend(layer)]. *)
Fixpoint gen_extend {P K V} `{Countable K} (f : P -> gmap K V) (out : gmap K V)
    (g : Generation P) : gmap K V :=
  let '(mkGeneration parent l) := g in
  extend (match parent with Some p => gen_extend f out p | None => out end) (f l).

(** Fold over every layer of the chain, newest first. *)
Fixpoint gen_fold {P A} (f : A -> P -> A) (a : A) (g : Generation P) : A :=
  let '(mkGeneration parent l) := g in
  let a' := f a l in
  match parent with Some p => gen_fold f a' p | None => a' end.

(** Specification of the flattened chain. *)
Fixpoint gen_union {P K V} `{Countable K} (f : P -> gmap K V) (g : Generation P) : gmap K V :=
  let '(mkGeneration parent l) := g in
  f l ∪ match parent with Some p => gen_union f p | None => ∅ end.

(** The layers of the chain, newest first. *)
Fixpoint gen_layers {P} (g : Generation P) : list P :=
  let '(mkGeneration parent l) := g in
  l :: match parent with Some p => gen_layers p | None => [] end.

Section generations.
Context {P K V : Type} `{Countable K}.
Implicit Types (g : Generation P) (f : P -> gmap K V).

Lemma lookup_gen_union f g k :
  gen_union f g !! k = gen_lookup (fun l => f l !! k) g.
Proof.
  induction g as [l|p l IH] using Generation_rect'; cbn.
  - rewrite (right_id_L ∅ (∪)). by destruct (f l !! k).
  - rewrite lookup_union, IH. by destruct (f l !! k); [rewrite union_Some_l|rewrite (left_id_L None (∪))].
Qed.

Lemma gen_or_insert_union f visible g :
  gen_or_insert f visible g = visible ∪ gen_union f g.
Proof.
  revert visible. induction g as [l|p l IH] using Generation_rect'; intros visible; cbn.
  - by rewrite or_insert_all_union, (right_id_L ∅ (∪)).
  - by rewrite or_insert_all_union, IH, (assoc_L (∪)).
Qed.

Lemma gen_extend_union f out g : gen_extend f out g = gen_union f g ∪ out.
Proof.
  induction g as [l|p l IH] using Generation_rect'; cbn.
  - by rewrite extend_union, (right_id_L ∅ (∪)).
  - by rewrite IH, extend_union, (assoc_L (∪)).
Qed.

Lemma gen_lookup_layers {A} (h : P -> option A) g a :
  gen_lookup h g = Some a -> exists l, l ∈ gen_layers g /\ h l = Some a.
Proof.
  induction g as [l|p l IH] using Generation_rect'; cbn; destruct (h l) eqn:Hl; intros; simplify_eq.
  - exists l. split; [left|done].
  - exists l. split; [left|done].
  - destruct IH as [l' [? ?]]; [done|]. exists l'. split; [by right|done].
Qed.

Lemma gen_fold_layers {A} (h : A -> P -> A) a g :
  gen_fold h a g = foldl h a (gen_layers g).
Proof.
  revert a. induction g as [l|p l IH] using Generation_rect'; intros a; cbn; [done|].
  apply IH.
Qed.
End generations.

#[export] Hint Rewrite @gen_or_insert_union @gen_extend_union @lookup_gen_union : minidox.

(** ** Branches over one keyed layer

    [PageBranch], [DirtyBranch] and [CowDisk] are a base chain plus a map of
    pending writes, with the same fork: if there are pending writes they are
    sealed as a new layer, and both sides continue from the sealed base with
    no pending writes. *)

Section branch.
Context {K V : Type} `{Countable K}.
Implicit Types (base : Generation (gmap K V)) (writes : gmap K V).

Definition seal base writes : Generation (gmap K V) :=
  if decide (writes = ∅) then base else mkGeneration (Some base) writes.

Definition branch_lookup base writes (k : K) : option V :=
  match writes !! k with
  | Some v => Some v
  | None => gen_lookup (fun l => l !! k) base
  end.

Definition branch_union base writes : gmap K V := writes ∪ gen_union id base.

Lemma lookup_branch_union base writes k :
  branch_union base writes !! k = branch_lookup base writes k.
Proof.
  unfold branch_union, branch_lookup. rewrite lookup_union, lookup_gen_union.
  by destruct (writes !! k); [rewrite union_Some_l|rewrite (left_id_L None (∪))].
Qed.

(** Sealing does not change what a reader sees. *)
Lemma seal_lookup base writes k :
  branch_lookup (seal base writes) ∅ k = branch_lookup base writes k.
Proof.
  unfold branch_lookup, seal. rewrite lookup_empty. case_decide; subst; cbn.
  - by rewrite lookup_empty.
  - done.
Qed.

Lemma seal_union base writes :
  branch_union (seal base writes) ∅ = branch_union base writes.
Proof. apply map_eq. intros k. by rewrite !lookup_branch_union, seal_lookup. Qed.

Lemma branch_lookup_insert base writes k v k' :
  branch_lookup base (<[k:=v]> writes) k' =
    if decide (k = k') then Some v else branch_lookup base writes k'.
Proof.
  unfold branch_lookup. case_decide; subst.
  - by rewrite lookup_insert_eq.
  - by rewrite lookup_insert_ne.
Qed.
End branch.

#[export] Hint Rewrite @seal_lookup @seal_union @lookup_branch_union
  @branch_lookup_insert : minidox.
