(* ===== verification/Host.v ===== *)
(** * Host files and I/O errors

    The part of the host the caches use: anonymous temporary files that are
    read and written at an offset.  A file is shared between every holder of
    an [Arc<File>] or of a DAX mapping, so files live in one store and a
    handle is an identity.  The host may fail any call and may transfer fewer
    bytes than asked for; [h_sched] is the list of the host's choices, one
    per call, so every theorem about this file holds for every behaviour of
    the host. *)

From S2P Require Import Prelude.

(** ** Errors *)

Inductive ErrorKind :=
  | UnexpectedEof | WriteZero | AlreadyExists | InvalidData | NotFound | Other.

Inductive io_error :=
  | RawOs (errno : N)
  | Custom (kind : ErrorKind) (message : string).

#[export] Instance ErrorKind_eq_dec : EqDecision ErrorKind.
Proof. solve_decision. Defined.
#[export] Instance io_error_eq_dec : EqDecision io_error.
Proof. solve_decision. Defined.

Definition ENOENT : N := 2.
Definition EEXIST : N := 17.
Definition EIO : N := 5.
Definition ENXIO : N := 6.
Definition EBUSY : N := 16.
Definition ENODEV : N := 19.
Definition EINVAL : N := 22.
Definition EOVERFLOW : N := 75.

(** [io::Error::kind]. *)
Definition error_kind (e : io_error) : ErrorKind :=
  match e with
  | Custom k _ => k
  | RawOs n => if n =? ENOENT then NotFound else if n =? EEXIST then AlreadyExists else Other
  end.

(** ** The host *)

(** What the host does with one call: fail, transfer at most so many bytes
    (at least one), or serve the call completely. *)
Inductive outcome :=
  | Fault (e : io_error)
  | Short (n : N)
  | Full.

Abbreviation FileId := N.

Record Host := mkHost {
  h_files : gmap FileId (list byte);
  h_next_file : FileId;
  h_sched : list outcome
}.

Definition set_files (f : gmap FileId (list byte)) (h : Host) : Host :=
  mkHost f (h_next_file h) (h_sched h).

Definition IO := M Host io_error.

(** Consume the host's choice for one call. *)
Definition syscall : IO outcome := fun h =>
  match h_sched h with
  | [] => (h, Ok Full)
  | Fault e :: rest => (mkHost (h_files h) (h_next_file h) rest, Err e)
  | o :: rest => (mkHost (h_files h) (h_next_file h) rest, Ok o)
  end.

(** Bytes transferred out of [n] requested. *)
Definition transfer (o : outcome) (n : N) : N :=
  match o with
  | Short k => N.min n (N.max 1 k)
  | _ => n
  end.

Definition file_bytes (h : Host) (f : FileId) : list byte :=
  default [] (h_files h !! f).

(** [tempfile::tempfile()]. *)
Definition tempfile : IO FileId :=
  _ ← syscall;
  h ← get;
  _ ← modify (fun h => mkHost (<[h_next_file h := []]> (h_files h))
                        (h_next_file h + 1) (h_sched h));
  mret (h_next_file h).

(** [File::set_len]. *)
Definition set_len (f : FileId) (n : N) : IO unit :=
  _ ← syscall;
  modify (fun h => set_files (<[f := resize_bytes n (file_bytes h f)]> (h_files h)) h).

(** [FileExt::read_at]: the bytes before the end of the file, possibly fewer. *)
Definition read_at (f : FileId) (n off : N) : IO (list byte) :=
  o ← syscall;
  gets (fun h => slice off (transfer o n) (file_bytes h f)).

(** Contents after writing [bytes] at [off]: a write past the end extends. *)
Definition file_write (off : N) (bytes contents : list byte) : list byte :=
  splice off bytes (resize_bytes (N.max (lenN contents) (off + lenN bytes)) contents).

(** [FileExt::write_at]: writes a prefix of [bytes], returns its length. *)
Definition write_at (f : FileId) (bytes : list byte) (off : N) : IO N :=
  o ← syscall;
  let n := transfer o (lenN bytes) in
  _ ← modify (fun h => set_files
        (<[f := file_write off (slice 0 n bytes) (file_bytes h f)]> (h_files h)) h);
  mret n.

(** ** The exact-transfer loops of minidox-cache *)

(** [read_exact_at]: [n] bytes are still wanted.  Every round that does not
    return transfers at least one byte, so [n] rounds are enough.  The loops of
    the Standard Library, which the shared cache calls, differ in that they try
    again after EINTR: such a run is that of a host which does not interrupt the
    call, so the runs here include theirs. *)
Fixpoint read_exact_loop (fuel : nat) (f : FileId) (n off : N) : IO (list byte) :=
  match fuel with
  | O => mret []
  | S fuel' =>
      if n =? 0 then mret [] else
      part ← read_at f n off;
      let count := lenN part in
      if count =? 0 then throw (Custom UnexpectedEof "short DAX read") else
      rest ← read_exact_loop fuel' f (n - count) (off + count);
      mret (part ++ rest)
  end.

Definition read_exact_at (f : FileId) (n off : N) : IO (list byte) :=
  read_exact_loop (N.to_nat n) f n off.

(** [write_all_at]. *)
Fixpoint write_all_loop (fuel : nat) (f : FileId) (bytes : list byte) (off : N) : IO unit :=
  match fuel with
  | O => mret tt
  | S fuel' =>
      if lenN bytes =? 0 then mret tt else
      count ← write_at f bytes off;
      if count =? 0 then throw (Custom WriteZero "short DAX write") else
      write_all_loop fuel' f (drop (N.to_nat count) bytes) (off + count)
  end.

Definition write_all_at (f : FileId) (bytes : list byte) (off : N) : IO unit :=
  write_all_loop (length bytes) f bytes off.

(** ** Facts *)

Lemma nthN_file_write off bs c i :
  nthN (file_write off bs c) i =
    if i <? N.max (lenN c) (off + lenN bs) then
      if (off <=? i) && (i <? off + lenN bs) then nthN bs (i - off)
      else Some (default zero_byte (nthN c i))
    else None.
Proof.
  unfold file_write. rewrite nthN_splice, nthN_resize.
  - cmp; cbn [andb]; try done; lia.
  - rewrite lenN_resize. lia.
Qed.

Lemma length_file_write off bs c :
  lenN (file_write off bs c) = N.max (lenN c) (off + lenN bs).
Proof.
  unfold file_write. rewrite lenN_splice; rewrite lenN_resize; lia.
Qed.

Lemma file_write_nil off c : off <= lenN c -> file_write off [] c = c.
Proof.
  intros Hoff. apply list_eq_nthN. intros i. rewrite nthN_file_write.
  change (lenN []) with 0. rewrite N.add_0_r.
  cmp; cbn [andb]; first
    [ lia | destruct (nthN_lt c i) as [x ->]; [lia|done] | symmetry; apply nthN_ge; lia ].
Qed.

(** Overwriting a whole file-sized range replaces the contents. *)
Lemma file_write_all bs c : length bs = length c -> file_write 0 bs c = bs.
Proof.
  intros Hlen. unfold file_write. rewrite splice_all; [done|].
  rewrite length_resize. unfold lenN. lia.
Qed.

Lemma file_write_in_bounds off bs c :
  off + lenN bs <= lenN c -> file_write off bs c = splice off bs c.
Proof.
  intros Hle. unfold file_write. f_equal. unfold resize_bytes.
  rewrite take_ge by (unfold lenN in *; lia).
  replace (_ - length c)%nat with 0%nat by (unfold lenN in *; lia).
  apply app_nil_r.
Qed.

(** A write done in two parts is the whole write. *)
Lemma file_write_app off a b c :
  file_write (off + lenN a) b (file_write off a c) = file_write off (a ++ b) c.
Proof.
  apply list_eq_nthN. intros i. rewrite !nthN_file_write, length_file_write, lenN_app.
  rewrite nthN_app. cmp; cbn [andb]; first
    [ lia | done | f_equal; lia
    | destruct (nthN_lt a (i - off)) as [x ->]; [lia|done] ].
Qed.

Section wp_host.
Implicit Types (h : Host).

(** Every host call leaves all files alone except the ones it names. *)
Definition same_files (h h' : Host) : Prop :=
  h_files h' = h_files h /\ h_next_file h' = h_next_file h.

Lemma wp_syscall Q R h :
  (forall o h', same_files h h' -> Q o h') ->
  (forall e h', same_files h h' -> R e h') ->
  wp syscall Q R h.
Proof.
  intros HQ HR. unfold wp, syscall.
  destruct (h_sched h) as [|[e|n|] rest]; [apply HQ|apply HR|apply HQ|apply HQ]; done.
Qed.

Lemma wp_read_exact_at f n off Q R h :
  (forall h', same_files h h' -> off + n <= lenN (file_bytes h f) ->
    Q (slice off n (file_bytes h f)) h') ->
  (n = 0 -> Q [] h) ->
  (forall e h', same_files h h' -> R e h') ->
  wp (read_exact_at f n off) Q R h.
Proof.
  unfold read_exact_at.
  remember (N.to_nat n) as fuel eqn:Hfuel.
  assert (N.to_nat n <= fuel)%nat as Hle by lia. clear Hfuel.
  revert n off Q h Hle.
  induction fuel as [|fuel IH]; intros n off Q h Hle HQ HQ0 HR; cbn [read_exact_loop].
  { wp_steps. apply HQ0. lia. }
  destruct (N.eqb_spec n 0) as [->|Hn]; [wp_steps; by apply HQ0|].
  unfold read_at at 1. wp_steps. apply wp_syscall; [|done].
  intros o h1 Hh1. wp_steps.
  assert (file_bytes h1 f = file_bytes h f) as Hb
    by (unfold file_bytes; by rewrite (proj1 Hh1)).
  rewrite Hb. set (part := slice off (transfer o n) (file_bytes h f)).
  assert (lenN part <= n) as Hpn.
  { unfold part, lenN. rewrite length_slice. unfold transfer. destruct o; lia. }
  destruct (N.eqb_spec (lenN part) 0) as [H0|H0].
  { wp_steps. by apply HR. }
  assert (part = slice off (lenN part) (file_bytes h f)) as Hpart.
  { apply list_eq_nthN. intros i. unfold part at 1. rewrite !nthN_slice.
    destruct (N.ltb_spec i (lenN part)) as [Hi|Hi].
    - unfold part, lenN in Hi. rewrite length_slice in Hi. cmp; [done|lia].
    - cmp; [|done]. apply nthN_ge.
      unfold part, lenN in *. rewrite length_slice in *. lia. }
  assert (off + lenN part <= lenN (file_bytes h f)) as Hin.
  { unfold part, lenN in *. rewrite length_slice in *. lia. }
  wp_steps. apply IH; [lia| | |].
  - intros h2 Hh2 Hlen. rewrite Hb in *. wp_steps.
    rewrite Hpart at 1. rewrite <-slice_split.
    replace (lenN part + (n - lenN part)) with n by lia. apply HQ; [|lia].
    destruct Hh1, Hh2. split; congruence.
  - intros Hz. wp_steps. rewrite app_nil_r, Hpart.
    replace (lenN part) with n by lia. apply HQ; [done|]. lia.
  - intros e h2 Hh2. apply HR. destruct Hh1, Hh2. split; congruence.
Qed.

Lemma wp_tempfile Q R h :
  (forall h', h_files h' = <[h_next_file h := []]> (h_files h) ->
    h_next_file h' = h_next_file h + 1 -> Q (h_next_file h) h') ->
  (forall e h', same_files h h' -> R e h') ->
  wp tempfile Q R h.
Proof.
  intros HQ HR. unfold tempfile. wp_steps. apply wp_syscall; [|done].
  intros o h1 [Hf Hn]. wp_steps. rewrite Hn. apply HQ; cbn; by rewrite ?Hf, ?Hn.
Qed.

Lemma wp_set_len f n Q R h :
  (forall h', h_files h' = <[f := resize_bytes n (file_bytes h f)]> (h_files h) ->
    h_next_file h' = h_next_file h -> Q tt h') ->
  (forall e h', same_files h h' -> R e h') ->
  wp (set_len f n) Q R h.
Proof.
  intros HQ HR. unfold set_len. wp_steps. apply wp_syscall; [|done].
  intros o h1 [Hf Hn]. wp_steps. apply HQ; cbn; [|done].
  unfold file_bytes. by rewrite Hf.
Qed.

(** [c'] may differ from [c] in the [n] bytes at [off] only, and is not shorter. *)
Definition changed_within (off n : N) (c c' : list byte) : Prop :=
  lenN c <= lenN c' <= N.max (lenN c) (off + n) /\
  forall i, i < lenN c -> i < off \/ off + n <= i -> nthN c' i = nthN c i.

Lemma changed_within_write off part n c :
  lenN part <= n -> part <> [] -> changed_within off n c (file_write off part c).
Proof.
  intros Hle Hne. assert (0 < lenN part) by (unfold lenN; destruct part; [done|cbn; lia]).
  unfold changed_within. rewrite length_file_write. split; [lia|].
  intros i Hi Hout. rewrite nthN_file_write.
  cmp; cbn [andb]; try lia; destruct (nthN_lt c i) as [x ->]; first [done | lia].
Qed.

(** What a transfer that failed half way leaves: the file, or the file with
    the front of the buffer written. *)
Definition torn_write (off : N) (bytes c c' : list byte) : Prop :=
  c' = c \/ exists part rest, part <> [] /\ bytes = part ++ rest /\ c' = file_write off part c.

Lemma torn_within off bytes c c' : torn_write off bytes c c' -> changed_within off (lenN bytes) c c'.
Proof.
  intros [->|(part & rest & Hne & -> & ->)]; [split; [lia|done]|].
  apply changed_within_write; [rewrite lenN_app; lia|done].
Qed.

Lemma nthN_write_in off part c i :
  off + lenN part <= lenN c ->
  nthN (file_write off part c) i =
    if (off <=? i) && (i <? off + lenN part) then nthN part (i - off) else nthN c i.
Proof. intros Hl. by rewrite file_write_in_bounds, nthN_splice. Qed.

Lemma torn_bytes off bytes c c' :
  torn_write off bytes c c' -> off + lenN bytes <= lenN c ->
  lenN c' = lenN c /\
  forall i, nthN c' i = nthN c i \/ off <= i < off + lenN bytes /\ nthN c' i = nthN bytes (i - off).
Proof.
  intros [->|(part & rest & _ & -> & ->)] Hl; [by auto|]. rewrite lenN_app in *.
  split; [rewrite length_file_write; lia|]. intros i. rewrite nthN_write_in by lia.
  destruct (N.leb_spec off i), (N.ltb_spec i (off + lenN part)); cbn; auto.
  right. split; [lia|]. rewrite nthN_app. by rewrite (proj2 (N.ltb_lt _ _)) by lia.
Qed.

Lemma wp_write_all_torn f bytes off c Q R h :
  h_files h !! f = Some c ->
  bytes <> [] ->
  (forall h', h_files h' = <[f := file_write off bytes c]> (h_files h) ->
    h_next_file h' = h_next_file h -> Q tt h') ->
  (forall e h' c', h_files h' = <[f := c']> (h_files h) -> torn_write off bytes c c' ->
    h_next_file h' = h_next_file h -> R e h') ->
  wp (write_all_at f bytes off) Q R h.
Proof.
  intros Hc Hne. unfold write_all_at.
  assert (length bytes <= length bytes)%nat as Hle by lia.
  revert Hle. generalize (length bytes) at 2 3 as fuel. intros fuel.
  revert bytes off c Q h Hc Hne.
  induction fuel as [|fuel IH]; intros bytes off c Q h Hc Hne Hle HQ HR; cbn [write_all_loop].
  { destruct bytes; cbn in Hle; [done|lia]. }
  assert (0 < lenN bytes) as Hpos by (unfold lenN; destruct bytes; [done|cbn; lia]).
  rewrite (proj2 (N.eqb_neq _ _)) by lia.
  unfold write_at at 1. wp_steps. apply wp_syscall.
  2:{ intros e h1 [Hf Hn]. apply (HR e h1 c); [by rewrite insert_id, Hf|by left|done]. }
  intros o h1 [Hf Hn]. wp_steps. cbv zeta.
  set (n := transfer o (lenN bytes)).
  assert (0 < n <= lenN bytes) as Hn' by (unfold n, transfer; destruct o; lia).
  rewrite (proj2 (N.eqb_neq _ _)) by lia.
  assert (file_bytes h1 f = c) as Hb by (unfold file_bytes; by rewrite Hf, Hc).
  rewrite Hb. set (part := slice 0 n bytes). set (rest := drop (N.to_nat n) bytes).
  assert (bytes = part ++ rest) as Hsplit.
  { unfold part, rest, slice. by rewrite drop_0, take_drop. }
  assert (lenN part = n) as Hpart by (apply lenN_slice; lia).
  assert (part <> []) as Hpne by (intros Hp; rewrite Hp in Hpart; unfold lenN in Hpart; cbn [length] in Hpart; lia).
  set (h2 := set_files _ h1).
  assert (h_files h2 = <[f := file_write off part c]> (h_files h)) as Hf2
    by (unfold h2; cbn; by rewrite Hf).
  assert (h_next_file h2 = h_next_file h) as Hn2 by (by cbn).
  destruct (decide (rest = [])) as [Hr|Hr].
  - rewrite Hr. rewrite Hr, app_nil_r in Hsplit.
    destruct fuel; cbn; wp_steps; (apply HQ; [by rewrite Hsplit|done]).
  - eapply (IH _ _ (file_write off part c)); [by rewrite Hf2, lookup_insert_eq|done| | |].
    + unfold rest. rewrite length_drop. lia.
    + intros h3 Hf3 Hn3. apply HQ; [|congruence].
      rewrite Hf3, Hf2, insert_insert_eq, <-Hpart, file_write_app. by rewrite <-Hsplit.
    + intros e h3 c' Hf3 Ht Hn3. apply (HR e h3 c'); [| |congruence].
      * by rewrite Hf3, Hf2, insert_insert_eq.
      * right. destruct Ht as [->|(part2 & rest2 & Hne2 & Hs2 & ->)]; [by exists part, rest|].
        exists (part ++ part2), rest2. split; [by destruct part|].
        split; [by rewrite <-app_assoc, <-Hs2|]. by rewrite <-Hpart, file_write_app.
Qed.

(** On success the whole buffer is in the file; on failure part of it may be. *)
Lemma wp_write_all_at f bytes off c Q R h :
  h_files h !! f = Some c ->
  bytes <> [] ->
  (forall h', h_files h' = <[f := file_write off bytes c]> (h_files h) ->
    h_next_file h' = h_next_file h -> Q tt h') ->
  (forall e h' c', h_files h' = <[f := c']> (h_files h) ->
    changed_within off (lenN bytes) c c' ->
    h_next_file h' = h_next_file h -> R e h') ->
  wp (write_all_at f bytes off) Q R h.
Proof.
  intros Hc Hne HQ HR. apply (wp_write_all_torn f bytes off c); [done..|].
  intros e h' c' Hf Ht. eapply HR; [exact Hf|]. by apply torn_within.
Qed.
End wp_host.
