(* ===== verification/CacheTypes.v ===== *)
(** * Types shared by the two page caches (crates/minidox-cache/src/lib.rs)

    Node identities, mapping flags, the error type of the caches, and the
    [NodeStore] trait the caches are generic in. *)

From S2P Require Import Prelude Host.

(** [NodeId] is a [u32]; [PageKey] is a node and a byte offset. *)
Abbreviation NodeId := N.
Abbreviation PageKey := (N * N)%type.

(** The [MapFlags] bit set. *)
Record MapFlags := mkFlags { READ : bool; WRITE : bool }.

Definition flag_R : MapFlags := mkFlags true false.
Definition flag_W : MapFlags := mkFlags false true.
Definition flag_RW : MapFlags := mkFlags true true.

#[export] Instance MapFlags_eq_dec : EqDecision MapFlags.
Proof. solve_decision. Defined.

Definition flags_or (a b : MapFlags) : MapFlags :=
  mkFlags (READ a || READ b) (WRITE a || WRITE b).

Inductive CacheError :=
  | Io (e : io_error)
  | InvalidMapping (message : string)
  | NodeNotOpen (node : NodeId)
  | BranchNotFound (branch : N)
  | StaleMapping
  | ActiveMappings
  | PageBusy.

#[export] Instance CacheError_eq_dec : EqDecision CacheError.
Proof. solve_decision. Defined.

(** The [NodeStore] trait.  A method takes [&mut self] and may use the state
    the process shares (global counters, the storage directory), so it acts
    on a pair of that world [W] and the store [S].  [read_node] returns the
    bytes it put in the front of a buffer of the given length. *)
Class NodeStore (W S : Type) := {
  ns_len : NodeId -> M (W * S) io_error N;
  read_node : NodeId -> N -> N -> M (W * S) io_error (list byte);
  write_node : NodeId -> N -> list byte -> M (W * S) io_error N;
  on_open_node : NodeId -> M (W * S) io_error unit;
  on_close_node : NodeId -> M (W * S) io_error unit
}.

(** What a page of a file holds when its end lies inside the page. *)
Definition pad_page (bytes : list byte) : list byte := resize_bytes PAGE_SIZE bytes.

Lemma length_pad_page bs : length (pad_page bs) = page_nat.
Proof. unfold pad_page. rewrite length_resize. apply Nat2N.inj. rewrite page_nat_N. lia. Qed.
