(* ===== verification/ForkPages.v ===== *)
(** * Page branches (crates/minidox-fork/src/lib.rs)

    The model address spaces of minidox-fork: a [PageBranch] maps (path, page
    number) to immutable pages through a chain of generations plus the pages
    written since the last fork.  Guest memory is the branch read at the empty
    path; files are read at their path. *)

From S2P Require Import Prelude Generations Host CacheTypes.

Abbreviation VmId := N.

(** [Error] of minidox-fork. *)
Inductive Error :=
  | VmNotFound (vm : VmId)
  | RangeOverflow
  | PageIdOverflow
  | ErrIo (e : io_error)
  | ErrCache (e : CacheError).

#[export] Instance Error_eq_dec : EqDecision Error.
Proof. solve_decision. Defined.

Record Page := mkPage { page_id : N; page_bytes : list byte }.

Abbreviation FilePage := (string * N)%type.

Abbreviation PageGeneration := (Generation (gmap FilePage Page)).

Record PageBranch := mkPageBranch {
  base : PageGeneration;
  writes : gmap FilePage Page
}.

Record SpaceAccounting := mkAccounting { resident_pages : nat; shared_pages : nat }.

#[export] Instance SpaceAccounting_eq_dec : EqDecision SpaceAccounting.
Proof. solve_decision. Defined.

Module Branch.

(** [PageGeneration::empty]. *)
Definition gen_empty : PageGeneration := mkGeneration None ∅.

(** [PageGeneration::page]. *)
Definition gen_page (g : PageGeneration) (key : FilePage) : option Page :=
  gen_lookup (fun pages => pages !! key) g.

(** [PageBranch::empty]. *)
Definition empty : PageBranch := mkPageBranch gen_empty ∅.

(** [PageBranch::fork]: the branch as left behind, and the child. *)
Definition fork (b : PageBranch) : PageBranch * PageBranch :=
  let b' := if decide (writes b = ∅) then b
            else mkPageBranch (mkGeneration (Some (base b)) (writes b)) ∅ in
  (b', mkPageBranch (base b') ∅).

(** [PageBranch::page]. *)
Definition page (b : PageBranch) (key : FilePage) : option Page :=
  match writes b !! key with
  | Some p => Some p
  | None => gen_page (base b) key
  end.

(** One round of the loop of [PageBranch::write]: the part of
    [offset .. offset + bytes.len()] from [cursor] to the end of its page.
    Returns the number of bytes handled. *)
Definition write_page (path : string) (offset : N) (bytes : list byte) (end_ cursor : N) :
    M (PageBranch * N) Error N :=
  let page_number := cursor / PAGE_SIZE in
  let page_offset := cursor mod PAGE_SIZE in
  let count := N.min (PAGE_SIZE - page_offset) (end_ - cursor) in
  let key := (path, page_number) in
  '(b, next_page) ← get;
  let contents := match page b key with
                  | Some p => page_bytes p
                  | None => zero_page
                  end in
  let contents := splice page_offset (slice (cursor - offset) count bytes) contents in
  let p := mkPage next_page contents in
  match checked_add next_page 1 with
  | None => throw PageIdOverflow
  | Some next' =>
      _ ← modify (fun _ => (mkPageBranch (base b) (<[key := p]> (writes b)), next'));
      mret count
  end.

(** The [while cursor < end] loop.  A round handles at least one byte, so the
    number of bytes bounds the number of rounds. *)
Fixpoint write_loop (fuel : nat) (path : string) (offset : N) (bytes : list byte)
    (end_ cursor : N) : M (PageBranch * N) Error unit :=
  match fuel with
  | O => mret tt
  | S fuel' =>
      if cursor <? end_ then
        count ← write_page path offset bytes end_ cursor;
        write_loop fuel' path offset bytes end_ (cursor + count)
      else mret tt
  end.

(** [PageBranch::write]; the second state component is [*next_page]. *)
Definition write (path : string) (offset : N) (bytes : list byte) :
    M (PageBranch * N) Error unit :=
  match checked_add offset (lenN bytes) with
  | None => throw RangeOverflow
  | Some end_ => write_loop (length bytes) path offset bytes end_ offset
  end.

(** The loop of [PageBranch::read] over the result buffer. *)
Fixpoint read_loop (fuel : nat) (b : PageBranch) (path : string) (offset end_ cursor : N)
    (buffer : list byte) : list byte :=
  match fuel with
  | O => buffer
  | S fuel' =>
      if cursor <? end_ then
        let page_number := cursor / PAGE_SIZE in
        let page_offset := cursor mod PAGE_SIZE in
        let count := N.min (PAGE_SIZE - page_offset) (end_ - cursor) in
        let buffer' := match page b (path, page_number) with
                       | Some p => splice (cursor - offset)
                                     (slice page_offset count (page_bytes p)) buffer
                       | None => buffer
                       end in
        read_loop fuel' b path offset end_ (cursor + count) buffer'
      else buffer
  end.

(** [PageBranch::read]. *)
Definition read (b : PageBranch) (path : string) (offset len : N) : result Error (list byte) :=
  match checked_add offset len with
  | None => Err RangeOverflow
  | Some end_ =>
      Ok (read_loop (N.to_nat len) b path offset end_ offset
            (replicate (N.to_nat len) zero_byte))
  end.

(** [PageBranch::visible_pages]. *)
Definition visible_pages (b : PageBranch) : gmap FilePage Page :=
  gen_or_insert id (writes b) (base b).

Definition page_ids (pages : gmap FilePage Page) : gset N :=
  map_to_set (fun _ p => page_id p) pages.

(** [PageBranch::add_retained_page_ids]. *)
Definition add_retained_page_ids (b : PageBranch) (retained : gset N) : gset N :=
  gen_fold (fun acc pages => acc ∪ page_ids pages) (retained ∪ page_ids (writes b)) (base b).

(** [account_pages]: retained pages, and visible pages more than one branch
    reaches. *)
Definition account_pages (branches : list PageBranch) : SpaceAccounting :=
  let '(resident, references) :=
    foldl (fun '(resident, references) b =>
             (add_retained_page_ids b resident,
              bump_all references (page_ids (visible_pages b))))
      (∅, ∅) branches in
  mkAccounting (size resident) (count_shared references).

(** ** Correctness *)

(** The abstract contents: the byte at each address of each path. *)
Definition byte_at (b : PageBranch) (path : string) (a : N) : byte :=
  match page b (path, a / PAGE_SIZE) with
  | Some p => default zero_byte (nthN (page_bytes p) (a mod PAGE_SIZE))
  | None => zero_byte
  end.

(** Every visible page is a whole page. *)
Definition pages_wf (b : PageBranch) : Prop :=
  forall key p, page b key = Some p -> length (page_bytes p) = page_nat.

Lemma page_branch_lookup b key : page b key = branch_lookup (base b) (writes b) key.
Proof. done. Qed.

Lemma page_fork_self b key : page (fork b).1 key = page b key.
Proof.
  unfold fork; cbn. case_decide; [done|]. unfold page, gen_page; cbn. by rewrite lookup_empty.
Qed.

Lemma page_fork_child b key : page (fork b).2 key = page b key.
Proof.
  rewrite <-(page_fork_self b). unfold fork; cbn. case_decide as Hw; cbn; [|done].
  unfold page; cbn. by rewrite Hw.
Qed.

Lemma page_insert b key p key' :
  page (mkPageBranch (base b) (<[key := p]> (writes b))) key' =
    if decide (key = key') then Some p else page b key'.
Proof. rewrite !page_branch_lookup. cbn. apply branch_lookup_insert. Qed.

Lemma byte_at_fork_self b path a : byte_at (fork b).1 path a = byte_at b path a.
Proof. unfold byte_at. by rewrite page_fork_self. Qed.

Lemma byte_at_fork_child b path a : byte_at (fork b).2 path a = byte_at b path a.
Proof. unfold byte_at. by rewrite page_fork_child. Qed.

Lemma pages_wf_empty : pages_wf empty.
Proof. intros key p. unfold page, gen_page, empty; cbn. by rewrite !lookup_empty. Qed.

Lemma pages_wf_fork b : pages_wf b -> pages_wf (fork b).1 /\ pages_wf (fork b).2.
Proof.
  intros Hwf. split; intros key p; rewrite ?page_fork_self, ?page_fork_child; apply Hwf.
Qed.

Lemma byte_at_empty path a : byte_at empty path a = zero_byte.
Proof. unfold byte_at, page, gen_page, empty; cbn. by rewrite !lookup_empty. Qed.

(** The effect of writing [bytes] at [offset] on the range from [lo] to [hi]. *)
Definition written (b b' : PageBranch) (path : string) (offset : N) (bytes : list byte)
    (lo hi : N) : Prop :=
  forall path' a, byte_at b' path' a =
    if decide (path' = path) then
      if in_range lo hi a then default zero_byte (nthN bytes (a - offset))
      else byte_at b path' a
    else byte_at b path' a.

Lemma written_empty b path offset bytes lo hi : hi <= lo -> written b b path offset bytes lo hi.
Proof. intros Hle path' a. rewrite in_range_false by lia. by case_decide. Qed.

Lemma written_trans b1 b2 b3 path offset bytes lo mid hi :
  lo <= mid <= hi ->
  written b1 b2 path offset bytes lo mid ->
  written b2 b3 path offset bytes mid hi ->
  written b1 b3 path offset bytes lo hi.
Proof.
  intros Hle H1 H2 path' a. rewrite H2, H1.
  case_decide; [|done].
  destruct (in_range_spec lo mid a), (in_range_spec mid hi a), (in_range_spec lo hi a);
    done || lia.
Qed.

Lemma wp_write_page path offset bytes end_ cursor b next :
  pages_wf b -> offset <= cursor < end_ -> end_ = offset + lenN bytes ->
  let count := N.min (PAGE_SIZE - cursor mod PAGE_SIZE) (end_ - cursor) in
  wp (write_page path offset bytes end_ cursor)
    (fun n '(b', next') => n = count /\ next' = next + 1 /\ next < u64_MAX /\ pages_wf b' /\
       written b b' path offset bytes cursor (cursor + count))
    (fun e s => e = PageIdOverflow /\ s = (b, next) /\ u64_MAX <= next)
    (b, next).
Proof.
  intros Hwf Hc Hend count. unfold write_page. wp_steps. fold count.
  destruct (cursor_step cursor end_) as (Hpos & Hle & Hfit & _ & Hin & Hout); [lia|].
  fold count in Hpos, Hle, Hfit, Hin, Hout.
  set (old := match page b _ with Some p => _ | None => _ end).
  assert (lenN old = PAGE_SIZE) as Hold.
  { unfold old, lenN. rewrite <-page_nat_N. f_equal.
    destruct (page b _) eqn:Hp; [by eapply Hwf|apply length_zero_page]. }
  assert (lenN (slice (cursor - offset) count bytes) = count) as Hsl
    by (apply lenN_slice; lia).
  destruct (checked_add next 1) as [next'|] eqn:Hadd.
  2:{ apply checked_add_None in Hadd. wp_steps. split_and!; [done|done|lia]. }
  apply checked_add_Some in Hadd as [-> Hmax]. wp_steps.
  split_and!; [done|done|lia| |].
  - intros key p. rewrite page_insert. case_decide; [|apply Hwf].
    intros [= <-]. cbn. rewrite length_splice by (rewrite Hold, Hsl; lia).
    apply Nat2N.inj. rewrite page_nat_N. done.
  - intros path' a. unfold byte_at. rewrite page_insert.
    case_decide as Heq.
    + injection Heq as <- Hdiv. cbn [page_bytes].
      rewrite nthN_splice by (rewrite Hold, Hsl; lia). rewrite Hsl.
      rewrite decide_True by done.
      destruct (in_range_spec cursor (cursor + count) a) as [Ha|Ha].
      * destruct (Hin a Ha) as [_ ->].
        rewrite (proj2 (N.leb_le _ _)), (proj2 (N.ltb_lt _ _)) by lia. cbn [andb].
        rewrite nthN_slice. cmp; [|lia]. do 2 f_equal. lia.
      * destruct (_ && _) eqn:Hb.
        -- apply andb_true_iff in Hb as [H1%N.leb_le H2%N.ltb_lt].
           destruct (Hout a); [done|done|done|]. lia.
        -- unfold old. rewrite <-Hdiv. destruct (page b _); [done|].
           unfold zero_page, nthN. by destruct (replicate _ _ !! _) eqn:Hr;
             [apply lookup_replicate in Hr as [-> _]|].
    + case_decide as Hp; [|done]. subst path'.
      destruct (in_range_spec cursor (cursor + count) a) as [Ha|Ha]; [|done].
      exfalso. apply Heq. by destruct (Hin a Ha) as [-> _].
Qed.

(** Pages a byte range touches, and the address a write stops at when only
    the page identities from [next] to [u64::MAX] remain. *)
Definition pages_spanned (lo hi : N) : N :=
  if lo <? hi then (hi - 1) / PAGE_SIZE - lo / PAGE_SIZE + 1 else 0.

Definition write_stop (next lo hi : N) : N :=
  N.min hi (N.max lo ((lo / PAGE_SIZE + (u64_MAX - next)) * PAGE_SIZE)).

Lemma write_stop_step next lo hi :
  lo < hi -> next < u64_MAX ->
  let n := N.min (PAGE_SIZE - lo mod PAGE_SIZE) (hi - lo) in
  write_stop (next + 1) (lo + n) hi = write_stop next lo hi /\
  pages_spanned lo hi = 1 + pages_spanned (lo + n) hi.
Proof.
  intros Hlt Hnext n. destruct (cursor_step lo hi Hlt) as (Hpos & Hle & Hfit & Hend & Hin & _).
  fold n in Hpos, Hle, Hfit, Hend, Hin. clearbody n.
  unfold write_stop, pages_spanned. rewrite (proj2 (N.ltb_lt lo hi)) by done.
  destruct Hend as [<-|[Hm Hd]].
  - destruct (Hin (lo + n - 1)) as [Hdiv _]; [lia|]. clear Hin.
    rewrite N.ltb_irrefl, Hdiv. page_abs lo. split; pagelia.
  - clear Hin. rewrite Hd. cmp.
    + page_abs (hi - 1). page_abs lo. page_abs (lo + n). split; pagelia.
    + assert (hi = lo + n) as -> by lia. page_abs lo. page_abs (lo + n).
      page_abs (lo + n - 1). split; pagelia.
Qed.

Lemma wp_write_loop fuel path offset bytes end_ cursor b next :
  pages_wf b -> next <= u64_MAX -> offset <= cursor <= end_ -> end_ = offset + lenN bytes ->
  (N.to_nat (end_ - cursor) <= fuel)%nat ->
  wp (write_loop fuel path offset bytes end_ cursor)
    (fun _ '(b', next') =>
       write_stop next cursor end_ = end_ /\ next' = next + pages_spanned cursor end_ /\
       pages_wf b' /\ written b b' path offset bytes cursor end_)
    (fun e '(b', next') =>
       e = PageIdOverflow /\ write_stop next cursor end_ < end_ /\ next' = u64_MAX /\
       pages_wf b' /\ written b b' path offset bytes cursor (write_stop next cursor end_))
    (b, next).
Proof.
  revert cursor b next. induction fuel as [|fuel IH];
    intros cursor b next Hwf Hnext Hc Hend Hfuel; cbn [write_loop].
  { assert (cursor = end_) as -> by lia. wp_steps. unfold write_stop, pages_spanned.
    rewrite N.ltb_irrefl. split_and!; [lia|lia|done|by apply written_empty]. }
  destruct (N.ltb_spec cursor end_) as [Hlt|Hge].
  2:{ assert (cursor = end_) as -> by lia. wp_steps. unfold write_stop, pages_spanned.
      rewrite N.ltb_irrefl. split_and!; [lia|lia|done|by apply written_empty]. }
  wp_steps. eapply wp_mono; [apply wp_write_page; [done|lia|done]| |].
  - intros n [b1 next1] (-> & -> & Hn & Hwf1 & Hw1).
    destruct (cursor_step cursor end_ Hlt) as (Hpos & Hle & _).
    destruct (write_stop_step next cursor end_ Hlt Hn) as [Hstop Hspan].
    eapply wp_mono; [apply IH; [done|lia|lia|done|lia]| |].
    + intros _ [b2 next2] (Hs & -> & Hwf2 & Hw2). split_and!; [congruence|lia|done|].
      eapply written_trans; [|done|done]. lia.
    + intros e [b2 next2] (-> & Hs & -> & Hwf2 & Hw2). rewrite Hstop in *.
      split_and!; [done|done|done|done|]. eapply written_trans; [|done|done].
      rewrite <-Hstop. unfold write_stop. lia.
  - intros e [b1 next1] (-> & [= -> ->] & Hmax). assert (next = u64_MAX) as -> by lia.
    assert (write_stop u64_MAX cursor end_ = cursor) as ->.
    { unfold write_stop. page_abs cursor. pagelia. }
    split_and!; [done|done|done|done|]. by apply written_empty.
Qed.

(** [PageBranch::write] on every branch: a range past the address space is
    refused with nothing changed; otherwise the bytes land at their addresses
    and nowhere else, up to the address at which the page identities run out. *)
Lemma wp_write path offset bytes b next :
  pages_wf b -> next <= u64_MAX ->
  let end_ := offset + lenN bytes in
  wp (write path offset bytes)
    (fun _ '(b', next') =>
       end_ <= u64_MAX /\ write_stop next offset end_ = end_ /\
       next' = next + pages_spanned offset end_ /\
       pages_wf b' /\ written b b' path offset bytes offset end_)
    (fun e '(b', next') =>
       (e = RangeOverflow /\ u64_MAX < end_ /\ b' = b /\ next' = next) \/
       (e = PageIdOverflow /\ end_ <= u64_MAX /\ write_stop next offset end_ < end_ /\
        next' = u64_MAX /\ pages_wf b' /\
        written b b' path offset bytes offset (write_stop next offset end_)))
    (b, next).
Proof.
  intros Hwf Hnext end_. unfold write.
  destruct (checked_add offset (lenN bytes)) as [e|] eqn:Hadd.
  - apply checked_add_Some in Hadd as [-> Hmax]. fold end_. fold end_ in Hmax.
    eapply wp_mono; [apply wp_write_loop; [done|done|lia|done|unfold end_, lenN; lia]| |].
    + intros _ [b' next'] (? & ? & ? & ?). done.
    + intros e [b' next'] (? & ? & ? & ? & ?). right. done.
  - apply checked_add_None in Hadd. wp_steps. by left.
Qed.

Lemma nthN_zeros n i : nthN (replicate n zero_byte) i = if i <? N.of_nat n then Some zero_byte else None.
Proof.
  unfold nthN. cmp.
  - apply lookup_replicate_2. lia.
  - apply lookup_ge_None_2. rewrite length_replicate. lia.
Qed.

Lemma read_loop_spec fuel b path offset end_ cursor buffer :
  pages_wf b -> offset <= cursor <= end_ -> lenN buffer = end_ - offset ->
  (N.to_nat (end_ - cursor) <= fuel)%nat ->
  (forall i, cursor - offset <= i < end_ - offset -> nthN buffer i = Some zero_byte) ->
  let out := read_loop fuel b path offset end_ cursor buffer in
  lenN out = lenN buffer /\
  forall i, nthN out i =
    if in_range (cursor - offset) (end_ - offset) i
    then Some (byte_at b path (offset + i)) else nthN buffer i.
Proof.
  intros Hwf. revert cursor buffer.
  induction fuel as [|fuel IH]; intros cursor buffer Hc Hlen Hfuel Hzero; cbn [read_loop].
  { split; [done|]. intros i. rewrite in_range_false by lia. done. }
  destruct (N.ltb_spec cursor end_) as [Hlt|Hge].
  2:{ split; [done|]. intros i. rewrite in_range_false by lia. done. }
  destruct (cursor_step cursor end_ Hlt) as (Hpos & Hle & Hfit & _ & Hin & _).
  set (n := N.min (PAGE_SIZE - cursor mod PAGE_SIZE) (end_ - cursor)) in *.
  set (buffer' := match page b _ with Some p => _ | None => _ end).
  assert (lenN buffer' = lenN buffer /\ forall i, nthN buffer' i =
    if in_range (cursor - offset) (cursor + n - offset) i
    then Some (byte_at b path (offset + i)) else nthN buffer i) as [Hlen' Hnth'].
  { unfold buffer'. destruct (page b _) as [p|] eqn:Hp.
    - assert (lenN (page_bytes p) = PAGE_SIZE) as Hps
        by (unfold lenN; rewrite (Hwf _ _ Hp); apply page_nat_N).
      assert (lenN (slice (cursor mod PAGE_SIZE) n (page_bytes p)) = n) as Hsl
        by (apply lenN_slice; lia).
      split; [apply lenN_splice; lia|]. intros i. rewrite nthN_splice, Hsl by lia.
      fold (in_range (cursor - offset) (cursor - offset + n) i).
      replace (cursor - offset + n) with (cursor + n - offset) by lia.
      destruct (in_range_spec (cursor - offset) (cursor + n - offset) i) as [Hi|]; [|done].
      destruct (Hin (offset + i)) as [Hd Hm]; [lia|].
      rewrite nthN_slice. unfold byte_at. rewrite Hd, Hp, Hm.
      rewrite (proj2 (N.ltb_lt _ _)) by lia.
      replace (cursor mod PAGE_SIZE + (offset + i - cursor))
        with (cursor mod PAGE_SIZE + (i - (cursor - offset))) by lia.
      destruct (nthN_lt (page_bytes p) (cursor mod PAGE_SIZE + (i - (cursor - offset))))
        as [x ->]; [lia|done].
    - split; [done|]. intros i.
      destruct (in_range_spec (cursor - offset) (cursor + n - offset) i) as [Hi|]; [|done].
      rewrite Hzero by lia. unfold byte_at. destruct (Hin (offset + i)) as [-> _]; [lia|].
      by rewrite Hp. }
  destruct (IH (cursor + n) buffer') as [IHlen IHnth]; [lia|lia|lia| |].
  { intros i Hi. rewrite Hnth', in_range_false by lia. apply Hzero. lia. }
  split; [congruence|]. intros i. rewrite IHnth, Hnth'.
  destruct (in_range_spec (cursor + n - offset) (end_ - offset) i),
    (in_range_spec (cursor - offset) (cursor + n - offset) i),
    (in_range_spec (cursor - offset) (end_ - offset) i); done || lia.
Qed.

(** [PageBranch::read] returns exactly the bytes of the range, or refuses a
    range past the address space. *)
Lemma read_spec b path offset len :
  pages_wf b ->
  match read b path offset len with
  | Ok out => offset + len <= u64_MAX /\ lenN out = len /\
      forall i, i < len -> nthN out i = Some (byte_at b path (offset + i))
  | Err e => e = RangeOverflow /\ u64_MAX < offset + len
  end.
Proof.
  intros Hwf. unfold read. destruct (checked_add offset len) as [e|] eqn:Hadd.
  - apply checked_add_Some in Hadd as [-> Hmax].
    assert (lenN (replicate (N.to_nat len) zero_byte) = len) as Hl
      by (unfold lenN; rewrite length_replicate; lia).
    destruct (read_loop_spec (N.to_nat len) b path offset (offset + len) offset
      (replicate (N.to_nat len) zero_byte)) as [Hlen Hnth]; [done|lia|lia|lia| |].
    { intros i Hi. rewrite nthN_zeros. rewrite (proj2 (N.ltb_lt _ _)) by lia. done. }
    split_and!; [done|lia|]. intros i Hi. rewrite Hnth, in_range_true by lia. done.
  - apply checked_add_None in Hadd. done.
Qed.

(** ** Accounting *)

Definition retained (b : PageBranch) : gset N := add_retained_page_ids b ∅.

Lemma page_ids_empty : page_ids ∅ = ∅.
Proof. done. Qed.

Lemma fold_retained acc g :
  gen_fold (fun a pages => a ∪ page_ids pages) acc g =
  acc ∪ gen_fold (fun a pages => a ∪ page_ids pages) ∅ g.
Proof.
  revert acc. induction g as [l|p l IH] using Generation_rect'; intros acc; cbn [gen_fold].
  - set_solver.
  - rewrite IH, (IH (∅ ∪ page_ids l)). set_solver.
Qed.

Lemma add_retained b acc : add_retained_page_ids b acc = acc ∪ retained b.
Proof.
  unfold retained, add_retained_page_ids.
  rewrite fold_retained, (fold_retained (∅ ∪ _)). set_solver.
Qed.

(** A fork retains no page that was not retained before, and loses none. *)
Lemma retained_fork b : retained (fork b).1 = retained b /\ retained (fork b).2 = retained b.
Proof.
  unfold fork. cbn. case_decide as Hw; unfold retained, add_retained_page_ids; cbn [base writes].
  - by rewrite Hw.
  - cbn [gen_fold]. rewrite page_ids_empty.
    by rewrite !(left_id_L ∅ (∪)).
Qed.

Lemma visible_fork b :
  visible_pages (fork b).1 = visible_pages b /\ visible_pages (fork b).2 = visible_pages b.
Proof.
  assert (forall b', visible_pages b' = branch_union (base b') (writes b')) as Hv
    by (intros; apply gen_or_insert_union).
  rewrite !Hv. split; apply map_eq; intros k; rewrite !lookup_branch_union.
  - apply (page_fork_self b k).
  - apply (page_fork_child b k).
Qed.

Lemma account_pages_spec bs :
  account_pages bs =
    mkAccounting (size (⋃ (retained <$> bs)))
      (count_shared (count_refs ((fun b => page_ids (visible_pages b)) <$> bs))).
Proof.
  unfold account_pages, count_refs.
  assert (forall bs' r refs,
    foldl (fun '(resident, references) b =>
             (add_retained_page_ids b resident,
              bump_all references (page_ids (visible_pages b)))) (r, refs) bs' =
    (r ∪ ⋃ (retained <$> bs'),
     foldl bump_all refs ((fun b => page_ids (visible_pages b)) <$> bs'))) as Hfold.
  { induction bs' as [|b bs' IH]; intros r refs; cbn.
    - by rewrite (right_id_L ∅ (∪)).
    - rewrite IH, add_retained. f_equal. by rewrite (assoc_L (∪)). }
  rewrite Hfold. by rewrite (left_id_L ∅ (∪)).
Qed.
End Branch.
