(* ===== verification/ForkForest.v ===== *)
(** * The fork forest (crates/minidox-fork/src/lib.rs, [ForkForest])

    A forest owns the VMs of one fork forest: each VM has a memory and a
    filesystem [PageBranch], and all of them draw page identities from one
    counter.  The file defines the operations, an abstract forest in which a
    VM is just two address spaces of bytes, and proves that the operations
    refine it; isolation of forked VMs and the accounting facts follow. *)

From S2P Require Import Prelude Generations Host CacheTypes ForkPages.

Record VmState := mkVmState { memory : PageBranch; filesystem : PageBranch }.

Record ForkForest := mkForest {
  next_vm : N;
  next_page : N;
  vms : gmap VmId VmState
}.

Record PageAccounting := mkPageAccounting {
  acc_memory : SpaceAccounting;
  acc_filesystem : SpaceAccounting
}.

#[export] Instance PageAccounting_eq_dec : EqDecision PageAccounting.
Proof. solve_decision. Defined.

Module Forest.

Definition new : ForkForest := mkForest 1 1 ∅.

(** [self.next_vm += 1] wraps in a release build. *)
Definition create_vm (f : ForkForest) : ForkForest * VmId :=
  let id := next_vm f in
  (mkForest (wrapping_add (next_vm f) 1) (next_page f)
     (<[id := mkVmState Branch.empty Branch.empty]> (vms f)), id).

Definition fork_vm (source : VmId) : M ForkForest Error VmId := fun f =>
  match vms f !! source with
  | None => (f, Err (VmNotFound source))
  | Some source_vm =>
      let '(memory', child_memory) := Branch.fork (memory source_vm) in
      let '(filesystem', child_filesystem) := Branch.fork (filesystem source_vm) in
      let child := next_vm f in
      (mkForest (wrapping_add (next_vm f) 1) (next_page f)
         (<[child := mkVmState child_memory child_filesystem]>
            (<[source := mkVmState memory' filesystem']> (vms f))), Ok child)
  end.

Definition remove_vm (vm : VmId) : M ForkForest Error unit := fun f =>
  match vms f !! vm with
  | None => (f, Err (VmNotFound vm))
  | Some _ => (mkForest (next_vm f) (next_page f) (delete vm (vms f)), Ok tt)
  end.

Definition write_file (vm : VmId) (path : string) (offset : N) (bytes : list byte) :
    M ForkForest Error unit := fun f =>
  match vms f !! vm with
  | None => (f, Err (VmNotFound vm))
  | Some s =>
      let '((b, next'), r) := Branch.write path offset bytes (filesystem s, next_page f) in
      (mkForest (next_vm f) next' (<[vm := mkVmState (memory s) b]> (vms f)), r)
  end.

Definition read_file (f : ForkForest) (vm : VmId) (path : string) (offset len : N) :
    result Error (list byte) :=
  match vms f !! vm with
  | None => Err (VmNotFound vm)
  | Some s => Branch.read (filesystem s) path offset len
  end.

Definition write_memory (vm : VmId) (guest_address : N) (bytes : list byte) :
    M ForkForest Error unit := fun f =>
  match vms f !! vm with
  | None => (f, Err (VmNotFound vm))
  | Some s =>
      let '((b, next'), r) := Branch.write "" guest_address bytes (memory s, next_page f) in
      (mkForest (next_vm f) next' (<[vm := mkVmState b (filesystem s)]> (vms f)), r)
  end.

Definition read_memory (f : ForkForest) (vm : VmId) (guest_address len : N) :
    result Error (list byte) :=
  match vms f !! vm with
  | None => Err (VmNotFound vm)
  | Some s => Branch.read (memory s) "" guest_address len
  end.

(** [self.vms.values()]; the accounting does not depend on the order. *)
Definition page_accounting (f : ForkForest) : PageAccounting :=
  let states := (map_to_list (vms f)).*2 in
  mkPageAccounting (Branch.account_pages (memory <$> states))
    (Branch.account_pages (filesystem <$> states)).

(** ** Programs over a forest *)

Inductive op :=
  | CreateVm
  | ForkVm (source : VmId)
  | RemoveVm (vm : VmId)
  | WriteFile (vm : VmId) (path : string) (offset : N) (bytes : list byte)
  | ReadFile (vm : VmId) (path : string) (offset len : N)
  | WriteMemory (vm : VmId) (guest_address : N) (bytes : list byte)
  | ReadMemory (vm : VmId) (guest_address len : N).

Inductive output :=
  | OutVm (r : result Error VmId)
  | OutUnit (r : result Error unit)
  | OutBytes (r : result Error (list byte)).

Definition run_op (o : op) (f : ForkForest) : ForkForest * output :=
  match o with
  | CreateVm => let '(f', id) := create_vm f in (f', OutVm (Ok id))
  | ForkVm s => let '(f', r) := fork_vm s f in (f', OutVm r)
  | RemoveVm v => let '(f', r) := remove_vm v f in (f', OutUnit r)
  | WriteFile v p a bs => let '(f', r) := write_file v p a bs f in (f', OutUnit r)
  | ReadFile v p a n => (f, OutBytes (read_file f v p a n))
  | WriteMemory v a bs => let '(f', r) := write_memory v a bs f in (f', OutUnit r)
  | ReadMemory v a n => (f, OutBytes (read_memory f v a n))
  end.

Fixpoint run (ops : list op) (f : ForkForest) : ForkForest * list output :=
  match ops with
  | [] => (f, [])
  | o :: ops' =>
      let '(f', out) := run_op o f in
      let '(f'', outs) := run ops' f' in (f'', out :: outs)
  end.

(** ** The abstract forest *)

(** An address space: the byte at each address of each path. *)
Definition space : Type := string -> N -> byte.

Definition zero_space : space := fun _ _ => zero_byte.

Definition space_write (s : space) (path : string) (offset : N) (bytes : list byte)
    (stop : N) : space := fun path' a =>
  if decide (path' = path) then
    if in_range offset stop a then default zero_byte (nthN bytes (a - offset)) else s path' a
  else s path' a.

Record AForest := mkAForest {
  a_next_vm : N;
  a_next_page : N;
  a_vms : gmap VmId (space * space)
}.

Definition a_new : AForest := mkAForest 1 1 ∅.

(** A write: the new contents, the new page counter and the result. *)
Definition a_write (s : space) (next : N) (path : string) (offset : N) (bytes : list byte) :
    space * N * result Error unit :=
  let end_ := offset + lenN bytes in
  if u64_MAX <? end_ then (s, next, Err RangeOverflow) else
  let stop := Branch.write_stop next offset end_ in
  if stop <? end_ then (space_write s path offset bytes stop, u64_MAX, Err PageIdOverflow)
  else (space_write s path offset bytes end_, next + Branch.pages_spanned offset end_, Ok tt).

(** A read: the bytes of the range. *)
Definition a_read (s : space) (path : string) (offset len : N) : result Error (list byte) :=
  if u64_MAX <? offset + len then Err RangeOverflow
  else Ok ((fun i => s path (offset + N.of_nat i)) <$> seq 0 (N.to_nat len)).

Definition a_run_op (o : op) (f : AForest) : AForest * output :=
  match o with
  | CreateVm =>
      (mkAForest (wrapping_add (a_next_vm f) 1) (a_next_page f)
         (<[a_next_vm f := (zero_space, zero_space)]> (a_vms f)), OutVm (Ok (a_next_vm f)))
  | ForkVm v =>
      match a_vms f !! v with
      | None => (f, OutVm (Err (VmNotFound v)))
      | Some s => (mkAForest (wrapping_add (a_next_vm f) 1) (a_next_page f)
                     (<[a_next_vm f := s]> (a_vms f)), OutVm (Ok (a_next_vm f)))
      end
  | RemoveVm v =>
      match a_vms f !! v with
      | None => (f, OutUnit (Err (VmNotFound v)))
      | Some _ => (mkAForest (a_next_vm f) (a_next_page f) (delete v (a_vms f)), OutUnit (Ok tt))
      end
  | WriteFile v p a bs =>
      match a_vms f !! v with
      | None => (f, OutUnit (Err (VmNotFound v)))
      | Some (m, s) =>
          let '(s', next, r) := a_write s (a_next_page f) p a bs in
          (mkAForest (a_next_vm f) next (<[v := (m, s')]> (a_vms f)), OutUnit r)
      end
  | ReadFile v p a n =>
      (f, OutBytes (match a_vms f !! v with
                    | None => Err (VmNotFound v)
                    | Some (m, s) => a_read s p a n
                    end))
  | WriteMemory v a bs =>
      match a_vms f !! v with
      | None => (f, OutUnit (Err (VmNotFound v)))
      | Some (m, s) =>
          let '(m', next, r) := a_write m (a_next_page f) "" a bs in
          (mkAForest (a_next_vm f) next (<[v := (m', s)]> (a_vms f)), OutUnit r)
      end
  | ReadMemory v a n =>
      (f, OutBytes (match a_vms f !! v with
                    | None => Err (VmNotFound v)
                    | Some (m, s) => a_read m "" a n
                    end))
  end.

Fixpoint a_run (ops : list op) (f : AForest) : AForest * list output :=
  match ops with
  | [] => (f, [])
  | o :: ops' =>
      let '(f', out) := a_run_op o f in
      let '(f'', outs) := a_run ops' f' in (f'', out :: outs)
  end.

(** ** Refinement *)

Definition rel_space (b : PageBranch) (s : space) : Prop :=
  Branch.pages_wf b /\ forall p a, Branch.byte_at b p a = s p a.

Definition rel_vm (v : VmState) (a : space * space) : Prop :=
  rel_space (memory v) a.1 /\ rel_space (filesystem v) a.2.

(** A forest and the abstract forest it implements. *)
Record rel (f : ForkForest) (a : AForest) : Prop := mkRel {
  rel_next_vm : next_vm f = a_next_vm a;
  rel_next_page : next_page f = a_next_page a;
  rel_page_bound : next_page f <= u64_MAX;
  rel_vms : map_Forall2 (fun _ => rel_vm) (vms f) (a_vms a)
}.

Lemma write_stop_bound next lo hi :
  next <= u64_MAX -> Branch.write_stop next lo hi = hi ->
  next + Branch.pages_spanned lo hi <= u64_MAX.
Proof.
  unfold Branch.write_stop, Branch.pages_spanned. intros Hn Hs.
  cmp; [|lia]. page_abs lo. page_abs (hi - 1). pagelia.
Qed.

Lemma rel_space_empty : rel_space Branch.empty zero_space.
Proof. split; [apply Branch.pages_wf_empty|]. intros. apply Branch.byte_at_empty. Qed.

Lemma rel_space_fork b s :
  rel_space b s -> rel_space (Branch.fork b).1 s /\ rel_space (Branch.fork b).2 s.
Proof.
  intros [Hwf Hb]. apply Branch.pages_wf_fork in Hwf as [? ?].
  repeat split; try done; intros;
    by rewrite ?Branch.byte_at_fork_self, ?Branch.byte_at_fork_child.
Qed.

Lemma write_refines b s next path offset bytes :
  rel_space b s -> next <= u64_MAX ->
  exists b' next' s' r,
    Branch.write path offset bytes (b, next) = ((b', next'), r) /\
    a_write s next path offset bytes = (s', next', r) /\
    rel_space b' s' /\ next' <= u64_MAX.
Proof.
  intros [Hwf Hb] Hn. pose proof (Branch.wp_write path offset bytes b next Hwf Hn) as Hw.
  unfold wp in Hw. unfold a_write.
  destruct (Branch.write _ _ _ _) as [[b' next'] [[]|e]].
  - destruct Hw as (Hmax & Hs & -> & Hwf' & Hw). exists b', (next + Branch.pages_spanned offset (offset + lenN bytes)).
    rewrite (proj2 (N.ltb_ge _ _)), Hs, N.ltb_irrefl by lia.
    do 2 eexists. split_and!; [done|done| |by apply write_stop_bound].
    split; [done|]. intros p a. rewrite Hw, Hb. done.
  - exists b', next'. destruct Hw as [(-> & Hlt & -> & ->)|(-> & Hle & Hlt & -> & Hwf' & Hw)].
    + rewrite (proj2 (N.ltb_lt _ _)) by lia. do 2 eexists. by split_and!.
    + rewrite (proj2 (N.ltb_ge u64_MAX _)), (proj2 (N.ltb_lt _ _)) by lia.
      do 2 eexists. split_and!; [done|done| |lia].
      split; [done|]. intros p a. rewrite Hw, Hb. done.
Qed.

Lemma read_refines b s path offset len :
  rel_space b s -> Branch.read b path offset len = a_read s path offset len.
Proof.
  intros [Hwf Hb]. pose proof (Branch.read_spec b path offset len Hwf) as Hr.
  unfold a_read. destruct (Branch.read _ _ _ _) as [out|e].
  - destruct Hr as (Hle & Hlen & Hnth). rewrite (proj2 (N.ltb_ge _ _)) by lia. f_equal.
    apply list_eq_nthN. intros i. unfold nthN at 2. rewrite list_lookup_fmap.
    destruct (decide (i < len)).
    + rewrite Hnth, lookup_seq_lt, Hb by lia. cbn. do 2 f_equal. lia.
    + rewrite nthN_ge by lia. rewrite lookup_seq_ge by lia. done.
  - destruct Hr as [-> Hlt]. by rewrite (proj2 (N.ltb_lt _ _)).
Qed.

Lemma rel_lookup f a v :
  rel f a ->
  match vms f !! v, a_vms a !! v with
  | Some s, Some p => rel_vm s p
  | None, None => True
  | _, _ => False
  end.
Proof.
  intros Hrel. pose proof (rel_vms _ _ Hrel v) as H.
  by destruct H.
Qed.

Lemma run_op_refines o f a :
  rel f a ->
  rel (run_op o f).1 (a_run_op o a).1 /\ (run_op o f).2 = (a_run_op o a).2.
Proof.
  intros Hrel. pose proof Hrel as [Hvm Hpg Hle Hvms].
  destruct o as [|v|v|v p x bs|v p x n|v x bs|v x n]; cbn.
  - rewrite Hvm. split; [|done]. split; cbn; [congruence|done|done|].
    apply map_Forall2_insert_2; [|done]. split; apply rel_space_empty.
  - pose proof (rel_lookup f a v Hrel) as Hl. unfold fork_vm.
    destruct (vms f !! v) as [s|] eqn:Hs, (a_vms a !! v) as [p|] eqn:Hp; try done.
    destruct Hl as [Hm Hf]. apply rel_space_fork in Hm as [??], Hf as [??].
    destruct (Branch.fork (memory s)), (Branch.fork (filesystem s)); cbn in *.
    rewrite Hvm. split; [|done]. split; cbn; [congruence|done|done|].
    apply map_Forall2_insert_2; [done|].
    rewrite <-(insert_id (a_vms a) v p) by done. by apply map_Forall2_insert_2.
  - pose proof (rel_lookup f a v Hrel) as Hl. unfold remove_vm.
    destruct (vms f !! v) as [s|], (a_vms a !! v) as [p|]; try done.
    split; [|done]. split; cbn; try done. by apply map_Forall2_delete.
  - pose proof (rel_lookup f a v Hrel) as Hl. unfold write_file.
    destruct (vms f !! v) as [s|], (a_vms a !! v) as [[m fs]|]; try done.
    destruct Hl as [Hm Hf]. cbn in Hm, Hf. rewrite <-Hpg.
    destruct (write_refines _ _ (next_page f) p x bs Hf Hle)
      as (b' & next' & s' & r & -> & -> & Hr & Hn).
    split; [|done]. split; cbn; try done. by apply map_Forall2_insert_2.
  - split; [done|]. f_equal. unfold read_file. pose proof (rel_lookup f a v Hrel) as Hl.
    destruct (vms f !! v) as [s|], (a_vms a !! v) as [[m fs]|]; try done.
    apply read_refines, Hl.
  - pose proof (rel_lookup f a v Hrel) as Hl. unfold write_memory.
    destruct (vms f !! v) as [s|], (a_vms a !! v) as [[m fs]|]; try done.
    destruct Hl as [Hm Hf]. cbn in Hm, Hf. rewrite <-Hpg.
    destruct (write_refines _ _ (next_page f) "" x bs Hm Hle)
      as (b' & next' & s' & r & -> & -> & Hr & Hn).
    split; [|done]. split; cbn; try done. by apply map_Forall2_insert_2.
  - split; [done|]. f_equal. unfold read_memory. pose proof (rel_lookup f a v Hrel) as Hl.
    destruct (vms f !! v) as [s|], (a_vms a !! v) as [[m fs]|]; try done.
    apply read_refines, Hl.
Qed.

Lemma run_refines ops f a :
  rel f a -> rel (run ops f).1 (a_run ops a).1 /\ (run ops f).2 = (a_run ops a).2.
Proof.
  revert f a. induction ops as [|o ops IH]; intros f a Hrel; [done|].
  cbn. destruct (run_op_refines o f a Hrel) as [Hrel' Hout].
  destruct (run_op o f) as [f' out], (a_run_op o a) as [a' out']. cbn in Hrel', Hout.
  destruct (IH f' a' Hrel') as [Hrel'' Houts].
  destruct (run ops f') as [f'' outs], (a_run ops a') as [a'' outs'].
  cbn in *. by subst.
Qed.

Lemma rel_new : rel new a_new.
Proof. split; [done|done|done|]. apply map_Forall2_empty. Qed.

(** ** Isolation *)

(** The VM whose contents an operation may change or remove. *)
Definition target (o : op) : option VmId :=
  match o with
  | RemoveVm v => Some v
  | WriteFile v _ _ _ => Some v
  | WriteMemory v _ _ => Some v
  | _ => None
  end.

Lemma a_run_op_next o a :
  a_next_vm a < u64_MAX ->
  a_next_vm a <= a_next_vm (a_run_op o a).1 <= a_next_vm a + 1.
Proof.
  intros Hlt. assert (wrapping_add (a_next_vm a) 1 = a_next_vm a + 1) as Hw
    by (apply wrapping_add_small; lia).
  destruct o; cbn; repeat case_match; cbn; lia.
Qed.

Lemma a_run_op_frame o a v :
  v < a_next_vm a -> target o <> Some v ->
  a_vms (a_run_op o a).1 !! v = a_vms a !! v.
Proof.
  intros Hv Ht. destruct o; cbn in *; repeat case_match; cbn; try done;
    rewrite ?lookup_insert_ne, ?lookup_delete_ne; (done || lia || by intros ->).
Qed.

Lemma a_run_frame ops a v :
  v < a_next_vm a -> a_next_vm a + lenN ops <= u64_MAX ->
  Forall (fun o => target o <> Some v) ops ->
  a_vms (a_run ops a).1 !! v = a_vms a !! v.
Proof.
  revert a. induction ops as [|o ops IH]; intros a Hv Hn Hf; [done|].
  apply Forall_cons in Hf as [Ho Hf].
  assert (lenN (o :: ops) = 1 + lenN ops) as Hl by (unfold lenN; cbn; lia).
  pose proof (a_run_op_next o a) as Hnext. pose proof (a_run_op_frame o a v Hv Ho) as Hfr.
  cbn. destruct (a_run_op o a) as [a' out]. cbn in *.
  specialize (IH a'). destruct (a_run ops a') as [a'' outs]. cbn in *.
  rewrite IH; [done|lia|lia|done].
Qed.

(** What a VM reads, in both of its address spaces. *)
Definition same_reads (f : ForkForest) (v : VmId) (f' : ForkForest) (v' : VmId) : Prop :=
  vms f !! v <> None /\ vms f' !! v' <> None /\
  (forall path off len, read_file f v path off len = read_file f' v' path off len) /\
  (forall off len, read_memory f v off len = read_memory f' v' off len).

Lemma rel_same_reads f a v f' a' v' p :
  rel f a -> rel f' a' -> a_vms a !! v = Some p -> a_vms a' !! v' = Some p ->
  same_reads f v f' v'.
Proof.
  intros Hr Hr' Hp Hp'. pose proof (rel_lookup f a v Hr) as Hl.
  pose proof (rel_lookup f' a' v' Hr') as Hl'. rewrite Hp in Hl. rewrite Hp' in Hl'.
  unfold same_reads, read_file, read_memory.
  destruct (vms f !! v) as [s|]; [|done]. destruct (vms f' !! v') as [s'|]; [|done].
  destruct Hl as [Hm Hf], Hl' as [Hm' Hf']. split_and!; [done|done| |]; intros.
  - by rewrite (read_refines _ _ _ _ _ Hf), (read_refines _ _ _ _ _ Hf').
  - by rewrite (read_refines _ _ _ _ _ Hm), (read_refines _ _ _ _ _ Hm').
Qed.

Lemma run_reads_frame ops f a v :
  rel f a -> vms f !! v <> None -> v < next_vm f -> next_vm f + lenN ops <= u64_MAX ->
  Forall (fun o => target o <> Some v) ops ->
  same_reads (run ops f).1 v f v.
Proof.
  intros Hr Hv Hlt Hn Hf. destruct (run_refines ops f a Hr) as [Hr' _].
  pose proof (rel_lookup f a v Hr) as Hl. rewrite (rel_next_vm _ _ Hr) in *.
  destruct (vms f !! v) as [s|], (a_vms a !! v) as [p|] eqn:Hp; try done.
  apply (rel_same_reads _ (a_run ops a).1 v _ a v p); [done|done| |done].
  by rewrite a_run_frame.
Qed.

Lemma fork_vm_refines f a source f' child :
  rel f a -> fork_vm source f = (f', Ok child) ->
  child = next_vm f /\ exists p, a_vms a !! source = Some p /\ rel f' (a_run_op (ForkVm source) a).1 /\
  a_vms (a_run_op (ForkVm source) a).1 !! child = Some p.
Proof.
  intros Hr Hfork. destruct (run_op_refines (ForkVm source) f a Hr) as [Hr' Hout].
  cbn [run_op] in Hr', Hout. rewrite Hfork in Hr', Hout. cbn in Hr', Hout |- *.
  rewrite (rel_next_vm _ _ Hr).
  destruct (a_vms a !! source) as [p|]; cbn in *; simplify_eq.
  split; [done|]. exists p. split_and!; [done|done|]. apply lookup_insert_eq.
Qed.

Definition reachable (f : ForkForest) : Prop := exists ops, f = (run ops new).1.

Lemma reachable_rel f : reachable f -> exists a, rel f a.
Proof. intros [ops ->]. eexists. apply (run_refines ops new a_new rel_new). Qed.

(** A forked VM and its source, followed through any later operations that do
    not touch them. *)
Lemma fork_reads f source f' child ops :
  reachable f -> fork_vm source f = (f', Ok child) ->
  source < next_vm f -> next_vm f + 1 + lenN ops <= u64_MAX ->
  (Forall (fun o => target o <> Some child) ops -> same_reads (run ops f').1 child f source) /\
  (Forall (fun o => target o <> Some source) ops -> same_reads (run ops f').1 source f source).
Proof.
  intros [a Hr]%reachable_rel Hfork Hlt Hn.
  destruct (fork_vm_refines f a source f' child Hr Hfork) as (-> & p & Hp & Hr' & Hchild).
  pose proof (a_run_op_next (ForkVm source) a) as Hnext.
  pose proof (a_run_op_frame (ForkVm source) a source) as Hframe.
  pose proof (rel_next_vm _ _ Hr) as Hv. rewrite Hv in *.
  assert (a_next_vm (a_run_op (ForkVm source) a).1 = a_next_vm a + 1) as Hnv.
  { cbn. rewrite Hp. cbn. apply wrapping_add_small. lia. }
  set (a' := (a_run_op (ForkVm source) a).1) in *.
  destruct (run_refines ops f' a' Hr') as [Hr'' _].
  split; intros Hf; apply (rel_same_reads _ (a_run ops a').1 _ _ a _ p); try done.
  - by rewrite a_run_frame by (done || lia).
  - rewrite a_run_frame by (done || lia). by rewrite Hframe.
Qed.

(** ** Accounting of a fork *)

Lemma union_list_perm (l l' : list (gset N)) : l ≡ₚ l' -> ⋃ l = ⋃ l'.
Proof.
  intros Hp. apply set_eq. intros x. rewrite !elem_of_union_list.
  by setoid_rewrite Hp.
Qed.

Lemma fork_vm_states source f f' child s :
  fork_vm source f = (f', Ok child) -> vms f !! source = Some s ->
  vms f !! next_vm f = None ->
  let m := Branch.fork (memory s) in let fs := Branch.fork (filesystem s) in
  exists rest,
    (map_to_list (vms f)).*2 ≡ₚ s :: rest /\
    (map_to_list (vms f')).*2 ≡ₚ mkVmState m.2 fs.2 :: mkVmState m.1 fs.1 :: rest /\
    next_page f' = next_page f.
Proof.
  intros Hfork Hs Hfresh m fs. unfold fork_vm in Hfork. rewrite Hs in Hfork.
  fold m in Hfork. fold fs in Hfork. destruct m as [m1 m2], fs as [fs1 fs2]. simplify_eq. cbn.
  exists (map_to_list (delete source (vms f))).*2.
  split_and!; [| |done].
  - by rewrite <-(map_to_list_delete _ _ _ Hs).
  - assert (source <> next_vm f) as Hne by congruence.
    rewrite map_to_list_insert by (by rewrite lookup_insert_ne).
    cbn. apply perm_skip. rewrite <-insert_delete_eq.
    by rewrite map_to_list_insert by apply lookup_delete_eq.
Qed.

(** Adding a fork to the accounted branches. *)
Lemma account_pages_fork b bs rest bs' :
  bs ≡ₚ b :: rest -> bs' ≡ₚ (Branch.fork b).2 :: (Branch.fork b).1 :: rest ->
  resident_pages (Branch.account_pages bs') = resident_pages (Branch.account_pages bs) /\
  (size (Branch.page_ids (Branch.visible_pages b)) <= shared_pages (Branch.account_pages bs'))%nat.
Proof.
  intros Hp Hp'. rewrite !Branch.account_pages_spec. cbn.
  destruct (Branch.retained_fork b) as [Hr1 Hr2], (Branch.visible_fork b) as [Hv1 Hv2]. split.
  - f_equal.
    rewrite (union_list_perm (Branch.retained <$> bs) (Branch.retained <$> (b :: rest)))
      by (by rewrite Hp).
    rewrite (union_list_perm (Branch.retained <$> bs')
      (Branch.retained <$> ((Branch.fork b).2 :: (Branch.fork b).1 :: rest))) by (by rewrite Hp').
    rewrite !fmap_cons, !union_list_cons, Hr1, Hr2. set_solver.
  - unfold count_shared. rewrite <-size_dom. apply subseteq_size. intros k Hk.
    rewrite dom_shared_refs. unfold holders. rewrite Hp', !fmap_cons, Hv1, Hv2.
    rewrite !filter_cons, !decide_True by done. cbn [length]. lia.
Qed.
End Forest.

(** ** Properties *)

(** C21.  Refinement: every program of forest operations run on a new
    [ForkForest] produces exactly the outputs of the abstract forest, in which
    a VM is two spaces of bytes, a fork copies them, and a write changes the
    bytes of its range and nothing else.  Errors are part of the outputs. *)
Theorem forest_refines_bytes (ops : list Forest.op) :
  (Forest.run ops Forest.new).2 = (Forest.a_run ops Forest.a_new).2.
Proof. apply (Forest.run_refines ops Forest.new Forest.a_new Forest.rel_new). Qed.

(** C22.  Isolation: after a successful fork, whatever later operations do to
    other VMs, the child reads what the source read at the fork point as long
    as none of them writes to or removes the child, and the source keeps
    reading what it read as long as none of them writes to or removes the
    source. *)
Theorem fork_isolates (f : ForkForest) (source : VmId) (f' : ForkForest) (child : VmId)
    (ops : list Forest.op) :
  Forest.reachable f -> Forest.fork_vm source f = (f', Ok child) ->
  source < next_vm f -> next_vm f + 1 + lenN ops <= u64_MAX ->
  (Forall (fun o => Forest.target o <> Some child) ops ->
     Forest.same_reads (Forest.run ops f').1 child f source) /\
  (Forall (fun o => Forest.target o <> Some source) ops ->
     Forest.same_reads (Forest.run ops f').1 source f source).
Proof. apply Forest.fork_reads. Qed.

Definition isolation_example : ForkForest :=
  (Forest.run [Forest.CreateVm; Forest.WriteMemory 1 4094 [Byte.x41; Byte.x42; Byte.x43];
               Forest.WriteFile 1 "etc" 0 [Byte.x07]] Forest.new).1.

Lemma fork_isolates_witness :
  Forest.same_reads
    (Forest.run [Forest.WriteMemory 1 4095 [Byte.x7a]; Forest.ForkVm 1]
       (Forest.fork_vm 1 isolation_example).1).1 2 isolation_example 1 /\
  Forest.read_memory isolation_example 1 4094 3 = Ok [Byte.x41; Byte.x42; Byte.x43].
Proof.
  split; [|by vm_compute].
  apply (fork_isolates isolation_example 1 (Forest.fork_vm 1 isolation_example).1 2
    [Forest.WriteMemory 1 4095 [Byte.x7a]; Forest.ForkVm 1]).
  - by eexists.
  - by vm_compute.
  - by vm_compute.
  - by vm_compute.
  - repeat constructor; by cbn.
Defined.

(** A fork copies nothing: it allocates no page identity, the number of
    physical pages retained by the forest stays the same in both address
    spaces, and every page the source sees is then counted as shared. *)
Theorem fork_shares_pages (f : ForkForest) (source : VmId) (f' : ForkForest) (child : VmId)
    (s : VmState) :
  Forest.fork_vm source f = (f', Ok child) -> vms f !! source = Some s ->
  vms f !! next_vm f = None ->
  let before := Forest.page_accounting f in
  let after := Forest.page_accounting f' in
  next_page f' = next_page f /\
  resident_pages (acc_memory after) = resident_pages (acc_memory before) /\
  resident_pages (acc_filesystem after) = resident_pages (acc_filesystem before) /\
  (size (Branch.page_ids (Branch.visible_pages (memory s))) <= shared_pages (acc_memory after))%nat /\
  (size (Branch.page_ids (Branch.visible_pages (filesystem s)))
     <= shared_pages (acc_filesystem after))%nat.
Proof.
  intros Hfork Hs Hfresh before after.
  destruct (Forest.fork_vm_states source f f' child s Hfork Hs Hfresh) as (rest & Hp & Hp' & Hn).
  split; [done|]. unfold before, after, Forest.page_accounting. cbn.
  destruct (Forest.account_pages_fork (memory s) (memory <$> (map_to_list (vms f)).*2)
    (memory <$> rest) (memory <$> (map_to_list (vms f')).*2)) as [Hm1 Hm2];
    [by rewrite Hp|by rewrite Hp'|].
  destruct (Forest.account_pages_fork (filesystem s) (filesystem <$> (map_to_list (vms f)).*2)
    (filesystem <$> rest) (filesystem <$> (map_to_list (vms f')).*2)) as [Hf1 Hf2];
    [by rewrite Hp|by rewrite Hp'|].
  done.
Qed.

Lemma fork_shares_pages_witness :
  shared_pages (acc_memory (Forest.page_accounting (Forest.fork_vm 1 isolation_example).1)) = 2%nat /\
  resident_pages (acc_memory (Forest.page_accounting (Forest.fork_vm 1 isolation_example).1)) =
  resident_pages (acc_memory (Forest.page_accounting isolation_example)).
Proof.
  split; [by vm_compute|].
  destruct (vms isolation_example !! 1) as [s|] eqn:Hs; [|by vm_compute in Hs].
  apply (fork_shares_pages isolation_example 1 (Forest.fork_vm 1 isolation_example).1 2 s).
  - by vm_compute.
  - done.
  - by vm_compute.
Defined.
