(* ===== verification/DirtyPages.v ===== *)
(** * Dirty pages of a branch (crates/minidox-cache/src/branching.rs)

    A branch records which of its pages differ from its store as changes over
    a chain of shared generations: a fork inherits the dirty pages of its
    source, and each side then cleans its own. *)

From S2P Require Import Prelude Generations CacheTypes.

Record DirtyBranch := mkDirty {
  d_base : Generation (gmap PageKey bool);
  d_changes : gmap PageKey bool
}.

Module Dirty.

(** [DirtyBranch::new]. *)
Definition new : DirtyBranch := mkDirty (mkGeneration None ∅) ∅.

(** [DirtyBranch::fork]: the branch as left behind, and the child. *)
Definition fork (d : DirtyBranch) : DirtyBranch * DirtyBranch :=
  let d' := if decide (d_changes d = ∅) then d
            else mkDirty (mkGeneration (Some (d_base d)) (d_changes d)) ∅ in
  (d', mkDirty (d_base d') ∅).

Definition mark_dirty (key : PageKey) (d : DirtyBranch) : DirtyBranch :=
  mkDirty (d_base d) (<[key := true]> (d_changes d)).

Definition mark_clean (key : PageKey) (d : DirtyBranch) : DirtyBranch :=
  mkDirty (d_base d) (<[key := false]> (d_changes d)).

Definition of_node (node : NodeId) (m : gmap PageKey bool) : gmap PageKey bool :=
  filter (fun kv : PageKey * bool => kv.1.1 = node) m.

(** Keys marked dirty, in key order. *)
Definition collect (visible : gmap PageKey bool) : list PageKey :=
  filter (fun k => visible !! k = Some true) (btree_keys visible).

(** [DirtyBranch::pages_for_node]. *)
Definition pages_for_node (d : DirtyBranch) (node : NodeId) : list PageKey :=
  collect (gen_or_insert (of_node node) (extend ∅ (of_node node (d_changes d))) (d_base d)).

(** [DirtyBranch::pages]. *)
Definition pages (d : DirtyBranch) : list PageKey :=
  collect (gen_or_insert id (d_changes d) (d_base d)).

End Dirty.

(** ** Facts *)

Module DirtyFacts.
Import Dirty.

Definition is_dirty (d : DirtyBranch) (key : PageKey) : Prop :=
  branch_lookup (d_base d) (d_changes d) key = Some true.

#[export] Instance is_dirty_dec d key : Decision (is_dirty d key).
Proof. unfold is_dirty. apply _. Defined.

Lemma is_dirty_new key : ~ is_dirty new key.
Proof. done. Qed.

Lemma is_dirty_mark_dirty d key key' :
  is_dirty (mark_dirty key d) key' <-> key = key' \/ is_dirty d key'.
Proof.
  unfold is_dirty, mark_dirty. cbn. rewrite branch_lookup_insert.
  case_decide; naive_solver.
Qed.

Lemma is_dirty_mark_clean d key key' :
  is_dirty (mark_clean key d) key' <-> key <> key' /\ is_dirty d key'.
Proof.
  unfold is_dirty, mark_clean. cbn. rewrite branch_lookup_insert.
  case_decide; naive_solver.
Qed.

Lemma is_dirty_fork d key d' child :
  fork d = (d', child) ->
  (is_dirty d' key <-> is_dirty d key) /\ (is_dirty child key <-> is_dirty d key).
Proof.
  unfold fork, is_dirty. intros [= <- <-]. cbn.
  pose proof (seal_lookup (d_base d) (d_changes d) key) as Hs. unfold seal in Hs.
  repeat case_decide; cbn [d_base d_changes] in *; by rewrite ?Hs.
Qed.

Lemma elem_of_collect m k : k ∈ collect m <-> m !! k = Some true.
Proof.
  unfold collect. rewrite list_elem_of_filter, elem_of_btree_keys.
  split; [by intros [? _]|]. intros Hk. split; [done|]. by exists true.
Qed.

Lemma elem_of_pages d key : key ∈ pages d <-> is_dirty d key.
Proof.
  unfold pages, is_dirty.
  by rewrite elem_of_collect, gen_or_insert_union, <-lookup_branch_union.
Qed.

Lemma gen_union_filter (node : NodeId) (g : Generation (gmap PageKey bool)) :
  gen_union (of_node node) g = of_node node (gen_union id g).
Proof.
  unfold of_node. induction g as [l|p l IH] using Generation_rect'; cbn [gen_union].
  - by rewrite !(right_id_L ∅ (∪)).
  - rewrite IH. apply map_eq. intros k. apply option_eq. intros v.
    rewrite lookup_union_Some_raw, !map_lookup_filter_Some, map_lookup_filter_None,
      lookup_union_Some_raw.
    unfold id at 3 4. cbn. destruct (l !! k); naive_solver.
Qed.

Lemma elem_of_pages_for_node d (node : NodeId) (key : PageKey) :
  key ∈ pages_for_node d node <-> key.1 = node /\ is_dirty d key.
Proof.
  unfold pages_for_node, is_dirty.
  rewrite elem_of_collect, gen_or_insert_union, extend_union, (right_id_L ∅ (∪)).
  rewrite gen_union_filter, <-lookup_branch_union. unfold branch_union, of_node.
  rewrite !lookup_union_Some_raw, !map_lookup_filter_Some, map_lookup_filter_None.
  cbn. destruct (d_changes d !! key); naive_solver.
Qed.

End DirtyFacts.
