(* ===== verification/SharedCache.v ===== *)
(** * The shared page cache (crates/minidox-cache/src/branching.rs)

    One cache serves all the filesystem branches of a lineage.  A page is a
    host file of one page; it is found by the identity the branch's store
    gives the page, so branches that see the same identity share the page,
    and a write mapping gives the branch a page and an identity of its own.
    This file has the data and the operations; [SharedCacheInv] has the
    invariant and the theorems. *)

From S2P Require Import Prelude Generations Host CacheTypes DirtyPages.

(** The [ForkableNodeStore] trait. *)
Class ForkableNodeStore (W S Id : Type) := {
  fns_store :: NodeStore W S;
  page_identity : NodeId -> N -> M (W * S) io_error Id;
  prepare_page_write : NodeId -> N -> M (W * S) io_error Id;
  fork_store : M (W * S) io_error S
}.

(** [Arc<CachePage>]: the page's number and the file that holds its bytes. *)
Record CachePage := mkCachePage { cp_id : N; cp_backing : FileId }.

#[export] Instance CachePage_eq_dec : EqDecision CachePage.
Proof. solve_decision. Defined.

(** A mapping handed to a client; it is not [Clone], the client gives it back
    to [unmap]. *)
Record DaxPageMapping := mkMapping {
  m_cache_id : N;
  m_branch : N;
  m_key : PageKey;
  m_flags : MapFlags;
  m_page : CachePage
}.

#[export] Instance DaxPageMapping_eq_dec : EqDecision DaxPageMapping.
Proof. solve_decision. Defined.

Record CachePageAccounting := mkCacheAccounting { c_resident : nat; c_shared : nat }.

(** ** Branches and the cache *)

(** [active_pages] counts the live mappings of a page; every one is a value in
    memory, so the counter of 64 bits does not run out. *)
Record CacheBranch (S : Type) := mkBranch {
  store : S;
  open_nodes : gmap NodeId N;
  active_pages : gmap N N;
  exclusive_pages : gset PageKey;
  dirty_pages : DirtyBranch
}.
Arguments mkBranch {S}.
Arguments store {S}.
Arguments open_nodes {S}.
Arguments active_pages {S}.
Arguments exclusive_pages {S}.
Arguments dirty_pages {S}.

(** [SharedPageCache] with its [State], and what the process shares with it:
    the host, the stores' world and the counter [NEXT_PAGE_ID]. *)
Record Cache (W S Id : Type) `{Countable Id} := mkCache {
  c_id : N;
  c_host : Host;
  c_world : W;
  c_next_page_id : N;
  c_next_branch : N;
  c_branches : gmap N (CacheBranch S);
  c_pages : gmap Id CachePage;
  c_known : gset PageKey
}.
Arguments mkCache {W S Id _ _}.
Arguments c_id {W S Id _ _}.
Arguments c_host {W S Id _ _}.
Arguments c_world {W S Id _ _}.
Arguments c_next_page_id {W S Id _ _}.
Arguments c_next_branch {W S Id _ _}.
Arguments c_branches {W S Id _ _}.
Arguments c_pages {W S Id _ _}.
Arguments c_known {W S Id _ _}.

Module Shared.
Section shared_cache.
Context {W S Id : Type} `{Countable Id} `{!ForkableNodeStore W S Id}.

Abbreviation cache := (Cache W S Id).
Abbreviation C := (M (Cache W S Id) CacheError).

Implicit Types (c : cache) (b : N) (node : NodeId) (offset : N) (key : PageKey).

Definition set_host (h : Host) c : cache :=
  mkCache (c_id c) h (c_world c) (c_next_page_id c) (c_next_branch c) (c_branches c)
    (c_pages c) (c_known c).
Definition set_world (w : W) c : cache :=
  mkCache (c_id c) (c_host c) w (c_next_page_id c) (c_next_branch c) (c_branches c)
    (c_pages c) (c_known c).
Definition set_next_page_id (n : N) c : cache :=
  mkCache (c_id c) (c_host c) (c_world c) n (c_next_branch c) (c_branches c)
    (c_pages c) (c_known c).
Definition set_next_branch (n : N) c : cache :=
  mkCache (c_id c) (c_host c) (c_world c) (c_next_page_id c) n (c_branches c)
    (c_pages c) (c_known c).
Definition set_branches (bs : gmap N (CacheBranch S)) c : cache :=
  mkCache (c_id c) (c_host c) (c_world c) (c_next_page_id c) (c_next_branch c) bs
    (c_pages c) (c_known c).
Definition set_pages (p : gmap Id CachePage) c : cache :=
  mkCache (c_id c) (c_host c) (c_world c) (c_next_page_id c) (c_next_branch c) (c_branches c)
    p (c_known c).
Definition set_known (k : gset PageKey) c : cache :=
  mkCache (c_id c) (c_host c) (c_world c) (c_next_page_id c) (c_next_branch c) (c_branches c)
    (c_pages c) k.

Definition fresh_branch (s : S) (d : DirtyBranch) : CacheBranch S :=
  mkBranch s ∅ ∅ ∅ d.

Definition set_store (s : S) (br : CacheBranch S) : CacheBranch S :=
  mkBranch s (open_nodes br) (active_pages br) (exclusive_pages br) (dirty_pages br).
Definition set_open (o : gmap NodeId N) (br : CacheBranch S) : CacheBranch S :=
  mkBranch (store br) o (active_pages br) (exclusive_pages br) (dirty_pages br).
Definition set_active (a : gmap N N) (br : CacheBranch S) : CacheBranch S :=
  mkBranch (store br) (open_nodes br) a (exclusive_pages br) (dirty_pages br).
Definition set_exclusive (e : gset PageKey) (br : CacheBranch S) : CacheBranch S :=
  mkBranch (store br) (open_nodes br) (active_pages br) e (dirty_pages br).
Definition set_dirty (d : DirtyBranch) (br : CacheBranch S) : CacheBranch S :=
  mkBranch (store br) (open_nodes br) (active_pages br) (exclusive_pages br) d.

(** Host calls inside the cache. *)
Definition io {A} (m : IO A) : C A :=
  zoom c_host set_host (with_err Io m).

(** [branch_mut]: the branch, or [BranchNotFound]. *)
Definition branch_mut b : C (CacheBranch S) := fun c =>
  match c_branches c !! b with
  | Some br => (c, Ok br)
  | None => (c, Err (BranchNotFound b))
  end.

(** Write a branch back: the mutations made through the [&mut] reference. *)
Definition put_branch b (br : CacheBranch S) : C unit :=
  modify (fun c => set_branches (<[b := br]> (c_branches c)) c).

(** Run a method of branch [b]'s store. *)
Definition on_store {A} b (m : M (W * S) io_error A) : C A :=
  br ← branch_mut b;
  c ← get;
  let '((w', s'), r) := m (c_world c, store br) in
  _ ← modify (set_world w');
  _ ← put_branch b (set_store s' br);
  lift (map_err Io r).

(** ** Pages *)

(** [CachePage::from_bytes]; the counter is a wrapping atomic. *)
Definition from_bytes (bytes : list byte) : C CachePage :=
  f ← io tempfile;
  _ ← io (set_len f PAGE_SIZE);
  _ ← io (write_all_at f bytes 0);
  c ← get;
  _ ← modify (set_next_page_id (wrapping_add (c_next_page_id c) 1));
  mret (mkCachePage (c_next_page_id c) f).

(** [CachePage::duplicate]. *)
Definition duplicate (p : CachePage) : C CachePage :=
  bytes ← io (read_exact_at (cp_backing p) PAGE_SIZE 0);
  from_bytes bytes.

(** [load_page]: the resident page of the identity, or a page read from the
    store, padded with zeros, and made resident. *)
Definition load_page b (identity : Id) node offset : C CachePage :=
  c ← get;
  match c_pages c !! identity with
  | Some p => mret p
  | None =>
      bytes ← on_store b (read_node node offset PAGE_SIZE);
      p ← from_bytes (pad_page bytes);
      _ ← modify (fun c => set_pages (<[identity := p]> (c_pages c)) c);
      mret p
  end.

(** ** Construction *)

(** [SharedPageCache::new]; [next_cache_id] is the static [NEXT_CACHE_ID]. *)
Definition new (next_cache_id : N) (h : Host) (w : W) (next_page_id : N) (s : S) :
    cache * N :=
  (mkCache next_cache_id h w next_page_id 2 {[ 1 := fresh_branch s Dirty.new ]} ∅ ∅, 1).

(** [SharedPageCache::restore]. *)
Definition restore (next_cache_id : N) (h : Host) (w : W) (next_page_id : N)
    (stores : list S) : result CacheError (cache * list N) :=
  match stores with
  | [] => Err (InvalidMapping "a filesystem lineage must contain at least one branch")
  | _ =>
      let ids := (fun i => N.of_nat i + 1) <$> seq 0 (length stores) in
      let branches : gmap N (CacheBranch S) :=
        list_to_map (zip ids ((fun s => fresh_branch s Dirty.new) <$> stores)) in
      match checked_add (N.of_nat (size branches)) 1 with
      | None => Err (InvalidMapping "cache branch identity overflow")
      | Some next_branch =>
          Ok (mkCache next_cache_id h w next_page_id next_branch branches ∅ ∅, ids)
      end
  end.

(** [SharedPageCache::with_store_mut]. *)
Definition with_store_mut {A} b (operation : M (W * S) io_error A) : C A :=
  on_store b operation.

(** ** Branch lifecycle *)

(** [SharedPageCache::fork]. *)
Definition fork (source : N) : C N :=
  br ← branch_mut source;
  if decide (active_pages br <> ∅) then throw ActiveMappings else
  child_store ← on_store source fork_store;
  br ← branch_mut source;
  let '(d', child_dirty) := Dirty.fork (dirty_pages br) in
  _ ← put_branch source (set_exclusive ∅ (set_dirty d' br));
  c ← get;
  let child := c_next_branch c in
  match checked_add (c_next_branch c) 1 with
  | None => throw (InvalidMapping "cache branch identity overflow")
  | Some n =>
      _ ← modify (set_next_branch n);
      _ ← put_branch child (fresh_branch child_store child_dirty);
      mret child
  end.

(** The loop of [remove_branch] over the branches of one known page: collect
    the identities that are still visible. *)
Fixpoint visible_in (bs : list N) (key : PageKey) (visible : gset Id) : C (gset Id) :=
  match bs with
  | [] => mret visible
  | b :: bs' =>
      r ← attempt (on_store b (page_identity key.1 key.2));
      visible_in bs' key (match r with Ok i => {[ i ]} ∪ visible | Err _ => visible end)
  end.

Fixpoint visible_identities (keys : list PageKey) (bs : list N) (visible : gset Id) : C (gset Id) :=
  match keys with
  | [] => mret visible
  | key :: keys' =>
      visible' ← visible_in bs key visible;
      visible_identities keys' bs visible'
  end.

(** [SharedPageCache::remove_branch]. *)
Definition remove_branch b : C unit :=
  br ← branch_mut b;
  if decide (active_pages br <> ∅) then throw ActiveMappings else
  _ ← modify (fun c => set_branches (delete b (c_branches c)) c);
  c ← get;
  visible ← visible_identities (btree_elems (c_known c)) (btree_keys (c_branches c)) ∅;
  modify (fun c => set_pages (filter (fun kv : Id * CachePage => kv.1 ∈ visible) (c_pages c)) c).

(** [SharedPageCache::open].  The entry exists from here on, with count zero
    if the store refuses. *)
Definition open b node : C unit :=
  br ← branch_mut b;
  let count := default 0 (open_nodes br !! node) in
  _ ← put_branch b (set_open (<[node := count]> (open_nodes br)) br);
  _ ← (if count =? 0 then on_store b (on_open_node node) else mret tt);
  br ← branch_mut b;
  match checked_add count 1 with
  | None => throw (InvalidMapping "open reference count overflow")
  | Some n => put_branch b (set_open (<[node := n]> (open_nodes br)) br)
  end.

(** [SharedPageCache::close]. *)
Definition close b node : C unit :=
  br ← branch_mut b;
  match open_nodes br !! node with
  | None => throw (NodeNotOpen node)
  | Some count =>
      match checked_sub count 1 with
      | None => throw (InvalidMapping "node is not open")
      | Some n =>
          _ ← put_branch b (set_open (<[node := n]> (open_nodes br)) br);
          if n =? 0 then on_store b (on_close_node node) else mret tt
      end
  end.

(** ** Mappings *)

(** [branches.values_mut().any(..)]: does any branch still see [identity]? *)
Fixpoint any_sees (bs : list N) (identity : Id) node offset : C bool :=
  match bs with
  | [] => mret false
  | b :: bs' =>
      r ← attempt (on_store b (page_identity node offset));
      if decide (r = Ok identity :> result CacheError Id) then mret true
      else any_sees bs' identity node offset
  end.

(** The end of the copy-on-write arm: the old identity is dropped when no
    branch sees it any more, and the page is recorded as the branch's own. *)
Definition retire_identity b (identity : Id) node offset : C unit :=
  c ← get;
  old_visible ← any_sees (btree_keys (c_branches c)) identity node offset;
  _ ← (if old_visible : bool then mret tt
       else modify (fun c => set_pages (delete identity (c_pages c)) c));
  br ← branch_mut b;
  put_branch b (set_exclusive ({[ (node, offset) ]} ∪ exclusive_pages br) br).

(** The copy-on-write arm of [map_page]: a private copy of [p] under a new
    identity. *)
Definition copy_page b (identity : Id) (p : CachePage) node offset : C CachePage :=
  new_page ← duplicate p;
  new_identity ← on_store b (prepare_page_write node offset);
  _ ← modify (fun c => set_pages (<[new_identity := new_page]> (c_pages c)) c);
  _ ← retire_identity b identity node offset;
  mret new_page.

(** The end of [map_page]: the page is known and has one more mapping. *)
Definition activate b key (flags : MapFlags) (p : CachePage) : C DaxPageMapping :=
  _ ← modify (fun c => set_known ({[ key ]} ∪ c_known c) c);
  br ← branch_mut b;
  _ ← put_branch b (set_active (<[ cp_id p := default 0 (active_pages br !! cp_id p) + 1 ]>
                      (active_pages br)) br);
  c ← get;
  mret (mkMapping (c_id c) b key flags p).

(** [SharedPageCache::map_page]. *)
Definition map_page b node offset (flags : MapFlags) : C DaxPageMapping :=
  if negb (offset mod PAGE_SIZE =? 0) then
    throw (InvalidMapping "mapping offset must be page aligned")
  else if negb (READ flags || WRITE flags) then
    throw (InvalidMapping "mapping must be readable or writable")
  else
  let key := (node, offset) in
  br ← branch_mut b;
  if default 0 (open_nodes br !! node) =? 0 then throw (NodeNotOpen node) else
  identity ← on_store b (page_identity node offset);
  p ← load_page b identity node offset;
  br ← branch_mut b;
  let copy_on_write := WRITE flags && negb (bool_decide (key ∈ exclusive_pages br)) in
  if copy_on_write && (0 <? default 0 (active_pages br !! cp_id p)) then throw PageBusy else
  p' ← (if copy_on_write then copy_page b identity p node offset else mret p);
  activate b key flags p'.

(** [SharedPageCache::unmap]. *)
Definition unmap b (mapping : DaxPageMapping) : C unit :=
  c ← get;
  if negb ((m_cache_id mapping =? c_id c) && (m_branch mapping =? b)) then throw StaleMapping else
  br ← branch_mut b;
  match active_pages br !! cp_id (m_page mapping) with
  | None => throw StaleMapping
  | Some count =>
      match checked_sub count 1 with
      | None => throw StaleMapping
      | Some n =>
          let active := if n =? 0 then delete (cp_id (m_page mapping)) (active_pages br)
                        else <[ cp_id (m_page mapping) := n ]> (active_pages br) in
          let br' := set_active active br in
          put_branch b (if WRITE (m_flags mapping)
                        then set_dirty (Dirty.mark_dirty (m_key mapping) (dirty_pages br')) br'
                        else br')
      end
  end.

(** ** Reading and writing through the cache *)

(** The loop of [read] from [cursor]; returns the bytes put in the buffer. *)
Fixpoint read_loop (fuel : nat) b node (end_ cursor : N) : C (list byte) :=
  match fuel with
  | O => mret []
  | Datatypes.S fuel' =>
      if cursor <? end_ then
        let page_offset := cursor / PAGE_SIZE * PAGE_SIZE in
        let within_page := cursor - page_offset in
        let chunk_len := N.min (PAGE_SIZE - within_page) (end_ - cursor) in
        mapping ← map_page b node page_offset flag_R;
        chunk ← io (read_exact_at (cp_backing (m_page mapping)) chunk_len within_page);
        _ ← unmap b mapping;
        rest ← read_loop fuel' b node end_ (cursor + chunk_len);
        mret (chunk ++ rest)
      else mret []
  end.

(** [SharedPageCache::read] into a buffer of length [len]: the bytes read. *)
Definition read b node offset (len : N) : C (list byte) :=
  file_len ← with_store_mut b (ns_len node);
  if (file_len <=? offset) || (len =? 0) then mret [] else
  let count := N.min (file_len - offset) len in
  match checked_add offset count with
  | None => throw (InvalidMapping "read range overflow")
  | Some end_ => read_loop (N.to_nat count) b node end_ offset
  end.

Fixpoint write_loop (fuel : nat) b node offset (bytes : list byte) (end_ cursor : N) : C unit :=
  match fuel with
  | O => mret tt
  | Datatypes.S fuel' =>
      if cursor <? end_ then
        let page_offset := cursor / PAGE_SIZE * PAGE_SIZE in
        let within_page := cursor - page_offset in
        let chunk_len := N.min (PAGE_SIZE - within_page) (end_ - cursor) in
        mapping ← map_page b node page_offset flag_RW;
        _ ← io (write_all_at (cp_backing (m_page mapping))
                  (slice (cursor - offset) chunk_len bytes) within_page);
        _ ← unmap b mapping;
        write_loop fuel' b node offset bytes end_ (cursor + chunk_len)
      else mret tt
  end.

(** [SharedPageCache::write]. *)
Definition write b node offset (bytes : list byte) : C N :=
  match checked_add offset (lenN bytes) with
  | None => throw (InvalidMapping "write range overflow")
  | Some end_ =>
      file_len ← with_store_mut b (ns_len node);
      if file_len <? end_ then throw (InvalidMapping "write extends beyond file") else
      _ ← write_loop (length bytes) b node offset bytes end_ offset;
      mret (lenN bytes)
  end.

(** ** Writing back *)

(** One round of [sync_pages]. *)
Definition sync_page b key : C unit :=
  file_len ← on_store b (ns_len key.1);
  if file_len <=? key.2 then
    br ← branch_mut b;
    put_branch b (set_dirty (Dirty.mark_clean key (dirty_pages br)) br)
  else
  identity ← on_store b (page_identity key.1 key.2);
  c ← get;
  match c_pages c !! identity with
  | None => throw StaleMapping
  | Some p =>
      let count := N.min (file_len - key.2) PAGE_SIZE in
      bytes ← io (read_exact_at (cp_backing p) count 0);
      written ← on_store b (write_node key.1 key.2 bytes);
      if negb (written =? count) then throw (Io (Custom WriteZero "short filesystem write")) else
      br ← branch_mut b;
      put_branch b (set_dirty (Dirty.mark_clean key (dirty_pages br)) br)
  end.

(** [sync_pages]. *)
Definition sync_pages b (keys : list PageKey) : C unit :=
  _ ← branch_mut b;
  for_each (sync_page b) keys.

(** [SharedPageCache::sync]. *)
Definition sync b node : C unit :=
  br ← branch_mut b;
  sync_pages b (Dirty.pages_for_node (dirty_pages br) node).

(** [SharedPageCache::sync_all]. *)
Definition sync_all b : C unit :=
  br ← branch_mut b;
  sync_pages b (Dirty.pages (dirty_pages br)).

(** ** Accounting *)

(** Identities of the resident pages one branch sees. *)
Fixpoint pages_in_branch b (keys : list PageKey) (ids : gset N) : C (gset N) :=
  match keys with
  | [] => mret ids
  | key :: keys' =>
      r ← attempt (on_store b (page_identity key.1 key.2));
      c ← get;
      pages_in_branch b keys'
        (match r with
         | Ok i => match c_pages c !! i with
                   | Some p => {[ cp_id p ]} ∪ ids
                   | None => ids
                   end
         | Err _ => ids
         end)
  end.

Fixpoint account_branches (requested : list N) (references : gmap N N) : C (gmap N N) :=
  match requested with
  | [] => mret references
  | b :: rest =>
      _ ← branch_mut b;
      c ← get;
      ids ← pages_in_branch b (btree_elems (c_known c)) ∅;
      account_branches rest (bump_all references ids)
  end.

(** [SharedPageCache::page_accounting]. *)
Definition page_accounting (requested : list N) : C CachePageAccounting :=
  references ← account_branches requested ∅;
  mret (mkCacheAccounting (size references) (count_shared references)).

End shared_cache.
End Shared.
