(* ===== verification/SharedCacheInv.v ===== *)
(** * Invariant of the shared page cache

    What the cache relies on in a branch's store ([StoreLaws]), the pages a
    branch sees ([page_view]), the invariant of the cache together with the
    mappings its clients hold ([cache_inv]), and the preservation of the
    invariant by each elementary change the operations make. *)

From S2P Require Import Prelude Generations Host CacheTypes DirtyPages SharedCache.

Definition aligned (key : PageKey) : Prop := key.2 mod PAGE_SIZE = 0.

(** ** The contract of a store

    A store gives every page of every file an identity and a content.  A
    fresh identity differs from all identities ever issued; reading, opening
    and asking for identities change nothing that can be seen; writing back a
    page changes the content of that page only; a fork sees what its source
    sees.  Counters are 64 bits wide: [w_room w n] says [n] more identities
    can be issued before the counter wraps. *)
Class StoreView (W S Id : Type) := {
  s_ident : S -> PageKey -> result io_error Id;
  s_content : S -> PageKey -> list byte;
  s_len : S -> NodeId -> result io_error N;
  w_issued : W -> Id -> Prop;
  w_room : W -> N -> Prop
}.

Definition view_eq {W S Id} `{!StoreView W S Id} (s s' : S) : Prop :=
  (forall k, aligned k -> s_ident s' k = s_ident s k) /\
  (forall k, aligned k -> s_content s' k = s_content s k) /\
  (forall node, s_len s' node = s_len s node).

Definition world_le {W S Id} `{!StoreView W S Id} (w w' : W) : Prop :=
  (forall i, w_issued w i -> w_issued w' i) /\ (forall n, w_room w n -> w_room w' n).

Definition keeps {W S Id} `{!StoreView W S Id} (ws ws' : W * S) : Prop :=
  world_le ws.1 ws'.1 /\ view_eq ws.2 ws'.2.

(** Only the content of page [k] may differ. *)
Definition write_frame {W S Id} `{!StoreView W S Id} (k : PageKey) (s s' : S) : Prop :=
  (forall k', aligned k' -> s_ident s' k' = s_ident s k') /\
  (forall k', aligned k' -> k' <> k -> s_content s' k' = s_content s k') /\
  (forall node, s_len s' node = s_len s node).

Class StoreLaws (W S Id : Type) `{!ForkableNodeStore W S Id} `{!StoreView W S Id} : Prop := {
  w_room_le w m n : w_room w n -> m <= n -> w_room w m;
  law_content s k : aligned k -> length (s_content s k) = page_nat;
  law_identity k ws : aligned k ->
    wp (page_identity k.1 k.2)
      (fun i ws' => s_ident ws.2 k = Ok i /\ keeps ws ws')
      (fun e ws' => s_ident ws.2 k = Err e /\ keeps ws ws') ws;
  law_prepare k n ws : aligned k -> w_room ws.1 (1 + n) ->
    (forall i, s_ident ws.2 k = Ok i -> w_issued ws.1 i) ->
    wp (prepare_page_write k.1 k.2)
      (fun i ws' =>
        (forall j, w_issued ws.1 j -> w_issued ws'.1 j) /\ w_room ws'.1 n /\
        ~ w_issued ws.1 i /\ w_issued ws'.1 i /\
        s_ident ws'.2 k = Ok i /\
        (forall k', aligned k' -> k' <> k -> s_ident ws'.2 k' = s_ident ws.2 k') /\
        (forall k', aligned k' -> s_content ws'.2 k' = s_content ws.2 k') /\
        (forall node, s_len ws'.2 node = s_len ws.2 node))
      (fun _ ws' =>
        (forall j, w_issued ws.1 j -> w_issued ws'.1 j) /\ w_room ws'.1 n /\
        view_eq ws.2 ws'.2) ws;
  law_fork ws :
    wp fork_store
      (fun child ws' => keeps ws ws' /\ view_eq ws.2 child)
      (fun _ ws' => keeps ws ws') ws;
  law_len node ws :
    wp (ns_len node)
      (fun n ws' => s_len ws.2 node = Ok n /\ keeps ws ws')
      (fun _ ws' => keeps ws ws') ws;
  law_read k ws : aligned k ->
    wp (read_node k.1 k.2 PAGE_SIZE)
      (fun bytes ws' => pad_page bytes = s_content ws.2 k /\ keeps ws ws')
      (fun _ ws' => keeps ws ws') ws;
  law_write k bytes len ws : aligned k ->
    lenN bytes <= PAGE_SIZE -> s_len ws.2 k.1 = Ok len -> k.2 + lenN bytes <= len ->
    wp (write_node k.1 k.2 bytes)
      (fun n ws' => world_le ws.1 ws'.1 /\ write_frame k ws.2 ws'.2 /\
        (n = lenN bytes -> forall j, j < n -> nthN (s_content ws'.2 k) j = nthN bytes j))
      (fun _ ws' => world_le ws.1 ws'.1 /\ write_frame k ws.2 ws'.2) ws;
  law_open node ws :
    wp (on_open_node node) (fun _ ws' => keeps ws ws') (fun _ ws' => keeps ws ws') ws;
  law_close node ws :
    wp (on_close_node node) (fun _ ws' => keeps ws ws') (fun _ ws' => keeps ws ws') ws
}.

(** ** The invariant *)

Section invariant.
Context {W S Id : Type} `{Countable Id} `{!ForkableNodeStore W S Id} `{!StoreView W S Id}.
Import DirtyFacts.

Implicit Types (c : Cache W S Id) (b : N) (k : PageKey) (i : Id) (p : CachePage)
  (m : DaxPageMapping) (ms : list DaxPageMapping).

(** Branch [b] gives page [k] the identity [i]. *)
Definition sees c b k i : Prop :=
  exists br, c_branches c !! b = Some br /\ s_ident (store br) k = Ok i.

Definition page_bytes c p : list byte := file_bytes (c_host c) (cp_backing p).

(** The bytes of page [k] as branch [b] sees them: the resident page of its
    identity, or what its store holds. *)
Definition page_view c b k : option (list byte) :=
  match c_branches c !! b with
  | None => None
  | Some br =>
      match s_ident (store br) k with
      | Err _ => None
      | Ok i => match c_pages c !! i with
                | Some p => Some (page_bytes c p)
                | None => Some (s_content (store br) k)
                end
      end
  end.

(** Two pages that hold the same bytes as far as the file reaches. *)
Definition agree (len : result io_error N) (off : N) (x y : list byte) : Prop :=
  match len with
  | Ok n => forall j, j < PAGE_SIZE -> off + j < n -> nthN x j = nthN y j
  | Err _ => True
  end.

Definition mapped_by b (id : N) (m : DaxPageMapping) : Prop :=
  m_branch m = b /\ cp_id (m_page m) = id.

#[export] Instance mapped_by_dec b id m : Decision (mapped_by b id m).
Proof. unfold mapped_by. apply _. Defined.

Definition live_count ms b (id : N) : N := N.of_nat (length (filter (mapped_by b id) ms)).

Definition writer ms b k : Prop :=
  exists m, m ∈ ms /\ m_branch m = b /\ m_key m = k /\ WRITE (m_flags m) = true.

Definition br_ok c ms b (br : CacheBranch S) : Prop :=
  (* the count of every active page is the number of live mappings of it *)
  (forall id, active_pages br !! id =
     (if live_count ms b id =? 0 then None else Some (live_count ms b id))) /\
  (* an exclusive page is known and resident and no other branch sees it *)
  (forall k, k ∈ exclusive_pages br -> aligned k /\ k ∈ c_known c /\
     exists i, s_ident (store br) k = Ok i /\ is_Some (c_pages c !! i) /\
       forall b', sees c b' k i -> b' = b) /\
  (* a dirty page is known and resident *)
  (forall k, is_dirty (dirty_pages br) k -> aligned k /\ k ∈ c_known c /\
     exists i, s_ident (store br) k = Ok i /\ is_Some (c_pages c !! i)) /\
  (* a clean page nobody is writing holds what the store holds *)
  (forall k i p, aligned k -> s_ident (store br) k = Ok i -> c_pages c !! i = Some p ->
     ~ is_dirty (dirty_pages br) k -> ~ writer ms b k ->
     agree (s_len (store br) k.1) k.2 (page_bytes c p) (s_content (store br) k)) /\
  (* a resident page no client has had is as it was loaded *)
  (forall k i p, aligned k -> s_ident (store br) k = Ok i -> c_pages c !! i = Some p ->
     k ∉ c_known c -> page_bytes c p = s_content (store br) k).

(** A mapping a client holds maps the page its branch sees. *)
Definition mapping_ok c m : Prop :=
  m_cache_id m = c_id c /\ aligned (m_key m) /\ m_key m ∈ c_known c /\
  exists br i, c_branches c !! m_branch m = Some br /\
    s_ident (store br) (m_key m) = Ok i /\ c_pages c !! i = Some (m_page m) /\
    (WRITE (m_flags m) = true -> m_key m ∈ exclusive_pages br).

Record cache_inv c ms : Prop := {
  inv_page i p : c_pages c !! i = Some p ->
    (exists bytes, h_files (c_host c) !! cp_backing p = Some bytes /\ length bytes = page_nat) /\
    cp_id p < c_next_page_id c /\ cp_backing p < h_next_file (c_host c) /\
    w_issued (c_world c) i;
  inv_distinct i j p q : c_pages c !! i = Some p -> c_pages c !! j = Some q ->
    cp_id p = cp_id q \/ cp_backing p = cp_backing q -> i = j;
  inv_issued b k i : aligned k -> sees c b k i -> w_issued (c_world c) i;
  inv_key b b' k k' i : aligned k -> aligned k' -> sees c b k i -> sees c b' k' i -> k = k';
  inv_agree b b' br br' k i : aligned k ->
    c_branches c !! b = Some br -> c_branches c !! b' = Some br' ->
    s_ident (store br) k = Ok i -> s_ident (store br') k = Ok i ->
    c_pages c !! i = None -> s_content (store br) k = s_content (store br') k;
  inv_branch b br : c_branches c !! b = Some br -> b < c_next_branch c /\ br_ok c ms b br;
  inv_mapping m : m ∈ ms -> mapping_ok c m;
  inv_known k : k ∈ c_known c -> aligned k
}.

(** No page outlives the branches that see it. *)
Definition no_orphans c : Prop :=
  forall i p, c_pages c !! i = Some p -> exists b k, aligned k /\ sees c b k i.

(** [n] more pages and identities fit their 64-bit counters. *)
Definition budget (n : N) c : Prop :=
  c_next_page_id c + n <= u64_MAX /\ w_room (c_world c) n.

(** ** Changes nobody sees *)

Definition br_eq (br br' : CacheBranch S) : Prop :=
  view_eq (store br) (store br') /\
  active_pages br' = active_pages br /\ exclusive_pages br' = exclusive_pages br /\
  dirty_pages br' = dirty_pages br.

Record ext c c' : Prop := {
  ext_id : c_id c' = c_id c;
  ext_next_branch : c_next_branch c' = c_next_branch c;
  ext_branches b : option_Forall2 br_eq (c_branches c !! b) (c_branches c' !! b);
  ext_pages : c_pages c' = c_pages c;
  ext_known : c_known c' = c_known c;
  ext_files f bytes : f < h_next_file (c_host c) -> h_files (c_host c) !! f = Some bytes ->
    h_files (c_host c') !! f = Some bytes;
  ext_next_file : h_next_file (c_host c) <= h_next_file (c_host c');
  ext_next_page : c_next_page_id c <= c_next_page_id c';
  ext_issued i : w_issued (c_world c) i -> w_issued (c_world c') i
}.

Lemma view_eq_refl (s : S) : view_eq s s.
Proof. done. Qed.

Lemma view_eq_trans (s1 s2 s3 : S) : view_eq s1 s2 -> view_eq s2 s3 -> view_eq s1 s3.
Proof.
  intros (H1 & H2 & H3) (H4 & H5 & H6). repeat split; intros.
  - rewrite H4; auto.
  - rewrite H5; auto.
  - by rewrite H6.
Qed.

Lemma br_eq_refl (br : CacheBranch S) : br_eq br br.
Proof. repeat split. Qed.

Lemma ext_refl c : ext c c.
Proof.
  split; try done. intros b. destruct (c_branches c !! b); constructor. apply br_eq_refl.
Qed.

Lemma ext_lookup c c' b br :
  ext c c' -> c_branches c !! b = Some br ->
  exists br', c_branches c' !! b = Some br' /\ br_eq br br'.
Proof.
  intros E Hb. pose proof (ext_branches _ _ E b) as Hf. rewrite Hb in Hf.
  inversion Hf; subst. eauto.
Qed.

Lemma ext_lookup_inv c c' b br' :
  ext c c' -> c_branches c' !! b = Some br' ->
  exists br, c_branches c !! b = Some br /\ br_eq br br'.
Proof.
  intros E Hb. pose proof (ext_branches _ _ E b) as Hf. rewrite Hb in Hf.
  inversion Hf; subst. eauto.
Qed.

Lemma ext_trans c1 c2 c3 : ext c1 c2 -> ext c2 c3 -> ext c1 c3.
Proof.
  intros E1 E2. split; try solve [etrans; [apply E2|apply E1]].
  - intros b. pose proof (ext_branches _ _ E1 b) as H1. pose proof (ext_branches _ _ E2 b) as H2.
    destruct H1 as [br1 br2 (V1 & A1 & X1 & D1)|]; inversion H2 as [? br3 (V2 & A2 & X2 & D2)|];
      subst; constructor.
    split; [by eapply view_eq_trans|]. repeat split; congruence.
  - intros f bytes Hf Hb. apply E2; [|by apply E1].
    pose proof (ext_next_file _ _ E1). lia.
  - pose proof (ext_next_file _ _ E1). pose proof (ext_next_file _ _ E2). lia.
  - pose proof (ext_next_page _ _ E1). pose proof (ext_next_page _ _ E2). lia.
  - intros i Hi. by apply E2, E1.
Qed.

Lemma ext_sees c c' b k i : ext c c' -> aligned k -> sees c' b k i <-> sees c b k i.
Proof.
  intros E Hk. split.
  - intros (br' & Hb & Hi). destruct (ext_lookup_inv _ _ _ _ E Hb) as (br & Hb' & [V _]).
    exists br. split; [done|]. rewrite <-Hi. symmetry. by apply V.
  - intros (br & Hb & Hi). destruct (ext_lookup _ _ _ _ E Hb) as (br' & Hb' & [V _]).
    exists br'. split; [done|]. rewrite <-Hi. by apply V.
Qed.

Lemma ext_page_bytes c c' ms i p :
  cache_inv c ms -> ext c c' -> c_pages c !! i = Some p -> page_bytes c' p = page_bytes c p.
Proof.
  intros I E Hp. destruct (inv_page _ _ I _ _ Hp) as ((bytes & Hb & _) & _ & Hf & _).
  unfold page_bytes, file_bytes. by rewrite Hb, (ext_files _ _ E _ _ Hf Hb).
Qed.

Lemma ext_view c c' ms b k :
  cache_inv c ms -> ext c c' -> aligned k -> page_view c' b k = page_view c b k.
Proof.
  intros I E Hk. unfold page_view.
  pose proof (ext_branches _ _ E b) as Hf. destruct Hf as [br br' ((Vi & Vc & _) & _)|]; [|done].
  rewrite (Vi k Hk). destruct (s_ident (store br) k) as [i|]; [|done].
  rewrite (ext_pages _ _ E). destruct (c_pages c !! i) as [p|] eqn:Hp.
  - by erewrite ext_page_bytes.
  - by rewrite Vc.
Qed.

Lemma ext_br_ok c c' ms b br br' :
  cache_inv c ms -> ext c c' -> br_eq br br' -> br_ok c ms b br -> br_ok c' ms b br'.
Proof.
  intros I E ((Vi & Vc & Vl) & Ea & Ex & Ed) (Ha & He & Hd & Hc & Hu).
  unfold br_ok. rewrite Ea, Ex, Ed, (ext_pages _ _ E), (ext_known _ _ E).
  split; [done|]. split; [|split; [|split]].
  - intros k Hk. destruct (He k Hk) as (Hal & Hkn & i & Hi & Hr & Ho). split; [done|]. split; [done|]. exists i.
    rewrite Vi by done. split; [done|]. split; [done|].
    intros b' Hs. apply Ho. by apply (ext_sees c c').
  - intros k Hk. destruct (Hd k Hk) as (Hal & Hkn & i & Hi & Hr). split; [done|].
    split; [done|]. exists i. by rewrite Vi by done.
  - intros k i p Hal Hi Hp Hnd Hnw. rewrite Vi in Hi by done. rewrite Vl, Vc by done.
    erewrite ext_page_bytes by done. by eapply Hc.
  - intros k i p Hal Hi Hp Hkn. rewrite Vi in Hi by done. rewrite Vc by done.
    erewrite ext_page_bytes by done. by eapply Hu.
Qed.

Lemma ext_mapping_ok c c' m : ext c c' -> mapping_ok c m -> mapping_ok c' m.
Proof.
  intros E (Hid & Hal & Hkn & br & i & Hb & Hi & Hp & Hw).
  destruct (ext_lookup _ _ _ _ E Hb) as (br' & Hb' & (V & _ & Ex & _)).
  unfold mapping_ok. rewrite (ext_id _ _ E), (ext_known _ _ E), (ext_pages _ _ E).
  split; [done|]. split; [done|]. split; [done|]. exists br', i.
  rewrite Ex. repeat split; try done. rewrite <-Hi. by apply V.
Qed.

Lemma ext_inv c c' ms : cache_inv c ms -> ext c c' -> cache_inv c' ms.
Proof.
  intros I E. split.
  - intros i p Hp. rewrite (ext_pages _ _ E) in Hp.
    destruct (inv_page _ _ I _ _ Hp) as ((bytes & Hb & Hl) & H1 & H2 & H3).
    pose proof (ext_next_file _ _ E). pose proof (ext_next_page _ _ E).
    split; [|split; [lia|split; [lia|by apply E]]].
    exists bytes. split; [by apply E|done].
  - intros i j p q. rewrite (ext_pages _ _ E). apply I.
  - intros b k i Hk Hs. apply E. apply (inv_issued _ _ I b k); [done|].
    by apply (ext_sees c c').
  - intros b b' k k' i Hk Hk'. rewrite !(ext_sees c c') by done. by apply I.
  - intros b b' br br' k i Hk Hb Hb' Hi Hi' Hp. rewrite (ext_pages _ _ E) in Hp.
    destruct (ext_lookup_inv _ _ _ _ E Hb) as (b1 & Hb1 & (Vi1 & Vc1 & _) & _).
    destruct (ext_lookup_inv _ _ _ _ E Hb') as (b2 & Hb2 & (Vi2 & Vc2 & _) & _).
    rewrite Vc1, Vc2 by done. rewrite Vi1 in Hi by done. rewrite Vi2 in Hi' by done.
    by eapply (inv_agree _ _ I).
  - intros b br Hb. destruct (ext_lookup_inv _ _ _ _ E Hb) as (b1 & Hb1 & Hbr).
    destruct (inv_branch _ _ I _ _ Hb1) as [Hlt Hok]. rewrite (ext_next_branch _ _ E).
    split; [done|]. by eapply ext_br_ok.
  - intros m Hm. eapply ext_mapping_ok; [done|]. by apply I.
  - intros k. rewrite (ext_known _ _ E). apply I.
Qed.

Lemma ext_no_orphans c c' : ext c c' -> no_orphans c -> no_orphans c'.
Proof.
  intros E Ho i p. rewrite (ext_pages _ _ E). intros Hp.
  destruct (Ho i p Hp) as (b & k & Hk & Hs). exists b, k. split; [done|].
  by apply (ext_sees c c').
Qed.

End invariant.
