(* ===== verification/SharedCacheSteps.v ===== *)
(** * Elementary changes of the shared cache

    The operations of the shared cache are sequences of a few elementary
    changes: a page becomes resident, a branch gets a page of its own, pages
    are evicted, mappings are handed out and returned, a branch is forked or
    removed, a client writes through a mapping, a page is written back.  Each
    lemma shows that one of them keeps the invariant and says what it does to
    the pages the branches see. *)

From S2P Require Import Prelude Generations Host CacheTypes DirtyPages SharedCache SharedCacheInv.
Import Shared DirtyFacts.

Section steps.
Context {W S Id : Type} `{Countable Id} `{!ForkableNodeStore W S Id} `{!StoreView W S Id}.

Implicit Types (c : Cache W S Id) (b : N) (k : PageKey) (i : Id) (p : CachePage)
  (m : DaxPageMapping) (ms : list DaxPageMapping) (br : CacheBranch S).

Definition same_views c c' : Prop :=
  forall b k, aligned k -> page_view c' b k = page_view c b k.

(** Replace the world and the store of branch [b]. *)
Definition upd_store b br (ws : W * S) c : Cache W S Id :=
  set_branches (<[b := set_store ws.2 br]> (c_branches c)) (set_world ws.1 c).

(** A page in use nowhere yet. *)
Definition fresh_page c p : Prop :=
  cp_id p < c_next_page_id c /\ cp_backing p < h_next_file (c_host c) /\
  (exists bytes, h_files (c_host c) !! cp_backing p = Some bytes /\ length bytes = page_nat) /\
  forall j q, c_pages c !! j = Some q -> cp_id q <> cp_id p /\ cp_backing q <> cp_backing p.

Lemma fresh_page_ext c c' p : ext c c' -> fresh_page c p -> fresh_page c' p.
Proof.
  intros E (H1 & H2 & (bytes & H3 & H4) & H5).
  pose proof (ext_next_file _ _ E). pose proof (ext_next_page _ _ E).
  split; [lia|]. split; [lia|]. split.
  - exists bytes. split; [by apply E|done].
  - intros j q. rewrite (ext_pages _ _ E). apply H5.
Qed.

Lemma agree_refl len off x : agree len off x x.
Proof. by destruct len. Qed.

Lemma sees_branch c b br k i :
  c_branches c !! b = Some br -> sees c b k i <-> s_ident (store br) k = Ok i.
Proof. intros Hb. split; [intros (? & ? & ?); by simplify_eq|]. intros Hi. by exists br. Qed.

(** ** A page becomes resident *)

Section load.
Context c ms b br k i p.
Hypothesis I : cache_inv c ms.
Hypothesis Hk : aligned k.
Hypothesis Hb : c_branches c !! b = Some br.
Hypothesis Hi : s_ident (store br) k = Ok i.
Hypothesis Hnone : c_pages c !! i = None.
Hypothesis Hfresh : fresh_page c p.
Hypothesis Hbytes : page_bytes c p = s_content (store br) k.

(** The loaded page holds what every branch that sees it has in its store. *)
Lemma load_content b' br' k' :
  aligned k' -> c_branches c !! b' = Some br' -> s_ident (store br') k' = Ok i ->
  page_bytes c p = s_content (store br') k'.
Proof.
  intros Hk' Hb' Hi'. rewrite Hbytes.
  assert (k = k') as <-. { apply (inv_key _ _ I b b' k k' i); try done; by eexists. }
  by eapply (inv_agree _ _ I).
Qed.

Lemma load_inv : cache_inv (set_pages (<[i := p]> (c_pages c)) c) ms.
Proof.
  destruct Hfresh as (F1 & F2 & F3 & F4). split; cbn.
  - intros i0 p0 [[<- <-]|[Hne Hp]]%lookup_insert_Some; [|by apply (inv_page _ _ I)].
    split; [done|]. split; [done|]. split; [done|].
    apply (inv_issued _ _ I b k i Hk). by eexists.
  - intros i0 j0 p0 q0 [[<- <-]|[? Hp]]%lookup_insert_Some [[<- <-]|[? Hq]]%lookup_insert_Some;
      try done; intros Heq.
    + destruct (F4 _ _ Hq) as [G1 G2]. destruct Heq; congruence.
    + destruct (F4 _ _ Hp). destruct Heq; congruence.
    + by eapply (inv_distinct _ _ I).
  - apply (inv_issued _ _ I).
  - apply (inv_key _ _ I).
  - intros b1 b2 br1 br2 k0 i0 Hk0 H1 H2 H3 H4 [Hn ?]%lookup_insert_None.
    by eapply (inv_agree _ _ I).
  - intros b0 br0 Hb0. destruct (inv_branch _ _ I _ _ Hb0) as [Hlt (Ha & He & Hd & Hc & Hu)].
    split; [done|]. split; [done|]. split; [|split; [|split]]; cbn.
    + intros k0 Hk0. destruct (He k0 Hk0) as (? & ? & i0 & ? & ? & ?). split; [done|].
      split; [done|]. exists i0. rewrite lookup_insert_is_Some'. auto.
    + intros k0 Hk0. destruct (Hd k0 Hk0) as (? & ? & i0 & ? & ?). split; [done|].
      split; [done|]. exists i0. rewrite lookup_insert_is_Some'. auto.
    + intros k0 i0 p0 Hal Hi0 [[<- <-]|[? Hp]]%lookup_insert_Some ??; [|by eapply Hc].
      change (agree (s_len (store br0) k0.1) k0.2 (page_bytes c p) (s_content (store br0) k0)).
      rewrite (load_content b0 br0 k0) by done. apply agree_refl.
    + intros k0 i0 p0 Hal Hi0 [[<- <-]|[? Hp]]%lookup_insert_Some ?; [|by eapply Hu].
      by apply (load_content b0 br0 k0).
  - intros m Hm. destruct (inv_mapping _ _ I m Hm) as (?&?&?&br0&i0&?&?&Hp&?).
    split; [done|]. split; [done|]. split; [done|]. exists br0, i0. cbn.
    rewrite lookup_insert_ne by congruence. done.
  - apply (inv_known _ _ I).
Qed.

Lemma load_views : same_views c (set_pages (<[i := p]> (c_pages c)) c).
Proof.
  intros b0 k0 Hk0. unfold page_view. cbn.
  destruct (c_branches c !! b0) as [br0|] eqn:Hb0; [|done].
  destruct (s_ident (store br0) k0) as [i0|] eqn:Hi0; [|done].
  destruct (decide (i0 = i)) as [->|Hne].
  - rewrite lookup_insert_eq, Hnone. f_equal. by apply (load_content b0).
  - by rewrite lookup_insert_ne.
Qed.

End load.

(** No mapping of the branch is live on a page whose count is zero. *)
Lemma live_count_zero ms b id m :
  live_count ms b id = 0 -> m ∈ ms -> m_branch m = b -> cp_id (m_page m) <> id.
Proof.
  unfold live_count. intros Hz Hm Hb Hid.
  assert (m ∈ filter (mapped_by b id) ms) as Hf by (apply list_elem_of_filter; done).
  destruct (filter (mapped_by b id) ms); [by apply not_elem_of_nil in Hf|]. cbn in Hz. lia.
Qed.

(** ** A branch gets a page of its own *)

Section copy.
Context c ms b br k i p (w' : W) (s' : S) i' p'.
Hypothesis I : cache_inv c ms.
Hypothesis Hk : aligned k.
Hypothesis Hb : c_branches c !! b = Some br.
Hypothesis Hi : s_ident (store br) k = Ok i.
Hypothesis Hp : c_pages c !! i = Some p.
Hypothesis Hfresh : fresh_page c p'.
Hypothesis Hbytes : page_bytes c p' = page_bytes c p.
Hypothesis Hexcl : k ∉ exclusive_pages br.
Hypothesis Hidle : live_count ms b (cp_id p) = 0.
Hypothesis Hmono : forall j, w_issued (c_world c) j -> w_issued w' j.
Hypothesis Hnew : ~ w_issued (c_world c) i'.
Hypothesis Hiss : w_issued w' i'.
Hypothesis Hi' : s_ident s' k = Ok i'.
Hypothesis Hothers : forall k', aligned k' -> k' <> k -> s_ident s' k' = s_ident (store br) k'.
Hypothesis Hcontent : forall k', aligned k' -> s_content s' k' = s_content (store br) k'.
Hypothesis Hlen : forall node, s_len s' node = s_len (store br) node.

Let c' := set_pages (<[i' := p']> (c_pages c)) (upd_store b br (w', s') c).

Lemma copy_new_unused : c_pages c !! i' = None.
Proof.
  destruct (c_pages c !! i') as [q|] eqn:Hq; [|done].
  destruct (inv_page _ _ I _ _ Hq) as (_ & _ & _ & Hq'). done.
Qed.

Lemma copy_sees b0 k0 i0 : aligned k0 ->
  sees c' b0 k0 i0 <->
  (b0 = b /\ k0 = k /\ i0 = i') \/ (~ (b0 = b /\ k0 = k) /\ sees c b0 k0 i0).
Proof.
  intros Hk0. unfold sees, c'. cbn. destruct (decide (b0 = b)) as [->|Hne].
  - rewrite lookup_insert_eq, Hb. destruct (decide (k0 = k)) as [->|Hkne].
    + split; [intros (? & [= <-] & Hs)|intros [(_ & _ & ->)|[[] _]]; [|done]].
      * left. cbn in Hs. repeat split; congruence.
      * by eexists.
    + split; [intros (? & [= <-] & Hs)|intros [(_ & -> & _)|[_ (? & [= <-] & Hs)]]; [done|]].
      * right. split; [by intros []|]. eexists. split; [done|]. by rewrite <-Hothers.
      * eexists. split; [done|]. cbn. by rewrite Hothers.
  - rewrite lookup_insert_ne by done. naive_solver.
Qed.

Lemma copy_sees_new b0 k0 : aligned k0 -> sees c' b0 k0 i' -> b0 = b /\ k0 = k.
Proof.
  intros Hk0. rewrite copy_sees by done. intros [(-> & -> & _)|[_ Hs]]; [done|].
  destruct Hnew. by eapply (inv_issued _ _ I).
Qed.

Lemma copy_sees_not_new b0 k0 i0 : aligned k0 -> sees c b0 k0 i0 -> i0 <> i'.
Proof. intros Hk0 Hs ->. destruct Hnew. by eapply (inv_issued _ _ I). Qed.

(** No mapping of the branch is live on the page being copied. *)
Lemma copy_no_mapping m : m ∈ ms -> m_branch m = b -> m_key m <> k.
Proof.
  intros Hm Hmb Hmk. destruct (inv_mapping _ _ I m Hm) as (_&_&_&br0&i0&Hb0&Hi0&Hp0&_).
  rewrite Hmb in Hb0. rewrite Hmk in Hi0.
  assert (br0 = br) as -> by congruence. assert (i0 = i) as -> by congruence.
  apply (live_count_zero _ _ _ m Hidle Hm Hmb). congruence.
Qed.

Lemma copy_page_bytes q : page_bytes c' q = page_bytes c q.
Proof. done. Qed.

(** The branch itself after the copy. *)
Lemma copy_br_ok : br_ok c' ms b (set_store s' br).
Proof.
  destruct (inv_branch _ _ I _ _ Hb) as [_ (Ha & He & Hd & Hc & Hu)].
  split; [done|]. split; [|split; [|split]]; cbn.
  - intros k0 Hk0. destruct (He k0 Hk0) as (Hal & Hkn & i0 & Hi0 & Hr & Ho).
    assert (k0 <> k) as Hne by (intros ->; done).
    split; [done|]. split; [done|]. exists i0. rewrite Hothers by done.
    split; [done|]. rewrite lookup_insert_is_Some'. split; [by right|].
    intros b' Hs. apply copy_sees in Hs; [|done]. apply Ho. naive_solver.
  - intros k0 Hk0. destruct (Hd k0 Hk0) as (Hal & Hkn & i0 & Hi0 & Hr).
    split; [done|]. split; [done|]. destruct (decide (k0 = k)) as [->|Hne].
    + exists i'. by rewrite lookup_insert_eq.
    + exists i0. rewrite Hothers by done. split; [done|].
      rewrite lookup_insert_is_Some'. by right.
  - intros k0 i0 q Hal Hi0 Hq Hnd Hnw. rewrite Hlen, Hcontent by done.
    change (agree (s_len (store br) k0.1) k0.2 (page_bytes c q) (s_content (store br) k0)).
    destruct (decide (k0 = k)) as [->|Hne].
    + assert (i0 = i') as -> by congruence. rewrite lookup_insert_eq in Hq.
      injection Hq as <-. rewrite Hbytes. by eapply Hc.
    + rewrite Hothers in Hi0 by done. rewrite lookup_insert_ne in Hq; [by eapply Hc|].
      intros <-. destruct Hnew. apply (inv_issued _ _ I b k0); [done|]. by eexists.
  - intros k0 i0 q Hal Hi0 Hq Hnk. rewrite Hcontent by done.
    change (page_bytes c q = s_content (store br) k0).
    destruct (decide (k0 = k)) as [->|Hne].
    + assert (i0 = i') as -> by congruence. rewrite lookup_insert_eq in Hq.
      injection Hq as <-. rewrite Hbytes. by eapply Hu.
    + rewrite Hothers in Hi0 by done. rewrite lookup_insert_ne in Hq; [by eapply Hu|].
      intros <-. destruct Hnew. apply (inv_issued _ _ I b k0); [done|]. by eexists.
Qed.

(** Every other branch after the copy. *)
Lemma copy_other_ok b0 br0 : b0 <> b -> c_branches c !! b0 = Some br0 -> br_ok c' ms b0 br0.
Proof.
  intros Hne Hb0. destruct (inv_branch _ _ I _ _ Hb0) as [_ (Ha & He & Hd & Hc & Hu)].
  split; [done|]. split; [|split; [|split]]; cbn.
  - intros k0 Hk0. destruct (He k0 Hk0) as (Hal & Hkn & i0 & Hi0 & Hr & Ho).
    split; [done|]. split; [done|]. exists i0. split; [done|].
    rewrite lookup_insert_is_Some'. split; [by right|].
    intros b' Hs. apply copy_sees in Hs; [|done].
    destruct Hs as [(_ & _ & ->)|[_ Hs]]; [|by apply Ho].
    exfalso. by eapply (copy_sees_not_new b0 k0 i'); [|by eexists|].
  - intros k0 Hk0. destruct (Hd k0 Hk0) as (Hal & Hkn & i0 & Hi0 & Hr).
    split; [done|]. split; [done|]. exists i0. split; [done|].
    rewrite lookup_insert_is_Some'. by right.
  - intros k0 i0 q Hal Hi0 Hq. rewrite lookup_insert_ne in Hq; [by eapply Hc|].
    intros <-. by eapply (copy_sees_not_new b0 k0 i'); [|by eexists|].
  - intros k0 i0 q Hal Hi0 Hq. rewrite lookup_insert_ne in Hq; [by eapply Hu|].
    intros <-. by eapply (copy_sees_not_new b0 k0 i'); [|by eexists|].
Qed.

Lemma copy_inv : cache_inv c' ms.
Proof.
  destruct Hfresh as (F1 & F2 & F3 & F4). split.
  - cbn. intros i0 p0 [[<- <-]|[Hne Hq]]%lookup_insert_Some; [done|].
    destruct (inv_page _ _ I _ _ Hq) as (? & ? & ? & ?). auto.
  - cbn. intros i0 j0 p0 q0 [[<- <-]|[? H1]]%lookup_insert_Some [[<- <-]|[? H2]]%lookup_insert_Some;
      try done; intros Heq.
    + destruct (F4 _ _ H2). destruct Heq; congruence.
    + destruct (F4 _ _ H1). destruct Heq; congruence.
    + by eapply (inv_distinct _ _ I).
  - intros b0 k0 i0 Hk0 Hs. apply copy_sees in Hs; [|done]. cbn.
    destruct Hs as [(_ & _ & ->)|[_ Hs]]; [done|]. apply Hmono. by eapply (inv_issued _ _ I).
  - intros b1 b2 k1 k2 i0 H1 H2 Hs1 Hs2.
    destruct (decide (i0 = i')) as [->|Hne].
    + apply copy_sees_new in Hs1; [|done]. apply copy_sees_new in Hs2; [|done]. naive_solver.
    + apply copy_sees in Hs1; [|done]. apply copy_sees in Hs2; [|done].
      apply (inv_key _ _ I b1 b2 k1 k2 i0); naive_solver.
  - intros b1 b2 br1 br2 k0 i0 Hk0 Hb1 Hb2 H1 H2.
    change (c_pages c') with (<[i' := p']> (c_pages c)). intros [Hn Hne]%lookup_insert_None.
    assert (forall b0 br0, c_branches c' !! b0 = Some br0 -> s_ident (store br0) k0 = Ok i0 ->
      exists br3, c_branches c !! b0 = Some br3 /\ s_ident (store br3) k0 = Ok i0 /\
        s_content (store br0) k0 = s_content (store br3) k0) as Hold.
    { intros b0 br0. unfold c'. cbn. intros [[<- <-]|[Hb0 Hbr]]%lookup_insert_Some Hi0; [|by eexists].
      exists br. split; [done|]. cbn in *. split; [|by apply Hcontent].
      rewrite <-Hothers; [done|done|]. intros ->. congruence. }
    destruct (Hold _ _ Hb1 H1) as (br3 & ? & ? & ->), (Hold _ _ Hb2 H2) as (br4 & ? & ? & ->).
    by eapply (inv_agree _ _ I).
  - intros b0 br0. unfold c' at 1 2. cbn. intros [[<- <-]|[Hne Hb0]]%lookup_insert_Some.
    + split; [by apply (inv_branch _ _ I _ _ Hb)|apply copy_br_ok].
    + split; [by apply (inv_branch _ _ I _ _ Hb0)|]. by apply copy_other_ok.
  - intros m Hm. destruct (inv_mapping _ _ I m Hm) as (?&Hal&?&br0&i0&Hb0&Hi0&Hq&Hw).
    split; [done|]. split; [done|]. split; [done|]. unfold c'. cbn.
    assert (i0 <> i') as Hne by (apply (copy_sees_not_new (m_branch m) (m_key m)); [done|by eexists]).
    destruct (decide (m_branch m = b)) as [Hmb|Hmb].
    + rewrite Hmb in *. assert (br0 = br) as -> by congruence. exists (set_store s' br), i0. rewrite lookup_insert_eq. cbn.
      rewrite Hothers, lookup_insert_ne by (try done; by apply copy_no_mapping). done.
    + exists br0, i0. rewrite !lookup_insert_ne by done. done.
  - apply (inv_known _ _ I).
Qed.

Lemma copy_views : same_views c c'.
Proof.
  intros b0 k0 Hk0. unfold page_view, c'. cbn.
  destruct (decide (b0 = b)) as [->|Hne].
  - rewrite lookup_insert_eq, Hb. cbn. destruct (decide (k0 = k)) as [->|Hkne].
    + rewrite Hi', Hi, lookup_insert_eq, Hp. by rewrite <-Hbytes.
    + rewrite Hothers by done. destruct (s_ident (store br) k0) as [i0|] eqn:Hi0; [|done].
      rewrite lookup_insert_ne, Hcontent; [done|done|].
      intros <-. by eapply (copy_sees_not_new b k0 i'); [|by eexists|].
  - rewrite lookup_insert_ne by done. destruct (c_branches c !! b0) as [br0|] eqn:Hb0; [|done].
    destruct (s_ident (store br0) k0) as [i0|] eqn:Hi0; [|done].
    rewrite lookup_insert_ne; [done|].
    intros <-. by eapply (copy_sees_not_new b0 k0 i'); [|by eexists|].
Qed.

End copy.

(** ** Pages are evicted *)

Section evict.
Context c ms (pages' : gmap Id CachePage).
Hypothesis I : cache_inv c ms.
Hypothesis Hsub : pages' ⊆ c_pages c.
Hypothesis Hgone : forall i p b k, c_pages c !! i = Some p -> pages' !! i = None ->
  aligned k -> sees c b k i -> k ∉ c_known c.

Let c' := set_pages pages' c.

(** A page that is known and seen stays. *)
Lemma evict_stays b br k i p :
  aligned k -> c_branches c !! b = Some br -> s_ident (store br) k = Ok i ->
  k ∈ c_known c -> c_pages c !! i = Some p -> pages' !! i = Some p.
Proof.
  intros Hk Hb Hi Hkn Hp. destruct (pages' !! i) as [q|] eqn:Hq.
  - rewrite <-Hq. rewrite (lookup_weaken _ _ _ _ Hq Hsub) in Hp. congruence.
  - exfalso. eapply (Hgone i p b k); try done. by exists br.
Qed.

Lemma evict_inv : cache_inv c' ms.
Proof.
  split; cbn.
  - intros i p Hp. apply (inv_page _ _ I). by eapply lookup_weaken.
  - intros i j p q Hp Hq. apply (inv_distinct _ _ I); by eapply lookup_weaken.
  - apply (inv_issued _ _ I).
  - apply (inv_key _ _ I).
  - intros b1 b2 br1 br2 k i Hk Hb1 Hb2 H1 H2 Hn.
    destruct (c_pages c !! i) as [p|] eqn:Hp; [|by eapply (inv_agree _ _ I)].
    assert (k ∉ c_known c) as Hkn by (eapply (Hgone i p b1 k); try done; by exists br1).
    destruct (inv_branch _ _ I _ _ Hb1) as [_ (_&_&_&_&Hu1)].
    destruct (inv_branch _ _ I _ _ Hb2) as [_ (_&_&_&_&Hu2)].
    by rewrite <-(Hu1 k i p), <-(Hu2 k i p).
  - intros b br Hb. destruct (inv_branch _ _ I _ _ Hb) as [Hlt (Ha & He & Hd & Hc & Hu)].
    split; [done|]. split; [done|]. split; [|split; [|split]]; cbn.
    + intros k Hk. destruct (He k Hk) as (Hal & Hkn & i & Hi & [p Hp] & Ho).
      split; [done|]. split; [done|]. exists i. split; [done|]. split; [|done].
      exists p. by eapply evict_stays.
    + intros k Hk. destruct (Hd k Hk) as (Hal & Hkn & i & Hi & [p Hp]).
      split; [done|]. split; [done|]. exists i. split; [done|].
      exists p. by eapply evict_stays.
    + intros k i p Hal Hi Hp. eapply Hc; [done|done|]. by eapply lookup_weaken.
    + intros k i p Hal Hi Hp. eapply Hu; [done|done|]. by eapply lookup_weaken.
  - intros m Hm. destruct (inv_mapping _ _ I m Hm) as (?&Hal&Hkn&br&i&Hb&Hi&Hp&?).
    split; [done|]. split; [done|]. split; [done|]. exists br, i. cbn.
    repeat split; try done. by eapply evict_stays.
  - apply (inv_known _ _ I).
Qed.

Lemma evict_views : same_views c c'.
Proof.
  intros b k Hk. unfold page_view. cbn.
  destruct (c_branches c !! b) as [br|] eqn:Hb; [|done].
  destruct (s_ident (store br) k) as [i|] eqn:Hi; [|done].
  destruct (c_pages c !! i) as [p|] eqn:Hp.
  - destruct (pages' !! i) as [q|] eqn:Hq.
    + rewrite (lookup_weaken _ _ _ _ Hq Hsub) in Hp. by injection Hp as ->.
    + destruct (inv_branch _ _ I _ _ Hb) as [_ (_&_&_&_&Hu)].
      rewrite (Hu k i p); try done. eapply (Hgone i p b k); try done. by exists br.
  - destruct (pages' !! i) as [q|] eqn:Hq; [|done].
    rewrite (lookup_weaken _ _ _ _ Hq Hsub) in Hp. done.
Qed.

End evict.

(** ** Changes to one branch's records

    The invariant when only the records of branch [b], the set of known
    pages and the live mappings change. *)

Section records.
Context c ms ms' b br br' (known' : gset PageKey).
Hypothesis I : cache_inv c ms.
Hypothesis Hb : c_branches c !! b = Some br.
Hypothesis Hstore : view_eq (store br) (store br').
Hypothesis Hknown : c_known c ⊆ known'.
Hypothesis Hkal : forall k, k ∈ known' -> aligned k.

Let c' := set_known known' (set_branches (<[b := br']> (c_branches c)) c).

Lemma records_mapping m : mapping_ok c m ->
  (m_branch m = b -> m_key m ∈ exclusive_pages br -> m_key m ∈ exclusive_pages br') ->
  mapping_ok c' m.
Proof.
  intros (Hid & Hal & Hkn & br0 & i & Hb0 & Hi & Hp & Hw) Hex.
  split; [done|]. split; [done|]. split; [by apply Hknown|]. unfold c'. cbn.
  destruct (decide (m_branch m = b)) as [Hmb|Hmb].
  - rewrite Hmb in *. assert (br0 = br) as -> by congruence.
    exists br', i. rewrite lookup_insert_eq. destruct Hstore as (Vi & _).
    rewrite Vi by done. repeat split; auto.
  - exists br0, i. by rewrite lookup_insert_ne.
Qed.

Hypothesis Hok : br_ok c' ms' b br'.
Hypothesis Hcount : forall b0 id, b0 <> b -> live_count ms' b0 id = live_count ms b0 id.
Hypothesis Hwriter : forall b0 k, b0 <> b -> ~ writer ms' b0 k -> ~ writer ms b0 k.
Hypothesis Hmaps : forall m, m ∈ ms' -> mapping_ok c' m.

Lemma records_lookup b0 br0 :
  c_branches c' !! b0 = Some br0 ->
  exists br1, c_branches c !! b0 = Some br1 /\ view_eq (store br1) (store br0).
Proof.
  unfold c'. cbn. intros [[<- <-]|[_ Hb0]]%lookup_insert_Some; [by exists br|].
  exists br0. split; [done|apply view_eq_refl].
Qed.

Lemma records_sees b0 k i : aligned k -> sees c' b0 k i <-> sees c b0 k i.
Proof.
  intros Hk. unfold sees, c'. cbn. destruct (decide (b0 = b)) as [->|Hne].
  - rewrite lookup_insert_eq, Hb. destruct Hstore as (Vi & _).
    split; intros (? & [= <-] & Hs); eexists; (split; [done|]); by rewrite <-Hs, Vi.
  - by rewrite lookup_insert_ne.
Qed.

Lemma records_inv : cache_inv c' ms'.
Proof.
  split.
  - apply (inv_page _ _ I).
  - apply (inv_distinct _ _ I).
  - intros b0 k i Hk Hs. rewrite records_sees in Hs by done. by apply (inv_issued _ _ I b0 k).
  - intros b1 b2 k1 k2 i H1 H2. rewrite !records_sees by done. by apply (inv_key _ _ I).
  - intros b1 b2 br1 br2 k i Hk Hb1 Hb2 H1 H2 Hn.
    destruct (records_lookup _ _ Hb1) as (br3 & ? & Vi1 & Vc1 & _).
    destruct (records_lookup _ _ Hb2) as (br4 & ? & Vi2 & Vc2 & _).
    rewrite Vc1, Vc2 by done. rewrite Vi1 in H1 by done. rewrite Vi2 in H2 by done.
    by eapply (inv_agree _ _ I).
  - intros b0 br0. unfold c' at 1 2. cbn. intros [[<- <-]|[Hne Hb0]]%lookup_insert_Some.
    + split; [by apply (inv_branch _ _ I _ _ Hb)|done].
    + destruct (inv_branch _ _ I _ _ Hb0) as [Hlt (Ha & He & Hd & Hc & Hu)].
      split; [done|]. split; [|split; [|split; [|split]]]; cbn.
      * intros id. by rewrite Hcount by done.
      * intros k Hk. destruct (He k Hk) as (Hal & Hkn & i & Hi & Hr & Ho).
        split; [done|]. split; [by apply Hknown|]. exists i. split; [done|]. split; [done|].
        intros b'. rewrite records_sees by done. apply Ho.
      * intros k Hk. destruct (Hd k Hk) as (Hal & Hkn & Hi).
        split; [done|]. split; [by apply Hknown|done].
      * intros k i p Hal Hi Hp Hnd Hnw. eapply Hc; try done. by apply Hwriter.
      * intros k i p Hal Hi Hp Hkn. eapply Hu; try done. intros Hk. by apply Hkn, Hknown.
  - done.
  - done.
Qed.

Lemma records_views : same_views c c'.
Proof.
  intros b0 k Hk. unfold page_view, c'. cbn. destruct (decide (b0 = b)) as [->|Hne].
  - rewrite lookup_insert_eq, Hb. destruct Hstore as (Vi & Vc & _). by rewrite Vi, Vc.
  - by rewrite lookup_insert_ne.
Qed.

End records.

Lemma live_count_cons m ms b id :
  live_count (m :: ms) b id =
    (if decide (mapped_by b id m) then 1 + live_count ms b id else live_count ms b id).
Proof. unfold live_count. rewrite filter_cons. case_decide; cbn [length]; lia. Qed.

Lemma live_count_other m ms b id :
  b <> m_branch m -> live_count (m :: ms) b id = live_count ms b id.
Proof. intros Hne. rewrite live_count_cons. case_decide as Hm; [|done]. destruct Hm. congruence. Qed.

Lemma writer_cons m ms b k :
  writer (m :: ms) b k <->
  (m_branch m = b /\ m_key m = k /\ WRITE (m_flags m) = true) \/ writer ms b k.
Proof.
  unfold writer. split.
  - intros (m0 & [->|Hm]%elem_of_cons & ?); [by left|right; by exists m0].
  - intros [?|(m0 & Hm & ?)]; [exists m|exists m0]; (split; [|done]); [left|by right].
Qed.

(** ** A mapping is handed out *)

Section activate.
Context c ms b br k i p (flags : MapFlags) (excl' : gset PageKey).
Hypothesis I : cache_inv c ms.
Hypothesis Hk : aligned k.
Hypothesis Hb : c_branches c !! b = Some br.
Hypothesis Hi : s_ident (store br) k = Ok i.
Hypothesis Hp : c_pages c !! i = Some p.
Hypothesis Hexcl : excl' = exclusive_pages br \/
  (excl' = {[ k ]} ∪ exclusive_pages br /\ forall b', sees c b' k i -> b' = b).
Hypothesis Hwrite : WRITE flags = true -> k ∈ excl'.

Let m := mkMapping (c_id c) b k flags p.
Let br' := set_active (<[ cp_id p := default 0 (active_pages br !! cp_id p) + 1 ]> (active_pages br))
             (set_exclusive excl' br).
Let c' := set_known ({[ k ]} ∪ c_known c) (set_branches (<[b := br']> (c_branches c)) c).

Lemma activate_sees b0 k0 i0 : aligned k0 -> sees c' b0 k0 i0 <-> sees c b0 k0 i0.
Proof. intros Hk0. apply (records_sees c b br br'); [done|apply view_eq_refl|done]. Qed.

Lemma activate_br_ok : br_ok c' (m :: ms) b br'.
Proof.
  destruct (inv_branch _ _ I _ _ Hb) as [_ (Ha & He & Hd & Hc & Hu)].
  split; [|split; [|split; [|split]]]; cbn.
  - intros id. rewrite live_count_cons.
    assert (default 0 (active_pages br !! cp_id p) = live_count ms b (cp_id p)) as ->.
    { rewrite Ha. by destruct (N.eqb_spec (live_count ms b (cp_id p)) 0) as [->|]. }
    case_decide as Hm; unfold mapped_by in Hm; cbn in Hm.
    + destruct Hm as [_ <-]. rewrite lookup_insert_eq.
      destruct (N.eqb_spec (1 + live_count ms b (cp_id p)) 0); [lia|]. f_equal. lia.
    + rewrite lookup_insert_ne by naive_solver. apply Ha.
  - intros k0 Hk0.
    assert (k0 ∈ exclusive_pages br \/ (k0 = k /\ forall b', sees c b' k i -> b' = b)) as [Hin|[-> Ho]].
    { destruct Hexcl as [->|[-> Ho]]; [by left|].
      apply elem_of_union in Hk0 as [->%elem_of_singleton|]; [by right|by left]. }
    + destruct (He k0 Hin) as (Hal & Hkn & i0 & Hi0 & Hr & Ho).
      split; [done|]. split; [set_solver|]. exists i0. split; [done|]. split; [done|].
      intros b' Hs. apply Ho. by apply activate_sees.
    + split; [done|]. split; [set_solver|]. exists i. split; [done|]. split; [by exists p|].
      intros b' Hs. apply Ho. by apply activate_sees.
  - intros k0 Hk0. destruct (Hd k0 Hk0) as (Hal & Hkn & Hr).
    split; [done|]. split; [set_solver|done].
  - intros k0 i0 p0 Hal Hi0 Hp0 Hnd Hnw. eapply Hc; try done.
    intros Hw. apply Hnw. rewrite writer_cons. by right.
  - intros k0 i0 p0 Hal Hi0 Hp0 Hnk. eapply Hu; try done. set_solver.
Qed.

Lemma activate_inv : cache_inv c' (m :: ms).
Proof.
  apply (records_inv c ms _ b br br'); try done.
  - set_solver.
  - intros k0 [->%elem_of_singleton|Hk0]%elem_of_union; [done|by apply I].
  - apply activate_br_ok.
  - intros b0 id Hne. by apply live_count_other.
  - intros b0 k0 Hne Hnw Hw. apply Hnw. rewrite writer_cons. by right.
  - intros m0 [->|Hm]%elem_of_cons.
    + split; [done|]. split; [done|]. split; [set_solver|]. exists br', i. cbn.
      rewrite lookup_insert_eq. done.
    + apply (records_mapping c b br br'); [done|done|set_solver|by apply I|].
      intros _. cbn. destruct Hexcl as [->|[-> _]]; set_solver.
Qed.

Lemma activate_views : same_views c c'.
Proof. by apply (records_views c b br br'). Qed.

End activate.

(** ** A mapping is given back *)

Section deactivate.
Context c ms m br (n : N).
Hypothesis I : cache_inv c (m :: ms).
Hypothesis Hb : c_branches c !! m_branch m = Some br.
Hypothesis Hn : active_pages br !! cp_id (m_page m) = Some (n + 1).

Let active := if n =? 0 then delete (cp_id (m_page m)) (active_pages br)
              else <[ cp_id (m_page m) := n ]> (active_pages br).
Let br' := if WRITE (m_flags m)
           then set_dirty (Dirty.mark_dirty (m_key m) (dirty_pages br)) (set_active active br)
           else set_active active br.
Let c' := set_branches (<[m_branch m := br']> (c_branches c)) c.

Lemma deactivate_records :
  store br' = store br /\ active_pages br' = active /\ exclusive_pages br' = exclusive_pages br /\
  forall k, is_dirty (dirty_pages br') k <->
    (WRITE (m_flags m) = true /\ m_key m = k) \/ is_dirty (dirty_pages br) k.
Proof.
  unfold br'. destruct (WRITE (m_flags m)); cbn; repeat split; try naive_solver.
  - intros Hd%is_dirty_mark_dirty. naive_solver.
  - rewrite is_dirty_mark_dirty. naive_solver.
Qed.

Lemma deactivate_active id :
  active !! id = (if live_count ms (m_branch m) id =? 0 then None
                  else Some (live_count ms (m_branch m) id)).
Proof.
  destruct (inv_branch _ _ I _ _ Hb) as [_ (Ha & _)].
  assert (n = live_count ms (m_branch m) (cp_id (m_page m))) as Hcount.
  { rewrite Ha, live_count_cons in Hn. case_decide as Hm; [|destruct Hm; done].
    revert Hn. cmp; [lia|]. intros [= Hn']. lia. }
  unfold active. destruct (decide (id = cp_id (m_page m))) as [->|Hne].
  - rewrite <-Hcount. destruct (n =? 0); [apply lookup_delete_eq|apply lookup_insert_eq].
  - assert ((if n =? 0 then delete (cp_id (m_page m)) (active_pages br)
             else <[cp_id (m_page m):=n]> (active_pages br)) !! id = active_pages br !! id) as ->.
    { destruct (n =? 0); [apply lookup_delete_ne|apply lookup_insert_ne]; done. }
    rewrite Ha, live_count_cons. case_decide as Hm; [|done]. destruct Hm. done.
Qed.

Lemma deactivate_inv : cache_inv c' ms.
Proof.
  destruct (inv_branch _ _ I _ _ Hb) as [_ (Ha & He & Hd & Hc & Hu)].
  destruct deactivate_records as (Rs & Ra & Rx & Rd).
  assert (view_eq (store br) (store br')) as Hv by (rewrite Rs; apply view_eq_refl).
  assert (forall m0, m0 ∈ m :: ms -> mapping_ok c' m0) as Hmaps.
  { intros m0 Hm0. apply (records_mapping c _ br br' (c_known c)); [done|done|done|by apply I|].
    by rewrite Rx. }
  destruct (inv_mapping _ _ I m (list_elem_of_here _ _)) as (_ & Hal & Hkn & br0 & i & Hb0 & Hi & Hp & _).
  assert (br0 = br) as -> by congruence.
  apply (records_inv c (m :: ms) ms _ br br' (c_known c)); try done; [apply I|..].
  - split; [|split; [|split; [|split]]].
    + intros id. rewrite Ra. apply deactivate_active.
    + intros k. rewrite Rx, Rs. intros Hk. destruct (He k Hk) as (? & ? & i0 & ? & ? & Ho).
      split; [done|]. split; [done|]. exists i0. split; [done|]. split; [done|].
      intros b' Hs. apply Ho.
      by apply (records_sees c _ br br' (c_known c) Hb Hv b' k i0).
    + intros k [[_ <-]|Hk]%Rd; rewrite Rs; [|by apply Hd].
      split; [done|]. split; [done|]. exists i. split; [done|]. by exists (m_page m).
    + intros k i0 p0. rewrite Rs. intros Hal0 Hi0 Hp0 Hnd Hnw. eapply Hc; try done.
      * intros Hk. apply Hnd, Rd. by right.
      * rewrite writer_cons. intros [(_ & <- & Hw)|Hw]; [|done]. apply Hnd, Rd. by left.
    + intros k i0 p0. rewrite Rs. apply Hu.
  - intros b0 id Hne. symmetry. by apply live_count_other.
  - intros b0 k Hne Hnw. rewrite writer_cons. intros [(<- & _)|]; done.
  - intros m0 Hm0. apply Hmaps. by right.
Qed.

Lemma deactivate_views : same_views c c'.
Proof.
  destruct deactivate_records as (Rs & _).
  apply (records_views c _ br br' (c_known c)); [done|]. rewrite Rs. apply view_eq_refl.
Qed.

End deactivate.

(** ** A branch is forked *)

Lemma idle_no_mapping c ms b br m :
  cache_inv c ms -> c_branches c !! b = Some br -> active_pages br = ∅ -> m ∈ ms ->
  m_branch m <> b.
Proof.
  intros I Hb Hempty Hm Hmb. destruct (inv_branch _ _ I _ _ Hb) as [_ (Ha & _)].
  specialize (Ha (cp_id (m_page m))). rewrite Hempty, lookup_empty in Ha.
  destruct (N.eqb_spec (live_count ms b (cp_id (m_page m))) 0) as [Hz|]; [|done].
  by eapply live_count_zero.
Qed.

Lemma idle_no_writer c ms b br k :
  cache_inv c ms -> c_branches c !! b = Some br -> active_pages br = ∅ -> ~ writer ms b k.
Proof.
  intros I Hb Hempty (m & Hm & Hmb & _). by eapply (idle_no_mapping c ms b br m).
Qed.

Section seal.
Context c ms b br (s' : S) (d' : DirtyBranch).
Hypothesis I : cache_inv c ms.
Hypothesis Hb : c_branches c !! b = Some br.
Hypothesis Hidle : active_pages br = ∅.
Hypothesis Hview : view_eq (store br) s'.
Hypothesis Hdirty : forall k, is_dirty d' k <-> is_dirty (dirty_pages br) k.

Let br' := set_exclusive ∅ (set_dirty d' (set_store s' br)).
Let c' := set_branches (<[b := br']> (c_branches c)) c.

Lemma seal_inv : cache_inv c' ms.
Proof.
  destruct (inv_branch _ _ I _ _ Hb) as [_ (Ha & He & Hd & Hc & Hu)].
  apply (records_inv c ms ms b br br' (c_known c)); try done; [apply I|..].
  - destruct Hview as (Vi & Vc & Vl).
    split; [done|]. split; [set_solver|]. split; [|split]; cbn.
    + intros k Hk%Hdirty. destruct (Hd k Hk) as (Hal & Hkn & i & Hi & Hr).
      split; [done|]. split; [done|]. exists i. by rewrite Vi.
    + intros k i p Hal Hi Hp Hnd Hnw. rewrite Vl, Vc by done. rewrite Vi in Hi by done.
      eapply Hc; try done. by rewrite <-Hdirty.
    + intros k i p Hal Hi Hp Hkn. rewrite Vc by done. rewrite Vi in Hi by done. by eapply Hu.
  - intros m Hm. apply (records_mapping c b br br' (c_known c)); [done|done|done|by apply I|].
    intros Hmb. by destruct (idle_no_mapping c ms b br m).
Qed.

Lemma seal_views : same_views c c'.
Proof. by apply (records_views c b br br' (c_known c)). Qed.

End seal.

Section child.
Context c ms (source : N) br (s' : S) (d' : DirtyBranch).
Hypothesis I : cache_inv c ms.
Hypothesis Hb : c_branches c !! source = Some br.
Hypothesis Hidle : active_pages br = ∅.
Hypothesis Hsealed : exclusive_pages br = ∅.
Hypothesis Hview : view_eq (store br) s'.
Hypothesis Hdirty : forall k, is_dirty d' k <-> is_dirty (dirty_pages br) k.

Let child := c_next_branch c.
Let c' := set_branches (<[child := fresh_branch s' d']> (c_branches c))
            (set_next_branch (child + 1) c).

Lemma child_new b br0 : c_branches c !! b = Some br0 -> b <> child.
Proof. intros Hb0. destruct (inv_branch _ _ I _ _ Hb0) as [Hlt _]. unfold child. lia. Qed.

Lemma child_sees b k i : aligned k ->
  sees c' b k i <-> sees c b k i \/ (b = child /\ sees c source k i).
Proof.
  intros Hk. unfold sees, c'. cbn. destruct Hview as (Vi & _).
  destruct (decide (b = child)) as [->|Hne].
  - rewrite lookup_insert_eq. split.
    + intros (? & [= <-] & Hs). right. split; [done|]. exists br. split; [done|].
      cbn in Hs. by rewrite <-Hs, Vi.
    + intros [(br0 & Hb0 & _)|[_ (br0 & Hb0 & Hs)]]; [by destruct (child_new _ _ Hb0)|].
      eexists. split; [done|]. cbn. rewrite Vi by done. congruence.
  - rewrite lookup_insert_ne by done. naive_solver.
Qed.

(** Every branch has, in the old cache, a branch with the same store. *)
Lemma child_origin b br0 :
  c_branches c' !! b = Some br0 ->
  exists b1 br1, c_branches c !! b1 = Some br1 /\ view_eq (store br1) (store br0).
Proof.
  unfold c'. cbn. intros [[<- <-]|[_ Hb0]]%lookup_insert_Some; [by exists source, br|].
  exists b, br0. split; [done|apply view_eq_refl].
Qed.

Lemma child_br_ok : br_ok c' ms child (fresh_branch s' d').
Proof.
  destruct (inv_branch _ _ I _ _ Hb) as [_ (Ha & He & Hd & Hc & Hu)].
  destruct Hview as (Vi & Vc & Vl).
  split; [|split; [set_solver|split; [|split]]]; cbn.
  - intros id. rewrite lookup_empty.
    destruct (N.eqb_spec (live_count ms child id) 0) as [|Hz]; [done|]. exfalso. apply Hz.
    unfold live_count. destruct (filter (mapped_by child id) ms) as [|m l] eqn:Hf; [done|].
    assert (m ∈ filter (mapped_by child id) ms) as [[Hm _] Hin]%list_elem_of_filter
      by (rewrite Hf; left).
    destruct (inv_mapping _ _ I m Hin) as (_&_&_&br0&_&Hb0&_). by destruct (child_new _ _ Hb0).
  - intros k Hk%Hdirty. destruct (Hd k Hk) as (Hal & Hkn & i & Hi & Hr).
    split; [done|]. split; [done|]. exists i. by rewrite Vi.
  - intros k i p Hal Hi Hp Hnd _. rewrite Vl, Vc by done. rewrite Vi in Hi by done.
    eapply Hc; try done; [by rewrite <-Hdirty|]. by eapply idle_no_writer.
  - intros k i p Hal Hi Hp Hkn. rewrite Vc by done. rewrite Vi in Hi by done. by eapply Hu.
Qed.

Lemma child_inv : cache_inv c' ms.
Proof.
  split.
  - apply (inv_page _ _ I).
  - apply (inv_distinct _ _ I).
  - intros b k i Hk Hs. apply child_sees in Hs; [|done].
    destruct Hs as [Hs|[_ Hs]]; by eapply (inv_issued _ _ I).
  - intros b1 b2 k1 k2 i H1 H2 Hs1 Hs2.
    apply child_sees in Hs1; [|done]. apply child_sees in Hs2; [|done].
    destruct Hs1 as [Hs1|[_ Hs1]], Hs2 as [Hs2|[_ Hs2]]; by eapply (inv_key _ _ I).
  - intros b1 b2 br1 br2 k i Hk Hb1 Hb2 H1 H2 Hn.
    destruct (child_origin _ _ Hb1) as (b3 & br3 & ? & Vi1 & Vc1 & _).
    destruct (child_origin _ _ Hb2) as (b4 & br4 & ? & Vi2 & Vc2 & _).
    rewrite Vc1, Vc2 by done. rewrite Vi1 in H1 by done. rewrite Vi2 in H2 by done.
    by eapply (inv_agree _ _ I).
  - intros b br0 Hb0.
    change (c_next_branch c') with (c_next_branch c + 1).
    change (c_branches c') with (<[child := fresh_branch s' d']> (c_branches c)) in Hb0.
    apply lookup_insert_Some in Hb0 as [[<- <-]|[Hne Hb0]].
    + split; [unfold child; lia|apply child_br_ok].
    + destruct (inv_branch _ _ I _ _ Hb0) as [Hlt (Ha & He & Hd & Hc & Hu)].
      split; [lia|]. split; [done|]. split; [|done].
      intros k Hk. destruct (He k Hk) as (Hal & Hkn & i & Hi & Hr & Ho).
      split; [done|]. split; [done|]. exists i. split; [done|]. split; [done|].
      intros b' Hs. apply child_sees in Hs; [|done]. destruct Hs as [Hs|[_ Hs]]; [by apply Ho|].
      apply Ho in Hs. subst b. assert (br0 = br) as -> by congruence. set_solver.
  - intros m Hm. destruct (inv_mapping _ _ I m Hm) as (?&?&?&br0&i&Hb0&?&?&?).
    split; [done|]. split; [done|]. split; [done|]. exists br0, i. unfold c'. cbn.
    rewrite lookup_insert_ne; [done|]. intros Heq. by destruct (child_new _ _ Hb0).
  - apply (inv_known _ _ I).
Qed.

Lemma child_views :
  (forall b k, aligned k -> b <> child -> page_view c' b k = page_view c b k) /\
  (forall k, aligned k -> page_view c' child k = page_view c source k).
Proof.
  unfold page_view, c'. cbn. split.
  - intros b k Hk Hne. by rewrite lookup_insert_ne.
  - intros k Hk. rewrite lookup_insert_eq, Hb. destruct Hview as (Vi & Vc & _). cbn.
    by rewrite Vi, Vc.
Qed.

End child.

(** ** A branch is removed *)

Section drop.
Context c ms b br.
Hypothesis I : cache_inv c ms.
Hypothesis Hb : c_branches c !! b = Some br.
Hypothesis Hidle : active_pages br = ∅.

Let c' := set_branches (delete b (c_branches c)) c.

Lemma drop_sees b0 k i : sees c' b0 k i <-> b0 <> b /\ sees c b0 k i.
Proof.
  unfold sees, c'. cbn. split.
  - intros (br0 & [Hne Hb0]%lookup_delete_Some & Hi). split; [done|]. by exists br0.
  - intros [Hne (br0 & Hb0 & Hi)]. exists br0. by rewrite lookup_delete_ne.
Qed.

Lemma drop_inv : cache_inv c' ms.
Proof.
  split.
  - apply (inv_page _ _ I).
  - apply (inv_distinct _ _ I).
  - intros b0 k i Hk [_ Hs]%drop_sees. by eapply (inv_issued _ _ I).
  - intros b1 b2 k1 k2 i H1 H2 [_ Hs1]%drop_sees [_ Hs2]%drop_sees. by eapply (inv_key _ _ I).
  - unfold c'. cbn. intros b1 b2 br1 br2 k i Hk [_ Hb1]%lookup_delete_Some [_ Hb2]%lookup_delete_Some.
    by eapply (inv_agree _ _ I).
  - intros b0 br0 Hb0. change (c_branches c') with (delete b (c_branches c)) in Hb0.
    apply lookup_delete_Some in Hb0 as [Hne Hb0].
    destruct (inv_branch _ _ I _ _ Hb0) as [Hlt (Ha & He & Hd & Hc & Hu)].
    split; [done|]. split; [done|]. split; [|done].
    intros k Hk. destruct (He k Hk) as (Hal & Hkn & i & Hi & Hr & Ho).
    split; [done|]. split; [done|]. exists i. split; [done|]. split; [done|].
    intros b' [_ Hs]%drop_sees. by apply Ho.
  - intros m Hm. destruct (inv_mapping _ _ I m Hm) as (?&?&?&br0&i&Hb0&?&?&?).
    split; [done|]. split; [done|]. split; [done|]. exists br0, i. unfold c'. cbn.
    rewrite lookup_delete_ne; [done|]. intros Heq. by destruct (idle_no_mapping c ms b br m I Hb Hidle Hm).
  - apply (inv_known _ _ I).
Qed.

Lemma drop_views b0 k : b0 <> b -> page_view c' b0 k = page_view c b0 k.
Proof. intros Hne. unfold page_view, c'. cbn. by rewrite lookup_delete_ne. Qed.

End drop.

(** ** A client writes through a mapping *)

Section poke.
Context c ms m (h' : Host) (bytes' : list byte).
Hypothesis I : cache_inv c ms.
Hypothesis Hm : m ∈ ms.
Hypothesis Hwrite : WRITE (m_flags m) = true.
Hypothesis Hfiles : h_files h' = <[cp_backing (m_page m) := bytes']> (h_files (c_host c)).
Hypothesis Hnext : h_next_file h' = h_next_file (c_host c).
Hypothesis Hlen : length bytes' = page_nat.

Let c' := set_host h' c.

Lemma poke_owner :
  exists br i, c_branches c !! m_branch m = Some br /\ s_ident (store br) (m_key m) = Ok i /\
    c_pages c !! i = Some (m_page m) /\ aligned (m_key m) /\ m_key m ∈ c_known c /\
    forall b, sees c b (m_key m) i -> b = m_branch m.
Proof.
  destruct (inv_mapping _ _ I m Hm) as (_ & Hal & Hkn & br & i & Hb & Hi & Hp & Hw).
  exists br, i. repeat split; try done. intros b Hs.
  destruct (inv_branch _ _ I _ _ Hb) as [_ (_ & He & _)].
  destruct (He _ (Hw Hwrite)) as (_ & _ & i0 & Hi0 & _ & Ho).
  apply Ho. congruence.
Qed.

Lemma poke_page_bytes q :
  page_bytes c' q = if decide (cp_backing q = cp_backing (m_page m)) then bytes' else page_bytes c q.
Proof.
  unfold page_bytes, file_bytes, c'. cbn. rewrite Hfiles. case_decide as Hq.
  - by rewrite Hq, lookup_insert_eq.
  - by rewrite lookup_insert_ne.
Qed.

(** A page other than the mapped one keeps its bytes. *)
Lemma poke_other b br k i p :
  aligned k -> c_branches c !! b = Some br -> s_ident (store br) k = Ok i ->
  c_pages c !! i = Some p -> (b, k) <> (m_branch m, m_key m) ->
  page_bytes c' p = page_bytes c p.
Proof.
  intros Hk Hb Hi Hp Hne. rewrite poke_page_bytes. case_decide as Heq; [|done].
  destruct poke_owner as (br0 & i0 & Hb0 & Hi0 & Hp0 & Hal & _ & Ho). destruct Hne.
  assert (i = i0) as -> by (eapply (inv_distinct _ _ I); [done|done|by right]).
  assert (k = m_key m) as -> by (eapply (inv_key _ _ I b (m_branch m)); [done|done|by exists br|by exists br0]).
  rewrite (Ho b); [done|]. by exists br.
Qed.

Lemma poke_inv : cache_inv c' ms.
Proof.
  split; try apply I.
  - intros i p Hp. destruct (inv_page _ _ I _ _ Hp) as ((bytes & Hf & Hl) & ? & ? & ?).
    cbn. rewrite Hfiles, Hnext. split; [|done].
    destruct (decide (cp_backing p = cp_backing (m_page m))) as [->|Hne].
    + exists bytes'. by rewrite lookup_insert_eq.
    + exists bytes. by rewrite lookup_insert_ne.
  - intros b br Hb. destruct (inv_branch _ _ I _ _ Hb) as [Hlt (Ha & He & Hd & Hc & Hu)].
    split; [done|]. split; [done|]. split; [done|]. split; [done|]. split.
    + intros k i p Hk Hi Hp Hnd Hnw. rewrite (poke_other b br k i p); try done; [by eapply Hc|].
      intros [= -> ->]. apply Hnw. by exists m.
    + intros k i p Hk Hi Hp Hkn. rewrite (poke_other b br k i p); try done; [by eapply Hu|].
      intros [= -> ->]. destruct poke_owner as (?&?&_&_&_&_&?&_). done.
Qed.

Lemma poke_views b k : aligned k ->
  page_view c' b k =
    if decide ((b, k) = (m_branch m, m_key m)) then Some bytes' else page_view c b k.
Proof.
  intros Hk. unfold page_view. cbn. case_decide as Heq.
  - injection Heq as -> ->. destruct poke_owner as (br & i & -> & -> & -> & _).
    f_equal. rewrite poke_page_bytes. by rewrite decide_True.
  - destruct (c_branches c !! b) as [br|] eqn:Hb; [|done].
    destruct (s_ident (store br) k) as [i|] eqn:Hi; [|done].
    destruct (c_pages c !! i) as [p|] eqn:Hp; [|done].
    by rewrite (poke_other b br k i p).
Qed.

End poke.

(** ** A page is written back *)

Section write_back.
Context c ms b br k (w' : W) (s' : S).
Hypothesis I : cache_inv c ms.
Hypothesis Hb : c_branches c !! b = Some br.
Hypothesis Hdirty : is_dirty (dirty_pages br) k.
Hypothesis Hmono : forall j, w_issued (c_world c) j -> w_issued w' j.
Hypothesis Hframe : write_frame k (store br) s'.

Let c' := upd_store b br (w', s') c.

Lemma write_back_sees b0 k0 i : aligned k0 -> sees c' b0 k0 i <-> sees c b0 k0 i.
Proof.
  intros Hk0. unfold sees, c'. cbn. destruct (decide (b0 = b)) as [->|Hne].
  - rewrite lookup_insert_eq, Hb. destruct Hframe as (Vi & _).
    split; intros (? & [= <-] & Hs); eexists; (split; [done|]); cbn in *; by rewrite <-Hs, Vi.
  - by rewrite lookup_insert_ne.
Qed.

(** Pages that are not resident are not the page written. *)
Lemma write_back_content b0 br0 k0 i : aligned k0 ->
  c_branches c' !! b0 = Some br0 -> s_ident (store br0) k0 = Ok i -> c_pages c !! i = None ->
  exists br1, c_branches c !! b0 = Some br1 /\ s_ident (store br1) k0 = Ok i /\
    s_content (store br0) k0 = s_content (store br1) k0.
Proof.
  intros Hk0. unfold c'. cbn. intros [[<- <-]|[_ Hb0]]%lookup_insert_Some Hi Hn; [|by exists br0].
  destruct Hframe as (Vi & Vc & _). cbn in *. rewrite Vi in Hi by done.
  exists br. split; [done|]. split; [done|]. apply Vc; [done|]. intros ->.
  destruct (inv_branch _ _ I _ _ Hb) as [_ (_ & _ & Hd & _)].
  destruct (Hd k Hdirty) as (_ & _ & i0 & Hi0 & [q Hq]). congruence.
Qed.

Lemma write_back_inv : cache_inv c' ms.
Proof.
  split.
  - intros i p Hp. destruct (inv_page _ _ I _ _ Hp) as (? & ? & ? & ?). cbn. auto.
  - apply (inv_distinct _ _ I).
  - intros b0 k0 i Hk0. rewrite write_back_sees by done. intros Hs. apply Hmono.
    by eapply (inv_issued _ _ I).
  - intros b1 b2 k1 k2 i H1 H2. rewrite !write_back_sees by done. by apply (inv_key _ _ I).
  - intros b1 b2 br1 br2 k0 i Hk0 Hb1 Hb2 H1 H2 Hn.
    destruct (write_back_content _ _ _ _ Hk0 Hb1 H1 Hn) as (br3 & ? & ? & ->).
    destruct (write_back_content _ _ _ _ Hk0 Hb2 H2 Hn) as (br4 & ? & ? & ->).
    by eapply (inv_agree _ _ I).
  - intros b0 br0. unfold c' at 1 2. cbn. intros Hb0.
    assert (forall br1, c_branches c !! b0 = Some br1 -> exclusive_pages br0 = exclusive_pages br1 ->
      (forall k0, aligned k0 -> s_ident (store br0) k0 = s_ident (store br1) k0) ->
      forall k0, k0 ∈ exclusive_pages br0 -> aligned k0 /\ k0 ∈ c_known c' /\
        exists i, s_ident (store br0) k0 = Ok i /\ is_Some (c_pages c' !! i) /\
          forall b', sees c' b' k0 i -> b' = b0) as Hexcl.
    { intros br1 Hb1 Hx Vi k0. rewrite Hx. intros Hk0.
      destruct (inv_branch _ _ I _ _ Hb1) as [_ (_ & He & _)].
      destruct (He k0 Hk0) as (Hal & Hkn & i & Hi & Hr & Ho).
      split; [done|]. split; [done|]. exists i. rewrite Vi by done. split; [done|].
      split; [done|]. intros b'. rewrite write_back_sees by done. apply Ho. }
    apply lookup_insert_Some in Hb0 as [[<- <-]|[Hne Hb0]].
    + destruct (inv_branch _ _ I _ _ Hb) as [Hlt (Ha & He & Hd & Hc & Hu)].
      destruct Hframe as (Vi & Vc & Vl).
      split; [done|]. split; [done|]. split; [by apply (Hexcl br)|]. split; [|split]; cbn.
      * intros k0 Hk0. destruct (Hd k0 Hk0) as (Hal & Hkn & i & Hi & Hr).
        split; [done|]. split; [done|]. exists i. by rewrite Vi.
      * intros k0 i p Hal Hi Hp Hnd Hnw. rewrite Vi in Hi by done.
        rewrite Vl, Vc; [by eapply Hc|done|]. by intros ->.
      * intros k0 i p Hal Hi Hp Hkn. rewrite Vi in Hi by done.
        rewrite Vc; [by eapply Hu|done|]. intros ->. by destruct (Hd k Hdirty) as (_ & ? & _).
    + destruct (inv_branch _ _ I _ _ Hb0) as [Hlt (Ha & He & Hd & Hc & Hu)].
      split; [done|]. split; [done|]. split; [by apply (Hexcl br0)|done].
  - intros m Hm. destruct (inv_mapping _ _ I m Hm) as (?&Hal&?&br0&i&Hb0&Hi&Hp&Hw).
    split; [done|]. split; [done|]. split; [done|]. unfold c'. cbn.
    destruct (decide (m_branch m = b)) as [Hmb|Hmb].
    + rewrite Hmb in *. assert (br0 = br) as -> by congruence. exists (set_store s' br), i.
      rewrite lookup_insert_eq. cbn. destruct Hframe as (Vi & _). by rewrite Vi.
    + exists br0, i. by rewrite lookup_insert_ne.
  - apply (inv_known _ _ I).
Qed.

Lemma write_back_views : same_views c c'.
Proof.
  intros b0 k0 Hk0. unfold page_view, c'. cbn. destruct (decide (b0 = b)) as [->|Hne].
  - rewrite lookup_insert_eq, Hb. cbn. destruct Hframe as (Vi & Vc & _). rewrite Vi by done.
    destruct (s_ident (store br) k0) as [i|] eqn:Hi; [|done].
    destruct (c_pages c !! i) as [p|] eqn:Hp; [done|]. rewrite Vc; [done|done|]. intros ->.
    destruct (inv_branch _ _ I _ _ Hb) as [_ (_ & _ & Hd & _)].
    destruct (Hd k Hdirty) as (_ & _ & i0 & Hi0 & [q Hq]). congruence.
  - by rewrite lookup_insert_ne.
Qed.

End write_back.

Section clean.
Context c ms b br k.
Hypothesis I : cache_inv c ms.
Hypothesis Hb : c_branches c !! b = Some br.
Hypothesis Hagree : forall i p, s_ident (store br) k = Ok i -> c_pages c !! i = Some p ->
  agree (s_len (store br) k.1) k.2 (page_bytes c p) (s_content (store br) k).

Let br' := set_dirty (Dirty.mark_clean k (dirty_pages br)) br.
Let c' := set_branches (<[b := br']> (c_branches c)) c.

Lemma clean_inv : cache_inv c' ms.
Proof.
  destruct (inv_branch _ _ I _ _ Hb) as [_ (Ha & He & Hd & Hc & Hu)].
  apply (records_inv c ms ms b br br' (c_known c)); try done; [apply I|..].
  - split; [done|]. split; [|split; [|split]]; cbn.
    + intros k0 Hk0. destruct (He k0 Hk0) as (Hal & Hkn & i & Hi & Hr & Ho).
      split; [done|]. split; [done|]. exists i. split; [done|]. split; [done|].
      intros b'. rewrite (records_sees c b br br' (c_known c)); [apply Ho|done|done|done].
    + intros k0 [_ Hk0]%is_dirty_mark_clean. by apply Hd.
    + intros k0 i p Hal Hi Hp Hnd Hnw. destruct (decide (k0 = k)) as [->|Hne]; [by apply (Hagree i)|].
      eapply Hc; try done. intros Hk0. apply Hnd, is_dirty_mark_clean. done.
    + done.
  - intros m Hm. apply (records_mapping c b br br' (c_known c)); try done. by apply I.
Qed.

Lemma clean_views : same_views c c'.
Proof. by apply (records_views c b br br' (c_known c)). Qed.

End clean.

End steps.
