(* ===== verification/SharedCacheOps.v ===== *)
(** * Correctness of the shared cache's operations

    One weakest-precondition lemma per operation: from a good state every
    outcome of the operation, errors included, is a good state, and the lemma
    says what the operation returns and which pages of which branch it
    changes.  The host may fail any call. *)

From S2P Require Import Prelude Generations Host CacheTypes DirtyPages SharedCache SharedCacheInv SharedCacheSteps.
Import Shared DirtyFacts.

Section ops.
Context {W S Id : Type} `{Countable Id} `{!ForkableNodeStore W S Id} `{!StoreView W S Id}
  `{!StoreLaws W S Id}.

Implicit Types (c : Cache W S Id) (b : N) (k : PageKey) (i : Id) (p : CachePage)
  (m : DaxPageMapping) (ms : list DaxPageMapping) (br : CacheBranch S).

(** The invariant, no orphaned pages, and room for [n] more pages. *)
Definition good (n : N) c ms : Prop := cache_inv c ms /\ no_orphans c /\ budget n c.

(** A change nobody sees that also uses no identities. *)
Definition quiet c c' : Prop := ext c c' /\ forall n, budget n c -> budget n c'.

Lemma quiet_refl c : quiet c c.
Proof. split; [apply ext_refl|done]. Qed.

Lemma quiet_trans c1 c2 c3 : quiet c1 c2 -> quiet c2 c3 -> quiet c1 c3.
Proof. intros [E1 B1] [E2 B2]. split; [by eapply ext_trans|auto]. Qed.

Lemma good_quiet n c c' ms : good n c ms -> quiet c c' -> good n c' ms.
Proof.
  intros (I & O & B) [E Q]. split; [by eapply ext_inv|]. split; [by eapply ext_no_orphans|auto].
Qed.

Lemma views_quiet n c c' ms : good n c ms -> quiet c c' -> same_views c c'.
Proof. intros (I & _) [E _] b k Hk. by eapply ext_view. Qed.

Lemma same_views_trans c1 c2 c3 : same_views c1 c2 -> same_views c2 c3 -> same_views c1 c3.
Proof. intros H1 H2 b k Hk. rewrite H2, H1; done. Qed.

Lemma same_views_refl c : same_views c c.
Proof. done. Qed.

Lemma budget_le (n' n : N) c : budget n c -> n' <= n -> budget n' c.
Proof. intros [H1 H2] Hle. split; [lia|]. by eapply w_room_le. Qed.

Lemma good_le (n' n : N) c ms : good n c ms -> n' <= n -> good n' c ms.
Proof. intros (I & O & B) Hle. split; [done|]. split; [done|]. by eapply budget_le. Qed.

(** ** Stores and host files *)

Lemma wp_branch_mut b Q R c :
  (forall br, c_branches c !! b = Some br -> Q br c) ->
  (c_branches c !! b = None -> R (BranchNotFound b) c) ->
  wp (branch_mut b) Q R c.
Proof. intros HQ HR. unfold wp, branch_mut. destruct (c_branches c !! b); auto. Qed.

Lemma wp_put_branch b br Q R c :
  wp (put_branch b br) Q R c <-> Q tt (set_branches (<[b := br]> (c_branches c)) c).
Proof. done. Qed.

Lemma wp_on_store {A} b (f : M (W * S) io_error A) Q R c br :
  c_branches c !! b = Some br ->
  wp f (fun a ws => Q a (upd_store b br ws c)) (fun e ws => R (Io e) (upd_store b br ws c))
    (c_world c, store br) ->
  wp (on_store b f) Q R c.
Proof.
  intros Hb Hf. unfold on_store, wp, mbind, M_bind, branch_mut, get. rewrite Hb.
  unfold wp in Hf. destruct (f (c_world c, store br)) as [[w' s'] [a|e]]; done.
Qed.

Lemma keeps_quiet c b br ws :
  c_branches c !! b = Some br -> keeps (c_world c, store br) ws -> quiet c (upd_store b br ws c).
Proof.
  intros Hb [[Hi Hr] Hv]. split; [split|]; cbn in *; try done.
  - intros b0. destruct (decide (b0 = b)) as [->|Hne].
    + rewrite lookup_insert_eq, Hb. by constructor.
    + rewrite lookup_insert_ne by done. destruct (c_branches c !! b0); constructor.
      apply br_eq_refl.
  - intros n [H1 H2]. split; [done|]. by apply Hr.
Qed.

(** A method of a store that changes nothing visible. *)
Lemma wp_on_store_keeps {A} (P : A -> Prop) (E : io_error -> Prop) b
    (f : M (W * S) io_error A) Q R c br :
  c_branches c !! b = Some br ->
  wp f (fun a ws => P a /\ keeps (c_world c, store br) ws)
       (fun e ws => E e /\ keeps (c_world c, store br) ws) (c_world c, store br) ->
  (forall a c', P a -> quiet c c' -> Q a c') ->
  (forall e c', E e -> quiet c c' -> R (Io e) c') ->
  wp (on_store b f) Q R c.
Proof.
  intros Hb Hf HQ HR. apply (wp_on_store _ _ _ _ _ br Hb).
  eapply wp_mono; [exact Hf| |]; cbn.
  - intros a ws [Ha Hk]. by apply HQ, keeps_quiet.
  - intros e ws [He Hk]. by apply HR, keeps_quiet.
Qed.

Lemma wp_identity b k Q R c br :
  c_branches c !! b = Some br -> aligned k ->
  (forall i c', s_ident (store br) k = Ok i -> quiet c c' -> Q i c') ->
  (forall e c', s_ident (store br) k = Err e -> quiet c c' -> R (Io e) c') ->
  wp (on_store b (page_identity k.1 k.2)) Q R c.
Proof.
  intros Hb Hk HQ HR. eapply wp_on_store_keeps; [done| |exact HQ|exact HR].
  by apply law_identity.
Qed.

Lemma wp_len b node Q R c br :
  c_branches c !! b = Some br ->
  (forall n c', s_len (store br) node = Ok n -> quiet c c' -> Q n c') ->
  (forall e c', quiet c c' -> R (Io e) c') ->
  wp (on_store b (ns_len node)) Q R c.
Proof.
  intros Hb HQ HR. eapply (wp_on_store_keeps _ (fun _ => True)); [done| |exact HQ|auto].
  eapply wp_mono; [apply law_len| |]; auto.
Qed.

Lemma same_files_quiet c h' : same_files (c_host c) h' -> quiet c (set_host h' c).
Proof.
  intros [Hf Hn]. split; [split|]; cbn; try done; rewrite ?Hf, ?Hn; try done.
  intros b. destruct (c_branches c !! b); constructor. apply br_eq_refl.
Qed.

Lemma wp_io_read p n off Q R c ms i :
  cache_inv c ms -> c_pages c !! i = Some p -> off + n <= PAGE_SIZE ->
  (forall c', quiet c c' -> Q (slice off n (page_bytes c p)) c') ->
  (forall e c', quiet c c' -> R (Io e) c') ->
  wp (io (read_exact_at (cp_backing p) n off)) Q R c.
Proof.
  intros I Hp Hn HQ HR. unfold io. rewrite wp_zoom, wp_with_err. apply wp_read_exact_at.
  - intros h' Hh' _. by apply HQ, same_files_quiet.
  - intros ->. replace [] with (slice off 0 (page_bytes c p)) by (unfold slice; done).
    apply HQ. by apply (same_files_quiet c (c_host c)).
  - intros e h' Hh'. by apply HR, same_files_quiet.
Qed.

(** New files only: the shape of every change [from_bytes] makes. *)
Lemma new_files_ext c h' n :
  (forall f, f < h_next_file (c_host c) -> h_files h' !! f = h_files (c_host c) !! f) ->
  h_next_file (c_host c) <= h_next_file h' -> c_next_page_id c <= n ->
  ext c (set_next_page_id n (set_host h' c)).
Proof.
  intros Hf Hnext Hn. split; cbn; try done.
  - intros b. destruct (c_branches c !! b); constructor. apply br_eq_refl.
  - intros f bytes Hlt Hb. by rewrite Hf.
Qed.

(** [CachePage::from_bytes] makes a page of those bytes in use nowhere else. *)
Lemma wp_from_bytes bytes n Q R c ms :
  cache_inv c ms -> budget (1 + n) c -> length bytes = page_nat ->
  (forall p c', ext c c' -> budget n c' -> fresh_page c' p -> page_bytes c' p = bytes -> Q p c') ->
  (forall e c', ext c c' -> budget n c' -> R e c') ->
  wp (from_bytes bytes) Q R c.
Proof.
  intros I B Hlen HQ HR. pose proof (budget_le n _ _ B ltac:(lia)) as [B1 B2].
  destruct B as [B0 _].
  assert (forall h', (forall f, f < h_next_file (c_host c) -> h_files h' !! f = h_files (c_host c) !! f) ->
    h_next_file (c_host c) <= h_next_file h' -> forall e, R e (set_host h' c)) as Hfail.
  { intros h' Hf Hnext e. apply HR; [|by split].
    by apply (new_files_ext c h' (c_next_page_id c)). }
  unfold from_bytes, io. wp_steps. apply wp_tempfile.
  2:{ intros e h' [Hf Hn]. apply Hfail; [by rewrite Hf|lia]. }
  intros h1 Hf1 Hn1. wp_steps. apply wp_set_len.
  2:{ intros e h' [Hf Hn]. cbn in *. apply Hfail; [|lia].
      intros f Hlt. rewrite Hf, Hf1. apply lookup_insert_ne. lia. }
  intros h2 Hf2 Hn2. wp_steps. cbn in *.
  assert (file_bytes h1 (h_next_file (c_host c)) = []) as Hb1
    by (unfold file_bytes; by rewrite Hf1, lookup_insert_eq).
  rewrite Hb1, Hf1, insert_insert_eq in Hf2.
  eapply (wp_write_all_at _ bytes 0 (resize_bytes PAGE_SIZE [])).
  { cbn. rewrite Hf2. apply lookup_insert_eq. }
  { intros ->. pose proof page_nat_N. cbn in Hlen. unfold PAGE_SIZE in *. lia. }
  - intros h3 Hf3 Hn3. cbn in *. wp_steps. rewrite Hf2, insert_insert_eq in Hf3.
    rewrite file_write_all in Hf3 by (rewrite Hlen; symmetry; apply (length_pad_page [])).
    rewrite wrapping_add_small by (cbn; lia).
    apply HQ.
    + apply (new_files_ext c h3); [|lia|cbn; lia].
      intros f Hlt. rewrite Hf3. apply lookup_insert_ne. lia.
    + split; cbn; [lia|done].
    + split; cbn; [lia|]. split; [lia|]. split.
      * exists bytes. by rewrite Hf3, lookup_insert_eq.
      * intros j q Hq. destruct (inv_page _ _ I _ _ Hq) as (_ & ? & ? & _). lia.
    + unfold page_bytes, file_bytes. cbn. by rewrite Hf3, lookup_insert_eq.
  - intros e h3 c3 Hf3 _ Hn3. cbn in *. apply Hfail; [|lia].
    intros f Hlt. rewrite Hf3, Hf2, !lookup_insert_ne by lia. done.
Qed.

(** ** Faulting a page in *)

(** The branches keep their identities and resident pages stay. *)
Definition steady c c' : Prop :=
  (forall b k i, aligned k -> sees c' b k i <-> sees c b k i) /\ c_pages c ⊆ c_pages c'.

Lemma steady_trans c1 c2 c3 : steady c1 c2 -> steady c2 c3 -> steady c1 c3.
Proof.
  intros [S1 P1] [S2 P2]. split; [|by etrans]. intros b k i Hk. by rewrite S2, S1.
Qed.

Lemma steady_ext c c' : ext c c' -> steady c c'.
Proof. intros E. split; [intros; by apply ext_sees|]. by rewrite (ext_pages _ _ E). Qed.

Lemma wp_load_page b k n Q R c ms br i :
  good (1 + n) c ms -> c_branches c !! b = Some br -> aligned k -> s_ident (store br) k = Ok i ->
  (forall p c' br', good n c' ms -> same_views c c' -> c_branches c' !! b = Some br' ->
    br_eq br br' -> c_pages c' !! i = Some p -> steady c c' -> Q p c') ->
  (forall e c', good n c' ms -> same_views c c' -> R e c') ->
  wp (load_page b i k.1 k.2) Q R c.
Proof.
  intros G Hb Hk Hi HQ HR. pose proof (good_le n _ _ _ G ltac:(lia)) as Gn.
  unfold load_page. wp_steps. destruct (c_pages c !! i) as [p|] eqn:Hp.
  { wp_steps. by eapply HQ; [| | |apply br_eq_refl| |apply steady_ext, ext_refl]. }
  wp_steps. eapply wp_on_store_keeps.
  { exact Hb. }
  { eapply wp_mono; [by apply law_read| |].
    - cbn. intros bytes ws Hw. exact Hw.
    - cbn. intros e ws Hw. split; [exact I|done]. }
  2:{ intros e c1 _ Q1. apply HR; [by eapply good_quiet|by eapply views_quiet]. }
  intros bytes c1 Hbytes Q1. wp_steps.
  pose proof (good_quiet _ _ _ _ G Q1) as (I1 & O1 & B1).
  eapply wp_from_bytes; [done|done|apply length_pad_page| |].
  2:{ intros e c2 E2 B2. assert (ext c c2) as E by (eapply ext_trans; [apply Q1|done]).
      destruct G as (I0 & O0 & _). apply HR; [|intros ???; by eapply ext_view].
      split; [by eapply ext_inv|]. split; [by eapply ext_no_orphans|done]. }
  intros p c2 E2 B2 F2 Hp2. wp_steps.
  assert (ext c c2) as E by (eapply ext_trans; [apply Q1|done]).
  destruct G as (I0 & O0 & _). pose proof (ext_inv _ _ _ I0 E) as I2.
  destruct (ext_lookup _ _ _ _ E Hb) as (br2 & Hb2 & Hbr).
  pose proof Hbr as ((Vi & Vc & _) & _).
  assert (s_ident (store br2) k = Ok i) as Hi2 by (by rewrite Vi).
  assert (c_pages c2 !! i = None) as Hn by (by rewrite (ext_pages _ _ E)).
  assert (page_bytes c2 p = s_content (store br2) k) as Hc2 by (by rewrite Vc, Hp2).
  eapply HQ.
  - split; [|split; [|done]].
    + by apply (load_inv c2 ms b br2 k i p).
    + intros j q. cbn. intros [[<- <-]|[_ Hq]]%lookup_insert_Some.
      * exists b, k. split; [done|]. by exists br2.
      * rewrite (ext_pages _ _ E) in Hq. destruct (O0 j q Hq) as (b0 & k0 & Hk0 & Hs).
        exists b0, k0. split; [done|]. by apply (ext_sees c c2).
  - eapply same_views_trans; [intros ???; by eapply ext_view|].
    by apply (load_views c2 ms b br2 k i p).
  - exact Hb2.
  - done.
  - apply lookup_insert_eq.
  - eapply steady_trans; [by apply steady_ext|]. split; [done|]. by apply insert_subseteq.
Qed.

(** The scan over the branches finds exactly those that see the identity. *)
Lemma wp_any_sees bs k i Q R c :
  aligned k -> (forall b, b ∈ bs -> is_Some (c_branches c !! b)) ->
  (forall r c', quiet c c' -> (if r : bool then exists b, b ∈ bs /\ sees c b k i
                               else forall b, b ∈ bs -> ~ sees c b k i) -> Q r c') ->
  wp (any_sees bs i k.1 k.2) Q R c.
Proof.
  intros Hk. revert Q c. induction bs as [|b bs IH]; intros Q c Hbs HQ; cbn [any_sees].
  { wp_steps. apply HQ; [apply quiet_refl|]. intros b Hb. by apply not_elem_of_nil in Hb. }
  destruct (Hbs b (list_elem_of_here _ _)) as [br Hb].
  assert (forall r c1, quiet c c1 -> r <> Ok i -> ~ sees c b k i ->
    wp (if decide (r = Ok i :> result CacheError Id) then mret true else any_sees bs i k.1 k.2) Q R c1)
    as Hnext.
  { intros r c1 Q1 Hr Hns. rewrite decide_False by done. apply IH.
    - intros b0 Hb0. destruct (Hbs b0 (list_elem_of_further _ _ _ Hb0)) as [br0 Hb0'].
      destruct (ext_lookup _ _ _ _ (proj1 Q1) Hb0') as (? & ? & _). by eexists.
    - intros r' c2 Q2 Hr'. apply HQ; [by eapply quiet_trans|]. destruct r'.
      + destruct Hr' as (b0 & Hb0 & Hs). exists b0. split; [by right|].
        apply (ext_sees c c1); [apply Q1|done|done].
      + intros b0 [->|Hb0]%elem_of_cons; [done|]. intros Hs. apply (Hr' b0 Hb0).
        apply (ext_sees c c1); [apply Q1|done|done]. }
  wp_steps. apply (wp_identity b k _ _ c br); [done|done| |].
  - intros j c1 Hj Q1. destruct (decide (j = i)) as [->|Hne].
    + rewrite decide_True by done. wp_steps. apply HQ; [done|]. exists b.
      split; [left|]. by exists br.
    + apply Hnext; [done|congruence|]. rewrite (sees_branch c b br) by done. congruence.
  - intros e c1 He Q1. apply Hnext; [done|done|]. rewrite (sees_branch c b br) by done. congruence.
Qed.

(** ** Copy on write *)

(** The branch has a page of its own under identity [i']; only the record
    that it is exclusive is missing. *)
Definition own_page c b k p : Prop :=
  exists br i, c_branches c !! b = Some br /\ s_ident (store br) k = Ok i /\
    c_pages c !! i = Some p /\ forall b', sees c b' k i -> b' = b.

Lemma own_page_quiet c c' b k p : aligned k -> quiet c c' -> own_page c b k p -> own_page c' b k p.
Proof.
  intros Hk [E _] (br & i & Hb & Hi & Hp & Ho).
  destruct (ext_lookup _ _ _ _ E Hb) as (br' & Hb' & (Vi & _) & _).
  exists br', i. split; [done|]. split; [by rewrite Vi|].
  split; [by rewrite (ext_pages _ _ E)|]. intros b'. rewrite (ext_sees c c') by done. apply Ho.
Qed.

(** Dropping an identity no branch sees. *)
Lemma good_evict n c ms i :
  cache_inv c ms -> budget n c -> (forall b k, aligned k -> ~ sees c b k i) ->
  (forall j q, c_pages c !! j = Some q -> j <> i -> exists b k, aligned k /\ sees c b k j) ->
  good n (set_pages (delete i (c_pages c)) c) ms /\
  same_views c (set_pages (delete i (c_pages c)) c).
Proof.
  intros I B Hns Hothers.
  assert (delete i (c_pages c) ⊆ c_pages c) as Hsub by apply delete_subseteq.
  assert (forall j q b k, c_pages c !! j = Some q -> delete i (c_pages c) !! j = None ->
    aligned k -> sees c b k j -> k ∉ c_known c) as Hgone.
  { intros j q b k Hq [->|Hn]%lookup_delete_None Hk Hs; [by destruct (Hns b k Hk)|congruence]. }
  split; [|by apply (evict_views c ms)].
  split; [by apply evict_inv|]. split; [|done].
  intros j q. cbn. intros [Hne Hq]%lookup_delete_Some. by apply (Hothers j q).
Qed.

(** After the copy: drop the old identity if no branch sees it any more and
    record that the branch owns the new page. *)
Lemma wp_retire_identity b k n Q R c c0 ms i p' :
  cache_inv c ms -> budget n c -> same_views c0 c -> aligned k -> own_page c b k p' ->
  (forall j q, c_pages c !! j = Some q -> j <> i -> exists b k, aligned k /\ sees c b k j) ->
  (forall b' k', aligned k' -> sees c b' k' i -> k' = k) ->
  (forall c' br', good n c' ms -> same_views c0 c' -> own_page c' b k p' ->
    c_branches c' !! b = Some br' ->
    Q tt (set_branches (<[b := set_exclusive ({[ k ]} ∪ exclusive_pages br') br']>
            (c_branches c')) c')) ->
  wp (retire_identity b i k.1 k.2) Q R c.
Proof.
  intros I B V Hk Hown Hothers Hkey HQ. unfold retire_identity. wp_steps.
  rewrite <-surjective_pairing.
  apply wp_any_sees; [done|intros b0; by rewrite elem_of_btree_keys|].
  intros r c1 Q1 Hr. pose proof Q1 as [E1 B1].
  pose proof (ext_inv _ _ _ I E1) as I1.
  assert (same_views c0 c1) as V1
    by (eapply same_views_trans; [done|]; intros ???; by eapply ext_view).
  pose proof (own_page_quiet _ _ _ _ _ Hk Q1 Hown) as Hown1.
  assert (exists c2, good n c2 ms /\ same_views c0 c2 /\ own_page c2 b k p' /\
    forall Q', Q' tt c2 ->
    wp (if r then mret tt else modify (fun c => set_pages (delete i (c_pages c)) c)) Q' R c1)
    as (c2 & G2 & V2 & Hown2 & Hrun).
  { assert (forall j q, c_pages c1 !! j = Some q -> j <> i -> exists b k, aligned k /\ sees c1 b k j)
      as Hothers1.
    { intros j q. rewrite (ext_pages _ _ E1). intros Hq Hne.
      destruct (Hothers j q Hq Hne) as (b0 & k0 & Hk0 & Hs). exists b0, k0.
      split; [done|]. by apply (ext_sees c c1). }
    destruct r.
    - exists c1. split; [|by split; [|split]]. split; [done|]. split; [|by apply B1].
      intros j q Hq. destruct (decide (j = i)) as [->|Hne]; [|by eapply Hothers1].
      destruct Hr as (b0 & _ & Hs). exists b0, k. split; [done|]. by apply (ext_sees c c1).
    - assert (forall b0 k0, aligned k0 -> ~ sees c1 b0 k0 i) as Hns.
      { intros b0 k0 Hk0 Hs. apply (ext_sees c c1) in Hs; [|done|done].
        rewrite (Hkey b0 k0 Hk0 Hs) in Hs. apply (Hr b0); [|done].
        rewrite elem_of_btree_keys. destruct Hs as (br & Hb & _). by exists br. }
      destruct (good_evict n c1 ms i) as [G2 V2]; [done|by apply B1|done|done|].
      eexists. split; [exact G2|]. split; [by eapply same_views_trans|]. split; [|done].
      destruct Hown1 as (br & i' & Hb & Hi & Hp & Ho). exists br, i'.
      split; [done|]. split; [done|]. split; [|done]. cbn.
      rewrite lookup_delete_ne; [done|]. intros ->. apply (Hns b k Hk). by exists br. }
  wp_steps. apply Hrun. wp_steps. pose proof Hown2 as (br2 & i2 & Hb2 & _).
  apply wp_branch_mut; [|congruence]. intros br3 Hb3. unfold put_branch. wp_steps.
  by apply HQ.
Qed.

Lemma wp_copy_page b k n Q R c ms br i p :
  good (2 + n) c ms -> c_branches c !! b = Some br -> aligned k -> s_ident (store br) k = Ok i ->
  c_pages c !! i = Some p -> k ∉ exclusive_pages br -> live_count ms b (cp_id p) = 0 ->
  (forall p' c' br', good n c' ms -> same_views c c' -> own_page c' b k p' ->
    c_branches c' !! b = Some br' ->
    Q p' (set_branches (<[b := set_exclusive ({[ k ]} ∪ exclusive_pages br') br']>
            (c_branches c')) c')) ->
  (forall e c', good n c' ms -> same_views c c' -> R e c') ->
  wp (copy_page b i p k.1 k.2) Q R c.
Proof.
  intros (I & O & B) Hb Hk Hi Hp Hx Hidle HQ HR.
  unfold copy_page, duplicate. wp_steps.
  eapply (wp_io_read p PAGE_SIZE 0); [done|done|lia| |].
  2:{ intros e c1 Q1. assert (good n c ms) as Gn by (eapply good_le; [by split|lia]).
      apply HR; [by eapply good_quiet|by eapply views_quiet]. }
  intros c1 Q1. wp_steps.
  destruct (good_quiet (2 + n) c c1 ms) as (I1 & O1 & B1); [by split|done|].
  assert (length (page_bytes c p) = page_nat) as Hlen.
  { destruct (inv_page _ _ I _ _ Hp) as ((bytes & Hf & Hl) & _).
    unfold page_bytes, file_bytes. by rewrite Hf. }
  assert (slice 0 PAGE_SIZE (page_bytes c p) = page_bytes c p) as ->.
  { unfold slice. rewrite drop_0. apply take_ge. rewrite Hlen. pose proof page_nat_N. lia. }
  assert (forall e c2, ext c1 c2 -> budget n c2 -> R e c2) as Hfail.
  { intros e c2 E2 B2. assert (ext c c2) as E by (eapply ext_trans; [apply Q1|done]).
    apply HR; [|intros ???; by eapply ext_view].
    split; [by eapply ext_inv|]. split; [by eapply ext_no_orphans|done]. }
  eapply (wp_from_bytes _ (1 + n)); [done|by replace (1 + (1 + n)) with (2 + n) by lia|done| |].
  2:{ intros e c2 E2 B2. apply Hfail; [done|]. eapply budget_le; [done|lia]. }
  intros p' c2 E2 [B2 B2'] F2 Hp'.
  assert (ext c c2) as E by (eapply ext_trans; [apply Q1|done]).
  pose proof (ext_inv _ _ _ I E) as I2.
  destruct (ext_lookup _ _ _ _ E Hb) as (br2 & Hb2 & Hbr).
  pose proof Hbr as ((Vi & Vc & _) & _ & Ex & _).
  assert (s_ident (store br2) k = Ok i) as Hi2 by (by rewrite Vi).
  assert (c_pages c2 !! i = Some p) as Hp2 by (by rewrite (ext_pages _ _ E)).
  wp_steps. apply (wp_on_store _ _ _ _ _ br2 Hb2).
  assert (forall j, s_ident (store br2) k = Ok j -> w_issued (c_world c2) j) as Hissued.
  { intros j Hj. apply (inv_issued _ _ I2 b k j Hk). by exists br2. }
  eapply wp_mono; [by apply (law_prepare k n)| |]; cbn.
  2:{ intros e ws (Hmono & Hroom & Hv). apply Hfail; [|split; cbn; [lia|done]].
      eapply ext_trans; [done|]. split; cbn; try done.
      intros b0. destruct (decide (b0 = b)) as [->|Hne].
      - rewrite lookup_insert_eq, Hb2. by constructor.
      - rewrite lookup_insert_ne by done. destruct (c_branches c2 !! b0); constructor.
        apply br_eq_refl. }
  intros i' [w' s'] (Hmono & Hroom & Hnew & Hiss & Hi' & Hoth & Hcont & Hlens). cbn in *.
  wp_steps.
  assert (page_bytes c2 p' = page_bytes c2 p) as Hb2p
    by (by rewrite Hp', (ext_page_bytes _ _ _ _ _ I E Hp)).
  assert (k ∉ exclusive_pages br2) as Hx2 by (by rewrite Ex).
  pose proof (copy_sees c2 b br2 k w' s' i' p' Hb2 Hi' Hoth) as Hcs.
  pose proof (copy_sees_new c2 ms b br2 k w' s' i' p' I2 Hb2 Hnew Hi' Hoth) as Hcn.
  eapply (wp_retire_identity b k n _ R _ c ms i p'); [| | |done| | | |].
  - by eapply (copy_inv c2 ms b br2 k i p).
  - split; cbn; [lia|done].
  - eapply same_views_trans; [intros ???; by eapply (ext_view c c2)|].
    by eapply (copy_views c2 ms b br2 k i p).
  - exists (set_store s' br2), i'. cbn. rewrite !lookup_insert_eq. repeat split; try done.
    intros b' Hs. by apply (Hcn b' k).
  - cbn. intros j q [[<- <-]|[_ Hq]]%lookup_insert_Some Hne.
    + exists b, k. split; [done|]. apply Hcs; [done|]. by left.
    + destruct (ext_no_orphans _ _ E O j q Hq) as (b0 & k0 & Hk0 & Hs).
      exists b0, k0. split; [done|]. apply Hcs; [done|]. right. split; [|done].
      intros [-> ->]. apply Hne. apply (sees_branch c2 b br2) in Hs; [|done]. congruence.
  - intros b' k' Hk' Hs. apply Hcs in Hs; [|done].
    destruct Hs as [(_ & -> & _)|[_ Hs]]; [done|].
    apply (inv_key _ _ I2 b' b k' k i); try done. by exists br2.
  - intros c' br' G' V' O' Hb'. wp_steps. by apply HQ.
Qed.

(** ** Mapping and unmapping *)

(** What a caller of [map_page] gets. *)
Definition mapped c c' b k (flags : MapFlags) m : Prop :=
  m_branch m = b /\ m_key m = k /\ m_flags m = flags /\
  page_view c b k = Some (page_bytes c' (m_page m)) /\
  (WRITE flags = false -> steady c c').

(** The end of [map_page]: the page is known and one more mapping of it is live. *)
Lemma good_activate n c c0 ms b k br i p flags excl' :
  good n c ms -> same_views c0 c -> aligned k ->
  c_branches c !! b = Some br -> s_ident (store br) k = Ok i -> c_pages c !! i = Some p ->
  (excl' = exclusive_pages br \/
   (excl' = {[ k ]} ∪ exclusive_pages br /\ forall b', sees c b' k i -> b' = b)) ->
  (WRITE flags = true -> k ∈ excl') -> (WRITE flags = false -> steady c0 c) ->
  let m := mkMapping (c_id c) b k flags p in
  let br' := set_active (<[ cp_id p := default 0 (active_pages br !! cp_id p) + 1 ]>
               (active_pages br)) (set_exclusive excl' br) in
  let c' := set_known ({[ k ]} ∪ c_known c) (set_branches (<[b := br']> (c_branches c)) c) in
  good n c' (m :: ms) /\ same_views c0 c' /\ mapped c0 c' b k flags m.
Proof.
  intros (I & O & B) V Hk Hb Hi Hp Hx Hw Hst m br' c'.
  pose proof (activate_views c b br k p excl' Hb) as V'. cbv zeta in V'.
  split; [|split].
  - split; [by eapply activate_inv|]. split; [|done].
    intros j q Hq. destruct (O j q Hq) as (b0 & k0 & Hk0 & Hs). exists b0, k0. split; [done|].
    by apply (activate_sees c b br k p excl').
  - by eapply same_views_trans.
  - split; [done|]. split; [done|]. split; [done|]. split.
    + rewrite <-(V b k Hk). unfold page_view. by rewrite Hb, Hi, Hp.
    + intros Hr. eapply steady_trans; [by apply Hst|]. split; [|done].
      intros. by apply (activate_sees c b br k p excl').
Qed.

Lemma set_branches_id c b br :
  c_branches c !! b = Some br -> set_branches (<[b := br]> (c_branches c)) c = c.
Proof. intros Hb. destruct c. cbn in *. unfold set_branches. cbn. by rewrite insert_id. Qed.

Lemma wp_activate n c c0 ms b k br i p flags excl' Q R :
  good n c ms -> same_views c0 c -> aligned k ->
  c_branches c !! b = Some br -> s_ident (store br) k = Ok i -> c_pages c !! i = Some p ->
  (excl' = exclusive_pages br \/
   (excl' = {[ k ]} ∪ exclusive_pages br /\ forall b', sees c b' k i -> b' = b)) ->
  (WRITE flags = true -> k ∈ excl') -> (WRITE flags = false -> steady c0 c) ->
  (forall m c', good n c' (m :: ms) -> same_views c0 c' -> mapped c0 c' b k flags m -> Q m c') ->
  wp (activate b k flags p) Q R
    (set_branches (<[b := set_exclusive excl' br]> (c_branches c)) c).
Proof.
  intros G V Hk Hb Hi Hp Hx Hw Hst HQ.
  destruct (good_activate n c c0 ms b k br i p flags excl') as (G' & V' & M'); try done.
  unfold activate. wp_steps. apply wp_branch_mut; cbn; rewrite lookup_insert_eq; [|done].
  intros br' [= <-]. unfold put_branch. wp_steps. cbn. rewrite insert_insert_eq.
  by apply HQ.
Qed.

Lemma wp_map_page b node offset flags n Q R c ms :
  good (3 + n) c ms ->
  (forall m c', good n c' (m :: ms) -> same_views c c' ->
    mapped c c' b (node, offset) flags m -> Q m c') ->
  (forall e c', good n c' ms -> same_views c c' -> R e c') ->
  wp (map_page b node offset flags) Q R c.
Proof.
  intros G HQ HR. pose proof (good_le n _ _ _ G ltac:(lia)) as Gn.
  assert (forall e, R e c) as Hearly by (intros e; by apply HR).
  unfold map_page. destruct (N.eqb_spec (offset mod PAGE_SIZE) 0) as [Hk|]; cbn [negb];
    [|wp_steps; auto].
  destruct (READ flags || WRITE flags); cbn [negb]; [|wp_steps; auto].
  set (k := (node, offset)). assert (aligned k) as Hal by exact Hk.
  wp_steps. apply wp_branch_mut; [|auto]. intros br Hb.
  destruct (default 0 (open_nodes br !! node) =? 0); wp_steps; [auto|].
  apply (wp_identity b k _ _ c br); [done|done| |].
  2:{ intros e c1 _ Q1. apply HR; [by eapply good_quiet|by eapply views_quiet]. }
  intros i c1 Hi Q1. wp_steps.
  pose proof (good_quiet _ _ _ _ G Q1) as G1. pose proof (views_quiet _ _ _ _ G Q1) as V1.
  destruct (ext_lookup _ _ _ _ (proj1 Q1) Hb) as (br1 & Hb1 & (Vi1 & _) & _).
  apply (wp_load_page b k (2 + n) _ _ c1 ms br1 i);
    [by replace (1 + (2 + n)) with (3 + n) by lia|done|done|by rewrite Vi1| |].
  2:{ intros e c2 G2 V2. apply HR; [eapply good_le; [done|lia]|by eapply same_views_trans]. }
  intros p c2 br2 G2 V2 Hb2 ((Vi2 & _) & _) Hp2 S2.
  pose proof (same_views_trans _ _ _ V1 V2) as V02.
  assert (s_ident (store br2) k = Ok i) as Hi2 by (by rewrite Vi2, Vi1).
  pose proof (good_le n _ _ _ G2 ltac:(lia)) as G2n.
  wp_steps. apply wp_branch_mut; [|congruence]. intros br3 Hb3.
  assert (br3 = br2) as -> by congruence. clear Hb3.
  destruct (inv_branch _ _ (proj1 G2) _ _ Hb2) as [_ (Ha & _)].
  destruct (WRITE flags && negb (bool_decide (k ∈ exclusive_pages br2))) eqn:Hcow; cbn [andb].
  - apply andb_true_iff in Hcow as [Hw Hx]. apply negb_true_iff, bool_decide_eq_false in Hx.
    destruct (N.ltb_spec 0 (default 0 (active_pages br2 !! cp_id p))) as [|Hz]; [wp_steps; auto|].
    assert (live_count ms b (cp_id p) = 0) as Hidle.
    { rewrite Ha in Hz. destruct (N.eqb_spec (live_count ms b (cp_id p)) 0); [done|]. cbn in Hz. lia. }
    wp_steps. eapply (wp_copy_page b k n _ _ c2 ms br2 i p); try done.
    2:{ intros e c3 G3 V3. apply HR; [done|by eapply same_views_trans]. }
    intros p' c3 br3 G3 V3 (br4 & i4 & Hb4 & Hi4 & Hp4 & Ho4) Hb3.
    assert (br4 = br3) as -> by congruence.
    eapply (wp_activate n c3 c); [done|by eapply same_views_trans|done|done|exact Hi4|done| | |congruence|done].
    + by right.
    + intros _. by apply elem_of_union_l, elem_of_singleton_2.
  - wp_steps. rewrite <-(set_branches_id c2 b br2 Hb2).
    assert (br2 = set_exclusive (exclusive_pages br2) br2) as Heq by (by destruct br2).
    rewrite Heq at 1.
    eapply (wp_activate n c2 c _ _ _ _ i p flags (exclusive_pages br2)); try done; [by left| |].
    2:{ intros _. eapply steady_trans; [apply steady_ext, Q1|done]. }
    intros Hw. rewrite Hw in Hcow. cbn in Hcow.
    by apply negb_false_iff, bool_decide_eq_true in Hcow.
Qed.

Lemma cache_inv_perm c ms ms' : ms ≡ₚ ms' -> cache_inv c ms -> cache_inv c ms'.
Proof.
  intros P I.
  assert (forall b id, live_count ms' b id = live_count ms b id) as Hc.
  { intros b id. unfold live_count. by rewrite P. }
  assert (forall b k, writer ms b k -> writer ms' b k) as Hw.
  { intros b k (m & Hm & ?). exists m. by rewrite <-P. }
  split; try apply I.
  - intros b br Hb. destruct (inv_branch _ _ I _ _ Hb) as [Hlt (Ha & He & Hd & Hcl & Hu)].
    split; [done|]. split; [intros id; by rewrite Hc|]. split; [done|]. split; [done|].
    split; [|done]. intros k i p Hk Hi Hp Hnd Hnw. eapply Hcl; try done. auto.
  - intros m Hm. apply I. by rewrite P.
Qed.

Lemma good_perm n c ms ms' : ms ≡ₚ ms' -> good n c ms -> good n c ms'.
Proof. intros P (I & O & B). split; [by eapply cache_inv_perm|done]. Qed.

(** Giving back a live mapping on its own branch never fails. *)
Lemma wp_unmap b m Q R n c ms :
  good n c (m :: ms) -> m_branch m = b ->
  (forall c', good n c' ms -> same_views c c' -> Q tt c') ->
  wp (unmap b m) Q R c.
Proof.
  intros (I & O & B) <- HQ.
  destruct (inv_mapping _ _ I m (list_elem_of_here _ _)) as (Hid & _ & _ & br & i & Hb & _).
  destruct (inv_branch _ _ I _ _ Hb) as [_ (Ha & _)].
  assert (exists n', active_pages br !! cp_id (m_page m) = Some (n' + 1)) as [n' Hn'].
  { rewrite Ha, live_count_cons, decide_True by done. exists (live_count ms (m_branch m) (cp_id (m_page m))).
    cmp; [lia|]. f_equal. lia. }
  unfold unmap. wp_steps. rewrite Hid, !N.eqb_refl. cbn [andb negb]. wp_steps.
  apply wp_branch_mut; [|congruence]. intros br' Hbr'. assert (br' = br) as -> by congruence.
  rewrite Hn'. destruct (checked_sub (n' + 1) 1) as [x|] eqn:Hx.
  2:{ unfold checked_sub in Hx. revert Hx. cmp; [done|lia]. }
  assert (x = n') as ->. { unfold checked_sub in Hx. revert Hx. cmp; intros [= <-]; lia. }
  unfold put_branch. wp_steps. cbv zeta. apply HQ.
  - split; [exact (deactivate_inv c ms m br n' I Hb Hn')|]. split; [|done].
    intros j q Hq. destruct (O j q Hq) as (b0 & k0 & Hk0 & Hs). exists b0, k0. split; [done|].
    eapply (records_sees c _ br _ (c_known c)); [done| |done|done].
    destruct (WRITE (m_flags m)); apply view_eq_refl.
  - exact (deactivate_views c m br n' Hb).
Qed.

(** ** Client access through a mapping *)

Definition views_but c c' m (page : list byte) : Prop :=
  forall b k, aligned k -> page_view c' b k =
    if decide ((b, k) = (m_branch m, m_key m)) then Some page else page_view c b k.

Lemma mapping_page n c ms m : good n c ms -> m ∈ ms ->
  exists i, c_pages c !! i = Some (m_page m) /\
    h_files (c_host c) !! cp_backing (m_page m) = Some (page_bytes c (m_page m)) /\
    length (page_bytes c (m_page m)) = page_nat.
Proof.
  intros (I & _) Hm. destruct (inv_mapping _ _ I m Hm) as (_&_&_&br&i&_&_&Hp&_).
  exists i. split; [done|]. destruct (inv_page _ _ I _ _ Hp) as ((bytes & Hf & Hl) & _).
  unfold page_bytes, file_bytes. by rewrite Hf.
Qed.

(** A store through a writable mapping changes that page of that branch, and
    nothing else any branch sees. *)
Lemma wp_poke m bytes off Q R n c ms :
  good n c ms -> m ∈ ms -> WRITE (m_flags m) = true -> bytes <> [] ->
  off + lenN bytes <= PAGE_SIZE ->
  (forall c', good n c' ms -> views_but c c' m (splice off bytes (page_bytes c (m_page m))) ->
    Q tt c') ->
  (forall e c' page, good n c' ms -> views_but c c' m page ->
    changed_within off (lenN bytes) (page_bytes c (m_page m)) page -> R e c') ->
  wp (io (write_all_at (cp_backing (m_page m)) bytes off)) Q R c.
Proof.
  intros G Hm Hw Hne Hin HQ HR.
  destruct (mapping_page _ _ _ _ G Hm) as (i & Hp & Hf & Hl).
  assert (lenN (page_bytes c (m_page m)) = PAGE_SIZE) as HlN.
  { unfold lenN. by rewrite Hl, page_nat_N. }
  destruct G as (I & O & B). unfold io. rewrite wp_zoom, wp_with_err.
  eapply wp_write_all_at; [exact Hf|done| |].
  - intros h' Hh' Hn'. rewrite file_write_in_bounds in Hh' by lia.
    set (page := splice off bytes (page_bytes c (m_page m))) in *.
    assert (length page = page_nat) as Hpl.
    { apply Nat2N.inj. change (lenN page = N.of_nat page_nat). unfold page.
      rewrite lenN_splice, page_nat_N by lia. done. }
    apply HQ; [|by intros ???; eapply (poke_views c ms)].
    split; [by apply (poke_inv c ms m h' page)|done].
  - intros e h' page Hh' Hch Hn'.
    assert (length page = page_nat) as Hpl.
    { apply Nat2N.inj. destruct Hch as [Hch _]. unfold lenN in *. rewrite page_nat_N. lia. }
    apply (HR _ _ page); [|by intros ???; eapply (poke_views c ms)|done].
    split; [by apply (poke_inv c ms m h' page)|done].
Qed.

End ops.
