(* ===== verification/SharedCacheIO.v ===== *)
(** * Reading and writing through the shared cache

    [read] returns the bytes of the file as the branch sees it; [write]
    changes those bytes of that branch and no byte of any other branch.
    Both go page by page through [map_page] and [unmap]; when the host fails
    between the two, the mapping of the current page stays live. *)

From S2P Require Import Prelude Generations Host CacheTypes DirtyPages SharedCache SharedCacheInv SharedCacheSteps SharedCacheOps.
Import Shared DirtyFacts.

Section io.
Context {W S Id : Type} `{Countable Id} `{!ForkableNodeStore W S Id} `{!StoreView W S Id}
  `{!StoreLaws W S Id}.

Implicit Types (c : Cache W S Id) (b : N) (k : PageKey) (node : NodeId)
  (m : DaxPageMapping) (ms : list DaxPageMapping) (br : CacheBranch S).

(** The byte at address [a] of a file, as branch [b] sees it. *)
Definition byte_view c b node (a : N) : option byte :=
  page_view c b (node, a / PAGE_SIZE * PAGE_SIZE) ≫= fun page => nthN page (a mod PAGE_SIZE).

Lemma aligned_page node a : aligned (node, a / PAGE_SIZE * PAGE_SIZE).
Proof. unfold aligned. cbn. apply N.Div0.mod_mul. Qed.

Lemma within_page a : a - a / PAGE_SIZE * PAGE_SIZE = a mod PAGE_SIZE.
Proof. page_abs a. pagelia. Qed.

Lemma byte_view_same c c' b node a :
  same_views c c' -> byte_view c' b node a = byte_view c b node a.
Proof. intros V. unfold byte_view. by rewrite (V b _ (aligned_page node a)). Qed.

(** At most the mapping of the page being worked on is left behind. *)
Definition left_over ms ms' : Prop := ms' = ms \/ exists m, ms' = m :: ms.

(** ** Reading *)

Lemma wp_cache_read_loop fuel b node end_ cursor n Q R c ms :
  good (3 * N.of_nat fuel + n) c ms -> (N.to_nat (end_ - cursor) <= fuel)%nat ->
  (forall bytes c', good n c' ms -> same_views c c' ->
    lenN bytes = end_ - cursor ->
    (forall j, j < end_ - cursor -> nthN bytes j = byte_view c b node (cursor + j)) ->
    Q bytes c') ->
  (forall e c' ms', left_over ms ms' -> good n c' ms' -> same_views c c' -> R e c') ->
  wp (read_loop fuel b node end_ cursor) Q R c.
Proof.
  revert cursor Q c. induction fuel as [|fuel IH]; intros cursor Q c G Hfuel HQ HR; cbn [read_loop].
  { wp_steps. apply HQ; [eapply good_le; [done|lia]|done|unfold lenN; cbn; lia|]. intros j. lia. }
  destruct (N.ltb_spec cursor end_) as [Hlt|Hge].
  2:{ wp_steps. apply HQ; [eapply good_le; [done|lia]|done|unfold lenN; cbn; lia|]. intros j. lia. }
  destruct (cursor_step cursor end_ Hlt) as (Hpos & Hle & Hfit & _ & Hin & _).
  rewrite within_page. set (chunk := N.min (PAGE_SIZE - cursor mod PAGE_SIZE) (end_ - cursor)) in *.
  set (k := (node, cursor / PAGE_SIZE * PAGE_SIZE)).
  pose proof (aligned_page node cursor) as Hk. fold k in Hk.
  pose proof (page_offset_lt cursor) as Hoff.
  wp_steps. apply (wp_map_page _ _ _ _ (3 * N.of_nat fuel + n) _ _ c ms).
  { eapply good_le; [done|lia]. }
  2:{ intros e c1 G1 V1. apply (HR _ _ ms); [by left| |done]. eapply good_le; [done|lia]. }
  intros m c1 G1 V1 (Hmb & Hmk & _ & Hview & _). wp_steps.
  destruct (mapping_page _ _ _ _ G1 (list_elem_of_here _ _)) as (i & Hp & _ & Hl).
  eapply (wp_io_read _ _ _ _ _ c1 _ i); [apply G1|done|lia| |].
  2:{ intros e c2 Q2. apply (HR _ _ (m :: ms)); [by right; eexists| |].
      - eapply good_le; [by eapply good_quiet|lia].
      - eapply same_views_trans; [done|]. by eapply views_quiet. }
  intros c2 Q2. wp_steps.
  pose proof (good_quiet _ _ _ _ G1 Q2) as G2.
  pose proof (same_views_trans _ _ _ V1 (views_quiet _ _ _ _ G1 Q2)) as V2.
  eapply (wp_unmap b m); [done|done|]. intros c3 G3 V3. wp_steps.
  pose proof (same_views_trans _ _ _ V2 V3) as V03.
  assert (lenN (slice (cursor mod PAGE_SIZE) chunk (page_bytes c1 (m_page m))) = chunk) as Hcl.
  { apply lenN_slice. unfold lenN. rewrite Hl, page_nat_N. lia. }
  apply IH; [done|lia| |].
  - intros rest c4 G4 V4 Hrl Hrest. wp_steps.
    apply HQ; [done|by eapply same_views_trans|rewrite lenN_app, Hcl; lia|].
    intros j Hj. rewrite nthN_app, Hcl. destruct (N.ltb_spec j chunk) as [Hjc|Hjc].
    + rewrite nthN_slice. rewrite (proj2 (N.ltb_lt _ _)) by done.
      destruct (Hin (cursor + j) ltac:(lia)) as [Hdiv Hmod].
      unfold byte_view. rewrite Hdiv, Hmod, Hview. cbn. f_equal. lia.
    + rewrite Hrest by lia. rewrite (byte_view_same c c3) by done. f_equal. lia.
  - intros e c4 ms' Hms G4 V4. apply (HR _ _ ms'); [done|done|by eapply same_views_trans].
Qed.

(** [SharedPageCache::read]. *)
Lemma wp_cache_read b node offset len n Q R c ms :
  good (3 * len + n) c ms ->
  (forall bytes c' br, c_branches c !! b = Some br -> good n c' ms -> same_views c c' ->
    (exists file_len, s_len (store br) node = Ok file_len /\
      lenN bytes = N.min (file_len - offset) len) ->
    (forall j, j < lenN bytes -> nthN bytes j = byte_view c b node (offset + j)) ->
    Q bytes c') ->
  (forall e c' ms', left_over ms ms' -> good n c' ms' -> same_views c c' -> R e c') ->
  wp (read b node offset len) Q R c.
Proof.
  intros G HQ HR. pose proof (good_le n _ _ _ G ltac:(lia)) as Gn.
  unfold read, with_store_mut. wp_steps.
  destruct (c_branches c !! b) as [br|] eqn:Hb.
  2:{ unfold on_store. wp_steps. apply wp_branch_mut; [congruence|]. intros _.
      by apply (HR _ _ ms); [left| |]. }
  apply (wp_len _ _ _ _ _ br Hb).
  2:{ intros e c1 Q1. apply (HR _ _ ms); [by left|by eapply good_quiet|by eapply views_quiet]. }
  intros file_len c1 Hlen Q1. pose proof (views_quiet _ _ _ _ G Q1) as V1.
  destruct (N.leb_spec file_len offset) as [Hpast|Hin]; cbn [orb].
  { wp_steps. eapply HQ; [done|by eapply good_quiet|done| |intros j; unfold lenN; cbn; lia].
    exists file_len. split; [done|]. unfold lenN. cbn. lia. }
  destruct (N.eqb_spec len 0) as [->|Hne].
  { wp_steps. eapply HQ; [done|by eapply good_quiet|done| |intros j; unfold lenN; cbn; lia].
    exists file_len. split; [done|]. unfold lenN. cbn. lia. }
  destruct (checked_add offset (N.min (file_len - offset) len)) as [end_|] eqn:Hadd.
  2:{ wp_steps. apply (HR _ _ ms); [by left|by eapply good_quiet|done]. }
  apply checked_add_Some in Hadd as [-> Hmax].
  eapply (wp_cache_read_loop _ _ _ _ _ n); [|lia| |].
  - eapply good_le; [by eapply (good_quiet (3 * len + n))|lia].
  - intros bytes c2 G2 V2 Hl Hb2. eapply HQ; [done|done|by eapply same_views_trans| |].
    + exists file_len. split; [done|]. lia.
    + intros j Hj. rewrite Hb2 by lia. by apply byte_view_same.
  - intros e c2 ms' Hms G2 V2. apply (HR _ _ ms'); [done|done|by eapply same_views_trans].
Qed.

(** ** Writing *)

(** The bytes from [lo] to [hi] of one file of one branch. *)
Definition region b node (lo hi : N) b' node' (a : N) : bool :=
  bool_decide (b' = b /\ node' = node) && in_range lo hi a.

(** [bytes], which starts at [offset], is in place between [lo] and [hi]. *)
Definition wrote c c' b node offset (bytes : list byte) (lo hi : N) : Prop :=
  forall b' node' a, byte_view c' b' node' a =
    if region b node lo hi b' node' a then nthN bytes (a - offset) else byte_view c b' node' a.

Definition unchanged_outside c c' b node (lo hi : N) : Prop :=
  forall b' node' a, region b node lo hi b' node' a = false ->
    byte_view c' b' node' a = byte_view c b' node' a.

Lemma region_out b node lo hi a : (a < lo \/ hi <= a) -> region b node lo hi b node a = false.
Proof. intros Ha. unfold region. rewrite in_range_false by lia. apply andb_false_r. Qed.

Lemma same_views_outside c c' b node lo hi : same_views c c' -> unchanged_outside c c' b node lo hi.
Proof. intros V b' node' a _. by apply byte_view_same. Qed.

Lemma views_but_bytes c c' m page b node cursor :
  m_branch m = b -> m_key m = (node, cursor / PAGE_SIZE * PAGE_SIZE) -> views_but c c' m page ->
  forall b' node' a, byte_view c' b' node' a =
    if decide (b' = b /\ node' = node /\ a / PAGE_SIZE = cursor / PAGE_SIZE)
    then nthN page (a mod PAGE_SIZE) else byte_view c b' node' a.
Proof.
  intros <- Hk Hv b' node' a. unfold byte_view.
  rewrite (Hv b' _ (aligned_page node' a)), Hk. case_decide as H1; case_decide as H2; cbn; try done.
  - injection H1 as -> -> Heq. destruct H2. repeat split.
    apply N.mul_cancel_r in Heq; [done|]. unfold PAGE_SIZE. lia.
  - destruct H1. by destruct H2 as (-> & -> & ->).
Qed.

(** One page of a write: the chunk is in place and nothing else changed. *)
Lemma write_chunk c c1 c2 m b node offset bytes end_ cursor :
  cursor < end_ -> offset <= cursor -> end_ = offset + lenN bytes ->
  let n := N.min (PAGE_SIZE - cursor mod PAGE_SIZE) (end_ - cursor) in
  let chunk := slice (cursor - offset) n bytes in
  same_views c c1 ->
  mapped c c1 b (node, cursor / PAGE_SIZE * PAGE_SIZE) flag_RW m ->
  lenN (page_bytes c1 (m_page m)) = PAGE_SIZE ->
  views_but c1 c2 m (splice (cursor mod PAGE_SIZE) chunk (page_bytes c1 (m_page m))) ->
  wrote c c2 b node offset bytes cursor (cursor + n).
Proof.
  intros Hlt Ho Hend n chunk V1 (Hmb & Hmk & _ & Hview & _) Hpl V2 b' node' a.
  destruct (cursor_step cursor end_ Hlt) as (Hpos & Hle & Hfit & _ & Hin & Hon). fold n in Hpos, Hle, Hfit, Hin, Hon.
  pose proof (page_offset_lt cursor) as Hoff.
  assert (lenN chunk = n) as Hcl by (apply lenN_slice; lia).
  rewrite (views_but_bytes _ _ _ _ b node cursor Hmb Hmk V2).
  unfold region. case_decide as Hd.
  - destruct Hd as (-> & -> & Hdiv). rewrite bool_decide_true by done. cbn [andb].
    rewrite nthN_splice, Hcl by lia. destruct (in_range_spec cursor (cursor + n) a) as [Ha|Ha].
    + destruct (Hin a Ha) as [_ Hmod]. rewrite Hmod. cmp; cbn [andb]; try lia.
      unfold chunk. rewrite nthN_slice. cmp; [|lia]. f_equal. lia.
    + assert ((cursor mod PAGE_SIZE <=? a mod PAGE_SIZE) &&
              (a mod PAGE_SIZE <? cursor mod PAGE_SIZE + n) = false) as ->.
      { cmp; cbn [andb]; try done. exfalso. apply Ha. by apply Hon. }
      unfold byte_view. by rewrite Hdiv, Hview.
  - case_bool_decide as Hb; cbn [andb]; [|by apply byte_view_same].
    rewrite in_range_false; [by apply byte_view_same|].
    intros Ha. apply Hd. destruct Hb, (Hin a Ha). done.
Qed.

Lemma wrote_trans c c1 c2 b node offset bytes lo mid hi :
  lo <= mid <= hi -> wrote c c1 b node offset bytes lo mid ->
  wrote c1 c2 b node offset bytes mid hi -> wrote c c2 b node offset bytes lo hi.
Proof.
  intros Hle W1 W2 b' node' a. rewrite W2, W1. unfold region.
  case_bool_decide; cbn [andb]; [|done].
  destruct (in_range_spec lo mid a), (in_range_spec mid hi a), (in_range_spec lo hi a);
    try done; lia.
Qed.

Lemma wrote_views c c1 c2 b node offset bytes lo hi :
  wrote c c1 b node offset bytes lo hi -> same_views c1 c2 -> wrote c c2 b node offset bytes lo hi.
Proof. intros W1 V b' node' a. by rewrite (byte_view_same c1 c2). Qed.

Lemma wrote_outside c c1 c2 b node offset bytes lo mid hi :
  lo <= mid <= hi -> wrote c c1 b node offset bytes lo mid ->
  unchanged_outside c1 c2 b node mid hi -> unchanged_outside c c2 b node lo hi.
Proof.
  intros Hle W1 U b' node' a Hr. unfold region in Hr. rewrite U, W1; unfold region.
  - revert Hr. case_bool_decide; cbn [andb]; [|done].
    destruct (in_range_spec lo mid a), (in_range_spec lo hi a); try done; lia.
  - revert Hr. case_bool_decide; cbn [andb]; [|done].
    destruct (in_range_spec mid hi a), (in_range_spec lo hi a); try done; lia.
Qed.

(** A page write the host interrupted changes bytes of the chunk only. *)
Lemma failed_chunk c c1 c2 m b node end_ cursor page n :
  cursor < end_ -> n = N.min (PAGE_SIZE - cursor mod PAGE_SIZE) (end_ - cursor) ->
  same_views c c1 ->
  mapped c c1 b (node, cursor / PAGE_SIZE * PAGE_SIZE) flag_RW m ->
  lenN (page_bytes c1 (m_page m)) = PAGE_SIZE ->
  views_but c1 c2 m page ->
  changed_within (cursor mod PAGE_SIZE) n (page_bytes c1 (m_page m)) page ->
  unchanged_outside c c2 b node cursor end_.
Proof.
  intros Hlt -> V1 (Hmb & Hmk & _ & Hview & _) Hpl V2 [_ Hsame] b' node' a Hr.
  destruct (cursor_step cursor end_ Hlt) as (Hpos & Hle & Hfit & _ & Hin & Hon).
  rewrite (views_but_bytes _ _ _ _ b node cursor Hmb Hmk V2).
  case_decide as Hd; [|by apply byte_view_same]. destruct Hd as (-> & -> & Hdiv).
  unfold region in Hr. rewrite bool_decide_true in Hr by done. cbn [andb] in Hr.
  destruct (in_range_spec cursor end_ a) as [|Ha]; [done|].
  rewrite Hsame; [unfold byte_view; by rewrite Hdiv, Hview|pose proof (page_offset_lt a); lia|].
  destruct (N.le_gt_cases (cursor mod PAGE_SIZE) (a mod PAGE_SIZE)) as [Hge|]; [|by left].
  right. destruct (N.le_gt_cases (cursor mod PAGE_SIZE +
    N.min (PAGE_SIZE - cursor mod PAGE_SIZE) (end_ - cursor)) (a mod PAGE_SIZE)) as [|Hlt']; [done|].
  exfalso. apply Ha. destruct (Hon a Hdiv Hge Hlt') as [? _]. lia.
Qed.

Lemma wp_cache_write_loop fuel b node offset bytes cursor n Q R c ms :
  let end_ := offset + lenN bytes in
  good (3 * N.of_nat fuel + n) c ms -> offset <= cursor <= end_ ->
  (N.to_nat (end_ - cursor) <= fuel)%nat ->
  (forall c', good n c' ms -> wrote c c' b node offset bytes cursor end_ -> Q tt c') ->
  (forall e c' ms', left_over ms ms' -> good n c' ms' ->
    unchanged_outside c c' b node cursor end_ -> R e c') ->
  wp (write_loop fuel b node offset bytes end_ cursor) Q R c.
Proof.
  intros end_. revert cursor c. induction fuel as [|fuel IH]; intros cursor c G Hc Hfuel HQ HR;
    cbn [write_loop].
  { wp_steps. apply HQ; [eapply good_le; [done|lia]|]. intros b' node' a. unfold region.
    rewrite in_range_false by lia. by rewrite andb_false_r. }
  destruct (N.ltb_spec cursor end_) as [Hlt|Hge].
  2:{ wp_steps. apply HQ; [eapply good_le; [done|lia]|]. intros b' node' a. unfold region.
      rewrite in_range_false by lia. by rewrite andb_false_r. }
  destruct (cursor_step cursor end_ Hlt) as (Hpos & Hle & Hfit & _).
  rewrite within_page. set (len := N.min (PAGE_SIZE - cursor mod PAGE_SIZE) (end_ - cursor)) in *.
  set (chunk := slice (cursor - offset) len bytes).
  assert (lenN chunk = len) as Hcl by (apply lenN_slice; lia).
  pose proof (page_offset_lt cursor) as Hoff.
  wp_steps. apply (wp_map_page _ _ _ _ (3 * N.of_nat fuel + n) _ _ c ms).
  { eapply good_le; [done|lia]. }
  2:{ intros e c1 G1 V1. apply (HR _ _ ms); [by left|eapply good_le; [done|lia]|].
      by apply same_views_outside. }
  intros m c1 G1 V1 M1. pose proof M1 as (Hmb & Hmk & Hmf & _). wp_steps.
  destruct (mapping_page _ _ _ _ G1 (list_elem_of_here _ _)) as (i & Hp & _ & Hl).
  assert (lenN (page_bytes c1 (m_page m)) = PAGE_SIZE) as Hpl
    by (unfold lenN; by rewrite Hl, page_nat_N).
  eapply (wp_poke m chunk _ _ _ _ c1 _ G1 (list_elem_of_here _ _)).
  { by rewrite Hmf. }
  { intros Hnil. rewrite Hnil in Hcl. cbn in Hcl. unfold lenN in Hcl. cbn in Hcl. lia. }
  { rewrite Hcl. lia. }
  2:{ intros e c2 page G2 V2 Hch. rewrite Hcl in Hch.
      apply (HR _ _ (m :: ms)); [by right; eexists|eapply good_le; [done|lia]|].
      by eapply (failed_chunk c c1 c2 m b node end_ cursor page len). }
  intros c2 G2 V2. wp_steps.
  assert (wrote c c2 b node offset bytes cursor (cursor + len)) as W2
    by (by apply (write_chunk c c1 c2 m b node offset bytes end_ cursor); [|lia| | | | |]).
  eapply (wp_unmap b m); [done|done|]. intros c3 G3 V3. wp_steps.
  pose proof (wrote_views _ _ _ _ _ _ _ _ _ W2 V3) as W3.
  apply IH; [done|lia|lia| |].
  - intros c4 G4 W4. apply HQ; [done|]. by eapply wrote_trans; [|done|done]; lia.
  - intros e c4 ms' Hms G4 U4. apply (HR _ _ ms'); [done|done|].
    by eapply wrote_outside; [|done|done]; lia.
Qed.

(** [SharedPageCache::write]. *)
Lemma wp_cache_write b node offset bytes n Q R c ms :
  good (3 * lenN bytes + n) c ms ->
  (forall c' br, c_branches c !! b = Some br -> good n c' ms ->
    (exists file_len, s_len (store br) node = Ok file_len /\ offset + lenN bytes <= file_len) ->
    wrote c c' b node offset bytes offset (offset + lenN bytes) -> Q (lenN bytes) c') ->
  (forall e c' ms', left_over ms ms' -> good n c' ms' ->
    unchanged_outside c c' b node offset (offset + lenN bytes) -> R e c') ->
  wp (write b node offset bytes) Q R c.
Proof.
  intros G HQ HR. pose proof (good_le n _ _ _ G ltac:(lia)) as Gn.
  unfold write, with_store_mut.
  destruct (checked_add offset (lenN bytes)) as [end_|] eqn:Hadd.
  2:{ wp_steps. apply (HR _ _ ms); [by left|done|done]. }
  apply checked_add_Some in Hadd as [-> Hmax]. wp_steps.
  destruct (c_branches c !! b) as [br|] eqn:Hb.
  2:{ unfold on_store. wp_steps. apply wp_branch_mut; [congruence|]. intros _.
      by apply (HR _ _ ms); [left| |]. }
  apply (wp_len _ _ _ _ _ br Hb).
  2:{ intros e c1 Q1. apply (HR _ _ ms); [by left|by eapply good_quiet|].
      apply same_views_outside. by eapply views_quiet. }
  intros file_len c1 Hlen Q1. pose proof (views_quiet _ _ _ _ G Q1) as V1.
  destruct (N.ltb_spec file_len (offset + lenN bytes)) as [Hpast|Hin].
  { wp_steps. apply (HR _ _ ms); [by left|by eapply good_quiet|]. by apply same_views_outside. }
  wp_steps. apply (wp_cache_write_loop _ _ _ _ _ _ n _ _ c1 ms); [| |unfold lenN; lia| |].
  - eapply good_le; [by eapply (good_quiet (3 * lenN bytes + n))|unfold lenN; lia].
  - lia.
  - intros c2 G2 W2. wp_steps. eapply HQ; [done|done|by exists file_len|].
    intros b' node' a. rewrite W2. by rewrite (byte_view_same c c1).
  - intros e c2 ms' Hms G2 U2. apply (HR _ _ ms'); [done|done|].
    intros b' node' a Hr. rewrite U2 by done. by apply byte_view_same.
Qed.

End io.
