(* ===== verification/SharedCacheLife.v ===== *)
(** * Branch lifecycle, write-back and accounting of the shared cache

    Forking and removing branches, opening and closing nodes, writing dirty
    pages back and counting pages: what each does to the pages the branches
    see and to the invariant. *)

From S2P Require Import Prelude Generations Host CacheTypes DirtyPages SharedCache SharedCacheInv SharedCacheSteps SharedCacheOps.
Import Shared DirtyFacts.

Section life.
Context {W S Id : Type} `{Countable Id} `{!ForkableNodeStore W S Id} `{!StoreView W S Id}
  `{!StoreLaws W S Id}.

Implicit Types (c : Cache W S Id) (b : N) (k : PageKey) (i : Id) (node : NodeId)
  (m : DaxPageMapping) (ms : list DaxPageMapping) (br : CacheBranch S).

(** ** Fork *)

(** The child sees what the source sees; nobody else sees a difference. *)
Definition forked c c' (source child : N) : Prop :=
  c_branches c !! child = None /\ is_Some (c_branches c' !! child) /\
  (forall k, aligned k -> page_view c' child k = page_view c source k) /\
  (forall b k, aligned k -> b <> child -> page_view c' b k = page_view c b k) /\
  (forall k i, aligned k -> sees c source k i -> sees c' source k i /\ sees c' child k i).

Lemma no_orphans_sees c c' :
  c_pages c' = c_pages c -> (forall b k i, aligned k -> sees c b k i -> sees c' b k i) ->
  no_orphans c -> no_orphans c'.
Proof.
  intros Hp Hs O i p. rewrite Hp. intros Hi. destruct (O i p Hi) as (b & k & Hk & Hb).
  exists b, k. auto.
Qed.

(** A branch without active pages has no live mapping, and conversely. *)
Lemma active_mapping c ms b br :
  cache_inv c ms -> c_branches c !! b = Some br -> active_pages br <> ∅ ->
  exists m, m ∈ ms /\ m_branch m = b.
Proof.
  intros I Hb Hne. apply map_choose in Hne as (id & cnt & Hid).
  destruct (inv_branch _ _ I _ _ Hb) as [_ (Ha & _)]. rewrite Ha in Hid.
  unfold live_count in Hid. destruct (filter (mapped_by b id) ms) as [|m l] eqn:Hf; [done|].
  assert (m ∈ filter (mapped_by b id) ms) as [[Hm _] Hin]%list_elem_of_filter by (rewrite Hf; left).
  by exists m.
Qed.

Lemma wp_fork source n Q R c ms :
  good n c ms ->
  (forall c', good n c' ms -> forked c c' source (c_next_branch c) -> Q (c_next_branch c) c') ->
  (forall e c', good n c' ms -> same_views c c' ->
    (e = ActiveMappings -> exists m, m ∈ ms /\ m_branch m = source) -> R e c') ->
  wp (fork source) Q R c.
Proof.
  intros G HQ HR. unfold fork. wp_steps. apply wp_branch_mut; [|intros _; by apply HR].
  intros br Hb. case_decide as Hact.
  { wp_steps. apply HR; [done|done|]. intros _. by eapply active_mapping; [apply G|..]. }
  wp_steps.
  eapply (wp_on_store_keeps (fun child => view_eq (store br) child) (fun _ => True)); [done| | |].
  { eapply wp_mono; [apply law_fork| |]; cbn; [|done]. intros child ws [? ?]. done. }
  2:{ intros e c1 _ Q1. apply HR; [by eapply good_quiet|by eapply views_quiet|done]. }
  intros child_store c1 Hchild Q1. wp_steps.
  pose proof (good_quiet _ _ _ _ G Q1) as G1. pose proof (views_quiet _ _ _ _ G Q1) as V1.
  destruct (ext_lookup _ _ _ _ (proj1 Q1) Hb) as (br1 & Hb1 & Vbr & Ea & Ex & Ed).
  apply wp_branch_mut; [|congruence]. intros br1' Hb1'. assert (br1' = br1) as -> by congruence.
  destruct (Dirty.fork (dirty_pages br1)) as [d' child_dirty] eqn:Hd.
  pose proof (fun k => is_dirty_fork (dirty_pages br1) k d' child_dirty Hd) as Hdirty.
  unfold put_branch. wp_steps. cbn.
  set (c2 := set_branches (<[source := _]> _) c1).
  assert (good n c2 ms) as G2.
  { destruct G1 as (I1 & O1 & B1). split; [|split; [|done]].
    - apply (seal_inv c1 ms source br1 (store br1)); [done|done|by rewrite Ea|done|].
      intros k. apply Hdirty.
    - apply (no_orphans_sees c1); [done| |exact O1]. intros b k i Hk Hs.
      by apply (records_sees c1 source br1 _ (c_known c1)). }
  assert (same_views c1 c2) as V2.
  { apply (seal_views c1 source br1 (store br1) d' Hb1 (view_eq_refl _)). }
  destruct (checked_add (c_next_branch c1) 1) as [next|] eqn:Hadd.
  2:{ wp_steps. apply HR; [done|by eapply same_views_trans|done]. }
  apply checked_add_Some in Hadd as [-> Hmax]. wp_steps.
  rewrite (ext_next_branch _ _ (proj1 Q1)).
  assert (c_branches c2 !! source = Some (set_exclusive ∅ (set_dirty d' (set_store (store br1) br1))))
    as Hb2 by apply lookup_insert_eq.
  assert (view_eq (store br1) child_store) as Hcv.
  { destruct Vbr as (A1 & A2 & A3), Hchild as (C1 & C2 & C3). repeat split; intros.
    - by rewrite A1, C1.
    - by rewrite A2, C2.
    - by rewrite A3, C3. }
  assert (forall k, is_dirty child_dirty k <-> is_dirty d' k) as Hdd.
  { intros k. destruct (Hdirty k) as [-> ->]. done. }
  assert (c_next_branch c2 = c_next_branch c) as Hnb by apply (ext_next_branch _ _ (proj1 Q1)).
  destruct (child_views c2 source _ child_store child_dirty Hb2 Hcv) as [Vo Vc].
  rewrite <-Hnb in HQ |- *. apply HQ.
  - destruct G2 as (I2 & O2 & B2). split; [|split; [|done]].
    + apply (child_inv c2 ms source _ child_store child_dirty I2 Hb2); [by cbn; rewrite Ea|done|done|done].
    + apply (no_orphans_sees c2); [done| |exact O2]. intros b k i Hk Hs.
      apply (child_sees c2 ms source _ child_store child_dirty I2 Hb2 Hcv); auto.
  - assert (forall b0 br0, c_branches c !! b0 = Some br0 -> b0 <> c_next_branch c2) as Hfresh.
    { intros b0 br0 Hb0. rewrite Hnb. destruct (inv_branch _ _ (proj1 G) _ _ Hb0). lia. }
    pose proof (same_views_trans _ _ _ V1 V2) as V. split; [|split; [|split; [|split]]].
    + destruct (c_branches c !! c_next_branch c2) as [br0|] eqn:Hb0; [|done]. by destruct (Hfresh _ _ Hb0).
    + cbn. rewrite lookup_insert_eq. by eexists.
    + intros k Hk. rewrite <-(V source k Hk). by apply Vc.
    + intros b k Hk Hne. rewrite <-(V b k Hk). by apply Vo.
    + intros k i Hk Hs. apply (ext_sees c c1) in Hs; [|apply Q1|done].
      apply (sees_branch c1 source br1) in Hs; [|done].
      assert (sees c2 source k i) as Hs2 by (eexists; split; [exact Hb2|done]).
      split; apply (child_sees c2 ms source _ child_store child_dirty (proj1 G2) Hb2 Hcv); auto.
Qed.

(** ** Removal *)

Lemma wp_visible_in bs k visible Q R c :
  aligned k -> (forall b, b ∈ bs -> is_Some (c_branches c !! b)) ->
  (forall vis c', quiet c c' ->
    (forall i, i ∈ vis <-> i ∈ visible \/ exists b, b ∈ bs /\ sees c b k i) -> Q vis c') ->
  wp (visible_in bs k visible) Q R c.
Proof.
  intros Hk. revert visible Q c. induction bs as [|b bs IH]; intros visible Q c Hbs HQ; cbn [visible_in].
  { wp_steps. apply HQ; [apply quiet_refl|]. intros i. split; [by left|].
    intros [?|(b & Hb & _)]; [done|by apply not_elem_of_nil in Hb]. }
  destruct (Hbs b (list_elem_of_here _ _)) as [br Hb].
  assert (forall c1 visible', quiet c c1 ->
    (forall i, i ∈ visible' <-> i ∈ visible \/ sees c b k i) -> wp (visible_in bs k visible') Q R c1) as Hnext.
  { intros c1 visible' Q1 Hv. apply IH.
    - intros b0 Hb0. destruct (Hbs b0 (list_elem_of_further _ _ _ Hb0)) as [br0 Hb0'].
      destruct (ext_lookup _ _ _ _ (proj1 Q1) Hb0') as (? & ? & _). by eexists.
    - intros vis c2 Q2 Hvis. apply HQ; [by eapply quiet_trans|]. intros i. rewrite Hvis, Hv.
      setoid_rewrite elem_of_cons.
      setoid_rewrite (fun b => ext_sees c c1 b k i (proj1 Q1) Hk). naive_solver. }
  wp_steps. apply (wp_identity b k _ _ c br); [done|done| |].
  - intros j c1 Hj Q1. apply Hnext; [done|]. intros i. rewrite (sees_branch c b br) by done.
    rewrite elem_of_union, elem_of_singleton. rewrite Hj. naive_solver.
  - intros e c1 He Q1. apply Hnext; [done|]. intros i. rewrite (sees_branch c b br) by done.
    rewrite He. naive_solver.
Qed.

Lemma wp_visible_identities keys bs visible Q R c :
  (forall k, k ∈ keys -> aligned k) -> (forall b, b ∈ bs -> is_Some (c_branches c !! b)) ->
  (forall vis c', quiet c c' ->
    (forall i, i ∈ vis <-> i ∈ visible \/ exists k b, k ∈ keys /\ b ∈ bs /\ sees c b k i) -> Q vis c') ->
  wp (visible_identities keys bs visible) Q R c.
Proof.
  revert visible Q c. induction keys as [|k keys IH]; intros visible Q c Hk Hbs HQ;
    cbn [visible_identities].
  { wp_steps. apply HQ; [apply quiet_refl|]. intros i. split; [by left|].
    intros [?|(k & b & Hin & _)]; [done|by apply not_elem_of_nil in Hin]. }
  wp_steps. apply wp_visible_in; [by apply Hk; left|done|]. intros vis1 c1 Q1 H1.
  apply IH.
  - intros k0 Hk0. apply Hk. by right.
  - intros b0 Hb0. destruct (Hbs b0 Hb0) as [br0 Hb0'].
    destruct (ext_lookup _ _ _ _ (proj1 Q1) Hb0') as (? & ? & _). by eexists.
  - intros vis c2 Q2 H2. apply HQ; [by eapply quiet_trans|]. intros i. rewrite H2, H1. split.
    + intros [[?|(b & Hb & Hs)]|(k0 & b & Hk0 & Hb & Hs)]; [by left| |]; right.
      * exists k, b. split; [left|done].
      * exists k0, b. split; [by right|]. split; [done|].
        apply (ext_sees c c1); [apply Q1| |done]. apply Hk. by right.
    + intros [?|(k0 & b & [->|Hk0]%elem_of_cons & Hb & Hs)]; [by left; left| |].
      * left. right. by exists b.
      * right. exists k0, b. split; [done|]. split; [done|].
        apply (ext_sees c c1); [apply Q1| |done]. apply Hk. by right.
Qed.

(** The branch is gone and no other branch sees a difference. *)
Definition removed c c' b : Prop :=
  c_branches c' !! b = None /\
  forall b' k, aligned k -> b' <> b -> page_view c' b' k = page_view c b' k.

Lemma wp_remove_branch b n Q R c ms :
  good n c ms ->
  (forall c', good n c' ms -> removed c c' b -> Q tt c') ->
  (c_branches c !! b = None -> R (BranchNotFound b) c) ->
  ((exists m, m ∈ ms /\ m_branch m = b) -> R ActiveMappings c) ->
  wp (remove_branch b) Q R c.
Proof.
  intros G HQ HR1 HR2. unfold remove_branch. wp_steps. apply wp_branch_mut; [|done].
  intros br Hb. case_decide as Hact.
  { wp_steps. apply HR2. by eapply active_mapping; [apply G|..]. }
  wp_steps. set (c1 := set_branches (delete b (c_branches c)) c).
  destruct G as (I & O & B).
  pose proof (drop_inv c ms b br I Hb Hact) as I1. fold c1 in I1.
  apply wp_visible_identities.
  { intros k. rewrite elem_of_btree_elems. apply (inv_known _ _ I1). }
  { intros b0. by rewrite elem_of_btree_keys. }
  intros vis c2 Q2 Hvis. wp_steps.
  pose proof (ext_inv _ _ _ I1 (proj1 Q2)) as I2.
  assert (filter (fun kv : Id * CachePage => kv.1 ∈ vis) (c_pages c2) ⊆ c_pages c2) as Hsub
    by apply map_filter_subseteq.
  assert (forall i p b0 k, c_pages c2 !! i = Some p ->
    filter (fun kv : Id * CachePage => kv.1 ∈ vis) (c_pages c2) !! i = None ->
    aligned k -> sees c2 b0 k i -> k ∉ c_known c2) as Hgone.
  { intros i p b0 k Hp Hn Hk Hs Hkn. apply map_lookup_filter_None in Hn as [|Hn]; [congruence|].
    apply (Hn p Hp). cbn. apply Hvis. right. exists k, b0.
    rewrite (ext_known _ _ (proj1 Q2)) in Hkn. apply (ext_sees c1 c2) in Hs; [|apply Q2|done].
    rewrite elem_of_btree_elems, elem_of_btree_keys. repeat split; try done.
    destruct Hs as (br0 & Hb0 & _). by exists br0. }
  apply HQ.
  - split; [by apply evict_inv|]. split; [|by apply Q2].
    intros i p. cbn. intros [Hp Hv]%map_lookup_filter_Some. cbn in Hv. apply Hvis in Hv.
    destruct Hv as [Hv|(k & b0 & Hk & _ & Hs)]; [by apply not_elem_of_empty in Hv|].
    rewrite elem_of_btree_elems in Hk. pose proof (inv_known _ _ I1 k Hk) as Hal.
    exists b0, k. split; [done|]. by apply (ext_sees c1 c2); [apply Q2|done|].
  - split.
    + cbn. pose proof (ext_branches _ _ (proj1 Q2) b) as Hf. cbn in Hf.
      rewrite lookup_delete_eq in Hf. by inversion Hf.
    + intros b' k Hk Hne. rewrite (evict_views c2 ms _ I2 Hsub Hgone b' k Hk).
      rewrite (ext_view c1 c2 ms b' k I1 (proj1 Q2) Hk). by apply drop_views.
Qed.

(** ** Opening and closing nodes *)

Lemma set_open_quiet c b br o :
  c_branches c !! b = Some br -> quiet c (set_branches (<[b := set_open o br]> (c_branches c)) c).
Proof.
  intros Hb. split; [split|]; cbn; try done. intros b0. destruct (decide (b0 = b)) as [->|Hne].
  - rewrite lookup_insert_eq, Hb. constructor. repeat split.
  - rewrite lookup_insert_ne by done. destruct (c_branches c !! b0); constructor. apply br_eq_refl.
Qed.

Lemma wp_keeping b (f : M (W * S) io_error unit) (Q : unit -> Cache W S Id -> Prop) R c br :
  c_branches c !! b = Some br ->
  (forall ws, wp f (fun _ ws' => keeps ws ws') (fun _ ws' => keeps ws ws') ws) ->
  (forall c', quiet c c' -> Q tt c') -> (forall e c', quiet c c' -> R e c') ->
  wp (on_store b f) Q R c.
Proof.
  intros Hb Hf HQ HR. eapply (wp_on_store_keeps (fun _ => True) (fun _ => True)); [done| | |].
  - eapply wp_mono; [apply Hf| |]; auto.
  - intros []; auto.
  - auto.
Qed.

Lemma wp_open b node Q R c :
  (forall c', quiet c c' -> Q tt c') -> (forall e c', quiet c c' -> R e c') ->
  wp (open b node) Q R c.
Proof.
  intros HQ HR. unfold open. wp_steps.
  apply wp_branch_mut; [|intros _; apply HR, quiet_refl]. intros br Hb.
  wp_steps. rewrite wp_put_branch. wp_steps.
  set (c1 := set_branches _ c).
  pose proof (set_open_quiet c b br (<[node := default 0 (open_nodes br !! node)]> (open_nodes br)) Hb)
    as Q1. fold c1 in Q1.
  assert (c_branches c1 !! b = Some (set_open (<[node := default 0 (open_nodes br !! node)]>
    (open_nodes br)) br)) as Hb1 by apply lookup_insert_eq.
  assert (forall c2, quiet c1 c2 -> wp (branch_mut b ≫= fun br0 =>
    match checked_add (default 0 (open_nodes br !! node)) 1 with
    | None => throw (InvalidMapping "open reference count overflow")
    | Some n => put_branch b (set_open (<[node := n]> (open_nodes br0)) br0)
    end) Q R c2) as Hfin.
  { intros c2 Q2. pose proof (quiet_trans _ _ _ Q1 Q2) as Q02.
    destruct (ext_lookup _ _ _ _ (proj1 Q2) Hb1) as (br2 & Hb2 & _).
    wp_steps. apply wp_branch_mut; [|congruence]. intros br2' Hb2'.
    destruct (checked_add _ 1) as [n|]; unfold put_branch; wp_steps; [|by apply HR].
    apply HQ. eapply quiet_trans; [done|]. by apply set_open_quiet. }
  destruct (_ =? 0); [|rewrite wp_ret; apply Hfin, quiet_refl].
  eapply (wp_keeping _ _ _ _ _ _ Hb1); [apply law_open|exact Hfin|].
  intros e c2 Q2. apply HR. by eapply quiet_trans.
Qed.

Lemma wp_close b node Q R c :
  (forall c', quiet c c' -> Q tt c') -> (forall e c', quiet c c' -> R e c') ->
  wp (close b node) Q R c.
Proof.
  intros HQ HR. unfold close. wp_steps.
  apply wp_branch_mut; [|intros _; apply HR, quiet_refl]. intros br Hb.
  destruct (open_nodes br !! node) as [count|]; [|wp_steps; apply HR, quiet_refl].
  destruct (checked_sub count 1) as [n|]; [|wp_steps; apply HR, quiet_refl].
  unfold put_branch. wp_steps.
  pose proof (set_open_quiet c b br (<[node := n]> (open_nodes br)) Hb) as Q1.
  destruct (n =? 0); [|wp_steps; by apply HQ].
  eapply wp_keeping; [apply lookup_insert_eq|apply law_close| |].
  - intros c2 Q2. apply HQ. by eapply quiet_trans.
  - intros e c2 Q2. apply HR. by eapply quiet_trans.
Qed.

(** ** Writing back *)

(** The dirty pages of [b] after a write-back of [k]. *)
Definition cleaned c c' b k : Prop :=
  forall br, c_branches c !! b = Some br -> exists br', c_branches c' !! b = Some br' /\
    forall k', is_dirty (dirty_pages br') k' <-> k' <> k /\ is_dirty (dirty_pages br) k'.

Lemma quiet_dirty c c' b br k :
  quiet c c' -> c_branches c !! b = Some br -> is_dirty (dirty_pages br) k ->
  exists br', c_branches c' !! b = Some br' /\ br_eq br br' /\ is_dirty (dirty_pages br') k.
Proof.
  intros [E _] Hb Hd. destruct (ext_lookup _ _ _ _ E Hb) as (br' & Hb' & V & Ea & Ex & Ed).
  exists br'. repeat split; try done; try apply V. by rewrite Ed.
Qed.

(** Marking a page clean that agrees with the store. *)
Lemma wp_mark_clean b k n Q R c c0 ms br0 br1 :
  good n c ms -> same_views c0 c -> c_branches c0 !! b = Some br0 ->
  c_branches c !! b = Some br1 -> dirty_pages br1 = dirty_pages br0 ->
  (forall i p, s_ident (store br1) k = Ok i -> c_pages c !! i = Some p ->
    agree (s_len (store br1) k.1) k.2 (page_bytes c p) (s_content (store br1) k)) ->
  (forall c', good n c' ms -> same_views c0 c' -> cleaned c0 c' b k -> Q tt c') ->
  wp (br ← branch_mut b; put_branch b (set_dirty (Dirty.mark_clean k (dirty_pages br)) br)) Q R c.
Proof.
  intros (I & O & B) V Hb0 Hb1 Hd Hagree HQ. wp_steps.
  apply wp_branch_mut; [|congruence]. intros br Hb. assert (br = br1) as -> by congruence.
  rewrite wp_put_branch. apply HQ.
  - split; [by apply (clean_inv c ms b br1 k)|]. split; [|done].
    apply (no_orphans_sees c); [done| |done]. intros b' k' i Hk' Hs.
    by apply (records_sees c b br1 _ (c_known c)).
  - eapply same_views_trans; [done|]. by apply (clean_views c b br1 k).
  - intros br' Hbr'. assert (br' = br0) as -> by congruence.
    eexists. split; [apply lookup_insert_eq|]. intros k'. cbn. rewrite Hd, is_dirty_mark_clean.
    naive_solver.
Qed.

Lemma wp_sync_page b k n Q R c ms br :
  good n c ms -> c_branches c !! b = Some br -> is_dirty (dirty_pages br) k ->
  (forall c', good n c' ms -> same_views c c' -> cleaned c c' b k -> Q tt c') ->
  (forall e c', good n c' ms -> same_views c c' -> e <> StaleMapping -> R e c') ->
  wp (sync_page b k) Q R c.
Proof.
  intros G Hb Hd HQ HR. unfold sync_page.
  destruct (inv_branch _ _ (proj1 G) _ _ Hb) as [_ (_ & _ & Hdirty & _)].
  destruct (Hdirty k Hd) as (Hk & _ & i & Hi & [p Hp]). clear Hdirty.
  wp_steps. apply (wp_len _ _ _ _ _ br Hb).
  2:{ intros e c1 Q1. apply HR; [by eapply good_quiet|by eapply views_quiet|done]. }
  intros len c1 Hlen Q1. pose proof (good_quiet _ _ _ _ G Q1) as G1.
  pose proof (views_quiet _ _ _ _ G Q1) as V1.
  destruct (quiet_dirty _ _ _ _ _ Q1 Hb Hd) as (br1 & Hb1 & ((Vi1 & Vc1 & Vl1) & _ & _ & Ed1) & _).
  destruct (N.leb_spec len k.2) as [Hpast|Hin].
  { eapply (wp_mark_clean b k n Q R c1 c ms br br1); try done.
    intros i0 p0 _ _. rewrite Vl1, Hlen. intros j _. lia. }
  wp_steps. apply (wp_identity b k _ _ c1 br1); [done|done| |].
  2:{ intros e c2 He. rewrite Vi1 in He by done. congruence. }
  intros i1 c2 Hi1 Q2. assert (i1 = i) as -> by (rewrite Vi1 in Hi1 by done; congruence).
  wp_steps. pose proof (good_quiet _ _ _ _ G1 Q2) as G2.
  pose proof (quiet_trans _ _ _ Q1 Q2) as Q02.
  assert (c_pages c2 !! i = Some p) as Hp2 by (by rewrite (ext_pages _ _ (proj1 Q02))).
  rewrite Hp2. wp_steps.
  set (count := N.min (len - k.2) PAGE_SIZE).
  eapply (wp_io_read p count 0); [apply G2|done|lia| |].
  2:{ intros e c3 Q3. pose proof (quiet_trans _ _ _ Q02 Q3).
      apply HR; [by eapply good_quiet|by eapply views_quiet|done]. }
  intros c3 Q3. pose proof (quiet_trans _ _ _ Q02 Q3) as Q03.
  pose proof (good_quiet _ _ _ _ G Q03) as G3. pose proof (views_quiet _ _ _ _ G Q03) as V3.
  destruct (quiet_dirty _ _ _ _ _ Q03 Hb Hd) as (br3 & Hb3 & ((Vi3 & Vc3 & Vl3) & _ & _ & Ed3) & Hd3).
  assert (c_pages c3 !! i = Some p) as Hp3 by (by rewrite (ext_pages _ _ (proj1 Q03))).
  assert (page_bytes c3 p = page_bytes c2 p) as Hpb
    by (eapply ext_page_bytes; [apply G2|apply Q3|done]).
  rewrite <-Hpb. set (bytes := slice 0 count (page_bytes c3 p)).
  assert (lenN bytes = count) as Hbl.
  { apply lenN_slice. destruct (inv_page _ _ (proj1 G3) _ _ Hp3) as ((x & Hf & Hl) & _).
    unfold page_bytes, file_bytes. rewrite Hf. cbn. unfold lenN. rewrite Hl, page_nat_N. lia. }
  wp_steps. apply (wp_on_store _ _ _ _ _ br3 Hb3).
  assert (forall ws, world_le (c_world c3) ws.1 -> write_frame k (store br3) ws.2 ->
    good n (upd_store b br3 ws c3) ms /\ same_views c (upd_store b br3 ws c3)) as Hwb.
  { intros [w' s'] [Hw1 Hw2] Hwf. destruct G3 as (I3 & O3 & [B3 B3']). cbn in *. split.
    - split; [by apply (write_back_inv c3 ms b br3 k w' s')|]. split; [|split; [done|by apply Hw2]].
      apply (no_orphans_sees c3); [done| |done]. intros b' k' i' Hk' Hs.
      by apply (write_back_sees c3 b br3 k w' s').
    - eapply same_views_trans; [done|]. by apply (write_back_views c3 ms b br3 k w' s'). }
  eapply wp_mono; [apply (law_write k bytes len); [done|cbn; lia|cbn; by rewrite Vl3|rewrite Hbl; lia]| |].
  2:{ cbn. intros e ws [Hw Hwf]. destruct (Hwb ws Hw Hwf). by apply HR. }
  cbn. intros written ws (Hw & Hwf & Hcontent). destruct (Hwb ws Hw Hwf) as [G4 V4].
  destruct (N.eqb_spec written count) as [->|]; cbn [negb]; [|wp_steps; by apply HR].
  eapply (wp_mark_clean b k n Q R _ c ms br (set_store ws.2 br3)); try done.
  - apply lookup_insert_eq.
  - cbn. intros i0 p0 Hi0 Hp0. destruct Hwf as (Wi & _ & Wl). rewrite Wl, Vl3, Hlen.
    rewrite Wi, Vi3 in Hi0 by done. assert (i0 = i) as -> by congruence.
    assert (p0 = p) as -> by congruence. intros j Hj Hin'.
    change (page_bytes (upd_store b br3 ws c3) p) with (page_bytes c3 p).
    rewrite Hcontent by lia. unfold bytes. rewrite nthN_slice. cmp; [done|lia].
Qed.

Lemma wp_sync_pages b keys n Q R c ms br :
  good n c ms -> c_branches c !! b = Some br -> NoDup keys ->
  (forall k, k ∈ keys -> is_dirty (dirty_pages br) k) ->
  (forall c' br', good n c' ms -> same_views c c' -> c_branches c' !! b = Some br' ->
    (forall k, is_dirty (dirty_pages br') k <-> (k ∉ keys) /\ is_dirty (dirty_pages br) k) -> Q tt c') ->
  (forall e c', good n c' ms -> same_views c c' -> e <> StaleMapping -> R e c') ->
  wp (sync_pages b keys) Q R c.
Proof.
  intros G Hb Hnd Hdirty HQ HR. unfold sync_pages. wp_steps.
  apply wp_branch_mut; [|congruence]. intros _ _.
  eapply wp_mono; [|intros [] c' HI; exact HI|intros e c' HE; exact HE].
  eapply wp_mono; [apply (wp_for_each _ (fun done todo c' => good n c' ms /\ same_views c c' /\
    exists br', c_branches c' !! b = Some br' /\
      forall k, is_dirty (dirty_pages br') k <-> (k ∉ done) /\ is_dirty (dirty_pages br) k) R)| |done].
  - split; [done|]. split; [done|]. exists br. split; [done|]. intros k. set_solver.
  - intros done k todo c' -> (G' & V' & br' & Hb' & Hd').
    assert (k ∉ done) as Hk.
    { intros Hin. apply NoDup_app in Hnd as (_ & Hnd & _). apply (Hnd k Hin). left. }
    eapply (wp_sync_page b k n _ _ c' ms br'); [done|done| | |].
    + apply Hd'. split; [done|]. apply Hdirty. apply elem_of_app. right. left.
    + intros c2 G2 V2 Hcl. split; [done|]. split; [by eapply same_views_trans|].
      destruct (Hcl br' Hb') as (br2 & Hb2 & Hd2). exists br2. split; [done|]. intros k'.
      rewrite Hd2, Hd', elem_of_app, list_elem_of_singleton. naive_solver.
    + intros e c2 G2 V2 He. apply HR; [done|by eapply same_views_trans|done].
  - cbn. intros [] c' (G' & V' & br' & Hb' & Hd'). by eapply HQ.
Qed.

Lemma NoDup_collect (visible : gmap PageKey bool) : NoDup (Dirty.collect visible).
Proof. unfold Dirty.collect. apply NoDup_filter, NoDup_btree_keys. Qed.

(** After a successful [sync_all] the branch has no dirty page. *)
Lemma wp_sync_all b n Q R c ms :
  good n c ms ->
  (forall c' br', good n c' ms -> same_views c c' -> c_branches c' !! b = Some br' ->
    (forall k, ~ is_dirty (dirty_pages br') k) -> Q tt c') ->
  (forall e c', good n c' ms -> same_views c c' -> e <> StaleMapping -> R e c') ->
  wp (sync_all b) Q R c.
Proof.
  intros G HQ HR. unfold sync_all. wp_steps. apply wp_branch_mut; [|intros _; by apply HR].
  intros br Hb. eapply (wp_sync_pages _ _ n); [done|done|apply NoDup_collect| | |done].
  - intros k. by rewrite elem_of_pages.
  - intros c' br' G' V' Hb' Hd'. eapply HQ; [done|done|done|]. intros k. rewrite Hd', elem_of_pages.
    naive_solver.
Qed.

(** After a successful [sync] the node has no dirty page; other nodes keep theirs. *)
Lemma wp_sync b node n Q R c ms :
  good n c ms ->
  (forall c' br br', good n c' ms -> same_views c c' -> c_branches c !! b = Some br ->
    c_branches c' !! b = Some br' ->
    (forall k, is_dirty (dirty_pages br') k <-> k.1 <> node /\ is_dirty (dirty_pages br) k) -> Q tt c') ->
  (forall e c', good n c' ms -> same_views c c' -> e <> StaleMapping -> R e c') ->
  wp (sync b node) Q R c.
Proof.
  intros G HQ HR. unfold sync. wp_steps. apply wp_branch_mut; [|intros _; by apply HR].
  intros br Hb. eapply (wp_sync_pages _ _ n); [done|done|apply NoDup_collect| | |done].
  - intros k. rewrite elem_of_pages_for_node. by intros [_ ?].
  - intros c' br' G' V' Hb' Hd'. eapply HQ; [done|done|done|done|]. intros k.
    rewrite Hd', elem_of_pages_for_node. destruct (decide (k.1 = node)); naive_solver.
Qed.

(** ** Accounting *)

(** Branch [b] sees a resident page numbered [id]. *)
Definition resident c b (id : N) : Prop :=
  exists k i p, k ∈ c_known c /\ sees c b k i /\ c_pages c !! i = Some p /\ cp_id p = id.

Lemma wp_pages_in_branch b keys ids Q R c br :
  c_branches c !! b = Some br -> (forall k, k ∈ keys -> aligned k) ->
  (forall ids' c', quiet c c' -> (forall id, id ∈ ids' <-> id ∈ ids \/
     exists k i p, k ∈ keys /\ sees c b k i /\ c_pages c !! i = Some p /\ cp_id p = id) -> Q ids' c') ->
  wp (pages_in_branch b keys ids) Q R c.
Proof.
  revert ids Q c br. induction keys as [|k keys IH]; intros ids Q c br Hb Hal HQ; cbn [pages_in_branch].
  { wp_steps. apply HQ; [apply quiet_refl|]. intros id. split; [by left|].
    intros [?|(k & i & p & Hin & _)]; [done|by apply not_elem_of_nil in Hin]. }
  assert (forall c1 ids1, quiet c c1 ->
    (forall id, id ∈ ids1 <-> id ∈ ids \/ exists i p, sees c b k i /\ c_pages c !! i = Some p /\ cp_id p = id) ->
    wp (pages_in_branch b keys ids1) Q R c1) as Hnext.
  { intros c1 ids1 Q1 H1. destruct (ext_lookup _ _ _ _ (proj1 Q1) Hb) as (br1 & Hb1 & _).
    eapply IH; [done|intros ??; apply Hal; by right|]. intros ids2 c2 Q2 H2.
    apply HQ; [by eapply quiet_trans|]. intros id. rewrite H2, H1, (ext_pages _ _ (proj1 Q1)). split.
    - intros [[?|(i & p & ?)]|(k0 & i & p & Hk0 & Hs & ?)]; [by left| |]; right.
      + exists k, i, p. split; [left|done].
      + exists k0, i, p. split; [by right|]. split; [|done].
        apply (ext_sees c c1); [apply Q1| |done]. apply Hal. by right.
    - intros [?|(k0 & i & p & [->|Hk0]%elem_of_cons & Hs & ?)]; [by left; left| |].
      + left. right. by exists i, p.
      + right. exists k0, i, p. split; [done|]. split; [|done].
        apply (ext_sees c c1); [apply Q1| |done]. apply Hal. by right. }
  wp_steps. apply (wp_identity b k _ _ c br); [done|by apply Hal; left| |]; wp_steps.
  - intros i c1 Hi Q1. wp_steps. rewrite (ext_pages _ _ (proj1 Q1)). apply Hnext; [done|].
    intros id. setoid_rewrite (sees_branch c b br k _ Hb). rewrite Hi.
    destruct (c_pages c !! i) as [p|] eqn:Hp; [|naive_solver].
    rewrite elem_of_union, elem_of_singleton. naive_solver.
  - intros e c1 He Q1. wp_steps. apply Hnext; [done|].
    intros id. setoid_rewrite (sees_branch c b br k _ Hb). rewrite He. naive_solver.
Qed.

Lemma resident_quiet c c' b id : (forall k, k ∈ c_known c -> aligned k) ->
  quiet c c' -> resident c' b id <-> resident c b id.
Proof.
  intros Hal [E _]. unfold resident. rewrite (ext_known _ _ E), (ext_pages _ _ E).
  split; intros (k & i & p & Hk & Hs & ?); exists k, i, p; (split; [done|]); (split; [|done]);
    apply (ext_sees c c'); auto.
Qed.

(** One set of page numbers per requested branch. *)
Lemma wp_account_branches requested sets Q R c ms n :
  good n c ms ->
  (forall sets' c', good n c' ms -> quiet c c' ->
    Forall2 (fun b s => forall id, id ∈ s <-> resident c b id) requested sets' ->
    Q (count_refs (sets ++ sets')) c') ->
  (forall b c', quiet c c' -> b ∈ requested -> c_branches c !! b = None -> R (BranchNotFound b) c') ->
  wp (account_branches requested (count_refs sets)) Q R c.
Proof.
  revert sets Q R c. induction requested as [|b requested IH]; intros sets Q R c G HQ HR;
    cbn [account_branches].
  { wp_steps. rewrite <-(app_nil_r sets). apply HQ; [done|apply quiet_refl|constructor]. }
  wp_steps. apply wp_branch_mut.
  2:{ intros Hn. apply HR; [apply quiet_refl|left|done]. }
  intros br Hb. wp_steps. pose proof (inv_known _ _ (proj1 G)) as Hal.
  eapply wp_pages_in_branch; [done|intros k; rewrite elem_of_btree_elems; apply Hal|].
  intros ids c1 Q1 Hids.
  assert (bump_all (count_refs sets) ids = count_refs (sets ++ [ids])) as ->.
  { unfold count_refs. by rewrite foldl_snoc. }
  apply IH; [by eapply good_quiet| |].
  - intros sets' c2 G2 Q2 Hsets. rewrite <-(assoc_L (++)). apply HQ; [done|by eapply quiet_trans|].
    constructor.
    + intros id. rewrite Hids. unfold resident. setoid_rewrite elem_of_btree_elems. set_solver.
    + eapply Forall2_impl; [exact Hsets|]. cbn. intros b0 s0 Hs id. rewrite Hs.
      by apply resident_quiet.
  - intros b0 c2 Q2 Hb0 Hn. apply HR; [by eapply quiet_trans|by right|].
    destruct (c_branches c !! b0) as [br0|] eqn:Hb0'; [|done].
    destruct (ext_lookup _ _ _ _ (proj1 Q1) Hb0') as (? & ? & _). congruence.
Qed.

Lemma wp_page_accounting requested Q R c ms n :
  good n c ms ->
  (forall sets c', good n c' ms -> same_views c c' ->
    Forall2 (fun b s => forall id, id ∈ s <-> resident c b id) requested sets ->
    Q (mkCacheAccounting (size (count_refs sets)) (count_shared (count_refs sets))) c') ->
  (forall b c', good n c' ms -> same_views c c' -> b ∈ requested -> c_branches c !! b = None ->
    R (BranchNotFound b) c') ->
  wp (page_accounting requested) Q R c.
Proof.
  intros G HQ HR. unfold page_accounting. wp_steps.
  apply (wp_account_branches requested [] _ _ c ms n G).
  - intros sets c' G' Q' Hs. wp_steps. apply HQ; [done|by eapply views_quiet|done].
  - intros b c' Q' Hb Hn. apply HR; [by eapply good_quiet|by eapply views_quiet|done|done].
Qed.

End life.
