(* ===== verification/SharedCacheLens.v ===== *)
(** * File lengths under the shared cache

    The cache never changes the length of a file and never loses a branch:
    every operation but [remove_branch] leaves the branches there are, with
    the lengths their stores report.  [wp_and] joins this with what the other
    files prove of the same operation. *)

From S2P Require Import Prelude Generations Host CacheTypes DirtyPages SharedCache SharedCacheInv SharedCacheSteps SharedCacheOps SharedCacheIO SharedCacheLife.
Import Shared.

(** Two things proved of one run. *)
Lemma wp_and {St E A} (m : M St E A) (Q1 Q2 : A -> St -> Prop) (R1 R2 : E -> St -> Prop) s :
  wp m Q1 R1 s -> wp m Q2 R2 s ->
  wp m (fun a s' => Q1 a s' /\ Q2 a s') (fun e s' => R1 e s' /\ R2 e s') s.
Proof. unfold wp. by destruct (m s) as [s' [a|e]]. Qed.

Lemma wp_and_keeps {St E A} (P : relation St) (m : M St E A) (Q : A -> St -> Prop) (R : E -> St -> Prop) s :
  Prelude.keeps P m -> wp m (fun a s' => P s s' -> Q a s') (fun e s' => P s s' -> R e s') s -> wp m Q R s.
Proof. intros Hk Hm. specialize (Hk s). unfold wp in *. destruct (m s) as [s' [a|e]]; by apply Hm. Qed.

Section lens.
Context {W S Id : Type} `{Countable Id} `{!ForkableNodeStore W S Id} `{!StoreView W S Id}.

Implicit Types (c : Cache W S Id) (b : N) (node : NodeId) (s : S).

Definition same_len s s' : Prop := forall node, s_len s' node = s_len s node.

(** Lengths are as they were, whether the method succeeds or not. *)
Definition len_kept {A} (f : M (W * S) io_error A) : Prop := forall ws, same_len ws.2 (f ws).1.2.

(** Every branch is still there, with files as long as they were. *)
Definition lens_kept c c' : Prop :=
  forall b br, c_branches c !! b = Some br ->
    exists br', c_branches c' !! b = Some br' /\ same_len (store br) (store br').

#[export] Instance lens_kept_preorder : PreOrder lens_kept.
Proof.
  split.
  - intros c b br Hb. by exists br.
  - intros c1 c2 c3 H12 H23 b br (br2 & Hb2 & Hl2)%H12. destruct (H23 _ _ Hb2) as (br3 & Hb3 & Hl3).
    exists br3. split; [done|]. intros node. by rewrite Hl3.
Qed.

Lemma lens_same c c' : c_branches c' = c_branches c -> lens_kept c c'.
Proof. intros Heq b br Hb. exists br. by rewrite Heq. Qed.

Lemma lens_put c b br br' : c_branches c !! b = Some br -> store br' = store br ->
  lens_kept c (set_branches (<[b := br']> (c_branches c)) c).
Proof.
  intros Hb Hs b0 br0 Hb0. cbn. destruct (decide (b0 = b)) as [->|Hne].
  - rewrite lookup_insert_eq. exists br'. split; [done|]. rewrite Hs. by assert (br0 = br) as -> by congruence.
  - rewrite lookup_insert_ne by done. by exists br0.
Qed.

Lemma lens_len c c' b br br' node : lens_kept c c' -> c_branches c !! b = Some br -> c_branches c' !! b = Some br' ->
  s_len (store br') node = s_len (store br) node.
Proof. intros HL Hb Hb'. destruct (HL b br Hb) as (br2 & Hb2 & Hl). by assert (br2 = br') as -> by congruence. Qed.

Lemma lens_on_store {A} b (f : M (W * S) io_error A) : len_kept f -> Prelude.keeps lens_kept (on_store b f).
Proof.
  intros Hf c. unfold on_store, mbind, M_bind, branch_mut, get, put_branch, modify, lift.
  destruct (c_branches c !! b) as [br|] eqn:Hb; [|done].
  specialize (Hf (c_world c, store br)). destruct (f (c_world c, store br)) as [[w' s'] r]. cbn in Hf.
  intros b0 br0 Hb0. cbn. destruct (decide (b0 = b)) as [->|Hne].
  - rewrite lookup_insert_eq. eexists. split; [done|]. by assert (br0 = br) as -> by congruence.
  - rewrite lookup_insert_ne by done. by exists br0.
Qed.

Lemma lens_io {A} (f : IO A) : Prelude.keeps lens_kept (io (W := W) (S := S) f).
Proof. apply (keeps_zoom (fun _ _ => True)); [intros c h _; by apply lens_same|done]. Qed.

(** A branch looked up, changed outside its store, and put back. *)
Lemma lens_branch {A} b (f : CacheBranch S -> M (Cache W S Id) CacheError A) :
  (forall c br, c_branches c !! b = Some br -> lens_kept c (f br c).1) ->
  Prelude.keeps lens_kept (branch_mut b ≫= f).
Proof.
  intros Hf c. unfold mbind, M_bind, branch_mut. destruct (c_branches c !! b) as [br|] eqn:Hb; [by apply Hf|done].
Qed.

Lemma lens_update b (f : CacheBranch S -> CacheBranch S) : (forall br, store (f br) = store br) ->
  Prelude.keeps lens_kept (br ← branch_mut b; put_branch b (f br)).
Proof. intros Hf. apply lens_branch. intros c br Hb. by apply lens_put with br. Qed.

Lemma lens_from {A B} c (m : M (Cache W S Id) CacheError A) (f : A -> M (Cache W S Id) CacheError B) :
  lens_kept c (m c).1 -> (forall a, Prelude.keeps lens_kept (f a)) -> lens_kept c ((m ≫= f) c).1.
Proof.
  intros Hm Hf. unfold mbind, M_bind. destruct (m c) as [c' [a|e]]; [|done].
  etrans; [exact Hm|apply Hf].
Qed.
End lens.

(** The methods of a store that leave lengths alone, whatever they are called
    with; a write does when it stays inside the file. *)
Class LenLaws (W S Id : Type) `{!ForkableNodeStore W S Id} `{!StoreView W S Id} : Prop := {
  len_identity node offset : len_kept (page_identity node offset);
  len_prepare node offset : len_kept (prepare_page_write node offset);
  len_read node offset n : len_kept (read_node node offset n);
  len_write node offset bytes n ws : s_len ws.2 node = Ok n -> offset + lenN bytes <= n ->
    same_len ws.2 (write_node node offset bytes ws).1.2
}.

Section laws.
Context {W S Id : Type} `{Countable Id} `{!ForkableNodeStore W S Id} `{!StoreView W S Id}
  `{!StoreLaws W S Id} `{!LenLaws W S Id}.

Implicit Types (c : Cache W S Id) (b : N) (node : NodeId) (s : S).

Lemma len_kept_keeps {A} (f : M (W * S) io_error A) :
  (forall ws, wp f (fun _ ws' => keeps ws ws') (fun _ ws' => keeps ws ws') ws) -> len_kept f.
Proof.
  intros Hf ws. specialize (Hf ws). unfold wp in Hf. destruct (f ws) as [ws' [a|e]]; by destruct Hf as (_ & _ & _ & ?).
Qed.

Lemma len_open node : len_kept (on_open_node node).
Proof. apply len_kept_keeps. intros ws. apply law_open. Qed.

Lemma len_close node : len_kept (on_close_node node).
Proof. apply len_kept_keeps. intros ws. apply law_close. Qed.

Lemma len_len node : len_kept (ns_len node).
Proof. apply len_kept_keeps. intros ws. eapply wp_mono; [apply law_len| |]; cbn; naive_solver. Qed.

Lemma len_fork : len_kept fork_store.
Proof. apply len_kept_keeps. intros ws. eapply wp_mono; [apply law_fork| |]; cbn; naive_solver. Qed.

Ltac lens_step :=
  lazymatch goal with
  | |- Prelude.keeps _ (on_store _ (page_identity _ _)) => apply lens_on_store, len_identity
  | |- Prelude.keeps _ (on_store _ (prepare_page_write _ _)) => apply lens_on_store, len_prepare
  | |- Prelude.keeps _ (on_store _ (read_node _ _ _)) => apply lens_on_store, len_read
  | |- Prelude.keeps _ (on_store _ (ns_len _)) => apply lens_on_store, len_len
  | |- Prelude.keeps _ (on_store _ (on_open_node _)) => apply lens_on_store, len_open
  | |- Prelude.keeps _ (on_store _ (on_close_node _)) => apply lens_on_store, len_close
  | |- Prelude.keeps _ (with_store_mut _ (ns_len _)) => apply lens_on_store, len_len
  | |- Prelude.keeps _ (io _) => apply lens_io
  | |- Prelude.keeps _ (modify _) => apply keeps_modify; intros; by apply lens_same
  | |- Prelude.keeps _ (br ← branch_mut _; put_branch _ _) => apply lens_update; done
  | |- Prelude.keeps _ (branch_mut _) => intros c; unfold branch_mut; by destruct (c_branches c !! _)
  | _ => keeps_step
  end.
Ltac lens_steps := repeat (lens_step; cbv beta zeta).

Lemma lens_from_bytes bytes : Prelude.keeps lens_kept (from_bytes (W := W) (S := S) bytes).
Proof. unfold from_bytes. lens_steps. Qed.

Lemma lens_load_page b i node offset : Prelude.keeps lens_kept (load_page b i node offset).
Proof. unfold load_page. lens_steps. apply lens_from_bytes. Qed.

Lemma lens_any_sees bs i node offset : Prelude.keeps lens_kept (any_sees bs i node offset).
Proof. induction bs as [|b bs IH]; cbn [any_sees]; lens_steps. done. Qed.

Lemma lens_copy_page b i p node offset : Prelude.keeps lens_kept (copy_page b i p node offset).
Proof.
  unfold copy_page, duplicate, retire_identity. lens_steps; [apply lens_from_bytes|apply lens_any_sees].
Qed.

Lemma lens_activate b key flags p : Prelude.keeps lens_kept (activate b key flags p).
Proof.
  unfold activate. apply keeps_bind; [apply _|lens_steps|intros _]. apply lens_branch. intros c br Hb.
  by apply lens_put with br.
Qed.

Lemma lens_map_page b node offset flags : Prelude.keeps lens_kept (map_page b node offset flags).
Proof.
  unfold map_page. lens_steps; [apply lens_load_page|apply lens_copy_page|apply lens_activate].
Qed.

Lemma lens_unmap b m : Prelude.keeps lens_kept (unmap (W := W) (S := S) b m).
Proof.
  unfold unmap. apply keeps_bind; [apply _|lens_steps|intros c0]. destruct (negb _); [lens_steps|].
  apply lens_branch. intros c br Hb.
  destruct (active_pages br !! _) as [count|]; [|done]. destruct (checked_sub count 1); [|done].
  apply lens_put with br; [done|]. by destruct (WRITE _).
Qed.

Lemma lens_open b node : Prelude.keeps lens_kept (open b node).
Proof.
  unfold open. apply lens_branch. intros c br Hb. cbv zeta.
  apply lens_from; [by apply lens_put with br|]. intros _. apply keeps_bind; [apply _|lens_steps|intros _].
  apply lens_branch. intros c' br' Hb'. destruct (checked_add _ 1); [by apply lens_put with br'|done].
Qed.

Lemma lens_close b node : Prelude.keeps lens_kept (close b node).
Proof.
  unfold close. apply lens_branch. intros c br Hb. destruct (open_nodes br !! node) as [count|]; [|done].
  destruct (checked_sub count 1); [|done]. apply lens_from; [by apply lens_put with br|]. intros _. lens_steps.
Qed.

Lemma lens_read_loop fuel b node end_ cursor : Prelude.keeps lens_kept (read_loop fuel b node end_ cursor).
Proof.
  revert cursor. induction fuel as [|fuel IH]; intros cursor; cbn [read_loop]; lens_steps;
    [apply lens_map_page|apply lens_unmap|apply IH].
Qed.

Lemma lens_read b node offset len : Prelude.keeps lens_kept (read b node offset len).
Proof. unfold read. lens_steps. apply lens_read_loop. Qed.

Lemma lens_write_loop fuel b node offset bytes end_ cursor :
  Prelude.keeps lens_kept (write_loop fuel b node offset bytes end_ cursor).
Proof.
  revert cursor. induction fuel as [|fuel IH]; intros cursor; cbn [write_loop]; lens_steps;
    [apply lens_map_page|apply lens_unmap|apply IH].
Qed.

Lemma lens_write b node offset bytes : Prelude.keeps lens_kept (write b node offset bytes).
Proof. unfold write. lens_steps. apply lens_write_loop. Qed.
(** ** Writing back *)

Lemma wp_lens {A} (m : M (Cache W S Id) CacheError A) c :
  wp m (fun _ => lens_kept c) (fun _ => lens_kept c) c -> lens_kept c (m c).1.
Proof. unfold wp. by destruct (m c) as [c' [a|e]]. Qed.

(** The write of a page stays inside the file, whose length was just read. *)
Lemma lens_write_back b node offset bytes n c br :
  c_branches c !! b = Some br -> s_len (store br) node = Ok n -> offset + lenN bytes <= n ->
  lens_kept c (on_store b (write_node node offset bytes) c).1.
Proof.
  intros Hb Hn Hin. unfold on_store, mbind, M_bind, branch_mut, get, put_branch, modify, lift. rewrite Hb.
  pose proof (len_write node offset bytes n (c_world c, store br) Hn Hin) as Hl.
  destruct (write_node _ _ _ _) as [[w' s'] r]. cbn in Hl. intros b0 br0 Hb0. cbn.
  destruct (decide (b0 = b)) as [->|Hne].
  - rewrite lookup_insert_eq. eexists. split; [done|]. by assert (br0 = br) as -> by congruence.
  - rewrite lookup_insert_ne by done. by exists br0.
Qed.

Lemma wp_lens_step {A} (m : M (Cache W S Id) CacheError A) Q c0 c :
  Prelude.keeps lens_kept m -> lens_kept c0 c ->
  (forall a c', lens_kept c c' -> lens_kept c0 c' -> Q a c') -> wp m Q (fun _ => lens_kept c0) c.
Proof.
  intros Hm Hc HQ. apply (wp_keeps lens_kept); [done| |].
  - intros a c' Hc'. apply HQ; [done|]. etrans; [exact Hc|done].
  - intros e c' Hc'. etrans; [exact Hc|done].
Qed.

Lemma wp_read_count f count off Q R h :
  (forall bytes h', lenN bytes = count -> Q bytes h') -> (forall e h', R e h') ->
  wp (read_exact_at f count off) Q R h.
Proof.
  intros HQ HR. apply wp_read_exact_at; [|by intros ->; apply HQ|auto].
  intros h' _ Hin. apply HQ. by apply lenN_slice.
Qed.

Lemma lens_sync_page b key : Prelude.keeps lens_kept (sync_page b key).
Proof.
  intros c. apply wp_lens. unfold sync_page. wp_steps.
  destruct (c_branches c !! b) as [br|] eqn:Hb.
  2:{ unfold on_store. wp_steps. apply wp_branch_mut; [congruence|done]. }
  eapply (wp_len b key.1); [exact Hb| |].
  2:{ intros e c1 [E1 _] b0 br0 Hb0. destruct (ext_lookup _ _ _ _ E1 Hb0) as (br1 & ? & (_ & _ & Hl) & _).
      by exists br1. }
  intros n c1 Hn [E1 _]. destruct (ext_lookup _ _ _ _ E1 Hb) as (br1 & Hb1 & (_ & _ & Hl1) & _).
  assert (lens_kept c c1) as L1.
  { intros b0 br0 Hb0. destruct (ext_lookup _ _ _ _ E1 Hb0) as (br2 & ? & (_ & _ & Hl) & _). by exists br2. }
  destruct (n <=? key.2) eqn:Hle.
  { apply wp_lens_step; [by apply lens_update|done|done]. }
  apply N.leb_gt in Hle. rewrite wp_bind.
  apply wp_lens_step; [apply lens_on_store, len_identity|done|]. intros i c2 L12 L2. wp_steps.
  destruct (c_pages c2 !! i) as [p|]; [|wp_steps; done]. cbv zeta. unfold io at 1. wp_steps.
  apply wp_read_count; [|intros e h; etrans; [exact L2|by apply lens_same]].
  intros bytes h Hcount. set (c3 := set_host h c2).
  assert (lens_kept c1 c3) as L13 by (etrans; [exact L12|by apply lens_same]).
  assert (lens_kept c c3) as L3 by (etrans; [exact L1|done]).
  destruct (L13 _ _ Hb1) as (br3 & Hb3 & Hl3).
  assert (lens_kept c (on_store b (write_node key.1 key.2 bytes) c3).1) as L4.
  { etrans; [exact L3|]. eapply lens_write_back; [exact Hb3| |]; [by rewrite Hl3, Hl1|]. rewrite Hcount. lia. }
  rewrite wp_bind. unfold wp at 1. fold c3. destruct (on_store b (write_node key.1 key.2 bytes) c3) as [c4 [written|e]]; cbn in L4; [|exact L4].
  destruct (negb _); [done|]. apply wp_lens_step; [by apply lens_update|done|done].
Qed.

Lemma lens_sync b node : Prelude.keeps lens_kept (sync b node).
Proof. unfold sync, sync_pages. lens_steps. apply lens_sync_page. Qed.

Lemma lens_sync_all b : Prelude.keeps lens_kept (sync_all b).
Proof. unfold sync_all, sync_pages. lens_steps. apply lens_sync_page. Qed.

(** ** Accounting, forks and removal *)

Lemma lens_pages_in_branch b keys ids : Prelude.keeps lens_kept (pages_in_branch b keys ids).
Proof. revert ids. induction keys as [|k keys IH]; intros ids; cbn [pages_in_branch]; lens_steps. apply IH. Qed.

Lemma lens_page_accounting requested : Prelude.keeps lens_kept (page_accounting requested).
Proof.
  unfold page_accounting. apply keeps_bind; [apply _| |intros ?; lens_steps].
  generalize (∅ : gmap N N). induction requested as [|b rest IH]; intros refs; cbn [account_branches]; lens_steps.
  - apply lens_pages_in_branch.
  - apply IH.
Qed.

(** A child's files are as long as its source's. *)
Lemma wp_fork_lens source c :
  c_branches c !! c_next_branch c = None ->
  wp (fork source)
    (fun child c' => lens_kept c c' /\ exists br br', c_branches c !! source = Some br /\
       c_branches c' !! child = Some br' /\ same_len (store br) (store br'))
    (fun _ c' => lens_kept c c') c.
Proof.
  intros Hfresh. unfold fork. wp_steps. apply wp_branch_mut; [|done]. intros br Hb.
  case_decide; [wp_steps; reflexivity|]. wp_steps.
  eapply (wp_on_store_keeps (fun child => view_eq (store br) child) (fun _ => True)); [done| | |].
  { eapply wp_mono; [apply law_fork| |]; cbn; [|done]. intros child ws [? ?]. done. }
  2:{ intros e c1 _ [E1 _] b0 br0 Hb0. destruct (ext_lookup _ _ _ _ E1 Hb0) as (br1 & ? & (_ & _ & Hl) & _).
      by exists br1. }
  intros child_store c1 (_ & _ & Hlen) [E1 _].
  assert (lens_kept c c1) as L1.
  { intros b0 br0 Hb0. destruct (ext_lookup _ _ _ _ E1 Hb0) as (br2 & ? & (_ & _ & Hl) & _). by exists br2. }
  wp_steps. apply wp_branch_mut; [|done]. intros br1 Hb1.
  destruct (Dirty.fork (dirty_pages br1)) as [d' child_dirty]. unfold put_branch. wp_steps.
  set (c2 := set_branches _ c1). assert (lens_kept c c2) as L2.
  { etrans; [exact L1|]. by eapply lens_put. }
  destruct (checked_add _ 1) as [next|]; [|done]. wp_steps. cbn. split.
  - intros b0 br0 Hb0. destruct (L2 _ _ Hb0) as (br2 & Hb2 & Hl2). exists br2. split; [|done].
    cbn. rewrite lookup_insert_ne; [done|]. rewrite (ext_next_branch _ _ E1). congruence.
  - exists br. eexists. split; [done|]. split; [apply lookup_insert_eq|done].
Qed.

(** Removing a branch touches no other. *)
Lemma wp_remove_lens b c :
  wp (remove_branch b)
    (fun _ c' => lens_kept (set_branches (delete b (c_branches c)) c) c')
    (fun _ c' => lens_kept (set_branches (delete b (c_branches c)) c) c') c.
Proof.
  assert (lens_kept (set_branches (delete b (c_branches c)) c) c) as L0.
  { intros b0 br0. cbn. intros [Hne Hb0]%lookup_delete_Some. by exists br0. }
  unfold remove_branch. wp_steps. apply wp_branch_mut; [|done]. intros br Hb. case_decide; [done|]. wp_steps.
  assert (forall keys bs vis, Prelude.keeps lens_kept (visible_identities (W := W) (S := S) (Id := Id) keys bs vis)) as Hvis.
  { induction keys as [|key keys IH]; intros bs vis; cbn [visible_identities]; lens_steps; [|apply IH].
    revert vis. induction bs as [|b0 bs IHb]; intros vis; cbn [visible_in]; lens_steps. apply IHb. }
  apply (wp_keeps lens_kept); [apply Hvis| |done].
  intros vis c' L'. wp_steps. etrans; [exact L'|by apply lens_same].
Qed.

End laws.

(** ** Open files

    Only [open] and [close] change which files of a branch are open. *)

Section opens.
Context {W S Id : Type} `{Countable Id} `{!ForkableNodeStore W S Id}.

Implicit Types (c : Cache W S Id) (b : N) (node : NodeId).

Definition opens_kept c c' : Prop :=
  forall b br, c_branches c !! b = Some br ->
    exists br', c_branches c' !! b = Some br' /\ open_nodes br' = open_nodes br.

#[export] Instance opens_kept_preorder : PreOrder opens_kept.
Proof.
  split.
  - intros c b br Hb. by exists br.
  - intros c1 c2 c3 H12 H23 b br (br2 & Hb2 & <-)%H12. by apply H23.
Qed.

Lemma opens_same c c' : c_branches c' = c_branches c -> opens_kept c c'.
Proof. intros Heq b br Hb. exists br. by rewrite Heq. Qed.

Lemma opens_put c b br br' : c_branches c !! b = Some br -> open_nodes br' = open_nodes br ->
  opens_kept c (set_branches (<[b := br']> (c_branches c)) c).
Proof.
  intros Hb Hs b0 br0 Hb0. cbn. destruct (decide (b0 = b)) as [->|Hne].
  - rewrite lookup_insert_eq. exists br'. split; [done|]. by assert (br0 = br) as -> by congruence.
  - rewrite lookup_insert_ne by done. by exists br0.
Qed.

Lemma opens_branch {A} b (f : CacheBranch S -> M (Cache W S Id) CacheError A) :
  (forall c br, c_branches c !! b = Some br -> opens_kept c (f br c).1) ->
  Prelude.keeps opens_kept (branch_mut b ≫= f).
Proof.
  intros Hf c. unfold mbind, M_bind, branch_mut. destruct (c_branches c !! b) as [br|] eqn:Hb; [by apply Hf|done].
Qed.

Lemma opens_on_store {A} b (f : M (W * S) io_error A) : Prelude.keeps opens_kept (on_store b f).
Proof.
  apply opens_branch. intros c br Hb. unfold mbind, M_bind, get, put_branch, modify, lift.
  destruct (f (c_world c, store br)) as [[w' s'] r]. by apply (opens_put (set_world w' c) b br).
Qed.

Lemma opens_io {A} (f : IO A) : Prelude.keeps opens_kept (io (W := W) (S := S) f).
Proof. apply (keeps_zoom (fun _ _ => True)); [intros c h _; by apply opens_same|done]. Qed.

Ltac opens_step :=
  lazymatch goal with
  | |- Prelude.keeps _ (on_store _ _) => apply opens_on_store
  | |- Prelude.keeps _ (with_store_mut _ _) => apply opens_on_store
  | |- Prelude.keeps _ (io _) => apply opens_io
  | |- Prelude.keeps _ (modify _) => apply keeps_modify; intros; by apply opens_same
  | |- Prelude.keeps _ (br ← branch_mut _; put_branch _ (@?f br)) =>
      apply opens_branch; let c := fresh in let br := fresh in intros c br ?; by apply opens_put with br
  | |- Prelude.keeps _ (branch_mut _) => intros c; unfold branch_mut; by destruct (c_branches c !! _)
  | _ => keeps_step
  end.
Ltac opens_steps := repeat (opens_step; cbv beta zeta).

Lemma opens_from_bytes bytes : Prelude.keeps opens_kept (from_bytes (W := W) (S := S) bytes).
Proof. unfold from_bytes. opens_steps. Qed.

Lemma opens_load_page b i node offset : Prelude.keeps opens_kept (load_page b i node offset).
Proof. unfold load_page. opens_steps. apply opens_from_bytes. Qed.

Lemma opens_any_sees bs i node offset : Prelude.keeps opens_kept (any_sees bs i node offset).
Proof. induction bs as [|b bs IH]; cbn [any_sees]; opens_steps. done. Qed.

Lemma opens_copy_page b i p node offset : Prelude.keeps opens_kept (copy_page b i p node offset).
Proof.
  unfold copy_page, duplicate, retire_identity. opens_steps; [apply opens_from_bytes|apply opens_any_sees].
Qed.

Lemma opens_activate b key flags p : Prelude.keeps opens_kept (activate b key flags p).
Proof.
  unfold activate. apply keeps_bind; [apply _|opens_steps|intros _]. apply opens_branch. intros c br Hb.
  by apply opens_put with br.
Qed.

Lemma opens_map_page b node offset flags : Prelude.keeps opens_kept (map_page b node offset flags).
Proof.
  unfold map_page. opens_steps; [apply opens_load_page|apply opens_copy_page|apply opens_activate].
Qed.

Lemma opens_unmap b m : Prelude.keeps opens_kept (unmap (W := W) (S := S) b m).
Proof.
  unfold unmap. apply keeps_bind; [apply _|opens_steps|intros c0]. destruct (negb _); [opens_steps|].
  apply opens_branch. intros c br Hb.
  destruct (active_pages br !! _) as [count|]; [|done]. destruct (checked_sub count 1); [|done].
  apply opens_put with br; [done|]. by destruct (WRITE _).
Qed.

Lemma opens_sync_all b : Prelude.keeps opens_kept (sync_all b).
Proof. unfold sync_all, sync_pages, sync_page. opens_steps. Qed.

Lemma on_store_next {A} b (f : M (W * S) io_error A) :
  Prelude.keeps (fun c c' => c_next_branch c' = c_next_branch c) (on_store (Id := Id) b f).
Proof.
  intros c. unfold on_store, mbind, M_bind, branch_mut, get, put_branch, modify, lift.
  destruct (c_branches c !! b) as [br|]; [|done]. by destruct (f (c_world c, store br)) as [[w' s'] r].
Qed.

(** A fork opens nothing in the branches there were. *)
Lemma wp_fork_opens source c : c_branches c !! c_next_branch c = None ->
  wp (fork source) (fun _ => opens_kept c) (fun _ => opens_kept c) c.
Proof.
  intros Hfresh. unfold fork. wp_steps. apply wp_branch_mut; [|done]. intros br Hb.
  case_decide; [wp_steps; reflexivity|]. wp_steps. eapply wp_and_keeps; [apply on_store_next|].
  apply (wp_keeps opens_kept); [apply opens_on_store| |done]. intros child_store c1 O1 N1.
  wp_steps. apply wp_branch_mut; [|done]. intros br1 Hb1.
  destruct (Dirty.fork (dirty_pages br1)) as [d' child_dirty]. unfold put_branch. wp_steps.
  set (c2 := set_branches _ c1). assert (opens_kept c c2) as O2 by (etrans; [exact O1|by eapply opens_put]).
  destruct (checked_add _ 1) as [next|]; [|done]. wp_steps.
  intros b0 br0 Hb0. destruct (O2 _ _ Hb0) as (br2 & Hb2 & Ho2). exists br2. split; [|done].
  cbn. rewrite lookup_insert_ne; [done|]. rewrite N1. congruence.
Qed.

(** The file is not open in the branch. *)
Definition shut c b node : Prop :=
  forall br, c_branches c !! b = Some br -> default 0 (open_nodes br !! node) = 0.

Lemma shut_kept c c' b node : opens_kept c c' -> is_Some (c_branches c !! b) -> shut c b node -> shut c' b node.
Proof.
  intros Hk [br Hb] Hs br' Hb'. destruct (Hk _ _ Hb) as (br2 & Hb2 & Ho).
  assert (br2 = br') as -> by congruence. rewrite Ho. by apply Hs.
Qed.

(** A page of a file that is not open cannot be mapped. *)
Lemma wp_map_shut b node offset flags Q (R : CacheError -> Cache W S Id -> Prop) c :
  shut c b node -> (forall e, R e c) -> wp (map_page b node offset flags) Q R c.
Proof.
  intros Hs HR. unfold map_page. destruct (negb _); [apply HR|]. destruct (negb _); [apply HR|]. wp_steps.
  apply wp_branch_mut; [|intros _; apply HR]. intros br Hb. rewrite (Hs br Hb). apply HR.
Qed.

End opens.
