(* ===== verification/SharedCacheForeign.v ===== *)
(** * Several shared caches in one process

    Caches share the host's temporary files, the world of their stores and the
    counters.  An operation of one cache leaves the files of another alone and
    takes back no identity, so the other cache stays in order and its branches
    see what they saw. *)

From S2P Require Import Prelude Generations Host CacheTypes DirtyPages SharedCache SharedCacheInv SharedCacheSteps SharedCacheOps SharedCacheIO SharedCacheLife SharedCacheLens.
Import Shared.

(** [careful I P k Q m]: [m] costs at most [k] of a budget.  From a state in
    [I] with a budget of [k + n] it ends in [I] with a budget of [n], changes
    the state by [P], and what it returns is in [Q]. *)
Definition careful {St E A} (I : N -> St -> Prop) (P : relation St) (k : N) (Q : A -> Prop) (m : M St E A) : Prop :=
  forall n s, I (k + n) s -> I n (m s).1 /\ P s (m s).1 /\ forall a, (m s).2 = Ok a -> Q a.

Abbreviation anything := (fun _ => True).

(** A smaller budget will do. *)
Class Budget {St} (I : N -> St -> Prop) : Prop := budget_less m n s : m <= n -> I n s -> I m s.

Section careful.
Context {St E : Type} (I : N -> St -> Prop) (P : relation St) `{!PreOrder P} `{!Budget I}.

Lemma careful_le {A} k k' (Q : A -> Prop) (m : M St E A) : careful I P k Q m -> k <= k' -> careful I P k' Q m.
Proof. intros Hm Hk n s Hs. apply Hm. eapply budget_less; [|exact Hs]. lia. Qed.
Lemma careful_pure {A} k (Q : A -> Prop) (m : M St E A) :
  (forall s, (m s).1 = s) -> (forall n s a, I n s -> (m s).2 = Ok a -> Q a) -> careful I P k Q m.
Proof.
  intros Hs HQ n s Hn. rewrite Hs. split; [eapply budget_less; [|exact Hn]; lia|]. split; [reflexivity|].
  intros a. by eapply HQ.
Qed.
Lemma careful_ret {A} k (Q : A -> Prop) a : Q a -> careful (E := E) I P k Q (mret a).
Proof. intros Ha. apply careful_pure; [done|]. by intros n s a' _ [= <-]. Qed.
Lemma careful_any {A} k (a : A) : careful (E := E) I P k anything (mret a).
Proof. by apply careful_ret. Qed.
Lemma careful_throw {A} k (Q : A -> Prop) (e : E) : careful I P k Q (throw e).
Proof. by apply careful_pure. Qed.
Lemma careful_get k : careful (E := E) I P k (I 0) get.
Proof. apply careful_pure; [done|]. intros n s a Hs [= <-]. eapply budget_less; [|exact Hs]. lia. Qed.
Lemma careful_gets {A} k (f : St -> A) : careful (E := E) I P k anything (gets f).
Proof. by apply careful_pure. Qed.
Lemma careful_lift {A} k (r : result E A) : careful I P k anything (lift r).
Proof. by apply careful_pure. Qed.
Lemma careful_modify (f : St -> St) : (forall n s, I n s -> I n (f s) /\ P s (f s)) -> careful (E := E) I P 0 anything (modify f).
Proof. intros Hf n s Hs. by destruct (Hf n s Hs). Qed.
Lemma careful_bind {A B} k k1 k2 (Q : A -> Prop) (Q' : B -> Prop) (m : M St E A) (f : A -> M St E B) :
  careful I P k1 Q m -> (forall a, Q a -> careful I P k2 Q' (f a)) -> k1 + k2 <= k -> careful I P k Q' (m ≫= f).
Proof.
  intros Hm Hf Hk n s Hs. eapply budget_less with (m := k1 + (k2 + n)) in Hs; [|lia].
  destruct (Hm (k2 + n) s Hs) as (H1 & H2 & H3). unfold mbind, M_bind.
  destruct (m s) as [s' [a|e]]; cbn in *.
  - destruct (Hf a (H3 a eq_refl) n s' H1) as (H4 & H5 & H6). split_and!; [done| |done]. by etrans.
  - split_and!; [|done|done]. eapply budget_less; [|exact H1]. lia.
Qed.
(** Only the rest costs. *)
Lemma careful_then {A B} k (Q : A -> Prop) (Q' : B -> Prop) (m : M St E A) (f : A -> M St E B) :
  careful I P 0 Q m -> (forall a, Q a -> careful I P k Q' (f a)) -> careful I P k Q' (m ≫= f).
Proof. intros Hm Hf. by eapply careful_bind. Qed.
Lemma careful_attempt {A} k (Q : A -> Prop) (m : M St E A) : careful I P k Q m -> careful (E := E) I P k anything (attempt m).
Proof. intros Hm n s Hs. destruct (Hm n s Hs) as (H1 & H2 & _). unfold attempt. by destruct (m s). Qed.
Lemma careful_for_each {A} (f : A -> M St E unit) l :
  (forall a, careful I P 0 anything (f a)) -> careful I P 0 anything (for_each f l).
Proof.
  intros Hf. induction l as [|a l IH]; cbn; [by apply careful_ret|]. by eapply careful_then; [apply Hf|].
Qed.
End careful.

Lemma careful_with_err {St E F A} I P k (Q : A -> Prop) (f : E -> F) (m : M St E A) :
  careful I P k Q m -> careful I P k Q (with_err f m).
Proof.
  intros Hm n s Hs. destruct (Hm n s Hs) as (H1 & H2 & H3). unfold with_err.
  destruct (m s) as [s' [a|e]]; cbn in *; split_and!; try done. intros a' [= <-]. by apply H3.
Qed.

Ltac careful_step :=
  lazymatch goal with
  | |- careful _ _ _ _ (mbind _ _) => eapply careful_then; [apply _..| |intros ? ?]
  | |- careful _ _ _ _ (mret _) => first [apply careful_any; apply _|apply careful_ret; [apply _..|try done]]
  | |- careful _ _ _ _ (throw _) => apply careful_throw; apply _
  | |- careful _ _ _ _ get => apply careful_get; apply _
  | |- careful _ _ _ _ (gets _) => apply careful_gets; apply _
  | |- careful _ _ _ _ (lift _) => apply careful_lift; apply _
  | |- careful _ _ _ _ (attempt _) => eapply careful_attempt
  | |- careful _ _ _ _ (for_each _ _) => apply careful_for_each; [apply _..|intros ?]
  | |- careful _ _ _ _ (with_err _ _) => apply careful_with_err
  | |- careful _ _ _ _ (if ?b then _ else _) => destruct b eqn:?
  | |- careful _ _ _ _ (match ?x with _ => _ end) => destruct x eqn:?
  end.

(** ** The files of others *)

Section spared.
Context (F : FileId -> Prop).

(** Every file of [F] exists. *)
Definition below (h : Host) : Prop := forall f, F f -> f < h_next_file h.

Record spares_host (h h' : Host) : Prop := {
  sh_files f : F f -> h_files h' !! f = h_files h !! f;
  sh_next : h_next_file h <= h_next_file h'
}.

#[export] Instance spares_host_preorder : PreOrder spares_host.
Proof.
  split; [by split|]. intros h1 h2 h3 [A1 A2] [B1 B2]. split; [|lia]. intros f Hf. by rewrite B1, A1.
Qed.

#[export] Instance below_budget : Budget (fun _ => below).
Proof. by intros m n h _ Hb. Qed.

Abbreviation host_careful := (careful (fun _ => below) spares_host 0).

Lemma careful_host (f : Host -> Host) :
  (forall h, spares_host h (f h)) -> host_careful anything (modify f : IO unit).
Proof.
  intros Hf. apply careful_modify. intros _ h Hb. split; [|apply Hf]. intros g Hg.
  eapply N.lt_le_trans; [by apply Hb|apply Hf].
Qed.

Lemma careful_syscall : host_careful anything syscall.
Proof.
  intros n h Hb. unfold syscall. destruct (h_sched h) as [|[e|k|] rest]; split_and!; try done; by split.
Qed.

Lemma careful_set_file f g : ~ F f -> host_careful anything (modify (fun h => set_files (<[f := g h]> (h_files h)) h) : IO unit).
Proof. intros Hf. apply careful_host. intros h. split; [|done]. intros f' Hf'. cbn. by rewrite lookup_insert_ne by congruence. Qed.

Lemma careful_tempfile : host_careful (fun f => ~ F f) tempfile.
Proof.
  unfold tempfile. eapply careful_then; [apply _..|apply careful_syscall|intros ? _].
  intros n h Hb. unfold mbind, M_bind, get, modify, mret, M_ret. cbn. split_and!.
  - intros f Hf. specialize (Hb f Hf). cbn. lia.
  - split; cbn; [|lia]. intros f Hf%Hb. by rewrite lookup_insert_ne by lia.
  - intros f [= <-] Hf%Hb. lia.
Qed.

Lemma careful_set_len f n : ~ F f -> host_careful anything (set_len f n).
Proof.
  intros Hf. unfold set_len. eapply careful_then; [apply _..|apply careful_syscall|intros ? _].
  by apply (careful_set_file f (fun h => resize_bytes n (file_bytes h f))).
Qed.

Lemma careful_read_exact_at f n off : host_careful anything (read_exact_at f n off).
Proof.
  unfold read_exact_at. generalize (N.to_nat n) as fuel. intros fuel. revert n off.
  induction fuel as [|fuel IH]; intros n off; cbn [read_exact_loop]; [by careful_step|].
  destruct (n =? 0); [by careful_step|]. unfold read_at.
  repeat careful_step; [apply careful_syscall|apply IH].
Qed.

Lemma careful_write_all_at f bytes off : ~ F f -> host_careful anything (write_all_at f bytes off).
Proof.
  intros Hf. unfold write_all_at. generalize (length bytes) as fuel. intros fuel. revert bytes off.
  induction fuel as [|fuel IH]; intros bytes off; cbn [write_all_loop]; [by careful_step|].
  destruct (lenN bytes =? 0); [by careful_step|]. unfold write_at.
  repeat (careful_step; cbv zeta); [apply careful_syscall| |apply IH].
  by apply (careful_set_file f (fun h => file_write off (slice 0 _ bytes) (file_bytes h f))).
Qed.
End spared.

(** A store method takes back no identity and uses none up. *)
Definition world_kept {W S Id A} `{!StoreView W S Id} (f : M (W * S) io_error A) : Prop :=
  forall ws, world_le ws.1 (f ws).1.1.

(** A store method takes back no identity and uses up one at most. *)
Definition world_used {W S Id A} `{!StoreView W S Id} (f : M (W * S) io_error A) : Prop :=
  forall ws n, w_room ws.1 (1 + n) -> (forall i, w_issued ws.1 i -> w_issued (f ws).1.1 i) /\ w_room (f ws).1.1 n.

Class WorldLaws (W S Id : Type) `{!ForkableNodeStore W S Id} `{!StoreView W S Id} : Prop := {
  world_identity node offset : world_kept (page_identity node offset);
  world_prepare node offset : world_used (prepare_page_write node offset);
  world_fork : world_kept fork_store;
  world_len node : world_kept (ns_len node);
  world_read node offset n : world_kept (read_node node offset n);
  world_write node offset bytes : world_kept (write_node node offset bytes);
  world_open node : world_kept (on_open_node node);
  world_close node : world_kept (on_close_node node)
}.

Section foreign.
Context {W S Id : Type} `{Countable Id} `{!ForkableNodeStore W S Id} `{!StoreView W S Id} `{!StoreLaws W S Id}
  `{!WorldLaws W S Id}.
Context (F : FileId -> Prop).

Implicit Types (c : Cache W S Id) (b : N) (p : CachePage) (m : DaxPageMapping).

(** No page of the cache is in a file of [F], and [n] more pages and
    identities fit the counters. *)
Record clear (n : N) c : Prop := {
  cl_below : below F (c_host c);
  cl_pages i p : c_pages c !! i = Some p -> ~ F (cp_backing p);
  cl_budget : budget n c
}.

Record spares c c' : Prop := {
  sp_id : c_id c' = c_id c;
  sp_host : spares_host F (c_host c) (c_host c');
  sp_next_page : c_next_page_id c <= c_next_page_id c';
  sp_issued i : w_issued (c_world c) i -> w_issued (c_world c') i
}.

#[export] Instance spares_preorder : PreOrder spares.
Proof.
  split; [by split|]. intros c1 c2 c3 [A0 A1 A2 A3] [B0 B1 B2 B3]. split; [congruence|by etrans|lia|auto].
Qed.

#[export] Instance clear_budget : Budget clear.
Proof.
  intros m n c Hle [H1 H2 [H3 H4]]. split; [done|done|]. split; [lia|by eapply w_room_le].
Qed.

Abbreviation cache_careful := (careful clear spares).

Definition outside p : Prop := ~ F (cp_backing p).

Lemma careful_io {A} k (Q : A -> Prop) (f : IO A) :
  careful (fun _ => below F) (spares_host F) 0 Q f -> cache_careful k Q (io (W := W) (S := S) (Id := Id) f).
Proof.
  intros Hf. apply (careful_le _ _ 0); [|lia]. intros n c [Hb Hp Hbud]. destruct (Hf n (c_host c) Hb) as (H1 & H2 & H3). unfold io, zoom, with_err.
  destruct (f (c_host c)) as [h [a|e]]; cbn in *; split_and!; try done; intros a' [= <-]; by apply H3.
Qed.

Lemma careful_on_store {A} k b (f : M (W * S) io_error A) : world_kept f -> cache_careful k anything (on_store b f).
Proof.
  intros Hf. apply (careful_le _ _ 0); [|lia]. intros n c [Hb Hp [Hn Hw]]. unfold on_store, mbind, M_bind, branch_mut, get, put_branch, modify, lift.
  destruct (c_branches c !! b) as [br|] eqn:Hbr; [|by split_and!].
  destruct (Hf (c_world c, store br)) as [Hi Hr]. destruct (f (c_world c, store br)) as [[w' s'] r]. cbn in *.
  split_and!; [|by split|done]. split; [done|done|]. split; [done|by apply Hr].
Qed.

Lemma careful_use_store {A} b (f : M (W * S) io_error A) : world_used f -> cache_careful 1 anything (on_store b f).
Proof.
  intros Hf n c Hc. pose proof Hc as [Hb Hp [Hn Hw]]. unfold on_store, mbind, M_bind, branch_mut, get, put_branch, modify, lift.
  destruct (c_branches c !! b) as [br|] eqn:Hbr.
  - destruct (Hf (c_world c, store br) n Hw) as [Hi Hr]. destruct (f (c_world c, store br)) as [[w' s'] r]. cbn in *.
    split_and!; [|by split|done]. split; [done|done|]. split; [cbn; lia|done].
  - split; [eapply budget_less; [|exact Hc]; lia|done].
Qed.

(** Changes of the cache's own records. *)
Lemma careful_records k (f : Cache W S Id -> Cache W S Id) :
  (forall c, c_id (f c) = c_id c /\ c_host (f c) = c_host c /\ c_world (f c) = c_world c /\
     c_next_page_id (f c) = c_next_page_id c) ->
  (forall n c i p, clear n c -> c_pages (f c) !! i = Some p -> outside p) ->
  cache_careful k anything (modify f : M (Cache W S Id) CacheError unit).
Proof.
  intros Hf Hp. apply (careful_le _ _ 0); [|lia]. apply careful_modify. intros n c Hc. destruct (Hf c) as (Hid & Hh & Hw & Hn). split.
  - split; [rewrite Hh; apply Hc|intros i p; by eapply Hp|]. unfold budget. rewrite Hw, Hn. apply Hc.
  - split; [done|by rewrite Hh|by rewrite Hn|by rewrite Hw].
Qed.

Lemma careful_branch_mut k b : cache_careful k anything (branch_mut (W := W) (S := S) (Id := Id) b).
Proof. apply careful_pure; try apply _; [|done]. intros c. unfold branch_mut. by destruct (c_branches c !! b). Qed.

Lemma careful_put_branch k b br : cache_careful k anything (put_branch (W := W) (S := S) (Id := Id) b br).
Proof. apply careful_records; [done|]. intros n c i p Hc. apply Hc. Qed.

Lemma careful_add_page k (i : Id) p : outside p ->
  cache_careful k anything (modify (fun c => set_pages (<[i := p]> (c_pages c)) c) : M (Cache W S Id) CacheError unit).
Proof.
  intros Hp. apply careful_records; [done|]. intros n c j q Hc. cbn.
  rewrite lookup_insert_Some. intros [[_ <-]|[_ Hq]]; [done|by eapply cl_pages].
Qed.

Ltac foreign_step :=
  lazymatch goal with
  | |- careful _ _ _ _ (io (read_exact_at _ _ _)) => eapply careful_io; apply careful_read_exact_at
  | |- careful _ _ _ _ (io tempfile) => eapply careful_io; apply careful_tempfile
  | |- careful _ _ _ _ (io (set_len _ _)) => eapply careful_io; apply careful_set_len; try assumption
  | |- careful _ _ _ _ (io (write_all_at _ _ _)) => eapply careful_io; apply careful_write_all_at; try assumption
  | |- careful _ _ _ _ (on_store _ (page_identity _ _)) => apply careful_on_store; apply world_identity
  | |- careful _ _ _ _ (on_store _ fork_store) => apply careful_on_store; apply world_fork
  | |- careful _ _ _ _ (on_store _ (ns_len _)) => apply careful_on_store; apply world_len
  | |- careful _ _ _ _ (on_store _ (read_node _ _ _)) => apply careful_on_store; apply world_read
  | |- careful _ _ _ _ (on_store _ (write_node _ _ _)) => apply careful_on_store; apply world_write
  | |- careful _ _ _ _ (on_store _ (on_open_node _)) => apply careful_on_store; apply world_open
  | |- careful _ _ _ _ (on_store _ (on_close_node _)) => apply careful_on_store; apply world_close
  | |- careful _ _ _ _ (branch_mut _) => apply careful_branch_mut
  | |- careful _ _ _ _ (put_branch _ _) => apply careful_put_branch
  | |- careful _ _ _ _ (with_store_mut _ _) => unfold with_store_mut
  | |- careful _ _ _ _ (modify (fun c => set_pages (<[_ := _]> _) c)) => apply careful_add_page; try assumption
  | |- careful _ _ _ _ (modify _) => apply careful_records; [done|intros ? ? ? ? Hcl; cbn; try apply Hcl]
  | _ => careful_step
  end.
Ltac foreign_steps := repeat (foreign_step; cbv beta zeta).

Lemma foreign_from_bytes bytes : cache_careful 1 outside (from_bytes (W := W) (S := S) (Id := Id) bytes).
Proof.
  unfold from_bytes. do 3 (foreign_step; [foreign_step|]). intros n c Hc. pose proof Hc as [Hb Hp [Hn Hw]].
  unfold mbind, M_bind, get, modify, mret, M_ret. cbn. rewrite wrapping_add_small by lia. split_and!.
  - split; [done|done|]. split; cbn; [lia|]. eapply w_room_le; [exact Hw|lia].
  - split; cbn; [done|done|lia|done].
  - by intros q [= <-].
Qed.

Lemma foreign_load_page b i node offset : cache_careful 1 outside (load_page b i node offset).
Proof.
  unfold load_page. foreign_step; [foreign_step|]. foreign_step; [foreign_step; by eapply cl_pages|].
  foreign_step; [foreign_step|]. eapply (careful_bind _ _ 1 1 0); [apply _..|apply foreign_from_bytes| |lia].
  intros p Hp. foreign_steps.
Qed.

Lemma foreign_any_sees k bs i node offset : cache_careful k anything (any_sees bs i node offset).
Proof. induction bs as [|b bs IH]; cbn [any_sees]; foreign_steps. done. Qed.

Lemma foreign_copy_page b i p node offset : cache_careful 2 outside (copy_page b i p node offset).
Proof.
  unfold copy_page, duplicate, retire_identity.
  eapply (careful_bind _ _ 2 1 1); [apply _..|foreign_step; [foreign_step|apply foreign_from_bytes]| |lia].
  intros q Hq. eapply (careful_bind _ _ 1 1 0); [apply _..|apply careful_use_store, world_prepare| |lia].
  intros j _. foreign_steps; [apply foreign_any_sees|].
  rewrite lookup_delete_Some. intros [_ Hp]. by eapply cl_pages.
Qed.

Lemma foreign_activate k b key flags p : outside p ->
  cache_careful k (fun m => outside (m_page m)) (activate (W := W) (S := S) (Id := Id) b key flags p).
Proof. intros Hp. unfold activate. foreign_steps. Qed.

Lemma foreign_map_page b node offset flags :
  cache_careful 3 (fun m => outside (m_page m)) (map_page b node offset flags).
Proof.
  unfold map_page. foreign_step; [foreign_steps|]. foreign_step; [foreign_steps|]. cbv zeta.
  foreign_step; [foreign_steps|]. foreign_step; [foreign_steps|]. foreign_step; [foreign_steps|].
  eapply (careful_bind _ _ 3 1 2); [apply _..|apply foreign_load_page| |lia]. intros p Hp.
  foreign_step; [foreign_steps|]. destruct (_ && (0 <? _)); [foreign_steps|].
  eapply (careful_bind _ _ 2 2 0 outside); [|intros q Hq; by apply foreign_activate|lia].
  destruct (WRITE flags && _); [apply foreign_copy_page|foreign_steps].
Qed.

Lemma foreign_unmap k b m : cache_careful k anything (unmap (W := W) (S := S) (Id := Id) b m).
Proof. unfold unmap. foreign_steps. Qed.

Lemma foreign_open k b node : cache_careful k anything (open b node).
Proof. unfold open. foreign_steps. Qed.

Lemma foreign_close k b node : cache_careful k anything (close b node).
Proof. unfold close. foreign_steps. Qed.

Lemma foreign_read_loop fuel b node end_ cursor :
  cache_careful (3 * N.of_nat fuel) anything (read_loop fuel b node end_ cursor).
Proof.
  revert cursor. induction fuel as [|fuel IH]; intros cursor; cbn [read_loop]; [foreign_steps|].
  destruct (cursor <? end_); [|foreign_steps]. cbv zeta.
  eapply (careful_bind _ _ _ 3 (3 * N.of_nat fuel)); [apply _..|apply foreign_map_page| |lia]. intros m Hm.
  foreign_step; [foreign_steps|]. foreign_step; [apply foreign_unmap|].
  eapply (careful_bind _ _ _ _ 0); [apply _..|apply IH|intros ? ?; foreign_steps|lia].
Qed.

Lemma foreign_read b node offset len : cache_careful (3 * len) anything (read b node offset len).
Proof.
  unfold read. foreign_step; [foreign_steps|]. destruct (_ || _); [foreign_steps|]. cbv zeta.
  destruct (checked_add _ _); [|foreign_steps]. eapply (careful_le _ _ _ (3 * len)); [apply foreign_read_loop|lia].
Qed.

Lemma foreign_write_loop fuel b node offset bytes end_ cursor :
  cache_careful (3 * N.of_nat fuel) anything (write_loop fuel b node offset bytes end_ cursor).
Proof.
  revert cursor. induction fuel as [|fuel IH]; intros cursor; cbn [write_loop]; [foreign_steps|].
  destruct (cursor <? end_); [|foreign_steps]. cbv zeta.
  eapply (careful_bind _ _ _ 3 (3 * N.of_nat fuel)); [apply _..|apply foreign_map_page| |lia]. intros m Hm.
  foreign_step; [foreign_steps; done|]. foreign_step; [apply foreign_unmap|]. apply IH.
Qed.

Lemma foreign_write b node offset bytes : cache_careful (3 * lenN bytes) anything (write b node offset bytes).
Proof.
  unfold write. destruct (checked_add _ _) as [end_|]; [|foreign_steps]. foreign_step; [foreign_steps|].
  destruct (_ <? end_); [foreign_steps|].
  eapply (careful_bind _ _ _ _ 0); [apply _..|apply foreign_write_loop|intros ? ?; foreign_steps|unfold lenN; lia].
Qed.

Lemma foreign_sync_page b key : cache_careful 0 anything (sync_page b key).
Proof. unfold sync_page. foreign_steps. Qed.

Lemma foreign_sync b node : cache_careful 0 anything (sync b node).
Proof. unfold sync, sync_pages. foreign_steps. apply foreign_sync_page. Qed.

Lemma foreign_sync_all b : cache_careful 0 anything (sync_all b).
Proof. unfold sync_all, sync_pages. foreign_steps. apply foreign_sync_page. Qed.

Lemma foreign_fork k b : cache_careful k anything (fork b).
Proof. unfold fork. foreign_steps. Qed.

Lemma foreign_remove_branch k b : cache_careful k anything (remove_branch b).
Proof.
  assert (forall bs key vis, cache_careful 0 anything (visible_in (W := W) (S := S) (Id := Id) bs key vis)) as Hin.
  { induction bs as [|b0 bs IH]; intros key vis; cbn [visible_in]; foreign_steps. apply IH. }
  assert (forall keys bs vis, cache_careful 0 anything (visible_identities (W := W) (S := S) (Id := Id) keys bs vis)) as Hvis.
  { induction keys as [|key keys IH]; intros bs vis; cbn [visible_identities]; foreign_steps; [apply Hin|apply IH]. }
  unfold remove_branch. foreign_steps; [apply Hvis|]. intros [Hp _]%map_lookup_filter_Some. by eapply cl_pages.
Qed.

Lemma foreign_page_accounting k requested : cache_careful k anything (page_accounting requested).
Proof.
  assert (forall b keys ids, cache_careful 0 anything (pages_in_branch (W := W) (S := S) (Id := Id) b keys ids)) as Hin.
  { intros b. induction keys as [|key keys IH]; intros ids; cbn [pages_in_branch]; foreign_steps. apply IH. }
  unfold page_accounting. eapply careful_then; [apply _..| |intros ? _; foreign_steps].
  generalize (∅ : gmap N N). induction requested as [|b rest IH]; intros refs; cbn [account_branches]; foreign_steps;
    [apply Hin|apply IH].
Qed.

End foreign.
