(* ===== verification/Identity.v ===== *)
(** * File-page identities (crates/minidox-redoxfs/src/branching.rs)

    Every page of a file has an identity: the file's object number, the page
    index, and a version that is new after every write.  A branch keeps its
    own changes over a chain of shared, immutable generations, so that a fork
    costs nothing and both sides agree on every identity until one writes. *)

From S2P Require Import Prelude Generations Host CacheTypes.

(** The process-wide counters; [fetch_add] wraps at 64 bits. *)
Record Statics := mkStatics {
  next_block_id : N;
  next_file_object_id : N;
  next_page_version : N;
  next_durable_layer_id : N
}.

Definition initial_statics : Statics := mkStatics 1 1 1 1.

Definition set_next_block_id (n : N) (g : Statics) : Statics :=
  mkStatics n (next_file_object_id g) (next_page_version g) (next_durable_layer_id g).
Definition set_next_file_object_id (n : N) (g : Statics) : Statics :=
  mkStatics (next_block_id g) n (next_page_version g) (next_durable_layer_id g).
Definition set_next_page_version (n : N) (g : Statics) : Statics :=
  mkStatics (next_block_id g) (next_file_object_id g) n (next_durable_layer_id g).
Definition set_next_durable_layer_id (n : N) (g : Statics) : Statics :=
  mkStatics (next_block_id g) (next_file_object_id g) (next_page_version g) n.

(** [RedoxPageIdentity(object, page, version)]. *)
Abbreviation RedoxPageIdentity := (N * N * N)%type.

(** What one generation adds: objects of files, versions of pages (keyed by
    node and page index). *)
Record IdentityLayer := mkLayer {
  l_files : gmap NodeId N;
  l_pages : gmap PageKey N
}.

Abbreviation IdentityGeneration := (Generation IdentityLayer).

Record IdentityBranch := mkIdentity {
  ib_base : IdentityGeneration;
  ib_files : gmap NodeId N;
  ib_pages : gmap PageKey N
}.

Module Identity.

(** [IdentityGeneration::file] and [IdentityGeneration::page_version]. *)
Definition file (g : IdentityGeneration) (node : NodeId) : option N :=
  gen_lookup (fun l => l_files l !! node) g.
Definition page_version (g : IdentityGeneration) (key : PageKey) : option N :=
  gen_lookup (fun l => l_pages l !! key) g.

(** [IdentityGeneration::visible_files] and [visible_pages]. *)
Definition gen_visible_files (g : IdentityGeneration) (files : gmap NodeId N) : gmap NodeId N :=
  gen_extend l_files files g.
Definition gen_visible_pages (g : IdentityGeneration) (pages : gmap PageKey N) : gmap PageKey N :=
  gen_extend l_pages pages g.

(** [IdentityBranch::new]. *)
Definition new : IdentityBranch := mkIdentity (mkGeneration None (mkLayer ∅ ∅)) ∅ ∅.

(** [IdentityBranch::fork]: the branch as left behind, and the child. *)
Definition fork (ib : IdentityBranch) : IdentityBranch * IdentityBranch :=
  let ib' :=
    if decide (ib_files ib = ∅ /\ ib_pages ib = ∅) then ib
    else mkIdentity (mkGeneration (Some (ib_base ib)) (mkLayer (ib_files ib) (ib_pages ib))) ∅ ∅ in
  (ib', mkIdentity (ib_base ib') ∅ ∅).

Definition I := M (Statics * IdentityBranch) io_error.

Definition next_version : I N := fun '(g, ib) =>
  ((set_next_page_version (wrapping_add (next_page_version g) 1) g, ib),
   Ok (next_page_version g)).

Definition insert_page (key : PageKey) (version : N) : I unit :=
  modify (fun '(g, ib) =>
    (g, mkIdentity (ib_base ib) (ib_files ib) (<[key := version]> (ib_pages ib)))).

(** [IdentityBranch::create_file]. *)
Definition create_file (node : NodeId) : I unit := fun '(g, ib) =>
  ((set_next_file_object_id (wrapping_add (next_file_object_id g) 1) g,
    mkIdentity (ib_base ib) (<[node := next_file_object_id g]> (ib_files ib)) (ib_pages ib)),
   Ok tt).

Definition object_of (ib : IdentityBranch) (node : NodeId) : option N :=
  match ib_files ib !! node with
  | Some o => Some o
  | None => file (ib_base ib) node
  end.

Definition version_of (ib : IdentityBranch) (key : PageKey) : N :=
  match ib_pages ib !! key with
  | Some v => v
  | None => default 0 (page_version (ib_base ib) key)
  end.

(** [IdentityBranch::page_identity]. *)
Definition page_identity (ib : IdentityBranch) (node : NodeId) (offset : N) :
    result io_error RedoxPageIdentity :=
  match object_of ib node with
  | None => Err (RawOs EIO)
  | Some object =>
      let page := offset / PAGE_SIZE in
      Ok (object, page, version_of ib (node, page))
  end.

(** The pages [first..=last]. *)
Definition page_range (first last : N) : list N :=
  (fun i => first + N.of_nat i) <$> seq 0 (N.to_nat (last + 1 - first)).

(** [IdentityBranch::record_write]. *)
Definition record_write (node : NodeId) (offset len : N) : I unit :=
  if len =? 0 then mret tt else
  match checked_add offset len with
  | None => throw (RawOs EIO)
  | Some end_ =>
      for_each (fun page => v ← next_version; insert_page (node, page) v)
        (page_range (offset / PAGE_SIZE) ((end_ - 1) / PAGE_SIZE))
  end.

(** [IdentityBranch::prepare_page_write]. *)
Definition prepare_page_write (node : NodeId) (offset : N) : I RedoxPageIdentity :=
  v ← next_version;
  _ ← insert_page (node, offset / PAGE_SIZE) v;
  s ← get;
  lift (page_identity s.2 node offset).

(** [IdentityBranch::visible_files] and [IdentityBranch::visible_pages]. *)
Definition visible_files (ib : IdentityBranch) : gmap NodeId N :=
  extend (gen_visible_files (ib_base ib) ∅) (ib_files ib).
Definition visible_pages (ib : IdentityBranch) : gmap PageKey N :=
  extend (gen_visible_pages (ib_base ib) ∅) (ib_pages ib).

End Identity.

(** ** Facts *)

Module IdentityFacts.
Import Identity.

Implicit Types (ib : IdentityBranch) (node : NodeId) (key : PageKey).

(** The flattened maps agree with the lookups through the generations. *)
Lemma lookup_visible_files ib node : visible_files ib !! node = object_of ib node.
Proof.
  unfold visible_files, gen_visible_files, object_of, file.
  rewrite extend_union, gen_extend_union, (right_id_L ∅ (∪)), lookup_union, lookup_gen_union.
  by destruct (ib_files ib !! node); [rewrite union_Some_l|rewrite (left_id_L None (∪))].
Qed.

Lemma lookup_visible_pages ib key : default 0 (visible_pages ib !! key) = version_of ib key.
Proof.
  unfold visible_pages, gen_visible_pages, version_of, page_version.
  rewrite extend_union, gen_extend_union, (right_id_L ∅ (∪)), lookup_union, lookup_gen_union.
  by destruct (ib_pages ib !! key); [rewrite union_Some_l|rewrite (left_id_L None (∪))].
Qed.

(** Both sides of a fork see the objects and versions the branch saw. *)
Lemma fork_object ib ib' child node :
  fork ib = (ib', child) ->
  object_of ib' node = object_of ib node /\ object_of child node = object_of ib node.
Proof.
  unfold fork. case_decide as Hd; intros [= <- <-]; unfold object_of, file; cbn; [|done].
  destruct Hd as [-> _]. by rewrite lookup_empty.
Qed.

Lemma fork_version ib ib' child key :
  fork ib = (ib', child) ->
  version_of ib' key = version_of ib key /\ version_of child key = version_of ib key.
Proof.
  unfold fork. case_decide as Hd; intros [= <- <-]; unfold version_of, page_version; cbn.
  - destruct Hd as [_ ->]. by rewrite lookup_empty.
  - by destruct (ib_pages ib !! key).
Qed.

Lemma fork_identity ib ib' child node offset :
  fork ib = (ib', child) ->
  page_identity ib' node offset = page_identity ib node offset /\
  page_identity child node offset = page_identity ib node offset.
Proof.
  intros Hf. unfold page_identity.
  destruct (fork_object _ _ _ node Hf) as [-> ->].
  destruct (object_of ib node); [|done].
  destruct (fork_version _ _ _ (node, offset / PAGE_SIZE) Hf) as [-> ->]. done.
Qed.

Lemma version_of_insert ib key v key' :
  version_of (mkIdentity (ib_base ib) (ib_files ib) (<[key := v]> (ib_pages ib))) key' =
    if decide (key = key') then v else version_of ib key'.
Proof.
  unfold version_of. cbn. case_decide as Hd.
  - subst. by rewrite lookup_insert_eq.
  - by rewrite lookup_insert_ne.
Qed.

End IdentityFacts.
