(* ===== verification/MemStore.v ===== *)
(** * An in-memory store

    The [MemoryStore] of the cache's own tests (crates/minidox-cache/src/lib.rs,
    module [tests]), given page identities by an [IdentityBranch] as the
    RedoxFS store is.  It meets the contract [StoreLaws] the shared cache
    relies on, so the theorems about the cache can be evaluated on it. *)

From S2P Require Import Prelude Generations Host CacheTypes DirtyPages SharedCache SharedCacheInv Identity.

Record MemoryStore := mkMemory {
  mem_nodes : gmap NodeId (list byte);
  mem_opens : N;
  mem_closes : N;
  mem_ids : IdentityBranch
}.

Module Memory.

Definition data (s : MemoryStore) (node : NodeId) : list byte :=
  default [] (mem_nodes s !! node).

Abbreviation MS := (M (Statics * MemoryStore) io_error).

Definition len (node : NodeId) : MS N := gets (fun ws => lenN (data ws.2 node)).

Definition read_node (node : NodeId) (offset buflen : N) : MS (list byte) :=
  gets (fun ws => slice offset buflen (data ws.2 node)).

Definition write_node (node : NodeId) (offset : N) (bytes : list byte) : MS N :=
  _ ← modify (fun ws => (ws.1, mkMemory (<[node := file_write offset bytes (data ws.2 node)]>
                                 (mem_nodes ws.2))
                                 (mem_opens ws.2) (mem_closes ws.2) (mem_ids ws.2)));
  mret (lenN bytes).

Definition on_open_node (node : NodeId) : MS unit :=
  modify (fun ws => (ws.1, mkMemory (mem_nodes ws.2) (mem_opens ws.2 + 1) (mem_closes ws.2)
                            (mem_ids ws.2))).

Definition on_close_node (node : NodeId) : MS unit :=
  modify (fun ws => (ws.1, mkMemory (mem_nodes ws.2) (mem_opens ws.2) (mem_closes ws.2 + 1)
                            (mem_ids ws.2))).

Definition set_ids (ib : IdentityBranch) (s : MemoryStore) : MemoryStore :=
  mkMemory (mem_nodes s) (mem_opens s) (mem_closes s) ib.

Definition page_identity (node : NodeId) (offset : N) : MS RedoxPageIdentity := fun ws =>
  (ws, Identity.page_identity (mem_ids ws.2) node offset).

Definition prepare_page_write (node : NodeId) (offset : N) : MS RedoxPageIdentity := fun ws =>
  let '((g, ib), r) := Identity.prepare_page_write node offset (ws.1, mem_ids ws.2) in
  ((g, set_ids ib ws.2), r).

Definition fork_store : MS MemoryStore := fun ws =>
  let '(ib, child) := Identity.fork (mem_ids ws.2) in
  ((ws.1, set_ids ib ws.2), Ok (set_ids child ws.2)).

(** A store whose nodes are the given files. *)
Definition with_files (files : list (NodeId * list byte)) : Statics * MemoryStore :=
  let '(g, ib) := foldl (fun s f => (Identity.create_file f.1 s).1)
                    (initial_statics, Identity.new) files in
  (g, mkMemory (list_to_map files) 0 0 ib).

End Memory.

#[export] Instance MemoryStore_store : NodeStore Statics MemoryStore := {
  ns_len := Memory.len;
  read_node := Memory.read_node;
  write_node := Memory.write_node;
  on_open_node := Memory.on_open_node;
  on_close_node := Memory.on_close_node
}.

#[export] Instance MemoryStore_forkable :
    ForkableNodeStore Statics MemoryStore RedoxPageIdentity := {
  page_identity := Memory.page_identity;
  prepare_page_write := Memory.prepare_page_write;
  fork_store := Memory.fork_store
}.

#[export] Instance MemoryStore_view : StoreView Statics MemoryStore RedoxPageIdentity := {
  s_ident s k := Identity.page_identity (mem_ids s) k.1 k.2;
  s_content s k := pad_page (slice k.2 PAGE_SIZE (Memory.data s k.1));
  s_len s node := Ok (lenN (Memory.data s node));
  w_issued g i := i.1.1 < next_file_object_id g /\ i.2 < next_page_version g;
  w_room g n := next_page_version g + n <= u64_MAX
}.

Lemma nthN_pad_slice off l j :
  nthN (pad_page (slice off PAGE_SIZE l)) j =
    if j <? PAGE_SIZE then Some (default zero_byte (nthN l (off + j))) else None.
Proof. unfold pad_page. rewrite nthN_resize, nthN_slice. by destruct (j <? PAGE_SIZE). Qed.

#[local] Opaque pad_page slice.

Section laws.
Implicit Types (s : MemoryStore) (g : Statics) (k : PageKey).

Lemma mem_view_ids s ib :
  (forall node offset, Identity.page_identity ib node offset =
     Identity.page_identity (mem_ids s) node offset) ->
  view_eq s (Memory.set_ids ib s).
Proof.
  intros Hi. split; [intros k _; apply Hi|]. split; intros; reflexivity.
Qed.

(** Pages of one file at different aligned offsets do not overlap. *)
Lemma aligned_apart k k' i j :
  aligned k -> aligned k' -> i < PAGE_SIZE -> j < PAGE_SIZE -> k.2 + i = k'.2 + j -> k.2 = k'.2.
Proof.
  unfold aligned. intros Hk Hk' Hi Hj Heq.
  pose proof (page_split k.2). pose proof (page_split k'.2).
  rewrite Hk, Hk' in *. set (q := k.2 / PAGE_SIZE) in *. set (q' := k'.2 / PAGE_SIZE) in *.
  assert (q = q'); [|congruence]. pagelia.
Qed.

Lemma nthN_mem_page s k j :
  nthN (s_content s k) j =
    if j <? PAGE_SIZE then Some (default zero_byte (nthN (Memory.data s k.1) (k.2 + j))) else None.
Proof. apply nthN_pad_slice. Qed.

Lemma mem_prepare_run k g s :
  (SharedCache.prepare_page_write (W := Statics) (S := MemoryStore) k.1 k.2) (g, s) =
  let ib := mem_ids s in
  let ib' := mkIdentity (ib_base ib) (ib_files ib)
               (<[(k.1, k.2 / PAGE_SIZE) := next_page_version g]> (ib_pages ib)) in
  ((set_next_page_version (wrapping_add (next_page_version g) 1) g, Memory.set_ids ib' s),
   Identity.page_identity ib' k.1 k.2).
Proof. done. Qed.

(** A new version changes the identity of its page only. *)
Lemma insert_identity ib k v k' :
  aligned k -> aligned k' ->
  let ib' := mkIdentity (ib_base ib) (ib_files ib) (<[(k.1, k.2 / PAGE_SIZE) := v]> (ib_pages ib)) in
  Identity.page_identity ib' k'.1 k'.2 =
    match Identity.page_identity ib k'.1 k'.2 with
    | Ok i => Ok (if decide (k' = k) then (i.1, v) else i)
    | Err e => Err e
    end.
Proof.
  intros Hk Hk'. cbn zeta. unfold Identity.page_identity.
  change (Identity.object_of (mkIdentity _ _ _) k'.1) with (Identity.object_of ib k'.1).
  destruct (Identity.object_of ib k'.1) as [o|]; [|done].
  rewrite IdentityFacts.version_of_insert. do 2 f_equal.
  case_decide as H1; case_decide as H2; subst; cbn; try done.
  exfalso. apply H2. injection H1 as H1 H1'.
  destruct k as [n off], k' as [n' off']; unfold aligned in *; cbn in *. f_equal; [done|].
  pose proof (page_split off). pose proof (page_split off'). congruence.
Qed.

Lemma mem_law_prepare k n g s :
  aligned k -> next_page_version g + (1 + n) <= u64_MAX ->
  (forall i, s_ident s k = Ok i -> w_issued g i) ->
  wp (SharedCache.prepare_page_write k.1 k.2)
    (fun i ws' =>
      (forall j, w_issued g j -> w_issued ws'.1 j) /\ w_room ws'.1 n /\
      ~ w_issued g i /\ w_issued ws'.1 i /\ s_ident ws'.2 k = Ok i /\
      (forall k', aligned k' -> k' <> k -> s_ident ws'.2 k' = s_ident s k') /\
      (forall k', aligned k' -> s_content ws'.2 k' = s_content s k') /\
      (forall node, s_len ws'.2 node = s_len s node))
    (fun _ ws' =>
      (forall j, w_issued g j -> w_issued ws'.1 j) /\ w_room ws'.1 n /\ view_eq s ws'.2) (g, s).
Proof.
  intros Hk Hroom Hissued. unfold wp. rewrite mem_prepare_run. cbv zeta.
  pose proof (insert_identity (mem_ids s) k (next_page_version g)) as Hins. cbv zeta in Hins.
  rewrite wrapping_add_small by lia. rewrite (Hins k Hk Hk).
  change (s_ident s k) with (Identity.page_identity (mem_ids s) k.1 k.2) in Hissued.
  assert (forall k', aligned k' -> k' <> k -> Identity.page_identity (mkIdentity (ib_base (mem_ids s))
    (ib_files (mem_ids s)) (<[(k.1, k.2 / PAGE_SIZE) := next_page_version g]> (ib_pages (mem_ids s))))
    k'.1 k'.2 = Identity.page_identity (mem_ids s) k'.1 k'.2) as Hother.
  { intros k' Hk' Hne. rewrite (Hins k' Hk Hk').
    destruct (Identity.page_identity (mem_ids s) k'.1 k'.2); [by rewrite decide_False|done]. }
  destruct (Identity.page_identity (mem_ids s) k.1 k.2) as [i|e] eqn:Hi; cbn [s_ident MemoryStore_view].
  - rewrite decide_True by done. destruct (Hissued i eq_refl) as [H1 H2].
    split; [intros j [? ?]; cbn; lia|]. split; [cbn; lia|]. split; [cbn; lia|]. split; [cbn; lia|].
    split; [cbn [mem_ids Memory.set_ids snd]; by rewrite (Hins k Hk Hk), Hi, decide_True|].
    split; [exact Hother|]. split; intros; reflexivity.
  - split; [intros j [? ?]; cbn; lia|]. split; [cbn; lia|].
    split; [|split; intros; reflexivity]. intros k' Hk'. destruct (decide (k' = k)) as [->|Hne]; [|by apply Hother].
    cbn [s_ident MemoryStore_view mem_ids Memory.set_ids snd]. by rewrite (Hins k Hk Hk), Hi.
Qed.

Lemma keeps_same g s s' :
  mem_nodes s' = mem_nodes s -> mem_ids s' = mem_ids s -> keeps (g, s) (g, s').
Proof.
  intros Hn Hi. split; [split; intros; assumption|].
  split; [|split]; intros; cbn; unfold Memory.data; by rewrite ?Hn, ?Hi.
Qed.

Lemma mem_law_fork g s :
  wp (SharedCache.fork_store (W := Statics) (S := MemoryStore))
    (fun child ws' => keeps (g, s) ws' /\ view_eq s child) (fun _ ws' => keeps (g, s) ws') (g, s).
Proof.
  unfold wp. change (SharedCache.fork_store (g, s)) with (Memory.fork_store (g, s)).
  unfold Memory.fork_store. change (mem_ids (g, s).2) with (mem_ids s).
  destruct (Identity.fork (mem_ids s)) as [ib child] eqn:Hf.
  split; [split; [split; intros; assumption|]|]; apply mem_view_ids; intros node offset;
    apply (IdentityFacts.fork_identity _ _ _ node offset Hf).
Qed.

Definition mem_written k bytes s : MemoryStore :=
  mkMemory (<[k.1 := file_write k.2 bytes (Memory.data s k.1)]> (mem_nodes s))
    (mem_opens s) (mem_closes s) (mem_ids s).

Lemma mem_written_data k bytes s node :
  Memory.data (mem_written k bytes s) node =
    if decide (node = k.1) then file_write k.2 bytes (Memory.data s k.1) else Memory.data s node.
Proof.
  unfold Memory.data, mem_written. cbn [mem_nodes]. case_decide as Hn.
  - subst. by rewrite lookup_insert_eq.
  - by rewrite lookup_insert_ne.
Qed.

Lemma mem_write_frame k bytes s :
  aligned k -> lenN bytes <= PAGE_SIZE -> k.2 + lenN bytes <= lenN (Memory.data s k.1) ->
  write_frame k s (mem_written k bytes s).
Proof.
  intros Hk Hb Hin. split; [intros; reflexivity|]. split.
  - intros k' Hk' Hne. apply list_eq_nthN. intros j. rewrite !nthN_mem_page, mem_written_data.
    destruct (N.ltb_spec j PAGE_SIZE) as [Hj|]; [|done]. do 2 f_equal. case_decide as Heq; [|done].
    rewrite Heq, nthN_file_write.
    assert ((k.2 <=? k'.2 + j) && (k'.2 + j <? k.2 + lenN bytes) = false) as ->.
    { cmp; cbn [andb]; try done. exfalso. apply Hne.
      assert (k'.2 = k.2) as Heq2.
      { apply (aligned_apart k' k j (k'.2 + j - k.2)); try done; lia. }
      destruct k, k'. cbn in *. congruence. }
    cmp; [|symmetry; apply nthN_ge; lia].
    destruct (nthN_lt (Memory.data s k.1) (k'.2 + j)) as [x ->]; [lia|done].
  - intros node. cbn [s_len MemoryStore_view]. f_equal. rewrite mem_written_data.
    case_decide; [|done]. subst. rewrite length_file_write. lia.
Qed.

Lemma mem_write_content k bytes s j :
  lenN bytes <= PAGE_SIZE -> j < lenN bytes ->
  nthN (s_content (mem_written k bytes s) k) j = nthN bytes j.
Proof.
  intros Hb Hj. rewrite nthN_mem_page, mem_written_data, decide_True by done.
  rewrite nthN_file_write. cmp; cbn [andb]; try lia. replace (k.2 + j - k.2) with j by lia.
  destruct (nthN_lt bytes j) as [x ->]; [lia|done].
Qed.

#[export] Instance MemoryStore_laws : StoreLaws Statics MemoryStore RedoxPageIdentity.
Proof.
  split.
  - cbn. intros. lia.
  - intros s k _. apply length_pad_page.
  - intros k [g s] _. unfold wp.
    change (SharedCache.page_identity k.1 k.2 (g, s)) with
      ((g, s), Identity.page_identity (mem_ids s) k.1 k.2).
    change (s_ident (g, s).2 k) with (Identity.page_identity (mem_ids s) k.1 k.2).
    destruct (Identity.page_identity (mem_ids s) k.1 k.2); (split; [reflexivity|by apply keeps_same]).
  - intros k n [g s]. apply mem_law_prepare.
  - intros [g s]. apply mem_law_fork.
  - intros node [g s]. split; [reflexivity|by apply keeps_same].
  - intros k [g s] _. unfold wp. split; [reflexivity|by apply keeps_same].
  - intros k bytes len0 [g s] Hk Hb [= <-] Hin. unfold wp.
    change (CacheTypes.write_node k.1 k.2 bytes (g, s)) with
      ((g, mem_written k bytes s), Ok (E := io_error) (lenN bytes)).
    split; [split; intros; assumption|]. split; [by apply mem_write_frame|].
    intros _ j Hj. by apply mem_write_content.
  - intros node [g s]. by apply keeps_same.
  - intros node [g s]. by apply keeps_same.
Qed.

End laws.
