(* ===== verification/SharedCacheSpec.v ===== *)
(** * What the shared cache promises

    Clients of the cache as sequences of requests from its construction on,
    and the theorems that hold in every state they can reach: mappings are
    coherent, branches are isolated, a fork is a snapshot, reads return what
    the branch last wrote, write-back reaches the store, and unchanged pages
    of a lineage are one physical page. *)

From S2P Require Import Prelude Generations Host CacheTypes DirtyPages SharedCache SharedCacheInv SharedCacheSteps SharedCacheOps SharedCacheIO SharedCacheLife SharedCacheLens Identity MemStore.
Import Shared DirtyFacts.

(** ** Clients *)

Inductive request :=
  | ROpen (b : N) (node : NodeId)
  | RClose (b : N) (node : NodeId)
  | RMap (b : N) (node : NodeId) (offset : N) (flags : MapFlags)
  | RUnmap (b : N) (m : DaxPageMapping)
  | RStore (m : DaxPageMapping) (offset : N) (bytes : list byte)
  | RRead (b : N) (node : NodeId) (offset len : N)
  | RWrite (b : N) (node : NodeId) (offset : N) (bytes : list byte)
  | RSync (b : N) (node : NodeId)
  | RSyncAll (b : N)
  | RFork (source : N)
  | RRemove (b : N)
  | RAccount (requested : list N).

(** How many page numbers and versions a request may use up. *)
Definition cost (rq : request) : N :=
  match rq with
  | RMap _ _ _ _ => 3
  | RRead _ _ _ len => 3 * len
  | RWrite _ _ _ bytes => 3 * lenN bytes
  | _ => 0
  end.

Section clients.
Context {W S Id : Type} `{Countable Id} `{!ForkableNodeStore W S Id}.

Implicit Types (c : Cache W S Id) (b : N) (k : PageKey) (m : DaxPageMapping).

(** A client may store through a writable mapping it holds, inside the page. *)
Definition may_store (held : list DaxPageMapping) m (offset : N) (bytes : list byte) : bool :=
  bool_decide (m ∈ held) && WRITE (m_flags m) && negb (bool_decide (bytes = [])) &&
  (offset + lenN bytes <=? PAGE_SIZE).

(** One request against the cache, by clients that hold the mappings [held]:
    a mapping is used only while it is held, and [unmap] consumes it. *)
Definition client_step (st : Cache W S Id * list DaxPageMapping) (rq : request) :
    Cache W S Id * list DaxPageMapping :=
  let '(c, held) := st in
  match rq with
  | ROpen b node => ((open b node c).1, held)
  | RClose b node => ((close b node c).1, held)
  | RMap b node offset flags =>
      match map_page b node offset flags c with
      | (c', Ok m) => (c', m :: held)
      | (c', Err _) => (c', held)
      end
  | RUnmap b m =>
      match remove_one m held with
      | Some held' => ((unmap b m c).1, held')
      | None => st
      end
  | RStore m offset bytes =>
      if may_store held m offset bytes
      then ((io (write_all_at (cp_backing (m_page m)) bytes offset) c).1, held) else st
  | RRead b node offset len => ((read b node offset len c).1, held)
  | RWrite b node offset bytes => ((write b node offset bytes c).1, held)
  | RSync b node => ((sync b node c).1, held)
  | RSyncAll b => ((sync_all b c).1, held)
  | RFork source => ((fork source c).1, held)
  | RRemove b => ((remove_branch b c).1, held)
  | RAccount requested => ((page_accounting requested c).1, held)
  end.

Definition client_run (rqs : list request) (st : Cache W S Id * list DaxPageMapping) :=
  foldl client_step st rqs.

Definition total_cost (rqs : list request) : N := foldr (fun rq n => cost rq + n) 0 rqs.

(** May the request change what branch [b] sees? *)
Definition concerns c (rq : request) b : bool :=
  match rq with
  | RStore m _ _ => b =? m_branch m
  | RWrite b' _ _ _ | RRemove b' => b =? b'
  | RFork _ => b =? c_next_branch c
  | _ => false
  end.

End clients.

Section spec.
Context {W S Id : Type} `{Countable Id} `{!ForkableNodeStore W S Id} `{!StoreView W S Id}
  `{!StoreLaws W S Id}.

Implicit Types (c : Cache W S Id) (b : N) (k : PageKey) (i : Id) (node : NodeId)
  (m : DaxPageMapping) (held : list DaxPageMapping) (s : S) (w : W).

(** A store that starts a lineage: identities are issued and name one page. *)
Definition store_ok w s : Prop :=
  (forall k i, aligned k -> s_ident s k = Ok i -> w_issued w i) /\
  (forall k k' i, aligned k -> aligned k' -> s_ident s k = Ok i -> s_ident s k' = Ok i -> k = k').

(** States clients reach from a new cache with room for [n] more pages. *)
Definition reachable (n : N) c held : Prop :=
  exists cid h w pid s rqs,
    store_ok w s /\ pid + (total_cost rqs + n) <= u64_MAX /\ w_room w (total_cost rqs + n) /\
    (c, held) = client_run rqs ((new cid h w pid s).1, []).

Lemma new_good n cid h w pid s :
  store_ok w s -> pid + n <= u64_MAX -> w_room w n -> good n (new cid h w pid s).1 [].
Proof.
  intros [Hiss Hkey] Hn Hroom. split; [|split; [by intros i p|by split]].
  set (c := (new cid h w pid s).1 : Cache W S Id).
  assert (forall b br, c_branches c !! b = Some br -> b = 1 /\ br = fresh_branch s Dirty.new) as Hone
    by (cbn; intros b br [<- <-]%lookup_singleton_Some; done).
  assert (forall b k i, sees c b k i -> s_ident s k = Ok i) as Hsees
    by (intros b k i (br & [_ ->]%Hone & Hi); done).
  split; try done.
  - intros b k i Hk Hs%Hsees. by eapply Hiss.
  - intros b b' k k' i Hk Hk' Hs%Hsees Hs'%Hsees. by eapply Hkey.
  - by intros b b' br br' k i _ [-> ->]%Hone [-> ->]%Hone.
  - intros b br [-> ->]%Hone. split; [done|]. split; [done|]. split; [done|]. split; [|done].
    intros k Hd. by apply is_dirty_new in Hd.
  - intros m Hm. by apply not_elem_of_nil in Hm.
Qed.

(** What a request does to the bytes other branches see. *)
Definition isolated c c' (rq : request) : Prop :=
  forall b node a, concerns c rq b = false -> byte_view c' b node a = byte_view c b node a.

Lemma isolated_views c c' rq : same_views c c' -> isolated c c' rq.
Proof. intros V b node a _. by apply byte_view_same. Qed.

Lemma run_fst {A} (f : M (Cache W S Id) CacheError A) (P : Cache W S Id -> Prop) c :
  wp f (fun _ => P) (fun _ => P) c -> P (f c).1.
Proof. unfold wp. by destruct (f c) as [c' [a|e]]. Qed.

(** A state after a request: good again, whatever the host left behind. *)
Definition after n c (rq : request) held leaked c' : Prop :=
  (exists more, good n c' (held ++ more ++ leaked)) /\ isolated c c' rq.

Lemma after_views n c rq held leaked c' :
  good n c' (held ++ leaked) -> same_views c c' -> after n c rq held leaked c'.
Proof. intros G V. split; [by exists []|by apply isolated_views]. Qed.

Lemma after_left n c rq held leaked ms' c' :
  left_over (held ++ leaked) ms' -> good n c' ms' -> isolated c c' rq -> after n c rq held leaked c'.
Proof.
  intros Hms G V. split; [|done]. destruct Hms as [->|[m ->]]; [by exists []|].
  exists [m]. eapply good_perm; [|done]. apply Permutation_middle.
Qed.

(** A write to one branch's file is invisible to the other branches. *)
Lemma isolated_outside c c' b node offset bytes lo hi :
  unchanged_outside c c' b node lo hi -> isolated c c' (RWrite b node offset bytes).
Proof.
  intros U b' node' a Hb. cbn in Hb. apply U. unfold region.
  rewrite bool_decide_false; [done|]. intros [-> _]. by rewrite N.eqb_refl in Hb.
Qed.

Lemma isolated_but c c' m offset bytes page :
  views_but c c' m page -> isolated c c' (RStore m offset bytes).
Proof.
  intros V b node a Hb. cbn in Hb. unfold byte_view. rewrite (V b _ (aligned_page node a)).
  rewrite decide_False; [done|]. intros [= -> _]. by rewrite N.eqb_refl in Hb.
Qed.

Lemma step_read n c held leaked b node offset len :
  good (3 * len + n) c (held ++ leaked) ->
  after n c (RRead b node offset len) held leaked (read b node offset len c).1.
Proof.
  intros G. apply run_fst. eapply wp_cache_read; [done| |].
  - intros. by eapply after_views.
  - intros e c' ms' Hms G' V'. eapply after_left; [done|done|]. by apply isolated_views.
Qed.

Lemma step_write n c held leaked b node offset bytes :
  good (3 * lenN bytes + n) c (held ++ leaked) ->
  after n c (RWrite b node offset bytes) held leaked (write b node offset bytes c).1.
Proof.
  intros G. apply run_fst. eapply wp_cache_write; [done| |].
  - intros c' br _ G' _ Wr. split; [by exists []|].
    apply (isolated_outside _ _ _ _ _ _ offset (offset + lenN bytes)).
    intros b' node' a Hr. by rewrite Wr, Hr.
  - intros e c' ms' Hms G' U. eapply after_left; [done|done|]. by eapply isolated_outside.
Qed.

Lemma step_store n c held leaked m offset bytes :
  good n c (held ++ leaked) -> may_store held m offset bytes = true ->
  after n c (RStore m offset bytes) held leaked
    (io (write_all_at (cp_backing (m_page m)) bytes offset) c).1.
Proof.
  intros G [[[Hm%bool_decide_eq_true Hw]%andb_true_iff Hne]%andb_true_iff Hin%N.leb_le]%andb_true_iff.
  apply negb_true_iff, bool_decide_eq_false in Hne.
  apply run_fst. eapply wp_poke; [done|apply elem_of_app; by left|done|done|done| |].
  - intros c' G' V'. split; [by exists []|]. by eapply isolated_but.
  - intros e c' page G' V' _. split; [by exists []|]. by eapply isolated_but.
Qed.

Lemma step_unmap n c held held' leaked b m :
  good n c (held ++ leaked) -> remove_one m held = Some held' ->
  after n c (RUnmap b m) held' leaked (unmap b m c).1.
Proof.
  intros G Hr. apply remove_one_perm in Hr.
  assert (good n c (m :: held' ++ leaked)) as Gm by (eapply good_perm; [|done]; by rewrite Hr).
  destruct (decide (m_branch m = b)) as [Hb|Hb].
  - apply run_fst. eapply wp_unmap; [done|done|]. intros c' G' V'. by eapply after_views.
  - assert (unmap b m c = (c, Err StaleMapping)) as ->.
    { unfold unmap, mbind, M_bind, get. rewrite (proj2 (N.eqb_neq _ _) Hb), andb_false_r. done. }
    split; [|by apply isolated_views]. exists [m].
    eapply good_perm; [|exact Gm]. apply Permutation_middle.
Qed.

Lemma step_fork n c held leaked source :
  good n c (held ++ leaked) -> after n c (RFork source) held leaked (fork source c).1.
Proof.
  intros G. apply run_fst. eapply wp_fork; [done| |].
  - intros c' G' (_ & _ & _ & V' & _). split; [by exists []|].
    intros b node a Hb. cbn in Hb. apply N.eqb_neq in Hb. unfold byte_view.
    by rewrite V' by (done || apply aligned_page).
  - intros e c' G' V' _. by eapply after_views.
Qed.

Lemma step_remove n c held leaked b :
  good n c (held ++ leaked) -> after n c (RRemove b) held leaked (remove_branch b c).1.
Proof.
  intros G. apply run_fst. eapply wp_remove_branch; [done| | |].
  - intros c' G' [_ V']. split; [by exists []|].
    intros b' node a Hb. cbn in Hb. apply N.eqb_neq in Hb. unfold byte_view.
    by rewrite V' by (done || apply aligned_page).
  - intros _. by eapply after_views.
  - intros _. by eapply after_views.
Qed.

Lemma step_quiet n c held leaked rq (f : M (Cache W S Id) CacheError unit) :
  good n c (held ++ leaked) ->
  (forall Q R, (forall c', quiet c c' -> Q tt c') -> (forall e c', quiet c c' -> R e c') -> wp f Q R c) ->
  after n c rq held leaked (f c).1.
Proof.
  intros G Hf. apply run_fst, Hf; intros; (eapply after_views;
    [by eapply good_quiet|by eapply views_quiet]).
Qed.

(** Every request keeps the invariant and what other branches see; a mapping
    the host interrupted counts as live though nobody holds it. *)
Lemma client_step_good rq n c held leaked :
  good (cost rq + n) c (held ++ leaked) ->
  after n c rq (client_step (c, held) rq).2 leaked (client_step (c, held) rq).1.
Proof.
  intros G. pose proof (good_le n _ _ _ G ltac:(lia)) as Gn.
  destruct rq as [b node|b node|b node offset flags|b m|m offset bytes|b node offset len
    |b node offset bytes|b node|b|source|b|requested]; cbn [client_step].
  - eapply step_quiet; [done|]. intros. by apply wp_open.
  - eapply step_quiet; [done|]. intros. by apply wp_close.
  - destruct (map_page b node offset flags c) as [c' r] eqn:Hrun.
    pose proof (wp_map_page b node offset flags n
      (fun m c' => good n c' (m :: held ++ leaked) /\ same_views c c')
      (fun _ c' => good n c' (held ++ leaked) /\ same_views c c') c _ G
      (fun _ _ G V _ => conj G V) (fun _ _ G V => conj G V)) as Hwp.
    eapply wp_elim in Hwp; [|exact Hrun].
    destruct r as [m|e]; destruct Hwp as [G' V']; by eapply after_views.
  - destruct (remove_one m held) as [held'|] eqn:Hr; [by eapply step_unmap|by eapply after_views].
  - destruct (may_store held m offset bytes) eqn:Hm; [by eapply step_store|by eapply after_views].
  - by eapply step_read.
  - by eapply step_write.
  - apply run_fst. eapply wp_sync; [done| |]; intros; by eapply after_views.
  - apply run_fst. eapply wp_sync_all; [done| |]; intros; by eapply after_views.
  - by eapply step_fork.
  - by eapply step_remove.
  - apply run_fst. eapply wp_page_accounting; [done| |]; intros; by eapply after_views.
Qed.

Lemma client_run_good rqs n c held leaked :
  good (total_cost rqs + n) c (held ++ leaked) ->
  exists more, good n (client_run rqs (c, held)).1 ((client_run rqs (c, held)).2 ++ more ++ leaked).
Proof.
  revert c held leaked. induction rqs as [|rq rqs IH]; intros c held leaked G.
  { by exists []. }
  change (total_cost (rq :: rqs)) with (cost rq + total_cost rqs) in G.
  change (client_run (rq :: rqs) (c, held)) with (client_run rqs (client_step (c, held) rq)).
  destruct (client_step_good rq (total_cost rqs + n) c held leaked) as [[more Gm] _].
  { eapply good_le; [done|lia]. }
  destruct (client_step (c, held) rq) as [c1 held1]. destruct (IH c1 held1 (more ++ leaked) Gm) as [more' G'].
  exists (more' ++ more). by rewrite <-app_assoc.
Qed.

Lemma reachable_good n c held : reachable n c held -> exists leaked, good n c (held ++ leaked).
Proof.
  intros (cid & h & w & pid & s & rqs & Hs & Hp & Hr & Heq).
  destruct (client_run_good rqs n (new cid h w pid s).1 [] []) as [l Gl]; [by apply new_good|].
  rewrite <-Heq in Gl. by exists (l ++ []).
Qed.

(** A mapping nobody holds keeps its branch from being forked or removed. *)
Lemma leaked_blocks n c ms m : good n c ms -> m ∈ ms ->
  (fork (m_branch m) c).2 = Err ActiveMappings /\ (remove_branch (m_branch m) c).2 = Err ActiveMappings.
Proof.
  intros (I & _) Hm. destruct (inv_mapping _ _ I m Hm) as (_ & _ & _ & br & i & Hb & _).
  destruct (inv_branch _ _ I _ _ Hb) as [_ (Ha & _)]. specialize (Ha (cp_id (m_page m))).
  assert (active_pages br <> ∅) as Hne.
  { intros Hnil. rewrite Hnil, lookup_empty in Ha. destruct (N.eqb_spec (live_count ms (m_branch m) (cp_id (m_page m))) 0) as [Hz|]; [|done].
    by apply (live_count_zero _ _ _ m Hz Hm). }
  split; unfold fork, remove_branch, mbind, M_bind, branch_mut; rewrite Hb; by rewrite decide_True by done.
Qed.

(** ** Theorems *)

(** The page a mapping maps is the one its branch sees. *)
Lemma mapping_view c ms m : cache_inv c ms -> m ∈ ms ->
  page_view c (m_branch m) (m_key m) = Some (page_bytes c (m_page m)).
Proof.
  intros I Hm. destruct (inv_mapping _ _ I m Hm) as (_ & _ & _ & br & i & Hb & Hi & Hp & _).
  unfold page_view. by rewrite Hb, Hi, Hp.
Qed.

(** The file behind a writable mapping holds no page any other branch sees. *)
Lemma writable_private c ms m b k i p : cache_inv c ms -> m ∈ ms -> WRITE (m_flags m) = true ->
  aligned k -> sees c b k i -> c_pages c !! i = Some p -> cp_backing p = cp_backing (m_page m) ->
  b = m_branch m /\ k = m_key m.
Proof.
  intros I Hm Hw Hk Hs Hp Hback.
  destruct (poke_owner c ms m I Hm Hw) as (br & j & Hb & Hj & Hpj & Hal & _ & Ho).
  assert (i = j) as -> by (eapply (inv_distinct _ _ I); [done|done|by right]).
  assert (k = m_key m) as -> by (eapply (inv_key _ _ I); [done|done|exact Hs|by exists br]).
  split; [by apply Ho|done].
Qed.

(** C11. In every state clients can reach, a mapping a client holds maps exactly
    the bytes its branch sees at that page, and the file behind a writable
    mapping holds no page any other branch (or any other page) can see. *)
Theorem held_mappings_coherent n c held m :
  reachable n c held -> m ∈ held ->
  page_view c (m_branch m) (m_key m) = Some (page_bytes c (m_page m)) /\
  (WRITE (m_flags m) = true -> forall b k i p, aligned k -> sees c b k i ->
    c_pages c !! i = Some p -> cp_backing p = cp_backing (m_page m) ->
    b = m_branch m /\ k = m_key m).
Proof.
  intros (leaked & I & _ & _)%reachable_good Hm.
  assert (m ∈ held ++ leaked) as Hm' by (apply elem_of_app; by left).
  split; [by eapply mapping_view|]. intros. by eapply writable_private.
Qed.

(** C10. No request of a client, whatever the host does to it, changes a byte that
    a branch it does not act on sees: writes and stores through a mapping stay
    in their branch, and mapping, forking, removing, syncing and accounting
    change no other branch's bytes. *)
Theorem branches_isolated c held rq b node a :
  reachable (cost rq) c held -> concerns c rq b = false ->
  byte_view (client_step (c, held) rq).1 b node a = byte_view c b node a.
Proof.
  intros (leaked & G)%reachable_good Hb. rewrite <-(N.add_0_r (cost rq)) in G.
  destruct (client_step_good rq 0 c held leaked G) as [_ Hiso]. by apply Hiso.
Qed.

(** A successful fork creates a new branch that sees every byte its source
    sees, leaves the bytes of all other branches alone, and gives parent and
    child the same identity for every page; a fork is refused for active
    mappings only when a mapping of the source is still live. *)
Theorem fork_is_snapshot n c held source :
  reachable n c held ->
  match fork source c with
  | (c', Ok child) =>
      c_branches c !! child = None /\
      (forall node a, byte_view c' child node a = byte_view c source node a) /\
      (forall b node a, b <> child -> byte_view c' b node a = byte_view c b node a) /\
      (forall k i, aligned k -> sees c source k i -> sees c' source k i /\ sees c' child k i)
  | (c', Err e) => (forall b node a, byte_view c' b node a = byte_view c b node a) /\
      (e = ActiveMappings -> exists br id, c_branches c !! source = Some br /\
         is_Some (active_pages br !! id))
  end.
Proof.
  intros (leaked & G)%reachable_good.
  apply (wp_fork source n (fun child c' => _) (fun e c' => _) c _ G).
  - intros c' G' (Hn & _ & Vc & Vo & Vs). split; [done|]. split; [|split; [|done]].
    + intros node a. unfold byte_view. by rewrite (Vc _ (aligned_page node a)).
    + intros b node a Hb. unfold byte_view. by rewrite (Vo _ _ (aligned_page node a) Hb).
  - intros e c' G' V He. split; [intros; by apply byte_view_same|].
    intros Hact. destruct (He Hact) as (m & Hm & Hmb). destruct G as (I & _ & _).
    destruct (inv_mapping _ _ I m Hm) as (_ & _ & _ & br & i & Hb & _). rewrite Hmb in Hb.
    exists br, (cp_id (m_page m)). split; [done|].
    destruct (inv_branch _ _ I _ _ Hb) as [_ (Ha & _)]. rewrite Ha.
    destruct (N.eqb_spec (live_count (held ++ leaked) source (cp_id (m_page m))) 0) as [Hz|]; [|by eexists].
    by destruct (live_count_zero _ _ _ _ Hz Hm Hmb).
Qed.

(** A successful read of [len] bytes at [offset] returns the bytes between
    [offset] and the end of the file or of the buffer, whichever is first, and
    every one is the byte the branch sees there. *)
Theorem read_returns_view c held b node offset len c' bytes :
  reachable (3 * len) c held -> read b node offset len c = (c', Ok bytes) ->
  exists br file_len, c_branches c !! b = Some br /\ s_len (store br) node = Ok file_len /\
    lenN bytes = N.min (file_len - offset) len /\
    forall j, j < lenN bytes -> nthN bytes j = byte_view c b node (offset + j).
Proof.
  intros (leaked & G)%reachable_good Hrun. rewrite <-(N.add_0_r (3 * len)) in G.
  eapply (wp_elim _ (fun bytes _ => exists br file_len, c_branches c !! b = Some br /\
    s_len (store br) node = Ok file_len /\ lenN bytes = N.min (file_len - offset) len /\
    forall j, j < lenN bytes -> nthN bytes j = byte_view c b node (offset + j)) (fun _ _ => True))
    in Hrun; [exact Hrun|].
  eapply wp_cache_read; [done| |done].
  intros out c1 br Hb _ _ (file_len & Hl & Hlen) Hj. by exists br, file_len.
Qed.

(** C32. When the copy out of the page fails, [read] returns without [unmap], and
    the page stays counted as mapped though no client holds a mapping of it.
    From then on, whatever clients request and the host does, the branch can
    be neither forked nor removed. *)
Theorem failed_read_blocks_branch c held b node offset len file_len c0 m c1 e c2 rqs :
  reachable (3 + total_cost rqs) c held ->
  with_store_mut b (ns_len node) c = (c0, Ok file_len) -> offset < file_len -> 0 < len ->
  offset + N.min (file_len - offset) len <= u64_MAX ->
  map_page b node (offset / PAGE_SIZE * PAGE_SIZE) flag_R c0 = (c1, Ok m) ->
  let count := N.min (file_len - offset) len in
  io (read_exact_at (cp_backing (m_page m)) (N.min (PAGE_SIZE - offset mod PAGE_SIZE) count) (offset mod PAGE_SIZE)) c1 =
    (c2, Err e) ->
  read b node offset len c = (c2, Err e) /\
  let c' := (client_run rqs (c2, held)).1 in
  (fork b c').2 = Err ActiveMappings /\ (remove_branch b c').2 = Err ActiveMappings.
Proof.
  intros (leaked & G)%reachable_good Hlen Hoff Hpos Hmax Hmap count Hio. split.
  { unfold read, mbind, M_bind. rewrite Hlen. cbn [negb]. rewrite (proj2 (N.leb_gt _ _) Hoff), (proj2 (N.eqb_neq _ _)) by lia.
    cbn [orb]. unfold checked_add. fold count. fold count in Hmax. rewrite (proj2 (N.leb_le _ _) Hmax).
    destruct (N.to_nat count) as [|fuel] eqn:Hfuel; [lia|]. cbn [read_loop].
    rewrite (proj2 (N.ltb_lt _ _)) by lia. rewrite within_page. unfold mbind, M_bind. rewrite Hmap.
    replace (offset + count - offset) with count by lia. by rewrite Hio. }
  assert (good (total_cost rqs + 0) c2 (held ++ m :: leaked) /\ m_branch m = b) as [G2 <-].
  { destruct (c_branches c !! b) as [br|] eqn:Hb.
    2:{ unfold with_store_mut, on_store, mbind, M_bind, branch_mut in Hlen. by rewrite Hb in Hlen. }
    assert (good (3 + total_cost rqs) c0 (held ++ leaked)) as G0.
    { eapply (wp_elim _ (fun _ c' => good (3 + total_cost rqs) c' (held ++ leaked)) (fun _ _ => True)) in Hlen; [exact Hlen|].
      apply (wp_len b node _ _ c br Hb); [|done]. intros k c' _ Hq. by eapply good_quiet. }
    eapply (wp_elim _ (fun m c' => good (total_cost rqs) c' (m :: held ++ leaked) /\ m_branch m = b) (fun _ _ => True)) in Hmap.
    2:{ eapply wp_map_page; [exact G0| |done]. intros m' c' G' _ (Hmb & _). done. }
    destruct Hmap as [G1 Hmb]. split; [|done]. rewrite N.add_0_r.
    eapply (wp_elim _ (fun _ _ => True) (fun _ c' => quiet c1 c')) in Hio.
    2:{ unfold io. rewrite wp_zoom, wp_with_err. apply wp_read_exact_at; [done|done|].
        intros e' h' Hs. by apply same_files_quiet. }
    eapply good_perm; [apply Permutation_middle|]. by eapply good_quiet. }
  destruct (client_run_good rqs 0 c2 held (m :: leaked) G2) as [more G']. intros c'.
  eapply (leaked_blocks 0 c' _ m); [exact G'|]. apply elem_of_app; right. apply elem_of_app; right. left.
Qed.

(** C24. A successful write puts its bytes at their addresses in the file of its
    branch and changes no other byte of that file, of another file, or of
    another branch; a read of the range that succeeds gives exactly the bytes
    written. *)
Theorem write_updates_view `{!LenLaws W S Id} c held b node offset bytes c' written :
  reachable (6 * lenN bytes) c held -> write b node offset bytes c = (c', Ok written) ->
  written = lenN bytes /\
  (forall b' node' a, byte_view c' b' node' a =
    if region b node offset (offset + lenN bytes) b' node' a
    then nthN bytes (a - offset) else byte_view c b' node' a) /\
  forall c2 out, read b node offset (lenN bytes) c' = (c2, Ok out) -> out = bytes.
Proof.
  intros (leaked & G)%reachable_good Hrun.
  eapply (wp_elim _ (fun n c1 => n = lenN bytes /\
    wrote c c1 b node offset bytes offset (offset + lenN bytes) /\
    good (3 * lenN bytes) c1 (held ++ leaked) /\
    (forall br file_len, c_branches c1 !! b = Some br -> s_len (store br) node = Ok file_len ->
      offset + lenN bytes <= file_len)) (fun _ _ => True)) in Hrun.
  2:{ apply wp_and_keeps with (P := lens_kept); [apply lens_write|].
      eapply (wp_cache_write _ _ _ _ (3 * lenN bytes)); [eapply good_le; [done|lia]| |done].
      intros c1 br Hb G1 (flen & Hl & Hle) Wr HL. split; [done|]. split; [done|]. split; [done|].
      intros br1 flen1 Hb1. rewrite (lens_len c c1 b br br1 node HL Hb Hb1). intros Hl1.
      by assert (flen1 = flen) as -> by congruence. }
  destruct Hrun as (-> & Wr & G1 & Hfit). split; [done|]. split; [exact Wr|].
  intros c2 out Hread. rewrite <-(N.add_0_r (3 * lenN bytes)) in G1.
  eapply (wp_elim _ (fun out _ => lenN out = lenN bytes /\ forall j, j < lenN out -> nthN out j = nthN bytes j)
    (fun _ _ => True)) in Hread.
  2:{ eapply wp_cache_read; [done| |done].
      intros out' c3 br Hb _ _ (file_len & Hl & Hlen) Hj. pose proof (Hfit br file_len Hb Hl) as Hle.
      split; [lia|]. intros j Hlt. rewrite Hj, Wr by done.
      unfold region. rewrite bool_decide_true, in_range_true by (done || lia). cbn. f_equal. lia. }
  destruct Hread as [Hlen Hj]. apply list_eq_nthN. intros j. destruct (N.lt_ge_cases j (lenN out)) as [Hlt|Hge]; [by apply Hj|].
  by rewrite !nthN_ge by lia.
Qed.

(** C25. A successful [sync_all] changes nothing any branch sees, and afterwards the
    branch's store holds, up to the end of each file, the bytes the branch sees
    in every page that no client has mapped. *)
Theorem sync_all_reaches_store n c held b c' :
  reachable n c held -> sync_all b c = (c', Ok tt) ->
  (forall b' node a, byte_view c' b' node a = byte_view c b' node a) /\
  exists br, c_branches c' !! b = Some br /\
    forall k page, aligned k -> page_view c' b k = Some page ->
      (forall i p, s_ident (store br) k = Ok i -> c_pages c' !! i = Some p ->
         active_pages br !! cp_id p = None) ->
      agree (s_len (store br) k.1) k.2 page (s_content (store br) k).
Proof.
  intros (leaked & G)%reachable_good Hrun.
  eapply (wp_elim _ (fun _ c1 => good n c1 (held ++ leaked) /\ same_views c c1 /\
    exists br, c_branches c1 !! b = Some br /\ forall k, ~ is_dirty (dirty_pages br) k)
    (fun _ _ => True)) in Hrun.
  2:{ eapply wp_sync_all; [done| |done]. intros c1 br G1 V1 Hb Hd. split; [done|]. split; [done|].
      by exists br. }
  destruct Hrun as (G1 & V1 & br & Hb & Hd). split; [intros; by apply byte_view_same|].
  exists br. split; [done|]. intros k page Hk Hpage Hact. unfold page_view in Hpage.
  rewrite Hb in Hpage. destruct (s_ident (store br) k) as [i|] eqn:Hi; [|done].
  destruct (c_pages c' !! i) as [p|] eqn:Hp; injection Hpage as <-; [|apply agree_refl].
  destruct G1 as (I1 & _ & _). destruct (inv_branch _ _ I1 _ _ Hb) as [_ (Ha & _ & _ & Hc & _)].
  eapply Hc; try done. intros (m & Hm & Hmb & Hmk & _).
  destruct (inv_mapping _ _ I1 m Hm) as (_ & _ & _ & br' & i' & Hb' & Hi' & Hp' & _).
  rewrite Hmb in Hb'. rewrite Hmk in Hi'. simplify_eq.
  rewrite Hi in Hi'. injection Hi' as <-. specialize (Hact _ _ eq_refl Hp'). rewrite Ha in Hact.
  destruct (N.eqb_spec (live_count (held ++ leaked) (m_branch m) (cp_id (m_page m))) 0) as [Hz|]; [|done].
  by destruct (live_count_zero _ _ _ _ Hz Hm eq_refl).
Qed.

(** Mapping a page for reading gives the resident page of its identity. *)
Lemma map_read_page n c ms b node offset c' m :
  good (3 + n) c ms -> map_page b node offset flag_R c = (c', Ok m) ->
  good n c' (m :: ms) /\ steady c c' /\ aligned (node, offset) /\
  exists i, sees c b (node, offset) i /\ c_pages c' !! i = Some (m_page m).
Proof.
  intros G Hrun.
  eapply (wp_elim _ (fun m c' => good n c' (m :: ms) /\ mapped c c' b (node, offset) flag_R m)
    (fun _ _ => True)) in Hrun; [|by eapply wp_map_page].
  destruct Hrun as (G' & Hmb & Hmk & _ & _ & Hst). split; [done|].
  specialize (Hst eq_refl). split; [done|].
  destruct (inv_mapping _ _ (proj1 G') m (list_elem_of_here _ _)) as (_ & Hal & _ & br & i & Hb & Hi & Hp & _).
  rewrite Hmb in Hb. rewrite Hmk in Hi, Hal. split; [done|]. exists i. split; [|done]. apply Hst; [done|]. by exists br.
Qed.

(** Pages that a lineage has not changed are one physical page: when two
    branches see the same identity for a page, mapping it for reading in the
    one and then in the other, in whatever order they fault, yields the same
    page (number and backing file). *)
Theorem unchanged_pages_shared c held b1 b2 node offset i c1 m1 c2 m2 :
  reachable 6 c held ->
  sees c b1 (node, offset) i -> sees c b2 (node, offset) i ->
  map_page b1 node offset flag_R c = (c1, Ok m1) ->
  map_page b2 node offset flag_R c1 = (c2, Ok m2) ->
  m_page m1 = m_page m2.
Proof.
  intros (leaked & G)%reachable_good Hs1 Hs2 R1 R2.
  destruct (map_read_page 3 c _ b1 node offset c1 m1 G R1) as (G1 & [S1 P1] & Hal & i1 & Hi1 & Hp1).
  destruct (map_read_page 0 c1 _ b2 node offset c2 m2 G1 R2) as (G2 & [S2 P2] & _ & i2 & Hi2 & Hp2).
  apply (S1 b2 (node, offset) i2 Hal) in Hi2.
  destruct Hs1 as (br1 & Hb1 & ?), Hs2 as (br2 & Hb2 & ?), Hi1 as (? & ? & ?), Hi2 as (? & ? & ?).
  simplify_eq. assert (i1 = i2) as -> by congruence.
  rewrite (lookup_weaken _ _ _ _ Hp1 P2) in Hp2. by injection Hp2.
Qed.

(** C26. The cache keeps no page that no branch can see: in every reachable state,
    also after copies, failed requests and removals of branches, each resident
    page is the page some branch sees under some key. *)
Theorem resident_pages_visible n c held i p :
  reachable n c held -> c_pages c !! i = Some p ->
  exists b k, aligned k /\ sees c b k i.
Proof. intros (leaked & _ & O & _)%reachable_good Hp. by apply (O i p). Qed.

(** C27. Returning a mapping a client holds to the branch it came from succeeds, and
    writing dirty pages back never finds a page missing ([StaleMapping]). *)
Theorem held_mappings_return n c held :
  reachable n c held ->
  (forall m, m ∈ held -> exists c', unmap (m_branch m) m c = (c', Ok tt)) /\
  (forall b, (sync_all b c).2 <> Err StaleMapping) /\
  (forall b node, (sync b node c).2 <> Err StaleMapping).
Proof.
  intros (leaked & G)%reachable_good. split; [|split].
  - intros m Hm. destruct (elem_of_Permutation held m) as [[held' P] _]; [done|].
    assert (good n c (m :: held' ++ leaked)) as Gm by (eapply good_perm; [|done]; by rewrite P).
    pose proof (wp_unmap (m_branch m) m (fun _ _ => True) (fun _ _ => False) n c _ Gm eq_refl
      (fun _ _ _ => I)) as Hwp.
    unfold wp in Hwp. destruct (unmap (m_branch m) m c) as [c' [[]|e]]; [by eexists|done].
  - intros b. pose proof (wp_sync_all b n (fun _ _ => True) (fun e _ => e <> StaleMapping) c _ G
      (fun _ _ _ _ _ _ => I) (fun _ _ _ _ He => He)) as Hwp.
    unfold wp in Hwp. destruct (sync_all b c) as [c' [a|e]]; cbn; congruence.
  - intros b node. pose proof (wp_sync b node n (fun _ _ => True) (fun e _ => e <> StaleMapping) c _ G
      (fun _ _ _ _ _ _ _ _ => I) (fun _ _ _ _ He => He)) as Hwp.
    unfold wp in Hwp. destruct (sync b node c) as [c' [a|e]]; cbn; congruence.
Qed.

(** Page accounting counts every physical page once however many branches
    share it: the resident count is the number of distinct pages some
    requested branch sees, the shared count the number of those that at least
    two of the requested branches see. *)
Theorem page_accounting_counts n c held requested c' acc :
  reachable n c held -> page_accounting requested c = (c', Ok acc) ->
  exists sets : list (gset N),
    Forall2 (fun b ids => forall id, id ∈ ids <-> resident c b id) requested sets /\
    c_resident acc = size (⋃ sets) /\
    exists shared : gset N, c_shared acc = size shared /\
      forall id, id ∈ shared <-> (2 <= holders id sets)%nat.
Proof.
  intros (leaked & G)%reachable_good Hrun.
  eapply (wp_elim _ (fun acc _ => exists sets : list (gset N),
    Forall2 (fun b ids => forall id, id ∈ ids <-> resident c b id) requested sets /\
    acc = mkCacheAccounting (size (count_refs sets)) (count_shared (count_refs sets)))
    (fun _ _ => True)) in Hrun.
  2:{ eapply wp_page_accounting; [done| |done]. intros sets c1 _ _ Hs. by exists sets. }
  destruct Hrun as (sets & Hs & ->). exists sets. split; [done|]. cbn. split.
  - by rewrite <-dom_count_refs, size_dom.
  - exists (dom (filter (fun kv : N * N => 1 < kv.2) (count_refs sets))). split.
    + unfold count_shared. by rewrite size_dom.
    + apply dom_shared_refs.
Qed.

End spec.

#[export] Instance MemoryStore_lens : LenLaws Statics MemoryStore RedoxPageIdentity.
Proof.
  split.
  - intros node offset [g s] node'. done.
  - intros node offset [g s] node'. cbn. done.
  - intros node offset n [g s] node'. done.
  - intros node offset bytes n [g s] [= <-] Hin node'. cbn [snd fst] in *.
    change (CacheTypes.write_node node offset bytes (g, s)) with
      ((g, mem_written (node, offset) bytes s), Ok (E := io_error) (lenN bytes)).
    cbn [fst snd s_len MemoryStore_view]. f_equal. rewrite mem_written_data. cbn [fst snd].
    case_decide; [|done]. subst. rewrite length_file_write. lia.
Qed.

(** ** A lineage of one small file

    The in-memory store with file 7 of two pages, branch 1 of a new cache. *)

Module CacheExample.

Definition file : list byte := replicate 5000 Byte.x61.
Definition start : Cache Statics MemoryStore RedoxPageIdentity :=
  (new 1 (mkHost ∅ 0 []) (Memory.with_files [(7, file)]).1 1 (Memory.with_files [(7, file)]).2).1.

Definition run (rqs : list request) := client_run rqs (start, []).

Lemma file_ok : store_ok (Memory.with_files [(7, file)]).1 (Memory.with_files [(7, file)]).2.
Proof.
  set (ib := mkIdentity (mkGeneration None (mkLayer ∅ ∅)) {[ 7 := 1 ]} ∅).
  change (Memory.with_files [(7, file)]) with
    (mkStatics 1 2 1 1, mkMemory (list_to_map [(7, file)]) 0 0 ib).
  assert (forall k i, Identity.page_identity ib k.1 k.2 = Ok i ->
    k.1 = 7 /\ i = (1, k.2 / PAGE_SIZE, 0)) as Hid.
  { intros [node off] i. unfold Identity.page_identity, Identity.object_of, Identity.version_of. cbn.
    destruct (decide (node = 7)) as [->|Hne].
    - rewrite lookup_singleton_eq, lookup_empty. cbn. by intros [= <-].
    - by rewrite lookup_singleton_ne. }
  split; cbn [s_ident MemoryStore_view mem_ids snd fst].
  - intros k i _ [_ ->]%Hid. cbn. lia.
  - intros [n o] [n' o'] i Hk Hk' [H1 ->]%Hid [H2 Heq]%Hid. unfold aligned in *. cbn in *.
    injection Heq as Heq. pose proof (page_split o). pose proof (page_split o'). f_equal; congruence.
Qed.

Lemma run_reachable rqs n :
  total_cost rqs + n <= 1000000 -> reachable n (run rqs).1 (run rqs).2.
Proof.
  intros Hle. exists 1, (mkHost ∅ 0 []), (Memory.with_files [(7, file)]).1, 1,
    (Memory.with_files [(7, file)]).2, rqs.
  split; [apply file_ok|]. split; [unfold u64_MAX; lia|].
  split; [change (1 + (total_cost rqs + n) <= u64_MAX); unfold u64_MAX; lia|].
  symmetry. apply surjective_pairing.
Qed.

(** Branch 1 opens the file, writes a page of it and keeps it mapped. *)
Definition mapped_requests : list request :=
  [ROpen 1 7; RWrite 1 7 10 [Byte.x62; Byte.x63]; RMap 1 7 0 flag_RW].

(** The same, given back, then forked. *)
Definition forked_requests : list request :=
  [ROpen 1 7; RWrite 1 7 10 [Byte.x62; Byte.x63]; RFork 1; ROpen 2 7].

Lemma held_mappings_coherent_witness :
  exists m, m ∈ (run mapped_requests).2 /\
    page_view (run mapped_requests).1 (m_branch m) (m_key m) =
      Some (page_bytes (run mapped_requests).1 (m_page m)).
Proof.
  exists (mkMapping 1 1 (7, 0) flag_RW (mkCachePage 2 1)).
  assert (mkMapping 1 1 (7, 0) flag_RW (mkCachePage 2 1) ∈ (run mapped_requests).2) as Hm
    by (replace (run mapped_requests).2 with [mkMapping 1 1 (7, 0) flag_RW (mkCachePage 2 1)]
          by (vm_compute; reflexivity); left).
  split; [exact Hm|].
  apply (held_mappings_coherent 0 _ _ _ (run_reachable mapped_requests 0 ltac:(vm_compute; discriminate)) Hm).
Defined.

Lemma branches_isolated_witness :
  byte_view (client_step ((run forked_requests).1, (run forked_requests).2)
    (RWrite 2 7 10 [Byte.x7a])).1 1 7 10 = Some Byte.x62.
Proof.
  refine (eq_trans (branches_isolated (run forked_requests).1 (run forked_requests).2
    (RWrite 2 7 10 [Byte.x7a]) 1 7 10 _ _) _).
  - apply run_reachable. vm_compute. discriminate.
  - vm_compute. reflexivity.
  - vm_compute. reflexivity.
Defined.

Lemma fork_is_snapshot_witness :
  exists c', fork 1 (run [ROpen 1 7; RWrite 1 7 10 [Byte.x62]]).1 = (c', Ok 2) /\
    byte_view c' 2 7 10 = byte_view (run [ROpen 1 7; RWrite 1 7 10 [Byte.x62]]).1 1 7 10.
Proof.
  pose proof (fork_is_snapshot 0 _ _ 1
    (run_reachable [ROpen 1 7; RWrite 1 7 10 [Byte.x62]] 0 ltac:(vm_compute; discriminate))) as Hf.
  destruct (fork 1 (run [ROpen 1 7; RWrite 1 7 10 [Byte.x62]]).1) as [c' r] eqn:Hrun.
  assert (r = Ok 2) as -> by (transitivity (fork 1 (run [ROpen 1 7; RWrite 1 7 10 [Byte.x62]]).1).2;
    [by rewrite Hrun|vm_compute; reflexivity]).
  exists c'. split; [done|]. apply Hf.
Defined.

Lemma read_returns_view_witness :
  exists c', read 2 7 4094 4 (run forked_requests).1 = (c', Ok (replicate 4 Byte.x61)) /\
    exists br file_len, c_branches (run forked_requests).1 !! 2 = Some br /\
      s_len (store br) 7 = Ok file_len /\ lenN (replicate 4 Byte.x61) = N.min (file_len - 4094) 4.
Proof.
  destruct (read 2 7 4094 4 (run forked_requests).1) as [c' r] eqn:Hrun.
  assert (r = Ok (replicate 4 Byte.x61)) as Hr
    by (transitivity (read 2 7 4094 4 (run forked_requests).1).2;
        [rewrite Hrun; reflexivity|vm_compute; reflexivity]).
  rewrite Hr in Hrun |- *. exists c'. split; [reflexivity|].
  destruct (read_returns_view (run forked_requests).1 (run forked_requests).2 2 7 4094 4 c'
    (replicate 4 Byte.x61) (run_reachable forked_requests 12 ltac:(vm_compute; discriminate)) Hrun)
    as (br & len & H1 & H2 & H3 & _).
  exists br, len. split; [exact H1|]. split; [exact H2|exact H3].
Defined.

Lemma write_updates_view_witness :
  exists c', write 2 7 4095 [Byte.x79; Byte.x7a] (run forked_requests).1 = (c', Ok 2) /\
    byte_view c' 2 7 4096 = Some Byte.x7a /\
    byte_view c' 1 7 4096 = byte_view (run forked_requests).1 1 7 4096.
Proof.
  destruct (write 2 7 4095 [Byte.x79; Byte.x7a] (run forked_requests).1) as [c' r] eqn:Hrun.
  assert (r = Ok 2) as Hr
    by (transitivity (write 2 7 4095 [Byte.x79; Byte.x7a] (run forked_requests).1).2;
        [rewrite Hrun; reflexivity|vm_compute; reflexivity]).
  rewrite Hr in Hrun |- *. exists c'. split; [reflexivity|].
  destruct (write_updates_view (run forked_requests).1 (run forked_requests).2 2 7 4095
    [Byte.x79; Byte.x7a] c' 2 (run_reachable forked_requests 12 ltac:(vm_compute; discriminate)) Hrun)
    as (_ & Hbytes & _).
  split; [exact (Hbytes 2 7 4096)|exact (Hbytes 1 7 4096)].
Defined.

Lemma sync_all_reaches_store_witness :
  exists c', sync_all 2 (run forked_requests).1 = (c', Ok tt) /\
    byte_view c' 2 7 10 = byte_view (run forked_requests).1 2 7 10 /\
    exists br, c_branches c' !! 2 = Some br.
Proof.
  destruct (sync_all 2 (run forked_requests).1) as [c' r] eqn:Hrun.
  assert (r = Ok tt) as Hr
    by (transitivity (sync_all 2 (run forked_requests).1).2;
        [rewrite Hrun; reflexivity|vm_compute; reflexivity]).
  rewrite Hr in Hrun |- *. exists c'. split; [reflexivity|].
  destruct (sync_all_reaches_store 0 (run forked_requests).1 (run forked_requests).2 2 c'
    (run_reachable forked_requests 0 ltac:(vm_compute; discriminate)) Hrun) as (Hv & br & Hb & _).
  split; [apply Hv|]. exists br. exact Hb.
Defined.

Lemma unchanged_pages_shared_witness :
  exists c1 m1 c2 m2, map_page 2 7 0 flag_R (run forked_requests).1 = (c1, Ok m1) /\
    map_page 1 7 0 flag_R c1 = (c2, Ok m2) /\ m_page m1 = m_page m2.
Proof.
  set (c := (run forked_requests).1).
  destruct (map_page 2 7 0 flag_R c) as [c1 [m1|e1]] eqn:H1.
  2:{ exfalso. assert ((map_page 2 7 0 flag_R c).2 = Err e1) as Hx by (rewrite H1; reflexivity).
      revert Hx. vm_compute. discriminate. }
  destruct (map_page 1 7 0 flag_R c1) as [c2 [m2|e2]] eqn:H2.
  2:{ exfalso. assert ((map_page 1 7 0 flag_R (map_page 2 7 0 flag_R c).1).2 = Err e2) as Hx
        by (rewrite H1; cbn [fst]; rewrite H2; reflexivity).
      revert Hx. vm_compute. discriminate. }
  exists c1, m1, c2, m2. split; [reflexivity|]. split; [exact H2|].
  assert (forall b, b = 1 \/ b = 2 -> sees c b (7, 0) (1, 0, 1)) as Hsees.
  { intros b Hb. destruct (c_branches c !! b) as [br|] eqn:Hbr.
    - exists br. split; [exact Hbr|].
      assert ((fun br => s_ident (store br) (7, 0)) <$> (c_branches c !! b) = Some (Ok (1, 0, 1))) as Hx
        by (destruct Hb as [->| ->]; vm_compute; reflexivity).
      rewrite Hbr in Hx. injection Hx as Hx. exact Hx.
    - exfalso. revert Hbr. destruct Hb as [->| ->]; vm_compute; discriminate. }
  apply (unchanged_pages_shared c (run forked_requests).2 2 1 7 0 (1, 0, 1) c1 m1 c2 m2);
    [apply run_reachable; vm_compute; discriminate|apply Hsees; right; reflexivity
    |apply Hsees; left; reflexivity|exact H1|exact H2].
Defined.

Lemma resident_pages_visible_witness :
  exists b k, aligned k /\ sees (run forked_requests).1 b k (1, 0, 1).
Proof.
  apply (resident_pages_visible 0 _ _ (1, 0, 1) (mkCachePage 2 1)
    (run_reachable forked_requests 0 ltac:(vm_compute; discriminate))).
  vm_compute. reflexivity.
Defined.

Lemma held_mappings_return_witness :
  exists c', unmap 1 (mkMapping 1 1 (7, 0) flag_RW (mkCachePage 2 1)) (run mapped_requests).1 = (c', Ok tt).
Proof.
  destruct (held_mappings_return 0 _ _ (run_reachable mapped_requests 0 ltac:(vm_compute; discriminate)))
    as [Hret _].
  apply (Hret (mkMapping 1 1 (7, 0) flag_RW (mkCachePage 2 1))).
  replace (run mapped_requests).2 with [mkMapping 1 1 (7, 0) flag_RW (mkCachePage 2 1)]
    by (vm_compute; reflexivity).
  left.
Defined.

Lemma page_accounting_counts_witness :
  exists c', page_accounting [1; 2] (run forked_requests).1 = (c', Ok (mkCacheAccounting 1 1)) /\
    exists sets : list (gset N), 1%nat = size (⋃ sets).
Proof.
  destruct (page_accounting [1; 2] (run forked_requests).1) as [c' r] eqn:Hrun.
  assert (r = Ok (mkCacheAccounting 1 1)) as Hr
    by (transitivity (page_accounting [1; 2] (run forked_requests).1).2;
        [rewrite Hrun; reflexivity|vm_compute; reflexivity]).
  rewrite Hr in Hrun |- *. exists c'. split; [reflexivity|].
  destruct (page_accounting_counts 0 (run forked_requests).1 (run forked_requests).2 [1; 2] c' _
    (run_reachable forked_requests 0 ltac:(vm_compute; discriminate)) Hrun) as (sets & _ & Hs & _).
  exists sets. exact Hs.
Defined.

(** The same cache on a host that fails the fourth call: reading from the page
    that was just loaded. *)
Definition faulty_start : Cache Statics MemoryStore RedoxPageIdentity :=
  (new 1 (mkHost ∅ 0 [Full; Full; Full; Fault (RawOs EIO)])
    (Memory.with_files [(7, file)]).1 1 (Memory.with_files [(7, file)]).2).1.
Definition faulty : Cache Statics MemoryStore RedoxPageIdentity := (client_run [ROpen 1 7] (faulty_start, [])).1.
Definition faulty_len := with_store_mut 1 (ns_len 7) faulty.
Definition faulty_map := map_page 1 7 0 flag_R faulty_len.1.
Definition faulty_mapping : DaxPageMapping :=
  match faulty_map.2 with Ok m => m | Err _ => mkMapping 0 0 (0, 0) flag_R (mkCachePage 0 0) end.
Definition faulty_read := io (W := Statics) (S := MemoryStore) (Id := RedoxPageIdentity)
  (read_exact_at (cp_backing (m_page faulty_mapping)) 4 0) faulty_map.1.

Lemma failed_read_blocks_branch_witness :
  (read 1 7 0 4 faulty).2 = Err (Io (RawOs EIO)) /\
  (fork 1 (client_run [RSyncAll 1; RRead 1 7 0 4] (faulty_read.1, [])).1).2 = Err ActiveMappings.
Proof.
  assert (reachable (3 + total_cost [RSyncAll 1; RRead 1 7 0 4]) faulty []) as Hr.
  { exists 1, (mkHost ∅ 0 [Full; Full; Full; Fault (RawOs EIO)]), (Memory.with_files [(7, file)]).1, 1,
      (Memory.with_files [(7, file)]).2, [ROpen 1 7].
    split; [apply file_ok|]. split; [by vm_compute|]. split; [by vm_compute|]. reflexivity. }
  assert (with_store_mut 1 (ns_len 7) faulty = (faulty_len.1, Ok 5000)) as H1 by (vm_compute; reflexivity).
  assert (map_page 1 7 (0 / PAGE_SIZE * PAGE_SIZE) flag_R faulty_len.1 = (faulty_map.1, Ok faulty_mapping)) as H2
    by (vm_compute; reflexivity).
  assert (io (read_exact_at (cp_backing (m_page faulty_mapping))
    (N.min (PAGE_SIZE - 0 mod PAGE_SIZE) (N.min (5000 - 0) 4)) (0 mod PAGE_SIZE)) faulty_map.1 =
    (faulty_read.1, Err (Io (RawOs EIO)))) as H3 by (vm_compute; reflexivity).
  destruct (failed_read_blocks_branch faulty [] 1 7 0 4 5000 faulty_len.1 faulty_mapping faulty_map.1 (Io (RawOs EIO))
    faulty_read.1 [RSyncAll 1; RRead 1 7 0 4] Hr H1 ltac:(lia) ltac:(lia) ltac:(vm_compute; discriminate) H2 H3)
    as (Hread & Hfork & _).
  split; [rewrite Hread; reflexivity|exact Hfork].
Defined.

End CacheExample.
