(* ===== verification/PageCache.v ===== *)
(** * The page cache of one filesystem (crates/minidox-cache/src/lib.rs)

    [PageCache] keeps one host file per inode and hands out DAX mappings of
    ranges of it.  It counts the mappings of every page, writes mapped pages
    back to the store, and keeps a version per inode that tells which of the
    cached pages ordinary writes have passed by.  This file has the data and
    the operations; [PageCacheFacts] has the invariants. *)

From S2P Require Import Prelude Host CacheTypes.

(** A mapping handed to a client; the client gives it back to [unmap]. *)
Record DaxMapping := mkDax {
  dm_cache_id : N;
  dm_node : NodeId;
  dm_offset : N;
  dm_len : N;
  dm_flags : MapFlags;
  dm_backing : FileId
}.

#[export] Instance DaxMapping_eq_dec : EqDecision DaxMapping.
Proof. solve_decision. Defined.

(** One cached page: its mappings, the access they asked for, and the
    version of the inode the page was last known to hold. *)
Record Fmap := mkFmap { f_rc : N; f_flags : MapFlags; f_version : N }.

Record FileMmapInfo := mkInfo {
  i_backing : FileId;
  i_size : N;
  i_pages : gmap N Fmap;
  i_open_fds : N;
  i_version : N
}.

(** [PageCache<S>], with the host and the state the process shares. *)
Record PageCache (W S : Type) := mkPageCache {
  pc_host : Host;
  pc_world : W;
  pc_id : N;
  pc_store : S;
  pc_files : gmap NodeId FileMmapInfo
}.
Arguments mkPageCache {W S}.
Arguments pc_host {W S}.
Arguments pc_world {W S}.
Arguments pc_id {W S}.
Arguments pc_store {W S}.
Arguments pc_files {W S}.

(** [(start..end).step_by(PAGE_SIZE)]. *)
Definition page_starts (start end_ : N) : list N :=
  (fun i => start + N.of_nat i * PAGE_SIZE) <$>
    seq 0 (N.to_nat ((end_ - start + (PAGE_SIZE - 1)) / PAGE_SIZE)).

Module Mmap.
Section page_cache.
Context {W S : Type} `{!NodeStore W S}.

Abbreviation P := (M (PageCache W S) CacheError).

Implicit Types (pc : PageCache W S) (info : FileMmapInfo) (node : NodeId) (offset : N).

Definition set_host (h : Host) pc : PageCache W S :=
  mkPageCache h (pc_world pc) (pc_id pc) (pc_store pc) (pc_files pc).
Definition set_store (ws : W * S) pc : PageCache W S :=
  mkPageCache (pc_host pc) ws.1 (pc_id pc) ws.2 (pc_files pc).
Definition set_infos (files : gmap NodeId FileMmapInfo) pc : PageCache W S :=
  mkPageCache (pc_host pc) (pc_world pc) (pc_id pc) (pc_store pc) files.

Definition set_size (n : N) info : FileMmapInfo :=
  mkInfo (i_backing info) n (i_pages info) (i_open_fds info) (i_version info).
Definition set_pages (pages : gmap N Fmap) info : FileMmapInfo :=
  mkInfo (i_backing info) (i_size info) pages (i_open_fds info) (i_version info).
Definition set_open_fds (n : N) info : FileMmapInfo :=
  mkInfo (i_backing info) (i_size info) (i_pages info) n (i_version info).
Definition set_version (v : N) info : FileMmapInfo :=
  mkInfo (i_backing info) (i_size info) (i_pages info) (i_open_fds info) v.

(** Host calls and store calls inside the cache. *)
Definition io {A} (m : IO A) : P A := zoom pc_host set_host (with_err Io m).
Definition on_store {A} (m : M (W * S) io_error A) : P A :=
  zoom (fun pc => (pc_world pc, pc_store pc)) set_store (with_err Io m).

(** [files.get_mut(&node).ok_or(NodeNotOpen(node))], and what is done through
    the reference. *)
Definition get_info node : P FileMmapInfo := fun pc =>
  match pc_files pc !! node with
  | Some info => (pc, Ok info)
  | None => (pc, Err (NodeNotOpen node))
  end.
Definition put_info node info : P unit :=
  modify (fun pc => set_infos (<[node := info]> (pc_files pc)) pc).

(** [FileMmapInfo::new]. *)
Definition info_new : P FileMmapInfo :=
  backing ← io tempfile;
  mret (mkInfo backing 0 ∅ 0 0).

(** [FileMmapInfo::in_use]. *)
Definition in_use info : bool :=
  (0 <? i_open_fds info) || existsb (fun p : N * Fmap => 0 <? f_rc p.2) (map_to_list (i_pages info)).

(** [FileMmapInfo::ensure_size]. *)
Definition ensure_size node (size : N) : P unit :=
  info ← get_info node;
  if i_size info <? size then
    _ ← io (set_len (i_backing info) size);
    put_info node (set_size size info)
  else mret tt.

(** [PageCache::new]; [next_id] is the static [NEXT_ID]. *)
Definition new (next_id : N) (h : Host) (w : W) (s : S) : N * PageCache W S :=
  (wrapping_add next_id 1, mkPageCache h w next_id s ∅).

(** ** Pages *)

(** [load_page]. *)
Definition load_page node offset (backing : FileId) : P unit :=
  page ← on_store (read_node node offset PAGE_SIZE);
  io (write_all_at backing (pad_page page) offset).

(** [sync_page]. *)
Definition sync_page node offset : P unit :=
  file_len ← on_store (ns_len node);
  if file_len <=? offset then mret tt else
  let count := N.min (file_len - offset) PAGE_SIZE in
  info ← get_info node;
  page ← io (read_exact_at (i_backing info) count offset);
  written ← on_store (write_node node offset page);
  if negb (written =? count) then throw (Io (Custom WriteZero "short filesystem write")) else
  info ← get_info node;
  match i_pages info !! offset with
  | None => mret tt
  | Some fmap =>
      put_info node (set_pages (<[offset := mkFmap (f_rc fmap) (f_flags fmap) (i_version info)]>
                                 (i_pages info)) info)
  end.

(** One round of the loop of [update_cached_pages]: [bytes] were written at
    [offset], up to [end_]. *)
Definition update_cached_page node offset (bytes : list byte) (end_ page_offset : N) : P unit :=
  info ← get_info node;
  let page_end := page_offset + PAGE_SIZE in
  let overlap_start := N.max offset page_offset in
  let overlap_end := N.min end_ page_end in
  if overlap_end <=? overlap_start then mret tt else
  _ ← io (write_all_at (i_backing info)
            (slice (overlap_start - offset) (overlap_end - overlap_start) bytes) overlap_start);
  match i_pages info !! page_offset with
  | None => mret tt
  | Some fmap =>
      put_info node (set_pages (<[page_offset := mkFmap (f_rc fmap) (f_flags fmap) (i_version info)]>
                                 (i_pages info)) info)
  end.

(** [update_cached_pages]. *)
Definition update_cached_pages node offset (bytes : list byte) : P unit :=
  match checked_add offset (lenN bytes) with
  | None => throw (InvalidMapping "write range overflow")
  | Some end_ =>
      info ← get_info node;
      for_each (update_cached_page node offset bytes end_) (btree_keys (i_pages info))
  end.

(** ** Opening and closing *)

(** [PageCache::open]. *)
Definition open node : P unit :=
  pc ← get;
  _ ← (match pc_files pc !! node with
       | Some _ => mret tt
       | None => info ← info_new; put_info node info
       end);
  info ← get_info node;
  _ ← (if negb (in_use info) then on_store (on_open_node node) else mret tt);
  match checked_add (i_open_fds info) 1 with
  | None => throw (InvalidMapping "open reference count overflow")
  | Some n => put_info node (set_open_fds n info)
  end.

(** [PageCache::close]. *)
Definition close node : P unit :=
  info ← get_info node;
  match checked_sub (i_open_fds info) 1 with
  | None => throw (InvalidMapping "node is not open")
  | Some n =>
      let info := set_open_fds n info in
      _ ← put_info node info;
      if negb (in_use info) then on_store (on_close_node node) else mret tt
  end.

(** ** Mapping *)

(** One round of the loop of [map]. *)
Definition map_one node (flags : MapFlags) (page_offset : N) : P unit :=
  info ← get_info node;
  let must_load := match i_pages info !! page_offset with
                   | None => true
                   | Some fmap => negb (f_version fmap =? i_version info)
                   end in
  _ ← (if must_load then load_page node page_offset (i_backing info) else mret tt);
  put_info node (set_pages
    (<[page_offset :=
        match i_pages info !! page_offset with
        | Some fmap => mkFmap (wrapping_add (f_rc fmap) 1) (flags_or (f_flags fmap) flags)
                         (i_version info)
        | None => mkFmap 1 flags (i_version info)
        end]> (i_pages info)) info).

(** [PageCache::map]. *)
Definition map node offset (len : N) (flags : MapFlags) : P DaxMapping :=
  if len =? 0 then throw (InvalidMapping "mapping length must be non-zero")
  else if negb (offset mod PAGE_SIZE =? 0) then
    throw (InvalidMapping "mapping offset must be page aligned")
  else if negb (READ flags) && negb (WRITE flags) then
    throw (InvalidMapping "mapping must be readable or writable")
  else
  match checked_next_multiple_of len PAGE_SIZE with
  | None => throw (InvalidMapping "mapping range overflow")
  | Some aligned_len =>
  match checked_add offset aligned_len with
  | None => throw (InvalidMapping "mapping range overflow")
  | Some end_ =>
      _ ← ensure_size node end_;
      _ ← for_each (map_one node flags) (page_starts offset end_);
      pc ← get;
      info ← get_info node;
      mret (mkDax (pc_id pc) node offset aligned_len flags (i_backing info))
  end end.

(** One round of the loop of [unmap]. *)
Definition unmap_one node (page_offset : N) : P unit :=
  info ← get_info node;
  match i_pages info !! page_offset with
  | None => throw StaleMapping
  | Some fmap =>
      _ ← (if WRITE (f_flags fmap) then sync_page node page_offset else mret tt);
      match checked_sub (f_rc fmap) 1 with
      | None => throw StaleMapping
      | Some n =>
          info ← get_info node;
          put_info node (set_pages
            (alter (fun f => mkFmap n (f_flags f) (f_version f)) page_offset (i_pages info)) info)
      end
  end.

(** [PageCache::unmap]. *)
Definition unmap (mapping : DaxMapping) : P unit :=
  pc ← get;
  if negb (dm_cache_id mapping =? pc_id pc) then throw StaleMapping else
  let node := dm_node mapping in
  _ ← get_info node;
  match checked_add (dm_offset mapping) (dm_len mapping) with
  | None => throw (InvalidMapping "mapping range overflow")
  | Some end_ =>
      _ ← for_each (unmap_one node) (page_starts (dm_offset mapping) end_);
      info ← get_info node;
      if negb (in_use info) then on_store (on_close_node node) else mret tt
  end.

(** ** Reading, writing and writing back *)

(** The pages of a range are all cached at the inode's version. *)
Definition fully_cached info (start_page end_ : N) : bool :=
  forallb (fun page => match i_pages info !! page with
                       | Some fmap => f_version fmap =? i_version info
                       | None => false
                       end) (page_starts start_page end_).

(** [PageCache::read] into a buffer of length [len]: the bytes read. *)
Definition read node offset (len : N) : P (list byte) :=
  file_len ← on_store (ns_len node);
  if (file_len <=? offset) || (len =? 0) then mret [] else
  let count := N.min (file_len - offset) len in
  pc ← get;
  match pc_files pc !! node with
  | None => on_store (read_node node offset count)
  | Some info =>
      match checked_next_multiple_of (offset + count) PAGE_SIZE with
      | None => throw (InvalidMapping "read range overflow")
      | Some end_ =>
          if fully_cached info (offset / PAGE_SIZE * PAGE_SIZE) end_
          then io (read_exact_at (i_backing info) count offset)
          else on_store (read_node node offset count)
      end
  end.

(** [PageCache::write]. *)
Definition write node offset (bytes : list byte) : P N :=
  written ← on_store (write_node node offset bytes);
  pc ← get;
  _ ← (match pc_files pc !! node with
       | None => mret tt
       | Some info =>
           _ ← put_info node (set_version (wrapping_add (i_version info) 1) info);
           update_cached_pages node offset (slice 0 written bytes)
       end);
  mret written.

(** The pages [sync] writes back, in offset order. *)
Definition writable_pages info : list N :=
  filter (fun page => (WRITE ∘ f_flags) <$> i_pages info !! page = Some true)
    (btree_keys (i_pages info)).

(** [PageCache::sync]. *)
Definition sync node : P unit :=
  info ← get_info node;
  for_each (sync_page node) (writable_pages info).

End page_cache.
End Mmap.
