(* ===== verification/PageCacheInv.v ===== *)
(** * What the page cache keeps (crates/minidox-cache/src/lib.rs)

    The contract [NodeLaws] the cache relies on, the state of one inode's
    pages, and what each operation of [PageCache] does to it. *)

From S2P Require Import Prelude Host CacheTypes PageCache.
Import Mmap.

(** ** The store *)

(** What can be seen of a node store: the bytes of every node, and how many
    times a node is held open. *)
Class NodeView (S : Type) := {
  nv_data : S -> NodeId -> list byte;
  nv_opened : S -> NodeId -> N
}.

Section view.
Context {S : Type} `{!NodeView S}.

(** The byte at [i] of a node, zero past its end. *)
Definition nv_at (s : S) (node : NodeId) (i : N) : byte :=
  default zero_byte (nthN (nv_data s node) i).

Definition same_node (node : NodeId) (s s' : S) : Prop :=
  nv_data s' node = nv_data s node /\ nv_opened s' node = nv_opened s node.

Definition same_nodes (s s' : S) : Prop := forall node, same_node node s s'.

(** Only the [n] bytes at [off] of [node] may differ, and [node] may grow. *)
Definition patched (node : NodeId) (off n : N) (s s' : S) : Prop :=
  (forall node', node' <> node -> same_node node' s s') /\
  nv_opened s' node = nv_opened s node /\
  lenN (nv_data s node) <= lenN (nv_data s' node) /\
  forall i, i < off \/ off + n <= i -> nv_at s' node i = nv_at s node i.
End view.

(** The behaviour of the [NodeStore] methods: reads are exact up to the end of
    the node, a write puts the bytes it reports at the offset, opening and
    closing change no contents. *)
Class NodeLaws (W S : Type) `{!NodeStore W S} `{!NodeView S} : Prop := {
  nl_len node ws :
    wp (ns_len node) (fun n ws' => n = lenN (nv_data ws.2 node) /\ same_nodes ws.2 ws'.2)
      (fun _ ws' => same_nodes ws.2 ws'.2) ws;
  nl_read node off n ws :
    wp (read_node node off n)
      (fun bytes ws' => bytes = slice off n (nv_data ws.2 node) /\ same_nodes ws.2 ws'.2)
      (fun _ ws' => same_nodes ws.2 ws'.2) ws;
  nl_write node off bytes ws :
    wp (write_node node off bytes)
      (fun k ws' => k <= lenN bytes /\ patched node off k ws.2 ws'.2 /\
        (0 < k -> off + k <= lenN (nv_data ws'.2 node)) /\
        forall i, i < k -> Some (nv_at ws'.2 node (off + i)) = nthN bytes i)
      (fun _ ws' => patched node off (lenN bytes) ws.2 ws'.2) ws;
  nl_open node ws :
    wp (on_open_node node)
      (fun _ ws' => (forall node', node' <> node -> same_node node' ws.2 ws'.2) /\
        nv_data ws'.2 node = nv_data ws.2 node /\ nv_opened ws'.2 node = nv_opened ws.2 node + 1)
      (fun _ ws' => same_nodes ws.2 ws'.2) ws;
  nl_close node ws :
    wp (on_close_node node)
      (fun _ ws' => (forall node', node' <> node -> same_node node' ws.2 ws'.2) /\
        nv_data ws'.2 node = nv_data ws.2 node /\ nv_opened ws'.2 node = nv_opened ws.2 node - 1)
      (fun _ ws' => (forall node', node' <> node -> same_node node' ws.2 ws'.2) /\
        nv_data ws'.2 node = nv_data ws.2 node) ws
}.

(** ** Page ranges *)

Lemma elem_of_page_starts p start end_ :
  p ∈ page_starts start end_ <-> start <= p < end_ /\ (p - start) mod PAGE_SIZE = 0.
Proof.
  unfold page_starts. rewrite list_elem_of_fmap. split.
  - intros (i & -> & Hi). apply elem_of_seq in Hi. split.
    + assert (N.of_nat i < (end_ - start + (PAGE_SIZE - 1)) / PAGE_SIZE) by lia. divlia.
    + replace (start + N.of_nat i * PAGE_SIZE - start) with (N.of_nat i * PAGE_SIZE) by lia.
      by apply N.Div0.mod_mul.
  - intros [Hp Hm]. exists (N.to_nat ((p - start) / PAGE_SIZE)). split; [divlia|].
    apply elem_of_seq. split; [apply Nat.le_0_l|]. cbn. divlia.
Qed.

Lemma NoDup_page_starts start end_ : NoDup (page_starts start end_).
Proof.
  unfold page_starts. apply NoDup_fmap_2; [|apply NoDup_seq].
  intros i j Hij. divlia.
Qed.

Lemma aligned_in_range p start end_ :
  start mod PAGE_SIZE = 0 ->
  p ∈ page_starts start end_ <-> start <= p < end_ /\ p mod PAGE_SIZE = 0.
Proof. intros Hs. rewrite elem_of_page_starts. divlia. Qed.

Definition in_page (p i : N) : Prop := p <= i < p + PAGE_SIZE.

(** Pages at different aligned offsets have no byte in common. *)
Lemma pages_apart p q i :
  p mod PAGE_SIZE = 0 -> q mod PAGE_SIZE = 0 -> p <= i < p + PAGE_SIZE -> q <= i < q + PAGE_SIZE ->
  p = q.
Proof. intros. divlia. Qed.

Section facts.
Context {W S : Type} `{!NodeStore W S} `{!NodeView S}.

Implicit Types (pc : PageCache W S) (info : FileMmapInfo) (node : NodeId) (p q i : N)
  (c bytes : list byte) (s : S).

(** ** The pages of one node *)

(** A byte of a cached page is the byte of the store, or it is suspected to
    differ and lies before the end of the node. *)
Definition byte_ok s node (susp : Prop) c i : Prop :=
  nthN c i = Some (nv_at s node i) \/ susp /\ i < lenN (nv_data s node).

(** The state of a node: [c] is its backing file, the pages [must] holds of
    are cached, [fok] holds of the mapping count and access of every cached
    page, and only the bytes [susp] holds of may differ from the store. *)
Record node_ok pc node info c (must : N -> Prop) (fok : N -> N -> MapFlags -> Prop)
    (susp : N -> Prop) : Prop := {
  nk_info : pc_files pc !! node = Some info;
  nk_file : h_files (pc_host pc) !! i_backing info = Some c;
  nk_size : lenN c = i_size info;
  nk_top : i_size info <= u64_MAX;
  nk_next : i_backing info < h_next_file (pc_host pc);
  nk_must : forall p, must p -> is_Some (i_pages info !! p);
  nk_aligned : forall p f, i_pages info !! p = Some f -> p mod PAGE_SIZE = 0 /\ p + PAGE_SIZE <= i_size info;
  nk_fmap : forall p f, i_pages info !! p = Some f -> fok p (f_rc f) (f_flags f);
  nk_bytes : forall p f i, i_pages info !! p = Some f -> p <= i < p + PAGE_SIZE ->
    byte_ok (pc_store pc) node (susp i) c i
}.

(** Everything but [node] is as it was. *)
Record frame node pc pc' : Prop := {
  fr_id : pc_id pc' = pc_id pc;
  fr_infos : forall node', node' <> node -> pc_files pc' !! node' = pc_files pc !! node';
  fr_files : forall f, f < h_next_file (pc_host pc) ->
    (forall info, pc_files pc !! node = Some info -> f <> i_backing info) ->
    h_files (pc_host pc') !! f = h_files (pc_host pc) !! f;
  fr_next : h_next_file (pc_host pc) <= h_next_file (pc_host pc');
  fr_backing : forall info, pc_files pc !! node = Some info ->
    exists info', pc_files pc' !! node = Some info' /\ i_backing info' = i_backing info;
  fr_nodes : forall node', node' <> node -> same_node node' (pc_store pc) (pc_store pc')
}.

Lemma frame_refl node pc : frame node pc pc.
Proof. split; try done. intros info Hi. by exists info. Qed.

Lemma frame_trans node pc1 pc2 pc3 : frame node pc1 pc2 -> frame node pc2 pc3 ->
  is_Some (pc_files pc1 !! node) -> frame node pc1 pc3.
Proof.
  intros F1 F2 [info Hi]. destruct (fr_backing _ _ _ F1 info Hi) as (info2 & Hi2 & Hb2). split.
  - by rewrite (fr_id _ _ _ F2), (fr_id _ _ _ F1).
  - intros n Hn. by rewrite (fr_infos _ _ _ F2), (fr_infos _ _ _ F1).
  - intros f Hf Hne. rewrite (fr_files _ _ _ F2), (fr_files _ _ _ F1); try done.
    + pose proof (fr_next _ _ _ F1). lia.
    + intros info' Hi'. simplify_eq. rewrite Hb2. by apply Hne.
  - etrans; [apply (fr_next _ _ _ F1)|apply (fr_next _ _ _ F2)].
  - intros info' Hi'. simplify_eq. destruct (fr_backing _ _ _ F2 info2 Hi2) as (info3 & Hi3 & Hb3).
    exists info3. split; [done|congruence].
  - intros n Hn. destruct (fr_nodes _ _ _ F1 n Hn), (fr_nodes _ _ _ F2 n Hn). split; congruence.
Qed.

(** Nor is [node] opened or closed. *)
Definition calm node pc pc' : Prop :=
  frame node pc pc' /\ nv_opened (pc_store pc') node = nv_opened (pc_store pc) node.

Lemma calm_refl node pc : calm node pc pc.
Proof. split; [apply frame_refl|done]. Qed.

Lemma calm_trans node pc1 pc2 pc3 : calm node pc1 pc2 -> calm node pc2 pc3 ->
  is_Some (pc_files pc1 !! node) -> calm node pc1 pc3.
Proof. intros [F1 O1] [F2 O2] Hi. split; [by eapply frame_trans|congruence]. Qed.

(** [in_use] as a proposition. *)
Lemma in_use_true info :
  in_use info = true <->
    0 < i_open_fds info \/ exists p f, i_pages info !! p = Some f /\ 0 < f_rc f.
Proof.
  unfold in_use. rewrite orb_true_iff, N.ltb_lt, existsb_exists.
  setoid_rewrite N.ltb_lt. split; (intros [Ho|Hp]; [by left|right]).
  - destruct Hp as ([p f] & Hin & Hrc). exists p, f.
    split; [|done]. by apply elem_of_map_to_list, list_elem_of_In.
  - destruct Hp as (p & f & Hp & Hrc). exists (p, f).
    split; [|done]. by apply list_elem_of_In, elem_of_map_to_list.
Qed.

(** The counters of a node, without the versions. *)
Definition counts info : gmap N (N * MapFlags) := (fun f => (f_rc f, f_flags f)) <$> i_pages info.

Definition same_counts info info' : Prop :=
  i_backing info' = i_backing info /\ i_size info' = i_size info /\
  i_open_fds info' = i_open_fds info /\ counts info' = counts info.

Lemma same_counts_refl info : same_counts info info.
Proof. done. Qed.

Lemma same_counts_trans info1 info2 info3 :
  same_counts info1 info2 -> same_counts info2 info3 -> same_counts info1 info3.
Proof. unfold same_counts. naive_solver congruence. Qed.

Lemma counts_lookup info p f : i_pages info !! p = Some f -> counts info !! p = Some (f_rc f, f_flags f).
Proof. intros Hp. unfold counts. by rewrite lookup_fmap, Hp. Qed.

Lemma same_counts_page info info' p f' : same_counts info info' -> i_pages info' !! p = Some f' ->
  exists f, i_pages info !! p = Some f /\ f_rc f = f_rc f' /\ f_flags f = f_flags f'.
Proof.
  intros (_ & _ & _ & Hc) Hp. apply counts_lookup in Hp. rewrite Hc in Hp. unfold counts in Hp.
  rewrite lookup_fmap in Hp. destruct (i_pages info !! p) as [f|] eqn:Ef; [|done].
  exists f. cbn in Hp. by simplify_eq.
Qed.

Lemma same_counts_sym info info' : same_counts info info' -> same_counts info' info.
Proof. unfold same_counts. naive_solver. Qed.

Lemma same_counts_in_use info info' : same_counts info info' -> in_use info' = in_use info.
Proof.
  intros H. apply eq_true_iff_eq. rewrite !in_use_true.
  pose proof (same_counts_sym _ _ H) as H'.
  assert (i_open_fds info' = i_open_fds info) as -> by apply H.
  split; (intros [Ho|(p & f & Hp & Hr)]; [by left|right]).
  - destruct (same_counts_page _ _ _ _ H Hp) as (f0 & Hp0 & Hr0 & _). exists p, f0. by rewrite Hr0.
  - destruct (same_counts_page _ _ _ _ H' Hp) as (f0 & Hp0 & Hr0 & _). exists p, f0. by rewrite Hr0.
Qed.

(** A page's version is set. *)
Lemma same_counts_version info p f v :
  i_pages info !! p = Some f ->
  same_counts info (set_pages (<[p := mkFmap (f_rc f) (f_flags f) v]> (i_pages info)) info).
Proof.
  intros Hp. split_and!; try done. unfold counts. cbn. rewrite fmap_insert. cbn.
  apply insert_id. by rewrite lookup_fmap, Hp.
Qed.

(** ** Steps on one node *)

Lemma wp_node_store {A} (m : M (W * S) io_error A) Q R pc :
  wp m (fun a ws => Q a (set_store ws pc)) (fun e ws => R (Io e) (set_store ws pc))
    (pc_world pc, pc_store pc) ->
  wp (on_store m) Q R pc.
Proof. intros Hm. unfold on_store. by wp_steps. Qed.

Lemma wp_node_io {A} (m : IO A) Q R pc :
  wp m (fun a h => Q a (set_host h pc)) (fun e h => R (Io e) (set_host h pc)) (pc_host pc) ->
  wp (io m) Q R pc.
Proof. intros Hm. unfold io. by wp_steps. Qed.

Lemma wp_get_info node Q R pc info :
  pc_files pc !! node = Some info -> Q info pc -> wp (get_info node) Q R pc.
Proof. intros Hi HQ. unfold wp, get_info. by rewrite Hi. Qed.

Section one_node.
Context pc node info c (must : N -> Prop) (fok : N -> N -> MapFlags -> Prop) (susp : N -> Prop).
Hypothesis K : node_ok pc node info c must fok susp.

(** The store answers and nothing can be told apart. *)
Lemma ok_asked ws : same_nodes (pc_store pc) ws.2 ->
  node_ok (set_store ws pc) node info c must fok susp /\ calm node pc (set_store ws pc).
Proof.
  intros Hs. split; [destruct K; split; try done|split; [split; try done|cbn; apply Hs]].
  - intros p f i Hp Hi. unfold byte_ok, nv_at. cbn. rewrite (proj1 (Hs node)).
    by apply (nk_bytes0 p f).
  - intros info' Hi. by exists info'.
Qed.

(** The bytes of the backing file change. *)
Lemma ok_bytes h' c' (susp' : N -> Prop) :
  h_files h' = <[i_backing info := c']> (h_files (pc_host pc)) ->
  h_next_file h' = h_next_file (pc_host pc) ->
  lenN c' = lenN c ->
  (forall p f i, i_pages info !! p = Some f -> p <= i < p + PAGE_SIZE ->
    byte_ok (pc_store pc) node (susp i) c i -> byte_ok (pc_store pc) node (susp' i) c' i) ->
  node_ok (set_host h' pc) node info c' must fok susp' /\ calm node pc (set_host h' pc).
Proof.
  intros Hf Hn Hl Hb. destruct K. split; [split; cbn; try done|split; [split; cbn; try done|done]].
  - by rewrite Hf, lookup_insert_eq.
  - congruence.
  - by rewrite Hn.
  - intros p f i Hp Hi. eapply Hb; [done..|]. by apply (nk_bytes0 p f).
  - intros f _ Hne. rewrite Hf, lookup_insert_ne; [done|]. intros <-. by apply (Hne info).
  - lia.
  - intros info' Hi. by exists info'.
Qed.

(** The host serves a call that leaves the files alone. *)
Lemma ok_host h' : same_files (pc_host pc) h' ->
  node_ok (set_host h' pc) node info c must fok susp /\ calm node pc (set_host h' pc).
Proof.
  intros [Hf Hn]. apply ok_bytes; try done.
  rewrite Hf. symmetry. apply insert_id, K.
Qed.

(** The bookkeeping of the node changes. *)
Lemma ok_put info' (must' : N -> Prop) (fok' : N -> N -> MapFlags -> Prop) :
  i_backing info' = i_backing info -> i_size info' = i_size info ->
  (forall p, must' p -> is_Some (i_pages info' !! p)) ->
  (forall p f, i_pages info' !! p = Some f -> fok' p (f_rc f) (f_flags f)) ->
  (forall p f, i_pages info' !! p = Some f -> is_Some (i_pages info !! p) \/
    p mod PAGE_SIZE = 0 /\ p + PAGE_SIZE <= i_size info /\
    forall i, p <= i < p + PAGE_SIZE -> byte_ok (pc_store pc) node (susp i) c i) ->
  let pc' := set_infos (<[node := info']> (pc_files pc)) pc in
  node_ok pc' node info' c must' fok' susp /\ calm node pc pc'.
Proof.
  intros Hb Hsz Hm Hf Hp pc'. destruct K. split; [split|split; [split|]]; cbn; try done; rewrite ?Hb, ?Hsz; try done.
  - by rewrite lookup_insert_eq.
  - intros p f Hpf. destruct (Hp p f Hpf) as [[f0 Hf0]|(H1 & H2 & _)]; [by eapply nk_aligned0|done].
  - intros p f i Hpf Hi. destruct (Hp p f Hpf) as [[f0 Hf0]|(_ & _ & H3)]; [by eapply nk_bytes0|by apply H3].
  - intros n Hn. by rewrite lookup_insert_ne.
  - intros info0 Hi. exists info'. rewrite lookup_insert_eq. split; [done|]. congruence.
Qed.

(** The store is written to. *)
Lemma ok_patched ws off n (susp' : N -> Prop) :
  patched node off n (pc_store pc) ws.2 ->
  (forall i, susp i -> susp' i) ->
  (forall p f i, i_pages info !! p = Some f -> p <= i < p + PAGE_SIZE -> off <= i < off + n ->
    byte_ok ws.2 node (susp' i) c i) ->
  node_ok (set_store ws pc) node info c must fok susp' /\ calm node pc (set_store ws pc).
Proof.
  intros (Ho & Hop & Hl & Hsame) Hsusp Hin. destruct K.
  split; [split; cbn; try done|split; [split; cbn; try done|done]].
  - intros p f i Hp Hi. destruct (decide (off <= i < off + n)) as [Hr|Hr]; [by eapply Hin|].
    destruct (nk_bytes0 p f i Hp Hi) as [Hc|[Hs Hlt]].
    + left. by rewrite Hsame by lia.
    + right. split; [auto|lia].
  - intros info' Hi. by exists info'.
Qed.

Lemma ok_recount info' :
  same_counts info info' ->
  let pc' := set_infos (<[node := info']> (pc_files pc)) pc in
  node_ok pc' node info' c must fok susp /\ calm node pc pc'.
Proof.
  intros H pc'. apply ok_put; [apply H..| | |].
  - intros p Hp. destruct (nk_must _ _ _ _ _ _ _ K p Hp) as [f Hf].
    destruct (same_counts_page _ _ _ _ (same_counts_sym _ _ H) Hf) as (f' & Hf' & _). eauto.
  - intros p f' Hp. destruct (same_counts_page _ _ _ _ H Hp) as (f & Hf & <- & <-). by apply K.
  - intros p f' Hp. destruct (same_counts_page _ _ _ _ H Hp) as (f & Hf & _). left. eauto.
Qed.

(** What is required of the pages may be weakened. *)
Lemma ok_weaken (must' : N -> Prop) (fok' : N -> N -> MapFlags -> Prop) (susp' : N -> Prop) :
  (forall p, must' p -> must p) ->
  (forall p f, i_pages info !! p = Some f -> fok p (f_rc f) (f_flags f) -> fok' p (f_rc f) (f_flags f)) ->
  (forall p f i, i_pages info !! p = Some f -> p <= i < p + PAGE_SIZE ->
    byte_ok (pc_store pc) node (susp i) c i -> byte_ok (pc_store pc) node (susp' i) c i) ->
  node_ok pc node info c must' fok' susp'.
Proof. intros Hm Hf Hs. destruct K. split; eauto. Qed.
End one_node.

(** ** Loading, writing back and updating a page *)

Context `{!NodeLaws W S}.

Lemma nthN_pad_read s node p j :
  j < PAGE_SIZE ->
  nthN (pad_page (slice p PAGE_SIZE (nv_data s node))) j = Some (nv_at s node (p + j)).
Proof.
  intros Hj. unfold pad_page. rewrite nthN_resize, nthN_slice.
  rewrite (proj2 (N.ltb_lt j PAGE_SIZE)) by done. unfold nv_at.
  by destruct (nthN (nv_data s node) (p + j)).
Qed.

Lemma lenN_pad_page bytes : lenN (pad_page bytes) = PAGE_SIZE.
Proof. unfold lenN. rewrite length_pad_page. apply page_nat_N. Qed.

Lemma lenN_pos_nonempty bytes : 0 < lenN bytes -> bytes <> [].
Proof. by destruct bytes. Qed.

Lemma wp_page_loaded node p Q R pc info c must fok susp :
  node_ok pc node info c must fok susp -> p mod PAGE_SIZE = 0 -> p + PAGE_SIZE <= i_size info ->
  (forall pc' c', calm node pc pc' -> node_ok pc' node info c' must fok susp ->
    (forall i, p <= i < p + PAGE_SIZE -> nthN c' i = Some (nv_at (pc_store pc') node i)) -> Q tt pc') ->
  (forall e pc' c', calm node pc pc' -> node_ok pc' node info c' must fok susp -> R e pc') ->
  wp (load_page node p (i_backing info)) Q R pc.
Proof.
  intros K Hp Hin HQ HR. unfold load_page. wp_steps. apply wp_node_store.
  eapply wp_mono; [apply nl_read| |].
  2:{ intros e ws Hs. destruct (ok_asked _ _ _ _ _ _ _ K ws Hs) as [K1 C1]. by apply (HR _ _ c). }
  intros bytes ws [-> Hs]. cbv beta. cbn [snd] in *.
  destruct (ok_asked _ _ _ _ _ _ _ K ws Hs) as [K1 C1].
  set (pc1 := set_store ws pc) in *. set (page := pad_page _).
  assert (forall i, p <= i < p + PAGE_SIZE -> nthN page (i - p) = Some (nv_at (pc_store pc1) node i)) as Hpage.
  { intros i Hi. unfold page. rewrite nthN_pad_read by lia. replace (p + (i - p)) with i by lia.
    unfold pc1, nv_at. cbn. by rewrite (proj1 (Hs node)). }
  assert (lenN page = PAGE_SIZE) as Hlp by apply lenN_pad_page.
  assert (p + lenN page <= lenN c) as Hpc by (rewrite Hlp, (nk_size _ _ _ _ _ _ _ K); done).
  assert (is_Some (pc_files pc !! node)) as Hsome by (rewrite (nk_info _ _ _ _ _ _ _ K); eauto).
  assert (forall c', (forall i, nthN c' i = nthN c i \/ p <= i < p + lenN page /\ nthN c' i = nthN page (i - p)) ->
    forall q f i, i_pages info !! q = Some f -> q <= i < q + PAGE_SIZE ->
    byte_ok (pc_store pc1) node (susp i) c i -> byte_ok (pc_store pc1) node (susp i) c' i) as Hkeep.
  { intros c' Hc' q f i _ _ Hb. unfold byte_ok in *. destruct (Hc' i) as [->|[Hi ->]]; [done|].
    left. apply Hpage. lia. }
  apply wp_node_io. eapply wp_write_all_torn; [apply K1|apply lenN_pos_nonempty; by rewrite Hlp| |].
  - intros h' Hf Hn.
    destruct (ok_bytes _ _ _ _ _ _ _ K1 h' _ susp Hf Hn) as [K2 C2].
    + rewrite length_file_write. lia.
    + apply Hkeep. intros i. rewrite nthN_write_in by done.
      destruct (N.leb_spec p i), (N.ltb_spec i (p + lenN page)); cbn; auto.
    + apply (HQ _ _ (calm_trans _ _ _ _ C1 C2 Hsome) K2). intros i Hi. rewrite nthN_write_in by done.
      rewrite (proj2 (N.leb_le _ _)), (proj2 (N.ltb_lt _ _)) by lia. by apply Hpage.
  - intros e h' c' Hf Ht Hn. destruct (torn_bytes _ _ _ _ Ht Hpc) as [Hlc Hc'].
    destruct (ok_bytes _ _ _ _ _ _ _ K1 h' c' susp Hf Hn Hlc (Hkeep _ Hc')) as [K2 C2].
    apply (HR _ _ c'); [by eapply calm_trans|done].
Qed.

(** One round of [map]: the page is cached, with one more mapping. *)
Lemma wp_map_one node flags p Q R pc info c must fok fok' susp :
  node_ok pc node info c must fok susp -> p mod PAGE_SIZE = 0 -> p + PAGE_SIZE <= i_size info ->
  (forall q rc fl, q <> p -> fok q rc fl -> fok' q rc fl) ->
  (forall rc fl, fok p rc fl -> fok' p (wrapping_add rc 1) (flags_or fl flags)) ->
  (i_pages info !! p = None -> fok' p 1 flags) ->
  (forall pc' info' c', calm node pc pc' -> i_size info' = i_size info ->
    node_ok pc' node info' c' (fun q => must q \/ q = p) fok' susp -> Q tt pc') ->
  (forall e pc' c', calm node pc pc' -> node_ok pc' node info c' must fok susp -> R e pc') ->
  wp (map_one node flags p) Q R pc.
Proof.
  intros K Hp Hin Ho Hs H1 HQ HR. unfold map_one. wp_steps.
  eapply wp_get_info; [apply K|]. cbv beta zeta. wp_steps.
  set (fmap' := match i_pages info !! p with
                | Some f => mkFmap (wrapping_add (f_rc f) 1) _ _ | None => mkFmap 1 flags _ end).
  assert (forall pc' c', calm node pc pc' -> node_ok pc' node info c' must fok susp ->
    (is_Some (i_pages info !! p) \/
      forall i, p <= i < p + PAGE_SIZE -> nthN c' i = Some (nv_at (pc_store pc') node i)) ->
    Q tt (set_infos (<[node := set_pages (<[p := fmap']> (i_pages info)) info]> (pc_files pc')) pc')) as Hput.
  { intros pc' c' C1 K1 Hc.
    destruct (ok_put _ _ _ _ _ _ _ K1 (set_pages (<[p := fmap']> (i_pages info)) info)
      (fun q => must q \/ q = p) fok') as [K2 C2]; try done; cbn.
    - intros q Hq. destruct (decide (q = p)) as [->|Hne]; [by rewrite lookup_insert_eq|].
      rewrite lookup_insert_ne by done. destruct Hq as [Hq|]; [by apply K|done].
    - intros q f Hf. destruct (decide (q = p)) as [->|Hne].
      + rewrite lookup_insert_eq in Hf. injection Hf as <-. unfold fmap'.
        destruct (i_pages info !! p) as [f|] eqn:Ef; [|by apply H1]. apply Hs. by apply K.
      + rewrite lookup_insert_ne in Hf by done. apply Ho; [done|]. by apply K.
    - intros q f Hf. destruct (decide (q = p)) as [->|Hne].
      + destruct Hc as [Hc|Hc]; [by left|right]. split_and!; [done..|]. intros i Hi. left. by apply Hc.
      + rewrite lookup_insert_ne in Hf by done. left. eauto.
    - refine (HQ _ _ c' _ _ K2); [|done].
      eapply calm_trans; [done..|]. rewrite (nk_info _ _ _ _ _ _ _ K). eauto. }
  destruct (i_pages info !! p) as [f|] eqn:Ef; cbv beta iota.
  - destruct (negb (f_version f =? i_version info)).
    + eapply wp_page_loaded; [done..| |].
      * intros pc' c' C1 K1 _. apply (Hput _ c'); [done..|]. left. eauto.
      * intros e pc' c' C1 K1. by apply (HR _ _ c').
    + wp_steps. apply (Hput pc c); [apply calm_refl|done|]. left. eauto.
  - eapply wp_page_loaded; [done..| |].
    + intros pc' c' C1 K1 Hc. apply (Hput _ c'); [done..|]. by right.
    + intros e pc' c' C1 K1. by apply (HR _ _ c').
Qed.

(** What writing a page back establishes: the page no longer differs from the
    store; after a failure it may. *)
Section write_back.
Context node p (Q : unit -> PageCache W S -> Prop) (R : CacheError -> PageCache W S -> Prop).
Context (must : N -> Prop) (fok : N -> N -> MapFlags -> Prop) (susp : N -> Prop).

Definition written_back pc info c : Prop := forall pc' info',
  calm node pc pc' -> same_counts info info' ->
  node_ok pc' node info' c must fok (fun i => susp i /\ ~ in_page p i) -> Q tt pc'.
Definition not_written_back pc info c : Prop := forall e pc' info',
  calm node pc pc' -> same_counts info info' ->
  node_ok pc' node info' c must fok (fun i => susp i \/ in_page p i) -> R e pc'.

Lemma not_written_back_same pc info c e pc' :
  not_written_back pc info c -> calm node pc pc' -> node_ok pc' node info c must fok susp -> R e pc'.
Proof.
  intros HR C1 K1. apply (HR _ _ info C1 (same_counts_refl _)).
  apply (ok_weaken _ _ _ _ _ _ _ K1); try done. intros q f i _ _ [Hb|[Hs Hi]]; [by left|right; auto].
Qed.

Lemma written_back_calm pc pc1 info c : calm node pc pc1 -> node_ok pc node info c must fok susp ->
  written_back pc info c -> not_written_back pc info c ->
  written_back pc1 info c /\ not_written_back pc1 info c.
Proof.
  intros C1 K HQ HR. assert (is_Some (pc_files pc !! node)) by (rewrite (nk_info _ _ _ _ _ _ _ K); eauto).
  split; [intros pc' info' C2|intros e pc' info' C2]; [apply HQ|apply HR]; by eapply calm_trans.
Qed.

(** The second half of [sync_page], when [count] bytes have been read. *)
Lemma wp_store_page pc info c fmap (len count : N) :
  node_ok pc node info c must fok susp -> i_pages info !! p = Some fmap ->
  len = lenN (nv_data (pc_store pc) node) -> p < len -> count = N.min (len - p) PAGE_SIZE ->
  written_back pc info c -> not_written_back pc info c ->
  wp (written ← on_store (write_node node p (slice p count c));
      if negb (written =? count) then throw (Io (Custom WriteZero "short filesystem write")) else
      info ← get_info node;
      match i_pages info !! p with
      | None => mret tt
      | Some f => put_info node (set_pages (<[p := mkFmap (f_rc f) (f_flags f) (i_version info)]>
                                 (i_pages info)) info)
      end) Q R pc.
Proof.
  intros K Hp Hlen Hlt Hcount HQ HR. wp_steps. apply wp_node_store.
  destruct (nk_aligned _ _ _ _ _ _ _ K p fmap Hp) as [Hal Hend].
  assert (lenN c = i_size info) as Hsz by apply K.
  assert (lenN (slice p count c) = count) as Hls by (apply lenN_slice; lia).
  eapply wp_mono; [apply nl_write| |]; cbn [snd]; rewrite ?Hls.
  2:{ intros e ws2 Hpat.
      destruct (ok_patched _ _ _ _ _ _ _ K ws2 _ _ (fun i => susp i \/ in_page p i) Hpat) as [K3 C3]; [by auto| |].
      - intros q f i Hq Hi Hr. right. destruct Hpat as (_ & _ & Hl & _). split; [|lia].
        right. unfold in_page. lia.
      - by apply (HR _ _ info). }
  intros k ws2 (Hk & Hpat & Htop & Hnew).
  assert (forall i, p <= i < p + k -> nthN c i = Some (nv_at ws2.2 node i)) as Hgood.
  { intros i Hi. specialize (Hnew (i - p)). replace (p + (i - p)) with i in Hnew by lia.
    rewrite Hnew by lia. rewrite nthN_slice. rewrite (proj2 (N.ltb_lt _ _)) by lia. f_equal. lia. }
  destruct (ok_patched _ _ _ _ _ _ _ K ws2 _ _ susp Hpat) as [K3 C3]; [done| |].
  { intros q f i Hq Hi Hr. left. by apply Hgood. }
  destruct (N.eqb_spec k count) as [->|Hne]; cbn [negb]; wp_steps.
  2:{ by apply (not_written_back_same pc info c). }
  eapply wp_get_info; [apply K3|]. cbv beta. rewrite Hp.
  pose proof (same_counts_version info p fmap (i_version info) Hp) as Hsame.
  destruct (ok_recount _ _ _ _ _ _ _ K3 _ Hsame) as [K4 C4].
  refine (HQ _ _ _ Hsame _).
  { eapply calm_trans; [done..|]. rewrite (nk_info _ _ _ _ _ _ _ K). eauto. }
  apply (ok_weaken _ _ _ _ _ _ _ K4); [done..|].
  intros q f i Hq _ Hbyte. destruct (decide (p <= i < p + PAGE_SIZE)) as [Hi|Hi].
  2:{ destruct Hbyte as [?|[? ?]]; [by left|right; auto]. }
  left. destruct (decide (i < p + count)) as [Hic|Hic]; [apply Hgood; lia|].
  destruct (nk_bytes _ _ _ _ _ _ _ K p fmap i Hp Hi) as [Hb2|[_ Hb2]]; [|exfalso; lia].
  rewrite Hb2. f_equal. symmetry. apply Hpat. lia.
Qed.

Lemma wp_page_written_back pc info c fmap :
  node_ok pc node info c must fok susp -> i_pages info !! p = Some fmap ->
  written_back pc info c -> not_written_back pc info c ->
  wp (sync_page node p) Q R pc.
Proof.
  intros K Hp HQ HR. unfold sync_page. wp_steps.
  apply wp_node_store. eapply wp_mono; [apply nl_len| |].
  2:{ intros e ws Hs. destruct (ok_asked _ _ _ _ _ _ _ K ws Hs) as [K1 C1].
      by apply (not_written_back_same pc info c). }
  intros len ws [-> Hs]. cbv beta. cbn [snd] in *. destruct (ok_asked _ _ _ _ _ _ _ K ws Hs) as [K1 C1].
  destruct (written_back_calm _ _ _ _ C1 K HQ HR) as [HQ1 HR1].
  set (pc1 := set_store ws pc) in *.
  assert (nv_data (pc_store pc1) node = nv_data (pc_store pc) node) as Hd1 by apply Hs.
  rewrite <-Hd1. set (len := lenN (nv_data (pc_store pc1) node)).
  destruct (N.leb_spec len p) as [Hle|Hlt].
  { wp_steps. apply (HQ _ info C1 (same_counts_refl _)). apply (ok_weaken _ _ _ _ _ _ _ K1); try done.
    intros q f i Hq Hi [Hb|[Hsq Hl]]; [by left|right]. split; [|done]. split; [done|].
    unfold in_page. unfold len in Hle. lia. }
  wp_steps. eapply wp_get_info; [apply K1|]. cbv beta. wp_steps.
  set (count := N.min (len - p) PAGE_SIZE).
  apply wp_node_io. apply wp_read_exact_at.
  2:{ intros Hz. unfold count in Hz. exfalso. unfold PAGE_SIZE in Hz. lia. }
  2:{ intros e h' Hh. destruct (ok_host _ _ _ _ _ _ _ K1 h' Hh) as [K2 C2].
      by apply (not_written_back_same pc1 info c). }
  intros h' Hh Hb. destruct (ok_host _ _ _ _ _ _ _ K1 h' Hh) as [K2 C2].
  destruct (written_back_calm _ _ _ _ C2 K1 HQ1 HR1) as [HQ2 HR2].
  assert (file_bytes (pc_host pc1) (i_backing info) = c) as Hc
    by (unfold file_bytes; by rewrite (nk_file _ _ _ _ _ _ _ K1)).
  rewrite Hc. by eapply wp_store_page.
Qed.
End write_back.

(** ** Ordinary writes *)

Section update.
Context node (off end_ : N) (bytes : list byte).
Hypothesis Hend : end_ = off + lenN bytes.

(** [bytes] are what the store has at [off]. *)
Definition stored pc : Prop :=
  forall i, off <= i < end_ -> nthN bytes (i - off) = Some (nv_at (pc_store pc) node i).

Lemma wp_update_page p Q R pc info c must fok susp fmap :
  node_ok pc node info c must fok susp -> i_pages info !! p = Some fmap -> stored pc ->
  (forall pc' info' c', calm node pc pc' -> same_counts info info' -> pc_store pc' = pc_store pc ->
    node_ok pc' node info' c' must fok (fun i => susp i /\ ~ (in_page p i /\ off <= i < end_)) -> Q tt pc') ->
  (forall e pc' c', calm node pc pc' -> node_ok pc' node info c' must fok susp -> R e pc') ->
  wp (update_cached_page node off bytes end_ p) Q R pc.
Proof.
  intros K Hp Hst HQ HR. unfold update_cached_page. wp_steps. eapply wp_get_info; [apply K|]. cbv beta zeta.
  set (lo := N.max off p). set (hi := N.min end_ (p + PAGE_SIZE)).
  destruct (N.leb_spec hi lo) as [Hle|Hlt].
  { wp_steps. apply (HQ _ info c); [apply calm_refl|done..|]. apply (ok_weaken _ _ _ _ _ _ _ K); try done.
    intros q f i _ _ [Hb|[Hs Hl]]; [by left|right]. split; [|done]. split; [done|].
    unfold in_page. subst lo hi. lia. }
  destruct (nk_aligned _ _ _ _ _ _ _ K p fmap Hp) as [Hal Hin].
  assert (lenN c = i_size info) as Hsz by apply K.
  set (part := slice (lo - off) (hi - lo) bytes).
  assert (lenN part = hi - lo) as Hl by (apply lenN_slice; subst lo hi; lia).
  assert (forall i, lo <= i < hi -> nthN part (i - lo) = Some (nv_at (pc_store pc) node i)) as Hgood.
  { intros i Hi. unfold part. rewrite nthN_slice, (proj2 (N.ltb_lt _ _)) by lia.
    rewrite <-Hst by (subst lo hi; lia). f_equal. subst lo. lia. }
  assert (lo + lenN part <= lenN c) as Hfit by (subst lo hi; lia).
  wp_steps. apply wp_node_io. eapply wp_write_all_torn; [apply K|apply lenN_pos_nonempty; lia| |].
  - intros h' Hf Hn.
    destruct (ok_bytes _ _ _ _ _ _ _ K h' _ (fun i => susp i /\ ~ (in_page p i /\ off <= i < end_)) Hf Hn)
      as [K1 C1].
    + rewrite length_file_write. lia.
    + intros q f i Hq Hi Hb. unfold byte_ok. rewrite nthN_write_in by done.
      destruct (N.leb_spec lo i), (N.ltb_spec i (lo + lenN part)); cbn; try (left; apply Hgood; lia);
        (destruct Hb as [Hb|[Hs Hb]]; [by left|right; split; [split; [done|]|done]]);
        unfold in_page; subst lo hi; lia.
    + rewrite Hp. pose proof (same_counts_version info p fmap (i_version info) Hp) as Hsame.
      destruct (ok_recount _ _ _ _ _ _ _ K1 _ Hsame) as [K2 C2].
      refine (HQ _ _ _ _ Hsame _ K2); [|done]. eapply calm_trans; [done..|].
      rewrite (nk_info _ _ _ _ _ _ _ K). eauto.
  - intros e h' c' Hf Ht Hn. destruct (torn_bytes _ _ _ _ Ht Hfit) as [Hlc Hc'].
    destruct (ok_bytes _ _ _ _ _ _ _ K h' c' susp Hf Hn Hlc) as [K1 C1]; [|by apply (HR _ _ c')].
    intros q f i Hq Hi Hb. unfold byte_ok in *. destruct (Hc' i) as [->|[Hr ->]]; [done|].
    left. apply Hgood. lia.
Qed.

(** Bytes of the pages still to be updated. *)
Definition pending (susp : N -> Prop) (rest : list N) (i : N) : Prop :=
  susp i \/ off <= i < end_ /\ exists q, q ∈ rest /\ in_page q i.

Lemma wp_update_pages Q R pc info c must fok susp pages :
  NoDup pages -> (forall q, q ∈ pages -> is_Some (i_pages info !! q)) ->
  node_ok pc node info c must fok (pending susp pages) -> stored pc ->
  (forall pc' info' c', calm node pc pc' -> same_counts info info' -> pc_store pc' = pc_store pc ->
    node_ok pc' node info' c' must fok susp -> Q tt pc') ->
  (forall e pc' info' c', calm node pc pc' -> same_counts info info' ->
    node_ok pc' node info' c' must fok (pending susp pages) -> R e pc') ->
  wp (for_each (update_cached_page node off bytes end_) pages) Q R pc.
Proof.
  intros Hnd Hcached K Hst HQ HR.
  eapply wp_mono; [apply (wp_for_each _ (fun _ rest pc' => exists info' c',
      calm node pc pc' /\ same_counts info info' /\ pc_store pc' = pc_store pc /\
      node_ok pc' node info' c' must fok (pending susp rest))
    (fun e pc' => exists info' c', calm node pc pc' /\ same_counts info info' /\
      node_ok pc' node info' c' must fok (pending susp pages)))| |].
  - exists info, c. split_and!; try done. apply calm_refl.
  - intros done q rest pc1 Hl (info1 & c1 & C1 & S1 & E1 & K1).
    assert (q ∈ pages) as Hq by (rewrite Hl; set_solver).
    destruct (Hcached q Hq) as [f Hf].
    destruct (same_counts_page _ _ _ _ (same_counts_sym _ _ S1) Hf) as (f1 & Hf1 & _).
    assert (is_Some (pc_files pc !! node)) by (rewrite (nk_info _ _ _ _ _ _ _ K); eauto).
    eapply wp_update_page; [exact K1|exact Hf1|unfold stored; by rewrite E1| |].
    + intros pc2 info2 c2 C2 S2 E2 K2. exists info2, c2.
      split_and!; [by eapply calm_trans|by eapply same_counts_trans|congruence|].
      apply (ok_weaken _ _ _ _ _ _ _ K2); try done.
      intros q' f' i _ _ [Hb|[[Hs Hni] Hlt]]; [by left|right]. split; [|done].
      destruct Hs as [Hs|(Hr & q2 & Hq2 & Hi2)]; [by left|right]. split; [done|].
      apply elem_of_cons in Hq2 as [->|Hq2]; [by destruct Hni|by exists q2].
    + intros e pc2 c2 C2 K2. exists info1, c2. split_and!; [by eapply calm_trans|done|].
      apply (ok_weaken _ _ _ _ _ _ _ K2); try done.
      intros q' f' i _ _ [Hb|[Hs Hlt]]; [by left|right]. split; [|done].
      destruct Hs as [Hs|(Hr & q2 & Hq2 & Hi2)]; [by left|right]. split; [done|]. exists q2.
      split; [|done]. rewrite Hl. set_solver.
  - intros [] pc' (info' & c' & C1 & S1 & E1 & K1). apply (HQ _ info' c'); try done.
    apply (ok_weaken _ _ _ _ _ _ _ K1); try done.
    intros q f i _ _ [Hb|[[Hs|(_ & q2 & Hq2 & _)] Hlt]]; [by left|by right|]. by apply not_elem_of_nil in Hq2.
  - intros e pc' (info' & c' & C1 & S1 & K1). by apply (HR _ _ info' c').
Qed.
End update.
End facts.
