(* ===== verification/PageCacheOps.v ===== *)
(** * The operations of the page cache (crates/minidox-cache/src/lib.rs)

    What [read], [write], [sync], [map] and [unmap] of [PageCache] do to the
    node they are called on. *)

From S2P Require Import Prelude Host CacheTypes PageCache PageCacheInv.
Import Mmap.

Section operations.
Context {W S : Type} `{!NodeStore W S} `{!NodeView S} `{!NodeLaws W S}.

Implicit Types (pc : PageCache W S) (info : FileMmapInfo) (node : NodeId) (p q i off : N)
  (c bytes : list byte) (s : S) (m : DaxMapping) (ms : list DaxMapping)
  (must susp : N -> Prop) (fok : N -> N -> MapFlags -> Prop).

Lemma calm_patched node off n pc ws :
  patched node off n (pc_store pc) ws.2 -> calm node pc (set_store ws pc).
Proof.
  intros (Ho & Hop & _). split; [split; try done|done]. intros info Hi. by exists info.
Qed.

(** ** Writing *)

Definition wrote node off bytes k pc pc' : Prop :=
  k <= lenN bytes /\ patched node off k (pc_store pc) (pc_store pc') /\
  (0 < k -> off + k <= lenN (nv_data (pc_store pc') node)) /\
  forall i, i < k -> Some (nv_at (pc_store pc') node (off + i)) = nthN bytes i.

Lemma wp_cached_write node off bytes Q R pc info c must fok susp :
  node_ok pc node info c must fok susp ->
  (forall k pc' info' c', calm node pc pc' -> same_counts info info' -> wrote node off bytes k pc pc' ->
    node_ok pc' node info' c' must fok susp -> Q k pc') ->
  (forall e pc' info' c', calm node pc pc' -> same_counts info info' ->
    node_ok pc' node info' c' must fok (fun i => susp i \/ off <= i < off + lenN bytes) -> R e pc') ->
  wp (write node off bytes) Q R pc.
Proof.
  intros K HQ HR. unfold write. wp_steps. apply wp_node_store.
  assert (is_Some (pc_files pc !! node)) as Hsome by (rewrite (nk_info _ _ _ _ _ _ _ K); eauto).
  eapply wp_mono; [apply nl_write| |]; cbn [snd].
  2:{ intros e ws Hpat.
      destruct (ok_patched _ _ _ _ _ _ _ K ws _ _ (fun i => susp i \/ off <= i < off + lenN bytes) Hpat)
        as [K1 C1]; [by auto| |by apply (HR _ _ info c)].
      intros q f i Hq Hi Hr. destruct (decide (i < lenN (nv_data ws.2 node))); [by right; auto|].
      left. destruct Hpat as (_ & _ & Hl & _). unfold nv_at. rewrite (nthN_ge (nv_data ws.2 node)) by lia.
      destruct (nk_bytes _ _ _ _ _ _ _ K q f i Hq Hi) as [->|[_ Hb]]; [|lia].
      unfold nv_at. by rewrite nthN_ge by lia. }
  intros k ws (Hk & Hpat & Htop & Hnew). wp_steps. cbn [pc_files set_store].
  rewrite (nk_info _ _ _ _ _ _ _ K). wp_steps. unfold put_info. wp_steps.
  set (pages := btree_keys (i_pages info)).
  assert (forall i, i < k -> nthN (slice 0 k bytes) i = nthN bytes i) as Hsl.
  { intros i Hi. by rewrite nthN_slice, (proj2 (N.ltb_lt _ _)), N.add_0_l by done. }
  assert (lenN (slice 0 k bytes) = k) as Hlk by (apply lenN_slice; lia).
  destruct (ok_patched _ _ _ _ _ _ _ K ws _ _ (pending off (off + k) susp pages) Hpat) as [K1 C1].
  { by left. }
  { intros q f i Hq Hi Hr. right. split; [|lia]. right. split; [done|]. exists q.
    split; [apply elem_of_btree_keys; eauto|done]. }
  assert (same_counts info (set_version (wrapping_add (i_version info) 1) info)) as Hsame by done.
  destruct (ok_recount _ _ _ _ _ _ _ K1 _ Hsame) as [K2 C2].
  pose proof (calm_trans _ _ _ _ C1 C2 Hsome) as C12.
  unfold update_cached_pages. rewrite Hlk.
  assert (forall e pc' info' c', calm node pc pc' -> same_counts info info' ->
    node_ok pc' node info' c' must fok (pending off (off + k) susp pages) -> R e pc') as HR'.
  { intros e pc' info' c' C' S' K'. apply (HR _ _ info' c'); try done.
    apply (ok_weaken _ _ _ _ _ _ _ K'); try done. intros q f i _ _ [Hb|[Hs Hl]]; [by left|right].
    split; [|done]. destruct Hs as [Hs|[Hr _]]; [by left|right; lia]. }
  destruct (checked_add off k) as [end_|] eqn:He; wp_steps.
  2:{ by eapply HR'. }
  apply checked_add_Some in He as [-> _].
  eapply wp_get_info; [apply K2|]. cbv beta. cbn [i_pages set_version].
  eapply wp_update_pages; [by rewrite Hlk|apply NoDup_btree_keys| |exact K2| | |].
  - intros q Hq. by apply elem_of_btree_keys in Hq.
  - intros i Hi. rewrite Hsl, <-Hnew by lia. cbn. do 2 f_equal. lia.
  - intros pc' info' c' C' S' E' K'. wp_steps. apply (HQ k pc' info' c'); [by eapply calm_trans|done| |done].
    unfold wrote. by rewrite E'.
  - intros e pc' info' c' C' S' K'. apply (HR' e pc' info' c'); [by eapply calm_trans|done..].
Qed.

(** ** Writing back *)

Definition in_pages (pages : list N) i : Prop := exists p, p ∈ pages /\ in_page p i.

Lemma elem_of_writable info p :
  p ∈ writable_pages info <-> exists f, i_pages info !! p = Some f /\ WRITE (f_flags f) = true.
Proof.
  unfold writable_pages. rewrite list_elem_of_filter, elem_of_btree_keys.
  destruct (i_pages info !! p) as [f|]; cbn; split.
  - intros [Hf _]. exists f. split; [done|]. by injection Hf.
  - intros (f' & ? & Hw). simplify_eq. split; [by f_equal|eauto].
  - by intros [? _].
  - by intros (? & ? & _).
Qed.

Lemma wp_cached_sync node Q R pc info c must fok susp :
  node_ok pc node info c must fok susp ->
  (forall pc' info', calm node pc pc' -> same_counts info info' ->
    node_ok pc' node info' c must fok (fun i => susp i /\ ~ in_pages (writable_pages info) i) -> Q tt pc') ->
  (forall e pc' info', calm node pc pc' -> same_counts info info' ->
    node_ok pc' node info' c must fok (fun i => susp i \/ in_pages (writable_pages info) i) -> R e pc') ->
  wp (sync node) Q R pc.
Proof.
  intros K HQ HR. unfold sync. wp_steps. eapply wp_get_info; [apply K|]. cbv beta.
  set (pages := writable_pages info) in *.
  assert (is_Some (pc_files pc !! node)) as Hsome by (rewrite (nk_info _ _ _ _ _ _ _ K); eauto).
  eapply wp_mono; [apply (wp_for_each _ (fun before _ pc' => exists info',
      calm node pc pc' /\ same_counts info info' /\
      node_ok pc' node info' c must fok (fun i => susp i /\ ~ in_pages before i))
    (fun e pc' => exists info', calm node pc pc' /\ same_counts info info' /\
      node_ok pc' node info' c must fok (fun i => susp i \/ in_pages pages i)))| |].
  - exists info. split_and!; [apply calm_refl|done|].
    apply (ok_weaken _ _ _ _ _ _ _ K); try done. intros q f i _ _ [Hb|[Hs Hl]]; [by left|right].
    split; [|done]. split; [done|]. by intros (p & Hp%not_elem_of_nil & _).
  - intros before p todo pc1 Hl (info1 & C1 & S1 & K1).
    assert (p ∈ pages) as Hp by (rewrite Hl; set_solver).
    apply elem_of_writable in Hp as Hw. destruct Hw as (f & Hf & _).
    destruct (same_counts_page _ _ _ _ (same_counts_sym _ _ S1) Hf) as (f1 & Hf1 & _).
    eapply wp_page_written_back; [exact K1|exact Hf1| |].
    + intros pc2 info2 C2 S2 K2. exists info2.
      split_and!; [by eapply calm_trans|by eapply same_counts_trans|].
      apply (ok_weaken _ _ _ _ _ _ _ K2); try done. intros q f' i _ _ [Hb|[[[Hs Hn] Hi] Hlt]]; [by left|right].
      split; [|done]. split; [done|]. intros (p2 & Hp2 & Hi2).
      apply elem_of_app in Hp2 as [Hp2| ->%list_elem_of_singleton]; [|done]. apply Hn. by exists p2.
    + intros e pc2 info2 C2 S2 K2. exists info2.
      split_and!; [by eapply calm_trans|by eapply same_counts_trans|].
      apply (ok_weaken _ _ _ _ _ _ _ K2); try done.
      intros q f' i _ _ [Hb|[[[Hs _]|Hi] Hlt]]; [by left|right; auto..]. split; [|done]. right. by exists p.
  - intros [] pc' (info' & C1 & S1 & K1). by apply (HQ _ info').
  - intros e pc' (info' & C1 & S1 & K1). by apply (HR _ _ info').
Qed.

(** ** Reading *)

Lemma slice_clip {A} off n (l : list A) : off < lenN l -> slice off (N.min (lenN l - off) n) l = slice off n l.
Proof.
  intros Hl. apply list_eq_nthN. intros i. rewrite !nthN_slice.
  destruct (N.ltb_spec i n), (N.ltb_spec i (N.min (lenN l - off) n)); try done; [|lia].
  symmetry. apply nthN_ge. lia.
Qed.

Lemma slice_past {A} off n (l : list A) : lenN l <= off -> slice off n l = [].
Proof. intros Hl. unfold slice. by rewrite drop_ge, take_nil by (unfold lenN in Hl; lia). Qed.

Lemma next_page_Some x y : checked_next_multiple_of x PAGE_SIZE = Some y ->
  x <= y < x + PAGE_SIZE /\ y mod PAGE_SIZE = 0.
Proof.
  unfold checked_next_multiple_of. destruct (N.eqb_spec (x mod PAGE_SIZE) 0) as [Hz|Hnz].
  - intros [= <-]. pagelia.
  - intros [-> _]%checked_add_Some. divlia.
Qed.

(** The pages a read touches hold all its bytes. *)
Lemma fully_cached_page info off count end_ i :
  checked_next_multiple_of (off + count) PAGE_SIZE = Some end_ ->
  fully_cached info (off / PAGE_SIZE * PAGE_SIZE) end_ = true ->
  off <= i < off + count ->
  exists p f, i_pages info !! p = Some f /\ in_page p i.
Proof.
  intros He Hall Hi. unfold fully_cached in Hall. rewrite forallb_forall in Hall.
  specialize (Hall (i / PAGE_SIZE * PAGE_SIZE)).
  destruct (i_pages info !! (i / PAGE_SIZE * PAGE_SIZE)) as [f|] eqn:Ef.
  - exists (i / PAGE_SIZE * PAGE_SIZE), f. split; [done|]. unfold in_page. divlia.
  - discriminate Hall. apply list_elem_of_In, aligned_in_range; [by apply N.Div0.mod_mul|].
    split; [|by apply N.Div0.mod_mul].
    apply next_page_Some in He. divlia.
Qed.

Lemma wp_cached_read node off len Q R pc info c must fok susp :
  node_ok pc node info c must fok susp ->
  (forall bytes pc', calm node pc pc' -> pc_files pc' = pc_files pc ->
    node_ok pc' node info c must fok susp ->
    ((forall i, off <= i < off + len -> ~ susp i) -> bytes = slice off len (nv_data (pc_store pc) node)) ->
    Q bytes pc') ->
  (forall e pc', calm node pc pc' -> node_ok pc' node info c must fok susp -> R e pc') ->
  wp (read node off len) Q R pc.
Proof.
  intros K HQ HR. unfold read. wp_steps. apply wp_node_store.
  assert (is_Some (pc_files pc !! node)) as Hsome by (rewrite (nk_info _ _ _ _ _ _ _ K); eauto).
  eapply wp_mono; [apply nl_len| |].
  2:{ intros e ws Hs. destruct (ok_asked _ _ _ _ _ _ _ K ws Hs) as [K1 C1]. by apply HR. }
  intros n ws [-> Hs]. cbv beta. cbn [snd] in *. destruct (ok_asked _ _ _ _ _ _ _ K ws Hs) as [K1 C1].
  set (data := nv_data (pc_store pc) node). set (pc1 := set_store ws pc) in *.
  assert (nv_data (pc_store pc1) node = data) as Hd1 by apply Hs.
  destruct (N.leb_spec (lenN data) off) as [Hle|Hlt]; cbn [orb].
  { wp_steps. apply HQ; try done. intros _. by rewrite slice_past. }
  destruct (N.eqb_spec len 0) as [->|Hlen].
  { wp_steps. apply HQ; try done. }
  wp_steps. cbn [pc_files pc1 set_store]. change (pc_files pc1) with (pc_files pc).
  rewrite (nk_info _ _ _ _ _ _ _ K). set (count := N.min (lenN data - off) len).
  assert (wp (on_store (read_node node off count)) Q R pc1) as Hstore.
  { apply wp_node_store. eapply wp_mono; [apply nl_read| |]; cbn [snd].
    - intros bytes ws2 [-> Hs2]. destruct (ok_asked _ _ _ _ _ _ _ K1 ws2 Hs2) as [K2 C2].
      apply HQ; try done; [by eapply calm_trans|]. intros _.
      rewrite Hd1.
      by apply slice_clip.
    - intros e ws2 Hs2. destruct (ok_asked _ _ _ _ _ _ _ K1 ws2 Hs2) as [K2 C2].
      apply HR; [by eapply calm_trans|done]. }
  destruct (checked_next_multiple_of (off + count) PAGE_SIZE) as [end_|] eqn:He; wp_steps.
  2:{ by apply HR. }
  destruct (fully_cached info (off / PAGE_SIZE * PAGE_SIZE) end_) eqn:Hfull; [|done].
  apply wp_node_io. apply wp_read_exact_at.
  2:{ intros Hz. unfold count in Hz. lia. }
  2:{ intros e h' Hh. destruct (ok_host _ _ _ _ _ _ _ K1 h' Hh) as [K2 C2].
      apply HR; [by eapply calm_trans|done]. }
  intros h' Hh Hb. destruct (ok_host _ _ _ _ _ _ _ K1 h' Hh) as [K2 C2].
  apply HQ; try done; [by eapply calm_trans|]. intros Hns.
  assert (file_bytes (pc_host pc1) (i_backing info) = c) as ->
    by (unfold file_bytes; by rewrite (nk_file _ _ _ _ _ _ _ K1)).
  fold data. rewrite <-(slice_clip off len data) by done. fold count. apply list_eq_nthN. intros j. rewrite !nthN_slice.
  destruct (N.ltb_spec j count) as [Hj|]; [|done].
  destruct (fully_cached_page info off count end_ (off + j) He Hfull) as (p & f & Hp & Hi); [lia|].
  destruct (nk_bytes _ _ _ _ _ _ _ K p f _ Hp Hi) as [->|[Hbad _]].
  - unfold nv_at. fold data. destruct (nthN_lt data (off + j)) as [x ->]; [unfold count in Hj; lia|done].
  - exfalso. apply (Hns (off + j)); [unfold count in Hj; lia|done].
Qed.

(** ** Mapping *)

Definition same_pages info info' : Prop :=
  i_backing info' = i_backing info /\ i_open_fds info' = i_open_fds info /\ i_pages info' = i_pages info.

Lemma wp_ensure_size node size Q R pc info c must fok susp :
  node_ok pc node info c must fok susp -> size <= u64_MAX ->
  (forall pc' info' c', calm node pc pc' -> same_pages info info' -> size <= i_size info' ->
    node_ok pc' node info' c' must fok susp -> Q tt pc') ->
  (forall e pc', calm node pc pc' -> node_ok pc' node info c must fok susp -> R e pc') ->
  wp (ensure_size node size) Q R pc.
Proof.
  intros K Htop HQ HR. unfold ensure_size. wp_steps. eapply wp_get_info; [apply K|]. cbv beta.
  destruct (N.ltb_spec (i_size info) size) as [Hlt|Hge]; wp_steps.
  2:{ by apply (HQ _ info c); [apply calm_refl|..]. }
  apply wp_node_io. apply wp_set_len.
  2:{ intros e h' Hh. destruct (ok_host _ _ _ _ _ _ _ K h' Hh) as [K1 C1]. by apply HR. }
  intros h' Hf Hn. unfold file_bytes in Hf. rewrite (nk_file _ _ _ _ _ _ _ K) in Hf. cbn in Hf.
  apply (HQ _ (set_size size info) (resize_bytes size c)); [|done|cbn; lia|].
  - split; [split; cbn; try done|done].
    + intros n Hne. by rewrite lookup_insert_ne.
    + intros f _ Hne. rewrite Hf, lookup_insert_ne; [done|]. intros <-. apply (Hne info); [apply K|done].
    + lia.
    + intros info0 Hi. rewrite lookup_insert_eq. eexists. split; [done|]. cbn.
      rewrite (nk_info _ _ _ _ _ _ _ K) in Hi. by simplify_eq.
  - pose proof (nk_size _ _ _ _ _ _ _ K) as Hsz. pose proof (nk_next _ _ _ _ _ _ _ K) as Hnext.
    split; cbn; try apply K.
    + by rewrite lookup_insert_eq.
    + by rewrite Hf, lookup_insert_eq.
    + apply lenN_resize.
    + done.
    + by rewrite Hn.
    + intros p f Hp. destruct (nk_aligned _ _ _ _ _ _ _ K p f Hp). split; [done|lia].
    + intros p f i Hp Hi. destruct (nk_aligned _ _ _ _ _ _ _ K p f Hp) as [_ Hend].
      unfold byte_ok. rewrite nthN_resize, (proj2 (N.ltb_lt _ _)) by lia.
      destruct (nthN_lt c i) as [x Hx]; [lia|]. rewrite Hx. cbn. rewrite <-Hx. by eapply (nk_bytes _ _ _ _ _ _ _ K).
Qed.

(** The page at [p] of [node] is one of the pages of [m]. *)
Definition covers node p m : Prop :=
  dm_node m = node /\ p ∈ page_starts (dm_offset m) (dm_offset m + dm_len m).

#[export] Instance covers_dec node p m : Decision (covers node p m).
Proof. unfold covers. apply _. Defined.

(** How many of the mappings [ms] cover a page. *)
Definition cover ms node p : N := N.of_nat (length (filter (covers node p) ms)).

Definition asked ms node p : Prop := exists m, m ∈ ms /\ covers node p m.

Definition wants ms node p (fl : MapFlags) : Prop :=
  forall m, m ∈ ms -> covers node p m -> WRITE (dm_flags m) = true -> WRITE fl = true.

(** A cached page counts the mappings that cover it, and not more than [n]. *)
Definition counted (n : N) ms node p (rc : N) (fl : MapFlags) : Prop :=
  cover ms node p <= rc <= n /\ wants ms node p fl.

(** The same in the middle of [map], which has counted [before]. *)
Definition counting (n : N) ms node (flags : MapFlags) (before : list N) p (rc : N) (fl : MapFlags) : Prop :=
  let extra := if bool_decide (p ∈ before) then 1 else 0 in
  cover ms node p + extra <= rc <= n + extra /\ wants ms node p fl /\
  (p ∈ before -> WRITE flags = true -> WRITE fl = true).

Lemma cover_zero ms node p : ~ asked ms node p -> cover ms node p = 0.
Proof.
  intros Hno. unfold cover. destruct (filter (covers node p) ms) as [|m l] eqn:El; [done|].
  exfalso. apply Hno. exists m. assert (m ∈ filter (covers node p) ms) as Hm by (rewrite El; set_solver).
  apply list_elem_of_filter in Hm. tauto.
Qed.

Lemma WRITE_or a b : WRITE (flags_or a b) = WRITE a || WRITE b.
Proof. done. Qed.

Lemma counting_nil n ms node flags p rc fl : counting n ms node flags [] p rc fl <-> counted n ms node p rc fl.
Proof.
  unfold counting, counted. rewrite bool_decide_eq_false_2 by apply not_elem_of_nil.
  rewrite !N.add_0_r. split; [tauto|]. intros [? ?]. split_and!; try tauto. by intros ?%not_elem_of_nil.
Qed.

Lemma counting_other n ms node flags before p q rc fl : q <> p ->
  counting n ms node flags before q rc fl -> counting n ms node flags (before ++ [p]) q rc fl.
Proof.
  intros Hne. unfold counting.
  assert (q ∈ before ++ [p] <-> q ∈ before) as Hiff by (rewrite elem_of_app, list_elem_of_singleton; tauto).
  rewrite (bool_decide_ext _ _ Hiff). tauto.
Qed.

Lemma counting_next n ms node flags before p rc fl : p ∉ before -> n < u64_MAX ->
  counting n ms node flags before p rc fl ->
  counting n ms node flags (before ++ [p]) p (wrapping_add rc 1) (flags_or fl flags).
Proof.
  intros Hp Hn. unfold counting. rewrite bool_decide_eq_false_2 by done.
  rewrite bool_decide_eq_true_2 by set_solver. intros ((Hlo & Hhi) & Hw & _).
  rewrite wrapping_add_small by lia. split; [lia|]. split.
  - intros m Hm Hc Hwm. by rewrite WRITE_or, (Hw m Hm Hc Hwm).
  - intros _ Hf. rewrite WRITE_or, Hf. apply orb_true_r.
Qed.

Lemma counting_first n ms node flags before p : p ∉ before -> ~ asked ms node p ->
  counting n ms node flags (before ++ [p]) p 1 flags.
Proof.
  intros Hp Hno. unfold counting. rewrite bool_decide_eq_true_2 by set_solver.
  rewrite cover_zero by done. split; [lia|]. split; [|done].
  intros m Hm Hc. by destruct Hno; exists m.
Qed.

(** A mapping that was handed out, or given up half way. *)
Definition mapped_node n node (flags : MapFlags) ms (pages : list N) susp pc pc' : Prop :=
  calm node pc pc' /\ exists info' c',
    node_ok pc' node info' c' (fun q => asked ms node q \/ q ∈ pages) (counting n ms node flags pages) susp.

Lemma wp_map_pages n node flags pages ms Q R pc info c susp :
  node_ok pc node info c (asked ms node) (counted n ms node) susp -> n < u64_MAX -> NoDup pages ->
  (forall p, p ∈ pages -> p mod PAGE_SIZE = 0 /\ p + PAGE_SIZE <= i_size info) ->
  (forall pc', mapped_node n node flags ms pages susp pc pc' -> Q tt pc') ->
  (forall e pc' before, before ⊆ pages -> mapped_node n node flags ms before susp pc pc' -> R e pc') ->
  wp (for_each (map_one node flags) pages) Q R pc.
Proof.
  intros K Hn Hnd Hpages HQ HR.
  assert (is_Some (pc_files pc !! node)) as Hsome by (rewrite (nk_info _ _ _ _ _ _ _ K); eauto).
  eapply wp_mono; [apply (wp_for_each _ (fun before _ pc' => calm node pc pc' /\ exists info' c',
      i_size info' = i_size info /\
      node_ok pc' node info' c' (fun q => asked ms node q \/ q ∈ before) (counting n ms node flags before) susp)
    (fun e pc' => exists before, before ⊆ pages /\ mapped_node n node flags ms before susp pc pc'))| |].
  - split; [apply calm_refl|]. exists info, c. split; [done|]. apply (ok_weaken _ _ _ _ _ _ _ K); try done.
    + intros p [Hp|Hp%not_elem_of_nil]; done.
    + intros p f _ Hf. by apply counting_nil.
  - intros before p todo pc1 Hl (C1 & info1 & c1 & S1 & K1).
    assert (p ∉ before) as Hnew.
    { rewrite Hl in Hnd. apply NoDup_app in Hnd as (_ & Hd & _). intros Hb. apply (Hd p Hb). set_solver. }
    destruct (Hpages p) as [Hal Hin]; [rewrite Hl; set_solver|].
    eapply (wp_map_one _ _ _ _ _ _ _ _ _ _ (counting n ms node flags (before ++ [p])));
      [exact K1|done|by rewrite S1|by intros; apply counting_other|by intros; apply counting_next| | |].
    + intros Hnone. apply counting_first; [done|]. intros Ha.
      destruct (nk_must _ _ _ _ _ _ _ K1 p (or_introl Ha)) as [f Hf]. congruence.
    + intros pc2 info2 c2 C2 S2 K2. split; [by eapply calm_trans|]. exists info2, c2. split; [congruence|].
      apply (ok_weaken _ _ _ _ _ _ _ K2); try done.
      intros q [Hq|Hq]; [by left; left|]. apply elem_of_app in Hq as [Hq| ->%list_elem_of_singleton]; auto.
    + intros e pc2 c2 C2 K2. exists before. split; [rewrite Hl; set_solver|].
      split; [by eapply calm_trans|]. by exists info1, c2.
  - intros [] pc' (C1 & info1 & c1 & _ & K1). apply HQ. split; [done|]. by exists info1, c1.
  - intros e pc' (before & Hb & Hm). by apply (HR _ _ before).
Qed.

(** The mapping [map] hands out is page aligned and does not wrap. *)
Definition good_mapping pc node off len (flags : MapFlags) m : Prop :=
  dm_cache_id m = pc_id pc /\ dm_node m = node /\ dm_offset m = off /\ dm_flags m = flags /\
  len <= dm_len m /\ off mod PAGE_SIZE = 0 /\ dm_len m mod PAGE_SIZE = 0 /\ off + dm_len m <= u64_MAX.

Lemma wp_cached_map n node off len flags ms Q R pc info c susp :
  node_ok pc node info c (asked ms node) (counted n ms node) susp -> n < u64_MAX ->
  (forall m pc', good_mapping pc node off len flags m -> dm_backing m = i_backing info ->
    mapped_node n node flags ms (page_starts off (off + dm_len m)) susp pc pc' -> Q m pc') ->
  (forall e pc' before, mapped_node n node flags ms before susp pc pc' -> R e pc') ->
  wp (map node off len flags) Q R pc.
Proof.
  intros K Hn HQ HR. unfold map.
  assert (is_Some (pc_files pc !! node)) as Hsome by (rewrite (nk_info _ _ _ _ _ _ _ K); eauto).
  assert (forall pc' info' c', calm node pc pc' ->
    node_ok pc' node info' c' (asked ms node) (counted n ms node) susp ->
    mapped_node n node flags ms [] susp pc pc') as Hsame.
  { intros pc' info' c' C1 K1. split; [done|]. exists info', c'.
    apply (ok_weaken _ _ _ _ _ _ _ K1); try done.
    - intros p [Hp|Hp%not_elem_of_nil]; done.
    - intros p f _ Hf. by apply counting_nil. }
  assert (forall e, R e pc) as HR0 by (intros e; apply (HR e pc []), (Hsame _ info c); [apply calm_refl|done]).
  destruct (len =? 0); [wp_steps; apply HR0|].
  destruct (N.eqb_spec (off mod PAGE_SIZE) 0) as [Hal|]; cbn [negb]; [|wp_steps; apply HR0].
  destruct (negb (READ flags) && negb (WRITE flags)); [wp_steps; apply HR0|].
  destruct (checked_next_multiple_of len PAGE_SIZE) as [alen|] eqn:Ha; [|wp_steps; apply HR0].
  destruct (checked_add off alen) as [end_|] eqn:He; [|wp_steps; apply HR0].
  apply next_page_Some in Ha as [Hlen Hmod]. apply checked_add_Some in He as [-> Hmax].
  wp_steps. eapply wp_ensure_size; [exact K|done| |].
  2:{ intros e pc1 C1 K1. apply (HR _ _ []), (Hsame _ info c); done. }
  intros pc1 info1 c1 C1 (Hb1 & _ & _) Hsz K1. wp_steps.
  assert (forall pages pc', mapped_node n node flags ms pages susp pc1 pc' ->
    mapped_node n node flags ms pages susp pc pc') as Hlift.
  { intros pages pc' [C2 H2]. split; [by eapply calm_trans|done]. }
  eapply wp_map_pages; [exact K1|done|apply NoDup_page_starts| | |].
  - intros p Hp. apply aligned_in_range in Hp; [|done]. divlia.
  - intros pc2 Hm2. wp_steps. destruct (Hlift _ _ Hm2) as [C2 (info2 & c2 & K2)].
    eapply wp_get_info; [apply K2|]. wp_steps.
    destruct (fr_backing _ _ _ (proj1 C2) info (nk_info _ _ _ _ _ _ _ K)) as (info' & Hi' & Hb').
    rewrite (nk_info _ _ _ _ _ _ _ K2) in Hi'. simplify_eq.
    apply HQ; [|done|by apply Hlift]. split_and!; try done; [|cbn; lia].
    cbn. apply (fr_id _ _ _ (proj1 C2)).
  - intros e pc2 before _ Hm2. apply (HR _ _ before), Hlift, Hm2.
Qed.

(** ** Unmapping *)

(** No page has more mappings than before. *)
Definition shrunk info info' : Prop :=
  i_open_fds info' = i_open_fds info /\
  forall p f', i_pages info' !! p = Some f' -> exists f, i_pages info !! p = Some f /\ f_rc f' <= f_rc f.

Lemma shrunk_refl info : shrunk info info.
Proof. split; [done|]. intros p f Hf. by exists f. Qed.

Lemma shrunk_trans info1 info2 info3 : shrunk info1 info2 -> shrunk info2 info3 -> shrunk info1 info3.
Proof.
  intros [O1 P1] [O2 P2]. split; [congruence|]. intros p f3 H3.
  destruct (P2 p f3 H3) as (f2 & H2 & L2). destruct (P1 p f2 H2) as (f1 & H1 & L1). exists f1. split; [done|lia].
Qed.

Lemma same_counts_shrunk info info' : same_counts info info' -> shrunk info info'.
Proof.
  intros H. split; [apply H|]. intros p f' Hf'.
  destruct (same_counts_page _ _ _ _ H Hf') as (f & Hf & Hr & _). exists f. split; [done|lia].
Qed.

Lemma shrunk_in_use info info' : shrunk info info' -> in_use info' = true -> in_use info = true.
Proof.
  intros [Ho Hp]. rewrite !in_use_true, Ho. intros [H|(p & f' & Hf' & Hr)]; [by left|right].
  destruct (Hp p f' Hf') as (f & Hf & Hle). exists p, f. split; [done|lia].
Qed.

Section unmap_one.
Context node p (must : N -> Prop) (fok fok' : N -> N -> MapFlags -> Prop).
Hypothesis Hother : forall q rc fl, q <> p -> fok q rc fl -> fok' q rc fl.
Hypothesis Hone : forall rc fl, fok p rc fl -> fok' p (rc - 1) fl.

(** The count of the page goes down. *)
Lemma ok_released susp pc info c f :
  node_ok pc node info c must fok susp -> i_pages info !! p = Some f ->
  let info' := set_pages (alter (fun f' => mkFmap (f_rc f - 1) (f_flags f') (f_version f')) p (i_pages info)) info in
  let pc' := set_infos (<[node := info']> (pc_files pc)) pc in
  node_ok pc' node info' c must fok' susp /\ calm node pc pc' /\ shrunk info info'.
Proof.
  intros K Hf info' pc'.
  assert (forall q f', i_pages info' !! q = Some f' ->
    exists f0, i_pages info !! q = Some f0 /\ f_rc f' <= f_rc f0 /\ fok' q (f_rc f') (f_flags f')) as Hpages.
  { intros q f' Hq. unfold info' in Hq. cbn in Hq. destruct (decide (q = p)) as [->|Hne].
    - rewrite lookup_alter_eq, Hf in Hq. cbn in Hq. injection Hq as <-. exists f.
      split_and!; [done|cbn; lia|]. apply (Hone (f_rc f) (f_flags f)). by apply (nk_fmap _ _ _ _ _ _ _ K).
    - rewrite lookup_alter_ne in Hq by done. exists f'. split_and!; [done..|].
      apply Hother; [done|]. by apply (nk_fmap _ _ _ _ _ _ _ K). }
  destruct (ok_put _ _ _ _ _ _ _ K info' must fok') as [K1 C1]; try done.
  - intros q Hq. destruct (nk_must _ _ _ _ _ _ _ K q Hq) as [f' Hf']. unfold info'. cbn.
    destruct (decide (q = p)) as [->|]; [rewrite lookup_alter_eq, Hf'|rewrite lookup_alter_ne by done]; cbn; eauto.
  - intros q f' Hq. by destruct (Hpages q f' Hq) as (? & _ & _ & ?).
  - intros q f' Hq. destruct (Hpages q f' Hq) as (? & ? & _). left. eauto.
  - split; [done|split; [done|split; [done|]]]. intros q f' Hq. destruct (Hpages q f' Hq) as (f0 & ? & ? & _). by exists f0.
Qed.

Lemma wp_unmap_one Q R susp pc info c f :
  node_ok pc node info c must fok susp -> i_pages info !! p = Some f -> 1 <= f_rc f ->
  (forall pc' info', calm node pc pc' -> shrunk info info' ->
    node_ok pc' node info' c must fok' (fun i => susp i /\ ~ (WRITE (f_flags f) = true /\ in_page p i)) -> Q tt pc') ->
  (forall e pc' info', calm node pc pc' -> shrunk info info' ->
    node_ok pc' node info' c must fok (fun i => susp i \/ in_page p i) -> R e pc') ->
  wp (unmap_one node p) Q R pc.
Proof.
  intros K Hf Hrc HQ HR. unfold unmap_one. wp_steps. eapply wp_get_info; [apply K|]. cbv beta. rewrite Hf.
  assert (is_Some (pc_files pc !! node)) as Hsome by (rewrite (nk_info _ _ _ _ _ _ _ K); eauto).
  rewrite (proj2 (checked_sub_Some (f_rc f) 1 (f_rc f - 1))) by done. wp_steps.
  destruct (WRITE (f_flags f)) eqn:Hw; cbn [andb].
  - eapply wp_page_written_back; [exact K|exact Hf| |].
    + intros pc1 info1 C1 S1 K1. wp_steps. eapply wp_get_info; [apply K1|]. cbv beta.
      destruct (same_counts_page _ _ _ _ (same_counts_sym _ _ S1) Hf) as (f1 & Hf1 & Hr1 & _).
      rewrite <-Hr1. destruct (ok_released _ pc1 info1 c f1 K1 Hf1) as (K2 & C2 & S2).
      refine (HQ _ _ (calm_trans _ _ _ _ C1 C2 Hsome) (shrunk_trans _ _ _ (same_counts_shrunk _ _ S1) S2) _).
      apply (ok_weaken _ _ _ _ _ _ _ K2); try done.
      intros q f' i _ _ [Hb|[[Hs Hi] Hl]]; [by left|right]. split; [|done]. split; [done|]. by intros [_ ?].
    + intros e pc1 info1 C1 S1 K1. apply (HR _ _ info1); [done|by apply same_counts_shrunk|done].
  - wp_steps. eapply wp_get_info; [apply K|]. cbv beta.
    destruct (ok_released _ pc info c f K Hf) as (K2 & C2 & S2).
    refine (HQ _ _ C2 S2 _). apply (ok_weaken _ _ _ _ _ _ _ K2); try done.
    intros q f' i _ _ [Hb|[Hs Hl]]; [by left|right]. split; [|done]. split; [done|]. by intros [? _].
Qed.
End unmap_one.

(** The count in the middle of [unmap], which has still to release [todo]. *)
Definition releasing (n : N) ms node (flags : MapFlags) (todo : list N) p (rc : N) (fl : MapFlags) : Prop :=
  cover ms node p + (if bool_decide (p ∈ todo) then 1 else 0) <= rc <= n /\ wants ms node p fl /\
  (p ∈ todo -> WRITE flags = true -> WRITE fl = true).

Definition mapping_pages m : list N := page_starts (dm_offset m) (dm_offset m + dm_len m).

Lemma cover_cons m ms p :
  cover (m :: ms) (dm_node m) p = cover ms (dm_node m) p + (if bool_decide (p ∈ mapping_pages m) then 1 else 0).
Proof.
  unfold cover. rewrite filter_cons. unfold covers at 1, mapping_pages.
  destruct (decide _) as [[_ H]|H]; [rewrite bool_decide_eq_true_2 by done; cbn; lia|].
  rewrite bool_decide_eq_false_2 by tauto. lia.
Qed.

Lemma cover_cons_other m ms node p : dm_node m <> node -> cover (m :: ms) node p = cover ms node p.
Proof. intros Hne. unfold cover. rewrite filter_cons_False; [done|]. by intros [? _]. Qed.

Lemma wants_cons m ms p fl :
  wants (m :: ms) (dm_node m) p fl <->
    wants ms (dm_node m) p fl /\ (p ∈ mapping_pages m -> WRITE (dm_flags m) = true -> WRITE fl = true).
Proof.
  unfold wants. setoid_rewrite elem_of_cons. split.
  - intros H. split; [naive_solver|]. intros Hp. apply (H m); [by left|]. by split.
  - intros [H1 H2] m' [->|Hm'] Hc; [|by apply H1]. apply H2, Hc.
Qed.

Lemma releasing_start n m ms p rc fl : counted n (m :: ms) (dm_node m) p rc fl ->
  releasing n ms (dm_node m) (dm_flags m) (mapping_pages m) p rc fl.
Proof. unfold counted, releasing. rewrite cover_cons, wants_cons. tauto. Qed.

Lemma releasing_counted n ms node flags todo p rc fl :
  releasing n ms node flags todo p rc fl -> counted n ms node p rc fl.
Proof. intros (H & Hw & _). split; [destruct (bool_decide _); lia|done]. Qed.

Lemma releasing_other n ms node flags todo p q rc fl : q <> p ->
  releasing n ms node flags (p :: todo) q rc fl -> releasing n ms node flags todo q rc fl.
Proof.
  intros Hne. unfold releasing.
  assert (q ∈ p :: todo <-> q ∈ todo) as Hiff by (rewrite elem_of_cons; tauto).
  rewrite (bool_decide_ext _ _ Hiff). tauto.
Qed.

Lemma releasing_one n ms node flags todo p rc fl : p ∉ todo ->
  releasing n ms node flags (p :: todo) p rc fl -> releasing n ms node flags todo p (rc - 1) fl.
Proof.
  intros Hp. unfold releasing. rewrite bool_decide_eq_true_2 by set_solver.
  rewrite bool_decide_eq_false_2 by done. intros (H & Hw & Hf). split; [lia|]. split; [done|]. by intros ?.
Qed.

(** What is left of a node when the pages of [m] have been released. *)
Definition released n m ms susp pc info pc' : Prop :=
  calm (dm_node m) pc pc' /\ exists info' c', shrunk info info' /\
    node_ok pc' (dm_node m) info' c' (asked ms (dm_node m)) (counted n ms (dm_node m)) susp.

Lemma wp_unmap_pages n m ms Q R pc info c susp :
  let node := dm_node m in
  node_ok pc node info c (asked (m :: ms) node) (counted n (m :: ms) node) susp ->
  (forall pc', released n m ms (fun i => susp i /\ ~ (WRITE (dm_flags m) = true /\ in_pages (mapping_pages m) i))
     pc info pc' -> Q tt pc') ->
  (forall e pc', released n m ms (fun i => susp i \/ in_pages (mapping_pages m) i) pc info pc' -> R e pc') ->
  wp (for_each (unmap_one node) (mapping_pages m)) Q R pc.
Proof.
  intros node K HQ HR. set (pages := mapping_pages m) in *. set (w := WRITE (dm_flags m) = true) in *.
  assert (is_Some (pc_files pc !! node)) as Hsome by (rewrite (nk_info _ _ _ _ _ _ _ K); eauto).
  eapply wp_mono; [apply (wp_for_each _ (fun before todo pc' => calm node pc pc' /\ exists info',
      shrunk info info' /\ node_ok pc' node info' c (asked (m :: ms) node)
        (releasing n ms node (dm_flags m) todo) (fun i => susp i /\ ~ (w /\ in_pages before i)))
    (fun e => released n m ms (fun i => susp i \/ in_pages pages i) pc info))| |].
  - split; [apply calm_refl|]. exists info. split; [apply shrunk_refl|].
    apply (ok_weaken _ _ _ _ _ _ _ K); try done.
    + intros p f _. apply releasing_start.
    + intros q f i _ _ [Hb|[Hs Hl]]; [by left|right]. split; [|done]. split; [done|].
      by intros [_ (p & Hp%not_elem_of_nil & _)].
  - intros before p todo pc1 Hl (C1 & info1 & S1 & K1).
    assert (p ∈ pages) as Hp by (rewrite Hl; set_solver).
    assert (p ∉ todo) as Hnew.
    { pose proof (NoDup_page_starts (dm_offset m) (dm_offset m + dm_len m)) as Hnd.
      change (page_starts _ _) with pages in Hnd. rewrite Hl in Hnd.
      apply NoDup_app in Hnd as (_ & _ & Hnd). by apply NoDup_cons in Hnd as [? _]. }
    destruct (nk_must _ _ _ _ _ _ _ K1 p) as [f Hf]; [exists m; split; [set_solver|done]|].
    destruct (nk_fmap _ _ _ _ _ _ _ K1 p f Hf) as (Hrc & _ & Hwf).
    rewrite bool_decide_eq_true_2 in Hrc by set_solver.
    eapply (wp_unmap_one _ _ _ _ (releasing n ms node (dm_flags m) todo));
      [by intros; eapply releasing_other|by intros; eapply releasing_one|exact K1|exact Hf|lia| |].
    + intros pc2 info2 C2 S2 K2. split; [by eapply calm_trans|]. exists info2. split; [by eapply shrunk_trans|].
      apply (ok_weaken _ _ _ _ _ _ _ K2); try done.
      intros q f' i _ _ [Hb|[[[Hs Hn] Hi] Hlt]]; [by left|right]. split; [|done]. split; [done|].
      intros [Hw (p2 & Hp2 & Hi2)]. apply elem_of_app in Hp2 as [Hp2| ->%list_elem_of_singleton].
      * apply Hn. split; [done|]. by exists p2.
      * apply Hi. split; [|done]. apply Hwf; [set_solver|done].
    + intros e pc2 info2 C2 S2 K2. split; [by eapply calm_trans|]. exists info2, c. split; [by eapply shrunk_trans|].
      apply (ok_weaken _ _ _ _ _ _ _ K2).
      * intros q (m' & Hm' & Hc). exists m'. set_solver.
      * intros q f' _. apply releasing_counted.
      * intros q f' i _ _ [Hb|[[[Hs _]|Hi] Hlt]]; [by left|right; auto..]. split; [|done]. right. by exists p.
  - intros [] pc' (C1 & info' & S1 & K1). apply HQ. split; [done|]. exists info', c. split; [done|].
    apply (ok_weaken _ _ _ _ _ _ _ K1); try done.
    + intros q (m' & Hm' & Hc). exists m'. set_solver.
    + intros q f' _. apply releasing_counted.
  - intros e pc' Hr. by apply HR.
Qed.
End operations.
