(* ===== verification/PageCacheSpec.v ===== *)
(** * What the page cache promises (crates/minidox-cache/src/lib.rs)

    Clients open and close nodes, map and unmap ranges, store through the
    mappings they hold, and read, write and sync.  In every state they reach,
    cached pages hold what the store holds unless a client's stores are still
    to be written back, and a node in use is held open in the store. *)

From S2P Require Import Prelude Host CacheTypes PageCache PageCacheInv PageCacheOps.
Import Mmap.

Inductive page_request :=
  | POpen (node : NodeId)
  | PClose (node : NodeId)
  | PMap (node : NodeId) (offset len : N) (flags : MapFlags)
  | PUnmap (m : DaxMapping)
  | PStore (m : DaxMapping) (offset : N) (bytes : list byte)
  | PRead (node : NodeId) (offset len : N)
  | PWrite (node : NodeId) (offset : N) (bytes : list byte)
  | PSync (node : NodeId).

Definition page_keys (node : NodeId) (pages : list N) : gset PageKey :=
  list_to_set ((fun p => (node, p)) <$> pages).

(** The pages of [len] bytes at [offset]. *)
Definition touched (node : NodeId) (offset len : N) : gset PageKey :=
  page_keys node (page_starts (offset / PAGE_SIZE * PAGE_SIZE) (offset + len)).

Section clients.
Context {W S : Type} `{!NodeStore W S} `{!NodeView S}.

Implicit Types (pc : PageCache W S) (held : list DaxMapping) (D : gset PageKey).

Definition writable_keys pc (node : NodeId) : gset PageKey :=
  match pc_files pc !! node with
  | Some info => page_keys node (writable_pages info)
  | None => ∅
  end.

(** A client stores through a writable mapping it holds, inside the mapping
    and before the end of the node. *)
Definition may_store pc held (m : DaxMapping) (offset : N) (bytes : list byte) : bool :=
  bool_decide (m ∈ held) && WRITE (dm_flags m) && (dm_offset m <=? offset) &&
  (offset + lenN bytes <=? dm_offset m + dm_len m) &&
  (offset + lenN bytes <=? lenN (nv_data (pc_store pc) (dm_node m))).

(** A store to the memory of a mapping. *)
Definition poke (f : FileId) (offset : N) (bytes : list byte) pc : PageCache W S :=
  set_host (set_files (<[f := splice offset bytes (file_bytes (pc_host pc) f)]> (h_files (pc_host pc)))
              (pc_host pc)) pc.

(** A client maps nodes it has opened. *)
Definition opened pc (node : NodeId) : bool :=
  match pc_files pc !! node with Some info => in_use info | None => false end.

(** One request: the cache, the mappings clients hold, and the pages that may
    differ from the store: those stored to through a mapping and not yet
    written back, and those of a write, an unmap or a sync that failed.  Clients
    map nodes they have open, and store before the end of the node. *)
Definition page_step (st : PageCache W S * list DaxMapping * gset PageKey) (rq : page_request) :
    PageCache W S * list DaxMapping * gset PageKey :=
  let '(pc, held, D) := st in
  match rq with
  | POpen node => ((open node pc).1, held, D)
  | PClose node => ((close node pc).1, held, D)
  | PMap node offset len flags =>
      if opened pc node then
        match map node offset len flags pc with
        | (pc', Ok m) => (pc', m :: held, D)
        | (pc', Err _) => (pc', held, D)
        end
      else st
  | PUnmap m =>
      match remove_one m held with
      | None => st
      | Some held' =>
          match unmap m pc with
          | (pc', Ok _) =>
              (pc', held', if WRITE (dm_flags m) then D ∖ page_keys (dm_node m) (mapping_pages m) else D)
          | (pc', Err _) => (pc', held', D ∪ page_keys (dm_node m) (mapping_pages m))
          end
      end
  | PStore m offset bytes =>
      if may_store pc held m offset bytes
      then (poke (dm_backing m) offset bytes pc, held, D ∪ touched (dm_node m) offset (lenN bytes))
      else st
  | PRead node offset len => ((read node offset len pc).1, held, D)
  | PWrite node offset bytes =>
      match write node offset bytes pc with
      | (pc', Ok _) => (pc', held, D)
      | (pc', Err _) => (pc', held, D ∪ touched node offset (lenN bytes))
      end
  | PSync node =>
      match sync node pc with
      | (pc', Ok _) => (pc', held, D ∖ writable_keys pc node)
      | (pc', Err _) => (pc', held, D ∪ writable_keys pc node)
      end
  end.

Definition page_run (rqs : list page_request) (st : PageCache W S * list DaxMapping * gset PageKey) :=
  foldl page_step st rqs.

(** States clients reach from a new cache, in fewer than [2^64] requests. *)
Definition page_reachable pc held D : Prop :=
  exists id h w s rqs, lenN rqs < u64_MAX /\ (pc, held, D) = page_run rqs ((new id h w s).2, [], ∅).
End clients.

Section invariant.
Context {W S : Type} `{!NodeStore W S} `{!NodeView S} `{!NodeLaws W S}.

Implicit Types (pc : PageCache W S) (info : FileMmapInfo) (node : NodeId) (p q i off n : N)
  (c bytes : list byte) (m : DaxMapping) (ms held : list DaxMapping) (D : gset PageKey).

Definition suspect D node i : Prop := (node, i / PAGE_SIZE * PAGE_SIZE) ∈ D.

Definition open_ok pc node : Prop := forall info,
  pc_files pc !! node = Some info -> in_use info = true -> 1 <= nv_opened (pc_store pc) node.

(** A mapping a client holds. *)
Definition mapping_ok pc m : Prop :=
  dm_cache_id m = pc_id pc /\ dm_offset m mod PAGE_SIZE = 0 /\ dm_offset m + dm_len m <= u64_MAX /\
  exists info, pc_files pc !! dm_node m = Some info /\ i_backing info = dm_backing m.

Definition node_good n ms D pc node info : Prop :=
  exists c, node_ok pc node info c (asked ms node) (counted n ms node) (suspect D node).

Record page_inv n pc ms D : Prop := {
  pi_node : forall node info, pc_files pc !! node = Some info -> node_good n ms D pc node info;
  pi_open : forall node, open_ok pc node;
  pi_backing : forall node node' info info', pc_files pc !! node = Some info ->
    pc_files pc !! node' = Some info' -> i_backing info = i_backing info' -> node = node';
  pi_maps : forall m, m ∈ ms -> mapping_ok pc m
}.

(** The mappings of the other nodes are the same. *)
Definition elsewhere node ms ms' : Prop := forall node' p, node' <> node ->
  cover ms' node' p = cover ms node' p /\ forall m, dm_node m = node' -> m ∈ ms' <-> m ∈ ms.

Lemma elsewhere_refl node ms : elsewhere node ms ms.
Proof. done. Qed.

Lemma elsewhere_cons m ms : elsewhere (dm_node m) ms (m :: ms).
Proof.
  intros node' p Hne. split; [by apply cover_cons_other|]. intros m' Hm'. rewrite elem_of_cons. naive_solver.
Qed.

Lemma elsewhere_asked node node' ms ms' p : elsewhere node ms ms' -> node' <> node ->
  asked ms' node' p -> asked ms node' p.
Proof. intros He Hne (m & Hm & Hc). exists m. split; [|done]. by apply (He node' p Hne); [apply Hc|]. Qed.

Lemma elsewhere_counted node node' n n' ms ms' p rc fl : elsewhere node ms ms' -> node' <> node -> n <= n' ->
  counted n ms node' p rc fl -> counted n' ms' node' p rc fl.
Proof.
  intros He Hne Hn [Hc Hw]. destruct (He node' p Hne) as [Hcov Hm]. split; [lia|].
  intros m Hin Hcm. apply (Hw m); [|done]. by apply Hm; [apply Hcm|].
Qed.

(** An operation on one node keeps the invariant of the others. *)
Lemma inv_frame n n' node pc pc' ms ms' D D' :
  page_inv n pc ms D -> frame node pc pc' -> n <= n' -> elsewhere node ms ms' ->
  (forall node' p, node' <> node -> (node', p) ∈ D -> (node', p) ∈ D') ->
  (forall info', pc_files pc' !! node = Some info' -> node_good n' ms' D' pc' node info') ->
  open_ok pc' node ->
  (pc_files pc !! node = None -> forall info', pc_files pc' !! node = Some info' ->
    h_next_file (pc_host pc) <= i_backing info') ->
  (forall m, m ∈ ms' -> m ∈ ms \/ dm_node m = node /\ mapping_ok pc' m) ->
  page_inv n' pc' ms' D'.
Proof.
  intros I F Hn He HD Hnode Hopen Hfresh Hmaps.
  assert (forall node0 info0, pc_files pc' !! node = Some info0 -> node0 <> node ->
    forall info1, pc_files pc !! node0 = Some info1 -> i_backing info1 <> i_backing info0) as Hapart.
  { intros node0 info0 H0 Hne info1 H1 Hb. destruct (pi_node _ _ _ _ I _ _ H1) as [c1 K1].
    destruct (pc_files pc !! node) as [info|] eqn:Ei.
    - destruct (fr_backing _ _ _ F info Ei) as (info' & Hi' & Hb'). simplify_eq.
      apply Hne. by apply (pi_backing _ _ _ _ I node0 node info1 info); [..|congruence].
    - specialize (Hfresh eq_refl info0 H0). pose proof (nk_next _ _ _ _ _ _ _ K1). lia. }
  split.
  - intros node0 info0 H0. destruct (decide (node0 = node)) as [->|Hne]; [by apply Hnode|].
    rewrite (fr_infos _ _ _ F) in H0 by done. destruct (pi_node _ _ _ _ I _ _ H0) as [c0 K0]. exists c0.
    assert (h_files (pc_host pc') !! i_backing info0 = Some c0) as Hfile.
    { rewrite (fr_files _ _ _ F); [apply K0|apply K0|]. intros info Hi Hb.
      by apply Hne, (pi_backing _ _ _ _ I node0 node info0 info). }
    destruct (fr_nodes _ _ _ F node0 Hne) as [Hd _].
    split; try apply K0; [by rewrite (fr_infos _ _ _ F)|done|..].
    + pose proof (nk_next _ _ _ _ _ _ _ K0). pose proof (fr_next _ _ _ F). lia.
    + intros p Hp. apply (nk_must _ _ _ _ _ _ _ K0). by eapply elsewhere_asked.
    + intros p f Hp. eapply elsewhere_counted; [done..|]. by apply (nk_fmap _ _ _ _ _ _ _ K0).
    + intros p f i Hp Hi. unfold byte_ok, nv_at. rewrite Hd.
      destruct (nk_bytes _ _ _ _ _ _ _ K0 p f i Hp Hi) as [Hb|[Hs Hl]]; [by left|right].
      split; [by apply HD|done].
  - intros node0. destruct (decide (node0 = node)) as [->|Hne]; [done|]. intros info0 H0 Hu.
    rewrite (fr_infos _ _ _ F) in H0 by done. destruct (fr_nodes _ _ _ F node0 Hne) as [_ ->].
    by apply (pi_open _ _ _ _ I node0 info0).
  - intros n1 n2 i1 i2 H1 H2 Hb. destruct (decide (n1 = n2)) as [|Hne]; [done|exfalso].
    destruct (decide (n1 = node)) as [->|Hn1], (decide (n2 = node)) as [->|Hn2]; [done|..];
      rewrite ?(fr_infos _ _ _ F) in H1 by done; rewrite ?(fr_infos _ _ _ F) in H2 by done.
    + by apply (Hapart n2 i1 H1 Hn2 i2 H2).
    + by apply (Hapart n1 i2 H2 Hn1 i1 H1).
    + by apply Hne, (pi_backing _ _ _ _ I n1 n2 i1 i2).
  - intros m Hm. destruct (Hmaps m Hm) as [Hin|[_ Hok]]; [|done].
    destruct (pi_maps _ _ _ _ I m Hin) as (Hid & Ha & Hl & info & Hi & Hb).
    split; [by rewrite (fr_id _ _ _ F)|]. split; [done|]. split; [done|].
    destruct (decide (dm_node m = node)) as [Heq|Hne].
    + rewrite Heq in *. destruct (fr_backing _ _ _ F info Hi) as (info' & Hi' & Hb').
      exists info'. split; [done|congruence].
    + exists info. by rewrite (fr_infos _ _ _ F).
Qed.

Lemma counted_le n n' ms node p rc fl : n <= n' -> counted n ms node p rc fl -> counted n' ms node p rc fl.
Proof. intros Hn [Hc Hw]. split; [lia|done]. Qed.

(** The same when the node is neither opened nor closed. *)
Lemma inv_calm n n' node pc pc' info info' c' ms ms' D D' :
  page_inv n pc ms D -> pc_files pc !! node = Some info -> calm node pc pc' -> n <= n' ->
  (in_use info' = true -> in_use info = true) -> elsewhere node ms ms' ->
  (forall node' p, node' <> node -> (node', p) ∈ D -> (node', p) ∈ D') ->
  node_ok pc' node info' c' (asked ms' node) (counted n' ms' node) (suspect D' node) ->
  (forall m, m ∈ ms' -> m ∈ ms \/ dm_node m = node /\ mapping_ok pc' m) ->
  page_inv n' pc' ms' D'.
Proof.
  intros I Hi [F Ho] Hn Hu He HD K' Hm.
  apply (inv_frame n n' node pc pc' ms ms' D D'); try done.
  - intros info0 H0. rewrite (nk_info _ _ _ _ _ _ _ K') in H0. simplify_eq. by exists c'.
  - intros info0 H0 Hu0. rewrite (nk_info _ _ _ _ _ _ _ K') in H0. simplify_eq.
    rewrite Ho. apply (pi_open _ _ _ _ I node info); auto.
  - intros Hnone. congruence.
Qed.

Lemma inv_le n n' pc ms D : page_inv n pc ms D -> n <= n' -> page_inv n' pc ms D.
Proof.
  intros I Hn. split; try apply I. intros node info Hi. destruct (pi_node _ _ _ _ I node info Hi) as [c K].
  exists c. apply (ok_weaken _ _ _ _ _ _ _ K); try done. intros p f _. by apply counted_le.
Qed.

(** The mappings and counts stay as they are. *)
Lemma inv_same n node pc pc' info info' c' ms D D' :
  page_inv n pc ms D -> pc_files pc !! node = Some info -> calm node pc pc' -> same_counts info info' ->
  (forall node' p, node' <> node -> (node', p) ∈ D -> (node', p) ∈ D') ->
  node_ok pc' node info' c' (asked ms node) (counted n ms node) (suspect D' node) ->
  page_inv n pc' ms D'.
Proof.
  intros I Hi C Hs HD K'. eapply inv_calm; [done..| | |done|exact K'|by left]; [|done].
  by rewrite (same_counts_in_use _ _ Hs).
Qed.

(** A node that is not in the cache. *)
Lemma inv_absent n node pc pc' ms D :
  page_inv n pc ms D -> pc_files pc !! node = None -> frame node pc pc' -> pc_files pc' = pc_files pc ->
  page_inv n pc' ms D.
Proof.
  intros I Hnone F Hf. apply (inv_frame n n node pc pc' ms ms D D); try done.
  - intros info'. congruence.
  - intros info'. congruence.
  - intros _ info'. congruence.
  - by left.
Qed.

(** ** Opening and closing *)

(** The store opens or closes the node; its contents stay. *)
Lemma ok_reopened pc ws node info c must fok susp :
  node_ok pc node info c must fok susp ->
  (forall node', node' <> node -> same_node node' (pc_store pc) ws.2) ->
  nv_data ws.2 node = nv_data (pc_store pc) node ->
  node_ok (set_store ws pc) node info c must fok susp /\ frame node pc (set_store ws pc).
Proof.
  intros K Hs Hd. split; split; try apply K; try done.
  - intros p f i Hp Hi. unfold byte_ok, nv_at. cbn. rewrite Hd. by apply (nk_bytes _ _ _ _ _ _ _ K p f).
  - intros info' Hi. by exists info'.
Qed.

Lemma not_asked n pc ms D node p : page_inv n pc ms D -> pc_files pc !! node = None -> ~ asked ms node p.
Proof.
  intros I Hnone (m & Hm & <- & _). destruct (pi_maps _ _ _ _ I m Hm) as (_ & _ & _ & info & Hi & _). congruence.
Qed.

Lemma wp_entry n node pc ms D :
  page_inv n pc ms D ->
  wp (match pc_files pc !! node with
      | Some _ => mret tt
      | None => info ← info_new; put_info node info
      end)
    (fun _ pc' => page_inv n pc' ms D /\ is_Some (pc_files pc' !! node)) (fun _ pc' => page_inv n pc' ms D) pc.
Proof.
  intros I. destruct (pc_files pc !! node) as [info|] eqn:Ei; [wp_steps; rewrite Ei; eauto|].
  unfold info_new, put_info. wp_steps. apply wp_node_io. apply wp_tempfile.
  2:{ intros e h' [Hf Hn]. apply (inv_absent n node pc); [done..| |done].
      split; cbn; rewrite ?Hf, ?Hn; try done. intros info'. congruence. }
  intros h' Hf Hn. wp_steps. set (info := mkInfo _ 0 ∅ 0 0).
  split; [|exists info; cbn; by rewrite lookup_insert_eq].
  apply (inv_frame n n node pc _ ms ms D D); try done.
  - split; cbn; try done; [by intros; rewrite lookup_insert_ne| |lia|intros info'; congruence].
    intros f Hlt _. rewrite Hf, lookup_insert_ne by lia. done.
  - intros info'. cbn. rewrite lookup_insert_eq. intros [= <-]. exists []. split; cbn; try done.
    + by rewrite lookup_insert_eq.
    + by rewrite Hf, lookup_insert_eq.
    + lia.
    + intros p Hp. by destruct (not_asked n pc ms D node p).
  - intros info'. cbn. rewrite lookup_insert_eq. by intros [= <-].
  - intros _ info'. cbn. rewrite lookup_insert_eq. intros [= <-]. cbn. lia.
  - by left.
Qed.

Lemma run_state {A} (P : PageCache W S -> Prop) (f : M (PageCache W S) CacheError A) pc :
  wp f (fun _ => P) (fun _ => P) pc -> P (f pc).1.
Proof. unfold wp. by destruct (f pc) as [pc' [a|e]]. Qed.

Lemma page_step_open n node pc ms D : page_inv n pc ms D -> page_inv n (open node pc).1 ms D.
Proof.
  intros I. apply (run_state (fun pc' => page_inv n pc' ms D)). unfold open. wp_steps.
  eapply wp_mono; [by apply (wp_entry n node pc ms D)| |done].
  intros [] pc1 [I1 [info Hi]]. destruct (pi_node _ _ _ _ I1 node info Hi) as [c K].
  wp_steps. eapply wp_get_info; [done|]. cbv beta. wp_steps.
  assert (forall pc2, frame node pc1 pc2 -> node_ok pc2 node info c (asked ms node) (counted n ms node) (suspect D node) ->
    1 <= nv_opened (pc_store pc2) node ->
    wp (match checked_add (i_open_fds info) 1 with
        | None => throw (InvalidMapping "open reference count overflow")
        | Some k => put_info node (set_open_fds k info)
        end) (fun _ pc' => page_inv n pc' ms D) (fun _ pc' => page_inv n pc' ms D) pc2) as Hlast.
  { intros pc2 F2 K2 Ho2. destruct (checked_add (i_open_fds info) 1) as [k|]; unfold put_info; wp_steps.
    - destruct (ok_put _ _ _ _ _ _ _ K2 (set_open_fds k info) (asked ms node) (counted n ms node)) as [K3 [F3 O3]];
        [done|done|apply K2|apply K2|left; eauto|].
      apply (inv_frame n n node pc1 _ ms ms D D); try done; [by eapply frame_trans; eauto|..].
      + intros info' Hi'. rewrite (nk_info _ _ _ _ _ _ _ K3) in Hi'. simplify_eq. by exists c.
      + intros info' _ _. by rewrite O3.
      + congruence.
      + by left.
    - apply (inv_frame n n node pc1 _ ms ms D D); try done.
      + intros info' Hi'. rewrite (nk_info _ _ _ _ _ _ _ K2) in Hi'. simplify_eq. by exists c.
      + by intros info' _ _.
      + congruence.
      + by left. }
  destruct (in_use info) eqn:Hu; cbn [negb]; wp_steps.
  { apply Hlast; [apply frame_refl|done|]. by apply (pi_open _ _ _ _ I1 node info). }
  apply wp_node_store. eapply wp_mono; [apply nl_open| |]; cbn [snd].
  - intros [] ws (Hs & Hd & Ho). destruct (ok_reopened _ ws _ _ _ _ _ _ K Hs Hd) as [K2 F2].
    apply Hlast; [done..|]. cbn. lia.
  - intros e ws Hs. destruct (ok_asked _ _ _ _ _ _ _ K ws Hs) as [K2 C2]. by eapply inv_same.
Qed.

(** The end of [close] and [unmap]: the last user closes the node. *)
Lemma wp_last_user n node pc info ms D :
  page_inv n pc ms D -> pc_files pc !! node = Some info ->
  wp (if negb (in_use info) then on_store (on_close_node node) else mret tt)
    (fun _ pc' => page_inv n pc' ms D) (fun _ pc' => page_inv n pc' ms D) pc.
Proof.
  intros I Hi. destruct (in_use info) eqn:Hu; cbn [negb]; [by wp_steps|].
  destruct (pi_node _ _ _ _ I node info Hi) as [c K].
  assert (forall ws, (forall node', node' <> node -> same_node node' (pc_store pc) ws.2) ->
    nv_data ws.2 node = nv_data (pc_store pc) node -> page_inv n (set_store ws pc) ms D) as Hclosed.
  { intros ws Hs Hd. destruct (ok_reopened _ ws _ _ _ _ _ _ K Hs Hd) as [K2 F2].
    apply (inv_frame n n node pc _ ms ms D D); try done.
    - intros info2 Hi2. rewrite (nk_info _ _ _ _ _ _ _ K2) in Hi2. simplify_eq. by exists c.
    - intros info2 Hi2. rewrite (nk_info _ _ _ _ _ _ _ K2) in Hi2. simplify_eq. congruence.
    - congruence.
    - by left. }
  apply wp_node_store. eapply wp_mono; [apply nl_close| |]; cbn [snd].
  - intros [] ws (Hs & Hd & _). by apply Hclosed.
  - intros e ws (Hs & Hd). by apply Hclosed.
Qed.

Lemma page_step_close n node pc ms D : page_inv n pc ms D -> page_inv n (close node pc).1 ms D.
Proof.
  intros I. apply (run_state (fun pc' => page_inv n pc' ms D)). unfold close. wp_steps.
  unfold wp at 1, get_info. destruct (pc_files pc !! node) as [info|] eqn:Hi; [|done].
  destruct (checked_sub (i_open_fds info) 1) as [k|] eqn:Hk; [|by wp_steps].
  apply checked_sub_Some in Hk as [-> Hle]. destruct (pi_node _ _ _ _ I node info Hi) as [c K].
  set (info' := set_open_fds _ info). unfold put_info. wp_steps.
  destruct (ok_put _ _ _ _ _ _ _ K info' (asked ms node) (counted n ms node)) as [K1 C1];
    [done|done|apply K|apply K|left; eauto|].
  apply (wp_last_user n node _ info' ms D); [|apply K1].
  eapply inv_calm; [done..| | |done|exact K1|by left]; [|done].
  intros _. apply in_use_true. left. lia.
Qed.

(** ** Mapping and unmapping *)

Lemma inv_suspects n pc ms D D' : page_inv n pc ms D -> D ⊆ D' -> page_inv n pc ms D'.
Proof.
  intros I Hsub. split; try apply I. intros node info Hi. destruct (pi_node _ _ _ _ I node info Hi) as [c K].
  exists c. apply (ok_weaken _ _ _ _ _ _ _ K); try done.
  intros p f i _ _ [Hb|[Hs Hl]]; [by left|right]. split; [by apply Hsub|done].
Qed.

Lemma elem_of_page_keys node node' pages p : (node', p) ∈ page_keys node pages <-> node' = node /\ p ∈ pages.
Proof. unfold page_keys. rewrite elem_of_list_to_set, list_elem_of_fmap. naive_solver. Qed.

Lemma in_pages_aligned pages i : (forall p, p ∈ pages -> p mod PAGE_SIZE = 0) ->
  in_pages pages i <-> i / PAGE_SIZE * PAGE_SIZE ∈ pages.
Proof.
  intros Hal. split.
  - intros (p & Hp & Hi). specialize (Hal p Hp). unfold in_page in Hi.
    replace (i / PAGE_SIZE * PAGE_SIZE) with p by divlia. done.
  - intros Hp. exists (i / PAGE_SIZE * PAGE_SIZE). split; [done|]. unfold in_page. divlia.
Qed.

Lemma mapping_pages_aligned m p : dm_offset m mod PAGE_SIZE = 0 -> p ∈ mapping_pages m -> p mod PAGE_SIZE = 0.
Proof. intros Ha Hp. by apply aligned_in_range in Hp as [_ ?]. Qed.

Lemma in_touched node off len i : off <= i < off + len -> (node, i / PAGE_SIZE * PAGE_SIZE) ∈ touched node off len.
Proof.
  intros Hi. apply elem_of_page_keys. split; [done|]. apply aligned_in_range; [by apply N.Div0.mod_mul|].
  split; [divlia|by apply N.Div0.mod_mul].
Qed.

Lemma counting_counted n ms m p rc fl :
  counting n ms (dm_node m) (dm_flags m) (mapping_pages m) p rc fl -> counted (n + 1) (m :: ms) (dm_node m) p rc fl.
Proof.
  unfold counting, counted. rewrite cover_cons, wants_cons. intros ((Hlo & Hhi) & Hw & Hf).
  split; [|done]. destruct (bool_decide _); lia.
Qed.

Lemma counting_le n ms node flags before p rc fl :
  counting n ms node flags before p rc fl -> counted (n + 1) ms node p rc fl.
Proof. intros ((Hlo & Hhi) & Hw & Hf). split; [|done]. destruct (bool_decide _); lia. Qed.

Lemma page_step_map n node off len flags pc ms D :
  page_inv n pc ms D -> n < u64_MAX -> opened pc node = true ->
  match map node off len flags pc with
  | (pc', Ok m) => page_inv (n + 1) pc' (m :: ms) D
  | (pc', Err _) => page_inv (n + 1) pc' ms D
  end.
Proof.
  intros I Hn Ho. unfold opened in Ho. destruct (pc_files pc !! node) as [info|] eqn:Hi; [|done].
  destruct (pi_node _ _ _ _ I node info Hi) as [c K].
  enough (wp (map node off len flags) (fun m pc' => page_inv (n + 1) pc' (m :: ms) D)
            (fun _ pc' => page_inv (n + 1) pc' ms D) pc) as H by exact H.
  apply (wp_cached_map n node off len flags ms _ _ pc info c _ K Hn).
  - intros m pc' (Hid & <- & <- & <- & _ & Hal & _ & Hmax) Hb [C' (info' & c' & K')].
    eapply (inv_calm n (n + 1) (dm_node m) pc pc' info info' c' ms (m :: ms) D D); try done.
    + lia.
    + apply elsewhere_cons.
    + apply (ok_weaken _ _ _ _ _ _ _ K'); try done.
      * intros p (m' & Hm' & Hc). apply elem_of_cons in Hm' as [->|Hm']; [right; apply Hc|left; by exists m'].
      * intros p f _. apply counting_counted.
    + intros m' [->|Hm']%elem_of_cons; [right|by left]. split; [done|].
      split_and!; [by rewrite (fr_id _ _ _ (proj1 C'))|done..|].
      exists info'. split; [apply K'|].
      destruct (fr_backing _ _ _ (proj1 C') info Hi) as (info2 & Hi2 & Hb2).
      rewrite (nk_info _ _ _ _ _ _ _ K') in Hi2. simplify_eq. congruence.
  - intros e pc' before [C' (info' & c' & K')].
    eapply (inv_calm n (n + 1) node pc pc' info info' c' ms ms D D); try done; [lia| |by left].
    apply (ok_weaken _ _ _ _ _ _ _ K'); try done; [by left|]. intros p f _. apply counting_le.
Qed.

Lemma elsewhere_drop m ms : elsewhere (dm_node m) (m :: ms) ms.
Proof.
  intros node' p Hne. destruct (elsewhere_cons m ms node' p Hne) as [Hc Hm]. split; [done|].
  intros m' Hm'. symmetry. by apply Hm.
Qed.

Lemma released_inv n m ms D D' susp pc info pc' :
  page_inv n pc (m :: ms) D -> pc_files pc !! dm_node m = Some info ->
  released n m ms susp pc info pc' ->
  (forall node' p, node' <> dm_node m -> (node', p) ∈ D -> (node', p) ∈ D') ->
  (forall i, susp i -> suspect D' (dm_node m) i) ->
  page_inv n pc' ms D'.
Proof.
  intros I Hi [C' (info' & c' & S' & K')] HD Hs.
  eapply (inv_calm n n (dm_node m) pc pc' info info' c' (m :: ms) ms D D'); try done.
  - by apply shrunk_in_use.
  - apply elsewhere_drop.
  - apply (ok_weaken _ _ _ _ _ _ _ K'); try done.
    intros p f i _ _ [Hb|[Hsi Hl]]; [by left|right]. split; [by apply Hs|done].
  - intros m' Hm'. left. set_solver.
Qed.

Lemma page_step_unmap n m pc ms D :
  page_inv n pc (m :: ms) D ->
  match unmap m pc with
  | (pc', Ok _) => page_inv n pc' ms (if WRITE (dm_flags m) then D ∖ page_keys (dm_node m) (mapping_pages m) else D)
  | (pc', Err _) => page_inv n pc' ms (D ∪ page_keys (dm_node m) (mapping_pages m))
  end.
Proof.
  intros I. set (D1 := if WRITE (dm_flags m) then _ else _). set (D2 := D ∪ _).
  enough (wp (unmap m) (fun _ pc' => page_inv n pc' ms D1) (fun _ pc' => page_inv n pc' ms D2) pc) as H by exact H.
  destruct (pi_maps _ _ _ _ I m) as (Hid & Hal & Hmax & info & Hi & Hb); [set_solver|].
  destruct (pi_node _ _ _ _ I _ _ Hi) as [c K].
  assert (D1 ⊆ D2) as Hsub by (unfold D1, D2; destruct (WRITE _); set_solver).
  assert (forall i, in_pages (mapping_pages m) i <-> i / PAGE_SIZE * PAGE_SIZE ∈ mapping_pages m) as Hin.
  { intros i. apply in_pages_aligned. intros p. by apply mapping_pages_aligned. }
  unfold unmap. wp_steps. rewrite Hid, N.eqb_refl. cbn [negb]. wp_steps.
  eapply wp_get_info; [done|]. cbv beta.
  rewrite (proj2 (checked_add_Some (dm_offset m) (dm_len m) _) (conj eq_refl Hmax)). wp_steps.
  eapply (wp_unmap_pages n m ms); [exact K| |].
  - intros pc' Hr. pose proof Hr as [_ (info' & c' & _ & K')].
    wp_steps. eapply wp_get_info; [apply K'|]. cbv beta.
    eapply wp_mono; [apply (wp_last_user n (dm_node m) pc' info' ms D1)|done|].
    + apply (released_inv n m ms D D1 _ pc info pc' I Hi Hr).
      * intros node' p Hne Hp. unfold D1. destruct (WRITE _); [|done].
        apply elem_of_difference. split; [done|]. by intros [? _]%elem_of_page_keys.
      * intros i [Hs Hn]. unfold suspect, D1. destruct (WRITE (dm_flags m)); [|done].
        apply elem_of_difference. split; [done|]. intros [_ Hp]%elem_of_page_keys. apply Hn. split; [done|]. by apply Hin.
    + apply K'.
    + intros e pc2 I2. exact (inv_suspects _ _ _ _ _ I2 Hsub).
  - intros e pc' Hr. apply (released_inv n m ms D D2 _ pc info pc' I Hi Hr); [set_solver|].
    intros i Hs. unfold suspect, D2. apply elem_of_union. destruct Hs as [Hs|Hp]; [by left|right].
    apply elem_of_page_keys. split; [done|]. by apply Hin.
Qed.

(** ** Reading, writing and writing back *)

Lemma frame_store node pc ws :
  (forall node', node' <> node -> same_node node' (pc_store pc) ws.2) -> frame node pc (set_store ws pc).
Proof. intros Hs. split; try done. intros info Hi. by exists info. Qed.

Lemma frame_asked node pc ws : same_nodes (pc_store pc) ws.2 -> frame node pc (set_store ws pc).
Proof. intros Hs. apply frame_store. intros node' _. apply Hs. Qed.

(** [read] returns the node's bytes where no page is suspect. *)
Lemma wp_read_inv n node off len pc ms D :
  page_inv n pc ms D ->
  wp (read node off len)
    (fun bytes pc' => page_inv n pc' ms D /\
      ((forall i, off <= i < off + len -> ~ suspect D node i) -> bytes = slice off len (nv_data (pc_store pc) node)))
    (fun _ pc' => page_inv n pc' ms D) pc.
Proof.
  intros I. destruct (pc_files pc !! node) as [info|] eqn:Hi.
  { destruct (pi_node _ _ _ _ I node info Hi) as [c K]. apply (wp_cached_read _ _ _ _ _ _ _ _ _ _ _ K).
    - intros bytes pc' C' _ K' Hb. split; [|done]. by eapply inv_same.
    - intros e pc' C' K'. by eapply inv_same. }
  unfold read. wp_steps. apply wp_node_store. eapply wp_mono; [apply nl_len| |]; cbn [snd].
  2:{ intros e ws Hs. by eapply inv_absent; [..|by apply frame_asked|]. }
  intros k ws [-> Hs]. pose proof (frame_asked node pc ws Hs) as F1. set (data := nv_data _ node).
  destruct (N.leb_spec (lenN data) off) as [Hle|Hlt]; cbn [orb].
  { wp_steps. split; [by eapply inv_absent|]. intros _. by rewrite slice_past. }
  destruct (N.eqb_spec len 0) as [->|Hlen]; [wp_steps; split; [by eapply inv_absent|done]|].
  wp_steps. change (pc_files (set_store ws pc)) with (pc_files pc). rewrite Hi. apply wp_node_store.
  assert (page_inv n (set_store ws pc) ms D) as I1 by (by eapply inv_absent).
  eapply wp_mono; [apply nl_read| |]; cbn [snd].
  - intros bytes ws2 [-> Hs2]. split.
    + by eapply (inv_absent n node (set_store ws pc)); [..|by apply frame_asked|].
    + intros _. destruct (Hs node) as [Hd _]. cbn in Hd |- *. rewrite Hd. by apply slice_clip.
  - intros e ws2 Hs2. by eapply (inv_absent n node (set_store ws pc)); [..|by apply frame_asked|].
Qed.

(** The bytes of the file a mapping shows, and what a write does to the node. *)
Lemma wp_write_inv n node off bytes pc ms D :
  page_inv n pc ms D ->
  wp (write node off bytes)
    (fun k pc' => page_inv n pc' ms D /\ wrote node off bytes k pc pc')
    (fun _ pc' => page_inv n pc' ms (D ∪ touched node off (lenN bytes))) pc.
Proof.
  intros I. set (D2 := D ∪ _).
  assert (forall node' p, node' <> node -> (node', p) ∈ D -> (node', p) ∈ D2) as HD by set_solver.
  destruct (pc_files pc !! node) as [info|] eqn:Hi.
  { destruct (pi_node _ _ _ _ I node info Hi) as [c K]. apply (wp_cached_write _ _ _ _ _ _ _ _ _ _ _ K).
    - intros k pc' info' c' C' S' Hw K'. split; [|done]. by eapply inv_same.
    - intros e pc' info' c' C' S' K'. eapply inv_same; [done..|].
      apply (ok_weaken _ _ _ _ _ _ _ K'); try done. intros p f i _ _ [Hb|[Hs Hl]]; [by left|right].
      split; [|done]. apply elem_of_union. destruct Hs as [Hs|Hs]; [by left|right; by apply in_touched]. }
  unfold write. wp_steps. apply wp_node_store. eapply wp_mono; [apply nl_write| |]; cbn [snd].
  - intros k ws Hw. wp_steps. change (pc_files (set_store ws pc)) with (pc_files pc). rewrite Hi. wp_steps.
    split; [|done]. eapply inv_absent; [done..| |done]. apply frame_store. apply Hw.
  - intros e ws Hp. apply (inv_suspects n _ ms D); [|set_solver].
    eapply inv_absent; [done..| |done]. apply frame_store. apply Hp.
Qed.

Lemma wp_sync_inv n node pc ms D :
  page_inv n pc ms D ->
  wp (sync node)
    (fun _ pc' => page_inv n pc' ms (D ∖ writable_keys pc node) /\
      (forall info, pc_files pc !! node = Some info ->
        file_bytes (pc_host pc') (i_backing info) = file_bytes (pc_host pc) (i_backing info)))
    (fun _ pc' => page_inv n pc' ms (D ∪ writable_keys pc node)) pc.
Proof.
  intros I. unfold writable_keys. destruct (pc_files pc !! node) as [info|] eqn:Hi.
  2:{ unfold sync. wp_steps. unfold wp, get_info. rewrite Hi. apply (inv_suspects n _ ms D); [done|set_solver]. }
  destruct (pi_node _ _ _ _ I node info Hi) as [c K].
  assert (forall i, in_pages (writable_pages info) i <-> i / PAGE_SIZE * PAGE_SIZE ∈ writable_pages info) as Hin.
  { intros i. apply in_pages_aligned. intros p (f & Hf & _)%elem_of_writable.
    by apply (nk_aligned _ _ _ _ _ _ _ K p f). }
  apply (wp_cached_sync _ _ _ _ _ _ _ _ _ K).
  - intros pc' info' C' S' K'. split.
    + eapply inv_same; [done..| |].
      * intros node' p Hne Hp. apply elem_of_difference. split; [done|]. by intros [? _]%elem_of_page_keys.
      * apply (ok_weaken _ _ _ _ _ _ _ K'); try done.
        intros p f i _ _ [Hb|[[Hs Hn] Hl]]; [by left|right]. split; [|done]. apply elem_of_difference.
        split; [done|]. intros [_ Hp]%elem_of_page_keys. by apply Hn, Hin.
    + intros info0 [= <-]. unfold file_bytes. rewrite (nk_file _ _ _ _ _ _ _ K).
      replace (i_backing info) with (i_backing info') by apply S'. by rewrite (nk_file _ _ _ _ _ _ _ K').
  - intros e pc' info' C' S' K'. eapply inv_same; [done..|set_solver|].
    apply (ok_weaken _ _ _ _ _ _ _ K'); try done. intros p f i _ _ [Hb|[Hs Hl]]; [by left|right].
    split; [|done]. apply elem_of_union. destruct Hs as [Hs|Hs]; [by left|right].
    apply elem_of_page_keys. split; [done|]. by apply Hin.
Qed.

Lemma splice_nil {A} off (l : list A) : splice off [] l = l.
Proof. unfold splice. cbn. by rewrite Nat.add_0_r, take_drop. Qed.

(** A client's store through a mapping. *)
Lemma page_step_store n m off bytes pc ms D :
  page_inv n pc ms D -> may_store pc ms m off bytes = true ->
  page_inv n (poke (dm_backing m) off bytes pc) ms (D ∪ touched (dm_node m) off (lenN bytes)).
Proof.
  intros I Hmay. unfold may_store in Hmay. rewrite !andb_true_iff, !N.leb_le, bool_decide_eq_true in Hmay.
  destruct Hmay as ((((Hm & Hw) & Hlo) & Hhi) & Hlen).
  destruct (pi_maps _ _ _ _ I m Hm) as (_ & Hal & Hmax & info & Hi & <-).
  destruct (pi_node _ _ _ _ I _ _ Hi) as [c K].
  assert (file_bytes (pc_host pc) (i_backing info) = c) as Hc
    by (unfold file_bytes; by rewrite (nk_file _ _ _ _ _ _ _ K)).
  assert (off + lenN bytes <= lenN c \/ bytes = []) as Hfit.
  { destruct (decide (bytes = [])) as [->|Hne]; [by right|left].
    assert (0 < lenN bytes) as Hpos by (unfold lenN; destruct bytes; [done|cbn; lia]).
    set (last := off + lenN bytes - 1). set (p := last / PAGE_SIZE * PAGE_SIZE).
    destruct (nk_must _ _ _ _ _ _ _ K p) as [f Hf].
    { exists m. split; [done|]. split; [done|]. apply aligned_in_range; [done|]. unfold p, last. divlia. }
    destruct (nk_aligned _ _ _ _ _ _ _ K p f Hf) as [_ Hend]. rewrite (nk_size _ _ _ _ _ _ _ K).
    unfold p, last in Hend. divlia. }
  unfold poke. rewrite Hc. destruct (ok_bytes _ _ _ _ _ _ _ K
    (set_files (<[i_backing info := splice off bytes c]> (h_files (pc_host pc))) (pc_host pc)) (splice off bytes c)
    (suspect (D ∪ touched (dm_node m) off (lenN bytes)) (dm_node m))) as [K' C']; try done.
  - destruct Hfit as [Hfit| ->]; [by rewrite lenN_splice|]. by rewrite splice_nil.
  - intros p f i Hp Hpi Hb. destruct (decide (off <= i < off + lenN bytes)) as [Hr|Hr].
    + right. split; [|lia]. apply elem_of_union. right. by apply in_touched.
    + unfold byte_ok. assert (nthN (splice off bytes c) i = nthN c i) as ->.
      { destruct Hfit as [Hfit| ->]; [|by rewrite splice_nil].
        rewrite nthN_splice by done. destruct (N.leb_spec off i), (N.ltb_spec i (off + lenN bytes)); cbn; done || lia. }
      destruct Hb as [Hb|[Hs Hl]]; [by left|right]. split; [|done]. apply elem_of_union. by left.
  - by eapply (inv_same n (dm_node m) pc _ info info); [..|set_solver|].
Qed.

(** ** Runs *)

Lemma inv_perm n pc ms ms' D : ms ≡ₚ ms' -> page_inv n pc ms D -> page_inv n pc ms' D.
Proof.
  intros Hp I. split; try apply I.
  - intros node info Hi. destruct (pi_node _ _ _ _ I node info Hi) as [c K]. exists c.
    apply (ok_weaken _ _ _ _ _ _ _ K); try done.
    + intros p (m & Hm & Hc). exists m. by rewrite Hp.
    + intros p f _ [Hc Hw]. split.
      * unfold cover in *. by rewrite <-Hp.
      * intros m Hm. apply Hw. by rewrite Hp.
  - intros m Hm. apply (pi_maps _ _ _ _ I). by rewrite Hp.
Qed.

Lemma page_step_inv n rq pc ms D pc' ms' D' :
  page_inv n pc ms D -> n < u64_MAX -> page_step (pc, ms, D) rq = (pc', ms', D') -> page_inv (n + 1) pc' ms' D'.
Proof.
  intros I Hn Hs. assert (n <= n + 1) as Hle by lia. assert (page_inv (n + 1) pc ms D) as I' by (by eapply inv_le).
  destruct rq as [node|node|node off len flags|m|m off bytes|node off len|node off bytes|node]; cbn in Hs.
  - simplify_eq. by apply page_step_open.
  - simplify_eq. by apply page_step_close.
  - destruct (opened pc node) eqn:Ho; [|by simplify_eq].
    pose proof (page_step_map n node off len flags pc ms D I Hn Ho) as Hm.
    by destruct (map node off len flags pc) as [pc2 [m|e]]; simplify_eq.
  - destruct (remove_one m ms) as [held|] eqn:Hr; [|by simplify_eq]. apply remove_one_perm in Hr.
    pose proof (page_step_unmap (n + 1) m pc held D (inv_perm _ _ _ _ _ Hr I')) as Hu.
    by destruct (unmap m pc) as [pc2 [u|e]]; simplify_eq.
  - destruct (may_store pc ms m off bytes) eqn:Hm; [|by simplify_eq]. injection Hs as <- <- <-. by apply page_step_store.
  - simplify_eq. apply (run_state (fun pc' => page_inv (n + 1) pc' ms' D')).
    eapply wp_mono; [by apply (wp_read_inv (n + 1) node off len pc ms' D')|by intros ? ? []|done].
  - pose proof (wp_write_inv (n + 1) node off bytes pc ms D I') as Hw. unfold wp in Hw.
    destruct (write node off bytes pc) as [pc2 [k|e]]; simplify_eq; [apply Hw|done].
  - pose proof (wp_sync_inv (n + 1) node pc ms D I') as Hw. unfold wp in Hw.
    destruct (sync node pc) as [pc2 [u|e]]; simplify_eq; [apply Hw|done].
Qed.

Lemma page_run_inv rqs n pc ms D pc' ms' D' :
  page_inv n pc ms D -> n + lenN rqs <= u64_MAX -> (pc', ms', D') = page_run rqs (pc, ms, D) ->
  page_inv (n + lenN rqs) pc' ms' D'.
Proof.
  revert n pc ms D. induction rqs as [|rq rqs IH]; intros n pc ms D I Hn Hr.
  - cbn in Hr. simplify_eq. eapply inv_le; [done|lia].
  - unfold page_run in Hr. cbn [foldl] in Hr. destruct (page_step (pc, ms, D) rq) as [[pc1 ms1] D1] eqn:Es.
    unfold lenN in *. cbn [length] in *.
    replace (n + N.of_nat (Datatypes.S (length rqs))) with (n + 1 + N.of_nat (length rqs)) by lia.
    eapply IH; [|lia|exact Hr]. eapply page_step_inv; [done|lia|done].
Qed.

Lemma page_reachable_inv pc held D : page_reachable pc held D -> exists n, n < u64_MAX /\ page_inv n pc held D.
Proof.
  intros (id & h & w & s & rqs & Hlen & Hr). exists (0 + lenN rqs). split; [lia|].
  eapply page_run_inv; [|lia|exact Hr]. split; cbn; try done.
  intros m Hm. by apply not_elem_of_nil in Hm.
Qed.

Lemma mapped_byte n pc ms D m i :
  page_inv n pc ms D -> m ∈ ms -> dm_offset m <= i < dm_offset m + dm_len m ->
  ~ suspect D (dm_node m) i ->
  nthN (file_bytes (pc_host pc) (dm_backing m)) i = Some (nv_at (pc_store pc) (dm_node m) i).
Proof.
  intros I Hm Hi Hs. destruct (pi_maps _ _ _ _ I m Hm) as (_ & Hal & _ & info & Hinfo & <-).
  destruct (pi_node _ _ _ _ I _ _ Hinfo) as [c K]. set (p := i / PAGE_SIZE * PAGE_SIZE).
  destruct (nk_must _ _ _ _ _ _ _ K p) as [f Hf].
  { exists m. split; [done|]. split; [done|]. apply aligned_in_range; [done|]. unfold p. divlia. }
  unfold file_bytes. rewrite (nk_file _ _ _ _ _ _ _ K). cbn.
  destruct (nk_bytes _ _ _ _ _ _ _ K p f i Hf) as [Hb|[Hb _]]; [unfold p; divlia|done..].
Qed.

(** C28. Mappings are coherent with the store.  Clients open and close nodes, map
    those they have open, store through their mappings before the end of the
    node, unmap, read, write and sync, in any order, and the host fails any
    call.  Then every byte a held mapping shows is the byte the filesystem has
    there, and zero past the end of the file, in every page outside [D]: [D]
    has the pages stored to through a mapping and not written back since by a
    sync or an unmap, and the pages of a write, an unmap or a sync that
    failed. *)
Theorem held_ranges_coherent pc held D m i :
  page_reachable pc held D -> m ∈ held -> dm_offset m <= i < dm_offset m + dm_len m ->
  (dm_node m, i / PAGE_SIZE * PAGE_SIZE) ∉ D ->
  nthN (file_bytes (pc_host pc) (dm_backing m)) i =
    Some (default zero_byte (nthN (nv_data (pc_store pc) (dm_node m)) i)).
Proof.
  intros (n & _ & I)%page_reachable_inv Hm Hi Hs. exact (mapped_byte n pc held D m i I Hm Hi Hs).
Qed.

(** [PageCache::read] returns the bytes of the file, whether it serves
    them from cached pages or from the store, when none of the pages it
    touches waits to be written back. *)
Theorem cached_read_returns_file pc held D node off len pc' bytes :
  page_reachable pc held D -> touched node off len ## D ->
  read node off len pc = (pc', Ok bytes) -> bytes = slice off len (nv_data (pc_store pc) node).
Proof.
  intros (n & _ & I)%page_reachable_inv Hd Hr.
  pose proof (wp_elim _ _ _ _ _ _ (wp_read_inv n node off len pc held D I) Hr) as [_ Hb]. apply Hb.
  intros i Hi Hs. apply (Hd _ (in_touched node off len i Hi) Hs).
Qed.

(** C30. [PageCache::write] reaches the filesystem and the mappings: when it
    succeeds, the [k] bytes it reports are in the file at the offset, all other
    bytes of the file are as before, and a held mapping of the file shows the
    new contents in every page outside [D], that is, in every page that has no
    stores still to be written back and was not in a write, an unmap or a sync
    that failed. *)
Theorem cached_write_visible pc held D node off bytes pc' k :
  page_reachable pc held D -> write node off bytes pc = (pc', Ok k) ->
  k <= lenN bytes /\
  (forall i, Some (nv_at (pc_store pc') node i) =
     if (off <=? i) && (i <? off + k) then nthN bytes (i - off) else Some (nv_at (pc_store pc) node i)) /\
  forall m i, m ∈ held -> dm_node m = node -> dm_offset m <= i < dm_offset m + dm_len m ->
    (node, i / PAGE_SIZE * PAGE_SIZE) ∉ D ->
    nthN (file_bytes (pc_host pc') (dm_backing m)) i = Some (nv_at (pc_store pc') node i).
Proof.
  intros (n & _ & I)%page_reachable_inv Hw.
  pose proof (wp_elim _ _ _ _ _ _ (wp_write_inv n node off bytes pc held D I) Hw) as [I' (Hk & Hp & _ & Hnew)].
  split_and!; [done| |].
  - intros i. destruct (N.leb_spec off i), (N.ltb_spec i (off + k)); cbn;
      try (f_equal; apply Hp; lia). rewrite <-Hnew by lia. do 2 f_equal. lia.
  - intros m i Hm <- Hi Hs. by apply (mapped_byte n pc' held D).
Qed.

(** C29. [PageCache::sync] writes back: after it succeeds, the filesystem has
    every byte that the held writable mappings of the file show, and the
    mappings show what they showed before. *)
Theorem sync_writes_back pc held D node pc' m i :
  page_reachable pc held D -> sync node pc = (pc', Ok tt) ->
  m ∈ held -> dm_node m = node -> WRITE (dm_flags m) = true -> dm_offset m <= i < dm_offset m + dm_len m ->
  file_bytes (pc_host pc') (dm_backing m) = file_bytes (pc_host pc) (dm_backing m) /\
  nthN (file_bytes (pc_host pc) (dm_backing m)) i = Some (nv_at (pc_store pc') node i).
Proof.
  intros (n & _ & I)%page_reachable_inv Hw Hm <- Hwr Hi.
  pose proof (wp_elim _ _ _ _ _ _ (wp_sync_inv n (dm_node m) pc held D I) Hw) as [I' Hb].
  destruct (pi_maps _ _ _ _ I m Hm) as (_ & Hal & _ & info & Hinfo & Hback).
  specialize (Hb info Hinfo). rewrite Hback in Hb. split; [done|]. rewrite <-Hb.
  apply (mapped_byte n pc' held _ m i I' Hm Hi). intros [_ Hn]%elem_of_difference. apply Hn.
  unfold writable_keys. rewrite Hinfo. apply elem_of_page_keys. split; [done|].
  destruct (pi_node _ _ _ _ I _ _ Hinfo) as [c K]. set (p := i / PAGE_SIZE * PAGE_SIZE).
  assert (covers (dm_node m) p m) as Hc.
  { split; [done|]. apply aligned_in_range; [done|]. unfold p. divlia. }
  destruct (nk_must _ _ _ _ _ _ _ K p) as [f Hf]; [by exists m|]. apply elem_of_writable. exists f.
  split; [done|]. destruct (nk_fmap _ _ _ _ _ _ _ K p f Hf) as [_ Hwants]. by apply (Hwants m).
Qed.

(** C31. A node that is open or mapped is held open in the filesystem: clients
    that map only nodes in use never see the store close a node under them,
    whichever calls fail. *)
Theorem nodes_in_use_stay_open pc held D node info :
  page_reachable pc held D -> pc_files pc !! node = Some info -> in_use info = true ->
  1 <= nv_opened (pc_store pc) node.
Proof. intros (n & _ & I)%page_reachable_inv Hi Hu. by apply (pi_open _ _ _ _ I node info). Qed.
End invariant.
