(* ===== verification/PageCacheExample.v ===== *)
(** * The page cache at work

    A store of files held in memory that counts how often a node is open; it
    meets the contract [NodeLaws], and the theorems of [PageCacheSpec] are
    evaluated on it.  Two runs on the [MemoryStore] of the cache's own tests
    show where the cache needs its clients' help. *)

From S2P Require Import Prelude Host CacheTypes Identity MemStore PageCache PageCacheInv PageCacheOps PageCacheSpec.
Import Mmap.

(** Files and open counts. *)
Record Ledger := mkLedger { l_files : gmap NodeId (list byte); l_open : gmap NodeId N }.

Module Ledgers.
Abbreviation LS := (M (unit * Ledger) io_error).

Definition data (s : Ledger) (node : NodeId) : list byte := default [] (l_files s !! node).
Definition opened (s : Ledger) (node : NodeId) : N := default 0 (l_open s !! node).

Definition write (node : NodeId) (offset : N) (bytes : list byte) : LS N :=
  _ ← modify (fun ws => (ws.1, mkLedger (<[node := file_write offset bytes (data ws.2 node)]> (l_files ws.2))
                                 (l_open ws.2)));
  mret (lenN bytes).

Definition recount (f : N -> N) (node : NodeId) : LS unit :=
  modify (fun ws => (ws.1, mkLedger (l_files ws.2) (<[node := f (opened ws.2 node)]> (l_open ws.2)))).
End Ledgers.

#[export] Instance Ledger_store : NodeStore unit Ledger := {
  ns_len node := gets (fun ws => lenN (Ledgers.data ws.2 node));
  read_node node offset len := gets (fun ws => slice offset len (Ledgers.data ws.2 node));
  write_node := Ledgers.write;
  on_open_node := Ledgers.recount (fun n => n + 1);
  on_close_node := Ledgers.recount (fun n => n - 1)
}.

#[export] Instance Ledger_view : NodeView Ledger := {
  nv_data := Ledgers.data;
  nv_opened := Ledgers.opened
}.

Lemma recount_other f node node' s : node' <> node ->
  same_node node' s (mkLedger (l_files s) (<[node := f]> (l_open s))).
Proof. intros Hne. split; [done|]. cbn. unfold Ledgers.opened. cbn. by rewrite lookup_insert_ne. Qed.

Lemma recount_node f node s : Ledgers.opened (mkLedger (l_files s) (<[node := f]> (l_open s))) node = f.
Proof. unfold Ledgers.opened. cbn. by rewrite lookup_insert_eq. Qed.

#[export] Instance Ledger_laws : NodeLaws unit Ledger.
Proof.
  split.
  - intros node ws. done.
  - intros node off n ws. done.
  - intros node off bytes ws. cbn. unfold Ledgers.write. wp_steps. cbn.
    set (s' := mkLedger _ _). assert (Ledgers.data s' node = file_write off bytes (Ledgers.data ws.2 node)) as Hd.
    { unfold Ledgers.data at 1. cbn. by rewrite lookup_insert_eq. }
    split; [lia|]. split; [split; [|split; [done|split]]|split].
    + intros node' Hne. split; [|done]. cbn. unfold Ledgers.data. cbn. by rewrite lookup_insert_ne.
    + cbn. rewrite Hd, length_file_write. lia.
    + intros i Hi. unfold nv_at. cbn. rewrite Hd, nthN_file_write.
      destruct (N.ltb_spec i (N.max (lenN (Ledgers.data ws.2 node)) (off + lenN bytes))) as [Hl|Hl].
      * replace ((off <=? i) && (i <? off + lenN bytes)) with false; [done|].
        symmetry. apply andb_false_iff. rewrite N.leb_gt, N.ltb_ge. lia.
      * by rewrite nthN_ge by lia.
    + intros _. rewrite Hd, length_file_write. lia.
    + intros i Hi. unfold nv_at. cbn. rewrite Hd, nthN_file_write.
      rewrite (proj2 (N.ltb_lt _ _)), (proj2 (N.leb_le _ _)), (proj2 (N.ltb_lt _ _)) by lia. cbn.
      replace (off + i - off) with i by lia. by destruct (nthN_lt bytes i Hi) as [x ->].
  - intros node ws. cbn. unfold Ledgers.recount. wp_steps.
    split_and!; [intros; by apply recount_other|done|apply recount_node].
  - intros node ws. cbn. unfold Ledgers.recount. wp_steps.
    split_and!; [intros; by apply recount_other|done|apply recount_node].
Qed.

Module PageCacheExample.

(** A cache over one file of two pages; the host serves short transfers. *)
Definition file : list byte := replicate (N.to_nat 8000) Byte.x61.
Definition start : PageCache unit Ledger :=
  (new 1 (mkHost ∅ 1 [Full; Full; Short 100]) tt (mkLedger {[ 7 := file ]} ∅)).2.

Definition run (rqs : list page_request) := page_run rqs (start, [], ∅).

Lemma page_run_reachable rqs : lenN rqs < u64_MAX ->
  page_reachable (run rqs).1.1 (run rqs).1.2 (run rqs).2.
Proof.
  intros Hl. exists 1, (mkHost ∅ 1 [Full; Full; Short 100]), tt, (mkLedger {[ 7 := file ]} ∅), rqs.
  split; [done|]. change ((new 1 _ tt _).2) with start. unfold run. by destruct (page_run rqs _) as [[? ?] ?].
Qed.

Definition mapping : DaxMapping := mkDax 1 7 0 8192 flag_RW 1.
Definition mapped : list page_request := [POpen 7; PMap 7 0 8000 flag_RW].
Definition stored : list page_request := mapped ++ [PStore mapping 5000 [Byte.x62; Byte.x63]].

Lemma held_ranges_coherent_witness :
  nthN (file_bytes (pc_host (run stored).1.1) (dm_backing mapping)) 100 = Some Byte.x61.
Proof.
  rewrite (held_ranges_coherent (run stored).1.1 (run stored).1.2 (run stored).2 mapping 100).
  - vm_compute. reflexivity.
  - apply page_run_reachable. reflexivity.
  - apply (bool_decide_eq_true_1 _). vm_compute. reflexivity.
  - split; vm_compute; [discriminate|reflexivity].
  - apply (bool_decide_eq_true_1 _). vm_compute. reflexivity.
Defined.

Lemma cached_read_returns_file_witness :
  exists pc' bytes, read 7 90 20 (run stored).1.1 = (pc', Ok bytes) /\ bytes = replicate 20 Byte.x61.
Proof.
  eexists _, _. split; [vm_compute; reflexivity|].
  rewrite (cached_read_returns_file (run stored).1.1 (run stored).1.2 (run stored).2 7 90 20
             (read 7 90 20 (run stored).1.1).1 (replicate 20 Byte.x61)).
  - vm_compute. reflexivity.
  - apply page_run_reachable. reflexivity.
  - apply (bool_decide_eq_true_1 _). vm_compute. reflexivity.
  - vm_compute. reflexivity.
Defined.

Lemma cached_write_visible_witness :
  exists pc', write 7 10 [Byte.x64] (run mapped).1.1 = (pc', Ok 1) /\
    nthN (file_bytes (pc_host pc') 1) 10 = Some (nv_at (pc_store pc') 7 10).
Proof.
  exists (write 7 10 [Byte.x64] (run mapped).1.1).1. split; [vm_compute; reflexivity|].
  apply (cached_write_visible (run mapped).1.1 (run mapped).1.2 (run mapped).2 7 10 [Byte.x64]
    (write 7 10 [Byte.x64] (run mapped).1.1).1 1) with (m := mapping).
  - apply page_run_reachable. reflexivity.
  - vm_compute. reflexivity.
  - apply (bool_decide_eq_true_1 _). vm_compute. reflexivity.
  - reflexivity.
  - split; vm_compute; [discriminate|reflexivity].
  - apply (bool_decide_eq_true_1 _). vm_compute. reflexivity.
Defined.

Lemma sync_writes_back_witness :
  exists pc', sync 7 (run stored).1.1 = (pc', Ok tt) /\ nv_at (pc_store pc') 7 5001 = Byte.x63.
Proof.
  exists (sync 7 (run stored).1.1).1. split; [vm_compute; reflexivity|].
  apply (inj Some). rewrite <-(proj2 (sync_writes_back (run stored).1.1 (run stored).1.2 (run stored).2 7
    (sync 7 (run stored).1.1).1 mapping 5001 ltac:(apply page_run_reachable; reflexivity)
    ltac:(vm_compute; reflexivity) ltac:(apply (bool_decide_eq_true_1 _); vm_compute; reflexivity)
    ltac:(reflexivity) ltac:(reflexivity) ltac:(split; vm_compute; [discriminate|reflexivity]))).
  vm_compute. reflexivity.
Defined.

Lemma nodes_in_use_stay_open_witness :
  exists info, pc_files (run (mapped ++ [PClose 7])).1.1 !! 7 = Some info /\
    1 <= nv_opened (pc_store (run (mapped ++ [PClose 7])).1.1) 7.
Proof.
  eexists. split; [vm_compute; reflexivity|].
  eapply (nodes_in_use_stay_open (run (mapped ++ [PClose 7])).1.1 (run (mapped ++ [PClose 7])).1.2
    (run (mapped ++ [PClose 7])).2 7).
  - apply page_run_reachable. reflexivity.
  - vm_compute. reflexivity.
  - vm_compute. reflexivity.
Defined.

(** ** The cache over the test store *)

Definition memory (bytes : list byte) : PageCache Statics MemoryStore :=
  (new 1 (mkHost ∅ 1 []) (Memory.with_files [(7, bytes)]).1 (Memory.with_files [(7, bytes)]).2).2.

(** A node can be mapped after it was closed: [map] asks only that the
    node has been opened once, so a mapping after the last close is made
    without opening the node in the filesystem, and giving it back closes the
    node a second time. *)
Theorem map_after_close_unbalanced :
  exists pc, (_ ← open 7; _ ← close 7; m ← map 7 0 4096 flag_R; unmap m) (memory zero_page) = (pc, Ok tt) /\
    mem_opens (pc_store pc) = 1 /\ mem_closes (pc_store pc) = 2.
Proof. eexists. split; [vm_compute; reflexivity|]. split; reflexivity. Qed.

(** An ordinary write discards stores made through a mapping of another
    page: [write] renews the version of the file and of the pages it touches
    only, so the next mapping of a page that a client has stored to loads the
    page from the filesystem over the client's bytes; the bytes are lost for
    the client that holds the mapping and are not written back when the
    mapping is returned. *)
Theorem write_discards_mapped_stores :
  exists pc m pc1 m1 pc2,
    (_ ← open 7; map 7 4096 4096 flag_RW) (memory (zero_page ++ zero_page)) = (pc, Ok m) /\
    nthN (file_bytes (pc_host (poke (dm_backing m) 5000 [Byte.x62] pc)) (dm_backing m)) 5000 = Some Byte.x62 /\
    (_ ← write 7 0 [Byte.x61]; map 7 4096 4096 flag_R) (poke (dm_backing m) 5000 [Byte.x62] pc) = (pc1, Ok m1) /\
    nthN (file_bytes (pc_host pc1) (dm_backing m)) 5000 = Some zero_byte /\
    unmap m pc1 = (pc2, Ok tt) /\ nthN (Memory.data (pc_store pc2) 7) 5000 = Some zero_byte.
Proof.
  do 5 eexists. split; [vm_compute; reflexivity|]. split; [vm_compute; reflexivity|].
  split; [vm_compute; reflexivity|]. split; [vm_compute; reflexivity|].
  split; [vm_compute; reflexivity|]. vm_compute. reflexivity.
Qed.
End PageCacheExample.
