(* ===== verification/Storage.v ===== *)
(** * Host directories that survive a crash

    The part of the host file system the durable layers use: named files in
    directories, hard links, appending writes, [fsync] of a file and of a
    directory.  A name and its file are separate, as on the host, so a hard
    link shares the file.  What has not been synchronised may be lost:
    [crash_to] relates a storage to every state the host may restart with.
    As in [Host], [sto_sched] lists the host's choices, one per call. *)

From stdpp Require Import pretty.
From S2P Require Import Prelude Host.

(** A directory and a name in it: [directory.join(name)]. *)
Abbreviation Path := (string * string)%type.

Abbreviation Inode := N.

Record Storage := mkStorage {
  sto_dirs : gset string;
  sto_names : gmap Path Inode;
  sto_data : gmap Inode (list byte);
  sto_next : Inode;
  sto_stable_names : gmap Path Inode;
  sto_stable : gmap Inode (list byte);
  sto_sched : list outcome
}.

Definition empty_storage : Storage := mkStorage ∅ ∅ ∅ 0 ∅ ∅ [].

Definition SIO := M Storage io_error.

Definition set_sched (l : list outcome) (st : Storage) : Storage :=
  mkStorage (sto_dirs st) (sto_names st) (sto_data st) (sto_next st) (sto_stable_names st)
    (sto_stable st) l.
Definition set_dirs (d : gset string) (st : Storage) : Storage :=
  mkStorage d (sto_names st) (sto_data st) (sto_next st) (sto_stable_names st)
    (sto_stable st) (sto_sched st).
Definition set_names (n : gmap Path Inode) (st : Storage) : Storage :=
  mkStorage (sto_dirs st) n (sto_data st) (sto_next st) (sto_stable_names st)
    (sto_stable st) (sto_sched st).
Definition set_data (d : gmap Inode (list byte)) (st : Storage) : Storage :=
  mkStorage (sto_dirs st) (sto_names st) d (sto_next st) (sto_stable_names st)
    (sto_stable st) (sto_sched st).
Definition set_stable_names (n : gmap Path Inode) (st : Storage) : Storage :=
  mkStorage (sto_dirs st) (sto_names st) (sto_data st) (sto_next st) n
    (sto_stable st) (sto_sched st).
Definition set_stable (d : gmap Inode (list byte)) (st : Storage) : Storage :=
  mkStorage (sto_dirs st) (sto_names st) (sto_data st) (sto_next st) (sto_stable_names st)
    d (sto_sched st).

Definition inode_bytes (st : Storage) (i : Inode) : list byte := default [] (sto_data st !! i).

Module Sto.

(** The host's choice for one call. *)
Definition call : SIO outcome := fun st =>
  match sto_sched st with
  | [] => (st, Ok Full)
  | Fault e :: rest => (set_sched rest st, Err e)
  | o :: rest => (set_sched rest st, Ok o)
  end.

(** [fs::create_dir_all]. *)
Definition create_dir_all (dir : string) : SIO unit :=
  _ ← call;
  modify (fun st => set_dirs ({[ dir ]} ∪ sto_dirs st) st).

(** [OpenOptions::create_new(true).open(path)]. *)
Definition open_new (path : Path) : SIO Inode :=
  _ ← call;
  st ← get;
  if decide (path.1 ∉ sto_dirs st) then throw (Custom NotFound "no such directory") else
  match sto_names st !! path with
  | Some _ => throw (Custom AlreadyExists "file exists")
  | None =>
      _ ← modify (fun st => mkStorage (sto_dirs st) (<[path := sto_next st]> (sto_names st))
                   (<[sto_next st := []]> (sto_data st)) (sto_next st + 1)
                   (sto_stable_names st) (sto_stable st) (sto_sched st));
      mret (sto_next st)
  end.

(** [File::open(path)] of an existing file. *)
Definition open (path : Path) : SIO Inode :=
  _ ← call;
  st ← get;
  match sto_names st !! path with
  | Some i => mret i
  | None => throw (Custom NotFound "no such file")
  end.

(** [fs::hard_link(source, path)]. *)
Definition hard_link (source path : Path) : SIO unit :=
  _ ← call;
  st ← get;
  match sto_names st !! source with
  | None => throw (Custom NotFound "no such file")
  | Some i =>
      match sto_names st !! path with
      | Some _ => throw (Custom AlreadyExists "file exists")
      | None => modify (fun st => set_names (<[path := i]> (sto_names st)) st)
      end
  end.

(** [fs::read(path)]. *)
Definition read (path : Path) : SIO (list byte) :=
  i ← open path;
  _ ← call;
  gets (fun st => inode_bytes st i).

(** [path.metadata()?.len()]. *)
Definition file_len (path : Path) : SIO N :=
  i ← open path;
  gets (fun st => lenN (inode_bytes st i)).

(** [Write::write_all] on a file opened for appending: every round appends at
    least one byte, so as many rounds as bytes are enough. *)
Fixpoint write_all_rounds (fuel : nat) (i : Inode) (bytes : list byte) : SIO unit :=
  match fuel with
  | O => mret tt
  | S fuel' =>
      if lenN bytes =? 0 then mret tt else
      o ← call;
      let n := N.to_nat (transfer o (lenN bytes)) in
      _ ← modify (fun st => set_data (<[i := inode_bytes st i ++ take n bytes]> (sto_data st)) st);
      write_all_rounds fuel' i (drop n bytes)
  end.

Definition write_all (i : Inode) (bytes : list byte) : SIO unit :=
  write_all_rounds (length bytes) i bytes.

(** [File::sync_data]: what the file holds becomes durable. *)
Definition sync_data (i : Inode) : SIO unit :=
  _ ← call;
  modify (fun st => set_stable (partial_alter (fun _ => sto_data st !! i) i (sto_stable st)) st).

(** [sync_directory]: the names of one directory become durable. *)
Definition sync_names (dir : string) (st : Storage) : gmap Path Inode :=
  filter (fun kv : Path * Inode => kv.1.1 = dir) (sto_names st) ∪
  filter (fun kv : Path * Inode => kv.1.1 <> dir) (sto_stable_names st).

Definition sync_directory (dir : string) : SIO unit :=
  _ ← call;
  modify (fun st => set_stable_names (sync_names dir st) st).

End Sto.

(** ** Crashes *)

(** After a crash a name that was synchronised names its file, any other name
    may or may not be there; a file that was synchronised has its bytes, any
    other file may hold anything.  Directories are taken to survive: a host may
    also lose a new directory whose parent was not synchronised, and the code
    that makes them ([create_dir_all]) never synchronises the parent, so
    durability is shown for hosts that keep directories once made. *)
Record crash_to (st st' : Storage) : Prop := {
  crash_dirs : sto_dirs st' = sto_dirs st;
  crash_names p : sto_names st' !! p = sto_names st !! p \/
                  sto_names st' !! p = sto_stable_names st !! p;
  crash_data i : sto_stable st !! i = sto_data st !! i -> sto_data st' !! i = sto_data st !! i;
  crash_next : sto_next st' = sto_next st;
  crash_stable_names : sto_stable_names st' = sto_names st';
  crash_stable : sto_stable st' = sto_data st'
}.

(** The host that keeps exactly what was synchronised. *)
Definition lose_unsynced (st : Storage) : Storage :=
  mkStorage (sto_dirs st) (sto_stable_names st) (sto_stable st) (sto_next st)
    (sto_stable_names st) (sto_stable st) [].

Lemma lose_unsynced_crash st : crash_to st (lose_unsynced st).
Proof. split; cbn; auto. Qed.

(** ** Numbered names *)

(** [format!("{prefix}-{id}")] in a directory. *)
Definition numbered (dir prefix : string) (id : N) : Path :=
  (dir, (prefix +:+ "-" +:+ pretty id)%string).

Lemma numbered_inj dir prefix id id' :
  numbered dir prefix id = numbered dir prefix id' -> id = id'.
Proof.
  unfold numbered. intros [= Heq]. by simplify_eq.
Qed.

(** ** What the calls do *)

(** [st'] has everything [st] has: names, and the bytes of every file except
    those in [X]; what was durable stays durable. *)
Record grows (X : gset Inode) (st st' : Storage) : Prop := {
  grows_dirs : sto_dirs st ⊆ sto_dirs st';
  grows_names : sto_names st ⊆ sto_names st';
  grows_next : sto_next st <= sto_next st';
  grows_data i : i < sto_next st -> i ∉ X -> sto_data st' !! i = sto_data st !! i;
  grows_stable_names p i : sto_names st !! p = Some i -> sto_stable_names st !! p = Some i ->
    sto_stable_names st' !! p = Some i;
  grows_stable i : i < sto_next st -> i ∉ X ->
    sto_stable st !! i = sto_data st !! i -> sto_stable st' !! i = sto_data st' !! i;
  grows_calm : sto_sched st = [] -> sto_sched st' = []
}.

(** Names point at files that exist. *)
Record storage_wf (st : Storage) : Prop := {
  wf_names p i : sto_names st !! p = Some i -> i < sto_next st;
  wf_stable_names p i : sto_stable_names st !! p = Some i -> i < sto_next st
}.

Lemma crash_wf st st' : storage_wf st -> crash_to st st' -> storage_wf st'.
Proof.
  intros [H1 H2] C. assert (forall p i, sto_names st' !! p = Some i -> i < sto_next st') as Hn.
  { intros p i Hp. rewrite (crash_next _ _ C). destruct (crash_names _ _ C p) as [E|E]; rewrite E in Hp; eauto. }
  split; [done|]. intros p i. rewrite (crash_stable_names _ _ C). apply Hn.
Qed.

Section storage_facts.
Implicit Types (st : Storage) (p : Path) (i : Inode) (X : gset Inode).

Lemma grows_refl X st : grows X st st.
Proof. by split. Qed.

Lemma grows_trans X st1 st2 st3 : grows X st1 st2 -> grows X st2 st3 -> grows X st1 st3.
Proof.
  intros G1 G2. pose proof (grows_next _ _ _ G1). pose proof (grows_next _ _ _ G2). split.
  - etrans; [apply G1|apply G2].
  - etrans; [apply G1|apply G2].
  - lia.
  - intros i Hi Hx. rewrite (grows_data _ _ _ G2) by (done || lia). by apply G1.
  - intros p i Hp Hs. apply (grows_stable_names _ _ _ G2).
    + by eapply lookup_weaken; [|apply G1].
    + by apply (grows_stable_names _ _ _ G1).
  - intros i Hi Hx Hs. apply (grows_stable _ _ _ G2); [lia|done|]. by apply (grows_stable _ _ _ G1).
  - intros Hc. by apply G2, G1.
Qed.

Lemma grows_mono X Y st st' : X ⊆ Y -> grows X st st' -> grows Y st st'.
Proof.
  intros Hxy G. split; try apply G.
  - intros i Hi Hy. apply G; set_solver.
  - intros i Hi Hy. apply (grows_stable _ _ _ G); set_solver.
Qed.

Lemma grows_name X st st' p i : grows X st st' -> sto_names st !! p = Some i -> sto_names st' !! p = Some i.
Proof. intros G Hp. by eapply lookup_weaken; [|apply G]. Qed.

Lemma call_grows l st : (sto_sched st = [] -> l = []) -> grows ∅ st (set_sched l st).
Proof. intros Hl. by split. Qed.

Lemma wp_call Q R st :
  (forall o st', grows ∅ st st' -> sto_names st' = sto_names st -> sto_data st' = sto_data st ->
    sto_next st' = sto_next st -> sto_dirs st' = sto_dirs st -> sto_stable st' = sto_stable st ->
    sto_stable_names st' = sto_stable_names st ->
    (length (sto_sched st') <= length (sto_sched st))%nat -> Q o st') ->
  (forall e st', grows ∅ st st' -> sto_names st' = sto_names st -> sto_data st' = sto_data st ->
    sto_next st' = sto_next st -> sto_stable_names st' = sto_stable_names st ->
    (length (sto_sched st') < length (sto_sched st))%nat -> R e st') ->
  wp Sto.call Q R st.
Proof.
  intros HQ HR. unfold wp, Sto.call.
  destruct (sto_sched st) as [|[e|n|] rest] eqn:Hs.
  - apply HQ; try done; [by rewrite Hs].
  - apply HR; try done; [apply call_grows; by rewrite Hs|cbn; lia].
  - apply HQ; try done; [apply call_grows; by rewrite Hs|cbn; lia].
  - apply HQ; try done; [apply call_grows; by rewrite Hs|cbn; lia].
Qed.

(** Same names, same counters: the state a failed call leaves. *)
Definition same_names st st' : Prop :=
  grows ∅ st st' /\ sto_names st' = sto_names st /\ sto_next st' = sto_next st /\
  sto_stable_names st' = sto_stable_names st /\
  (length (sto_sched st') <= length (sto_sched st))%nat.

Lemma wp_open_new p Q R st :
  (forall st', grows ∅ st st' -> sto_names st !! p = None ->
    sto_names st' = <[p := sto_next st]> (sto_names st) -> sto_next st' = sto_next st + 1 ->
    sto_data st' !! sto_next st = Some [] -> sto_stable_names st' = sto_stable_names st ->
    Q (sto_next st) st') ->
  (forall e st', same_names st st' ->
    (length (sto_sched st') < length (sto_sched st))%nat \/ p.1 ∉ sto_dirs st \/
    (e = Custom AlreadyExists "file exists" /\ is_Some (sto_names st !! p)) -> R e st') ->
  wp (Sto.open_new p) Q R st.
Proof.
  intros HQ HR. unfold Sto.open_new. wp_steps. apply wp_call.
  2:{ intros e st' G Hn Hd Hx Hsn Hl. apply HR; [|by left]. repeat split; try done; try apply G. lia. }
  intros o st1 G Hn Hd Hx Hdirs Hs Hsn Hl. wp_steps.
  assert (same_names st st1) as Hsame by (repeat split; try done; apply G).
  case_decide as Hdir; [wp_steps; apply HR; [done|]; rewrite <-Hdirs; by right; left|].
  destruct (sto_names st1 !! p) as [i|] eqn:Hp; wp_steps.
  { apply HR; [done|]. right. right. split; [done|]. rewrite <-Hn, Hp. by eexists. }
  rewrite Hx. rewrite Hn in Hp. apply HQ; cbn; rewrite ?Hx, ?Hn; try done.
  - eapply grows_trans; [exact G|]. split; cbn; rewrite ?Hn, ?Hx; try done.
    + by apply insert_subseteq.
    + lia.
    + intros i Hi _. rewrite lookup_insert_ne; [done|lia].
    + intros i Hi _. rewrite lookup_insert_ne; [done|lia].
  - apply lookup_insert_eq.
Qed.

Lemma wp_open_path p Q R st :
  (forall i st', same_names st st' -> sto_names st !! p = Some i -> Q i st') ->
  (forall e st', same_names st st' ->
    (length (sto_sched st') < length (sto_sched st))%nat \/ sto_names st !! p = None -> R e st') ->
  wp (Sto.open p) Q R st.
Proof.
  intros HQ HR. unfold Sto.open. wp_steps. apply wp_call.
  2:{ intros e st' G Hn Hd Hx Hsn Hl. apply HR; [|by left]. repeat split; try done; try apply G. lia. }
  intros o st1 G Hn Hd Hx Hdirs Hs Hsn Hl. wp_steps.
  assert (same_names st st1) as Hsame by (repeat split; try done; apply G).
  rewrite Hn. destruct (sto_names st !! p) as [i|]; wp_steps; [by apply HQ|apply HR; auto].
Qed.

Lemma wp_hard_link source p Q R st :
  (forall i st', grows ∅ st st' -> sto_names st !! source = Some i -> sto_names st !! p = None ->
    sto_names st' = <[p := i]> (sto_names st) -> sto_next st' = sto_next st ->
    sto_stable_names st' = sto_stable_names st -> Q tt st') ->
  (forall e st', same_names st st' ->
    (length (sto_sched st') < length (sto_sched st))%nat \/ sto_names st !! source = None \/
    (e = Custom AlreadyExists "file exists" /\ is_Some (sto_names st !! p)) -> R e st') ->
  wp (Sto.hard_link source p) Q R st.
Proof.
  intros HQ HR. unfold Sto.hard_link. wp_steps. apply wp_call.
  2:{ intros e st' G Hn Hd Hx Hsn Hl. apply HR; [|by left]. repeat split; try done; try apply G. lia. }
  intros o st1 G Hn Hd Hx Hdirs Hs Hsn Hl. wp_steps.
  assert (same_names st st1) as Hsame by (repeat split; try done; apply G).
  rewrite Hn. destruct (sto_names st !! source) as [i|] eqn:Hi; wp_steps; [|apply HR; auto].
  destruct (sto_names st !! p) as [j|] eqn:Hp; wp_steps.
  { apply HR; [done|]. right. right. split; [done|by eexists]. }
  apply (HQ i); cbn; rewrite ?Hn; try done.
  eapply grows_trans; [exact G|]. split; cbn; rewrite ?Hn; try done. by apply insert_subseteq.
Qed.

Lemma wp_read_path p Q R st :
  (forall i st', same_names st st' -> sto_names st !! p = Some i -> i < sto_next st ->
    Q (inode_bytes st i) st') ->
  (forall e st', same_names st st' ->
    (length (sto_sched st') < length (sto_sched st))%nat \/ sto_names st !! p = None -> R e st') ->
  storage_wf st -> wp (Sto.read p) Q R st.
Proof.
  intros HQ HR Hwf. unfold Sto.read. wp_steps. apply wp_open_path; [|exact HR].
  intros i st1 (G1 & Hn1 & Hx1 & Hsn1 & Hl1) Hi. pose proof (wf_names _ Hwf _ _ Hi) as Hlt.
  wp_steps. apply wp_call.
  2:{ intros e st2 G2 Hn2 _ Hx2 Hsn2 Hl2. apply HR; [|left; lia]. split; [by eapply grows_trans|].
      repeat split; [by rewrite Hn2|by rewrite Hx2|by rewrite Hsn2|lia]. }
  intros o st2 G2 Hn2 Hd2 Hx2 _ _ Hsn2 Hl2. wp_steps.
  assert (inode_bytes st2 i = inode_bytes st i) as ->.
  { unfold inode_bytes. rewrite Hd2. by rewrite (grows_data _ _ _ G1). }
  apply HQ; [|done|done]. split; [by eapply grows_trans|].
  repeat split; [by rewrite Hn2|by rewrite Hx2|by rewrite Hsn2|lia].
Qed.

Lemma wf_same_names st st' : same_names st st' -> storage_wf st -> storage_wf st'.
Proof.
  intros (_ & Hn & Hx & Hsn & _) [H1 H2].
  split; intros p i; rewrite ?Hn, ?Hsn, ?Hx; eauto.
Qed.

Lemma wf_insert st st' p i :
  storage_wf st -> sto_names st' = <[p := i]> (sto_names st) -> i < sto_next st' ->
  sto_next st <= sto_next st' -> sto_stable_names st' = sto_stable_names st -> storage_wf st'.
Proof.
  intros [H1 H2] Hn Hi Hx Hsn. split; intros q j; rewrite ?Hn, ?Hsn.
  - intros [[<- <-]|[_ Hq]]%lookup_insert_Some; [done|]. apply H1 in Hq. lia.
  - intros Hq. apply H2 in Hq. lia.
Qed.

Lemma same_names_refl st : same_names st st.
Proof. split; [apply grows_refl|]. by split_and!. Qed.

Lemma same_names_trans st1 st2 st3 : same_names st1 st2 -> same_names st2 st3 -> same_names st1 st3.
Proof.
  intros (G1 & A1 & B1 & C1 & D1) (G2 & A2 & B2 & C2 & D2).
  split; [by eapply grows_trans|]. repeat split; congruence || lia.
Qed.

Lemma wp_file_len p Q R st :
  storage_wf st ->
  (forall i st', same_names st st' -> sto_names st !! p = Some i ->
    Q (lenN (inode_bytes st i)) st') ->
  (forall e st', same_names st st' ->
    (length (sto_sched st') < length (sto_sched st))%nat \/ sto_names st !! p = None -> R e st') ->
  wp (Sto.file_len p) Q R st.
Proof.
  intros Hwf HQ HR. unfold Sto.file_len. wp_steps. apply wp_open_path; [|exact HR].
  intros i st1 Hs Hi. wp_steps. pose proof (wf_names _ Hwf _ _ Hi).
  assert (inode_bytes st1 i = inode_bytes st i) as ->; [|by apply HQ].
  unfold inode_bytes. by rewrite (grows_data _ _ _ (proj1 Hs)).
Qed.

Lemma wp_create_dir_all dir Q R st :
  (forall st', same_names st st' -> dir ∈ sto_dirs st' -> Q tt st') ->
  (forall e st', same_names st st' -> (length (sto_sched st') < length (sto_sched st))%nat -> R e st') ->
  wp (Sto.create_dir_all dir) Q R st.
Proof.
  intros HQ HR. unfold Sto.create_dir_all. wp_steps. apply wp_call.
  2:{ intros e st' G Hn Hd Hx Hsn Hl. apply HR; [|done]. repeat split; try done; try apply G. lia. }
  intros o st1 G Hn Hd Hx Hdirs Hs Hsn Hl. wp_steps. apply HQ; cbn; [|set_solver].
  split; [|done]. eapply grows_trans; [exact G|]. split; cbn; try done. set_solver.
Qed.

Lemma wp_sync_data i Q R st :
  (forall st', same_names st st' -> sto_data st' = sto_data st ->
    sto_stable st' !! i = sto_data st !! i -> Q tt st') ->
  (forall e st', same_names st st' -> (length (sto_sched st') < length (sto_sched st))%nat -> R e st') ->
  wp (Sto.sync_data i) Q R st.
Proof.
  intros HQ HR. unfold Sto.sync_data. wp_steps. apply wp_call.
  2:{ intros e st' G Hn Hd Hx Hsn Hl. apply HR; [|done]. repeat split; try done; try apply G. lia. }
  intros o st1 G Hn Hd Hx Hdirs Hs Hsn Hl. wp_steps. rewrite Hd. apply HQ; cbn.
  - split; [|done]. eapply grows_trans; [exact G|]. split; cbn; try done.
    intros j Hj _ Hst. destruct (decide (i = j)) as [<-|Hne].
    + by rewrite lookup_partial_alter_eq, Hd.
    + by rewrite lookup_partial_alter_ne.
  - done.
  - by rewrite lookup_partial_alter_eq.
Qed.

Lemma lookup_sync_names dir st p :
  sto_names st !! p <> None -> p.1 = dir -> Sto.sync_names dir st !! p = sto_names st !! p.
Proof.
  intros Hp Hd. unfold Sto.sync_names. destruct (sto_names st !! p) as [i|] eqn:Hi; [|done].
  apply lookup_union_Some_l. by apply map_lookup_filter_Some.
Qed.

Lemma wp_sync_directory dir Q R st :
  storage_wf st ->
  (forall st', grows ∅ st st' -> sto_names st' = sto_names st -> sto_next st' = sto_next st ->
    storage_wf st' ->
    (forall p i, sto_names st !! p = Some i -> p.1 = dir -> sto_stable_names st' !! p = Some i) -> Q tt st') ->
  (forall e st', same_names st st' -> (length (sto_sched st') < length (sto_sched st))%nat -> R e st') ->
  wp (Sto.sync_directory dir) Q R st.
Proof.
  intros Hwf HQ HR. unfold Sto.sync_directory. wp_steps. apply wp_call.
  2:{ intros e st' G Hn Hd Hx Hsn Hl. apply HR; [|done]. repeat split; try done; try apply G. lia. }
  intros o st1 G Hn Hd Hx Hdirs Hs Hsn Hl. wp_steps.
  assert (forall p i, sto_names st1 !! p = Some i -> p.1 = dir -> Sto.sync_names dir st1 !! p = Some i)
    as Hdir by (intros p i Hp Hpd; by rewrite lookup_sync_names by (done || congruence)).
  apply HQ; cbn; try done.
  - eapply grows_trans; [exact G|]. split; cbn; try done.
    intros p i Hp Hsp. destruct (decide (p.1 = dir)); [by apply Hdir|].
    unfold Sto.sync_names. apply lookup_union_Some_raw. right.
    rewrite map_lookup_filter_None, map_lookup_filter_Some. split; [|done].
    right. intros ? _. done.
  - split; cbn; intros p i; rewrite ?Hn, ?Hx; [apply Hwf|].
    unfold Sto.sync_names. rewrite Hn, Hsn.
    intros [[Hp _]%map_lookup_filter_Some|[_ [Hp _]%map_lookup_filter_Some]]%lookup_union_Some_raw.
    + by eapply (wf_names _ Hwf).
    + by eapply (wf_stable_names _ Hwf).
  - intros p i Hp. apply Hdir. by rewrite Hn.
Qed.

(** Appending to a file touches that file only. *)
Lemma wp_write_frame i bytes (P : Storage -> Prop) st0 st :
  let framed st' := grows {[ i ]} st0 st' /\ sto_names st' = sto_names st0 /\ sto_next st' = sto_next st0 /\
    sto_stable_names st' = sto_stable_names st0 in
  framed st -> (forall st', framed st' -> P st') -> wp (Sto.write_all i bytes) (fun _ => P) (fun _ => P) st.
Proof.
  intros framed. unfold Sto.write_all. generalize (length bytes) as fuel. intros fuel. revert bytes st.
  induction fuel as [|fuel IH]; intros bytes st F HP; cbn [Sto.write_all_rounds]; [by apply HP|].
  destruct (lenN bytes =? 0); [by apply HP|]. wp_steps. pose proof F as (G0 & Hn0 & Hx0 & Hs0). apply wp_call.
  2:{ intros e st' G Hn Hd Hx Hsn Hl. apply HP. split_and!; [|congruence..].
      eapply grows_trans; [exact G0|]. eapply grows_mono; [|exact G]. set_solver. }
  intros o st1 G Hn Hd Hx Hdirs Hs Hsn Hl. wp_steps. apply IH; [|done]. split_and!; [|cbn; congruence..].
  eapply grows_trans; [exact G0|]. eapply grows_trans; [eapply grows_mono; [|exact G]; set_solver|].
  split; cbn; try done; intros j _ Hj; by rewrite lookup_insert_ne by set_solver.
Qed.

(** Appending: on failure some of the bytes may be in the file. *)
Lemma wp_write_all i bytes c Q R st :
  sto_data st !! i = Some c ->
  (forall st', grows {[ i ]} st st' -> sto_names st' = sto_names st -> sto_next st' = sto_next st ->
    sto_stable_names st' = sto_stable_names st -> sto_data st' !! i = Some (c ++ bytes) -> Q tt st') ->
  (forall e st' part, grows {[ i ]} st st' -> sto_names st' = sto_names st ->
    sto_next st' = sto_next st -> sto_stable_names st' = sto_stable_names st ->
    sto_data st' !! i = Some (c ++ part) -> part `prefix_of` bytes -> R e st') ->
  wp (Sto.write_all i bytes) Q R st.
Proof.
  unfold Sto.write_all.
  assert (length bytes <= length bytes)%nat as Hle by lia. revert Hle.
  generalize (length bytes) at 2 3 as fuel. intros fuel. revert bytes c Q R st.
  induction fuel as [|fuel IH]; intros bytes c Q R st Hle Hc HQ HR; cbn [Sto.write_all_rounds].
  { assert (bytes = []) as -> by (destruct bytes; [done|cbn in Hle; lia]).
    wp_steps. apply HQ; rewrite ?app_nil_r; done || apply grows_refl. }
  destruct (N.eqb_spec (lenN bytes) 0) as [Hz|Hz].
  { assert (bytes = []) as -> by (destruct bytes; [done|unfold lenN in Hz; cbn in Hz; lia]).
    wp_steps. apply HQ; rewrite ?app_nil_r; done || apply grows_refl. }
  wp_steps. apply wp_call.
  2:{ intros e st' G Hn Hd Hx Hsn Hl. eapply (HR _ _ []); try done; [eapply grows_mono; [|exact G]; set_solver| |apply prefix_nil].
      by rewrite app_nil_r, Hd. }
  intros o st1 G Hn Hd Hx Hdirs Hs Hsn Hl. wp_steps.
  assert (inode_bytes st1 i = c) as Hib by (unfold inode_bytes; by rewrite Hd, Hc).
  rewrite Hib. set (n := N.to_nat (transfer o (lenN bytes))).
  set (st2 := set_data _ st1).
  assert (grows {[ i ]} st st2) as G2.
  { eapply grows_trans; [eapply grows_mono; [|exact G]; set_solver|].
    split; cbn; try done; intros j _ Hj; by rewrite lookup_insert_ne by set_solver. }
  assert (1 <= n)%nat as Hn1.
  { unfold n, transfer. destruct o; lia. }
  apply (IH _ (c ++ take n bytes)).
  - rewrite length_drop. lia.
  - cbn. by rewrite lookup_insert_eq.
  - intros st' G' Hn' Hx' Hsn' Hd'. apply HQ; rewrite ?Hn', ?Hx', ?Hsn'; try done.
    + by eapply grows_trans.
    + by rewrite Hd', <-app_assoc, take_drop.
  - intros e st' part G' Hn' Hx' Hsn' Hd' Hp. apply (HR _ _ (take n bytes ++ part)); rewrite ?Hn', ?Hx', ?Hsn'; try done.
    + by eapply grows_trans.
    + by rewrite Hd', <-app_assoc.
    + rewrite <-(take_drop n bytes) at 2. by apply prefix_app.
Qed.

End storage_facts.
