(* ===== verification/DurableCowDisk.v ===== *)
(** * The durable layers of a copy-on-write disk
    (crates/minidox-redoxfs/src/branching.rs)

    A durable disk appends every written block to its overlay file; a fork or
    a checkpoint seals the overlay as an immutable layer by hard-linking it,
    and a restart replays layers and overlay in order. *)

From S2P Require Import Prelude Generations Host Identity Storage.

(** [redoxfs::BLOCK_SIZE]. *)
Definition BLOCK_SIZE : N := 4096.
Definition block_nat : nat := N.to_nat BLOCK_SIZE.
Global Opaque block_nat.

Definition LAYER_RECORD_SIZE : N := 16 + BLOCK_SIZE.
Definition record_nat : nat := N.to_nat LAYER_RECORD_SIZE.
Global Opaque record_nat.

(** [Arc<Block>]: the number tells which blocks are the same object. *)
Record Block := mkBlock { block_id : N; block_bytes : list byte }.

#[export] Instance Block_eq_dec : EqDecision Block.
Proof. solve_decision. Defined.

Abbreviation Blocks := (gmap N Block).

Record DurableDiskState := mkDiskState {
  ds_size : N;
  ds_layers : list N;
  ds_overlay : N
}.

(** [DurableCowDisk]; [du_overlay] is the open overlay file. *)
Record DurableCowDisk := mkDurable {
  du_dir : string;
  du_layers : list N;
  du_overlay_id : N;
  du_overlay : Inode
}.

(** What the branches of a process share: counters and the host's storage. *)
Record RWorld := mkRWorld { rw_statics : Statics; rw_storage : Storage }.

Definition set_statics (g : Statics) (w : RWorld) : RWorld := mkRWorld g (rw_storage w).
Definition set_storage (st : Storage) (w : RWorld) : RWorld := mkRWorld (rw_statics w) st.

Abbreviation RW := (M RWorld io_error).

(** A computation on the world by the owner of an object. *)
Definition world {X A} (m : RW A) : M (RWorld * X) io_error A :=
  zoom fst (fun w s => (w, s.2)) m.

(** [chunks(n)] of a buffer; as many rounds as bytes are enough. *)
Fixpoint chunk_rounds (fuel n : nat) (l : list byte) : list (list byte) :=
  match fuel with
  | O => []
  | S fuel' => match l with
               | [] => []
               | _ => take n l :: chunk_rounds fuel' n (drop n l)
               end
  end.
Definition chunks (n : nat) (l : list byte) : list (list byte) := chunk_rounds (length l) n l.

(** [u64::to_le_bytes] and [u64::from_le_bytes]. *)
Definition byte_of (n : N) : byte := default zero_byte (Byte.of_N (n mod 256)).

Fixpoint le_bytes (k : nat) (n : N) : list byte :=
  match k with
  | O => []
  | S k' => byte_of n :: le_bytes k' (n / 256)
  end.

Fixpoint le_value (l : list byte) : N :=
  match l with
  | [] => 0
  | b :: l' => Byte.to_N b + 256 * le_value l'
  end.

Module Durable.

(** A computation on the host's storage. *)
Definition sto {A} (m : SIO A) : RW A := zoom rw_storage set_storage m.

(** [next_durable_id]: [fetch_add] wraps. *)
Definition next_durable_id : RW N := fun w =>
  let id := next_durable_layer_id (rw_statics w) in
  (set_statics (set_next_durable_layer_id (wrapping_add id 1) (rw_statics w)) w, Ok id).

(** The loops of [create_numbered_file] and [link_numbered_file]: try numbers
    until one is free.  A round is used up by a name that exists or by an
    error of the host, so one round more than there are of both is enough. *)
Definition rounds (w : RWorld) : nat :=
  S (size (sto_names (rw_storage w)) + length (sto_sched (rw_storage w))).

Fixpoint create_numbered_rounds (fuel : nat) (dir prefix : string) : RW (N * Inode) :=
  match fuel with
  | O => throw (Custom Other "no rounds left")
  | S fuel' =>
      id ← next_durable_id;
      r ← attempt (sto (Sto.open_new (numbered dir prefix id)));
      match r with
      | Ok i => mret (id, i)
      | Err e => if decide (error_kind e = AlreadyExists)
                 then create_numbered_rounds fuel' dir prefix else throw e
      end
  end.

Definition create_numbered_file (dir prefix : string) : RW (N * Inode) :=
  w ← get; create_numbered_rounds (rounds w) dir prefix.

Fixpoint link_numbered_rounds (fuel : nat) (dir prefix : string) (source : Path) : RW (N * Path) :=
  match fuel with
  | O => throw (Custom Other "no rounds left")
  | S fuel' =>
      id ← next_durable_id;
      let path := numbered dir prefix id in
      r ← attempt (sto (Sto.hard_link source path));
      match r with
      | Ok _ => mret (id, path)
      | Err e => if decide (error_kind e = AlreadyExists)
                 then link_numbered_rounds fuel' dir prefix source else throw e
      end
  end.

Definition link_numbered_file (dir prefix : string) (source : Path) : RW (N * Path) :=
  w ← get; link_numbered_rounds (rounds w) dir prefix source.

(** [File::open(path)?.sync_data()]. *)
Definition sync_file (path : Path) : RW unit :=
  i ← sto (Sto.open path);
  sto (Sto.sync_data i).

(** [fetch_max] on the counters. *)
Definition fetch_max_block (n : N) : RW unit :=
  modify (fun w => set_statics (set_next_block_id (N.max (next_block_id (rw_statics w)) n)
                                  (rw_statics w)) w).
Definition fetch_max_layer (n : N) : RW unit :=
  modify (fun w => set_statics
    (set_next_durable_layer_id (N.max (next_durable_layer_id (rw_statics w)) n) (rw_statics w)) w).

(** One record of [load_records]. *)
Definition load_record (record : list byte) (objects visible : Blocks) : RW (Blocks * Blocks) :=
  let address := le_value (take 8 record) in
  let id := le_value (take 8 (drop 8 record)) in
  let bytes := drop 16 record in
  '(block, objects') ← match objects !! id with
    | Some existing =>
        if decide (block_bytes existing <> bytes)
        then throw (Custom InvalidData "filesystem block object has conflicting contents")
        else mret (existing, objects)
    | None => mret (mkBlock id bytes, <[id := mkBlock id bytes]> objects)
    end;
  _ ← fetch_max_block (saturating_add id 1);
  mret (objects', <[address := block]> visible).

Fixpoint load_all (records : list (list byte)) (objects visible : Blocks) : RW (Blocks * Blocks) :=
  match records with
  | [] => mret (objects, visible)
  | record :: rest =>
      '(objects', visible') ← load_record record objects visible;
      load_all rest objects' visible'
  end.

(** [load_records]. *)
Definition load_records (path : Path) (objects visible : Blocks) : RW (Blocks * Blocks) :=
  bytes ← sto (Sto.read path);
  if negb (lenN bytes mod LAYER_RECORD_SIZE =? 0)
  then throw (Custom InvalidData "filesystem layer ends with a partial block record")
  else load_all (chunks record_nat bytes) objects visible.

(** [DurableCowDisk::create]. *)
Definition create (dir : string) : RW DurableCowDisk :=
  _ ← sto (Sto.create_dir_all dir);
  '(overlay_id, overlay) ← create_numbered_file dir "overlay";
  _ ← sto (Sto.sync_directory dir);
  mret (mkDurable dir [] overlay_id overlay).

Fixpoint load_layers (dir : string) (layers : list N) (objects visible : Blocks) :
    RW (Blocks * Blocks) :=
  match layers with
  | [] => mret (objects, visible)
  | layer :: rest =>
      '(objects', visible') ← load_records (numbered dir "layer" layer) objects visible;
      load_layers dir rest objects' visible'
  end.

(** [DurableCowDisk::restore]: the disk, its base generation, and the loaded
    objects. *)
Definition restore (dir : string) (state : DurableDiskState) (objects : Blocks) :
    RW (DurableCowDisk * Generation Blocks * Blocks * Blocks) :=
  '(objects1, base_blocks) ← load_layers dir (ds_layers state) objects ∅;
  let overlay_path := numbered dir "overlay" (ds_overlay state) in
  '(objects2, snapshot_writes) ← load_records overlay_path objects1 ∅;
  _ ← fetch_max_layer (saturating_add (foldr N.max (ds_overlay state) (ds_layers state)) 1);
  len ← sto (Sto.file_len overlay_path);
  live_layers ← (if 0 <? len then
      '(layer, layer_path) ← link_numbered_file dir "layer" overlay_path;
      _ ← sync_file layer_path;
      mret (ds_layers state ++ [layer])
    else mret (ds_layers state));
  '(overlay_id, overlay) ← create_numbered_file dir "overlay";
  _ ← sto (Sto.sync_directory dir);
  mret (mkDurable dir live_layers overlay_id overlay,
        mkGeneration None (extend base_blocks snapshot_writes), ∅, objects2).

Abbreviation DD := (M (RWorld * DurableCowDisk) io_error).

Definition push_layer (layer : N) : DD unit :=
  modify (fun '(w, d) => (w, mkDurable (du_dir d) (du_layers d ++ [layer]) (du_overlay_id d)
                               (du_overlay d))).
Definition set_overlay (id : N) (i : Inode) : DD unit :=
  modify (fun '(w, d) => (w, mkDurable (du_dir d) (du_layers d) id i)).
Definition self : DD DurableCowDisk := gets snd.

(** [DurableCowDisk::append]. *)
Definition append (address : N) (block : Block) : DD unit :=
  d ← self;
  _ ← world (sto (Sto.write_all (du_overlay d) (le_bytes 8 address)));
  _ ← world (sto (Sto.write_all (du_overlay d) (le_bytes 8 (block_id block))));
  world (sto (Sto.write_all (du_overlay d) (block_bytes block))).

(** [DurableCowDisk::fork]. *)
Definition fork (seal_overlay : bool) : DD DurableCowDisk :=
  _ ← (if seal_overlay then
      d ← self;
      '(layer_id, _) ← world (link_numbered_file (du_dir d) "layer"
                                (numbered (du_dir d) "overlay" (du_overlay_id d)));
      push_layer layer_id
    else mret tt);
  d ← self;
  let child_layers := du_layers d in
  _ ← (if seal_overlay then
      '(overlay_id, overlay) ← world (create_numbered_file (du_dir d) "overlay");
      set_overlay overlay_id overlay
    else mret tt);
  '(child_overlay_id, child_overlay) ← world (create_numbered_file (du_dir d) "overlay");
  mret (mkDurable (du_dir d) child_layers child_overlay_id child_overlay).

(** [DurableCowDisk::checkpoint]. *)
Definition checkpoint (size : N) (seal_overlay : bool) : DD DurableDiskState :=
  d ← self;
  _ ← for_each (fun layer => world (sync_file (numbered (du_dir d) "layer" layer))) (du_layers d);
  _ ← world (sto (Sto.sync_data (du_overlay d)));
  let state := mkDiskState size (du_layers d) (du_overlay_id d) in
  layer ← (if seal_overlay then
      '(layer_id, layer_path) ← world (link_numbered_file (du_dir d) "layer"
                                         (numbered (du_dir d) "overlay" (du_overlay_id d)));
      _ ← world (sync_file layer_path);
      mret (Some layer_id)
    else mret None);
  '(next_overlay_id, next_overlay) ← world (create_numbered_file (du_dir d) "overlay");
  _ ← world (sto (Sto.sync_directory (du_dir d)));
  _ ← (match layer with Some l => push_layer l | None => mret tt end);
  _ ← set_overlay next_overlay_id next_overlay;
  mret state.

End Durable.
