(* ===== verification/CowDisk.v ===== *)
(** * Copy-on-write disks (crates/minidox-redoxfs/src/branching.rs)

    A [CowDisk] is the block device under a RedoxFS branch: the branch's own
    writes over a chain of shared generations, optionally mirrored in durable
    layers. *)

From S2P Require Import Prelude Generations Host Identity Storage DurableCowDisk.

Record CowDisk := mkDisk {
  cd_size : N;
  cd_base : Generation Blocks;
  cd_writes : Blocks;
  cd_durable : option DurableCowDisk
}.

Module Disk.

Abbreviation D := (M (RWorld * CowDisk) io_error).

(** [DiskGeneration::block] and [DiskGeneration::visible_blocks]. *)
Definition gen_block (g : Generation Blocks) (block : N) : option Block :=
  gen_lookup (fun l => l !! block) g.
Definition gen_visible_blocks (g : Generation Blocks) (blocks : Blocks) : Blocks :=
  gen_extend id blocks g.

(** [CowDisk::new]. *)
Definition new (size : N) : CowDisk := mkDisk size (mkGeneration None ∅) ∅ None.

(** [CowDisk::durable]. *)
Definition durable (dir : string) (size : N) : RW CowDisk :=
  d ← Durable.create dir;
  mret (mkDisk size (mkGeneration None ∅) ∅ (Some d)).

(** Run an operation of the durable half of a disk. *)
Definition on_durable {A} (d : DurableCowDisk) (m : Durable.DD A) : D A := fun '(w, cd) =>
  let '((w', d'), r) := m (w, d) in
  ((w', mkDisk (cd_size cd) (cd_base cd) (cd_writes cd) (Some d')), r).

(** The pending writes become a generation of their own. *)
Definition seal_writes (cd : CowDisk) : CowDisk :=
  mkDisk (cd_size cd) (mkGeneration (Some (cd_base cd)) (cd_writes cd)) ∅ (cd_durable cd).

(** [CowDisk::fork]. *)
Definition fork : D CowDisk :=
  s ← get;
  let cd := s.2 in
  let has_writes := negb (bool_decide (cd_writes cd = ∅)) in
  child_durable ← (match cd_durable cd with
    | Some d => c ← on_durable d (Durable.fork has_writes); mret (Some c)
    | None => mret None
    end);
  _ ← (if has_writes then modify (fun '(w, cd) => (w, seal_writes cd)) else mret tt);
  s ← get;
  mret (mkDisk (cd_size s.2) (cd_base s.2) ∅ child_durable).

(** [CowDisk::visible_block]. *)
Definition visible_block (cd : CowDisk) (block : N) : option Block :=
  match cd_writes cd !! block with
  | Some b => Some b
  | None => gen_block (cd_base cd) block
  end.

(** [CowDisk::visible_blocks]. *)
Definition visible_blocks (cd : CowDisk) : Blocks :=
  extend (gen_visible_blocks (cd_base cd) ∅) (cd_writes cd).

(** [CowDisk::check_range]. *)
Definition check_range (cd : CowDisk) (block len : N) : result io_error unit :=
  match checked_mul block BLOCK_SIZE with
  | None => Err (RawOs EIO)
  | Some offset =>
      match checked_add offset len with
      | None => Err (RawOs EIO)
      | Some end_ => if cd_size cd <? end_ then Err (RawOs EIO) else Ok tt
      end
  end.

(** [CowDisk::durable_state]. *)
Definition durable_state : D DurableDiskState :=
  s ← get;
  let cd := s.2 in
  let has_writes := negb (bool_decide (cd_writes cd = ∅)) in
  match cd_durable cd with
  | None => throw (Custom Other "filesystem branch is not durable")
  | Some d =>
      state ← on_durable d (Durable.checkpoint (cd_size cd) has_writes);
      _ ← (if has_writes then modify (fun '(w, cd) => (w, seal_writes cd)) else mret tt);
      mret state
  end.

Definition zero_block : list byte := replicate block_nat zero_byte.

Definition stored_bytes (cd : CowDisk) (address : N) : list byte :=
  match visible_block cd address with Some b => block_bytes b | None => zero_block end.

(** The loop of [read_at]: one chunk of the buffer per block. *)
Fixpoint read_chunks (cd : CowDisk) (address : N) (buffer : list (list byte)) : list byte :=
  match buffer with
  | [] => []
  | chunk :: rest => take (length chunk) (stored_bytes cd address) ++ read_chunks cd (address + 1) rest
  end.

(** [Disk::read_at] into a buffer of [len] bytes. *)
Definition read_at (cd : CowDisk) (block len : N) : result io_error (list byte) :=
  match check_range cd block len with
  | Err e => Err e
  | Ok _ => Ok (read_chunks cd block (chunks block_nat (replicate (N.to_nat len) zero_byte)))
  end.

Definition next_block : D N := fun '(w, cd) =>
  let id := next_block_id (rw_statics w) in
  ((set_statics (set_next_block_id (wrapping_add id 1) (rw_statics w)) w, cd), Ok id).

(** One chunk of [write_at]. *)
Definition write_chunk (address : N) (chunk : list byte) : D unit :=
  s ← get;
  let bytes := chunk ++ drop (length chunk) (stored_bytes s.2 address) in
  id ← next_block;
  let block := mkBlock id bytes in
  _ ← modify (fun '(w, cd) =>
        (w, mkDisk (cd_size cd) (cd_base cd) (<[address := block]> (cd_writes cd)) (cd_durable cd)));
  s ← get;
  match cd_durable s.2 with
  | Some d => with_err (fun _ => RawOs EIO) (on_durable d (Durable.append address block))
  | None => mret tt
  end.

Fixpoint write_chunks (address : N) (buffer : list (list byte)) : D unit :=
  match buffer with
  | [] => mret tt
  | chunk :: rest =>
      _ ← write_chunk address chunk;
      write_chunks (address + 1) rest
  end.

(** [Disk::write_at]. *)
Definition write_at (block : N) (buffer : list byte) : D N :=
  s ← get;
  _ ← lift (check_range s.2 block (lenN buffer));
  _ ← write_chunks block (chunks block_nat buffer);
  mret (lenN buffer).

(** [Disk::size]. *)
Definition size (cd : CowDisk) : N := cd_size cd.

End Disk.
