(* ===== verification/RedoxBranch.v ===== *)
(** * RedoxFS branches (crates/minidox-redoxfs/src/branching.rs)

    A branch is a RedoxFS file system on a copy-on-write disk together with the
    identities of its file pages.  The file system itself is the vendored
    [redoxfs] crate, which reaches its disk only through the [Disk] trait; it
    is the parameter [RedoxEngine], whose operations are programs that read and
    write blocks and are run here on the [CowDisk]. *)

From S2P Require Import Prelude Generations Host CacheTypes SharedCache Identity Storage DurableCowDisk CowDisk.

(** A computation that uses a disk through [Disk::read_at], [Disk::write_at]
    and [Disk::size] only. *)
Inductive DiskProg (A : Type) : Type :=
  | Done (a : A)
  | ReadAt (block len : N) (next : result io_error (list byte) -> DiskProg A)
  | WriteAt (block : N) (buffer : list byte) (next : result io_error N -> DiskProg A)
  | SizeOf (next : result io_error N -> DiskProg A).
Arguments Done {A} a.
Arguments ReadAt {A} block len next.
Arguments WriteAt {A} block buffer next.
Arguments SizeOf {A} next.

Fixpoint prog_bind {A B} (p : DiskProg A) (f : A -> DiskProg B) : DiskProg B :=
  match p with
  | Done a => f a
  | ReadAt block len next => ReadAt block len (fun r => prog_bind (next r) f)
  | WriteAt block buffer next => WriteAt block buffer (fun r => prog_bind (next r) f)
  | SizeOf next => SizeOf (fun n => prog_bind (next n) f)
  end.

(** Run on a copy-on-write disk. *)
Fixpoint run_disk {A} (p : DiskProg A) (s : RWorld * CowDisk) : (RWorld * CowDisk) * A :=
  match p with
  | Done a => (s, a)
  | ReadAt block len next => run_disk (next (Disk.read_at s.2 block len)) s
  | WriteAt block buffer next => let '(s', r) := Disk.write_at block buffer s in run_disk (next r) s'
  | SizeOf next => run_disk (next (Ok (Disk.size s.2))) s
  end.

(** [redoxfs::Node] as [metadata] reads it. *)
Record NodeData := mkNodeData {
  nd_size : N; nd_blocks : N; nd_mode : N; nd_links : N; nd_uid : N; nd_gid : N;
  nd_atime : N * N; nd_mtime : N * N; nd_ctime : N * N
}.

(** What the branch uses of [redoxfs]: [FileSystem] without its disk, and
    [Transaction].  A transaction works on a file system that is given back
    changed when it is committed, and as [tx_drop] leaves it when not.  Times
    are seconds and nanoseconds. *)
Class RedoxEngine (FS : Type) := {
  fs_block : FS -> N;
  fs_create : DiskProg (result io_error FS);
  fs_open : N -> DiskProg (result io_error FS);
  Tx : Type;
  tx_new : FS -> Tx;
  tx_drop : Tx -> FS;
  tx_commit : Tx -> DiskProg (FS * result io_error unit);
  tx_create_node : NodeId -> string -> N -> N * N -> Tx -> DiskProg (Tx * result io_error NodeId);
  tx_truncate_node : NodeId -> N -> N * N -> Tx -> DiskProg (Tx * result io_error unit);
  tx_read_node : NodeId -> N -> N -> N * N -> Tx -> DiskProg (Tx * result io_error (list byte));
  tx_write_node : NodeId -> N -> list byte -> N * N -> Tx -> DiskProg (Tx * result io_error N);
  tx_read_tree : NodeId -> Tx -> DiskProg (Tx * result io_error NodeData);
  tx_find_node : NodeId -> string -> Tx -> DiskProg (Tx * result io_error NodeId);
  tx_child_nodes : NodeId -> Tx -> DiskProg (Tx * result io_error (list (NodeId * option string)));
  tx_on_open_node : NodeId -> Tx -> DiskProg (Tx * result io_error unit);
  tx_on_close_node : NodeId -> Tx -> DiskProg (Tx * result io_error unit)
}.

(** The time a branch gives to all its operations. *)
Definition branch_time : N * N := (1, 0).

Record NodeMetadata := mkNodeMetadata {
  nm_id : NodeId; nm_size : N; nm_blocks_512 : N; nm_mode : N; nm_links : N; nm_uid : N; nm_gid : N;
  nm_atime : N * N; nm_mtime : N * N; nm_ctime : N * N
}.

Record BlockAccounting := mkBlockAccounting { resident_blocks : nat; shared_blocks : nat }.

Record RedoxBranchState := mkBranchState {
  rs_disk : DurableDiskState;
  rs_header_block : N;
  rs_files : list (NodeId * N);
  rs_pages : list (PageKey * N)
}.

Record RedoxBranch (FS : Type) := mkRedox {
  rb_fs : FS;
  rb_disk : CowDisk;
  rb_identities : IdentityBranch
}.
Arguments mkRedox {FS}.
Arguments rb_fs {FS}.
Arguments rb_disk {FS}.
Arguments rb_identities {FS}.

(** [TreePtr::root().id()], [Node::MODE_FILE | 0o644]. *)
Definition root_id : NodeId := 1.
Definition file_mode : N := N.lor 32768 420.

(** A [BTreeMap] in iteration order. *)
Definition btree_list {K V} `{Countable K} `{KeyOrder K} (m : gmap K V) : list (K * V) :=
  omap (fun k => pair k <$> m !! k) (btree_keys m).

(** Collecting into a [BTreeMap]: later entries win. *)
Definition btree_collect {K V} `{Countable K} (l : list (K * V)) : gmap K V :=
  foldl (fun m kv => <[kv.1 := kv.2]> m) ∅ l.

Section redox.
Context {FS : Type} `{!RedoxEngine FS}.

Abbreviation RB := (M (RWorld * RedoxBranch FS) io_error).
Abbreviation TxOp A := (Tx -> DiskProg (Tx * result io_error A)).

Definition tx_ret {A} (a : A) : TxOp A := fun tx => Done (tx, Ok a).
Definition tx_throw {A} (e : io_error) : TxOp A := fun tx => Done (tx, Err e).
Definition tx_bind {A B} (m : TxOp A) (f : A -> TxOp B) : TxOp B := fun tx =>
  prog_bind (m tx) (fun '(tx', r) =>
    match r with Ok a => f a tx' | Err e => Done (tx', Err e) end).

(** [FileSystem::tx]. *)
Definition fs_tx {A} (f : TxOp A) (fs : FS) : DiskProg (FS * result io_error A) :=
  prog_bind (f (tx_new fs)) (fun '(tx, r) =>
    match r with
    | Err e => Done (tx_drop tx, Err e)
    | Ok a => prog_bind (tx_commit tx) (fun '(fs', r') =>
        Done (fs', match r' with Ok _ => Ok a | Err e => Err e end))
    end).

(** [self.fs.tx(..)]. *)
Definition tx {A} (f : TxOp A) : RB A := fun '(w, b) =>
  let '((w', cd), (fs, r)) := run_disk (fs_tx f (rb_fs b)) (w, rb_disk b) in
  ((w', mkRedox fs cd (rb_identities b)), r).

(** Run an operation of the identities. *)
Definition on_identities {A} (m : Identity.I A) : RB A := fun '(w, b) =>
  let '((g, ib), r) := m (rw_statics w, rb_identities b) in
  ((set_statics g w, mkRedox (rb_fs b) (rb_disk b) ib), r).

(** [RedoxBranch::create] and [RedoxBranch::create_durable], on their disk. *)
Definition create_on (cd : CowDisk) : RW (RedoxBranch FS) := fun w =>
  let '((w', cd'), r) := run_disk fs_create (w, cd) in
  match r with
  | Err e => (w', Err e)
  | Ok fs =>
      let '((g, ib), _) := Identity.create_file root_id (rw_statics w', Identity.new) in
      (set_statics g w', Ok (mkRedox fs cd' ib))
  end.

Definition create (size : N) : RW (RedoxBranch FS) := create_on (Disk.new size).

Definition create_durable (dir : string) (size : N) : RW (RedoxBranch FS) :=
  cd ← Disk.durable dir size;
  create_on cd.

(** [RedoxBranch::create_file]. *)
Definition create_file (name : string) (size : N) : RB NodeId :=
  node ← tx (tx_bind (tx_create_node root_id name file_mode branch_time) (fun node =>
             tx_bind (tx_truncate_node node size branch_time) (fun _ => tx_ret node)));
  _ ← on_identities (Identity.create_file node);
  mret node.

(** [RedoxBranch::read]. *)
Definition read (node : NodeId) (offset len : N) : RB (list byte) :=
  tx (tx_read_node node offset len branch_time).

(** [RedoxBranch::write]. *)
Definition write (node : NodeId) (offset : N) (bytes : list byte) : RB N :=
  written ← tx (tx_write_node node offset bytes branch_time);
  _ ← on_identities (Identity.record_write node offset written);
  mret written.

(** [RedoxBranch::metadata]. *)
Definition metadata (node : NodeId) : RB NodeMetadata :=
  tx (tx_bind (tx_read_tree node) (fun data => tx_ret (mkNodeMetadata node (nd_size data)
        (nd_blocks data * (BLOCK_SIZE / 512)) (nd_mode data) (nd_links data) (nd_uid data) (nd_gid data)
        (nd_atime data) (nd_mtime data) (nd_ctime data)))).

(** [RedoxBranch::lookup]. *)
Definition lookup (parent : NodeId) (name : string) : RB NodeId := tx (tx_find_node parent name).

(** The collect of [entries]: the first entry without a name is an error. *)
Fixpoint named (entries : list (NodeId * option string)) : result io_error (list (NodeId * string)) :=
  match entries with
  | [] => Ok []
  | (_, None) :: _ => Err (RawOs EIO)
  | (id, Some name) :: rest =>
      match named rest with Ok l => Ok ((id, name) :: l) | Err e => Err e end
  end.

(** [RedoxBranch::entries]. *)
Definition entries (parent : NodeId) : RB (list (NodeId * string)) :=
  tx (tx_bind (tx_child_nodes parent) (fun l => fun t => Done (t, named l))).

(** [RedoxBranch::fork]. *)
Definition fork : RB (RedoxBranch FS) := fun '(w, b) =>
  let '((w1, cd), r) := Disk.fork (w, rb_disk b) in
  match r with
  | Err e => ((w1, mkRedox (rb_fs b) cd (rb_identities b)), Err e)
  | Ok child_disk =>
      let '(ib, child_ids) := Identity.fork (rb_identities b) in
      let '((w2, child_disk'), r) := run_disk (fs_open (fs_block (rb_fs b))) (w1, child_disk) in
      let b' := mkRedox (rb_fs b) cd ib in
      match r with
      | Err e => ((w2, b'), Err e)
      | Ok fs => ((w2, b'), Ok (mkRedox fs child_disk' child_ids))
      end
  end.

(** [RedoxBranch::durable_state]. *)
Definition durable_state : RB RedoxBranchState := fun '(w, b) =>
  let '((w', cd), r) := Disk.durable_state (w, rb_disk b) in
  ((w', mkRedox (rb_fs b) cd (rb_identities b)),
   match r with
   | Err e => Err e
   | Ok disk => Ok (mkBranchState disk (fs_block (rb_fs b))
                      (btree_list (Identity.visible_files (rb_identities b)))
                      (btree_list (Identity.visible_pages (rb_identities b))))
   end).

(** [RedoxBranch::restore_lineage]: the loop, with the objects and the largest
    numbers seen so far. *)
Fixpoint restore_loop (dir : string) (states : list RedoxBranchState) (objects : Blocks)
    (max_file max_version : N) : RW (list (RedoxBranch FS) * N * N) :=
  match states with
  | [] => mret ([], max_file, max_version)
  | s :: rest =>
      '(d, base, writes, objects') ← Durable.restore dir (rs_disk s) objects;
      let disk := mkDisk (ds_size (rs_disk s)) base writes (Some d) in
      '(fs, disk') ← (fun w => let '((w', disk'), r) := run_disk (fs_open (rs_header_block s)) (w, disk) in
                               (w', match r with Ok fs => Ok (fs, disk') | Err e => Err e end));
      let b := mkRedox fs disk' (mkIdentity (mkGeneration None (mkLayer ∅ ∅))
                 (btree_collect (rs_files s)) (btree_collect (rs_pages s))) in
      '(branches, max_file', max_version') ← restore_loop dir rest objects'
          (foldl N.max max_file (rs_files s).*2) (foldl N.max max_version (rs_pages s).*2);
      mret (b :: branches, max_file', max_version')
  end.

Definition restore_lineage (dir : string) (states : list RedoxBranchState) : RW (list (RedoxBranch FS)) :=
  '(branches, max_file, max_version) ← restore_loop dir states ∅ 0 0;
  _ ← modify (fun w => set_statics (set_next_file_object_id
        (N.max (next_file_object_id (rw_statics w)) (saturating_add max_file 1)) (rw_statics w)) w);
  _ ← modify (fun w => set_statics (set_next_page_version
        (N.max (next_page_version (rw_statics w)) (saturating_add max_version 1)) (rw_statics w)) w);
  mret branches.

(** The blocks one branch sees, by number. *)
Definition branch_blocks (b : RedoxBranch FS) : gset N :=
  list_to_set (block_id <$> (map_to_list (Disk.visible_blocks (rb_disk b))).*2).

(** [RedoxBranch::block_accounting]. *)
Definition block_accounting (branches : list (RedoxBranch FS)) : BlockAccounting :=
  let references := foldl (fun refs b => bump_all refs (branch_blocks b)) ∅ branches in
  mkBlockAccounting (size references) (count_shared references).

(** [NodeStore for RedoxBranch]. *)
Definition len (node : NodeId) : RB N :=
  tx (tx_bind (tx_read_tree node) (fun data => tx_ret (nd_size data))).

Definition redox_read_node (node : NodeId) (offset buflen : N) : RB (list byte) :=
  tx (tx_read_node node offset buflen branch_time).

Definition redox_write_node (node : NodeId) (offset : N) (buf : list byte) : RB N :=
  tx (tx_write_node node offset buf branch_time).

Definition redox_on_open_node (node : NodeId) : RB unit := tx (tx_on_open_node node).
Definition redox_on_close_node (node : NodeId) : RB unit := tx (tx_on_close_node node).

(** [ForkableNodeStore for RedoxBranch]. *)
Definition redox_page_identity (node : NodeId) (offset : N) : RB RedoxPageIdentity := fun s =>
  (s, Identity.page_identity (rb_identities s.2) node offset).

Definition redox_prepare_page_write (node : NodeId) (offset : N) : RB RedoxPageIdentity :=
  on_identities (Identity.prepare_page_write node offset).

#[export] Instance RedoxBranch_store : NodeStore RWorld (RedoxBranch FS) := {
  ns_len := len;
  CacheTypes.read_node := redox_read_node;
  CacheTypes.write_node := redox_write_node;
  on_open_node := redox_on_open_node;
  on_close_node := redox_on_close_node
}.

#[export] Instance RedoxBranch_forkable : ForkableNodeStore RWorld (RedoxBranch FS) RedoxPageIdentity := {
  SharedCache.page_identity := redox_page_identity;
  SharedCache.prepare_page_write := redox_prepare_page_write;
  fork_store := fork
}.

End redox.
