(* ===== verification/DiskLog.v ===== *)
(** * The block log of an overlay file

    What the bytes of a layer mean: a list of (address, block) records, replayed
    oldest first.  The byte encoding of [DurableCowDisk::append] is decoded by
    [load_records], and replaying the same log twice is replaying it once. *)

From S2P Require Import Prelude Generations Host Identity Storage DurableCowDisk CowDisk.

Abbreviation Log := (list (N * Block)).

(** A chain of layers, oldest first: the files and their logs. *)
Abbreviation Chain := (list (Inode * Log)).
Definition chain_log (chain : Chain) : Log := mjoin chain.*2.

(** One record as [append] writes it. *)
Definition record_bytes (e : N * Block) : list byte :=
  le_bytes 8 e.1 ++ le_bytes 8 (block_id e.2) ++ block_bytes e.2.

Definition encode (l : Log) : list byte := mjoin (record_bytes <$> l).

(** The blocks a log leaves visible. *)
Definition replay (l : Log) : Blocks := foldl (fun m e => <[e.1 := e.2]> m) ∅ l.

(** A record written by this code: a full block whose number denotes it. *)
Record entry_ok (O : Blocks) (e : N * Block) : Prop := {
  entry_address : e.1 <= u64_MAX;
  entry_id : block_id e.2 < u64_MAX;
  entry_length : length (block_bytes e.2) = block_nat;
  entry_object : O !! block_id e.2 = Some e.2
}.

Lemma to_N_byte_of n : Byte.to_N (byte_of n) = n mod 256.
Proof.
  unfold byte_of. destruct (Byte.of_N (n mod 256)) as [b|] eqn:Hb.
  - by apply Byte.to_of_N.
  - apply Byte.of_N_None_iff in Hb. pose proof (N.mod_lt n 256). lia.
Qed.

Lemma length_le_bytes k n : length (le_bytes k n) = k.
Proof. revert n. induction k; intros; cbn; auto. Qed.

Lemma le_value_bytes k n : le_value (le_bytes k n) = n mod 256 ^ N.of_nat k.
Proof.
  revert n. induction k as [|k IH]; intros n; [cbn; by rewrite N.mod_1_r|].
  cbn [le_bytes le_value]. rewrite IH, to_N_byte_of.
  rewrite Nat2N.inj_succ, N.pow_succ_r', N.Div0.mod_mul_r. lia.
Qed.

Lemma le_value_bytes_u64 n : n <= u64_MAX -> le_value (le_bytes 8 n) = n.
Proof.
  intros Hn. rewrite le_value_bytes. apply N.mod_small.
  change (256 ^ N.of_nat 8) with (u64_MAX + 1). lia.
Qed.

Lemma length_record_bytes O e : entry_ok O e -> length (record_bytes e) = record_nat.
Proof.
  intros He. unfold record_bytes. rewrite !length_app, !length_le_bytes, (entry_length _ _ He).
  with_strategy transparent [record_nat block_nat] (unfold record_nat, block_nat, LAYER_RECORD_SIZE).
  lia.
Qed.

Lemma record_nat_N : N.of_nat record_nat = LAYER_RECORD_SIZE.
Proof. with_strategy transparent [record_nat] (unfold record_nat). lia. Qed.

(** ** Cutting a file into records *)

Section chunking.
Context (n : nat) (Hn : (0 < n)%nat).
Implicit Types l : list byte.

Lemma chunk_rounds_app fuel l l' :
  length l = n -> (length (l ++ l') <= fuel)%nat ->
  chunk_rounds fuel n (l ++ l') = l :: chunk_rounds (fuel - 1) n l'.
Proof.
  intros Hl Hf. destruct fuel as [|fuel]; [rewrite length_app in Hf; lia|]. cbn [chunk_rounds].
  destruct (l ++ l') as [|b rest] eqn:Heq.
  { apply app_eq_nil in Heq as [-> ->]. cbn in Hl. lia. }
  rewrite <-Heq, take_app_length', drop_app_length' by done.
  by replace (S fuel - 1)%nat with fuel by lia.
Qed.

Lemma chunk_rounds_fuel fuel l :
  (length l <= fuel)%nat -> chunk_rounds fuel n l = chunk_rounds (length l) n l.
Proof.
  remember (length l) as m eqn:Hm. revert fuel l Hm.
  induction m as [m IH] using lt_wf_ind. intros fuel l Hm Hf.
  destruct l as [|b l]; cbn in Hm; subst m; [by destruct fuel|].
  destruct fuel as [|fuel]; [lia|]. cbn [chunk_rounds].
  assert (length (drop n (b :: l)) <= length l)%nat as Hd by (rewrite length_drop; cbn; lia).
  f_equal. rewrite (IH (length (drop n (b :: l))) ltac:(lia) fuel) by (done || lia).
  symmetry. by apply IH; [lia|..].
Qed.

Lemma chunks_app l l' : length l = n -> chunks n (l ++ l') = l :: chunks n l'.
Proof.
  intros Hl. unfold chunks. rewrite chunk_rounds_app by done.
  f_equal. apply chunk_rounds_fuel. rewrite length_app. lia.
Qed.

Lemma chunks_nil : chunks n [] = [].
Proof. done. Qed.

Lemma chunks_short l : (0 < length l <= n)%nat -> chunks n l = [l].
Proof.
  intros Hl. unfold chunks. destruct l as [|b l]; cbn [length] in *; [lia|].
  cbn [chunk_rounds]. rewrite take_ge, drop_ge by (cbn; lia). by destruct (length l).
Qed.

Lemma chunks_bounded l : Forall (fun c => (length c <= n)%nat) (chunks n l).
Proof.
  clear Hn. unfold chunks. generalize (length l) as fuel. intros fuel. revert l.
  induction fuel as [|fuel IH]; intros l; [constructor|]. cbn [chunk_rounds].
  destruct l as [|b l]; [constructor|]. constructor; [rewrite length_take; lia|apply IH].
Qed.

Lemma length_chunks l : (length (chunks n l) <= length l)%nat.
Proof.
  clear Hn. unfold chunks. generalize (length l) as fuel. intros fuel. revert l.
  induction fuel as [|fuel IH]; intros l; [done|]. cbn [chunk_rounds].
  destruct l as [|b l]; cbn [length]; [lia|]. specialize (IH (drop n (b :: l))). lia.
Qed.

End chunking.

Lemma encode_cons e l : encode (e :: l) = record_bytes e ++ encode l.
Proof. done. Qed.

Lemma chunks_encode O l : Forall (entry_ok O) l -> chunks record_nat (encode l) = record_bytes <$> l.
Proof.
  assert (0 < record_nat)%nat as Hpos.
  { pose proof record_nat_N. unfold LAYER_RECORD_SIZE, BLOCK_SIZE in *. lia. }
  induction 1 as [|e l He Hl IH]; [done|].
  rewrite encode_cons, chunks_app; [|done|by eapply length_record_bytes]. by rewrite IH.
Qed.

Lemma lenN_encode O l : Forall (entry_ok O) l -> lenN (encode l) = LAYER_RECORD_SIZE * lenN l.
Proof.
  unfold lenN. induction 1 as [|e l He Hl IH]; [done|].
  rewrite encode_cons, length_app, (length_record_bytes O) by done. cbn [length]. pose proof record_nat_N. lia.
Qed.

Lemma encode_app l l' : encode (l ++ l') = encode l ++ encode l'.
Proof. unfold encode. by rewrite fmap_app, join_app. Qed.

Lemma encode_nonempty O l : Forall (entry_ok O) l -> lenN (encode l) = 0 <-> l = [].
Proof.
  intros Hl. rewrite (lenN_encode O) by done. unfold LAYER_RECORD_SIZE, BLOCK_SIZE, lenN.
  destruct l; cbn [length]; split; intros; try done; lia.
Qed.

(** Fields of an encoded record. *)
Lemma record_address O e : entry_ok O e -> le_value (take 8 (record_bytes e)) = e.1.
Proof.
  intros He. unfold record_bytes. rewrite take_app_length' by (by rewrite length_le_bytes).
  apply le_value_bytes_u64, He.
Qed.

Lemma record_id O e : entry_ok O e -> le_value (take 8 (drop 8 (record_bytes e))) = block_id e.2.
Proof.
  intros He. unfold record_bytes. rewrite drop_app_length' by (by rewrite length_le_bytes).
  rewrite take_app_length' by (by rewrite length_le_bytes).
  apply le_value_bytes_u64. pose proof (entry_id _ _ He). lia.
Qed.

Lemma record_content e : drop 16 (record_bytes e) = block_bytes e.2.
Proof.
  unfold record_bytes. rewrite app_assoc. apply drop_app_length'.
  by rewrite length_app, !length_le_bytes.
Qed.

(** ** Replaying *)

Section replaying.
Implicit Types (l : Log) (m : Blocks).

Lemma replay_from m l : foldl (fun m e => <[e.1 := e.2]> m) m l = replay l ∪ m.
Proof.
  unfold replay. induction l as [|e l IH] using rev_ind; [cbn; by rewrite (left_id_L ∅ (∪))|].
  rewrite !foldl_app. cbn. by rewrite IH, insert_union_l.
Qed.

Lemma replay_app l l' : replay (l ++ l') = replay l' ∪ replay l.
Proof. unfold replay at 1. rewrite foldl_app. apply replay_from. Qed.

Lemma replay_snoc l e : replay (l ++ [e]) = <[e.1 := e.2]> (replay l).
Proof. unfold replay at 1. by rewrite foldl_app. Qed.

Lemma replay_lookup l a b : replay l !! a = Some b -> (a, b) ∈ l.
Proof.
  induction l as [|e l IH] using rev_ind; [done|].
  rewrite replay_snoc, lookup_insert_Some, elem_of_app, list_elem_of_singleton.
  intros [[<- <-]|[_ ?]]; [right; by destruct e|left; auto].
Qed.
End replaying.

Lemma entry_ok_mono O O' e : O ⊆ O' -> entry_ok O e -> entry_ok O' e.
Proof. intros HO He. split; try apply He. by eapply lookup_weaken, HO; apply He. Qed.

Lemma entries_ok_mono O O' l : O ⊆ O' -> Forall (entry_ok O) l -> Forall (entry_ok O') l.
Proof. intros HO Hl. eapply Forall_impl; [exact Hl|]. intros e. by apply entry_ok_mono. Qed.
