(* ===== verification/DurableFiles.v ===== *)
(** * Numbered files, records and appends of a durable disk

    What the file-level operations of [DurableCowDisk] do to the storage: a
    numbered name is found in as many rounds as the model allows, a layer is
    loaded to exactly the blocks its log replays to, and an append adds one
    record. *)

From S2P Require Import Prelude Generations Host Identity Storage DurableCowDisk CowDisk DiskLog.

(** Running on the world leaves the object alone. *)
Lemma wp_world {X A} (m : RW A) (Q : A -> RWorld * X -> Prop) R w x :
  wp m (fun a w' => Q a (w', x)) (fun e w' => R e (w', x)) w -> wp (world m) Q R (w, x).
Proof. intros H. unfold world. by apply wp_zoom. Qed.

Section durable_files.
Implicit Types (w : RWorld) (st : Storage) (O : Blocks) (l : Log) (p : Path) (i : Inode).

(** The next number of the counter. *)
Definition next_layer w : N := next_durable_layer_id (rw_statics w).

(** Only the layer counter and the storage move. *)
Definition only_files w w' : Prop :=
  next_block_id (rw_statics w') = next_block_id (rw_statics w) /\
  next_file_object_id (rw_statics w') = next_file_object_id (rw_statics w) /\
  next_page_version (rw_statics w') = next_page_version (rw_statics w) /\
  (next_layer w <= u64_MAX -> next_layer w' <= u64_MAX).

Lemma only_files_refl w : only_files w w.
Proof. by split_and!. Qed.

Lemma only_files_trans w1 w2 w3 : only_files w1 w2 -> only_files w2 w3 -> only_files w1 w3.
Proof. intros (?&?&?&?) (?&?&?&?). split_and!; try congruence. auto. Qed.

Lemma only_files_storage w st : only_files w (set_storage st w).
Proof. by split_and!. Qed.

(** The host is calm and has room for more names. *)
Definition roomy (n : N) st : Prop :=
  sto_sched st = [] /\ N.of_nat (size (sto_names st)) + n <= u64_MAX.

(** The [k]-th number a loop tries, starting from [n]. *)
Definition tried (n : N) (k : nat) : N := wrapping_add n (N.of_nat k).

Lemma tried_inj n j k :
  N.of_nat j <= u64_MAX -> N.of_nat k <= u64_MAX -> tried n j = tried n k -> j = k.
Proof.
  unfold tried, wrapping_add. intros Hj Hk Heq. set (W := u64_MAX + 1) in *.
  assert (0 < W) as HW by (unfold W, u64_MAX; lia).
  assert (N.of_nat j < W /\ N.of_nat k < W) as [Hj' Hk'] by (unfold W; lia). clearbody W.
  pose proof (N.div_mod (n + N.of_nat j) W ltac:(lia)) as H1.
  pose proof (N.div_mod (n + N.of_nat k) W ltac:(lia)) as H2.
  rewrite Heq in H1. revert H1 H2. generalize ((n + N.of_nat j) / W) ((n + N.of_nat k) / W).
  intros q q' H1 H2. destruct (N.lt_trichotomy q q') as [?|[->|?]]; [|lia|].
  - assert (W * (q + 1) <= W * q') by (apply N.mul_le_mono_l; lia). lia.
  - assert (W * (q' + 1) <= W * q) by (apply N.mul_le_mono_l; lia). lia.
Qed.

(** More numbers than names cannot all be taken. *)
Lemma tried_pigeonhole st dir prefix n :
  roomy 0 st ->
  (forall j, (j <= size (sto_names st))%nat -> is_Some (sto_names st !! numbered dir prefix (tried n j))) ->
  False.
Proof.
  intros [_ Hroom] Htaken.
  set (ids := (fun j => numbered dir prefix (tried n j)) <$> seq 0 (S (size (sto_names st)))).
  assert (NoDup ids) as Hnd.
  { apply NoDup_fmap_2_strong; [|apply NoDup_seq].
    intros j k Hj%elem_of_seq Hk%elem_of_seq Heq%numbered_inj. apply tried_inj in Heq; lia. }
  assert (list_to_set ids ⊆ dom (sto_names st)) as Hsub.
  { intros p Hp. apply elem_of_list_to_set, list_elem_of_fmap in Hp as (j & -> & Hj%elem_of_seq).
    apply elem_of_dom, Htaken. lia. }
  apply subseteq_size in Hsub. rewrite size_list_to_set, size_dom in Hsub by done.
  unfold ids in Hsub. rewrite length_fmap, length_seq in Hsub. lia.
Qed.

Lemma wp_next_durable_id Q R w :
  Q (next_layer w) (set_statics (set_next_durable_layer_id (wrapping_add (next_layer w) 1) (rw_statics w)) w) ->
  wp Durable.next_durable_id Q R w.
Proof. done. Qed.

Lemma wrapping_add_le a b : wrapping_add a b <= u64_MAX.
Proof. unfold wrapping_add. pose proof (N.mod_lt (a + b) (u64_MAX + 1)). lia. Qed.

Lemma tried_S n j : wrapping_add (tried n j) 1 = tried n (S j).
Proof.
  unfold tried, wrapping_add. rewrite N.Div0.add_mod_idemp_l. f_equal. lia.
Qed.

Lemma tried_0 n : n <= u64_MAX -> tried n 0 = n.
Proof. intros. unfold tried. rewrite wrapping_add_small; lia. Qed.

(** [create_numbered_file] makes one empty file under a free name.  It fails
    only if the host does, or if there are too many names. *)
Definition created dir prefix (x : N * Inode) w w' : Prop :=
  let st := rw_storage w in
  let st' := rw_storage w' in
  grows ∅ st st' /\ only_files w w' /\
  sto_names st !! numbered dir prefix x.1 = None /\
  sto_names st' = <[numbered dir prefix x.1 := x.2]> (sto_names st) /\
  x.2 = sto_next st /\ sto_next st' = sto_next st + 1 /\
  sto_data st' !! x.2 = Some [] /\ sto_stable_names st' = sto_stable_names st.

Lemma roomy_same n st st' : same_names st st' -> roomy n st -> roomy n st'.
Proof. intros (G & Hn & _) [Hc Hr]. split; [by apply G|by rewrite Hn]. Qed.

(** A failure that changes no name, and that cannot happen if [C] holds. *)
Definition failed (C : Prop) w w' : Prop :=
  same_names (rw_storage w) (rw_storage w') /\ only_files w w' /\ ~ C.

Definition can_name (C : Prop) w : Prop := C /\ next_layer w <= u64_MAX /\ roomy 0 (rw_storage w).

Lemma calm_absurd st0 st (n : nat) : same_names st0 st -> roomy 0 st0 -> ~ (n < length (sto_sched st))%nat.
Proof. intros (G & _) [Hc _]. apply G in Hc. rewrite Hc. cbn. lia. Qed.

(** A loop that has tried [k] taken numbers and has [fuel] rounds left. *)
Definition trying (C : Prop) dir prefix (fuel k : nat) w0 w : Prop :=
  same_names (rw_storage w0) (rw_storage w) /\ only_files w0 w /\
  (can_name C w0 ->
    next_layer w = tried (next_layer w0) k /\ (S (size (sto_names (rw_storage w0))) <= fuel + k)%nat /\
    forall j, (j < k)%nat -> is_Some (sto_names (rw_storage w0) !! numbered dir prefix (tried (next_layer w0) j))).

Lemma trying_start C dir prefix w : trying C dir prefix (Durable.rounds w) 0 w w.
Proof.
  split; [apply same_names_refl|]. split; [apply only_files_refl|]. intros (_ & Hl & _).
  split_and!; [by rewrite tried_0|unfold Durable.rounds; lia|lia].
Qed.

Lemma trying_out C dir prefix k w0 w : trying C dir prefix 0 k w0 w -> failed (can_name C w0) w0 w.
Proof.
  intros (Hs & Ho & Hk). split; [done|]. split; [done|]. intros Hcan.
  destruct (Hk Hcan) as (_ & Hsz & Htaken). eapply tried_pigeonhole; [apply Hcan|].
  intros j Hj. apply Htaken. lia.
Qed.

Lemma trying_next C dir prefix fuel k w0 w st' :
  let w1 := set_statics (set_next_durable_layer_id (wrapping_add (next_layer w) 1) (rw_statics w)) w in
  trying C dir prefix (S fuel) k w0 w -> same_names (rw_storage w) st' ->
  (can_name C w0 -> is_Some (sto_names (rw_storage w0) !! numbered dir prefix (next_layer w))) ->
  trying C dir prefix fuel (S k) w0 (set_storage st' w1).
Proof.
  intros w1 (Hs & Ho & Hk) Hs' Htaken. split; [by eapply same_names_trans|]. split.
  { eapply only_files_trans; [exact Ho|]. split_and!; try done. intros _. apply wrapping_add_le. }
  intros Hcan. destruct (Hk Hcan) as (Hid & Hsz & Hall). split; [|split; [lia|]].
  - change (next_layer (set_storage st' w1)) with (wrapping_add (next_layer w) 1). by rewrite Hid, tried_S.
  - intros j Hj. destruct (decide (j = k)) as [->|]; [|apply Hall; lia]. rewrite <-Hid. auto.
Qed.

Lemma trying_only_files C dir prefix fuel k w0 w st' :
  trying C dir prefix fuel k w0 w ->
  only_files w0 (set_storage st'
    (set_statics (set_next_durable_layer_id (wrapping_add (next_layer w) 1) (rw_statics w)) w)).
Proof.
  intros (_ & Ho & _). eapply only_files_trans; [exact Ho|]. split_and!; try done.
  intros _. apply wrapping_add_le.
Qed.

Lemma wp_create_numbered_rounds dir prefix w0 fuel k Q R w :
  let C := dir ∈ sto_dirs (rw_storage w0) in
  (forall x w', created dir prefix x w0 w' -> Q x w') ->
  (forall e w', failed (can_name C w0) w0 w' -> R e w') ->
  trying C dir prefix fuel k w0 w ->
  wp (Durable.create_numbered_rounds fuel dir prefix) Q R w.
Proof.
  intros C HQ HR. revert k w. induction fuel as [|fuel IH]; intros k w Ht; cbn.
  { wp_steps. by eapply HR, trying_out. }
  wp_steps. apply wp_next_durable_id. wp_steps. unfold Durable.sto. wp_steps. cbn. apply wp_open_new.
  - intros st' G Hnone Hn Hx Hd Hsn. wp_steps. apply HQ.
    pose proof (trying_only_files _ _ _ _ _ _ _ st' Ht). destruct Ht as ((G0 & Hn0 & Hx0 & Hsn0 & _) & _).
    unfold created; cbn. rewrite <-Hn0, <-Hsn0, <-Hx0. split_and!; try done. by eapply grows_trans.
  - intros e st' Hs' Hcause. wp_steps.
    assert (can_name C w0 -> e = Custom AlreadyExists "file exists" /\
      is_Some (sto_names (rw_storage w0) !! numbered dir prefix (next_layer w))) as Hwhy.
    { intros (Hdir & _ & Hroom). destruct Ht as (Hs & _). pose proof Hs as (G0 & Hn0 & _).
      rewrite <-Hn0. destruct Hcause as [Hlen|[Hnd|?]]; [|by destruct Hnd; apply G0|done].
      by apply (calm_absurd _ _ _ Hs) in Hlen. }
    case_decide as He; wp_steps.
    + apply (IH (S k)), trying_next; [done|done|]. apply Hwhy.
    + apply HR. split; [destruct Ht; by eapply same_names_trans|].
      split; [by eapply trying_only_files|]. intros [-> _]%Hwhy. done.
Qed.

Lemma wp_create_numbered_file dir prefix Q R w :
  (forall x w', created dir prefix x w w' -> Q x w') ->
  (forall e w', failed (can_name (dir ∈ sto_dirs (rw_storage w)) w) w w' -> R e w') ->
  wp (Durable.create_numbered_file dir prefix) Q R w.
Proof.
  intros HQ HR. unfold Durable.create_numbered_file. wp_steps.
  by eapply wp_create_numbered_rounds; [..|apply trying_start].
Qed.

(** [link_numbered_file] gives the file a second name. *)
Definition linked dir prefix source (x : N * Path) w w' : Prop :=
  let st := rw_storage w in
  let st' := rw_storage w' in
  grows ∅ st st' /\ only_files w w' /\ x.2 = numbered dir prefix x.1 /\
  sto_names st !! x.2 = None /\ sto_next st' = sto_next st /\
  sto_stable_names st' = sto_stable_names st /\
  exists i, sto_names st !! source = Some i /\ sto_names st' = <[x.2 := i]> (sto_names st).

Lemma wp_link_numbered_rounds dir prefix source w0 fuel k Q R w :
  let C := is_Some (sto_names (rw_storage w0) !! source) in
  (forall x w', linked dir prefix source x w0 w' -> Q x w') ->
  (forall e w', failed (can_name C w0) w0 w' -> R e w') ->
  trying C dir prefix fuel k w0 w ->
  wp (Durable.link_numbered_rounds fuel dir prefix source) Q R w.
Proof.
  intros C HQ HR. revert k w. induction fuel as [|fuel IH]; intros k w Ht; cbn.
  { wp_steps. by eapply HR, trying_out. }
  wp_steps. apply wp_next_durable_id. wp_steps. unfold Durable.sto. wp_steps. cbn. apply wp_hard_link.
  - intros i st' G Hsrc Hnone Hn Hx Hsn. wp_steps. apply HQ.
    pose proof (trying_only_files _ _ _ _ _ _ _ st' Ht). destruct Ht as ((G0 & Hn0 & Hx0 & Hsn0 & _) & _).
    unfold linked; cbn. rewrite <-Hn0, <-Hsn0, <-Hx0. split_and!; try done; [by eapply grows_trans|eauto].
  - intros e st' Hs' Hcause. wp_steps.
    assert (can_name C w0 -> e = Custom AlreadyExists "file exists" /\
      is_Some (sto_names (rw_storage w0) !! numbered dir prefix (next_layer w))) as Hwhy.
    { intros ([i Hi] & _ & Hroom). destruct Ht as (Hs & _). pose proof Hs as (_ & Hn0 & _).
      rewrite <-Hn0 in Hi |- *. destruct Hcause as [Hlen|[Hnd|?]]; [|congruence|done].
      by apply (calm_absurd _ _ _ Hs) in Hlen. }
    case_decide as He; wp_steps.
    + apply (IH (S k)), trying_next; [done|done|]. apply Hwhy.
    + apply HR. split; [destruct Ht; by eapply same_names_trans|].
      split; [by eapply trying_only_files|]. intros [-> _]%Hwhy. done.
Qed.

Lemma wp_link_numbered_file dir prefix source Q R w :
  (forall x w', linked dir prefix source x w w' -> Q x w') ->
  (forall e w', failed (can_name (is_Some (sto_names (rw_storage w) !! source)) w) w w' -> R e w') ->
  wp (Durable.link_numbered_file dir prefix source) Q R w.
Proof.
  intros HQ HR. unfold Durable.link_numbered_file. wp_steps.
  by eapply wp_link_numbered_rounds; [..|apply trying_start].
Qed.

(** ** Loading *)

(** The file named [p] is [i] and holds the log [l]. *)
Definition file st O p i l : Prop :=
  sto_names st !! p = Some i /\ sto_data st !! i = Some (encode l) /\ Forall (entry_ok O) l.

(** Every numbered block has been issued. *)
Definition issued w O : Prop := forall id b, O !! id = Some b -> id < next_block_id (rw_statics w).

(** [w'] is [w] with [l] loaded on top of [objects]. *)
Record loaded O objects l objects' w w' : Prop := {
  loaded_old : objects ⊆ objects';
  loaded_sub : objects' ⊆ O;
  loaded_entries : Forall (entry_ok objects') l;
  loaded_storage : same_names (rw_storage w) (rw_storage w');
  loaded_layer : next_layer w' = next_layer w;
  loaded_issued : issued w objects -> issued w' objects'
}.

Lemma loaded_nil O objects w w' :
  objects ⊆ O -> same_names (rw_storage w) (rw_storage w') -> rw_statics w' = rw_statics w ->
  loaded O objects [] objects w w'.
Proof. intros HO Hs Hst. split; try done; unfold next_layer, issued; by rewrite Hst. Qed.

Lemma loaded_trans O objects1 objects2 objects3 l l' w1 w2 w3 :
  loaded O objects1 l objects2 w1 w2 -> loaded O objects2 l' objects3 w2 w3 ->
  loaded O objects1 (l ++ l') objects3 w1 w3.
Proof.
  intros L1 L2. split.
  - etrans; [apply L1|apply L2].
  - apply L2.
  - apply Forall_app_2; [|apply L2]. eapply entries_ok_mono; [apply L2|apply L1].
  - eapply same_names_trans; [apply L1|apply L2].
  - rewrite (loaded_layer _ _ _ _ _ _ L2). apply L1.
  - intros Hi. by apply L2, L1.
Qed.

Lemma wp_load_record O e objects visible Q R w :
  entry_ok O e -> objects ⊆ O ->
  (forall objects' w', loaded O objects [e] objects' w w' -> rw_storage w' = rw_storage w ->
    Q (objects', <[e.1 := e.2]> visible) w') ->
  wp (Durable.load_record (record_bytes e) objects visible) Q R w.
Proof.
  intros He HO HQ. unfold Durable.load_record.
  rewrite (record_address O), (record_id O), record_content by done.
  pose proof (entry_id _ _ He). assert (saturating_add (block_id e.2) 1 = block_id e.2 + 1) as Hsat.
  { unfold saturating_add. lia. }
  assert (forall objects', objects ⊆ objects' -> objects' ⊆ O -> objects' !! block_id e.2 = Some e.2 ->
    (forall id b, objects' !! id = Some b -> id = block_id e.2 \/ objects !! id = Some b) ->
    wp (_ ← Durable.fetch_max_block (saturating_add (block_id e.2) 1);
        mret (objects', <[e.1 := e.2]> visible)) Q R w) as Hend.
  { intros objects' H1 H2 H3 H4. rewrite Hsat. unfold Durable.fetch_max_block. wp_steps. apply HQ; [|done].
    split; try done.
    - constructor; [|done]. by split; try apply He.
    - intros Hi id b Hb. cbn. destruct (H4 _ _ Hb) as [->|Hb']; [lia|]. apply Hi in Hb'. lia. }
  destruct (objects !! block_id e.2) as [existing|] eqn:Hx.
  - assert (existing = e.2) as -> by (eapply lookup_weaken in Hx; [|done]; rewrite (entry_object _ _ He) in Hx; congruence).
    case_decide as Hb; [done|]. wp_steps. apply Hend; auto.
  - wp_steps. assert (mkBlock (block_id e.2) (block_bytes e.2) = e.2) as -> by (by destruct e.2).
    apply Hend.
    + by apply insert_subseteq.
    + apply insert_subseteq_l; [apply He|done].
    + by rewrite lookup_insert_eq.
    + intros id b [[<- _]|[_ ?]]%lookup_insert_Some; auto.
Qed.

Lemma wp_load_all O l objects visible Q R w :
  Forall (entry_ok O) l -> objects ⊆ O ->
  (forall objects' w', loaded O objects l objects' w w' -> rw_storage w' = rw_storage w ->
    Q (objects', replay l ∪ visible) w') ->
  wp (Durable.load_all (record_bytes <$> l) objects visible) Q R w.
Proof.
  intros Hl. revert objects visible Q w. induction Hl as [|e l He Hl IH]; intros objects visible Q w HO HQ; cbn.
  { wp_steps. rewrite <-(left_id_L ∅ (∪) visible). apply HQ; [|done].
    apply loaded_nil; [done|apply same_names_refl|done]. }
  wp_steps. apply (wp_load_record O); [done|done|]. intros objects1 w1 L1 Hw1. wp_steps.
  apply IH; [apply L1|]. intros objects2 w2 L2 Hw2.
  replace (replay l ∪ <[e.1 := e.2]> visible) with (replay (e :: l) ∪ visible).
  - apply HQ; [|by rewrite Hw2]. by eapply (loaded_trans _ _ _ _ [e]).
  - change (e :: l) with ([e] ++ l). rewrite replay_app, <-(assoc_L (∪)). f_equal.
    unfold replay. cbn. by rewrite <-insert_union_l, (left_id_L ∅ (∪)).
Qed.

Lemma wp_load_records O p i l objects visible Q R w :
  storage_wf (rw_storage w) -> file (rw_storage w) O p i l -> objects ⊆ O ->
  (forall objects' w', loaded O objects l objects' w w' -> Q (objects', replay l ∪ visible) w') ->
  (forall e w', same_names (rw_storage w) (rw_storage w') -> next_layer w' = next_layer w ->
    sto_sched (rw_storage w) <> [] -> R e w') ->
  wp (Durable.load_records p objects visible) Q R w.
Proof.
  intros Hwf (Hp & Hd & Hl) HO HQ HR. unfold Durable.load_records. wp_steps. unfold Durable.sto. wp_steps.
  apply wp_read_path; [| |done].
  - intros j st' Hs Hj Hlt. assert (j = i) as -> by congruence.
    assert (inode_bytes (rw_storage w) i = encode l) as -> by (unfold inode_bytes; by rewrite Hd).
    rewrite (lenN_encode O), N.mul_comm, N.Div0.mod_mul by done. cbv beta iota delta [negb N.eqb]. rewrite (chunks_encode O) by done.
    eapply wp_load_all; [done|done|]. intros objects' w' L Hw'. apply HQ.
    destruct L. split; try done. by rewrite Hw'.
  - intros e st' Hs Hcause. apply HR; [done|done|].
    intros Hc. destruct Hcause as [Hlen|Hnone]; [rewrite Hc in Hlen; cbn in Hlen; lia|congruence].
Qed.

Lemma file_same st st' O p i l : storage_wf st -> same_names st st' -> file st O p i l -> file st' O p i l.
Proof.
  intros Hwf (G & Hn & _) (Hp & Hd & Hl). split; [by rewrite Hn|]. split; [|done].
  by rewrite (grows_data _ _ _ G) by (set_solver || by eapply Hwf).
Qed.

(** The files of a chain of layers, oldest first. *)
Definition layer_files st O dir (layers : list N) (chain : Chain) : Prop :=
  Forall2 (fun layer f => file st O (numbered dir "layer" layer) f.1 f.2) layers chain.

Lemma wp_load_layers O dir layers chain objects visible Q R w :
  storage_wf (rw_storage w) -> layer_files (rw_storage w) O dir layers chain -> objects ⊆ O ->
  (forall objects' w', loaded O objects (chain_log chain) objects' w w' ->
    Q (objects', replay (chain_log chain) ∪ visible) w') ->
  (forall e w', same_names (rw_storage w) (rw_storage w') -> next_layer w' = next_layer w ->
    sto_sched (rw_storage w) <> [] -> R e w') ->
  wp (Durable.load_layers dir layers objects visible) Q R w.
Proof.
  revert chain objects visible Q R w.
  induction layers as [|layer layers IH]; intros chain objects visible Q R w Hwf Hf HO HQ HR; inversion Hf; subst; cbn.
  { wp_steps. rewrite <-(left_id_L ∅ (∪) visible). apply HQ.
    apply loaded_nil; [done|apply same_names_refl|done]. }
  wp_steps. eapply wp_load_records; [done|done|done| |].
  - intros objects1 w1 L1. wp_steps. pose proof (loaded_storage _ _ _ _ _ _ L1) as Hs1.
    eapply IH.
    + by eapply wf_same_names.
    + eapply Forall2_impl; [eassumption|]. intros ???. by eapply file_same.
    + apply L1.
    + intros objects2 w2 L2. rewrite (assoc_L (∪)), <-replay_app.
      apply HQ. by eapply loaded_trans.
    + intros e w2 Hs2 Hn2 Hc. apply HR; [by eapply same_names_trans|rewrite Hn2; apply L1|].
      intros Hc'. by apply Hc, Hs1.
  - done.
Qed.

End durable_files.
