(* ===== verification/DurableNumbers.v ===== *)
(** * The numbering loops end

    [create_numbered_file] and [link_numbered_file] try one number after the
    other without any bound of their own.  Here a run of such a loop is the
    finite sequence of its rounds, and every call has one: the names in use and
    the choices of the host left to come bound how many rounds it takes. *)

From S2P Require Import Prelude Generations Host Identity Storage DurableCowDisk CowDisk DiskLog DurableFiles.

Section numbering.
Context {A B : Type} (op : Path -> SIO A) (answer : N -> A -> B).
Variables dir prefix : string.
Implicit Types (w : RWorld) (k fuel : nat).

(** One round: the number it took and what the host said to its name. *)
Definition numbered_try : RW (N * result io_error A) :=
  id ← Durable.next_durable_id;
  r ← attempt (Durable.sto (op (numbered dir prefix id)));
  mret (id, r).

(** The loop from [w] takes exactly [k] rounds and then returns. *)
Inductive numbered_run : nat -> RWorld -> RWorld * result io_error B -> Prop :=
  | run_found w w' id a :
      numbered_try w = (w', Ok (id, Ok a)) -> numbered_run 1 w (w', Ok (answer id a))
  | run_failed w w' id e :
      numbered_try w = (w', Ok (id, Err e)) -> error_kind e <> AlreadyExists ->
      numbered_run 1 w (w', Err e)
  | run_again w w1 id e k out :
      numbered_try w = (w1, Ok (id, Err e)) -> error_kind e = AlreadyExists ->
      numbered_run k w1 out -> numbered_run (S k) w out.

(** The loop as the source has it, given rounds. *)
Fixpoint numbered_rounds (fuel : nat) : RW B :=
  match fuel with
  | O => throw (Custom Other "no rounds left")
  | S fuel' =>
      id ← Durable.next_durable_id;
      r ← attempt (Durable.sto (op (numbered dir prefix id)));
      match r with
      | Ok a => mret (answer id a)
      | Err e => if decide (error_kind e = AlreadyExists) then numbered_rounds fuel' else throw e
      end
  end.

(** What the loop relies on: a call that reports a name in use has left the
    names alone, and either the host chose to or the name is there. *)
Definition honest : Prop := forall p (st : Storage),
  match op p st with
  | (_, Ok _) => True
  | (st', Err e) => error_kind e = AlreadyExists ->
      sto_names st' = sto_names st /\ sto_sched st' = tail (sto_sched st) /\
      (sto_sched st = [] -> is_Some (sto_names st !! p))
  end.

Definition counted (w : RWorld) (st : Storage) : RWorld :=
  set_storage st (set_statics (set_next_durable_layer_id (wrapping_add (next_layer w) 1) (rw_statics w)) w).

Lemma numbered_try_eq w :
  let p := numbered dir prefix (next_layer w) in
  numbered_try w = (counted w (op p (rw_storage w)).1, Ok (next_layer w, (op p (rw_storage w)).2)).
Proof.
  unfold numbered_try, Durable.next_durable_id, Durable.sto, attempt, zoom, mbind, M_bind, counted, next_layer.
  cbn. by destruct (op _ _) as [st' [a|e]].
Qed.

Lemma numbered_rounds_S fuel w :
  numbered_rounds (S fuel) w =
  match numbered_try w with
  | (w', Ok (id, Ok a)) => (w', Ok (answer id a))
  | (w', Ok (id, Err e)) => if decide (error_kind e = AlreadyExists) then numbered_rounds fuel w' else (w', Err e)
  | (w', Err e) => (w', Err e)
  end.
Proof.
  cbn [numbered_rounds]. unfold numbered_try, Durable.next_durable_id, Durable.sto, attempt, zoom, mbind, M_bind.
  cbn. destruct (op _ _) as [st' [a|e]]; cbn; [done|]. by case_decide.
Qed.

(** Rounds beyond those a run takes change nothing. *)
Lemma numbered_run_rounds k w out fuel :
  numbered_run k w out -> (k <= fuel)%nat -> numbered_rounds fuel w = out.
Proof.
  intros Hrun. revert fuel. induction Hrun as [?? ?? Ht|???? Ht Hk|?????? Ht Hk _ IH]; intros [|fuel] Hle;
    try lia; rewrite numbered_rounds_S, Ht.
  - done.
  - by case_decide.
  - case_decide; [|done]. apply IH. lia.
Qed.

Context (Hop : honest).

(** One round, from the outside: the loop stops, or it goes on in a world with
    the same names and one choice of the host less. *)
Lemma numbered_round w :
  (exists out, numbered_run 1 w out) \/
  exists st' e, numbered_try w = (counted w st', Ok (next_layer w, Err e)) /\ error_kind e = AlreadyExists /\
    sto_names st' = sto_names (rw_storage w) /\ sto_sched st' = tail (sto_sched (rw_storage w)) /\
    (sto_sched (rw_storage w) = [] ->
       is_Some (sto_names (rw_storage w) !! numbered dir prefix (next_layer w))).
Proof.
  pose proof (numbered_try_eq w) as Ht. pose proof (Hop (numbered dir prefix (next_layer w)) (rw_storage w)) as H.
  cbn in Ht. destruct (op _ _) as [st' [a|e]]; cbn in Ht.
  - left. eexists. by eapply run_found.
  - destruct (decide (error_kind e = AlreadyExists)) as [Hk|Hk].
    + right. exists st', e. split; [done|]. split; [done|]. by apply H.
    + left. eexists. by eapply run_failed.
Qed.

(** On a calm host every round that goes on has met a new name. *)
Lemma calm_numbered_run (names : gmap Path Inode) n fuel : forall j w,
  N.of_nat (size names) <= u64_MAX -> sto_sched (rw_storage w) = [] -> sto_names (rw_storage w) = names ->
  next_layer w = tried n j -> (S (size names) <= fuel + j)%nat ->
  (forall i, (i < j)%nat -> is_Some (names !! numbered dir prefix (tried n i))) ->
  exists k out, numbered_run k w out /\ (k <= fuel)%nat.
Proof.
  induction fuel as [|fuel IH]; intros j w Hroom Hs Hn Hid Hsz Htaken.
  { exfalso. subst names. eapply (tried_pigeonhole (rw_storage w) dir prefix n); [split; [done|lia]|].
    intros i Hi. apply Htaken. lia. }
  destruct (numbered_round w) as [[out Hrun]|(st' & e & Ht & Hk & Hn' & Hs' & Hex)]; [exists 1%nat, out; by split; [|lia]|].
  edestruct (IH (S j) (counted w st')) as (k & out & Hrun & Hle).
  - done.
  - cbn. by rewrite Hs', Hs.
  - cbn. by rewrite Hn'.
  - change (wrapping_add (next_layer w) 1 = tried n (S j)). by rewrite Hid, tried_S.
  - lia.
  - intros i Hi. destruct (decide (i = j)) as [->|]; [|apply Htaken; lia]. rewrite <-Hid, <-Hn. by apply Hex.
  - exists (S k), out. split; [by eapply run_again|lia].
Qed.

(** Every call returns, in no more rounds than [Durable.rounds]. *)
Lemma numbered_terminates w :
  next_layer w <= u64_MAX -> N.of_nat (size (sto_names (rw_storage w))) <= u64_MAX ->
  exists k out, numbered_run k w out /\ (k <= Durable.rounds w)%nat.
Proof.
  unfold Durable.rounds. remember (sto_sched (rw_storage w)) as sched eqn:Hs.
  revert w Hs. induction sched as [|o sched IH]; intros w Hs Hl Hroom.
  - apply (calm_numbered_run (sto_names (rw_storage w)) (next_layer w) _ 0 w); try done.
    + by rewrite tried_0.
    + cbn. lia.
    + lia.
  - destruct (numbered_round w) as [[out Hrun]|(st' & e & Ht & Hk & Hn' & Hs' & _)]; [exists 1%nat, out; by split; [|lia]|].
    rewrite <-Hs in Hs'. destruct (IH (counted w st')) as (k & out & Hrun & Hle).
    + by cbn.
    + apply wrapping_add_le.
    + cbn. by rewrite Hn'.
    + exists (S k), out. split; [by eapply run_again|]. cbn in Hle. rewrite Hn' in Hle. cbn. lia.
Qed.

End numbering.
Arguments numbered_run {A B} op answer dir prefix k w out : rename.

(** The two loops are this loop. *)
Lemma create_numbered_rounds_eq fuel dir prefix :
  Durable.create_numbered_rounds fuel dir prefix = numbered_rounds Sto.open_new pair dir prefix fuel.
Proof. induction fuel as [|fuel IH]; [done|]. cbn. by rewrite IH. Qed.

Lemma link_numbered_rounds_eq fuel dir prefix source :
  Durable.link_numbered_rounds fuel dir prefix source =
  numbered_rounds (Sto.hard_link source) (fun id _ => (id, numbered dir prefix id)) dir prefix fuel.
Proof. induction fuel as [|fuel IH]; [done|]. cbn. by rewrite IH. Qed.

Lemma open_new_honest : honest Sto.open_new.
Proof.
  intros p st. unfold Sto.open_new, Sto.call, mbind, M_bind.
  destruct (sto_sched st) as [|[e|n|] rest] eqn:Hs; cbn; [|by intros ?|..];
    (destruct (decide _); [by intros ?|]); destruct (sto_names st !! p) eqn:Hp; cbn; try done;
    intros _; rewrite ?Hs; split_and!; done || by intros.
Qed.

Lemma hard_link_honest source : honest (Sto.hard_link source).
Proof.
  intros p st. unfold Sto.hard_link, Sto.call, mbind, M_bind.
  destruct (sto_sched st) as [|[e|n|] rest] eqn:Hs; cbn; [|by intros ?|..];
    (destruct (sto_names st !! source); [|by intros ?]); destruct (sto_names st !! p) eqn:Hp; cbn; try done;
    intros _; rewrite ?Hs; split_and!; done || by intros.
Qed.

(** C19. The loops of [create_numbered_file] and [link_numbered_file] end,
    whatever the host answers: from any world whose directory holds at most
    [u64::MAX] names, the unbounded loop makes at most as many rounds as there
    are names and outstanding host choices, plus one, and what it then returns
    is what the definitions return, so their bound on the rounds is never
    reached. *)
Theorem numbering_terminates dir prefix source (w : RWorld) :
  next_layer w <= u64_MAX -> N.of_nat (size (sto_names (rw_storage w))) <= u64_MAX ->
  (exists k, (k <= Durable.rounds w)%nat /\
     numbered_run Sto.open_new pair dir prefix k w (Durable.create_numbered_file dir prefix w)) /\
  (exists k, (k <= Durable.rounds w)%nat /\
     numbered_run (Sto.hard_link source) (fun id _ => (id, numbered dir prefix id)) dir prefix k w
       (Durable.link_numbered_file dir prefix source w)).
Proof.
  intros Hl Hroom. split.
  - destruct (numbered_terminates Sto.open_new pair dir prefix open_new_honest w Hl Hroom) as (k & out & Hrun & Hle).
    exists k. split; [done|]. change (Durable.create_numbered_file dir prefix w) with
      (Durable.create_numbered_rounds (Durable.rounds w) dir prefix w).
    rewrite create_numbered_rounds_eq. by erewrite numbered_run_rounds.
  - destruct (numbered_terminates (Sto.hard_link source) (fun id _ => (id, numbered dir prefix id)) dir prefix
      (hard_link_honest source) w Hl Hroom) as (k & out & Hrun & Hle).
    exists k. split; [done|]. change (Durable.link_numbered_file dir prefix source w) with
      (Durable.link_numbered_rounds (Durable.rounds w) dir prefix source w).
    rewrite link_numbered_rounds_eq. by erewrite numbered_run_rounds.
Qed.

(** A directory in which two names are taken, the host claims a third, and the
    counter wraps around on the way. *)
Module NumberingExample.

Definition crowded : RWorld :=
  mkRWorld (set_next_durable_layer_id u64_MAX initial_statics)
    (mkStorage {[ "d" ]} {[ numbered "d" "overlay" 0 := 0; numbered "d" "overlay" 1 := 1 ]}
       {[ 0 := []; 1 := [] ]} 2 ∅ ∅ [Fault (Custom AlreadyExists "file exists")]).

Lemma numbering_terminates_witness :
  next_layer crowded <= u64_MAX /\
  N.of_nat (size (sto_names (rw_storage crowded))) <= u64_MAX /\
  (Durable.create_numbered_file "d" "overlay" crowded).2 = Ok (2, 2) /\
  exists k, (k <= 4)%nat /\
    numbered_run Sto.open_new pair "d" "overlay" k crowded (Durable.create_numbered_file "d" "overlay" crowded).
Proof.
  assert (next_layer crowded <= u64_MAX) as H1 by (vm_compute; discriminate).
  assert (N.of_nat (size (sto_names (rw_storage crowded))) <= u64_MAX) as H2 by (vm_compute; discriminate).
  split; [exact H1|]. split; [exact H2|]. split; [vm_compute; reflexivity|].
  exact (proj1 (numbering_terminates "d" "overlay" (numbered "d" "overlay" 0) crowded H1 H2)).
Defined.

End NumberingExample.
