(* ===== verification/DurableDisk.v ===== *)
(** * What the files of a durable disk hold

    The representation invariant of [DurableCowDisk]: replaying the layers and
    the overlay gives the blocks the branch sees.  A fork that failed after
    sealing may leave the open overlay among the branch's own layers, any
    number of times; the invariant allows it, because replaying the same log
    again changes nothing.  Every operation is shown to keep the invariant,
    on success and on failure of the host. *)

From S2P Require Import Prelude Generations Host Identity Storage DurableCowDisk CowDisk DiskLog DurableFiles.

Section durable_disk.
Context (dir : string).
Implicit Types (w : RWorld) (st : Storage) (O V : Blocks) (l : Log) (p : Path) (i o : Inode).
Implicit Types (d : DurableCowDisk) (P chain : Chain) (X Y : gset Inode) (cd : CowDisk).

Definition layer_path (layer : N) : Path := numbered dir "layer" layer.
Definition overlay_path (overlay : N) : Path := numbered dir "overlay" overlay.

(** [X] holds the overlays open for writing; a sealed layer is not among them,
    except for the disk's own overlay after a failed fork. *)
Record overlay_rep st O X d P (k : nat) l : Prop := {
  rep_dir : du_dir d = dir;
  rep_layers : layer_files st O dir (du_layers d) (P ++ replicate k (du_overlay d, l));
  rep_overlay : file st O (overlay_path (du_overlay_id d)) (du_overlay d) l;
  rep_sealed f : f ∈ P -> (f.1 ∉ X) /\ f.1 <> du_overlay d
}.

(** The files replay to [V]; a [clean] disk has an empty overlay. *)
Definition dur_ok st O X d V (clean : Prop) : Prop :=
  exists P k l, overlay_rep st O X d P k l /\ V = replay (chain_log P ++ l) /\
    (clean -> l = [] /\ k = 0%nat).

#[global] Instance dur_ok_proper st O X d V : Proper (iff ==> iff) (dur_ok st O X d V).
Proof. intros c c' Hc. unfold dur_ok. by setoid_rewrite Hc. Qed.

(** A published checkpoint: every file it names, and every name, is durable. *)
Definition stored st O p i l : Prop :=
  file st O p i l /\ sto_stable_names st !! p = Some i /\ sto_stable st !! i = sto_data st !! i.

Definition ckpt_ok st O X (s : DurableDiskState) V : Prop :=
  exists chain i l,
    Forall2 (fun layer f => stored st O (layer_path layer) f.1 f.2) (ds_layers s) chain /\
    stored st O (overlay_path (ds_overlay s)) i l /\
    (forall f, f ∈ chain -> f.1 ∉ X) /\ (i ∉ X) /\
    V = replay (chain_log chain ++ l).

(** ** Framing *)

(** [X'] has no old file that [X] does not have. *)
Definition no_older st X X' : Prop := forall i, i ∈ X' -> i ∈ X \/ sto_next st <= i.

Lemma file_grows Y st st' O O' p i l :
  storage_wf st -> grows Y st st' -> O ⊆ O' -> i ∉ Y -> file st O p i l -> file st' O' p i l.
Proof.
  intros Hwf G HO Hi (Hp & Hd & Hl). split; [by eapply grows_name|]. split; [|by eapply entries_ok_mono].
  rewrite (grows_data _ _ _ G); [done|by eapply Hwf|done].
Qed.

Lemma stored_grows Y st st' O O' p i l :
  storage_wf st -> grows Y st st' -> O ⊆ O' -> i ∉ Y -> stored st O p i l -> stored st' O' p i l.
Proof.
  intros Hwf G HO Hi (Hf & Hn & Hs). split; [by eapply file_grows|]. destruct Hf as (Hp & _).
  split; [by apply G|]. apply (grows_stable _ _ _ G); [by eapply Hwf|done|done].
Qed.

Lemma file_inode st O p i l : storage_wf st -> file st O p i l -> i < sto_next st.
Proof. intros Hwf (Hp & _). by eapply Hwf. Qed.

Lemma layer_inode st O layers chain f :
  storage_wf st -> layer_files st O dir layers chain -> f ∈ chain -> f.1 < sto_next st.
Proof.
  intros Hwf Hl [n Hn]%list_elem_of_lookup. eapply Forall2_lookup_r in Hl as (layer & _ & Hf); [|done].
  by eapply file_inode.
Qed.

Lemma layer_files_grows Y st st' O O' layers chain :
  storage_wf st -> grows Y st st' -> O ⊆ O' -> (forall f, f ∈ chain -> f.1 ∉ Y) ->
  layer_files st O dir layers chain -> layer_files st' O' dir layers chain.
Proof.
  intros Hwf G HO Hy Hl. induction Hl as [|layer f layers chain Hf Hl IH]; [constructor|].
  constructor.
  - eapply file_grows; [done|done|done| |done]. apply Hy. by left.
  - apply IH. intros g Hg. apply Hy. by right.
Qed.

Lemma chain_log_app chain chain' : chain_log (chain ++ chain') = chain_log chain ++ chain_log chain'.
Proof. unfold chain_log. by rewrite fmap_app, join_app. Qed.

Lemma replay_twice P k o l : replay (chain_log (P ++ replicate k (o, l)) ++ l) = replay (chain_log P ++ l).
Proof.
  rewrite chain_log_app. induction k as [|k IH]; [by rewrite app_nil_r|].
  cbn [replicate]. change (chain_log ((o, l) :: replicate k (o, l))) with (l ++ chain_log (replicate k (o, l))).
  rewrite !replay_app in IH. rewrite !replay_app. revert IH. generalize (replay (chain_log P)) (replay l)
    (replay (chain_log (replicate k (o, l)))). intros p r q IH.
  apply map_eq. intros a.
  assert ((r ∪ (q ∪ p)) !! a = (r ∪ p) !! a) as Ha by (by rewrite IH).
  rewrite !lookup_union in *. destruct (r !! a), (q !! a), (p !! a); cbn in *; congruence.
Qed.

Lemma rep_grows Y st st' O O' X X' d P k l :
  storage_wf st -> grows Y st st' -> O ⊆ O' -> du_overlay d ∉ Y -> (forall f, f ∈ P -> f.1 ∉ Y) ->
  no_older st X X' -> overlay_rep st O X d P k l -> overlay_rep st' O' X' d P k l.
Proof.
  intros Hwf G HO Ho HP HX [H1 H2 H3 H4]. split.
  - done.
  - eapply layer_files_grows; [done|done|done| |done].
    intros f [Hf|[-> _]%elem_of_replicate]%elem_of_app; [by apply HP|done].
  - by eapply file_grows.
  - intros f Hf. destruct (H4 f Hf) as [Hx Hne]. split; [|done]. intros Hx'.
    destruct (HX _ Hx') as [?|Hge]; [done|].
    assert (f.1 < sto_next st) by (eapply layer_inode; [done|done|apply elem_of_app; by left]). lia.
Qed.

Lemma dur_ok_grows Y st st' O O' X X' d V (c c' : Prop) :
  storage_wf st -> grows Y st st' -> O ⊆ O' -> Y ⊆ X -> du_overlay d ∉ Y -> no_older st X X' ->
  (c' -> c) -> dur_ok st O X d V c -> dur_ok st' O' X' d V c'.
Proof.
  intros Hwf G HO HY Ho HX Hc (P & k & l & Hrep & HV & Hcl). exists P, k, l. split; [|tauto].
  eapply rep_grows; try done. intros f Hf Hy. destruct (rep_sealed _ _ _ _ _ _ _ Hrep f Hf) as [Hx _]. by apply Hx, HY.
Qed.

Lemma ckpt_ok_grows Y st st' O O' X X' s V :
  storage_wf st -> grows Y st st' -> O ⊆ O' -> Y ⊆ X -> no_older st X X' ->
  ckpt_ok st O X s V -> ckpt_ok st' O' X' s V.
Proof.
  intros Hwf G HO HY HX (chain & i & l & Hl & Hov & Hsep & Hi & HV).
  assert (forall layers, Forall2 (fun layer f => stored st O (layer_path layer) f.1 f.2) layers chain ->
    Forall2 (fun layer f => stored st' O' (layer_path layer) f.1 f.2) layers chain) as Hch.
  { clear Hl HV. intros layers Hf. induction Hf as [|layer f layers chain Hs Hf IH]; constructor.
    - eapply stored_grows; [done|done|done| |done]. intros Hy. eapply Hsep; [by left|by apply HY].
    - apply IH. intros g Hg. apply Hsep. by right. }
  exists chain, i, l. split_and!; [by apply Hch|by eapply stored_grows; eauto| | |done].
  - intros f Hf Hx'. destruct (HX _ Hx') as [?|Hge]; [by eapply Hsep|].
    apply list_elem_of_lookup in Hf as [n Hn]. eapply Forall2_lookup_r in Hl as (layer & _ & Hs); [|done].
    destruct Hs as (Hs & _). eapply file_inode in Hs; [|done]. lia.
  - intros Hx'. destruct (HX _ Hx') as [?|Hge]; [done|].
    destruct Hov as (Hs & _). eapply file_inode in Hs; [|done]. lia.
Qed.

(** ** Sealing and opening overlays *)

Definition kept w w' : Prop :=
  grows ∅ (rw_storage w) (rw_storage w') /\ storage_wf (rw_storage w') /\ only_files w w'.

Lemma kept_refl w : storage_wf (rw_storage w) -> kept w w.
Proof. intros. split; [apply grows_refl|]. split; [done|apply only_files_refl]. Qed.

Lemma kept_trans w1 w2 w3 : kept w1 w2 -> kept w2 w3 -> kept w1 w3.
Proof.
  intros (G1 & W1 & O1) (G2 & W2 & O2).
  split; [by eapply grows_trans|]. split; [done|by eapply only_files_trans].
Qed.

Lemma kept_same w st' : storage_wf (rw_storage w) -> same_names (rw_storage w) st' -> kept w (set_storage st' w).
Proof.
  intros Hwf Hs. split; [apply Hs|]. split; [by eapply wf_same_names|apply only_files_storage].
Qed.

Lemma kept_failed C w w' : storage_wf (rw_storage w) -> failed C w w' -> kept w w'.
Proof. intros Hwf (Hs & Ho & _). split; [apply Hs|]. split; [by eapply wf_same_names|done]. Qed.

Lemma kept_created prefix x w w' : storage_wf (rw_storage w) -> created dir prefix x w w' -> kept w w'.
Proof.
  intros Hwf (G & Ho & _ & Hn & Hi & Hx & _ & Hsn). split; [done|]. split; [|done].
  eapply wf_insert; [done|exact Hn| | |done]; lia.
Qed.

Lemma kept_linked prefix source x w w' : storage_wf (rw_storage w) -> linked dir prefix source x w w' -> kept w w'.
Proof.
  intros Hwf (G & Ho & _ & _ & Hx & Hsn & i & Hi & Hn). split; [done|]. split; [|done].
  eapply wf_insert; [done|exact Hn| | |done]; [|lia]. apply Hwf in Hi. lia.
Qed.

(** The overlay [o] may have been replaced by [o']. *)
Definition retires st X o o' X' : Prop :=
  forall i, i ∈ X' -> sto_next st <= i \/ (i ∈ X /\ (i = o -> o' = o)).

Lemma retires_no_older st X o o' X' : retires st X o o' X' -> no_older st X X'.
Proof. intros H i Hi. destruct (H i Hi) as [?|[? _]]; auto. Qed.

Definition add_layer d (layer : N) : DurableCowDisk :=
  mkDurable (du_dir d) (du_layers d ++ [layer]) (du_overlay_id d) (du_overlay d).

Lemma rep_link w w' O X d P k l x :
  storage_wf (rw_storage w) -> overlay_rep (rw_storage w) O X d P k l ->
  linked dir "layer" (overlay_path (du_overlay_id d)) x w w' ->
  overlay_rep (rw_storage w') O X (add_layer d x.1) P (S k) l.
Proof.
  intros Hwf Hrep (G & _ & Hx & Hfree & Hnx & _ & i & Hi & Hn).
  assert (i = du_overlay d) as -> by (destruct (rep_overlay _ _ _ _ _ _ _ Hrep); congruence).
  assert (overlay_rep (rw_storage w') O X d P k l) as [H1 H2 H3 H4].
  { eapply rep_grows; [exact Hwf|exact G|done|..|exact Hrep]; set_solver. }
  split; [done| |done|done]. rewrite replicate_S_end, (assoc_L (++)). apply Forall2_app; [done|].
  constructor; [|constructor]. destruct H3 as (_ & H3). split; [|done].
  by rewrite Hn, <-Hx, lookup_insert_eq.
Qed.

Lemma rep_fresh w w' O X layers chain x :
  storage_wf (rw_storage w) -> layer_files (rw_storage w) O dir layers chain ->
  created dir "overlay" x w w' -> (forall f, f ∈ chain -> f.1 ∉ X) ->
  overlay_rep (rw_storage w') O X (mkDurable dir layers x.1 x.2) chain 0 [].
Proof.
  intros Hwf Hl (G & _ & _ & Hn & Hi & Hx & Hd & _) HX. split; cbn.
  - done.
  - rewrite app_nil_r. eapply layer_files_grows; [exact Hwf|exact G|done|set_solver|done].
  - split; [by rewrite Hn, lookup_insert_eq|done].
  - intros f Hf. split; [by apply HX|]. eapply layer_inode in Hf; [|done|done]. lia.
Qed.

(** The layers of a disk, its overlay sealed among them, are not open. *)
Lemma sealed_chain st O X d P k k' l o' X' :
  storage_wf st -> overlay_rep st O X d P k l -> retires st X (du_overlay d) o' X' ->
  o' <> du_overlay d \/ k' = 0%nat ->
  forall f, f ∈ P ++ replicate k' (du_overlay d, l) -> f.1 ∉ X'.
Proof.
  intros Hwf Hrep Hret Hne f Hf Hx'.
  assert (f.1 < sto_next st) as Hlt.
  { apply elem_of_app in Hf as [Hf|[-> _]%elem_of_replicate].
    - eapply layer_inode; [done|apply Hrep|apply elem_of_app; by left].
    - eapply file_inode; [done|apply Hrep]. }
  destruct (Hret _ Hx') as [Hge|[Hx Ho]]; [lia|].
  apply elem_of_app in Hf as [Hf|[-> Hk]%elem_of_replicate]; [|destruct Hne as [Hne| ->]; [by apply Hne, Ho|lia]].
  by apply (rep_sealed _ _ _ _ _ _ _ Hrep) in Hf as [? _].
Qed.

Lemma replay_sealed P k o l : (0 < k)%nat -> replay (chain_log (P ++ replicate k (o, l)) ++ []) = replay (chain_log P ++ l).
Proof.
  intros Hk. destruct k as [|k]; [lia|]. rewrite replicate_S_end, (assoc_L (++)), chain_log_app, app_nil_r.
  change (chain_log [(o, l)]) with (l ++ []). rewrite app_nil_r. apply replay_twice.
Qed.

(** ** Forking *)

(** A disk whose overlay may have been replaced, still holding [V]. *)
Definition moved w0 O X d0 V (c : Prop) w d : Prop :=
  kept w0 w /\ (du_overlay d = du_overlay d0 \/ sto_next (rw_storage w0) <= du_overlay d) /\
  forall X', retires (rw_storage w0) X (du_overlay d0) (du_overlay d) X' ->
    dur_ok (rw_storage w) O X' d V c.

Lemma moved_same w w' O X d V c :
  storage_wf (rw_storage w) -> kept w w' -> dur_ok (rw_storage w) O X d V c -> moved w O X d V c w' d.
Proof.
  intros Hwf Hk Hd. split; [done|]. split; [by left|]. intros X' HX.
  eapply (dur_ok_grows ∅ _ _ O O X); [exact Hwf|apply Hk|done|set_solver|set_solver| | |exact Hd]; [|done].
  eapply retires_no_older, HX.
Qed.

Lemma moved_keep w0 w w' O X d0 d V c :
  storage_wf (rw_storage w) -> moved w0 O X d0 V c w d -> kept w w' -> moved w0 O X d0 V c w' d.
Proof.
  intros Hwf (Hk0 & Ho & Hd) Hk. split; [by eapply kept_trans|]. split; [done|]. intros X' HX.
  eapply (dur_ok_grows ∅ _ _ O O X'); [exact Hwf|apply Hk|done|set_solver|set_solver| | |by apply Hd]; [|done].
  intros i. by left.
Qed.

Lemma moved_weaken w0 w O X d0 d V (c c' : Prop) :
  (c' -> c) -> moved w0 O X d0 V c w d -> moved w0 O X d0 V c' w d.
Proof.
  intros Hc (Hk & Ho & Hd). split; [done|]. split; [done|]. intros X' HX.
  destruct (Hd X' HX) as (P & k & l & ? & ? & ?). exists P, k, l. tauto.
Qed.

Lemma moved_link w w' O X d V P k l x :
  storage_wf (rw_storage w) -> overlay_rep (rw_storage w) O X d P k l -> replay (chain_log P ++ l) = V ->
  linked dir "layer" (overlay_path (du_overlay_id d)) x w w' ->
  moved w O X d V False w' (add_layer d x.1).
Proof.
  intros Hwf Hrep HV Hlink. split; [by eapply kept_linked|]. split; [by left|]. intros X' HX.
  exists P, (S k), l. split_and!; [|done|done]. eapply rep_link; [exact Hwf| |exact Hlink].
  eapply (rep_grows ∅ _ _ O O X); [done|apply grows_refl|done|set_solver|set_solver| |done].
  by eapply retires_no_older.
Qed.

(** A new overlay opened on the sealed layers. *)
Lemma moved_fresh w0 w w' O X d0 V layers P k k' l x :
  storage_wf (rw_storage w0) -> overlay_rep (rw_storage w0) O X d0 P k l -> kept w0 w ->
  layer_files (rw_storage w) O dir layers (P ++ replicate k' (du_overlay d0, l)) ->
  replay (chain_log (P ++ replicate k' (du_overlay d0, l)) ++ []) = V ->
  created dir "overlay" x w w' -> moved w0 O X d0 V True w' (mkDurable dir layers x.1 x.2).
Proof.
  intros Hwf0 Hrep Hk Hl HV Hc. pose proof Hk as (G & Hwf & _).
  assert (sto_next (rw_storage w0) <= x.2) as Hx.
  { destruct Hc as (_ & _ & _ & _ & -> & _). apply G. }
  split; [eapply kept_trans; [exact Hk|by eapply kept_created]|]. split; [by right|]. intros X' HX.
  exists (P ++ replicate k' (du_overlay d0, l)), 0%nat, []. split_and!; [|done|done].
  eapply rep_fresh; [done|done|done|]. eapply sealed_chain; [exact Hwf0|done|done|]. left. cbn.
  destruct Hrep as [_ _ Ho _]. eapply file_inode in Ho; [|done]. lia.
Qed.

Definition forked w0 O X d0 V child w d : Prop :=
  moved w0 O X d0 V True w d /\
  sto_next (rw_storage w0) <= du_overlay child /\ du_overlay child <> du_overlay d /\
  forall X', retires (rw_storage w0) X (du_overlay d0) (du_overlay d) X' ->
    dur_ok (rw_storage w) O X' child V True.

Lemma forked_child w0 w w' O X d0 d V layers P k k' l x :
  storage_wf (rw_storage w0) -> overlay_rep (rw_storage w0) O X d0 P k l ->
  moved w0 O X d0 V True w d -> du_overlay d < sto_next (rw_storage w) ->
  layer_files (rw_storage w) O dir layers (P ++ replicate k' (du_overlay d0, l)) ->
  replay (chain_log (P ++ replicate k' (du_overlay d0, l)) ++ []) = V ->
  du_overlay d <> du_overlay d0 \/ k' = 0%nat ->
  created dir "overlay" x w w' -> forked w0 O X d0 V (mkDurable dir layers x.1 x.2) w' d.
Proof.
  intros Hwf0 Hrep Hm Ho Hl HV Hne Hc. pose proof Hm as (Hk & _). pose proof Hk as (G & Hwf & _).
  assert (x.2 = sto_next (rw_storage w)) as Hx by apply Hc. split_and!.
  - eapply moved_keep; [exact Hwf|exact Hm|by eapply kept_created].
  - cbn. rewrite Hx. apply G.
  - cbn. lia.
  - intros X' HX. exists (P ++ replicate k' (du_overlay d0, l)), 0%nat, []. split_and!; [|done|done].
    eapply rep_fresh; [exact Hwf|done|done|]. eapply sealed_chain; [exact Hwf0|exact Hrep|exact HX|done].
Qed.

Lemma wp_durable_fork (seal : bool) O X V w d Q R :
  storage_wf (rw_storage w) -> dur_ok (rw_storage w) O X d V (seal = false) ->
  (forall child w' d', forked w O X d V child w' d' -> Q child (w', d')) ->
  (forall e w' d', moved w O X d V (seal = false) w' d' -> R e (w', d')) ->
  wp (Durable.fork seal) Q R (w, d).
Proof.
  intros Hwf Hd HQ HR. pose proof Hd as (P & k & l & Hrep & HV & Hcl).
  destruct d as [dir' layers oid o]. pose proof (rep_dir _ _ _ _ _ _ _ Hrep) as Hdir. cbn in Hdir. subst dir'.
  unfold Durable.fork, Durable.self. destruct seal; wp_steps; cbn [snd fst du_dir]; apply wp_world.
  - apply wp_link_numbered_file.
    2:{ intros e w1 Hf. by eapply HR, moved_same, Hd; [|eapply kept_failed]. }
    intros [layer path] w1 Hlink. pose proof (moved_link _ _ _ _ _ _ _ _ _ _ Hwf Hrep (eq_sym HV) Hlink) as Hm1.
    pose proof (rep_link _ _ _ _ _ _ _ _ _ Hwf Hrep Hlink) as [_ Hl1 _ _].
    unfold Durable.push_layer, Durable.set_overlay. wp_steps. cbn [snd fst du_dir].
    pose proof (kept_linked _ _ _ _ _ Hwf Hlink) as Hk1. pose proof Hk1 as (_ & Hwf1 & _).
    apply wp_world, wp_create_numbered_file.
    2:{ intros e w2 Hf. pose proof (kept_failed _ _ _ Hwf1 Hf) as Hk2.
        apply HR, (moved_weaken _ _ _ _ _ _ _ False); [done|].
        eapply moved_keep; [exact Hwf1|exact Hm1|exact Hk2]. }
    intros [id i] w2 Hc2. wp_steps. cbn [fst snd du_dir].
    pose proof (kept_created _ _ _ _ Hwf1 Hc2) as Hk2. pose proof Hk2 as (G2 & Hwf2 & _).
    pose proof (replay_sealed P (S k) o l ltac:(lia)) as Hsame. rewrite <-HV in Hsame.
    pose proof (moved_fresh _ _ _ _ _ _ _ _ _ _ _ _ _ Hwf Hrep Hk1 Hl1 Hsame Hc2) as Hm2.
    apply wp_world, wp_create_numbered_file.
    2:{ intros e w3 Hf. pose proof (kept_failed _ _ _ Hwf2 Hf) as Hk3.
        apply HR, (moved_weaken _ _ _ _ _ _ _ True); [done|].
        eapply moved_keep; [exact Hwf2|exact Hm2|exact Hk3]. }
    intros [idc ic] w3 Hc3. wp_steps. apply HQ.
    eapply (layer_files_grows ∅ _ _ O O) in Hl1; [|exact Hwf1|exact G2|done|set_solver].
    refine (forked_child _ _ _ _ _ _ _ _ _ _ _ _ _ (idc, ic) Hwf Hrep Hm2 _ Hl1 Hsame _ Hc3).
    + destruct Hc2 as (_ & _ & _ & _ & -> & -> & _). cbn. lia.
    + left. destruct Hc2 as (_ & _ & _ & _ & -> & _). cbn.
      pose proof (rep_overlay _ _ _ _ _ _ _ Hrep) as Ho. eapply file_inode in Ho; [|done]. cbn in Ho.
      destruct Hk1 as ([_ _ Hx _ _ _ _] & _). lia.
  - destruct (Hcl eq_refl) as [-> ->]. apply wp_create_numbered_file.
    2:{ intros e w1 Hf. by eapply HR, moved_same, Hd; [|eapply kept_failed]. }
    intros [idc ic] w1 Hc. wp_steps. apply HQ. pose proof Hrep as [_ Hl Ho _].
    refine (forked_child _ _ _ _ _ _ _ _ _ _ 0 0 _ (idc, ic) Hwf Hrep _ _ Hl _ (or_intror eq_refl) Hc).
    + apply moved_same; [done|by apply kept_refl|]. by exists P, 0%nat, [].
    + eapply file_inode; [exact Hwf|exact Ho].
    + rewrite HV. cbn. by rewrite !app_nil_r.
Qed.

(** ** Checkpoints *)

Definition synced st i : Prop := sto_stable st !! i = sto_data st !! i.

Lemma synced_grows st st' i : i < sto_next st -> grows ∅ st st' -> synced st i -> synced st' i.
Proof. intros Hi G Hs. apply (grows_stable _ _ _ G); [done|set_solver|done]. Qed.

Lemma wp_sync_file O p i l Q R w :
  storage_wf (rw_storage w) -> file (rw_storage w) O p i l ->
  (forall st', same_names (rw_storage w) st' -> synced st' i -> Q tt (set_storage st' w)) ->
  (forall e st', same_names (rw_storage w) st' -> sto_sched (rw_storage w) <> [] -> R e (set_storage st' w)) ->
  wp (Durable.sync_file p) Q R w.
Proof.
  intros Hwf Hf HQ HR. unfold Durable.sync_file, Durable.sto. wp_steps. apply wp_open_path.
  - intros j st1 Hs1 Hj. assert (j = i) as -> by (destruct Hf; congruence). wp_steps.
    apply wp_sync_data.
    + intros st2 Hs2 Hd2 Hst. apply (HQ st2); [by eapply same_names_trans|].
      unfold synced. by rewrite Hst, Hd2.
    + intros e st2 Hs2 Hlen. apply (HR e st2); [by eapply same_names_trans|].
      intros Hc. apply Hs1 in Hc. cbn in Hlen. rewrite Hc in Hlen. cbn in Hlen. lia.
  - intros e st1 Hs1 Hcause. apply (HR e st1); [done|]. intros Hc. rewrite Hc in Hcause.
    destruct Hf as (Hp & _). destruct Hcause as [?|?]; [cbn in *; lia|congruence].
Qed.

Lemma wp_sync_layers {A} (x : A) O layers chain Q R w :
  storage_wf (rw_storage w) -> layer_files (rw_storage w) O dir layers chain ->
  (forall st', same_names (rw_storage w) st' -> Forall (fun f => synced st' f.1) chain ->
    Q tt (set_storage st' w, x)) ->
  (forall e st', same_names (rw_storage w) st' -> R e (set_storage st' w, x)) ->
  wp (for_each (fun layer => world (Durable.sync_file (numbered dir "layer" layer))) layers) Q R (w, x).
Proof.
  revert chain w Q R. induction layers as [|layer layers IH]; intros chain w Q R Hwf Hl HQ HR; cbn.
  { inversion Hl; subst. wp_steps. replace w with (set_storage (rw_storage w) w) by (by destruct w).
    apply HQ; [apply same_names_refl|constructor]. }
  inversion Hl as [|? f ? chain' Hf Hl']; subst. wp_steps. apply wp_world.
  eapply wp_sync_file; [done|exact Hf| |by intros; apply HR].
  intros st1 Hs1 Hsync. apply (IH chain').
  - by eapply wf_same_names.
  - eapply layer_files_grows; [exact Hwf|apply Hs1|done|set_solver|done].
  - intros st2 Hs2 Hall. apply (HQ st2); [by eapply same_names_trans|]. constructor; [|done].
    eapply synced_grows; [|apply Hs2|exact Hsync]. destruct Hs1 as (_ & _ & Hx & _). cbn. rewrite Hx.
    by eapply file_inode.
  - intros e st2 Hs2. apply (HR e st2). by eapply same_names_trans.
Qed.

(** The new layer of a sealed overlay, and the chain it gives. *)
Lemma wp_checkpoint_seal (seal : bool) O X V w d P k l Q R :
  storage_wf (rw_storage w) -> overlay_rep (rw_storage w) O X d P k l -> V = replay (chain_log P ++ l) ->
  (seal = false -> l = [] /\ k = 0%nat) ->
  (forall layer w' k', kept w w' ->
    layer_files (rw_storage w') O dir (du_layers d ++ option_list layer) (P ++ replicate k' (du_overlay d, l)) ->
    replay (chain_log (P ++ replicate k' (du_overlay d, l)) ++ []) = V -> Q layer (w', d)) ->
  (forall e w', kept w w' -> R e (w', d)) ->
  wp (if seal then
      '(layer_id, layer_path) ← world (Durable.link_numbered_file dir "layer" (overlay_path (du_overlay_id d)));
      _ ← world (Durable.sync_file layer_path);
      mret (Some layer_id)
    else mret None) Q R (w, d).
Proof.
  intros Hwf Hrep HV Hcl HQ HR. destruct seal; wp_steps.
  - apply wp_world, wp_link_numbered_file.
    2:{ intros e w1 Hf. by eapply HR, kept_failed. }
    intros [layer path] w1 Hlink. pose proof (rep_link _ _ _ _ _ _ _ _ _ Hwf Hrep Hlink) as [_ Hl1 _ _].
    pose proof (kept_linked _ _ _ _ _ Hwf Hlink) as Hk1. pose proof Hk1 as (_ & Hwf1 & _).
    destruct Hlink as (_ & _ & Hp & _). cbn in Hp. subst path. wp_steps.
    pose proof Hl1 as Hl2. apply Forall2_app_inv_l in Hl2 as (? & ? & _ & Hlast & _).
    inversion Hlast as [|? f ? ? Hf _]; subst. apply wp_world. eapply wp_sync_file; [done|exact Hf| |].
    + intros st2 Hs2 _. wp_steps. pose proof (kept_same _ _ Hwf1 Hs2) as Hk2.
      eapply (HQ _ _ (S k)); [by eapply kept_trans| |by apply replay_sealed; lia].
      eapply layer_files_grows; [exact Hwf1|apply Hs2|done|set_solver|exact Hl1].
    + intros e st2 Hs2 _. apply HR. eapply kept_trans; [exact Hk1|by apply kept_same].
  - destruct (Hcl eq_refl) as [-> ->]. apply (HQ None w 0%nat); [by apply kept_refl| |].
    + cbn. rewrite app_nil_r. apply Hrep.
    + rewrite HV. cbn. by rewrite !app_nil_r.
Qed.

Definition published w0 O X d0 V s w d : Prop :=
  moved w0 O X d0 V True w d /\ sto_next (rw_storage w0) <= du_overlay d /\
  forall X', retires (rw_storage w0) X (du_overlay d0) (du_overlay d) X' ->
    ckpt_ok (rw_storage w) O X' s V.

(** Synchronised files become a checkpoint once the directory is. *)
Lemma ckpt_intro w0 w O X d0 V P k l X' o' size :
  storage_wf (rw_storage w0) -> overlay_rep (rw_storage w0) O X d0 P k l -> V = replay (chain_log P ++ l) ->
  grows ∅ (rw_storage w0) (rw_storage w) ->
  Forall (fun f => synced (rw_storage w) f.1) (P ++ replicate k (du_overlay d0, l)) ->
  synced (rw_storage w) (du_overlay d0) ->
  (forall p i, sto_names (rw_storage w) !! p = Some i -> p.1 = dir ->
    sto_stable_names (rw_storage w) !! p = Some i) ->
  retires (rw_storage w0) X (du_overlay d0) o' X' -> o' <> du_overlay d0 ->
  ckpt_ok (rw_storage w) O X' (mkDiskState size (du_layers d0) (du_overlay_id d0)) V.
Proof.
  intros Hwf Hrep HV G Hsync Ho Hnames HX Hne.
  assert (forall p i l', file (rw_storage w0) O p i l' -> synced (rw_storage w) i -> p.1 = dir ->
    stored (rw_storage w) O p i l') as Hst.
  { intros p i l' Hf Hs Hp. assert (file (rw_storage w) O p i l') as Hf'.
    { eapply file_grows; [exact Hwf|exact G|done|set_solver|done]. }
    split; [done|]. split; [|done]. apply Hnames; [apply Hf'|done]. }
  exists (P ++ replicate k (du_overlay d0, l)), (du_overlay d0), l. cbn. split_and!.
  - pose proof (rep_layers _ _ _ _ _ _ _ Hrep) as Hl. revert Hsync Hl. generalize (P ++ replicate k (du_overlay d0, l)).
    intros chain Hsync Hl. induction Hl as [|layer f layers chain Hf Hl IH]; [constructor|].
    apply Forall_cons in Hsync as [Hs Hsync]. constructor; [by apply Hst|by apply IH].
  - apply Hst; [apply Hrep|done|done].
  - eapply sealed_chain; [exact Hwf|exact Hrep|exact HX|by left].
  - by apply (sealed_chain _ _ _ _ _ _ 1 _ _ _ Hwf Hrep HX (or_introl Hne) (du_overlay d0, l)), elem_of_app; right; left.
  - by rewrite HV, replay_twice.
Qed.

Lemma synced_layers st st' O layers chain :
  storage_wf st -> layer_files st O dir layers chain -> grows ∅ st st' ->
  Forall (fun f => synced st f.1) chain -> Forall (fun f => synced st' f.1) chain.
Proof.
  intros Hwf Hl G Hs. apply Forall_forall. intros f Hf. rewrite Forall_forall in Hs.
  eapply synced_grows; [|exact G|by apply Hs]. by eapply layer_inode.
Qed.

(** Synchronising every layer and the overlay. *)
Lemma wp_sync_files {A} O X P k l w d (K : Durable.DD A) Q R :
  storage_wf (rw_storage w) -> overlay_rep (rw_storage w) O X d P k l ->
  (forall st', same_names (rw_storage w) st' -> overlay_rep st' O X d P k l ->
    Forall (fun f => synced st' f.1) (P ++ replicate k (du_overlay d, l)) -> synced st' (du_overlay d) ->
    wp K Q R (set_storage st' w, d)) ->
  (forall e st', same_names (rw_storage w) st' -> R e (set_storage st' w, d)) ->
  wp (_ ← for_each (fun layer => world (Durable.sync_file (numbered dir "layer" layer))) (du_layers d);
      _ ← world (Durable.sto (Sto.sync_data (du_overlay d))); K) Q R (w, d).
Proof.
  intros Hwf Hrep HK HR. wp_steps. eapply wp_sync_layers; [done|apply Hrep| |by intros; apply HR].
  intros st1 Hs1 Hsync1. wp_steps. apply wp_world. unfold Durable.sto. wp_steps. cbn.
  pose proof (wf_same_names _ _ Hs1 Hwf) as Hwf1.
  assert (forall st', same_names (rw_storage w) st' -> overlay_rep st' O X d P k l) as Hframe.
  { intros st' Hs'. eapply (rep_grows ∅ _ _ O O X);
      [exact Hwf|apply Hs'|done|set_solver|set_solver| |exact Hrep]. intros j. by left. }
  pose proof (Hframe _ Hs1) as Hrep1. apply wp_sync_data.
  - intros st2 Hs2 Hd2 Hst2. pose proof (same_names_trans _ _ _ Hs1 Hs2) as Hs12.
    apply (HK st2); [done|by apply Hframe| |unfold synced; by rewrite Hst2, Hd2].
    eapply synced_layers; [exact Hwf1|apply Hrep1|apply Hs2|done].
  - intros e st2 Hs2 _. apply (HR e st2). by eapply same_names_trans.
Qed.

Lemma published_intro w0 w1 w2 w3 w4 O X d V P k k' l layers x size :
  storage_wf (rw_storage w0) -> overlay_rep (rw_storage w0) O X d P k l -> V = replay (chain_log P ++ l) ->
  kept w0 w1 -> overlay_rep (rw_storage w1) O X d P k l ->
  Forall (fun f => synced (rw_storage w1) f.1) (P ++ replicate k (du_overlay d, l)) ->
  synced (rw_storage w1) (du_overlay d) ->
  kept w1 w2 -> layer_files (rw_storage w2) O dir layers (P ++ replicate k' (du_overlay d, l)) ->
  replay (chain_log (P ++ replicate k' (du_overlay d, l)) ++ []) = V ->
  created dir "overlay" x w2 w3 -> kept w3 w4 ->
  sto_names (rw_storage w4) = sto_names (rw_storage w3) ->
  (forall p i, sto_names (rw_storage w3) !! p = Some i -> p.1 = dir ->
    sto_stable_names (rw_storage w4) !! p = Some i) ->
  published w0 O X d V (mkDiskState size (du_layers d) (du_overlay_id d)) w4 (mkDurable dir layers x.1 x.2).
Proof.
  intros Hwf0 Hrep HV Hk1 Hrep1 Hsync Ho Hk2 Hl2 Hsame Hc Hk4 Hn4 Hdirs.
  pose proof (kept_trans _ _ _ Hk1 Hk2) as Hk02. pose proof Hk1 as (_ & Hwf1 & _). pose proof Hk02 as (G02 & Hwf2 & _).
  pose proof (kept_created _ _ _ _ Hwf2 Hc) as Hk3. pose proof Hk3 as (_ & Hwf3 & _).
  pose proof (kept_trans _ _ _ Hk2 (kept_trans _ _ _ Hk3 Hk4)) as (G14 & _).
  assert (sto_next (rw_storage w0) <= x.2) as Hx.
  { destruct Hc as (_ & _ & _ & _ & -> & _). apply G02. }
  pose proof (rep_overlay _ _ _ _ _ _ _ Hrep) as Hof. eapply file_inode in Hof; [|done].
  split_and!.
  - eapply moved_keep; [exact Hwf3|by eapply moved_fresh|done].
  - done.
  - intros X' HX. eapply (ckpt_intro w0); [done|done|done| | | | |done|cbn; lia].
    + eapply grows_trans; [apply Hk1|exact G14].
    + eapply synced_layers; [exact Hwf1|apply Hrep1|exact G14|done].
    + eapply synced_grows; [|exact G14|done]. eapply file_inode; [exact Hwf1|apply Hrep1].
    + intros p i Hp. apply Hdirs. by rewrite <-Hn4.
Qed.

Lemma wp_checkpoint (seal : bool) size O X V w d Q R :
  storage_wf (rw_storage w) -> dur_ok (rw_storage w) O X d V (seal = false) ->
  (forall layers overlay w' d', published w O X d V (mkDiskState size layers overlay) w' d' ->
    Q (mkDiskState size layers overlay) (w', d')) ->
  (forall e w', kept w w' -> R e (w', d)) ->
  wp (Durable.checkpoint size seal) Q R (w, d).
Proof.
  intros Hwf (P & k & l & Hrep & HV & Hcl) HQ HR.
  pose proof (rep_dir _ _ _ _ _ _ _ Hrep) as Hdir. unfold Durable.checkpoint, Durable.self.
  rewrite wp_bind, wp_gets. cbn [snd]. rewrite Hdir. eapply wp_sync_files; [done|done| |].
  2:{ intros e st1 Hs1. by apply HR, kept_same. }
  intros st1 Hs1 Hrep1 Hsync1 Ho1. pose proof (kept_same _ _ Hwf Hs1) as Hk1. pose proof Hk1 as (_ & Hwf1 & _).
  rewrite wp_bind. eapply wp_checkpoint_seal; [exact Hwf1|exact Hrep1|exact HV|done| |].
  2:{ intros e w2 Hk2. apply HR. by eapply kept_trans. }
  intros layer w2 k' Hk2 Hl2 Hsame. pose proof Hk2 as (G2 & Hwf2 & _). pose proof (kept_trans _ _ _ Hk1 Hk2) as Hk02.
  wp_steps. apply wp_world, wp_create_numbered_file.
  2:{ intros e w3 Hf. apply HR. eapply kept_trans; [exact Hk02|by eapply kept_failed]. }
  intros [id i] w3 Hc. wp_steps. pose proof (kept_created _ _ _ _ Hwf2 Hc) as Hk3. pose proof Hk3 as (G3 & Hwf3 & _).
  pose proof (kept_trans _ _ _ Hk02 Hk3) as Hk03. apply wp_world. unfold Durable.sto. wp_steps.
  apply wp_sync_directory; [done| |].
  2:{ intros e st4 Hs4 _. apply HR. eapply kept_trans; [exact Hk03|by apply kept_same]. }
  intros st4 G4 Hn4 Hx4 Hwf4 Hdirs. 
  assert (kept w3 (set_storage st4 w3)) as Hk4 by (split; [done|split; [done|apply only_files_storage]]).
  assert (published w O X d V (mkDiskState size (du_layers d) (du_overlay_id d)) (set_storage st4 w3)
    (mkDurable dir (du_layers d ++ option_list layer) id i)) as Hpub.
  { refine (published_intro w (set_storage st1 w) w2 w3 _ _ _ _ _ _ _ _ _ _ (id, i) _
      Hwf Hrep HV Hk1 Hrep1 Hsync1 Ho1 Hk2 Hl2 Hsame Hc Hk4 Hn4 Hdirs). }
  unfold Durable.push_layer, Durable.set_overlay.
  destruct layer as [layer|]; wp_steps; cbn [option_list du_dir du_layers] in *; rewrite ?app_nil_r in Hpub;
    rewrite Hdir; by apply HQ.
Qed.

End durable_disk.
