(* ===== verification/DurableOps.v ===== *)
(** * Operations of a durable copy-on-write disk

    The operations of [CowDisk] on a durable disk, against the representation
    of [DurableDisk]: a write appends, a fork seals, a checkpoint publishes, a
    restore loads what was published. *)

From S2P Require Import Prelude Generations Host Identity Storage DurableCowDisk CowDisk DiskLog DurableFiles DurableDisk.

Lemma lookup_visible_blocks cd a : Disk.visible_blocks cd !! a = Disk.visible_block cd a.
Proof.
  unfold Disk.visible_blocks, Disk.visible_block, Disk.gen_visible_blocks, Disk.gen_block.
  rewrite gen_extend_union, (right_id_L ∅ (∪)), extend_union, lookup_union, lookup_gen_union.
  by destruct (cd_writes cd !! a); [rewrite union_Some_l|rewrite (left_id_L None (∪))].
Qed.

Lemma visible_seal cd : Disk.visible_blocks (Disk.seal_writes cd) = Disk.visible_blocks cd.
Proof.
  unfold Disk.visible_blocks, Disk.gen_visible_blocks, Disk.seal_writes. cbn.
  by rewrite !extend_union, (left_id_L ∅ (∪)).
Qed.

Lemma visible_clean size g d d' w : Disk.visible_blocks (mkDisk size g w d) = Disk.visible_blocks (mkDisk size g w d').
Proof. done. Qed.

Lemma visible_write size g w d a b :
  Disk.visible_blocks (mkDisk size g (<[a := b]> w) d) = <[a := b]> (Disk.visible_blocks (mkDisk size g w d)).
Proof. unfold Disk.visible_blocks. cbn. by rewrite !extend_union, insert_union_l. Qed.

Lemma wp_on_durable {A} d (m : Durable.DD A) (Q : A -> RWorld * CowDisk -> Prop) R w cd :
  let put d' := mkDisk (cd_size cd) (cd_base cd) (cd_writes cd) (Some d') in
  wp m (fun a s => Q a (s.1, put s.2)) (fun e s => R e (s.1, put s.2)) (w, d) ->
  wp (Disk.on_durable d m) Q R (w, cd).
Proof. unfold wp, Disk.on_durable. by destruct (m (w, d)) as [[w' d'] [a|e]]. Qed.

Lemma wp_next_block Q R w cd :
  next_block_id (rw_statics w) < u64_MAX ->
  Q (next_block_id (rw_statics w))
    (set_statics (set_next_block_id (next_block_id (rw_statics w) + 1) (rw_statics w)) w, cd) ->
  wp Disk.next_block Q R (w, cd).
Proof. intros Hid HQ. unfold wp, Disk.next_block. by rewrite wrapping_add_small by lia. Qed.

Section durable_ops.
Context (dir : string).
Implicit Types (w : RWorld) (st : Storage) (O V : Blocks) (l : Log) (o : Inode).
Implicit Types (d : DurableCowDisk) (P : Chain) (X : gset Inode) (cd : CowDisk).

Definition disk_ok st O X cd : Prop :=
  exists d, cd_durable cd = Some d /\
    dur_ok dir st O X d (Disk.visible_blocks cd) (cd_writes cd = ∅).

Definition overlay_of cd : Inode := from_option du_overlay 0 (cd_durable cd).

Lemma rep_entries st O X d P k l : overlay_rep dir st O X d P k l -> Forall (entry_ok O) (chain_log P ++ l).
Proof.
  intros [_ Hl (_ & _ & Ho) _]. apply Forall_app_2; [|done].
  apply Forall2_app_inv_r in Hl as (layers & ? & Hl & _ & _). unfold chain_log.
  induction Hl as [|layer f layers' chain (_ & _ & Hf) Hl IH]; [constructor|]. cbn. by apply Forall_app_2.
Qed.

(** Every visible block is a full block. *)
Lemma disk_ok_full st O X cd a b :
  disk_ok st O X cd -> Disk.visible_block cd a = Some b -> length (block_bytes b) = block_nat.
Proof.
  intros (d & _ & P & k & l & Hrep & HV & _) Hb.
  rewrite <-lookup_visible_blocks, HV in Hb. apply replay_lookup in Hb.
  apply rep_entries in Hrep. rewrite Forall_forall in Hrep. by apply Hrep in Hb as [_ _ Hlen _].
Qed.

Lemma length_stored_bytes st O X cd a : disk_ok st O X cd -> length (Disk.stored_bytes cd a) = block_nat.
Proof.
  intros Hok. unfold Disk.stored_bytes. destruct (Disk.visible_block cd a) as [b|] eqn:Hb.
  - by eapply disk_ok_full.
  - apply length_replicate.
Qed.

(** ** Writing *)

Lemma wf_keep st st' : storage_wf st -> sto_names st' = sto_names st -> sto_next st' = sto_next st ->
  sto_stable_names st' = sto_stable_names st -> storage_wf st'.
Proof. intros [H1 H2] Hn Hx Hsn. split; intros p i; rewrite ?Hn, ?Hsn, ?Hx; eauto. Qed.

Lemma wp_append a b c w d Q R :
  storage_wf (rw_storage w) -> sto_data (rw_storage w) !! du_overlay d = Some c ->
  (forall st', grows {[ du_overlay d ]} (rw_storage w) st' -> storage_wf st' ->
    sto_names st' = sto_names (rw_storage w) ->
    sto_data st' !! du_overlay d = Some (c ++ record_bytes (a, b)) -> Q tt (set_storage st' w, d)) ->
  (forall e st', grows {[ du_overlay d ]} (rw_storage w) st' -> storage_wf st' -> R e (set_storage st' w, d)) ->
  wp (Durable.append a b) Q R (w, d).
Proof.
  intros Hwf Hc HQ HR. unfold Durable.append, Durable.self. wp_steps. cbn [snd].
  apply wp_world. unfold Durable.sto. wp_steps. apply (wp_write_all _ _ c); [done| |].
  2:{ intros e st1 part G1 Hn1 Hx1 Hsn1 Hd1 _. apply (HR e st1); [done|by eapply wf_keep]. }
  intros st1 G1 Hn1 Hx1 Hsn1 Hd1. wp_steps. apply wp_world. wp_steps. eapply wp_write_all; [exact Hd1| |].
  2:{ intros e st2 part G2 Hn2 Hx2 Hsn2 Hd2 _. cbn in *. apply (HR e st2); [by eapply grows_trans|].
      by eapply wf_keep; [exact Hwf|congruence..]. }
  intros st2 G2 Hn2 Hx2 Hsn2 Hd2. cbn in *. wp_steps. apply wp_world. wp_steps. eapply wp_write_all; [exact Hd2| |].
  2:{ intros e st3 part G3 Hn3 Hx3 Hsn3 Hd3 _. cbn in *.
      apply (HR e st3); [eapply grows_trans; [by eapply grows_trans|done]|].
      by eapply wf_keep; [exact Hwf|congruence..]. }
  intros st3 G3 Hn3 Hx3 Hsn3 Hd3. cbn in *. apply (HQ st3).
  - eapply grows_trans; [by eapply grows_trans|done].
  - by eapply wf_keep; [exact Hwf|congruence..].
  - congruence.
  - rewrite Hd3. unfold record_bytes. cbn. by rewrite <-!app_assoc.
Qed.

Lemma rep_append st st' O O' X d P k l e :
  storage_wf st -> overlay_rep dir st O X d P k l -> O ⊆ O' -> entry_ok O' e ->
  grows {[ du_overlay d ]} st st' -> sto_data st' !! du_overlay d = Some (encode l ++ record_bytes e) ->
  overlay_rep dir st' O' X d P k (l ++ [e]).
Proof.
  intros Hwf [H1 H2 H3 H4] HO He G Hd.
  assert (forall p, file st O p (du_overlay d) l -> file st' O' p (du_overlay d) (l ++ [e])) as Hown.
  { intros p (Hp & _ & Hl). split; [by eapply grows_name|]. split.
    - rewrite Hd, encode_app. f_equal. f_equal. unfold encode. cbn. by rewrite app_nil_r.
    - apply Forall_app_2; [by eapply entries_ok_mono|by constructor]. }
  split; [done| |by apply Hown|done].
  apply Forall2_app_inv_r in H2 as (layers1 & layers2 & Hl1 & Hl2 & Heq). rewrite Heq. apply Forall2_app.
  - eapply layer_files_grows; [exact Hwf|exact G|done| |exact Hl1]. intros f Hf. apply H4 in Hf. set_solver.
  - clear Heq H4. revert layers2 Hl2. induction k as [|k IH]; intros layers2 Hl2; inversion Hl2; subst; cbn; constructor.
    + by apply Hown.
    + by apply IH.
Qed.

(** What writing leaves: the disk's own overlay may have grown. *)
Record written X cd O w cd' O' w' : Prop := {
  written_grows : grows {[ overlay_of cd ]} (rw_storage w) (rw_storage w');
  written_wf : storage_wf (rw_storage w');
  written_objects : O ⊆ O';
  written_issued : issued w' O';
  written_ok : disk_ok (rw_storage w') O' X cd';
  written_overlay : overlay_of cd' = overlay_of cd;
  written_size : cd_size cd' = cd_size cd
}.

Definition spoiled cd w w' : Prop :=
  grows {[ overlay_of cd ]} (rw_storage w) (rw_storage w') /\ storage_wf (rw_storage w') /\
  next_block_id (rw_statics w) <= next_block_id (rw_statics w').

Lemma wp_write_chunk a chunk X O w cd Q R :
  storage_wf (rw_storage w) -> issued w O -> disk_ok (rw_storage w) O X cd ->
  a <= u64_MAX -> (length chunk <= block_nat)%nat -> next_block_id (rw_statics w) < u64_MAX ->
  (forall cd' O' w', written X cd O w cd' O' w' ->
    next_block_id (rw_statics w') = next_block_id (rw_statics w) + 1 -> Q tt (w', cd')) ->
  (forall e w' cd', spoiled cd w w' -> R e (w', cd')) ->
  wp (Disk.write_chunk a chunk) Q R (w, cd).
Proof.
  intros Hwf Hiss Hok Ha Hchunk Hid HQ HR. pose proof (length_stored_bytes _ _ _ _ a Hok) as Hlen.
  destruct Hok as (d & Hd & P & k & l & Hrep & HV & Hcl).
  unfold Disk.write_chunk. wp_steps. cbn [snd]. apply wp_next_block; [done|].
  set (id := next_block_id (rw_statics w)) in *.
  set (b := mkBlock id (chunk ++ drop (length chunk) (Disk.stored_bytes cd a))).
  wp_steps. cbn [snd cd_durable]. rewrite Hd. wp_steps.
  apply wp_on_durable. set (w1 := set_statics _ w).
  assert (O !! id = None) as Hfresh.
  { apply eq_None_not_Some. intros [b' Hb']. apply Hiss in Hb'. unfold id in Hb'. lia. }
  assert (entry_ok (<[id := b]> O) (a, b)) as He.
  { split; cbn; [done|done| |by rewrite lookup_insert_eq]. rewrite length_app, length_drop. lia. }
  assert (overlay_of cd = du_overlay d) as Ho by (unfold overlay_of; by rewrite Hd).
  eapply wp_append; [done|apply Hrep| |].
  - intros st' G Hwf' Hn Hdat. eapply (HQ _ (<[id := b]> O)); [|done]. split; cbn.
    + by rewrite Ho.
    + done.
    + by apply insert_subseteq.
    + intros id' b' [[<- <-]|[_ Hb']]%lookup_insert_Some; cbn; [lia|]. apply Hiss in Hb'. lia.
    + exists d. split; [done|]. exists P, k, (l ++ [(a, b)]). split_and!.
      * eapply rep_append; [exact Hwf|exact Hrep|by apply insert_subseteq|exact He|exact G|exact Hdat].
      * rewrite app_assoc, replay_snoc, <-HV. cbn. by rewrite visible_write; destruct cd.
      * cbn. intros Hemp. by apply insert_non_empty in Hemp.
    + by rewrite Ho.
    + done.
  - intros e st' G Hwf'. apply HR. split; [by rewrite Ho|]. split; [done|]. cbn. lia.
Qed.

Lemma disk_written_trans X cd1 cd2 cd3 O1 O2 O3 w1 w2 w3 :
  written X cd1 O1 w1 cd2 O2 w2 -> written X cd2 O2 w2 cd3 O3 w3 -> written X cd1 O1 w1 cd3 O3 w3.
Proof.
  intros [G1 _ H1 _ _ E1 S1] [G2 W2 H2 I2 K2 E2 S2]. rewrite E1 in G2.
  split; [by eapply grows_trans|done|by etrans|done|done|congruence|congruence].
Qed.

Lemma wp_write_chunks buffer a X O w cd Q R :
  storage_wf (rw_storage w) -> issued w O -> disk_ok (rw_storage w) O X cd ->
  a + lenN buffer <= u64_MAX + 1 -> Forall (fun chunk => (length chunk <= block_nat)%nat) buffer ->
  next_block_id (rw_statics w) + lenN buffer <= u64_MAX ->
  (forall cd' O' w', written X cd O w cd' O' w' -> Q tt (w', cd')) ->
  (forall e w' cd', spoiled cd w w' -> R e (w', cd')) ->
  wp (Disk.write_chunks a buffer) Q R (w, cd).
Proof.
  revert a O w cd Q R. induction buffer as [|chunk buffer IH];
    intros a O w cd Q R Hwf Hiss Hok Ha Hchunks Hid HQ HR; cbn.
  { wp_steps. apply (HQ cd O). split; try done; apply grows_refl. }
  apply Forall_cons in Hchunks as [Hchunk Hchunks].
  assert (lenN (chunk :: buffer) = 1 + lenN buffer) as Hlen by (unfold lenN; cbn; lia).
  wp_steps. eapply (wp_write_chunk _ _ X O); [done|done|done|lia|done|lia| |done].
  intros cd1 O1 w1 W1 Hid1. pose proof W1 as [G1 Wf1 _ I1 K1 E1 _].
  apply (IH _ O1); [done|done|done|lia|done|lia| |].
  - intros cd2 O2 w2 W2. eapply HQ. by eapply disk_written_trans.
  - intros e w2 cd2 (G2 & Wf2 & Hb2). apply HR. split; [|split; [done|lia]].
    rewrite E1 in G2. by eapply grows_trans.
Qed.

Lemma check_range_Ok cd block len :
  Disk.check_range cd block len = Ok tt <->
  block * BLOCK_SIZE + len <= cd_size cd /\ block * BLOCK_SIZE + len <= u64_MAX.
Proof.
  unfold Disk.check_range, checked_mul, checked_add. cmp; split; intros; destruct_and?; try done; lia.
Qed.

Lemma wp_write_at block buffer X O w cd Q R :
  storage_wf (rw_storage w) -> issued w O -> disk_ok (rw_storage w) O X cd ->
  next_block_id (rw_statics w) + lenN (chunks block_nat buffer) <= u64_MAX ->
  (forall cd' O' w', Disk.check_range cd block (lenN buffer) = Ok tt ->
    written X cd O w cd' O' w' -> Q (lenN buffer) (w', cd')) ->
  (forall e, Disk.check_range cd block (lenN buffer) = Err e -> R e (w, cd)) ->
  (forall e w' cd', Disk.check_range cd block (lenN buffer) = Ok tt -> spoiled cd w w' -> R e (w', cd')) ->
  wp (Disk.write_at block buffer) Q R (w, cd).
Proof.
  intros Hwf Hiss Hok Hid HQ HRrange HR. unfold Disk.write_at. wp_steps. cbn [snd].
  destruct (Disk.check_range cd block (lenN buffer)) as [[]|e] eqn:Hrange; [|by apply HRrange].
  apply check_range_Ok in Hrange as [_ Hmax]. wp_steps.
  pose proof (length_chunks block_nat buffer) as Hlen.
  assert (block <= block * BLOCK_SIZE) as Hb by (unfold BLOCK_SIZE; lia).
  apply (wp_write_chunks _ _ X O); [done|done|done| |apply chunks_bounded|done| |].
  - unfold lenN in *. lia.
  - intros cd' O' w' W. wp_steps. by eapply HQ.
  - intros e w' cd' S. by apply HR.
Qed.

(** ** Forks and checkpoints *)

Record disk_moved w0 O X cd0 w cd : Prop := {
  dm_kept : kept w0 w;
  dm_overlay : overlay_of cd = overlay_of cd0 \/ sto_next (rw_storage w0) <= overlay_of cd;
  dm_ok X' : retires (rw_storage w0) X (overlay_of cd0) (overlay_of cd) X' -> disk_ok (rw_storage w) O X' cd;
  dm_visible : Disk.visible_blocks cd = Disk.visible_blocks cd0;
  dm_size : cd_size cd = cd_size cd0
}.

Definition has_writes cd : bool := negb (bool_decide (cd_writes cd = ∅)).

Lemma has_writes_false cd : has_writes cd = false <-> cd_writes cd = ∅.
Proof. unfold has_writes. rewrite negb_false_iff. apply bool_decide_eq_true. Qed.

(** The two ways a disk ends up: its writes sealed, or as they were. *)
Lemma disk_moved_sealed w0 O X cd0 d0 w d :
  cd_durable cd0 = Some d0 ->
  moved dir w0 O X d0 (Disk.visible_blocks cd0) True w d ->
  let cd := mkDisk (cd_size cd0) (cd_base cd0) (cd_writes cd0) (Some d) in
  disk_moved w0 O X cd0 w (if has_writes cd0 then Disk.seal_writes cd else cd).
Proof.
  intros Hd (Hk & Ho & Hm) cd. set (cd' := if has_writes cd0 then _ else _).
  assert (cd_durable cd' = Some d) as Hd' by (unfold cd'; by destruct (has_writes cd0)).
  assert (overlay_of cd' = du_overlay d) as Eo by (unfold overlay_of; by rewrite Hd').
  assert (overlay_of cd0 = du_overlay d0) as Eo0 by (unfold overlay_of; by rewrite Hd).
  assert (Disk.visible_blocks cd' = Disk.visible_blocks cd0) as HV.
  { unfold cd'. destruct (has_writes cd0); [rewrite visible_seal|]; by destruct cd0. }
  split; rewrite ?Eo, ?Eo0; try done.
  - intros X' HX. exists d. split; [done|]. rewrite HV. destruct (Hm X' HX) as (P & k & l & ? & ? & ?).
    exists P, k, l. tauto.
  - unfold cd'. by destruct (has_writes cd0).
Qed.

Lemma disk_moved_unsealed w0 O X cd0 d0 w d :
  cd_durable cd0 = Some d0 ->
  moved dir w0 O X d0 (Disk.visible_blocks cd0) (has_writes cd0 = false) w d ->
  disk_moved w0 O X cd0 w (mkDisk (cd_size cd0) (cd_base cd0) (cd_writes cd0) (Some d)).
Proof.
  intros Hd (Hk & Ho & Hm).
  assert (overlay_of cd0 = du_overlay d0) as Eo0 by (unfold overlay_of; by rewrite Hd).
  split; rewrite ?Eo0; try done.
  intros X' HX. exists d. split; [done|]. destruct (Hm X' HX) as (P & k & l & Hrep & HV & Hcl).
  exists P, k, l. split; [done|]. split; [rewrite <-HV; by destruct cd0|].
  cbn. by rewrite <-has_writes_false.
Qed.

Lemma wp_disk_fork O X w cd Q R :
  storage_wf (rw_storage w) -> disk_ok (rw_storage w) O X cd ->
  (forall child w' cd', disk_moved w O X cd w' cd' ->
    (forall X', retires (rw_storage w) X (overlay_of cd) (overlay_of cd') X' -> disk_ok (rw_storage w') O X' child) ->
    Disk.visible_blocks child = Disk.visible_blocks cd -> cd_size child = cd_size cd ->
    sto_next (rw_storage w) <= overlay_of child -> overlay_of child <> overlay_of cd' -> Q child (w', cd')) ->
  (forall e w' cd', disk_moved w O X cd w' cd' -> R e (w', cd')) ->
  wp Disk.fork Q R (w, cd).
Proof.
  intros Hwf (d & Hd & Hok) HQ HR. unfold Disk.fork. wp_steps. cbn [snd]. rewrite Hd. fold (has_writes cd).
  assert (overlay_of cd = du_overlay d) as Eo by (unfold overlay_of; by rewrite Hd).
  wp_steps. apply wp_on_durable. eapply (wp_durable_fork dir _ O X); [done| | |].
  - by rewrite <-has_writes_false in Hok.
  - intros child w' d' (Hm & Hx & Hne & Hc). cbn [fst snd]. wp_steps.
    pose proof (disk_moved_sealed _ _ _ _ _ _ _ Hd Hm) as HM. cbv zeta in HM. rewrite <-Eo in Hc.
    set (base := cd_base (if has_writes cd then Disk.seal_writes cd else cd)).
    assert (Disk.visible_blocks (mkDisk (cd_size cd) base ∅ (Some child)) = Disk.visible_blocks cd) as HV.
    { rewrite <-visible_seal with cd. unfold base. destruct (has_writes cd) eqn:Hw; [done|].
      apply has_writes_false in Hw. rewrite visible_seal. unfold Disk.visible_blocks. cbn. by rewrite Hw. }
    assert (forall X', retires (rw_storage w) X (overlay_of cd) (du_overlay d') X' ->
      disk_ok (rw_storage w') O X' (mkDisk (cd_size cd) base ∅ (Some child))) as HMc.
    { intros X' HX. exists child. split; [done|]. rewrite HV. destruct (Hc X' HX) as (P & k & l & ? & ? & ?).
      exists P, k, l. tauto. }
    unfold base in *. destruct (has_writes cd); wp_steps; cbn [fst snd cd_size cd_base Disk.seal_writes] in *; by apply HQ.
  - intros e w' d' Hm. cbn [fst snd]. by eapply HR, disk_moved_unsealed.
Qed.

Lemma wp_durable_state O X w cd Q R :
  storage_wf (rw_storage w) -> disk_ok (rw_storage w) O X cd ->
  (forall s w' cd', disk_moved w O X cd w' cd' -> sto_next (rw_storage w) <= overlay_of cd' ->
    ds_size s = cd_size cd ->
    (forall X', retires (rw_storage w) X (overlay_of cd) (overlay_of cd') X' ->
      ckpt_ok dir (rw_storage w') O X' s (Disk.visible_blocks cd)) -> Q s (w', cd')) ->
  (forall e w' cd', disk_moved w O X cd w' cd' -> R e (w', cd')) ->
  wp Disk.durable_state Q R (w, cd).
Proof.
  intros Hwf (d & Hd & Hok) HQ HR. unfold Disk.durable_state. wp_steps. cbn [snd]. rewrite Hd. fold (has_writes cd).
  assert (overlay_of cd = du_overlay d) as Eo by (unfold overlay_of; by rewrite Hd).
  rewrite <-has_writes_false in Hok. wp_steps. apply wp_on_durable. eapply (wp_checkpoint dir _ _ O X); [done|done| |].
  - intros layers overlay w' d' (Hm & Hx & Hck). cbn [fst snd]. wp_steps.
    pose proof (disk_moved_sealed _ _ _ _ _ _ _ Hd Hm) as HM. cbv zeta in HM. rewrite <-Eo in Hck.
    destruct (has_writes cd); wp_steps; by apply HQ.
  - intros e w' Hk. cbn [fst snd]. by eapply HR, disk_moved_unsealed, moved_same.
Qed.

(** ** Disks whose overlay cannot be trusted

    After a failed append the overlay may end with part of a record.  Whatever
    such a disk does, it writes to its own overlay and to new files only. *)

Definition torn_ok st cd : Prop := exists d, cd_durable cd = Some d /\ du_overlay d < sto_next st.

Lemma torn_ok_grows Y st st' cd : grows Y st st' -> torn_ok st cd -> torn_ok st' cd.
Proof. intros G (d & Hd & Hlt). exists d. split; [done|]. pose proof (grows_next _ _ _ G). lia. Qed.

(** What a step of such a disk leaves. *)
Record drifted w0 cd0 w cd : Prop := {
  df_grows : grows {[ overlay_of cd0 ]} (rw_storage w0) (rw_storage w);
  df_wf : storage_wf (rw_storage w);
  df_blocks : next_block_id (rw_statics w0) <= next_block_id (rw_statics w);
  df_ok : torn_ok (rw_storage w) cd;
  df_overlay : overlay_of cd = overlay_of cd0 \/ sto_next (rw_storage w0) <= overlay_of cd
}.

Lemma drifted_kept w0 cd0 d0 w d cd : cd_durable cd0 = Some d0 -> kept w0 w -> cd_durable cd = Some d ->
  du_overlay d < sto_next (rw_storage w) ->
  (du_overlay d = du_overlay d0 \/ sto_next (rw_storage w0) <= du_overlay d) -> drifted w0 cd0 w cd.
Proof.
  intros Hd0 (G & Hwf & Hb & _) Hd Hlt Ho. split; [eapply grows_mono; [|exact G]; set_solver|done|lia|by exists d|].
  unfold overlay_of. by rewrite Hd0, Hd.
Qed.

(** *** Writing *)

Lemma wp_append_torn a b w d Q R :
  storage_wf (rw_storage w) ->
  (forall st', grows {[ du_overlay d ]} (rw_storage w) st' -> storage_wf st' -> Q tt (set_storage st' w, d)) ->
  (forall e st', grows {[ du_overlay d ]} (rw_storage w) st' -> storage_wf st' -> R e (set_storage st' w, d)) ->
  wp (Durable.append a b) Q R (w, d).
Proof.
  intros Hwf HQ HR. unfold Durable.append, Durable.self. wp_steps. cbn [snd].
  set (framed st' := grows {[ du_overlay d ]} (rw_storage w) st' /\ sto_names st' = sto_names (rw_storage w) /\
    sto_next st' = sto_next (rw_storage w) /\ sto_stable_names st' = sto_stable_names (rw_storage w)).
  assert (framed (rw_storage w)) as F0 by (split_and!; [apply grows_refl|done..]).
  assert (forall st', framed st' -> grows {[ du_overlay d ]} (rw_storage w) st' /\ storage_wf st') as Hdone.
  { intros st' (G & Hn & Hx & Hs). split; [done|]. by eapply wf_keep. }
  assert (forall bytes st1 (K : RWorld * DurableCowDisk -> Prop), framed st1 ->
    (forall st', framed st' -> K (set_storage st' w, d)) ->
    wp (world (Durable.sto (Sto.write_all (du_overlay d) bytes))) (fun _ => K)
      (fun e => R e) (set_storage st1 w, d)) as Hstep.
  { intros bytes st1 K F1 HK. apply wp_world. unfold Durable.sto. wp_steps.
    eapply wp_mono; [apply (wp_write_frame (du_overlay d) bytes framed (rw_storage w) st1 F1); auto| |]; cbn.
    - intros _ st' F'. by apply (HK st').
    - intros e st' F'. destruct (Hdone st' F'). by apply (HR e st'). }
  replace w with (set_storage (rw_storage w) w) by (by destruct w).
  apply Hstep; [done|]. intros st1 F1. wp_steps. apply Hstep; [done|]. intros st2 F2. wp_steps.
  eapply wp_mono; [apply (Hstep _ st2 (fun x => Q tt x)); [done|]| |done].
  - intros st3 F3. destruct (Hdone st3 F3). by apply HQ.
  - by intros [] x.
Qed.

Lemma wp_write_chunks_torn buffer a w cd Q R :
  storage_wf (rw_storage w) -> torn_ok (rw_storage w) cd ->
  next_block_id (rw_statics w) + lenN buffer <= u64_MAX ->
  (forall w' cd', drifted w cd w' cd' -> Q tt (w', cd')) -> (forall e w' cd', drifted w cd w' cd' -> R e (w', cd')) ->
  wp (Disk.write_chunks a buffer) Q R (w, cd).
Proof.
  revert a w cd Q R. induction buffer as [|chunk buffer IH]; intros a w cd Q R Hwf Hok Hid HQ HR; cbn.
  { wp_steps. apply HQ. split; [apply grows_refl|done|lia|done|by left]. }
  assert (lenN (chunk :: buffer) = 1 + lenN buffer) as Hlen by (unfold lenN; cbn; lia).
  destruct Hok as (d & Hd & Hlt). unfold Disk.write_chunk. wp_steps. cbn [snd]. apply wp_next_block; [lia|].
  wp_steps. cbn [snd cd_durable]. rewrite Hd. wp_steps. apply wp_on_durable. set (w1 := set_statics _ w).
  assert (overlay_of cd = du_overlay d) as Ho by (unfold overlay_of; by rewrite Hd).
  assert (forall st' cd', grows {[ du_overlay d ]} (rw_storage w1) st' -> storage_wf st' -> cd_durable cd' = Some d ->
    drifted w cd (set_storage st' w1) cd') as Hdrift.
  { intros st' cd' G W Hd'. split; cbn; [by rewrite Ho|done|lia| |].
    - exists d. split; [done|]. pose proof (grows_next _ _ _ G). cbn in *. lia.
    - left. rewrite Ho. unfold overlay_of. by rewrite Hd'. }
  apply wp_append_torn; [done| |].
  2:{ intros e st' G W. by apply HR, Hdrift. }
  intros st' G W. cbn [fst snd]. set (cd1 := mkDisk _ _ _ _).
  pose proof (Hdrift st' cd1 G W eq_refl) as [G1 W1 B1 K1 O1].
  assert (overlay_of cd1 = overlay_of cd) as Ho1 by (rewrite Ho; done).
  assert (forall w2 cd2, drifted (set_storage st' w1) cd1 w2 cd2 -> drifted w cd w2 cd2) as Htrans.
  { intros w2 cd2 [G2 W2 B2 K2 O2]. rewrite Ho1 in G2, O2.
    split; [by eapply grows_trans|done|lia|done|]. destruct O2 as [?|?]; [by left|right].
    pose proof (grows_next _ _ _ G1). lia. }
  apply IH; [done|done|cbn; lia| |]; intros; [apply HQ|apply HR]; by apply Htrans.
Qed.

Lemma wp_write_at_torn block buffer w cd Q R :
  storage_wf (rw_storage w) -> torn_ok (rw_storage w) cd ->
  next_block_id (rw_statics w) + lenN (chunks block_nat buffer) <= u64_MAX ->
  (forall a w' cd', drifted w cd w' cd' -> Q a (w', cd')) -> (forall e w' cd', drifted w cd w' cd' -> R e (w', cd')) ->
  wp (Disk.write_at block buffer) Q R (w, cd).
Proof.
  intros Hwf Hok Hid HQ HR. unfold Disk.write_at. wp_steps. cbn [snd].
  destruct (Disk.check_range cd block (lenN buffer)) as [[]|e].
  - wp_steps. apply wp_write_chunks_torn; [done|done|done| |done]. intros w' cd' D. wp_steps. by apply HQ.
  - apply HR. split; [apply grows_refl|done|lia|done|by left].
Qed.

(** *** Forks and checkpoints *)

(** A durable half that moved on, whatever its files hold. *)
Definition strayed w0 d0 w d : Prop :=
  kept w0 w /\ du_overlay d < sto_next (rw_storage w) /\
  (du_overlay d = du_overlay d0 \/ sto_next (rw_storage w0) <= du_overlay d).

Lemma strayed_kept w0 d0 w1 d1 w2 d2 : strayed w0 d0 w1 d1 -> kept w1 w2 -> du_overlay d2 = du_overlay d1 ->
  strayed w0 d0 w2 d2.
Proof.
  intros (K1 & Hlt & Ho) K2 E. split; [by eapply kept_trans|]. rewrite E. split; [|done].
  destruct K2 as (G & _). pose proof (grows_next _ _ _ G). lia.
Qed.

Lemma strayed_created dir' w0 d0 w1 d1 x w2 d2 : strayed w0 d0 w1 d1 -> created dir' "overlay" x w1 w2 ->
  du_overlay d2 = x.2 -> strayed w0 d0 w2 d2.
Proof.
  intros (K1 & Hlt & Ho) C E. pose proof K1 as (G1 & W1 & _). pose proof (kept_created _ _ _ _ _ W1 C) as K2.
  destruct C as (_ & _ & _ & _ & Hi & Hx & _). split; [by eapply kept_trans|]. rewrite E, Hi. split; [lia|].
  right. apply (grows_next _ _ _ G1).
Qed.

Lemma wp_fork_torn (seal : bool) w d Q R :
  storage_wf (rw_storage w) -> du_overlay d < sto_next (rw_storage w) ->
  (forall child w' d', strayed w d w' d' -> sto_next (rw_storage w) <= du_overlay child ->
    du_overlay child < sto_next (rw_storage w') -> du_overlay child <> du_overlay d' -> Q child (w', d')) ->
  (forall e w' d', strayed w d w' d' -> R e (w', d')) ->
  wp (Durable.fork seal) Q R (w, d).
Proof.
  intros Hwf Hlt HQ HR. assert (strayed w d w d) as S0 by (split; [by apply kept_refl|by split; [|left]]).
  assert (forall w1 d1 layers, strayed w d w1 d1 ->
    wp ('(child_overlay_id, child_overlay) ← world (Durable.create_numbered_file (du_dir d1) "overlay");
        mret (mkDurable (du_dir d1) layers child_overlay_id child_overlay)) Q R (w1, d1)) as Hchild.
  { intros w1 d1 layers S1. pose proof S1 as ((G1 & W1 & _) & Hlt1 & _). wp_steps.
    apply wp_world, wp_create_numbered_file.
    2:{ intros e w2 Hf. eapply HR, strayed_kept; [exact S1|by eapply kept_failed|done]. }
    intros [id i] w2 C2. wp_steps. pose proof C2 as (_ & _ & _ & _ & Hi & Hx & _). cbn in Hi. apply HQ; cbn.
    - eapply strayed_kept; [exact S1|by eapply kept_created|done].
    - rewrite Hi. apply (grows_next _ _ _ G1).
    - lia.
    - lia. }
  destruct d as [dir' layers oid o]. unfold Durable.fork, Durable.self.
  destruct seal; wp_steps; cbn [snd fst du_dir du_layers]; [|pose proof (Hchild w _ layers S0) as Hc; by rewrite wp_bind in Hc].
  apply wp_world, wp_link_numbered_file.
  2:{ intros e w1 Hf. eapply HR, strayed_kept; [exact S0|by eapply kept_failed|done]. }
  intros [layer path] w1 Hlink. unfold Durable.push_layer, Durable.set_overlay. wp_steps. cbn [snd fst du_dir du_layers].
  pose proof (kept_linked _ _ _ _ _ _ Hwf Hlink) as K1. pose proof K1 as (_ & W1 & _).
  assert (strayed w (mkDurable dir' layers oid o) w1 (mkDurable dir' (layers ++ [layer]) oid o)) as S1
    by (eapply strayed_kept; [exact S0|exact K1|done]).
  apply wp_world, wp_create_numbered_file.
  2:{ intros e w2 Hf. eapply HR, strayed_kept; [exact S1|by eapply kept_failed|done]. }
  intros [id i] w2 C2. wp_steps. cbn [fst snd du_dir du_layers].
  assert (strayed w (mkDurable dir' layers oid o) w2 (mkDurable dir' (layers ++ [layer]) id i)) as S2
    by (by eapply strayed_created).
  pose proof (Hchild w2 _ (layers ++ [layer]) S2) as Hc. by rewrite wp_bind in Hc.
Qed.

Lemma wp_sync_file_torn p (P : RWorld -> Prop) w :
  storage_wf (rw_storage w) -> (forall w', kept w w' -> P w') ->
  wp (Durable.sync_file p) (fun _ => P) (fun _ => P) w.
Proof.
  intros Hwf HP. unfold Durable.sync_file, Durable.sto. wp_steps. apply wp_open_path.
  - intros i st1 Hs1 _. wp_steps. apply wp_sync_data; cbn.
    + intros st2 Hs2 _ _. apply (HP (set_storage st2 w)), kept_same; [done|by eapply same_names_trans].
    + intros e st2 Hs2 _. apply (HP (set_storage st2 w)), kept_same; [done|by eapply same_names_trans].
  - intros e st1 Hs1 _. by apply (HP (set_storage st1 w)), kept_same.
Qed.

Lemma wp_sync_layers_torn (path : N -> Path) layers (d : DurableCowDisk) (P : RWorld * DurableCowDisk -> Prop) w :
  storage_wf (rw_storage w) -> (forall w', kept w w' -> P (w', d)) ->
  wp (for_each (fun layer => world (Durable.sync_file (path layer))) layers) (fun _ => P) (fun _ => P) (w, d).
Proof.
  revert w. induction layers as [|layer layers IH]; intros w Hwf HP; cbn; [by apply HP, kept_refl|].
  wp_steps. apply wp_world. eapply wp_mono;
    [apply (wp_sync_file_torn _ (fun w' => kept w w')); [done|auto]| |by intros e w1 K1; apply HP].
  intros x w1 K1. pose proof K1 as (_ & W1 & _). apply IH; [done|]. intros w2 K2. apply HP. eapply kept_trans; [exact K1|exact K2].
Qed.

Lemma wp_seal_torn (seal : bool) path w (d : DurableCowDisk) :
  storage_wf (rw_storage w) ->
  wp (if seal then
      '(layer_id, layer_path) ← world (Durable.link_numbered_file (du_dir d) "layer" path);
      _ ← world (Durable.sync_file layer_path);
      mret (Some layer_id)
    else mret None)
    (fun _ x => x.2 = d /\ kept w x.1) (fun _ x => x.2 = d /\ kept w x.1) (w, d).
Proof.
  intros Hwf. destruct seal; wp_steps; [|by split; [|apply kept_refl]]. apply wp_world, wp_link_numbered_file.
  2:{ intros e w1 Hf. split; [done|]. by eapply kept_failed. }
  intros [layer layer_path] w1 Hlink. pose proof (kept_linked _ _ _ _ _ _ Hwf Hlink) as K1. pose proof K1 as (_ & W1 & _).
  wp_steps. apply wp_world. eapply wp_mono; [apply (wp_sync_file_torn _ (fun w' => kept w w')); [done|]| |done].
  - intros w2 K2. by eapply kept_trans.
  - intros x w2 K2. wp_steps. split; [done|exact K2].
Qed.

(** What a checkpoint makes durable, whatever the files hold. *)
Definition saved_as w d w' (s : DurableDiskState) : Prop :=
  ds_layers s = du_layers d /\ ds_overlay s = du_overlay_id d /\ synced (rw_storage w') (du_overlay d) /\
  sto_data (rw_storage w') !! du_overlay d = sto_data (rw_storage w) !! du_overlay d /\
  forall p i, sto_names (rw_storage w) !! p = Some i -> p.1 = du_dir d -> sto_stable_names (rw_storage w') !! p = Some i.

Lemma wp_checkpoint_torn (seal : bool) size w d Q R :
  storage_wf (rw_storage w) -> du_overlay d < sto_next (rw_storage w) ->
  (forall s w' d', strayed w d w' d' -> saved_as w d w' s -> Q s (w', d')) ->
  (forall e w' d', strayed w d w' d' -> R e (w', d')) ->
  wp (Durable.checkpoint size seal) Q R (w, d).
Proof.
  intros Hwf Hlt HQ HR. assert (strayed w d w d) as S0 by (split; [by apply kept_refl|by split; [|left]]).
  assert (forall w', kept w w' -> strayed w d w' d) as Hk by (intros w' K; by eapply strayed_kept).
  unfold Durable.checkpoint, Durable.self. wp_steps. cbn [snd].
  eapply wp_mono; [apply (wp_sync_layers_torn _ _ d (fun x => x.2 = d /\ kept w x.1)); [done|done]| |].
  2:{ intros e [w1 d1] [E1 K1]. cbn in E1, K1. subst d1. by apply HR, Hk. }
  intros [] [w1 d1] [E1 K1]. cbn in E1, K1. subst d1. pose proof K1 as (_ & W1 & _). wp_steps. apply wp_world. unfold Durable.sto. wp_steps.
  apply wp_sync_data; cbn.
  2:{ intros e st2 Hs2 _. apply HR, Hk. eapply kept_trans; [exact K1|by apply kept_same]. }
  intros st2 Hs2 Hd2 Hst2. set (w2 := set_storage st2 w1). assert (kept w w2) as K2.
  { eapply kept_trans; [exact K1|by apply kept_same]. }
  assert (synced (rw_storage w2) (du_overlay d)) as Y2 by (unfold synced; cbn; by rewrite Hst2, Hd2).
  clearbody w2. clear st2 Hs2 Hd2 Hst2. wp_steps. pose proof K2 as (G2 & W2 & _).
  eapply wp_mono; [by apply wp_seal_torn| |].
  2:{ intros e [w3 d3] [E3 K3]. cbn in E3, K3. subst d3. apply HR, Hk. by eapply kept_trans. }
  intros layer [w3 d3] [E3 K3']. cbn in E3, K3'. subst d3. pose proof (kept_trans _ _ _ K2 K3') as K3. pose proof K3 as (_ & W3 & _). wp_steps. apply wp_world, wp_create_numbered_file.
  2:{ intros e w4 Hf. apply HR, Hk. eapply kept_trans; [exact K3|by eapply kept_failed]. }
  intros [id i] w4 C4. pose proof (kept_created _ _ _ _ _ W3 C4) as K4. pose proof K4 as (_ & W4 & _).
  wp_steps. apply wp_world. unfold Durable.sto. wp_steps. apply wp_sync_directory; [done| |].
  2:{ intros e st5 Hs5 _. apply HR, Hk. eapply kept_trans; [exact K3|]. eapply kept_trans; [exact K4|by apply kept_same]. }
  intros st5 G5 Hn5 _ W5 Hdir5. assert (kept w4 (set_storage st5 w4)) as K5 by (split; [done|split; [done|apply only_files_storage]]).
  unfold Durable.push_layer, Durable.set_overlay.
  assert (forall d5, du_overlay d5 = i -> strayed w d (set_storage st5 w4) d5) as Hend.
  { intros d5 E5. eapply strayed_kept; [eapply strayed_created; [apply Hk, K3|exact C4|]|exact K5|]; done. }
  assert (saved_as w d (set_storage st5 w4) (mkDiskState size (du_layers d) (du_overlay_id d))) as Hsaved.
  { assert (kept w2 (set_storage st5 w4)) as (G25 & _) by (eapply kept_trans; [exact K3'|by eapply kept_trans]).
    pose proof (grows_next _ _ _ G2). split; [done|]. split; [done|]. split; [|split].
    - eapply synced_grows; [|exact G25|done]. lia.
    - rewrite (grows_data _ _ _ G25), (grows_data _ _ _ G2); [done|done|set_solver|lia|set_solver].
    - intros p i' Hp Hpd. apply Hdir5; [|done]. destruct (kept_trans _ _ _ K3 K4) as (G4 & _). by eapply grows_name. }
  destruct layer as [layer|]; wp_steps; (apply HQ; [by apply Hend|exact Hsaved]).
Qed.

Lemma drifted_strayed w cd d w' d' cd' : cd_durable cd = Some d -> strayed w d w' d' -> cd_durable cd' = Some d' ->
  drifted w cd w' cd'.
Proof. intros Hd (K & Hlt & Ho) Hd'. by eapply drifted_kept. Qed.

Lemma wp_disk_fork_torn w cd Q R :
  storage_wf (rw_storage w) -> torn_ok (rw_storage w) cd ->
  (forall child w' cd', drifted w cd w' cd' -> torn_ok (rw_storage w') child ->
    sto_next (rw_storage w) <= overlay_of child -> overlay_of child <> overlay_of cd' -> Q child (w', cd')) ->
  (forall e w' cd', drifted w cd w' cd' -> R e (w', cd')) ->
  wp Disk.fork Q R (w, cd).
Proof.
  intros Hwf (d & Hd & Hlt) HQ HR. unfold Disk.fork. wp_steps. cbn [snd]. rewrite Hd. wp_steps. apply wp_on_durable.
  apply wp_fork_torn; [done|done| |].
  - intros child w' d' S Hge Hltc Hne. cbn [fst snd]. wp_steps.
    destruct (negb _); wp_steps; cbn [fst snd]; (apply HQ; [by eapply drifted_strayed|by exists child|done|done]).
  - intros e w' d' S. cbn [fst snd]. by eapply HR, drifted_strayed.
Qed.

Lemma wp_durable_state_torn w cd Q R :
  storage_wf (rw_storage w) -> torn_ok (rw_storage w) cd ->
  (forall s w' cd', drifted w cd w' cd' -> (forall d, cd_durable cd = Some d -> saved_as w d w' s) -> Q s (w', cd')) ->
  (forall e w' cd', drifted w cd w' cd' -> R e (w', cd')) ->
  wp Disk.durable_state Q R (w, cd).
Proof.
  intros Hwf (d & Hd & Hlt) HQ HR. unfold Disk.durable_state. wp_steps. cbn [snd]. rewrite Hd. wp_steps.
  apply wp_on_durable. apply wp_checkpoint_torn; [done|done| |].
  - intros s w' d' S Hs. cbn [fst snd]. wp_steps.
    assert (forall d1, cd_durable cd = Some d1 -> saved_as w d1 w' s) as Hs1 by (intros d1 Hd1; congruence).
    destruct (negb _); wp_steps; cbn [fst snd]; (apply HQ; [by eapply drifted_strayed|exact Hs1]).
  - intros e w' d' S. cbn [fst snd]. by eapply HR, drifted_strayed.
Qed.

(** ** Creating and restoring *)

Lemma wp_disk_durable O size w Q R :
  storage_wf (rw_storage w) ->
  (forall cd w', kept w w' -> overlay_of cd = sto_next (rw_storage w) ->
    (forall X, disk_ok (rw_storage w') O X cd) -> cd_size cd = size -> Disk.visible_blocks cd = ∅ -> Q cd w') ->
  (forall e w', kept w w' -> R e w') ->
  wp (Disk.durable dir size) Q R w.
Proof.
  intros Hwf HQ HR. unfold Disk.durable, Durable.create, Durable.sto. wp_steps. apply wp_create_dir_all.
  2:{ intros e st1 Hs1 _. by apply HR, kept_same. }
  intros st1 Hs1 Hdir. pose proof (kept_same _ _ Hwf Hs1) as Hk1. pose proof Hk1 as (_ & Hwf1 & _). wp_steps.
  apply wp_create_numbered_file.
  2:{ intros e w2 Hf. apply HR. eapply kept_trans; [exact Hk1|by eapply kept_failed]. }
  intros [id i] w2 Hc. pose proof (kept_created _ _ _ _ _ Hwf1 Hc) as Hk2. pose proof Hk2 as (_ & Hwf2 & _). wp_steps.
  apply wp_sync_directory; [done| |].
  2:{ intros e st3 Hs3 _. apply HR. eapply kept_trans; [exact Hk1|]. eapply kept_trans; [exact Hk2|by apply kept_same]. }
  intros st3 G3 Hn3 Hx3 Hwf3 _. wp_steps. cbn in *. apply HQ.
  - eapply kept_trans; [exact Hk1|]. eapply kept_trans; [exact Hk2|]. split; [done|]. split; [done|apply only_files_storage].
  - cbn. destruct Hc as (_ & _ & _ & _ & Hi & _). cbn in Hi. rewrite Hi. apply Hs1.
  - intros X. exists (mkDurable dir [] id i). split; [done|]. exists [], 0%nat, []. split_and!; [|done|done].
    assert (overlay_rep dir (rw_storage w2) O X (mkDurable dir [] id i) [] 0 []) as Hrep.
    { refine (rep_fresh dir (set_storage st1 w) w2 O X [] [] (id, i) Hwf1 _ Hc _); [constructor|set_solver]. }
    eapply (rep_grows dir ∅ _ _ O O X); [exact Hwf2|exact G3|done|set_solver|set_solver| |exact Hrep]. intros j. by left.
  - done.
  - unfold Disk.visible_blocks, Disk.gen_visible_blocks. cbn. by rewrite !extend_union, !(left_id_L ∅ (∪)).
Qed.

(** A restart has what it needs: a calm host, room for new names, and the
    directory. *)
Definition restorable (n : N) w : Prop :=
  roomy n (rw_storage w) /\ next_layer w <= u64_MAX /\ dir ∈ sto_dirs (rw_storage w).

Definition hkept w w' : Prop :=
  grows ∅ (rw_storage w) (rw_storage w') /\ storage_wf (rw_storage w').

Lemma hkept_trans w1 w2 w3 : hkept w1 w2 -> hkept w2 w3 -> hkept w1 w3.
Proof. intros [G1 _] [G2 W2]. split; [by eapply grows_trans|done]. Qed.

Lemma hkept_kept w w' : kept w w' -> hkept w w'.
Proof. intros (G & W & _). by split. Qed.

Lemma hkept_loaded O objects l objects' w w' :
  storage_wf (rw_storage w) -> loaded O objects l objects' w w' -> hkept w w'.
Proof. intros Hwf L. destruct L. split; [apply loaded_storage|by eapply wf_same_names]. Qed.

Lemma restorable_same n w w' :
  same_names (rw_storage w) (rw_storage w') -> next_layer w' <= u64_MAX -> restorable n w -> restorable n w'.
Proof.
  intros Hs Hl (Hr & _ & Hd). split; [by eapply roomy_same|]. split; [done|]. by apply Hs.
Qed.

Lemma restorable_name n w w' p i :
  sto_names (rw_storage w') = <[p := i]> (sto_names (rw_storage w)) -> kept w w' ->
  restorable (n + 1) w -> restorable n w'.
Proof.
  intros Hn (G & _ & _ & _ & _ & Hlay) ([Hc Hr] & Hl & Hd). split; [|split; [auto|by apply G]].
  split; [by apply G|]. rewrite Hn, map_size_insert. destruct (sto_names (rw_storage w) !! p); unfold id; lia.
Qed.

Lemma layer_files_entries st O O' layers (chain : Chain) :
  layer_files st O dir layers chain -> Forall (entry_ok O') (chain_log chain) -> layer_files st O' dir layers chain.
Proof.
  intros Hl. induction Hl as [|layer f layers chain Hf Hl IH]; intros HO; [constructor|].
  apply Forall_app in HO as [H1 H2]. constructor; [|by apply IH]. destruct Hf as (? & ? & _). by split_and!.
Qed.

(** Linking a file as the newest layer. *)
Lemma wp_link_layer O layers chain p i l w Q R :
  storage_wf (rw_storage w) -> layer_files (rw_storage w) O dir layers chain -> file (rw_storage w) O p i l ->
  (forall layer w', kept w w' -> sto_next (rw_storage w') = sto_next (rw_storage w) ->
    layer_files (rw_storage w') O dir (layers ++ [layer]) (chain ++ [(i, l)]) ->
    (forall n, restorable (n + 1) w -> restorable n w') -> Q (layers ++ [layer]) w') ->
  (forall e w', kept w w' -> ~ restorable 1 w -> R e w') ->
  wp ('(layer, layer_path) ← Durable.link_numbered_file dir "layer" p;
      _ ← Durable.sync_file layer_path;
      mret (layers ++ [layer])) Q R w.
Proof.
  intros Hwf Hl Hf HQ HR. wp_steps. apply wp_link_numbered_file.
  { intros [layer path] w2 Hlink. pose proof (kept_linked _ _ _ _ _ _ Hwf Hlink) as Hk2.
    pose proof Hk2 as (G2 & Hwf2 & _). destruct Hlink as (_ & _ & Hp & _ & Hx2 & _ & i' & Hi' & Hn2).
    cbn in Hp, Hn2. subst path. assert (i' = i) as -> by (destruct Hf; congruence). wp_steps.
    assert (file (rw_storage w2) O (numbered dir "layer" layer) i l) as Hf2.
    { split; [by rewrite Hn2, lookup_insert_eq|]. split; [|apply Hf].
      rewrite (grows_data _ _ _ G2); [apply Hf|eapply file_inode; [exact Hwf|exact Hf]|set_solver]. }
    assert (forall n, restorable (n + 1) w -> restorable n w2) as Hr2 by (intros; by eapply restorable_name).
    eapply wp_sync_file; [done|exact Hf2| |].
    - intros st3 Hs3 _. pose proof (kept_same _ _ Hwf2 Hs3) as Hk3. wp_steps. apply HQ.
      + by eapply kept_trans.
      + cbn. destruct Hs3 as (_ & _ & -> & _). done.
      + eapply (layer_files_grows _ ∅ _ _ O O); [exact Hwf2|apply Hs3|done|set_solver|].
        apply Forall2_app; [|by constructor].
        eapply layer_files_grows; [exact Hwf|exact G2|done|set_solver|done].
      + intros n Hr. apply Hr2 in Hr. eapply restorable_same; [exact Hs3|apply Hr|done].
    - intros e st3 Hs3 Hc3. apply HR; [eapply kept_trans; [exact Hk2|by apply kept_same]|].
      intros ([Hc _] & _)%(Hr2 0). done. }
  intros e w2 (Hs2 & Ho2 & Hno). apply HR.
  - split; [apply Hs2|]. split; [by eapply wf_same_names|done].
  - intros ([Hc Hr] & Hlay & _). apply Hno. split; [destruct Hf; by eexists|]. split; [done|]. split; [done|lia].
Qed.

(** The overlay of the checkpoint becomes a layer if it has any record. *)
Lemma wp_live_layers O layers chain p i l V w Q R :
  storage_wf (rw_storage w) -> layer_files (rw_storage w) O dir layers chain ->
  file (rw_storage w) O p i l -> V = replay (chain_log chain ++ l) ->
  (forall layers' chain' w', kept w w' -> sto_next (rw_storage w') = sto_next (rw_storage w) ->
    layer_files (rw_storage w') O dir layers' chain' ->
    (forall f, f ∈ chain' -> f ∈ chain \/ f.1 = i) -> V = replay (chain_log chain' ++ []) ->
    (forall n, restorable (n + 1) w -> restorable n w') -> Q layers' w') ->
  (forall e w', kept w w' -> ~ restorable 1 w -> R e w') ->
  wp (len ← Durable.sto (Sto.file_len p);
      if 0 <? len then
        '(layer, layer_path) ← Durable.link_numbered_file dir "layer" p;
        _ ← Durable.sync_file layer_path;
        mret (layers ++ [layer])
      else mret layers) Q R w.
Proof.
  intros Hwf Hl Hf HV HQ HR. rewrite wp_bind. unfold Durable.sto. wp_steps. apply wp_file_len; [done| |].
  2:{ intros e st1 Hs1 Hcause. apply HR; [by apply kept_same|]. intros ([Hc _] & _). rewrite Hc in Hcause.
      destruct Hf as (Hp & _). destruct Hcause as [?|?]; [cbn in *; lia|congruence]. }
  intros j st1 Hs1 Hj. assert (j = i) as -> by (destruct Hf; congruence).
  pose proof (kept_same _ _ Hwf Hs1) as Hk1. pose proof Hk1 as (G1 & Hwf1 & _). set (w1 := set_storage st1 w) in *.
  assert (layer_files (rw_storage w1) O dir layers chain) as Hl1.
  { eapply layer_files_grows; [exact Hwf|exact G1|done|set_solver|done]. }
  assert (forall n, restorable n w -> restorable n w1) as Hr1.
  { intros n Hr. eapply restorable_same; [done| |done]. apply Hr. }
  assert (inode_bytes (rw_storage w) i = encode l) as ->.
  { unfold inode_bytes. destruct Hf as (_ & -> & _). done. }
  destruct (N.ltb_spec 0 (lenN (encode l))) as [Hpos|Hz].
  - pose proof (file_same _ _ _ _ _ _ Hwf Hs1 Hf) as Hf1.
    eapply (wp_link_layer O layers chain p i l w1); [done|done|exact Hf1| |].
    + intros layer w2 Hk2 Hx2 Hl2 Hr2. apply (HQ _ (chain ++ [(i, l)])).
      * by eapply kept_trans.
      * rewrite Hx2. apply Hs1.
      * done.
      * intros f [Hin| ->%list_elem_of_singleton]%elem_of_app; [by left|by right].
      * rewrite HV, app_nil_r, chain_log_app. unfold chain_log at 3. cbn. by rewrite app_nil_r.
      * intros n Hr. by apply Hr2, Hr1.
    + intros e w2 Hk2 Hno. apply HR; [by eapply kept_trans|]. intros Hr. by apply Hno, Hr1.
  - wp_steps. apply (HQ _ chain); [done|apply Hs1|done|by left| |].
    + assert (l = []) as -> by (eapply encode_nonempty; [apply Hf|lia]). done.
    + intros n Hr. apply Hr1 in Hr. destruct Hr as ([? ?] & ? & ?). split; [split; [done|lia]|done].
Qed.

Record restored O X objects s V w (x : DurableCowDisk * Generation Blocks * Blocks * Blocks) w' : Prop := {
  rs_kept : hkept w w';
  rs_objects : objects ⊆ x.2;
  rs_sub : x.2 ⊆ O;
  rs_issued : issued w objects -> issued w' x.2;
  rs_overlay : du_overlay x.1.1.1 = sto_next (rw_storage w);
  rs_ok X' : no_older (rw_storage w) X X' ->
    disk_ok (rw_storage w') x.2 X' (mkDisk (ds_size s) x.1.1.2 x.1.2 (Some x.1.1.1));
  rs_blocks : Disk.visible_blocks (mkDisk (ds_size s) x.1.1.2 x.1.2 (Some x.1.1.1)) = V;
  rs_room n : restorable (n + 2) w -> restorable n w'
}.

Lemma ckpt_files st O X s V :
  ckpt_ok dir st O X s V -> exists chain i l,
    layer_files st O dir (ds_layers s) chain /\ file st O (overlay_path dir (ds_overlay s)) i l /\
    (forall f, f ∈ chain \/ f.1 = i -> f.1 ∉ X) /\ V = replay (chain_log chain ++ l).
Proof.
  intros (chain & i & l & Hl & (Ho & _) & Hsep & Hi & HV). exists chain, i, l. split_and!; [|done| |done].
  - eapply Forall2_impl; [exact Hl|]. by intros ?? (? & _).
  - intros f [Hf| ->]; [by apply Hsep|done].
Qed.

Lemma restorable_loaded O objects l objects' w w' n :
  loaded O objects l objects' w w' -> restorable n w -> restorable n w'.
Proof.
  intros L Hr. eapply restorable_same; [apply L| |done]. rewrite (loaded_layer _ _ _ _ _ _ L). apply Hr.
Qed.

(** Opening the live half of a restored disk. *)
Lemma wp_restore_open {A} O X layers chain p i l V (x : DurableCowDisk -> A) w Q R :
  storage_wf (rw_storage w) -> layer_files (rw_storage w) O dir layers chain ->
  file (rw_storage w) O p i l -> V = replay (chain_log chain ++ l) ->
  (forall f, f ∈ chain \/ f.1 = i -> f.1 ∉ X) ->
  (forall d w', kept w w' -> du_overlay d = sto_next (rw_storage w) ->
    (forall X', no_older (rw_storage w) X X' -> dur_ok dir (rw_storage w') O X' d V True) ->
    (forall n, restorable (n + 2) w -> restorable n w') -> Q (x d) w') ->
  (forall e w', kept w w' -> ~ restorable 2 w -> R e w') ->
  wp (len ← Durable.sto (Sto.file_len p);
      live_layers ← (if 0 <? len then
          '(layer, layer_path) ← Durable.link_numbered_file dir "layer" p;
          _ ← Durable.sync_file layer_path;
          mret (layers ++ [layer])
        else mret layers);
      '(overlay_id, overlay) ← Durable.create_numbered_file dir "overlay";
      _ ← Durable.sto (Sto.sync_directory dir);
      mret (x (mkDurable dir live_layers overlay_id overlay))) Q R w.
Proof.
  intros Hwf Hl Hf HV Hsep HQ HR. apply wp_assoc. rewrite wp_bind.
  eapply (wp_live_layers O layers chain p i l V); [done|done|done|done| |].
  2:{ intros e w1 Hk1 Hno. apply HR; [done|]. intros ([Hc Hr] & ? & ?). apply Hno. split; [split; [done|lia]|done]. }
  intros layers' chain' w1 Hk1 Hx1 Hl1 Hch HV' Hr1. pose proof Hk1 as (G1 & Hwf1 & _).
  wp_steps. apply wp_create_numbered_file.
  2:{ intros e w2 Hfail. apply HR; [eapply kept_trans; [exact Hk1|by eapply kept_failed]|].
      intros (Hroom & Hlay & Hd)%(Hr1 1). destruct Hfail as (_ & _ & Hno). apply Hno.
      split; [done|]. split; [done|]. destruct Hroom. split; [done|lia]. }
  intros [id i'] w2 Hc. pose proof (kept_created _ _ _ _ _ Hwf1 Hc) as Hk2. pose proof Hk2 as (G2 & Hwf2 & _).
  assert (forall n, restorable (n + 2) w -> restorable n w2) as Hr2.
  { intros n Hr. replace (n + 2) with (n + 1 + 1) in Hr by lia. apply Hr1 in Hr.
    destruct Hc as (_ & _ & _ & Hn2 & _). by eapply restorable_name. }
  wp_steps. unfold Durable.sto. wp_steps. apply wp_sync_directory; [done| |].
  - intros st3 G3 Hn3 Hx3 Hwf3 _. wp_steps.
    assert (kept w2 (set_storage st3 w2)) as Hk3 by (split; [done|split; [done|apply only_files_storage]]).
    apply HQ.
    + eapply kept_trans; [exact Hk1|]. by eapply kept_trans.
    + cbn. destruct Hc as (_ & _ & _ & _ & Hi & _). cbn in Hi. congruence.
    + intros X' HX. exists chain', 0%nat, []. split_and!; [|done|done].
      eapply (rep_grows dir ∅ _ _ O O X'); [exact Hwf2|exact G3|done|set_solver|set_solver|by left|].
      refine (rep_fresh dir w1 w2 O X' layers' chain' (id, i') Hwf1 Hl1 Hc _).
      intros f Hin Hx'. destruct (HX _ Hx') as [Hx|Hge]; [by eapply Hsep; [apply Hch|]|].
      eapply layer_inode in Hin; [|exact Hwf1|done]. lia.
    + intros n Hr. apply Hr2 in Hr as ([Hc3 Hr3] & Hlay & Hdir). split; [|split; [done|by apply G3]].
      split; [by apply G3|]. cbn. by rewrite Hn3.
  - intros e st3 Hs3 Hlen. apply HR.
    + eapply kept_trans; [exact Hk1|]. eapply kept_trans; [exact Hk2|by apply kept_same].
    + intros ([Hc3 _] & _)%(Hr2 0). rewrite Hc3 in Hlen. cbn in Hlen. lia.
Qed.

Lemma wp_restore O X s V objects w Q R :
  storage_wf (rw_storage w) -> ckpt_ok dir (rw_storage w) O X s V -> objects ⊆ O ->
  (forall x w', restored O X objects s V w x w' -> Q x w') ->
  (forall e w', hkept w w' -> ~ restorable 2 w -> R e w') ->
  wp (Durable.restore dir s objects) Q R w.
Proof.
  intros Hwf (chain & i & l & Hl & Hf & Hsep & HV)%ckpt_files HO HQ HR.
  unfold Durable.restore. wp_steps. eapply wp_load_layers; [done|exact Hl|done| |].
  2:{ intros e w1 Hs1 _ Hc. apply HR; [split; [apply Hs1|by eapply wf_same_names]|]. by intros ([? _] & _). }
  intros objects1 w1 L1. pose proof (hkept_loaded _ _ _ _ _ _ Hwf L1) as [G1 Hwf1].
  wp_steps. eapply wp_load_records; [done| |apply L1| |].
  { eapply file_same; [exact Hwf|apply L1|exact Hf]. }
  2:{ intros e w2 Hs2 _ Hc. apply HR.
      - split; [eapply grows_trans; [exact G1|apply Hs2]|by eapply wf_same_names].
      - intros Hr. by apply (restorable_loaded _ _ _ _ _ _ _ L1) in Hr as ([? _] & _). }
  intros objects2 w2 L2. pose proof (loaded_trans _ _ _ _ _ _ _ _ _ L1 L2) as L.
  pose proof (hkept_loaded _ _ _ _ _ _ Hwf L) as [G2 Hwf2]. unfold Durable.fetch_max_layer.
  rewrite wp_bind, wp_modify. set (w3 := set_statics _ w2).
  pose proof (loaded_entries _ _ _ _ _ _ L) as [He1 He2]%Forall_app.
  assert (next_layer w2 <= u64_MAX -> next_layer w3 <= u64_MAX) as Hlay.
  { intros Hle. unfold w3, next_layer in *. cbn. unfold saturating_add. lia. }
  assert (forall n, restorable n w -> restorable n w3) as Hr3.
  { intros n Hr. apply (restorable_loaded _ _ _ _ _ _ _ L) in Hr as (? & ? & ?). split; [done|]. split; [auto|done]. }
  refine (wp_restore_open objects2 X (ds_layers s) chain _ i l V
    (fun d => (d, mkGeneration None (extend (replay (chain_log chain) ∪ ∅) (replay l ∪ ∅)), ∅, objects2))
    w3 _ _ Hwf2 _ _ HV Hsep _ _).
  - eapply (layer_files_entries _ O); [|done]. eapply (layer_files_grows _ ∅ _ _ O O); [exact Hwf|exact G2|done|set_solver|exact Hl].
  - destruct (file_grows ∅ _ _ O O _ i _ Hwf G2 ltac:(done) (not_elem_of_empty i) Hf) as (? & ? & _). by split_and!.
  - intros d w4 Hk4 Ho4 Hok4 Hr4. apply HQ.
    assert (Disk.visible_blocks (mkDisk (ds_size s) (mkGeneration None
      (extend (replay (chain_log chain) ∪ ∅) (replay l ∪ ∅))) ∅ (Some d)) = V) as HVis.
    { unfold Disk.visible_blocks, Disk.gen_visible_blocks. cbn.
      rewrite !extend_union, !(right_id_L ∅ (∪)), (left_id_L ∅ (∪)), HV. by rewrite replay_app. }
    split; cbn; [|apply L|apply L| | | |done|].
    + apply (hkept_trans _ w3); [split; [exact G2|exact Hwf2]|by apply hkept_kept].
    + intros Hiss. apply L in Hiss. intros id b Hb. apply Hiss in Hb. destruct Hk4 as (_ & _ & -> & _). done.
    + rewrite Ho4. apply L.
    + intros X' HX. exists d. split; [done|]. rewrite HVis. cbn.
      assert (no_older (rw_storage w3) X X') as HX3.
      { intros j Hj. destruct (HX j Hj) as [?|Hge]; [by left|]. right. cbn.
        destruct (loaded_storage _ _ _ _ _ _ L) as (_ & _ & -> & _). done. }
      destruct (Hok4 X' HX3) as (P & k & l' & ? & ? & ?). exists P, k, l'. tauto.
    + intros n Hr. by apply Hr4, Hr3.
  - intros e w4 Hk4 Hno. apply HR; [apply (hkept_trans _ w3); [split; [exact G2|exact Hwf2]|by apply hkept_kept]|].
    intros Hr. by apply Hno, Hr3.
Qed.

End durable_ops.
