(* ===== verification/DiskIO.v ===== *)
(** * Reading and writing a copy-on-write disk

    The disk as an array of bytes, zero where nothing was written: [read_at]
    returns it, [write_at] replaces a range of it, [fork] copies it, whether
    or not the disk is durable. *)

From S2P Require Import Prelude Generations Host Identity Storage DurableCowDisk CowDisk DiskLog DurableFiles DurableOps.

(** The byte at a position of the disk. *)
Definition disk_byte (cd : CowDisk) (pos : N) : byte :=
  default zero_byte (nthN (Disk.stored_bytes cd (pos / BLOCK_SIZE)) (pos mod BLOCK_SIZE)).

(** Blocks are full blocks, as their type [[u8; BLOCK_SIZE]] says. *)
Definition full (cd : CowDisk) : Prop :=
  forall a b, Disk.visible_block cd a = Some b -> length (block_bytes b) = block_nat.

Lemma block_nat_N : N.of_nat block_nat = BLOCK_SIZE.
Proof. with_strategy transparent [block_nat] (unfold block_nat). lia. Qed.

Lemma block_nat_pos : (0 < block_nat)%nat.
Proof. pose proof block_nat_N. unfold BLOCK_SIZE in *. lia. Qed.

Lemma chunks_unfold l : l <> [] -> chunks block_nat l = take block_nat l :: chunks block_nat (drop block_nat l).
Proof.
  intros Hl. assert (0 < length l)%nat as Hpos by (destruct l; [done|cbn; lia]).
  destruct (decide (length l <= block_nat)%nat) as [Hs|Hs].
  - by rewrite chunks_short, take_ge, drop_ge by lia.
  - rewrite <-(take_drop block_nat l) at 1. apply chunks_app; [apply block_nat_pos|].
    rewrite length_take. lia.
Qed.

Section disk_io.
Implicit Types (cd : CowDisk) (w : RWorld).

Lemma length_stored cd a : full cd -> length (Disk.stored_bytes cd a) = block_nat.
Proof.
  intros Hf. unfold Disk.stored_bytes. destruct (Disk.visible_block cd a) eqn:Hb; [by eapply Hf|apply length_replicate].
Qed.

Lemma read_chunks_spec cd a l i :
  full cd -> i < lenN l ->
  nthN (Disk.read_chunks cd a (chunks block_nat l)) i = Some (disk_byte cd (a * BLOCK_SIZE + i)).
Proof.
  intros Hf. remember (length l) as m eqn:Hm. revert l a i Hm.
  induction m as [m IH] using lt_wf_ind. intros l a i -> Hi.
  assert (l <> []) as Hne by (intros ->; change (lenN []) with 0 in Hi; lia).
  rewrite chunks_unfold by done. cbn [Disk.read_chunks]. pose proof (length_stored cd a Hf) as Hst.
  pose proof block_nat_N as HN. pose proof block_nat_pos as Hpos.
  set (head := take (length (take block_nat l)) (Disk.stored_bytes cd a)).
  assert (lenN head = N.min BLOCK_SIZE (lenN l)) as Hh by (unfold head, lenN; rewrite !length_take; lia).
  rewrite nthN_app. destruct (N.ltb_spec i (lenN head)) as [Hlt|Hge].
  - unfold disk_byte, head. rewrite N.div_add_l, N.div_small, N.add_0_r by (unfold BLOCK_SIZE in *; lia).
    rewrite N.add_comm, N.Div0.mod_add, N.mod_small by lia.
    unfold nthN. rewrite lookup_take_lt by (unfold head, lenN in *; rewrite length_take in *; lia).
    destruct (lookup_lt_is_Some_2 (Disk.stored_bytes cd a) (N.to_nat i)) as [b Hb]; [lia|]. by rewrite Hb.
  - assert (lenN head = BLOCK_SIZE) as Hfull by lia. rewrite Hfull in *.
    rewrite (IH (length (drop block_nat l))); [| |done|].
    + f_equal. f_equal. lia.
    + rewrite length_drop. unfold lenN in *. lia.
    + unfold lenN in *. rewrite length_drop. lia.
Qed.

Lemma length_read_chunks cd a l :
  full cd -> length (Disk.read_chunks cd a (chunks block_nat l)) = length l.
Proof.
  intros Hf. remember (length l) as m eqn:Hm. revert l a Hm.
  induction m as [m IH] using lt_wf_ind. intros l a ->. pose proof block_nat_pos as Hpos.
  destruct (decide (l = [])) as [->|Hne]; [done|]. rewrite chunks_unfold by done. cbn [Disk.read_chunks].
  assert (0 < length l)%nat by (destruct l; [done|cbn; lia]).
  rewrite length_app, (IH (length (drop block_nat l))) by (rewrite ?length_drop; done || lia).
  rewrite !length_take, length_drop, length_stored by done. lia.
Qed.

(** A read inside the disk returns the bytes of the range. *)
Theorem disk_read_returns cd block len :
  full cd -> block * BLOCK_SIZE + len <= cd_size cd -> cd_size cd <= u64_MAX ->
  exists bytes, Disk.read_at cd block len = Ok bytes /\ lenN bytes = len /\
    forall i, i < len -> nthN bytes i = Some (disk_byte cd (block * BLOCK_SIZE + i)).
Proof.
  intros Hf Hr Hsz. unfold Disk.read_at. rewrite (proj2 (check_range_Ok cd block len)) by lia.
  eexists. split; [done|]. set (l := replicate (N.to_nat len) zero_byte).
  assert (lenN l = len) as Hl by (unfold l, lenN; rewrite length_replicate; lia).
  assert (forall i, i < len -> nthN (Disk.read_chunks cd block (chunks block_nat l)) i =
    Some (disk_byte cd (block * BLOCK_SIZE + i))) as Hi by (intros; apply read_chunks_spec; [done|lia]).
  split; [|done]. unfold lenN in *. by rewrite length_read_chunks.
Qed.

(** ** Writing *)

Lemma visible_block_write size g ws d a b a' :
  Disk.visible_block (mkDisk size g (<[a := b]> ws) d) a' =
  if a' =? a then Some b else Disk.visible_block (mkDisk size g ws d) a'.
Proof.
  unfold Disk.visible_block. cbn. destruct (N.eqb_spec a' a) as [->|Hne].
  - by rewrite lookup_insert_eq.
  - by rewrite lookup_insert_ne.
Qed.

(** The chunk [c] written over block [a]. *)
Definition overwrites cd a c cd' : Prop :=
  full cd' /\ cd_size cd' = cd_size cd /\
  forall a', Disk.stored_bytes cd' a' =
    if a' =? a then c ++ drop (length c) (Disk.stored_bytes cd a) else Disk.stored_bytes cd a'.

Lemma overwrites_intro cd a c id d' :
  full cd -> (length c <= block_nat)%nat ->
  overwrites cd a c (mkDisk (cd_size cd) (cd_base cd)
    (<[a := mkBlock id (c ++ drop (length c) (Disk.stored_bytes cd a))]> (cd_writes cd)) d').
Proof.
  intros Hf Hc. pose proof (length_stored cd a Hf) as Hlen.
  set (b := mkBlock id _). assert (length (block_bytes b) = block_nat) as Hb.
  { cbn. rewrite length_app, length_drop. lia. }
  assert (forall a', Disk.visible_block (mkDisk (cd_size cd) (cd_base cd) (<[a := b]> (cd_writes cd)) d') a' =
    if a' =? a then Some b else Disk.visible_block cd a') as Hv by (intros; by rewrite visible_block_write; destruct cd).
  split; [|split; [done|]].
  - intros a' b'. rewrite Hv. destruct (a' =? a); [by intros [= <-]|apply Hf].
  - intros a'. unfold Disk.stored_bytes at 1. rewrite Hv. by destruct (a' =? a).
Qed.

Lemma wp_chunk_view a c w cd Q :
  full cd -> (length c <= block_nat)%nat ->
  (forall w' cd', overwrites cd a c cd' -> Q tt (w', cd')) ->
  wp (Disk.write_chunk a c) Q (fun _ _ => True) (w, cd).
Proof.
  intros Hf Hc HQ. unfold Disk.write_chunk. wp_steps. cbn [snd].
  unfold wp at 1, Disk.next_block. wp_steps. cbn [snd cd_durable].
  destruct (cd_durable cd) as [d|]; wp_steps; [|by apply HQ, overwrites_intro].
  unfold wp, Disk.on_durable. destruct (Durable.append _ _ _) as [[w' d'] [[]|e]]; [|done].
  apply HQ. exact (overwrites_intro cd a c _ _ Hf Hc).
Qed.

(** What the disk holds after writing [buffer] from position [at_]. *)
Definition patched cd at_ buffer cd' : Prop :=
  full cd' /\ cd_size cd' = cd_size cd /\
  forall pos, disk_byte cd' pos =
    if in_range at_ (at_ + lenN buffer) pos then default zero_byte (nthN buffer (pos - at_)) else disk_byte cd pos.

Lemma overwrites_patched cd a c cd' : full cd -> (length c <= block_nat)%nat ->
  overwrites cd a c cd' -> patched cd (a * BLOCK_SIZE) c cd'.
Proof.
  intros Hfull Hc (Hf & Hsz & Hst). split; [done|]. split; [done|]. intros pos. unfold disk_byte. rewrite Hst.
  pose proof block_nat_N. pose proof (N.div_mod pos BLOCK_SIZE ltac:(done)) as Hpos.
  pose proof (N.mod_lt pos BLOCK_SIZE ltac:(done)) as Hmod. unfold BLOCK_SIZE in *.
  revert Hpos Hmod. generalize (pos / 4096) (pos mod 4096). intros q off Hpos Hmod.
  destruct (N.eqb_spec q a) as [->|Hne].
  - rewrite nthN_app. destruct (N.ltb_spec off (lenN c)) as [Hlt|Hge].
    + rewrite in_range_true by lia. f_equal. f_equal. lia.
    + rewrite in_range_false by lia. f_equal. unfold nthN, lenN in *. rewrite lookup_drop. f_equal. lia.
  - rewrite in_range_false; [done|]. unfold lenN. lia.
Qed.

Lemma patched_trans cd cd1 cd2 at_ b1 b2 :
  patched cd at_ b1 cd1 -> patched cd1 (at_ + lenN b1) b2 cd2 -> patched cd at_ (b1 ++ b2) cd2.
Proof.
  intros (F1 & S1 & P1) (F2 & S2 & P2). split; [done|]. split; [congruence|]. intros pos.
  rewrite P2, P1, lenN_app, nthN_app.
  destruct (in_range_spec (at_ + lenN b1) (at_ + lenN b1 + lenN b2) pos),
    (in_range_spec at_ (at_ + (lenN b1 + lenN b2)) pos), (in_range_spec at_ (at_ + lenN b1) pos),
    (N.ltb_spec (pos - at_) (lenN b1)); try (exfalso; lia); try done; f_equal; f_equal; lia.
Qed.

Lemma wp_chunks_view l a w cd Q :
  full cd -> (forall w' cd', patched cd (a * BLOCK_SIZE) l cd' -> Q tt (w', cd')) ->
  wp (Disk.write_chunks a (chunks block_nat l)) Q (fun _ _ => True) (w, cd).
Proof.
  remember (length l) as m eqn:Hm. revert l a w cd Q Hm.
  induction m as [m IH] using lt_wf_ind. intros l a w cd Q -> Hf HQ. pose proof block_nat_pos as Hpos.
  destruct (decide (l = [])) as [->|Hne].
  { cbn. wp_steps. apply HQ. split; [done|]. split; [done|]. intros pos. rewrite in_range_false; [done|]. change (lenN []) with 0. lia. }
  rewrite chunks_unfold by done. cbn [Disk.write_chunks]. wp_steps.
  apply wp_chunk_view; [done|rewrite length_take; lia|]. intros w1 cd1 H1.
  apply overwrites_patched in H1; [|done|rewrite length_take; lia].
  assert (0 < length l)%nat by (destruct l; [done|cbn; lia]).
  apply (IH (length (drop block_nat l))); [rewrite length_drop; lia|done|apply H1|].
  intros w2 cd2 H2. apply HQ. rewrite <-(take_drop block_nat l).
  destruct (decide (length l <= block_nat)%nat) as [Hs|Hs].
  - rewrite drop_ge, app_nil_r in * by done. destruct H1 as (F1 & S1 & P1), H2 as (F2 & S2 & P2).
    split; [done|]. split; [congruence|]. intros pos. rewrite P2, in_range_false by (change (lenN []) with 0; lia). apply P1.
  - eapply patched_trans; [exact H1|]. replace (a * BLOCK_SIZE + lenN (take block_nat l)) with ((a + 1) * BLOCK_SIZE); [done|].
    unfold lenN. rewrite length_take. pose proof block_nat_N. lia.
Qed.

(** A successful write replaces exactly the bytes of its range, keeps the
    size, and reports every byte; it fails without any change if the range is
    outside the disk. *)
Theorem disk_write_patches cd block buffer w w' cd' r :
  full cd -> Disk.write_at block buffer (w, cd) = ((w', cd'), r) ->
  match r with
  | Ok n => n = lenN buffer /\ block * BLOCK_SIZE + lenN buffer <= cd_size cd /\
            patched cd (block * BLOCK_SIZE) buffer cd'
  | Err _ => cd_size cd < block * BLOCK_SIZE + lenN buffer -> w' = w /\ cd' = cd /\ r = Err (RawOs EIO)
  end.
Proof.
  intros Hf Hrun. destruct (Disk.check_range cd block (lenN buffer)) as [[]|e] eqn:Hr.
  - assert (wp (Disk.write_at block buffer) (fun n s => n = lenN buffer /\
      block * BLOCK_SIZE + lenN buffer <= cd_size cd /\ patched cd (block * BLOCK_SIZE) buffer s.2)
      (fun _ _ => True) (w, cd)) as Hwp.
    { unfold Disk.write_at. wp_steps. cbn [snd]. rewrite Hr. wp_steps. apply wp_chunks_view; [done|].
      intros w1 cd1 Hp. wp_steps. split; [done|]. split; [|done]. by apply check_range_Ok in Hr as [? _]. }
    apply check_range_Ok in Hr as [Hr _]. eapply wp_elim in Hwp; [|exact Hrun]. destruct r; [done|]. lia.
  - assert (e = RawOs EIO) as -> by (unfold Disk.check_range in Hr; repeat case_match; by simplify_eq).
    assert (wp (Disk.write_at block buffer) (fun _ _ => False) (fun e s => s = (w, cd) /\ e = RawOs EIO) (w, cd)) as Hwp.
    { unfold Disk.write_at. wp_steps. cbn [snd]. by rewrite Hr. }
    eapply wp_elim in Hwp; [|exact Hrun]. destruct r; [done|]. by destruct Hwp as [[= -> ->] ->].
Qed.

(** Two disks a reader cannot tell apart. *)
Definition same_disk cd cd' : Prop :=
  cd_size cd' = cd_size cd /\ Disk.visible_blocks cd' = Disk.visible_blocks cd.

Lemma wp_fork_same w cd :
  wp Disk.fork (fun child s => same_disk cd s.2 /\ same_disk cd child /\ cd_writes child = ∅)
    (fun _ s => same_disk cd s.2 /\ cd_durable cd <> None) (w, cd).
Proof.
  assert (forall d1 d2, let base := cd_base (if has_writes cd then Disk.seal_writes cd else cd) in
    same_disk cd (if has_writes cd then Disk.seal_writes (mkDisk (cd_size cd) (cd_base cd) (cd_writes cd) d1)
          else mkDisk (cd_size cd) (cd_base cd) (cd_writes cd) d1) /\
    same_disk cd (mkDisk (cd_size cd) base ∅ d2)) as Hsame.
  { intros d1 d2 base. unfold base, same_disk. destruct (has_writes cd) eqn:Hw.
    - rewrite <-(visible_seal cd). destruct cd. by split; split.
    - apply has_writes_false in Hw. destruct cd. cbn in Hw. subst. by split. }
  unfold Disk.fork. wp_steps. cbn [snd]. fold (has_writes cd).
  destruct (cd_durable cd) as [d|] eqn:Hd; wp_steps.
  - unfold wp, Disk.on_durable. destruct (Durable.fork _ _) as [[w1 d1] [child|e]].
    + pose proof (Hsame (Some d1) (Some child)) as [H1 H2].
      destruct (has_writes cd); cbn in *; by split_and!.
    + cbn. split; [|done]. by destruct cd.
  - pose proof (Hsame None None) as [H1 H2].
    destruct cd as [size base ws dd]. cbn in Hd. subst dd. destruct (has_writes _); wp_steps; cbn in *; by split_and!.
Qed.

(** A fork leaves the forked disk's blocks and size as they were, whether
    or not it succeeds, and a successful fork gives a disk with the same
    blocks (the same objects, not copies), the same size and no writes of its
    own.  Only the files of a durable disk can make it fail. *)
Theorem disk_fork_copies cd w w' cd' r :
  Disk.fork (w, cd) = ((w', cd'), r) ->
  same_disk cd cd' /\
  match r with
  | Ok child => same_disk cd child /\ cd_writes child = ∅
  | Err _ => cd_durable cd <> None
  end.
Proof. intros Hrun. pose proof (wp_elim _ _ _ _ _ _ (wp_fork_same w cd) Hrun) as H. by destruct r. Qed.

End disk_io.
