(* ===== verification/DurableSpec.v ===== *)
(** * Durable disks across runs and crashes

    The disks of one directory as a state machine: a run creates, writes, forks
    and checkpoints disks; a crash loses whatever the host had not made
    durable, and the next run restores disks from checkpoints of one earlier
    run.  The theorems say what survives. *)

From S2P Require Import Prelude Generations Host Identity Storage DurableCowDisk CowDisk DiskLog DurableFiles DurableDisk DurableOps DiskIO.

(** The disks of [RedoxBranch::restore_lineage]: one restore per state, the
    loaded blocks shared. *)
Fixpoint restore_disks (dir : string) (states : list DurableDiskState) (objects : Blocks) :
    RW (list CowDisk * Blocks) :=
  match states with
  | [] => mret ([], objects)
  | s :: rest =>
      '(d, base, writes, objects') ← Durable.restore dir s objects;
      '(disks, objects'') ← restore_disks dir rest objects';
      mret (mkDisk (ds_size s) base writes (Some d) :: disks, objects'')
  end.

(** A checkpoint and the blocks the disk had when it was taken. *)
Abbreviation Checkpoint := (DurableDiskState * Blocks)%type.

(** A disk of the run, and whether it is torn: a write to it, or to the disk it
    was forked from, failed half way, so that its files may hold part of a
    record. *)
Record Tracked := mkTracked { tk_disk : CowDisk; tk_torn : bool }.

Record System := mkSystem {
  sy_world : RWorld;
  sy_disks : list Tracked;
  sy_run : list Checkpoint;
  sy_past : list (list Checkpoint)
}.

Definition boot : System := mkSystem (mkRWorld initial_statics empty_storage) [] [] [].

Definition runs (s : System) : list (list Checkpoint) := sy_run s :: sy_past s.

Section durable_spec.
Context (dir : string).
Implicit Types (w : RWorld) (st : Storage) (O V : Blocks) (o : Inode) (X : gset Inode).

(** A write that passed the range check and failed may have left part of a
    record in the overlay. *)
Definition tears (cd : CowDisk) (block : N) (buffer : list byte) (r : result io_error N) : bool :=
  negb (is_ok r) && is_ok (Disk.check_range cd block (lenN buffer)).

(** The steps of a run.  A torn disk is used on like any other, as the code
    does; it is only its checkpoints that are not recorded, since they may not
    restore.  Block numbers do not run out.  The counters of files and pages
    move between the disk's own steps. *)
Inductive step : System -> System -> Prop :=
  | step_create w disks run past size w' r :
      Disk.durable dir size w = (w', r) ->
      step (mkSystem w disks run past)
           (mkSystem w' (match r with Ok cd => disks ++ [mkTracked cd false] | Err _ => disks end) run past)
  | step_write w disks run past k cd torn block buffer w' cd' r :
      disks !! k = Some (mkTracked cd torn) ->
      next_block_id (rw_statics w) + lenN (chunks block_nat buffer) <= u64_MAX ->
      Disk.write_at block buffer (w, cd) = ((w', cd'), r) ->
      step (mkSystem w disks run past)
           (mkSystem w' (<[k := mkTracked cd' (torn || tears cd block buffer r)]> disks) run past)
  | step_fork w disks run past k cd torn w' cd' r :
      disks !! k = Some (mkTracked cd torn) ->
      Disk.fork (w, cd) = ((w', cd'), r) ->
      step (mkSystem w disks run past)
           (mkSystem w' (<[k := mkTracked cd' torn]> disks ++
              match r with Ok child => [mkTracked child torn] | Err _ => [] end) run past)
  | step_checkpoint w disks run past k cd torn w' cd' r :
      disks !! k = Some (mkTracked cd torn) ->
      Disk.durable_state (w, cd) = ((w', cd'), r) ->
      step (mkSystem w disks run past)
           (mkSystem w' (<[k := mkTracked cd' torn]> disks)
              (match r with
               | Ok s => if torn : bool then run else (s, Disk.visible_blocks cd) :: run
               | Err _ => run
               end) past)
  | step_drop w disks run past k :
      step (mkSystem w disks run past) (mkSystem w (delete k disks) run past)
  | step_identities w disks run past g :
      next_block_id g = next_block_id (rw_statics w) ->
      next_durable_layer_id g = next_durable_layer_id (rw_statics w) ->
      step (mkSystem w disks run past) (mkSystem (set_statics g w) disks run past)
  | step_restart w disks run past st group sel w' r :
      crash_to (rw_storage w) st -> group ∈ run :: past -> sel ⊆ group ->
      restore_disks dir sel.*1 ∅ (mkRWorld initial_statics st) = (w', r) ->
      step (mkSystem w disks run past)
           (mkSystem w' (match r with Ok (disks', _) => (fun cd => mkTracked cd false) <$> disks' | Err _ => [] end)
              [] (run :: past)).

Definition reachable : System -> Prop := rtc step boot.

(** ** The invariant *)

Implicit Types t : Tracked.

Definition overlay_tk t : Inode := overlay_of (tk_disk t).

Definition tracked_ok st O X t : Prop :=
  if tk_torn t then torn_ok st (tk_disk t) else disk_ok dir st O X (tk_disk t).

Definition overlays (disks : list Tracked) : gset Inode := list_to_set (overlay_tk <$> disks).

Definition group_ok st O X (g : list Checkpoint) : Prop := Forall (fun c => ckpt_ok dir st O X c.1 c.2) g.

Record disks_ok w O disks : Prop := {
  do_wf : storage_wf (rw_storage w);
  do_issued : issued w O;
  do_distinct : NoDup (overlay_tk <$> disks);
  do_disks : Forall (tracked_ok (rw_storage w) O (overlays disks)) disks
}.

Definition sys_inv (s : System) : Prop := exists O,
  disks_ok (sy_world s) O (sy_disks s) /\
  group_ok (rw_storage (sy_world s)) O (overlays (sy_disks s)) (sy_run s) /\
  Forall (fun g => exists O', group_ok (rw_storage (sy_world s)) O' (overlays (sy_disks s)) g) (sy_past s).

(** ** Framing *)

Lemma disk_ok_grows Y st st' O O' X X' cd :
  storage_wf st -> grows Y st st' -> O ⊆ O' -> Y ⊆ X -> overlay_of cd ∉ Y -> no_older st X X' ->
  disk_ok dir st O X cd -> disk_ok dir st' O' X' cd.
Proof.
  intros Hwf G HO HY Ho HX (d & Hd & Hok). exists d. split; [done|].
  unfold overlay_of in Ho. rewrite Hd in Ho. by eapply dur_ok_grows.
Qed.

Lemma tracked_ok_grows Y st st' O O' X X' t :
  storage_wf st -> grows Y st st' -> O ⊆ O' -> Y ⊆ X -> overlay_tk t ∉ Y -> no_older st X X' ->
  tracked_ok st O X t -> tracked_ok st' O' X' t.
Proof.
  intros Hwf G HO HY Ho HX. unfold tracked_ok. destruct (tk_torn t); [by apply torn_ok_grows with Y|by apply (disk_ok_grows Y st st' O O' X X')].
Qed.

Lemma group_ok_grows Y st st' O O' X X' g :
  storage_wf st -> grows Y st st' -> O ⊆ O' -> Y ⊆ X -> no_older st X X' ->
  group_ok st O X g -> group_ok st' O' X' g.
Proof.
  intros Hwf G HO HY HX Hg. eapply Forall_impl; [exact Hg|]. intros c. cbn. by eapply ckpt_ok_grows.
Qed.

Lemma disk_overlay_lt st O X cd : storage_wf st -> disk_ok dir st O X cd -> torn_ok st cd.
Proof.
  intros Hwf (d & Hd & P & k & l & [_ _ Hf _] & _). exists d. split; [done|]. eapply file_inode; [exact Hwf|exact Hf].
Qed.

Lemma torn_overlay_lt st cd : torn_ok st cd -> overlay_of cd < sto_next st.
Proof. intros (d & Hd & Hlt). unfold overlay_of. by rewrite Hd. Qed.

Lemma overlay_lt st O X t : storage_wf st -> tracked_ok st O X t -> overlay_tk t < sto_next st.
Proof.
  intros Hwf. unfold tracked_ok, overlay_tk. destruct (tk_torn t); [apply torn_overlay_lt|].
  intros Hok. by eapply torn_overlay_lt, disk_overlay_lt.
Qed.

Lemma elem_of_overlays disks i : i ∈ overlays disks <-> exists cd, cd ∈ disks /\ i = overlay_tk cd.
Proof.
  unfold overlays. rewrite elem_of_list_to_set, list_elem_of_fmap. naive_solver.
Qed.

(** ** Crashes *)

Lemma crash_stored st st' O p i l : crash_to st st' -> stored st O p i l -> stored st' O p i l.
Proof.
  intros C ((Hp & Hd & Hl) & Hn & Hs). assert (sto_names st' !! p = Some i) as Hp'.
  { destruct (crash_names _ _ C p) as [-> | ->]; done. }
  split; [|split].
  - split; [done|]. split; [|done]. by rewrite (crash_data _ _ C).
  - by rewrite (crash_stable_names _ _ C).
  - by rewrite (crash_stable _ _ C).
Qed.

Lemma crash_ckpt st st' O X s V : crash_to st st' -> ckpt_ok dir st O X s V -> ckpt_ok dir st' O ∅ s V.
Proof.
  intros C (chain & i & l & Hl & Ho & _ & _ & HV). exists chain, i, l. split_and!; [|by eapply crash_stored|set_solver..|done].
  eapply Forall2_impl; [exact Hl|]. intros ??. by apply crash_stored.
Qed.

(** ** Updating one disk *)

Section update.
Context (disks : list Tracked) (k : nat) (cd cd' : Tracked) (extra : list Tracked).
Context (Hk : disks !! k = Some cd) (Hnd : NoDup (overlay_tk <$> disks)).

Let disks' := <[k := cd']> disks ++ extra.

Lemma other_overlay j cd2 : disks !! j = Some cd2 -> j <> k -> overlay_tk cd2 <> overlay_tk cd.
Proof.
  intros Hj Hne Heq. apply Hne. eapply NoDup_lookup; [exact Hnd|..]; rewrite list_lookup_fmap.
  - by rewrite Hj.
  - by rewrite Hk, Heq.
Qed.

Lemma elem_of_update cd2 :
  cd2 ∈ disks' -> cd2 = cd' \/ cd2 ∈ extra \/ (cd2 ∈ disks /\ overlay_tk cd2 <> overlay_tk cd).
Proof.
  unfold disks'. rewrite elem_of_app. intros [[j Hj]%list_elem_of_lookup|?]; [|by right; left].
  destruct (decide (j = k)) as [->|Hne].
  - rewrite list_lookup_insert_eq in Hj by (by eapply lookup_lt_Some). left. congruence.
  - rewrite list_lookup_insert_ne in Hj by done. right. right.
    split; [by eapply list_elem_of_lookup_2|by eapply other_overlay].
Qed.

Context (st : Storage).
Context (Ho : overlay_tk cd' = overlay_tk cd \/ sto_next st <= overlay_tk cd').
Context (He : Forall (fun c => sto_next st <= overlay_tk c) extra).

Lemma retires_update : retires st (overlays disks) (overlay_tk cd) (overlay_tk cd') (overlays disks').
Proof.
  intros i (cd2 & Hcd2 & ->)%elem_of_overlays. rewrite Forall_forall in He.
  assert (overlay_tk cd ∈ overlays disks) as Hin.
  { apply elem_of_overlays. exists cd. split; [by eapply list_elem_of_lookup_2|done]. }
  apply elem_of_update in Hcd2 as [-> |[Hx|[Hx Hne]]].
  - destruct Ho as [-> |?]; [right; by split|by left].
  - left. by apply He.
  - right. split; [|done]. apply elem_of_overlays. eauto.
Qed.

Lemma no_older_update : no_older st (overlays disks) (overlays disks').
Proof. eapply retires_no_older, retires_update. Qed.

Lemma NoDup_update :
  (forall c, c ∈ disks -> overlay_tk c < sto_next st) -> NoDup (overlay_tk <$> cd' :: extra) ->
  NoDup (overlay_tk <$> disks').
Proof.
  intros Hlt Hnew. unfold disks'. rewrite fmap_app, list_fmap_insert. cbn in Hnew.
  apply NoDup_cons in Hnew as [Hnin Hnew]. rewrite Forall_forall in He. apply NoDup_app. split_and!; [| |done].
  - apply NoDup_alt. intros i j o Hi Hj. rewrite list_lookup_insert_Some in Hi, Hj.
    assert (forall j, (overlay_tk <$> disks) !! j = Some (overlay_tk cd') -> k <> j -> False) as Hclash.
    { intros j' Hj' Hne. rewrite list_lookup_fmap in Hj'. destruct (disks !! j') as [c|] eqn:Hc; [|done].
      injection Hj' as Hj'. destruct Ho as [Heq|Hge].
      - eapply other_overlay; [exact Hc|done|congruence].
      - apply list_elem_of_lookup_2, Hlt in Hc. lia. }
    destruct Hi as [(<- & <- & _)|[Hi1 Hi2]], Hj as [(<- & Hj1 & _)|[Hj1 Hj2]]; try done.
    + exfalso. by eapply Hclash.
    + exfalso. subst o. by eapply Hclash.
    + eapply NoDup_lookup; [exact Hnd|exact Hi2|exact Hj2].
  - intros o Ho1 Ho2. apply list_elem_of_fmap in Ho2 as (c & -> & Hc). apply list_elem_of_lookup in Ho1 as [j Hj].
    rewrite list_lookup_insert_Some in Hj. destruct Hj as [(_ & Heq & _)|[_ Hj]].
    + apply Hnin. rewrite Heq. by apply list_elem_of_fmap_2.
    + rewrite list_lookup_fmap in Hj. destruct (disks !! j) as [c'|] eqn:Hc'; [|done]. injection Hj as Hj.
      apply list_elem_of_lookup_2, Hlt in Hc'. apply He in Hc. lia.
Qed.
End update.

(** ** Each step keeps the invariant *)

(** The other disks, when one is replaced and some are added. *)
Lemma disks_ok_update w w' O O' disks k cd cd' extra :
  disks_ok w O disks -> disks !! k = Some cd ->
  grows {[ overlay_tk cd ]} (rw_storage w) (rw_storage w') -> storage_wf (rw_storage w') ->
  O ⊆ O' -> issued w' O' ->
  (overlay_tk cd' = overlay_tk cd \/ sto_next (rw_storage w) <= overlay_tk cd') ->
  Forall (fun c => sto_next (rw_storage w) <= overlay_tk c) extra -> NoDup (overlay_tk <$> cd' :: extra) ->
  (let disks' := <[k := cd']> disks ++ extra in
   retires (rw_storage w) (overlays disks) (overlay_tk cd) (overlay_tk cd') (overlays disks') ->
   Forall (tracked_ok (rw_storage w') O' (overlays disks')) (cd' :: extra)) ->
  disks_ok w' O' (<[k := cd']> disks ++ extra).
Proof.
  intros [Hwf Hiss Hnd Hall] Hk G Hwf' HO Hiss' Ho He Hnew Hok.
  assert (forall c, c ∈ disks -> overlay_tk c < sto_next (rw_storage w)) as Hlt.
  { intros c Hc. rewrite Forall_forall in Hall. by eapply overlay_lt; [|apply Hall]. }
  split; [done|done|by eapply NoDup_update|].
  pose proof (retires_update _ _ _ _ _ Hk Hnd _ Ho He) as Hret. specialize (Hok Hret).
  apply Forall_cons in Hok as [Hok1 Hok2]. rewrite Forall_forall in Hok2, Hall. apply Forall_forall. intros c Hc.
  destruct (elem_of_update _ _ _ _ _ Hk Hnd _ Hc) as [-> |[Hx|[Hx Hne]]]; [done|by apply Hok2|].
  eapply (tracked_ok_grows {[ overlay_tk cd ]} _ _ O O' (overlays disks)); [exact Hwf|exact G|done| | | |by apply Hall].
  - apply singleton_subseteq_l, elem_of_overlays. exists cd. split; [by eapply list_elem_of_lookup_2|done].
  - by apply not_elem_of_singleton.
  - by eapply retires_no_older.
Qed.

Lemma past_grows Y st st' X X' past :
  storage_wf st -> grows Y st st' -> Y ⊆ X -> no_older st X X' ->
  Forall (fun g => exists O', group_ok st O' X g) past -> Forall (fun g => exists O', group_ok st' O' X' g) past.
Proof.
  intros Hwf G HY HX Hp. eapply Forall_impl; [exact Hp|]. intros g [O' Hg]. exists O'.
  by eapply (group_ok_grows Y _ _ O' O').
Qed.

(** Steps of a run: one disk moves, others may appear, a checkpoint may be
    published. *)
Lemma sys_inv_update w w' O O' disks run run' past k cd cd' extra :
  disks_ok w O disks -> group_ok (rw_storage w) O (overlays disks) run ->
  Forall (fun g => exists O', group_ok (rw_storage w) O' (overlays disks) g) past ->
  disks !! k = Some cd ->
  grows {[ overlay_tk cd ]} (rw_storage w) (rw_storage w') -> storage_wf (rw_storage w') ->
  O ⊆ O' -> issued w' O' ->
  (overlay_tk cd' = overlay_tk cd \/ sto_next (rw_storage w) <= overlay_tk cd') ->
  Forall (fun c => sto_next (rw_storage w) <= overlay_tk c) extra -> NoDup (overlay_tk <$> cd' :: extra) ->
  (let disks' := <[k := cd']> disks ++ extra in
   retires (rw_storage w) (overlays disks) (overlay_tk cd) (overlay_tk cd') (overlays disks') ->
   Forall (tracked_ok (rw_storage w') O' (overlays disks')) (cd' :: extra) /\
   Forall (fun c => c ∈ run \/ ckpt_ok dir (rw_storage w') O' (overlays disks') c.1 c.2) run') ->
  sys_inv (mkSystem w' (<[k := cd']> disks ++ extra) run' past).
Proof.
  intros Hd Hrun Hpast Hk G Hwf' HO Hiss' Ho He Hnew Hok. pose proof Hd as [Hwf _ Hnd _].
  pose proof (retires_update _ _ _ _ _ Hk Hnd _ Ho He) as Hret. destruct (Hok Hret) as [_ Hrun'].
  pose proof (retires_no_older _ _ _ _ _ Hret) as HX.
  assert ({[ overlay_tk cd ]} ⊆ overlays disks) as HY.
  { apply singleton_subseteq_l, elem_of_overlays. exists cd. split; [by eapply list_elem_of_lookup_2|done]. }
  exists O'. split_and!; cbn.
  - eapply (disks_ok_update w); try done. intros disks' Hr. by apply Hok.
  - apply Forall_forall. intros c Hc. rewrite Forall_forall in Hrun'. destruct (Hrun' c Hc) as [Hold|?]; [|done].
    unfold group_ok in Hrun. rewrite Forall_forall in Hrun. by eapply ckpt_ok_grows; [..|apply Hrun].
  - by eapply past_grows.
Qed.

Lemma issued_kept w w' O : kept w w' -> issued w O -> issued w' O.
Proof. intros (_ & _ & Hs & _) Hi id b Hb. rewrite Hs. by apply Hi in Hb. Qed.

Definition inv_parts w O disks run past : Prop :=
  disks_ok w O disks /\ group_ok (rw_storage w) O (overlays disks) run /\
  Forall (fun g => exists O', group_ok (rw_storage w) O' (overlays disks) g) past.

(** Disks that are left when some are given up, possibly after one last
    write to [Y], an overlay none of the remaining disks has. *)
Lemma sys_inv_shrink Y w w' O disks disks' run past :
  inv_parts w O disks run past -> disks' `sublist_of` disks ->
  grows Y (rw_storage w) (rw_storage w') -> storage_wf (rw_storage w') -> Y ⊆ overlays disks ->
  (forall c, c ∈ disks' -> overlay_tk c ∉ Y) -> issued w' O ->
  sys_inv (mkSystem w' disks' run past).
Proof.
  intros ([Hwf Hiss Hnd Hall] & Hrun & Hpast) Hsub G Hwf' HY Hoth Hiss'.
  assert (no_older (rw_storage w) (overlays disks) (overlays disks')) as HX.
  { intros i (c & Hc & ->)%elem_of_overlays. left. apply elem_of_overlays. exists c. split; [|done].
    by eapply sublist_subseteq. }
  exists O. split_and!; cbn.
  2:{ eapply (group_ok_grows Y _ _ O O); [exact Hwf|exact G|done|exact HY|exact HX|exact Hrun]. }
  2:{ eapply (past_grows Y); [exact Hwf|exact G|exact HY|exact HX|exact Hpast]. }
  split; [done|done|by eapply sublist_NoDup; [exact Hnd|apply fmap_sublist]|].
  rewrite Forall_forall in Hall. apply Forall_forall. intros c Hc.
  eapply (tracked_ok_grows Y); [exact Hwf|exact G|done|exact HY|by apply Hoth|exact HX|].
  by apply Hall; eapply sublist_subseteq.
Qed.

Lemma elem_of_delete {A} (l : list A) k x : x ∈ delete k l -> exists j, j <> k /\ l !! j = Some x.
Proof.
  intros [j Hj]%list_elem_of_lookup. destruct (decide (j < k)%nat) as [Hlt|Hge].
  - rewrite list_lookup_delete_lt in Hj by done. exists j. split; [lia|done].
  - rewrite list_lookup_delete_ge in Hj by lia. exists (S j). split; [lia|done].
Qed.

Lemma inv_drifted w O disks run past k cd torn torn' w' cd' extra :
  inv_parts w O disks run past -> disks !! k = Some (mkTracked cd torn) -> torn' = true -> drifted w cd w' cd' ->
  Forall (fun t => sto_next (rw_storage w) <= overlay_tk t /\ overlay_tk t <> overlay_of cd' /\ tk_torn t = true /\
    torn_ok (rw_storage w') (tk_disk t)) extra -> (length extra <= 1)%nat ->
  sys_inv (mkSystem w' (<[k := mkTracked cd' torn']> disks ++ extra) run past).
Proof.
  intros (Hd & Hgr & Hpast) Hk -> [G W B K E] He Hlen. pose proof Hd as [_ Hiss _ _].
  eapply (sys_inv_update w w' O O); try done.
  - intros id b Hb. apply Hiss in Hb. lia.
  - eapply Forall_impl; [exact He|]. tauto.
  - destruct extra as [|t [|]]; cbn in Hlen; [apply NoDup_singleton| |lia]. apply Forall_singleton in He as (_ & Hne & _).
    apply NoDup_cons. split; [|apply NoDup_singleton]. cbn. rewrite list_elem_of_singleton. intros Heq. by apply Hne.
  - intros disks' _. split; [|apply Forall_forall; by left]. constructor; [exact K|].
    eapply Forall_impl; [exact He|]. intros t (_ & _ & Ht & Htok). unfold tracked_ok. by rewrite Ht.
Qed.

Lemma inv_write_torn w O disks run past k cd block buffer w' cd' r torn :
  inv_parts w O disks run past -> disks !! k = Some (mkTracked cd true) ->
  next_block_id (rw_statics w) + lenN (chunks block_nat buffer) <= u64_MAX ->
  Disk.write_at block buffer (w, cd) = ((w', cd'), r) ->
  sys_inv (mkSystem w' (<[k := mkTracked cd' (true || torn)]> disks) run past).
Proof.
  intros Hinv Hk Hid Hrun. pose proof Hinv as ([Hwf _ _ Hall] & _).
  pose proof (Forall_lookup_1 _ _ _ _ Hall Hk) as Hok. cbn in Hok.
  eapply (wp_elim _ (fun _ x => drifted w cd x.1 x.2) (fun _ x => drifted w cd x.1 x.2)) in Hrun;
    [|by apply wp_write_at_torn]. rewrite <-(app_nil_r (<[k:=_]> disks)).
  eapply inv_drifted; [exact Hinv|exact Hk|done|by destruct r|constructor|cbn; lia].
Qed.

Lemma inv_write w O disks run past k cd torn block buffer w' cd' r :
  inv_parts w O disks run past -> disks !! k = Some (mkTracked cd torn) ->
  next_block_id (rw_statics w) + lenN (chunks block_nat buffer) <= u64_MAX ->
  Disk.write_at block buffer (w, cd) = ((w', cd'), r) ->
  sys_inv (mkSystem w' (<[k := mkTracked cd' (torn || tears cd block buffer r)]> disks) run past).
Proof.
  intros Hinv Hk Hid Hrun. destruct torn; [by eapply inv_write_torn|].
  pose proof Hinv as (Hd & Hgr & Hpast). pose proof Hd as [Hwf Hiss Hnd Hall].
  pose proof (Forall_lookup_1 _ _ _ _ Hall Hk) as Hok. cbn in Hok. cbn [orb].
  assert (torn_ok (rw_storage w) cd) as Ht by (by eapply disk_overlay_lt).
  assert (wp (Disk.write_at block buffer)
    (fun _ x => exists O', written dir (overlays disks) cd O w x.2 O' x.1)
    (fun _ x => tears cd block buffer (Err (RawOs EIO)) = true \/ x = (w, cd)) (w, cd)) as Hwp.
  { apply (wp_write_at dir _ _ (overlays disks) O); [done|done|done|done| | |].
    - intros cd1 O1 w1 _ Wr. by exists O1.
    - by right.
    - intros e w1 cd1 He _. left. unfold tears. by rewrite He. }
  pose proof (wp_write_at_torn block buffer w cd (fun _ x => drifted w cd x.1 x.2) (fun _ x => drifted w cd x.1 x.2)
    Hwf Ht Hid (fun _ _ _ D => D) (fun _ _ _ D => D)) as Hdr.
  eapply wp_elim in Hwp; [|exact Hrun]. eapply wp_elim in Hdr; [|exact Hrun].
  rewrite <-(app_nil_r (<[k:=_]> disks)). destruct r as [n|e].
  - destruct Hwp as [O1 [G1 W1 HO I1 K1 E1 _]]. cbn in *.
    eapply (sys_inv_update w w' O O1); try done; [by left|apply NoDup_singleton|].
    intros disks' Hret. split; [|apply Forall_forall; by left]. constructor; [|constructor]. unfold tracked_ok. cbn.
    eapply (disk_ok_grows ∅ _ _ O1 O1 (overlays disks)); [exact W1|apply grows_refl|done|set_solver|set_solver| |done].
    intros i (c & Hc & ->)%elem_of_overlays. left. apply elem_of_overlays.
    destruct (elem_of_update _ _ _ _ _ Hk Hnd _ Hc) as [-> |[Hx|[Hx _]]]; [|by apply not_elem_of_nil in Hx|by exists c].
    exists (mkTracked cd false). split; [by eapply list_elem_of_lookup_2|done].
  - destruct (tears cd block buffer (Err e)) eqn:Htear.
    { eapply inv_drifted; [exact Hinv|exact Hk|done|exact Hdr|constructor|cbn; lia]. }
    destruct Hwp as [Htr|[= -> ->]]; [unfold tears in *; cbn in *; congruence|].
    rewrite app_nil_r, list_insert_id by done. by exists O.
Qed.

Lemma kept_singleton w w' o : kept w w' -> grows {[ o ]} (rw_storage w) (rw_storage w').
Proof. intros (G & _). eapply grows_mono; [|exact G]. set_solver. Qed.

Lemma inv_fork w O disks run past k cd torn w' cd' r :
  inv_parts w O disks run past -> disks !! k = Some (mkTracked cd torn) ->
  Disk.fork (w, cd) = ((w', cd'), r) ->
  sys_inv (mkSystem w' (<[k := mkTracked cd' torn]> disks ++
    match r with Ok child => [mkTracked child torn] | Err _ => [] end) run past).
Proof.
  intros Hinv Hk Hrun. pose proof Hinv as (Hd & Hgr & Hpast). pose proof Hd as [Hwf Hiss Hnd Hall].
  pose proof (Forall_lookup_1 _ _ _ _ Hall Hk) as Hok.
  assert (wp Disk.fork
    (fun child s => sys_inv (mkSystem s.1 (<[k := mkTracked s.2 torn]> disks ++ [mkTracked child torn]) run past))
    (fun _ s => sys_inv (mkSystem s.1 (<[k := mkTracked s.2 torn]> disks ++ []) run past)) (w, cd)) as Hwp.
  2:{ eapply wp_elim in Hwp; [|exact Hrun]. by destruct r. }
  destruct torn; unfold tracked_ok in Hok; cbn in Hok.
  { apply wp_disk_fork_torn; [done|done| |].
    - intros child w1 cd1 D Hc Hge Hne. eapply inv_drifted; [exact Hinv|exact Hk|done|exact D| |cbn; lia].
      constructor; [|constructor]. by split_and!.
    - intros e w1 cd1 D. eapply inv_drifted; [exact Hinv|exact Hk|done|exact D|constructor|cbn; lia]. }
  apply (wp_disk_fork dir O (overlays disks)); [done|done| |]; cbn.
  - intros child w1 cd1 [Hk1 Ho1 Hok1 _ _] Hokc _ _ Hge Hne.
    eapply (sys_inv_update w w1 O O); try done.
    + by apply kept_singleton.
    + apply Hk1.
    + by eapply issued_kept.
    + by constructor.
    + apply NoDup_cons. split; [|apply NoDup_singleton]. by rewrite list_elem_of_singleton.
    + intros disks' Hret. split; [|apply Forall_forall; by left]. constructor; [by apply Hok1|].
      constructor; [by apply Hokc|constructor].
  - intros e w1 cd1 [Hk1 Ho1 Hok1 _ _]. eapply (sys_inv_update w w1 O O); try done.
    + by apply kept_singleton.
    + apply Hk1.
    + by eapply issued_kept.
    + apply NoDup_singleton.
    + intros disks' Hret. split; [|apply Forall_forall; by left]. constructor; [by apply Hok1|constructor].
Qed.

Lemma inv_checkpoint_torn w O disks run past k cd w' cd' r :
  inv_parts w O disks run past -> disks !! k = Some (mkTracked cd true) ->
  Disk.durable_state (w, cd) = ((w', cd'), r) ->
  sys_inv (mkSystem w' (<[k := mkTracked cd' true]> disks) run past).
Proof.
  intros Hinv Hk Hrun. pose proof Hinv as ([Hwf _ _ Hall] & _).
  pose proof (Forall_lookup_1 _ _ _ _ Hall Hk) as Hok. cbn in Hok.
  eapply (wp_elim _ (fun _ x => drifted w cd x.1 x.2) (fun _ x => drifted w cd x.1 x.2)) in Hrun;
    [|by apply wp_durable_state_torn]. rewrite <-(app_nil_r (<[k:=_]> disks)).
  eapply inv_drifted; [exact Hinv|exact Hk|done|by destruct r|constructor|cbn; lia].
Qed.

Lemma inv_checkpoint w O disks run past k cd torn w' cd' r :
  inv_parts w O disks run past -> disks !! k = Some (mkTracked cd torn) ->
  Disk.durable_state (w, cd) = ((w', cd'), r) ->
  sys_inv (mkSystem w' (<[k := mkTracked cd' torn]> disks)
    (match r with
     | Ok s => if torn : bool then run else (s, Disk.visible_blocks cd) :: run
     | Err _ => run
     end) past).
Proof.
  intros Hinv Hk Hrun. destruct torn.
  { replace (match r with Ok _ => run | Err _ => run end) with run by (by destruct r). by eapply inv_checkpoint_torn. }
  pose proof Hinv as (Hd & Hgr & Hpast). pose proof Hd as [Hwf Hiss Hnd Hall].
  pose proof (Forall_lookup_1 _ _ _ _ Hall Hk) as Hok. cbn in Hok. rewrite <-(app_nil_r (<[k:=_]> disks)).
  assert (wp Disk.durable_state
    (fun s x => sys_inv (mkSystem x.1 (<[k := mkTracked x.2 false]> disks ++ []) ((s, Disk.visible_blocks cd) :: run) past))
    (fun _ x => sys_inv (mkSystem x.1 (<[k := mkTracked x.2 false]> disks ++ []) run past)) (w, cd)) as Hwp.
  2:{ eapply wp_elim in Hwp; [|exact Hrun]. by destruct r. }
  assert (forall w1 cd1 run', disk_moved dir w O (overlays disks) cd w1 cd1 ->
    (forall X', retires (rw_storage w) (overlays disks) (overlay_of cd) (overlay_of cd1) X' ->
      Forall (fun c => c ∈ run \/ ckpt_ok dir (rw_storage w1) O X' c.1 c.2) run') ->
    sys_inv (mkSystem w1 (<[k := mkTracked cd1 false]> disks ++ []) run' past)) as Hgen.
  { intros w1 cd1 run' [Hk1 Ho1 Hok1 _ _] Hrun'. eapply (sys_inv_update w w1 O O); try done.
    - by apply kept_singleton.
    - apply Hk1.
    - by eapply issued_kept.
    - apply NoDup_singleton.
    - intros disks' Hret. split; [|by apply Hrun']. constructor; [by apply Hok1|constructor]. }
  apply (wp_durable_state dir O (overlays disks)); [done|done| |]; cbn.
  - intros s w1 cd1 Hm _ _ Hck. apply Hgen; [done|]. intros X' HX. constructor; [right; by apply Hck|].
    apply Forall_forall. by left.
  - intros e w1 cd1 Hm. apply Hgen; [done|]. intros X' _. apply Forall_forall. by left.
Qed.

Lemma overlays_snoc disks t : overlays (disks ++ [t]) = overlays disks ∪ {[ overlay_tk t ]}.
Proof. unfold overlays. rewrite fmap_app, list_to_set_app_L. cbn. set_solver. Qed.

Lemma inv_create w O disks run past size w' r :
  inv_parts w O disks run past -> Disk.durable dir size w = (w', r) ->
  sys_inv (mkSystem w' (match r with Ok cd => disks ++ [mkTracked cd false] | Err _ => disks end) run past).
Proof.
  intros Hinv Hrun. pose proof Hinv as ([Hwf Hiss Hnd Hall] & Hgr & Hpast).
  assert (wp (Disk.durable dir size) (fun cd w' => sys_inv (mkSystem w' (disks ++ [mkTracked cd false]) run past))
    (fun _ w' => sys_inv (mkSystem w' disks run past)) w) as Hwp.
  2:{ eapply wp_elim in Hwp; [|exact Hrun]. by destruct r. }
  apply (wp_disk_durable dir O); [done| |].
  - intros cd w1 Hk Ho Hok _ _. pose proof Hk as (G & Hwf1 & _). set (t := mkTracked cd false).
    assert (overlay_tk t = sto_next (rw_storage w)) as Ht by done.
    assert (no_older (rw_storage w) (overlays disks) (overlays (disks ++ [t]))) as HX.
    { intros i. rewrite overlays_snoc, elem_of_union, elem_of_singleton. intros [?| ->]; [by left|right; lia]. }
    rewrite Forall_forall in Hall. exists O. split_and!; cbn.
    + split; [done|by eapply issued_kept| |].
      * rewrite fmap_app. apply NoDup_app. split_and!; [done| |apply NoDup_singleton].
        intros o (c & -> & Hc)%list_elem_of_fmap. cbn. rewrite list_elem_of_singleton.
        apply Hall in Hc. apply overlay_lt in Hc; [lia|done].
      * apply Forall_forall. intros c [Hc| ->%list_elem_of_singleton]%elem_of_app; [|apply Hok].
        eapply (tracked_ok_grows ∅ _ _ O O (overlays disks)); [exact Hwf|exact G|done|set_solver|set_solver|exact HX|by apply Hall].
    + eapply (group_ok_grows ∅ _ _ O O (overlays disks)); [exact Hwf|exact G|done|set_solver|exact HX|exact Hgr].
    + eapply (past_grows ∅ _ _ (overlays disks)); [exact Hwf|exact G|set_solver|exact HX|exact Hpast].
  - intros e w1 Hk. eapply (sys_inv_shrink ∅); [exact Hinv|done|apply Hk|apply Hk|set_solver|set_solver|].
    by eapply issued_kept.
Qed.

(** ** Restarting *)

Record disks_restored O objects sel w (x : list CowDisk * Blocks) w' X : Prop := {
  dr_kept : hkept w w';
  dr_objects : objects ⊆ x.2;
  dr_sub : x.2 ⊆ O;
  dr_issued : issued w objects -> issued w' x.2;
  dr_distinct : NoDup (overlay_of <$> x.1);
  dr_fresh : Forall (fun cd => sto_next (rw_storage w) <= overlay_of cd) x.1;
  dr_ok : Forall (disk_ok dir (rw_storage w') x.2 X) x.1;
  dr_blocks : Forall2 (fun (c : Checkpoint) cd => Disk.visible_blocks cd = c.2 /\ cd_size cd = ds_size c.1) sel x.1
}.

Lemma wp_restore_disks O X sel objects w Q R :
  storage_wf (rw_storage w) -> group_ok (rw_storage w) O X sel -> objects ⊆ O ->
  (forall x w', disks_restored O objects sel w x w' X -> Q x w') ->
  (forall e w', hkept w w' -> ~ restorable dir (2 * lenN sel) w -> R e w') ->
  wp (restore_disks dir sel.*1 objects) Q R w.
Proof.
  revert objects w Q R. induction sel as [|[s V] sel IH]; intros objects w Q R Hwf Hg HO HQ HR; cbn.
  { wp_steps. apply HQ. split; cbn; [split; [apply grows_refl|done]|done|done|done|constructor..]. }
  apply Forall_cons in Hg as [Hc Hg]. assert (lenN ((s, V) :: sel) = 1 + lenN sel) as Hlen by (unfold lenN; cbn; lia).
  wp_steps. eapply (wp_restore dir O X); [done|exact Hc|done| |].
  2:{ intros e w1 Hk1 Hno. apply HR; [done|]. intros ([Hc1 Hr] & ? & ?). apply Hno. split; [split; [done|lia]|done]. }
  intros [[[d base] writes] objects1] w1 [Hk1 H1 H2 H3 H4 H5 H6 H7]. cbn in *. wp_steps. pose proof Hk1 as [G1 Hwf1].
  apply IH; [done| |done| |].
  { eapply (group_ok_grows ∅ _ _ O O X); [exact Hwf|exact G1|done|set_solver|by left|exact Hg]. }
  2:{ intros e w2 Hk2 Hno. apply HR; [by eapply hkept_trans|]. intros Hr. apply Hno, H7.
      by replace (2 * lenN sel + 2) with (2 * lenN ((s, V) :: sel)) by lia. }
  intros [disks objects2] w2 [Hk2 J1 J2 J3 J4 J5 J6 J7]. cbn in *. wp_steps. apply HQ.
  pose proof Hk2 as [G2 Hwf2]. set (cd := mkDisk (ds_size s) base writes (Some d)).
  assert (overlay_of cd = sto_next (rw_storage w)) as Ho by done.
  assert (disk_ok dir (rw_storage w1) objects1 X cd) as Hok by (apply H5; by left).
  split; cbn; [by eapply hkept_trans|by etrans|done|auto| | | |by constructor].
  - apply NoDup_cons. split; [|done]. intros (c & Heq & Hin)%list_elem_of_fmap.
    rewrite Forall_forall in J5. apply J5 in Hin. apply disk_overlay_lt, torn_overlay_lt in Hok; [lia|done].
  - constructor; [lia|]. eapply Forall_impl; [exact J5|]. cbn. intros c Hcc. destruct G1. lia.
  - constructor; [|done]. eapply (disk_ok_grows ∅ _ _ _ _ X); [exact Hwf1|exact G2|exact J1|set_solver|set_solver|by left|done].
Qed.

Lemma crash_group st st' O X g sel : crash_to st st' -> group_ok st O X g -> sel ⊆ g -> group_ok st' O ∅ sel.
Proof.
  intros C Hg Hsel. unfold group_ok in *. rewrite Forall_forall in Hg. apply Forall_forall. intros c Hc.
  eapply crash_ckpt; [exact C|by apply Hg, Hsel].
Qed.

Lemma issued_nothing w : issued w ∅.
Proof. intros id b Hb. by rewrite lookup_empty in Hb. Qed.

Lemma inv_restart w O disks run past st group sel w' r :
  inv_parts w O disks run past -> crash_to (rw_storage w) st -> group ∈ run :: past -> sel ⊆ group ->
  restore_disks dir sel.*1 ∅ (mkRWorld initial_statics st) = (w', r) ->
  sys_inv (mkSystem w' (match r with Ok (disks', _) => (fun cd => mkTracked cd false) <$> disks' | Err _ => [] end)
    [] (run :: past)).
Proof.
  intros ([Hwf _ _ _] & Hgr & Hpast) C Hgroup Hsel Hrun.
  assert (Forall (fun g => exists O', group_ok st O' ∅ g) (run :: past)) as Hgs.
  { constructor; [exists O; by eapply crash_group|]. eapply Forall_impl; [exact Hpast|].
    intros g [O' Hg]. exists O'. by eapply crash_group. }
  pose proof (crash_wf _ _ Hwf C) as Hwf'. pose proof Hgs as Hsel'. rewrite Forall_forall in Hsel'.
  destruct (Hsel' _ Hgroup) as [Og Hg]. set (w0 := mkRWorld initial_statics st) in *.
  assert (forall X, no_older st ∅ X -> group_ok st Og X sel) as HgX.
  { intros X HX. eapply (group_ok_grows ∅ _ _ Og Og ∅); [exact Hwf'|apply grows_refl|done|done|exact HX|].
    unfold group_ok in *. rewrite Forall_forall in Hg. apply Forall_forall. auto. }
  assert (forall X, no_older st ∅ X -> hkept w0 w' ->
    Forall (fun g => exists O', group_ok (rw_storage w') O' X g) (run :: past)) as Hpast'.
  { intros X HX [G _]. by eapply (past_grows ∅ st). }
  assert (forall X, no_older st ∅ X -> match r with
    | Ok x => disks_restored Og ∅ sel w0 x w' X | Err _ => hkept w0 w' end) as Hres.
  { intros X HX. eapply wp_elim in Hrun; [|eapply (wp_restore_disks Og X sel ∅ w0
      (fun x w' => disks_restored Og ∅ sel w0 x w' X) (fun _ w' => hkept w0 w'))]; try done.
    - by apply HgX.
    - apply map_empty_subseteq. }
  destruct r as [[disks' objects]|e].
  - set (ts := (fun cd => mkTracked cd false) <$> disks').
    assert (overlay_tk <$> ts = overlay_of <$> disks') as Hts by (unfold ts; by rewrite <-list_fmap_compose).
    assert (no_older st ∅ (overlays ts)) as HX.
    { destruct (Hres ∅) as [_ _ _ _ _ Hfr _ _]; [by left|]. intros i Hi. unfold overlays in Hi.
      rewrite Hts, elem_of_list_to_set, list_elem_of_fmap in Hi. destruct Hi as (c & -> & Hc).
      rewrite Forall_forall in Hfr. right. by apply Hfr. }
    destruct (Hres _ HX) as [Hk _ _ Hi Hnd _ Hok _]. exists objects. split_and!; cbn; [|by apply Forall_nil|by apply Hpast'].
    split; [apply Hk|apply Hi, issued_nothing|by rewrite Hts|by apply Forall_fmap].
  - assert (hkept w0 w') as Hk by (apply (Hres ∅); by left).
    exists ∅. split_and!; cbn; [|by apply Forall_nil|apply Hpast'; [by left|done]].
    split; [apply Hk|apply issued_nothing|constructor|constructor].
Qed.

Lemma step_inv s s' : sys_inv s -> step s s' -> sys_inv s'.
Proof.
  intros [O Hinv] Hstep. destruct Hstep; cbn in Hinv.
  - by eapply inv_create.
  - by eapply inv_write.
  - by eapply inv_fork.
  - by eapply inv_checkpoint.
  - pose proof Hinv as ([Hwf Hiss _ _] & _). eapply (sys_inv_shrink ∅);
      [exact Hinv|apply sublist_delete|apply grows_refl|done|set_solver|set_solver|done].
  - destruct Hinv as ([Hwf Hiss Hnd Hall] & Hg & Hp). exists O. split; [|done]. split; [done| |done|done].
    intros id b Hb. cbn. match goal with E : next_block_id _ = _ |- _ => rewrite E end. by eapply Hiss.
  - by eapply inv_restart.
Qed.

Lemma boot_inv : sys_inv boot.
Proof.
  exists ∅. split_and!; cbn; [|by apply Forall_nil|by apply Forall_nil].
  split; [by split|apply issued_nothing|constructor|constructor].
Qed.

Lemma reachable_inv s : reachable s -> sys_inv s.
Proof.
  intros Hr. unfold reachable in Hr. remember boot as s0 eqn:Hs0.
  assert (sys_inv s0) as H0 by (rewrite Hs0; apply boot_inv). clear Hs0.
  induction Hr as [|s1 s2 s3 H12 _ IH]; [done|]. by eapply IH, step_inv.
Qed.

(** Restoring any checkpoints of one run after a crash. *)
Lemma wp_restart s group sel st :
  reachable s -> group ∈ runs s -> sel ⊆ group -> crash_to (rw_storage (sy_world s)) st ->
  sto_sched st = [] -> dir ∈ sto_dirs st ->
  N.of_nat (size (sto_names st)) + 2 * lenN sel <= u64_MAX ->
  wp (restore_disks dir sel.*1 ∅)
    (fun x _ => Forall2 (fun (c : Checkpoint) cd => Disk.visible_blocks cd = c.2 /\ cd_size cd = ds_size c.1) sel x.1)
    (fun _ _ => False) (mkRWorld initial_statics st).
Proof.
  intros (O & [Hwf _ _ _] & Hrun & Hpast)%reachable_inv Hgroup Hsel C Hcalm Hdir Hroom.
  assert (exists Og, group_ok st Og ∅ sel) as [Og Hg].
  { unfold runs in Hgroup. apply elem_of_cons in Hgroup as [-> |Hin].
    - exists O. by eapply crash_group.
    - rewrite Forall_forall in Hpast. destruct (Hpast _ Hin) as [O' HO']. exists O'. by eapply crash_group. }
  apply (wp_restore_disks Og ∅); [by eapply crash_wf|done|apply map_empty_subseteq| |].
  - intros x w' D. apply D.
  - intros e w' _ Hno. apply Hno. split; [by split|]. split; [|done]. cbn. unfold u64_MAX. lia.
Qed.

(** C7. Whatever the disks of a directory have gone through (writes, forks,
    checkpoints, host failures, crashes and restarts, and the further use of
    disks whose append failed), after one more crash every checkpoint of any
    earlier run restores, but for those taken of a disk after an append to it,
    or to a disk it was forked from, had failed in that run: with a host that
    makes no error and room for the new names, restoring any selection of the
    checkpoints of one run succeeds, and every restored disk has exactly the
    blocks (numbers and contents) and the size its disk had when the
    checkpoint was taken. *)
Theorem checkpoints_survive_crashes s group sel st :
  reachable s -> group ∈ runs s -> sel ⊆ group -> crash_to (rw_storage (sy_world s)) st ->
  sto_sched st = [] -> dir ∈ sto_dirs st ->
  N.of_nat (size (sto_names st)) + 2 * lenN sel <= u64_MAX ->
  exists w disks objects,
    restore_disks dir sel.*1 ∅ (mkRWorld initial_statics st) = (w, Ok (disks, objects)) /\
    Forall2 (fun (c : Checkpoint) cd =>
      Disk.visible_blocks cd = c.2 /\ cd_size cd = ds_size c.1) sel disks.
Proof.
  intros Hr Hg Hs C Hc Hd Hn. pose proof (wp_restart s group sel st Hr Hg Hs C Hc Hd Hn) as Hwp.
  unfold wp in Hwp. destruct (restore_disks _ _ _ _) as [w' [[disks objects]|e]]; [|done]. by exists w', disks, objects.
Qed.

(** ** Torn records *)

(** The overlay of a disk, which has its name in the directory, holds part of
    a record. *)
Definition holds_partial w (cd : CowDisk) : Prop :=
  exists d bytes, cd_durable cd = Some d /\ du_dir d = dir /\ storage_wf (rw_storage w) /\
    sto_names (rw_storage w) !! overlay_path dir (du_overlay_id d) = Some (du_overlay d) /\
    sto_data (rw_storage w) !! du_overlay d = Some bytes /\ lenN bytes mod LAYER_RECORD_SIZE <> 0.

Lemma lenN_record a b : length (block_bytes b) = block_nat -> lenN (record_bytes (a, b)) = LAYER_RECORD_SIZE.
Proof.
  intros Hb. unfold lenN, record_bytes. cbn [fst snd]. rewrite !length_app, !length_le_bytes, Hb.
  pose proof block_nat_N. unfold LAYER_RECORD_SIZE. lia.
Qed.

(** A write that succeeds adds whole records. *)
Lemma wp_chunk_partial a chunk w cd :
  full cd -> holds_partial w cd -> (length chunk <= block_nat)%nat ->
  wp (Disk.write_chunk a chunk) (fun _ x => full x.2 /\ holds_partial x.1 x.2) (fun _ _ => True) (w, cd).
Proof.
  intros Hfull (d & bytes & Hd & Hdir & Hwf & Hn & Hdata & Hpart) Hc.
  pose proof (length_stored cd a Hfull) as Hlen. unfold Disk.write_chunk. wp_steps. cbn [snd].
  unfold wp at 1, Disk.next_block. wp_steps. cbn [snd cd_durable]. rewrite Hd. wp_steps. apply wp_on_durable.
  eapply wp_append; [exact Hwf|exact Hdata| |done]. intros st' G Hwf' Hn' Hd'. cbn [fst snd]. split.
  { apply (overwrites_intro cd a chunk _ (Some d) Hfull Hc). }
  eexists d, _. split; [done|]. split; [done|]. split; [done|]. cbn. split; [by rewrite Hn'|]. split; [exact Hd'|].
  rewrite lenN_app, lenN_record by (cbn; rewrite length_app, length_drop; lia).
  rewrite <-N.Div0.add_mod_idemp_r, N.Div0.mod_same, N.add_0_r. done.
Qed.

Lemma wp_chunks_partial buffer a w cd :
  full cd -> holds_partial w cd -> Forall (fun chunk => (length chunk <= block_nat)%nat) buffer ->
  wp (Disk.write_chunks a buffer) (fun _ x => full x.2 /\ holds_partial x.1 x.2) (fun _ _ => True) (w, cd).
Proof.
  revert a w cd. induction buffer as [|chunk buffer IH]; intros a w cd Hfull Hp Hb; cbn; [done|].
  apply Forall_cons in Hb as [Hc Hb]. wp_steps. eapply wp_mono; [by apply wp_chunk_partial| |done].
  intros _ [w1 cd1] [F1 P1]. by apply IH.
Qed.

(** Writes one after the other, up to the first that fails. *)
Definition write_each (writes : list (N * list byte)) : M (RWorld * CowDisk) io_error unit :=
  for_each (fun x => _ ← Disk.write_at x.1 x.2; mret tt) writes.

Lemma wp_write_each_partial writes w cd :
  full cd -> holds_partial w cd ->
  wp (write_each writes) (fun _ x => full x.2 /\ holds_partial x.1 x.2) (fun _ _ => True) (w, cd).
Proof.
  unfold write_each. revert w cd. induction writes as [|[block buffer] writes IH]; intros w cd Hfull Hp; cbn; [done|].
  wp_steps. unfold Disk.write_at. wp_steps. cbn [snd].
  destruct (Disk.check_range cd block (lenN buffer)); [|done]. wp_steps.
  eapply wp_mono; [apply wp_chunks_partial; [done|done|apply chunks_bounded]| |done].
  intros _ [w1 cd1] [F1 P1]. wp_steps. by apply IH.
Qed.

(** A file that holds part of a record does not load. *)
Lemma wp_load_partial p i bytes objects visible w :
  storage_wf (rw_storage w) -> sto_names (rw_storage w) !! p = Some i ->
  sto_data (rw_storage w) !! i = Some bytes -> lenN bytes mod LAYER_RECORD_SIZE <> 0 ->
  wp (Durable.load_records p objects visible) (fun _ _ => False) (fun _ _ => True) w.
Proof.
  intros Hwf Hp Hd Hpart. unfold Durable.load_records, Durable.sto. wp_steps. apply wp_read_path; [|done|done].
  intros j st' _ Hj _. assert (j = i) as -> by congruence. unfold inode_bytes. rewrite Hd. cbn.
  by rewrite (proj2 (N.eqb_neq _ _) Hpart).
Qed.

(** Loading touches no name and no file. *)
Definition undisturbed w w' : Prop := same_names (rw_storage w) (rw_storage w').

#[local] Instance undisturbed_preorder : PreOrder undisturbed.
Proof.
  split; [intros w; apply same_names_refl|]. intros w1 w2 w3 H12 H23. by eapply same_names_trans.
Qed.

#[local] Instance same_names_preorder : PreOrder same_names.
Proof. split; [intros st; apply same_names_refl|]. intros st1 st2 st3 H12 H23. by eapply same_names_trans. Qed.

Lemma call_same : Prelude.keeps same_names Sto.call.
Proof.
  intros st. unfold Sto.call. destruct (sto_sched st) as [|[e|n|] rest] eqn:Hs; cbn; [apply same_names_refl|..];
    (split; [apply call_grows; by rewrite Hs|]; split_and!; try done; cbn; rewrite Hs; cbn; lia).
Qed.

Lemma load_records_undisturbed p objects visible : Prelude.keeps undisturbed (Durable.load_records p objects visible).
Proof.
  unfold Durable.load_records. keeps_steps.
  - unfold Durable.sto, Sto.read, Sto.open. apply (keeps_zoom same_names); [done|]. keeps_steps; apply call_same.
  - generalize (chunks record_nat a) as records. intros records. revert objects visible.
    induction records as [|r records IH]; intros objects visible; cbn [Durable.load_all]; keeps_steps; [|apply IH].
    unfold Durable.load_record, Durable.fetch_max_block. keeps_steps; intros w; apply same_names_refl.
Qed.

Lemma load_layers_undisturbed dir' layers : forall objects visible,
  Prelude.keeps undisturbed (Durable.load_layers dir' layers objects visible).
Proof.
  induction layers as [|layer layers IH]; intros objects visible; cbn [Durable.load_layers]; keeps_steps;
    [apply load_records_undisturbed|apply IH].
Qed.

(** C33. An append that fails part way is reported as an error of that write, but
    what it wrote stays in the overlay: once the overlay of a disk holds part
    of a record, then whatever is written to the disk afterwards, the next
    checkpoint that succeeds cannot be restored, on whatever host, whatever
    else survives a crash. *)
Theorem torn_append_spoils_checkpoints writes w cd w1 cd1 w2 cd2 s st g objects :
  full cd -> holds_partial w cd -> write_each writes (w, cd) = ((w1, cd1), Ok tt) ->
  Disk.durable_state (w1, cd1) = ((w2, cd2), Ok s) -> crash_to (rw_storage w2) st ->
  exists e, (Durable.restore dir s objects (mkRWorld g st)).2 = Err e.
Proof.
  intros Hfull Hp Hwrites Hck C.
  eapply wp_elim in Hwrites; [|by apply wp_write_each_partial]. destruct Hwrites as [_ (d & bytes & Hd & Hdir & Hwf & Hn & Hdata & Hpart)].
  cbn [fst snd] in *. assert (torn_ok (rw_storage w1) cd1) as Ht by (exists d; split; [done|by eapply wf_names]).
  eapply (wp_elim _ (fun s x => saved_as w1 d x.1 s /\ drifted w1 cd1 x.1 x.2) (fun _ _ => True)) in Hck.
  2:{ apply wp_durable_state_torn; [done|done| |done]. intros s' w' cd' D Hs. split; [by apply Hs|exact D]. }
  destruct Hck as [(_ & Ho & Hsync & Hdata2 & Hnames) [G2 Hwf2 _ _ _]]. cbn [fst snd] in *.
  assert (sto_names st !! overlay_path dir (du_overlay_id d) = Some (du_overlay d)) as Hname.
  { pose proof (Hnames _ _ Hn) as Hs. rewrite Hdir in Hs. specialize (Hs eq_refl).
    destruct (crash_names _ _ C (overlay_path dir (du_overlay_id d))) as [-> | ->]; [by eapply grows_name|done]. }
  assert (sto_data st !! du_overlay d = Some bytes) as Hbytes by (rewrite (crash_data _ _ C) by done; congruence).
  assert (wp (Durable.restore dir s objects) (fun _ _ => False) (fun _ _ => True) (mkRWorld g st)) as Hr.
  2:{ unfold wp in Hr. destruct (Durable.restore _ _ _ _) as [w' [x|e]]; [done|by exists e]. }
  unfold Durable.restore. wp_steps. apply (wp_keeps undisturbed); [apply load_layers_undisturbed| |done].
  intros [objects1 base] w' U. pose proof U as (G & En & _). rewrite Ho. wp_steps.
  pose proof (crash_wf _ _ Hwf2 C) as Hwf3.
  eapply wp_mono; [eapply (wp_load_partial _ (du_overlay d) bytes)| |done].
  - by eapply wf_same_names.
  - by rewrite En.
  - rewrite (grows_data _ _ _ G); [done|by eapply wf_names|set_solver].
  - done.
  - by intros [??] ? [].
Qed.

End durable_spec.
