(* ===== verification/RedoxFacts.v ===== *)
(** * RedoxFS branches: forks, identities and restarts

    What a branch promises whatever the file system engine does with its disk,
    and what it promises when opening a file system only reads the disk. *)

From S2P Require Import Prelude Generations Host CacheTypes SharedCache Identity Storage DurableCowDisk CowDisk RedoxBranch DiskLog DurableFiles DurableDisk DurableOps DiskIO DurableSpec.

Lemma Forall2_zip {A B C D} (P : A -> B -> Prop) (Q : A -> D -> Prop) (g : A -> C) (f : C -> B -> D) l k :
  Forall2 P l k -> (forall a b, a ∈ l -> P a b -> Q a (f (g a) b)) -> Forall2 Q l (zip_with f (g <$> l) k).
Proof.
  intros Hf. induction Hf as [|a b l k Hab Hf IH]; intros HQ; cbn; constructor.
  - apply HQ; [by left|done].
  - apply IH. intros a' b' Ha'. apply HQ. by right.
Qed.

(** ** Programs that only read *)

Fixpoint read_only {A} (p : DiskProg A) : Prop :=
  match p with
  | Done _ => True
  | ReadAt _ _ next => forall r, read_only (next r)
  | WriteAt _ _ _ => False
  | SizeOf next => forall n, read_only (next n)
  end.

(** [FileSystem::open] without cleanup reads the header ring and the
    allocation log and writes nothing. *)
Class RedoxLaws (FS : Type) `{!RedoxEngine FS} : Prop := {
  open_reads_only block : read_only (fs_open (FS := FS) block)
}.

Lemma same_disk_read cd cd' block len : same_disk cd cd' -> Disk.read_at cd' block len = Disk.read_at cd block len.
Proof.
  intros [Hsz HV]. unfold Disk.read_at, Disk.check_range. rewrite Hsz.
  assert (forall a, Disk.stored_bytes cd' a = Disk.stored_bytes cd a) as Hst.
  { intros a. unfold Disk.stored_bytes. by rewrite <-!lookup_visible_blocks, HV. }
  assert (forall buffer a, Disk.read_chunks cd' a buffer = Disk.read_chunks cd a buffer) as Hch.
  { induction buffer as [|c buffer IH]; intros a; [done|]. cbn. by rewrite Hst, IH. }
  by rewrite Hch.
Qed.

Lemma run_read_only {A} (p : DiskProg A) w cd w' cd' :
  read_only p -> same_disk cd cd' ->
  (run_disk p (w', cd')).1 = (w', cd') /\ (run_disk p (w', cd')).2 = (run_disk p (w, cd)).2.
Proof.
  intros Hp Hs. induction p as [a|block len next IH|block buffer next IH|next IH]; cbn in *; [done| |done|].
  - rewrite (same_disk_read cd cd') by done. by apply IH.
  - unfold Disk.size. destruct Hs as [-> _]. by apply IH.
Qed.

(** ** Engine runs as steps of the disk *)

(** Every write of the run succeeds or is out of range, and block numbers do
    not run out. *)
Fixpoint clean_run {A} (p : DiskProg A) (s : RWorld * CowDisk) : bool :=
  match p with
  | Done _ => true
  | ReadAt block len next => clean_run (next (Disk.read_at s.2 block len)) s
  | WriteAt block buffer next =>
      let '(s', r) := Disk.write_at block buffer s in
      (next_block_id (rw_statics s.1) + lenN (chunks block_nat buffer) <=? u64_MAX) &&
      (is_ok r || negb (is_ok (Disk.check_range s.2 block (lenN buffer)))) && clean_run (next r) s'
  | SizeOf next => clean_run (next (Ok (Disk.size s.2))) s
  end.

Lemma run_disk_steps {A} (p : DiskProg A) dir w disks run past k cd torn :
  disks !! k = Some (mkTracked cd torn) -> clean_run p (w, cd) = true ->
  rtc (step dir) (mkSystem w disks run past)
    (mkSystem (run_disk p (w, cd)).1.1 (<[k := mkTracked (run_disk p (w, cd)).1.2 torn]> disks) run past).
Proof.
  revert w disks cd. induction p as [a|block len next IH|block buffer next IH|next IH]; intros w disks cd Hk Hc; cbn in *.
  - rewrite list_insert_id by done. apply rtc_refl.
  - by apply IH.
  - destruct (Disk.write_at block buffer (w, cd)) as [[w' cd'] r] eqn:Hw.
    apply andb_prop in Hc as [Hc Hrest]. apply andb_prop in Hc as [Hid Hok]. apply N.leb_le in Hid.
    eapply rtc_l; [by eapply (step_write dir w disks run past k cd torn block buffer w' cd' r)|].
    assert (tears cd block buffer r = false) as ->.
    { unfold tears. cbn in Hok. by destruct (is_ok r), (is_ok (Disk.check_range cd block (lenN buffer))). }
    rewrite orb_false_r. etrans; [apply (IH r w' (<[k:=mkTracked cd' torn]> disks) cd'); [|done]|].
    + apply list_lookup_insert_eq. by eapply lookup_lt_Some.
    + rewrite list_insert_insert, decide_True by done. apply rtc_refl.
  - by apply IH.
Qed.

(** ** Maps in iteration order *)

Section btree_lists.
Context {K V : Type} `{Countable K} `{!KeyOrder K}.
Implicit Types m : gmap K V.

Lemma elem_of_btree_list m k v : (k, v) ∈ btree_list m <-> m !! k = Some v.
Proof.
  unfold btree_list. rewrite list_elem_of_omap. split.
  - intros (k' & _ & Hk). destruct (m !! k') eqn:E; cbn in Hk; congruence.
  - intros Hk. exists k. rewrite elem_of_btree_keys, Hk. split; [by eexists|done].
Qed.

Lemma lookup_btree_collect (l : list (K * V)) k v :
  btree_collect l !! k = Some v -> (k, v) ∈ l.
Proof.
  unfold btree_collect. induction l as [|[k' v'] l IH] using rev_ind; [done|].
  rewrite foldl_app, elem_of_app. cbn. intros [[-> ->]|[_ ?]]%lookup_insert_Some; [right; left|left; auto].
Qed.

Lemma btree_collect_list m : btree_collect (btree_list m) = m.
Proof.
  apply map_eq. intros k. destruct (btree_collect (btree_list m) !! k) as [v|] eqn:E.
  - symmetry. by apply elem_of_btree_list, lookup_btree_collect.
  - destruct (m !! k) as [v|] eqn:Hk; [|done]. exfalso. apply elem_of_btree_list in Hk. revert E Hk.
    unfold btree_collect. generalize (btree_list m). intros l.
    induction l as [|[k' v'] l IH] using rev_ind; [by intros _ ?%elem_of_nil|].
    rewrite foldl_app, elem_of_app, list_elem_of_singleton. cbn.
    intros [? Hne]%lookup_insert_None [?|?]; [auto|congruence].
Qed.
End btree_lists.

(** ** Identities *)

Module RedoxIdentity.
Import Identity IdentityFacts.
Implicit Types (ib : IdentityBranch) (g : Statics) (node : NodeId).

Lemma elem_of_page_range first last page : page ∈ page_range first last <-> first <= page <= last.
Proof.
  unfold page_range. rewrite list_elem_of_fmap. split.
  - intros (i & -> & Hi%elem_of_seq). lia.
  - intros Hp. exists (N.to_nat (page - first)). rewrite elem_of_seq. split; lia.
Qed.

(** The versions [pages] get, from [v] on. *)
Record renewed (pages : list N) node v g ib g' ib' : Prop := {
  rn_base : ib_base ib' = ib_base ib;
  rn_files : ib_files ib' = ib_files ib;
  rn_object : next_file_object_id g' = next_file_object_id g;
  rn_next : next_page_version g' = v + lenN pages;
  rn_other key : (key.1 = node -> key.2 ∉ pages) -> version_of ib' key = version_of ib key;
  rn_page page : page ∈ pages -> v <= version_of ib' (node, page) < next_page_version g'
}.

Lemma renew_pages pages node g ib :
  next_page_version g + lenN pages <= u64_MAX -> NoDup pages ->
  wp (for_each (fun page => v ← next_version; insert_page (node, page) v) pages)
    (fun _ s => renewed pages node (next_page_version g) g ib s.1 s.2) (fun _ _ => False) (g, ib).
Proof.
  revert g ib. induction pages as [|page pages IH]; intros g ib Hroom Hnd; cbn.
  { wp_steps. split; cbn; try done; [unfold lenN; cbn; lia|by intros page ?%elem_of_nil]. }
  apply NoDup_cons in Hnd as [Hnin Hnd]. assert (lenN (page :: pages) = 1 + lenN pages) as Hlen by (unfold lenN; cbn; lia).
  wp_steps. unfold wp at 1, next_version. cbn. wp_steps. rewrite wrapping_add_small by lia.
  eapply wp_mono; [apply IH; [cbn; lia|done]| |done].
  intros [] [g' ib'] [H1 H2 H3 H4 H5 H6]. cbn in *. split; cbn; try done.
  - lia.
  - intros key Hkey. rewrite H5, version_of_insert; [|intros E Hin; apply Hkey; [done|by right]].
    rewrite decide_False; [done|]. intros <-. apply Hkey; [done|by left].
  - intros page' [->|Hin]%elem_of_cons.
    + rewrite H5, version_of_insert, decide_True by done. lia.
    + apply H6 in Hin. lia.
Qed.

Lemma NoDup_page_range first last : NoDup (page_range first last).
Proof. apply NoDup_fmap_2; [intros i j; lia|apply NoDup_seq]. Qed.

Lemma lenN_page_range first last : lenN (page_range first last) = last + 1 - first.
Proof. unfold lenN, page_range. rewrite length_fmap, length_seq. lia. Qed.

Lemma page_range_le offset len : 0 < len -> (offset + len - 1) / PAGE_SIZE + 1 - offset / PAGE_SIZE <= len.
Proof.
  intros Hlen. page_abs offset. page_abs (offset + len - 1). pagelia.
Qed.

Lemma wp_record_write node offset len g ib :
  next_page_version g + len <= u64_MAX ->
  wp (record_write node offset len)
    (fun _ s => (len = 0 /\ s = (g, ib)) \/
      (0 < len /\ renewed (page_range (offset / PAGE_SIZE) ((offset + len - 1) / PAGE_SIZE)) node
                    (next_page_version g) g ib s.1 s.2))
    (fun _ _ => True) (g, ib).
Proof.
  intros Hroom. unfold record_write. destruct (N.eqb_spec len 0) as [->|Hlen]; [wp_steps; by left|].
  destruct (checked_add offset len) as [e|] eqn:He; [|done]. apply checked_add_Some in He as [-> _].
  eapply wp_mono; [apply renew_pages|intros [] s Hs; right; split; [lia|done]|done].
  - rewrite lenN_page_range. pose proof (page_range_le offset len ltac:(lia)). lia.
  - apply NoDup_page_range.
Qed.

End RedoxIdentity.

Section redox_facts.
Context {FS : Type} `{!RedoxEngine FS}.
Implicit Types (w : RWorld) (b : RedoxBranch FS).

Lemma page_identity_objects ib ib' node offset :
  Identity.object_of ib' node = Identity.object_of ib node ->
  Identity.version_of ib' (node, offset / PAGE_SIZE) = Identity.version_of ib (node, offset / PAGE_SIZE) ->
  Identity.page_identity ib' node offset = Identity.page_identity ib node offset.
Proof. intros Ho Hv. unfold Identity.page_identity. by rewrite Ho, Hv. Qed.

Lemma wp_on_identities {A} (m : Identity.I A) (Q : A -> RWorld * RedoxBranch FS -> Prop) R w b :
  let put s := (set_statics s.1 w, mkRedox (rb_fs b) (rb_disk b) s.2) in
  wp m (fun a s => Q a (put s)) (fun e s => R e (put s)) (rw_statics w, rb_identities b) ->
  wp (on_identities m) Q R (w, b).
Proof. unfold wp, on_identities. by destruct (m _) as [[g ib] [a|e]]. Qed.

(** The engine's disk traffic leaves the counters of identities alone. *)
Definition same_versions w w' : Prop :=
  next_page_version (rw_statics w') = next_page_version (rw_statics w) /\
  next_file_object_id (rw_statics w') = next_file_object_id (rw_statics w).

Lemma wp_append_versions a blk w d :
  wp (Durable.append a blk) (fun _ s => same_versions w s.1) (fun _ s => same_versions w s.1) (w, d).
Proof.
  unfold Durable.append, Durable.self, Durable.sto. wp_steps.
  repeat (apply wp_world; wp_steps; apply wp_any; [intros _ ?|done]; wp_steps). done.
Qed.

Lemma wp_write_chunks_versions buffer a w cd :
  wp (Disk.write_chunks a buffer) (fun _ s => same_versions w s.1) (fun _ s => same_versions w s.1) (w, cd).
Proof.
  revert a w cd. induction buffer as [|c buffer IH]; intros a w cd; cbn; [by wp_steps|]. wp_steps.
  assert (forall w1 cd1, same_versions w w1 ->
    wp (Disk.write_chunks (a + 1) buffer) (fun _ s => same_versions w s.1) (fun _ s => same_versions w s.1) (w1, cd1)) as Hrest.
  { intros w1 cd1 [H1 H2]. eapply wp_mono; [apply IH| |]; cbn; intros ? ? [? ?]; split; congruence. }
  unfold Disk.write_chunk. wp_steps. unfold wp at 1, Disk.next_block. wp_steps. cbn [snd cd_durable].
  destruct (cd_durable cd) as [d|]; wp_steps; [|by apply Hrest].
  apply wp_on_durable. eapply wp_mono; [apply wp_append_versions| |].
  - cbn. intros _ [w1 d1] H1. by apply Hrest.
  - cbn. by intros.
Qed.

Lemma write_at_versions block buffer w cd : same_versions w (Disk.write_at block buffer (w, cd)).1.1.
Proof.
  assert (wp (Disk.write_at block buffer) (fun _ s => same_versions w s.1) (fun _ s => same_versions w s.1) (w, cd)) as Hwp.
  { unfold Disk.write_at. wp_steps. cbn [snd]. destruct (Disk.check_range _ _ _); [|done]. wp_steps.
    eapply wp_mono; [apply wp_write_chunks_versions| |]; cbn; intros; by wp_steps. }
  unfold wp in Hwp. by destruct (Disk.write_at block buffer (w, cd)) as [[w' cd'] [|]].
Qed.

Lemma run_disk_versions {A} (p : DiskProg A) w cd : same_versions w (run_disk p (w, cd)).1.1.
Proof.
  revert w cd. induction p as [a|block len next IH|block buffer next IH|next IH]; intros w cd; cbn; [done|apply IH| |apply IH].
  pose proof (write_at_versions block buffer w cd) as [H1 H2].
  destruct (Disk.write_at block buffer (w, cd)) as [[w' cd'] r]. cbn in *.
  destruct (IH r w' cd') as [? ?]. split; congruence.
Qed.

Lemma tx_versions {A} (f : Tx -> DiskProg (Tx * result io_error A)) w b :
  same_versions w (tx f (w, b)).1.1 /\ rb_identities (tx f (w, b)).1.2 = rb_identities b.
Proof.
  pose proof (run_disk_versions (fs_tx f (rb_fs b)) w (rb_disk b)) as Hv. unfold tx.
  by destruct (run_disk _ _) as [[w' cd'] [fs r]].
Qed.

(** A successful write of [n] bytes gives every page it touches a version
    that was never issued before, and keeps the identity of every other page
    of every file. *)
Theorem branch_write_renews_identities w b w' b' node offset bytes n :
  write node offset bytes (w, b) = ((w', b'), Ok n) ->
  next_page_version (rw_statics w) + n <= u64_MAX ->
  let touched node' page :=
    node' = node /\ 0 < n /\ offset / PAGE_SIZE <= page <= (offset + n - 1) / PAGE_SIZE in
  (forall node' off, ~ touched node' (off / PAGE_SIZE) ->
     Identity.page_identity (rb_identities b') node' off = Identity.page_identity (rb_identities b) node' off) /\
  (forall page, touched node page ->
     next_page_version (rw_statics w) <= Identity.version_of (rb_identities b') (node, page) <
     next_page_version (rw_statics w')).
Proof.
  intros Hrun Hroom touched. set (v0 := next_page_version (rw_statics w)) in *.
  assert (wp (write node offset bytes) (fun n s => v0 + n <= u64_MAX ->
      (n = 0 /\ rb_identities s.2 = rb_identities b) \/
      (0 < n /\ RedoxIdentity.renewed (Identity.page_range (offset / PAGE_SIZE) ((offset + n - 1) / PAGE_SIZE))
        node v0 (rw_statics (tx (tx_write_node node offset bytes branch_time) (w, b)).1.1) (rb_identities b)
        (rw_statics s.1) (rb_identities s.2))) (fun _ _ => True) (w, b)) as Hwp.
  { unfold write. wp_steps. pose proof (tx_versions (tx_write_node node offset bytes branch_time) w b) as [[Hv _] Hib].
    unfold wp at 1. destruct (tx (tx_write_node node offset bytes branch_time) (w, b)) as [[w1 b1] [m|]]; [|done].
    cbn in Hv, Hib |- *. wp_steps. apply wp_on_identities. rewrite Hib.
    destruct (decide (v0 + m <= u64_MAX)) as [Hm|Hm]; [|apply wp_any; [intros; wp_steps; by intros|done]].
    eapply wp_mono; [apply RedoxIdentity.wp_record_write; by rewrite Hv| |done].
    cbn. intros _ [g ib] Hcase. wp_steps. intros _. rewrite Hv in Hcase.
    destruct Hcase as [[-> [= -> ->]]|[? ?]]; [by left|by right]. }
  eapply wp_elim in Hwp; [|exact Hrun]. cbn in Hwp. destruct (Hwp Hroom) as [[-> Hib]|[Hn [H1 H2 H3 H4 H5 H6]]].
  - split; [intros node' off _; by rewrite Hib|]. intros page (_ & ? & _). lia.
  - split.
    + intros node' off Ht. apply page_identity_objects; [unfold Identity.object_of; by rewrite H1, H2|].
      apply H5. cbn. intros -> Hin%RedoxIdentity.elem_of_page_range. by apply Ht.
    + intros page (_ & _ & Hp). by apply H6, RedoxIdentity.elem_of_page_range.
Qed.

(** ** Forks *)

Definition same_identities (ib ib' : IdentityBranch) : Prop :=
  forall node offset, Identity.page_identity ib' node offset = Identity.page_identity ib node offset.

(** What opening the file system of a branch afresh would give. *)
Definition reopened b w : result io_error FS := (run_disk (fs_open (fs_block (rb_fs b))) (w, rb_disk b)).2.

(** A fork, whether or not it succeeds, leaves the branch's file system,
    blocks and page identities as they were.  A successful fork has the same
    blocks and the same identities, and its file system is the one that
    opening the branch's own disk would give.  A fork fails only if the files
    of a durable disk do, or if the file system cannot be opened. *)
Theorem branch_fork_snapshot `{!RedoxLaws FS} w b w' b' r :
  fork (w, b) = ((w', b'), r) ->
  same_disk (rb_disk b) (rb_disk b') /\ rb_fs b' = rb_fs b /\
  same_identities (rb_identities b) (rb_identities b') /\
  match r with
  | Ok child => same_disk (rb_disk b) (rb_disk child) /\
                same_identities (rb_identities b) (rb_identities child) /\
                reopened b w = Ok (rb_fs child)
  | Err e => cd_durable (rb_disk b) <> None \/ reopened b w = Err e
  end.
Proof.
  unfold fork. pose proof (wp_fork_same w (rb_disk b)) as Hwp. unfold wp in Hwp.
  destruct (Disk.fork (w, rb_disk b)) as [[w1 cd] [child|e]]; cbn in Hwp.
  2:{ intros [= <- <- <-]. destruct Hwp. split_and!; try done. by left. }
  destruct Hwp as (H1 & H2 & _). destruct (Identity.fork (rb_identities b)) as [ib ids] eqn:Hids.
  pose proof (run_read_only (fs_open (fs_block (rb_fs b))) w (rb_disk b) w1 child (open_reads_only _) H2) as [E1 E2].
  assert (same_identities (rb_identities b) ib /\ same_identities (rb_identities b) ids) as [I1 I2].
  { split; intros node offset; by apply (IdentityFacts.fork_identity _ _ _ node offset Hids). }
  destruct (run_disk _ (w1, child)) as [[w2 child'] r']. cbn in E1, E2. injection E1 as -> ->.
  change (run_disk (fs_open (fs_block (rb_fs b))) (w, rb_disk b)).2 with (reopened b w) in E2.
  destruct r' as [fs|e]; intros [= <- <- <-]; split_and!; try done. by right.
Qed.

(** ** Accounting *)

Lemma elem_of_branch_blocks b id :
  id ∈ branch_blocks b <-> exists a blk, Disk.visible_block (rb_disk b) a = Some blk /\ block_id blk = id.
Proof.
  unfold branch_blocks. rewrite elem_of_list_to_set, list_elem_of_fmap. split.
  - intros (blk & -> & ((a & blk') & Heq & Hin%elem_of_map_to_list)%list_elem_of_fmap).
    exists a, blk. rewrite <-lookup_visible_blocks. by cbn in Heq; subst.
  - intros (a & blk & Hb & <-). exists blk. split; [done|]. rewrite <-lookup_visible_blocks in Hb.
    apply list_elem_of_fmap. exists (a, blk). by rewrite elem_of_map_to_list.
Qed.

(** Block accounting counts every block some branch sees once; the shared
    blocks are those at least two of the branches see. *)
Theorem block_accounting_counts (branches : list (RedoxBranch FS)) :
  resident_blocks (block_accounting branches) = size (⋃ (branch_blocks <$> branches)) /\
  shared_blocks (block_accounting branches) =
    size (filter (fun id => 2 <= holders id (branch_blocks <$> branches))%nat (⋃ (branch_blocks <$> branches))).
Proof.
  unfold block_accounting. cbn.
  assert (forall refs, foldl (fun r b => bump_all r (branch_blocks b)) refs branches =
    foldl bump_all refs (branch_blocks <$> branches)) as ->.
  { induction branches as [|b bs IH]; intros refs; cbn; [done|apply IH]. }
  change (foldl bump_all ∅ (branch_blocks <$> branches)) with (count_refs (branch_blocks <$> branches)).
  set (sets := branch_blocks <$> branches). split.
  - by rewrite <-size_dom, dom_count_refs.
  - unfold count_shared. rewrite <-size_dom. f_equal. apply set_eq. intros id.
    rewrite dom_shared_refs, elem_of_filter, elem_of_union_list. split; [|by intros []].
    intros Hh. split; [done|]. apply holders_pos. lia.
Qed.

(** ** Restarts *)

(** A branch at the time of a checkpoint, the state it returned, and the file
    system its disk opens to. *)
Record SavedBranch := mkSaved { sv_state : RedoxBranchState; sv_branch : RedoxBranch FS; sv_fs : FS }.

Definition saved_by (c : SavedBranch) : Prop :=
  exists w w' b', durable_state (w, sv_branch c) = ((w', b'), Ok (sv_state c)) /\
    reopened (sv_branch c) w = Ok (sv_fs c).

(** Numbers the counters have issued without wrapping. *)
Definition numbers_fit (c : SavedBranch) : Prop :=
  Forall (fun x => x.2 < u64_MAX) (rs_files (sv_state c)) /\
  Forall (fun x => x.2 < u64_MAX) (rs_pages (sv_state c)).

Lemma saved_fields c : saved_by c ->
  rs_header_block (sv_state c) = fs_block (rb_fs (sv_branch c)) /\
  rs_files (sv_state c) = btree_list (Identity.visible_files (rb_identities (sv_branch c))) /\
  rs_pages (sv_state c) = btree_list (Identity.visible_pages (rb_identities (sv_branch c))).
Proof.
  intros (w & w' & b' & Hrun & _). unfold durable_state in Hrun.
  destruct (Disk.durable_state _) as [[w1 cd] [disk|]]; [|done]. injection Hrun as _ _ E. by rewrite <-E.
Qed.

(** The identities a branch restarts with. *)
Definition restored_ids (s : RedoxBranchState) : IdentityBranch :=
  mkIdentity (mkGeneration None (mkLayer ∅ ∅)) (btree_collect (rs_files s)) (btree_collect (rs_pages s)).

Lemma restored_ids_same c : saved_by c ->
  same_identities (rb_identities (sv_branch c)) (restored_ids (sv_state c)).
Proof.
  intros (_ & Hf & Hp)%saved_fields node offset. unfold restored_ids.
  rewrite Hf, Hp, !btree_collect_list. apply page_identity_objects.
  - unfold Identity.object_of, Identity.file at 1. cbn. rewrite IdentityFacts.lookup_visible_files, lookup_empty.
    unfold Identity.object_of. by destruct (ib_files _ !! node); [|destruct (Identity.file _ node)].
  - unfold Identity.version_of at 1, Identity.page_version. cbn. rewrite lookup_empty.
    rewrite <-IdentityFacts.lookup_visible_pages. by destruct (Identity.visible_pages _ !! _).
Qed.

(** The largest number in the given columns, starting from [m]. *)
Definition largest (col : RedoxBranchState -> list N) (m : N) (states : list RedoxBranchState) : N :=
  foldl (fun m s => foldl N.max m (col s)) m states.

Definition file_numbers (s : RedoxBranchState) : list N := (rs_files s).*2.
Definition page_numbers (s : RedoxBranchState) : list N := (rs_pages s).*2.

Lemma foldl_max_ge l m : m <= foldl N.max m l /\ forall x, x ∈ l -> x <= foldl N.max m l.
Proof.
  revert m. induction l as [|y l IH]; intros m; cbn; [split; [lia|by intros ? ?%elem_of_nil]|].
  destruct (IH (N.max m y)) as [H1 H2]. split; [lia|]. intros x [->|Hx]%elem_of_cons; [lia|auto].
Qed.

Lemma largest_ge col states m :
  m <= largest col m states /\ forall s x, s ∈ states -> x ∈ col s -> x <= largest col m states.
Proof.
  unfold largest. revert m. induction states as [|s states IH]; intros m; cbn; [split; [lia|by intros ? ? ?%elem_of_nil]|].
  destruct (IH (foldl N.max m (col s))) as [H1 H2], (foldl_max_ge (col s) m) as [H3 H4].
  split; [lia|]. intros s' x [->|Hs]%elem_of_cons Hx; [|eauto]. apply H4 in Hx. lia.
Qed.

(** A restart is the restart of the disks, each opened in place. *)
Lemma restore_loop_run `{!RedoxLaws FS} dir (l : list (RedoxBranchState * FS)) objects mf mv w w' disks objects' :
  restore_disks dir (rs_disk <$> l.*1) objects w = (w', Ok (disks, objects')) ->
  Forall2 (fun sf cd => exists w0 cd0, same_disk cd0 cd /\
    (run_disk (fs_open (rs_header_block sf.1)) (w0, cd0)).2 = Ok sf.2) l disks ->
  restore_loop dir l.*1 objects mf mv w =
    (w', Ok (zip_with (fun sf cd => mkRedox sf.2 cd (restored_ids sf.1)) l disks,
             largest file_numbers mf l.*1, largest page_numbers mv l.*1)).
Proof.
  revert objects mf mv w disks. induction l as [|[s fs] l IH]; intros objects mf mv w disks Hrun Hopen.
  { cbn in Hrun. injection Hrun as <- <- _. by inversion Hopen. }
  cbn [restore_disks fmap list_fmap fst] in Hrun. unfold mbind, M_bind in Hrun.
  cbn [restore_loop fmap list_fmap fst]. unfold mbind, M_bind.
  destruct (Durable.restore dir (rs_disk s) objects w) as [w1 [[[[d base] writes] objects1]|e]]; [|done].
  destruct (restore_disks dir (rs_disk <$> l.*1) objects1 w1) as [w2 [[disks2 objects2]|e]] eqn:Hrest; [|done].
  cbn in Hrun. injection Hrun as <- <- <-. inversion Hopen as [|? ? ? ? (w0 & cd0 & Hs & Hfs) Hopen']; subst. cbn in Hfs.
  pose proof (run_read_only (fs_open (rs_header_block s)) w0 cd0 w1 _ (open_reads_only _) Hs) as [E1 E2].
  rewrite Hfs in E2. destruct (run_disk _ (w1, _)) as [[w1' cd1] r]. cbn in E1, E2. injection E1 as -> ->. subst r.
  cbn. rewrite (IH _ _ _ _ _ Hrest Hopen'). done.
Qed.

Lemma wp_checkpoint_size size seal w d :
  wp (Durable.checkpoint size seal) (fun s _ => ds_size s = size) (fun _ _ => True) (w, d).
Proof.
  unfold Durable.checkpoint, Durable.self. wp_steps. apply wp_any; [|done]. intros _ s1. wp_steps.
  apply wp_any; [|done]. intros _ s2. wp_steps. apply wp_any; [|done]. intros layer s3. wp_steps.
  apply wp_any; [|done]. intros [id i] s4. wp_steps. apply wp_any; [|done]. intros _ s5. wp_steps.
  apply wp_any; [|done]. intros _ s6. wp_steps. unfold Durable.set_overlay. by wp_steps.
Qed.

Lemma durable_state_size w cd s s' : Disk.durable_state (w, cd) = (s', Ok s) -> ds_size s = cd_size cd.
Proof.
  assert (wp Disk.durable_state (fun s _ => ds_size s = cd_size cd) (fun _ _ => True) (w, cd)) as Hwp.
  { unfold Disk.durable_state. wp_steps. cbn [snd]. destruct (cd_durable cd) as [d|]; [|done]. wp_steps.
    apply wp_on_durable. eapply wp_mono; [apply wp_checkpoint_size| |done]. cbn. intros st [w1 d1] Hs. wp_steps.
    apply wp_any; [|done]. intros _ ?. by wp_steps. }
  intros Hrun. by eapply wp_elim in Hwp; [|exact Hrun].
Qed.

Lemma saved_size c : saved_by c -> ds_size (rs_disk (sv_state c)) = cd_size (rb_disk (sv_branch c)).
Proof.
  intros (w & w' & b' & Hrun & _). unfold durable_state in Hrun.
  destruct (Disk.durable_state _) as [[w1 cd] [disk|]] eqn:Hd; [|done]. injection Hrun as _ _ E. rewrite <-E. cbn.
  by eapply durable_state_size.
Qed.

(** The numbers a restored branch uses were all in its state. *)
Lemma restored_numbers s node offset i :
  Identity.page_identity (restored_ids s) node offset = Ok i ->
  i.1.1 ∈ file_numbers s /\ (i.2 = 0 \/ i.2 ∈ page_numbers s).
Proof.
  unfold Identity.page_identity, Identity.object_of, Identity.version_of, restored_ids. cbn. rewrite !lookup_empty.
  intros Hi. split.
  - destruct (btree_collect (rs_files s) !! node) as [o|] eqn:Ho; [|done]. injection Hi as <-. cbn.
    apply lookup_btree_collect in Ho. apply list_elem_of_fmap. by exists (node, o).
  - destruct (btree_collect (rs_files s) !! node) as [o|]; [|done]. injection Hi as <-. cbn.
    destruct (btree_collect (rs_pages s) !! _) as [v|] eqn:Hv; [|by left]. right.
    apply lookup_btree_collect in Hv. apply list_elem_of_fmap. by eexists (_, v).
Qed.

Lemma largest_fits (saved : list SavedBranch) col :
  (forall c, c ∈ saved -> Forall (fun x => x < u64_MAX) (col (sv_state c))) ->
  largest col 0 (sv_state <$> saved) < u64_MAX.
Proof.
  intros Hfit. unfold largest. assert (0 < u64_MAX) as H0 by done. revert H0. generalize 0 as m.
  induction saved as [|c saved IH]; intros m Hm; cbn; [done|]. apply IH; [intros c' Hc'; apply Hfit; by right|].
  assert (Forall (fun x => x < u64_MAX) (col (sv_state c))) as Hc by (apply Hfit; by left).
  clear -Hm Hc. revert m Hm. induction Hc as [|x l Hx Hl IH]; intros m Hm; cbn; [done|]. apply IH. lia.
Qed.

(** Opening a restored disk gives what opening the original would. *)
Lemma saved_opens saved disks :
  Forall saved_by saved ->
  Forall2 (fun c cd => Disk.visible_blocks cd = Disk.visible_blocks (rb_disk (sv_branch c)) /\
    cd_size cd = ds_size (rs_disk (sv_state c))) saved disks ->
  Forall2 (fun sf cd => exists w0 cd0, same_disk cd0 cd /\
    (run_disk (fs_open (rs_header_block sf.1)) (w0, cd0)).2 = Ok sf.2)
    ((fun c => (sv_state c, sv_fs c)) <$> saved) disks.
Proof.
  intros Hsaved Hf. apply Forall2_fmap_l. induction Hf as [|c cd saved disks [HV Hsz] Hf IH]; constructor.
  - apply Forall_cons in Hsaved as [Hc _]. pose proof (saved_fields c Hc) as (Hh & _).
    pose proof (saved_size c Hc) as Hs. destruct Hc as (w & w' & b' & _ & Hre).
    exists w, (rb_disk (sv_branch c)). cbn in *. rewrite Hh. split; [split; congruence|done].
  - apply IH. by apply Forall_cons in Hsaved as [_ Hsaved].
Qed.

(** C13. Branches survive a crash together with their page identities.  Take any
    states that branches of one run returned from [durable_state], from a
    checkpoint the history of their disks recorded, that is, while no append of
    that disk or of one it was forked from had failed in the run.  Restoring
    them after any crash succeeds, when the host makes no error then, the
    directory is there, the numbers in the states had not run out, and so had
    not the file numbers; every branch has the blocks, the file system its disk
    opened to ([reopened]) and the page identities it had, and the counters are
    past every restored number, so that no new page or file gets an identity in
    use. *)
Theorem lineage_survives_crashes `{!RedoxLaws FS} dir s group (saved : list SavedBranch) st :
  reachable dir s -> group ∈ runs s ->
  Forall saved_by saved -> Forall numbers_fit saved ->
  Forall (fun c => (rs_disk (sv_state c), Disk.visible_blocks (rb_disk (sv_branch c))) ∈ group) saved ->
  crash_to (rw_storage (sy_world s)) st -> sto_sched st = [] -> dir ∈ sto_dirs st ->
  N.of_nat (size (sto_names st)) + 2 * lenN saved <= u64_MAX ->
  exists w branches,
    restore_lineage dir (sv_state <$> saved) (mkRWorld initial_statics st) = (w, Ok branches) /\
    Forall2 (fun c b =>
      rb_fs b = sv_fs c /\ same_disk (rb_disk (sv_branch c)) (rb_disk b) /\
      same_identities (rb_identities (sv_branch c)) (rb_identities b) /\
      forall node offset i, Identity.page_identity (rb_identities b) node offset = Ok i ->
        i.1.1 < next_file_object_id (rw_statics w) /\ i.2 < next_page_version (rw_statics w)) saved branches.
Proof.
  intros Hr Hg Hsaved Hfit Hin C Hc Hd Hn.
  set (sel := (fun c => (rs_disk (sv_state c), Disk.visible_blocks (rb_disk (sv_branch c)))) <$> saved).
  assert (sel ⊆ group) as Hsel.
  { intros x (c & -> & Hcx)%list_elem_of_fmap. rewrite Forall_forall in Hin. by apply Hin. }
  pose proof (wp_restart dir s group sel st Hr Hg Hsel C Hc Hd) as Hwp.
  unfold lenN, sel in Hwp. rewrite length_fmap in Hwp. specialize (Hwp Hn). unfold wp in Hwp.
  destruct (restore_disks dir _ ∅ _) as [w1 [[disks objects]|e]] eqn:Hrun; [|done]. cbn in Hwp.
  set (l := (fun c => (sv_state c, sv_fs c)) <$> saved).
  assert (l.*1 = sv_state <$> saved) as Hl by (unfold l; by rewrite <-list_fmap_compose).
  assert (restore_disks dir (rs_disk <$> l.*1) ∅ (mkRWorld initial_statics st) = (w1, Ok (disks, objects))) as Hrun'.
  { rewrite <-Hrun, Hl. f_equal. by rewrite <-!list_fmap_compose. }
  rewrite Forall2_fmap_l in Hwp.
  pose proof (saved_opens saved disks Hsaved Hwp) as Hopen. fold l in Hopen. rewrite Forall_forall in Hsaved.
  eexists _, _. split.
  { unfold restore_lineage. rewrite <-Hl. unfold mbind at 1, M_bind at 1. rewrite (restore_loop_run _ _ _ _ _ _ _ _ _ Hrun' Hopen).
    reflexivity. }
  rewrite Hl. eapply Forall2_zip; [exact Hwp|]. intros c cd Hcin [HV Hsz]. cbn.
  pose proof (Hsaved c Hcin) as Hc'. split; [done|]. split.
  { split; [rewrite <-(saved_size c Hc'); done|done]. }
  split; [by apply restored_ids_same|]. intros node offset i Hi. apply restored_numbers in Hi as [Hi1 Hi2].
  rewrite Forall_forall in Hfit.
  assert (largest file_numbers 0 (sv_state <$> saved) < u64_MAX) as Hmf.
  { apply largest_fits. intros c2 Hc2. destruct (Hfit c2 Hc2) as [Hf _]. by apply Forall_fmap. }
  assert (largest page_numbers 0 (sv_state <$> saved) < u64_MAX) as Hmv.
  { apply largest_fits. intros c2 Hc2. destruct (Hfit c2 Hc2) as [_ Hf]. by apply Forall_fmap. }
  apply (largest_ge file_numbers (sv_state <$> saved) 0) in Hi1; [|by apply list_elem_of_fmap_2].
  assert (i.2 <= largest page_numbers 0 (sv_state <$> saved)) as Hi2'.
  { destruct Hi2 as [->|Hi2]; [lia|]. by apply (largest_ge page_numbers (sv_state <$> saved) 0) in Hi2; [|apply list_elem_of_fmap_2]. }
  unfold saturating_add. lia.
Qed.

End redox_facts.
