(* ===== verification/RedoxExample.v ===== *)
(** * RedoxFS branches: a concrete engine and concrete runs

    A file system small enough to evaluate, one block per node, that satisfies
    what the branch theorems ask of the engine; and the witnesses of those
    theorems on it. *)

From S2P Require Import Prelude Generations Host CacheTypes SharedCache Identity Storage DurableCowDisk CowDisk RedoxBranch DiskLog DurableFiles DurableDisk DurableOps DiskIO DurableSpec RedoxFacts.

Module FlatFs.

(** Block 0 holds a mark; block [n] holds node [n], an eight-byte length and
    up to 4088 bytes of data. *)
Definition mark : byte := Byte.x52.

Definition create : DiskProg (result io_error unit) :=
  WriteAt 0 [mark] (fun r => Done (match r with Ok _ => Ok tt | Err e => Err e end)).

Definition open (block : N) : DiskProg (result io_error unit) :=
  ReadAt block 1 (fun r => Done (match r with
    | Ok [b] => if decide (b = mark) then Ok tt else Err (RawOs ENOENT)
    | Ok _ => Err (RawOs EIO)
    | Err e => Err e
    end)).

(** A node's block, taken apart and put together. *)
Definition node_data (block : list byte) : list byte :=
  take (N.to_nat (le_value (take 8 block))) (drop 8 block).
Definition node_block (data : list byte) : list byte := le_bytes 8 (lenN data) ++ data.

Definition with_node {A} (node : NodeId) (f : list byte -> A) : DiskProg (unit * result io_error A) :=
  ReadAt node 4096 (fun r => Done (tt, match r with Ok b => Ok (f (node_data b)) | Err e => Err e end)).

Definition update_node {A} (node : NodeId) (f : list byte -> list byte) (a : A) :
    DiskProg (unit * result io_error A) :=
  ReadAt node 4096 (fun r => match r with
    | Ok b => WriteAt node (node_block (f (node_data b)))
                (fun r => Done (tt, match r with Ok _ => Ok a | Err e => Err e end))
    | Err e => Done (tt, Err e)
    end).

#[export] Instance engine : RedoxEngine unit := {
  fs_block _ := 0;
  fs_create := create;
  fs_open := open;
  Tx := unit;
  tx_new fs := fs;
  tx_drop tx := tx;
  tx_commit tx := Done (tx, Ok tt);
  tx_create_node parent name mode _ _ := update_node (1 + N.of_nat (String.length name)) (fun _ => []) (1 + N.of_nat (String.length name));
  tx_truncate_node node n _ _ := update_node node (resize_bytes n) tt;
  tx_read_node node offset buflen _ _ := with_node node (fun data => slice offset buflen data);
  tx_write_node node offset bytes _ _ :=
    update_node node (fun data => splice offset bytes (resize_bytes (N.max (lenN data) (offset + lenN bytes)) data)) (lenN bytes);
  tx_read_tree node _ := with_node node (fun data => mkNodeData (lenN data) 1 file_mode 1 0 0 (1, 0) (1, 0) (1, 0));
  tx_find_node parent name tx := Done (tx, Err (RawOs ENOENT));
  tx_child_nodes parent tx := Done (tx, Ok []);
  tx_on_open_node node tx := Done (tx, Ok tt);
  tx_on_close_node node tx := Done (tx, Ok tt)
}.

#[export] Instance laws : RedoxLaws unit.
Proof. split. intros block r. exact I. Qed.

End FlatFs.

Module RedoxExample.
Import FlatFs.

Abbreviation Branch := (RedoxBranch unit).

Definition no_branch : Branch := mkRedox tt (Disk.new 0) Identity.new.
Definition the_branch (r : result io_error Branch) : Branch := match r with Ok b => b | Err _ => no_branch end.
Definition the_state (r : result io_error RedoxBranchState) : RedoxBranchState :=
  match r with Ok s => s | Err _ => mkBranchState (mkDiskState 0 [] 0) 0 [] [] end.

(** A durable branch of four blocks, a file, a write, a checkpoint. *)
Definition created := create_durable (FS := unit) "d" 16384 (sy_world boot).
Definition named := RedoxBranch.create_file (FS := unit) "f" 4 (created.1, the_branch created.2).
Definition wrote := RedoxBranch.write (FS := unit) 2 1 [Byte.x61; Byte.x62] named.1.
Definition forked := RedoxBranch.fork (FS := unit) wrote.1.
Definition saved := durable_state (FS := unit) wrote.1.

Lemma branch_write_renews_identities_witness :
  let touched node' page := node' = 2 /\ 0 < 2 /\ 1 / PAGE_SIZE <= page <= (1 + 2 - 1) / PAGE_SIZE in
  (forall node' off, ~ touched node' (off / PAGE_SIZE) ->
     Identity.page_identity (rb_identities wrote.1.2) node' off =
     Identity.page_identity (rb_identities named.1.2) node' off) /\
  (forall page, touched 2 page ->
     next_page_version (rw_statics named.1.1) <= Identity.version_of (rb_identities wrote.1.2) (2, page) <
     next_page_version (rw_statics wrote.1.1)).
Proof.
  apply (branch_write_renews_identities named.1.1 named.1.2 wrote.1.1 wrote.1.2 2 1 [Byte.x61; Byte.x62] 2).
  - vm_compute. reflexivity.
  - vm_compute. discriminate.
Defined.

Lemma branch_fork_snapshot_witness :
  same_disk (rb_disk wrote.1.2) (rb_disk forked.1.2) /\ rb_fs forked.1.2 = rb_fs wrote.1.2 /\
  same_identities (rb_identities wrote.1.2) (rb_identities forked.1.2) /\
  same_disk (rb_disk wrote.1.2) (rb_disk (the_branch forked.2)) /\
  same_identities (rb_identities wrote.1.2) (rb_identities (the_branch forked.2)) /\
  reopened wrote.1.2 wrote.1.1 = Ok (rb_fs (the_branch forked.2)).
Proof.
  apply (branch_fork_snapshot wrote.1.1 wrote.1.2 forked.1.1 forked.1.2 (Ok (the_branch forked.2))).
  vm_compute. reflexivity.
Defined.

(** ** The same run as steps of the disk *)

Definition the_disk (r : result io_error CowDisk) : CowDisk := match r with Ok cd => cd | Err _ => Disk.new 0 end.
Definition disk0 := Disk.durable "d" 16384 (sy_world boot).
Definition formatted := run_disk create (disk0.1, the_disk disk0.2).

Definition create_prog := fs_tx (FS := unit) (tx_bind (tx_create_node root_id "f" file_mode branch_time) (fun node =>
  tx_bind (tx_truncate_node node 4 branch_time) (fun _ => tx_ret node))) tt.
Definition write_prog := fs_tx (FS := unit) (tx_write_node 2 1 [Byte.x61; Byte.x62] branch_time) tt.

Definition saved_branch : SavedBranch := mkSaved (the_state saved.2) wrote.1.2 tt.
Definition checkpoint_of (c : SavedBranch (FS := unit)) : Checkpoint :=
  (rs_disk (sv_state c), Disk.visible_blocks (rb_disk (sv_branch c))).
Definition system : System := mkSystem saved.1.1 [mkTracked (rb_disk saved.1.2) false] [checkpoint_of saved_branch] [].

(** Steps up to evaluation. *)
Lemma steps_to s s1 s2 s3 : rtc (step "d") s s1 -> s1 = s2 -> rtc (step "d") s2 s3 -> rtc (step "d") s s3.
Proof. intros H -> H'. by etrans. Qed.

Lemma steps_ids w disks g s : 
  next_block_id g = next_block_id (rw_statics w) ->
  next_durable_layer_id g = next_durable_layer_id (rw_statics w) ->
  rtc (step "d") (mkSystem (set_statics g w) disks [] []) s -> rtc (step "d") (mkSystem w disks [] []) s.
Proof. intros H1 H2. apply rtc_l. by apply step_identities. Qed.

Lemma run_steps {A} (p : DiskProg A) w cd s w' cd' :
  clean_run p (w, cd) = true -> (run_disk p (w, cd)).1 = (w', cd') ->
  rtc (step "d") (mkSystem w' [mkTracked cd' false] [] []) s -> rtc (step "d") (mkSystem w [mkTracked cd false] [] []) s.
Proof.
  intros Hc Hr H2. etrans; [|exact H2]. pose proof (run_disk_steps p "d" w [mkTracked cd false] [] [] 0 cd false eq_refl Hc) as H.
  rewrite Hr in H. exact H.
Qed.

Lemma checkpoint_steps w cd :
  let out := Disk.durable_state (w, cd) in
  rtc (step "d") (mkSystem w [mkTracked cd false] [] [])
    (mkSystem out.1.1 [mkTracked out.1.2 false]
      (match out.2 with Ok s => [(s, Disk.visible_blocks cd)] | Err _ => [] end) []).
Proof.
  intros out. apply rtc_once.
  apply (step_checkpoint "d" w [mkTracked cd false] [] [] 0 cd false out.1.1 out.1.2 out.2); [done|].
  by rewrite <-!surjective_pairing.
Qed.

Lemma branch_system_reachable : reachable "d" system.
Proof.
  eapply steps_to.
  { apply rtc_once. exact (step_create "d" (sy_world boot) [] [] [] 16384 disk0.1 disk0.2 (surjective_pairing _)). }
  { instantiate (1 := mkSystem disk0.1 [mkTracked (the_disk disk0.2) false] [] []). vm_compute. reflexivity. }
  eapply (run_steps create); [vm_compute; reflexivity|apply surjective_pairing|].
  eapply (steps_ids _ _ (rw_statics created.1)); [vm_compute; reflexivity..|].
  eapply (run_steps create_prog); [vm_compute; reflexivity|apply surjective_pairing|].
  eapply (steps_ids _ _ (rw_statics named.1.1)); [vm_compute; reflexivity..|].
  eapply (run_steps write_prog); [vm_compute; reflexivity|apply surjective_pairing|].
  eapply (steps_ids _ _ (rw_statics wrote.1.1)); [vm_compute; reflexivity..|].
  eapply steps_to; [apply checkpoint_steps| |apply rtc_refl].
  vm_compute. reflexivity.
Qed.

Lemma lineage_survives_crashes_witness : exists w branches,
  restore_lineage (FS := unit) "d" [sv_state saved_branch]
    (mkRWorld initial_statics (lose_unsynced (rw_storage (sy_world system)))) = (w, Ok branches) /\
  Forall2 (fun c b =>
    rb_fs b = sv_fs c /\ same_disk (rb_disk (sv_branch c)) (rb_disk b) /\
    same_identities (rb_identities (sv_branch c)) (rb_identities b) /\
    forall node offset i, Identity.page_identity (rb_identities b) node offset = Ok i ->
      i.1.1 < next_file_object_id (rw_statics w) /\ i.2 < next_page_version (rw_statics w)) [saved_branch] branches.
Proof.
  apply (lineage_survives_crashes "d" system (sy_run system) [saved_branch]
    (lose_unsynced (rw_storage (sy_world system)))).
  - exact branch_system_reachable.
  - left.
  - constructor; [|constructor]. exists wrote.1.1, saved.1.1, saved.1.2. split; vm_compute; reflexivity.
  - constructor; [|constructor]. apply (bool_decide_eq_true_1 _). vm_compute. reflexivity.
  - constructor; [left|constructor].
  - apply lose_unsynced_crash.
  - reflexivity.
  - apply (bool_decide_eq_true_1 _). vm_compute. reflexivity.
  - vm_compute. discriminate.
Defined.

End RedoxExample.

(** * Durable disks: concrete runs

    Runs of the durable-disk model on concrete inputs: the witnesses of the
    disk theorems, and a write that the host cuts short. *)

Module DurableExample.

Definition the_disk (r : result io_error CowDisk) : CowDisk :=
  match r with Ok cd => cd | Err _ => Disk.new 0 end.
Definition the_state (r : result io_error DurableDiskState) : DurableDiskState :=
  match r with Ok s => s | Err _ => mkDiskState 0 [] 0 end.

(** A disk of two blocks in directory "d", a write, a checkpoint. *)
Definition created := Disk.durable "d" 8192 (sy_world boot).
Definition disk0 : CowDisk := the_disk created.2.
Definition wrote := Disk.write_at 0 [Byte.x61; Byte.x62] (created.1, disk0).
Definition checkpointed := Disk.durable_state wrote.1.

Definition system : System :=
  mkSystem checkpointed.1.1 [mkTracked checkpointed.1.2 false]
    [(the_state checkpointed.2, Disk.visible_blocks wrote.1.2)] [].

Lemma step_to s s1 s2 : step "d" s s1 -> s1 = s2 -> step "d" s s2.
Proof. by intros ? <-. Qed.

Lemma system_reachable : reachable "d" system.
Proof.
  apply (rtc_l _ _ (mkSystem created.1 [mkTracked disk0 false] [] [])).
  { eapply step_to; [exact (step_create "d" (sy_world boot) [] [] [] 8192 created.1 created.2 (surjective_pairing _))|].
    vm_compute. reflexivity. }
  apply (rtc_l _ _ (mkSystem wrote.1.1 [mkTracked wrote.1.2 false] [] [])).
  { eapply step_to.
    - eapply (step_write "d" created.1 [mkTracked disk0 false] [] [] 0 disk0 false 0 [Byte.x61; Byte.x62] wrote.1.1 wrote.1.2 wrote.2);
        vm_compute; reflexivity || discriminate.
    - vm_compute. reflexivity. }
  apply (rtc_l _ _ system); [|apply rtc_refl].
  eapply step_to.
  - eapply (step_checkpoint "d" wrote.1.1 [mkTracked wrote.1.2 false] [] [] 0 wrote.1.2 false checkpointed.1.1 checkpointed.1.2 checkpointed.2);
      vm_compute; reflexivity.
  - vm_compute. reflexivity.
Qed.

(** After the crash that loses everything not synchronised, the written block
    is back. *)
Lemma checkpoints_survive_crashes_witness : exists w disks objects,
  restore_disks "d" (sy_run system).*1 ∅ (mkRWorld initial_statics (lose_unsynced (rw_storage (sy_world system)))) =
    (w, Ok (disks, objects)) /\
  Forall2 (fun (c : Checkpoint) cd =>
    Disk.visible_blocks cd = c.2 /\ cd_size cd = ds_size c.1) (sy_run system) disks.
Proof.
  apply (checkpoints_survive_crashes "d" system (sy_run system) (sy_run system)
    (lose_unsynced (rw_storage (sy_world system)))).
  - exact system_reachable.
  - left.
  - reflexivity.
  - apply lose_unsynced_crash.
  - reflexivity.
  - apply (bool_decide_eq_true_1 _). vm_compute. reflexivity.
  - vm_compute. discriminate.
Defined.

(** ** Reading, writing and forking *)

Lemma full_new size : full (Disk.new size).
Proof. intros a b Hb. vm_compute in Hb. discriminate. Qed.

Lemma disk_read_returns_witness : exists bytes, Disk.read_at (Disk.new 8192) 1 2 = Ok bytes /\ lenN bytes = 2 /\
  forall i, i < 2 -> nthN bytes i = Some (disk_byte (Disk.new 8192) (1 * BLOCK_SIZE + i)).
Proof. apply (disk_read_returns (Disk.new 8192) 1 2); [apply full_new|vm_compute; discriminate..]. Defined.

Definition plain := Disk.write_at 1 [Byte.x61; Byte.x62] (sy_world boot, Disk.new 8192).

Lemma disk_write_patches_witness :
  2 = 2 /\ 1 * BLOCK_SIZE + 2 <= 8192 /\ patched (Disk.new 8192) (1 * BLOCK_SIZE) [Byte.x61; Byte.x62] plain.1.2.
Proof.
  exact (disk_write_patches (Disk.new 8192) 1 [Byte.x61; Byte.x62] (sy_world boot) plain.1.1 plain.1.2 (Ok 2)
    (full_new 8192) ltac:(vm_compute; reflexivity)).
Defined.

Definition forked := Disk.fork plain.1.

Lemma disk_fork_copies_witness :
  same_disk plain.1.2 forked.1.2 /\ same_disk plain.1.2 (the_disk forked.2) /\ cd_writes (the_disk forked.2) = ∅.
Proof.
  exact (disk_fork_copies plain.1.2 plain.1.1 forked.1.1 forked.1.2 (Ok (the_disk forked.2))
    ltac:(vm_compute; reflexivity)).
Defined.

(** ** A write the host cuts short *)

(** The host refuses the block of the first record: its address and number are
    already in the overlay file. *)
Definition short_world : RWorld :=
  set_storage (set_sched [Full; Full; Fault (RawOs 28)] (rw_storage created.1)) created.1.
Definition failed_write := Disk.write_at 0 [Byte.x61] (short_world, disk0).
Definition second_write := Disk.write_at 0 [Byte.x62] failed_write.1.
Definition bad_checkpoint := Disk.durable_state second_write.1.

Definition names_below (n : N) (names : gmap Path Inode) : bool :=
  forallb (fun kv : Path * Inode => kv.2 <? n) (map_to_list names).

Lemma storage_wf_check st :
  names_below (sto_next st) (sto_names st) && names_below (sto_next st) (sto_stable_names st) = true -> storage_wf st.
Proof.
  assert (forall names, names_below (sto_next st) names = true -> forall p i, names !! p = Some i -> i < sto_next st) as Hb.
  { intros names Hn p i Hp. apply forallb_forall with (x := (p, i)) in Hn; [by apply N.ltb_lt|].
    by apply list_elem_of_In, elem_of_map_to_list. }
  intros [H1 H2]%andb_true_iff. split; [exact (Hb _ H1)|exact (Hb _ H2)].
Qed.

Lemma short_full : full failed_write.1.2.
Proof.
  set (blk := default (mkBlock 0 []) (cd_writes failed_write.1.2 !! 0)).
  assert (cd_base failed_write.1.2 = mkGeneration None ∅) as Hb by (vm_compute; reflexivity).
  assert (cd_writes failed_write.1.2 = {[ 0 := blk ]}) as Hw by (vm_compute; reflexivity).
  intros a b. unfold Disk.visible_block. rewrite Hb, Hw. destruct (decide (a = 0)) as [->|Hne].
  - rewrite lookup_singleton_eq. intros [= <-]. vm_compute. reflexivity.
  - rewrite lookup_singleton_ne by done. cbn. by rewrite lookup_empty.
Qed.

Lemma short_partial : holds_partial "d" failed_write.1.1 failed_write.1.2.
Proof.
  destruct (cd_durable failed_write.1.2) as [d|] eqn:Hd; [|exfalso; revert Hd; vm_compute; discriminate].
  assert (d = mkDurable "d" [] 1 0) as -> by (assert (cd_durable failed_write.1.2 = Some (mkDurable "d" [] 1 0)) as He
    by (vm_compute; reflexivity); congruence).
  exists (mkDurable "d" [] 1 0), (inode_bytes (rw_storage failed_write.1.1) 0).
  split; [exact Hd|]. split; [reflexivity|].
  split; [apply storage_wf_check; vm_compute; reflexivity|].
  split; [vm_compute; reflexivity|].
  split; [vm_compute; reflexivity|]. vm_compute. discriminate.
Qed.

(** The write is refused, the next one and a checkpoint succeed, and the
    checkpoint cannot be restored, although nothing else was lost. *)
Lemma torn_append_spoils_checkpoints_witness :
  failed_write.2 = Err (RawOs EIO) /\ is_ok bad_checkpoint.2 = true /\
  exists e, (Durable.restore "d" (the_state bad_checkpoint.2) ∅
    (mkRWorld initial_statics (lose_unsynced (rw_storage bad_checkpoint.1.1)))).2 = Err e.
Proof.
  assert (write_each [(0, [Byte.x62])] (failed_write.1.1, failed_write.1.2) = ((second_write.1.1, second_write.1.2), Ok tt)) as Hw
    by (vm_compute; reflexivity).
  assert (Disk.durable_state (second_write.1.1, second_write.1.2) =
    ((bad_checkpoint.1.1, bad_checkpoint.1.2), Ok (the_state bad_checkpoint.2))) as Hc by (vm_compute; reflexivity).
  split; [vm_compute; reflexivity|]. split; [vm_compute; reflexivity|].
  exact (torn_append_spoils_checkpoints "d" [(0, [Byte.x62])] failed_write.1.1 failed_write.1.2 second_write.1.1
    second_write.1.2 bad_checkpoint.1.1 bad_checkpoint.1.2 (the_state bad_checkpoint.2)
    (lose_unsynced (rw_storage bad_checkpoint.1.1)) initial_statics ∅ short_full short_partial Hw Hc (lose_unsynced_crash _)).
Defined.

End DurableExample.
