(* ===== verification/RedoxNodeStore.v ===== *)
(** * RedoxFS as a node store (crates/minidox-redoxfs/src/lib.rs)

    [RedoxNodeStore] puts the methods of [NodeStore] on a RedoxFS file system
    over any [Disk], each as one transaction.  It is what a [PageCache] works
    on; the copy-on-write [RedoxBranch] has the same methods on a disk of its
    own, with a fixed time. *)

From S2P Require Import Prelude Generations Host CacheTypes SharedCache Identity PageCache Storage DurableCowDisk CowDisk RedoxBranch RedoxExample.

(** The [Disk] trait of [redoxfs]. *)
Class DiskDev (W D : Type) := {
  dev_read_at : N -> N -> M (W * D) io_error (list byte);
  dev_write_at : N -> list byte -> M (W * D) io_error N;
  dev_size : M (W * D) io_error N
}.

Fixpoint run_dev {W D A} `{!DiskDev W D} (p : DiskProg A) (s : W * D) : (W * D) * A :=
  match p with
  | Done a => (s, a)
  | ReadAt block len next => let '(s', r) := dev_read_at block len s in run_dev (next r) s'
  | WriteAt block buffer next => let '(s', r) := dev_write_at block buffer s in run_dev (next r) s'
  | SizeOf next => let '(s', r) := dev_size s in run_dev (next r) s'
  end.

(** [SystemTime::now().duration_since(UNIX_EPOCH)], seconds and nanoseconds;
    [None] if the clock is set before the epoch. *)
Class SystemClock (W : Type) := unix_time : W -> option (N * N).

Record RedoxNodeStore (FS D : Type) := mkNodeStore { ns_fs : FS; ns_disk : D }.
Arguments mkNodeStore {FS D}.
Arguments ns_fs {FS D}.
Arguments ns_disk {FS D}.

Module NodeFs.
Section node_fs.
Context {FS W D : Type} `{!RedoxEngine FS} `{!DiskDev W D} `{!SystemClock W}.

Abbreviation NS := (M (W * RedoxNodeStore FS D) io_error).

(** [self.fs.tx(..)]. *)
Definition tx {A} (f : Tx -> DiskProg (Tx * result io_error A)) : NS A := fun '(w, s) =>
  let '((w', d), (fs, r)) := run_dev (fs_tx f (ns_fs s)) (w, ns_disk s) in
  ((w', mkNodeStore fs d), r).

(** [now]. *)
Definition now : NS (N * N) := fun s =>
  (s, match unix_time s.1 with
      | Some t => Ok t
      | None => Err (Custom Other "second time provided was later than self")
      end).

Definition len (node : NodeId) : NS N :=
  tx (tx_bind (tx_read_tree node) (fun data => tx_ret (nd_size data))).

Definition read_node (node : NodeId) (offset buflen : N) : NS (list byte) :=
  t ← now;
  tx (tx_read_node node offset buflen t).

Definition write_node (node : NodeId) (offset : N) (buf : list byte) : NS N :=
  t ← now;
  tx (tx_write_node node offset buf t).

Definition on_open_node (node : NodeId) : NS unit := tx (tx_on_open_node node).
Definition on_close_node (node : NodeId) : NS unit := tx (tx_on_close_node node).

#[global] Instance node_fs_store : NodeStore W (RedoxNodeStore FS D) := {
  ns_len := len;
  CacheTypes.read_node := read_node;
  CacheTypes.write_node := write_node;
  CacheTypes.on_open_node := on_open_node;
  CacheTypes.on_close_node := on_close_node
}.

End node_fs.
End NodeFs.

(** ** A page cache on a file system in memory *)

(** A disk in memory, after [redoxfs::DiskMemory]. *)
Module MemDisk.

Definition bounds (block len : N) (d : list byte) : result io_error N :=
  let offset := block * BLOCK_SIZE in
  if lenN d <? offset + len then Err (RawOs EIO) else Ok offset.

Definition read_at (block len : N) : M (unit * list byte) io_error (list byte) := fun s =>
  (s, match bounds block len s.2 with Ok offset => Ok (slice offset len s.2) | Err e => Err e end).

Definition write_at (block : N) (buffer : list byte) : M (unit * list byte) io_error N := fun s =>
  match bounds block (lenN buffer) s.2 with
  | Ok offset => ((s.1, splice offset buffer s.2), Ok (lenN buffer))
  | Err e => (s, Err e)
  end.

#[export] Instance dev : DiskDev unit (list byte) := {
  dev_read_at := read_at;
  dev_write_at := write_at;
  dev_size := fun s => (s, Ok (lenN s.2))
}.

End MemDisk.

Module NodeStoreExample.
Import FlatFs MemDisk.

#[local] Instance morning : SystemClock unit := fun _ => Some (1700000000, 5).

Abbreviation Cache := (PageCache unit (RedoxNodeStore unit (list byte))).

(** A page of a file in memory, mapped for writing, stored to as a guest
    would, and given back. *)
Definition formatted := run_dev FlatFs.create (tt, replicate (N.to_nat 16384) zero_byte).
Definition made := NodeFs.tx (FS := unit) (D := list byte)
  (tx_bind (tx_create_node root_id "f" file_mode branch_time) (fun node =>
   tx_bind (tx_truncate_node node 4000 branch_time) (fun _ => tx_ret node)))
  (formatted.1.1, mkNodeStore tt formatted.1.2).
Definition idle : Cache := (Mmap.new 1 (mkHost ∅ 1 []) tt made.1.2).2.

Definition dax_write : M Cache CacheError (list byte) :=
  _ ← Mmap.open 2;
  mapping ← Mmap.map 2 0 4000 flag_RW;
  _ ← Mmap.io (Host.write_all_at (dm_backing mapping) [Byte.x64; Byte.x61; Byte.x78] 128);
  _ ← Mmap.unmap mapping;
  Mmap.on_store (NodeFs.read_node 2 127 5).

(** What was stored through the mapping is in the file when it is unmapped. *)
Lemma dax_write_is_committed :
  (dax_write idle).2 = Ok [Byte.x00; Byte.x64; Byte.x61; Byte.x78; Byte.x00].
Proof. vm_compute. reflexivity. Qed.

End NodeStoreExample.
