(* ===== verification/VmmTypes.v ===== *)
(** * Errors of the VMM crate and file descriptors
    (crates/minidox-vmm/src/lib.rs)

    The error type the RAM, the virtio-fs branch and the Cloud Hypervisor
    adapter return, and the host calls RAM uses beyond those of [Storage]:
    files without a name, positioned reads and writes, and giving a temporary
    file its name. *)

From stdpp Require Import pretty.
From Stdlib Require Import Ascii.
From S2P Require Import Prelude Host CacheTypes Storage.

(** The error a backend reported; the code keeps its text. *)
Inductive Cause :=
  | CauseIo (e : io_error)
  | CauseCache (e : CacheError)
  | CauseVmm (message : string).

Inductive VmmError :=
  | Backend (operation : string) (cause : Cause)
  | WorkerPanicked
  | InvalidRamSize (len : N)
  | RamRange (offset len : N)
  | InvalidDirtyPage (page : nat) (pages : nat).

#[export] Instance Cause_eq_dec : EqDecision Cause.
Proof. solve_decision. Defined.
#[export] Instance VmmError_eq_dec : EqDecision VmmError.
Proof. solve_decision. Defined.

(** [usize] as an index into a vector. *)
#[export] Instance nat_key_order : KeyOrder nat := {| key_le := Nat.le |}.

Module Fd.

(** [tempfile::tempfile()]; also [NamedTempFile::new_in(dir)], whose random
    name nobody else uses and which goes away when it is persisted. *)
Definition tempfile : SIO Inode :=
  _ ← Sto.call;
  st ← get;
  _ ← modify (fun st => mkStorage (sto_dirs st) (sto_names st) (<[sto_next st := []]> (sto_data st))
               (sto_next st + 1) (sto_stable_names st) (sto_stable st) (sto_sched st));
  mret (sto_next st).

Definition new_in (dir : string) : SIO Inode :=
  st ← get;
  if decide (dir ∉ sto_dirs st) then throw (Custom NotFound "no such directory") else tempfile.

(** [File::set_len]. *)
Definition set_len (i : Inode) (n : N) : SIO unit :=
  _ ← Sto.call;
  modify (fun st => set_data (<[i := resize_bytes n (inode_bytes st i)]> (sto_data st)) st).

(** [file.metadata()?.len()]. *)
Definition metadata_len (i : Inode) : SIO N :=
  _ ← Sto.call;
  gets (fun st => lenN (inode_bytes st i)).

(** [pwrite(2)]. *)
Definition pwrite (i : Inode) (bytes : list byte) (off : N) : SIO N :=
  o ← Sto.call;
  let n := transfer o (lenN bytes) in
  _ ← modify (fun st => set_data
        (<[i := file_write off (slice 0 n bytes) (inode_bytes st i)]> (sto_data st)) st);
  mret n.

(** [FileExt::write_all_at]: every round writes at least one byte. *)
Fixpoint write_all_rounds (fuel : nat) (i : Inode) (bytes : list byte) (off : N) : SIO unit :=
  match fuel with
  | O => mret tt
  | S fuel' =>
      if lenN bytes =? 0 then mret tt else
      n ← pwrite i bytes off;
      if n =? 0 then throw (Custom WriteZero "failed to write whole buffer") else
      write_all_rounds fuel' i (drop (N.to_nat n) bytes) (off + n)
  end.

Definition write_all_at (i : Inode) (bytes : list byte) (off : N) : SIO unit :=
  write_all_rounds (length bytes) i bytes off.

(** [FileExt::read_exact_at]: every round reads at least one byte. *)
Fixpoint read_exact_rounds (fuel : nat) (i : Inode) (n off : N) : SIO (list byte) :=
  match fuel with
  | O => mret []
  | S fuel' =>
      if n =? 0 then mret [] else
      o ← Sto.call;
      part ← gets (fun st => slice off (transfer o n) (inode_bytes st i));
      if lenN part =? 0 then throw (Custom UnexpectedEof "failed to fill whole buffer") else
      rest ← read_exact_rounds fuel' i (n - lenN part) (off + lenN part);
      mret (part ++ rest)
  end.

Definition read_exact_at (i : Inode) (n off : N) : SIO (list byte) :=
  read_exact_rounds (N.to_nat n) i n off.

(** [path.exists()]: [false] also when the host cannot tell. *)
Definition exists_path (p : Path) : SIO bool :=
  r ← attempt Sto.call;
  match r with
  | Err _ => mret false
  | Ok _ => gets (fun st => bool_decide (is_Some (sto_names st !! p)))
  end.

(** A call whose error [fact] states a fact, so that the host reports it only
    when it holds. *)
Definition call_but (fact : io_error -> bool) : SIO unit :=
  r ← attempt Sto.call;
  match r with
  | Err e => if fact e then mret tt else throw e
  | Ok _ => mret tt
  end.

(** [NamedTempFile::persist_noclobber]. *)
Definition persist_noclobber (i : Inode) (p : Path) : SIO unit :=
  _ ← call_but (fun e => bool_decide (error_kind e = AlreadyExists));
  st ← get;
  match sto_names st !! p with
  | Some _ => throw (Custom AlreadyExists "file exists")
  | None => modify (fun st => set_names (<[p := i]> (sto_names st)) st)
  end.

(** [NamedTempFile::persist]: replaces the name. *)
Definition persist (i : Inode) (p : Path) : SIO unit :=
  _ ← Sto.call;
  modify (fun st => set_names (<[p := i]> (sto_names st)) st).

(** The names [fs::read_dir] yields. *)
Definition names_in (dir : string) (st : Storage) : list string :=
  (filter (fun p : Path => p.1 = dir) (map_to_list (sto_names st)).*1).*2.

Definition read_dir (dir : string) : SIO (list string) :=
  _ ← Sto.call;
  st ← get;
  if decide (dir ∉ sto_dirs st) then throw (Custom NotFound "no such directory") else
  mret (names_in dir st).

End Fd.

(** ** Numbers in names *)

Definition digit (c : Ascii.ascii) : option N :=
  let n := Ascii.N_of_ascii c in
  if (48 <=? n) && (n <=? 57) then Some (n - 48) else None.

(** The digits of [u64::from_str], accumulated with overflow checks. *)
Fixpoint parse_digits (acc : N) (s : string) : option N :=
  match s with
  | EmptyString => Some acc
  | String c s' =>
      match digit c with
      | None => None
      | Some d =>
          match checked_mul acc 10 with
          | None => None
          | Some t => match checked_add t d with
                      | None => None
                      | Some acc' => parse_digits acc' s'
                      end
          end
      end
  end.

(** [str::parse::<u64>]: one optional plus sign, then digits. *)
Definition parse_u64 (s : string) : option N :=
  match s with
  | EmptyString => None
  | String "+"%char s' => match s' with EmptyString => None | _ => parse_digits 0 s' end
  | _ => parse_digits 0 s
  end.

(** [str::strip_prefix]. *)
Fixpoint strip_prefix (prefix s : string) : option string :=
  match prefix with
  | EmptyString => Some s
  | String c prefix' =>
      match s with
      | String c' s' => if decide (c = c') then strip_prefix prefix' s' else None
      | EmptyString => None
      end
  end.

(** ** Facts about file descriptors and pages of files

    Weakest preconditions of the calls of [VmmTypes.Fd], and how a positioned
    write changes the pages of a file. *)

(** ** Pages of a file *)

Section file_pages.
Implicit Types (c part : list byte) (off : N).

Lemma slice_write_other off off' part c :
  off' + PAGE_SIZE <= lenN c -> off' + PAGE_SIZE <= off \/ off + lenN part <= off' ->
  slice off' PAGE_SIZE (file_write off part c) = slice off' PAGE_SIZE c.
Proof.
  intros Hin Hdis. apply list_eq_nthN. intros i. rewrite !nthN_slice.
  cmp; [|done]. rewrite nthN_file_write. cmp; cbn [andb]; try lia;
    destruct (nthN_lt c (off' + i)) as [x ->]; (done || lia).
Qed.

Lemma slice_write_same off part c :
  lenN part = PAGE_SIZE -> slice off PAGE_SIZE (file_write off part c) = part.
Proof.
  intros Hp. apply list_eq_nthN. intros i. rewrite nthN_slice, nthN_file_write.
  cmp; cbn [andb]; try lia; [f_equal; lia|symmetry; apply nthN_ge; lia].
Qed.

(** Writing back a prefix of what is there changes nothing. *)
Lemma file_write_prefix off part c :
  off + PAGE_SIZE <= lenN c -> part `prefix_of` slice off PAGE_SIZE c -> file_write off part c = c.
Proof.
  intros Hin [rest Hp]. assert (lenN part <= PAGE_SIZE) as Hl.
  { pose proof (lenN_slice off PAGE_SIZE c Hin) as H. rewrite Hp, lenN_app in H. lia. }
  apply list_eq_nthN. intros i. rewrite nthN_file_write. cmp; cbn [andb]; try lia.
  { assert (nthN part (i - off) = nthN (slice off PAGE_SIZE c) (i - off)) as ->.
    { rewrite Hp, nthN_app. by rewrite (proj2 (N.ltb_lt _ _)) by lia. }
    rewrite nthN_slice. rewrite (proj2 (N.ltb_lt _ _)) by lia. f_equal. lia. }
  all: try (symmetry; apply nthN_ge; lia).
  all: destruct (nthN_lt c i) as [x ->]; [lia|done].
Qed.
End file_pages.

(** ** Calls *)

(** Changes to files that did not exist at the start do not count. *)
Lemma grows_fresh X Y st1 st2 st3 :
  grows X st1 st2 -> grows Y st2 st3 -> (forall i, i ∈ Y -> i ∈ X \/ sto_next st1 <= i) -> grows X st1 st3.
Proof.
  intros G1 G2 Hf. pose proof (grows_next _ _ _ G1). pose proof (grows_next _ _ _ G2).
  assert (forall i, i < sto_next st1 -> i ∉ X -> i ∉ Y) as Hy by (intros i Hi Hx Hy; destruct (Hf i Hy); [done|lia]).
  split.
  - etrans; [apply G1|apply G2].
  - etrans; [apply G1|apply G2].
  - lia.
  - intros i Hi Hx. rewrite (grows_data _ _ _ G2); [by apply G1|lia|by apply Hy].
  - intros p i Hp Hs. apply (grows_stable_names _ _ _ G2); [by eapply grows_name|by apply (grows_stable_names _ _ _ G1)].
  - intros i Hi Hx Hs. apply (grows_stable _ _ _ G2); [lia|by apply Hy|by apply (grows_stable _ _ _ G1)].
  - intros Hs. by apply G2, G1.
Qed.

(** Nothing but the host's schedule changed. *)
Record idle (st st' : Storage) : Prop := {
  idle_grows : grows ∅ st st';
  idle_data : sto_data st' = sto_data st;
  idle_next : sto_next st' = sto_next st;
  idle_names : sto_names st' = sto_names st;
  idle_stable_names : sto_stable_names st' = sto_stable_names st;
  idle_dirs : sto_dirs st' = sto_dirs st
}.

(** Only the bytes of file [i] changed, to [c]. *)
Record rewrites (i : Inode) (c : list byte) (st st' : Storage) : Prop := {
  rewrites_grows : grows {[ i ]} st st';
  rewrites_data : sto_data st' = <[i := c]> (sto_data st);
  rewrites_next : sto_next st' = sto_next st;
  rewrites_names : sto_names st' = sto_names st;
  rewrites_stable_names : sto_stable_names st' = sto_stable_names st;
  rewrites_dirs : sto_dirs st' = sto_dirs st
}.

Section fd_facts.
Implicit Types (st : Storage) (i : Inode) (c bytes : list byte).

Lemma idle_refl st : idle st st.
Proof. split; try done. Qed.

Lemma idle_trans st1 st2 st3 : idle st1 st2 -> idle st2 st3 -> idle st1 st3.
Proof. intros [] []. split; try congruence. by eapply grows_trans. Qed.

Lemma idle_bytes st st' i : idle st st' -> inode_bytes st' i = inode_bytes st i.
Proof. intros H. unfold inode_bytes. by rewrite (idle_data _ _ H). Qed.

Lemma rewrites_bytes i c st st' j :
  rewrites i c st st' -> inode_bytes st' j = if decide (i = j) then c else inode_bytes st j.
Proof.
  intros H. unfold inode_bytes. rewrite (rewrites_data _ _ _ _ H). case_decide as Hij.
  - subst. by rewrite lookup_insert_eq.
  - by rewrite lookup_insert_ne.
Qed.

Lemma rewrites_trans i c c' st1 st2 st3 :
  rewrites i c st1 st2 -> rewrites i c' st2 st3 -> rewrites i c' st1 st3.
Proof.
  intros H1 H2. split.
  - eapply grows_trans; [apply H1|apply H2].
  - by rewrite (rewrites_data _ _ _ _ H2), (rewrites_data _ _ _ _ H1), insert_insert_eq.
  - by rewrite (rewrites_next _ _ _ _ H2), (rewrites_next _ _ _ _ H1).
  - by rewrite (rewrites_names _ _ _ _ H2), (rewrites_names _ _ _ _ H1).
  - by rewrite (rewrites_stable_names _ _ _ _ H2), (rewrites_stable_names _ _ _ _ H1).
  - by rewrite (rewrites_dirs _ _ _ _ H2), (rewrites_dirs _ _ _ _ H1).
Qed.

Lemma idle_rewrites i c st1 st2 : sto_data st1 !! i = Some c -> idle st1 st2 -> rewrites i c st1 st2.
Proof.
  intros Hc []. split; try done.
  - eapply grows_mono; [|done]. set_solver.
  - by rewrite insert_id.
Qed.

Lemma wp_sto_call Q R st :
  (forall o st', idle st st' -> Q o st') -> (forall e st', idle st st' -> R e st') ->
  wp Sto.call Q R st.
Proof.
  intros HQ HR. unfold wp, Sto.call.
  destruct (sto_sched st) as [|[e|n|] rest] eqn:Hs; (apply HQ || apply HR);
    split; try done; by apply call_grows; rewrite Hs.
Qed.

Lemma set_data_rewrites i c st st' :
  idle st st' -> rewrites i c st (set_data (<[i := c]> (sto_data st')) st').
Proof.
  intros []. split; cbn; try congruence.
  eapply grows_trans; [eapply grows_mono; [|done]; set_solver|].
  split; cbn; try done; intros j _ Hj; by rewrite lookup_insert_ne by set_solver.
Qed.

(** A file that did not exist. *)
Record creates (i : Inode) (st st' : Storage) : Prop := {
  creates_grows : grows ∅ st st';
  creates_fresh : i = sto_next st;
  creates_data : sto_data st' = <[i := []]> (sto_data st);
  creates_next : sto_next st' = i + 1;
  creates_names : sto_names st' = sto_names st;
  creates_stable_names : sto_stable_names st' = sto_stable_names st;
  creates_dirs : sto_dirs st' = sto_dirs st
}.

Lemma wp_fd_tempfile Q R st :
  (forall st', creates (sto_next st) st st' -> Q (sto_next st) st') ->
  (forall e st', idle st st' -> R e st') ->
  wp Fd.tempfile Q R st.
Proof.
  intros HQ HR. unfold Fd.tempfile. wp_steps. apply wp_sto_call; [|exact HR].
  intros o st1 [G Hd Hx Hn Hsn Hdr]. wp_steps. rewrite Hx. apply HQ.
  split; cbn; rewrite ?Hx, ?Hd; try done.
  eapply grows_trans; [exact G|]. rewrite <-Hx, <-Hd.
  split; cbn; try done; [lia|..]; intros j Hj _; by rewrite lookup_insert_ne by lia.
Qed.

Lemma wp_fd_set_len i n Q R st :
  (forall st', rewrites i (resize_bytes n (inode_bytes st i)) st st' -> Q tt st') ->
  (forall e st', idle st st' -> R e st') ->
  wp (Fd.set_len i n) Q R st.
Proof.
  intros HQ HR. unfold Fd.set_len. wp_steps. apply wp_sto_call; [|exact HR].
  intros o st1 H1. wp_steps. apply HQ. rewrite (idle_bytes _ _ _ H1). by apply set_data_rewrites.
Qed.

Lemma wp_pwrite i bytes off Q R st :
  (forall n st', n <= lenN bytes -> (bytes <> [] -> 0 < n) ->
    rewrites i (file_write off (slice 0 n bytes) (inode_bytes st i)) st st' -> Q n st') ->
  (forall e st', idle st st' -> R e st') ->
  wp (Fd.pwrite i bytes off) Q R st.
Proof.
  intros HQ HR. unfold Fd.pwrite. wp_steps. apply wp_sto_call; [|exact HR].
  intros o st1 H1. wp_steps. apply HQ.
  - unfold transfer. destruct o; lia.
  - intros Hne. assert (0 < lenN bytes) by (unfold lenN; destruct bytes; [done|cbn; lia]).
    unfold transfer. destruct o; lia.
  - rewrite (idle_bytes _ _ _ H1). by apply set_data_rewrites.
Qed.
End fd_facts.
