(* ===== verification/VirtioFs.v ===== *)
(** * The virtio-fs device backend (crates/minidox-vmm/src/virtiofs.rs)

    A [VirtioFsBranch] is one branch of a lineage's shared page cache together
    with the DAX window of its guest: which file page the guest asked to see
    at which offset of the window ([specs]), and the cache mappings that are
    installed there ([active]).  Forks and checkpoints take the mappings out
    of the window and put them back.  This file has the data and all the
    operations; [VirtioFsInv] and the files after it have the theorems. *)

From stdpp Require Import pretty.
From S2P Require Import Prelude Generations Host CacheTypes SharedCache PageCache Storage DurableCowDisk CowDisk RedoxBranch VmmTypes.

(** What a branch uses of its store beyond the [ForkableNodeStore] trait: the
    methods of [RedoxBranch] the device calls.  [St] is the type of the saved
    states. *)
Class BranchStore (W S Id St : Type) := {
  bs_forkable :: ForkableNodeStore W S Id;
  bs_create : N -> M W io_error S;
  bs_create_durable : string -> N -> M W io_error S;
  bs_restore_lineage : string -> list St -> M W io_error (list S);
  bs_create_file : string -> N -> M (W * S) io_error NodeId;
  bs_lookup : NodeId -> string -> M (W * S) io_error NodeId;
  bs_metadata : NodeId -> M (W * S) io_error NodeMetadata;
  bs_entries : NodeId -> M (W * S) io_error (list (NodeId * string));
  bs_durable_state : M (W * S) io_error St
}.

#[export] Instance RedoxBranch_branch {FS} `{!RedoxEngine FS} :
    BranchStore RWorld (RedoxBranch FS) Identity.RedoxPageIdentity RedoxBranchState := {
  bs_create := RedoxBranch.create;
  bs_create_durable := RedoxBranch.create_durable;
  bs_restore_lineage := RedoxBranch.restore_lineage;
  bs_create_file := RedoxBranch.create_file;
  bs_lookup := RedoxBranch.lookup;
  bs_metadata := RedoxBranch.metadata;
  bs_entries := RedoxBranch.entries;
  bs_durable_state := RedoxBranch.durable_state
}.

Definition FILESYSTEM_SIZE : N := 32 * 1024 * 1024.
Definition DAX_WINDOW_SIZE : N := 16 * 1024 * 1024.

Record MappingSpec := mkSpec { ms_inode : NodeId; ms_file_offset : N; ms_writable : bool }.

Record DurableMappingSpec := mkDurableSpec {
  dms_window_offset : N; dms_inode : NodeId; dms_file_offset : N; dms_writable : bool
}.

Record VirtioFsSnapshot (St : Type) := mkSnapshot {
  sn_lineage : N;
  sn_filesystem : St;
  sn_mappings : list DurableMappingSpec
}.
Arguments mkSnapshot {St}.
Arguments sn_lineage {St}.
Arguments sn_filesystem {St}.
Arguments sn_mappings {St}.

(** [State] and [VirtioFsBranch]; the cache of the lineage is shared, see
    [Lineage], and known here by its number. *)
Record VirtioFs := mkVirtioFs {
  vf_cache_id : N;
  vf_lineage : N;
  vf_branch : N;
  vf_window : option (N * N);
  vf_specs : gmap N MappingSpec;
  vf_active : gmap N DaxPageMapping;
  vf_backend_id : N
}.

#[export] Instance MappingSpec_eq_dec : EqDecision MappingSpec.
Proof. solve_decision. Defined.
#[export] Instance VirtioFs_eq_dec : EqDecision VirtioFs.
Proof. solve_decision. Defined.

(** What the branches of a lineage share: the cache, the file pages mapped
    into the process (a page address that is not here is anonymous memory),
    and the counter of [register_in_process_fs]. *)
Record Lineage (W S Id : Type) `{Countable Id} := mkLineage {
  ln_cache : Cache W S Id;
  ln_map : gmap N FileId;
  ln_next_backend : N
}.
Arguments mkLineage {W S Id _ _}.
Arguments ln_cache {W S Id _ _}.
Arguments ln_map {W S Id _ _}.
Arguments ln_next_backend {W S Id _ _}.

(** What all the lineages of the process share: the host, the world of the
    stores, the memory map and the counters. *)
Record Process (W : Type) := mkProcess {
  pr_host : Host;
  pr_world : W;
  pr_next_page_id : N;
  pr_next_cache_id : N;
  pr_map : gmap N FileId;
  pr_next_backend : N
}.
Arguments mkProcess {W}.
Arguments pr_host {W}.
Arguments pr_world {W}.
Arguments pr_next_page_id {W}.
Arguments pr_next_cache_id {W}.
Arguments pr_map {W}.
Arguments pr_next_backend {W}.

(** [impl Display for CacheError]; the text of an I/O error is not used. *)
Definition cache_message (e : CacheError) : string :=
  match e with
  | Io _ => EmptyString
  | InvalidMapping message => message
  | NodeNotOpen node => "node " +:+ pretty node +:+ " is not open"
  | BranchNotFound branch => "cache branch " +:+ pretty branch +:+ " does not exist"
  | StaleMapping => "mapping no longer belongs to this cache"
  | ActiveMappings => "cache still has active DAX mappings"
  | PageBusy => "DAX page must be unmapped before copy-on-write"
  end.

Definition cache_io_error (e : CacheError) : io_error :=
  match e with
  | Io error => error
  | error => Custom Other (cache_message error)
  end.

(** [u32::try_from(inode)]. *)
Definition node_id (inode : N) : result io_error NodeId :=
  if inode <=? 4294967295 then Ok inode else Err (RawOs EOVERFLOW).

(** [FsNodeAttr] and [FsDirEntry] of the device. *)
Record FsNodeAttr := mkAttr {
  at_inode : N; at_size : N; at_blocks : N; at_atime : N * N; at_mtime : N * N; at_ctime : N * N;
  at_mode : N; at_links : N; at_uid : N; at_gid : N
}.

Record FsDirEntry := mkDirEntry { de_inode : N; de_name : string; de_directory : bool }.

Definition node_attr (metadata : NodeMetadata) : FsNodeAttr :=
  mkAttr (nm_id metadata) (nm_size metadata) (nm_blocks_512 metadata) (nm_atime metadata)
    (nm_mtime metadata) (nm_ctime metadata) (nm_mode metadata) (nm_links metadata) (nm_uid metadata)
    (nm_gid metadata).

Definition S_IFMT : N := 61440.
Definition S_IFDIR : N := 16384.

Definition spec_flags (spec : MappingSpec) : MapFlags := if ms_writable spec then flag_RW else flag_R.

Module Vfs.
Section virtio_fs.
Context {W S Id St : Type} `{Countable Id} `{!BranchStore W S Id St}.

Abbreviation lineage := (Lineage W S Id).
Abbreviation C := (M (Cache W S Id) CacheError).
Abbreviation V := (M (Lineage W S Id * VirtioFs) io_error).
Abbreviation VE := (M (Lineage W S Id * VirtioFs) VmmError).

Implicit Types (v : VirtioFs) (offset : N).

Definition set_cache (c : Cache W S Id) (L : lineage) : lineage := mkLineage c (ln_map L) (ln_next_backend L).
Definition set_map (m : gmap N FileId) (L : lineage) : lineage := mkLineage (ln_cache L) m (ln_next_backend L).
Definition set_window (w : option (N * N)) v : VirtioFs :=
  mkVirtioFs (vf_cache_id v) (vf_lineage v) (vf_branch v) w (vf_specs v) (vf_active v) (vf_backend_id v).
Definition set_specs (s : gmap N MappingSpec) v : VirtioFs :=
  mkVirtioFs (vf_cache_id v) (vf_lineage v) (vf_branch v) (vf_window v) s (vf_active v) (vf_backend_id v).
Definition set_active (a : gmap N DaxPageMapping) v : VirtioFs :=
  mkVirtioFs (vf_cache_id v) (vf_lineage v) (vf_branch v) (vf_window v) (vf_specs v) a (vf_backend_id v).

(** Cache calls: with the error made an I/O error, or a backend error. *)
Definition in_cache {A} (m : C A) : M (Lineage W S Id * VirtioFs) CacheError A :=
  zoom (fun s => ln_cache s.1) (fun c s => (set_cache c s.1, s.2)) m.
Definition cache_io {A} (m : C A) : V A := with_err cache_io_error (in_cache m).
Definition cache_as {A} (operation : string) (m : C A) : VE A :=
  with_err (fun e => Backend operation (CauseCache e)) (in_cache m).
Definition io_as {A} (operation : string) (m : V A) : VE A :=
  with_err (fun e => Backend operation (CauseIo e)) m.

Definition self {E} : M (Lineage W S Id * VirtioFs) E VirtioFs := gets snd.
Definition update {E} (f : VirtioFs -> VirtioFs) : M (Lineage W S Id * VirtioFs) E unit :=
  modify (fun s => (s.1, f s.2)).

(** A closure that runs a store method on the branch, [node_id] applied to
    its argument first. *)
Definition with_node {A} (inode : N) (f : NodeId -> M (W * S) io_error A) : M (W * S) io_error A :=
  node ← lift (node_id inode);
  f node.

(** [mmap] of one page of a file, or of anonymous memory, over a page of the
    window; the host may refuse. *)
Definition mmap_shared (address : N) (f : FileId) : V unit :=
  _ ← cache_io (Shared.io syscall);
  modify (fun s => (set_map (<[address := f]> (ln_map s.1)) s.1, s.2)).
Definition mmap_anonymous (address : N) : V unit :=
  _ ← cache_io (Shared.io syscall);
  modify (fun s => (set_map (delete address (ln_map s.1)) s.1, s.2)).

(** ** The window *)

(** [remove_offset]. *)
Definition remove_offset offset (remove_spec : bool) : V unit :=
  v ← self;
  _ ← (match vf_active v !! offset with
       | Some mapping =>
           _ ← update (fun v => set_active (delete offset (vf_active v)) v);
           match vf_window v with
           | None => throw (RawOs ENODEV)
           | Some (window, _) =>
               mapped ← attempt (mmap_anonymous (window + offset));
               match mapped with
               | Err e =>
                   _ ← update (fun v => set_active (<[offset := mapping]> (vf_active v)) v);
                   throw e
               | Ok _ => cache_io (Shared.unmap (vf_branch v) mapping)
               end
           end
       | None => if decide (vf_specs v !! offset = None) then throw (RawOs ENOENT) else mret tt
       end);
  if remove_spec then update (fun v => set_specs (delete offset (vf_specs v)) v) else mret tt.

(** The closure of [activate_offsets]: was a page installed?  Looking up a
    missing spec would panic. *)
Definition activate_one (window window_len offset : N) : V bool :=
  v ← self;
  match vf_specs v !! offset with
  | None => throw (Custom Other "no entry found for key")
  | Some spec =>
      if window_len <? wrapping_add offset PAGE_SIZE then throw (RawOs EINVAL) else
      file_len ← cache_io (Shared.with_store_mut (vf_branch v) (ns_len (ms_inode spec)));
      if file_len <=? ms_file_offset spec then mret false else
      mapping ← cache_io (Shared.map_page (vf_branch v) (ms_inode spec) (ms_file_offset spec)
                            (spec_flags spec));
      mapped ← attempt (mmap_shared (window + offset) (cp_backing (m_page mapping)));
      match mapped with
      | Err e =>
          _ ← cache_io (Shared.unmap (vf_branch v) mapping);
          throw e
      | Ok _ =>
          _ ← update (fun v => set_active (<[offset := mapping]> (vf_active v)) v);
          mret true
      end
  end.

(** The loop of [activate_offsets]; [activated] has the latest page first. *)
Fixpoint activate_loop (window window_len : N) (offsets activated : list N) : V unit :=
  match offsets with
  | [] => mret tt
  | offset :: rest =>
      v ← self;
      if decide (is_Some (vf_active v !! offset))
      then activate_loop window window_len rest activated else
      result ← attempt (activate_one window window_len offset);
      match result with
      | Ok true => activate_loop window window_len rest (offset :: activated)
      | Ok false => activate_loop window window_len rest activated
      | Err e =>
          _ ← for_each (fun o => _ ← attempt (remove_offset o false); mret tt) activated;
          throw e
      end
  end.

(** [activate_offsets]. *)
Definition activate_offsets (offsets : list N) : V unit :=
  if decide (offsets = []) then mret tt else
  v ← self;
  match vf_window v with
  | None => throw (RawOs ENODEV)
  | Some (window, window_len) => activate_loop window window_len offsets []
  end.

(** [suspend_mappings] and [resume_mappings]. *)
Definition suspend_mappings : V unit :=
  v ← self;
  for_each (fun offset => remove_offset offset false) (btree_keys (vf_active v)).

Definition resume_mappings : V unit :=
  v ← self;
  activate_offsets (btree_keys (vf_specs v)).

(** ** Branches *)

Definition on_cache {A} (operation : string) (m : C A) : M lineage VmmError A :=
  zoom ln_cache set_cache (with_err (fun e => Backend operation (CauseCache e)) m).

(** [from_parts], which registers the branch with the device model. *)
Definition from_parts (lineage_id branch : N) (specs : gmap N MappingSpec) : M lineage VmmError VirtioFs :=
  _ ← for_each (fun inode => on_cache "restore DAX file handle" (Shared.open branch inode))
        (btree_elems (list_to_set (ms_inode <$> (map_to_list specs).*2)));
  L ← get;
  _ ← modify (fun L => mkLineage (ln_cache L) (ln_map L) (wrapping_add (ln_next_backend L) 1));
  mret (mkVirtioFs (c_id (ln_cache L)) lineage_id branch None specs ∅ (ln_next_backend L)).

(** [VirtioFsBranch::fork]. *)
Definition fork : VE VirtioFs :=
  _ ← io_as "suspend DAX mappings" suspend_mappings;
  v ← self;
  child ← attempt (cache_as "fork RedoxFS/DAX branch" (Shared.fork (vf_branch v)));
  resume ← attempt (io_as "resume DAX mappings" resume_mappings);
  branch ← lift child;
  _ ← lift resume;
  zoom fst (fun L s => (L, s.2)) (from_parts (vf_lineage v) branch (vf_specs v)).

Definition durable_spec (entry : N * MappingSpec) : DurableMappingSpec :=
  mkDurableSpec entry.1 (ms_inode entry.2) (ms_file_offset entry.2) (ms_writable entry.2).

(** The closure of [durable_snapshot]. *)
Definition take_snapshot : VE (VirtioFsSnapshot St) :=
  v ← self;
  _ ← cache_as "sync DAX pages for checkpoint" (Shared.sync_all (vf_branch v));
  filesystem ← cache_as "snapshot RedoxFS branch" (Shared.with_store_mut (vf_branch v) bs_durable_state);
  mret (mkSnapshot (vf_lineage v) filesystem (durable_spec <$> btree_list (vf_specs v))).

(** [VirtioFsBranch::durable_snapshot]. *)
Definition durable_snapshot : VE (VirtioFsSnapshot St) :=
  _ ← io_as "suspend DAX mappings for checkpoint" suspend_mappings;
  result ← attempt take_snapshot;
  resume ← attempt (io_as "resume DAX mappings after checkpoint" resume_mappings);
  snapshot ← lift result;
  _ ← lift resume;
  mret snapshot.

(** A process with a cache of its own, and back. *)
Definition enter (c : Cache W S Id) (p : Process W) : lineage := mkLineage c (pr_map p) (pr_next_backend p).
Definition leave (L : lineage) (p : Process W) : Process W :=
  mkProcess (c_host (ln_cache L)) (c_world (ln_cache L)) (c_next_page_id (ln_cache L)) (pr_next_cache_id p)
    (ln_map L) (ln_next_backend L).

Definition on_new_cache {A} (c : Cache W S Id) (m : M lineage VmmError A) :
    M (Process W) VmmError (lineage * A) := fun p =>
  let '(L, r) := m (enter c p) in
  (leave L p, match r with Ok a => Ok (L, a) | Err e => Err e end).

Definition on_world {A} (operation : string) (m : M W io_error A) : M (Process W) VmmError A :=
  zoom pr_world (fun w p => mkProcess (pr_host p) w (pr_next_page_id p) (pr_next_cache_id p) (pr_map p)
                              (pr_next_backend p))
    (with_err (fun e => Backend operation (CauseIo e)) m).

(** [NEXT_CACHE_ID.fetch_add(1)]. *)
Definition take_cache_id : M (Process W) VmmError N :=
  p ← get;
  _ ← modify (fun p => mkProcess (pr_host p) (pr_world p) (pr_next_page_id p)
                         (wrapping_add (pr_next_cache_id p) 1) (pr_map p) (pr_next_backend p));
  mret (pr_next_cache_id p).

(** [VirtioFsBranch::create]. *)
Definition create : M (Process W) VmmError (lineage * VirtioFs) :=
  filesystem ← on_world "create RedoxFS branch" (bs_create FILESYSTEM_SIZE);
  id ← take_cache_id;
  p ← get;
  let '(cache, branch) := Shared.new id (pr_host p) (pr_world p) (pr_next_page_id p) filesystem in
  on_new_cache cache (from_parts (c_id cache) branch ∅).

(** [VirtioFsBranch::create_durable]. *)
Definition create_durable (lineage_id : N) (directory : string) : M (Process W) VmmError (lineage * VirtioFs) :=
  filesystem ← on_world "create durable RedoxFS branch" (bs_create_durable directory FILESYSTEM_SIZE);
  id ← take_cache_id;
  p ← get;
  let '(cache, branch) := Shared.new id (pr_host p) (pr_world p) (pr_next_page_id p) filesystem in
  on_new_cache cache (from_parts lineage_id branch ∅).

Definition restored_spec (mapping : DurableMappingSpec) : N * MappingSpec :=
  (dms_window_offset mapping, mkSpec (dms_inode mapping) (dms_file_offset mapping) (dms_writable mapping)).

(** The [collect] of [restore_lineage]: up to the first error. *)
Fixpoint restore_branches (parts : list (VirtioFsSnapshot St * N)) : M lineage VmmError (list VirtioFs) :=
  match parts with
  | [] => mret []
  | (snapshot, branch) :: rest =>
      v ← from_parts (sn_lineage snapshot) branch (btree_collect (restored_spec <$> sn_mappings snapshot));
      vs ← restore_branches rest;
      mret (v :: vs)
  end.

(** [VirtioFsBranch::restore_lineage]. *)
Definition restore_lineage (directory : string) (snapshots : list (VirtioFsSnapshot St)) :
    M (Process W) VmmError (lineage * list VirtioFs) :=
  stores ← on_world "restore RedoxFS lineage" (bs_restore_lineage directory (sn_filesystem <$> snapshots));
  p ← get;
  '(cache, branches) ← lift (map_err (fun e => Backend "restore shared filesystem cache" (CauseCache e))
      (Shared.restore (pr_next_cache_id p) (pr_host p) (pr_world p) (pr_next_page_id p) stores));
  _ ← take_cache_id;
  on_new_cache cache (restore_branches (zip snapshots branches)).

(** [VirtioFsBranch::create_file]. *)
Definition create_file (name : string) (size : N) : VE NodeId :=
  v ← self;
  cache_as "create RedoxFS file" (Shared.with_store_mut (vf_branch v) (bs_create_file name size)).

(** [VirtioFsBranch::read] and [VirtioFsBranch::write]. *)
Definition read (node : NodeId) offset (len : N) : VE (list byte) :=
  v ← self;
  _ ← cache_as "open cached file" (Shared.open (vf_branch v) node);
  result ← attempt (cache_as "read cached file" (Shared.read (vf_branch v) node offset len));
  close ← attempt (cache_as "close cached file" (Shared.close (vf_branch v) node));
  bytes ← lift result;
  _ ← lift close;
  mret bytes.

Definition write_closed (node : NodeId) offset (bytes : list byte) : VE unit :=
  v ← self;
  _ ← cache_as "open cached file" (Shared.open (vf_branch v) node);
  write ← attempt (cache_as "write cached file"
            (_ ← Shared.write (vf_branch v) node offset bytes; Shared.sync (vf_branch v) node));
  close ← attempt (cache_as "close cached file" (Shared.close (vf_branch v) node));
  _ ← lift write;
  lift close.

Definition write (node : NodeId) offset (bytes : list byte) : VE unit :=
  _ ← io_as "suspend DAX mappings for write" suspend_mappings;
  result ← attempt (write_closed node offset bytes);
  resume ← attempt (io_as "resume DAX mappings after write" resume_mappings);
  _ ← lift result;
  lift resume.

(** [Drop]: mappings go back and the branch is removed, whatever fails. *)
Definition drop_branch : M (Lineage W S Id * VirtioFs) CacheError unit :=
  v ← self;
  _ ← update (set_active ∅);
  _ ← for_each (fun offset =>
        match vf_active v !! offset with
        | None => mret tt
        | Some mapping => _ ← attempt (in_cache (Shared.unmap (vf_branch v) mapping)); mret tt
        end) (btree_keys (vf_active v));
  _ ← attempt (in_cache (Shared.remove_branch (vf_branch v)));
  mret tt.

(** ** The device's requests ([InProcessFsBackend]) *)

Definition fs_lookup (parent : N) (name : string) : V FsNodeAttr :=
  v ← self;
  inode ← cache_io (Shared.with_store_mut (vf_branch v) (with_node parent (fun p => bs_lookup p name)));
  metadata ← cache_io (Shared.with_store_mut (vf_branch v) (bs_metadata inode));
  mret (node_attr metadata).

Definition fs_getattr (inode : N) : V FsNodeAttr :=
  v ← self;
  metadata ← cache_io (Shared.with_store_mut (vf_branch v) (with_node inode bs_metadata));
  mret (node_attr metadata).

Definition fs_open (inode : N) : V unit :=
  v ← self;
  node ← lift (node_id inode);
  cache_io (Shared.open (vf_branch v) node).

Definition fs_close (inode : N) : V unit :=
  v ← self;
  node ← lift (node_id inode);
  cache_io (Shared.close (vf_branch v) node).

Definition fs_read (inode offset len : N) : V (list byte) :=
  v ← self;
  node ← lift (node_id inode);
  cache_io (Shared.read (vf_branch v) node offset len).

Definition fs_write (inode offset : N) (data : list byte) : V N :=
  v ← self;
  node ← lift (node_id inode);
  cache_io (Shared.write (vf_branch v) node offset data).

Definition fs_sync (inode : N) : V unit :=
  v ← self;
  node ← lift (node_id inode);
  cache_io (Shared.sync (vf_branch v) node).

(** The attributes of the entries of a directory, one by one. *)
Fixpoint dir_entries (branch : N) (entries : list (NodeId * string)) : V (list FsDirEntry) :=
  match entries with
  | [] => mret []
  | (id, name) :: rest =>
      metadata ← cache_io (Shared.with_store_mut branch (bs_metadata id));
      others ← dir_entries branch rest;
      mret (mkDirEntry id name (N.land (nm_mode metadata) S_IFMT =? S_IFDIR) :: others)
  end.

Definition fs_entries (inode : N) : V (list FsDirEntry) :=
  v ← self;
  entries ← cache_io (Shared.with_store_mut (vf_branch v) (with_node inode bs_entries));
  dir_entries (vf_branch v) entries.

(** [attach_dax_window] and [detach_dax_window]. *)
Definition attach_dax_window (host_address len : N) : V unit :=
  v ← self;
  match vf_window v with
  | Some _ => throw (Custom AlreadyExists "DAX window is already attached")
  | None =>
      _ ← update (set_window (Some (host_address, len)));
      resumed ← attempt resume_mappings;
      match resumed with
      | Err e => _ ← update (set_window None); throw e
      | Ok _ => mret tt
      end
  end.

Definition detach_dax_window (host_address len : N) : V unit :=
  v ← self;
  if decide (vf_window v <> Some (host_address, len)) then mret tt else
  _ ← suspend_mappings;
  update (set_window None).

(** [specs.range(..end).any(..)]. *)
Definition overlaps v (window_offset end_ : N) : bool :=
  existsb (fun entry : N * MappingSpec =>
      (entry.1 <? end_) && ((window_offset <=? entry.1) || (window_offset <? wrapping_add entry.1 PAGE_SIZE)))
    (map_to_list (vf_specs v)).

(** The specs one [setup_mapping] adds. *)
Definition add_specs (inode : NodeId) (file_offset window_offset : N) (writable : bool)
    (deltas : list N) (specs : gmap N MappingSpec) : gmap N MappingSpec :=
  foldl (fun specs delta => <[window_offset + delta := mkSpec inode (file_offset + delta) writable]> specs)
    specs deltas.

(** [setup_mapping]. *)
Definition setup_mapping (inode file_offset len : N) (writable : bool) (window_offset : N) : V unit :=
  if (len =? 0) || negb (file_offset mod PAGE_SIZE =? 0) || negb (window_offset mod PAGE_SIZE =? 0)
     || negb (len mod PAGE_SIZE =? 0) then throw (RawOs EINVAL) else
  v ← self;
  match vf_window v with
  | None => throw (RawOs ENODEV)
  | Some (_, window_len) =>
      match checked_add window_offset len with
      | None => throw (RawOs EINVAL)
      | Some end_ =>
          if window_len <? end_ then throw (RawOs EINVAL) else
          match checked_add file_offset len with
          | None => throw (RawOs EINVAL)
          | Some _ =>
              if overlaps v window_offset end_ then throw (RawOs EBUSY) else
              node ← lift (node_id inode);
              let deltas := page_starts 0 len in
              let inserted := (fun delta => window_offset + delta) <$> deltas in
              _ ← update (fun v => set_specs (add_specs node file_offset window_offset writable deltas
                                                (vf_specs v)) v);
              activated ← attempt (activate_offsets inserted);
              match activated with
              | Ok _ => mret tt
              | Err e =>
                  _ ← update (fun v => set_specs (foldr delete (vf_specs v) inserted) v);
                  throw e
              end
          end
      end
  end.

(** [remove_mapping]; the offset is 64 bits wide. *)
Definition remove_mapping (window_offset len : N) : V unit :=
  if (len =? 0) || negb (window_offset mod PAGE_SIZE =? 0) || negb (len mod PAGE_SIZE =? 0)
  then throw (RawOs EINVAL) else
  for_each (fun delta => remove_offset (wrapping_add window_offset delta) true) (page_starts 0 len).

End virtio_fs.
End Vfs.
