(* ===== verification/VirtioFsInv.v ===== *)
(** * Invariant of the DAX windows

    [vf_ok] says what the window of one guest shows: at every active offset
    the page the cache mapped for the file page the guest asked for, and
    anonymous memory at every other.  [vgood] joins it with the invariant of
    the cache, whose clients are this guest and [rest].  The lemmas give each
    step of the device on its success and error paths. *)

From S2P Require Import Prelude Generations Host CacheTypes DirtyPages SharedCache SharedCacheInv SharedCacheSteps SharedCacheOps SharedCacheIO SharedCacheLife SharedCacheLens PageCache RedoxBranch VmmTypes VirtioFs.
Import Vfs.

Section windows.
Context {W S Id St : Type} `{Countable Id} `{!BranchStore W S Id St} `{!StoreView W S Id}
  `{!StoreLaws W S Id} `{!LenLaws W S Id}.

Implicit Types (L : Lineage W S Id) (v : VirtioFs) (c : Cache W S Id) (rest : list DaxPageMapping)
  (sp : MappingSpec) (m : DaxPageMapping) (a : gmap N DaxPageMapping).

(** The mappings a guest holds. *)
Definition active_list a : list DaxPageMapping := (map_to_list a).*2.

(** Page aligned, and the page ends inside the 64-bit range. *)
Definition spec_ok (offset : N) sp : Prop :=
  offset mod PAGE_SIZE = 0 /\ offset + PAGE_SIZE <= u64_MAX /\ ms_file_offset sp mod PAGE_SIZE = 0.

(** [m] maps the page [sp] asks for. *)
Definition mapping_for v sp m : Prop :=
  m_branch m = vf_branch v /\ m_key m = (ms_inode sp, ms_file_offset sp) /\ m_flags m = spec_flags sp.

(** The page lies in the file. *)
Definition in_file c v sp : Prop :=
  exists br n, c_branches c !! vf_branch v = Some br /\ s_len (store br) (ms_inode sp) = Ok n /\
    ms_file_offset sp < n.

Definition active_ok L v (offset : N) m : Prop :=
  exists sp base len, vf_specs v !! offset = Some sp /\ vf_window v = Some (base, len) /\
    offset + PAGE_SIZE <= len /\ mapping_for v sp m /\ in_file (ln_cache L) v sp /\
    ln_map L !! (base + offset) = Some (cp_backing (m_page m)).

Record vf_ok L v : Prop := {
  ok_specs offset sp : vf_specs v !! offset = Some sp -> spec_ok offset sp;
  ok_active offset m : vf_active v !! offset = Some m -> active_ok L v offset m;
  ok_placeholder base len offset : vf_window v = Some (base, len) -> offset < len ->
    offset mod PAGE_SIZE = 0 -> vf_active v !! offset = None -> ln_map L !! (base + offset) = None;
  ok_branch : is_Some (c_branches (ln_cache L) !! vf_branch v)
}.

Definition vgood n L v rest : Prop := good n (ln_cache L) (active_list (vf_active v) ++ rest) /\ vf_ok L v.

(** ** What a step may change *)

(** Addresses of a window. *)
Definition in_window (w : option (N * N)) (address : N) : Prop :=
  exists base len, w = Some (base, len) /\ base <= address < base + len.

(** Memory outside the window and file lengths stay. *)
Record frame w L L' : Prop := {
  fr_lens : lens_kept (ln_cache L) (ln_cache L');
  fr_backend : ln_next_backend L' = ln_next_backend L;
  fr_map address : (~ in_window w address) -> ln_map L' !! address = ln_map L !! address
}.

#[export] Instance frame_preorder w : PreOrder (frame w).
Proof.
  split.
  - intros L. by split.
  - intros L1 L2 L3 [H1 H2 H3] [H4 H5 H6]. split.
    + by etrans.
    + congruence.
    + intros address Ha. rewrite H6 by done. by apply H3.
Qed.

(** A step nobody can see in any branch's files. *)
Definition calm w L L' : Prop := frame w L L' /\ same_views (ln_cache L) (ln_cache L').

#[export] Instance calm_preorder w : PreOrder (calm w).
Proof.
  split.
  - intros L. split; [reflexivity|apply same_views_refl].
  - intros L1 L2 L3 [F1 V1] [F2 V2]. split; [by etrans|by eapply same_views_trans].
Qed.

(** ** Helpers *)

Lemma active_list_insert a o m : a !! o = None -> active_list (<[o := m]> a) ≡ₚ m :: active_list a.
Proof. intros Ha. unfold active_list. by rewrite map_to_list_insert. Qed.

Lemma active_list_delete a o m : a !! o = Some m -> active_list a ≡ₚ m :: active_list (delete o a).
Proof. intros Ha. rewrite <-active_list_insert by apply lookup_delete_eq. by rewrite insert_delete_id. Qed.

Lemma elem_of_active_list a m : m ∈ active_list a <-> exists o, a !! o = Some m.
Proof.
  unfold active_list. rewrite list_elem_of_fmap. split.
  - intros ([o m'] & -> & Hm%elem_of_map_to_list). by exists o.
  - intros [o Ho]. exists (o, m). split; [done|]. by apply elem_of_map_to_list.
Qed.

Lemma in_file_kept c c' v sp : lens_kept c c' -> in_file c v sp -> in_file c' v sp.
Proof.
  intros HL (br & n & Hb & Hn & Hlt). destruct (HL _ _ Hb) as (br' & Hb' & Hl).
  exists br', n. by rewrite Hl.
Qed.

Lemma vf_ok_cache L L' v :
  vf_ok L v -> lens_kept (ln_cache L) (ln_cache L') -> ln_map L' = ln_map L -> vf_ok L' v.
Proof.
  intros [Hs Ha Hp [br Hb]] HL Hm. split; [done| | |].
  - intros o m (sp & base & len & H1 & H2 & H3 & H4 & H5 & H6)%Ha. exists sp, base, len.
    rewrite Hm. repeat split; try done; try apply H4. by eapply in_file_kept.
  - intros base len o. rewrite Hm. apply Hp.
  - destruct (HL _ _ Hb) as (br' & Hb' & _). by exists br'.
Qed.

Lemma frame_cache L c w : lens_kept (ln_cache L) c -> frame w L (set_cache c L).
Proof. by split. Qed.

(** A change of the cache alone. *)
Lemma vgood_cache n n' L v rest c :
  vgood n L v rest -> good n' c (active_list (vf_active v) ++ rest) -> lens_kept (ln_cache L) c ->
  vgood n' (set_cache c L) v rest.
Proof. intros [_ Hok] G HL. split; [done|]. by apply (vf_ok_cache L). Qed.

Lemma vgood_quiet n L v rest c :
  vgood n L v rest -> quiet (ln_cache L) c -> lens_kept (ln_cache L) c ->
  vgood n (set_cache c L) v rest /\ calm (vf_window v) L (set_cache c L).
Proof.
  intros V Q HL. split.
  - eapply vgood_cache; [done| |done]. by eapply good_quiet; [apply V|].
  - split; [by apply frame_cache|]. by eapply views_quiet; [apply V|].
Qed.

Lemma vgood_le n' n L v rest : vgood n L v rest -> n' <= n -> vgood n' L v rest.
Proof. intros [G O] Hn. split; [by eapply good_le|done]. Qed.

Lemma wp_in_cache {A} (f : M (Cache W S Id) CacheError A) Q R L v :
  wp (in_cache f) Q R (L, v) <->
  wp f (fun x c => Q x (set_cache c L, v)) (fun e c => R e (set_cache c L, v)) (ln_cache L).
Proof. unfold in_cache. by rewrite wp_zoom. Qed.

Lemma wp_cache_io {A} (f : M (Cache W S Id) CacheError A) Q R L v :
  wp (cache_io f) Q R (L, v) <->
  wp f (fun x c => Q x (set_cache c L, v)) (fun e c => R (cache_io_error e) (set_cache c L, v)) (ln_cache L).
Proof. unfold cache_io. by rewrite wp_with_err, wp_in_cache. Qed.

(** The host call behind [mmap] changes nothing the invariant is about. *)
Lemma wp_mmap_call Q R n L v v' rest :
  vgood n L v rest ->
  (forall o L', vgood n L' v rest -> calm (vf_window v) L L' -> ln_map L' = ln_map L -> Q o (L', v')) ->
  (forall e L', vgood n L' v rest -> calm (vf_window v) L L' -> R e (L', v')) ->
  wp (cache_io (Shared.io syscall)) Q R (L, v').
Proof.
  intros V HQ HR. rewrite wp_cache_io. unfold Shared.io. wp_steps.
  apply wp_syscall; intros x h Hh;
    (destruct (vgood_quiet n L v rest (Shared.set_host h (ln_cache L)) V) as [V' C'];
      [by apply same_files_quiet|by apply lens_same|]); [by apply HQ|by apply HR].
Qed.

(** ** Taking a page out of the window *)

(** The window without the page at [o]. *)
Lemma vf_ok_remove L v o m base len :
  vf_ok L v -> vf_active v !! o = Some m -> vf_window v = Some (base, len) ->
  vf_ok (set_map (delete (base + o) (ln_map L)) L) (set_active (delete o (vf_active v)) v).
Proof.
  intros [Hs Ha Hp Hb] Hm Hw. split; [done| | |done].
  - intros o' m'. cbn. intros [Hne Hm']%lookup_delete_Some. destruct (Ha _ _ Hm') as (sp & b' & l' & H1 & H2 & H3 & H4 & H5 & H6).
    exists sp, b', l'. repeat split; try done; try apply H4. cbn. rewrite Hw in H2. injection H2 as <- <-.
    rewrite lookup_delete_ne by lia. done.
  - intros b' l' o' Hw' Hlt Hal Hn. cbn. cbn in Hw', Hn. rewrite Hw in Hw'. injection Hw' as <- <-.
    destruct (decide (o' = o)) as [->|Hne]; [apply lookup_delete_eq|].
    rewrite lookup_delete_ne in Hn by done. rewrite lookup_delete_ne by lia. by apply (Hp base len).
Qed.

Lemma frame_window L v base len o f : vf_window v = Some (base, len) -> o < len ->
  (forall address, address <> base + o -> f !! address = ln_map L !! address) -> frame (vf_window v) L (set_map f L).
Proof.
  intros Hw Ho Hf. split; try done. intros address Hout. apply Hf. intros ->. apply Hout.
  exists base, len. split; [done|lia].
Qed.

(** What [remove_offset] leaves of the guest's state. *)
Definition dropped (o : N) (remove_spec : bool) v : VirtioFs :=
  let v' := set_active (delete o (vf_active v)) v in
  if remove_spec then set_specs (delete o (vf_specs v)) v' else v'.

Lemma set_active_id v : set_active (vf_active v) v = v.
Proof. by destruct v. Qed.

Lemma vgood_spec n L v o rest : vgood n L v rest -> vf_active v !! o = None ->
  vgood n L (set_specs (delete o (vf_specs v)) v) rest.
Proof.
  intros [G [Hs Ha Hp Hb]] Hn. split; [done|]. split; [|  |done|done].
  - intros o' sp. cbn. intros [_ Hsp]%lookup_delete_Some. by apply Hs.
  - intros o' m Hm. cbn in Hm. destruct (Ha _ _ Hm) as (sp & base & len & H1 & H2).
    exists sp, base, len. cbn. rewrite lookup_delete_ne by congruence. done.
Qed.

(** The page goes back to the cache; when the host refuses, nothing changes. *)
Lemma wp_remove_active o m Q R n L v rest :
  vgood n L v rest -> vf_active v !! o = Some m ->
  let v' := set_active (delete o (vf_active v)) v in
  (forall L', vgood n L' v' rest -> calm (vf_window v) L L' -> Q tt (L', v')) ->
  (forall e L', vgood n L' v rest -> calm (vf_window v) L L' -> R e (L', v)) ->
  wp (match vf_window v with
      | None => throw (RawOs ENODEV)
      | Some (window, _) =>
          mapped ← attempt (mmap_anonymous (window + o));
          match mapped with
          | Err e => _ ← update (fun v => set_active (<[o := m]> (vf_active v)) v); throw e
          | Ok _ => cache_io (Shared.unmap (vf_branch v) m)
          end
      end) Q R (L, v').
Proof.
  intros V Hm v' HQ HR. pose proof (proj2 V) as Hok.
  destruct (ok_active _ _ Hok _ _ Hm) as (sp & base & len & _ & Hw & Hin & (Hmb & _) & _ & _). rewrite Hw.
  unfold mmap_anonymous, update. wp_steps. eapply wp_mmap_call; [exact V| |].
  2:{ intros e L1 V1 C1. wp_steps. cbn. rewrite insert_delete_id by done. unfold v'.
      replace (set_active (vf_active v) _) with v by (by destruct v). by apply HR. }
  intros _ L1 V1 C1 Hmap. wp_steps. cbn. rewrite wp_cache_io. cbn.
  apply wp_and_keeps with (P := lens_kept); [apply lens_unmap|].
  eapply (wp_unmap _ _ _ _ n _ (active_list (delete o (vf_active v)) ++ rest)); [|done|].
  { eapply good_perm; [|apply V1]. by rewrite (active_list_delete _ _ _ Hm). }
  intros c2 G2 V2 L2. pose proof (vf_ok_remove L1 v o m base len (proj2 V1) Hm Hw) as Hok'.
  assert (calm (vf_window v) L (set_cache c2 (set_map (delete (base + o) (ln_map L1)) L1))) as C2.
  { etrans; [exact C1|]. split; [|done]. etrans; [|by apply frame_cache].
    apply (frame_window L1 v base len o); [done|unfold PAGE_SIZE in Hin; lia|].
    intros address Hne. by rewrite lookup_delete_ne. }
  apply HQ; [|exact C2]. split; [done|]. by eapply vf_ok_cache.
Qed.

Lemma wp_remove_offset o remove_spec Q R n L v rest :
  vgood n L v rest ->
  (forall L', vgood n L' (dropped o remove_spec v) rest -> calm (vf_window v) L L' -> is_Some (vf_specs v !! o) ->
    Q tt (L', dropped o remove_spec v)) ->
  (forall e L', vgood n L' v rest -> calm (vf_window v) L L' -> R e (L', v)) ->
  wp (remove_offset o remove_spec) Q R (L, v).
Proof.
  intros V HQ HR. unfold remove_offset, self, update. wp_steps. cbn [snd].
  assert (forall L1, vgood n L1 (set_active (delete o (vf_active v)) v) rest -> calm (vf_window v) L L1 ->
    is_Some (vf_specs v !! o) ->
    wp (if remove_spec then modify (fun s => (s.1, set_specs (delete o (vf_specs s.2)) s.2)) else mret tt) Q R
      (L1, set_active (delete o (vf_active v)) v)) as Hend.
  { intros L1 V1 C1 Hs. destruct remove_spec; wp_steps; apply HQ; try done. cbn.
    apply (vgood_spec n L1 (set_active _ v)); [done|]. apply lookup_delete_eq. }
  destruct (vf_active v !! o) as [m|] eqn:Hm.
  - wp_steps. apply (wp_remove_active o m _ _ n L v rest V Hm); [|done]. intros L1 V1 C1. apply Hend; try done.
    destruct (ok_active _ _ (proj2 V) _ _ Hm) as (sp & _ & _ & Hsp & _). by exists sp.
  - case_decide as Hs; wp_steps; [by apply HR|].
    assert (v = set_active (delete o (vf_active v)) v) as Heq by (rewrite delete_id by done; by destruct v).
    specialize (Hend L). rewrite <-Heq in Hend. apply Hend; [done|done|]. by apply not_eq_None_Some.
Qed.

(** ** Putting a page into the window *)

Lemma vf_ok_insert L v o sp m base len :
  vf_ok L v -> vf_active v !! o = None -> vf_specs v !! o = Some sp -> vf_window v = Some (base, len) ->
  o + PAGE_SIZE <= len -> mapping_for v sp m -> in_file (ln_cache L) v sp ->
  vf_ok (set_map (<[base + o := cp_backing (m_page m)]> (ln_map L)) L) (set_active (<[o := m]> (vf_active v)) v).
Proof.
  intros [Hs Ha Hp Hb] Hn Hsp Hw Hin Hfor Hfile. split; [done| | |done].
  - intros o' m'. cbn. intros [[<- <-]|[Hne Hm']]%lookup_insert_Some.
    + exists sp, base, len. cbn. rewrite lookup_insert_eq. repeat split; try done; apply Hfor.
    + destruct (Ha _ _ Hm') as (sp' & b' & l' & H1 & H2 & H3 & H4 & H5 & H6).
      exists sp', b', l'. rewrite Hw in H2. injection H2 as <- <-. cbn. rewrite lookup_insert_ne by lia.
      repeat split; try done; apply H4.
  - intros b' l' o'. cbn. intros Hw' Hlt Hal [Hn' Hne]%lookup_insert_None. rewrite Hw in Hw'. injection Hw' as <- <-.
    rewrite lookup_insert_ne by lia. by apply (Hp base len).
Qed.

(** The mapping the cache made is installed, or goes back when the host refuses. *)
Lemma wp_install o sp m base len Q R n L v rest :
  vf_ok L v -> good n (ln_cache L) (m :: active_list (vf_active v) ++ rest) ->
  vf_active v !! o = None -> vf_specs v !! o = Some sp -> vf_window v = Some (base, len) ->
  o + PAGE_SIZE <= len -> mapping_for v sp m -> in_file (ln_cache L) v sp ->
  let v' := set_active (<[o := m]> (vf_active v)) v in
  (forall L', vgood n L' v' rest -> calm (vf_window v) L L' -> Q true (L', v')) ->
  (forall e L', vgood n L' v rest -> calm (vf_window v) L L' -> R e (L', v)) ->
  wp (mapped ← attempt (mmap_shared (base + o) (cp_backing (m_page m)));
      match mapped with
      | Err e => _ ← cache_io (Shared.unmap (vf_branch v) m); throw e
      | Ok _ => _ ← update (fun v => set_active (<[o := m]> (vf_active v)) v); mret true
      end) Q R (L, v).
Proof.
  intros Hok G Hn Hsp Hw Hin Hfor Hfile v' HQ HR. unfold mmap_shared, update. wp_steps. rewrite wp_cache_io.
  unfold Shared.io. wp_steps.
  assert (forall h, same_files (c_host (ln_cache L)) h -> let c := Shared.set_host h (ln_cache L) in
    good n c (m :: active_list (vf_active v) ++ rest) /\ calm (vf_window v) L (set_cache c L)) as Hcall.
  { intros h Hh c. pose proof (same_files_quiet _ _ Hh) as Qh. split; [by eapply good_quiet|].
    split; [by apply frame_cache, lens_same|by eapply views_quiet]. }
  apply wp_syscall; intros x h Hh; destruct (Hcall h Hh) as [G1 C1].
  - wp_steps. cbn. apply HQ.
    + split.
      { eapply good_perm; [|exact G1]. cbn. by rewrite active_list_insert. }
      apply (vf_ok_insert (set_cache (Shared.set_host h (ln_cache L)) L) v o sp m base len); try done.
      apply (vf_ok_cache L); [done|by apply lens_same|done].
    + etrans; [exact C1|]. split; [|done].
      apply (frame_window _ v base len o); [done|unfold PAGE_SIZE in Hin; lia|].
      intros address Hne. by rewrite lookup_insert_ne.
  - wp_steps. rewrite wp_cache_io. cbn. apply wp_and_keeps with (P := lens_kept); [apply lens_unmap|].
    eapply wp_unmap; [exact G1|apply Hfor|]. intros c2 G2 V2 L2. wp_steps.
    assert (lens_kept (ln_cache L) c2) as L02 by (etrans; [by apply lens_same|exact L2]).
    apply HR; [split; [done|by apply (vf_ok_cache L)]|].
    split; [by split|]. by eapply same_views_trans; [apply C1|].
Qed.

Lemma wp_activate_one base len o Q R n L v rest :
  vgood (3 + n) L v rest -> vf_window v = Some (base, len) -> vf_active v !! o = None ->
  (forall m L', is_Some (vf_specs v !! o) -> vgood n L' (set_active (<[o := m]> (vf_active v)) v) rest ->
    calm (vf_window v) L L' -> Q true (L', set_active (<[o := m]> (vf_active v)) v)) ->
  (forall sp L', vf_specs v !! o = Some sp -> vgood n L' v rest -> calm (vf_window v) L L' ->
    (~ in_file (ln_cache L') v sp) -> Q false (L', v)) ->
  (forall e L', vgood n L' v rest -> calm (vf_window v) L L' -> R e (L', v)) ->
  wp (activate_one base len o) Q R (L, v).
Proof.
  intros V Hw Hn HQt HQf HR. pose proof (proj2 V) as Hok. pose proof (vgood_le n _ _ _ _ V ltac:(lia)) as Vn.
  unfold activate_one, self. wp_steps. cbn [snd].
  destruct (vf_specs v !! o) as [sp|] eqn:Hsp; [|wp_steps; by apply HR].
  destruct (ok_specs _ _ Hok _ _ Hsp) as (Hal & Hmax & Hfal). rewrite (wrapping_add_small o) by done.
  destruct (N.ltb_spec len (o + PAGE_SIZE)) as [Hout|Hin]; [wp_steps; by apply HR|].
  rewrite wp_bind, wp_cache_io. destruct (ok_branch _ _ Hok) as [br Hb].
  unfold Shared.with_store_mut. apply wp_and_keeps with (P := lens_kept); [apply lens_on_store, len_len|].
  eapply wp_len; [exact Hb| |].
  2:{ intros e c1 Q1 L1. destruct (vgood_quiet _ _ _ _ _ Vn Q1 L1). by apply HR. }
  intros flen c1 Hlen Q1 L1. destruct (vgood_quiet _ _ _ _ _ V Q1 L1) as [V1 C1].
  destruct (L1 _ _ Hb) as (br1 & Hb1 & Hl1).
  destruct (N.leb_spec flen (ms_file_offset sp)) as [Hpast|Hfile].
  { wp_steps. apply (HQf sp); [done|apply (vgood_le n _ _ _ _ V1); lia|done|].
    intros (br' & n' & Hb' & Hn' & Hlt). cbn in Hb'. assert (br' = br1) as -> by congruence.
    rewrite Hl1, Hlen in Hn'. injection Hn' as <-. lia. }
  rewrite wp_bind, wp_cache_io. cbn [ln_cache set_cache].
  apply wp_and_keeps with (P := lens_kept); [apply lens_map_page|].
  eapply (wp_map_page _ _ _ _ n); [apply V1| |].
  2:{ intros e c2 G2 V2 L2. apply HR.
      - eapply (vgood_cache _ _ (set_cache c1 L)); [exact V1|done|done].
      - etrans; [exact C1|]. split; [by apply (frame_cache (set_cache c1 L))|done]. }
  intros m c2 G2 V2 (Hm1 & Hm2 & Hm3 & _) L2.
  set (L2' := set_cache c2 (set_cache c1 L)).
  assert (calm (vf_window v) L L2') as C2 by (etrans; [exact C1|]; split; [by apply (frame_cache (set_cache c1 L))|done]).
  eapply (wp_install o sp m base len _ _ n L2'); try done.
  - by apply (vf_ok_cache (set_cache c1 L)); [apply V1| |].
  - apply (in_file_kept c1); [done|]. exists br1, flen. by rewrite Hl1.
  - intros L3 V3 C3. apply HQt; [done|done|by etrans].
  - intros e L3 V3 C3. apply HR; [done|by etrans].
Qed.

(** ** The loops *)

(** Undoing an activation: pages the host will not let go of stay. *)
Lemma wp_rollback os a0 Q R n L v rest :
  vgood n L v rest -> a0 ⊆ vf_active v -> (forall o, o ∈ os -> a0 !! o = None) ->
  (forall L' a, vgood n L' (set_active a v) rest -> calm (vf_window v) L L' -> a0 ⊆ a -> a ⊆ vf_active v ->
    Q tt (L', set_active a v)) ->
  wp (for_each (fun o => _ ← attempt (remove_offset o false); mret tt) os) Q R (L, v).
Proof.
  revert L v. induction os as [|o os IH]; intros L v V Ha0 Hos HQ; cbn [for_each].
  { wp_steps. rewrite <-(set_active_id v). apply HQ; [by rewrite set_active_id|done|done|done]. }
  wp_steps. assert (forall o, o ∈ os -> a0 !! o = None) as Hos' by (intros o' ?; apply Hos; by right).
  eapply wp_remove_offset; [exact V| |].
  - intros L1 V1 C1 _. wp_steps. cbn [dropped] in *. apply IH; [done| |done|].
    + cbn. intros o'. specialize (Ha0 o'). destruct (decide (o' = o)) as [->|Hne].
      * rewrite (Hos o) by (by left). by rewrite lookup_delete_eq.
      * by rewrite lookup_delete_ne.
    + intros L2 a V2 C2 H1 H2. apply (HQ L2 a); [done|etrans; [exact C1|exact C2]|done|].
      etrans; [exact H2|]. cbn. apply delete_subseteq.
  - intros e L1 V1 C1. wp_steps. apply IH; try done. intros L2 a V2 C2 H1 H2.
    apply (HQ L2 a); [done|etrans; [exact C1|exact C2]|done|done].
Qed.

(** The page is shown, or there is nothing of the file to show. *)
Definition served c v a (o : N) : Prop :=
  is_Some (a !! o) \/ exists sp, vf_specs v !! o = Some sp /\ (~ in_file c v sp).

Lemma served_kept c c' v a a' o : lens_kept c c' -> a ⊆ a' -> is_Some (c_branches c !! vf_branch v) ->
  served c v a o -> served c' v a' o.
Proof.
  intros HL Ha [br Hb] [[m Hm]|(sp & Hsp & Hout)].
  - left. exists m. by eapply lookup_weaken.
  - right. exists sp. split; [done|]. intros (br' & k & Hb' & Hk & Hlt). apply Hout.
    exists br, k. by rewrite <-(lens_len c c' _ br br' (ms_inode sp) HL Hb Hb').
Qed.

Lemma wp_activate_loop base len os a0 Q R n : forall L v activated rest,
  vgood (3 * lenN os + n) L v rest -> vf_window v = Some (base, len) ->
  a0 ⊆ vf_active v -> (forall o, o ∈ activated -> a0 !! o = None) ->
  (forall L' a, vgood n L' (set_active a v) rest -> calm (vf_window v) L L' -> vf_active v ⊆ a ->
    (forall o, o ∈ os -> served (ln_cache L') v a o) -> Q tt (L', set_active a v)) ->
  (forall e L' a, vgood n L' (set_active a v) rest -> calm (vf_window v) L L' -> a0 ⊆ a -> R e (L', set_active a v)) ->
  wp (activate_loop base len os activated) Q R (L, v).
Proof.
  induction os as [|o os IH]; intros L v activated rest V Hw Ha0 Hact HQ HR; cbn [activate_loop].
  { wp_steps. rewrite <-(set_active_id v). apply HQ; [by rewrite set_active_id|done|done|].
    intros o Ho. by apply not_elem_of_nil in Ho. }
  assert (3 * lenN (o :: os) + n = 3 + (3 * lenN os + n)) as Hcost by (unfold lenN; cbn [length]; lia).
  rewrite Hcost in V. unfold self. wp_steps. cbn [snd]. case_decide as Hin.
  { apply (IH _ _ _ rest); try done; [eapply vgood_le; [exact V|lia]|]. intros L1 a V1 C1 H1 H2. apply HQ; try done.
    intros o' [->|Ho']%elem_of_cons; [|by apply H2]. left. destruct Hin as [m Hm]. exists m. by eapply lookup_weaken. }
  apply eq_None_not_Some in Hin. wp_steps. eapply wp_activate_one; [exact V|done|done| | |].
  - intros m L1 _ V1 C1. wp_steps. apply (IH _ _ _ rest); try done.
    + etrans; [exact Ha0|]. cbn. by apply insert_subseteq.
    + intros o' [->|Ho']%elem_of_cons; [|by apply Hact]. by eapply lookup_weaken_None.
    + intros L2 a V2 C2 H1 H2. cbn in H1. apply (HQ L2 a); [done|etrans; [exact C1|exact C2]| |].
      * etrans; [|exact H1]. by apply insert_subseteq.
      * intros o' [->|Ho']%elem_of_cons; [|by apply H2]. left. exists m.
        eapply lookup_weaken; [|exact H1]. apply lookup_insert_eq.
    + intros e L2 a V2 C2 H1. apply (HR e L2 a); [done|etrans; [exact C1|exact C2]|done].
  - intros sp L1 Hsp V1 C1 Hout. wp_steps. apply (IH _ _ _ rest); try done.
    + intros L2 a V2 C2 H1 H2. apply HQ; [done|etrans; [exact C1|exact C2]|done|].
      intros o' [->|Ho']%elem_of_cons; [|by apply H2].
      apply (served_kept (ln_cache L1) _ v (vf_active v)); [apply C2|done|apply (proj2 V1)|].
      right. by exists sp.
    + intros e L2 a V2 C2 H1. apply HR; [done|etrans; [exact C1|exact C2]|done].
  - intros e L1 V1 C1. wp_steps. eapply wp_rollback; [exact V1|done|done|].
    intros L2 a V2 C2 H1 H2. wp_steps. apply HR; [|etrans; [exact C1|exact C2]|done].
    eapply vgood_le; [exact V2|lia].
Qed.

(** Every page of [os] is shown or past the end; or it failed, and the pages
    shown before are still shown. *)
Lemma wp_activate_offsets os Q R n L v rest :
  vgood (3 * lenN os + n) L v rest ->
  (forall L' a, vgood n L' (set_active a v) rest -> calm (vf_window v) L L' -> vf_active v ⊆ a ->
    (forall o, o ∈ os -> served (ln_cache L') v a o) -> Q tt (L', set_active a v)) ->
  (forall e L' a, vgood n L' (set_active a v) rest -> calm (vf_window v) L L' -> vf_active v ⊆ a ->
    R e (L', set_active a v)) ->
  wp (activate_offsets os) Q R (L, v).
Proof.
  intros V HQ HR. pose proof (vgood_le n _ _ _ _ V ltac:(lia)) as Vn. unfold activate_offsets.
  assert (vgood n L (set_active (vf_active v) v) rest) as Vs by (by rewrite set_active_id).
  case_decide as Hnil.
  { subst os. wp_steps. rewrite <-(set_active_id v). apply HQ; try done. intros o Ho. by apply not_elem_of_nil in Ho. }
  unfold self. wp_steps. cbn [snd]. destruct (vf_window v) as [[base len]|] eqn:Hw.
  - rewrite <-Hw in HQ, HR. apply (wp_activate_loop _ _ _ (vf_active v) _ _ n L v [] rest); [exact V|done|done| |exact HQ|exact HR].
    intros o Ho. by apply not_elem_of_nil in Ho.
  - wp_steps. rewrite <-(set_active_id v). by apply HR.
Qed.

(** ** Suspending and resuming a guest's mappings *)

Lemma wp_suspend Q R n L v rest :
  vgood n L v rest ->
  (forall L', vgood n L' (set_active ∅ v) rest -> calm (vf_window v) L L' -> Q tt (L', set_active ∅ v)) ->
  (forall e L' a, vgood n L' (set_active a v) rest -> calm (vf_window v) L L' -> a ⊆ vf_active v ->
    R e (L', set_active a v)) ->
  wp suspend_mappings Q R (L, v).
Proof.
  intros V HQ HR. unfold suspend_mappings, self. wp_steps. cbn [snd].
  assert (forall o, is_Some (vf_active v !! o) -> o ∈ btree_keys (vf_active v)) as Hall
    by (intros o Ho; by apply elem_of_btree_keys).
  revert V Hall HQ HR. generalize (btree_keys (vf_active v)) as os. intros os. revert L v.
  induction os as [|o os IH]; intros L v V Hall HQ HR; cbn [for_each].
  { wp_steps. assert (vf_active v = ∅) as He.
    { apply map_eq. intros o. rewrite lookup_empty. apply eq_None_not_Some. intros Ho%Hall.
      by apply not_elem_of_nil in Ho. }
    assert (set_active ∅ v = v) as Hv by (rewrite <-He; apply set_active_id).
    rewrite Hv in HQ. by apply HQ. }
  wp_steps. eapply wp_remove_offset; [exact V| |].
  - intros L1 V1 C1 _. cbn [dropped] in *. apply IH; [done| | |].
    + intros o'. cbn. intros [m [Hne Hm]%lookup_delete_Some].
      destruct (proj1 (elem_of_cons _ _ _) (Hall o' (mk_is_Some _ _ Hm))) as [->|?]; done.
    + intros L2 V2 C2. apply (HQ L2); [done|etrans; [exact C1|exact C2]].
    + intros e L2 a V2 C2 H1. apply (HR e L2 a); [done|etrans; [exact C1|exact C2]|].
      etrans; [exact H1|]. apply delete_subseteq.
  - intros e L1 V1 C1. rewrite <-(set_active_id v). apply HR; [by rewrite set_active_id|done|done].
Qed.

Definition resume_cost v : N := 3 * N.of_nat (size (vf_specs v)).

Lemma wp_resume Q R n L v rest :
  vgood (resume_cost v + n) L v rest ->
  (forall L' a, vgood n L' (set_active a v) rest -> calm (vf_window v) L L' -> vf_active v ⊆ a ->
    (forall o sp, vf_specs v !! o = Some sp -> served (ln_cache L') v a o) -> Q tt (L', set_active a v)) ->
  (forall e L' a, vgood n L' (set_active a v) rest -> calm (vf_window v) L L' -> vf_active v ⊆ a ->
    R e (L', set_active a v)) ->
  wp resume_mappings Q R (L, v).
Proof.
  intros V HQ HR. unfold resume_mappings, self. wp_steps. cbn [snd].
  eapply (wp_activate_offsets _ _ _ n); [|  |done].
  - replace (lenN (btree_keys (vf_specs v))) with (N.of_nat (size (vf_specs v))); [exact V|].
    unfold lenN, btree_keys. by rewrite merge_sort_Permutation, length_fmap, length_map_to_list.
  - intros L' a V' C' H1 H2. apply HQ; try done. intros o sp Hsp. apply H2.
    apply elem_of_btree_keys. by exists sp.
Qed.

End windows.
