(* ===== verification/VirtioFsLaws.v ===== *)
(** * What the device relies on in a branch

    [BranchLaws] extends the contract of a store to the methods of
    [RedoxBranch] the device calls besides the store traits.  A new file is
    the one thing that changes identities outside the cache's own
    copy-on-write; [wp_new_file] shows the cache's invariant survives it. *)

From S2P Require Import Prelude Generations Host CacheTypes DirtyPages SharedCache SharedCacheInv SharedCacheSteps SharedCacheOps SharedCacheIO SharedCacheLife SharedCacheLens RedoxBranch VmmTypes VirtioFs.

(** The saved states a store's content can be read back from. *)
Class SavedView (S St : Type) := { s_saves : St -> S -> Prop }.

(** [node] is new in [s'] and its pages have identities never issued before;
    everything else is as it was. *)
Record file_added {W S Id} `{!StoreView W S Id} (node : NodeId) (ws ws' : W * S) : Prop := {
  fa_new o i : aligned (node, o) -> s_ident ws.2 (node, o) <> Ok i;
  fa_fresh o i : aligned (node, o) -> s_ident ws'.2 (node, o) = Ok i ->
    (~ w_issued ws.1 i) /\ w_issued ws'.1 i;
  fa_apart o o' i : aligned (node, o) -> aligned (node, o') -> s_ident ws'.2 (node, o) = Ok i ->
    s_ident ws'.2 (node, o') = Ok i -> o = o';
  fa_ident k : aligned k -> k.1 <> node -> s_ident ws'.2 k = s_ident ws.2 k;
  fa_content k : aligned k -> k.1 <> node -> s_content ws'.2 k = s_content ws.2 k;
  fa_len node' : node' <> node -> s_len ws'.2 node' = s_len ws.2 node'
}.

Class BranchLaws (W S Id St : Type) `{!BranchStore W S Id St} `{!StoreView W S Id} `{!SavedView S St} : Prop := {
  law_create_file name size n ws : w_room ws.1 (1 + n) ->
    wp (bs_create_file name size)
      (fun node ws' => (forall i, w_issued ws.1 i -> w_issued ws'.1 i) /\ w_room ws'.1 n /\
         file_added node ws ws' /\ s_len ws'.2 node = Ok size)
      (fun _ ws' => (forall i, w_issued ws.1 i -> w_issued ws'.1 i) /\ w_room ws'.1 n /\
         view_eq ws.2 ws'.2) ws;
  law_lookup parent name ws :
    wp (bs_lookup parent name) (fun _ ws' => keeps ws ws') (fun _ ws' => keeps ws ws') ws;
  law_metadata node ws :
    wp (bs_metadata node) (fun _ ws' => keeps ws ws') (fun _ ws' => keeps ws ws') ws;
  law_entries node ws :
    wp (bs_entries node) (fun _ ws' => keeps ws ws') (fun _ ws' => keeps ws ws') ws;
  law_durable_state ws :
    wp bs_durable_state (fun st ws' => keeps ws ws' /\ s_saves st ws'.2) (fun _ ws' => keeps ws ws') ws
}.

Section new_file.
Context {W S Id St : Type} `{Countable Id} `{!BranchStore W S Id St} `{!StoreView W S Id}
  `{!SavedView S St} `{!StoreLaws W S Id} `{!BranchLaws W S Id St}.

Implicit Types (c : Cache W S Id) (b : N) (k : PageKey).

(** Branches see what they saw, but for the file [node] of branch [b]. *)
Definition views_but_file c c' b (node : NodeId) : Prop :=
  forall b' k, aligned k -> (b', k.1) <> (b, node) -> page_view c' b' k = page_view c b' k.

Section added.
Context c (ms : list DaxPageMapping) b (br : CacheBranch S) (ws' : W * S) (node : NodeId).
Hypothesis I : cache_inv c ms.
Hypothesis Hb : c_branches c !! b = Some br.
Hypothesis Hiss : forall i, w_issued (c_world c) i -> w_issued ws'.1 i.
Hypothesis F : file_added node (c_world c, store br) ws'.

Let c' := upd_store b br ws' c.

(** A page a branch sees is the one it saw, or a page of the new file. *)
Lemma added_sees b' k i : aligned k -> sees c' b' k i ->
  (sees c b' k i /\ (b', k.1) <> (b, node)) \/
  (b' = b /\ k.1 = node /\ s_ident ws'.2 k = Ok i /\ ~ w_issued (c_world c) i).
Proof.
  intros Hk (br' & Hb' & Hi). unfold c', upd_store in Hb'. cbn in Hb'.
  destruct (decide (b' = b)) as [->|Hne].
  - rewrite lookup_insert_eq in Hb'. injection Hb' as <-. cbn in Hi.
    destruct (decide (k.1 = node)) as [Hn|Hn].
    + right. repeat split; try done. destruct k as [node' o]. cbn in Hn. subst node'. by eapply (fa_fresh _ _ _ F).
    + left. rewrite (fa_ident _ _ _ F) in Hi by done. split; [by exists br|congruence].
  - rewrite lookup_insert_ne in Hb' by done. left. split; [by exists br'|congruence].
Qed.

Lemma added_sees_old b' k i : aligned k -> sees c b' k i -> (b', k.1) <> (b, node) /\ sees c' b' k i.
Proof.
  intros Hk (br' & Hb' & Hi). assert ((b', k.1) <> (b, node)) as Hne.
  { intros [= -> Hn]. assert (br' = br) as -> by congruence. destruct k as [node' o]. cbn in Hn. subst node'.
    by eapply (fa_new _ _ _ F). }
  split; [done|]. unfold sees, c', upd_store. cbn. destruct (decide (b' = b)) as [->|Hn].
  - rewrite lookup_insert_eq. eexists. split; [done|]. cbn. assert (br' = br) as -> by congruence.
    rewrite (fa_ident _ _ _ F); [done|done|congruence].
  - rewrite lookup_insert_ne by done. by exists br'.
Qed.

(** Resident pages were issued, so the new file has none. *)
Lemma added_resident b' k i p : aligned k -> sees c' b' k i -> c_pages c !! i = Some p ->
  sees c b' k i /\ (b', k.1) <> (b, node).
Proof.
  intros Hk Hs Hp. destruct (added_sees b' k i Hk Hs) as [?|(_ & _ & _ & Hn)]; [done|].
  destruct Hn. by apply (inv_page _ _ I _ _ Hp).
Qed.

Lemma added_branch b' br' : c_branches c' !! b' = Some br' ->
  exists br0, c_branches c !! b' = Some br0 /\ active_pages br' = active_pages br0 /\
    exclusive_pages br' = exclusive_pages br0 /\ dirty_pages br' = dirty_pages br0 /\
    forall k, aligned k -> (b', k.1) <> (b, node) -> s_ident (store br') k = s_ident (store br0) k /\
      s_content (store br') k = s_content (store br0) k /\ s_len (store br') k.1 = s_len (store br0) k.1.
Proof.
  unfold c', upd_store. cbn. destruct (decide (b' = b)) as [->|Hne].
  - rewrite lookup_insert_eq. intros [= <-]. exists br. repeat split; try done.
    + apply (fa_ident _ _ _ F); [done|congruence].
    + apply (fa_content _ _ _ F); [done|congruence].
    + apply (fa_len _ _ _ F). congruence.
  - rewrite lookup_insert_ne by done. intros Hb'. by exists br'.
Qed.

Lemma added_br_ok b' br' br0 : c_branches c' !! b' = Some br' -> c_branches c !! b' = Some br0 ->
  active_pages br' = active_pages br0 -> exclusive_pages br' = exclusive_pages br0 ->
  dirty_pages br' = dirty_pages br0 -> br_ok c ms b' br0 -> br_ok c' ms b' br'.
Proof.
  intros Hb' Hb0 Ea Ex Ed (Ha & He & Hd & Hc & Hu). unfold br_ok. rewrite Ea, Ex, Ed.
  destruct (added_branch b' br' Hb') as (br1 & Hb1 & _ & _ & _ & Hsame). assert (br1 = br0) as -> by congruence.
  assert (forall k i, aligned k -> s_ident (store br0) k = Ok i -> s_ident (store br') k = Ok i) as Hkeep.
  { intros k i Hk Hi. destruct (added_sees_old b' k i Hk) as [Hne _]; [by exists br0|].
    by destruct (Hsame k Hk Hne) as [-> _]. }
  assert (forall k i p, aligned k -> s_ident (store br') k = Ok i -> c_pages c !! i = Some p ->
    (b', k.1) <> (b, node)) as Hres.
  { intros k i p Hk Hi Hp. apply (added_resident b' k i p); [done|by exists br'|done]. }
  split; [done|]. split; [|split; [|split]].
  - intros k Hk. destruct (He k Hk) as (Hal & Hkn & i & Hi & [p Hp] & Ho). split; [done|]. split; [done|].
    exists i. split; [by apply Hkeep|]. split; [by exists p|]. intros b1 Hs. apply Ho.
    by eapply added_resident.
  - intros k Hk. destruct (Hd k Hk) as (Hal & Hkn & i & Hi & Hp). split; [done|]. split; [done|].
    exists i. split; [by apply Hkeep|done].
  - intros k i p Hk Hi Hp Hnd Hnw. destruct (Hsame k Hk (Hres _ _ _ Hk Hi Hp)) as (E1 & -> & ->).
    rewrite E1 in Hi. by eapply Hc.
  - intros k i p Hk Hi Hp Hkn. destruct (Hsame k Hk (Hres _ _ _ Hk Hi Hp)) as (E1 & -> & _).
    rewrite E1 in Hi. by eapply Hu.
Qed.

Lemma added_inv : cache_inv c' ms.
Proof.
  split.
  - intros i p Hp. destruct (inv_page _ _ I _ _ Hp) as (H1 & H2 & H3 & H4). repeat split; try done. by apply Hiss.
  - apply I.
  - intros b' k i Hk Hs. destruct (added_sees b' k i Hk Hs) as [[Hs' _]|(-> & Hn & Hi & _)].
    + apply Hiss. by eapply (inv_issued _ _ I).
    + destruct k as [node' o]. cbn in Hn. subst node'. by eapply (fa_fresh _ _ _ F).
  - intros b1 b2 k1 k2 i Hk1 Hk2 Hs1 Hs2.
    destruct (added_sees _ _ _ Hk1 Hs1) as [[Hs1' _]|(-> & Hn1 & Hi1 & Hf1)];
      destruct (added_sees _ _ _ Hk2 Hs2) as [[Hs2' _]|(-> & Hn2 & Hi2 & Hf2)].
    + by apply (inv_key _ _ I b1 b2 k1 k2 i).
    + destruct Hf2. by apply (inv_issued _ _ I b1 k1).
    + destruct Hf1. by apply (inv_issued _ _ I b2 k2).
    + destruct k1 as [n1 o1], k2 as [n2 o2]. cbn in Hn1, Hn2. subst n1 n2. f_equal. by eapply (fa_apart _ _ _ F).
  - intros b1 b2 br1 br2 k i Hk Hb1 Hb2 Hi1 Hi2 Hp.
    destruct (added_branch _ _ Hb1) as (r1 & Hr1 & _ & _ & _ & S1).
    destruct (added_branch _ _ Hb2) as (r2 & Hr2 & _ & _ & _ & S2).
    destruct (added_sees b1 k i Hk) as [[Hs1 N1]|(-> & Hn1 & _ & Hf1)]; [by exists br1| |];
      (destruct (added_sees b2 k i Hk) as [[Hs2 N2]|(-> & Hn2 & _ & Hf2)]; [by exists br2| |]).
    + destruct (S1 k Hk N1) as (E1 & -> & _), (S2 k Hk N2) as (E2 & -> & _).
      rewrite E1 in Hi1. rewrite E2 in Hi2. by eapply (inv_agree _ _ I).
    + destruct Hf2. by apply (inv_issued _ _ I b1 k).
    + destruct Hf1. by apply (inv_issued _ _ I b2 k).
    + by assert (br1 = br2) as -> by congruence.
  - intros b' br' Hb'. destruct (added_branch _ _ Hb') as (br0 & Hb0 & E1 & E2 & E3 & _).
    destruct (inv_branch _ _ I _ _ Hb0) as [Hlt Hok]. split; [done|]. by eapply added_br_ok.
  - intros m Hm. destruct (inv_mapping _ _ I m Hm) as (H1 & Hal & H3 & br0 & i & Hb0 & Hi & Hp & Hw).
    destruct (added_sees_old (m_branch m) (m_key m) i Hal) as [_ (br' & Hb' & Hi')]; [by exists br0|].
    destruct (added_branch _ _ Hb') as (br1 & Hb1 & _ & E2 & _). assert (br1 = br0) as -> by congruence.
    split; [done|]. split; [done|]. split; [done|]. exists br', i. rewrite E2. done.
  - apply I.
Qed.

Lemma added_views : views_but_file c c' b node.
Proof.
  intros b' k Hk Hne. unfold page_view. destruct (c_branches c' !! b') as [br'|] eqn:Hb'.
  - destruct (added_branch _ _ Hb') as (br0 & -> & _ & _ & _ & Hs). by destruct (Hs k Hk Hne) as (-> & -> & _).
  - unfold c', upd_store in Hb'. cbn in Hb'. apply lookup_insert_None in Hb' as [-> _]. done.
Qed.
End added.

(** Lengths of all files but [node] of branch [b]. *)
Definition lens_but_file c c' b (node : NodeId) : Prop :=
  forall b' br, c_branches c !! b' = Some br ->
    exists br', c_branches c' !! b' = Some br' /\
      forall node', (b', node') <> (b, node) -> s_len (store br') node' = s_len (store br) node'.

Lemma added_lens c b br ws' node :
  c_branches c !! b = Some br -> file_added node (c_world c, store br) ws' ->
  lens_but_file c (upd_store b br ws' c) b node.
Proof.
  intros Hb F b' br' Hb'. unfold upd_store. cbn. destruct (decide (b' = b)) as [->|Hne].
  - rewrite lookup_insert_eq. eexists. split; [done|]. intros node' Hn. cbn.
    assert (br' = br) as -> by congruence. apply (fa_len _ _ _ F). congruence.
  - rewrite lookup_insert_ne by done. by exists br'.
Qed.

Lemma view_ext c b br ws' :
  c_branches c !! b = Some br -> view_eq (store br) ws'.2 ->
  (forall i, w_issued (c_world c) i -> w_issued ws'.1 i) -> ext c (upd_store b br ws' c).
Proof.
  intros Hb Hv Hi. split; cbn; try done. intros b'. destruct (decide (b' = b)) as [->|Hne].
  - rewrite Hb, lookup_insert_eq. constructor. by split.
  - rewrite lookup_insert_ne by done. destruct (c_branches c !! b'); constructor. apply br_eq_refl.
Qed.

(** [RedoxBranch::create_file] below the cache. *)
Lemma wp_new_file b name size n Q R c ms br :
  good (1 + n) c ms -> c_branches c !! b = Some br ->
  (forall node c' br', good n c' ms -> views_but_file c c' b node -> lens_but_file c c' b node ->
    (forall o i, aligned (node, o) -> ~ sees c b (node, o) i) ->
    c_branches c' !! b = Some br' -> s_len (store br') node = Ok size -> Q node c') ->
  (forall e c', good n c' ms -> same_views c c' -> lens_kept c c' -> R e c') ->
  wp (Shared.with_store_mut b (bs_create_file name size)) Q R c.
Proof.
  intros (I & O & B1 & B2) Hb HQ HR. unfold Shared.with_store_mut. apply (wp_on_store _ _ _ _ _ br Hb).
  eapply wp_mono; [apply law_create_file; exact B2| |]; cbn.
  - intros node ws' (Hi & Hr & F & Hlen). eapply HQ.
    + split; [by apply (added_inv c ms b br ws' node)|]. split; [|split; [cbn; lia|done]].
      intros i p Hp. destruct (O i p Hp) as (b' & k & Hk & Hs). exists b', k. split; [done|].
      by apply (added_sees_old c b br ws' node).
    + by apply added_views.
    + by apply added_lens.
    + intros o i Hal (br' & Hb' & Hi'). assert (br' = br) as -> by congruence. by eapply (fa_new _ _ _ F).
    + apply lookup_insert_eq.
    + done.
  - intros e ws' (Hi & Hr & Hv). pose proof (view_ext c b br ws' Hb Hv Hi) as E. apply HR.
    + split; [by eapply ext_inv|]. split; [by eapply ext_no_orphans|]. split; [cbn; lia|done].
    + intros b' k Hk. by eapply ext_view.
    + intros b' br' Hb'. destruct (ext_lookup _ _ _ _ E Hb') as (br2 & ? & (_ & _ & Hl) & _). by exists br2.
Qed.
End new_file.
