(* ===== verification/VirtioFsOps.v ===== *)
(** * The requests of a guest and of its host

    For every operation of [VirtioFsBranch]: the invariant of the windows
    holds afterwards whether it succeeds or fails, other branches see what
    they saw ([touch]), and what the operation did to this branch. *)

From S2P Require Import Prelude Generations Host CacheTypes DirtyPages SharedCache SharedCacheInv SharedCacheSteps SharedCacheOps SharedCacheIO SharedCacheLife SharedCacheLens PageCache RedoxBranch VmmTypes VirtioFs VirtioFsInv VirtioFsLaws.
Import Vfs.

Section requests.
Context {W S Id St : Type} `{Countable Id} `{!BranchStore W S Id St} `{!StoreView W S Id} `{!SavedView S St}
  `{!StoreLaws W S Id} `{!LenLaws W S Id} `{!BranchLaws W S Id St}.

Implicit Types (L : Lineage W S Id) (v : VirtioFs) (c : Cache W S Id) (rest : list DaxPageMapping)
  (sp : MappingSpec) (m : DaxPageMapping) (a : gmap N DaxPageMapping) (w : option (N * N)).

(** What an operation on branch [b] with window [w] may change. *)
Record touch w b L L' : Prop := {
  tc_lens b' br : b' <> b -> c_branches (ln_cache L) !! b' = Some br ->
    exists br', c_branches (ln_cache L') !! b' = Some br' /\ same_len (store br) (store br');
  tc_views b' node x : b' <> b -> is_Some (c_branches (ln_cache L) !! b') ->
    byte_view (ln_cache L') b' node x = byte_view (ln_cache L) b' node x;
  tc_map address : (~ in_window w address) -> ln_map L' !! address = ln_map L !! address
}.

#[export] Instance touch_preorder w b : PreOrder (touch w b).
Proof.
  split.
  - intros L. split; try done. intros b' br _ Hb. by exists br.
  - intros L1 L2 L3 [A1 A2 A3] [B1 B2 B3]. split.
    + intros b' br Hne Hb. destruct (A1 _ _ Hne Hb) as (br2 & Hb2 & Hl2).
      destruct (B1 _ _ Hne Hb2) as (br3 & Hb3 & Hl3). exists br3. split; [done|]. intros node. by rewrite Hl3.
    + intros b' node x Hne [br Hb]. destruct (A1 _ _ Hne Hb) as (br2 & Hb2 & _).
      rewrite B2 by (done || by exists br2). apply A2; [done|by exists br].
    + intros address Ha. rewrite B3 by done. by apply A3.
Qed.

Lemma calm_touch w b L L' : calm w L L' -> touch w b L L'.
Proof.
  intros [[HL Hbk Hm] HV]. split; [| |done].
  - intros b' br _ Hb. by apply HL.
  - intros b' node x _ _. by apply byte_view_same.
Qed.

(** The guest after an operation, and a mapping a failed copy may have lost. *)
Definition settled n L v rest w L' v' : Prop :=
  (exists leaked, vgood n L' v' (leaked ++ rest)) /\ touch w (vf_branch v) L L' /\
  vf_branch v' = vf_branch v /\ vf_cache_id v' = vf_cache_id v /\ vf_lineage v' = vf_lineage v /\
  vf_backend_id v' = vf_backend_id v.

Lemma settled_calm n L v rest L' a : vgood n L' (set_active a v) rest -> calm (vf_window v) L L' ->
  settled n L v rest (vf_window v) L' (set_active a v).
Proof. intros V C. split; [by exists []|]. split; [by apply calm_touch|done]. Qed.

Lemma settled_same n L v rest L' : vgood n L' v rest -> calm (vf_window v) L L' ->
  settled n L v rest (vf_window v) L' v.
Proof.
  intros V C. pose proof (settled_calm n L v rest L' (vf_active v)) as Hs. rewrite set_active_id in Hs. by apply Hs.
Qed.

(** ** Requests that only look *)

Lemma wp_self {E} Q (R : E -> Lineage W S Id * VirtioFs -> Prop) L v : wp self Q R (L, v) <-> Q v (L, v).
Proof. done. Qed.

Lemma wp_quiet_call {A} (f : M (Cache W S Id) CacheError A) Q R n L v v' rest :
  vgood n L v rest -> Prelude.keeps lens_kept f ->
  (forall Q' R', (forall x c, quiet (ln_cache L) c -> Q' x c) -> (forall e c, quiet (ln_cache L) c -> R' e c) ->
    wp f Q' R' (ln_cache L)) ->
  (forall x L', vgood n L' v rest -> calm (vf_window v) L L' -> Q x (L', v')) ->
  (forall e L', vgood n L' v rest -> calm (vf_window v) L L' -> R e (L', v')) ->
  wp (in_cache f) Q R (L, v').
Proof.
  intros V HL Hf HQ HR. rewrite wp_in_cache. apply wp_and_keeps with (P := lens_kept); [done|].
  apply Hf; intros x c Hq Hl; destruct (vgood_quiet _ _ _ _ _ V Hq Hl); [by apply HQ|by apply HR].
Qed.

(** A method of the store that shows but does not change. *)
Lemma wp_look {A} (f : M (W * S) io_error A) Q R n L v rest :
  vgood n L v rest ->
  (forall ws, wp f (fun _ ws' => keeps ws ws') (fun _ ws' => keeps ws ws') ws) ->
  (forall x L', vgood n L' v rest -> calm (vf_window v) L L' -> Q x (L', v)) ->
  (forall e L', vgood n L' v rest -> calm (vf_window v) L L' -> R e (L', v)) ->
  wp (cache_io (Shared.with_store_mut (vf_branch v) f)) Q R (L, v).
Proof.
  intros V Hf HQ HR. unfold cache_io. rewrite wp_with_err. destruct (ok_branch _ _ (proj2 V)) as [br Hb].
  eapply wp_quiet_call; [exact V| | |exact HQ|].
  - apply lens_on_store, len_kept_keeps. apply Hf.
  - intros Q' R' HQ' HR'. eapply (wp_on_store_keeps (fun _ => True) (fun _ => True)); [exact Hb| | |].
    + eapply wp_mono; [apply Hf| |]; cbn; auto.
    + intros x c' _ Hq. by apply HQ'.
    + intros e c' _ Hq. by apply HR'.
  - intros e L' V' C'. by apply HR.
Qed.

Lemma keeps_with_node {A} inode (f : NodeId -> M (W * S) io_error A) :
  (forall node ws, wp (f node) (fun _ ws' => keeps ws ws') (fun _ ws' => keeps ws ws') ws) ->
  forall ws, wp (with_node inode f) (fun _ ws' => keeps ws ws') (fun _ ws' => keeps ws ws') ws.
Proof.
  intros Hf ws. unfold with_node. wp_steps. destruct (node_id inode); [apply Hf|].
  split; [|apply view_eq_refl]. by split.
Qed.

Lemma wp_fs_lookup parent name Q R n L v rest :
  vgood n L v rest ->
  (forall x L', vgood n L' v rest -> calm (vf_window v) L L' -> Q x (L', v)) ->
  (forall e L', vgood n L' v rest -> calm (vf_window v) L L' -> R e (L', v)) ->
  wp (fs_lookup parent name) Q R (L, v).
Proof.
  intros V HQ HR. unfold fs_lookup, self. wp_steps. cbn [snd].
  eapply wp_look; [exact V|apply keeps_with_node; intros; apply law_lookup| |exact HR].
  intros inode L1 V1 C1. wp_steps. eapply wp_look; [exact V1|intros; apply law_metadata| |].
  - intros x L2 V2 C2. wp_steps. apply HQ; [done|]. by etrans; [exact C1|].
  - intros e L2 V2 C2. apply HR; [done|]. by etrans; [exact C1|].
Qed.

Lemma wp_fs_getattr inode Q R n L v rest :
  vgood n L v rest ->
  (forall x L', vgood n L' v rest -> calm (vf_window v) L L' -> Q x (L', v)) ->
  (forall e L', vgood n L' v rest -> calm (vf_window v) L L' -> R e (L', v)) ->
  wp (fs_getattr inode) Q R (L, v).
Proof.
  intros V HQ HR. unfold fs_getattr, self. wp_steps. cbn [snd].
  eapply wp_look; [exact V|apply keeps_with_node; intros; apply law_metadata| |exact HR].
  intros x L1 V1 C1. wp_steps. by apply HQ.
Qed.

Lemma wp_fs_entries inode Q R n L v rest :
  vgood n L v rest ->
  (forall x L', vgood n L' v rest -> calm (vf_window v) L L' -> Q x (L', v)) ->
  (forall e L', vgood n L' v rest -> calm (vf_window v) L L' -> R e (L', v)) ->
  wp (fs_entries inode) Q R (L, v).
Proof.
  intros V HQ HR. unfold fs_entries, self. wp_steps. cbn [snd].
  eapply wp_look; [exact V|apply keeps_with_node; intros; apply law_entries| |exact HR].
  intros entries L1 V1 C1. revert L1 V1 C1 Q HQ.
  induction entries as [|[id name] entries IH]; intros L1 V1 C1 Q HQ; cbn [dir_entries]; wp_steps; [by apply HQ|].
  eapply wp_look; [exact V1|intros; apply law_metadata| |].
  - intros md L2 V2 C2. wp_steps. apply IH; [done|by etrans; [exact C1|]|].
    intros others L3 V3 C3. wp_steps. by apply HQ.
  - intros e L2 V2 C2. apply HR; [done|]. by etrans; [exact C1|].
Qed.

(** Opening and closing. *)
Lemma wp_fs_open inode Q R n L v rest :
  vgood n L v rest ->
  (forall x L', vgood n L' v rest -> calm (vf_window v) L L' -> Q x (L', v)) ->
  (forall e L', vgood n L' v rest -> calm (vf_window v) L L' -> R e (L', v)) ->
  wp (fs_open inode) Q R (L, v).
Proof.
  intros V HQ HR. unfold fs_open, self. wp_steps. cbn [snd]. destruct (node_id inode) as [node|e]; [|by apply HR].
  unfold cache_io. wp_steps. eapply wp_quiet_call; [exact V|apply lens_open| |exact HQ|].
  - intros Q' R' HQ' HR'. apply wp_open; auto.
  - intros e L' V' C'. by apply HR.
Qed.

Lemma wp_fs_close inode Q R n L v rest :
  vgood n L v rest ->
  (forall x L', vgood n L' v rest -> calm (vf_window v) L L' -> Q x (L', v)) ->
  (forall e L', vgood n L' v rest -> calm (vf_window v) L L' -> R e (L', v)) ->
  wp (fs_close inode) Q R (L, v).
Proof.
  intros V HQ HR. unfold fs_close, self. wp_steps. cbn [snd]. destruct (node_id inode) as [node|e]; [|by apply HR].
  unfold cache_io. wp_steps. eapply wp_quiet_call; [exact V|apply lens_close| |exact HQ|].
  - intros Q' R' HQ' HR'. apply wp_close; auto.
  - intros e L' V' C'. by apply HR.
Qed.

(** ** Reading and writing through the cache *)

(** At most one mapping is lost to a failed copy. *)
Lemma vgood_left n n0 L v rest c ms' :
  vgood n0 L v rest -> left_over (active_list (vf_active v) ++ rest) ms' -> good n c ms' ->
  lens_kept (ln_cache L) c -> exists leaked, vgood n (set_cache c L) v (leaked ++ rest).
Proof.
  intros [_ Hok] Hms G HL. assert (vf_ok (set_cache c L) v) as Hok' by (by apply (vf_ok_cache L)).
  destruct Hms as [->|[m ->]]; [by exists []|]. exists [m]. split; [|done].
  eapply good_perm; [|exact G]. by rewrite Permutation_middle.
Qed.

Lemma touch_outside w b L c node lo hi : lens_kept (ln_cache L) c ->
  unchanged_outside (ln_cache L) c b node lo hi -> touch w b L (set_cache c L).
Proof.
  intros HL U. split; [| |done].
  - intros b' br _ Hb. by apply HL.
  - intros b' node' x Hne _. apply U. unfold region. by rewrite bool_decide_false by naive_solver.
Qed.

(** What a read of the branch's file returns. *)
Definition read_result c b (node : NodeId) (offset len : N) (bytes : list byte) : Prop :=
  (exists br n, c_branches c !! b = Some br /\ s_len (store br) node = Ok n /\
     lenN bytes = N.min (n - offset) len) /\
  forall j, j < lenN bytes -> nthN bytes j = byte_view c b node (offset + j).

Lemma wp_in_read node offset len Q R n L v rest :
  vgood (3 * len + n) L v rest ->
  (forall bytes L', vgood n L' v rest -> calm (vf_window v) L L' ->
    read_result (ln_cache L) (vf_branch v) node offset len bytes -> Q bytes (L', v)) ->
  (forall e L', (exists leaked, vgood n L' v (leaked ++ rest)) -> calm (vf_window v) L L' -> R e (L', v)) ->
  wp (in_cache (Shared.read (vf_branch v) node offset len)) Q R (L, v).
Proof.
  intros V HQ HR. rewrite wp_in_cache. apply wp_and_keeps with (P := lens_kept); [apply lens_read|].
  eapply wp_cache_read; [apply V| |].
  - intros bytes c br Hb G V' (flen & Hlen & Hn) Hbytes HL. apply HQ.
    + by eapply vgood_cache.
    + split; [by apply frame_cache|done].
    + split; [by exists br, flen|done].
  - intros e c ms' Hms G V' HL. apply HR; [by eapply vgood_left|]. split; [by apply frame_cache|done].
Qed.

Lemma wp_in_write node offset bytes Q R n L v rest :
  vgood (3 * lenN bytes + n) L v rest ->
  (forall L', vgood n L' v rest -> touch (vf_window v) (vf_branch v) L L' -> lens_kept (ln_cache L) (ln_cache L') ->
    ln_map L' = ln_map L ->
    wrote (ln_cache L) (ln_cache L') (vf_branch v) node offset bytes offset (offset + lenN bytes) ->
    Q (lenN bytes) (L', v)) ->
  (forall e L', (exists leaked, vgood n L' v (leaked ++ rest)) -> touch (vf_window v) (vf_branch v) L L' ->
    lens_kept (ln_cache L) (ln_cache L') -> ln_map L' = ln_map L ->
    unchanged_outside (ln_cache L) (ln_cache L') (vf_branch v) node offset (offset + lenN bytes) -> R e (L', v)) ->
  wp (in_cache (Shared.write (vf_branch v) node offset bytes)) Q R (L, v).
Proof.
  intros V HQ HR. rewrite wp_in_cache. apply wp_and_keeps with (P := lens_kept); [apply lens_write|].
  eapply wp_cache_write; [apply V| |].
  - intros c br Hb G _ Wr HL. apply HQ; try done; [by eapply vgood_cache|].
    apply (touch_outside _ _ _ _ node offset (offset + lenN bytes)); [done|].
    intros b' node' x Hr. by rewrite Wr, Hr.
  - intros e c ms' Hms G U HL. apply HR; try done; [by eapply vgood_left|]. by eapply touch_outside.
Qed.

Lemma wp_in_sync node Q R n L v rest :
  vgood n L v rest ->
  (forall L', vgood n L' v rest -> calm (vf_window v) L L' -> ln_map L' = ln_map L -> Q tt (L', v)) ->
  (forall e L', vgood n L' v rest -> calm (vf_window v) L L' -> ln_map L' = ln_map L -> R e (L', v)) ->
  wp (in_cache (Shared.sync (vf_branch v) node)) Q R (L, v).
Proof.
  intros V HQ HR. rewrite wp_in_cache. apply wp_and_keeps with (P := lens_kept); [apply lens_sync|].
  eapply wp_sync; [apply V| |].
  - intros c br br' G V' _ _ _ HL. apply HQ; [by eapply vgood_cache| |done]. split; [by apply frame_cache|done].
  - intros e c G V' _ HL. apply HR; [by eapply vgood_cache| |done]. split; [by apply frame_cache|done].
Qed.

Lemma settled_leak n L v rest L' : (exists leaked, vgood n L' v (leaked ++ rest)) ->
  touch (vf_window v) (vf_branch v) L L' -> settled n L v rest (vf_window v) L' v.
Proof. by split. Qed.

Lemma wp_fs_read inode offset len Q R n L v rest :
  vgood (3 * len + n) L v rest ->
  (forall bytes L', vgood n L' v rest -> calm (vf_window v) L L' ->
    read_result (ln_cache L) (vf_branch v) inode offset len bytes -> Q bytes (L', v)) ->
  (forall e L', settled n L v rest (vf_window v) L' v -> R e (L', v)) ->
  wp (fs_read inode offset len) Q R (L, v).
Proof.
  intros V HQ HR. unfold fs_read, self. wp_steps. cbn [snd]. unfold node_id.
  destruct (inode <=? 4294967295).
  - unfold cache_io. wp_steps. eapply wp_in_read; [exact V|exact HQ|]. intros e L' V' C'. apply HR.
    apply settled_leak; [done|by apply calm_touch].
  - apply HR. apply settled_same; [|done]. eapply vgood_le; [exact V|lia].
Qed.

Lemma wp_fs_write inode offset data Q R n L v rest :
  vgood (3 * lenN data + n) L v rest ->
  (forall L', vgood n L' v rest -> touch (vf_window v) (vf_branch v) L L' -> 
    wrote (ln_cache L) (ln_cache L') (vf_branch v) inode offset data offset (offset + lenN data) ->
    Q (lenN data) (L', v)) ->
  (forall e L', settled n L v rest (vf_window v) L' v -> R e (L', v)) ->
  wp (fs_write inode offset data) Q R (L, v).
Proof.
  intros V HQ HR. unfold fs_write, self. wp_steps. cbn [snd]. unfold node_id.
  destruct (inode <=? 4294967295).
  - unfold cache_io. wp_steps. eapply wp_in_write; [exact V| |].
    + intros L' V' T _ _ Wr. by apply HQ.
    + intros e L' V' T _ _ _. apply HR. by apply settled_leak.
  - apply HR. apply settled_same; [|done]. eapply vgood_le; [exact V|lia].
Qed.

Lemma wp_fs_sync inode Q R n L v rest :
  vgood n L v rest ->
  (forall L', vgood n L' v rest -> calm (vf_window v) L L' -> Q tt (L', v)) ->
  (forall e L', vgood n L' v rest -> calm (vf_window v) L L' -> R e (L', v)) ->
  wp (fs_sync inode) Q R (L, v).
Proof.
  intros V HQ HR. unfold fs_sync, self. wp_steps. cbn [snd]. unfold node_id.
  destruct (inode <=? 4294967295); [|by apply HR].
  unfold cache_io. wp_steps. eapply wp_in_sync; [exact V| |]; [by intros; apply HQ|by intros; apply HR].
Qed.

Lemma wp_in_bind {A B} (f : M (Cache W S Id) CacheError A) (g : A -> M (Cache W S Id) CacheError B) Q R s :
  wp (in_cache f) (fun x => wp (in_cache (g x)) Q R) R s -> wp (in_cache (f ≫= g)) Q R s.
Proof.
  destruct s as [L v]. rewrite !wp_in_cache, wp_bind. intros Hf. eapply wp_mono; [exact Hf| |done].
  intros x c Hg. by rewrite wp_in_cache in Hg.
Qed.

(** ** The host's own reads and writes *)

Lemma wp_host_read node offset len Q R n L v rest :
  vgood (3 * len + n) L v rest ->
  (forall bytes L', vgood n L' v rest -> calm (vf_window v) L L' ->
    read_result (ln_cache L) (vf_branch v) node offset len bytes -> Q bytes (L', v)) ->
  (forall e L', settled n L v rest (vf_window v) L' v -> R e (L', v)) ->
  wp (Vfs.read node offset len) Q R (L, v).
Proof.
  intros V HQ HR. unfold Vfs.read, self, cache_as. wp_steps. cbn [snd].
  eapply wp_quiet_call; [exact V|apply lens_open|intros; apply wp_open; auto| |].
  2:{ intros e L1 V1 C1. apply HR, settled_same; [|done]. eapply vgood_le; [exact V1|lia]. }
  intros [] L1 V1 C1. wp_steps. eapply wp_in_read; [exact V1| |].
  - intros bytes L2 V2 C2 (Hlen & Hbytes). wp_steps.
    assert (calm (vf_window v) L L2) as C02 by (by etrans).
    eapply wp_quiet_call; [exact V2|apply lens_close|intros; apply wp_close; auto| |].
    + intros [] L3 V3 C3. wp_steps. apply HQ; [done|by etrans|]. split.
      * destruct Hlen as (br1 & k & Hb1 & Hk & Hn). destruct (ok_branch _ _ (proj2 V)) as [br Hb].
        exists br, k. by rewrite <-(lens_len _ _ _ br br1 node (fr_lens _ _ _ (proj1 C1)) Hb Hb1).
      * intros j Hj. rewrite Hbytes by done. apply byte_view_same, C1.
    + intros e L3 V3 C3. wp_steps. apply HR, settled_same; [done|by etrans].
  - intros e L2 [leaked V2] C2. wp_steps.
    eapply wp_quiet_call; [exact V2|apply lens_close|intros; apply wp_close; auto| |];
      intros x L3 V3 C3; wp_steps; (apply HR, settled_leak;
        [by exists leaked|apply calm_touch; etrans; [exact C1|by etrans]]).
Qed.

Lemma fs_wrote_views c c1 c2 c3 b node offset bytes lo hi :
  same_views c c1 -> wrote c1 c2 b node offset bytes lo hi -> same_views c2 c3 ->
  wrote c c3 b node offset bytes lo hi.
Proof.
  intros V1 Wr V3 b' node' x. rewrite (byte_view_same _ _ _ _ _ V3), Wr.
  by rewrite (byte_view_same _ _ _ _ _ V1).
Qed.

(** A write that ended with an error. *)
Definition torn_write L v rest (node : NodeId) (offset : N) (bytes : list byte) n L' : Prop :=
  (exists leaked, vgood n L' v (leaked ++ rest)) /\ touch (vf_window v) (vf_branch v) L L' /\
  lens_kept (ln_cache L) (ln_cache L') /\ 
  unchanged_outside (ln_cache L) (ln_cache L') (vf_branch v) node offset (offset + lenN bytes).

Lemma torn_calm n L v rest node offset bytes L0 L1 L2 :
  calm (vf_window v) L L0 -> torn_write L0 v rest node offset bytes n L1 -> 
  (exists leaked, vgood n L2 v (leaked ++ rest)) -> calm (vf_window v) L1 L2 ->
  torn_write L v rest node offset bytes n L2.
Proof.
  intros C0 (_ & T1 & HL1 & U1) V2 C2. split; [done|].
  split; [etrans; [by apply calm_touch|etrans; [exact T1|by apply calm_touch]]|].
  split; [etrans; [apply C0|etrans; [exact HL1|apply C2]]|].
  intros b' node' x Hr. rewrite (byte_view_same _ _ _ _ _ (proj2 C2)), U1 by done.
  apply byte_view_same, C0.
Qed.

Lemma wp_write_sync node offset bytes Q R n L v rest :
  vgood (3 * lenN bytes + n) L v rest ->
  (forall L', vgood n L' v rest -> touch (vf_window v) (vf_branch v) L L' -> lens_kept (ln_cache L) (ln_cache L') ->
    wrote (ln_cache L) (ln_cache L') (vf_branch v) node offset bytes offset (offset + lenN bytes) -> Q tt (L', v)) ->
  (forall e L', torn_write L v rest node offset bytes n L' -> R e (L', v)) ->
  wp (in_cache (_ ← Shared.write (vf_branch v) node offset bytes; Shared.sync (vf_branch v) node)) Q R (L, v).
Proof.
  intros V HQ HR. apply wp_in_bind. eapply wp_in_write; [exact V| |].
  2:{ intros e L1 V1 T1 HL1 _ U1. by apply HR. }
  intros L1 V1 T1 HL1 _ Wr. eapply wp_in_sync; [exact V1| |].
  - intros L2 V2 C2 _. apply HQ; [done|by etrans; [exact T1|apply calm_touch]|by etrans; [exact HL1|apply C2]|].
    by eapply (fs_wrote_views _ _ _ _ _ _ _ _ _ _ (same_views_refl _)); [|apply C2].
  - intros e L2 V2 C2 _. apply HR. split; [by exists []|].
    split; [by etrans; [exact T1|apply calm_touch]|]. split; [by etrans; [exact HL1|apply C2]|].
    intros b' node' x Hr. rewrite (byte_view_same _ _ _ _ _ (proj2 C2)). by rewrite Wr, Hr.
Qed.

Lemma wp_write_closed node offset bytes Q R n L v rest :
  vgood (3 * lenN bytes + n) L v rest ->
  (forall L', vgood n L' v rest -> touch (vf_window v) (vf_branch v) L L' -> lens_kept (ln_cache L) (ln_cache L') ->
    wrote (ln_cache L) (ln_cache L') (vf_branch v) node offset bytes offset (offset + lenN bytes) -> Q tt (L', v)) ->
  (forall e L', torn_write L v rest node offset bytes n L' -> R e (L', v)) ->
  wp (write_closed node offset bytes) Q R (L, v).
Proof.
  intros V HQ HR. unfold write_closed, self, cache_as. wp_steps. cbn [snd].
  eapply wp_quiet_call; [exact V|apply lens_open|intros; apply wp_open; auto| |].
  2:{ intros e L1 V1 C1. apply HR. split; [exists []; eapply vgood_le; [exact V1|lia]|].
      split; [by apply calm_touch|]. split; [apply C1|]. by apply same_views_outside, C1. }
  intros [] L1 V1 C1. wp_steps. eapply wp_write_sync; [exact V1| |].
  - intros L2 V2 T2 HL2 Wr. wp_steps.
    assert (touch (vf_window v) (vf_branch v) L L2) as T02 by (etrans; [by apply calm_touch|done]).
    assert (lens_kept (ln_cache L) (ln_cache L2)) as HL02 by (etrans; [apply C1|done]).
    eapply wp_quiet_call; [exact V2|apply lens_close|intros; apply wp_close; auto| |].
    + intros [] L3 V3 C3. wp_steps. apply HQ; [done|by etrans; [exact T02|apply calm_touch]|
        by etrans; [exact HL02|apply C3]|]. eapply fs_wrote_views; [apply C1|exact Wr|apply C3].
    + intros e L3 V3 C3. wp_steps. apply HR. split; [by exists []|].
      split; [by etrans; [exact T02|apply calm_touch]|]. split; [by etrans; [exact HL02|apply C3]|].
      intros b' node' x Hr. rewrite (byte_view_same _ _ _ _ _ (proj2 C3)), Wr, Hr. apply byte_view_same, C1.
  - intros e L2 T2. wp_steps. pose proof T2 as ([leaked V2] & _).
    eapply (wp_quiet_call _ _ _ n L2 v v (leaked ++ rest)); [exact V2|apply lens_close|intros; apply wp_close; auto| |];
      intros x L3 V3 C3; wp_steps; apply HR;
      (eapply torn_calm; [exact C1|exact T2|by exists leaked|exact C3]).
Qed.

End requests.
