(* ===== verification/VirtioFsHost.v ===== *)
(** * Operations under suspended mappings

    A host write, a fork and a checkpoint take all the mappings of the guest
    out of its window, work on the cache, and put the mappings back, whatever
    the work did.  Afterwards the guest sees every page it saw. *)

From S2P Require Import Prelude Generations Host CacheTypes DirtyPages SharedCache SharedCacheInv SharedCacheSteps SharedCacheOps SharedCacheIO SharedCacheLife SharedCacheLens PageCache RedoxBranch VmmTypes VirtioFs VirtioFsInv VirtioFsLaws VirtioFsOps.
Import Vfs DirtyFacts.

Section host.
Context {W S Id St : Type} `{Countable Id} `{!BranchStore W S Id St} `{!StoreView W S Id} `{!SavedView S St}
  `{!StoreLaws W S Id} `{!LenLaws W S Id} `{!BranchLaws W S Id St}.

Implicit Types (L : Lineage W S Id) (v : VirtioFs) (c : Cache W S Id) (rest : list DaxPageMapping)
  (sp : MappingSpec) (m : DaxPageMapping) (a : gmap N DaxPageMapping) (w : option (N * N)).

(** Every page the guest had in its window is there again. *)
Definition shown v a : Prop := forall o, is_Some (vf_active v !! o) -> is_Some (a !! o).

Lemma shown_again L L' v a :
  vf_ok L v -> lens_kept (ln_cache L) (ln_cache L') ->
  (forall o sp, vf_specs v !! o = Some sp -> served (ln_cache L') v a o) -> shown v a.
Proof.
  intros Hok HL Hs o [m Hm]. destruct (ok_active _ _ Hok _ _ Hm) as (sp & _ & _ & Hsp & _ & _ & _ & Hin & _).
  destruct (Hs o sp Hsp) as [?|(sp' & Hsp' & Hout)]; [done|]. destruct Hout.
  assert (sp' = sp) as -> by congruence. by eapply in_file_kept.
Qed.

Lemma settled_steps n L v rest L0 L1 L2 a leaked :
  calm (vf_window v) L L0 -> touch (vf_window v) (vf_branch v) L0 L1 -> calm (vf_window v) L1 L2 ->
  vgood n L2 (set_active a v) (leaked ++ rest) -> settled n L v rest (vf_window v) L2 (set_active a v).
Proof.
  intros C0 T1 C2 V2. split; [by exists leaked|]. split; [|done].
  etrans; [by apply calm_touch|]. etrans; [exact T1|by apply calm_touch].
Qed.

(** ** Writing *)

Lemma wp_host_write node offset bytes Q R n L v rest :
  vgood (3 * lenN bytes + (resume_cost v + n)) L v rest ->
  (forall L' a, vgood n L' (set_active a v) rest -> touch (vf_window v) (vf_branch v) L L' -> shown v a ->
    wrote (ln_cache L) (ln_cache L') (vf_branch v) node offset bytes offset (offset + lenN bytes) ->
    Q tt (L', set_active a v)) ->
  (forall e L' a, settled n L v rest (vf_window v) L' (set_active a v) ->
    unchanged_outside (ln_cache L) (ln_cache L') (vf_branch v) node offset (offset + lenN bytes) ->
    R e (L', set_active a v)) ->
  wp (Vfs.write node offset bytes) Q R (L, v).
Proof.
  intros V HQ HR. unfold Vfs.write, io_as. wp_steps. eapply wp_suspend; [exact V| |].
  2:{ intros e L1 a V1 C1 _. apply HR; [|by apply same_views_outside, C1].
      eapply (settled_steps _ _ _ _ L1 L1 L1 _ []); try done. eapply vgood_le; [exact V1|lia]. }
  intros L1 V1 C1. wp_steps. eapply wp_write_closed; [exact V1| |].
  - intros L2 V2 T2 HL2 Wr. wp_steps. eapply wp_resume; [exact V2| |].
    + intros L3 a V3 C3 _ Hs. wp_steps. apply (HQ L3 a); [done| | |].
      * etrans; [by apply calm_touch|]. etrans; [exact T2|]. apply calm_touch. exact C3.
      * eapply (shown_again L); [apply V| |exact Hs]. etrans; [apply C1|]. etrans; [exact HL2|apply C3].
      * eapply fs_wrote_views; [apply C1|exact Wr|apply C3].
    + intros e L3 a V3 C3 _. wp_steps. apply (HR _ L3 a).
      * by eapply (settled_steps _ _ _ _ L1 L2 L3 _ []).
      * change (vf_branch (set_active ∅ v)) with (vf_branch v) in Wr.
        intros b' node' x Hr. rewrite (byte_view_same _ _ _ _ _ (proj2 C3)), Wr, Hr. apply byte_view_same, C1.
  - intros e L2 ([leaked V2] & T2 & HL2 & U2). wp_steps.
    change (vf_branch (set_active ∅ v)) with (vf_branch v) in U2. eapply wp_resume; [exact V2| |];
      [intros L3 a V3 C3 _ _|intros e' L3 a V3 C3 _]; wp_steps; apply (HR _ L3 a);
      (try by eapply (settled_steps _ _ _ _ L1 L2 L3 _ leaked));
      intros b' node' x Hr; rewrite (byte_view_same _ _ _ _ _ (proj2 C3)), U2 by done; apply byte_view_same, C1.
Qed.

(** ** Forking *)

Lemma wp_on_cache {A} op (f : M (Cache W S Id) CacheError A) Q R L :
  wp (on_cache op f) Q R L <->
  wp f (fun x c => Q x (set_cache c L)) (fun e c => R (Backend op (CauseCache e)) (set_cache c L)) (ln_cache L).
Proof. unfold on_cache. by rewrite wp_zoom, wp_with_err. Qed.

(** A branch that has just been registered. *)
Definition new_guest L v lineage_id b specs : Prop :=
  v = mkVirtioFs (c_id (ln_cache L)) lineage_id b None specs ∅ (ln_next_backend L).

(** The counter of registered devices moves; nothing else of the lineage can be seen to. *)
Definition registered L L' : Prop :=
  quiet (ln_cache L) (ln_cache L') /\ lens_kept (ln_cache L) (ln_cache L') /\ ln_map L' = ln_map L.

Lemma wp_from_parts lineage_id b specs Q R L :
  (forall v L1 L', registered L L' -> new_guest L1 v lineage_id b specs -> Q v L') ->
  (forall e L', registered L L' -> R e L') ->
  wp (from_parts lineage_id b specs) Q R L.
Proof.
  intros HQ HR. unfold from_parts. wp_steps.
  assert (forall nodes L1, registered L L1 ->
    wp (for_each (fun inode => on_cache "restore DAX file handle" (Shared.open b inode)) nodes)
      (fun _ => registered L) (fun _ => registered L) L1) as Hloop.
  { induction nodes as [|node nodes IH]; intros L1 (Q1 & HL1 & M1); cbn [for_each]; [done|].
    rewrite wp_bind, wp_on_cache. apply wp_and_keeps with (P := lens_kept); [apply lens_open|].
    apply wp_open.
    - intros c2 Q2 HL2. apply IH. split; [by eapply quiet_trans|]. split; [by etrans|done].
    - intros e c2 Q2 HL2. split; [by eapply quiet_trans|]. split; [by etrans|done]. }
  eapply wp_mono; [apply Hloop| |].
  - split; [apply quiet_refl|]. split; [done|done].
  - intros [] L1 Reg. wp_steps. by eapply HQ.
  - exact HR.
Qed.

(** The child of a fork: a new guest without a window whose branch holds what
    the source's held, with the mappings the source asked for. *)
Record forked_guest L v L' child : Prop := {
  fg_new : c_branches (ln_cache L) !! vf_branch child = None;
  fg_there : is_Some (c_branches (ln_cache L') !! vf_branch child);
  fg_lineage : vf_lineage child = vf_lineage v;
  fg_window : vf_window child = None;
  fg_specs : vf_specs child = vf_specs v;
  fg_active : vf_active child = ∅;
  fg_views k : aligned k -> page_view (ln_cache L') (vf_branch child) k = page_view (ln_cache L) (vf_branch v) k;
  fg_source k : aligned k -> page_view (ln_cache L') (vf_branch v) k = page_view (ln_cache L) (vf_branch v) k;
  fg_lens br br' : c_branches (ln_cache L) !! vf_branch v = Some br ->
    c_branches (ln_cache L') !! vf_branch child = Some br' -> same_len (store br) (store br')
}.

Lemma forked_touch w b L c child : lens_kept (ln_cache L) c -> c_branches (ln_cache L) !! child = None ->
  (forall b' k, aligned k -> b' <> child -> page_view c b' k = page_view (ln_cache L) b' k) ->
  touch w b L (set_cache c L).
Proof.
  intros HL Hn HV. split; [| |done].
  - intros b' br _ Hb. by apply HL.
  - intros b' node x _ [br Hb]. unfold byte_view. cbn. rewrite HV; [done|apply aligned_page|congruence].
Qed.

Lemma fresh_branch_free n c ms : good n c ms -> c_branches c !! c_next_branch c = None.
Proof.
  intros (I & _). destruct (c_branches c !! c_next_branch c) as [br|] eqn:Hb; [|done].
  destruct (inv_branch _ _ I _ _ Hb). lia.
Qed.

(** The cache call in the middle of a fork. *)
Lemma wp_fork_call Q R n L v rest :
  vgood n L v rest ->
  (forall L', vgood n L' v rest -> touch (vf_window v) (vf_branch v) L L' ->
    lens_kept (ln_cache L) (ln_cache L') -> ln_map L' = ln_map L ->
    forked (ln_cache L) (ln_cache L') (vf_branch v) (c_next_branch (ln_cache L)) ->
    (exists br br', c_branches (ln_cache L) !! vf_branch v = Some br /\
       c_branches (ln_cache L') !! c_next_branch (ln_cache L) = Some br' /\ same_len (store br) (store br')) ->
    Q (c_next_branch (ln_cache L)) (L', v)) ->
  (forall e L', vgood n L' v rest -> calm (vf_window v) L L' -> R e (L', v)) ->
  wp (in_cache (Shared.fork (vf_branch v))) Q R (L, v).
Proof.
  intros V HQ HR. rewrite wp_in_cache. pose proof (fresh_branch_free _ _ _ (proj1 V)) as Hfree.
  pose proof (wp_fork_lens (vf_branch v) (ln_cache L) Hfree) as Hlens.
  pose proof (wp_fork (vf_branch v) n
    (fun child c => child = c_next_branch (ln_cache L) /\ good n c (active_list (vf_active v) ++ rest) /\
       forked (ln_cache L) c (vf_branch v) child)
    (fun _ c => good n c (active_list (vf_active v) ++ rest) /\ same_views (ln_cache L) c)
    (ln_cache L) _ (proj1 V)) as Hfork.
  eapply wp_mono; [apply (wp_and _ _ _ _ _ _ (Hfork ltac:(done) ltac:(done)) Hlens)| |]; cbn.
  - intros child c [(-> & G & F) [HL Hchild]]. apply HQ; try done.
    + by eapply vgood_cache.
    + destruct F as (_ & _ & _ & F & _). eapply forked_touch; [done|done|]. intros. by apply F.
  - intros e c [[G HV] HL]. apply HR; [by eapply vgood_cache|]. split; [by apply frame_cache|done].
Qed.

(** Registering the child after the mappings are back. *)
Lemma forked_guest_steps n L v L0 L1 L2 L3 L4 child rest a :
  calm (vf_window v) L L0 -> vgood n L2 (set_active a v) rest ->
  forked (ln_cache L0) (ln_cache L1) (vf_branch v) (c_next_branch (ln_cache L0)) ->
  (exists br br', c_branches (ln_cache L0) !! vf_branch v = Some br /\
     c_branches (ln_cache L1) !! c_next_branch (ln_cache L0) = Some br' /\ same_len (store br) (store br')) ->
  calm (vf_window v) L1 L2 -> registered L2 L4 ->
  new_guest L3 child (vf_lineage v) (c_next_branch (ln_cache L0)) (vf_specs v) ->
  forked_guest L v L4 child.
Proof.
  intros [F0 V0] V2 (Hfree & Hthere & Hviews & Hothers & _) (br & br' & Hb & Hb' & Hl) [F2 HV2] (Q4 & HL4 & _) ->.
  pose proof (views_quiet _ _ _ _ (proj1 V2) Q4) as HV4.
  assert (same_views (ln_cache L1) (ln_cache L4)) as HV14 by (by eapply same_views_trans).
  assert (lens_kept (ln_cache L1) (ln_cache L4)) as HL14 by (etrans; [apply F2|done]).
  split; cbn; try done.
  - apply eq_None_not_Some. intros [r Hr]. destruct (fr_lens _ _ _ F0 _ _ Hr) as (r' & Hr' & _). congruence.
  - destruct (HL14 _ _ Hb') as (r & Hr & _). by exists r.
  - intros k Hk. rewrite HV14, Hviews by done. by apply V0.
  - intros k Hk. rewrite (HV14 _ _ Hk), (Hothers _ _ Hk); [by apply V0|]. congruence.
  - intros r r' Hr Hr' node. rewrite (lens_len _ _ _ br' r' node HL14 Hb' Hr').
    rewrite Hl. by rewrite (lens_len _ _ _ r br node (fr_lens _ _ _ F0) Hr Hb).
Qed.

Lemma registered_good n L v rest L' : vgood n L v rest -> registered L L' -> vgood n L' v rest.
Proof.
  intros [G Hok] (Q & HL & HM). split; [by eapply good_quiet|]. by eapply vf_ok_cache.
Qed.

Lemma registered_touch w b n L v rest L' : vgood n L v rest -> registered L L' -> touch w b L L'.
Proof.
  intros [G _] (Q & HL & HM). split.
  - intros b' br _ Hb. by apply HL.
  - intros b' node x _ _. eapply byte_view_same, views_quiet; [exact G|exact Q].
  - intros address _. by rewrite HM.
Qed.

Lemma forked_guest_ok L v L' child : vf_ok L v -> forked_guest L v L' child -> vf_ok L' child.
Proof.
  intros Hok F. split.
  - intros o sp. rewrite (fg_specs _ _ _ _ F). apply Hok.
  - intros o m. by rewrite (fg_active _ _ _ _ F).
  - intros base len o. by rewrite (fg_window _ _ _ _ F).
  - apply F.
Qed.

(** Every file page of this branch is as it was. *)
Definition same_branch L L' b : Prop :=
  forall k, aligned k -> page_view (ln_cache L') b k = page_view (ln_cache L) b k.

Lemma wp_guest_fork Q R n L v rest :
  vgood (resume_cost v + n) L v rest ->
  (forall L' a child, vgood n L' (set_active a v) rest -> touch (vf_window v) (vf_branch v) L L' -> shown v a ->
    forked_guest L v L' child -> vf_ok L' child -> Q child (L', set_active a v)) ->
  (forall e L' a, settled n L v rest (vf_window v) L' (set_active a v) -> same_branch L L' (vf_branch v) ->
    R e (L', set_active a v)) ->
  wp Vfs.fork Q R (L, v).
Proof.
  intros V HQ HR. unfold Vfs.fork, io_as, cache_as. wp_steps. eapply wp_suspend; [exact V| |].
  2:{ intros e L1 a V1 C1 _. apply HR; [|intros k Hk; by apply C1].
      eapply (settled_steps _ _ _ _ L1 L1 L1 _ []); try done. eapply vgood_le; [exact V1|lia]. }
  intros L1 V1 C1. unfold self at 1. wp_steps. cbn [snd].
  change (vf_branch (set_active ∅ v)) with (vf_branch v).
  eapply (wp_fork_call _ _ _ L1 (set_active ∅ v)); [exact V1| |].
  2:{ intros e L2 V2 C2. wp_steps. eapply wp_resume; [exact V2| |];
        [intros L3 a V3 C3 _ _|intros e' L3 a V3 C3 _]; wp_steps; apply (HR _ L3 a);
        (try by eapply (settled_steps _ _ _ _ L1 L2 L3 _ []); [|apply calm_touch| |]);
        intros k Hk; rewrite (proj2 C3), (proj2 C2) by done; by apply C1. }
  intros L2 V2 T2 HL2 HM2 F Hchild. wp_steps.
  assert (forall L3, calm (vf_window v) L2 L3 -> same_branch L L3 (vf_branch v)) as Hsame.
  { intros L3 C3 k Hk. destruct F as (Hfree & _ & _ & F & _). destruct Hchild as (br & _ & Hbr & _).
    rewrite (proj2 C3 _ _ Hk), (F _ _ Hk); [by apply C1|]. intros Heq. cbn in Heq, Hbr. congruence. }
  eapply wp_resume; [exact V2| |].
  2:{ intros e L3 a V3 C3 _. wp_steps. apply (HR _ L3 a); [|by apply Hsame].
      by eapply (settled_steps _ _ _ _ L1 L2 L3 _ []). }
  intros L3 a V3 C3 _ Hs. wp_steps. cbn [fst snd].
  assert (touch (vf_window v) (vf_branch v) L L3) as T3.
  { etrans; [by apply calm_touch|]. etrans; [exact T2|]. apply calm_touch. exact C3. }
  apply wp_from_parts.
  - intros child L5 L4 Reg Hnew. cbn [fst snd] in *.
    assert (forked_guest L v L4 child) as FG by (by eapply (forked_guest_steps n L v L1 L2 L3 L5 L4 child rest a)).
    apply (HQ L4 a); [by eapply registered_good| | |done|by eapply forked_guest_ok; [apply V|]].
    + etrans; [exact T3|by eapply registered_touch].
    + eapply (shown_again L); [apply V| |exact Hs]. etrans; [apply C1|]. etrans; [exact HL2|apply C3].
  - intros e L4 Reg. cbn [fst snd] in *. apply (HR _ L4 a).
    + split; [exists []; by eapply registered_good|]. split; [|done].
      etrans; [exact T3|by eapply registered_touch].
    + intros k Hk. destruct Reg as (Q4 & _). rewrite (views_quiet _ _ _ _ (proj1 V3) Q4) by done.
      by apply (Hsame L3).
Qed.

(** ** Checkpoints *)

(** The store [s] holds what branch [b] sees, as far as its files reach, in
    every page that no mapping of [ms] may be writing. *)
Definition captured c ms b (s : S) : Prop :=
  forall k page, aligned k -> page_view c b k = Some page -> (~ writer ms b k) ->
    agree (s_len s k.1) k.2 page (s_content s k).

Lemma captured_views c c' ms b (s s' : S) :
  same_views c c' -> view_eq s s' -> captured c' ms b s -> captured c ms b s'.
Proof.
  intros V (_ & Hc & Hl) Hs k page Hk Hp Hw. rewrite Hl, Hc by done. apply Hs; [done| |done]. by rewrite V.
Qed.

(** Nothing dirty is left: the store holds all there is. *)
Lemma clean_captured n c ms b br : good n c ms -> c_branches c !! b = Some br ->
  (forall k, ~ is_dirty (dirty_pages br) k) -> captured c ms b (store br).
Proof.
  intros (I & _) Hb Hclean k page Hk Hp Hw. unfold page_view in Hp. rewrite Hb in Hp.
  destruct (s_ident (store br) k) as [i|] eqn:Hi; [|done].
  destruct (c_pages c !! i) as [p|] eqn:Hpg; injection Hp as <-.
  - destruct (inv_branch _ _ I _ _ Hb) as [_ (_ & _ & _ & Hc & _)]. by eapply Hc.
  - unfold agree. by destruct (s_len (store br) k.1).
Qed.

Definition snapshot_of v (st : St) : VirtioFsSnapshot St :=
  mkSnapshot (vf_lineage v) st (durable_spec <$> btree_list (vf_specs v)).

Lemma wp_take_snapshot Q R n L v rest :
  vgood n L v rest ->
  (forall st s L', vgood n L' v rest -> calm (vf_window v) L L' -> s_saves st s ->
    captured (ln_cache L) (active_list (vf_active v) ++ rest) (vf_branch v) s -> Q (snapshot_of v st) (L', v)) ->
  (forall e L', vgood n L' v rest -> calm (vf_window v) L L' -> R e (L', v)) ->
  wp take_snapshot Q R (L, v).
Proof.
  intros V HQ HR. unfold take_snapshot, self, cache_as. wp_steps. cbn [snd].
  rewrite wp_in_cache. apply wp_and_keeps with (P := lens_kept); [apply lens_sync_all|].
  eapply wp_sync_all; [apply V| |].
  2:{ intros e c1 G1 V1 _ HL1. apply HR; [by eapply vgood_cache|]. split; [by apply frame_cache|done]. }
  intros c1 br1 G1 V1 Hb1 Hclean HL1. pose proof (clean_captured _ _ _ _ _ G1 Hb1 Hclean) as Hcap.
  assert (vgood n (set_cache c1 L) v rest) as Vg1 by (by eapply vgood_cache).
  wp_steps. rewrite wp_in_cache. unfold Shared.with_store_mut. apply wp_and_keeps with (P := lens_kept).
  { apply lens_on_store, len_kept_keeps. intros ws. eapply wp_mono; [apply law_durable_state| |]; cbn; naive_solver. }
  eapply (wp_on_store_keeps (fun st => exists s, s_saves st s /\ view_eq (store br1) s) (fun _ => True)); [exact Hb1| | |].
  - eapply wp_mono; [apply law_durable_state| |]; cbn; [|done]. intros st ws' [K Hs]. split; [|done].
    exists ws'.2. split; [done|apply K].
  - intros st c2 (s & Hs & Hv) Q2 HL2. destruct (vgood_quiet _ (set_cache c1 L) _ _ _ Vg1 Q2 HL2) as [V2 C2].
    wp_steps. eapply HQ; [exact V2| |exact Hs|by eapply captured_views].
    etrans; [|exact C2]. split; [by apply frame_cache|done].
  - intros e c2 _ Q2 HL2. destruct (vgood_quiet _ (set_cache c1 L) _ _ _ Vg1 Q2 HL2) as [V2 C2].
    apply HR; [exact V2|]. etrans; [|exact C2]. split; [by apply frame_cache|done].
Qed.

Lemma wp_durable_snapshot Q R n L v rest :
  vgood (resume_cost v + n) L v rest ->
  (forall st s L' a, vgood n L' (set_active a v) rest -> calm (vf_window v) L L' -> shown v a -> s_saves st s ->
    captured (ln_cache L) rest (vf_branch v) s -> Q (snapshot_of v st) (L', set_active a v)) ->
  (forall e L' a, vgood n L' (set_active a v) rest -> calm (vf_window v) L L' -> R e (L', set_active a v)) ->
  wp durable_snapshot Q R (L, v).
Proof.
  intros V HQ HR. unfold durable_snapshot, io_as. wp_steps. eapply wp_suspend; [exact V| |].
  2:{ intros e L1 a V1 C1 _. apply HR; [|done]. eapply vgood_le; [exact V1|lia]. }
  intros L1 V1 C1. wp_steps. eapply wp_take_snapshot; [exact V1| |].
  - intros st s L2 V2 C2 Hs Hcap. wp_steps.
    assert (calm (vf_window v) L L2) as C02 by (etrans; [exact C1|exact C2]).
    eapply wp_resume; [exact V2| |].
    + intros L3 a V3 C3 _ Hserved. wp_steps.
      assert (calm (vf_window v) L L3) as C03 by (etrans; [exact C02|exact C3]).
      apply (HQ st s L3 a); [exact V3|exact C03| |exact Hs|].
      * eapply (shown_again L); [apply V|apply C03|exact Hserved].
      * eapply captured_views; [apply C1|apply view_eq_refl|exact Hcap].
    + intros e L3 a V3 C3 _. wp_steps. apply (HR _ L3 a); [exact V3|]. etrans; [exact C02|exact C3].
  - intros e L2 V2 C2. wp_steps. assert (calm (vf_window v) L L2) as C02 by (etrans; [exact C1|exact C2]).
    eapply wp_resume; [exact V2| |]; [intros L3 a V3 C3 _ _|intros e' L3 a V3 C3 _]; wp_steps;
      (apply (HR _ L3 a); [exact V3|etrans; [exact C02|exact C3]]).
Qed.

(** ** New files *)

Lemma wp_host_create_file name size Q R n L v rest :
  vgood (1 + n) L v rest ->
  (forall node L' br, vgood n L' v rest -> touch (vf_window v) (vf_branch v) L L' ->
    views_but_file (ln_cache L) (ln_cache L') (vf_branch v) node ->
    c_branches (ln_cache L') !! vf_branch v = Some br -> s_len (store br) node = Ok size -> Q node (L', v)) ->
  (forall e L', vgood n L' v rest -> calm (vf_window v) L L' -> R e (L', v)) ->
  wp (Vfs.create_file name size) Q R (L, v).
Proof.
  intros V HQ HR. pose proof (proj2 V) as Hok. destruct (ok_branch _ _ Hok) as [br Hb].
  unfold Vfs.create_file, self, cache_as. wp_steps. cbn [snd]. rewrite wp_in_cache.
  eapply wp_new_file; [apply V|exact Hb| |].
  - intros node c' br' G' HV HL Hnew Hb' Hlen. eapply (HQ node (set_cache c' L) br'); try done.
    + split; [done|]. split; [apply Hok| |apply Hok|by exists br'].
      intros o m Hm. destruct (ok_active _ _ Hok _ _ Hm) as (sp & base & len & H1 & H2 & H3 & H4 & H5 & H6).
      exists sp, base, len. repeat split; try done; try apply H4.
      destruct H5 as (br0 & k & Hb0 & Hk & Hlt). destruct (HL _ _ Hb0) as (br1 & Hb1 & Hl1).
      exists br1, k. split; [done|]. rewrite Hl1; [done|]. intros [= Heq].
      destruct (inv_mapping _ _ (proj1 (proj1 V)) m) as (_ & Hal & _ & r & i & Hr & Hi & _).
      { apply elem_of_app. left. apply elem_of_active_list. by exists o. }
      destruct H4 as (Hmb & Hmk & _). rewrite Hmk, Heq in Hal, Hi. rewrite Hmb in Hr.
      apply (Hnew (ms_file_offset sp) i Hal). by exists r.
    + split; [| |done].
      * intros b' br0 Hne Hb0. destruct (HL _ _ Hb0) as (br1 & Hb1 & Hl1). exists br1. split; [done|].
        intros node'. apply Hl1. congruence.
      * intros b' node' x Hne _. unfold byte_view. cbn. rewrite HV; [done|apply aligned_page|congruence].
  - intros e c' G' HV HL. apply HR; [by eapply vgood_cache|]. split; [by apply frame_cache|done].
Qed.

(** ** Dropping a branch *)

Lemma wp_unmap_all v R n L rest : vf_ok L v -> forall os a L1,
  (forall o, o ∈ os -> a !! o = vf_active v !! o) -> NoDup os -> (forall o m, a !! o = Some m -> o ∈ os) ->
  good n (ln_cache L1) (active_list a ++ rest) -> touch None (vf_branch v) L L1 ->
  wp (for_each (fun offset => match vf_active v !! offset with
        | None => mret tt
        | Some mapping => _ ← attempt (in_cache (Shared.unmap (vf_branch v) mapping)); mret tt
        end) os) (fun _ s => good n (ln_cache s.1) rest /\ touch None (vf_branch v) L s.1) R
    (L1, set_active ∅ v).
Proof.
  intros Hok. induction os as [|o os IH]; intros a L1 Heq Hnd Hdom G1 T1; cbn [for_each].
  { wp_steps. split; [|done]. assert (a = ∅) as ->; [|done].
    apply map_eq. intros o. rewrite lookup_empty. destruct (a !! o) as [m|] eqn:Hm; [|done].
    apply Hdom in Hm. by apply not_elem_of_nil in Hm. }
  apply NoDup_cons in Hnd as [Hno Hnd]. rewrite wp_bind, <-(Heq o) by (by left).
  assert (forall o', o' ∈ os -> delete o a !! o' = vf_active v !! o') as Heq'.
  { intros o' Ho'. rewrite lookup_delete_ne by congruence. apply Heq. by right. }
  assert (forall o' m, delete o a !! o' = Some m -> o' ∈ os) as Hdom'.
  { intros o' m [Hne Hm]%lookup_delete_Some. apply Hdom in Hm as Hin.
    apply elem_of_cons in Hin as [?|?]; [congruence|done]. }
  destruct (a !! o) as [m|] eqn:Hm.
  - wp_steps. rewrite wp_in_cache. apply wp_and_keeps with (P := lens_kept); [apply lens_unmap|].
    eapply (wp_unmap _ _ _ _ n _ (active_list (delete o a) ++ rest)).
    { eapply good_perm; [|exact G1]. by rewrite (active_list_delete _ _ _ Hm). }
    { rewrite (Heq o) in Hm by (by left).
      by destruct (ok_active _ _ Hok _ _ Hm) as (sp & _ & _ & _ & _ & _ & (? & _) & _). }
    intros c2 G2 V2 HL2. wp_steps. apply (IH (delete o a)); try done.
    etrans; [exact T1|]. apply calm_touch. split; [by apply frame_cache|done].
  - wp_steps. apply (IH (delete o a)); try done. by rewrite delete_id.
Qed.

Lemma removed_touch L b c : lens_kept (Shared.set_branches (delete b (c_branches (ln_cache L))) (ln_cache L)) c ->
  (forall b' k, aligned k -> b' <> b -> page_view c b' k = page_view (ln_cache L) b' k) ->
  touch None b L (set_cache c L).
Proof.
  intros HL HV. split; [| |done].
  - intros b' br Hne Hb. apply HL. cbn. by rewrite lookup_delete_ne.
  - intros b' node y Hne _. unfold byte_view. cbn. rewrite HV; [done|apply aligned_page|done].
Qed.

Lemma wp_drop_branch n L v rest (Q : unit -> Lineage W S Id * VirtioFs -> Prop) R :
  vgood n L v rest ->
  (forall L' v', good n (ln_cache L') rest -> touch None (vf_branch v) L L' -> Q tt (L', v')) ->
  wp drop_branch Q R (L, v).
Proof.
  intros [G Hok] HQ. unfold drop_branch, self, update. wp_steps. cbn [snd].
  eapply wp_mono; [eapply (wp_unmap_all v _ n L rest Hok _ (vf_active v)); try done; [apply NoDup_btree_keys|]| |done].
  { intros o m Hm. apply elem_of_btree_keys. by exists m. }
  intros [] [L1 v1] [G1 T1]. wp_steps. rewrite wp_in_cache. cbn [fst] in *.
  set (P := fun c => good n c rest /\ forall b' k, aligned k -> b' <> vf_branch v ->
    page_view c b' k = page_view (ln_cache L1) b' k).
  assert (wp (Shared.remove_branch (vf_branch v)) (fun _ => P) (fun _ => P) (ln_cache L1)) as Hrem.
  { eapply wp_remove_branch; [exact G1| |done|done]. by intros c' G' [_ ?]. }
  eapply wp_mono; [apply (wp_and _ _ _ _ _ _ Hrem (wp_remove_lens (vf_branch v) (ln_cache L1)))| |]; cbn;
    (intros x c2 [[G2 V2] HL2]; wp_steps; apply HQ; [done|]; etrans; [exact T1|by apply removed_touch]).
Qed.

End host.
