(* ===== verification/VirtioFsWindow.v ===== *)
(** * The guest's window

    Attaching and detaching the window, adding and removing mappings, and the
    guest's own stores into it. *)

From S2P Require Import Prelude Generations Host CacheTypes DirtyPages SharedCache SharedCacheInv SharedCacheSteps SharedCacheOps SharedCacheIO SharedCacheLife SharedCacheLens Identity MemStore SharedCacheSpec PageCache PageCacheInv RedoxBranch VmmTypes VirtioFs VirtioFsInv VirtioFsLaws VirtioFsOps.
Import Vfs.

(** A store of the guest's processor at [offset] of its window.  Every page of
    the window is mapped readable and writable by the host, whatever access
    the guest asked for, so the store reaches the file mapped there; at a
    placeholder it reaches anonymous memory no file shows. *)
Definition guest_store {W S Id} `{Countable Id} (v : VirtioFs) (offset : N) (bytes : list byte)
    (L : Lineage W S Id) : Lineage W S Id :=
  let page := offset / PAGE_SIZE * PAGE_SIZE in
  match vf_window v with
  | Some (base, len) =>
      if (page + PAGE_SIZE <=? len) && (offset - page + lenN bytes <=? PAGE_SIZE) then
        match ln_map L !! (base + page) with
        | Some f =>
            let h := c_host (ln_cache L) in
            set_cache (Shared.set_host (set_files (<[f := splice (offset - page) bytes (file_bytes h f)]> (h_files h)) h)
                         (ln_cache L)) L
        | None => L
        end
      else L
  | None => L
  end.

(** The guest's own page tables let it store here: it asked for a writable
    mapping.  Only the guest kernel enforces this. *)
Definition store_allowed (v : VirtioFs) (offset : N) : Prop :=
  match vf_specs v !! (offset / PAGE_SIZE * PAGE_SIZE) with
  | Some sp => ms_writable sp = true
  | None => True
  end.

(** What the guest sees at page [page] of its window, if a file is there. *)
Definition window_page {W S Id} `{Countable Id} (L : Lineage W S Id) (v : VirtioFs) (page : N) :
    option (list byte) :=
  '(base, len) ← vf_window v;
  f ← ln_map L !! (base + page);
  Some (file_bytes (c_host (ln_cache L)) f).

Section window.
Context {W S Id St : Type} `{Countable Id} `{!BranchStore W S Id St} `{!StoreView W S Id} `{!SavedView S St}
  `{!StoreLaws W S Id} `{!LenLaws W S Id} `{!BranchLaws W S Id St}.

Implicit Types (L : Lineage W S Id) (v : VirtioFs) (c : Cache W S Id) (rest : list DaxPageMapping)
  (sp : MappingSpec) (m : DaxPageMapping) (a : gmap N DaxPageMapping) (w : option (N * N)).

(** A failed request was undone: only pages the guest asked for are shown.
    The code ignores an error of the undoing itself ([let _ = remove_offset]),
    after which a page may stay mapped that no request stands for. *)
Definition undone v : Prop :=
  forall o, is_Some (vf_active v !! o) -> is_Some (vf_specs v !! o) /\ is_Some (vf_window v).

(** ** Attaching and detaching *)

(** Memory the window may take over. *)
Definition anonymous L (base len : N) : Prop :=
  forall o, o < len -> ln_map L !! (base + o) = None.

Lemma no_window_idle L v : vf_ok L v -> vf_window v = None -> vf_active v = ∅.
Proof.
  intros Hok Hw. apply map_eq. intros o. rewrite lookup_empty. destruct (vf_active v !! o) as [m|] eqn:Hm; [|done].
  destruct (ok_active _ _ Hok _ _ Hm) as (sp & base & len & _ & Hw' & _). congruence.
Qed.

Lemma attach_ok L v base len : vf_ok L v -> vf_window v = None -> anonymous L base len ->
  vf_ok L (set_window (Some (base, len)) v).
Proof.
  intros Hok Hw Hanon. pose proof (no_window_idle _ _ Hok Hw) as Ha. split; [apply Hok| | |apply Hok].
  - intros o m. cbn. by rewrite Ha.
  - intros b' l' o. cbn. intros [= <- <-] Hlt _ _. by apply Hanon.
Qed.

Lemma detach_ok L v : vf_ok L v -> vf_active v = ∅ -> vf_ok L (set_window None v).
Proof. intros Hok Ha. split; [apply Hok| |done|apply Hok]. intros o m. cbn. by rewrite Ha. Qed.

Lemma wp_attach base len Q R n L v rest :
  vgood (resume_cost v + n) L v rest -> (vf_window v = None -> anonymous L base len) ->
  let v1 := set_window (Some (base, len)) v in
  (forall L' a, vf_window v = None -> vgood n L' (set_active a v1) rest -> calm (Some (base, len)) L L' ->
    (forall o sp, vf_specs v !! o = Some sp -> served (ln_cache L') v a o) -> Q tt (L', set_active a v1)) ->
  (forall e L' a, (undone (set_active a v) -> vgood n L' (set_active a v) rest) -> calm (Some (base, len)) L L' ->
    R e (L', set_active a v)) ->
  wp (attach_dax_window base len) Q R (L, v).
Proof.
  intros V Hanon v1 HQ HR. unfold attach_dax_window, self, update. wp_steps. cbn [snd].
  destruct (vf_window v) as [win|] eqn:Hw.
  { wp_steps. rewrite <-(set_active_id v). apply HR; [|done]. intros _. rewrite set_active_id.
    eapply vgood_le; [exact V|lia]. }
  wp_steps. cbn [fst snd].
  assert (vgood (resume_cost v1 + n) L v1 rest) as V1 by (split; [apply V|by apply attach_ok; [apply V| |auto]]).
  eapply wp_resume; [exact V1| |].
  - intros L' a V' C' _ Hs. wp_steps. by apply HQ.
  - intros e L' a V' C' _. wp_steps. cbn [fst snd].
    replace (set_window None _) with (set_active a v) by (unfold set_window, set_active, v1; cbn; by rewrite Hw).
    apply HR; [|exact C']. intros Hu. assert (a = ∅) as ->.
    { apply map_eq. intros o. rewrite lookup_empty. destruct (a !! o) as [m|] eqn:Hm; [|done].
      destruct (Hu o) as [_ [? Hx]]; [by exists m|]. cbn in Hx. congruence. }
    split; [apply V'|]. pose proof (detach_ok L' (set_active ∅ v1) (proj2 V') eq_refl) as Hd.
    unfold set_window, set_active, v1 in Hd. cbn in Hd. rewrite <-Hw in Hd. exact Hd.
Qed.

Lemma wp_detach base len Q R n L v rest :
  vgood n L v rest ->
  (vf_window v <> Some (base, len) -> Q tt (L, v)) ->
  (forall L', vgood n L' (set_window None (set_active ∅ v)) rest -> calm (vf_window v) L L' ->
    Q tt (L', set_window None (set_active ∅ v))) ->
  (forall e L' a, vgood n L' (set_active a v) rest -> calm (vf_window v) L L' -> R e (L', set_active a v)) ->
  wp (detach_dax_window base len) Q R (L, v).
Proof.
  intros V HQ0 HQ HR. unfold detach_dax_window, self, update. wp_steps. cbn [snd]. case_decide as Hw.
  { wp_steps. by apply HQ0. }
  wp_steps. eapply wp_suspend; [exact V| |].
  - intros L' V' C'. wp_steps. apply HQ; [|done]. split; [apply V'|]. by apply detach_ok; [apply V'|].
  - intros e L' a V' C' _. by apply HR.
Qed.

(** ** Adding mappings *)

Lemma lookup_add_specs inode fo wo wr ds o : forall specs,
  add_specs inode fo wo wr ds specs !! o =
    if decide (o ∈ (fun d => wo + d) <$> ds) then Some (mkSpec inode (fo + (o - wo)) wr) else specs !! o.
Proof.
  unfold add_specs. induction ds as [|d ds IH]; intros specs; cbn [foldl fmap list_fmap].
  { by rewrite decide_False by apply not_elem_of_nil. }
  rewrite IH. case_decide as H1; [by rewrite decide_True by (by right)|].
  destruct (decide (o = wo + d)) as [->|Hne].
  - rewrite lookup_insert_eq, decide_True by (by left). do 2 f_equal. lia.
  - rewrite lookup_insert_ne by done. rewrite decide_False; [done|]. by intros [?|?]%elem_of_cons.
Qed.

Lemma lookup_delete_specs os (specs : gmap N MappingSpec) o :
  foldr delete specs os !! o = if decide (o ∈ os) then None else specs !! o.
Proof.
  induction os as [|o' os IH]; cbn [foldr]; [by rewrite decide_False by apply not_elem_of_nil|].
  destruct (decide (o = o')) as [->|Hne].
  - by rewrite lookup_delete_eq, decide_True by (by left).
  - rewrite lookup_delete_ne, IH by done. case_decide; [by rewrite decide_True by (by right)|].
    rewrite decide_False; [done|]. by intros [?|?]%elem_of_cons.
Qed.

Lemma overlaps_false v wo end_ o sp :
  overlaps v wo end_ = false -> vf_specs v !! o = Some sp -> ~ (wo <= o < end_).
Proof.
  intros Hov Hsp Hin. apply not_true_iff_false in Hov. apply Hov. unfold overlaps. apply existsb_exists.
  exists (o, sp). split; [by apply list_elem_of_In, elem_of_map_to_list|]. cbn [fst].
  apply andb_true_iff. split; [apply N.ltb_lt; lia|]. apply orb_true_iff. left. apply N.leb_le. lia.
Qed.

(** The page starts of the new range. *)
Definition new_offsets (wo len : N) : list N := (fun d => wo + d) <$> page_starts 0 len.

Lemma elem_of_new_offsets wo len o : o ∈ new_offsets wo len <-> wo <= o < wo + len /\ (o - wo) mod PAGE_SIZE = 0.
Proof.
  unfold new_offsets. rewrite list_elem_of_fmap. setoid_rewrite elem_of_page_starts. split.
  - intros (d & -> & [_ Hd] & Hm). rewrite N.sub_0_r in Hm. split; [lia|].
    by replace (wo + d - wo) with d by lia.
  - intros [Ho Hm]. exists (o - wo). split; [lia|]. rewrite N.sub_0_r. split; [lia|done].
Qed.

Definition with_specs (inode : NodeId) fo wo (len : N) wr v : VirtioFs :=
  set_specs (add_specs inode fo wo wr (page_starts 0 len) (vf_specs v)) v.

(** The request asks for whole aligned pages in free space of the window. *)
Definition request_ok v (fo wo len : N) : Prop :=
  fo mod PAGE_SIZE = 0 /\ wo mod PAGE_SIZE = 0 /\ len mod PAGE_SIZE = 0 /\ wo + len <= u64_MAX /\
  overlaps v wo (wo + len) = false /\
  exists base wlen, vf_window v = Some (base, wlen) /\ wo + len <= wlen.

Lemma with_specs_old inode fo wo len wr v o sp : request_ok v fo wo len ->
  vf_specs v !! o = Some sp -> vf_specs (with_specs inode fo wo len wr v) !! o = Some sp.
Proof.
  intros (_ & _ & _ & _ & Hov & _) Hsp. cbn. rewrite lookup_add_specs, decide_False; [done|].
  intros [Hin _]%elem_of_new_offsets. by eapply overlaps_false.
Qed.

Lemma with_specs_ok inode fo wo len wr L v : vf_ok L v -> request_ok v fo wo len ->
  vf_ok L (with_specs inode fo wo len wr v).
Proof.
  intros Hok Hr. pose proof Hr as (Hfo & Hwo & Hlen & Hmax & _). split.
  - intros o sp. cbn. rewrite lookup_add_specs. case_decide as Hin; [|apply Hok].
    apply elem_of_new_offsets in Hin as [Hin Hm]. intros [= <-]. unfold spec_ok. cbn.
    unfold PAGE_SIZE in *. divlia.
  - intros o m Hm. destruct (ok_active _ _ Hok _ _ Hm) as (sp & base & l & H1 & H2).
    exists sp, base, l. split; [by apply with_specs_old|done].
  - apply Hok.
  - apply Hok.
Qed.

Lemma without_specs inode fo wo len wr v a : request_ok v fo wo len ->
  set_specs (foldr delete (vf_specs (with_specs inode fo wo len wr v)) (new_offsets wo len))
    (set_active a (with_specs inode fo wo len wr v)) = set_active a v.
Proof.
  intros (_ & _ & _ & _ & Hov & _). unfold set_specs, set_active. cbn. f_equal. apply map_eq. intros o.
  rewrite lookup_delete_specs, lookup_add_specs. unfold new_offsets. case_decide as Hin; [|done].
  destruct (vf_specs v !! o) as [sp|] eqn:Hsp; [|done]. apply elem_of_new_offsets in Hin as [Hin _].
  by destruct (overlaps_false _ _ _ _ _ Hov Hsp).
Qed.

(** What is left of a failed request is fine once it is undone. *)
Lemma undone_ok inode fo wo len wr L v a : request_ok v fo wo len ->
  vf_ok L (set_active a (with_specs inode fo wo len wr v)) -> undone (set_active a v) ->
  vf_ok L (set_active a v).
Proof.
  intros Hr Hok Hu. split; [| |apply Hok|apply Hok].
  { intros o sp Hsp. apply (ok_specs _ _ Hok). by apply with_specs_old. }
  intros o m Hm. destruct (Hu o) as [[sp Hsp] _]; [by exists m|]. cbn in Hsp.
  destruct (ok_active _ _ Hok _ _ Hm) as (sp' & base & l & H1 & H2).
  exists sp', base, l. split; [|done]. cbn. rewrite Hsp. by rewrite <-H1, <-(with_specs_old inode fo wo len wr v o sp).
Qed.

Definition setup_cost (len : N) : N := 3 * lenN (page_starts 0 len).

Lemma wp_setup_mapping inode fo len wr wo Q R n L v rest :
  vgood (setup_cost len + n) L v rest ->
  let v1 := with_specs inode fo wo len wr v in
  (forall L' a, vgood n L' (set_active a v1) rest -> calm (vf_window v) L L' -> vf_active v ⊆ a ->
    request_ok v fo wo len -> (forall o, o ∈ new_offsets wo len -> served (ln_cache L') v1 a o) ->
    Q tt (L', set_active a v1)) ->
  (forall e L' a, (undone (set_active a v) -> vgood n L' (set_active a v) rest) -> calm (vf_window v) L L' ->
    vf_active v ⊆ a -> R e (L', set_active a v)) ->
  wp (setup_mapping inode fo len wr wo) Q R (L, v).
Proof.
  intros V v1 HQ HR. pose proof (vgood_le n _ _ _ _ V ltac:(lia)) as Vn.
  assert (forall e, R e (L, v)) as Hearly.
  { intros e. rewrite <-(set_active_id v). apply HR; [|done|done]. by rewrite set_active_id. }
  unfold setup_mapping, self, update.
  destruct (_ || _ || _ || _) eqn:Hguard; [wp_steps; apply Hearly|].
  apply orb_false_iff in Hguard as [[[_ Hfo%negb_false_iff%N.eqb_eq]%orb_false_iff
    Hwo%negb_false_iff%N.eqb_eq]%orb_false_iff Hlen%negb_false_iff%N.eqb_eq].
  wp_steps. cbn [snd]. destruct (vf_window v) as [[base wlen]|] eqn:Hw; [|wp_steps; apply Hearly].
  destruct (checked_add wo len) as [end_|] eqn:Hend; [|wp_steps; apply Hearly].
  apply checked_add_Some in Hend as [-> Hmax]. destruct (N.ltb_spec wlen (wo + len)) as [|Hfit]; [wp_steps; apply Hearly|].
  destruct (checked_add fo len); [|wp_steps; apply Hearly].
  destruct (overlaps v wo (wo + len)) eqn:Hov; [wp_steps; apply Hearly|].
  unfold node_id. destruct (inode <=? 4294967295); [|wp_steps; apply Hearly]. wp_steps. cbn [fst snd].
  assert (request_ok v fo wo len) as Hr by (repeat split; try done; by exists base, wlen). rewrite <-Hw in HQ, HR.
  change (set_specs _ v) with (with_specs inode fo wo len wr v). fold v1. fold (new_offsets wo len).
  eapply (wp_activate_offsets _ _ _ n L v1).
  - replace (lenN (new_offsets wo len)) with (lenN (page_starts 0 len)) by (unfold lenN, new_offsets; by rewrite length_fmap).
    split; [apply V|]. by apply with_specs_ok; [apply V|].
  - intros L' a V' C' Ha Hs. wp_steps. by apply HQ.
  - intros e L' a V' C' Ha. wp_steps. cbn [fst snd]. unfold v1 in *.
    change (vf_specs (set_active a _)) with (vf_specs (with_specs inode fo wo len wr v)).
    rewrite without_specs by done. apply HR; [|exact C'|exact Ha]. intros Hu. split; [apply V'|].
    eapply undone_ok; [exact Hr|apply V'|done].
Qed.

(** ** Removing mappings *)

(** Mappings were taken away, none added. *)
Definition shrunk v v' : Prop :=
  exists s a, v' = set_specs s (set_active a v) /\ s ⊆ vf_specs v /\ a ⊆ vf_active v.

Lemma window_shrunk_refl v : shrunk v v.
Proof. exists (vf_specs v), (vf_active v). by destruct v. Qed.

Lemma window_shrunk_trans v1 v2 v3 : shrunk v1 v2 -> shrunk v2 v3 -> shrunk v1 v3.
Proof.
  intros (s1 & a1 & -> & H1 & H2) (s2 & a2 & -> & H3 & H4). exists s2, a2. split; [done|].
  split; etrans; try done; by cbn in *.
Qed.

Lemma shrunk_dropped v o : shrunk v (dropped o true v).
Proof. exists (delete o (vf_specs v)), (delete o (vf_active v)). split; [done|]. split; apply delete_subseteq. Qed.

Lemma shrunk_gone v v' o : shrunk v v' -> vf_specs v !! o = None -> vf_specs v' !! o = None.
Proof. intros (s & a & -> & Hs & _) Hn. cbn. by eapply lookup_weaken_None. Qed.

Lemma wp_remove_mapping wo len Q R n L v rest :
  vgood n L v rest ->
  (forall L' v', vgood n L' v' rest -> calm (vf_window v) L L' -> shrunk v v' ->
    (forall d, d ∈ page_starts 0 len -> vf_specs v' !! wrapping_add wo d = None) -> Q tt (L', v')) ->
  (forall e L' v', vgood n L' v' rest -> calm (vf_window v) L L' -> shrunk v v' -> R e (L', v')) ->
  wp (remove_mapping wo len) Q R (L, v).
Proof.
  intros V HQ HR. unfold remove_mapping.
  destruct (_ || _ || _); [wp_steps; apply HR; [done|done|apply window_shrunk_refl]|].
  revert L v V HQ HR. induction (page_starts 0 len) as [|d ds IH]; intros L v V HQ HR; cbn [for_each].
  { wp_steps. apply HQ; [done|done|apply window_shrunk_refl|]. intros d Hd. by apply not_elem_of_nil in Hd. }
  wp_steps. eapply wp_remove_offset; [exact V| |].
  - intros L1 V1 C1 _. pose proof (shrunk_dropped v (wrapping_add wo d)) as S1. apply IH; [exact V1| |].
    + intros L2 v2 V2 C2 S2 Hgone. apply HQ; [done|etrans; [exact C1|exact C2]|by eapply window_shrunk_trans|].
      intros d' [->|Hd']%elem_of_cons; [|by apply Hgone]. eapply shrunk_gone; [exact S2|]. apply lookup_delete_eq.
    + intros e L2 v2 V2 C2 S2. apply HR; [done|etrans; [exact C1|exact C2]|by eapply window_shrunk_trans].
  - intros e L1 V1 C1. apply HR; [done|done|apply window_shrunk_refl].
Qed.

(** ** What the guest sees and stores *)

(** A page of the window that shows a file shows what the branch sees of it. *)
Lemma window_shows L v ms o m : cache_inv (ln_cache L) ms -> vf_ok L v -> m ∈ ms -> vf_active v !! o = Some m ->
  exists sp bytes, vf_specs v !! o = Some sp /\ m_flags m = spec_flags sp /\
    window_page L v o = Some bytes /\ bytes = page_bytes (ln_cache L) (m_page m) /\ length bytes = page_nat /\
    page_view (ln_cache L) (vf_branch v) (ms_inode sp, ms_file_offset sp) = Some bytes.
Proof.
  intros I Hok Hin Hm.
  destruct (ok_active _ _ Hok _ _ Hm) as (sp & base & len & Hsp & Hw & _ & (Hb & Hk & Hf) & _ & Hmap).
  exists sp, (page_bytes (ln_cache L) (m_page m)). split; [done|]. split; [done|].
  split; [unfold window_page; rewrite Hw; cbn; by rewrite Hmap|]. split; [done|]. split.
  - destruct (inv_mapping _ _ I m Hin) as (_ & _ & _ & br & i & _ & _ & Hp & _).
    destruct (inv_page _ _ I _ _ Hp) as ((bytes & Hfile & Hl) & _). unfold page_bytes, file_bytes. by rewrite Hfile.
  - rewrite <-Hb, <-Hk. by eapply mapping_view.
Qed.

Lemma window_placeholder L v o base len : vf_ok L v -> vf_window v = Some (base, len) -> o < len ->
  o mod PAGE_SIZE = 0 -> vf_active v !! o = None -> window_page L v o = None.
Proof.
  intros Hok Hw Hlt Hal Hn. unfold window_page. rewrite Hw. cbn. by rewrite (ok_placeholder _ _ Hok base len o).
Qed.

(** The store reaches the branch's page, or there is no file to reach. *)
Inductive store_result L v (page off : N) (bytes : list byte) : Lineage W S Id -> Prop :=
  | store_none : store_result L v page off bytes L
  | store_file m c' :
      vf_active v !! page = Some m -> c_branches c' = c_branches (ln_cache L) ->
      views_but (ln_cache L) c' m (splice off bytes (page_bytes (ln_cache L) (m_page m))) ->
      store_result L v page off bytes (set_cache c' L).

Lemma guest_store_active n L v rest offset bytes sp m :
  vgood n L v rest ->
  let page := offset / PAGE_SIZE * PAGE_SIZE in
  vf_active v !! page = Some m -> vf_specs v !! page = Some sp -> ms_writable sp = true ->
  offset - page + lenN bytes <= PAGE_SIZE ->
  exists c', guest_store v offset bytes L = set_cache c' L /\ c_branches c' = c_branches (ln_cache L) /\
    vgood n (set_cache c' L) v rest /\
    views_but (ln_cache L) c' m (splice (offset - page) bytes (page_bytes (ln_cache L) (m_page m))).
Proof.
  intros V page Hm Hsp Hwr Hlen. pose proof (proj2 V) as Hok.
  destruct (ok_active _ _ Hok _ _ Hm) as (sp' & base & len & Hsp' & Hw & Hin & (Hb & Hk & Hfl) & _ & Hmap).
  assert (sp' = sp) as -> by congruence.
  assert (m ∈ active_list (vf_active v) ++ rest) as Hin_m
    by (apply elem_of_app; left; apply elem_of_active_list; by exists page).
  destruct (mapping_page _ _ _ _ (proj1 V) Hin_m) as (i & Hp & Hfile & Hpl).
  assert (WRITE (m_flags m) = true) as Hwm by (rewrite Hfl; unfold spec_flags; by rewrite Hwr).
  unfold guest_store. fold page. rewrite Hw, (proj2 (N.leb_le _ _) Hin), (proj2 (N.leb_le _ _) Hlen), Hmap.
  cbn [andb]. change (file_bytes _ _) with (page_bytes (ln_cache L) (m_page m)). set (bytes' := splice _ _ _).
  assert (length bytes' = page_nat) as Hl'.
  { unfold bytes'. rewrite length_splice; [done|]. unfold lenN at 2. by rewrite Hpl, page_nat_N. }
  destruct V as [(I & O & B) _]. eexists. split; [done|]. split; [done|]. split.
  - split; [|by apply (vf_ok_cache L); [|apply lens_same|]].
    split; [by apply (poke_inv _ _ m _ bytes')|]. split; [exact O|exact B].
  - intros b k Hal. by apply (poke_views _ (active_list (vf_active v) ++ rest)).
Qed.

(** A store changes nothing, or there is a file at its page. *)
Lemma guest_store_hits L v offset bytes : vf_ok L v ->
  let page := offset / PAGE_SIZE * PAGE_SIZE in
  guest_store v offset bytes L = L \/ exists m sp, vf_active v !! page = Some m /\
    vf_specs v !! page = Some sp /\ offset - page + lenN bytes <= PAGE_SIZE.
Proof.
  intros Hok page. unfold guest_store. fold page. destruct (vf_window v) as [[base len]|] eqn:Hw; [|by left].
  destruct (_ && _) eqn:Hg; [|by left]. apply andb_true_iff in Hg as [Hin%N.leb_le Hlen%N.leb_le].
  destruct (ln_map L !! (base + page)) as [f|] eqn:Hf; [|by left]. right.
  destruct (vf_active v !! page) as [m|] eqn:Hm.
  - destruct (ok_active _ _ Hok _ _ Hm) as (sp & _ & _ & Hsp & _). by exists m, sp.
  - rewrite (ok_placeholder _ _ Hok base len page) in Hf; [done|done|unfold PAGE_SIZE in Hin; lia| |done].
    apply N.Div0.mod_mul.
Qed.

Lemma guest_store_good n L v rest offset bytes :
  vgood n L v rest -> store_allowed v offset ->
  let page := offset / PAGE_SIZE * PAGE_SIZE in
  vgood n (guest_store v offset bytes L) v rest /\
  store_result L v page (offset - page) bytes (guest_store v offset bytes L).
Proof.
  intros V Hal page. destruct (guest_store_hits L v offset bytes (proj2 V)) as [->|(m & sp & Hm & Hsp & Hlen)].
  - split; [done|constructor].
  - unfold store_allowed in Hal. rewrite Hsp in Hal.
    destruct (guest_store_active n L v rest offset bytes sp m) as (c' & -> & Hbr & V' & Hv); try done.
    split; [done|]. by eapply store_file.
Qed.

End window.
