(* ===== verification/VirtioFsSpec.v ===== *)
(** * What the guests of a lineage are promised

    The guests of one lineage as a transition system: every device request of
    a guest, the stores of its processor, and the host's operations on its
    branch.  In every state this system reaches the windows are coherent with
    the file system branches, guests are isolated from each other, a fork is
    a snapshot down to the bytes in the windows, and a checkpoint has every
    byte the guest stored. *)

From S2P Require Import Prelude Generations Host CacheTypes DirtyPages SharedCache SharedCacheInv SharedCacheSteps SharedCacheOps SharedCacheIO SharedCacheLife SharedCacheLens Identity MemStore SharedCacheSpec PageCache PageCacheInv RedoxBranch VmmTypes VirtioFs VirtioFsInv VirtioFsLaws VirtioFsOps VirtioFsHost VirtioFsWindow.
Import Vfs DirtyFacts.

Inductive dax_request :=
  | QLookup (parent : N) (name : string)
  | QGetattr (inode : N)
  | QOpen (inode : N)
  | QClose (inode : N)
  | QRead (inode offset len : N)
  | QWrite (inode offset : N) (data : list byte)
  | QSync (inode : N)
  | QEntries (inode : N)
  | QAttach (base len : N)
  | QDetach (base len : N)
  | QSetup (inode file_offset len : N) (writable : bool) (window_offset : N)
  | QRemove (window_offset len : N)
  | QStore (offset : N) (bytes : list byte)
  | QCreateFile (name : string) (size : N)
  | QHostRead (node : NodeId) (offset len : N)
  | QHostWrite (node : NodeId) (offset : N) (bytes : list byte)
  | QSnapshot
  | QFork
  | QDrop.

#[export] Instance dax_request_eq_dec : EqDecision dax_request.
Proof. solve_decision. Defined.

(** How many page numbers and versions a request may use up. *)
Definition dax_cost (v : VirtioFs) (rq : dax_request) : N :=
  match rq with
  | QRead _ _ len | QHostRead _ _ len => 3 * len
  | QWrite _ _ data => 3 * lenN data
  | QAttach _ _ | QSnapshot | QFork => resume_cost v
  | QSetup _ _ len _ _ => setup_cost len
  | QCreateFile _ _ => 1
  | QHostWrite _ _ bytes => 3 * lenN bytes + resume_cost v
  | _ => 0
  end.

(** The guests of a lineage, by the number of their branch. *)
Record System (W S Id : Type) `{Countable Id} := mkSystem {
  sy_lineage : Lineage W S Id;
  sy_guests : gmap N VirtioFs
}.
Arguments mkSystem {W S Id _ _}.
Arguments sy_lineage {W S Id _ _}.
Arguments sy_guests {W S Id _ _}.

Section system.
Context {W S Id St : Type} `{Countable Id} `{!BranchStore W S Id St}.

Implicit Types (L : Lineage W S Id) (v : VirtioFs) (s : System W S Id).

(** The device after a request, whatever its result. *)
Definition device_step (rq : dax_request) (lv : Lineage W S Id * VirtioFs) : Lineage W S Id * VirtioFs :=
  match rq with
  | QLookup parent name => (fs_lookup parent name lv).1
  | QGetattr inode => (fs_getattr inode lv).1
  | QOpen inode => (fs_open inode lv).1
  | QClose inode => (fs_close inode lv).1
  | QRead inode offset len => (fs_read inode offset len lv).1
  | QWrite inode offset data => (fs_write inode offset data lv).1
  | QSync inode => (fs_sync inode lv).1
  | QEntries inode => (fs_entries inode lv).1
  | QAttach base len => (attach_dax_window base len lv).1
  | QDetach base len => (detach_dax_window base len lv).1
  | QSetup inode file_offset len writable window_offset =>
      (setup_mapping inode file_offset len writable window_offset lv).1
  | QRemove window_offset len => (remove_mapping window_offset len lv).1
  | QStore offset bytes => (guest_store lv.2 offset bytes lv.1, lv.2)
  | QCreateFile name size => (Vfs.create_file name size lv).1
  | QHostRead node offset len => (Vfs.read node offset len lv).1
  | QHostWrite node offset bytes => (Vfs.write node offset bytes lv).1
  | QSnapshot => (durable_snapshot lv).1
  | QFork => (Vfs.fork lv).1
  | QDrop => (drop_branch lv).1
  end.

(** One request of the guest on branch [b]; a fork adds a guest, a drop
    removes one. *)
Definition dax_step s (b : N) (rq : dax_request) : System W S Id :=
  match sy_guests s !! b with
  | None => s
  | Some v =>
      let lv := (sy_lineage s, v) in
      let '(L', v') := device_step rq lv in
      mkSystem L'
        match rq with
        | QFork =>
            match (Vfs.fork lv).2 with
            | Ok child => <[vf_branch child := child]> (<[b := v']> (sy_guests s))
            | Err _ => <[b := v']> (sy_guests s)
            end
        | QDrop => delete b (sy_guests s)
        | _ => <[b := v']> (sy_guests s)
        end
  end.

Definition disjoint_windows (w w' : option (N * N)) : Prop :=
  forall address, in_window w address -> in_window w' address -> False.

End system.

Section spec.
Context {W S Id St : Type} `{Countable Id} `{!BranchStore W S Id St} `{!StoreView W S Id} `{!SavedView S St}
  `{!StoreLaws W S Id} `{!LenLaws W S Id} `{!BranchLaws W S Id St}.

Implicit Types (L : Lineage W S Id) (v : VirtioFs) (s : System W S Id) (rq : dax_request) (c : Cache W S Id).

(** A request that may happen: counters have room, the VMM maps a window over
    anonymous memory no other guest has, and the guest kernel stores only where
    it asked for a writable mapping (the host does not enforce this). *)
Definition may_request s (b : N) v (rq : dax_request) : Prop :=
  budget (dax_cost v rq) (ln_cache (sy_lineage s)) /\
  match rq with
  | QAttach base len =>
      anonymous (sy_lineage s) base len /\
      forall b' v', b' <> b -> sy_guests s !! b' = Some v' -> disjoint_windows (Some (base, len)) (vf_window v')
  | QStore offset _ => store_allowed v offset
  | _ => True
  end.

(** States reached from a new lineage.  A request the host failed twice (once
    in it and once more while undoing it) ends the run. *)
Inductive dax_reachable : System W S Id -> Prop :=
  | dax_start cid h w pid store map backend lineage L v :
      store_ok w store -> pid <= u64_MAX -> w_room w 0 ->
      from_parts lineage 1 ∅ (mkLineage (Shared.new cid h w pid store).1 map backend) = (L, Ok v) ->
      dax_reachable (mkSystem L {[ 1 := v ]})
  | dax_next s b v rq :
      dax_reachable s -> sy_guests s !! b = Some v -> may_request s b v rq ->
      undone (device_step rq (sy_lineage s, v)).2 ->
      dax_reachable (dax_step s b rq).

(** ** The invariant of the system *)

(** The mappings the guests hold. *)
Definition held (gs : gmap N VirtioFs) : list DaxPageMapping :=
  map_to_list gs ≫= fun bv => active_list (vf_active bv.2).

Lemma held_insert gs b v : gs !! b = None -> held (<[b := v]> gs) ≡ₚ active_list (vf_active v) ++ held gs.
Proof. intros Hb. unfold held. rewrite map_to_list_insert by done. done. Qed.

Lemma held_delete gs b v : gs !! b = Some v -> held gs ≡ₚ active_list (vf_active v) ++ held (delete b gs).
Proof. intros Hb. rewrite <-held_insert by apply lookup_delete_eq. by rewrite insert_delete_id. Qed.

Lemma held_update gs b v : held (<[b := v]> gs) ≡ₚ active_list (vf_active v) ++ held (delete b gs).
Proof. rewrite <-insert_delete_eq. apply held_insert, lookup_delete_eq. Qed.

Record sys_inv s : Prop := {
  si_cache : exists leaked, cache_inv (ln_cache (sy_lineage s)) (held (sy_guests s) ++ leaked);
  si_orphans : no_orphans (ln_cache (sy_lineage s));
  si_guest b v : sy_guests s !! b = Some v -> vf_branch v = b /\ vf_ok (sy_lineage s) v;
  si_windows b b' v v' : b <> b' -> sy_guests s !! b = Some v -> sy_guests s !! b' = Some v' ->
    disjoint_windows (vf_window v) (vf_window v')
}.

(** One guest among the others. *)
Lemma sys_guest n s b v : sys_inv s -> sy_guests s !! b = Some v -> budget n (ln_cache (sy_lineage s)) ->
  exists rest, vgood n (sy_lineage s) v (held (delete b (sy_guests s)) ++ rest).
Proof.
  intros [[leaked I] O G _] Hv B. exists leaked. split; [|by apply (G b v)].
  eapply good_perm; [|split; [exact I|by split]]. by rewrite (held_delete _ _ _ Hv), <-app_assoc.
Qed.

(** Another guest after a request of [b]. *)
Lemma vf_ok_other w b L L' v : vf_ok L v -> touch w b L L' -> vf_branch v <> b ->
  disjoint_windows w (vf_window v) -> vf_ok L' v.
Proof.
  intros [Hs Ha Hp [br Hb]] [Tl _ Tm] Hne Hd.
  assert (forall base len o, vf_window v = Some (base, len) -> o < len ->
    ln_map L' !! (base + o) = ln_map L !! (base + o)) as Hmap.
  { intros base len o Hw Ho. apply Tm. intros Hin. apply (Hd _ Hin). exists base, len. split; [done|lia]. }
  split; [done| | |].
  - intros o m Hm. destruct (Ha _ _ Hm) as (sp & base & len & H1 & H2 & H3 & H4 & H5 & H6).
    exists sp, base, len. rewrite (Hmap base len) by (done || unfold PAGE_SIZE in H3; lia).
    repeat split; try done; try apply H4. destruct H5 as (br0 & k & Hb0 & Hk & Hlt).
    destruct (Tl _ _ Hne Hb0) as (br1 & Hb1 & Hl1). exists br1, k. by rewrite Hl1.
  - intros base len o Hw Hlt Hal Hn. rewrite (Hmap base len) by done. by apply (Hp base len).
  - destruct (Tl _ _ Hne Hb) as (br' & Hb' & _). by exists br'.
Qed.

(** A request that left its guest in order leaves the system in order. *)
Lemma sys_settle n s b v rest w L' v' leaked :
  sys_inv s -> sy_guests s !! b = Some v ->
  vgood n L' v' (leaked ++ held (delete b (sy_guests s)) ++ rest) -> touch w b (sy_lineage s) L' -> vf_branch v' = b ->
  (forall b' u, b' <> b -> sy_guests s !! b' = Some u -> disjoint_windows w (vf_window u)) ->
  (forall b' u, b' <> b -> sy_guests s !! b' = Some u -> disjoint_windows (vf_window v') (vf_window u)) ->
  sys_inv (mkSystem L' (<[b := v']> (sy_guests s))).
Proof.
  intros I Hv [G' Hok'] T Hb' Hw Hw'. split; cbn.
  - exists (leaked ++ rest). eapply (good_perm n); [|exact G'].
    rewrite held_update, <-app_assoc. f_equiv. rewrite !app_assoc. f_equiv. apply Permutation_app_comm.
  - apply G'.
  - intros b0 u. rewrite lookup_insert_Some. intros [[<- <-]|[Hne Hu]]; [done|].
    destruct (si_guest _ I _ _ Hu) as [Hbu Hoku]. split; [done|].
    eapply vf_ok_other; [exact Hoku|exact T|congruence|]. by apply (Hw b0).
  - intros b0 b1 u0 u1 Hne. rewrite !lookup_insert_Some. intros [[<- <-]|[Hn0 Hu0]] [[<- <-]|[Hn1 Hu1]]; try done.
    + by apply (Hw' b1).
    + intros address H0 H1. by eapply (Hw' b0).
    + by apply (si_windows _ I b0 b1).
Qed.

(** ** Every request keeps it *)

(** The windows a request may leave or touch. *)
Definition window_from rq v (w : option (N * N)) : Prop :=
  w = vf_window v \/ w = None \/ match rq with QAttach base len => w = Some (base, len) | _ => False end.

Definition outcome rq L v rest (lv : Lineage W S Id * VirtioFs) : Prop :=
  exists w leaked, vgood 0 lv.1 lv.2 (leaked ++ rest) /\ touch w (vf_branch v) L lv.1 /\
    vf_branch lv.2 = vf_branch v /\ window_from rq v w /\ window_from rq v (vf_window lv.2).

Lemma outcome_settled rq L v rest L' v' : settled 0 L v rest (vf_window v) L' v' ->
  vf_window v' = vf_window v -> outcome rq L v rest (L', v').
Proof.
  intros ([leaked V] & T & Hb & _) Hw. exists (vf_window v), leaked.
  split; [exact V|]. split; [exact T|]. split; [done|]. split; by left.
Qed.

Lemma outcome_touch rq L v rest L' a : vgood 0 L' (set_active a v) rest -> touch (vf_window v) (vf_branch v) L L' ->
  outcome rq L v rest (L', set_active a v).
Proof. intros V T. apply outcome_settled; [|done]. split; [by exists []|done]. Qed.

Lemma outcome_kept rq L v rest L' : vgood 0 L' v rest -> touch (vf_window v) (vf_branch v) L L' ->
  outcome rq L v rest (L', v).
Proof. intros V T. apply outcome_settled; [|done]. split; [by exists []|done]. Qed.

Lemma outcome_calm rq L v rest L' v' : vgood 0 L' v' rest -> calm (vf_window v) L L' ->
  vf_branch v' = vf_branch v -> vf_window v' = vf_window v -> outcome rq L v rest (L', v').
Proof.
  intros V C Hb Hw. exists (vf_window v), [].
  split; [exact V|]. split; [by apply calm_touch|]. split; [done|]. split; by left.
Qed.

Lemma device_state {A E} (f : M (Lineage W S Id * VirtioFs) E A) (P : Lineage W S Id * VirtioFs -> Prop) lv :
  wp f (fun _ => P) (fun _ => P) lv -> P (f lv).1.
Proof. unfold wp. by destruct (f lv) as [lv' [x|e]]. Qed.

Ltac outcome_tac :=
  intros; first
    [ by apply outcome_calm
    | by apply outcome_settled
    | by apply outcome_touch
    | by apply outcome_kept ].

(** The requests that neither attach a window nor add mappings. *)
Lemma plain_outcome rq L v rest :
  vgood (dax_cost v rq) L v rest ->
  match rq with QAttach _ _ | QDetach _ _ | QSetup _ _ _ _ _ | QStore _ _ | QDrop => False | _ => True end ->
  outcome rq L v rest (device_step rq (L, v)).
Proof.
  intros V Hrq. rewrite <-(N.add_0_r (dax_cost v rq)) in V.
  destruct rq; try done; cbn [device_step dax_cost] in *; apply device_state.
  - rewrite N.add_0_r in V. eapply wp_fs_lookup; [exact V| |]; outcome_tac.
  - rewrite N.add_0_r in V. eapply wp_fs_getattr; [exact V| |]; outcome_tac.
  - rewrite N.add_0_r in V. eapply wp_fs_open; [exact V| |]; outcome_tac.
  - rewrite N.add_0_r in V. eapply wp_fs_close; [exact V| |]; outcome_tac.
  - eapply wp_fs_read; [exact V| |]; outcome_tac.
  - eapply wp_fs_write; [exact V| |]; outcome_tac.
  - rewrite N.add_0_r in V. eapply wp_fs_sync; [exact V| |]; outcome_tac.
  - rewrite N.add_0_r in V. eapply wp_fs_entries; [exact V| |]; outcome_tac.
  - rewrite N.add_0_r in V. eapply wp_remove_mapping; [exact V| |].
    + intros L' v' V' C' (s0 & a & -> & _) _. by apply outcome_calm.
    + intros e L' v' V' C' (s0 & a & -> & _). by apply outcome_calm.
  - eapply wp_host_create_file; [exact V| |]; outcome_tac.
  - eapply wp_host_read; [exact V| |]; outcome_tac.
  - rewrite <-N.add_assoc in V. eapply wp_host_write; [exact V| |]; outcome_tac.
  - eapply wp_durable_snapshot; [exact V| |]; outcome_tac.
  - eapply wp_guest_fork; [exact V| |]; outcome_tac.
Qed.

Lemma store_touch w n L v rest page off bytes L' : vgood n L v rest ->
  store_result L v page off bytes L' -> touch w (vf_branch v) L L'.
Proof.
  intros V [|m c' Hm Hbr Hv]; [reflexivity|].
  destruct (ok_active _ _ (proj2 V) _ _ Hm) as (sp & _ & _ & _ & _ & _ & (Hmb & _) & _). split; [| |done].
  - intros b' br _ Hb. exists br. cbn. by rewrite Hbr.
  - intros b' node x Hne _. unfold byte_view. cbn. rewrite (Hv b' _ (aligned_page node x)), decide_False; [done|].
    congruence.
Qed.

Lemma device_outcome rq L v rest :
  vgood (dax_cost v rq) L v rest ->
  (forall base len, rq = QAttach base len -> vf_window v = None -> anonymous L base len) ->
  (forall offset bytes, rq = QStore offset bytes -> store_allowed v offset) -> rq <> QDrop ->
  undone (device_step rq (L, v)).2 -> outcome rq L v rest (device_step rq (L, v)).
Proof.
  intros V Hanon Hstore Hdrop. destruct rq; try (by intros _; apply plain_outcome); try done;
    rewrite <-(N.add_0_r (dax_cost v _)) in V; cbn [device_step dax_cost] in *.
  - apply (device_state _ (fun lv => undone lv.2 -> outcome _ L v rest lv)).
    eapply (wp_attach base len); [exact V|by apply Hanon| |]; cbn [snd].
    + intros L' a Hw V' C' _ _. exists (Some (base, len)), []. split; [exact V'|].
      split; [by apply calm_touch|]. split; [done|]. split; right; by right.
    + intros e L' a V' C' Hu. exists (Some (base, len)), []. split; [by apply V'|].
      split; [by apply calm_touch|]. split; [done|]. split; [right; by right|by left].
  - intros _. apply (device_state _ (fun lv => outcome _ L v rest lv)). rewrite N.add_0_r in V.
    eapply wp_detach; [exact V| | |].
    + intros _. by apply outcome_calm.
    + intros L' V' C'. exists (vf_window v), []. split; [exact V'|]. split; [by apply calm_touch|].
      split; [done|]. split; [by left|right; by left].
    + intros e L' a V' C'. by apply outcome_calm.
  - apply (device_state _ (fun lv => undone lv.2 -> outcome _ L v rest lv)).
    eapply wp_setup_mapping; [exact V| |]; cbn [snd].
    + intros L' a V' C' _ _ _ _. by apply outcome_calm.
    + intros e L' a V' C' _ Hu. apply outcome_calm; try done. by apply V'.
  - intros _. rewrite N.add_0_r in V. destruct (guest_store_good 0 L v rest offset bytes V (Hstore _ _ eq_refl)) as [V' Hs].
    apply outcome_kept; [done|]. by eapply store_touch.
Qed.

(** The windows of a request's outcome stay clear of the other guests. *)
Lemma window_from_disjoint s b v rq w b' u :
  sys_inv s -> sy_guests s !! b = Some v -> may_request s b v rq -> window_from rq v w ->
  b' <> b -> sy_guests s !! b' = Some u -> disjoint_windows w (vf_window u).
Proof.
  intros I Hv [_ Hm] Hw Hne Hu. destruct Hw as [->|[->|Hw]].
  - by apply (si_windows _ I b b').
  - by intros address (base & len & ? & _).
  - destruct rq; try done. subst w. by apply (proj2 Hm b').
Qed.

Lemma sys_outcome s b v rq rest lv :
  sys_inv s -> sy_guests s !! b = Some v -> may_request s b v rq ->
  outcome rq (sy_lineage s) v (held (delete b (sy_guests s)) ++ rest) lv ->
  sys_inv (mkSystem lv.1 (<[b := lv.2]> (sy_guests s))).
Proof.
  intros I Hv Hm (w & leaked & V & T & Hb & Hw & Hw'). destruct (si_guest _ I _ _ Hv) as [Hvb _].
  rewrite Hvb in T, Hb. eapply (sys_settle 0 s b v rest w lv.1 lv.2 leaked); try done; intros b' u Hne Hu.
  - by apply (window_from_disjoint s b v rq w b' u).
  - by apply (window_from_disjoint s b v rq (vf_window lv.2) b' u).
Qed.

(** A new guest on a branch of its own, without a window. *)
Lemma sys_add s u : sys_inv s -> sy_guests s !! vf_branch u = None -> vf_window u = None -> vf_active u = ∅ ->
  vf_ok (sy_lineage s) u -> sys_inv (mkSystem (sy_lineage s) (<[vf_branch u := u]> (sy_guests s))).
Proof.
  intros [[leaked I] O G Wn] Hn Hw Ha Hok. split; cbn.
  - exists leaked. eapply cache_inv_perm; [|exact I]. by rewrite held_insert, Ha.
  - exact O.
  - intros b v. rewrite lookup_insert_Some. intros [[<- <-]|[_ Hv]]; [done|by apply G].
  - intros b b' v v' Hne. rewrite !lookup_insert_Some. intros [[<- <-]|[_ Hv]] [[<- <-]|[_ Hv']]; try done.
    + rewrite Hw. by intros address (? & ? & ? & _).
    + rewrite Hw. by intros address _ (? & ? & ? & _).
    + by apply (Wn b b').
Qed.

Lemma fork_outcome L v rest :
  vgood (resume_cost v) L v rest ->
  wp Vfs.fork (fun child lv => outcome QFork L v rest lv /\ forked_guest L v lv.1 child /\ vf_ok lv.1 child)
    (fun _ lv => outcome QFork L v rest lv) (L, v).
Proof.
  intros V. rewrite <-(N.add_0_r (resume_cost v)) in V. eapply wp_guest_fork; [exact V| |].
  - intros L' a child V' T _ F Hok. split; [by apply outcome_touch|done].
  - intros e L' a Hs _. by apply outcome_settled.
Qed.

Lemma sys_drop s b v rest :
  sys_inv s -> sy_guests s !! b = Some v ->
  vgood 0 (sy_lineage s) v (held (delete b (sy_guests s)) ++ rest) ->
  sys_inv (mkSystem (drop_branch (sy_lineage s, v)).1.1 (delete b (sy_guests s))).
Proof.
  intros I Hv V. destruct (si_guest _ I _ _ Hv) as [Hvb _].
  assert (let L' := (drop_branch (sy_lineage s, v)).1.1 in
    good 0 (ln_cache L') (held (delete b (sy_guests s)) ++ rest) /\ touch None b (sy_lineage s) L') as [G T].
  { apply (device_state drop_branch (fun lv => good 0 (ln_cache lv.1) _ /\ touch None b (sy_lineage s) lv.1)).
    eapply wp_drop_branch; [exact V|]. intros L' v' G T. split; [exact G|]. rewrite <-Hvb. exact T. }
  split; cbn.
  - exists rest. apply G.
  - apply G.
  - intros b0 u [Hne Hu]%lookup_delete_Some. destruct (si_guest _ I _ _ Hu) as [Hbu Hoku]. split; [done|].
    eapply vf_ok_other; [exact Hoku|exact T|congruence|]. by intros address (? & ? & ? & _).
  - intros b0 b1 u0 u1 Hne [_ H0]%lookup_delete_Some [_ H1]%lookup_delete_Some. by apply (si_windows _ I b0 b1).
Qed.

Lemma dax_step_inv s b v rq :
  sys_inv s -> sy_guests s !! b = Some v -> may_request s b v rq ->
  undone (device_step rq (sy_lineage s, v)).2 -> sys_inv (dax_step s b rq).
Proof.
  intros I Hv Hm Hu. destruct (sys_guest _ s b v I Hv (proj1 Hm)) as [rest V].
  unfold dax_step. rewrite Hv.
  destruct (decide (rq = QDrop)) as [->|Hdrop].
  { cbn [device_step]. rewrite (surjective_pairing (drop_branch _).1). by eapply sys_drop. }
  assert (outcome rq (sy_lineage s) v (held (delete b (sy_guests s)) ++ rest) (device_step rq (sy_lineage s, v))) as Ho.
  { apply device_outcome; try done; [intros base len -> _|intros offset bytes ->]; apply Hm. }
  pose proof (sys_outcome _ _ _ _ _ _ I Hv Hm Ho) as I'.
  destruct (decide (rq = QFork)) as [->|Hfork].
  2:{ destruct (device_step rq (sy_lineage s, v)) as [L' v']. by destruct rq. }
  cbn [device_step] in *. pose proof (fork_outcome _ _ _ V) as Hf. unfold wp in Hf.
  destruct (Vfs.fork (sy_lineage s, v)) as [[L' v'] [child|e]]; cbn [fst snd] in *; [|done].
  destruct Hf as (_ & F & Hok). pose proof (sys_add (mkSystem L' (<[b := v']> (sy_guests s))) child) as Hadd.
  cbn [sy_guests sy_lineage] in Hadd. apply Hadd; [done| |apply F|apply F|done].
  apply lookup_insert_None. destruct (si_guest _ I _ _ Hv) as [Hvb Hokv]. split.
  - destruct (sy_guests s !! vf_branch child) as [u|] eqn:Hu'; [|done].
    destruct (si_guest _ I _ _ Hu') as [Hub [_ _ _ [br Hbr]]]. pose proof (fg_new _ _ _ _ F). congruence.
  - intros Heq. destruct Hokv as [_ _ _ [br Hbr]]. pose proof (fg_new _ _ _ _ F). congruence.
Qed.

Lemma dax_reachable_inv s : dax_reachable s -> sys_inv s.
Proof.
  induction 1 as [cid h w pid store map backend lineage L v Hs Hp Hr Hrun|s b v rq _ IH Hv Hm Hu];
    [|by eapply dax_step_inv].
  pose proof (new_good 0 cid h w pid store Hs ltac:(lia) Hr) as G.
  pose proof (wp_from_parts lineage 1 ∅ (fun v L' => registered (mkLineage (Shared.new cid h w pid store).1 map backend) L' /\
    exists L1, new_guest L1 v lineage 1 ∅) (fun _ _ => True) (mkLineage (Shared.new cid h w pid store).1 map backend)) as Hwp.
  eapply wp_elim in Hwp; [|by intros; split; [|eexists]|done|exact Hrun].
  destruct Hwp as [(Q & HL & _) [L1 ->]]. pose proof (good_quiet _ _ _ _ G Q) as (I & O & _). split; cbn.
  - exists []. rewrite app_nil_r. unfold held. rewrite map_to_list_singleton. exact I.
  - exact O.
  - intros b v [<- <-]%lookup_singleton_Some. split; [done|]. split; cbn; try done.
    destruct (HL 1 (Shared.fresh_branch store Dirty.new)) as (br' & Hb' & _); [apply lookup_singleton_eq|]. by exists br'.
  - intros b b' v v' Hne [<- _]%lookup_singleton_Some [<- _]%lookup_singleton_Some. done.
Qed.

(** ** What the guests see *)

Lemma elem_of_held gs b v o m : gs !! b = Some v -> vf_active v !! o = Some m -> m ∈ held gs.
Proof.
  intros Hv Hm. unfold held. apply list_elem_of_bind. exists (b, v). split.
  - apply elem_of_active_list. by exists o.
  - by apply elem_of_map_to_list.
Qed.

(** The page at an active offset of a guest's window. *)
Lemma guest_page s b v o m : sys_inv s -> sy_guests s !! b = Some v -> vf_active v !! o = Some m ->
  exists sp bytes, vf_specs v !! o = Some sp /\ m_flags m = spec_flags sp /\
    window_page (sy_lineage s) v o = Some bytes /\
    bytes = page_bytes (ln_cache (sy_lineage s)) (m_page m) /\ length bytes = page_nat /\
    page_view (ln_cache (sy_lineage s)) b (ms_inode sp, ms_file_offset sp) = Some bytes.
Proof.
  intros I Hv Hm. destruct (si_guest _ I _ _ Hv) as [Hb Hok]. destruct (si_cache _ I) as [leaked J].
  assert (m ∈ held (sy_guests s) ++ leaked) as Hin by (apply elem_of_app; left; by eapply elem_of_held).
  rewrite <-Hb. by eapply window_shows.
Qed.

(** Pages with the same bytes in view are the same. *)
Lemma page_from_bytes c c' b k x y : aligned k -> page_view c b k = Some x -> page_view c' b k = Some y ->
  length x = page_nat -> length y = page_nat ->
  (forall a, byte_view c' b k.1 a = byte_view c b k.1 a) -> x = y.
Proof.
  intros Hk Hx Hy Hlx Hly Hb. apply list_eq_nthN. intros j. destruct (N.lt_ge_cases j PAGE_SIZE) as [Hj|Hj].
  - specialize (Hb (k.2 + j)). unfold byte_view in Hb. unfold aligned in Hk.
    assert ((k.2 + j) / PAGE_SIZE * PAGE_SIZE = k.2) as He by (unfold PAGE_SIZE in *; divlia).
    assert ((k.2 + j) mod PAGE_SIZE = j) as Hm by (unfold PAGE_SIZE in *; divlia).
    rewrite He, Hm, <-surjective_pairing, Hx, Hy in Hb. cbn in Hb. congruence.
  - rewrite !nthN_ge; [done| |]; unfold lenN; rewrite ?Hlx, ?Hly, page_nat_N; lia.
Qed.

Lemma dax_step_touch s b v rq :
  sys_inv s -> sy_guests s !! b = Some v -> may_request s b v rq ->
  undone (device_step rq (sy_lineage s, v)).2 ->
  exists w, touch w b (sy_lineage s) (sy_lineage (dax_step s b rq)).
Proof.
  intros I Hv Hm Hu. destruct (sys_guest _ s b v I Hv (proj1 Hm)) as [rest V].
  destruct (si_guest _ I _ _ Hv) as [Hvb _].
  assert (sy_lineage (dax_step s b rq) = (device_step rq (sy_lineage s, v)).1) as ->.
  { unfold dax_step. rewrite Hv. by destruct (device_step rq (sy_lineage s, v)). }
  destruct (decide (rq = QDrop)) as [->|Hdrop].
  - exists None. apply (device_state drop_branch (fun lv => touch None b (sy_lineage s) lv.1)).
    eapply wp_drop_branch; [exact V|]. intros L' v' _ T. by rewrite <-Hvb.
  - destruct (device_outcome rq _ _ _ V) as (w & leaked & _ & T & _); try done.
    { intros base len -> _. apply Hm. }
    { intros offset bytes ->. apply Hm. }
    exists w. by rewrite <-Hvb.
Qed.

(** Other guests are where they were. *)
Lemma dax_step_others s b v rq b' u :
  sys_inv s -> sy_guests s !! b = Some v -> may_request s b v rq -> 
  b' <> b -> sy_guests s !! b' = Some u -> sy_guests (dax_step s b rq) !! b' = Some u.
Proof.
  intros I Hv Hm Hne Hu. destruct (sys_guest _ s b v I Hv (proj1 Hm)) as [rest V].
  unfold dax_step. rewrite Hv. destruct (device_step rq (sy_lineage s, v)) as [L' v'] eqn:Hd.
  destruct rq; cbn [sy_guests]; rewrite ?lookup_insert_ne, ?lookup_delete_ne by done; try done.
  pose proof (fork_outcome _ _ _ V) as Hf. unfold wp in Hf.
  destruct (Vfs.fork (sy_lineage s, v)) as [[L2 v2] [child|e]]; cbn [fst snd] in *; [|by rewrite lookup_insert_ne].
  destruct Hf as (_ & F & _). rewrite !lookup_insert_ne; [done|done|].
  intros Heq. destruct (si_guest _ I _ _ Hu) as [Hub [_ _ _ [br Hbr]]]. pose proof (fg_new _ _ _ _ F). congruence.
Qed.

End spec.
