(* ===== verification/VirtioFsTheorems.v ===== *)
(** * Theorems about the guests of a lineage

    Coherence of the windows, isolation of the guests, forks as snapshots,
    complete checkpoints, and what mapping requests and stores do. *)

From S2P Require Import Prelude Generations Host CacheTypes DirtyPages SharedCache SharedCacheInv SharedCacheSteps SharedCacheOps SharedCacheIO SharedCacheLife SharedCacheLens Identity MemStore SharedCacheSpec PageCache PageCacheInv RedoxBranch VmmTypes VirtioFs VirtioFsInv VirtioFsLaws VirtioFsOps VirtioFsHost VirtioFsWindow VirtioFsSpec.
Import Vfs DirtyFacts.

Section theorems.
Context {W S Id St : Type} `{Countable Id} `{!BranchStore W S Id St} `{!StoreView W S Id} `{!SavedView S St}
  `{!StoreLaws W S Id} `{!LenLaws W S Id} `{!BranchLaws W S Id St}.

Implicit Types (L : Lineage W S Id) (v : VirtioFs) (s : System W S Id) (rq : dax_request) (c : Cache W S Id).

(** A page of the window: inside it and page aligned. *)
Definition page_of v (page : N) : Prop :=
  exists base len, vf_window v = Some (base, len) /\ page < len /\ page mod PAGE_SIZE = 0.

Lemma shown_active L v page bytes : vf_ok L v -> page_of v page -> window_page L v page = Some bytes ->
  exists m, vf_active v !! page = Some m.
Proof.
  intros Hok (base & len & Hw & Hlt & Hal) Hp. destruct (vf_active v !! page) as [m|] eqn:Hm; [by exists m|].
  by rewrite (window_placeholder L v page base len) in Hp.
Qed.

(** C14. In every state the guests of a lineage can reach, without a failed
    mapping request whose undoing failed too ([undone]) and with guests that
    store only where they asked for a writable mapping, a page of a guest's DAX
    window either is an anonymous placeholder, or shows exactly the bytes
    the guest's own branch sees at the file page the guest asked for there;
    and when the guest may write it, no other branch and no other file page is
    backed by that memory. *)
Theorem dax_windows_coherent s b v page :
  dax_reachable s -> sy_guests s !! b = Some v -> page_of v page ->
  match window_page (sy_lineage s) v page with
  | None => vf_active v !! page = None
  | Some bytes => exists sp m, vf_specs v !! page = Some sp /\ vf_active v !! page = Some m /\
      page_view (ln_cache (sy_lineage s)) b (ms_inode sp, ms_file_offset sp) = Some bytes /\
      (ms_writable sp = true -> forall b' k i p, aligned k -> sees (ln_cache (sy_lineage s)) b' k i ->
        c_pages (ln_cache (sy_lineage s)) !! i = Some p -> cp_backing p = cp_backing (m_page m) ->
        b' = b /\ k = (ms_inode sp, ms_file_offset sp))
  end.
Proof.
  intros I%dax_reachable_inv Hv Hp. destruct (si_guest _ I _ _ Hv) as [Hb Hok].
  destruct (window_page (sy_lineage s) v page) as [bytes|] eqn:Hw.
  - destruct (shown_active _ _ _ _ Hok Hp Hw) as [m Hm].
    destruct (guest_page s b v page m I Hv Hm) as (sp & bytes' & Hsp & Hf & Hw' & _ & _ & Hview).
    assert (bytes' = bytes) as -> by congruence. exists sp, m. split; [done|]. split; [done|]. split; [done|].
    intros Hwr b' k i p Hk Hs Hpg Hback. destruct (si_cache _ I) as [leaked J].
    destruct (ok_active _ _ Hok _ _ Hm) as (sp' & _ & _ & Hsp' & _ & _ & (Hmb & Hmk & _) & _).
    assert (sp' = sp) as -> by congruence. rewrite <-Hb, <-Hmb, <-Hmk.
    eapply writable_private; [exact J| | |exact Hk|exact Hs|exact Hpg|exact Hback].
    + apply elem_of_app. left. by eapply elem_of_held.
    + rewrite Hf. unfold spec_flags. by rewrite Hwr.
  - destruct (vf_active v !! page) as [m|] eqn:Hm; [|done].
    destruct (guest_page s b v page m I Hv Hm) as (sp & bytes' & _ & _ & Hw' & _). congruence.
Qed.

(** C15. Guests of one lineage are isolated: whatever one guest or its host
    requests (reads, writes, stores, mappings, forks, checkpoints, removal),
    every other guest keeps its state, sees the same bytes in every file and
    the same pages in its window.  The guests' kernels store only where they
    asked for a writable mapping, which the host does not enforce, and the run
    has no failed mapping request whose undoing failed too ([undone]). *)
Theorem dax_guests_isolated s b v rq b' u :
  dax_reachable s -> sy_guests s !! b = Some v -> may_request s b v rq ->
  undone (device_step rq (sy_lineage s, v)).2 -> b' <> b -> sy_guests s !! b' = Some u ->
  let s' := dax_step s b rq in
  sy_guests s' !! b' = Some u /\
  (forall node a, byte_view (ln_cache (sy_lineage s')) b' node a = byte_view (ln_cache (sy_lineage s)) b' node a) /\
  (forall page, page_of u page -> window_page (sy_lineage s') u page = window_page (sy_lineage s) u page).
Proof.
  intros I%dax_reachable_inv Hv Hm Hun Hne Hu s'. pose proof (dax_step_inv s b v rq I Hv Hm Hun) as I'.
  pose proof (dax_step_others s b v rq b' u I Hv Hm Hne Hu) as Hu'. fold s' in I', Hu'.
  destruct (dax_step_touch s b v rq I Hv Hm Hun) as [w T]. fold s' in T.
  destruct (si_guest _ I _ _ Hu) as [Hub Hoku]. destruct (si_guest _ I' _ _ Hu') as [_ Hoku'].
  assert (forall node a, byte_view (ln_cache (sy_lineage s')) b' node a = byte_view (ln_cache (sy_lineage s)) b' node a) as Hbytes.
  { intros node a. apply (tc_views _ _ _ _ T); [done|]. rewrite <-Hub. apply Hoku. }
  split; [done|]. split; [done|]. intros page (base & len & Hw & Hlt & Hal).
  destruct (vf_active u !! page) as [m|] eqn:Ha.
  - destruct (guest_page s b' u page m I Hu Ha) as (sp & x & Hsp & _ & -> & _ & Hlx & Hx).
    destruct (guest_page s' b' u page m I' Hu' Ha) as (sp' & y & Hsp' & _ & -> & _ & Hly & Hy).
    assert (sp' = sp) as -> by congruence. f_equal. symmetry.
    eapply page_from_bytes; [|exact Hx|exact Hy|done|done|intros a; apply Hbytes].
    apply (ok_specs _ _ Hoku _ _ Hsp).
  - by rewrite !(window_placeholder _ u page base len).
Qed.

(** The page of an active offset, for one guest among the clients [rest]. *)
Lemma good_page n L v rest o m : vgood n L v rest -> vf_active v !! o = Some m ->
  exists sp bytes, vf_specs v !! o = Some sp /\ window_page L v o = Some bytes /\
    page_view (ln_cache L) (vf_branch v) (ms_inode sp, ms_file_offset sp) = Some bytes.
Proof.
  intros [(I & _) Hok] Hm.
  destruct (window_shows L v _ o m I Hok) as (sp & bytes & H1 & _ & H2 & _ & _ & H3); [|done|by exists sp, bytes].
  apply elem_of_app. left. apply elem_of_active_list. by exists o.
Qed.

(** Two guests whose branches see the same bytes show the same page where both
    show the same mapping. *)
Lemma same_page n n' L L' v v' rest rest' o m m' :
  vgood n L v rest -> vgood n' L' v' rest' -> vf_active v !! o = Some m -> vf_active v' !! o = Some m' ->
  vf_specs v' = vf_specs v ->
  (forall k, aligned k -> page_view (ln_cache L') (vf_branch v') k = page_view (ln_cache L) (vf_branch v) k) ->
  window_page L' v' o = window_page L v o.
Proof.
  intros V V' Hm Hm' Hs Hview. destruct (good_page _ _ _ _ _ _ V Hm) as (sp & x & Hsp & -> & Hx).
  destruct (good_page _ _ _ _ _ _ V' Hm') as (sp' & y & Hsp' & -> & Hy). rewrite Hs in Hsp'.
  assert (sp' = sp) as -> by congruence. rewrite Hview, Hx in Hy; [done|]. apply (ok_specs _ _ (proj2 V) _ _ Hsp).
Qed.

(** What a successful fork leaves: the source as it was, and a child. *)
Lemma fork_run n L v rest L1 v1 child :
  vgood (resume_cost v + n) L v rest -> Vfs.fork (L, v) = ((L1, v1), Ok child) ->
  exists a, v1 = set_active a v /\ vgood n L1 v1 rest /\ shown v a /\ forked_guest L v L1 child /\ vf_ok L1 child.
Proof.
  intros V Hrun. pose proof (wp_guest_fork (fun child lv => exists a, lv.2 = set_active a v /\ vgood n lv.1 lv.2 rest /\
    shown v a /\ forked_guest L v lv.1 child /\ vf_ok lv.1 child) (fun _ _ => True) n L v rest V) as Hwp.
  eapply wp_elim in Hwp; [|intros L' a u V' _ Hs F Hok; by exists a|done|exact Hrun]. exact Hwp.
Qed.

Lemma attach_run n base len L v rest L1 v1 :
  vgood (resume_cost v + n) L v rest -> anonymous L base len ->
  attach_dax_window base len (L, v) = ((L1, v1), Ok tt) ->
  exists a, v1 = set_active a (set_window (Some (base, len)) v) /\ vgood n L1 v1 rest /\
    calm (Some (base, len)) L L1 /\ (forall o sp, vf_specs v !! o = Some sp -> served (ln_cache L1) v a o).
Proof.
  intros V Ha Hrun. pose proof (wp_attach base len (fun _ lv => exists a, lv.2 = set_active a (set_window (Some (base, len)) v) /\
    vgood n lv.1 lv.2 rest /\ calm (Some (base, len)) L lv.1 /\
    (forall o sp, vf_specs v !! o = Some sp -> served (ln_cache lv.1) v a o)) (fun _ _ => True) n L v rest V) as Hwp.
  eapply wp_elim in Hwp; [|done|intros L' a _ V' C' Hs; by exists a|done|exact Hrun]. exact Hwp.
Qed.

(** The child's branch has the files of the source's. *)
Lemma forked_in_file L v L1 child sp : forked_guest L v L1 child -> in_file (ln_cache L) v sp ->
  in_file (ln_cache L1) child sp.
Proof.
  intros F (br & n & Hb & Hn & Hlt). destruct (fg_there _ _ _ _ F) as [br' Hb'].
  exists br', n. split; [done|]. by rewrite (fg_lens _ _ _ _ F br br').
Qed.

(** C16. A fork is a snapshot of what the guest sees.  When [fork] succeeds and
    the child's window is then attached, every page the source's window showed
    is shown again with the same bytes in the source's window and, at the same
    offset, in the child's; and every file page of the child's branch is what
    the source's branch saw when it was forked. *)
Theorem dax_fork_is_snapshot s b v L1 v1 child base len L2 child2 :
  dax_reachable s -> sy_guests s !! b = Some v ->
  budget (resume_cost v + resume_cost v) (ln_cache (sy_lineage s)) ->
  Vfs.fork (sy_lineage s, v) = ((L1, v1), Ok child) -> anonymous L1 base len ->
  attach_dax_window base len (L1, child) = ((L2, child2), Ok tt) ->
  (forall page bytes, page_of v page -> window_page (sy_lineage s) v page = Some bytes ->
    window_page L1 v1 page = Some bytes /\ window_page L2 child2 page = Some bytes) /\
  (forall k, aligned k ->
    page_view (ln_cache L2) (vf_branch child2) k = page_view (ln_cache (sy_lineage s)) b k).
Proof.
  intros I%dax_reachable_inv Hv B Hfork Hanon Hattach. destruct (si_guest _ I _ _ Hv) as [Hb Hok].
  destruct (sys_guest _ s b v I Hv B) as [rest V]. set (ms := held _ ++ rest) in V.
  destruct (fork_run _ _ _ _ _ _ _ V Hfork) as (a & Hv1 & V1 & Hshown & F & Hokc).
  assert (vgood (resume_cost child + 0) L1 child (active_list (vf_active v1) ++ ms)) as Vc.
  { split; [|done]. rewrite (fg_active _ _ _ _ F). unfold resume_cost. rewrite (fg_specs _ _ _ _ F), N.add_0_r.
    apply V1. }
  destruct (attach_run _ _ _ _ _ _ _ _ Vc Hanon Hattach) as (a2 & Hv2 & V2 & C2 & Hserved).
  assert (forall k, aligned k -> page_view (ln_cache L2) (vf_branch child2) k = page_view (ln_cache (sy_lineage s)) b k) as Hview.
  { intros k Hk. rewrite Hv2. cbn. rewrite (proj2 C2), (fg_views _ _ _ _ F) by done. by rewrite Hb. }
  split; [|done]. intros page bytes Hp Hw. destruct (shown_active _ _ _ _ Hok Hp Hw) as [m Hm]. rewrite <-Hw. split.
  - destruct (Hshown page) as [m1 Hm1]; [by exists m|].
    eapply (same_page _ _ _ _ v v1); [exact V|exact V1|exact Hm|by rewrite Hv1|by rewrite Hv1|].
    intros k Hk. rewrite Hv1. by apply (fg_source _ _ _ _ F).
  - destruct (ok_active _ _ Hok _ _ Hm) as (sp & _ & _ & Hsp & _ & _ & _ & Hfile & _).
    destruct (Hserved page sp) as [[m2 Hm2]|(sp' & Hsp' & Hout)]; [by rewrite (fg_specs _ _ _ _ F)| |].
    + eapply (same_page _ _ _ _ v child2); [exact V|exact V2|exact Hm|by rewrite Hv2| |].
      * rewrite Hv2. cbn. apply (fg_specs _ _ _ _ F).
      * rewrite Hb. exact Hview.
    + rewrite (fg_specs _ _ _ _ F) in Hsp'. assert (sp' = sp) as -> by congruence. destruct Hout.
      eapply in_file_kept; [apply C2|]. by eapply forked_in_file.
Qed.

(** All live mappings of the branch are its guest's: none was lost to a failed
    copy. *)
Definition only_guest c v : Prop :=
  forall br id, c_branches c !! vf_branch v = Some br -> active_pages br !! id =
    (let n := live_count (active_list (vf_active v)) (vf_branch v) id in if n =? 0 then None else Some n).

Lemma live_count_app ms ms' b id : live_count (ms ++ ms') b id = live_count ms b id + live_count ms' b id.
Proof. unfold live_count. rewrite filter_app, length_app. lia. Qed.

Lemma only_guest_writer n L v rest k : vgood n L v rest -> only_guest (ln_cache L) v -> ~ writer rest (vf_branch v) k.
Proof.
  intros [(I & _) Hok] Honly (m & Hm & Hmb & _). destruct (ok_branch _ _ Hok) as [br Hb].
  destruct (inv_branch _ _ I _ _ Hb) as [_ (Ha & _)]. specialize (Honly br (cp_id (m_page m)) Hb).
  rewrite Ha, live_count_app in Honly. cbv zeta in Honly.
  assert (0 < live_count rest (vf_branch v) (cp_id (m_page m))) as Hpos.
  { unfold live_count. destruct (filter _ rest) as [|x l] eqn:Hf; [|cbn [length]; lia].
    assert (m ∈ filter (mapped_by (vf_branch v) (cp_id (m_page m))) rest) as Hin by (by apply list_elem_of_filter).
    rewrite Hf in Hin. by apply not_elem_of_nil in Hin. }
  revert Honly. cmp; intros [=]; lia.
Qed.

(** C37. A checkpoint of a running guest has every byte the guest stored through
    mappings it asked to be writable.  In a run as above, when no mapping of the
    branch was lost to a failed read ([only_guest]) and [durable_snapshot]
    succeeds, the saved state records a store that agrees,
    as far as each file reaches, with everything the branch sees, in
    particular with every page in the guest's DAX window; the guest's mappings
    are recorded, and its window shows the same bytes again. *)
Theorem dax_checkpoint_complete s b v L1 v1 snapshot :
  dax_reachable s -> sy_guests s !! b = Some v -> budget (resume_cost v) (ln_cache (sy_lineage s)) ->
  only_guest (ln_cache (sy_lineage s)) v ->
  durable_snapshot (sy_lineage s, v) = ((L1, v1), Ok snapshot) ->
  exists store, s_saves (sn_filesystem snapshot) store /\
    sn_mappings snapshot = durable_spec <$> btree_list (vf_specs v) /\
    (forall k page, aligned k -> page_view (ln_cache (sy_lineage s)) b k = Some page ->
      agree (s_len store k.1) k.2 page (s_content store k)) /\
    (forall page bytes, page_of v page -> window_page (sy_lineage s) v page = Some bytes ->
      window_page L1 v1 page = Some bytes /\
      exists sp, vf_specs v !! page = Some sp /\
        agree (s_len store (ms_inode sp)) (ms_file_offset sp) bytes (s_content store (ms_inode sp, ms_file_offset sp))).
Proof.
  intros I%dax_reachable_inv Hv B Honly Hrun. destruct (si_guest _ I _ _ Hv) as [Hb Hok].
  destruct (sys_guest _ s b v I Hv B) as [rest V]. set (ms := held _ ++ rest) in V. rewrite <-(N.add_0_r (resume_cost v)) in V.
  pose proof (wp_durable_snapshot (fun snap lv => exists st store a, snap = snapshot_of v st /\ lv.2 = set_active a v /\
    vgood 0 lv.1 lv.2 ms /\ calm (vf_window v) (sy_lineage s) lv.1 /\ shown v a /\ s_saves st store /\
    captured (ln_cache (sy_lineage s)) ms (vf_branch v) store) (fun _ _ => True) 0 (sy_lineage s) v ms V) as Hwp.
  eapply wp_elim in Hwp; [|intros st store L' a V' C' Hsh Hs Hcap; by exists st, store, a|done|exact Hrun].
  destruct Hwp as (st & store & a & -> & Hv1 & V1 & C1 & Hsh & Hs & Hcap). cbn in Hv1, V1, C1.
  assert (forall k page, aligned k -> page_view (ln_cache (sy_lineage s)) b k = Some page ->
    agree (s_len store k.1) k.2 page (s_content store k)) as Hall.
  { intros k page Hk Hp. apply Hcap; [done|by rewrite Hb|]. by eapply only_guest_writer. }
  exists store. split; [done|]. split; [done|]. split; [done|]. intros page bytes Hp Hw.
  destruct (shown_active _ _ _ _ Hok Hp Hw) as [m Hm]. destruct (Hsh page) as [m1 Hm1]; [by exists m|]. split.
  - rewrite <-Hw. eapply (same_page _ _ _ _ v v1); [exact V|exact V1|exact Hm|by rewrite Hv1|by rewrite Hv1|].
    intros k Hk. rewrite Hv1. by apply C1.
  - destruct (good_page _ _ _ _ _ _ V Hm) as (sp & x & Hsp & Hx & Hview). exists sp. split; [done|].
    assert (x = bytes) as -> by congruence. rewrite Hb in Hview.
    apply (Hall (ms_inode sp, ms_file_offset sp)); [apply (ok_specs _ _ Hok _ _ Hsp)|done].
Qed.

(** A guest's pages under a calm step that kept its mappings. *)
Lemma calm_pages n n' L L' v v' rest rest' page bytes :
  vgood n L v rest -> vgood n' L' v' rest' -> calm (vf_window v) L L' -> vf_branch v' = vf_branch v ->
  vf_active v ⊆ vf_active v' -> (forall o sp, vf_specs v !! o = Some sp -> vf_specs v' !! o = Some sp) ->
  page_of v page -> window_page L v page = Some bytes -> window_page L' v' page = Some bytes.
Proof.
  intros V V' C Hb Ha Hs Hp Hw. destruct (shown_active _ _ _ _ (proj2 V) Hp Hw) as [m Hm].
  destruct (good_page _ _ _ _ _ _ V Hm) as (sp & x & Hsp & Hx & Hview).
  destruct (good_page _ _ _ _ _ _ V' (lookup_weaken _ _ _ _ Hm Ha)) as (sp' & y & Hsp' & -> & Hy).
  rewrite (Hs _ _ Hsp) in Hsp'. injection Hsp' as <-.
  rewrite Hb, (proj2 C) in Hy by apply (ok_specs _ _ (proj2 V) _ _ Hsp). congruence.
Qed.

(** What a mapping request does.  When [setup_mapping] succeeds, every page
    of the requested range shows the file page asked for, or the file ends
    before it; when it fails, no mapping of it is recorded.  Either way every
    page that was shown before is shown with the same bytes. *)
Theorem setup_mapping_shows s b v inode file_offset len writable window_offset L1 v1 r :
  dax_reachable s -> sy_guests s !! b = Some v -> budget (setup_cost len) (ln_cache (sy_lineage s)) ->
  setup_mapping inode file_offset len writable window_offset (sy_lineage s, v) = ((L1, v1), r) -> undone v1 ->
  (forall page bytes, page_of v page -> window_page (sy_lineage s) v page = Some bytes ->
    window_page L1 v1 page = Some bytes) /\
  match r with
  | Err _ => vf_specs v1 = vf_specs v
  | Ok _ => forall page, window_offset <= page < window_offset + len -> (page - window_offset) mod PAGE_SIZE = 0 ->
      let sp := mkSpec inode (file_offset + (page - window_offset)) writable in
      vf_specs v1 !! page = Some sp /\
      match window_page L1 v1 page with
      | Some bytes => page_view (ln_cache (sy_lineage s)) b (ms_inode sp, ms_file_offset sp) = Some bytes
      | None => ~ in_file (ln_cache L1) v1 sp
      end
  end.
Proof.
  intros I%dax_reachable_inv Hv B Hrun Hu. destruct (si_guest _ I _ _ Hv) as [Hb Hok].
  destruct (sys_guest _ s b v I Hv B) as [rest V]. set (ms := held _ ++ rest) in V.
  rewrite <-(N.add_0_r (setup_cost len)) in V.
  pose proof (wp_setup_mapping inode file_offset len writable window_offset
    (fun _ lv => exists a, let v1 := with_specs inode file_offset window_offset len writable v in
       lv.2 = set_active a v1 /\ vgood 0 lv.1 lv.2 ms /\ calm (vf_window v) (sy_lineage s) lv.1 /\ vf_active v ⊆ a /\
       request_ok v file_offset window_offset len /\
       (forall o, o ∈ new_offsets window_offset len -> served (ln_cache lv.1) v1 a o))
    (fun _ lv => exists a, lv.2 = set_active a v /\ (undone lv.2 -> vgood 0 lv.1 lv.2 ms) /\
       calm (vf_window v) (sy_lineage s) lv.1 /\ vf_active v ⊆ a) 0 (sy_lineage s) v ms V) as Hwp.
  eapply wp_elim in Hwp; [|intros L' a V' C' Ha Hr Hs; by exists a|intros e L' a V' C' Ha; by exists a|exact Hrun].
  destruct r as [[]|e]; destruct Hwp as (a & Hv1 & Hwp); cbn in Hv1, Hwp.
  - destruct Hwp as (V1 & C1 & Ha & Hr & Hserved).
    assert (forall o sp, vf_specs v !! o = Some sp -> vf_specs v1 !! o = Some sp) as Hold.
    { intros o sp Hsp. rewrite Hv1. by apply with_specs_old. }
    split; [intros page bytes; eapply calm_pages; try done; by rewrite Hv1|].
    intros page Hin Hm sp.
    assert (page ∈ new_offsets window_offset len) as Hpage by (by apply elem_of_new_offsets).
    assert (vf_specs v1 !! page = Some sp) as Hsp.
    { rewrite Hv1. cbn. rewrite lookup_add_specs, decide_True; [done|]. exact Hpage. }
    split; [done|]. destruct (vf_active v1 !! page) as [m|] eqn:Hm'.
    + destruct (good_page _ _ _ _ page m V1 Hm') as (sp' & x & Hsp' & -> & Hx).
      assert (sp' = sp) as -> by congruence. rewrite <-(proj2 C1) by apply (ok_specs _ _ (proj2 V1) _ _ Hsp).
      rewrite Hv1 in Hx. cbn in Hx. by rewrite Hb in Hx.
    + destruct Hr as (_ & Hwo & _ & _ & _ & base & wlen & Hw & Hfit).
      rewrite (window_placeholder L1 v1 page base wlen);
        [|apply V1|by rewrite Hv1|lia|unfold PAGE_SIZE in *; divlia|done].
      destruct (Hserved page Hpage) as [[m Hm2]|(sp' & Hsp' & Hout)]; [by rewrite Hv1 in Hm'; cbn in Hm'; congruence|].
      rewrite Hv1 in Hsp. cbn in Hsp, Hsp'. assert (sp' = sp) as -> by congruence. by rewrite Hv1.
  - destruct Hwp as (V1 & C1 & Ha). split; [|by rewrite Hv1].
    intros page bytes. eapply calm_pages; try done; [by apply V1|by rewrite Hv1|by rewrite Hv1|].
    intros o sp. by rewrite Hv1.
Qed.

(** A store of the guest's processor through a writable mapping lands in
    the file: the window shows the new bytes, the guest's branch sees them at
    that file page, and no other page of any branch changes. *)
Theorem guest_store_reaches_file s b v offset bytes sp old :
  let page := offset / PAGE_SIZE * PAGE_SIZE in
  dax_reachable s -> sy_guests s !! b = Some v -> budget 0 (ln_cache (sy_lineage s)) -> page_of v page ->
  window_page (sy_lineage s) v page = Some old -> vf_specs v !! page = Some sp -> ms_writable sp = true ->
  offset - page + lenN bytes <= PAGE_SIZE ->
  let L' := guest_store v offset bytes (sy_lineage s) in
  let new := splice (offset - page) bytes old in
  window_page L' v page = Some new /\
  forall b' k, aligned k -> page_view (ln_cache L') b' k =
    if decide ((b', k) = (b, (ms_inode sp, ms_file_offset sp))) then Some new
    else page_view (ln_cache (sy_lineage s)) b' k.
Proof.
  intros page I%dax_reachable_inv Hv B Hp Hw Hsp Hwr Hlen L' new. destruct (si_guest _ I _ _ Hv) as [Hb Hok].
  destruct (sys_guest _ s b v I Hv B) as [rest V]. destruct (shown_active _ _ _ _ Hok Hp Hw) as [m Hm].
  destruct (guest_page s b v page m I Hv Hm) as (sp' & x & Hsp' & _ & Hx & Hbytes & _ & _).
  assert (sp' = sp) as -> by congruence. assert (x = old) as -> by congruence.
  destruct (ok_active _ _ Hok _ _ Hm) as (sp' & _ & _ & Hsp'' & _ & _ & (Hmb & Hmk & _) & _).
  assert (sp' = sp) as -> by congruence.
  destruct (guest_store_active _ _ _ _ offset bytes sp m V) as (c' & Heq & _ & V' & Hviews); try done.
  unfold L'. rewrite Heq. fold page in Hviews. rewrite <-Hbytes in Hviews. fold new in Hviews.
  assert (forall b' k, aligned k -> page_view c' b' k =
    if decide ((b', k) = (b, (ms_inode sp, ms_file_offset sp))) then Some new
    else page_view (ln_cache (sy_lineage s)) b' k) as Hall.
  { intros b' k Hk. rewrite (Hviews b' k Hk). by rewrite Hmb, Hmk, Hb. }
  split; [|exact Hall]. destruct (good_page _ _ _ _ _ _ V' Hm) as (sp' & y & Hsp3 & -> & Hy).
  assert (sp' = sp) as -> by congruence. rewrite Hb in Hy. cbn in Hy.
  rewrite Hall, decide_True in Hy; [done|done|]. apply (ok_specs _ _ Hok _ _ Hsp).
Qed.

(** ** Stores the host does not stop *)


(** ** Suspending and resuming *)

(** What no step of suspending and resuming changes. *)
Record steady (x y : Lineage W S Id * VirtioFs) : Prop := {
  st_lens : lens_kept (ln_cache x.1) (ln_cache y.1);
  st_opens : opens_kept (ln_cache x.1) (ln_cache y.1);
  st_specs : vf_specs y.2 = vf_specs x.2;
  st_branch : vf_branch y.2 = vf_branch x.2
}.

#[export] Instance steady_preorder : PreOrder steady.
Proof.
  split.
  - intros x. by split.
  - intros x y z [A1 A2 A3 A4] [B1 B2 B3 B4]. split; [by etrans|by etrans|congruence|congruence].
Qed.

Lemma steady_in_cache {A} (f : M (Cache W S Id) CacheError A) :
  Prelude.keeps lens_kept f -> Prelude.keeps opens_kept f -> Prelude.keeps steady (in_cache f).
Proof.
  intros H1 H2 [L v]. unfold in_cache, zoom. cbn [fst].
  specialize (H1 (ln_cache L)). specialize (H2 (ln_cache L)). destruct (f (ln_cache L)) as [c r]. by split.
Qed.

Lemma steady_active {E} (f : VirtioFs -> gmap N DaxPageMapping) :
  Prelude.keeps steady (update (E := E) (fun v => set_active (f v) v)).
Proof. apply keeps_modify. intros x. by split. Qed.

Ltac steady_step :=
  lazymatch goal with
  | |- Prelude.keeps _ (cache_io (Shared.io _)) => apply keeps_with_err, steady_in_cache; [apply lens_io|apply opens_io]
  | |- Prelude.keeps _ (cache_io (Shared.unmap _ _)) => apply keeps_with_err, steady_in_cache; [apply lens_unmap|apply opens_unmap]
  | |- Prelude.keeps _ (cache_io (Shared.map_page _ _ _ _)) =>
      apply keeps_with_err, steady_in_cache; [apply lens_map_page|apply opens_map_page]
  | |- Prelude.keeps _ (cache_io (Shared.with_store_mut _ (ns_len _))) =>
      apply keeps_with_err, steady_in_cache; [apply lens_on_store, len_len|apply opens_on_store]
  | |- Prelude.keeps _ (update _) => apply steady_active
  | |- Prelude.keeps _ (modify _) => apply keeps_modify; intros ?; by split
  | |- Prelude.keeps _ self => unfold self
  | _ => keeps_step
  end.
Ltac steady_steps := repeat (steady_step; cbv beta zeta).

Lemma steady_remove offset : Prelude.keeps steady (remove_offset (W := W) (S := S) (Id := Id) offset false).
Proof. unfold remove_offset, mmap_anonymous. steady_steps. Qed.

Lemma steady_activate_one base len offset : Prelude.keeps steady (activate_one base len offset).
Proof. unfold activate_one, mmap_shared. steady_steps. Qed.

(** Steps that may show or hide other pages only. *)
Definition aloof (page : N) (x y : Lineage W S Id * VirtioFs) : Prop :=
  vf_active y.2 !! page = vf_active x.2 !! page.

#[export] Instance aloof_preorder page : PreOrder (aloof page).
Proof. split; [done|]. intros x y z Hxy Hyz. unfold aloof in *. by rewrite Hyz. Qed.

Ltac aloof_step :=
  lazymatch goal with
  | |- Prelude.keeps _ (cache_io _) => apply keeps_with_err; apply (keeps_zoom (fun _ _ => True)); [by intros ???|done]
  | |- Prelude.keeps _ (update _) =>
      apply keeps_modify; intros [??]; unfold aloof; cbn; rewrite ?lookup_insert_ne, ?lookup_delete_ne by done; done
  | |- Prelude.keeps _ (modify _) => apply keeps_modify; intros [??]; done
  | |- Prelude.keeps _ self => unfold self
  | _ => keeps_step
  end.
Ltac aloof_steps := repeat (aloof_step; cbv beta zeta).

Lemma aloof_remove page o : o <> page -> Prelude.keeps (aloof page) (remove_offset (W := W) (S := S) (Id := Id) o false).
Proof. intros Hne. unfold remove_offset, mmap_anonymous. aloof_steps. Qed.

Lemma aloof_activate_one page base len o : o <> page -> Prelude.keeps (aloof page) (activate_one base len o).
Proof. intros Hne. unfold activate_one, mmap_shared. aloof_steps. Qed.

(** Undoing leaves the pages that were not activated. *)
Lemma wp_undo_aloof page activated e : forall x, page ∉ activated ->
  wp (_ ← for_each (fun o => _ ← attempt (remove_offset (W := W) (S := S) (Id := Id) o false); mret tt) activated; throw e)
    (fun (_ : unit) _ => False) (fun _ y => aloof page x y) x.
Proof.
  induction activated as [|o act IH]; intros x Hact; cbn [for_each]; wp_steps; [done|].
  apply not_elem_of_cons in Hact as [Hne Hact].
  apply (wp_keeps (aloof page)); [by apply aloof_remove| |]; intros r y Hy; wp_steps;
    (specialize (IH y Hact); rewrite wp_bind in IH; eapply wp_mono; [exact IH| |]; intros ? z Hz; exact (transitivity (R := aloof page) Hy Hz)).
Qed.

(** ** Requests that could not be undone *)



(** ** Guests that close what they mapped *)

(** The page is not shown, and its file, which reaches it, is not open. *)
Definition barred (page : N) sp (x : Lineage W S Id * VirtioFs) : Prop :=
  vf_active x.2 !! page = None /\ vf_specs x.2 !! page = Some sp /\ in_file (ln_cache x.1) x.2 sp /\
  shut (ln_cache x.1) (vf_branch x.2) (ms_inode sp).

Lemma barred_steady page sp x y : barred page sp x -> steady x y -> vf_active y.2 !! page = None -> barred page sp y.
Proof.
  intros (_ & Hsp & Hin & Hs) [L O Es Eb] Ha. split; [done|]. split; [by rewrite Es|].
  pose proof Hin as (br & n & Hb & _). split.
  - destruct (in_file_kept _ _ _ _ L Hin) as (br' & n' & Hb' & Hn). exists br', n'. by rewrite Eb.
  - rewrite Eb. eapply shut_kept; [exact O|by exists br|done].
Qed.

(** The barred page itself cannot be shown. *)
Lemma wp_activate_barred page sp base len x :
  barred page sp x -> wp (activate_one base len page) (fun _ _ => False) (fun _ y => vf_active y.2 !! page = None) x.
Proof.
  intros (Ha & Hsp & (br & n & Hb & Hn & Hlt) & Hs). unfold activate_one, self. wp_steps. rewrite Hsp.
  destruct (_ <? _); [wp_steps; done|]. unfold cache_io. wp_steps. destruct x as [L v]. cbn [fst snd] in *.
  rewrite wp_in_cache. eapply wp_and_keeps; [apply (opens_on_store (Id := Id) (vf_branch v) (ns_len (ms_inode sp)))|].
  eapply (wp_len (vf_branch v)); [exact Hb| |].
  2:{ intros e c _ _. cbn. done. }
  intros n' c Hn' _ O. assert (n' = n) as -> by congruence. cbn [fst snd].
  rewrite (proj2 (N.leb_gt _ _) Hlt). wp_steps. rewrite wp_in_cache.
  apply wp_map_shut; [|done]. eapply shut_kept; [exact O|by exists br|done].
Qed.

Lemma wp_activate_loop_barred page sp base len os : forall activated x,
  barred page sp x -> page ∈ os -> page ∉ activated ->
  wp (activate_loop base len os activated) (fun _ _ => False) (fun _ y => vf_active y.2 !! page = None) x.
Proof.
  induction os as [|o os IH]; intros activated x Hx Hin Hact; [by apply not_elem_of_nil in Hin|].
  cbn [activate_loop]. unfold self. wp_steps. case_decide as Ha.
  { apply IH; [done| |done]. apply elem_of_cons in Hin as [->|Hin]; [|done].
    destruct Ha as [m Hm]. destruct Hx as [Hn _]. congruence. }
  wp_steps. destruct (decide (o = page)) as [->|Hne].
  - eapply wp_mono; [by apply (wp_activate_barred page sp)|done|]. intros e y Hy. eapply wp_mono; [by apply (wp_undo_aloof page)|done|]. intros e' z Hz. by rewrite Hz.
  - apply elem_of_cons in Hin as [->|Hin]; [done|].
    eapply wp_and_keeps; [apply steady_activate_one|].
    apply (wp_keeps (aloof page)); [by apply aloof_activate_one| |].
    + intros [|] y Hy Hst.
      * apply IH; [eapply barred_steady; [done|done|rewrite Hy; apply Hx]|done|by apply not_elem_of_cons].
      * apply IH; [eapply barred_steady; [done|done|rewrite Hy; apply Hx]|done|done].
    + intros e y Hy _. assert (vf_active x.2 !! page = None) as Hx0 by apply Hx. eapply wp_mono; [by apply (wp_undo_aloof page)|done|]. intros e' z Hz. by rewrite Hz, Hy.
Qed.

Lemma wp_resume_barred page sp x : barred page sp x ->
  wp resume_mappings (fun _ _ => False) (fun _ y => vf_active y.2 !! page = None) x.
Proof.
  intros Hx. unfold resume_mappings, activate_offsets, self. wp_steps.
  assert (page ∈ btree_keys (vf_specs x.2)) as Hin by (apply elem_of_btree_keys; exists sp; apply Hx).
  case_decide as He; [rewrite He in Hin; by apply not_elem_of_nil in Hin|]. wp_steps.
  destruct (vf_window x.2) as [[base len]|]; [|wp_steps; apply Hx].
  apply (wp_activate_loop_barred page sp); [done|done|apply not_elem_of_nil].
Qed.

(** Suspended, the page is barred. *)
Lemma wp_suspend_barred n L v rest page m sp :
  vgood n L v rest -> vf_active v !! page = Some m -> vf_specs v !! page = Some sp -> in_file (ln_cache L) v sp ->
  shut (ln_cache L) (vf_branch v) (ms_inode sp) ->
  wp suspend_mappings (fun _ y => barred page sp y /\ vf_branch y.2 = vf_branch v /\
    c_branches (ln_cache y.1) !! c_next_branch (ln_cache y.1) = None) (fun _ _ => True) (L, v).
Proof.
  intros V Hm Hsp Hin Hs. apply wp_and_keeps with (P := steady).
  { unfold suspend_mappings. steady_steps. apply steady_remove. }
  eapply wp_suspend; [exact V| |done]. intros L' V' _ [Hl O _ _]. cbn [fst snd] in *.
  pose proof Hin as (br & k & Hb & _). split; [|split; [done|]].
  - split; [apply lookup_empty|]. split; [done|]. split; [by apply (in_file_kept _ _ _ _ Hl) in Hin|].
    cbn. eapply shut_kept; [exact O|by exists br|done].
  - destruct (c_branches (ln_cache L') !! _) as [br'|] eqn:Hn; [|done].
    destruct V' as [(I & _) _]. destruct (inv_branch _ _ I _ _ Hn) as [Hlt _]. lia.
Qed.

Definition suspending (e : VmmError) : Prop :=
  exists op cause, e = Backend op cause /\ (op = "suspend DAX mappings" \/ op = "suspend DAX mappings for checkpoint").

Lemma wp_fork_barred n L v rest page m sp :
  vgood n L v rest -> vf_active v !! page = Some m -> vf_specs v !! page = Some sp -> in_file (ln_cache L) v sp ->
  shut (ln_cache L) (vf_branch v) (ms_inode sp) ->
  wp Vfs.fork (fun _ _ => False) (fun e y => suspending e \/ vf_active y.2 !! page = None) (L, v).
Proof.
  intros V Hm Hsp Hin Hs. unfold Vfs.fork, io_as, cache_as, self. wp_steps.
  eapply wp_mono; [by eapply (wp_suspend_barred n L v rest page m sp)| |].
  2:{ intros e y _. left. do 2 eexists. split; [done|]. by left. }
  intros [] [L1 v1] (Hx & Hb1 & Hfresh). wp_steps. cbn [fst snd] in *.
  assert (forall c, lens_kept (ln_cache L1) c -> opens_kept (ln_cache L1) c -> barred page sp (set_cache c L1, v1)) as Hc.
  { intros c Hl O. eapply barred_steady; [exact Hx|by split|apply Hx]. }
  rewrite wp_in_cache. eapply wp_mono; [apply wp_and; [by apply wp_fork_lens|by apply wp_fork_opens]| |].
  - intros child c [[Hl _] O]. wp_steps. eapply wp_mono; [by apply (wp_resume_barred page sp), Hc|done|].
    intros e y Hy. wp_steps. by right.
  - intros e c [Hl O]. wp_steps. eapply wp_mono; [by apply (wp_resume_barred page sp), Hc|done|].
    intros e' y Hy. wp_steps. by right.
Qed.

Lemma steady_take_snapshot : Prelude.keeps steady (take_snapshot (W := W) (S := S)).
Proof.
  unfold take_snapshot, cache_as. steady_steps; apply keeps_with_err, steady_in_cache.
  - apply lens_sync_all.
  - apply opens_sync_all.
  - apply lens_on_store, len_kept_keeps. intros ws. eapply wp_mono; [apply law_durable_state| |]; cbn; naive_solver.
  - apply opens_on_store.
Qed.

Lemma aloof_take_snapshot page : Prelude.keeps (aloof page) (take_snapshot (W := W) (S := S)).
Proof.
  unfold take_snapshot, cache_as. aloof_steps;
    (apply keeps_with_err; apply (keeps_zoom (fun _ _ => True)); [by intros ???|done]).
Qed.

Lemma wp_snapshot_barred n L v rest page m sp :
  vgood n L v rest -> vf_active v !! page = Some m -> vf_specs v !! page = Some sp -> in_file (ln_cache L) v sp ->
  shut (ln_cache L) (vf_branch v) (ms_inode sp) ->
  wp durable_snapshot (fun _ _ => False) (fun e y => suspending e \/ vf_active y.2 !! page = None) (L, v).
Proof.
  intros V Hm Hsp Hin Hs. unfold durable_snapshot, io_as, self. wp_steps.
  eapply wp_mono; [by eapply (wp_suspend_barred n L v rest page m sp)| |].
  2:{ intros e y _. left. do 2 eexists. split; [done|]. by right. }
  intros [] x (Hx & _ & _). wp_steps. eapply wp_and_keeps; [apply steady_take_snapshot|].
  apply (wp_keeps (aloof page)); [apply aloof_take_snapshot| |]; intros r y Hy Hst; wp_steps;
    (eapply wp_mono; [apply (wp_resume_barred page sp); eapply barred_steady; [exact Hx|done|rewrite Hy; apply Hx]|done|]);
    intros e z Hz; wp_steps; by right.
Qed.

(** The call failed, and took the page out of the window if it got as far as
    taking out all pages. *)
Definition failed_blank {A} (page : N) (run : Lineage W S Id * VirtioFs * result VmmError A) : Prop :=
  exists e, run.2 = Err e /\ (suspending e \/ window_page run.1.1 run.1.2 page = None).

Lemma barred_blank {A} rq (f : M (Lineage W S Id * VirtioFs) VmmError A) L v rest page m :
  vgood (dax_cost v rq) L v rest -> vf_active v !! page = Some m ->
  outcome rq L v rest (f (L, v)).1 -> rq = QFork \/ rq = QSnapshot ->
  wp f (fun _ _ => False) (fun e y => suspending e \/ vf_active y.2 !! page = None) (L, v) ->
  failed_blank page (f (L, v)).
Proof.
  intros [_ Hok] Hm Ho Hrq Hf. unfold wp in Hf. destruct (f (L, v)) as [[L1 v1] [a|e]]; cbn [fst snd] in *; [done|].
  exists e. split; [done|]. destruct Hf as [Hf|Hf]; [by left|right]. cbn [fst snd].
  destruct (ok_active _ _ Hok _ _ Hm) as (sp & base & len & Hsp & Hw & Hin & _).
  destruct Ho as (w & leaked & [_ Hok1] & _ & _ & _ & Hw1). cbn [fst snd] in *.
  destruct (vf_window v1) as [[base1 len1]|] eqn:Hv1; [|unfold window_page; by rewrite Hv1].
  assert (base1 = base /\ len1 = len) as [-> ->]. { destruct Hw1 as [Heq|[Heq|Heq]]; [by rewrite Hw in Heq; simplify_eq|done|by destruct Hrq; subst rq]. }
  apply (window_placeholder L1 v1 page base len Hok1 Hv1); [unfold PAGE_SIZE in Hin; lia| |done].
  apply (ok_specs _ _ Hok _ _ Hsp).
Qed.

(** C39. A guest that closed a file it still has mapped, as FUSE_RELEASE does
    while the guest kernel keeps its DAX mapping, can no longer be forked or
    checkpointed: in every state the guests can reach, whatever the host does,
    both calls fail, and, unless the step that takes the pages out of the
    window failed, the running guest has lost the page from its window. *)
Theorem closed_mapping_blocks_guest s b v page m :
  dax_reachable s -> sy_guests s !! b = Some v -> budget (resume_cost v) (ln_cache (sy_lineage s)) ->
  vf_active v !! page = Some m -> shut (ln_cache (sy_lineage s)) b (m_key m).1 ->
  failed_blank page (Vfs.fork (sy_lineage s, v)) /\ failed_blank page (durable_snapshot (sy_lineage s, v)).
Proof.
  intros I%dax_reachable_inv Hv B Hm Hs. destruct (si_guest _ I _ _ Hv) as [Hb Hok].
  destruct (sys_guest _ s b v I Hv B) as [rest V].
  destruct (ok_active _ _ Hok _ _ Hm) as (sp & base & len & Hsp & _ & _ & (_ & Hk & _) & Hin & _).
  rewrite Hk in Hs. cbn in Hs. rewrite <-Hb in Hs. split.
  - eapply (barred_blank QFork); [exact V|exact Hm|by apply (plain_outcome QFork)|by left|].
    by eapply wp_fork_barred.
  - eapply (barred_blank QSnapshot); [exact V|exact Hm|by apply (plain_outcome QSnapshot)|by right|].
    by eapply wp_snapshot_barred.
Qed.

End theorems.
