(* ===== verification/VirtioFsExample.v ===== *)
(** * Guests of an in-memory lineage

    The in-memory store as a branch store, so that the theorems about the
    guests of a lineage can be evaluated, and two runs that show what the code
    does to a guest whose mappings cannot be put back. *)

From stdpp Require Import pretty.
From S2P Require Import Prelude Generations Host CacheTypes DirtyPages SharedCache SharedCacheInv SharedCacheSteps SharedCacheOps SharedCacheIO SharedCacheLife SharedCacheLens Identity MemStore SharedCacheSpec PageCache PageCacheInv RedoxBranch VmmTypes VirtioFs VirtioFsInv VirtioFsLaws VirtioFsOps VirtioFsHost VirtioFsWindow VirtioFsSpec VirtioFsTheorems.
Import Vfs.

(** ** The store *)

Module Shelf.

Abbreviation MS := (M (Statics * MemoryStore) io_error).

Definition largest_of (l : list N) : N := foldr N.max 0 l.

(** A node number no file and no page version has. *)
Definition fresh_node (s : MemoryStore) : NodeId :=
  1 + largest_of ((map_to_list (Identity.visible_files (mem_ids s))).*1 ++
                  (map_to_list (Identity.visible_pages (mem_ids s))).*1.*1).

(** A file of zeros; refused when the counters have run out. *)
Definition create_file (name : string) (size : N) : MS NodeId := fun ws =>
  let '(g, s) := ws in
  if (next_file_object_id g <? u64_MAX) && (0 <? next_page_version g) then
    let node := fresh_node s in
    let '((g', ib), _) := Identity.create_file node (g, mem_ids s) in
    ((g', mkMemory (<[node := replicate (N.to_nat size) zero_byte]> (mem_nodes s))
            (mem_opens s) (mem_closes s) ib), Ok node)
  else (ws, Err (RawOs EIO)).

(** Files have no names and no attributes but their size. *)
Definition lookup (parent : NodeId) (name : string) : MS NodeId := throw (RawOs ENOENT).
Definition metadata (node : NodeId) : MS NodeMetadata :=
  gets (fun ws => mkNodeMetadata node (lenN (Memory.data ws.2 node)) 0 file_mode 1 0 0 (0, 0) (0, 0) (0, 0)).
Definition entries (parent : NodeId) : MS (list (NodeId * string)) :=
  gets (fun ws => (fun node => (node, pretty node)) <$> btree_keys (mem_nodes ws.2)).

(** The saved state of a store is the store. *)
Definition durable_state : MS MemoryStore := gets snd.

Definition create (size : N) : M Statics io_error MemoryStore :=
  gets (fun _ => mkMemory ∅ 0 0 Identity.new).
Definition create_durable (directory : string) (size : N) : M Statics io_error MemoryStore := create size.
Definition restore_lineage (directory : string) (states : list MemoryStore) : M Statics io_error (list MemoryStore) :=
  mret states.

End Shelf.

#[export] Instance MemoryStore_branch : BranchStore Statics MemoryStore RedoxPageIdentity MemoryStore := {
  bs_create := Shelf.create;
  bs_create_durable := Shelf.create_durable;
  bs_restore_lineage := Shelf.restore_lineage;
  bs_create_file := Shelf.create_file;
  bs_lookup := Shelf.lookup;
  bs_metadata := Shelf.metadata;
  bs_entries := Shelf.entries;
  bs_durable_state := Shelf.durable_state
}.

#[export] Instance MemoryStore_saved : SavedView MemoryStore MemoryStore := { s_saves st s := st = s }.

Section laws.
Implicit Types (s : MemoryStore) (g : Statics) (k : PageKey).

Lemma largest_of_ge l x : x ∈ l -> x <= Shelf.largest_of l.
Proof.
  induction l as [|y l IH]; [by intros ?%not_elem_of_nil|]. unfold Shelf.largest_of in *. cbn [foldr].
  intros [->|Hx%IH]%elem_of_cons; lia.
Qed.

(** The fresh node has no object and no versions. *)
Lemma fresh_node_new s : let ib := mem_ids s in
  Identity.object_of ib (Shelf.fresh_node s) = None /\
  forall page, Identity.version_of ib (Shelf.fresh_node s, page) = 0.
Proof.
  intros ib. split.
  - rewrite <-IdentityFacts.lookup_visible_files.
    destruct (Identity.visible_files ib !! Shelf.fresh_node s) as [o|] eqn:Ho; [|done]. exfalso.
    assert (Shelf.fresh_node s <= Shelf.fresh_node s - 1); [|unfold Shelf.fresh_node in *; lia].
    unfold Shelf.fresh_node at 2. rewrite N.add_comm, N.add_sub. apply largest_of_ge, elem_of_app. left.
    apply list_elem_of_fmap. eexists (_, _). split; [done|]. by apply elem_of_map_to_list.
  - intros page. rewrite <-IdentityFacts.lookup_visible_pages.
    destruct (Identity.visible_pages ib !! (Shelf.fresh_node s, page)) as [o|] eqn:Ho; [|done]. exfalso.
    assert (Shelf.fresh_node s <= Shelf.fresh_node s - 1); [|unfold Shelf.fresh_node in *; lia].
    unfold Shelf.fresh_node at 2. rewrite N.add_comm, N.add_sub. apply largest_of_ge, elem_of_app. right.
    apply list_elem_of_fmap. exists (Shelf.fresh_node s, page). split; [done|].
    apply list_elem_of_fmap. eexists (_, _). split; [done|]. by apply elem_of_map_to_list.
Qed.

Lemma keeps_refl (ws : Statics * MemoryStore) : keeps ws ws.
Proof. destruct ws as [g s]. by apply keeps_same. Qed.

Lemma created_identity ib node obj n o :
  Identity.page_identity (mkIdentity (ib_base ib) (<[node := obj]> (ib_files ib)) (ib_pages ib)) n o =
    if decide (n = node) then Ok (obj, o / PAGE_SIZE, Identity.version_of ib (n, o / PAGE_SIZE))
    else Identity.page_identity ib n o.
Proof.
  unfold Identity.page_identity, Identity.object_of. cbn [ib_files]. case_decide as Hn.
  - subst. by rewrite lookup_insert_eq.
  - by rewrite lookup_insert_ne by done.
Qed.

(** The store after [create_file]. *)
Definition with_file g s (node : NodeId) (size : N) : Statics * MemoryStore :=
  (set_next_file_object_id (next_file_object_id g + 1) g,
   mkMemory (<[node := replicate (N.to_nat size) zero_byte]> (mem_nodes s)) (mem_opens s) (mem_closes s)
     (mkIdentity (ib_base (mem_ids s)) (<[node := next_file_object_id g]> (ib_files (mem_ids s))) (ib_pages (mem_ids s)))).

Lemma with_file_added g s size : 0 < next_page_version g ->
  file_added (Shelf.fresh_node s) (g, s) (with_file g s (Shelf.fresh_node s) size).
Proof.
  intros Hver. destruct (fresh_node_new s) as [Hnone Hzero]. set (node := Shelf.fresh_node s) in *.
  assert (forall o i, s_ident (with_file g s node size).2 (node, o) = Ok i ->
    i = (next_file_object_id g, o / PAGE_SIZE, 0)) as Hid.
  { intros o i. cbn [s_ident MemoryStore_view with_file snd mem_ids fst].
    rewrite created_identity, decide_True, Hzero by done. by intros [= <-]. }
  split.
  - intros o i _. cbn. unfold Identity.page_identity. by rewrite Hnone.
  - intros o i _ ->%Hid. cbn. lia.
  - intros o o' i Ho Ho' Hi%Hid Hi'%Hid. unfold aligned in *. cbn in *. subst i. injection Hi' as Heq.
    pose proof (page_split o). pose proof (page_split o'). congruence.
  - intros [n o] _ Hne. cbn [s_ident MemoryStore_view with_file snd mem_ids fst] in *.
    by rewrite created_identity, decide_False.
  - intros [n o] _ Hne. cbn [s_content MemoryStore_view with_file snd fst] in *. unfold Memory.data.
    cbn [mem_nodes]. by rewrite lookup_insert_ne.
  - intros n Hne. cbn [s_len MemoryStore_view with_file snd]. unfold Memory.data. cbn [mem_nodes].
    by rewrite lookup_insert_ne.
Qed.

Lemma shelf_create_file name size n g s :
  next_page_version g + (1 + n) <= u64_MAX ->
  wp (Shelf.create_file name size)
    (fun node ws' => (forall i, w_issued g i -> w_issued ws'.1 i) /\ w_room ws'.1 n /\
       file_added node (g, s) ws' /\ s_len ws'.2 node = Ok size)
    (fun _ ws' => (forall i, w_issued g i -> w_issued ws'.1 i) /\ w_room ws'.1 n /\ view_eq s ws'.2) (g, s).
Proof.
  intros Hroom. unfold wp, Shelf.create_file.
  destruct (_ && _) eqn:Hg; [|split; [done|]; split; [cbn; lia|apply view_eq_refl]].
  apply andb_true_iff in Hg as [Hobj%N.ltb_lt Hver%N.ltb_lt]. unfold Identity.create_file.
  rewrite wrapping_add_small by lia. fold (with_file g s (Shelf.fresh_node s) size).
  split; [intros i [H1 H2]; cbn; lia|]. split; [cbn; lia|]. split; [by apply with_file_added|].
  cbn [s_len MemoryStore_view with_file snd]. unfold Memory.data. cbn [mem_nodes]. rewrite lookup_insert_eq. cbn.
  unfold lenN. rewrite length_replicate. f_equal. lia.
Qed.

#[export] Instance MemoryStore_branch_laws : BranchLaws Statics MemoryStore RedoxPageIdentity MemoryStore.
Proof.
  split.
  - intros name size n [g s]. apply shelf_create_file.
  - intros parent name ws. apply keeps_refl.
  - intros node ws. apply keeps_refl.
  - intros node ws. apply keeps_refl.
  - intros ws. split; [apply keeps_refl|done].
Qed.

End laws.

(** ** Runs *)

Module DaxExample.

Definition window_size : N := 65536.
Definition base1 : N := 1048576.
Definition base2 : N := 2097152.

(** A new lineage whose only file is 7, of 5000 bytes. *)
Definition boot_run :=
  from_parts (St := MemoryStore) 1 1 ∅ (mkLineage CacheExample.start ∅ 1).
Definition boot : System Statics MemoryStore RedoxPageIdentity :=
  match boot_run with
  | (L, Ok v) => mkSystem L {[ 1 := v ]}
  | (L, Err _) => mkSystem L ∅
  end.

Definition run (rqs : list (N * dax_request)) := foldl (fun s bq => dax_step s bq.1 bq.2) boot rqs.

Definition guest_of (s : System Statics MemoryStore RedoxPageIdentity) (b : N) : VirtioFs :=
  default (mkVirtioFs 0 0 0 None ∅ ∅ 0) (sy_guests s !! b).

(** *** Checking that a run may happen *)

Definition free_range (m : gmap N FileId) (base len : N) : bool :=
  forallb (fun kv : N * FileId => negb (in_range base (base + len) kv.1)) (map_to_list m).

Lemma free_anonymous L base len : free_range (ln_map L) base len = true ->
  anonymous (W := Statics) (S := MemoryStore) (Id := RedoxPageIdentity) L base len.
Proof.
  intros Hf o Ho. destruct (ln_map L !! (base + o)) as [f|] eqn:Hl; [|done]. exfalso.
  apply forallb_forall with (x := (base + o, f)) in Hf; [|by apply list_elem_of_In, elem_of_map_to_list].
  cbn [fst] in Hf. by rewrite in_range_true in Hf by lia.
Qed.

Definition is_some {A} (o : option A) : bool := match o with Some _ => true | None => false end.

Lemma is_some_true {A} (o : option A) : is_some o = true -> is_Some o.
Proof. destruct o; [by eexists|done]. Qed.

Definition undone_check (v : VirtioFs) : bool :=
  forallb (fun kv : N * DaxPageMapping => is_some (vf_specs v !! kv.1) && is_some (vf_window v))
    (map_to_list (vf_active v)).

Lemma undone_check_ok v : undone_check v = true -> undone v.
Proof.
  intros Hf o [m Hm]. apply forallb_forall with (x := (o, m)) in Hf; [|by apply list_elem_of_In, elem_of_map_to_list].
  apply andb_true_iff in Hf as [H1%is_some_true H2%is_some_true]. done.
Qed.

Definition apart (base len : N) (w : option (N * N)) : bool :=
  match w with
  | None => true
  | Some (base', len') => (base + len <=? base') || (base' + len' <=? base)
  end.

Definition request_check (s : System Statics MemoryStore RedoxPageIdentity) (b : N) (v : VirtioFs)
    (rq : dax_request) : bool :=
  let c := ln_cache (sy_lineage s) in
  (c_next_page_id c + dax_cost v rq <=? u64_MAX) && (next_page_version (c_world c) + dax_cost v rq <=? u64_MAX) &&
  match rq with
  | QAttach base len =>
      free_range (ln_map (sy_lineage s)) base len &&
      forallb (fun bv : N * VirtioFs => (bv.1 =? b) || apart base len (vf_window bv.2)) (map_to_list (sy_guests s))
  | QStore offset _ =>
      match vf_specs v !! (offset / PAGE_SIZE * PAGE_SIZE) with
      | Some sp => ms_writable sp
      | None => true
      end
  | _ => true
  end.

Lemma request_check_ok s b v rq : request_check s b v rq = true -> may_request s b v rq.
Proof.
  intros [[H1%N.leb_le H2%N.leb_le]%andb_true_iff H3]%andb_true_iff. split; [by split|].
  destruct rq as [| | | | | | | |base len| | | |offset bytes| | | | | |]; try done.
  2:{ unfold store_allowed. by destruct (vf_specs v !! _). }
  apply andb_true_iff in H3 as [H3 H4].
  split; [by apply free_anonymous|]. intros b' v' Hne Hv' address (b0 & l0 & [= <- <-] & Hin) (b1 & l1 & Hw & Hin').
  apply forallb_forall with (x := (b', v')) in H4; [|by apply list_elem_of_In, elem_of_map_to_list].
  cbn [fst snd] in H4. rewrite Hw in H4. unfold apart in H4. revert H4. cmp; cbn; try done; lia.
Qed.

Lemma budget_check (n : N) (c : Cache Statics MemoryStore RedoxPageIdentity) :
  (c_next_page_id c + n <=? u64_MAX) && (next_page_version (c_world c) + n <=? u64_MAX) = true -> budget n c.
Proof. intros [H1%N.leb_le H2%N.leb_le]%andb_true_iff. by split. Qed.

Fixpoint admissible (s : System Statics MemoryStore RedoxPageIdentity) (rqs : list (N * dax_request)) : bool :=
  match rqs with
  | [] => true
  | (b, rq) :: rest =>
      match sy_guests s !! b with
      | None => false
      | Some v => request_check s b v rq && undone_check (device_step rq (sy_lineage s, v)).2 &&
                  admissible (dax_step s b rq) rest
      end
  end.

Lemma boot_reachable : dax_reachable boot.
Proof.
  change boot with (mkSystem (boot_run.1) {[ 1 := mkVirtioFs 1 1 1 None ∅ ∅ 1 ]}).
  eapply (dax_start 1 (mkHost ∅ 0 []) _ 1 _ ∅ 1 1); [apply CacheExample.file_ok|done| |reflexivity].
  change (1 + 0 <= u64_MAX). unfold u64_MAX. lia.
Qed.

Lemma run_dax_reachable rqs : admissible boot rqs = true -> dax_reachable (run rqs).
Proof.
  unfold run. generalize boot boot_reachable. induction rqs as [|[b rq] rqs IH]; intros s Hs Ha; [done|].
  cbn [admissible foldl fst snd] in *. destruct (sy_guests s !! b) as [v|] eqn:Hv; [|done].
  apply andb_true_iff in Ha as [[H1 H2]%andb_true_iff H3]. apply IH; [|done].
  eapply dax_next; [done|exact Hv|by apply request_check_ok|by apply undone_check_ok].
Qed.

(** Guest 1 maps both pages of file 7 for writing and stores two bytes; it is
    forked and the child attached, so that two guests run. *)
Definition mapped : list (N * dax_request) :=
  [(1, QAttach base1 window_size); (1, QOpen 7); (1, QSetup 7 0 8192 true 4096); (1, QStore 4100 [Byte.x62; Byte.x63])].
Definition twins : list (N * dax_request) := mapped ++ [(1, QFork); (2, QAttach base2 window_size)].

Lemma mapped_ok : dax_reachable (run mapped).
Proof. apply run_dax_reachable. vm_compute. reflexivity. Qed.
Lemma twins_ok : dax_reachable (run twins).
Proof. apply run_dax_reachable. vm_compute. reflexivity. Qed.

(** *** The theorems on these runs *)

Abbreviation lin rqs := (sy_lineage (run rqs)).

Lemma page_4096 rqs b w : vf_window (guest_of (run rqs) b) = Some (w, window_size) -> page_of (guest_of (run rqs) b) 4096.
Proof. intros Hw. exists w, window_size. split; [done|]. split; [by vm_compute|done]. Qed.

Lemma dax_windows_coherent_witness :
  exists bytes sp, window_page (lin twins) (guest_of (run twins) 2) 4096 = Some bytes /\
    vf_specs (guest_of (run twins) 2) !! 4096 = Some sp /\
    page_view (ln_cache (lin twins)) 2 (ms_inode sp, ms_file_offset sp) = Some bytes.
Proof.
  pose proof (dax_windows_coherent (run twins) 2 (guest_of (run twins) 2) 4096 twins_ok
    ltac:(vm_compute; reflexivity) (page_4096 twins 2 base2 ltac:(vm_compute; reflexivity))) as Hc.
  destruct (window_page (lin twins) (guest_of (run twins) 2) 4096) as [bytes|] eqn:Hw.
  - destruct Hc as (sp & m & Hsp & _ & Hv & _). exists bytes, sp. split; [reflexivity|]. split; [exact Hsp|exact Hv].
  - exfalso. revert Hw. vm_compute. discriminate.
Defined.

Definition twin (b : N) : VirtioFs := guest_of (run twins) b.

Lemma dax_guests_isolated_witness :
  window_page (sy_lineage (dax_step (run twins) 1 (QStore 4100 [Byte.x7a]))) (twin 2) 4096 =
  window_page (lin twins) (twin 2) 4096.
Proof.
  assert (sy_guests (run twins) !! 1 = Some (twin 1)) as H1 by (vm_compute; reflexivity).
  assert (sy_guests (run twins) !! 2 = Some (twin 2)) as H2 by (vm_compute; reflexivity).
  assert (request_check (run twins) 1 (twin 1) (QStore 4100 [Byte.x7a]) = true) as Hm by (vm_compute; reflexivity).
  assert (undone_check (device_step (QStore 4100 [Byte.x7a]) (lin twins, twin 1)).2 = true) as Hu
    by (vm_compute; reflexivity).
  destruct (dax_guests_isolated (run twins) 1 (twin 1) (QStore 4100 [Byte.x7a]) 2 (twin 2) twins_ok H1
    (request_check_ok (run twins) 1 (twin 1) (QStore 4100 [Byte.x7a]) Hm) (undone_check_ok _ Hu)
    ltac:(discriminate) H2) as (_ & _ & Hwin).
  exact (Hwin 4096 (page_4096 twins 2 base2 ltac:(vm_compute; reflexivity))).
Defined.

Definition guest1 : VirtioFs := guest_of (run mapped) 1.
Definition fork1 := Vfs.fork (lin mapped, guest1).
Definition child1 : VirtioFs := match fork1.2 with Ok child => child | Err _ => guest1 end.
Definition attach1 := attach_dax_window base2 window_size (fork1.1.1, child1).

Lemma guest1_there : sy_guests (run mapped) !! 1 = Some guest1.
Proof. vm_compute. reflexivity. Qed.

Lemma guest1_page : page_of guest1 4096.
Proof. apply (page_4096 mapped 1 base1). vm_compute. reflexivity. Qed.

Lemma dax_fork_is_snapshot_witness :
  exists bytes, window_page (lin mapped) guest1 4096 = Some bytes /\
    window_page attach1.1.1 attach1.1.2 4096 = Some bytes.
Proof.
  assert (budget (resume_cost guest1 + resume_cost guest1) (ln_cache (lin mapped))) as HB
    by (apply budget_check; vm_compute; reflexivity).
  assert (Vfs.fork (lin mapped, guest1) = ((fork1.1.1, fork1.1.2), Ok child1)) as Hf by (vm_compute; reflexivity).
  assert (anonymous fork1.1.1 base2 window_size) as Ha by (apply free_anonymous; vm_compute; reflexivity).
  assert (attach_dax_window base2 window_size (fork1.1.1, child1) = ((attach1.1.1, attach1.1.2), Ok tt)) as Hat
    by (vm_compute; reflexivity).
  destruct (dax_fork_is_snapshot (run mapped) 1 guest1 fork1.1.1 fork1.1.2 child1 base2 window_size
    attach1.1.1 attach1.1.2 mapped_ok guest1_there HB Hf Ha Hat) as [Hpages _].
  destruct (window_page (lin mapped) guest1 4096) as [bytes|] eqn:Hw; [|exfalso; revert Hw; vm_compute; discriminate].
  exists bytes. split; [reflexivity|]. exact (proj2 (Hpages 4096 bytes guest1_page Hw)).
Defined.

Definition snapshot1 := durable_snapshot (lin mapped, guest1).

(** The two mappings of the guest are all there are. *)
Lemma guest1_only : only_guest (ln_cache (lin mapped)) guest1.
Proof.
  intros br id Hbr. assert (active_pages <$> c_branches (ln_cache (lin mapped)) !! 1 = Some {[ 2 := 1; 4 := 1 ]}) as Ha
    by (vm_compute; reflexivity).
  change (vf_branch guest1) with 1 in *. rewrite Hbr in Ha. injection Ha as ->.
  assert (active_list (vf_active guest1) = [mkMapping 1 1 (7, 4096) flag_RW (mkCachePage 4 3);
    mkMapping 1 1 (7, 0) flag_RW (mkCachePage 2 1)]) as -> by (vm_compute; reflexivity).
  rewrite !live_count_cons. unfold mapped_by. cbn [m_branch m_page cp_id].
  destruct (decide (id = 2)) as [->|H2]; [by vm_compute|]. destruct (decide (id = 4)) as [->|H4]; [by vm_compute|].
  rewrite !decide_False by (intros [_ ?]; congruence). cbn.
  by rewrite lookup_insert_ne, lookup_singleton_ne by done.
Qed.

Lemma dax_checkpoint_complete_witness :
  exists snapshot store, snapshot1.2 = Ok snapshot /\ s_saves (sn_filesystem snapshot) store /\
    length (sn_mappings snapshot) = 2%nat.
Proof.
  assert (budget (resume_cost guest1) (ln_cache (lin mapped))) as HB by (apply budget_check; vm_compute; reflexivity).
  pose proof guest1_only as Ho.
  destruct snapshot1 as [[L1 v1] [snapshot|e]] eqn:Hs; [|exfalso; revert Hs; vm_compute; discriminate].
  destruct (dax_checkpoint_complete (run mapped) 1 guest1 L1 v1 snapshot mapped_ok guest1_there HB Ho Hs)
    as (store & Hst & Hm & _).
  exists snapshot, store. split; [reflexivity|]. split; [exact Hst|]. rewrite Hm. vm_compute. reflexivity.
Defined.

Definition setup1 := setup_mapping 7 0 8192 false 16384 (lin mapped, guest1).

Lemma setup_mapping_shows_witness :
  setup1.2 = Ok tt /\ vf_specs setup1.1.2 !! 20480 = Some (mkSpec 7 4096 false) /\
  match window_page setup1.1.1 setup1.1.2 20480 with
  | Some bytes => page_view (ln_cache (lin mapped)) 1 (7, 4096) = Some bytes
  | None => False
  end.
Proof.
  assert (budget (setup_cost 8192) (ln_cache (lin mapped))) as HB by (apply budget_check; vm_compute; reflexivity).
  assert (setup_mapping 7 0 8192 false 16384 (lin mapped, guest1) = ((setup1.1.1, setup1.1.2), Ok tt)) as Hs
    by (vm_compute; reflexivity).
  assert (undone_check setup1.1.2 = true) as Hu by (vm_compute; reflexivity).
  destruct (setup_mapping_shows (run mapped) 1 guest1 7 0 8192 false 16384 setup1.1.1 setup1.1.2 (Ok tt)
    mapped_ok guest1_there HB Hs (undone_check_ok _ Hu)) as [_ Hok].
  destruct (Hok 20480 ltac:(lia) ltac:(vm_compute; reflexivity)) as [Hsp Hpage].
  split; [vm_compute; reflexivity|]. split; [exact Hsp|].
  destruct (window_page setup1.1.1 setup1.1.2 20480) as [bytes|] eqn:Hw; [exact Hpage|].
  revert Hw. vm_compute. discriminate.
Defined.

Lemma guest_store_reaches_file_witness :
  exists old, window_page (lin mapped) guest1 4096 = Some old /\
    window_page (guest_store guest1 4100 [Byte.x7a] (lin mapped)) guest1 4096 = Some (splice 4 [Byte.x7a] old).
Proof.
  destruct (window_page (lin mapped) guest1 4096) as [old|] eqn:Hw; [|exfalso; revert Hw; vm_compute; discriminate].
  assert (budget 0 (ln_cache (lin mapped))) as HB by (apply budget_check; vm_compute; reflexivity).
  assert (vf_specs guest1 !! 4096 = Some (mkSpec 7 0 true)) as Hsp by (vm_compute; reflexivity).
  exists old. split; [reflexivity|].
  exact (proj1 (guest_store_reaches_file (run mapped) 1 guest1 4100 [Byte.x7a] (mkSpec 7 0 true) old
    mapped_ok guest1_there HB guest1_page Hw Hsp eq_refl ltac:(vm_compute; discriminate))).
Defined.

(** *** Guests that lose their windows *)

(** The guest maps a page for writing, stores into it and closes the file, as
    [FUSE_RELEASE] does while the kernel keeps the mapping. *)
Definition closed : list (N * dax_request) :=
  [(1, QAttach base1 window_size); (1, QOpen 7); (1, QSetup 7 0 4096 true 0); (1, QStore 4 [Byte.x62]); (1, QClose 7)].
Definition closed_guest : VirtioFs := guest_of (run closed) 1.

Lemma closed_ok : dax_reachable (run closed).
Proof. apply run_dax_reachable. vm_compute. reflexivity. Qed.

(** The mapping of page 0, and the file it maps, which is closed. *)
Definition closed_mapping : DaxPageMapping :=
  default (mkMapping 0 0 (0, 0) flag_R (mkCachePage 0 0)) (vf_active closed_guest !! 0).

Lemma closed_shut : shut (ln_cache (lin closed)) 1 (m_key closed_mapping).1.
Proof.
  intros br Hbr.
  assert (open_nodes <$> c_branches (ln_cache (lin closed)) !! 1 = Some {[ 7 := 0 ]}) as Ho by (vm_compute; reflexivity).
  rewrite Hbr in Ho. injection Ho as ->. vm_compute. reflexivity.
Qed.

Lemma closed_mapping_blocks_guest_witness :
  is_some (window_page (lin closed) closed_guest 0) = true /\
  exists e, (Vfs.fork (lin closed, closed_guest)).2 = Err e.
Proof.
  assert (budget (resume_cost closed_guest) (ln_cache (lin closed))) as HB by (apply budget_check; vm_compute; reflexivity).
  assert (sy_guests (run closed) !! 1 = Some closed_guest) as Hg by (vm_compute; reflexivity).
  assert (vf_active closed_guest !! 0 = Some closed_mapping) as Ha by (vm_compute; reflexivity).
  destruct (closed_mapping_blocks_guest (run closed) 1 closed_guest 0 closed_mapping closed_ok Hg HB Ha closed_shut)
    as [(e & He & _) _].
  split; [vm_compute; reflexivity|]. exists e. exact He.
Defined.

(** The guest has a read-only mapping of a page and asks for the same page at
    the same place for writing. *)
Definition readonly : list (N * dax_request) :=
  [(1, QAttach base1 window_size); (1, QOpen 7); (1, QSetup 7 0 4096 false 0)].

(** A mapping cannot be made writable in place. *)
Theorem mapping_upgrade_refused :
  dax_reachable (run readonly) /\
  (setup_mapping 7 0 4096 true 0 (lin readonly, guest_of (run readonly) 1)).2 = Err (RawOs EBUSY).
Proof. split; [apply run_dax_reachable; vm_compute; reflexivity|]. vm_compute. reflexivity. Qed.







End DaxExample.
