(* ===== verification/Lineages.v ===== *)
(** * The shared caches of a process

    A supervisor owns several file system lineages, each with its shared page
    cache; the caches share the host's temporary files, the world of the
    stores, the memory map and the counters.  This file has the operations
    that choose a cache, and accounting over several caches (crates/
    minidox-vmm/src/virtiofs.rs). *)

From S2P Require Import Prelude Generations Host CacheTypes DirtyPages SharedCache SharedCacheInv SharedCacheSteps SharedCacheOps SharedCacheIO SharedCacheForeign SharedCacheSpec RedoxBranch VmmTypes VirtioFs.

(** How an operation stops: with an error, or in a panic. *)
Inductive Stop (E : Type) := Failed (e : E) | Panicked.
Arguments Failed {E}.
Arguments Panicked {E}.

#[export] Instance Stop_eq_dec {E} `{EqDecision E} : EqDecision (Stop E).
Proof. solve_decision. Defined.

(** [li_caches] holds the caches by number; the host, the world and the
    counters in force are those of [li_process]. *)
Record Lineages (W S Id : Type) `{Countable Id} := mkLineages {
  li_process : Process W;
  li_caches : gmap N (Cache W S Id)
}.
Arguments mkLineages {W S Id _ _}.
Arguments li_process {W S Id _ _}.
Arguments li_caches {W S Id _ _}.

Module Caches.
Section caches.
Context {W S Id St : Type} `{Countable Id} `{!BranchStore W S Id St}.

Implicit Types (p : Process W) (c : Cache W S Id) (s : Lineages W S Id).

(** A cache with the host, the world and the counter of the process. *)
Definition live p c : Cache W S Id :=
  mkCache (c_id c) (pr_host p) (pr_world p) (pr_next_page_id p) (c_next_branch c) (c_branches c) (c_pages c)
    (c_known c).

Definition load p c : Lineage W S Id := mkLineage (live p c) (pr_map p) (pr_next_backend p).

(** Run an operation of lineage [cid]. *)
Definition on_lineage {E A} (cid : N) (m : M (Lineage W S Id) E A) : M (Lineages W S Id) (Stop E) A := fun s =>
  match li_caches s !! cid with
  | None => (s, Err Panicked)
  | Some c =>
      let '(L, r) := m (load (li_process s) c) in
      (mkLineages (Vfs.leave L (li_process s)) (<[cid := ln_cache L]> (li_caches s)), map_err Failed r)
  end.

(** Run an operation of the cache [cid]. *)
Definition on_cache {E A} (cid : N) (m : M (Cache W S Id) E A) : M (Lineages W S Id) (Stop E) A :=
  on_lineage cid (zoom ln_cache Vfs.set_cache m).

(** Run an operation that makes a lineage. *)
Definition add_lineage {E A} (m : M (Process W) E (Lineage W S Id * A)) : M (Lineages W S Id) (Stop E) A := fun s =>
  let '(p, r) := m (li_process s) in
  match r with
  | Ok (L, a) => (mkLineages p (<[c_id (ln_cache L) := ln_cache L]> (li_caches s)), Ok a)
  | Err e => (mkLineages p (li_caches s), Err (Failed e))
  end.

(** The branches of one lineage, in order. *)
Definition branches_of (cid : N) (vs : list VirtioFs) : list N :=
  vf_branch <$> filter (fun v => vf_cache_id v = cid) vs.

(** The second loop of [VirtioFsBranch::page_accounting]. *)
Fixpoint account_lineages (cids : list N) (vs : list VirtioFs) (total : CachePageAccounting) :
    M (Lineages W S Id) (Stop CacheError) CachePageAccounting :=
  match cids with
  | [] => mret total
  | cid :: rest =>
      accounting ← on_cache cid (Shared.page_accounting (branches_of cid vs));
      account_lineages rest vs
        (mkCacheAccounting (c_resident total + c_resident accounting) (c_shared total + c_shared accounting))
  end.

(** [VirtioFsBranch::page_accounting]: branches are grouped by their cache; an
    error of a cache would be a panic. *)
Definition page_accounting {E} (vs : list VirtioFs) : M (Lineages W S Id) (Stop E) CachePageAccounting :=
  with_err (fun _ => Panicked)
    (account_lineages (btree_elems (list_to_set (vf_cache_id <$> vs))) vs (mkCacheAccounting 0 0)).

End caches.
End Caches.

(** ** Caches beside each other *)

Section beside.
Context {W S Id St : Type} `{Countable Id} `{!BranchStore W S Id St} `{!StoreView W S Id} `{!StoreLaws W S Id}.

Import Caches.
Implicit Types (p : Process W) (c : Cache W S Id) (s : Lineages W S Id) (b : N) (k : PageKey).

(** The files the pages of a cache are in. *)
Definition owns c (f : FileId) : Prop := exists i pg, c_pages c !! i = Some pg /\ cp_backing pg = f.

(** The process changed, but not for the cache [c]. *)
Record unharmed c p p' : Prop := {
  uh_files f : owns c f -> h_files (pr_host p') !! f = h_files (pr_host p) !! f;
  uh_next_file : h_next_file (pr_host p) <= h_next_file (pr_host p');
  uh_next_page : pr_next_page_id p <= pr_next_page_id p';
  uh_issued i : w_issued (pr_world p) i -> w_issued (pr_world p') i
}.

Lemma unharmed_bytes c p p' i pg : unharmed c p p' -> c_pages c !! i = Some pg ->
  page_bytes (live p' c) pg = page_bytes (live p c) pg.
Proof. intros U Hp. unfold page_bytes, file_bytes. cbn. rewrite (uh_files _ _ _ U); [done|by exists i, pg]. Qed.

Lemma unharmed_view c p p' b k : unharmed c p p' -> page_view (live p' c) b k = page_view (live p c) b k.
Proof.
  intros U. unfold page_view. cbn. destruct (c_branches c !! b) as [br|]; [|done].
  destruct (s_ident (store br) k) as [i|]; [|done]. destruct (c_pages c !! i) as [pg|] eqn:Hp; [|done].
  f_equal. by eapply unharmed_bytes.
Qed.

Lemma unharmed_byte_view c p p' b node a : unharmed c p p' -> byte_view (live p' c) b node a = byte_view (live p c) b node a.
Proof. intros U. unfold byte_view. by rewrite (unharmed_view c p p'). Qed.

Lemma unharmed_br_ok c p p' ms b br : unharmed c p p' -> br_ok (live p c) ms b br -> br_ok (live p' c) ms b br.
Proof.
  intros U (H1 & H2 & H3 & H4 & H5). split_and!; [done|done|done| |].
  - intros k i pg Hk Hi Hp. rewrite (unharmed_bytes c p p' i) by done. by apply H4 with i.
  - intros k i pg Hk Hi Hp. rewrite (unharmed_bytes c p p' i) by done. by apply H5 with i.
Qed.

Lemma unharmed_inv c p p' ms : unharmed c p p' -> cache_inv (live p c) ms -> cache_inv (live p' c) ms.
Proof.
  intros U I. destruct U as [Uf Un Up Ui] eqn:HU. split.
  - intros i pg Hp. destruct (inv_page _ _ I i pg Hp) as ((bytes & Hb & Hl) & Hid & Hf & Hw). cbn in *.
    split_and!; [|lia|lia|by apply Ui]. exists bytes. split; [|done]. rewrite Uf; [done|by exists i, pg].
  - apply (inv_distinct _ _ I).
  - intros b k i Hk Hs. apply Ui. by apply (inv_issued _ _ I b k).
  - apply (inv_key _ _ I).
  - apply (inv_agree _ _ I).
  - intros b br Hb. destruct (inv_branch _ _ I b br Hb) as [Hlt Hok]. split; [done|].
    by eapply unharmed_br_ok.
  - apply (inv_mapping _ _ I).
  - apply (inv_known _ _ I).
Qed.

(** What every cache of the process satisfies; [ms] gives the mappings the
    clients of each cache hold. *)
Record li_inv s (ms : N -> list DaxPageMapping) : Prop := {
  li_cache cid c : li_caches s !! cid = Some c ->
    c_id c = cid /\ cache_inv (live (li_process s) c) (ms cid) /\ no_orphans (live (li_process s) c);
  li_apart cid cid' c c' f : cid <> cid' -> li_caches s !! cid = Some c -> li_caches s !! cid' = Some c' ->
    owns c f -> ~ owns c' f;
  li_fresh cid : pr_next_cache_id (li_process s) <= cid -> li_caches s !! cid = None
}.

(** The files of the other caches. *)
Definition foreign_files s (cid : N) (f : FileId) : Prop :=
  exists cid' c', cid' <> cid /\ li_caches s !! cid' = Some c' /\ owns c' f.

Lemma li_clear s ms cid c n : li_inv s ms -> li_caches s !! cid = Some c -> budget n (live (li_process s) c) ->
  clear (foreign_files s cid) n (live (li_process s) c).
Proof.
  intros I Hc B. split; [| |done].
  - intros f (cid' & c' & Hne & Hc' & i & pg & Hp & <-). destruct (li_cache _ _ I _ _ Hc') as (_ & J & _).
    by destruct (inv_page _ _ J i pg Hp) as (_ & _ & Hf & _).
  - intros i pg Hp (cid' & c' & Hne & Hc' & Ho). by apply (li_apart _ _ I cid' cid c' c _ Hne Hc' Hc Ho); exists i, pg.
Qed.

Definition with_cache (ms : N -> list DaxPageMapping) (cid : N) (l : list DaxPageMapping) (j : N) : list DaxPageMapping :=
  if decide (j = cid) then l else ms j.

(** One cache and the process moved on; the others are in order. *)
Lemma li_step s ms cid c c' p' ms' n :
  li_inv s ms -> li_caches s !! cid = Some c ->
  spares (foreign_files s cid) (live (li_process s) c) c' -> clear (foreign_files s cid) n c' ->
  pr_host p' = c_host c' -> pr_world p' = c_world c' -> pr_next_page_id p' = c_next_page_id c' ->
  pr_next_cache_id p' = pr_next_cache_id (li_process s) ->
  cache_inv c' ms' -> no_orphans c' ->
  li_inv (mkLineages p' (<[cid := c']> (li_caches s))) (with_cache ms cid ms') /\
  forall cid' c0, cid' <> cid -> li_caches s !! cid' = Some c0 -> unharmed c0 (li_process s) p'.
Proof.
  intros I Hc [Sid Sh Hmono Si] [Cb Cp _] Hh Hw Hn Hcid J O.
  assert (forall cid' c0, cid' <> cid -> li_caches s !! cid' = Some c0 -> unharmed c0 (li_process s) p') as HU.
  { intros cid' c0 Hne Hc0. destruct Sh as [Sf Sn]. cbn in *. split; rewrite ?Hh, ?Hw, ?Hn; try done.
    intros f Hf. apply Sf. by exists cid', c0. }
  split; [|exact HU]. split; cbn.
  - intros cid' c0. rewrite lookup_insert_Some. intros [[<- <-]|[Hne Hc0]].
    + assert (live p' c' = c') as -> by (unfold live; rewrite Hh, Hw, Hn; by destruct c').
      unfold with_cache. rewrite decide_True by done. split; [|done]. rewrite Sid. cbn. by apply (li_cache _ _ I _ c).
    + destruct (li_cache _ _ I _ _ Hc0) as (Hid & J0 & O0). unfold with_cache. rewrite decide_False by done.
      split; [done|]. split; [|exact O0]. eapply unharmed_inv; [by apply (HU cid')|done].
  - intros i j ci cj f Hij. rewrite !lookup_insert_Some. intros [[<- <-]|[Hi Hci]] [[<- <-]|[Hj Hcj]]; try done.
    + intros (x & pg & Hp & <-) Ho. apply (Cp x pg Hp). by exists j, cj.
    + intros Ho (x & pg & Hp & <-). apply (Cp x pg Hp). by exists i, ci.
    + by apply (li_apart _ _ I i j).
  - intros cid' Hle. rewrite Hcid in Hle. rewrite lookup_insert_ne; [by apply (li_fresh _ _ I)|].
    intros <-. rewrite (li_fresh _ _ I cid) in Hc by done. done.
Qed.

(** Only the process moved on. *)
Lemma li_process_step s ms p' :
  li_inv s ms -> (forall cid c, li_caches s !! cid = Some c -> unharmed c (li_process s) p') ->
  pr_next_cache_id (li_process s) <= pr_next_cache_id p' -> li_inv (mkLineages p' (li_caches s)) ms.
Proof.
  intros I HU Hle. split; cbn.
  - intros cid c Hc. destruct (li_cache _ _ I _ _ Hc) as (Hid & J & O). split; [done|]. split; [|exact O].
    eapply unharmed_inv; [by apply (HU cid)|done].
  - apply (li_apart _ _ I).
  - intros cid Hge. apply (li_fresh _ _ I). lia.
Qed.

(** A cache taken out of service. *)
Lemma li_delete s ms cid : li_inv s ms -> li_inv (mkLineages (li_process s) (delete cid (li_caches s))) ms.
Proof.
  intros [I1 I2 I3]. split; cbn.
  - intros cid' c [_ Hc]%lookup_delete_Some. by apply I1.
  - intros i j ci cj f Hij [_ Hi]%lookup_delete_Some [_ Hj]%lookup_delete_Some. by apply (I2 i j).
  - intros cid' Hle. apply lookup_delete_None. right. by apply I3.
Qed.

(** A new cache without pages. *)
Lemma li_add s ms p' cid c' :
  li_inv s ms -> (forall cid' c0, li_caches s !! cid' = Some c0 -> unharmed c0 (li_process s) p') ->
  li_caches s !! cid = None -> cid < pr_next_cache_id p' -> pr_next_cache_id (li_process s) <= pr_next_cache_id p' ->
  c_pages c' = ∅ -> c_id c' = cid -> cache_inv (live p' c') [] -> no_orphans (live p' c') ->
  li_inv (mkLineages p' (<[cid := c']> (li_caches s))) (with_cache ms cid []).
Proof.
  intros I HU Hn Hlt Hle Hp Hid J O. assert (forall f, ~ owns c' f) as Hno.
  { intros f (i & pg & Hi & _). by rewrite Hp in Hi. }
  split; cbn.
  - intros cid' c0. rewrite lookup_insert_Some. intros [[<- <-]|[Hne Hc0]].
    + unfold with_cache. by rewrite decide_True.
    + destruct (li_cache _ _ I _ _ Hc0) as (Hid0 & J0 & O0). unfold with_cache. rewrite decide_False by done.
      split; [done|]. split; [|exact O0]. eapply unharmed_inv; [by apply (HU cid')|done].
  - intros i j ci cj f Hij. rewrite !lookup_insert_Some. intros [[<- <-]|[Hi Hci]] [[<- <-]|[Hj Hcj]] Ho Ho'; try done.
    + by apply (Hno f).
    + by apply (Hno f).
    + by apply (li_apart _ _ I i j ci cj f).
  - intros cid' Hge. rewrite lookup_insert_ne by lia. apply (li_fresh _ _ I). lia.
Qed.

End beside.
