(* ===== verification/LineageIds.v ===== *)
(** * Lineages keep their numbers

    No operation changes the number of a cache, or the cache of a virtio-fs
    branch; a forked branch is in its source's cache.  So a branch's cache is
    always found. *)

From S2P Require Import Prelude Generations Host CacheTypes DirtyPages SharedCache Storage RedoxBranch VmmTypes VirtioFs Lineages.

Section ids.
Context {W S Id St : Type} `{Countable Id} `{!BranchStore W S Id St}.

Implicit Types (c : Cache W S Id) (L : Lineage W S Id) (v : VirtioFs).

(** ** Caches *)

Definition same_id c c' : Prop := c_id c' = c_id c.

#[export] Instance same_id_preorder : PreOrder same_id.
Proof. split; [by intros c|intros c c' c'' E E'; unfold same_id in *; congruence]. Qed.

Create HintDb cache_ids.

Abbreviation C := (M (Cache W S Id) CacheError).

Ltac ids_step :=
  lazymatch goal with
  | |- keeps _ (with_err _ _) => apply keeps_with_err
  | |- keeps same_id (modify _) => apply keeps_modify; intros ?; try reflexivity
  | |- keeps same_id (Shared.put_branch _ _) => apply keeps_modify; intros ?; reflexivity
  | |- _ => first [keeps_step | solve [auto with cache_ids]]
  end.
Ltac ids_steps := repeat (ids_step; cbv beta zeta).

Lemma ids_io {A} (m : IO A) : keeps same_id (Shared.io m : C A).
Proof. intros c. unfold Shared.io, zoom. by destruct (with_err _ m _). Qed.

Lemma ids_branch_mut b : keeps same_id (Shared.branch_mut b : C _).
Proof. intros c. unfold Shared.branch_mut. by destruct (c_branches c !! b). Qed.
#[local] Hint Resolve ids_io ids_branch_mut : cache_ids.

Lemma ids_on_store {A} b (m : M (W * S) io_error A) : keeps same_id (Shared.on_store b m : C A).
Proof. unfold Shared.on_store. ids_steps. Qed.
#[local] Hint Resolve ids_on_store : cache_ids.

Lemma ids_from_bytes bytes : keeps same_id (Shared.from_bytes bytes : C _).
Proof. unfold Shared.from_bytes. ids_steps. Qed.
#[local] Hint Resolve ids_from_bytes : cache_ids.

Lemma ids_duplicate p : keeps same_id (Shared.duplicate p : C _).
Proof. unfold Shared.duplicate. ids_steps. Qed.
#[local] Hint Resolve ids_duplicate : cache_ids.

Lemma ids_load_page b i node off : keeps same_id (Shared.load_page b i node off : C _).
Proof. unfold Shared.load_page. ids_steps. Qed.
#[local] Hint Resolve ids_load_page : cache_ids.

Lemma ids_with_store {A} b (m : M (W * S) io_error A) : keeps same_id (Shared.with_store_mut b m : C A).
Proof. unfold Shared.with_store_mut. ids_steps. Qed.

Lemma ids_fork b : keeps same_id (Shared.fork b : C _).
Proof. unfold Shared.fork. ids_steps. Qed.

Lemma ids_visible_in bs key seen : keeps same_id (Shared.visible_in bs key seen : C _).
Proof. revert seen. induction bs; intros seen; cbn; ids_steps. Qed.
#[local] Hint Resolve ids_visible_in : cache_ids.

Lemma ids_visible keys bs seen : keeps same_id (Shared.visible_identities keys bs seen : C _).
Proof. revert seen. induction keys; intros seen; cbn; ids_steps. Qed.
#[local] Hint Resolve ids_visible : cache_ids.

Lemma ids_remove b : keeps same_id (Shared.remove_branch b : C _).
Proof. unfold Shared.remove_branch. ids_steps. Qed.

Lemma ids_open b node : keeps same_id (Shared.open b node : C _).
Proof. unfold Shared.open. ids_steps. Qed.

Lemma ids_any_sees bs i node off : keeps same_id (Shared.any_sees bs i node off : C _).
Proof. induction bs; cbn; ids_steps. Qed.
#[local] Hint Resolve ids_any_sees : cache_ids.

Lemma ids_retire b i node off : keeps same_id (Shared.retire_identity b i node off : C _).
Proof. unfold Shared.retire_identity. ids_steps. Qed.
#[local] Hint Resolve ids_retire : cache_ids.

Lemma ids_copy b i p node off : keeps same_id (Shared.copy_page b i p node off : C _).
Proof. unfold Shared.copy_page. ids_steps. Qed.
#[local] Hint Resolve ids_copy : cache_ids.

Lemma ids_activate b key flags p : keeps same_id (Shared.activate b key flags p : C _).
Proof. unfold Shared.activate. ids_steps. Qed.
#[local] Hint Resolve ids_activate : cache_ids.

Lemma ids_map b node off flags : keeps same_id (Shared.map_page b node off flags : C _).
Proof. unfold Shared.map_page. ids_steps. Qed.
#[local] Hint Resolve ids_map : cache_ids.

Lemma ids_unmap b m : keeps same_id (Shared.unmap b m : C _).
Proof. unfold Shared.unmap. ids_steps. Qed.
#[local] Hint Resolve ids_unmap : cache_ids.

Lemma ids_read_loop fuel b node e cursor : keeps same_id (Shared.read_loop fuel b node e cursor : C _).
Proof. revert cursor. induction fuel; intros cursor; cbn; ids_steps. Qed.
#[local] Hint Resolve ids_read_loop : cache_ids.

Lemma ids_read b node off len : keeps same_id (Shared.read b node off len : C _).
Proof. unfold Shared.read. ids_steps. Qed.

Lemma ids_write_loop fuel b node off bytes e cursor : keeps same_id (Shared.write_loop fuel b node off bytes e cursor : C _).
Proof. revert cursor. induction fuel; intros cursor; cbn; ids_steps. Qed.
#[local] Hint Resolve ids_write_loop : cache_ids.

Lemma ids_write b node off bytes : keeps same_id (Shared.write b node off bytes : C _).
Proof. unfold Shared.write. ids_steps. Qed.

Lemma ids_sync_page b key : keeps same_id (Shared.sync_page b key : C _).
Proof. unfold Shared.sync_page. ids_steps. Qed.
#[local] Hint Resolve ids_sync_page : cache_ids.

Lemma ids_sync_pages b keys : keeps same_id (Shared.sync_pages b keys : C _).
Proof. unfold Shared.sync_pages. ids_steps. Qed.
#[local] Hint Resolve ids_sync_pages : cache_ids.

Lemma ids_sync_all b : keeps same_id (Shared.sync_all b : C _).
Proof. unfold Shared.sync_all. ids_steps. Qed.

Lemma ids_sync b node : keeps same_id (Shared.sync b node : C _).
Proof. unfold Shared.sync. ids_steps. Qed.

Lemma ids_close b node : keeps same_id (Shared.close b node : C _).
Proof. unfold Shared.close. ids_steps. Qed.

#[local] Hint Resolve ids_with_store ids_fork ids_remove ids_open ids_read ids_write ids_sync ids_sync_all ids_close : cache_ids.

(** ** Virtio-fs branches *)

Definition same_place (s s' : Lineage W S Id * VirtioFs) : Prop :=
  c_id (ln_cache s'.1) = c_id (ln_cache s.1) /\ vf_cache_id s'.2 = vf_cache_id s.2.

#[export] Instance same_place_preorder : PreOrder same_place.
Proof. split; [by intros s|]. intros s s' s'' [] []. split; congruence. Qed.

Lemma place_in_cache {A} (m : C A) : keeps same_id m -> keeps same_place (Vfs.in_cache m).
Proof. apply keeps_zoom. by intros s c E. Qed.

Lemma place_update {E} f : (forall v, vf_cache_id (f v) = vf_cache_id v) ->
  keeps same_place (Vfs.update (W := W) (S := S) (Id := Id) (E := E) f).
Proof. intros Hf. apply keeps_modify. intros s. split; [done|apply Hf]. Qed.

Ltac place_step :=
  lazymatch goal with
  | |- keeps _ (with_err _ _) => apply keeps_with_err
  | |- keeps same_place (Vfs.in_cache _) => apply place_in_cache; ids_steps
  | |- keeps same_place (Vfs.cache_io _) => unfold Vfs.cache_io
  | |- keeps same_place (Vfs.cache_as _ _) => unfold Vfs.cache_as
  | |- keeps same_place (Vfs.io_as _ _) => unfold Vfs.io_as
  | |- keeps same_place Vfs.self => unfold Vfs.self
  | |- keeps same_place (Vfs.update _) => apply place_update; intros ?; reflexivity
  | |- keeps same_place (modify _) => apply keeps_modify; intros ?; split; reflexivity
  | |- _ => first [keeps_step | solve [auto with cache_ids]]
  end.
Ltac place_steps := repeat (place_step; cbv beta zeta).

Abbreviation V := (M (Lineage W S Id * VirtioFs) io_error).
Abbreviation VE := (M (Lineage W S Id * VirtioFs) VmmError).

Lemma place_remove_offset off r : keeps same_place (Vfs.remove_offset off r : V _).
Proof. unfold Vfs.remove_offset, Vfs.mmap_anonymous. place_steps. Qed.
#[local] Hint Resolve place_remove_offset : cache_ids.

Lemma place_activate_one w len off : keeps same_place (Vfs.activate_one w len off : V _).
Proof. unfold Vfs.activate_one, Vfs.mmap_shared. place_steps. Qed.
#[local] Hint Resolve place_activate_one : cache_ids.

Lemma place_activate_loop w len l done : keeps same_place (Vfs.activate_loop w len l done : V _).
Proof. revert done. induction l; intros done; cbn; place_steps. Qed.
#[local] Hint Resolve place_activate_loop : cache_ids.

Lemma place_suspend : keeps same_place (Vfs.suspend_mappings : V _).
Proof. unfold Vfs.suspend_mappings. place_steps. Qed.
Lemma place_resume : keeps same_place (Vfs.resume_mappings : V _).
Proof. unfold Vfs.resume_mappings, Vfs.activate_offsets. place_steps. Qed.
#[local] Hint Resolve place_suspend place_resume : cache_ids.

Lemma place_create_file name size : keeps same_place (Vfs.create_file name size : VE _).
Proof. unfold Vfs.create_file. place_steps. Qed.
Lemma place_read node off len : keeps same_place (Vfs.read node off len : VE _).
Proof. unfold Vfs.read. place_steps. Qed.
Lemma place_write node off bytes : keeps same_place (Vfs.write node off bytes : VE _).
Proof. unfold Vfs.write, Vfs.write_closed. place_steps. Qed.
Lemma place_snapshot : keeps same_place (Vfs.durable_snapshot : VE _).
Proof. unfold Vfs.durable_snapshot, Vfs.take_snapshot. place_steps. Qed.
Lemma place_drop : keeps same_place (Vfs.drop_branch (W := W) (S := S) (Id := Id)).
Proof. unfold Vfs.drop_branch. place_steps. Qed.

(** ** New branches *)

Lemma wp_from_parts_place l b specs L :
  wp (Vfs.from_parts l b specs) (fun v L' => c_id (ln_cache L') = c_id (ln_cache L) /\ vf_cache_id v = c_id (ln_cache L))
    (fun _ L' => c_id (ln_cache L') = c_id (ln_cache L)) L.
Proof.
  unfold Vfs.from_parts. wp_steps. eapply (wp_keeps (fun L L' : Lineage W S Id => same_id (ln_cache L) (ln_cache L'))).
  - apply keeps_for_each; [split; [by intros x|by intros x y z -> ->]|]. intros i. unfold Vfs.on_cache.
    apply (keeps_zoom same_id); [done|]. ids_steps.
  - intros _ L' E. wp_steps. cbn. done.
  - done.
Qed.

Lemma wp_fork_place s :
  wp (Vfs.fork : VE _) (fun child s' => same_place s s' /\ vf_cache_id child = c_id (ln_cache s.1)) (fun _ => same_place s) s.
Proof.
  unfold Vfs.fork, Vfs.self. wp_steps. eapply (wp_keeps same_place); [place_steps| |done]. intros _ s1 [E1 E1']. wp_steps.
  eapply (wp_keeps same_place); [place_steps| |]; intros r s2 [E2 E2']; wp_steps;
    (eapply (wp_keeps same_place); [place_steps| |]); intros r' s3 [E3 E3']; wp_steps.
  - eapply wp_mono; [apply wp_from_parts_place| |]; cbn; unfold same_place; cbn; intuition congruence.
  - split; cbn in *; congruence.
  - split; cbn in *; congruence.
  - split; cbn in *; congruence.
Qed.

End ids.
