(* ===== verification/ForkSupervisor.v ===== *)
(** * The supervisor of minidox-fork (crates/minidox-fork/src/lib.rs)

    A [Supervisor] owns a forest of VMs: the memory of a VM is a [PageBranch],
    its file system a branch of the shared page cache of its lineage.  A fork
    publishes both.  This file has the data and the operations. *)

From S2P Require Import Prelude Generations Host CacheTypes ForkPages ForkForest DirtyPages SharedCache RedoxBranch VmmTypes VirtioFs Lineages.

(** [SupervisedVm]. *)
Record SupervisedVm := mkSupervisedVm { sv_memory : PageBranch; sv_cache : N; sv_branch : N }.

(** [Supervisor]; [filesystems] are the caches of [su_lineages]. *)
Record Supervisor (W S Id : Type) `{Countable Id} := mkSupervisor {
  su_next_vm : N;
  su_next_page : N;
  su_vms : gmap VmId SupervisedVm;
  su_lineages : Lineages W S Id
}.
Arguments mkSupervisor {W S Id _ _}.
Arguments su_next_vm {W S Id _ _}.
Arguments su_next_page {W S Id _ _}.
Arguments su_vms {W S Id _ _}.
Arguments su_lineages {W S Id _ _}.

Module Sup.
Section supervisor.
Context {W S Id St : Type} `{Countable Id} `{!BranchStore W S Id St}.

Abbreviation supervisor := (Supervisor W S Id).
Abbreviation SU := (M (Supervisor W S Id) (Stop Error)).
Abbreviation C := (M (Cache W S Id) CacheError).

Definition set_vms (v : gmap VmId SupervisedVm) (s : supervisor) : supervisor :=
  mkSupervisor (su_next_vm s) (su_next_page s) v (su_lineages s).
Definition set_next_vm (n : N) (s : supervisor) : supervisor :=
  mkSupervisor n (su_next_page s) (su_vms s) (su_lineages s).
Definition set_next_page (n : N) (s : supervisor) : supervisor :=
  mkSupervisor (su_next_vm s) n (su_vms s) (su_lineages s).
Definition set_lineages (l : Lineages W S Id) (s : supervisor) : supervisor :=
  mkSupervisor (su_next_vm s) (su_next_page s) (su_vms s) l.

(** [Supervisor::new], in a process that has no caches yet. *)
Definition new (p : Process W) : supervisor := mkSupervisor 1 1 ∅ (mkLineages p ∅).

(** [self.filesystems[&cache]] and an operation on it; a [CacheError] becomes
    an [Error]. *)
Definition on_filesystem {A} (cid : N) (m : C A) : SU A :=
  zoom su_lineages set_lineages (Caches.on_cache cid (with_err ErrCache m)).

(** [RedoxBranch::create]. *)
Definition create_store (size : N) : SU S :=
  zoom su_lineages set_lineages
    (zoom li_process (fun p l => mkLineages p (li_caches l))
      (zoom pr_world (fun w p => mkProcess (pr_host p) w (pr_next_page_id p) (pr_next_cache_id p) (pr_map p)
                                   (pr_next_backend p))
        (with_err (fun e => Failed (ErrIo e)) (bs_create size)))).

(** [SharedPageCache::new] and [self.filesystems.insert]: the cache, and its
    first branch. *)
Definition new_cache (store : S) : SU (N * N) := fun s =>
  let l := su_lineages s in
  let p := li_process l in
  let id := pr_next_cache_id p in
  let '(cache, branch) := Shared.new id (pr_host p) (pr_world p) (pr_next_page_id p) store in
  let p' := mkProcess (pr_host p) (pr_world p) (pr_next_page_id p) (wrapping_add id 1) (pr_map p)
              (pr_next_backend p) in
  (set_lineages (mkLineages p' (<[id := cache]> (li_caches l))) s, Ok (id, branch)).

(** [self.next_vm]; the counter wraps in a release build. *)
Definition take_vm_id : SU VmId :=
  s ← get;
  _ ← modify (set_next_vm (wrapping_add (su_next_vm s) 1));
  mret (su_next_vm s).

Definition find_vm (vm : VmId) : SU SupervisedVm :=
  s ← get;
  lift (ok_or (Failed (VmNotFound vm)) (su_vms s !! vm)).

Definition put_vm (vm : VmId) (v : SupervisedVm) : SU unit := modify (fun s => set_vms (<[vm := v]> (su_vms s)) s).

(** [create_vm]. *)
Definition create_vm : SU VmId :=
  id ← take_vm_id;
  filesystem ← create_store (32 * 1024 * 1024);
  '(cache_id, branch) ← new_cache filesystem;
  _ ← put_vm id (mkSupervisedVm Branch.empty cache_id branch);
  mret id.

(** [create_file]. *)
Definition create_file (vm : VmId) (name : string) (size : N) : SU NodeId :=
  v ← find_vm vm;
  on_filesystem (sv_cache v) (Shared.with_store_mut (sv_branch v) (bs_create_file name size)).

(** [fork_vm]. *)
Definition fork_vm (source : VmId) : SU VmId :=
  source_vm ← find_vm source;
  child_filesystem ← on_filesystem (sv_cache source_vm) (Shared.fork (sv_branch source_vm));
  let '(memory, child_memory) := Branch.fork (sv_memory source_vm) in
  _ ← put_vm source (mkSupervisedVm memory (sv_cache source_vm) (sv_branch source_vm));
  child ← take_vm_id;
  _ ← put_vm child (mkSupervisedVm child_memory (sv_cache source_vm) child_filesystem);
  mret child.

(** [remove_vm]: the VM is gone even when its branch cannot be removed. *)
Definition remove_vm (vm : VmId) : SU unit :=
  removed ← find_vm vm;
  _ ← modify (fun s => set_vms (delete vm (su_vms s)) s);
  _ ← on_filesystem (sv_cache removed) (Shared.remove_branch (sv_branch removed));
  s ← get;
  if existsb (fun v => sv_cache v =? sv_cache removed) (map_to_list (su_vms s)).*2 then mret tt
  else modify (fun s => set_lineages
         (mkLineages (li_process (su_lineages s)) (delete (sv_cache removed) (li_caches (su_lineages s)))) s).

(** The body of [write_file] on the branch's cache. *)
Definition write_open (branch : N) (node : NodeId) (offset : N) (bytes : list byte) : C unit :=
  _ ← Shared.open branch node;
  result ← attempt (Shared.write branch node offset bytes);
  close_result ← attempt (Shared.close branch node);
  _ ← lift result;
  lift close_result.

(** [write_file]. *)
Definition write_file (vm : VmId) (node : NodeId) (offset : N) (bytes : list byte) : SU unit :=
  v ← find_vm vm;
  on_filesystem (sv_cache v) (write_open (sv_branch v) node offset bytes).

(** The body of [read_file]; the buffer is cut to the bytes read. *)
Definition read_open (branch : N) (node : NodeId) (offset len : N) : C (list byte) :=
  _ ← Shared.open branch node;
  result ← attempt (Shared.read branch node offset len);
  close_result ← attempt (Shared.close branch node);
  bytes ← lift result;
  _ ← lift close_result;
  mret bytes.

(** [read_file]. *)
Definition read_file (vm : VmId) (node : NodeId) (offset len : N) : SU (list byte) :=
  v ← find_vm vm;
  on_filesystem (sv_cache v) (read_open (sv_branch v) node offset len).

(** [write_memory] and [read_memory]: guest memory is the branch at the empty
    path. *)
Definition write_memory (vm : VmId) (guest_address : N) (bytes : list byte) : SU unit :=
  v ← find_vm vm;
  s ← get;
  let '((memory, next'), r) := Branch.write EmptyString guest_address bytes (sv_memory v, su_next_page s) in
  _ ← modify (set_next_page next');
  _ ← put_vm vm (mkSupervisedVm memory (sv_cache v) (sv_branch v));
  lift (map_err Failed r).

Definition read_memory (vm : VmId) (guest_address len : N) : SU (list byte) :=
  v ← find_vm vm;
  lift (map_err Failed (Branch.read (sv_memory v) EmptyString guest_address len)).

(** The loop of [page_accounting]; an error of a cache would be a panic. *)
Fixpoint account_filesystems (cids : list N) (vs : list SupervisedVm) (total : SpaceAccounting) :
    SU SpaceAccounting :=
  match cids with
  | [] => mret total
  | cid :: rest =>
      accounting ← with_err (fun _ => Panicked)
        (on_filesystem cid (Shared.page_accounting (sv_branch <$> filter (fun v => sv_cache v = cid) vs)));
      account_filesystems rest vs
        (mkAccounting (resident_pages total + c_resident accounting) (shared_pages total + c_shared accounting))
  end.

(** [page_accounting]. *)
Definition page_accounting : SU PageAccounting :=
  s ← get;
  let vs := omap (fun vm => su_vms s !! vm) (btree_keys (su_vms s)) in
  filesystem ← account_filesystems (btree_keys (li_caches (su_lineages s))) vs (mkAccounting 0 0);
  mret (mkPageAccounting (Branch.account_pages (sv_memory <$> vs)) filesystem).

End supervisor.
End Sup.
