(* ===== verification/ForkSupervisorSpec.v ===== *)
(** * What the supervisor of minidox-fork promises

    The forest of VMs as a transition system.  In every state it reaches a VM
    has its own branch of its lineage's cache; operations on one VM leave the
    memory and the files of every other VM alone, a fork is a snapshot of
    both, and no operation panics. *)

From S2P Require Import Prelude Generations Host CacheTypes ForkPages ForkForest DirtyPages SharedCache SharedCacheInv SharedCacheSteps SharedCacheOps SharedCacheIO SharedCacheLife SharedCacheLens SharedCacheForeign Identity MemStore SharedCacheSpec RedoxBranch VmmTypes VirtioFs VirtioFsLaws VirtioFsExample Lineages ForkSupervisor.
Import Sup.

(** Making a store, and adding a file to one. *)
Class MakerLaws (W S Id St : Type) `{!BranchStore W S Id St} `{!StoreView W S Id} : Prop := {
  law_create size n w : w_room w (1 + n) ->
    wp (bs_create size)
      (fun s w' => (forall i, w_issued w i -> w_issued w' i) /\ w_room w' n /\ store_ok w' s)
      (fun _ w' => (forall i, w_issued w i -> w_issued w' i) /\ w_room w' n) w;
  world_create_file name size : world_used (bs_create_file name size)
}.

Section cache_ops.
Context {W S Id St : Type} `{Countable Id} `{!BranchStore W S Id St} `{!StoreView W S Id} `{!SavedView S St}
  `{!StoreLaws W S Id} `{!LenLaws W S Id} `{!BranchLaws W S Id St} `{!WorldLaws W S Id} `{!MakerLaws W S Id St}.

Implicit Types (c : Cache W S Id) (b : N) (node : NodeId).

(** The branches of [c] but [b] are there and see what they saw. *)
Definition others_kept b c c' : Prop :=
  forall b', b' <> b -> is_Some (c_branches c !! b') ->
    is_Some (c_branches c' !! b') /\ forall node a, byte_view c' b' node a = byte_view c b' node a.

(** What an operation of branch [b] that uses up to [n] numbers guarantees,
    whether it succeeds or not. *)
Record cache_op {A} (b n : N) (m : M (Cache W S Id) CacheError A) : Prop := {
  co_run c ms : good n c ms -> let c' := (m c).1 in exists ms', good 0 c' ms' /\ others_kept b c c';
  co_careful F : careful (clear F) (spares F) n anything m
}.

(** An operation that removes no branch. *)
Definition keeps_branch {A} b (m : M (Cache W S Id) CacheError A) : Prop :=
  forall c, is_Some (c_branches c !! b) -> is_Some (c_branches (m c).1 !! b).

Lemma lens_keep {A} b (m : M (Cache W S Id) CacheError A) : Prelude.keeps lens_kept m -> keeps_branch b m.
Proof. intros Hm c [br Hb]. destruct (Hm c b br Hb) as (br' & Hb' & _). by exists br'. Qed.

Lemma others_lens b c c' : lens_kept c c' ->
  (forall b' node a, b' <> b -> byte_view c' b' node a = byte_view c b' node a) -> others_kept b c c'.
Proof.
  intros HL HV b' Hne [br Hb]. destruct (HL b' br Hb) as (br' & Hb' & _). split; [by exists br'|]. intros node a. by apply HV.
Qed.

Lemma wp_both {A} (m : M (Cache W S Id) CacheError A) (P : Cache W S Id -> Prop) c :
  wp m (fun _ => P) (fun _ => P) c -> P (m c).1.
Proof. unfold wp. by destruct (m c) as [c' [a|e]]. Qed.

Lemma region_other b node lo hi b' node' a : b' <> b -> region b node lo hi b' node' a = false.
Proof. intros Hne. unfold region. rewrite bool_decide_eq_false_2; [done|]. by intros [? _]. Qed.

(** ** The operations *)

Lemma write_open_lens b node offset bytes : Prelude.keeps lens_kept (write_open b node offset bytes).
Proof.
  unfold write_open. keeps_steps; [apply lens_open|apply lens_write|apply lens_close].
Qed.

Lemma write_open_op b node offset bytes : cache_op b (3 * lenN bytes) (write_open b node offset bytes).
Proof.
  split.
  - intros c ms G. apply (wp_both _ (fun c' => exists ms', good 0 c' ms' /\ others_kept b c c')).
    apply (wp_and_keeps lens_kept); [apply write_open_lens|]. rewrite <-(N.add_0_r (3 * lenN bytes)) in G.
    unfold write_open. wp_steps. apply wp_open.
    2:{ intros e c1 Q1 L1. exists ms. split; [eapply good_le; [by eapply good_quiet|lia]|].
        apply others_lens; [done|]. intros b' node' a _. apply byte_view_same. by eapply views_quiet. }
    intros c1 Q1. pose proof (good_quiet _ _ _ _ G Q1) as G1. pose proof (views_quiet _ _ _ _ G Q1) as V1. wp_steps.
    eapply wp_cache_write; [exact G1| |].
    + intros c2 br _ G2 _ Hw. wp_steps.
      apply wp_close; [intros c3 Q3|intros e c3 Q3]; wp_steps; intros L3; exists ms;
        (split; [by eapply good_quiet|apply others_lens; [done|]]); intros b' node' a Hne;
        rewrite (byte_view_same c2 c3) by (by eapply views_quiet); rewrite Hw, region_other by done; by apply byte_view_same.
    + intros e c2 ms' _ G2 Ho. wp_steps.
      apply wp_close; [intros c3 Q3|intros e3 c3 Q3]; wp_steps; intros L3; exists ms';
        (split; [by eapply good_quiet|apply others_lens; [done|]]); intros b' node' a Hne;
        rewrite (byte_view_same c2 c3) by (by eapply views_quiet); rewrite Ho by (by apply region_other); by apply byte_view_same.
  - intros F. unfold write_open. careful_step; [apply foreign_open|].
    eapply (careful_bind _ _ _ _ 0); [apply _..|eapply careful_attempt, foreign_write| |lia]. intros r _.
    repeat careful_step; apply foreign_close.
Qed.

(** An operation nobody sees, but for mappings left behind. *)
Lemma unseen_op {A} b n (m : M (Cache W S Id) CacheError A) :
  Prelude.keeps lens_kept m -> (forall F, careful (clear F) (spares F) n anything m) ->
  (forall c ms, good n c ms -> let c' := (m c).1 in exists ms', good 0 c' ms' /\ same_views c c') -> cache_op b n m.
Proof.
  intros HL HF Hm. split; [|done]. intros c ms G. destruct (Hm c ms G) as (ms' & G' & V). exists ms'. split; [done|].
  apply others_lens; [apply HL|]. intros b' node a _. by apply byte_view_same.
Qed.

Lemma read_open_lens b node offset len : Prelude.keeps lens_kept (read_open b node offset len).
Proof. unfold read_open. keeps_steps; [apply lens_open|apply lens_read|apply lens_close]. Qed.

Lemma read_open_op b node offset len : cache_op b (3 * len) (read_open b node offset len).
Proof.
  apply unseen_op; [apply read_open_lens| |].
  { intros F. unfold read_open. careful_step; [apply foreign_open|].
    eapply (careful_bind _ _ _ _ 0); [apply _..|eapply careful_attempt, foreign_read| |lia]. intros r _.
    repeat careful_step; apply foreign_close. }
  intros c ms G. apply (wp_both _ (fun c' => exists ms', good 0 c' ms' /\ same_views c c')).
  rewrite <-(N.add_0_r (3 * len)) in G. unfold read_open. wp_steps. apply wp_open.
  2:{ intros e c1 Q1. exists ms. split; [eapply good_le; [by eapply good_quiet|lia]|by eapply views_quiet]. }
  intros c1 Q1. pose proof (good_quiet _ _ _ _ G Q1) as G1. pose proof (views_quiet _ _ _ _ G Q1) as V1. wp_steps.
  eapply wp_cache_read; [exact G1| |].
  - intros bytes c2 br _ G2 V2 _ _. wp_steps.
    apply wp_close; [intros c3 Q3|intros e c3 Q3]; wp_steps; exists ms;
      (split; [by eapply good_quiet|intros b' k Hk]); rewrite (views_quiet _ _ _ _ G2 Q3), V2, V1 by done; done.
  - intros e c2 ms' _ G2 V2. wp_steps.
    apply wp_close; [intros c3 Q3|intros e3 c3 Q3]; wp_steps; exists ms';
      (split; [by eapply good_quiet|intros b' k Hk]); rewrite (views_quiet _ _ _ _ G2 Q3), V2, V1 by done; done.
Qed.

Lemma page_accounting_op b requested : cache_op b 0 (Shared.page_accounting requested).
Proof.
  apply unseen_op; [apply lens_page_accounting|intros F; apply foreign_page_accounting|].
  intros c ms G. apply (wp_both _ (fun c' => exists ms', good 0 c' ms' /\ same_views c c')).
  eapply wp_page_accounting; [exact G| |].
  - intros sets c' G' V' _. by exists ms.
  - intros b' c' G' V' _ _. by exists ms.
Qed.

Lemma views_but_file_other c c' b node b' node' a : views_but_file c c' b node -> b' <> b ->
  byte_view c' b' node' a = byte_view c b' node' a.
Proof. intros HV Hne. unfold byte_view. rewrite HV; [done|apply aligned_page|]. cbn. congruence. Qed.

Lemma create_file_op b name size : cache_op b 1 (Shared.with_store_mut b (bs_create_file name size)).
Proof.
  split; [|intros F; apply careful_use_store, world_create_file].
  intros c ms G. apply (wp_both _ (fun c' => exists ms', good 0 c' ms' /\ others_kept b c c')).
  destruct (c_branches c !! b) as [br|] eqn:Hb.
  - eapply (wp_new_file b name size 0); [exact G|exact Hb| |].
    + intros node c' br' G' V' L' _ _ _. exists ms. split; [done|]. intros b' Hne [br0 Hb0].
      destruct (L' b' br0 Hb0) as (br1 & Hb1 & _). split; [by exists br1|]. intros node' a. by eapply views_but_file_other.
    + intros e c' G' V' L'. exists ms. split; [done|]. apply others_lens; [done|]. intros b' node a _. by apply byte_view_same.
  - unfold Shared.with_store_mut, Shared.on_store. wp_steps. apply wp_branch_mut; [congruence|]. intros _.
    exists ms. split; [by eapply good_le; [done|lia]|]. apply others_lens; [done|done].
Qed.

Lemma create_file_keeps b name size : keeps_branch b (Shared.with_store_mut b (bs_create_file name size)).
Proof.
  intros c [br Hb]. unfold Shared.with_store_mut, Shared.on_store, mbind, M_bind, Shared.branch_mut, get, Shared.put_branch, modify, lift.
  rewrite Hb. destruct (bs_create_file name size (c_world c, store br)) as [[w' s'] r]. cbn. rewrite lookup_insert_eq. by eexists.
Qed.

(** A fork: the child is a new branch that sees what the source sees. *)
Definition fork_run b c c' (r : result CacheError N) : Prop :=
  (forall b' node a, is_Some (c_branches c !! b') -> is_Some (c_branches c' !! b') /\
     byte_view c' b' node a = byte_view c b' node a) /\
  match r with
  | Ok child => c_branches c !! child = None /\ is_Some (c_branches c' !! child) /\
      forall node a, byte_view c' child node a = byte_view c b node a
  | Err _ => True
  end.

Lemma fork_spec b c ms : good 0 c ms ->
  let '(c', r) := Shared.fork b c in good 0 c' ms /\ fork_run b c c' r.
Proof.
  intros G. assert (c_branches c !! c_next_branch c = None) as Hfresh.
  { destruct (c_branches c !! c_next_branch c) as [br|] eqn:Hb; [|done].
    destruct (inv_branch _ _ (proj1 G) _ _ Hb) as [Hlt _]. lia. }
  pose proof (wp_and _ _ _ _ _ _
    (wp_fork b 0 (fun child c' => good 0 c' ms /\ forked c c' b child) (fun _ c' => good 0 c' ms /\ same_views c c') c ms G
       ltac:(done) ltac:(done)) (wp_fork_lens b c Hfresh)) as Hwp.
  unfold wp in Hwp. destruct (Shared.fork b c) as [c' [child|e]].
  - destruct Hwp as ((G' & Hn & Hs & Hc & Ho & _) & HL & _). split; [done|]. split.
    + intros b' node a [br Hb]. destruct (HL b' br Hb) as (br' & Hb' & _). split; [by exists br'|].
      unfold byte_view. rewrite Ho; [done|apply aligned_page|congruence].
    + split; [done|]. split; [done|]. intros node a. unfold byte_view. by rewrite Hc by apply aligned_page.
  - destruct Hwp as ((G' & V) & HL). split; [done|]. split; [|done]. intros b' node a [br Hb].
    destruct (HL b' br Hb) as (br' & Hb' & _). split; [by exists br'|]. by apply byte_view_same.
Qed.

Lemma fork_op b : cache_op b 0 (Shared.fork b).
Proof.
  split; [|intros F; apply foreign_fork]. intros c ms G. pose proof (fork_spec b c ms G) as Hf.
  destruct (Shared.fork b c) as [c' r]. cbn. destruct Hf as (G' & Ho & _). exists ms. split; [done|].
  intros b' _ Hb'. split; [by apply (Ho b' 0 0)|]. intros node a. by apply Ho.
Qed.

Lemma remove_branch_op b : cache_op b 0 (Shared.remove_branch b).
Proof.
  split; [|intros F; apply foreign_remove_branch].
  intros c ms G. apply (wp_both _ (fun c' => exists ms', good 0 c' ms' /\ others_kept b c c')).
  eapply wp_mono; [apply wp_and; [|apply (wp_remove_lens b c)]| |].
  - apply (wp_remove_branch b 0 (fun _ c' => good 0 c' ms /\ removed c c' b) (fun _ c' => c' = c) c ms G); done.
  - intros _ c' ((G' & _ & HV) & HL). exists ms. split; [done|]. intros b' Hne [br Hb].
    destruct (HL b' br) as (br' & Hb' & _); [by apply lookup_delete_Some|]. split; [by exists br'|].
    intros node a. unfold byte_view. by rewrite HV by (done || apply aligned_page).
  - intros e c' (-> & _). exists ms. split; [done|]. by apply others_lens.
Qed.

End cache_ops.

(** ** The forest *)

Section forest.
Context {W S Id St : Type} `{Countable Id} `{!BranchStore W S Id St} `{!StoreView W S Id} `{!SavedView S St}
  `{!StoreLaws W S Id} `{!LenLaws W S Id} `{!BranchLaws W S Id St} `{!WorldLaws W S Id} `{!MakerLaws W S Id St}.

Import Caches.
Implicit Types (s : Supervisor W S Id) (v : SupervisedVm) (vm : VmId) (c : Cache W S Id).

Abbreviation SU := (M (Supervisor W S Id) (Stop Error)).
Abbreviation process s := (li_process (su_lineages s)).
Abbreviation caches s := (li_caches (su_lineages s)).

(** The bytes of a VM's files and of its memory. *)
Definition file_byte s v (node : NodeId) (a : N) : option byte :=
  caches s !! sv_cache v ≫= fun c => byte_view (live (process s) c) (sv_branch v) node a.
Definition memory_byte v (a : N) : byte := Branch.byte_at (sv_memory v) EmptyString a.

Record su_inv s : Prop := {
  si_lineages : exists ms, li_inv (su_lineages s) ms;
  si_vm vm v : su_vms s !! vm = Some v -> exists c, caches s !! sv_cache v = Some c /\ is_Some (c_branches c !! sv_branch v);
  si_apart vm vm' v v' : vm <> vm' -> su_vms s !! vm = Some v -> su_vms s !! vm' = Some v' ->
    sv_cache v = sv_cache v' -> sv_branch v <> sv_branch v';
  si_ids vm : is_Some (su_vms s !! vm) -> vm < su_next_vm s
}.

(** The process after an operation of a cache that left it as [c']. *)
Definition moved (p : Process W) (c' : Cache W S Id) : Process W :=
  mkProcess (c_host c') (c_world c') (c_next_page_id c') (pr_next_cache_id p) (pr_map p) (pr_next_backend p).
Definition after s (cid : N) (c' : Cache W S Id) : Supervisor W S Id :=
  set_lineages (mkLineages (moved (process s) c') (<[cid := c']> (caches s))) s.

Lemma run_on_filesystem {A} cid (m : M (Cache W S Id) CacheError A) s c :
  caches s !! cid = Some c ->
  on_filesystem cid m s =
    let '(c', r) := m (live (process s) c) in (after s cid c', map_err (fun e => Failed (ErrCache e)) r).
Proof.
  intros Hc. unfold on_filesystem, on_cache, on_lineage, zoom, with_err. cbn. rewrite Hc.
  destruct (m (live (process s) c)) as [c' [a|e]]; done.
Qed.

(** The counters of the process have room for [n] more numbers. *)
Definition room (n : N) s : Prop := pr_next_page_id (process s) + n <= u64_MAX /\ w_room (pr_world (process s)) n.

Lemma live_good n s ms cid c : li_inv (su_lineages s) ms -> caches s !! cid = Some c -> room n s ->
  good n (live (process s) c) (ms cid).
Proof. intros I Hc [Hp Hw]. destruct (li_cache _ _ I _ _ Hc) as (_ & J & O). split; [done|]. split; [done|]. by split. Qed.

(** A VM that neither is nor shares a branch with what an operation acts on. *)
Definition bystander (cid b : N) v : Prop := sv_cache v <> cid \/ sv_branch v <> b.

#[export] Instance bystander_dec cid b v : Decision (bystander cid b v).
Proof. unfold bystander. apply _. Defined.

(** An operation of branch [b] of a cache keeps the forest in order and is not
    noticed by bystanders. *)
Lemma fs_step {A} n b (m : M (Cache W S Id) CacheError A) s cid c :
  cache_op b n m -> su_inv s -> caches s !! cid = Some c -> room n s ->
  let c' := (m (live (process s) c)).1 in
  (forall vm v, su_vms s !! vm = Some v -> ~ bystander cid b v -> is_Some (c_branches c' !! b)) ->
  su_inv (after s cid c') /\
  forall v, bystander cid b v -> (exists c0, caches s !! sv_cache v = Some c0 /\ is_Some (c_branches c0 !! sv_branch v)) ->
    forall node a, file_byte (after s cid c') v node a = file_byte s v node a.
Proof.
  intros Hop [[ms I] Hvm Hap Hids] Hc Hr c' Hb.
  destruct (co_run _ _ _ Hop _ _ (live_good n s ms cid c I Hc Hr)) as (ms' & G' & Ho). fold c' in G', Ho.
  rewrite <-(N.add_0_r n) in Hr.
  destruct (co_careful _ _ _ Hop (foreign_files (su_lineages s) cid) 0 _ (li_clear _ _ _ _ _ I Hc Hr)) as (Hcl & Hsp & _).
  fold c' in Hcl, Hsp.
  destruct (li_step (su_lineages s) ms cid c c' (moved (process s) c') ms' 0 I Hc Hsp Hcl) as [I' HU]; try done; try apply G'.
  assert (forall v, bystander cid b v -> (exists c0, caches s !! sv_cache v = Some c0 /\ is_Some (c_branches c0 !! sv_branch v)) ->
    (exists c0, caches (after s cid c') !! sv_cache v = Some c0 /\ is_Some (c_branches c0 !! sv_branch v)) /\
    forall node a, file_byte (after s cid c') v node a = file_byte s v node a) as Hby.
  { intros v Hv (c0 & Hc0 & Hb0). unfold file_byte. cbn. destruct (decide (sv_cache v = cid)) as [Heq|Hne].
    - rewrite Heq in Hc0 |- *. assert (c0 = c) as -> by congruence. rewrite lookup_insert_eq, Hc.
      destruct Hv as [Hv|Hv]; [done|]. destruct (Ho (sv_branch v) Hv Hb0) as [Hs HV]. split; [by exists c'|].
      intros node a. cbn. rewrite <-HV. by destruct c'.
    - rewrite lookup_insert_ne by done. split; [by exists c0|]. intros node a. rewrite Hc0. cbn.
      apply unharmed_byte_view. by apply (HU (sv_cache v)). }
  split; [|intros v Hv Hc0; by apply Hby]. split; [by eexists| |done|done].
  intros vm v Hv. destruct (decide (sv_cache v = cid /\ sv_branch v = b)) as [[Hcid Hbr]|Hn].
  - exists c'. cbn. rewrite Hcid, lookup_insert_eq, Hbr. split; [done|]. apply (Hb vm v Hv). unfold bystander. tauto.
  - apply Hby; [unfold bystander; destruct (decide (sv_cache v = cid)); tauto|by apply (Hvm vm)].
Qed.

(** ** Operations *)

Inductive su_op :=
  | SCreateVm
  | SCreateFile (vm : VmId) (name : string) (size : N)
  | SFork (source : VmId)
  | SRemove (vm : VmId)
  | SWriteFile (vm : VmId) (node : NodeId) (offset : N) (bytes : list byte)
  | SReadFile (vm : VmId) (node : NodeId) (offset len : N)
  | SWriteMemory (vm : VmId) (guest_address : N) (bytes : list byte)
  | SReadMemory (vm : VmId) (guest_address len : N)
  | SAccount.

(** The state after an operation, and how it ended. *)
Definition ended {A} (m : SU A) : SU unit := _ ← m; mret tt.
Definition run (op : su_op) : SU unit :=
  match op with
  | SCreateVm => ended create_vm
  | SCreateFile vm name size => ended (create_file vm name size)
  | SFork source => ended (fork_vm source)
  | SRemove vm => ended (remove_vm vm)
  | SWriteFile vm node offset bytes => ended (write_file vm node offset bytes)
  | SReadFile vm node offset len => ended (read_file vm node offset len)
  | SWriteMemory vm guest_address bytes => ended (write_memory vm guest_address bytes)
  | SReadMemory vm guest_address len => ended (read_memory vm guest_address len)
  | SAccount => ended Sup.page_accounting
  end.

Definition acts_on (op : su_op) vm : Prop :=
  match op with
  | SCreateVm | SAccount => False
  | SCreateFile vm' _ _ | SFork vm' | SRemove vm' | SWriteFile vm' _ _ _ | SReadFile vm' _ _ _
  | SWriteMemory vm' _ _ | SReadMemory vm' _ _ => vm' = vm
  end.

(** How many page numbers and versions an operation may use up. *)
Definition su_cost (op : su_op) : N :=
  match op with
  | SCreateVm | SCreateFile _ _ _ => 1
  | SWriteFile _ _ _ bytes => 3 * lenN bytes
  | SReadFile _ _ _ len => 3 * len
  | _ => 0
  end.

(** The 64-bit counters do not run out in the operation. *)
Definition may_run s (op : su_op) : Prop :=
  room (su_cost op) s /\ su_next_vm s < u64_MAX /\ pr_next_cache_id (process s) < u64_MAX.

(** What an operation that acts on the VMs [acts] guarantees. *)
Definition fine (acts : VmId -> Prop) s s' (r : result (Stop Error) unit) : Prop :=
  su_inv s' /\ r <> Err Panicked /\
  forall vm v, ~ acts vm -> su_vms s !! vm = Some v ->
    su_vms s' !! vm = Some v /\ forall node a, file_byte s' v node a = file_byte s v node a.

Lemma fine_refl acts s r : su_inv s -> r <> Err Panicked -> fine acts s s r.
Proof. intros I Hr. by split_and!. Qed.

Lemma run_ended {A} (m : SU A) s : ended m s = ((m s).1, match (m s).2 with Ok _ => Ok tt | Err e => Err e end).
Proof. unfold ended, mbind, M_bind. by destruct (m s) as [s' [a|e]]. Qed.

(** The operations that look up a VM and run something on its branch. *)
Lemma vm_op_fine {A} (op : su_op) vm n (m : SupervisedVm -> M (Cache W S Id) CacheError A) s :
  su_inv s -> room n s ->
  run op s = ended (v ← find_vm vm; on_filesystem (sv_cache v) (m v)) s ->
  (forall v, cache_op (sv_branch v) n (m v)) -> (forall v, keeps_branch (sv_branch v) (m v)) ->
  fine (fun j => vm = j) s (run op s).1 (run op s).2.
Proof.
  intros I Hr Hrun Hop Hkb. rewrite Hrun, run_ended.
  unfold find_vm, mbind, M_bind, get, lift. destruct (su_vms s !! vm) as [v|] eqn:Hv; cbn [ok_or];
    [|by apply fine_refl].
  destruct (si_vm _ I vm v Hv) as (c & Hc & Hb). rewrite (run_on_filesystem _ _ _ c) by done.
  pose proof (fs_step n (sv_branch v) (m v) s (sv_cache v) c (Hop v) I Hc Hr) as Hstep.
  specialize (Hkb v (live (process s) c) Hb). destruct (m v (live (process s) c)) as [c' r]. cbn [fst snd] in *.
  destruct Hstep as [I' Hby]; [done|]. split; [done|]. split; [by destruct r|].
  intros j u Hne Hu. split; [done|]. apply Hby; [|by apply (si_vm _ I j)].
  destruct (decide (sv_cache u = sv_cache v)) as [Heq|Hn]; [right|by left]. by apply (si_apart _ I j vm).
Qed.

Lemma write_memory_fine vm a bytes s : su_inv s ->
  fine (fun j => vm = j) s (ended (write_memory vm a bytes) s).1 (ended (write_memory vm a bytes) s).2.
Proof.
  intros I. rewrite run_ended. unfold write_memory, find_vm, mbind, M_bind, get, lift.
  destruct (su_vms s !! vm) as [v|] eqn:Hv; cbn [ok_or]; [|by apply fine_refl].
  destruct (Branch.write EmptyString a bytes (sv_memory v, su_next_page s)) as [[mem next'] r]. cbn.
  split; [|split; [by destruct r|]].
  - split; cbn; [apply I| | |].
    + intros j u. rewrite lookup_insert_Some. intros [[<- <-]|[_ Hu]]; [by apply (si_vm _ I vm v)|by apply (si_vm _ I j)].
    + intros i j u u' Hij. rewrite !lookup_insert_Some.
      intros [[<- <-]|[Hi Hu]] [[<- <-]|[Hj Hu']]; try done; cbn.
      * by apply (si_apart _ I vm j v u').
      * by apply (si_apart _ I i vm u v).
      * by apply (si_apart _ I i j u u').
    + intros j. rewrite lookup_insert_is_Some. intros [<-|[_ Hj]]; apply (si_ids _ I); [by exists v|done].
  - intros j u Hne Hu. split; [|done]. cbn. by rewrite lookup_insert_ne.
Qed.

(** What [fork_vm] does. *)
Definition forked_vm s s' source (r : result (Stop Error) VmId) : Prop :=
  match r with
  | Ok child => exists v v' u, su_vms s !! source = Some v /\ su_vms s !! child = None /\
      su_vms s' = <[child := u]> (<[source := v']> (su_vms s)) /\
      (forall a, memory_byte v' a = memory_byte v a /\ memory_byte u a = memory_byte v a) /\
      (forall node a, file_byte s' v' node a = file_byte s v node a /\ file_byte s' u node a = file_byte s v node a)
  | Err e => e <> Panicked /\ su_vms s' = su_vms s /\
      forall vm v, su_vms s !! vm = Some v -> forall node a, file_byte s' v node a = file_byte s v node a
  end.

(** The filesystem half of a fork. *)
Lemma fork_filesystem s v vm c :
  su_inv s -> su_vms s !! vm = Some v -> caches s !! sv_cache v = Some c -> room 0 s ->
  let '(c', r) := Shared.fork (sv_branch v) (live (process s) c) in
  su_inv (after s (sv_cache v) c') /\ fork_run (sv_branch v) (live (process s) c) c' r /\
  (forall u, (exists c0, caches s !! sv_cache u = Some c0 /\ is_Some (c_branches c0 !! sv_branch u)) ->
    forall node a, file_byte (after s (sv_cache v) c') u node a = file_byte s u node a).
Proof.
  intros I Hv Hc Hr. destruct (si_lineages _ I) as [ms J].
  pose proof (fork_spec (sv_branch v) _ _ (live_good 0 s ms _ c J Hc Hr)) as Hspec.
  pose proof (fs_step 0 (sv_branch v) (Shared.fork (sv_branch v)) s (sv_cache v) c (fork_op _) I Hc Hr) as Hstep.
  destruct (Shared.fork (sv_branch v) (live (process s) c)) as [c' r]. cbn [fst] in Hstep.
  destruct Hspec as (_ & Hf & Hch). destruct Hstep as [I' Hby].
  { intros j u Hu _. destruct (si_vm _ I vm v Hv) as (c0 & Hc0 & Hb0). assert (c0 = c) as -> by congruence. by apply (Hf _ 0 0). }
  split; [done|]. split; [by split|]. intros u (c0 & Hc0 & Hb0) node a.
  destruct (decide (bystander (sv_cache v) (sv_branch v) u)) as [Hb|Hb]; [apply Hby; [done|by exists c0]|].
  assert (sv_cache u = sv_cache v /\ sv_branch u = sv_branch v) as [Hcu Hbu].
  { unfold bystander in Hb. destruct (decide (sv_cache u = sv_cache v)), (decide (sv_branch u = sv_branch v)); tauto. }
  unfold file_byte. cbn. rewrite Hcu, Hbu in *. assert (c0 = c) as -> by congruence. rewrite lookup_insert_eq, Hc. cbn.
  destruct (Hf (sv_branch v) node a Hb0) as [_ <-]. by destruct c'.
Qed.

(** The two VMs of a fork take their places. *)
Lemma forked_inv s source child v v' u c :
  su_inv s -> su_vms s !! source = Some v -> child = su_next_vm s -> su_next_vm s < u64_MAX ->
  sv_cache v' = sv_cache v -> sv_branch v' = sv_branch v -> sv_cache u = sv_cache v ->
  caches s !! sv_cache v = Some c -> is_Some (c_branches c !! sv_branch u) ->
  (forall j w, su_vms s !! j = Some w -> sv_cache w = sv_cache v -> sv_branch w <> sv_branch u) ->
  su_inv (set_vms (<[child := u]> (<[source := v']> (su_vms s))) (set_next_vm (wrapping_add child 1) s)).
Proof.
  intros I Hv -> Hlt Hcv Hbv Hcu Hc Hbu Hnew.
  assert (forall j w, <[source := v']> (su_vms s) !! j = Some w ->
    exists w0, su_vms s !! j = Some w0 /\ sv_cache w = sv_cache w0 /\ sv_branch w = sv_branch w0) as Hold.
  { intros j w. rewrite lookup_insert_Some. intros [[<- <-]|[_ Hw]]; [by exists v|by exists w]. }
  split; cbn.
  - apply I.
  - intros j w. rewrite lookup_insert_Some. intros [[<- <-]|[_ Hw]]; [exists c; by rewrite Hcu|].
    destruct (Hold _ _ Hw) as (w0 & Hw0 & -> & ->). by apply (si_vm _ I j).
  - intros i j w w' Hij. rewrite (lookup_insert_Some _ _ i), (lookup_insert_Some _ _ j).
    intros [[<- <-]|[_ Hw]] [[<- <-]|[_ Hw']]; [done| | |].
    + destruct (Hold _ _ Hw') as (w0 & Hw0 & -> & ->). rewrite Hcu. intros Heq. symmetry. by eapply Hnew.
    + destruct (Hold _ _ Hw) as (w0 & Hw0 & -> & ->). rewrite Hcu. intros Heq. by eapply Hnew.
    + destruct (Hold _ _ Hw) as (w0 & Hw0 & -> & ->), (Hold _ _ Hw') as (w1 & Hw1 & -> & ->).
      by apply (si_apart _ I i j).
  - intros j. rewrite wrapping_add_small by lia. rewrite !lookup_insert_is_Some'. intros [<-|[<-|Hj]]; [lia| |].
    + assert (source < su_next_vm s) by (apply (si_ids _ I); by exists v). lia.
    + apply (si_ids _ I) in Hj. lia.
Qed.

Lemma fork_vm_spec s source :
  su_inv s -> room 0 s -> su_next_vm s < u64_MAX ->
  let '(s', r) := fork_vm source s in
  su_inv s' /\ forked_vm s s' source r /\
  forall vm v, su_vms s !! vm = Some v -> forall node a, file_byte s' v node a = file_byte s v node a.
Proof.
  intros I Hr Hlt. unfold fork_vm, find_vm, mbind, M_bind, get, lift.
  destruct (su_vms s !! source) as [v|] eqn:Hv; cbn [ok_or]; [|by split_and!].
  destruct (si_vm _ I source v Hv) as (c & Hc & Hb). rewrite (run_on_filesystem _ _ _ c) by done.
  pose proof (fork_filesystem s v source c I Hv Hc Hr) as Hf.
  destruct (Shared.fork (sv_branch v) (live (process s) c)) as [c' [child_branch|e]]; cbn [map_err].
  2:{ destruct Hf as (I' & _ & Hsame). split; [done|].
      assert (forall j u, su_vms s !! j = Some u -> forall node a,
        file_byte (after s (sv_cache v) c') u node a = file_byte s u node a) as Hall
        by (intros j u Hu; apply Hsame; by apply (si_vm _ I j)).
      by split_and!. }
  destruct (Branch.fork (sv_memory v)) as [mem child_mem] eqn:Hmem. cbn.
  destruct Hf as (I' & (Hold & Hnew & Hsome & Hbytes) & Hsame).
  set (s1 := after s (sv_cache v) c') in *.
  set (v' := mkSupervisedVm mem (sv_cache v) (sv_branch v)). set (u := mkSupervisedVm child_mem (sv_cache v) child_branch).
  assert (caches s1 !! sv_cache v = Some c') as Hc' by apply lookup_insert_eq.
  split; [|split].
  - apply (forked_inv s1 source (su_next_vm s) v v' u c'); try done. intros j w Hw Hcw Hbw. cbn in Hbw.
    destruct (si_vm _ I j w Hw) as (c0 & Hc0 & Hb0). rewrite Hcw in Hc0. assert (c0 = c) as -> by congruence.
    rewrite Hbw in Hb0. cbn in Hnew. rewrite Hnew in Hb0. by destruct Hb0.
  - exists v, v', u. split; [done|]. split.
    { destruct (su_vms s !! su_next_vm s) eqn:Hn; [|done].
      assert (su_next_vm s < su_next_vm s) by (apply (si_ids _ I); by exists s0). lia. }
    split; [done|]. split.
    { intros a. pose proof (Branch.byte_at_fork_self (sv_memory v) EmptyString a) as H1.
      pose proof (Branch.byte_at_fork_child (sv_memory v) EmptyString a) as H2. by rewrite Hmem in H1, H2. }
    intros node a. split; [apply (Hsame v); by exists c|]. unfold file_byte. cbn.
    rewrite lookup_insert_eq, Hc. cbn. rewrite <-Hbytes. by destruct c'.
  - intros j w Hw node a. apply (Hsame w). by apply (si_vm _ I j).
Qed.

(** ** Removal *)

Lemma delete_inv s vm : su_inv s -> su_inv (set_vms (delete vm (su_vms s)) s).
Proof.
  intros [I1 I2 I3 I4]. split; cbn; [done| | |].
  - intros j v [_ Hj]%lookup_delete_Some. by apply (I2 j).
  - intros i j v v' Hij [_ Hi]%lookup_delete_Some [_ Hj]%lookup_delete_Some. by apply (I3 i j).
  - intros j Hj. apply I4. destruct Hj as [v [_ Hv]%lookup_delete_Some]. by exists v.
Qed.

(** A lineage no VM uses any more is dropped. *)
Lemma drop_lineage_inv s cid : su_inv s -> (forall vm v, su_vms s !! vm = Some v -> sv_cache v <> cid) ->
  let s' := set_lineages (mkLineages (process s) (delete cid (caches s))) s in
  su_inv s' /\ forall vm v, su_vms s !! vm = Some v -> forall node a, file_byte s' v node a = file_byte s v node a.
Proof.
  intros [[ms J] I2 I3 I4] Hno s'. split; [split|]; cbn.
  - exists ms. by apply li_delete.
  - intros vm v Hv. destruct (I2 vm v Hv) as (c & Hc & Hb). exists c. rewrite lookup_delete_ne; [done|].
    intros Heq. by apply (Hno vm v).
  - done.
  - done.
  - intros vm v Hv node a. unfold file_byte. cbn. rewrite lookup_delete_ne; [done|]. intros Heq. by apply (Hno vm v).
Qed.

Lemma remove_vm_fine vm s :
  su_inv s -> room 0 s ->
  fine (fun j => vm = j) s (remove_vm vm s).1 (remove_vm vm s).2.
Proof.
  intros I Hr. remember (remove_vm vm s) as sr eqn:Hrun. revert Hrun.
  unfold remove_vm, find_vm, mbind, M_bind, get, lift, modify.
  destruct (su_vms s !! vm) as [v|] eqn:Hv; cbn [ok_or]; [|by intros ->; apply fine_refl].
  destruct (si_vm _ I vm v Hv) as (c & Hc & Hb). set (s1 := set_vms (delete vm (su_vms s)) s).
  assert (su_vms s1 = delete vm (su_vms s)) as Hs1 by done.
  rewrite (run_on_filesystem (sv_cache v) _ s1 c) by done.
  pose proof (fs_step 0 (sv_branch v) (Shared.remove_branch (sv_branch v)) s1 (sv_cache v) c (remove_branch_op _)
    (delete_inv s vm I) Hc Hr) as Hstep. change (process s1) with (process s) in *.
  destruct (Shared.remove_branch (sv_branch v) (live (process s) c)) as [c' r]. cbn [fst] in Hstep.
  assert (forall j u, su_vms s1 !! j = Some u -> bystander (sv_cache v) (sv_branch v) u) as Hall.
  { intros j u Hu. rewrite Hs1 in Hu. apply lookup_delete_Some in Hu as [Hne Hu].
    destruct (decide (sv_cache u = sv_cache v)) as [Heq|]; [right|by left]. by apply (si_apart _ I j vm). }
  assert (forall s2 (r2 : result (Stop Error) unit), r2 <> Err Panicked -> su_inv s2 -> su_vms s2 = su_vms s1 ->
    (forall j u, su_vms s1 !! j = Some u -> forall node a, file_byte s2 u node a = file_byte s u node a) ->
    fine (fun j => vm = j) s s2 r2) as Hdone.
  { intros s2 r2 Hr2 I2 Hvms HB. split; [done|]. split; [done|]. intros j u Hne Hu.
    assert (su_vms s1 !! j = Some u) as Hu1 by (cbn; by rewrite lookup_delete_ne by congruence).
    split; [by rewrite Hvms|by apply (HB j)]. }
  assert (su_inv (after s1 (sv_cache v) c') /\ forall j u, su_vms s1 !! j = Some u ->
      forall node a, file_byte (after s1 (sv_cache v) c') u node a = file_byte s u node a) as Hmid.
  { destruct Hstep as [I' Hby]; [by intros j u Hu Hn; destruct (Hn (Hall j u Hu))|].
    split; [done|]. intros j u Hu. apply Hby; [by apply (Hall j)|]. rewrite Hs1 in Hu. apply lookup_delete_Some in Hu as [_ Hu]. by apply (si_vm _ I j). }
  destruct r as [[]|e]; cbn [map_err]; [|intros ->; destruct Hmid; by apply Hdone].
  destruct (existsb _ _) eqn:Hex; intros ->; destruct Hmid as [I' HB]; [by apply Hdone|].
  destruct (drop_lineage_inv (after s1 (sv_cache v) c') (sv_cache v) I') as [I2 HB2].
  - intros j u Hu Heq. assert (existsb (fun u => sv_cache u =? sv_cache v) (map_to_list (su_vms s1)).*2 = true) as Hin; [|exact (eq_true_false_abs _ Hin Hex)].
    apply existsb_exists. exists u. split; [|by apply N.eqb_eq]. apply list_elem_of_In, list_elem_of_fmap.
    exists (j, u). split; [done|]. by apply elem_of_map_to_list.
  - apply Hdone; [done|done|done|]. intros j u Hu node a. rewrite (HB2 j u Hu). by apply (HB j).
Qed.

(** ** Creation *)

Definition world_moved (p : Process W) (w : W) : Process W :=
  mkProcess (pr_host p) w (pr_next_page_id p) (pr_next_cache_id p) (pr_map p) (pr_next_backend p).

(** The world of the stores and the counter of VMs moved on. *)
Lemma world_inv s w next :
  su_inv s -> (forall i, w_issued (pr_world (process s)) i -> w_issued w i) -> su_next_vm s <= next ->
  let s' := set_next_vm next (set_lineages (mkLineages (world_moved (process s) w) (caches s)) s) in
  su_inv s' /\ forall v node a, file_byte s' v node a = file_byte s v node a.
Proof.
  intros [[ms J] I2 I3 I4] Hi Hle s'.
  assert (forall c : Cache W S Id, unharmed c (process s) (world_moved (process s) w)) as HU by (intros c; by split).
  split; [split; cbn; [|done|done|]|].
  - exists ms. apply li_process_step; [done|intros; apply HU|done].
  - intros vm Hvm%I4. lia.
  - intros v node a. unfold file_byte. cbn. destruct (caches s !! sv_cache v) as [c|]; [|done]. cbn.
    by apply unharmed_byte_view.
Qed.

(** A VM in a lineage of its own. *)
Lemma new_vm_inv s store vm :
  su_inv s -> store_ok (pr_world (process s)) store -> room 0 s -> vm < su_next_vm s -> su_vms s !! vm = None ->
  pr_next_cache_id (process s) < u64_MAX ->
  let s1 := (new_cache store s).1 in
  let s' := set_vms (<[vm := mkSupervisedVm Branch.empty (pr_next_cache_id (process s)) 1]> (su_vms s1)) s1 in
  su_inv s' /\ forall j v, su_vms s !! j = Some v -> forall node a, file_byte s' v node a = file_byte s v node a.
Proof.
  intros I Hs [Hp Hw] Hlt Hnone Hcid s1 s'. destruct (si_lineages _ I) as [ms J].
  set (p := process s) in *. set (cid := pr_next_cache_id p) in *.
  pose proof (new_good 0 cid (pr_host p) (pr_world p) (pr_next_page_id p) store Hs Hp Hw) as (G & O & _).
  assert (caches s !! cid = None) as Hfresh by (apply (li_fresh _ _ J); done).
  assert (forall j v, su_vms s !! j = Some v -> sv_cache v <> cid) as Hne.
  { intros j v Hv Heq. destruct (si_vm _ I j v Hv) as (c & Hc & _). congruence. }
  split; [split; cbn|].
  - eexists. apply (li_add (su_lineages s) ms _ cid (Shared.new cid (pr_host p) (pr_world p) (pr_next_page_id p) store).1);
      try done; cbn; fold p cid; rewrite ?wrapping_add_small by lia; try lia.
  - intros j v. rewrite lookup_insert_Some. intros [[<- <-]|[_ Hv]]; cbn.
    + eexists. rewrite lookup_insert_eq. split; [done|]. cbn. rewrite lookup_singleton_eq. by eexists.
    + rewrite lookup_insert_ne by (intros Heq; by apply (Hne j v)). by apply (si_vm _ I j).
  - intros i j v v' Hij. rewrite !lookup_insert_Some. intros [[<- <-]|[_ Hv]] [[<- <-]|[_ Hv']]; cbn; try done.
    + intros Heq. by destruct (Hne j v').
    + intros Heq. by destruct (Hne i v).
    + by apply (si_apart _ I i j).
  - intros j. rewrite lookup_insert_is_Some'. intros [<-|Hj]; [done|by apply (si_ids _ I)].
  - intros j v Hv node a. unfold file_byte. cbn. rewrite lookup_insert_ne by (intros Heq; by apply (Hne j v)). done.
Qed.

Lemma create_vm_fine s :
  su_inv s -> room 1 s -> su_next_vm s < u64_MAX -> pr_next_cache_id (process s) < u64_MAX ->
  fine (fun _ => False) s (ended create_vm s).1 (ended create_vm s).2.
Proof.
  intros I [Hp Hw] Hlt Hcid. rewrite run_ended. unfold create_vm, take_vm_id, create_store, mbind, M_bind, get, modify, mret, M_ret, zoom, with_err.
  cbn. pose proof (law_create (32 * 1024 * 1024) 0 (pr_world (process s)) Hw) as Hlaw. unfold wp in Hlaw. cbn in Hlaw.
  destruct (bs_create _ (pr_world (process s))) as [w [store|e]]; cbn in Hlaw |- *.
  - destruct Hlaw as (Hi & Hr & Hs).
    destruct (world_inv s w (wrapping_add (su_next_vm s) 1) I Hi) as [I1 HB1]; [rewrite wrapping_add_small; lia|].
    set (s1 := set_next_vm _ _) in I1, HB1.
    destruct (new_vm_inv s1 store (su_next_vm s) I1) as [I2 HB2]; [done|split; cbn; [lia|done]| | |done|].
    + cbn. rewrite wrapping_add_small; lia.
    + cbn. destruct (su_vms s !! su_next_vm s) as [v|] eqn:Hn; [|done].
      assert (su_next_vm s < su_next_vm s) by (apply (si_ids _ I); by exists v). lia.
    + split; [exact I2|]. split; [done|]. intros vm v _ Hv. split.
      * cbn. rewrite lookup_insert_ne; [done|]. intros <-.
        assert (su_next_vm s < su_next_vm s) by (apply (si_ids _ I); by exists v). lia.
      * intros node a. rewrite <-(HB1 v). by apply (HB2 vm v).
  - destruct Hlaw as (Hi & Hr). destruct (world_inv s w (wrapping_add (su_next_vm s) 1) I Hi) as [I1 HB1]; [rewrite wrapping_add_small; lia|].
    split; [exact I1|]. split; [done|]. intros vm v _ Hv. split; [done|]. intros node a. by apply HB1.
Qed.

(** ** Accounting *)

Lemma page_accounting_run requested c ms : good 0 c ms -> Forall (fun b => is_Some (c_branches c !! b)) requested ->
  wp (Shared.page_accounting requested) (fun _ c' => quiet c c') (fun _ _ => False) c.
Proof.
  intros G Hall. unfold Shared.page_accounting. wp_steps. apply (wp_account_branches requested [] _ _ c ms 0 G).
  - intros sets c' _ Q' _. by wp_steps.
  - intros b c' _ Hb Hn. rewrite Forall_forall in Hall. destruct (Hall b Hb). congruence.
Qed.

(** The VMs of one lineage, and their branches. *)
Lemma account_lineage s cid c vs :
  su_inv s -> room 0 s -> caches s !! cid = Some c ->
  Forall (fun v => exists vm, su_vms s !! vm = Some v) vs ->
  let m := Shared.page_accounting (sv_branch <$> filter (fun v => sv_cache v = cid) vs) in
  exists c' a, m (live (process s) c) = (c', Ok a) /\ su_inv (after s cid c') /\ room 0 (after s cid c') /\
    forall vm v, su_vms s !! vm = Some v -> forall node a, file_byte (after s cid c') v node a = file_byte s v node a.
Proof.
  intros I Hr Hc Hvs m. destruct (si_lineages _ I) as [ms J]. pose proof (live_good 0 s ms cid c J Hc Hr) as G.
  assert (Forall (fun b => is_Some (c_branches (live (process s) c) !! b)) (sv_branch <$> filter (fun v => sv_cache v = cid) vs)) as Hall.
  { apply Forall_forall. intros b (v & -> & [Hcv Hv]%list_elem_of_filter)%list_elem_of_fmap.
    rewrite Forall_forall in Hvs. destruct (Hvs v Hv) as [vm Hvm]. destruct (si_vm _ I vm v Hvm) as (c0 & Hc0 & Hb0).
    rewrite Hcv in Hc0. by assert (c0 = c) as -> by congruence. }
  pose proof (page_accounting_run _ _ _ G Hall) as Hq. fold m in Hq. unfold wp in Hq.
  pose proof (fun b => fs_step 0 b m s cid c (page_accounting_op b _) I Hc Hr) as Hstep.
  pose proof (lens_page_accounting (sv_branch <$> filter (fun v => sv_cache v = cid) vs) (live (process s) c)) as HL. fold m in HL.
  destruct (m (live (process s) c)) as [c' [a|e]] eqn:Hm; [|done]. cbn [fst] in Hstep, HL. exists c', a.
  destruct Hq as [E Hbud].
  assert (forall vm v, su_vms s !! vm = Some v -> sv_cache v = cid -> is_Some (c_branches c' !! sv_branch v)) as Hkeep.
  { intros vm v Hv Hcv. destruct (si_vm _ I vm v Hv) as (c0 & Hc0 & [br Hb0]). rewrite Hcv in Hc0.
    assert (c0 = c) as -> by congruence. destruct (HL _ br Hb0) as (br' & Hb' & _). by exists br'. }
  assert (forall b vm v, su_vms s !! vm = Some v -> ~ bystander cid b v -> is_Some (c_branches c' !! b)) as Hstay.
  { intros b vm v Hv Hn. assert (sv_cache v = cid /\ sv_branch v = b) as [Hcv <-].
    - unfold bystander in Hn. destruct (decide (sv_cache v = cid)), (decide (sv_branch v = b)); tauto.
    - by eapply Hkeep. }
  split; [done|]. split; [apply (Hstep 0 (Hstay 0))|]. split; [by apply (Hbud 0), G|]. intros vm v Hv.
  destruct (Hstep (sv_branch v + 1) (Hstay _)) as [_ Hby]. apply Hby; [right; lia|by apply (si_vm _ I vm)].
Qed.

Lemma account_fine cids vs total s :
  su_inv s -> room 0 s -> Forall (fun cid => is_Some (caches s !! cid)) cids ->
  Forall (fun v => exists vm, su_vms s !! vm = Some v) vs ->
  exists s' a, account_filesystems cids vs total s = (s', Ok a) /\ su_inv s' /\ su_vms s' = su_vms s /\
    forall vm v, su_vms s !! vm = Some v -> forall node a, file_byte s' v node a = file_byte s v node a.
Proof.
  revert total s. induction cids as [|cid cids IH]; intros total s I Hr Hcids Hvs; cbn [account_filesystems]; [by eexists _, _|].
  apply Forall_cons in Hcids as [[c Hc] Hcids]. unfold with_err, mbind, M_bind. rewrite (run_on_filesystem _ _ _ c) by done.
  destruct (account_lineage s cid c vs I Hr Hc Hvs) as (c' & a & -> & I1 & Hr1 & HB1). cbn [map_err].
  destruct (IH (mkAccounting (resident_pages total + c_resident a) (shared_pages total + c_shared a)) (after s cid c'))
    as (s' & a' & -> & I2 & Hvms & HB2); [done|done| |done|].
  - eapply Forall_impl; [exact Hcids|]. intros j Hj. cbn. rewrite lookup_insert_is_Some'. by right.
  - exists s', a'. split; [done|]. split; [done|]. split; [by rewrite Hvms|]. intros vm v Hv node b.
    rewrite (HB2 vm v Hv). by apply (HB1 vm).
Qed.

Lemma page_accounting_fine s : su_inv s -> room 0 s ->
  fine (fun _ => False) s (ended Sup.page_accounting s).1 (ended Sup.page_accounting s).2.
Proof.
  intros I Hr. rewrite run_ended. unfold Sup.page_accounting, mbind, M_bind, get.
  destruct (account_fine (btree_keys (caches s)) (omap (fun vm => su_vms s !! vm) (btree_keys (su_vms s))) (mkAccounting 0 0) s)
    as (s' & a & -> & I' & Hvms & HB); [done|done| | |].
  - apply Forall_forall. intros cid Hcid. by apply elem_of_btree_keys.
  - apply Forall_forall. intros v (vm & _ & Hv)%list_elem_of_omap. by exists vm.
  - split; [done|]. split; [done|]. intros vm v _ Hv. split; [by rewrite <-Hvms in Hv|by apply (HB vm)].
Qed.

(** ** Every operation *)

Lemma fork_fine source s :
  su_inv s -> may_run s (SFork source) -> fine (fun j => source = j) s (run (SFork source) s).1 (run (SFork source) s).2.
Proof.
  intros I (Hr & Hlt & _). cbn [run]. rewrite run_ended. cbn [fst snd].
  pose proof (fork_vm_spec s source I Hr Hlt) as Hspec. destruct (fork_vm source s) as [s' r]. cbn [fst snd].
  destruct Hspec as (I' & Hf & HB). split; [done|]. destruct r as [child|e]; cbn in Hf.
  - split; [done|]. destruct Hf as (v & v' & u & Hv & Hn & -> & _). intros vm w Hne Hw. split; [|by apply (HB vm)].
    rewrite !lookup_insert_ne; [done|done|]. intros ->. congruence.
  - destruct Hf as (He & -> & _). split; [congruence|]. intros vm w _ Hw. split; [done|by apply (HB vm)].
Qed.

Lemma step_fine s op : su_inv s -> may_run s op -> fine (acts_on op) s (run op s).1 (run op s).2.
Proof.
  intros I Hm. pose proof Hm as (Hr & Hlt & Hcid). destruct op; cbn [acts_on su_cost] in *.
  - by apply create_vm_fine.
  - by apply (vm_op_fine (SCreateFile vm name size) vm 1
      (fun v => Shared.with_store_mut (sv_branch v) (bs_create_file name size)));
      [..|intros v; apply create_file_op|intros v; apply create_file_keeps].
  - by apply fork_fine.
  - cbn [run]. rewrite run_ended. cbn [fst snd]. destruct (remove_vm_fine vm s I Hr) as (I' & Hp & HB).
    split; [done|]. split; [|done]. by destruct (remove_vm vm s) as [s' [[]|e]].
  - by apply (vm_op_fine (SWriteFile vm node offset bytes) vm (3 * lenN bytes) (fun v => write_open (sv_branch v) node offset bytes));
      [..|intros v; apply write_open_op|intros v; apply lens_keep, write_open_lens].
  - by apply (vm_op_fine (SReadFile vm node offset len) vm (3 * len) (fun v => read_open (sv_branch v) node offset len));
      [..|intros v; apply read_open_op|intros v; apply lens_keep, read_open_lens].
  - by apply write_memory_fine.
  - cbn [run]. rewrite run_ended. unfold read_memory, find_vm, mbind, M_bind, get, lift.
    destruct (su_vms s !! vm) as [v|]; cbn; (apply fine_refl; [done|]); [|done]. by destruct (Branch.read _ _ _ _).
  - by apply page_accounting_fine.
Qed.

(** Forests a supervisor that starts on a process without caches reaches. *)
Inductive su_reachable : Supervisor W S Id -> Prop :=
  | su_start p : su_reachable (new p)
  | su_next s op : su_reachable s -> may_run s op -> su_reachable (run op s).1.

Lemma su_reachable_inv s : su_reachable s -> su_inv s.
Proof.
  induction 1 as [p|s op _ I Hm]; [|by apply (step_fine s op I Hm)].
  split; cbn; try done; [|by intros vm []]. exists (fun _ => []). by split.
Qed.

(** C18. Supervised VMs are isolated and the supervisor does not panic.  In every
    forest the supervisor reaches, an operation on one VM (creating, writing
    or reading files and memory, forking, removing, accounting), whether it
    succeeds or fails, leaves the record and the files of every other VM as
    they were, and never hits the index and [expect] panics of the code: every
    VM's branch is in a cache the supervisor still owns. *)
Theorem supervisor_isolates s op :
  su_reachable s -> may_run s op ->
  (run op s).2 <> Err Panicked /\
  forall vm v, ~ acts_on op vm -> su_vms s !! vm = Some v ->
    su_vms (run op s).1 !! vm = Some v /\
    forall node a, file_byte (run op s).1 v node a = file_byte s v node a.
Proof. intros I%su_reachable_inv Hm. by destruct (step_fine s op I Hm) as (_ & Hp & HB). Qed.

(** C17. A fork publishes one point of memory and files.  When [fork_vm]
    succeeds, the child is a new VM whose memory and files are byte for byte
    the source's, and the source's are what they were; when it fails, the
    record of every VM, its memory included, and every byte of every VM's files
    are what they were: never is one half forked without the other. *)
Theorem supervisor_fork_atomic s source s' r :
  su_reachable s -> may_run s (SFork source) -> fork_vm source s = (s', r) -> forked_vm s s' source r.
Proof.
  intros I%su_reachable_inv (Hr & Hlt & _) Hrun.
  pose proof (fork_vm_spec s source I Hr Hlt) as Hspec. rewrite Hrun in Hspec. apply Hspec.
Qed.

End forest.

(** * A forest over in-memory stores

    The in-memory store satisfies the laws the supervisor's theorems need, and
    the theorems at a forest of two VMs that share a file and a memory page. *)

Import Sup.

#[export] Instance MemoryStore_world : WorldLaws Statics MemoryStore RedoxPageIdentity.
Proof.
  split; try by intros; intros [g s].
  intros node offset [g s] n. cbn [fst w_room w_issued MemoryStore_view]. intros Hroom.
  cbn. unfold Memory.prepare_page_write, Identity.prepare_page_write, Identity.next_version, Identity.insert_page, mbind, M_bind, get, gets, modify, lift, mret, M_ret. cbn.
  rewrite wrapping_add_small by lia. split; [|lia]. intros i [H1 H2]. split; [done|lia].
Qed.

#[export] Instance MemoryStore_maker : MakerLaws Statics MemoryStore RedoxPageIdentity MemoryStore.
Proof.
  split.
  - intros size n g Hroom. cbn in Hroom |- *. split; [done|]. split; [cbn; lia|]. split.
    + intros k i Hk. by vm_compute.
    + intros k k' i Hk Hk'. by vm_compute.
  - intros name size [g s] n Hroom. pose proof (shelf_create_file name size n g s Hroom) as Hwp. unfold wp in Hwp.
    change (bs_create_file name size (g, s)) with (Shelf.create_file name size (g, s)).
    destruct (Shelf.create_file name size (g, s)) as [ws [node|e]]; by destruct Hwp as (? & ? & _).
Qed.

(** ** A forest of two VMs *)

Module ForkExample.

Abbreviation Forest := (Supervisor Statics MemoryStore RedoxPageIdentity).

Definition boot : Process Statics := mkProcess (mkHost ∅ 1 []) initial_statics 1 1 ∅ 1.

(** A VM with a file and a byte of memory, and its fork. *)
Definition setup : list su_op :=
  [SCreateVm; SCreateFile 1 "shared" 5000; SWriteFile 1 1 4090 [Byte.x01; Byte.x02; Byte.x03; Byte.x04; Byte.x05; Byte.x06; Byte.x07; Byte.x08];
   SWriteMemory 1 8192 [Byte.x09]; SFork 1].

Definition forest_after (ops : list su_op) : Forest := foldl (fun s o => (run o s).1) (new boot) ops.

Definition may_run_check (s : Forest) (o : su_op) : bool :=
  let p := li_process (su_lineages s) in
  (pr_next_page_id p + su_cost o <=? u64_MAX) && (next_page_version (pr_world p) + su_cost o <=? u64_MAX) &&
  (su_next_vm s <? u64_MAX) && (pr_next_cache_id p <? u64_MAX).

Lemma may_run_check_ok s o : may_run_check s o = true -> may_run s o.
Proof.
  intros [[[H1%N.leb_le H2%N.leb_le]%andb_true_iff H3%N.ltb_lt]%andb_true_iff H4%N.ltb_lt]%andb_true_iff. by split_and!.
Qed.

Fixpoint admissible (s : Forest) (ops : list su_op) : bool :=
  match ops with
  | [] => true
  | o :: ops' => may_run_check s o && admissible (run o s).1 ops'
  end.

Lemma admissible_reachable s ops :
  su_reachable s -> admissible s ops = true -> su_reachable (foldl (fun s o => (run o s).1) s ops).
Proof.
  revert s. induction ops as [|o ops IH]; intros s Hs; cbn [foldl admissible]; [done|].
  intros [Hm%may_run_check_ok Hrest]%andb_true_iff. apply IH; [|done]. by apply su_next.
Qed.

Definition forest : Forest := forest_after setup.

Lemma forest_reachable : su_reachable forest.
Proof. apply admissible_reachable; [apply su_start|]. vm_compute. reflexivity. Qed.

Definition vm_of (s : Forest) (vm : VmId) : SupervisedVm :=
  default (mkSupervisedVm Branch.empty 0 0) (su_vms s !! vm).

Lemma supervisor_isolates_witness :
  let rewrite_file := SWriteFile 1 1 4094 [Byte.xff; Byte.xff; Byte.xff; Byte.xff] in
  let s' := (run rewrite_file forest).1 in
  (run rewrite_file forest).2 = Ok tt /\ file_byte s' (vm_of s' 1) 1 4096 = Some Byte.xff /\
  (run rewrite_file forest).2 <> Err Panicked /\ file_byte s' (vm_of forest 2) 1 4096 = Some Byte.x07.
Proof.
  intros rewrite_file s'.
  assert (may_run_check forest rewrite_file = true) as Hcheck by (vm_compute; reflexivity).
  assert (su_vms forest !! 2 = Some (vm_of forest 2)) as Hvm by (vm_compute; reflexivity).
  assert (~ acts_on rewrite_file 2) as Hne by (intros [=]).
  assert (file_byte forest (vm_of forest 2) 1 4096 = Some Byte.x07) as Hold by (vm_compute; reflexivity).
  destruct (supervisor_isolates forest rewrite_file forest_reachable (may_run_check_ok _ _ Hcheck)) as [Hp HB].
  destruct (HB 2 (vm_of forest 2) Hne Hvm) as [_ Hbyte].
  split; [vm_compute; reflexivity|]. split; [vm_compute; reflexivity|]. split; [exact Hp|].
  unfold s'. rewrite Hbyte. exact Hold.
Defined.

Lemma supervisor_fork_atomic_witness :
  let before := forest_after (take 4 setup) in
  let s' := (fork_vm 1 before).1 in
  (fork_vm 1 before).2 = Ok 2 /\ forked_vm before s' 1 (Ok 2) /\
  file_byte before (vm_of before 1) 1 4091 = Some Byte.x02 /\ memory_byte (vm_of s' 2) 8192 = Byte.x09.
Proof.
  intros before s'.
  assert (su_reachable before) as Hr by (apply admissible_reachable; [apply su_start|vm_compute; reflexivity]).
  assert (may_run_check before (SFork 1) = true) as Hcheck by (vm_compute; reflexivity).
  assert ((fork_vm 1 before).2 = Ok 2) as Hok by (vm_compute; reflexivity).
  assert (fork_vm 1 before = (s', Ok 2)) as Hrun by (rewrite <-Hok; apply surjective_pairing).
  split; [exact Hok|]. split; [exact (supervisor_fork_atomic before 1 s' (Ok 2) Hr (may_run_check_ok _ _ Hcheck) Hrun)|].
  split; vm_compute; reflexivity.
Defined.

End ForkExample.
