(* ===== verification/Ram.v ===== *)
(** * Guest RAM in page-granular generations (crates/minidox-vmm/src/ram.rs)

    A guest's RAM is a reserved address range; every page of it is a private
    mapping of a page of some generation file.  A write by the guest or by the
    host gives the page a private copy.  A fork copies the pages that changed
    into a generation file and maps them again, so that source and child share
    every page.  This file has the data and the operations. *)

From S2P Require Import Prelude Host CacheTypes Storage VmmTypes.

Abbreviation RAM_PAGE_SIZE := PAGE_SIZE.

(** [Arc<RamGeneration>] and [Arc<RamPage>]: the objects are immutable, apart
    from the bytes of the file. *)
Record RamGeneration := mkRamGeneration { g_id : N; g_file : Inode }.

Record RamPage := mkRamPage { p_id : N; p_generation : RamGeneration; p_offset : N }.

#[export] Instance RamGeneration_eq_dec : EqDecision RamGeneration.
Proof. solve_decision. Defined.
#[export] Instance RamPage_eq_dec : EqDecision RamPage.
Proof. solve_decision. Defined.

Record RamAccounting := mkRamAccounting {
  ram_resident_pages : nat; ram_shared_pages : nat; ram_backing_files : nat
}.

Record RamPageState := mkRamPageState { ps_id : N; ps_generation : N; ps_offset : N }.
Record RamState := mkRamState { rst_len : N; rst_pages : list RamPageState }.

(** One page of the reserved address range: no access, or a mapping of a page
    of a file.  A private mapping that was written to has its own copy. *)
Inductive Slot :=
  | Reserved
  | MappedPage (file : Inode) (offset : N) (private : bool) (copy : option (list byte)).

(** [KvmGuestRam]; [memory] is the address range at [base]. *)
Record KvmGuestRam := mkRam {
  ram_len : N;
  pages : list RamPage;
  host_dirty : gset nat;
  private : bool;
  sealed : bool;
  memory : list Slot
}.

Record RamForkPreparation := mkPreparation {
  prep_generation : RamGeneration;
  prep_pages : gmap nat RamPage;
  seals_existing_generation : bool
}.

Record RamForkBranch := mkForkBranch { fb_len : N; fb_pages : list RamPage }.

(** What the process shares: the host, [NEXT_PAGE_ID] and [NEXT_GENERATION_ID]. *)
Record RamWorld := mkRamWorld {
  rm_storage : Storage;
  next_page_id : N;
  next_generation_id : N
}.

Module Ram.

Abbreviation RW := (M RamWorld VmmError).
Abbreviation R := (M (RamWorld * KvmGuestRam) VmmError).

Definition set_ram_storage (st : Storage) (w : RamWorld) : RamWorld :=
  mkRamWorld st (next_page_id w) (next_generation_id w).

(** A host call, its error reported as a backend error. *)
Definition sys {A} (operation : string) (m : SIO A) : RW A :=
  zoom rm_storage set_ram_storage (with_err (fun e => Backend operation (CauseIo e)) m).

(** The owner of a RAM acts on the world. *)
Definition on_world {A} (m : RW A) : R A := zoom fst (fun w s => (w, s.2)) m.

Definition set_memory (l : list Slot) (r : KvmGuestRam) : KvmGuestRam :=
  mkRam (ram_len r) (pages r) (host_dirty r) (private r) (sealed r) l.
Definition set_ram_pages (l : list RamPage) (r : KvmGuestRam) : KvmGuestRam :=
  mkRam (ram_len r) l (host_dirty r) (private r) (sealed r) (memory r).
Definition set_host_dirty (d : gset nat) (r : KvmGuestRam) : KvmGuestRam :=
  mkRam (ram_len r) (pages r) d (private r) (sealed r) (memory r).
Definition set_private (b : bool) (r : KvmGuestRam) : KvmGuestRam :=
  mkRam (ram_len r) (pages r) (host_dirty r) b (sealed r) (memory r).
Definition set_sealed (b : bool) (r : KvmGuestRam) : KvmGuestRam :=
  mkRam (ram_len r) (pages r) (host_dirty r) (private r) b (memory r).

Definition on_ram (f : KvmGuestRam -> KvmGuestRam) : R unit := modify (fun s => (s.1, f s.2)).

(** ** Memory *)

Definition file_page (st : Storage) (file : Inode) (offset : N) : list byte :=
  slice offset PAGE_SIZE (inode_bytes st file).

(** The bytes of one page of the range.  A [Reserved] page cannot be read; a
    RAM that was constructed has none. *)
Definition slot_bytes (st : Storage) (m : Slot) : list byte :=
  match m with
  | Reserved => zero_page
  | MappedPage file offset _ None => file_page st file offset
  | MappedPage _ _ _ (Some copy) => copy
  end.

(** The guest's memory. *)
Definition ram_bytes (st : Storage) (r : KvmGuestRam) : list byte :=
  mjoin (slot_bytes st <$> memory r).

(** The bytes a RAM page object stands for. *)
Definition page_bytes (st : Storage) (p : RamPage) : list byte :=
  file_page st (g_file (p_generation p)) (p_offset p).

(** Pages a write of [n] bytes at [offset] touches. *)
Definition touched_pages (offset n : N) : list nat :=
  if n =? 0 then [] else
  let first := N.to_nat (offset / RAM_PAGE_SIZE) in
  let last := N.to_nat ((offset + n - 1) / RAM_PAGE_SIZE) in
  seq first (S last - first).

(** A processor stores [bytes] at [offset] of the range: a page mapped
    privately gets its own copy, a page mapped shared changes the file. *)
Definition store_slot (contents : list byte) (touched : list nat) (i : nat) (m : Slot) : Slot :=
  if decide (i ∈ touched) then
    match m with
    | MappedPage file offset true _ =>
        MappedPage file offset true (Some (slice (N.of_nat i * PAGE_SIZE) PAGE_SIZE contents))
    | _ => m
    end
  else m.

Definition store_shared (contents : list byte) (touched : list nat) (l : list Slot) (st : Storage) : Storage :=
  foldl (fun st i =>
    match l !! i with
    | Some (MappedPage file offset false _) =>
        set_data (<[file := splice offset (slice (N.of_nat i * PAGE_SIZE) PAGE_SIZE contents)
                              (inode_bytes st file)]> (sto_data st)) st
    | _ => st
    end) st touched.

Definition store (offset : N) (bytes : list byte) : R unit := modify (fun '(w, r) =>
  let contents := splice offset bytes (ram_bytes (rm_storage w) r) in
  let touched := touched_pages offset (lenN bytes) in
  (set_ram_storage (store_shared contents touched (memory r) (rm_storage w)) w,
   set_memory (imap (store_slot contents touched) (memory r)) r)).

(** ** Generations and pages *)

(** [RamGeneration::zeroed]. *)
Definition zeroed (len : N) : RW RamGeneration :=
  file ← sys "create RAM generation" Fd.tempfile;
  _ ← sys "size RAM generation" (Fd.set_len file len);
  w ← get;
  _ ← modify (fun w => mkRamWorld (rm_storage w) (next_page_id w) (wrapping_add (next_generation_id w) 1));
  mret (mkRamGeneration (next_generation_id w) file).

(** [RamPage::new]. *)
Definition new_page (g : RamGeneration) (offset : N) : RW RamPage :=
  w ← get;
  _ ← modify (fun w => mkRamWorld (rm_storage w) (wrapping_add (next_page_id w) 1) (next_generation_id w));
  mret (mkRamPage (next_page_id w) g offset).

(** [reserve]: an anonymous mapping without access. *)
Definition reserve (len : N) : RW (list Slot) :=
  _ ← sys "reserve KVM RAM" Sto.call;
  if len =? 0 then throw (Backend "reserve KVM RAM" (CauseIo (RawOs EINVAL))) else
  mret (replicate (N.to_nat (len / RAM_PAGE_SIZE)) Reserved).

(** ** Mapping *)

(** [map_run]. *)
Definition mapped_at (start count : nat) (g : RamGeneration) (generation_offset : N) (priv : bool)
    (i : nat) (m : Slot) : Slot :=
  if decide (start <= i < start + count)%nat then
    MappedPage (g_file g) (generation_offset + N.of_nat (i - start) * RAM_PAGE_SIZE) priv None
  else m.

Definition map_run (start count : nat) (g : RamGeneration) (generation_offset : N) (priv : bool) : R unit :=
  _ ← on_world (sys "map RAM run" Sto.call);
  on_ram (fun r => set_memory (imap (mapped_at start count g generation_offset priv) (memory r)) r).

(** Does [p] continue a run of [k] pages from [generation_offset]? *)
Definition continues (g : RamGeneration) (generation_offset : N) (k : nat) (p : RamPage) : bool :=
  (g_id (p_generation p) =? g_id g) && (p_offset p =? generation_offset + N.of_nat k * RAM_PAGE_SIZE).

(** The inner loop of [map_all_pages]: the run has [k] pages so far. *)
Fixpoint run_length (g : RamGeneration) (generation_offset : N) (k : nat) (rest : list RamPage) : nat :=
  match rest with
  | p :: rest' => if continues g generation_offset k p then run_length g generation_offset (S k) rest' else k
  | [] => k
  end.

(** The outer loop; every round maps at least one page, so as many rounds as
    pages are enough. *)
Fixpoint map_all_rounds (fuel start : nat) (priv : bool) : R unit :=
  match fuel with
  | O => mret tt
  | S fuel' =>
      s ← get;
      match drop start (pages s.2) with
      | [] => mret tt
      | p :: rest =>
          let count := run_length (p_generation p) (p_offset p) 1 rest in
          _ ← map_run start count (p_generation p) (p_offset p) priv;
          map_all_rounds fuel' (start + count) priv
      end
  end.

Definition map_all_pages (priv : bool) : R unit :=
  s ← get;
  map_all_rounds (length (pages s.2)) 0 priv.

(** [map_selected_pages]: the pages of a run are consecutive in the selection
    and in the generation.  Returns the length of the run and the rest. *)
Fixpoint selected_run (l : list RamPage) (g : RamGeneration) (generation_offset : N) (start k : nat)
    (selected : list nat) : nat * list nat :=
  match selected with
  | i :: selected' =>
      if decide (i = start + k)%nat then
        match l !! i with
        | Some p => if continues g generation_offset k p
                    then selected_run l g generation_offset start (S k) selected'
                    else (k, selected)
        | None => (k, selected)
        end
      else (k, selected)
  | [] => (k, [])
  end.

Fixpoint map_selected_rounds (fuel : nat) (selected : list nat) (priv : bool) : R unit :=
  match fuel with
  | O => mret tt
  | S fuel' =>
      match selected with
      | [] => mret tt
      | start :: selected' =>
          s ← get;
          match pages s.2 !! start with
          | None => mret tt
          | Some p =>
              let '(count, rest) := selected_run (pages s.2) (p_generation p) (p_offset p) start 1 selected' in
              _ ← map_run start count (p_generation p) (p_offset p) priv;
              map_selected_rounds fuel' rest priv
          end
      end
  end.

Definition map_selected_pages (selected : gset nat) (priv : bool) : R unit :=
  map_selected_rounds (size selected) (btree_elems selected) priv.

(** [discard_private_pages]: [MADV_DONTNEED] drops the private copies. *)
Definition dropped (m : Slot) : Slot :=
  match m with MappedPage file offset priv _ => MappedPage file offset priv None | Reserved => Reserved end.

Definition discard_private_pages : R unit :=
  _ ← on_world (sys "discard sealed private RAM pages" Sto.call);
  on_ram (fun r => set_memory (dropped <$> memory r) r).

(** [copy_page_to]: every round writes at least one byte, so a page's worth of
    rounds is enough. *)
Fixpoint copy_rounds (fuel : nat) (file : Inode) (bytes : list byte) (offset written : N) : RW unit :=
  match fuel with
  | O => mret tt
  | S fuel' =>
      if RAM_PAGE_SIZE <=? written then mret tt else
      n ← sys "copy RAM generation page" (Fd.pwrite file (drop (N.to_nat written) bytes) (offset + written));
      if n =? 0
      then throw (Backend "copy RAM generation page" (CauseIo (Custom WriteZero "pwrite returned zero")))
      else copy_rounds fuel' file bytes offset (written + n)
  end.

Definition slot_at (st : Storage) (r : KvmGuestRam) (index : nat) : list byte :=
  slot_bytes st (default Reserved (memory r !! index)).

Definition copy_page_to (index : nat) (file : Inode) (offset : N) : R unit :=
  s ← get;
  on_world (copy_rounds page_nat file (slot_at (rm_storage s.1) s.2 index) offset 0).

(** ** Host access *)

(** [checked_range]. *)
Definition checked_range (r : KvmGuestRam) (offset len : N) : result VmmError (N * N) :=
  match checked_add offset len with
  | None => Err (RamRange offset len)
  | Some e => if ram_len r <? e then Err (RamRange offset len) else Ok (offset, e)
  end.

(** [KvmGuestRam::read]. *)
Definition read (offset len : N) : R (list byte) :=
  s ← get;
  range ← lift (checked_range s.2 offset len);
  mret (slice range.1 len (ram_bytes (rm_storage s.1) s.2)).

(** [KvmGuestRam::write]. *)
Definition write (offset : N) (bytes : list byte) : R unit :=
  s ← get;
  range ← lift (checked_range s.2 offset (lenN bytes));
  _ ← store range.1 bytes;
  on_ram (fun r => set_host_dirty (host_dirty r ∪ list_to_set (touched_pages range.1 (lenN bytes))) r).

(** ** Construction *)

(** Build a RAM and run the mapping of its pages; on an error it is dropped. *)
Definition construct (r : KvmGuestRam) (m : R unit) : RW KvmGuestRam := fun w =>
  let '((w', r'), res) := m (w, r) in
  (w', match res with Ok _ => Ok r' | Err e => Err e end).

(** [from_pages]. *)
Definition from_pages (len : N) (l : list RamPage) : RW KvmGuestRam :=
  base ← reserve len;
  construct (mkRam len l ∅ true true base) (map_all_pages true).

(** [RamForkBranch::materialize]. *)
Definition materialize (b : RamForkBranch) : RW KvmGuestRam := from_pages (fb_len b) (fb_pages b).

(** The pages of a new RAM, from index [i]. *)
Fixpoint new_pages (g : RamGeneration) (i count : nat) : RW (list RamPage) :=
  match count with
  | O => mret []
  | S count' =>
      p ← new_page g (N.of_nat i * RAM_PAGE_SIZE);
      rest ← new_pages g (S i) count';
      mret (p :: rest)
  end.

(** [KvmGuestRam::new]. *)
Definition new (len : N) : RW KvmGuestRam :=
  if (len =? 0) || negb (len mod RAM_PAGE_SIZE =? 0) then throw (InvalidRamSize len) else
  base ← reserve len;
  g ← zeroed len;
  l ← new_pages g 0 (N.to_nat (len / RAM_PAGE_SIZE));
  construct (mkRam len l ∅ true false base) (map_all_pages true).

(** ** Forks *)

(** The pages a dirty bitmap names: bit [b] of word [w] is page [64 w + b]. *)
Definition word_pages (w : nat) (word : N) : list nat :=
  filter (fun page => N.testbit word (N.of_nat (page - w * 64)) = true) (seq (w * 64) 64).

Definition bitmap_pages (bitmap : list N) (n : nat) : list nat :=
  filter (fun page => page < n)%nat (mjoin (imap word_pages bitmap)).

(** The loop that adds captured pages to the dirty set. *)
Fixpoint add_dirty (n : nat) (dirty : gset nat) (l : list nat) : result VmmError (gset nat) :=
  match l with
  | [] => Ok dirty
  | page :: l' => if decide (n <= page)%nat then Err (InvalidDirtyPage page n)
                  else add_dirty n ({[ page ]} ∪ dirty) l'
  end.

(** The validation loop of [prepare_fork]. *)
Fixpoint check_pages (n : nat) (l : list nat) : result VmmError unit :=
  match l with
  | [] => Ok tt
  | page :: l' => if decide (n <= page)%nat then Err (InvalidDirtyPage page n) else check_pages n l'
  end.

(** Copy a page over its own backing. *)
Definition copy_home (index : nat) : R unit :=
  s ← get;
  match pages s.2 !! index with
  | Some p => copy_page_to index (g_file (p_generation p)) (p_offset p)
  | None => mret tt
  end.

(** The copy loop of [prepare_fork] for sealed RAM. *)
Fixpoint prepare_pages (g : RamGeneration) (k : nat) (l : list nat) (prepared : gmap nat RamPage) :
    R (gmap nat RamPage) :=
  match l with
  | [] => mret prepared
  | index :: l' =>
      let offset := N.of_nat k * RAM_PAGE_SIZE in
      _ ← copy_page_to index (g_file g) offset;
      p ← on_world (new_page g offset);
      prepare_pages g (S k) l' (<[index := p]> prepared)
  end.

(** [prepare_fork]. *)
Definition prepare_fork (selected : list nat) : R RamForkPreparation :=
  s ← get;
  let l := btree_elems (list_to_set selected : gset nat) in
  _ ← lift (check_pages (length (pages s.2)) l);
  if negb (sealed s.2) then
    _ ← for_each copy_home l;
    mret (mkPreparation (match pages s.2 with p :: _ => p_generation p | [] => mkRamGeneration 0 0 end) ∅ true)
  else
    g ← on_world (zeroed (lenN l * RAM_PAGE_SIZE));
    prepared ← prepare_pages g 0 l ∅;
    mret (mkPreparation g prepared false).

(** The dirty loop of [finish_prepared_pages] for sealed RAM. *)
Fixpoint finish_dirty (g : RamGeneration) (l : list nat) (next_offset : N) (prepared : gmap nat RamPage) :
    R (gmap nat RamPage) :=
  match l with
  | [] => mret prepared
  | index :: l' =>
      match prepared !! index with
      | Some p =>
          _ ← copy_page_to index (g_file g) (p_offset p);
          finish_dirty g l' next_offset prepared
      | None =>
          _ ← on_world (sys "grow RAM generation" (Fd.set_len (g_file g) (next_offset + RAM_PAGE_SIZE)));
          p ← on_world (new_page g next_offset);
          _ ← copy_page_to index (g_file g) (p_offset p);
          finish_dirty g l' (next_offset + RAM_PAGE_SIZE) (<[index := p]> prepared)
      end
  end.

(** The state both ends of [finish_prepared_pages] leave, and the branch. *)
Definition publish_branch : R RamForkBranch :=
  _ ← on_ram (fun r => set_host_dirty ∅ (set_sealed true r));
  gets (fun s => mkForkBranch (ram_len s.2) (pages s.2)).

(** [finish_prepared_pages]. *)
Definition finish_prepared_pages (prep : RamForkPreparation) (dirty : gset nat) : R RamForkBranch :=
  if seals_existing_generation prep then
    _ ← for_each copy_home (btree_elems dirty);
    _ ← discard_private_pages;
    _ ← on_ram (set_private true);
    publish_branch
  else
    s ← get;
    if private s.2 then
      prepared ← finish_dirty (prep_generation prep) (btree_elems dirty)
                   (N.of_nat (size (prep_pages prep)) * RAM_PAGE_SIZE) (prep_pages prep);
      _ ← on_ram (fun r => set_ram_pages (imap (fun i p => default p (prepared !! i)) (pages r)) r);
      _ ← map_selected_pages (dom prepared) true;
      publish_branch
    else
      _ ← map_all_pages true;
      _ ← on_ram (set_private true);
      publish_branch.

(** [finish_prepared_branch]. *)
Definition finish_prepared_branch (prep : RamForkPreparation) (dirtied : list nat) : R RamForkBranch :=
  s ← get;
  dirty ← lift (add_dirty (length (pages s.2)) (host_dirty s.2) dirtied);
  finish_prepared_pages prep dirty.

(** [fork_pages] and [seal_pages]. *)
Definition fork_pages (dirty : gset nat) : R KvmGuestRam :=
  prep ← prepare_fork [];
  branch ← finish_prepared_pages prep dirty;
  on_world (materialize branch).

Definition seal_pages (dirty : gset nat) : R unit :=
  prep ← prepare_fork [];
  _ ← finish_prepared_pages prep dirty;
  mret tt.

(** [KvmGuestRam::fork]; [log] is the answer of [Vm::get_dirty_log]. *)
Definition logged_dirty (operation : string) (log : result string (list N)) : R (gset nat) :=
  bitmap ← lift (map_err (fun m => Backend operation (CauseVmm m)) log);
  gets (fun s => host_dirty s.2 ∪ list_to_set (bitmap_pages bitmap (length (pages s.2)))).

Definition fork (log : result string (list N)) : R KvmGuestRam :=
  dirty ← logged_dirty "read KVM dirty log" log;
  fork_pages dirty.

(** [fork_dirty_pages]. *)
Definition fork_dirty_pages (captured : list nat) : R KvmGuestRam :=
  s ← get;
  dirty ← lift (add_dirty (length (pages s.2)) (host_dirty s.2) captured);
  fork_pages dirty.

(** [seal_for_checkpoint] and [seal_dirty_pages]. *)
Definition seal_for_checkpoint (log : result string (list N)) : R unit :=
  dirty ← logged_dirty "read KVM dirty log for checkpoint" log;
  seal_pages dirty.

Definition seal_dirty_pages (captured : list nat) : R unit :=
  s ← get;
  dirty ← lift (add_dirty (length (pages s.2)) (host_dirty s.2) captured);
  seal_pages dirty.

(** [page_accounting]. *)
Definition branch_page_ids (r : KvmGuestRam) : gset N := list_to_set (p_id <$> pages r).
Definition branch_generation_ids (r : KvmGuestRam) : gset N :=
  list_to_set ((fun p => g_id (p_generation p)) <$> pages r).

Definition page_accounting (branches : list KvmGuestRam) : RamAccounting :=
  let references := count_refs (branch_page_ids <$> branches) in
  mkRamAccounting (size references) (count_shared references)
    (size (⋃ (branch_generation_ids <$> branches))).

End Ram.
