(* ===== verification/RamInv.v ===== *)
(** * Guest RAM: the invariant and the primitive operations

    What every RAM branch satisfies between operations ([ram_ok]), and what
    copying a page, mapping runs of pages and dropping private copies do to
    the memory the guest sees. *)

From S2P Require Import Prelude Host CacheTypes Storage VmmTypes Ram.
Import Ram.

Implicit Types (w : RamWorld) (st : Storage) (r : KvmGuestRam) (f : Inode) (D : gset nat)
  (p : RamPage) (g : RamGeneration) (m : Slot) (K : list RamPage).

Lemma wp_sys {A} op (m : SIO A) Q R w :
  wp (sys op m) Q R w <->
  wp m (fun a st => Q a (set_ram_storage st w))
       (fun e st => R (Backend op (CauseIo e)) (set_ram_storage st w)) (rm_storage w).
Proof. unfold sys. by rewrite wp_zoom, wp_with_err. Qed.

Lemma wp_on_world {A} (m : RW A) (Q : A -> RamWorld * KvmGuestRam -> Prop) R w r :
  wp (on_world m) Q R (w, r) <-> wp m (fun a w' => Q a (w', r)) (fun e w' => R e (w', r)) w.
Proof. unfold on_world. by rewrite wp_zoom. Qed.

Lemma wp_on_ram h Q R w r : wp (on_ram h) Q R (w, r) <-> Q tt (w, h r).
Proof. done. Qed.

(** ** Invariant *)

(** A page of the range maps a whole page of a file privately. *)
Definition slot_ok st m : Prop :=
  match m with
  | Reserved => False
  | MappedPage f off priv copy =>
      priv = true /\ f < sto_next st /\ off + PAGE_SIZE <= lenN (inode_bytes st f) /\
      match copy with Some b => lenN b = PAGE_SIZE | None => True end
  end.

Definition page_file p : Inode := g_file (p_generation p).

(** A page object is a whole page of its file. *)
Definition page_ok st p : Prop :=
  page_file p < sto_next st /\ p_offset p + PAGE_SIZE <= lenN (inode_bytes st (page_file p)) /\
  p_offset p mod PAGE_SIZE = 0.

(** The pages created so far, by the counters: a number is given to one page
    and to one generation only. *)
Record registry w K : Prop := {
  reg_page p : p ∈ K -> p_id p < next_page_id w;
  reg_generation p : p ∈ K -> g_id (p_generation p) < next_generation_id w;
  reg_same p q : p ∈ K -> q ∈ K -> p_id p = p_id q -> p = q;
  reg_same_generation p q : p ∈ K -> q ∈ K ->
    g_id (p_generation p) = g_id (p_generation q) -> p_generation p = p_generation q
}.

(** What slot [i] of an unsealed RAM is: the RAM owns one generation, mapped
    in order. *)
Definition in_order g (i : nat) p m : Prop :=
  p_generation p = g /\ p_offset p = N.of_nat i * PAGE_SIZE /\
  exists copy, m = MappedPage (g_file g) (N.of_nat i * PAGE_SIZE) true copy.

(** The invariant of one RAM.  [D] is the set of pages that may differ from
    their page object without being in [host_dirty]: the pages KVM has logged. *)
Record ram_ok K st D r : Prop := {
  ok_len : ram_len r = lenN (pages r) * PAGE_SIZE;
  ok_nonempty : pages r <> [];
  ok_memory : length (memory r) = length (pages r);
  ok_slots : Forall (slot_ok st) (memory r);
  ok_pages : Forall (page_ok st) (pages r);
  ok_known : pages r ⊆ K;
  ok_dirty i : i ∈ host_dirty r -> (i < length (pages r))%nat;
  ok_private : private r = true;
  ok_clean i m p : memory r !! i = Some m -> pages r !! i = Some p ->
    i ∉ host_dirty r -> i ∉ D -> slot_bytes st m = page_bytes st p;
  ok_unsealed : sealed r = false -> exists g, forall i m p,
    memory r !! i = Some m -> pages r !! i = Some p -> in_order g i p m
}.

(** The files a RAM reads. *)
Definition slot_files m : gset Inode :=
  match m with Reserved => ∅ | MappedPage f _ _ _ => {[ f ]} end.
Definition ram_files r : gset Inode :=
  ⋃ (slot_files <$> memory r) ∪ list_to_set (page_file <$> pages r).

Lemma elem_of_slot_files r m i f :
  memory r !! i = Some m -> f ∈ slot_files m -> f ∈ ram_files r.
Proof.
  intros Hm Hf. apply elem_of_union_l, elem_of_union_list. exists (slot_files m). split; [|done].
  apply list_elem_of_fmap. exists m. split; [done|]. by eapply list_elem_of_lookup_2.
Qed.

Lemma elem_of_page_files r p i : pages r !! i = Some p -> page_file p ∈ ram_files r.
Proof.
  intros Hp. apply elem_of_union_r, elem_of_list_to_set, list_elem_of_fmap.
  exists p. split; [done|]. by eapply list_elem_of_lookup_2.
Qed.

(** ** Frame *)

(** The files of [X] have the bytes they had. *)
Definition same_bytes (X : gset Inode) st st' : Prop :=
  sto_next st <= sto_next st' /\ forall f, f ∈ X -> inode_bytes st' f = inode_bytes st f.

Lemma grows_same_bytes X Y st st' :
  grows Y st st' -> X ## Y -> (forall f, f ∈ X -> f < sto_next st) -> same_bytes X st st'.
Proof.
  intros G Hd Hx. split; [apply G|]. intros f Hf. unfold inode_bytes.
  rewrite (grows_data _ _ _ G); [done|by apply Hx|set_solver].
Qed.

Lemma slot_bytes_frame st st' m :
  (forall f, f ∈ slot_files m -> inode_bytes st' f = inode_bytes st f) ->
  slot_bytes st' m = slot_bytes st m.
Proof.
  destruct m as [|f off priv [c|]]; intros H; [reflexivity|reflexivity|].
  cbn [slot_bytes]. unfold file_page. rewrite H; [reflexivity|]. cbn. by apply elem_of_singleton.
Qed.

Lemma slot_ok_frame st st' m :
  sto_next st <= sto_next st' ->
  (forall f, f ∈ slot_files m -> inode_bytes st' f = inode_bytes st f) ->
  slot_ok st m -> slot_ok st' m.
Proof.
  destruct m as [|f off priv c]; cbn; [done|]. intros Hn Hf (-> & Hlt & Hle & Hc).
  rewrite Hf by set_solver. split_and!; done || lia.
Qed.

Lemma page_ok_frame st st' p :
  sto_next st <= sto_next st' -> inode_bytes st' (page_file p) = inode_bytes st (page_file p) ->
  page_ok st p -> page_ok st' p.
Proof. intros Hn Hf [Hlt Hle]. unfold page_ok. rewrite Hf. split; [lia|done]. Qed.

Lemma ok_slot K st D r i m : ram_ok K st D r -> memory r !! i = Some m -> slot_ok st m.
Proof. intros H Hm. eapply Forall_lookup_1; [apply H|exact Hm]. Qed.

Lemma ok_page K st D r i p : ram_ok K st D r -> pages r !! i = Some p -> page_ok st p.
Proof. intros H Hp. eapply Forall_lookup_1; [apply H|exact Hp]. Qed.

Lemma ok_files K st D r f : ram_ok K st D r -> f ∈ ram_files r -> f < sto_next st.
Proof.
  intros H [Hf|Hf]%elem_of_union.
  - apply elem_of_union_list in Hf as (X & (m & -> & Hm)%list_elem_of_fmap & Hf).
    apply list_elem_of_lookup in Hm as [i Hm]. pose proof (ok_slot _ _ _ _ _ _ H Hm) as Hs.
    destruct m as [|f' off priv c]; [done|]. cbn in Hf, Hs. set_solver.
  - apply elem_of_list_to_set, list_elem_of_fmap in Hf as (p & -> & [i Hp]%list_elem_of_lookup).
    by apply (ok_page _ _ _ _ _ _ H Hp).
Qed.

(** A RAM depends on the bytes of its own files only. *)
Lemma ram_ok_frame K K' st st' D r :
  same_bytes (ram_files r) st st' -> K ⊆ K' -> ram_ok K st D r -> ram_ok K' st' D r.
Proof.
  intros [Hn Hb] HK H.
  assert (forall i m, memory r !! i = Some m -> slot_bytes st' m = slot_bytes st m) as Hs.
  { intros i m Hm. apply slot_bytes_frame. intros f Hf. apply Hb. by eapply elem_of_slot_files. }
  assert (forall i p, pages r !! i = Some p -> inode_bytes st' (page_file p) = inode_bytes st (page_file p)) as Hp.
  { intros i p Hi. apply Hb. by eapply elem_of_page_files. }
  split; try apply H.
  - apply Forall_lookup. intros i m Hm. apply (slot_ok_frame st); [done| |by eapply ok_slot].
    intros f Hf. apply Hb. by eapply elem_of_slot_files.
  - apply Forall_lookup. intros i p Hi. apply (page_ok_frame st); [done|by eapply Hp|by eapply ok_page].
  - etrans; [apply H|done].
  - intros i m p Hm Hi Hd HD. rewrite (Hs i m Hm). unfold page_bytes, file_page.
    fold (page_file p). rewrite (Hp i p Hi). by apply (ok_clean _ _ _ _ H i).
Qed.

Lemma ram_bytes_frame st st' r :
  same_bytes (ram_files r) st st' -> ram_bytes st' r = ram_bytes st r.
Proof.
  intros [Hn Hb]. unfold ram_bytes. apply (f_equal mjoin), list_fmap_ext. intros i m Hm.
  apply slot_bytes_frame. intros f Hf. apply Hb. by eapply elem_of_slot_files.
Qed.

Lemma ram_ok_weaken K st D D' r : D ⊆ D' -> ram_ok K st D r -> ram_ok K st D' r.
Proof. intros HD H. split; try apply H. intros i m p Hm Hp Hh HD'. apply (ok_clean _ _ _ _ H i); set_solver. Qed.

(** ** Copying a page *)

Lemma take_split_drop (n k : N) (l : list byte) :
  take (N.to_nat (n + k)) l = take (N.to_nat n) l ++ slice 0 k (drop (N.to_nat n) l).
Proof.
  unfold slice. rewrite drop_0. rewrite N2Nat.inj_add.
  rewrite <-(take_drop (N.to_nat n) l) at 1. rewrite take_app.
  rewrite length_take. destruct (decide (N.to_nat n <= length l)%nat).
  - rewrite take_take. f_equal; f_equal; lia.
  - rewrite (drop_ge l) by lia. rewrite !take_nil, !app_nil_r, take_take. f_equal. lia.
Qed.

Lemma wp_copy_rounds fuel f bytes offset written c Q (R : VmmError -> RamWorld -> Prop) w0 w :
  lenN bytes = PAGE_SIZE -> PAGE_SIZE <= N.of_nat fuel + written ->
  (exists st, w = set_ram_storage st w0 /\
     rewrites f (file_write offset (take (N.to_nat written) bytes) c) (rm_storage w0) st) ->
  offset <= lenN c -> written <= PAGE_SIZE ->
  (forall st', rewrites f (file_write offset bytes c) (rm_storage w0) st' -> Q tt (set_ram_storage st' w0)) ->
  (forall e st' part, part `prefix_of` bytes ->
    rewrites f (file_write offset part c) (rm_storage w0) st' -> R e (set_ram_storage st' w0)) ->
  wp (copy_rounds fuel f bytes offset written) Q R w.
Proof.
  intros Hlen. revert written w.
  induction fuel as [|fuel IH]; intros written w Hf (st & -> & Hst) Hoff Hw HQ HR; cbn [copy_rounds].
  { wp_steps. apply HQ. rewrite take_ge in Hst by (unfold lenN in Hlen; lia). exact Hst. }
  destruct (N.leb_spec RAM_PAGE_SIZE written) as [Hge|Hlt].
  { wp_steps. apply HQ. rewrite take_ge in Hst by (unfold lenN in Hlen; lia). exact Hst. }
  wp_steps. rewrite wp_sys. apply wp_pwrite.
  2:{ intros e st' Hi. apply (HR _ _ (take (N.to_nat written) bytes)); [apply prefix_take|].
      cbn in Hi. eapply rewrites_trans; [exact Hst|]. apply idle_rewrites; [|exact Hi].
      rewrite (rewrites_data _ _ _ _ Hst). apply lookup_insert_eq. }
  intros n st' Hn Hpos Hwr. cbn in Hwr. rewrite (rewrites_bytes _ _ _ _ f Hst), decide_True in Hwr by done.
  assert (0 < n) as Hn0.
  { apply Hpos. intros Hd. apply (f_equal length) in Hd. rewrite length_drop in Hd. unfold lenN in Hlen. cbn in Hd. lia. }
  rewrite (proj2 (N.eqb_neq n 0)) by lia.
  assert (lenN (drop (N.to_nat written) bytes) = PAGE_SIZE - written) as Hdl.
  { unfold lenN in *. rewrite length_drop. lia. }
  apply IH; [lia| |done|lia|exact HQ|exact HR].
  exists st'. split; [done|].
  rewrite take_split_drop, <-file_write_app.
  replace (lenN (take (N.to_nat written) bytes)) with written
    by (unfold lenN in *; rewrite length_take; lia).
  eapply rewrites_trans; [exact Hst|exact Hwr].
Qed.

Lemma wp_copy_page_to index f offset c Q (R : VmmError -> RamWorld * KvmGuestRam -> Prop) w r :
  lenN (slot_at (rm_storage w) r index) = PAGE_SIZE ->
  sto_data (rm_storage w) !! f = Some c -> offset <= lenN c ->
  (forall st', rewrites f (file_write offset (slot_at (rm_storage w) r index) c) (rm_storage w) st' ->
    Q tt (set_ram_storage st' w, r)) ->
  (forall e st' part, part `prefix_of` slot_at (rm_storage w) r index ->
    rewrites f (file_write offset part c) (rm_storage w) st' -> R e (set_ram_storage st' w, r)) ->
  wp (copy_page_to index f offset) Q R (w, r).
Proof.
  intros Hl Hc Hoff HQ HR. unfold copy_page_to. wp_steps. cbn [fst snd]. rewrite wp_on_world.
  eapply (wp_copy_rounds _ _ _ _ _ c _ _ w); [done|rewrite page_nat_N; lia| |done|lia|exact HQ|exact HR].
  exists (rm_storage w). split; [by destruct w|]. cbn [take N.to_nat]. rewrite file_write_nil by done.
  apply idle_rewrites; [done|apply idle_refl].
Qed.

Lemma slot_bytes_len st m : slot_ok st m -> lenN (slot_bytes st m) = PAGE_SIZE.
Proof.
  destruct m as [|f off priv [c|]]; [done| |]; intros (_ & _ & Hle & Hc); [done|].
  cbn [slot_bytes]. unfold file_page. by apply lenN_slice.
Qed.

Lemma slot_at_lookup st r i m : memory r !! i = Some m -> slot_at st r i = slot_bytes st m.
Proof. unfold slot_at. by intros ->. Qed.

Lemma ok_view_len K st D r i :
  ram_ok K st D r -> (i < length (pages r))%nat -> lenN (slot_at st r i) = PAGE_SIZE.
Proof.
  intros H Hi. rewrite <-(ok_memory _ _ _ _ H) in Hi. apply lookup_lt_is_Some in Hi as [m Hm].
  rewrite (slot_at_lookup _ _ _ _ Hm). apply slot_bytes_len. by eapply ok_slot.
Qed.

(** The memory is what its pages show. *)
Lemma ram_bytes_views st st' r r' :
  length (memory r) = length (memory r') ->
  (forall i, (i < length (memory r))%nat -> slot_at st r i = slot_at st' r' i) ->
  ram_bytes st r = ram_bytes st' r'.
Proof.
  intros Hl Hv. unfold ram_bytes. apply (f_equal mjoin), list_eq. intros i. rewrite !list_lookup_fmap.
  destruct (memory r !! i) as [m|] eqn:Hm.
  - assert (i < length (memory r))%nat as Hi by (by eapply lookup_lt_Some).
    destruct (memory r' !! i) as [m'|] eqn:Hm'.
    + specialize (Hv i Hi). rewrite (slot_at_lookup _ _ _ _ Hm), (slot_at_lookup _ _ _ _ Hm') in Hv.
      cbn. by rewrite Hv.
    + apply lookup_ge_None in Hm'. lia.
  - apply lookup_ge_None in Hm. by rewrite (proj2 (lookup_ge_None (memory r') i)) by lia.
Qed.

(** ** Copying pages over their own backing

    An unsealed RAM owns its one generation; writing what the guest sees over
    the page's own place in it changes no page the guest sees. *)

Record copied r (done : list nat) st st' : Prop := {
  cp_grows : grows (list_to_set (page_file <$> pages r)) st st';
  cp_next : sto_next st' = sto_next st;
  cp_len f : lenN (inode_bytes st' f) = lenN (inode_bytes st f);
  cp_view i : (i < length (memory r))%nat -> slot_at st' r i = slot_at st r i;
  cp_clean i p : pages r !! i = Some p -> page_bytes st p = slot_at st r i ->
    page_bytes st' p = slot_at st r i;
  cp_done i p : i ∈ done -> pages r !! i = Some p -> page_bytes st' p = slot_at st r i
}.

Lemma copied_refl r st : copied r [] st st.
Proof. split; try done. intros i p Hi%not_elem_of_nil. done. Qed.

Lemma copied_trans K D r X Y st1 st2 st3 :
  ram_ok K st1 D r -> copied r X st1 st2 -> copied r Y st2 st3 -> copied r (X ++ Y) st1 st3.
Proof.
  intros H [G1 N1 L1 V1 C1 D1] [G2 N2 L2 V2 C2 D2].
  assert (forall i p, pages r !! i = Some p -> (i < length (memory r))%nat) as Hi.
  { intros i p Hp. rewrite (ok_memory _ _ _ _ H). by eapply lookup_lt_Some. }
  split.
  - by eapply grows_trans.
  - congruence.
  - intros f. by rewrite L2.
  - intros i ?. by rewrite V2, V1.
  - intros i p Hp Hc. pose proof (Hi i p Hp). rewrite <-(V1 i) by done. apply C2; [done|]. rewrite V1 by done. by apply C1.
  - intros i p [Hx|Hy]%elem_of_app Hp; pose proof (Hi i p Hp); rewrite <-(V1 i) by done.
    + apply C2; [done|]. rewrite V1 by done. by apply D1.
    + by apply D2.
Qed.

Section home.
Context K st D r g (i : nat) (part : list byte) st'.
Hypothesis Hok : ram_ok K st D r.
Hypothesis Horder : forall j m p, memory r !! j = Some m -> pages r !! j = Some p -> in_order g j p m.
Hypothesis Hi : (i < length (pages r))%nat.
Hypothesis Hpre : part `prefix_of` slot_at st r i.
Hypothesis Hrw :
  rewrites (g_file g) (file_write (N.of_nat i * PAGE_SIZE) part (inode_bytes st (g_file g))) st st'.

Abbreviation home s j := (file_page s (g_file g) (N.of_nat j * PAGE_SIZE)).

Lemma home_lookup j : (j < length (pages r))%nat ->
  exists copy p, memory r !! j = Some (MappedPage (g_file g) (N.of_nat j * PAGE_SIZE) true copy) /\
    pages r !! j = Some p /\ p_generation p = g /\ (forall s, page_bytes s p = home s j) /\
    N.of_nat j * PAGE_SIZE + PAGE_SIZE <= lenN (inode_bytes st (g_file g)).
Proof.
  intros Hj. assert (j < length (memory r))%nat as Hj' by (by rewrite (ok_memory _ _ _ _ Hok)).
  apply lookup_lt_is_Some in Hj as [p Hp]. apply lookup_lt_is_Some in Hj' as [m Hm].
  destruct (Horder j m p Hm Hp) as (Hg & Hoff & copy & ->). exists copy, p. split_and!; try done.
  - intros s. unfold page_bytes. by rewrite Hg, Hoff.
  - pose proof (ok_page _ _ _ _ _ _ Hok Hp) as (_ & Hle & _). unfold page_file in Hle. by rewrite Hg, Hoff in Hle.
Qed.

Lemma home_part : lenN part <= PAGE_SIZE.
Proof. rewrite <-(ok_view_len _ _ _ _ _ Hok Hi). unfold lenN. pose proof (prefix_length _ _ Hpre). lia. Qed.

Lemma home_own : inode_bytes st' (g_file g) = file_write (N.of_nat i * PAGE_SIZE) part (inode_bytes st (g_file g)).
Proof. rewrite (rewrites_bytes _ _ _ _ (g_file g) Hrw). by rewrite decide_True. Qed.

Lemma home_ne j : (j < length (pages r))%nat -> j <> i -> home st' j = home st j.
Proof.
  intros Hj Hji. pose proof home_part as Hpl. destruct (home_lookup j Hj) as (_ & _ & _ & _ & _ & _ & Hin).
  unfold file_page. rewrite home_own. apply slice_write_other; [done|]. clear -Hji Hpl. unfold PAGE_SIZE in *. lia.
Qed.

Lemma home_keep : home st i = slot_at st r i -> home st' i = slot_at st r i.
Proof.
  intros He. destruct (home_lookup i Hi) as (_ & _ & _ & _ & _ & _ & Hin).
  unfold file_page in *. rewrite home_own, file_write_prefix; [done|done|]. by rewrite He.
Qed.

Lemma home_full : lenN part = PAGE_SIZE -> home st' i = slot_at st r i.
Proof.
  intros Hfull. unfold file_page. rewrite home_own, slice_write_same by done.
  destruct Hpre as [rest Hr]. pose proof (ok_view_len _ _ _ _ _ Hok Hi) as Hvl.
  rewrite Hr in Hvl |- *. rewrite lenN_app in Hvl.
  assert (rest = []) as -> by (destruct rest; [done|unfold lenN in *; cbn in *; lia]).
  by rewrite app_nil_r.
Qed.

Lemma copied_step : copied r (if decide (lenN part = PAGE_SIZE) then [i] else []) st st'.
Proof.
  split.
  - destruct (home_lookup i Hi) as (_ & p & _ & Hp & <- & _).
    eapply grows_mono; [|apply Hrw]. apply singleton_subseteq_l, elem_of_list_to_set, list_elem_of_fmap.
    exists p. split; [done|by eapply list_elem_of_lookup_2].
  - apply Hrw.
  - intros f. rewrite (rewrites_bytes _ _ _ _ f Hrw). case_decide as Hf; [subst f|done].
    destruct (home_lookup i Hi) as (_ & _ & _ & _ & _ & _ & Hin). pose proof home_part.
    rewrite length_file_write. lia.
  - intros j Hj. rewrite (ok_memory _ _ _ _ Hok) in Hj. destruct (home_lookup j Hj) as (copy & _ & Hm & _).
    rewrite !(slot_at_lookup _ _ _ _ Hm). destruct copy as [b|]; [done|]. cbn [slot_bytes].
    destruct (decide (j = i)) as [->|Hji]; [|by apply home_ne].
    rewrite home_keep; rewrite (slot_at_lookup _ _ _ _ Hm); done.
  - intros j p Hp. assert (j < length (pages r))%nat as Hj by (by eapply lookup_lt_Some).
    destruct (home_lookup j Hj) as (_ & p' & _ & Hp' & _ & Hb & _). simplify_eq. rewrite !Hb. intros Hc.
    destruct (decide (j = i)) as [->|Hji]; [by apply home_keep|]. by rewrite home_ne.
  - intros j p Hj Hp. case_decide as Hfull; [|by apply not_elem_of_nil in Hj].
    apply list_elem_of_singleton in Hj as ->. destruct (home_lookup i Hi) as (_ & p' & _ & Hp' & _ & Hb & _).
    simplify_eq. rewrite Hb. by apply home_full.
Qed.
End home.

(** Copying home keeps the invariant. *)
Lemma copied_ok K st st' D r done : ram_ok K st D r -> copied r done st st' -> ram_ok K st' D r.
Proof.
  intros H [_ Hn Hl Hv Hc _]. split; try apply H.
  - apply Forall_lookup. intros i m Hm. pose proof (ok_slot _ _ _ _ _ _ H Hm) as Hs.
    destruct m as [|f off priv copy]; [done|]. cbn in *. by rewrite Hl, Hn.
  - apply Forall_lookup. intros i p Hp. pose proof (ok_page _ _ _ _ _ _ H Hp) as Hs. unfold page_ok. by rewrite Hl, Hn.
  - intros i m p Hm Hp Hh HD. pose proof (ok_clean _ _ _ _ H i m p Hm Hp Hh HD) as He.
    rewrite <-(slot_at_lookup _ _ _ _ Hm) in He. rewrite <-(slot_at_lookup _ _ _ _ Hm).
    rewrite Hv by (by eapply lookup_lt_Some). symmetry. by apply (Hc i).
Qed.

Lemma wp_copy_home K D r i Q (R : VmmError -> RamWorld * KvmGuestRam -> Prop) w :
  ram_ok K (rm_storage w) D r -> sealed r = false -> (i < length (pages r))%nat ->
  (forall st', copied r [i] (rm_storage w) st' -> Q tt (set_ram_storage st' w, r)) ->
  (forall e st', copied r [] (rm_storage w) st' -> R e (set_ram_storage st' w, r)) ->
  wp (copy_home i) Q R (w, r).
Proof.
  intros H Hs Hi HQ HR. destruct (ok_unsealed _ _ _ _ H Hs) as [g Hg].
  destruct (home_lookup _ _ _ _ _ H Hg i Hi) as (copy & p & Hm & Hp & Hpg & _ & Hin).
  pose proof (Hg i _ p Hm Hp) as (_ & Hoff & _).
  pose proof (ok_view_len _ _ _ _ _ H Hi) as Hvl.
  unfold copy_home. wp_steps. cbn [snd]. rewrite Hp, Hpg, Hoff.
  set (c := inode_bytes (rm_storage w) (g_file g)) in *.
  assert (sto_data (rm_storage w) !! g_file g = Some c) as Hc.
  { unfold c, inode_bytes in *. destruct (sto_data (rm_storage w) !! g_file g) as [x|] eqn:He; [done|].
    cbn in Hin. unfold lenN, PAGE_SIZE in Hin. cbn in Hin. lia. }
  apply (wp_copy_page_to _ _ _ c); [done|done|lia| |].
  - intros st' Hw. apply HQ. eapply (copied_step K _ D _ g i _ _ H Hg Hi) in Hw; [|done]. by rewrite decide_True in Hw.
  - intros e st' part Hpre Hw. apply HR. eapply (copied_step K _ D _ g i _ _ H Hg Hi) in Hw; [|done].
    split; try apply Hw. intros j q Hj%not_elem_of_nil. done.
Qed.

Lemma copied_drop r X st st' : copied r X st st' -> copied r [] st st'.
Proof. intros []. split; try done. intros i p Hi%not_elem_of_nil. done. Qed.

Lemma wp_copy_home_all K D r l Q (R : VmmError -> RamWorld * KvmGuestRam -> Prop) w :
  ram_ok K (rm_storage w) D r -> sealed r = false -> Forall (fun i => i < length (pages r))%nat l ->
  (forall st', copied r l (rm_storage w) st' -> Q tt (set_ram_storage st' w, r)) ->
  (forall e st', copied r [] (rm_storage w) st' -> R e (set_ram_storage st' w, r)) ->
  wp (for_each copy_home l) Q R (w, r).
Proof.
  intros H Hs Hl HQ HR.
  eapply wp_mono; [apply (wp_for_each _ (fun done todo s => exists st', s = (set_ram_storage st' w, r) /\
      copied r done (rm_storage w) st')
      (fun e s => exists st', s = (set_ram_storage st' w, r) /\ copied r [] (rm_storage w) st'))| |].
  - exists (rm_storage w). split; [by destruct w|apply copied_refl].
  - intros done i todo s' -> (st' & -> & Hc).
    assert (i < length (pages r))%nat as Hi by (rewrite Forall_app, Forall_cons in Hl; tauto).
    apply (wp_copy_home K D); [by eapply copied_ok|done|done| |].
    + intros st'' Hc'. exists st''. split; [done|by eapply copied_trans].
    + intros e st'' Hc'. exists st''. split; [done|]. eapply copied_drop. by eapply copied_trans.
  - intros [] s' (st' & -> & Hc). by apply HQ.
  - intros e s' (st' & -> & Hc). by apply HR.
Qed.

Lemma slot_at_frame st st' r i : same_bytes (ram_files r) st st' -> slot_at st' r i = slot_at st r i.
Proof.
  intros [_ Hb]. unfold slot_at. destruct (memory r !! i) as [m|] eqn:Hm; [|done]. cbn [default].
  apply slot_bytes_frame. intros f Hf. apply Hb. by eapply elem_of_slot_files.
Qed.

(** Changes to one file the RAM does not read. *)
Lemma ok_same_bytes K st st' D r f :
  ram_ok K st D r -> f ∉ ram_files r -> grows {[ f ]} st st' -> same_bytes (ram_files r) st st'.
Proof.
  intros H Hf G. eapply grows_same_bytes; [exact G|set_solver|]. intros f'. by apply ok_files with (1 := H).
Qed.

Lemma inode_bytes_some st f n : 0 < n -> n <= lenN (inode_bytes st f) -> sto_data st !! f = Some (inode_bytes st f).
Proof.
  unfold inode_bytes. destruct (sto_data st !! f) as [x|]; [done|]. cbn. unfold lenN. cbn. lia.
Qed.

Lemma slot_at_out K st D r i : ram_ok K st D r -> (length (pages r) <= i)%nat -> slot_at st r i = zero_page.
Proof.
  intros H Hi. unfold slot_at. rewrite (proj2 (lookup_ge_None (memory r) i)); [done|].
  by rewrite (ok_memory _ _ _ _ H).
Qed.
