(* ===== verification/RamMap.v ===== *)
(** * Guest RAM: mapping pages

    Mapping runs of pages is mapping every page by itself; what the loops of
    [map_all_pages] and [map_selected_pages] leave, also when the host fails
    one of the mappings. *)

From S2P Require Import Prelude Host CacheTypes Storage VmmTypes Ram RamInv.
Import Ram.

Implicit Types (w : RamWorld) (st : Storage) (r : KvmGuestRam) (f : Inode) (D : gset nat)
  (p : RamPage) (g : RamGeneration) (m : Slot) (K : list RamPage).

(** ** Mapping *)

(** A page object mapped without a copy. *)
Definition page_slot p : Slot := MappedPage (page_file p) (p_offset p) true None.

(** The RAM after the pages of [X] were mapped one by one. *)
Definition remap_slot (l : list RamPage) (X : list nat) (i : nat) m : Slot :=
  if decide (i ∈ X) then match l !! i with Some p => page_slot p | None => m end else m.
Definition remap (X : list nat) r : KvmGuestRam := set_memory (imap (remap_slot (pages r) X) (memory r)) r.

Lemma memory_remap X r i :
  memory (remap X r) !! i = remap_slot (pages r) X i <$> memory r !! i.
Proof. cbn. apply list_lookup_imap. Qed.

Lemma remap_ext X Y r : (forall i, i ∈ X <-> i ∈ Y) -> remap X r = remap Y r.
Proof.
  intros HXY. unfold remap. f_equal. apply list_eq. intros i. rewrite !list_lookup_imap.
  destruct (memory r !! i) as [m|]; [|done]. cbn. f_equal. unfold remap_slot.
  destruct (decide (i ∈ X)), (decide (i ∈ Y)); naive_solver.
Qed.

Lemma remap_nil r : remap [] r = r.
Proof.
  unfold remap. destruct r as [n l h pr se mem]. cbn. unfold set_memory. cbn. f_equal.
  apply list_eq. intros i. rewrite list_lookup_imap. by destruct (mem !! i).
Qed.

Lemma remap_app X Y r : remap Y (remap X r) = remap (X ++ Y) r.
Proof.
  unfold remap. cbn. unfold set_memory. cbn. f_equal. apply list_eq. intros i. rewrite !list_lookup_imap.
  destruct (memory r !! i) as [m|]; [|done]. cbn. f_equal. unfold remap_slot.
  destruct (decide (i ∈ Y)), (decide (i ∈ X)), (decide (i ∈ X ++ Y)) as [Hin|Hin];
    rewrite elem_of_app in Hin; try tauto; by destruct (pages r !! i).
Qed.

(** [K] makes a generation's number name the generation, so a run of pages
    that [continues] is a run of the generation's file. *)
Definition consistent K : Prop := forall p q, p ∈ K -> q ∈ K ->
  g_id (p_generation p) = g_id (p_generation q) -> p_generation p = p_generation q.

Lemma registry_consistent w K : registry w K -> consistent K.
Proof. intros H p q. apply (reg_same_generation _ _ H). Qed.

Lemma continues_spec K p q k :
  consistent K -> p ∈ K -> q ∈ K -> continues (p_generation p) (p_offset p) k q = true ->
  page_file q = page_file p /\ p_offset q = p_offset p + N.of_nat k * PAGE_SIZE.
Proof.
  intros HK Hp Hq. unfold continues. rewrite andb_true_iff, !N.eqb_eq. intros [Hid Hoff].
  split; [|done]. unfold page_file. by rewrite (HK q p).
Qed.

Lemma run_length_spec g off k rest :
  (k <= run_length g off k rest <= k + length rest)%nat /\
  forall j, (k <= j < run_length g off k rest)%nat ->
    exists q, rest !! (j - k)%nat = Some q /\ continues g off j q = true.
Proof.
  revert k. induction rest as [|q rest IH]; intros k; cbn; [split; lia|].
  destruct (continues g off k q) eqn:Hq; [|split; lia].
  destruct (IH (S k)) as [Hb Hj]. split; [lia|]. intros j Hk.
  destruct (decide (j = k)) as [->|Hne]; [exists q; by rewrite Nat.sub_diag|].
  destruct (Hj j) as (q' & Hq' & Hc); [lia|]. exists q'. split; [|done].
  by replace (j - k)%nat with (S (j - S k)) by lia.
Qed.

(** A run maps its pages as one by one. *)
Lemma map_run_remap K r start count p :
  consistent K -> pages r ⊆ K -> pages r !! start = Some p -> (0 < count)%nat ->
  (forall j, (1 <= j < count)%nat -> exists q, pages r !! (start + j)%nat = Some q /\
     continues (p_generation p) (p_offset p) j q = true) ->
  set_memory (imap (mapped_at start count (p_generation p) (p_offset p) true) (memory r)) r =
  remap (seq start count) r.
Proof.
  intros HK Hl Hp Hc Hrun. unfold remap. f_equal. apply list_eq. intros i. rewrite !list_lookup_imap.
  destruct (memory r !! i) as [m|]; [|done]. cbn. f_equal. unfold remap_slot, mapped_at.
  assert (p ∈ K) as HpK by (by apply Hl; eapply list_elem_of_lookup_2).
  destruct (decide (start <= i < start + count)%nat) as [Hin|Hout].
  - rewrite decide_True by (apply elem_of_seq; lia).
    destruct (decide (i = start)) as [->|Hne].
    + rewrite Hp. unfold page_slot, page_file. rewrite Nat.sub_diag. f_equal. lia.
    + destruct (Hrun (i - start)%nat) as (q & Hq & Hcont); [lia|].
      replace (start + (i - start))%nat with i in Hq by lia. rewrite Hq.
      destruct (continues_spec K p q (i - start) HK HpK) as [Hf Ho]; [by apply Hl; eapply list_elem_of_lookup_2|exact Hcont|].
      unfold page_slot. by rewrite Hf, Ho.
  - rewrite decide_False; [done|]. rewrite elem_of_seq. lia.
Qed.

Lemma wp_map_run start count g off priv Q (R : VmmError -> RamWorld * KvmGuestRam -> Prop) w r :
  (forall st', idle (rm_storage w) st' -> Q tt (set_ram_storage st' w,
     set_memory (imap (mapped_at start count g off priv) (memory r)) r)) ->
  (forall e st', idle (rm_storage w) st' -> R e (set_ram_storage st' w, r)) ->
  wp (map_run start count g off priv) Q R (w, r).
Proof.
  intros HQ HR. unfold map_run. wp_steps. rewrite wp_on_world, wp_sys. apply wp_sto_call.
  - intros o st' Hi. rewrite wp_on_ram. by apply HQ.
  - intros e st' Hi. by apply HR.
Qed.

(** The pages of [X] were mapped, the host is otherwise as it was. *)
Definition mapped_pages X w r w' r' : Prop :=
  exists st', idle (rm_storage w) st' /\ w' = set_ram_storage st' w /\ r' = remap X r.

Lemma mapped_pages_trans X Y w1 r1 w2 r2 w3 r3 :
  mapped_pages X w1 r1 w2 r2 -> mapped_pages Y w2 r2 w3 r3 -> mapped_pages (X ++ Y) w1 r1 w3 r3.
Proof.
  intros (st2 & H2 & -> & ->) (st3 & H3 & -> & ->). exists st3. split; [by eapply idle_trans|].
  split; [done|]. apply remap_app.
Qed.

Lemma mapped_pages_refl w r : mapped_pages [] w r w r.
Proof. exists (rm_storage w). split; [apply idle_refl|]. split; [by destruct w|by rewrite remap_nil]. Qed.

(** One round: a run, then the rest. *)
Lemma wp_map_round K start count p (rest : R unit) w0 r0 X Y w r :
  consistent K -> pages r ⊆ K -> pages r !! start = Some p -> (0 < count)%nat ->
  (forall j, (1 <= j < count)%nat -> exists q, pages r !! (start + j)%nat = Some q /\
     continues (p_generation p) (p_offset p) j q = true) ->
  mapped_pages X w0 r0 w r -> X ⊆ Y ->
  (forall w' r', mapped_pages (X ++ seq start count) w0 r0 w' r' -> pages r' = pages r ->
    wp rest (fun _ s => mapped_pages Y w0 r0 s.1 s.2)
      (fun _ s => exists Z, Z ⊆ Y /\ mapped_pages Z w0 r0 s.1 s.2) (w', r')) ->
  wp (_ ← map_run start count (p_generation p) (p_offset p) true; rest)
    (fun _ s => mapped_pages Y w0 r0 s.1 s.2)
    (fun _ s => exists Z, Z ⊆ Y /\ mapped_pages Z w0 r0 s.1 s.2) (w, r).
Proof.
  intros HK Hl Hp Hc Hrun Hm HXY Hrest. wp_steps. apply wp_map_run.
  - intros st' Hi. apply Hrest; [|done]. eapply mapped_pages_trans; [exact Hm|].
    exists st'. split; [done|]. split; [done|]. by eapply map_run_remap.
  - intros e st' Hi. exists X. split; [done|]. cbn.
    destruct Hm as (st1 & H1 & -> & ->). exists st'. split; [by eapply idle_trans|done].
Qed.

Lemma wp_map_all_rounds K fuel start w0 r0 w r :
  consistent K -> pages r ⊆ K -> (start <= length (pages r))%nat -> (length (pages r) - start <= fuel)%nat ->
  mapped_pages (seq 0 start) w0 r0 w r ->
  wp (map_all_rounds fuel start true)
    (fun _ s => mapped_pages (seq 0 (length (pages r))) w0 r0 s.1 s.2)
    (fun _ s => exists Z, Z ⊆ seq 0 (length (pages r)) /\ mapped_pages Z w0 r0 s.1 s.2) (w, r).
Proof.
  revert start w r. induction fuel as [|fuel IH]; intros start w r HK Hl Hs Hf Hm; cbn [map_all_rounds].
  { wp_steps. by replace (length (pages r)) with start by lia. }
  wp_steps. cbn [snd]. destruct (drop start (pages r)) as [|p rest] eqn:Hd.
  { wp_steps. apply (f_equal length) in Hd. rewrite length_drop in Hd. cbn in Hd.
    by replace (length (pages r)) with start by lia. }
  assert (forall j, pages r !! (start + j)%nat = (p :: rest) !! j) as Hlk.
  { intros j. by rewrite <-Hd, lookup_drop. }
  assert (length (pages r) = start + S (length rest))%nat as Hlen.
  { apply (f_equal length) in Hd. rewrite length_drop in Hd. cbn in Hd. lia. }
  destruct (run_length_spec (p_generation p) (p_offset p) 1 rest) as [Hb Hrun].
  cbv zeta. set (count := run_length _ _ _ _) in *.
  eapply (wp_map_round K _ _ _ _ _ _ (seq 0 start)); [done|done| |lia| |exact Hm| |].
  - specialize (Hlk 0%nat). by rewrite Nat.add_0_r in Hlk.
  - intros j Hj. destruct (Hrun j Hj) as (q & Hq & Hc). exists q. split; [|done].
    rewrite Hlk. destruct j; [lia|]. cbn in Hq |- *. by rewrite Nat.sub_0_r in Hq.
  - intros i. rewrite !elem_of_seq. lia.
  - intros w' r' Hm' Hp'. rewrite <-Hp'. apply IH; rewrite ?Hp'; [done|done|lia|lia|].
    by rewrite seq_app.
Qed.

Lemma wp_map_all_pages K w r :
  consistent K -> pages r ⊆ K ->
  wp (map_all_pages true)
    (fun _ s => mapped_pages (seq 0 (length (pages r))) w r s.1 s.2)
    (fun _ s => exists Z, Z ⊆ seq 0 (length (pages r)) /\ mapped_pages Z w r s.1 s.2) (w, r).
Proof.
  intros HK Hl. unfold map_all_pages. wp_steps. cbn [snd].
  apply (wp_map_all_rounds K); [done|done|lia|lia|apply mapped_pages_refl].
Qed.

(** A selected run is consecutive in the selection and in the file. *)
Lemma selected_run_spec l g off start k sel n rest :
  selected_run l g off start k sel = (n, rest) ->
  (k <= n)%nat /\ sel = seq (start + k) (n - k) ++ rest /\
  forall j, (k <= j < n)%nat -> exists q, l !! (start + j)%nat = Some q /\ continues g off j q = true.
Proof.
  revert k. induction sel as [|i sel IH]; intros k; cbn; [intros [= <- <-]|].
  { rewrite Nat.sub_diag. split_and!; [lia|done|lia]. }
  destruct (decide (i = start + k)%nat) as [->|Hne].
  2:{ intros [= <- <-]. rewrite Nat.sub_diag. split_and!; [lia|done|lia]. }
  destruct (l !! (start + k)%nat) as [q|] eqn:Hq.
  2:{ intros [= <- <-]. rewrite Nat.sub_diag. split_and!; [lia|done|lia]. }
  destruct (continues g off k q) eqn:Hc.
  2:{ intros [= <- <-]. rewrite Nat.sub_diag. split_and!; [lia|done|lia]. }
  intros (Hn & -> & Hj)%IH. split_and!; [lia| |].
  - replace (n - k)%nat with (S (n - S k)) by lia. cbn. f_equal. f_equal. f_equal. lia.
  - intros j Hk. destruct (decide (j = k)) as [->|Hne]; [by exists q|]. apply Hj. lia.
Qed.

Lemma wp_map_selected_rounds K fuel sel w0 r0 X w r :
  consistent K -> pages r ⊆ K -> Forall (fun i => i < length (pages r))%nat sel -> (length sel <= fuel)%nat ->
  mapped_pages X w0 r0 w r ->
  wp (map_selected_rounds fuel sel true)
    (fun _ s => mapped_pages (X ++ sel) w0 r0 s.1 s.2)
    (fun _ s => exists Z, Z ⊆ X ++ sel /\ mapped_pages Z w0 r0 s.1 s.2) (w, r).
Proof.
  revert sel X w r. induction fuel as [|fuel IH]; intros sel X w r HK Hl Hsel Hf Hm; cbn [map_selected_rounds].
  { destruct sel; [|cbn in Hf; lia]. wp_steps. by rewrite app_nil_r. }
  destruct sel as [|start sel]; [wp_steps; by rewrite app_nil_r|].
  wp_steps. cbn [snd]. apply Forall_cons in Hsel as [Hst Hsel].
  apply lookup_lt_is_Some in Hst as [p Hp]. rewrite Hp.
  destruct (selected_run (pages r) (p_generation p) (p_offset p) start 1 sel) as [count rest] eqn:Hr.
  apply selected_run_spec in Hr as (Hc & -> & Hj). rewrite length_cons, length_app in Hf.
  assert (start :: seq (start + 1) (count - 1) = seq start count) as Hseq.
  { destruct count; [lia|]. cbn. rewrite Nat.sub_0_r. f_equal. f_equal. lia. }
  eapply (wp_map_round K _ _ _ _ _ _ X); [done|done|done|lia|exact Hj|exact Hm| |].
  - intros i. rewrite elem_of_app. tauto.
  - intros w' r' Hm' Hp'. rewrite app_comm_cons, Hseq, app_assoc.
    apply IH; rewrite ?Hp'; [done|done| |lia|done]. by apply Forall_app in Hsel as [_ ?].
Qed.

Lemma wp_map_selected_pages K (sel : gset nat) w r :
  consistent K -> pages r ⊆ K -> (forall i, i ∈ sel -> i < length (pages r))%nat ->
  wp (map_selected_pages sel true)
    (fun _ s => mapped_pages (elements sel) w r s.1 s.2)
    (fun _ s => exists Z, Z ⊆ elements sel /\ mapped_pages Z w r s.1 s.2) (w, r).
Proof.
  intros HK Hl Hsel. unfold map_selected_pages.
  assert (forall i, i ∈ btree_elems sel <-> i ∈ elements sel) as He.
  { intros i. by rewrite elem_of_btree_elems, elem_of_elements. }
  eapply wp_mono; [apply (wp_map_selected_rounds K _ _ w r [])| |]; [done|done| | |apply mapped_pages_refl| |].
  - apply Forall_forall. intros i Hi. apply Hsel. by rewrite <-elem_of_btree_elems.
  - unfold btree_elems. by rewrite merge_sort_Permutation.
  - intros [] s (st' & Hi & Hw & Hr). exists st'. split; [done|]. split; [done|]. by rewrite <-(remap_ext _ _ r He).
  - intros e s (Z & HZ & Hm). exists Z. split; [|done]. intros i Hi. apply He. by apply HZ.
Qed.
