(* ===== verification/RamFork.v ===== *)
(** * Guest RAM: preparing and finishing a fork

    What [prepare_fork] and [finish_prepared_pages] do to the memory the guest
    sees, on success and when the host fails one of their calls. *)

From S2P Require Import Prelude Host CacheTypes Storage VmmTypes Ram RamInv RamMap.
Import Ram.

#[local] Opaque slot_at slice.

Implicit Types (w : RamWorld) (st : Storage) (r : KvmGuestRam) (f : Inode) (D : gset nat)
  (p q : RamPage) (g : RamGeneration) (m : Slot) (K : list RamPage) (prepared : gmap nat RamPage).

(** Group the three steps that make a page. *)
Lemma wp_regroup {St E A B C} (m1 : M St E A) (m2 : M St E B) (m3 : B -> M St E unit) (h : B -> M St E C) Q R s :
  wp ((_ ← m1; p ← m2; _ ← m3 p; mret p) ≫= h) Q R s -> wp (_ ← m1; p ← m2; _ ← m3 p; h p) Q R s.
Proof.
  unfold wp, mbind, M_bind, mret, M_ret. destruct (m1 s) as [s1 [a|e]]; [|done].
  destruct (m2 s1) as [s2 [b|e]]; [|done]. by destruct (m3 b s2) as [s3 [[]|e]].
Qed.

(** ** New pages and generations *)

(** A generation that may get more pages: its number is taken and names it. *)
Definition gen_ok w K g : Prop :=
  g_id g < next_generation_id w /\
  forall q, q ∈ K -> g_id (p_generation q) = g_id g -> p_generation q = g.

Lemma registry_storage w K st : registry w K -> registry (set_ram_storage st w) K.
Proof. intros []. by split. Qed.

Lemma gen_ok_storage w K g st : gen_ok w K g -> gen_ok (set_ram_storage st w) K g.
Proof. done. Qed.

Lemma wp_new_page K g off Q (R : VmmError -> RamWorld -> Prop) w :
  registry w K -> gen_ok w K g -> next_page_id w < u64_MAX ->
  (let p := mkRamPage (next_page_id w) g off in
   let w' := mkRamWorld (rm_storage w) (next_page_id w + 1) (next_generation_id w) in
   registry w' (p :: K) -> gen_ok w' (p :: K) g -> Q p w') ->
  wp (new_page g off) Q R w.
Proof.
  intros HK [Hg Hgq] Hn HQ. unfold new_page. wp_steps. rewrite wrapping_add_small by lia.
  apply HQ.
  - split.
    + intros p [->|Hp%HK]%elem_of_cons; cbn; lia.
    + intros p [->|Hp]%elem_of_cons; [done|by apply HK].
    + intros p q [->|Hp]%elem_of_cons [->|Hq]%elem_of_cons; cbn; intros He; [done| | |by apply HK].
      * pose proof (reg_page _ _ HK _ Hq). lia.
      * pose proof (reg_page _ _ HK _ Hp). lia.
    + intros p q [->|Hp]%elem_of_cons [->|Hq]%elem_of_cons; cbn; intros He; [done| | |by apply HK].
      * symmetry. by apply Hgq.
      * by apply Hgq.
  - split; [done|]. intros q [->|Hq]%elem_of_cons; [done|by apply Hgq].
Qed.

Lemma wp_zeroed K n Q (R : VmmError -> RamWorld -> Prop) w :
  registry w K -> next_generation_id w < u64_MAX ->
  (forall g w', g_file g = sto_next (rm_storage w) -> registry w' K -> gen_ok w' K g ->
    next_page_id w' = next_page_id w -> next_generation_id w' = next_generation_id w + 1 ->
    grows ∅ (rm_storage w) (rm_storage w') -> sto_next (rm_storage w') = g_file g + 1 ->
    sto_data (rm_storage w') !! g_file g = Some (replicate (N.to_nat n) zero_byte) -> Q g w') ->
  (forall e st', grows ∅ (rm_storage w) st' -> R e (set_ram_storage st' w)) ->
  wp (zeroed n) Q R w.
Proof.
  intros HK Hn HQ HR. unfold zeroed. wp_steps. rewrite wp_sys. apply wp_fd_tempfile.
  2:{ intros e st' Hi. apply HR, Hi. }
  intros st1 Hc. wp_steps. rewrite wp_sys. apply wp_fd_set_len.
  2:{ intros e st' Hi. apply HR. eapply grows_trans; [apply Hc|apply Hi]. }
  intros st2 Hr. wp_steps. rewrite wrapping_add_small by (cbn; lia). cbn in Hr.
  assert (grows ∅ (rm_storage w) st2) as G.
  { eapply grows_fresh; [apply Hc|apply Hr|]. intros i ->%elem_of_singleton. right. lia. }
  apply HQ; cbn; try done.
  - destruct HK as [H1 H2 H3 H4]. split; cbn; try done. intros p Hp%H2. lia.
  - split; [cbn; lia|]. intros q Hq He. pose proof (reg_generation _ _ HK _ Hq). cbn in He. lia.
  - rewrite (rewrites_next _ _ _ _ Hr). apply Hc.
  - rewrite (rewrites_data _ _ _ _ Hr), lookup_insert_eq. f_equal.
    unfold inode_bytes. rewrite (creates_data _ _ _ Hc), lookup_insert_eq. cbn. unfold resize_bytes.
    rewrite take_nil. cbn. f_equal. lia.
Qed.

(** ** Pages placed in a generation *)

(** The first [n] pages of the generation's file hold the prepared pages, at
    different places. *)
Record placed g K (n : nat) prepared st : Prop := {
  pl_generation i p : prepared !! i = Some p -> p_generation p = g;
  pl_known i p : prepared !! i = Some p -> p ∈ K;
  pl_offset i p : prepared !! i = Some p -> exists k, (k < n)%nat /\ p_offset p = N.of_nat k * PAGE_SIZE;
  pl_distinct i j p q : prepared !! i = Some p -> prepared !! j = Some q -> p_offset p = p_offset q -> i = j;
  pl_len : N.of_nat n * PAGE_SIZE <= lenN (inode_bytes st (g_file g))
}.

(** One more page, at place [n]. *)
Lemma placed_insert g K n prepared st st' i p :
  placed g K n prepared st -> prepared !! i = None -> p_generation p = g ->
  p_offset p = N.of_nat n * PAGE_SIZE -> N.of_nat (S n) * PAGE_SIZE <= lenN (inode_bytes st' (g_file g)) ->
  placed g (p :: K) (S n) (<[i := p]> prepared) st'.
Proof.
  intros [H1 H2 H3 H4 H5] Hi Hg Hoff Hl.
  assert (forall j q, prepared !! j = Some q -> p_offset q <> p_offset p) as Hne.
  { intros j q Hq. destruct (H3 j q Hq) as (k & Hk & ->). rewrite Hoff. clear -Hk. unfold PAGE_SIZE. lia. }
  split; [| | | |done].
  - intros j q [[<- <-]|[_ Hq]]%lookup_insert_Some; [done|by eapply H1].
  - intros j q [[<- <-]|[_ Hq]]%lookup_insert_Some; [left|right; by eapply H2].
  - intros j q [[<- <-]|[_ Hq]]%lookup_insert_Some; [exists n; split; [lia|done]|].
    destruct (H3 j q Hq) as (k & Hk & Ho). exists k. split; [lia|done].
  - intros j j' q q' [[<- <-]|[_ Hq]]%lookup_insert_Some [[<- <-]|[_ Hq']]%lookup_insert_Some He; [done| | |by eapply H4].
    + by apply Hne in Hq'.
    + by apply Hne in Hq.
Qed.

(** Writing one place leaves the pages at the other places. *)
Lemma place_write_other st st' g off part q k :
  rewrites (g_file g) (file_write off part (inode_bytes st (g_file g))) st st' ->
  p_generation q = g -> p_offset q = N.of_nat k * PAGE_SIZE -> lenN part <= PAGE_SIZE ->
  N.of_nat (S k) * PAGE_SIZE <= lenN (inode_bytes st (g_file g)) ->
  (exists k', off = N.of_nat k' * PAGE_SIZE /\ k' <> k) -> page_bytes st' q = page_bytes st q.
Proof.
  intros Hr Hg Hq Hp Hl (k' & -> & Hne). unfold page_bytes, file_page. rewrite Hg.
  rewrite (rewrites_bytes _ _ _ _ (g_file g) Hr), decide_True by done. rewrite Hq.
  apply slice_write_other; clear -Hl Hne Hp; unfold PAGE_SIZE in *; lia.
Qed.

Lemma place_write_same st st' p bytes c :
  rewrites (page_file p) (file_write (p_offset p) bytes c) st st' -> lenN bytes = PAGE_SIZE ->
  page_bytes st' p = bytes.
Proof.
  intros Hr Hl. unfold page_bytes, file_page. fold (page_file p).
  rewrite (rewrites_bytes _ _ _ _ (page_file p) Hr), decide_True by done. by apply slice_write_same.
Qed.

(** Growing the file keeps its pages. *)
Lemma place_resize st st' g n q k :
  rewrites (g_file g) (resize_bytes n (inode_bytes st (g_file g))) st st' ->
  p_generation q = g -> p_offset q = N.of_nat k * PAGE_SIZE -> N.of_nat (S k) * PAGE_SIZE <= n ->
  N.of_nat (S k) * PAGE_SIZE <= lenN (inode_bytes st (g_file g)) -> page_bytes st' q = page_bytes st q.
Proof.
  intros Hr Hg Hq Hn Hl. unfold page_bytes, file_page. rewrite Hg, Hq.
  rewrite (rewrites_bytes _ _ _ _ (g_file g) Hr), decide_True by done.
  apply list_eq_nthN. intros i. rewrite !nthN_slice, nthN_resize.
  destruct (N.ltb_spec i PAGE_SIZE) as [Hi|Hi]; [|done].
  rewrite (proj2 (N.ltb_lt _ n)) by (clear -Hn Hi; unfold PAGE_SIZE in *; lia).
  destruct (nthN_lt (inode_bytes st (g_file g)) (N.of_nat k * PAGE_SIZE + i)) as [x ->]; [|done].
  clear -Hl Hi. unfold PAGE_SIZE in *. lia.
Qed.

(** ** Filling a generation *)

Section fill.
Context r g.

(** The pages of [l] hold what the guest sees; the other prepared pages hold
    what they held. *)
Record filled (l : list nat) K (n : nat) prepared w K' (n' : nat) prepared' w' : Prop := {
  fl_grows : grows {[ g_file g ]} (rm_storage w) (rm_storage w');
  fl_known : K ⊆ K';
  fl_registry : registry w' K';
  fl_gen : gen_ok w' K' g;
  fl_generations : next_generation_id w' = next_generation_id w;
  fl_page_ids : next_page_id w' <= next_page_id w + lenN l;
  fl_placed : placed g K' n' prepared' (rm_storage w');
  fl_places : (n <= n' <= n + length l)%nat;
  fl_len : lenN (inode_bytes (rm_storage w') (g_file g)) =
    N.max (lenN (inode_bytes (rm_storage w) (g_file g))) (N.of_nat n' * PAGE_SIZE);
  fl_old i p : prepared !! i = Some p -> prepared' !! i = Some p /\
    (i ∉ l -> page_bytes (rm_storage w') p = page_bytes (rm_storage w) p);
  fl_new i : i ∈ l -> exists p, prepared' !! i = Some p /\
    page_bytes (rm_storage w') p = slot_at (rm_storage w) r i;
  fl_dom i : is_Some (prepared' !! i) -> is_Some (prepared !! i) \/ i ∈ l
}.

(** The host failed on the way. *)
Definition fill_failed K w w' : Prop :=
  grows {[ g_file g ]} (rm_storage w) (rm_storage w') /\
  next_generation_id w' = next_generation_id w /\
  exists K', K ⊆ K' /\ registry w' K'.

Lemma filled_nil K n prepared w :
  registry w K -> gen_ok w K g -> placed g K n prepared (rm_storage w) ->
  filled [] K n prepared w K n prepared w.
Proof.
  intros HK Hg Hp. pose proof (pl_len _ _ _ _ _ Hp).
  split; try done; [lia|cbn; lia|lia| |by left]. intros i Hi%not_elem_of_nil. done.
Qed.

Lemma filled_failed l K n prepared w K' n' prepared' w' : filled l K n prepared w K' n' prepared' w' -> fill_failed K w w'.
Proof. intros []. split; [done|]. split; [done|]. by exists K'. Qed.

Lemma fill_failed_trans l K n prepared w1 K2 n2 prepared2 w2 w3 :
  filled l K n prepared w1 K2 n2 prepared2 w2 -> fill_failed K2 w2 w3 -> fill_failed K w1 w3.
Proof.
  intros [] (G & Hn & K' & HK & Hr). split; [by eapply grows_trans|]. split; [congruence|].
  exists K'. split; [by etrans|done].
Qed.

Lemma filled_trans X Y K1 n1 prepared1 w1 K2 n2 prepared2 w2 K3 n3 prepared3 w3 :
  (forall i, i ∈ X ++ Y -> slot_at (rm_storage w2) r i = slot_at (rm_storage w1) r i) ->
  filled X K1 n1 prepared1 w1 K2 n2 prepared2 w2 -> filled Y K2 n2 prepared2 w2 K3 n3 prepared3 w3 ->
  filled (X ++ Y) K1 n1 prepared1 w1 K3 n3 prepared3 w3.
Proof.
  intros Hv F1 F2. split; try apply F2.
  - eapply grows_trans; [apply F1|apply F2].
  - etrans; [apply F1|apply F2].
  - rewrite (fl_generations _ _ _ _ _ _ _ _ _ F2). apply F1.
  - rewrite lenN_app. pose proof (fl_page_ids _ _ _ _ _ _ _ _ _ F1). pose proof (fl_page_ids _ _ _ _ _ _ _ _ _ F2). lia.
  - rewrite length_app. pose proof (fl_places _ _ _ _ _ _ _ _ _ F1). pose proof (fl_places _ _ _ _ _ _ _ _ _ F2). lia.
  - rewrite (fl_len _ _ _ _ _ _ _ _ _ F2), (fl_len _ _ _ _ _ _ _ _ _ F1).
    pose proof (fl_places _ _ _ _ _ _ _ _ _ F2). unfold PAGE_SIZE. lia.
  - intros i p Hp. destruct (fl_old _ _ _ _ _ _ _ _ _ F1 i p Hp) as [Hp2 Hb2].
    destruct (fl_old _ _ _ _ _ _ _ _ _ F2 i p Hp2) as [Hp3 Hb3]. split; [done|].
    rewrite elem_of_app. intros Hn. by rewrite Hb3, Hb2 by tauto.
  - intros i Hi. destruct (decide (i ∈ Y)) as [Hy|Hy].
    + destruct (fl_new _ _ _ _ _ _ _ _ _ F2 i Hy) as (p & Hp & Hb). exists p. split; [done|]. by rewrite Hb, Hv.
    + apply elem_of_app in Hi as [Hx|]; [|done].
      destruct (fl_new _ _ _ _ _ _ _ _ _ F1 i Hx) as (p & Hp & Hb).
      destruct (fl_old _ _ _ _ _ _ _ _ _ F2 i p Hp) as [Hp3 Hb3]. exists p. split; [done|]. by rewrite Hb3.
  - intros i Hi. destruct (fl_dom _ _ _ _ _ _ _ _ _ F2 i Hi) as [H2|H2]; [|right; set_solver].
    destruct (fl_dom _ _ _ _ _ _ _ _ _ F1 i H2); [by left|right; set_solver].
Qed.

(** One page filled, at an old place or at a new one. *)
Lemma filled_one i p K n prepared w K' n' w' :
  grows {[ g_file g ]} (rm_storage w) (rm_storage w') -> K ⊆ K' -> registry w' K' -> gen_ok w' K' g ->
  next_generation_id w' = next_generation_id w -> next_page_id w' <= next_page_id w + 1 ->
  placed g K' n' (<[i := p]> prepared) (rm_storage w') -> (n <= n' <= n + 1)%nat ->
  lenN (inode_bytes (rm_storage w') (g_file g)) =
    N.max (lenN (inode_bytes (rm_storage w) (g_file g))) (N.of_nat n' * PAGE_SIZE) ->
  prepared !! i = None \/ prepared !! i = Some p ->
  page_bytes (rm_storage w') p = slot_at (rm_storage w) r i ->
  (forall j q, prepared !! j = Some q -> j <> i -> page_bytes (rm_storage w') q = page_bytes (rm_storage w) q) ->
  filled [i] K n prepared w K' n' (<[i := p]> prepared) w'.
Proof.
  intros G HK Hr Hg Hn Hp Hpl Hpn Hpm Hold Hb Hother.
  split; [exact G|exact HK|exact Hr|exact Hg|exact Hn|exact Hp|exact Hpl|exact Hpn|exact Hpm|..].
  - intros j q Hq. destruct (decide (j = i)) as [->|Hne].
    + destruct Hold as [Ho|Ho]; [congruence|]. rewrite Hq in Ho. simplify_eq. rewrite lookup_insert_eq.
      split; [done|]. intros []. left.
    + rewrite lookup_insert_ne by done. split; [done|]. intros _. by eapply Hother.
  - intros j ->%list_elem_of_singleton. exists p. by rewrite lookup_insert_eq.
  - intros j [q [[<- _]|[_ Hq]]%lookup_insert_Some]; [right; left|left; by eexists].
Qed.

Context D (Hfile : g_file g ∉ ram_files r).
Implicit Types (Q : unit -> RamWorld * KvmGuestRam -> Prop) (R : VmmError -> RamWorld * KvmGuestRam -> Prop).

(** Copy a page into a place of the generation. *)
Lemma wp_fill_place K n prepared i p Q R w :
  ram_ok K (rm_storage w) D r -> registry w K -> gen_ok w K g -> placed g K n prepared (rm_storage w) ->
  prepared !! i = Some p -> (i < length (pages r))%nat ->
  (forall w', filled [i] K n prepared w K n prepared w' -> next_page_id w' = next_page_id w -> Q tt (w', r)) ->
  (forall e w', fill_failed K w w' -> R e (w', r)) ->
  wp (copy_page_to i (g_file g) (p_offset p)) Q R (w, r).
Proof.
  intros Hok HK Hg Hpl Hp Hi HQ HR.
  pose proof (pl_generation _ _ _ _ _ Hpl _ _ Hp) as Hpg.
  destruct (pl_offset _ _ _ _ _ Hpl _ _ Hp) as (k & Hk & Hoff). pose proof (pl_len _ _ _ _ _ Hpl) as Hlen.
  assert (N.of_nat (S k) * PAGE_SIZE <= lenN (inode_bytes (rm_storage w) (g_file g))) as Hkl.
  { clear -Hk Hlen. unfold PAGE_SIZE in *. lia. }
  pose proof (ok_view_len _ _ _ _ _ Hok Hi) as Hvl.
  apply (wp_copy_page_to _ _ _ (inode_bytes (rm_storage w) (g_file g))); [done| | | |].
  - apply (inode_bytes_some _ _ (N.of_nat (S k) * PAGE_SIZE)); [unfold PAGE_SIZE; lia|done].
  - rewrite Hoff. clear -Hkl. unfold PAGE_SIZE in *. lia.
  - intros st' Hw. apply HQ; [|done]. rewrite <-(insert_id prepared i p Hp) at 2.
    apply filled_one; [apply Hw|done|by apply registry_storage|done|done|cbn; lia| |lia| |by right| |].
    2:{ cbn. rewrite (rewrites_bytes _ _ _ _ (g_file g) Hw), decide_True by done. rewrite length_file_write, Hvl, Hoff.
        clear -Hlen Hkl. unfold PAGE_SIZE in *. lia. }
    + rewrite insert_id by done. destruct Hpl. split; try done. cbn.
      rewrite (rewrites_bytes _ _ _ _ (g_file g) Hw), decide_True by done. rewrite length_file_write. lia.
    + cbn. eapply place_write_same; [|done]. unfold page_file. rewrite Hpg. exact Hw.
    + intros j q Hq Hji. destruct (pl_offset _ _ _ _ _ Hpl _ _ Hq) as (k' & Hk' & Hoff').
      eapply (place_write_other _ _ g); [exact Hw|by eapply pl_generation|exact Hoff'|by rewrite Hvl| |].
      * clear -Hk' Hlen. unfold PAGE_SIZE in *. lia.
      * exists k. split; [done|]. intros ->. apply Hji. eapply (pl_distinct _ _ _ _ _ Hpl); [done|done|congruence].
  - intros e st' part _ Hw. apply HR. split; [apply Hw|]. split; [done|]. exists K. split; [done|]. by apply registry_storage.
Qed.

Abbreviation failed K w := (fun (_ : VmmError) s => exists w', s = (w', r) /\ fill_failed K w w').

(** The loop body of [prepare_fork]. *)
Lemma wp_prepare_one K k prepared i w :
  ram_ok K (rm_storage w) D r -> registry w K -> gen_ok w K g -> placed g K k prepared (rm_storage w) ->
  N.of_nat (S k) * PAGE_SIZE <= lenN (inode_bytes (rm_storage w) (g_file g)) ->
  prepared !! i = None -> (i < length (pages r))%nat -> next_page_id w < u64_MAX ->
  wp (_ ← copy_page_to i (g_file g) (N.of_nat k * RAM_PAGE_SIZE); on_world (new_page g (N.of_nat k * RAM_PAGE_SIZE)))
    (fun p s => exists w', s = (w', r) /\ filled [i] K k prepared w (p :: K) (S k) (<[i := p]> prepared) w')
    (failed K w) (w, r).
Proof.
  intros Hok HK Hg Hpl Hlen Hp Hi Hn. pose proof (ok_view_len _ _ _ _ _ Hok Hi) as Hvl. wp_steps.
  apply (wp_copy_page_to _ _ _ (inode_bytes (rm_storage w) (g_file g))); [done| | | |].
  - apply (inode_bytes_some _ _ (N.of_nat (S k) * PAGE_SIZE)); [unfold PAGE_SIZE; lia|done].
  - clear -Hlen. unfold PAGE_SIZE in *. lia.
  - intros st' Hw. rewrite wp_on_world.
    apply (wp_new_page K); [by apply registry_storage|done|done|]. intros p w' HK' Hg'.
    exists w'. split; [done|]. apply filled_one; [apply Hw|intros q; by right|done|done|done|done| |lia| |by left| |].
    2:{ cbn. rewrite (rewrites_bytes _ _ _ _ (g_file g) Hw), decide_True by done. rewrite length_file_write, Hvl.
        clear -Hlen. unfold PAGE_SIZE in *. lia. }
    + eapply placed_insert; [exact Hpl|done|done|done|]. cbn.
      rewrite (rewrites_bytes _ _ _ _ (g_file g) Hw), decide_True by done. rewrite length_file_write. lia.
    + eapply (place_write_same _ _ p); [exact Hw|done].
    + intros j q Hq _. destruct (pl_offset _ _ _ _ _ Hpl _ _ Hq) as (k' & Hk' & Hoff').
      eapply (place_write_other _ _ g); [exact Hw|by eapply pl_generation|exact Hoff'|by rewrite Hvl| |].
      * clear -Hk' Hlen. unfold PAGE_SIZE in *. lia.
      * exists k. split; [done|lia].
  - intros e st' part _ Hw. exists (set_ram_storage st' w). split; [done|]. split; [apply Hw|]. split; [done|].
    exists K. split; [done|]. by apply registry_storage.
Qed.

(** The loop body of [finish_prepared_pages] for a page that has no place yet. *)
Lemma wp_finish_one K n prepared i w :
  ram_ok K (rm_storage w) D r -> registry w K -> gen_ok w K g -> placed g K n prepared (rm_storage w) ->
  lenN (inode_bytes (rm_storage w) (g_file g)) = N.of_nat n * PAGE_SIZE ->
  prepared !! i = None -> (i < length (pages r))%nat -> next_page_id w < u64_MAX ->
  wp (_ ← on_world (sys "grow RAM generation" (Fd.set_len (g_file g) (N.of_nat n * PAGE_SIZE + RAM_PAGE_SIZE)));
      p ← on_world (new_page g (N.of_nat n * PAGE_SIZE));
      _ ← copy_page_to i (g_file g) (p_offset p); mret p)
    (fun p s => exists w', s = (w', r) /\ filled [i] K n prepared w (p :: K) (S n) (<[i := p]> prepared) w')
    (failed K w) (w, r).
Proof.
  intros Hok HK Hg Hpl Hexact Hp Hi Hn. pose proof (pl_len _ _ _ _ _ Hpl) as Hlen.
  replace (N.of_nat n * PAGE_SIZE + RAM_PAGE_SIZE) with (N.of_nat (S n) * PAGE_SIZE) by (unfold PAGE_SIZE; lia).
  wp_steps. rewrite wp_on_world, wp_sys. apply wp_fd_set_len.
  2:{ intros e st' Hw. eexists. split; [done|]. split; [eapply grows_mono; [|apply Hw]; set_solver|]. split; [done|].
      exists K. split; [done|]. by apply registry_storage. }
  intros st1 H1. wp_steps. rewrite wp_on_world.
  apply (wp_new_page K); [by apply registry_storage|done|done|]. intros p w1 HK1 Hg1. wp_steps.
  assert (placed g (p :: K) (S n) (<[i := p]> prepared) (rm_storage w1)) as Hpl1.
  { eapply placed_insert; [exact Hpl|done|done|done|]. cbn.
    rewrite (rewrites_bytes _ _ _ _ (g_file g) H1), decide_True by done. by rewrite lenN_resize. }
  assert (same_bytes (ram_files r) (rm_storage w) (rm_storage w1)) as Hsame.
  { by eapply ok_same_bytes; [exact Hok|exact Hfile|apply H1]. }
  apply (wp_fill_place (p :: K) (S n) (<[i := p]> prepared)); [|done|done|done|apply lookup_insert_eq|done| |].
  - eapply ram_ok_frame; [exact Hsame| |exact Hok]. intros q. by right.
  - intros w' F Hids. wp_steps. exists w'. split; [done|].
    apply filled_one; [eapply grows_trans; [apply H1|apply F]|intros q; by right|apply F|apply F|apply F| |apply F|lia| |by left| |].
    + rewrite Hids. cbn. lia.
    + rewrite (fl_len _ _ _ _ _ _ _ _ _ F). cbn.
      rewrite (rewrites_bytes _ _ _ _ (g_file g) H1), decide_True by done. rewrite lenN_resize, Hexact.
      clear. unfold PAGE_SIZE. lia.
    + destruct (fl_new _ _ _ _ _ _ _ _ _ F i) as (q & Hq & Hb); [left|].
      rewrite lookup_insert_eq in Hq. simplify_eq. rewrite Hb. by apply slot_at_frame.
    + intros j q Hq Hji. destruct (fl_old _ _ _ _ _ _ _ _ _ F j q) as [_ ->].
      * by rewrite lookup_insert_ne.
      * destruct (pl_offset _ _ _ _ _ Hpl _ _ Hq) as (k & Hk & Hoff).
        eapply place_resize; [exact H1|by eapply (pl_generation _ _ _ _ _ Hpl)|exact Hoff| |]; clear -Hk Hlen; unfold PAGE_SIZE in *; lia.
      * by rewrite list_elem_of_singleton.
  - intros e w' (G & Hgen & K' & HK' & Hr). exists w'. split; [done|]. split; [eapply grows_trans; [apply H1|exact G]|].
    split; [done|]. exists K'. split; [|done]. intros q Hq. apply HK'. by right.
Qed.
(** What both loops leave. *)
Abbreviation filled_by l K n prepared w := (fun prepared' s => exists w' K' n', s = (w', r) /\
  filled l K n prepared w K' n' prepared' w').

Lemma filled_views l K n prepared w K' n' prepared' w' i :
  ram_ok K (rm_storage w) D r -> filled l K n prepared w K' n' prepared' w' ->
  slot_at (rm_storage w') r i = slot_at (rm_storage w) r i.
Proof. intros Hok F. apply slot_at_frame. by eapply ok_same_bytes; [exact Hok|exact Hfile|apply F]. Qed.

Lemma filled_ok l K n prepared w K' n' prepared' w' :
  ram_ok K (rm_storage w) D r -> filled l K n prepared w K' n' prepared' w' -> ram_ok K' (rm_storage w') D r.
Proof.
  intros Hok F. eapply ram_ok_frame; [|apply F|exact Hok].
  by eapply ok_same_bytes; [exact Hok|exact Hfile|apply F].
Qed.

(** The rest of a loop after one page. *)
Lemma wp_fill_rest i l K n prepared w K1 n1 prepared1 w1 (m : R (gmap nat RamPage)) :
  ram_ok K (rm_storage w) D r -> filled [i] K n prepared w K1 n1 prepared1 w1 ->
  wp m (filled_by l K1 n1 prepared1 w1) (failed K1 w1) (w1, r) ->
  wp m (filled_by (i :: l) K n prepared w) (failed K w) (w1, r).
Proof.
  intros Hok F Hm. eapply wp_mono; [exact Hm| |].
  - intros prepared' s (w' & K' & n' & -> & F'). exists w', K', n'. split; [done|].
    apply (filled_trans [i] l K n prepared w K1 n1 prepared1 w1 K' n' prepared' w'); [|done|done].
    intros j _. by eapply filled_views.
  - intros e s (w' & -> & F'). exists w'. split; [done|]. by eapply fill_failed_trans.
Qed.

Lemma wp_prepare_pages l K k prepared w :
  ram_ok K (rm_storage w) D r -> registry w K -> gen_ok w K g -> placed g K k prepared (rm_storage w) ->
  N.of_nat (k + length l) * PAGE_SIZE <= lenN (inode_bytes (rm_storage w) (g_file g)) ->
  NoDup l -> (forall i, i ∈ l -> prepared !! i = None /\ i < length (pages r))%nat ->
  next_page_id w + lenN l <= u64_MAX ->
  wp (prepare_pages g k l prepared) (filled_by l K k prepared w) (failed K w) (w, r).
Proof.
  revert K k prepared w. induction l as [|i l IH]; intros K k prepared w Hok HK Hg Hpl Hlen Hnd Hl Hn; cbn [prepare_pages].
  { wp_steps. exists w, K, k. split; [done|]. by apply filled_nil. }
  apply NoDup_cons in Hnd as [Hi Hnd]. destruct (Hl i) as [Hp Hr]; [left|].
  rewrite length_cons in Hlen. unfold lenN in Hn. rewrite length_cons in Hn.
  cbv zeta. apply wp_assoc. rewrite wp_bind.
  eapply wp_mono; [apply (wp_prepare_one K k prepared i w); try done; clear -Hlen Hn; unfold PAGE_SIZE in *; lia| |done].
  intros p s (w1 & -> & F). eapply wp_fill_rest; [exact Hok|exact F|].
  apply IH; [by eapply filled_ok|apply F|apply F|apply F| |done| |].
  - rewrite (fl_len _ _ _ _ _ _ _ _ _ F). clear -Hlen. unfold PAGE_SIZE in *. lia.
  - intros j Hj. destruct (Hl j) as [Hpj Hrj]; [by right|]. split; [|done].
    rewrite lookup_insert_ne; [done|]. intros ->. done.
  - pose proof (fl_page_ids _ _ _ _ _ _ _ _ _ F) as Hids. unfold lenN in *. cbn in Hids. lia.
Qed.

Lemma wp_finish_dirty l K n prepared w :
  ram_ok K (rm_storage w) D r -> registry w K -> gen_ok w K g -> placed g K n prepared (rm_storage w) ->
  lenN (inode_bytes (rm_storage w) (g_file g)) = N.of_nat n * PAGE_SIZE ->
  (forall i, i ∈ l -> i < length (pages r))%nat -> next_page_id w + lenN l <= u64_MAX ->
  wp (finish_dirty g l (N.of_nat n * PAGE_SIZE) prepared) (filled_by l K n prepared w) (failed K w) (w, r).
Proof.
  revert K n prepared w. induction l as [|i l IH]; intros K n prepared w Hok HK Hg Hpl Hlen Hl Hn; cbn [finish_dirty].
  { wp_steps. exists w, K, n. split; [done|]. by apply filled_nil. }
  unfold lenN in Hn. rewrite length_cons in Hn.
  assert (i < length (pages r))%nat as Hi by (apply Hl; left).
  assert (forall j, j ∈ l -> j < length (pages r))%nat as Hl' by (intros j Hj; apply Hl; by right).
  assert (forall K1 n1 prepared1 w1, filled [i] K n prepared w K1 n1 prepared1 w1 ->
    lenN (inode_bytes (rm_storage w1) (g_file g)) = N.of_nat n1 * PAGE_SIZE) as Hexact.
  { intros K1 n1 prepared1 w1 F. rewrite (fl_len _ _ _ _ _ _ _ _ _ F), Hlen.
    pose proof (fl_places _ _ _ _ _ _ _ _ _ F). unfold PAGE_SIZE. lia. }
  assert (forall K1 n1 prepared1 w1, filled [i] K n prepared w K1 n1 prepared1 w1 ->
    next_page_id w1 + lenN l <= u64_MAX) as Hids.
  { intros K1 n1 prepared1 w1 F. pose proof (fl_page_ids _ _ _ _ _ _ _ _ _ F) as H. unfold lenN in *. cbn in H. lia. }
  destruct (prepared !! i) as [p|] eqn:Hp.
  - wp_steps. apply (wp_fill_place K n prepared); try done.
    + intros w1 F _. eapply wp_fill_rest; [exact Hok|exact F|].
      apply IH; [by eapply filled_ok|apply F|apply F|apply F|by eapply Hexact|done|by eapply Hids].
    + intros e w' Hf. by exists w'.
  - apply wp_regroup. rewrite wp_bind.
    eapply wp_mono; [apply (wp_finish_one K n prepared i w); try done; lia| |done].
    intros p s (w1 & -> & F). eapply wp_fill_rest; [exact Hok|exact F|].
    replace (N.of_nat n * PAGE_SIZE + RAM_PAGE_SIZE) with (N.of_nat (S n) * PAGE_SIZE) by (unfold PAGE_SIZE; lia).
    apply IH; [by eapply filled_ok|apply F|apply F|apply F|by eapply Hexact|done|by eapply Hids].
Qed.

End fill.
