(* ===== verification/RamOps.v ===== *)
(** * Guest RAM: specifications of the operations

    [prepare_fork], [finish_prepared_pages], [from_pages], [fork], [write] and
    the rest keep the invariant; what each leaves in the memory the guest sees,
    on success and on failure. *)

From S2P Require Import Prelude Host CacheTypes Storage VmmTypes Ram RamInv RamMap RamFork.
Import Ram.

#[local] Opaque slot_at slice.

Implicit Types (w : RamWorld) (st : Storage) (r : KvmGuestRam) (f : Inode) (D L : gset nat)
  (p q : RamPage) (g : RamGeneration) (m : Slot) (K : list RamPage) (prepared : gmap nat RamPage)
  (prep : RamForkPreparation).

(** ** Changes of the RAM that keep what the guest sees *)

(** The page object [i] holds what the guest sees. *)
Definition holds st r i p : Prop := page_bytes st p = slot_at st r i.

Lemma ok_holds K st D r i p :
  ram_ok K st D r -> pages r !! i = Some p -> i ∉ host_dirty r -> i ∉ D -> holds st r i p.
Proof.
  intros H Hp Hh HD. assert (i < length (memory r))%nat as Hi.
  { rewrite (ok_memory _ _ _ _ H). by eapply lookup_lt_Some. }
  apply lookup_lt_is_Some in Hi as [m Hm]. unfold holds. rewrite (slot_at_lookup _ _ _ _ Hm).
  symmetry. by apply (ok_clean _ _ _ _ H i).
Qed.

(** Establish [ok_clean] from [holds]. *)
Lemma holds_clean st r i m p : holds st r i p -> memory r !! i = Some m -> slot_bytes st m = page_bytes st p.
Proof. unfold holds. intros H Hm. by rewrite H, (slot_at_lookup _ _ _ _ Hm). Qed.

Lemma slot_at_none st r r' i : memory r !! i = None -> memory r' !! i = None -> slot_at st r i = slot_at st r' i.
Proof. Transparent slot_at. unfold slot_at. by intros -> ->. Opaque slot_at. Qed.

Lemma slot_at_remap Z st r i :
  (forall p, i ∈ Z -> pages r !! i = Some p -> holds st r i p) -> slot_at st (remap Z r) i = slot_at st r i.
Proof.
  intros Hh. destruct (memory r !! i) as [m|] eqn:Hm.
  - rewrite (slot_at_lookup st (remap Z r) i (remap_slot (pages r) Z i m)) by (by rewrite memory_remap, Hm).
    rewrite (slot_at_lookup _ _ _ _ Hm). unfold remap_slot. case_decide as Hz; [|done].
    destruct (pages r !! i) as [p|] eqn:Hp; [|done].
    specialize (Hh p Hz eq_refl). unfold holds in Hh. by rewrite (slot_at_lookup _ _ _ _ Hm) in Hh.
  - apply slot_at_none; [|done]. by rewrite memory_remap, Hm.
Qed.

(** Mapping pages that hold what the guest sees. *)
Lemma remap_ok K st D r Z :
  ram_ok K st D r -> sealed r = true -> (forall i p, i ∈ Z -> pages r !! i = Some p -> holds st r i p) ->
  ram_ok K st D (remap Z r).
Proof.
  intros H Hs Hz. split; try apply H.
  - cbn. rewrite length_imap. apply H.
  - apply Forall_lookup. intros i m'. rewrite memory_remap. intros (m & Hm & ->)%fmap_Some.
    unfold remap_slot. pose proof (ok_slot _ _ _ _ _ _ H Hm) as Hsl. case_decide; [|done].
    destruct (pages r !! i) as [p|] eqn:Hp; [|done]. by destruct (ok_page _ _ _ _ _ _ H Hp) as (? & ? & _).
  - intros i m' p Hm' Hp Hh HD. eapply holds_clean; [|exact Hm'].
    pose proof (ok_holds _ _ _ _ i p H Hp Hh HD) as Hho. unfold holds. rewrite slot_at_remap; [done|].
    intros q Hq. by apply Hz.
  - cbn. congruence.
Qed.

(** Replacing page objects by others that hold what the guest sees. *)
Definition replaced prepared r : KvmGuestRam :=
  set_ram_pages (imap (fun i p => default p (prepared !! i)) (pages r)) r.

Lemma pages_replaced prepared r i :
  pages (replaced prepared r) !! i = (fun p => default p (prepared !! i)) <$> pages r !! i.
Proof. cbn. apply list_lookup_imap. Qed.

Lemma slot_at_replaced prepared st r i : slot_at st (replaced prepared r) i = slot_at st r i.
Proof. done. Qed.

Lemma replaced_ok K st D r prepared :
  ram_ok K st D r -> sealed r = true ->
  (forall i p, prepared !! i = Some p -> page_ok st p /\ p ∈ K /\ holds st r i p) ->
  ram_ok K st (D ∖ dom prepared) (replaced prepared r).
Proof.
  intros H Hs Hp.
  assert (forall i q, pages (replaced prepared r) !! i = Some q ->
    prepared !! i = Some q \/ prepared !! i = None /\ pages r !! i = Some q) as Hlk.
  { intros i q. rewrite pages_replaced. destruct (pages r !! i) as [p|] eqn:Hi; [|done].
    destruct (prepared !! i); cbn; naive_solver. }
  split; try apply H.
  - cbn. unfold lenN. rewrite length_imap. apply H.
  - cbn. intros He. apply (ok_nonempty _ _ _ _ H). apply (f_equal length) in He. rewrite length_imap in He.
    by destruct (pages r).
  - cbn. rewrite length_imap. apply H.
  - apply Forall_lookup. intros i q [Hq|[_ Hq]]%Hlk; [by apply (Hp i q)|by eapply ok_page].
  - intros q [i [Hq|[_ Hq]]%Hlk]%list_elem_of_lookup; [by apply (Hp i q)|].
    apply (ok_known _ _ _ _ H). by eapply list_elem_of_lookup_2.
  - intros i Hi. cbn. rewrite length_imap. by apply (ok_dirty _ _ _ _ H).
  - intros i m q Hm [Hq|[Hn Hq]]%Hlk Hh HD.
    + eapply (holds_clean _ r); [by apply (Hp i q)|exact Hm].
    + apply (ok_clean _ _ _ _ H i); [done|done|done|]. apply not_elem_of_dom in Hn. set_solver.
  - cbn. congruence.
Qed.

(** Sealing when every host-written page holds what the guest sees. *)
Definition sealed_now r : KvmGuestRam := set_host_dirty ∅ (set_sealed true r).

Lemma sealed_ok K st D r :
  ram_ok K st D r -> (forall i p, i ∈ host_dirty r -> pages r !! i = Some p -> i ∉ D -> holds st r i p) ->
  ram_ok K st D (sealed_now r).
Proof.
  intros H Hh. split; try apply H; try done.
  intros i m p Hm Hp _ HD. eapply (holds_clean _ r); [|exact Hm].
  destruct (decide (i ∈ host_dirty r)); [by apply Hh|by eapply ok_holds].
Qed.

(** ** The effect of one operation on its RAM *)

(** The files an unsealed RAM writes. *)
Definition own_files r : gset Inode := if sealed r then ∅ else list_to_set (page_file <$> pages r).

Lemma own_files_sub r : own_files r ⊆ ram_files r.
Proof. unfold own_files, ram_files. destruct (sealed r); set_solver. Qed.

(** [Y] are the existing files that may have changed, [V] the pages that may
    show other bytes, [D'] the pages that may differ from their page object. *)
Record ram_step (Y : gset Inode) (V : gset nat) K D w r K' D' w' r' : Prop := {
  rs_grows : grows Y (rm_storage w) (rm_storage w');
  rs_known : K ⊆ K';
  rs_registry : registry w' K';
  rs_ok : ram_ok K' (rm_storage w') D' r';
  rs_len : ram_len r' = ram_len r;
  rs_count : length (pages r') = length (pages r);
  rs_views i : i ∉ V -> slot_at (rm_storage w') r' i = slot_at (rm_storage w) r i;
  rs_files f : f ∈ ram_files r' -> f ∈ ram_files r \/ f ∈ Y \/ sto_next (rm_storage w) <= f;
  rs_own : own_files r' ⊆ own_files r
}.

Lemma wp_discard Q (R : VmmError -> RamWorld * KvmGuestRam -> Prop) w r :
  (forall st', idle (rm_storage w) st' -> Q tt (set_ram_storage st' w, set_memory (dropped <$> memory r) r)) ->
  (forall e st', idle (rm_storage w) st' -> R e (set_ram_storage st' w, r)) ->
  wp discard_private_pages Q R (w, r).
Proof.
  intros HQ HR. unfold discard_private_pages. wp_steps. rewrite wp_on_world, wp_sys. apply wp_sto_call.
  - intros o st' Hi. rewrite wp_on_ram. by apply HQ.
  - intros e st' Hi. by apply HR.
Qed.

Lemma idle_same_bytes X st st' : idle st st' -> same_bytes X st st'.
Proof. intros H. split; [rewrite (idle_next _ _ H); lia|]. intros f _. by apply idle_bytes. Qed.

Lemma idle_step K D w r st' :
  registry w K -> ram_ok K (rm_storage w) D r -> idle (rm_storage w) st' ->
  ram_step ∅ ∅ K D w r K D (set_ram_storage st' w) r.
Proof.
  intros HK Hok Hi.
  split; [apply Hi|done|by apply registry_storage| |reflexivity|reflexivity| |by left|done].
  - eapply ram_ok_frame; [by apply idle_same_bytes|done|exact Hok].
  - intros i _. by apply slot_at_frame, idle_same_bytes.
Qed.

Lemma copied_ram_step K D w r l st' :
  registry w K -> ram_ok K (rm_storage w) D r -> sealed r = false -> copied r l (rm_storage w) st' ->
  ram_step (own_files r) ∅ K D w r K D (set_ram_storage st' w) r.
Proof.
  intros HK Hok Hs Hc.
  split; [|done|by apply registry_storage|by eapply copied_ok|reflexivity|reflexivity| |by left|done].
  - unfold own_files. rewrite Hs. apply Hc.
  - intros i _. destruct (decide (i < length (memory r))%nat); [by apply Hc|].
    assert (memory r !! i = None) as Hn by (apply lookup_ge_None; lia).
    Transparent slot_at. unfold slot_at. Opaque slot_at. by rewrite Hn.
Qed.

Lemma ram_step_mono Y Y' V V' K D w r K' D' D'' w' r' :
  Y ⊆ Y' -> V ⊆ V' -> D' ⊆ D'' ->
  ram_step Y V K D w r K' D' w' r' -> ram_step Y' V' K D w r K' D'' w' r'.
Proof.
  intros HY HV HD [G HK Hr Hok Hl Hc Hv Hf Ho].
  split; [by eapply grows_mono|done|done|by eapply ram_ok_weaken|done|done| | |done].
  - intros i Hi. apply Hv. by intros Hi'%HV.
  - intros f Hff. destruct (Hf f Hff) as [?|[?|?]]; [by left|right; left; by apply HY|by right; right].
Qed.

Lemma ram_step_trans Y1 Y2 V1 V2 K D w r K1 D1 w1 r1 K2 D2 w2 r2 :
  ram_step Y1 V1 K D w r K1 D1 w1 r1 -> ram_step Y2 V2 K1 D1 w1 r1 K2 D2 w2 r2 ->
  ram_step (Y1 ∪ Y2) (V1 ∪ V2) K D w r K2 D2 w2 r2.
Proof.
  intros S1 S2. split; try apply S2.
  - eapply grows_trans; (eapply grows_mono; [|apply S1 || apply S2]); set_solver.
  - etrans; [apply S1|apply S2].
  - rewrite (rs_len _ _ _ _ _ _ _ _ _ _ S2). apply S1.
  - rewrite (rs_count _ _ _ _ _ _ _ _ _ _ S2). apply S1.
  - intros i Hi. rewrite (rs_views _ _ _ _ _ _ _ _ _ _ S2), (rs_views _ _ _ _ _ _ _ _ _ _ S1); set_solver.
  - intros f Hf. pose proof (grows_next _ _ _ (rs_grows _ _ _ _ _ _ _ _ _ _ S1)).
    destruct (rs_files _ _ _ _ _ _ _ _ _ _ S2 f Hf) as [Hf1|[Hf1|Hf1]]; [|right; left; set_solver|right; right; lia].
    destruct (rs_files _ _ _ _ _ _ _ _ _ _ S1 f Hf1) as [?|[?|?]]; [by left|right; left; set_solver|by right; right].
  - etrans; [apply S2|apply S1].
Qed.

(** Dropping the private copies of an unsealed RAM. *)
Lemma dropped_step K D D' w r st' :
  registry w K -> ram_ok K (rm_storage w) D r -> sealed r = false -> idle (rm_storage w) st' ->
  (forall i p, pages r !! i = Some p -> i ∉ D' -> holds (rm_storage w) r i p) ->
  ram_step ∅ D' K D w r K D' (set_ram_storage st' w)
    (sealed_now (set_private true (set_memory (dropped <$> memory r) r))).
Proof.
  intros HK Hok Hs Hi Hh. destruct (ok_unsealed _ _ _ _ Hok Hs) as [g Hg].
  pose proof (idle_same_bytes (ram_files r) _ _ Hi) as Hsame.
  pose proof (ram_ok_frame _ K _ _ _ _ Hsame (reflexivity K) Hok) as Hok'.
  set (r' := sealed_now _). assert (forall i m', memory r' !! i = Some m' -> exists p, pages r !! i = Some p /\
    m' = MappedPage (g_file g) (N.of_nat i * PAGE_SIZE) true None /\ slot_bytes st' m' = page_bytes st' p) as Hm'.
  { intros i m'. cbn. rewrite list_lookup_fmap. intros (m & Hm & ->)%fmap_Some.
    assert (i < length (pages r))%nat as Hl by (rewrite <-(ok_memory _ _ _ _ Hok); by eapply lookup_lt_Some).
    apply lookup_lt_is_Some in Hl as [p Hp]. exists p. destruct (Hg i m p Hm Hp) as (Hpg & Hoff & copy & ->).
    split_and!; try done. cbn [dropped slot_bytes]. unfold page_bytes. by rewrite Hpg, Hoff. }
  split; [apply Hi|done|by apply registry_storage| |reflexivity|reflexivity| | |apply empty_subseteq].
  - cbn [rm_storage set_ram_storage]. split; try apply Hok'; try done.
    + cbn. rewrite length_fmap. apply Hok.
    + apply Forall_lookup. intros i m' (p & Hp & -> & _)%Hm'.
      pose proof (ok_page _ _ _ _ _ _ Hok' Hp) as (Hlt & Hle & _).
      assert (page_file p = g_file g /\ p_offset p = N.of_nat i * PAGE_SIZE) as [Hpf Hpo].
      { assert (i < length (memory r))%nat as Hl by (rewrite (ok_memory _ _ _ _ Hok); by eapply lookup_lt_Some).
        apply lookup_lt_is_Some in Hl as [m Hm]. destruct (Hg i m p Hm Hp) as (Hpg & Hoff & _). split; [|done].
        unfold page_file. by rewrite Hpg. }
      rewrite Hpf, Hpo in *. done.
    + intros i m' p Hm Hp _ _. destruct (Hm' i m' Hm) as (p' & Hp' & _ & Hb). cbn in Hp. by simplify_eq.
  - intros i HiD. destruct (memory r' !! i) as [m'|] eqn:Hm.
    + cbn [rm_storage set_ram_storage]. rewrite (slot_at_lookup _ _ _ _ Hm).
      destruct (Hm' i m' Hm) as (p & Hp & _ & ->).
      rewrite <-(Hh i p Hp HiD). unfold page_bytes, file_page. by rewrite (idle_bytes _ _ _ Hi).
    + cbn. rewrite <-(slot_at_frame _ _ r i Hsame). apply slot_at_none; [done|].
      cbn in Hm. rewrite list_lookup_fmap in Hm. by destruct (memory r !! i).
  - unfold ram_files. cbn. rewrite <-list_fmap_compose.
    rewrite (list_fmap_ext (slot_files ∘ dropped) slot_files (memory r)); [by left|].
    intros i m _. by destruct m.
Qed.

(** ** Finishing a fork *)

Lemma ram_files_elim r f (P : Prop) :
  f ∈ ram_files r -> (forall i m, memory r !! i = Some m -> f ∈ slot_files m -> P) ->
  (forall i p, pages r !! i = Some p -> f = page_file p -> P) -> P.
Proof.
  intros [Hf|Hf]%elem_of_union Hm Hp.
  - apply elem_of_union_list in Hf as (X & (m & -> & [i Hi]%list_elem_of_lookup)%list_elem_of_fmap & Hf). by eapply Hm.
  - apply elem_of_list_to_set, list_elem_of_fmap in Hf as (p & -> & [i Hi]%list_elem_of_lookup). by eapply Hp.
Qed.

Lemma files_remap Z r : ram_files (remap Z r) ⊆ ram_files r.
Proof.
  intros f Hf. eapply ram_files_elim; [exact Hf| |].
  - intros i m'. rewrite memory_remap. intros (m & Hm & ->)%fmap_Some. unfold remap_slot. case_decide as Hz.
    + destruct (pages r !! i) as [p|] eqn:Hp; [|by eapply elem_of_slot_files].
      cbn. intros ->%elem_of_singleton. by eapply elem_of_page_files.
    + by eapply elem_of_slot_files.
  - intros i p Hp ->. by eapply elem_of_page_files.
Qed.

Lemma files_replaced prepared r Y :
  (forall i p, prepared !! i = Some p -> page_file p ∈ Y) -> ram_files (replaced prepared r) ⊆ ram_files r ∪ Y.
Proof.
  intros HY f Hf. eapply ram_files_elim; [exact Hf| |].
  - intros i m Hm Hfm. apply elem_of_union_l. by eapply elem_of_slot_files.
  - intros i q. rewrite pages_replaced. intros (p & Hp & ->)%fmap_Some ->.
    destruct (prepared !! i) as [q|] eqn:Hq; cbn.
    + apply elem_of_union_r. by eapply HY.
    + apply elem_of_union_l. by eapply elem_of_page_files.
Qed.

(** A preparation in progress.  [L] are the pages the guest may have written
    since the copies were made. *)
Definition prep_ok K w r L prep : Prop :=
  let g := prep_generation prep in
  if seals_existing_generation prep then sealed r = false /\ prep_pages prep = ∅
  else sealed r = true /\ (g_file g ∉ ram_files r) /\ gen_ok w K g /\ g_file g < sto_next (rm_storage w) /\
    placed g K (size (prep_pages prep)) (prep_pages prep) (rm_storage w) /\
    lenN (inode_bytes (rm_storage w) (g_file g)) = N.of_nat (size (prep_pages prep)) * PAGE_SIZE /\
    forall i p, prep_pages prep !! i = Some p ->
      (i < length (pages r))%nat /\ (i ∉ L -> i ∉ host_dirty r -> holds (rm_storage w) r i p).

Definition prep_files prep : gset Inode :=
  if seals_existing_generation prep then ∅ else {[ g_file (prep_generation prep) ]}.

(** A sealed RAM was published as a branch. *)
Definition published Y V K D w r K' D' w' r' : Prop :=
  ram_step Y V K D w r K' D' w' r' /\ sealed r' = true /\ host_dirty r' = ∅.

(** The operation failed: nothing the guest sees changed. *)
Definition unpublished Y K D w r s : Prop :=
  exists K', ram_step Y ∅ K D w r K' D s.1 s.2 /\ sealed s.2 = sealed r /\ host_dirty s.2 = host_dirty r.

Lemma wp_publish Q (R : VmmError -> RamWorld * KvmGuestRam -> Prop) w r :
  Q (mkForkBranch (ram_len r) (pages r)) (w, sealed_now r) -> wp publish_branch Q R (w, r).
Proof. done. Qed.

Lemma wp_finish_seal K D w r prep dirty :
  seals_existing_generation prep = true -> registry w K -> ram_ok K (rm_storage w) D r ->
  sealed r = false -> host_dirty r ⊆ dirty -> (forall i, i ∈ dirty -> i < length (pages r))%nat ->
  wp (finish_prepared_pages prep dirty)
    (fun b s => b = mkForkBranch (ram_len s.2) (pages s.2) /\
       published (own_files r) (D ∖ dirty) K D w r K (D ∖ dirty) s.1 s.2)
    (fun _ s => unpublished (own_files r) K D w r s) (w, r).
Proof.
  intros Hseal HK Hok Hs Hhd Hd. unfold finish_prepared_pages. rewrite Hseal. wp_steps.
  assert (Forall (fun i => i < length (pages r))%nat (btree_elems dirty)) as Hr.
  { apply Forall_forall. intros i Hi. apply Hd. by rewrite <-elem_of_btree_elems. }
  apply (wp_copy_home_all K D); [done|done|done| |].
  2:{ intros e st' Hc. exists K. split; [by eapply copied_ram_step|done]. }
  intros st1 Hc. wp_steps. pose proof (copied_ram_step K D w r _ st1 HK Hok Hs Hc) as S1.
  apply wp_discard.
  2:{ intros e st' Hi. exists K. split; [|done]. cbn [fst snd].
      eapply ram_step_mono; [| | |eapply ram_step_trans; [exact S1|eapply idle_step; [apply S1|apply S1|exact Hi]]]; set_solver. }
  intros st2 Hi. wp_steps. rewrite wp_on_ram. apply wp_publish. split; [done|]. split; [|done].
  eapply ram_step_mono; [| | |eapply ram_step_trans; [exact S1|eapply (dropped_step K D (D ∖ dirty)); [apply S1|apply S1|done|exact Hi|]]];
    [set_solver|set_solver|done|].
  intros i p Hp HiD. unfold holds. cbn [rm_storage set_ram_storage].
  assert (i < length (memory r))%nat as Hl by (rewrite (ok_memory _ _ _ _ Hok); by eapply lookup_lt_Some).
  rewrite (cp_view _ _ _ _ Hc) by done.
  destruct (decide (i ∈ dirty)) as [Hid|Hid].
  - apply (cp_done _ _ _ _ Hc); [|done]. by rewrite elem_of_btree_elems.
  - apply (cp_clean _ _ _ _ Hc); [done|]. eapply ok_holds; [exact Hok|done|set_solver|set_solver].
Qed.

(** Every page filled or prepared holds what the guest sees. *)
Lemma filled_holds K D w r L prep dirty K1 n1 prepared1 w1 :
  let g := prep_generation prep in
  ram_ok K (rm_storage w) D r -> g_file g ∉ ram_files r ->
  (forall i p, prep_pages prep !! i = Some p -> i ∉ L -> i ∉ host_dirty r -> holds (rm_storage w) r i p) ->
  host_dirty r ⊆ dirty -> L ⊆ dirty ->
  filled r g (btree_elems dirty) K (size (prep_pages prep)) (prep_pages prep) w K1 n1 prepared1 w1 ->
  forall i p, prepared1 !! i = Some p -> holds (rm_storage w1) r i p.
Proof.
  intros g Hok Hfile Hprep Hhd HL F i p Hp.
  assert (slot_at (rm_storage w1) r i = slot_at (rm_storage w) r i) as Hv by (by eapply filled_views).
  unfold holds. rewrite Hv. destruct (decide (i ∈ dirty)) as [Hi|Hi].
  - destruct (fl_new _ _ _ _ _ _ _ _ _ _ _ F i) as (q & Hq & Hb); [by rewrite elem_of_btree_elems|]. congruence.
  - destruct (fl_dom _ _ _ _ _ _ _ _ _ _ _ F i) as [[q Hq]|Hl]; [by eexists| |by rewrite elem_of_btree_elems in Hl].
    destruct (fl_old _ _ _ _ _ _ _ _ _ _ _ F i q Hq) as [Hq1 Hb]. rewrite Hp in Hq1. injection Hq1 as ->.
    rewrite Hb by (by rewrite elem_of_btree_elems). apply Hprep; [done|by intros ?%HL|by intros ?%Hhd].
Qed.

Lemma dom_filled r g (dirty : gset nat) K n prepared w K1 n1 prepared1 w1 :
  filled r g (btree_elems dirty) K n prepared w K1 n1 prepared1 w1 -> dom prepared1 = dirty ∪ dom prepared.
Proof.
  intros F. apply set_eq. intros i. rewrite elem_of_union, !elem_of_dom. split.
  - intros [H|H%elem_of_btree_elems]%(fl_dom _ _ _ _ _ _ _ _ _ _ _ F); auto.
  - intros [H%elem_of_btree_elems|[p Hp]].
    + destruct (fl_new _ _ _ _ _ _ _ _ _ _ _ F i H) as (p & Hp & _). by eexists.
    + destruct (fl_old _ _ _ _ _ _ _ _ _ _ _ F i p Hp) as [Hp1 _]. by eexists.
Qed.

(** The placed pages lie in the generation's file. *)
Lemma placed_page_ok g K n prepared st i p :
  placed g K n prepared st -> g_file g < sto_next st -> prepared !! i = Some p -> page_ok st p.
Proof.
  intros Hpl Hlt Hp. destruct (pl_offset _ _ _ _ _ Hpl _ _ Hp) as (k & Hk & Hoff).
  pose proof (pl_len _ _ _ _ _ Hpl) as Hlen. unfold page_ok, page_file.
  rewrite (pl_generation _ _ _ _ _ Hpl _ _ Hp), Hoff. split_and!; [done| |by apply N.Div0.mod_mul].
  clear -Hk Hlen. unfold PAGE_SIZE in *. lia.
Qed.

(** The state between the copies and the new mappings. *)
Lemma filled_step K D w r g (dirty : gset nat) n prepared K1 n1 prepared1 w1 :
  ram_ok K (rm_storage w) D r -> sealed r = true -> g_file g ∉ ram_files r -> g_file g < sto_next (rm_storage w) ->
  filled r g (btree_elems dirty) K n prepared w K1 n1 prepared1 w1 ->
  (forall i p, prepared1 !! i = Some p -> holds (rm_storage w1) r i p) ->
  ram_step {[ g_file g ]} ∅ K D w r K1 (D ∖ dom prepared1) w1 (replaced prepared1 r).
Proof.
  intros Hok Hs Hfile Hlt F Hh.
  pose proof (filled_ok r g D Hfile _ _ _ _ _ _ _ _ _ Hok F) as Hok1.
  pose proof (fl_placed _ _ _ _ _ _ _ _ _ _ _ F) as Hpl.
  assert (g_file g < sto_next (rm_storage w1)) as Hlt1 by (pose proof (grows_next _ _ _ (fl_grows _ _ _ _ _ _ _ _ _ _ _ F)); lia).
  split; [apply F|apply F|apply F| |reflexivity|cbn; apply length_imap| | |unfold own_files; cbn; by rewrite Hs].
  - apply replaced_ok; [done|done|]. intros i p Hp. split_and!; [by eapply placed_page_ok|by eapply pl_known|by apply Hh].
  - intros i _. rewrite slot_at_replaced. by eapply filled_views.
  - intros f Hf. apply (files_replaced prepared1 r {[ g_file g ]}) in Hf; [set_solver|].
    intros i p Hp. unfold page_file. rewrite (pl_generation _ _ _ _ _ Hpl _ _ Hp). by apply elem_of_singleton.
Qed.

(** Mapping some of the replaced pages. *)
Lemma mapped_step K D w r Z w' r' :
  registry w K -> ram_ok K (rm_storage w) D r -> sealed r = true ->
  (forall i p, i ∈ Z -> pages r !! i = Some p -> holds (rm_storage w) r i p) ->
  mapped_pages Z w r w' r' -> ram_step ∅ ∅ K D w r K D w' r'.
Proof.
  intros HK Hok Hs Hh (st' & Hi & -> & ->).
  pose proof (idle_step K D w r st' HK Hok Hi) as S1.
  split; [apply Hi|done|apply S1| |reflexivity|reflexivity| | |unfold own_files; cbn; by rewrite Hs].
  - apply remap_ok; [apply S1|done|]. intros i p Hz Hp. unfold holds.
    rewrite (rs_views _ _ _ _ _ _ _ _ _ _ S1 i) by set_solver. rewrite <-(Hh i p Hz Hp).
    unfold page_bytes, file_page. cbn [rm_storage set_ram_storage]. by rewrite (idle_bytes _ _ _ Hi).
  - intros i _. cbn [rm_storage set_ram_storage]. rewrite slot_at_remap.
    + apply (rs_views _ _ _ _ _ _ _ _ _ _ S1). set_solver.
    + intros p Hz Hp. unfold holds. pose proof (rs_views _ _ _ _ _ _ _ _ _ _ S1 i) as Hv. cbn [rm_storage set_ram_storage] in Hv.
      rewrite Hv by set_solver. rewrite <-(Hh i p Hz Hp).
      unfold page_bytes, file_page. by rewrite (idle_bytes _ _ _ Hi).
  - intros f Hf. left. by eapply files_remap.
Qed.

(** Publishing after the new pages are mapped. *)
Lemma sealed_step K D w r : registry w K -> ram_ok K (rm_storage w) D r ->
  (forall i p, i ∈ host_dirty r -> pages r !! i = Some p -> i ∉ D -> holds (rm_storage w) r i p) ->
  published ∅ ∅ K D w r K D w (sealed_now r).
Proof.
  intros HK Hok Hh. split; [|done].
  split; [apply grows_refl|done|done|by apply sealed_ok|reflexivity|reflexivity|done|by left|apply empty_subseteq].
Qed.

(** Map the new pages and publish the branch. *)
Lemma wp_map_publish K D w r (X : gset nat) :
  registry w K -> ram_ok K (rm_storage w) D r -> sealed r = true -> host_dirty r ⊆ X ->
  (forall i, i ∈ X -> i < length (pages r))%nat ->
  (forall i p, i ∈ X -> pages r !! i = Some p -> holds (rm_storage w) r i p) ->
  wp (_ ← map_selected_pages X true; publish_branch)
    (fun b s => b = mkForkBranch (ram_len s.2) (pages s.2) /\ published ∅ ∅ K D w r K D s.1 s.2)
    (fun _ s => unpublished ∅ K D w r s) (w, r).
Proof.
  intros HK Hok Hs Hhd HX Hh. wp_steps.
  assert (forall Z w' r', Z ⊆ elements X -> mapped_pages Z w r w' r' -> ram_step ∅ ∅ K D w r K D w' r') as Hstep.
  { intros Z w' r' HZ Hm. eapply mapped_step; [done|done|done| |exact Hm].
    intros i p Hi. apply Hh. apply HZ in Hi. by rewrite elem_of_elements in Hi. }
  eapply wp_mono; [apply (wp_map_selected_pages K); [by eapply registry_consistent|apply Hok|done]| |].
  2:{ intros e [w' r'] (Z & HZ & Hm). exists K. split; [by eapply Hstep|]. by destruct Hm as (st' & _ & _ & ->). }
  intros [] [w' r'] Hm. cbn [fst snd] in *. pose proof (Hstep _ _ _ (reflexivity _) Hm) as S1.
  assert (pages r' = pages r /\ host_dirty r' = host_dirty r /\ (forall p, page_bytes (rm_storage w') p = page_bytes (rm_storage w) p))
    as (Hp & Hd & Hb).
  { destruct Hm as (st' & Hi & -> & ->). split; [reflexivity|]. split; [reflexivity|]. intros p. unfold page_bytes, file_page.
    cbn [rm_storage set_ram_storage]. by rewrite (idle_bytes _ _ _ Hi). }
  apply wp_publish. split; [done|]. cbn [fst snd].
  destruct (sealed_step K D w' r') as [S2 [Hs2 Hd2]]; [apply S1|apply S1| |].
  { intros i p Hi Hpi _. unfold holds. rewrite Hb, (rs_views _ _ _ _ _ _ _ _ _ _ S1) by set_solver.
    apply Hh; [|congruence]. apply Hhd. by rewrite <-Hd. }
  split; [|done]. eapply ram_step_mono; [| | |eapply ram_step_trans; [exact S1|exact S2]]; set_solver.
Qed.

Lemma wp_finish_fill K D w r L prep dirty :
  let D' := D ∖ (dirty ∪ dom (prep_pages prep)) in
  seals_existing_generation prep = false -> registry w K -> ram_ok K (rm_storage w) D r ->
  prep_ok K w r L prep -> host_dirty r ⊆ dirty -> L ⊆ dirty -> (forall i, i ∈ dirty -> i < length (pages r))%nat ->
  next_page_id w + N.of_nat (size dirty) <= u64_MAX ->
  wp (finish_prepared_pages prep dirty)
    (fun b s => b = mkForkBranch (ram_len s.2) (pages s.2) /\
       exists K', published (prep_files prep) ∅ K D w r K' D' s.1 s.2)
    (fun _ s => unpublished (prep_files prep) K D w r s) (w, r).
Proof.
  intros D' Hseal HK Hok Hprep Hhd HL Hd Hids. unfold prep_ok in Hprep. unfold prep_files. rewrite Hseal in Hprep |- *.
  set (g := prep_generation prep) in *. destruct Hprep as (Hs & Hfile & Hgen & Hlt & Hpl & Hlen & Hpp).
  unfold finish_prepared_pages. rewrite Hseal. wp_steps. cbn [snd]. rewrite (ok_private _ _ _ _ Hok). wp_steps.
  assert (lenN (btree_elems dirty) = N.of_nat (size dirty)) as Hsz.
  { unfold lenN, btree_elems. by rewrite merge_sort_Permutation. }
  eapply wp_mono; [apply (wp_finish_dirty r g D Hfile _ K _ _ w); try done| |].
  { intros i Hi%elem_of_btree_elems. by apply Hd. }
  { by rewrite Hsz. }
  2:{ intros e s (w1 & -> & G & Hgens & K1 & HK1 & Hr1). exists K1. split; [|done]. cbn [fst snd].
      assert (same_bytes (ram_files r) (rm_storage w) (rm_storage w1)) as Hsame by (by eapply ok_same_bytes).
      split; [done|done|done|by eapply ram_ok_frame|reflexivity|reflexivity| |by left|done].
      intros i _. by apply slot_at_frame. }
  intros prepared1 s (w1 & K1 & n1 & -> & F).
  assert (forall i p, prepared1 !! i = Some p -> holds (rm_storage w1) r i p) as Hh.
  { eapply (filled_holds K D w r L prep); try done. intros i p Hp. by apply Hpp. }
  pose proof (filled_step K D w r g dirty _ _ K1 n1 prepared1 w1 Hok Hs Hfile Hlt F Hh) as S1.
  pose proof (dom_filled _ _ _ _ _ _ _ _ _ _ _ F) as Hdom.
  wp_steps. rewrite wp_on_ram. fold (replaced prepared1 r). set (r1 := replaced prepared1 r) in *.
  assert (D' = D ∖ dom prepared1) as -> by (unfold D'; by rewrite Hdom).
  eapply wp_mono; [apply (wp_map_publish K1 (D ∖ dom prepared1) w1 r1 (dom prepared1)); try apply S1; try done| |].
  { etrans; [exact Hhd|]. rewrite Hdom. apply union_subseteq_l. }
  { intros i Hi. rewrite (rs_count _ _ _ _ _ _ _ _ _ _ S1). rewrite Hdom in Hi.
    apply elem_of_union in Hi as [Hi|[p Hi]%elem_of_dom]; [by apply Hd|by apply (Hpp i p)]. }
  { intros i p [q Hq]%elem_of_dom Hp. unfold r1 in Hp. rewrite pages_replaced, Hq in Hp.
    destruct (pages r !! i); [|done]. cbn in Hp. simplify_eq. apply (Hh i p Hq). }
  - intros b s (Hb & S2 & Hs2 & Hh2). split; [done|]. exists K1. split; [|done].
    eapply ram_step_mono; [| | |eapply ram_step_trans; [exact S1|exact S2]]; set_solver.
  - intros e s (K2 & S2 & Hs2 & Hh2). exists K2. split; [|done].
    eapply ram_step_mono; [| | |eapply ram_step_trans; [exact S1|exact S2]]; set_solver.
Qed.
