(* ===== verification/RamBranch.v ===== *)
(** * Guest RAM: forks, checkpoints and host access

    The specifications of the public operations of a RAM, put together from
    those of their parts. *)

From S2P Require Import Prelude Host CacheTypes Storage VmmTypes Ram RamInv RamMap RamFork RamOps.
Import Ram.

#[local] Opaque slot_at slice.

Implicit Types (w : RamWorld) (st : Storage) (r : KvmGuestRam) (f : Inode) (D L : gset nat)
  (p q : RamPage) (g : RamGeneration) (m : Slot) (K : list RamPage) (prepared : gmap nat RamPage)
  (prep : RamForkPreparation).

(** ** Preparing *)

Lemma check_pages_ok n l : check_pages n l = Ok tt <-> Forall (fun i => i < n)%nat l.
Proof.
  induction l as [|i l IH]; cbn; [split; by intros; constructor|].
  rewrite Forall_cons. case_decide; [split; [done|lia]|]. rewrite IH. split; [|tauto]. intros; split; [lia|done].
Qed.

Lemma check_pages_cases n l :
  (check_pages n l = Ok tt /\ Forall (fun i => i < n)%nat l) \/ exists i, check_pages n l = Err (InvalidDirtyPage i n).
Proof.
  destruct (check_pages n l) as [[]|e] eqn:He; [left; by rewrite <-check_pages_ok|right].
  induction l as [|i l IH]; cbn in He; [done|]. case_decide; [|by apply IH]. exists i. by simplify_eq.
Qed.

Lemma placed_more g K n n' prepared st :
  placed g K n prepared st -> (n <= n')%nat -> N.of_nat n' * PAGE_SIZE <= lenN (inode_bytes st (g_file g)) ->
  placed g K n' prepared st.
Proof.
  intros [H1 H2 H3 H4 H5] Hn Hl. split; try done. intros i p Hp.
  destruct (H3 i p Hp) as (k & Hk & Ho). exists k. split; [lia|done].
Qed.

Lemma ram_step_frame Y K K' D w r w' :
  registry w' K' -> K ⊆ K' -> ram_ok K (rm_storage w) D r -> grows Y (rm_storage w) (rm_storage w') ->
  ram_files r ## Y -> ram_step Y ∅ K D w r K' D w' r.
Proof.
  intros HK' HK Hok G Hd.
  assert (same_bytes (ram_files r) (rm_storage w) (rm_storage w')) as Hsame.
  { eapply grows_same_bytes; [exact G|done|]. intros f. by apply ok_files with (1 := Hok). }
  split; [done|done|done|by eapply ram_ok_frame|reflexivity|reflexivity| |by left|done].
  intros i _. by apply slot_at_frame.
Qed.

(** What a successful preparation leaves. *)
Record prepared_by (X : gset nat) K D w r K' w' prep : Prop := {
  pb_step : ram_step (own_files r) ∅ K D w r K' (if sealed r then D else D ∖ X) w' r;
  pb_prep : prep_ok K' w' r ∅ prep;
  pb_pages : dom (prep_pages prep) = if sealed r then X else ∅;
  pb_fresh : prep_files prep ## own_files r;
  pb_new f : f ∈ prep_files prep -> sto_next (rm_storage w) <= f;
  pb_page_ids : next_page_id w' <= next_page_id w + N.of_nat (size X)
}.

Lemma wp_prepare_unsealed K D w r (X : gset nat) g :
  registry w K -> ram_ok K (rm_storage w) D r -> sealed r = false ->
  Forall (fun i => i < length (pages r))%nat (btree_elems X) ->
  wp (_ ← for_each copy_home (btree_elems X); mret (mkPreparation g ∅ true))
    (fun prep s => exists K' w', s = (w', r) /\ prepared_by X K D w r K' w' prep)
    (fun _ s => exists K' w', s = (w', r) /\ ram_step (own_files r) ∅ K D w r K' D w' r) (w, r).
Proof.
  intros HK Hok Hs Hl. wp_steps. apply (wp_copy_home_all K D); [done|done|done| |].
  2:{ intros e st' Hc. eexists K, _. split; [done|]. by eapply copied_ram_step. }
  intros st' Hc. wp_steps. eexists K, _. split; [done|].
  pose proof (copied_ram_step K D w r _ st' HK Hok Hs Hc) as S1.
  split; [|by split|by rewrite Hs|done|done|cbn; lia].
  rewrite Hs. split; try apply S1. split; try apply S1.
  intros i m p Hm Hp Hh HD. destruct (decide (i ∈ X)) as [Hx|Hx].
  - eapply holds_clean; [|exact Hm]. unfold holds. rewrite (rs_views _ _ _ _ _ _ _ _ _ _ S1) by set_solver.
    apply (cp_done _ _ _ _ Hc); [by rewrite elem_of_btree_elems|done].
  - apply (ok_clean _ _ _ _ (rs_ok _ _ _ _ _ _ _ _ _ _ S1) i); [done|done|done|set_solver].
Qed.

Lemma placed_empty g K st : placed g K 0 ∅ st.
Proof. split; try (intros *; by rewrite ?lookup_empty). cbn. lia. Qed.

(** The copies of a sealed RAM in a new generation are a preparation. *)
Lemma filled_prepared K D w r g (X : gset nat) w1 K2 n2 prepared w2 :
  ram_ok K (rm_storage w) D r -> sealed r = true ->
  g_file g = sto_next (rm_storage w) -> grows ∅ (rm_storage w) (rm_storage w1) ->
  sto_next (rm_storage w1) = g_file g + 1 ->
  lenN (inode_bytes (rm_storage w1) (g_file g)) = N.of_nat (size X) * PAGE_SIZE ->
  Forall (fun i => i < length (pages r))%nat (btree_elems X) ->
  next_page_id w1 = next_page_id w ->
  filled r g (btree_elems X) K 0 ∅ w1 K2 n2 prepared w2 ->
  prepared_by X K D w r K2 w2 (mkPreparation g prepared false).
Proof.
  intros Hok Hs Hgf G1 Hnext1 Hlen1 Hl Hids F.
  assert (own_files r = ∅) as Hown by (unfold own_files; by rewrite Hs).
  assert (g_file g ∉ ram_files r) as Hfile by (intros Hf%(ok_files _ _ _ _ _ Hok); lia).
  assert (grows ∅ (rm_storage w) (rm_storage w2)) as G2.
  { eapply grows_fresh; [exact G1|apply F|]. intros f ->%elem_of_singleton. right. lia. }
  assert (dom prepared = X) as Hdom by (rewrite (dom_filled _ _ _ _ _ _ _ _ _ _ _ F); set_solver).
  assert (size prepared = size X) as Hsize by (by rewrite <-size_dom, Hdom).
  assert (n2 <= size X)%nat as Hn2.
  { pose proof (fl_places _ _ _ _ _ _ _ _ _ _ _ F) as Hn. unfold btree_elems in Hn.
    rewrite merge_sort_Permutation in Hn. by destruct Hn. }
  assert (ram_ok K (rm_storage w1) D r) as Hok1.
  { eapply ram_ok_frame; [|done|exact Hok]. eapply grows_same_bytes; [exact G1|set_solver|].
    intros f. by apply ok_files with (1 := Hok). }
  pose proof (fl_len _ _ _ _ _ _ _ _ _ _ _ F) as Hlen2. pose proof (fl_placed _ _ _ _ _ _ _ _ _ _ _ F) as Hpl.
  pose proof (ram_step_frame ∅ K K2 D w r w2 (fl_registry _ _ _ _ _ _ _ _ _ _ _ F) (fl_known _ _ _ _ _ _ _ _ _ _ _ F) Hok G2 ltac:(set_solver)) as S2.
  split; [by rewrite Hown, Hs| |by rewrite Hs|rewrite Hown; set_solver|cbn; intros f ->%elem_of_singleton; lia|].
  2:{ pose proof (fl_page_ids _ _ _ _ _ _ _ _ _ _ _ F) as Hp. rewrite Hids in Hp. etrans; [exact Hp|].
      unfold lenN, btree_elems. by rewrite merge_sort_Permutation. }
  unfold prep_ok. cbn. rewrite Hsize. split_and!; [done|done|apply F| | | |].
  - pose proof (grows_next _ _ _ (fl_grows _ _ _ _ _ _ _ _ _ _ _ F)). lia.
  - eapply placed_more; [exact Hpl|done|]. rewrite Hlen2, Hlen1. lia.
  - rewrite Hlen2, Hlen1. clear -Hn2. unfold PAGE_SIZE. lia.
  - intros i p Hp. assert (i ∈ btree_elems X) as Hi by (rewrite elem_of_btree_elems, <-Hdom; by apply elem_of_dom_2 with p).
    split; [by rewrite Forall_forall in Hl; apply Hl|]. intros _ _.
    destruct (fl_new _ _ _ _ _ _ _ _ _ _ _ F i Hi) as (q & Hq & Hb). rewrite Hp in Hq. injection Hq as <-. unfold holds.
    rewrite Hb. symmetry. by eapply filled_views.
Qed.

Lemma wp_prepare_sealed K D w r (X : gset nat) :
  registry w K -> ram_ok K (rm_storage w) D r -> sealed r = true ->
  Forall (fun i => i < length (pages r))%nat (btree_elems X) ->
  next_generation_id w < u64_MAX -> next_page_id w + N.of_nat (size X) <= u64_MAX ->
  wp (g ← on_world (zeroed (lenN (btree_elems X) * RAM_PAGE_SIZE));
      prepared ← prepare_pages g 0 (btree_elems X) ∅;
      mret (mkPreparation g prepared false))
    (fun prep s => exists K' w', s = (w', r) /\ prepared_by X K D w r K' w' prep)
    (fun _ s => exists K' w', s = (w', r) /\ ram_step (own_files r) ∅ K D w r K' D w' r) (w, r).
Proof.
  intros HK Hok Hs Hl Hg Hn. wp_steps. rewrite wp_on_world.
  assert (own_files r = ∅) as Hown by (unfold own_files; by rewrite Hs). rewrite Hown.
  assert (lenN (btree_elems X) = N.of_nat (size X)) as Hsz.
  { unfold lenN, btree_elems. by rewrite merge_sort_Permutation. }
  apply (wp_zeroed K); [done|done| |].
  2:{ intros e st' G. eexists K, _. split; [done|]. apply ram_step_frame; [by apply registry_storage|done|done|done|set_solver]. }
  intros g w1 Hgf HK1 Hgen1 Hids1 _ G1 Hnext1 Hdata1.
  assert (g_file g ∉ ram_files r) as Hfile.
  { intros Hf%(ok_files _ _ _ _ _ Hok). lia. }
  assert (inode_bytes (rm_storage w1) (g_file g) = replicate (N.to_nat (lenN (btree_elems X) * PAGE_SIZE)) zero_byte) as Hb1
    by (unfold inode_bytes; by rewrite Hdata1).
  assert (lenN (inode_bytes (rm_storage w1) (g_file g)) = N.of_nat (size X) * PAGE_SIZE) as Hlen1.
  { rewrite Hb1, Hsz. unfold lenN. rewrite length_replicate. lia. }
  pose proof (ram_step_frame ∅ K K D w r w1 HK1 (reflexivity _) Hok G1 ltac:(set_solver)) as S1.
  wp_steps. eapply wp_mono; [apply (wp_prepare_pages r g D Hfile _ K 0 ∅ w1)| |].
  - apply S1.
  - done.
  - done.
  - apply placed_empty.
  - rewrite Hlen1, <-Hsz. unfold lenN. lia.
  - apply NoDup_btree_elems.
  - intros i Hi. split; [done|]. by rewrite Forall_forall in Hl; apply Hl.
  - by rewrite Hsz, Hids1.
  - intros prepared s (w2 & K2 & n2 & -> & F). wp_steps. exists K2, w2. split; [done|].
    by eapply filled_prepared.
  - intros e s (w2 & -> & G2 & _ & K2 & HK2 & Hr2). exists K2, w2. split; [done|].
    apply ram_step_frame; [done|done|done| |set_solver].
    eapply grows_fresh; [exact G1|exact G2|]. intros f ->%elem_of_singleton. right. lia.
Qed.

Lemma range_size (X : gset nat) n : (forall i, i ∈ X -> i < n)%nat -> (size X <= n)%nat.
Proof.
  intros HX. transitivity (size (list_to_set (seq 0 n) : gset nat)).
  - apply subseteq_size. intros i Hi%HX. apply elem_of_list_to_set, elem_of_seq. lia.
  - rewrite size_list_to_set by apply NoDup_seq. by rewrite length_seq.
Qed.

Lemma ram_step_refl Y K D w r : registry w K -> ram_ok K (rm_storage w) D r -> ram_step Y ∅ K D w r K D w r.
Proof.
  intros HK Hok. eapply ram_step_mono; [apply empty_subseteq|done|done|].
  pose proof (idle_step K D w r _ HK Hok (idle_refl _)) as S. by destruct w.
Qed.

Lemma wp_prepare_fork K D w r (selected : list nat) :
  registry w K -> ram_ok K (rm_storage w) D r ->
  next_generation_id w < u64_MAX -> next_page_id w + lenN (pages r) <= u64_MAX ->
  wp (prepare_fork selected)
    (fun prep s => exists K' w', s = (w', r) /\ prepared_by (list_to_set selected) K D w r K' w' prep)
    (fun _ s => exists K' w', s = (w', r) /\ ram_step (own_files r) ∅ K D w r K' D w' r) (w, r).
Proof.
  intros HK Hok Hg Hn. unfold prepare_fork. wp_steps. cbn [snd].
  set (X := list_to_set selected : gset nat).
  destruct (check_pages_cases (length (pages r)) (btree_elems X)) as [[-> Hl]|[i ->]].
  2:{ exists K, w. split; [done|]. by apply ram_step_refl. }
  destruct (sealed r) eqn:Hs; cbn [negb].
  - apply wp_prepare_sealed; try done. assert (size X <= length (pages r))%nat; [|unfold lenN in Hn; lia].
    apply range_size. intros j Hj. rewrite Forall_forall in Hl. apply Hl. by rewrite elem_of_btree_elems.
  - by apply wp_prepare_unsealed.
Qed.

(** ** Finishing *)

(** Pages that may still differ from their page object after a fork. *)
Definition left_over D (dirty : gset nat) prep : gset nat := D ∖ (dirty ∪ dom (prep_pages prep)).

Lemma wp_finish K D w r L prep dirty :
  let D' := left_over D dirty prep in
  registry w K -> ram_ok K (rm_storage w) D r -> prep_ok K w r L prep ->
  host_dirty r ⊆ dirty -> L ⊆ dirty -> (forall i, i ∈ dirty -> i < length (pages r))%nat ->
  next_page_id w + lenN (pages r) <= u64_MAX ->
  wp (finish_prepared_pages prep dirty)
    (fun b s => b = mkForkBranch (ram_len s.2) (pages s.2) /\ exists K',
       published (own_files r ∪ prep_files prep) (if sealed r then ∅ else D') K D w r K' D' s.1 s.2)
    (fun _ s => unpublished (own_files r ∪ prep_files prep) K D w r s) (w, r).
Proof.
  intros D' HK Hok Hprep Hhd HL Hd Hn. pose proof (range_size _ _ Hd) as Hsz.
  destruct (seals_existing_generation prep) eqn:Hseal.
  - unfold prep_ok in Hprep. rewrite Hseal in Hprep. destruct Hprep as [Hs Hp].
    assert (D' = D ∖ dirty) as -> by (unfold D', left_over; rewrite Hp; set_solver).
    eapply wp_mono; [by apply (wp_finish_seal K D w r prep dirty)| |].
    + intros b s (-> & S1 & Hs1 & Hh1). split; [done|]. exists K. rewrite Hs. split; [|done].
      eapply ram_step_mono; [apply union_subseteq_l|done|done|done].
    + intros e s (K1 & S1 & Hs1 & Hh1). exists K1. split; [|done].
      eapply ram_step_mono; [apply union_subseteq_l|done|done|done].
  - assert (sealed r = true) as Hs by (unfold prep_ok in Hprep; rewrite Hseal in Hprep; tauto). rewrite Hs.
    eapply wp_mono; [apply (wp_finish_fill K D w r L prep dirty); try done; unfold lenN in Hn; lia| |].
    + intros b s (-> & K1 & S1 & Hs1 & Hh1). split; [done|]. exists K1. split; [|done].
      eapply ram_step_mono; [apply union_subseteq_r|done|done|done].
    + intros e s (K1 & S1 & Hs1 & Hh1). exists K1. split; [|done].
      eapply ram_step_mono; [apply union_subseteq_r|done|done|done].
Qed.

(** ** A RAM over given pages *)

Record built K (l : list RamPage) w w' r : Prop := {
  bu_world : w' = set_ram_storage (rm_storage w') w;
  bu_idle : idle (rm_storage w) (rm_storage w');
  bu_registry : registry w' K;
  bu_ok : ram_ok K (rm_storage w') ∅ r;
  bu_pages : pages r = l;
  bu_sealed : sealed r = true;
  bu_clean : host_dirty r = ∅;
  bu_views i p : l !! i = Some p -> slot_at (rm_storage w') r i = page_bytes (rm_storage w) p;
  bu_files : ram_files r ⊆ list_to_set (page_file <$> l)
}.

(** The memory after every page was mapped. *)
Lemma remap_all l r :
  pages r = l -> length (memory r) = length l -> memory (remap (seq 0 (length l)) r) = page_slot <$> l.
Proof.
  intros <- Hl. apply list_eq. intros i. rewrite memory_remap, list_lookup_fmap.
  destruct (memory r !! i) as [m|] eqn:Hm; destruct (pages r !! i) as [p|] eqn:Hp; cbn.
  - unfold remap_slot. rewrite decide_True, Hp; [done|]. apply elem_of_seq. apply lookup_lt_Some in Hp. lia.
  - apply lookup_lt_Some in Hm. apply lookup_ge_None in Hp. lia.
  - apply lookup_lt_Some in Hp. apply lookup_ge_None in Hm. lia.
  - done.
Qed.

Lemma built_intro K l w st' r :
  registry w K -> idle (rm_storage w) st' -> l ⊆ K -> l <> [] -> Forall (page_ok (rm_storage w)) l ->
  ram_len r = lenN l * PAGE_SIZE -> pages r = l -> memory r = page_slot <$> l ->
  sealed r = true -> private r = true -> host_dirty r = ∅ -> built K l w (set_ram_storage st' w) r.
Proof.
  intros HK Hi HlK Hne Hpo Hlen Hp Hmem Hs Hpr Hd.
  assert (forall i m, memory r !! i = Some m -> exists p, l !! i = Some p /\ m = page_slot p) as Hlk.
  { intros i m. rewrite Hmem, list_lookup_fmap. intros (p & Hpi & ->)%fmap_Some. eauto. }
  assert (Forall (page_ok st') l) as Hpo'.
  { eapply Forall_impl; [exact Hpo|]. intros p Hpp. eapply page_ok_frame; [|by apply idle_bytes|exact Hpp].
    rewrite (idle_next _ _ Hi). lia. }
  split; [done|done|by apply registry_storage| |done|done|done| |].
  - cbn [rm_storage set_ram_storage]. split; rewrite ?Hp; try done.
    + rewrite Hmem. apply length_fmap.
    + apply Forall_lookup. intros i m (p & Hpi & ->)%Hlk. by destruct (Forall_lookup_1 _ _ _ _ Hpo' Hpi) as (? & ? & _).
    + rewrite Hd. set_solver.
    + intros i m p (q & Hq & ->)%Hlk Hpi _ _. by rewrite Hq in Hpi; injection Hpi as ->.
    + congruence.
  - intros i p Hpi. rewrite (slot_at_lookup _ _ i (page_slot p)) by (by rewrite Hmem, list_lookup_fmap, Hpi).
    cbn. unfold page_bytes, file_page. by rewrite (idle_bytes _ _ _ Hi).
  - intros f Hf. eapply ram_files_elim; [exact Hf| |].
    + intros i m (p & Hpi & ->)%Hlk. cbn. intros ->%elem_of_singleton. apply elem_of_list_to_set, list_elem_of_fmap.
      exists p. split; [done|by eapply list_elem_of_lookup_2].
    + intros i p Hpi ->. rewrite Hp in Hpi. apply elem_of_list_to_set, list_elem_of_fmap.
      exists p. split; [done|by eapply list_elem_of_lookup_2].
Qed.

Lemma wp_from_pages K len (l : list RamPage) w :
  registry w K -> l ⊆ K -> l <> [] -> Forall (page_ok (rm_storage w)) l -> len = lenN l * PAGE_SIZE ->
  wp (from_pages len l) (fun r w' => built K l w w' r)
    (fun _ w' => exists st', idle (rm_storage w) st' /\ w' = set_ram_storage st' w) w.
Proof.
  intros HK HlK Hne Hpo ->. unfold from_pages, reserve. wp_steps. rewrite wp_sys. apply wp_sto_call; [|eauto].
  intros o st1 Hi1. wp_steps.
  assert (0 < lenN l) as Hpos by (unfold lenN; destruct l; [done|cbn; lia]).
  rewrite (proj2 (N.eqb_neq (lenN l * PAGE_SIZE) 0)) by (unfold PAGE_SIZE; lia). wp_steps.
  rewrite N.div_mul by done. set (r0 := mkRam _ _ _ _ _ _). unfold construct.
  pose proof (wp_map_all_pages K (set_ram_storage st1 w) r0 (registry_consistent _ _ HK) HlK) as Hm.
  unfold wp in Hm |- *. destruct (map_all_pages true _) as [[w2 r2] [[]|e]]; cbn [fst snd] in Hm.
  2:{ destruct Hm as (Z & _ & st2 & Hi2 & -> & _). exists st2. split; [by eapply idle_trans|done]. }
  destruct Hm as (st2 & Hi2 & -> & ->).
  apply (built_intro K l w st2); try done; [by eapply idle_trans|].
  apply (remap_all l); [done|]. cbn. rewrite length_replicate. unfold lenN. lia.
Qed.

(** ** Forks and checkpoints *)

(** Files that are new since the start need not be named. *)
Lemma ram_step_absorb Y1 Y2 V1 V2 K D w r K1 D1 w1 r1 K2 D2 w2 r2 :
  ram_step Y1 V1 K D w r K1 D1 w1 r1 -> ram_step Y2 V2 K1 D1 w1 r1 K2 D2 w2 r2 ->
  (forall f, f ∈ Y2 -> f ∈ Y1 \/ sto_next (rm_storage w) <= f) -> ram_step Y1 (V1 ∪ V2) K D w r K2 D2 w2 r2.
Proof.
  intros S1 S2 Hf. pose proof (ram_step_trans _ _ _ _ _ _ _ _ _ _ _ _ _ _ _ _ S1 S2) as S.
  split; try apply S.
  - eapply grows_fresh; [apply S1|apply S2|exact Hf].
  - intros f Hfr. destruct (rs_files _ _ _ _ _ _ _ _ _ _ S f Hfr) as [?|[[?|Hy]%elem_of_union|?]]; [by left|by right; left| |by right; right].
    right. by apply Hf.
Qed.

(** A successful fork: the source is sealed, and the child shows what the
    source showed. *)
Record forked Y K D V D' w r K' w' r' child : Prop := {
  fk_source : published Y V K D w r K' D' w' r';
  fk_child : ram_ok K' (rm_storage w') ∅ child;
  fk_pages : pages child = pages r';
  fk_len : ram_len child = ram_len r;
  fk_sealed : sealed child = true;
  fk_clean : host_dirty child = ∅;
  fk_views i : i ∉ D' -> slot_at (rm_storage w') child i = slot_at (rm_storage w) r i;
  fk_files f : f ∈ ram_files child -> f ∈ ram_files r'
}.

(** What sealing with the given dirty pages may change. *)
Definition reverted r (D' : gset nat) : gset nat := if sealed r then ∅ else D'.

Lemma wp_seal K D w r dirty :
  registry w K -> ram_ok K (rm_storage w) D r -> next_generation_id w < u64_MAX ->
  next_page_id w + lenN (pages r) <= u64_MAX ->
  host_dirty r ⊆ dirty -> (forall i, i ∈ dirty -> i < length (pages r))%nat ->
  wp (prep ← prepare_fork []; finish_prepared_pages prep dirty)
    (fun b s => b = mkForkBranch (ram_len s.2) (pages s.2) /\ exists K',
       published (own_files r) (reverted r (D ∖ dirty)) K D w r K' (D ∖ dirty) s.1 s.2)
    (fun _ s => exists K', ram_step (own_files r) ∅ K D w r K' D s.1 s.2) (w, r).
Proof.
  intros HK Hok Hg Hn Hhd Hd. wp_steps. eapply wp_mono; [by apply (wp_prepare_fork K D w r [])| |].
  2:{ intros e s (K1 & w1 & -> & S1). by exists K1. }
  intros prep s (K1 & w1 & -> & P). pose proof (pb_step _ _ _ _ _ _ _ _ P) as S1.
  assert (ram_step (own_files r) ∅ K D w r K1 D w1 r) as S1'.
  { eapply ram_step_mono; [done|done| |exact S1]. destruct (sealed r); set_solver. }
  assert (left_over D dirty prep = D ∖ dirty) as Hleft.
  { unfold left_over. rewrite (pb_pages _ _ _ _ _ _ _ _ P). destruct (sealed r); set_solver. }
  assert (forall f, f ∈ own_files r ∪ prep_files prep -> f ∈ own_files r \/ sto_next (rm_storage w) <= f) as Hfresh.
  { intros f [Hf|Hf]%elem_of_union; [by left|right]. by apply (pb_new _ _ _ _ _ _ _ _ P). }
  eapply wp_mono; [apply (wp_finish K1 D w1 r ∅ prep dirty)| |]; [apply S1'|apply S1'|apply P|done|set_solver|done| | |].
  - pose proof (pb_page_ids _ _ _ _ _ _ _ _ P) as Hp.
    change (list_to_set [] : gset nat) with (∅ : gset nat) in Hp. rewrite size_empty in Hp. lia.
  - intros b s (-> & K2 & S2 & Hs2 & Hh2). split; [done|]. exists K2. split; [|done].
    rewrite Hleft in S2. unfold reverted.
    eapply ram_step_mono; [done| |done|eapply ram_step_absorb; [exact S1'|exact S2|exact Hfresh]]. set_solver.
  - intros e s (K2 & S2 & _). exists K2.
    eapply ram_step_mono; [done| |done|eapply ram_step_absorb; [exact S1'|exact S2|exact Hfresh]]. set_solver.
Qed.

(** [materialize] after the branch was published. *)
Lemma wp_materialize Y V K D D' w r K1 w1 r1 :
  ram_ok K (rm_storage w) D r -> V ⊆ D' -> D' ⊆ D -> published Y V K D w r K1 D' w1 r1 ->
  wp (on_world (materialize (mkForkBranch (ram_len r1) (pages r1))))
    (fun child s => exists K', forked Y K D V D' w r K' s.1 s.2 child)
    (fun _ s => exists K', ram_step Y V K D w r K' D s.1 s.2) (w1, r1).
Proof.
  intros Hok HV HD (S1 & Hs1 & Hd1). rewrite wp_on_world. unfold materialize. cbn [fb_len fb_pages].
  pose proof (rs_ok _ _ _ _ _ _ _ _ _ _ S1) as Hok1.
  eapply wp_mono; [apply (wp_from_pages K1); [apply S1|apply Hok1..]| |].
  2:{ intros e w2 (st2 & Hi & ->). exists K1. cbn [fst snd].
      eapply ram_step_mono; [done| |exact HD|eapply ram_step_absorb; [exact S1|eapply idle_step; [apply S1|exact Hok1|exact Hi]|set_solver]].
      set_solver. }
  intros child w2 B. exists K1. cbn [fst snd].
  pose proof (idle_step K1 _ w1 r1 _ (rs_registry _ _ _ _ _ _ _ _ _ _ S1) Hok1 (bu_idle _ _ _ _ _ B)) as S2.
  rewrite <-(bu_world _ _ _ _ _ B) in S2.
  split; [split; [|done]|apply B|apply B| |apply B|apply B| |].
  - eapply ram_step_mono; [reflexivity| |reflexivity|eapply ram_step_absorb; [exact S1|exact S2|set_solver]]. set_solver.
  - rewrite (ok_len _ _ _ _ (bu_ok _ _ _ _ _ B)), (bu_pages _ _ _ _ _ B). rewrite <-(ok_len _ _ _ _ Hok1). apply S1.
  - intros i Hi. destruct (pages r1 !! i) as [p|] eqn:Hp.
    + rewrite (bu_views _ _ _ _ _ B i p Hp). rewrite (ok_holds _ _ _ _ i p Hok1 Hp); [|by rewrite Hd1|done].
      apply (rs_views _ _ _ _ _ _ _ _ _ _ S1). by intros Hv%HV.
    + apply lookup_ge_None in Hp.
      rewrite (slot_at_out _ _ _ _ i (bu_ok _ _ _ _ _ B)) by (by rewrite (bu_pages _ _ _ _ _ B)).
      rewrite (slot_at_out _ _ _ _ i Hok); [done|]. by rewrite <-(rs_count _ _ _ _ _ _ _ _ _ _ S1).
  - intros f Hf%(bu_files _ _ _ _ _ B). unfold ram_files. by apply elem_of_union_r.
Qed.

Lemma reverted_sub r D' : reverted r D' ⊆ D'.
Proof. unfold reverted. destruct (sealed r); [apply empty_subseteq|done]. Qed.

Lemma wp_fork_pages K D w r dirty :
  registry w K -> ram_ok K (rm_storage w) D r -> next_generation_id w < u64_MAX ->
  next_page_id w + lenN (pages r) <= u64_MAX ->
  host_dirty r ⊆ dirty -> (forall i, i ∈ dirty -> i < length (pages r))%nat ->
  wp (fork_pages dirty)
    (fun child s => exists K', forked (own_files r) K D (reverted r (D ∖ dirty)) (D ∖ dirty) w r K' s.1 s.2 child)
    (fun _ s => exists K', ram_step (own_files r) (reverted r (D ∖ dirty)) K D w r K' D s.1 s.2) (w, r).
Proof.
  intros HK Hok Hg Hn Hhd Hd. unfold fork_pages.
  apply wp_assoc. rewrite wp_bind. eapply wp_mono; [by apply (wp_seal K D w r dirty)| |].
  2:{ intros e s (K1 & S1). exists K1. eapply ram_step_mono; [done|apply empty_subseteq|done|exact S1]. }
  intros b [w1 r1] (-> & K1 & P). apply (wp_materialize _ _ _ _ _ _ _ K1); [done|apply reverted_sub|set_solver|exact P].
Qed.

(** The end of a prepared fork. *)
Lemma wp_finish_fork K D w r L prep dirty :
  let D' := left_over D dirty prep in
  registry w K -> ram_ok K (rm_storage w) D r -> prep_ok K w r L prep ->
  host_dirty r ⊆ dirty -> L ⊆ dirty -> (forall i, i ∈ dirty -> i < length (pages r))%nat ->
  next_page_id w + lenN (pages r) <= u64_MAX ->
  wp (branch ← finish_prepared_pages prep dirty; on_world (materialize branch))
    (fun child s => exists K', forked (own_files r ∪ prep_files prep) K D (reverted r D') D' w r K' s.1 s.2 child)
    (fun _ s => exists K', ram_step (own_files r ∪ prep_files prep) (reverted r D') K D w r K' D s.1 s.2) (w, r).
Proof.
  intros D' HK Hok Hp Hhd HL Hd Hn. rewrite wp_bind. eapply wp_mono; [by apply (wp_finish K D w r L prep dirty)| |].
  2:{ intros e s (K1 & S1 & _). exists K1. eapply ram_step_mono; [done|apply empty_subseteq|done|exact S1]. }
  intros b [w1 r1] (-> & K1 & P).
  apply (wp_materialize _ _ _ _ _ _ _ K1); [done|apply reverted_sub|unfold D', left_over; set_solver|exact P].
Qed.
