(* ===== verification/RamMemory.v ===== *)
(** * Guest RAM: memory as bytes

    The guest's memory is the concatenation of its pages; stores by the guest
    and by the host change exactly the bytes they name; a new RAM is zero. *)

From S2P Require Import Prelude Host CacheTypes Storage VmmTypes Ram RamInv RamMap RamFork RamOps RamBranch.
Import Ram.

#[local] Opaque slot_at slice.

Implicit Types (w : RamWorld) (st : Storage) (r : KvmGuestRam) (D : gset nat) (K : list RamPage).

(** ** Pages and bytes *)

Lemma nthN_pages (l : list (list byte)) a :
  Forall (fun b => lenN b = PAGE_SIZE) l ->
  nthN (mjoin l) a = l !! N.to_nat (a / PAGE_SIZE) ≫= fun b => nthN b (a mod PAGE_SIZE).
Proof.
  intros Hl. revert a. induction Hl as [|b l Hb _ IH]; intros a.
  { unfold nthN. cbn. by rewrite !lookup_nil. }
  change (mjoin (b :: l)) with (b ++ mjoin l). rewrite nthN_app, Hb.
  destruct (N.ltb_spec a PAGE_SIZE) as [Ha|Ha].
  - by rewrite N.div_small, N.mod_small.
  - rewrite IH. pose proof (N.div_add (a - PAGE_SIZE) 1 PAGE_SIZE ltac:(done)) as Hd.
    pose proof (N.Div0.mod_add (a - PAGE_SIZE) 1 PAGE_SIZE) as Hm.
    replace (a - PAGE_SIZE + 1 * PAGE_SIZE) with a in * by lia. rewrite Hd, Hm.
    by replace (N.to_nat ((a - PAGE_SIZE) / PAGE_SIZE + 1)) with (S (N.to_nat ((a - PAGE_SIZE) / PAGE_SIZE))) by lia.
Qed.

Lemma length_pages (l : list (list byte)) :
  Forall (fun b => lenN b = PAGE_SIZE) l -> lenN (mjoin l) = lenN l * PAGE_SIZE.
Proof.
  intros Hl. induction Hl as [|b l Hb _ IH]; [done|].
  change (mjoin (b :: l)) with (b ++ mjoin l). rewrite lenN_app, Hb, IH. unfold lenN. cbn [length]. lia.
Qed.

Lemma ok_page_lens K st D r : ram_ok K st D r -> Forall (fun b => lenN b = PAGE_SIZE) (slot_bytes st <$> memory r).
Proof. intros H. rewrite Forall_fmap. eapply Forall_impl; [apply H|]. intros m. apply slot_bytes_len. Qed.

Lemma lenN_ram_bytes K st D r : ram_ok K st D r -> lenN (ram_bytes st r) = ram_len r.
Proof.
  intros H. unfold ram_bytes. rewrite length_pages by (by eapply ok_page_lens).
  rewrite (ok_len _ _ _ _ H). unfold lenN. by rewrite length_fmap, (ok_memory _ _ _ _ H).
Qed.

(** A byte of the memory is a byte of its page. *)
Lemma nthN_ram_bytes K st D r a :
  ram_ok K st D r -> a < ram_len r ->
  nthN (ram_bytes st r) a = nthN (slot_at st r (N.to_nat (a / PAGE_SIZE))) (a mod PAGE_SIZE).
Proof.
  intros H Ha. unfold ram_bytes. rewrite nthN_pages by (by eapply ok_page_lens). rewrite list_lookup_fmap.
  destruct (memory r !! N.to_nat (a / PAGE_SIZE)) as [m|] eqn:Hm; cbn.
  - by rewrite (slot_at_lookup _ _ _ _ Hm).
  - apply lookup_ge_None in Hm. rewrite (ok_memory _ _ _ _ H) in Hm. rewrite (ok_len _ _ _ _ H) in Ha.
    rewrite N.mul_comm in Ha. apply N.Div0.div_lt_upper_bound in Ha. unfold lenN in Ha. lia.
Qed.

Lemma slice_ram_bytes K st D r i :
  ram_ok K st D r -> (i < length (pages r))%nat ->
  slice (N.of_nat i * PAGE_SIZE) PAGE_SIZE (ram_bytes st r) = slot_at st r i.
Proof.
  intros H Hi. pose proof (ok_view_len _ _ _ _ _ H Hi) as Hl. apply list_eq_nthN. intros a. rewrite nthN_slice.
  destruct (N.ltb_spec a PAGE_SIZE) as [Ha|Ha]; [|symmetry; apply nthN_ge; lia].
  rewrite (nthN_ram_bytes K st D); [|done|].
  - rewrite N.div_add_l, N.div_small, N.add_0_r, Nat2N.id by done.
    rewrite N.add_comm, N.Div0.mod_add, N.mod_small by done. done.
  - rewrite (ok_len _ _ _ _ H). unfold lenN. clear -Ha Hi. unfold PAGE_SIZE in *. lia.
Qed.

(** Memory from its pages. *)
Lemma ram_bytes_of_pages K st D r c :
  ram_ok K st D r -> lenN c = ram_len r ->
  (forall i, (i < length (pages r))%nat -> slot_at st r i = slice (N.of_nat i * PAGE_SIZE) PAGE_SIZE c) ->
  ram_bytes st r = c.
Proof.
  intros H Hc Hs. apply list_eq_nthN. intros a. destruct (decide (a < ram_len r)) as [Ha|Ha].
  - rewrite (nthN_ram_bytes K st D) by done. pose proof (page_split a) as Hsp. pose proof (page_offset_lt a).
    rewrite Hs, nthN_slice.
    + rewrite (proj2 (N.ltb_lt _ _)) by done. f_equal. lia.
    + rewrite (ok_len _ _ _ _ H) in Ha. rewrite N.mul_comm in Ha. apply N.Div0.div_lt_upper_bound in Ha.
      unfold lenN in Ha. lia.
  - rewrite !nthN_ge; [done|lia|]. rewrite (lenN_ram_bytes K st D) by done. lia.
Qed.

(** ** Stores *)

Lemma touched_spec off n i :
  i ∈ touched_pages off n <-> exists a, off <= a < off + n /\ N.to_nat (a / PAGE_SIZE) = i.
Proof.
  unfold touched_pages. destruct (N.eqb_spec n 0) as [->|Hn].
  { split; [by intros ?%not_elem_of_nil|]. intros (a & Ha & _). lia. }
  cbv zeta. rewrite elem_of_seq. split.
  - intros Hi. exists (N.max off (N.of_nat i * PAGE_SIZE)).
    page_abs off. page_abs (off + n - 1).
    assert (off <= N.max off (N.of_nat i * PAGE_SIZE) < off + n) as Hr.
    { unfold PAGE_SIZE in *. lia. }
    split; [done|].
    assert (N.max off (N.of_nat i * PAGE_SIZE) / PAGE_SIZE = N.of_nat i) as ->; [|lia].
    symmetry. apply (N.div_unique _ _ _ (N.max off (N.of_nat i * PAGE_SIZE) - N.of_nat i * PAGE_SIZE)); unfold PAGE_SIZE in *; lia.
  - intros (a & Ha & <-). assert (off / PAGE_SIZE <= a / PAGE_SIZE) by (apply N.Div0.div_le_mono; lia).
    assert (a / PAGE_SIZE <= (off + n - 1) / PAGE_SIZE) by (apply N.Div0.div_le_mono; lia). lia.
Qed.

(** No page of a RAM is mapped shared, so a store changes no file. *)
Lemma store_shared_none c l mem st :
  Forall (fun m => match m with MappedPage _ _ false _ => False | _ => True end) mem -> store_shared c l mem st = st.
Proof.
  intros Hm. unfold store_shared. induction l as [|i l IH]; cbn; [done|].
  destruct (mem !! i) as [m|] eqn:Hi; [|done].
  pose proof (Forall_lookup_1 _ _ _ _ Hm Hi) as H. by destruct m as [|f o [] cp].
Qed.

Section stores.
Context K st D r (off : N) (bytes : list byte).
Hypothesis Hok : ram_ok K st D r.
Hypothesis Hin : off + lenN bytes <= ram_len r.

Abbreviation contents := (splice off bytes (ram_bytes st r)).
Abbreviation touched := (touched_pages off (lenN bytes)).

Definition stored : KvmGuestRam := set_memory (imap (store_slot contents touched) (memory r)) r.

Lemma lenN_contents : lenN contents = ram_len r.
Proof. rewrite lenN_splice; rewrite (lenN_ram_bytes K st D); done. Qed.

Lemma slice_untouched i :
  i ∉ touched -> slice (N.of_nat i * PAGE_SIZE) PAGE_SIZE contents = slice (N.of_nat i * PAGE_SIZE) PAGE_SIZE (ram_bytes st r).
Proof.
  intros Hi. apply list_eq_nthN. intros a. rewrite !nthN_slice.
  destruct (N.ltb_spec a PAGE_SIZE) as [Ha|Ha]; [|done].
  rewrite nthN_splice by (by rewrite (lenN_ram_bytes K st D)).
  destruct (N.leb_spec off (N.of_nat i * PAGE_SIZE + a)) as [H1|H1]; cbn [andb]; [|done].
  destruct (N.ltb_spec (N.of_nat i * PAGE_SIZE + a) (off + lenN bytes)) as [H2|H2]; [|done].
  exfalso. apply Hi, touched_spec. exists (N.of_nat i * PAGE_SIZE + a). split; [done|].
  rewrite N.div_add_l, N.div_small by done. lia.
Qed.

Lemma stored_slot i m :
  memory r !! i = Some m -> exists m', memory stored !! i = Some m' /\ slot_files m' = slot_files m /\
    slot_ok st m' /\ slot_bytes st m' = slice (N.of_nat i * PAGE_SIZE) PAGE_SIZE contents /\
    (i ∉ touched -> m' = m) /\ (forall f o p c, m = MappedPage f o p c -> exists c', m' = MappedPage f o p c').
Proof.
  intros Hm. pose proof (ok_slot _ _ _ _ _ _ Hok Hm) as Hs.
  assert (i < length (pages r))%nat as Hi by (rewrite <-(ok_memory _ _ _ _ Hok); by eapply lookup_lt_Some).
  exists (store_slot contents touched i m). split; [cbn; by rewrite list_lookup_imap, Hm|].
  unfold store_slot. case_decide as Ht.
  - destruct m as [|f o p c]; [done|]. destruct Hs as (-> & Hf & Ho & _).
    split; [done|]. split; [|split; [done|split; [done|by intros ???? [= <- <- <- <-]; eexists]]].
    split_and!; [done|done|done|]. apply lenN_slice. rewrite lenN_contents, (ok_len _ _ _ _ Hok).
    unfold lenN. clear -Hi. unfold PAGE_SIZE. lia.
  - split; [done|]. split; [done|]. split; [|split; [done|eauto]].
    rewrite slice_untouched by done. rewrite (slice_ram_bytes K st D) by done. by rewrite (slot_at_lookup _ _ _ _ Hm).
Qed.

Lemma stored_lookup i m' : memory stored !! i = Some m' -> exists m, memory r !! i = Some m.
Proof. cbn. rewrite list_lookup_imap. intros (m & Hm & _)%fmap_Some. by exists m. Qed.

Lemma stored_ok : ram_ok K st (D ∪ list_to_set touched) stored.
Proof.
  split; try apply Hok.
  - cbn. rewrite length_imap. apply Hok.
  - apply Forall_lookup. intros i m' Hm'. destruct (stored_lookup i m' Hm') as [m Hm].
    destruct (stored_slot i m Hm) as (m2 & Hm2 & _ & Hs & _). congruence.
  - intros i m' p Hm' Hp Hh HD. destruct (stored_lookup i m' Hm') as [m Hm].
    destruct (stored_slot i m Hm) as (m2 & Hm2 & _ & _ & _ & Hun & _). rewrite Hm' in Hm2. injection Hm2 as <-.
    rewrite Hun by set_solver. apply (ok_clean _ _ _ _ Hok i); [done|done|done|set_solver].
  - intros Hs. destruct (ok_unsealed _ _ _ _ Hok Hs) as [g Hg]. exists g. intros i m' p Hm' Hp.
    destruct (stored_lookup i m' Hm') as [m Hm]. destruct (Hg i m p Hm Hp) as (Hpg & Hpo & c & ->).
    destruct (stored_slot i _ Hm) as (m2 & Hm2 & _ & _ & _ & _ & Hshape). rewrite Hm' in Hm2. injection Hm2 as <-.
    split; [done|]. split; [done|]. by eapply Hshape.
Qed.

Lemma ram_bytes_stored : ram_bytes st stored = contents.
Proof.
  apply (ram_bytes_of_pages K st (D ∪ list_to_set touched)); [apply stored_ok|apply lenN_contents|].
  intros i Hi. assert (i < length (memory r))%nat as Hl by (rewrite (ok_memory _ _ _ _ Hok); exact Hi).
  apply lookup_lt_is_Some in Hl as [m Hm]. destruct (stored_slot i m Hm) as (m2 & Hm2 & _ & _ & Hb & _).
  by rewrite (slot_at_lookup _ _ _ _ Hm2).
Qed.

Lemma stored_view i : i ∉ touched -> slot_at st stored i = slot_at st r i.
Proof.
  intros Hi. destruct (memory r !! i) as [m|] eqn:Hm.
  - destruct (stored_slot i m Hm) as (m2 & Hm2 & _ & _ & _ & Hun & _).
    by rewrite (slot_at_lookup _ _ _ _ Hm2), (slot_at_lookup _ _ _ _ Hm), Hun.
  - apply slot_at_none; [|done]. cbn. by rewrite list_lookup_imap, Hm.
Qed.

Lemma stored_files : ram_files stored ⊆ ram_files r.
Proof.
  intros f Hf. eapply ram_files_elim; [exact Hf| |].
  - intros i m' Hm'. destruct (stored_lookup i m' Hm') as [m Hm].
    destruct (stored_slot i m Hm) as (m2 & Hm2 & Hsf & _). rewrite Hm' in Hm2. injection Hm2 as <-. rewrite Hsf.
    by eapply elem_of_slot_files.
  - intros i p Hp ->. by eapply elem_of_page_files.
Qed.

Lemma run_store w : rm_storage w = st -> store off bytes (w, r) = ((w, stored), Ok tt).
Proof.
  intros Hw. unfold store, modify. rewrite Hw.
  rewrite store_shared_none.
  - unfold stored. by destruct w; cbn in *; subst.
  - eapply Forall_impl; [apply Hok|]. intros m. destruct m as [|f o p c]; [done|]. by intros (-> & _).
Qed.
End stores.

(** [checked_range] accepts exactly the ranges inside the memory. *)
Lemma checked_range_spec r offset len :
  checked_range r offset len =
    if (offset + len <=? ram_len r) && (offset + len <=? u64_MAX) then Ok (offset, offset + len)
    else Err (RamRange offset len).
Proof.
  unfold checked_range. destruct (checked_add offset len) as [e|] eqn:He.
  - apply checked_add_Some in He as [-> He]. cmp; cbn; try done; lia.
  - apply checked_add_None in He. cmp; cbn; try done; lia.
Qed.

(** ** A new RAM *)

Lemma wp_new_pages K g count i w :
  registry w K -> gen_ok w K g -> next_page_id w + N.of_nat count <= u64_MAX ->
  wp (new_pages g i count)
    (fun l w' => rm_storage w' = rm_storage w /\ registry w' (l ++ K) /\ length l = count /\
       forall k p, l !! k = Some p -> p_generation p = g /\ p_offset p = N.of_nat (i + k) * PAGE_SIZE)
    (fun _ _ => False) w.
Proof.
  revert K i w. induction count as [|count IH]; intros K i w HK Hg Hn; cbn [new_pages]; wp_steps.
  { by split_and!. }
  apply (wp_new_page K); [done|done|lia|]. intros p w1 HK1 Hg1. wp_steps.
  eapply wp_mono; [apply (IH (p :: K) (S i) w1); [done|done|cbn; lia]| |done].
  intros l w2 (Hst & HK2 & Hl & Hlk). wp_steps. split_and!; [done| |cbn; lia|].
  - destruct HK2 as [H1 H2 H3 H4].
    assert (forall q, q ∈ (p :: l) ++ K -> q ∈ l ++ p :: K) as Hsub by (intros q; rewrite !elem_of_app, !elem_of_cons; rewrite ?elem_of_app; tauto).
    split; eauto.
  - intros [|k] q; cbn.
    + intros [= <-]. rewrite Nat.add_0_r. done.
    + intros Hq. destruct (Hlk k q Hq) as [? ->]. split; [done|]. f_equal. f_equal. lia.
Qed.

(** The mapping of a new RAM. *)
Definition zero_ram len l : KvmGuestRam := mkRam len l ∅ true false (page_slot <$> l).

Lemma zero_ram_ok K st g len l :
  l <> [] -> len = lenN l * PAGE_SIZE -> l ⊆ K -> g_file g < sto_next st ->
  inode_bytes st (g_file g) = replicate (N.to_nat len) zero_byte ->
  (forall k p, l !! k = Some p -> p_generation p = g /\ p_offset p = N.of_nat k * PAGE_SIZE) ->
  ram_ok K st ∅ (zero_ram len l) /\ ram_bytes st (zero_ram len l) = replicate (N.to_nat len) zero_byte.
Proof.
  intros Hne -> HlK Hlt Hb Hl.
  assert (Forall (page_ok st) l) as Hpo.
  { apply Forall_lookup. intros k p Hp. destruct (Hl k p Hp) as [Hg Ho]. unfold page_ok, page_file. rewrite Hg, Ho, Hb.
    split_and!; [done| |by apply N.Div0.mod_mul]. apply lookup_lt_Some in Hp. unfold lenN. rewrite length_replicate.
    clear -Hp. unfold PAGE_SIZE. lia. }
  assert (ram_ok K st ∅ (zero_ram (lenN l * PAGE_SIZE) l)) as Hok.
  { split; cbn; try done.
    - apply length_fmap.
    - rewrite Forall_fmap. eapply Forall_impl; [exact Hpo|]. intros p (H1 & H2 & _). done.
    - intros i m p. rewrite list_lookup_fmap. intros (q & Hq & ->)%fmap_Some Hp. by rewrite Hp in Hq; injection Hq as ->.
    - intros _. exists g. intros i m p. rewrite list_lookup_fmap. intros (q & Hq & ->)%fmap_Some Hp.
      rewrite Hp in Hq; injection Hq as ->. destruct (Hl i q Hp) as [Hg Ho]. split_and!; try done.
      exists None. unfold page_slot, page_file. by rewrite Hg, Ho. }
  split; [done|]. apply (ram_bytes_of_pages K st ∅); [done|cbn; unfold lenN; rewrite length_replicate; lia|].
  intros i Hi. cbn in Hi. apply lookup_lt_is_Some in Hi as [p Hp]. destruct (Hl i p Hp) as [Hg Ho].
  rewrite (slot_at_lookup _ _ i (page_slot p)) by (cbn; by rewrite list_lookup_fmap, Hp).
  cbn. unfold file_page, page_file. by rewrite Hg, Ho, Hb.
Qed.

Lemma wp_new K len w :
  registry w K -> next_generation_id w < u64_MAX -> next_page_id w + len / PAGE_SIZE <= u64_MAX ->
  wp (new len)
    (fun r w' => exists K', K ⊆ K' /\ registry w' K' /\ grows ∅ (rm_storage w) (rm_storage w') /\
       ram_ok K' (rm_storage w') ∅ r /\ ram_len r = len /\
       ram_bytes (rm_storage w') r = replicate (N.to_nat len) zero_byte /\
       forall f, f ∈ ram_files r -> sto_next (rm_storage w) <= f)
    (fun _ w' => exists K', K ⊆ K' /\ registry w' K' /\ grows ∅ (rm_storage w) (rm_storage w')) w.
Proof.
  intros HK Hg Hn. unfold new. destruct ((len =? 0) || _) eqn:Hlen.
  { wp_steps. exists K. split; [done|]. split; [done|]. apply grows_refl. }
  apply orb_false_iff in Hlen as [Hnz%N.eqb_neq Hm%negb_false_iff%N.eqb_eq].
  assert (len = len / PAGE_SIZE * PAGE_SIZE) as Hdiv by (pose proof (page_split len); lia).
  unfold reserve. wp_steps. rewrite wp_sys. apply wp_sto_call.
  2:{ intros e st' Hi. exists K. split; [done|]. split; [by apply registry_storage|apply Hi]. }
  intros o st1 Hi1. wp_steps. rewrite (proj2 (N.eqb_neq len 0)) by done. wp_steps.
  apply (wp_zeroed K); [by apply registry_storage|done| |].
  2:{ intros e st' G. exists K. split; [done|]. split; [by do 2 apply registry_storage|]. eapply grows_trans; [apply Hi1|exact G]. }
  intros g w2 Hgf HK2 Hgen2 Hids2 _ G2 Hnext2 Hdata2. cbn in Hgf, Hids2, G2.
  assert (grows ∅ (rm_storage w) (rm_storage w2)) as G by (eapply grows_trans; [apply Hi1|exact G2]).
  wp_steps. eapply wp_mono; [apply (wp_new_pages K g _ 0 w2); [done|done|rewrite Hids2; lia]| |done].
  intros l w3 (Hst & HK3 & Hl & Hlk). unfold construct.
  set (r0 := mkRam _ _ _ _ _ _).
  assert (l ⊆ l ++ K) as HlK by (intros q Hq; apply elem_of_app; by left).
  pose proof (wp_map_all_pages (l ++ K) w3 r0 (registry_consistent _ _ HK3) HlK) as Hmap.
  unfold wp in Hmap |- *. destruct (map_all_pages true _) as [[w4 r4] [[]|e]]; cbn [fst snd] in Hmap.
  2:{ destruct Hmap as (Z & _ & st4 & Hi4 & -> & _). exists (l ++ K). split; [intros q Hq; apply elem_of_app; by right|].
      split; [by apply registry_storage|]. eapply grows_trans; [exact G|]. rewrite <-Hst. apply Hi4. }
  destruct Hmap as (st4 & Hi4 & -> & ->). rewrite Hst in Hi4.
  assert (remap (seq 0 (length (pages r0))) r0 = zero_ram len l) as ->.
  { unfold zero_ram. rewrite <-(remap_all l r0); [done|done|]. cbn. rewrite length_replicate. by rewrite Hl. }
  assert (lenN l = len / PAGE_SIZE) as Hll by (unfold lenN; rewrite Hl; lia).
  destruct (zero_ram_ok (l ++ K) st4 g len l) as [Hok Hz]; try done.
  { intros ->. cbn in Hl. assert (0 < len / PAGE_SIZE); [|lia]. clear -Hdiv Hnz. unfold PAGE_SIZE in *. lia. }
  { by rewrite Hll. }
  { rewrite (idle_next _ _ Hi4). lia. }
  { rewrite (idle_bytes _ _ _ Hi4). unfold inode_bytes. by rewrite Hdata2. }
  exists (l ++ K). split; [intros q Hq; apply elem_of_app; by right|]. split; [by apply registry_storage|].
  split; [eapply grows_trans; [exact G|apply Hi4]|]. split; [done|]. split; [done|]. split; [done|].
  intros f Hf. assert (f = g_file g) as ->; [|rewrite Hgf, (idle_next _ _ Hi1); lia].
  eapply ram_files_elim; [exact Hf| |].
  - intros k m. cbn. rewrite list_lookup_fmap. intros (p & Hp & ->)%fmap_Some. cbn. intros ->%elem_of_singleton.
    unfold page_file. by destruct (Hlk k p Hp) as [-> _].
  - intros k p Hp ->. unfold page_file. by destruct (Hlk k p Hp) as [-> _].
Qed.
