(* ===== verification/RamSpec.v ===== *)
(** * Guest RAM: the system of all branches

    Guests that run, host access, forks of raw and of Cloud Hypervisor VMs,
    checkpoints and removals, with a host that may fail any call, as a
    transition system; its invariant, and the theorems about what a guest's
    memory holds. *)

From S2P Require Import Prelude Host CacheTypes Storage VmmTypes Ram RamInv RamMap RamFork RamOps RamBranch RamMemory.
Import Ram.

#[local] Opaque slot_at slice.

(** A guest: its RAM, the pages KVM has logged since the log was last read,
    the pages an operation took from the log and then failed to copy, and the
    preparation of a fork in progress. *)
Record Guest := mkGuest {
  gu_ram : KvmGuestRam;
  gu_log : gset nat;
  gu_lost : gset nat;
  gu_prep : option RamForkPreparation
}.

Record RamSystem := mkRamSystem { sm_world : RamWorld; sm_guests : gmap N Guest }.

(** The process starts without RAM, on a host whose calls will end as [sched]
    says. *)
Definition initial_world (sched : list outcome) : RamWorld := mkRamWorld (set_sched sched empty_storage) 1 1.
Definition initial_system (sched : list outcome) : RamSystem := mkRamSystem (initial_world sched) ∅.

Implicit Types (w : RamWorld) (st : Storage) (r : KvmGuestRam) (D L : gset nat) (gu : Guest) (G : gmap N Guest)
  (K : list RamPage) (k j : N).

Definition prep_dom (prep : option RamForkPreparation) : gset nat :=
  match prep with Some p => dom (prep_pages p) | None => ∅ end.

(** The pages of a guest that may differ from their page object. *)
Definition gu_differs gu : gset nat := gu_log gu ∪ gu_lost gu ∪ prep_dom (gu_prep gu).

(** The counters do not run out in the next operation of a RAM of [n] pages. *)
Definition fits w (n : N) : Prop := next_generation_id w < u64_MAX /\ next_page_id w + n <= u64_MAX.

(** The answers of KVM and of the embedded VMM for a set of logged pages. *)
Definition reports (bitmap : list N) (n : nat) L : Prop := list_to_set (bitmap_pages bitmap n) = L.
Definition captures (captured : list nat) L : Prop := list_to_set captured = L.

(** [finish_prepared_branch], then [materialize]. *)
Definition finish_fork (prep : RamForkPreparation) (captured : list nat) : R KvmGuestRam :=
  branch ← finish_prepared_branch prep captured;
  on_world (materialize branch).

(** Sealing for a checkpoint, with the pages KVM logged or those the VMM
    captured. *)
Inductive sealing gu : R unit -> Prop :=
  | seal_logged bitmap :
      reports bitmap (length (pages (gu_ram gu))) (gu_log gu) -> sealing gu (seal_for_checkpoint (Ok bitmap))
  | seal_captured captured :
      captures captured (gu_log gu) -> sealing gu (seal_dirty_pages captured).

(** A guest whose fork or checkpoint failed, and one whose succeeded. *)
Definition gu_failed r gu : Guest := mkGuest r ∅ (gu_differs gu) None.
Definition gu_copied r gu : Guest := mkGuest r ∅ (gu_lost gu ∖ (gu_log gu ∪ host_dirty (gu_ram gu) ∪ prep_dom (gu_prep gu))) None.
Definition gu_new r : Guest := mkGuest r ∅ ∅ None.

(** The supervisor runs one operation at a time ([&mut self]); only guests run
    while a fork is being prepared. *)
Definition quiet G : Prop := forall j gu, G !! j = Some gu -> gu_prep gu = None.
Definition quiet_but k G : Prop := quiet (delete k G).

(** [ram_trans k s s']: guest [k] acts, or is acted upon.  A log that was asked
    for and not handed out may be gone in part or as a whole ([tr_capture_lost]);
    the VMM may log pages on its own account ([tr_report]), as it does for those
    its loader fills when a VM is booted. *)
Inductive ram_trans : N -> RamSystem -> RamSystem -> Prop :=
  | tr_new k w G len w' res :
      quiet G -> G !! k = None -> fits w (len / PAGE_SIZE) -> new len w = (w', res) ->
      ram_trans k (mkRamSystem w G)
        (mkRamSystem w' (match res with Ok r => <[k := gu_new r]> G | Err _ => G end))
  | tr_guest_write k w G gu off bytes w' r' :
      G !! k = Some gu -> off + lenN bytes <= ram_len (gu_ram gu) ->
      store off bytes (w, gu_ram gu) = ((w', r'), Ok tt) ->
      ram_trans k (mkRamSystem w G)
        (mkRamSystem w' (<[k := mkGuest r' (gu_log gu ∪ list_to_set (touched_pages off (lenN bytes)))
                                   (gu_lost gu) (gu_prep gu)]> G))
  | tr_host_write k w G gu off bytes w' r' res :
      quiet G -> G !! k = Some gu -> write off bytes (w, gu_ram gu) = ((w', r'), res) ->
      ram_trans k (mkRamSystem w G) (mkRamSystem w' (<[k := mkGuest r' (gu_log gu) (gu_lost gu) None]> G))
  | tr_fork k j w G gu bitmap w' r' res :
      quiet G -> G !! k = Some gu -> G !! j = None -> fits w (lenN (pages (gu_ram gu))) ->
      reports bitmap (length (pages (gu_ram gu))) (gu_log gu) ->
      fork (Ok bitmap) (w, gu_ram gu) = ((w', r'), res) ->
      ram_trans k (mkRamSystem w G)
        (mkRamSystem w' (match res with
                         | Ok child => <[j := gu_new child]> (<[k := gu_copied r' gu]> G)
                         | Err _ => <[k := gu_failed r' gu]> G
                         end))
  | tr_prepare k w G gu captured w' r' res :
      quiet G -> G !! k = Some gu -> fits w (lenN (pages (gu_ram gu))) ->
      captures captured (gu_log gu) -> prepare_fork captured (w, gu_ram gu) = ((w', r'), res) ->
      ram_trans k (mkRamSystem w G)
        (mkRamSystem w' (<[k := match res with
                                | Ok prep => mkGuest r' ∅ (gu_lost gu) (Some prep)
                                | Err _ => gu_failed r' gu
                                end]> G))
  | tr_finish k j w G gu prep captured w' r' res :
      quiet_but k G -> G !! k = Some gu -> G !! j = None -> gu_prep gu = Some prep ->
      fits w (lenN (pages (gu_ram gu))) ->
      captures captured (gu_log gu) -> finish_fork prep captured (w, gu_ram gu) = ((w', r'), res) ->
      ram_trans k (mkRamSystem w G)
        (mkRamSystem w' (match res with
                         | Ok child => <[j := gu_new child]> (<[k := gu_copied r' gu]> G)
                         | Err _ => <[k := gu_failed r' gu]> G
                         end))
  | tr_abandon k w G gu :
      quiet_but k G -> G !! k = Some gu ->
      ram_trans k (mkRamSystem w G)
        (mkRamSystem w (<[k := mkGuest (gu_ram gu) (gu_log gu) (gu_lost gu ∪ prep_dom (gu_prep gu)) None]> G))
  | tr_capture_lost k w G gu L :
      quiet_but k G -> G !! k = Some gu -> L ⊆ gu_log gu ->
      ram_trans k (mkRamSystem w G) (mkRamSystem w (<[k := mkGuest (gu_ram gu) L (gu_differs gu) None]> G))
  | tr_report k w G gu L :
      quiet G -> G !! k = Some gu -> (forall i, i ∈ L -> i < length (pages (gu_ram gu)))%nat ->
      ram_trans k (mkRamSystem w G) (mkRamSystem w (<[k := mkGuest (gu_ram gu) (gu_log gu ∪ L) (gu_lost gu) None]> G))
  | tr_publish k w G gu prep captured w' r' branch :
      quiet_but k G -> G !! k = Some gu -> gu_prep gu = Some prep -> fits w (lenN (pages (gu_ram gu))) ->
      captures captured (gu_log gu) ->
      finish_prepared_branch prep captured (w, gu_ram gu) = ((w', r'), Ok branch) ->
      ram_trans k (mkRamSystem w G) (mkRamSystem w' (<[k := gu_copied r' gu]> G))
  | tr_seal k w G gu seal w' r' res :
      quiet G -> G !! k = Some gu -> fits w (lenN (pages (gu_ram gu))) -> sealing gu seal ->
      seal (w, gu_ram gu) = ((w', r'), res) ->
      ram_trans k (mkRamSystem w G)
        (mkRamSystem w' (<[k := match res with Ok _ => gu_copied r' gu | Err _ => gu_failed r' gu end]> G))
  | tr_remove k w G :
      quiet G -> ram_trans k (mkRamSystem w G) (mkRamSystem w (delete k G)).

Inductive ram_reachable : RamSystem -> Prop :=
  | rr_initial sched : ram_reachable (initial_system sched)
  | rr_step k s s' : ram_reachable s -> ram_trans k s s' -> ram_reachable s'.

(** ** The invariant *)

Definition gu_prep_files gu : gset Inode := match gu_prep gu with Some p => prep_files p | None => ∅ end.
(** Files the guest's operations write, and files it uses. *)
Definition gu_owned gu : gset Inode := own_files (gu_ram gu) ∪ gu_prep_files gu.
Definition gu_used gu : gset Inode := ram_files (gu_ram gu) ∪ gu_prep_files gu.

Record guest_ok K w gu : Prop := {
  go_ram : ram_ok K (rm_storage w) (gu_differs gu) (gu_ram gu);
  go_log i : i ∈ gu_log gu -> (i < length (pages (gu_ram gu)))%nat;
  go_prep prep : gu_prep gu = Some prep -> prep_ok K w (gu_ram gu) (gu_log gu) prep
}.

Record system_ok K (s : RamSystem) : Prop := {
  so_registry : registry (sm_world s) K;
  so_guests k gu : sm_guests s !! k = Some gu -> guest_ok K (sm_world s) gu;
  so_apart k j gu gu' : k <> j -> sm_guests s !! k = Some gu -> sm_guests s !! j = Some gu' ->
    gu_owned gu ## gu_used gu'
}.

(** ** Changes to one guest *)

Lemma quiet_but_quiet k G : quiet G -> quiet_but k G.
Proof. intros H j gu [_ Hj]%lookup_delete_Some. by eapply H. Qed.

Lemma used_below K w gu f : guest_ok K w gu -> f ∈ gu_used gu -> f < sto_next (rm_storage w).
Proof.
  intros [Hr _ Hp] [Hf|Hf]%elem_of_union; [by eapply ok_files|].
  unfold gu_prep_files in Hf. destruct (gu_prep gu) as [prep|]; [|set_solver].
  specialize (Hp prep eq_refl). unfold prep_ok in Hp. unfold prep_files in Hf.
  destruct (seals_existing_generation prep); [set_solver|]. apply elem_of_singleton in Hf as ->. by destruct Hp as (_ & _ & _ & ? & _).
Qed.

(** Another guest, without a preparation, after files outside it changed. *)
Lemma guest_frame K K' w w' Y gu :
  guest_ok K w gu -> gu_prep gu = None -> grows Y (rm_storage w) (rm_storage w') -> K ⊆ K' ->
  Y ## gu_used gu -> guest_ok K' w' gu /\ ram_bytes (rm_storage w') (gu_ram gu) = ram_bytes (rm_storage w) (gu_ram gu).
Proof.
  intros Hg Hn G HK Hd.
  assert (same_bytes (ram_files (gu_ram gu)) (rm_storage w) (rm_storage w')) as Hsame.
  { eapply grows_same_bytes; [exact G| |].
    - unfold gu_used in Hd. set_solver.
    - intros f Hf. eapply ok_files; [apply Hg|done]. }
  split; [|by apply ram_bytes_frame]. split; [eapply ram_ok_frame; [done|done|apply Hg]|apply Hg|congruence].
Qed.

Section replace.
Context K w G k gu.
Hypothesis Hsys : system_ok K (mkRamSystem w G).
Hypothesis Hk : G !! k = Some gu.

(** A guest replaced by its next state, the others untouched. *)
Lemma replace_ok K' w' gu' Y :
  quiet_but k G -> grows Y (rm_storage w) (rm_storage w') -> Y ⊆ gu_owned gu -> K ⊆ K' -> registry w' K' ->
  guest_ok K' w' gu' ->
  (forall f, f ∈ gu_used gu' -> f ∈ gu_used gu \/ sto_next (rm_storage w) <= f) ->
  (forall f, f ∈ gu_owned gu' -> f ∈ gu_owned gu \/ sto_next (rm_storage w) <= f) ->
  system_ok K' (mkRamSystem w' (<[k := gu']> G)).
Proof.
  intros Hq Gr HY HK Hr Hg Hu Ho.
  assert (forall j gj, G !! j = Some gj -> j <> k -> guest_ok K w gj /\ gu_owned gu ## gu_used gj /\ gu_owned gj ## gu_used gu) as Hj.
  { intros j gj Hj Hne. split; [by apply (so_guests _ _ Hsys j)|]. split; [by apply (so_apart _ _ Hsys k j)|by apply (so_apart _ _ Hsys j k)]. }
  split; cbn; [done| |].
  - intros j gj [[<- <-]|[Hne Hgj]]%lookup_insert_Some; [done|]. destruct (Hj j gj Hgj) as (Hgo & Hd & _); [done|].
    apply (guest_frame K K' w w' Y); [done| |done|done|set_solver]. apply (Hq j gj). by rewrite lookup_delete_ne.
  - intros i j gi gj Hij [[<- <-]|[Hi Hgi]]%lookup_insert_Some [[<- <-]|[Hj' Hgj]]%lookup_insert_Some; [done| | |].
    + destruct (Hj j gj Hgj) as (Hgo & Hd & _); [done|]. intros f Hf Hfj. destruct (Ho f Hf) as [Hf'|Hf'].
      * by apply (Hd f).
      * pose proof (used_below _ _ _ _ Hgo Hfj). lia.
    + destruct (Hj i gi Hgi) as (Hgo & _ & Hd); [done|]. intros f Hfi Hf. destruct (Hu f Hf) as [Hf'|Hf'].
      * by apply (Hd f).
      * assert (f ∈ gu_used gi) as Hui by (unfold gu_owned, gu_used in *; pose proof (own_files_sub (gu_ram gi)); set_solver).
        pose proof (used_below _ _ _ _ Hgo Hui). lia.
    + by apply (so_apart _ _ Hsys i j).
Qed.

(** The memory of the other guests. *)
Lemma others_same w' Y j gj :
  quiet_but k G -> grows Y (rm_storage w) (rm_storage w') -> Y ⊆ gu_owned gu -> G !! j = Some gj -> j <> k ->
  ram_bytes (rm_storage w') (gu_ram gj) = ram_bytes (rm_storage w) (gu_ram gj).
Proof.
  intros Hq Gr HY Hj Hne. apply (guest_frame K K w w' Y); [by apply (so_guests _ _ Hsys j)| |done|done|].
  - apply (Hq j gj). by rewrite lookup_delete_ne.
  - pose proof (so_apart _ _ Hsys k j gu gj ltac:(done) Hk Hj). set_solver.
Qed.
End replace.

(** A new guest that owns no file the others use. *)
Lemma insert_ok K w G j gj :
  system_ok K (mkRamSystem w G) -> G !! j = None -> guest_ok K w gj ->
  (forall i gi, G !! i = Some gi -> gu_owned gi ## gu_used gj /\ gu_owned gj ## gu_used gi) ->
  system_ok K (mkRamSystem w (<[j := gj]> G)).
Proof.
  intros Hsys Hn Hg Hd. split; cbn; [apply Hsys| |].
  - intros i gi [[<- <-]|[_ Hi]]%lookup_insert_Some; [done|by apply (so_guests _ _ Hsys i)].
  - intros i i' gi gi' Hne [[<- <-]|[_ Hi]]%lookup_insert_Some [[<- <-]|[_ Hi']]%lookup_insert_Some; [done| | |].
    + by apply (Hd i').
    + by apply (Hd i).
    + by apply (so_apart _ _ Hsys i i').
Qed.

(** ** Results of the operations *)

Lemma guest_of_step Y V K w gu K' D' w' r' log lost :
  ram_step Y V K (gu_differs gu) w (gu_ram gu) K' D' w' r' -> D' ⊆ log ∪ lost ->
  (forall i, i ∈ log -> i < length (pages r'))%nat -> guest_ok K' w' (mkGuest r' log lost None).
Proof.
  intros S HD Hl. split; cbn; [|done|done]. eapply ram_ok_weaken; [|apply S]. unfold gu_differs. cbn. set_solver.
Qed.

Lemma files_of_step Y V K D w gu K' D' w' r' log lost :
  ram_step Y V K D w (gu_ram gu) K' D' w' r' -> Y ⊆ gu_owned gu ->
  (forall f, f ∈ gu_used (mkGuest r' log lost None) -> f ∈ gu_used gu \/ sto_next (rm_storage w) <= f) /\
  (forall f, f ∈ gu_owned (mkGuest r' log lost None) -> f ∈ gu_owned gu \/ sto_next (rm_storage w) <= f).
Proof.
  intros S HY. pose proof (own_files_sub (gu_ram gu)) as Hsub. unfold gu_used, gu_owned, gu_prep_files in *. cbn. split.
  - intros f Hf. rewrite (right_id_L ∅ (∪)) in Hf. destruct (rs_files _ _ _ _ _ _ _ _ _ _ S f Hf) as [?|[?|?]]; [|..|by right].
    + left. by apply elem_of_union_l.
    + left. apply HY in H. set_solver.
  - intros f Hf. rewrite (right_id_L ∅ (∪)) in Hf. left. apply elem_of_union_l. by apply (rs_own _ _ _ _ _ _ _ _ _ _ S).
Qed.

(** The pages lost so far that a fork or checkpoint does not copy. *)
Definition still_lost gu : gset nat :=
  gu_lost gu ∖ (gu_log gu ∪ host_dirty (gu_ram gu) ∪ prep_dom (gu_prep gu)).

Lemma add_dirty_ok n (d : gset nat) l : Forall (fun i => i < n)%nat l -> add_dirty n d l = Ok (list_to_set l ∪ d).
Proof.
  intros Hl. revert d. induction Hl as [|i l Hi _ IH]; intros d; cbn [add_dirty list_to_set].
  - f_equal. set_solver.
  - rewrite decide_False by lia. rewrite IH. f_equal. cbn. set_solver.
Qed.

Section results.
Context K w gu.
Hypothesis HK : registry w K.
Hypothesis Hg : guest_ok K w gu.
Hypothesis Hfit : fits w (lenN (pages (gu_ram gu))).

Lemma host_dirty_range i : i ∈ host_dirty (gu_ram gu) ∪ gu_log gu -> (i < length (pages (gu_ram gu)))%nat.
Proof. intros [Hi|Hi]%elem_of_union; [by apply (ok_dirty _ _ _ _ (go_ram _ _ _ Hg))|by apply (go_log _ _ _ Hg)]. Qed.

Lemma differs_left : gu_prep gu = None -> gu_differs gu ∖ (host_dirty (gu_ram gu) ∪ gu_log gu) = still_lost gu.
Proof. intros Hp. unfold gu_differs, still_lost. rewrite Hp. cbn. set_solver. Qed.

(** [fork] with the pages KVM logged. *)
Lemma fork_result bitmap w' r' res :
  gu_prep gu = None -> reports bitmap (length (pages (gu_ram gu))) (gu_log gu) ->
  fork (Ok bitmap) (w, gu_ram gu) = ((w', r'), res) ->
  let D := gu_differs gu in let r := gu_ram gu in
  match res with
  | Ok child => exists K', forked (own_files r) K D (reverted r (still_lost gu)) (still_lost gu) w r K' w' r' child
  | Err _ => exists K', ram_step (own_files r) (reverted r (still_lost gu)) K D w r K' D w' r'
  end.
Proof.
  intros Hp Hrep Hf D r. destruct Hfit as [Hgen Hids].
  assert (wp (fork (Ok bitmap))
    (fun child s => exists K', forked (own_files r) K D (reverted r (still_lost gu)) (still_lost gu) w r K' s.1 s.2 child)
    (fun _ s => exists K', ram_step (own_files r) (reverted r (still_lost gu)) K D w r K' D s.1 s.2) (w, r)) as Hwp.
  { unfold fork, logged_dirty. cbn [map_err]. wp_steps. cbn [snd]. fold r in Hrep. unfold reports in Hrep. rewrite Hrep.
    rewrite <-(differs_left Hp). apply wp_fork_pages; [done|apply Hg|done|done|set_solver|apply host_dirty_range]. }
  pose proof (wp_elim _ _ _ _ _ _ Hwp Hf) as H. by destruct res.
Qed.

Lemma captured_range captured : captures captured (gu_log gu) -> Forall (fun i => i < length (pages (gu_ram gu)))%nat captured.
Proof using Hg. intros Hc. apply Forall_forall. intros i Hi. apply (go_log _ _ _ Hg). rewrite <-Hc. by apply elem_of_list_to_set. Qed.

(** Either way the pages that are sealed are the logged ones and the host's. *)
Lemma sealing_pages seal : sealing gu seal -> seal (w, gu_ram gu) = seal_pages (host_dirty (gu_ram gu) ∪ gu_log gu) (w, gu_ram gu).
Proof using Hg.
  intros [bitmap Hrep|captured Hc].
  - unfold reports in Hrep. unfold seal_for_checkpoint, logged_dirty, gets, mbind, M_bind. cbn. by rewrite Hrep.
  - unfold seal_dirty_pages, get, lift, mbind, M_bind. cbn. rewrite (add_dirty_ok _ _ _ (captured_range _ Hc)).
    unfold captures in Hc. rewrite Hc. by rewrite (comm_L (∪)).
Qed.

Lemma seal_result seal w' r' res :
  gu_prep gu = None -> sealing gu seal -> seal (w, gu_ram gu) = ((w', r'), res) ->
  let D := gu_differs gu in let r := gu_ram gu in
  match res with
  | Ok _ => exists K', published (own_files r) (reverted r (still_lost gu)) K D w r K' (still_lost gu) w' r'
  | Err _ => exists K', ram_step (own_files r) ∅ K D w r K' D w' r'
  end.
Proof.
  intros Hp Hseal Hf D r. destruct Hfit as [Hgen Hids]. rewrite (sealing_pages seal Hseal) in Hf.
  assert (wp (seal_pages (host_dirty r ∪ gu_log gu))
    (fun _ s => exists K', published (own_files r) (reverted r (still_lost gu)) K D w r K' (still_lost gu) s.1 s.2)
    (fun _ s => exists K', ram_step (own_files r) ∅ K D w r K' D s.1 s.2) (w, r)) as Hwp.
  { rewrite <-(differs_left Hp). unfold seal_pages. apply wp_assoc. rewrite wp_bind.
    eapply wp_mono; [apply (wp_seal K D w r); [done|apply Hg|done|done|set_solver|apply host_dirty_range]| |done].
    intros b s [_ H]. exact H. }
  pose proof (wp_elim _ _ _ _ _ _ Hwp Hf) as H. by destruct res.
Qed.

Lemma prepare_result captured w' r' res :
  gu_prep gu = None -> captures captured (gu_log gu) ->
  prepare_fork captured (w, gu_ram gu) = ((w', r'), res) ->
  let D := gu_differs gu in let r := gu_ram gu in r' = r /\
  match res with
  | Ok prep => exists K', prepared_by (gu_log gu) K D w r K' w' prep
  | Err _ => exists K', ram_step (own_files r) ∅ K D w r K' D w' r
  end.
Proof.
  intros Hp Hc Hf D r. destruct Hfit as [Hgen Hids].
  pose proof (wp_prepare_fork K D w r captured HK (go_ram _ _ _ Hg) Hgen Hids) as Hwp.
  unfold captures in Hc. rewrite Hc in Hwp. pose proof (wp_elim _ _ _ _ _ _ Hwp Hf) as H.
  destruct res as [prep|e]; destruct H as (K' & w1 & [= <- ->] & H); split; eauto.
Qed.

(** The source of a fork whose branch was made and then given up. *)
Lemma publish_result prep captured w' r' branch :
  gu_prep gu = Some prep -> captures captured (gu_log gu) ->
  finish_prepared_branch prep captured (w, gu_ram gu) = ((w', r'), Ok branch) ->
  exists K', published (gu_owned gu) (reverted (gu_ram gu) (still_lost gu)) K (gu_differs gu) w (gu_ram gu) K' (still_lost gu) w' r'.
Proof.
  intros Hp Hc Hf. destruct Hfit as [Hgen Hids]. pose proof (captured_range _ Hc) as Hr. unfold captures in Hc.
  set (r := gu_ram gu). set (D := gu_differs gu).
  assert (gu_owned gu = own_files r ∪ prep_files prep) as -> by (unfold gu_owned, gu_prep_files; by rewrite Hp).
  assert (left_over D (gu_log gu ∪ host_dirty r) prep = still_lost gu) as Hleft.
  { unfold left_over, D, still_lost, gu_differs. rewrite Hp. cbn. fold r. set_solver. }
  unfold finish_prepared_branch, get, lift, mbind, M_bind in Hf. cbn in Hf. rewrite (add_dirty_ok _ _ _ Hr), Hc in Hf.
  pose proof (wp_finish K D w r (gu_log gu) prep (gu_log gu ∪ host_dirty r) HK (go_ram _ _ _ Hg) (go_prep _ _ _ Hg prep Hp)) as Hwp.
  rewrite Hleft in Hwp. eapply wp_elim in Hf; [|apply Hwp]; [destruct Hf as [_ HP]; exact HP|set_solver|set_solver| |done].
  intros i Hi. apply host_dirty_range. set_solver.
Qed.

Lemma finish_result prep captured w' r' res :
  gu_prep gu = Some prep -> captures captured (gu_log gu) ->
  finish_fork prep captured (w, gu_ram gu) = ((w', r'), res) ->
  let D := gu_differs gu in let r := gu_ram gu in
  match res with
  | Ok child => exists K', forked (gu_owned gu) K D (reverted r (still_lost gu)) (still_lost gu) w r K' w' r' child
  | Err _ => exists K', ram_step (gu_owned gu) (reverted r (still_lost gu)) K D w r K' D w' r'
  end.
Proof.
  intros Hp Hc Hf D r. destruct Hfit as [Hgen Hids]. unfold captures in Hc.
  assert (gu_owned gu = own_files r ∪ prep_files prep) as -> by (unfold gu_owned, gu_prep_files; by rewrite Hp).
  assert (left_over D (gu_log gu ∪ host_dirty r) prep = still_lost gu) as Hleft.
  { unfold left_over, D, still_lost, gu_differs. rewrite Hp. cbn. fold r. set_solver. }
  assert (wp (finish_fork prep captured)
    (fun child s => exists K', forked (own_files r ∪ prep_files prep) K D (reverted r (still_lost gu)) (still_lost gu) w r K' s.1 s.2 child)
    (fun _ s => exists K', ram_step (own_files r ∪ prep_files prep) (reverted r (still_lost gu)) K D w r K' D s.1 s.2) (w, r)) as Hwp.
  { unfold finish_fork, finish_prepared_branch. wp_steps. cbn [snd].
    rewrite add_dirty_ok, Hc by (by apply captured_range).
    rewrite <-Hleft. rewrite <-wp_bind.
    apply (wp_finish_fork K D w r (gu_log gu)); [done|apply Hg|by apply Hg|set_solver|set_solver| |done].
    intros i Hi. apply host_dirty_range. set_solver. }
  pose proof (wp_elim _ _ _ _ _ _ Hwp Hf) as H. by destruct res.
Qed.
End results.

(** ** The invariant holds *)

Lemma new_guest_ok K w r D : D ⊆ ∅ -> ram_ok K (rm_storage w) D r -> guest_ok K w (gu_new r).
Proof.
  intros HD Hok. split; cbn; [|set_solver|done]. eapply ram_ok_weaken; [|exact Hok]. unfold gu_differs. cbn. set_solver.
Qed.

(** A fork that succeeded adds the child. *)
Lemma forked_system K w G k j gu V K' w' r' child :
  system_ok K (mkRamSystem w G) -> G !! k = Some gu -> G !! j = None -> quiet_but k G ->
  forked (gu_owned gu) K (gu_differs gu) V (still_lost gu) w (gu_ram gu) K' w' r' child ->
  system_ok K' (mkRamSystem w' (<[j := gu_new child]> (<[k := gu_copied r' gu]> G))).
Proof.
  intros Hsys Hk Hj Hq F. destruct (fk_source _ _ _ _ _ _ _ _ _ _ _ F) as (S & Hs & _).
  assert (k <> j) as Hkj by congruence.
  destruct (files_of_step _ _ _ _ _ _ _ _ _ _ ∅ (still_lost gu) S (reflexivity _)) as [Hu Ho].
  assert (system_ok K' (mkRamSystem w' (<[k := gu_copied r' gu]> G))) as Hsys1.
  { eapply (replace_ok K w G k gu Hsys Hk); [done|apply S|done|apply S|apply S| |done|done].
    eapply guest_of_step; [exact S| |]; set_solver. }
  apply insert_ok; [done|by rewrite lookup_insert_ne|eapply new_guest_ok; [reflexivity|apply F]|].
  intros i gi Hi. split.
  - destruct (decide (i = k)) as [->|Hik].
    + rewrite lookup_insert_eq in Hi. injection Hi as <-. unfold gu_owned, own_files, gu_prep_files. cbn. rewrite Hs. set_solver.
    + pose proof (so_apart _ _ Hsys1 i k gi (gu_copied r' gu) Hik Hi (lookup_insert_eq _ _ _)) as Hap.
      intros f Hf Hf'. apply (Hap f Hf). unfold gu_used, gu_prep_files in *. cbn in *.
      rewrite (right_id_L ∅ (∪)) in *. by apply (fk_files _ _ _ _ _ _ _ _ _ _ _ F).
  - unfold gu_owned, own_files, gu_prep_files. cbn. rewrite (fk_sealed _ _ _ _ _ _ _ _ _ _ _ F). set_solver.
Qed.

(** Any other operation on one guest. *)
Lemma stepped_system K w G k gu V K' D' w' r' log lost :
  system_ok K (mkRamSystem w G) -> G !! k = Some gu -> quiet_but k G ->
  ram_step (gu_owned gu) V K (gu_differs gu) w (gu_ram gu) K' D' w' r' -> D' ⊆ log ∪ lost ->
  (forall i, i ∈ log -> i < length (pages (gu_ram gu)))%nat ->
  system_ok K' (mkRamSystem w' (<[k := mkGuest r' log lost None]> G)).
Proof.
  intros Hsys Hk Hq S HD Hl. destruct (files_of_step _ _ _ _ _ _ _ _ _ _ log lost S (reflexivity _)) as [Hu Ho].
  eapply (replace_ok K w G k gu Hsys Hk); [done|apply S|done|apply S|apply S| |done|done].
  eapply guest_of_step; [exact S|done|]. intros i Hi. rewrite (rs_count _ _ _ _ _ _ _ _ _ _ S). by apply Hl.
Qed.

Lemma ram_step_owned V K D w gu K' D' w' r' :
  ram_step (own_files (gu_ram gu)) V K D w (gu_ram gu) K' D' w' r' ->
  ram_step (gu_owned gu) V K D w (gu_ram gu) K' D' w' r'.
Proof. apply ram_step_mono; [apply union_subseteq_l|done|done]. Qed.

Lemma forked_owned K D V D' w gu K' w' r' child :
  forked (own_files (gu_ram gu)) K D V D' w (gu_ram gu) K' w' r' child ->
  forked (gu_owned gu) K D V D' w (gu_ram gu) K' w' r' child.
Proof. intros F. destruct (fk_source _ _ _ _ _ _ _ _ _ _ _ F) as (S & ?). split; try apply F. split; [by apply ram_step_owned|done]. Qed.

Lemma stored_step K D w r off bytes :
  registry w K -> ram_ok K (rm_storage w) D r -> off + lenN bytes <= ram_len r ->
  ram_step ∅ (list_to_set (touched_pages off (lenN bytes))) K D w r K
    (D ∪ list_to_set (touched_pages off (lenN bytes))) w (stored (rm_storage w) r off bytes).
Proof.
  intros HK Hok Hin. split; [apply grows_refl|done|done|by apply stored_ok|reflexivity|reflexivity| | |done].
  - intros i Hi. rewrite (stored_view K (rm_storage w) D); [done|done|done|]. set_solver.
  - intros f Hf. left. by eapply stored_files.
Qed.

Lemma touched_range K st D r off n i :
  ram_ok K st D r -> off + n <= ram_len r -> i ∈ touched_pages off n -> (i < length (pages r))%nat.
Proof.
  intros Hok Hin (a & Ha & <-)%touched_spec. assert (a < ram_len r) as Hlt by lia.
  rewrite (ok_len _ _ _ _ Hok), N.mul_comm in Hlt. apply N.Div0.div_lt_upper_bound in Hlt. unfold lenN in Hlt. lia.
Qed.

(** A guest writes; a preparation in progress stays one. *)
Lemma guest_write_ok K w G k gu off bytes :
  system_ok K (mkRamSystem w G) -> G !! k = Some gu -> off + lenN bytes <= ram_len (gu_ram gu) ->
  let T := list_to_set (touched_pages off (lenN bytes)) in
  system_ok K (mkRamSystem w (<[k := mkGuest (stored (rm_storage w) (gu_ram gu) off bytes) (gu_log gu ∪ T) (gu_lost gu) (gu_prep gu)]> G)).
Proof.
  intros Hsys Hk Hin T. pose proof (so_guests _ _ Hsys k gu Hk) as Hg.
  pose proof (stored_step K _ w _ off bytes (so_registry _ _ Hsys) (go_ram _ _ _ Hg) Hin) as S. fold T in S.
  set (gu' := mkGuest _ _ _ _).
  assert (gu_owned gu' = gu_owned gu) as Ho by done.
  assert (gu_used gu' ⊆ gu_used gu) as Hu.
  { apply union_mono_r. eapply stored_files; [apply Hg|done]. }
  split; cbn; [apply Hsys| |].
  - intros j gj [[<- <-]|[_ Hj]]%lookup_insert_Some; [|by apply (so_guests _ _ Hsys j)]. split; cbn.
    + eapply ram_ok_weaken; [|apply S]. unfold gu_differs. cbn. set_solver.
    + intros i [Hi|Hi]%elem_of_union; [by apply (go_log _ _ _ Hg)|]. apply elem_of_list_to_set in Hi.
      eapply touched_range; [apply Hg|exact Hin|exact Hi].
    + intros prep Hp. pose proof (go_prep _ _ _ Hg prep Hp) as Hpo. unfold prep_ok in *.
      destruct (seals_existing_generation prep); [exact Hpo|]. destruct Hpo as (H1 & H2 & H3 & H4 & H5 & H6 & H7).
      split_and!; [exact H1| |exact H3|exact H4|exact H5|exact H6|].
      * intros Hf. apply H2. eapply stored_files; [apply Hg|exact Hin|exact Hf].
      * intros i p Hip. destruct (H7 i p Hip) as [Hi Hh]. split; [exact Hi|]. intros Hl Hd. unfold holds.
        rewrite (rs_views _ _ _ _ _ _ _ _ _ _ S i) by set_solver. apply Hh; [set_solver|exact Hd].
  - intros i j gi gj Hij [[<- <-]|[_ Hi]]%lookup_insert_Some [[<- <-]|[_ Hj]]%lookup_insert_Some; [done| | |].
    + rewrite Ho. by apply (so_apart _ _ Hsys k j).
    + intros f Hf Hf'. apply (so_apart _ _ Hsys i k gi gu Hij Hi Hk f Hf). by apply Hu.
    + by apply (so_apart _ _ Hsys i j).
Qed.

(** The host writes. *)
Definition in_range r off n : bool := (off + n <=? ram_len r) && (off + n <=? u64_MAX).
Definition marked st r off bytes : KvmGuestRam :=
  set_host_dirty (host_dirty r ∪ list_to_set (touched_pages off (lenN bytes))) (stored st r off bytes).

Lemma run_write K w D r off bytes :
  ram_ok K (rm_storage w) D r ->
  write off bytes (w, r) =
    if in_range r off (lenN bytes) then ((w, marked (rm_storage w) r off bytes), Ok tt)
    else ((w, r), Err (RamRange off (lenN bytes))).
Proof.
  intros Hok. unfold write, get, lift, mbind, M_bind. cbn [fst snd]. rewrite checked_range_spec. fold (in_range r off (lenN bytes)).
  destruct (in_range r off (lenN bytes)) eqn:Hin; [|done]. cbn [fst].
  rewrite (run_store K (rm_storage w) D r off bytes Hok w eq_refl). reflexivity.
Qed.

Lemma marked_step K D w r off bytes :
  registry w K -> ram_ok K (rm_storage w) D r -> off + lenN bytes <= ram_len r ->
  ram_step ∅ (list_to_set (touched_pages off (lenN bytes))) K D w r K D w (marked (rm_storage w) r off bytes).
Proof.
  intros HK Hok Hin. pose proof (stored_step K D w r off bytes HK Hok Hin) as [S1 S2 S3 S4 S5 S6 S7 S8 S9].
  split; try done. split; try apply S4.
  - intros i [Hi|Hi]%elem_of_union; [by apply (ok_dirty _ _ _ _ Hok)|]. apply elem_of_list_to_set in Hi.
    exact (touched_range _ _ _ _ _ _ _ Hok Hin Hi).
  - intros i m p Hm Hp Hh HD. cbn in Hh. apply (ok_clean _ _ _ _ S4 i); [done|done|cbn; set_solver|set_solver].
Qed.

Lemma in_range_le r off n : in_range r off n = true -> off + n <= ram_len r.
Proof. unfold in_range. intros [H%N.leb_le _]%andb_true_iff. exact H. Qed.

Lemma host_write_ok K w G k gu off bytes w' r' res :
  system_ok K (mkRamSystem w G) -> quiet G -> G !! k = Some gu -> write off bytes (w, gu_ram gu) = ((w', r'), res) ->
  w' = w /\ system_ok K (mkRamSystem w (<[k := mkGuest r' (gu_log gu) (gu_lost gu) None]> G)).
Proof.
  intros Hsys Hq Hk Hw. pose proof (so_guests _ _ Hsys k gu Hk) as Hg. cbn in Hg. pose proof (Hq k gu Hk) as Hp.
  rewrite (run_write K _ _ _ _ _ (go_ram _ _ _ Hg)) in Hw. assert (gu_differs gu ⊆ gu_log gu ∪ gu_lost gu) as HD.
  { unfold gu_differs. rewrite Hp. set_solver. }
  destruct (in_range _ _ _) eqn:Hin; injection Hw as <- <- _; (split; [done|]).
  - apply in_range_le in Hin. eapply stepped_system; [done|done|by apply quiet_but_quiet| |exact HD|apply Hg].
    eapply ram_step_mono; [|reflexivity|reflexivity|by apply marked_step; [apply Hsys|apply Hg|]]. set_solver.
  - eapply stepped_system; [done|done|by apply quiet_but_quiet| |exact HD|apply Hg].
    apply ram_step_refl; [apply Hsys|apply Hg].
Qed.

(** A guest whose operation failed keeps all that may differ as lost. *)
Lemma failed_system K w G k gu V K' w' r' :
  system_ok K (mkRamSystem w G) -> G !! k = Some gu -> quiet_but k G ->
  ram_step (gu_owned gu) V K (gu_differs gu) w (gu_ram gu) K' (gu_differs gu) w' r' ->
  system_ok K' (mkRamSystem w' (<[k := gu_failed r' gu]> G)).
Proof. intros Hsys Hk Hq S. eapply stepped_system; [done|done|done|exact S|set_solver|set_solver]. Qed.

(** A preparation was made. *)
Lemma prepared_system K w G k gu K' w' prep :
  system_ok K (mkRamSystem w G) -> quiet G -> G !! k = Some gu ->
  prepared_by (gu_log gu) K (gu_differs gu) w (gu_ram gu) K' w' prep ->
  system_ok K' (mkRamSystem w' (<[k := mkGuest (gu_ram gu) ∅ (gu_lost gu) (Some prep)]> G)).
Proof.
  intros Hsys Hq Hk P. pose proof (so_guests _ _ Hsys k gu Hk) as Hg. cbn in Hg.
  pose proof (Hq k gu Hk) as Hp. pose proof (pb_step _ _ _ _ _ _ _ _ P) as S.
  destruct (files_of_step _ _ _ _ _ _ _ _ _ _ ∅ (gu_lost gu) S) as [Hu Ho]; [apply union_subseteq_l|].
  eapply (replace_ok K w G k gu Hsys Hk); [by apply quiet_but_quiet|apply S|apply union_subseteq_l|apply S|apply S| | |].
  - split; cbn; [|set_solver|intros ? [= <-]; apply P]. eapply ram_ok_weaken; [|apply S].
    unfold gu_differs. cbn. rewrite (pb_pages _ _ _ _ _ _ _ _ P), Hp. cbn. destruct (sealed _); set_solver.
  - intros f [Hf|Hf]%elem_of_union; [apply Hu; by apply elem_of_union_l|right; by apply P].
  - intros f [Hf|Hf]%elem_of_union; [apply Ho; by apply elem_of_union_l|right; by apply P].
Qed.

(** The files guests own after a transition were owned before or are new. *)
Definition owns w G G' : Prop := forall j gj f, G' !! j = Some gj -> f ∈ gu_owned gj ->
  (exists i gi, G !! i = Some gi /\ f ∈ gu_owned gi) \/ sto_next (rm_storage w) <= f.

Lemma owns_refl w G : owns w G G.
Proof. intros j gj f Hj Hf. left. eauto. Qed.

Lemma owns_insert w G G' k gu' :
  owns w G G' ->
  (forall f, f ∈ gu_owned gu' -> (exists i gi, G !! i = Some gi /\ f ∈ gu_owned gi) \/ sto_next (rm_storage w) <= f) ->
  owns w G (<[k := gu']> G').
Proof. intros HG Hg j gj f [[<- <-]|[_ Hj]]%lookup_insert_Some Hf; [by apply Hg|by eapply HG]. Qed.

(** What a transition does to the files: the actor's own, and new ones. *)
Definition acts k s s' : Prop :=
  exists Y, grows Y (rm_storage (sm_world s)) (rm_storage (sm_world s')) /\
    (quiet_but k (sm_guests s) \/ sm_world s' = sm_world s) /\
    (forall gu, sm_guests s !! k = Some gu -> Y ⊆ gu_owned gu) /\
    (sm_guests s !! k = None -> Y = ∅) /\ owns (sm_world s) (sm_guests s) (sm_guests s').

Lemma acts_on k w G gu w' G' Y :
  G !! k = Some gu -> quiet_but k G -> grows Y (rm_storage w) (rm_storage w') -> Y ⊆ gu_owned gu -> owns w G G' ->
  acts k (mkRamSystem w G) (mkRamSystem w' G').
Proof.
  intros Hk Hq Gr HY Ho. exists Y. cbn. split_and!; [done|by left| |congruence|done].
  intros gu0 Hk0. rewrite Hk0 in Hk. by injection Hk as ->.
Qed.

Lemma acts_still k w G G' : owns w G G' -> acts k (mkRamSystem w G) (mkRamSystem w G').
Proof. intros Ho. exists ∅. split_and!; [apply grows_refl|by right|set_solver|done|done]. Qed.

Lemma step_acts k w G gu V K D K' D' w' r' log lost :
  G !! k = Some gu -> quiet_but k G -> ram_step (gu_owned gu) V K D w (gu_ram gu) K' D' w' r' ->
  acts k (mkRamSystem w G) (mkRamSystem w' (<[k := mkGuest r' log lost None]> G)).
Proof.
  intros Hk Hq S. eapply acts_on; [exact Hk|exact Hq|apply S|done|]. apply owns_insert; [apply owns_refl|].
  destruct (files_of_step _ _ _ _ _ _ _ _ _ _ log lost S (reflexivity _)) as [_ Ho].
  intros f Hf. destruct (Ho f Hf); [left; eauto|by right].
Qed.

Lemma child_acts k s w' G' j child :
  acts k s (mkRamSystem w' G') -> sealed child = true -> acts k s (mkRamSystem w' (<[j := gu_new child]> G')).
Proof.
  intros (Y & H1 & H2 & H3 & H4 & H5) Hs. exists Y. split_and!; [done..|]. apply owns_insert; [done|].
  intros f. unfold gu_owned, own_files, gu_prep_files. cbn. rewrite Hs. set_solver.
Qed.

Lemma prepared_acts k w G gu X D K K' w' prep :
  G !! k = Some gu -> quiet G -> prepared_by X K D w (gu_ram gu) K' w' prep ->
  acts k (mkRamSystem w G) (mkRamSystem w' (<[k := mkGuest (gu_ram gu) ∅ (gu_lost gu) (Some prep)]> G)).
Proof.
  intros Hk Hq P. pose proof (pb_step _ _ _ _ _ _ _ _ P) as S.
  eapply acts_on; [exact Hk|by apply quiet_but_quiet|apply S|apply union_subseteq_l|].
  apply owns_insert; [apply owns_refl|]. intros f [Hf|Hf]%elem_of_union.
  - left. exists k, gu. split; [done|]. by apply elem_of_union_l.
  - right. by apply P.
Qed.

(** A new RAM, or what its failure leaves. *)
Lemma new_system K w G k len w' res :
  system_ok K (mkRamSystem w G) -> quiet G -> G !! k = None -> fits w (len / PAGE_SIZE) -> new len w = (w', res) ->
  acts k (mkRamSystem w G) (mkRamSystem w' (match res with Ok r => <[k := gu_new r]> G | Err _ => G end)) /\
  exists K', K ⊆ K' /\ system_ok K' (mkRamSystem w' (match res with Ok r => <[k := gu_new r]> G | Err _ => G end)).
Proof.
  intros Hsys Hq Hk [H1 H2] Hn.
  pose proof (wp_elim _ _ _ _ _ _ (wp_new K len w (so_registry _ _ Hsys) H1 H2) Hn) as H.
  assert (exists K', K ⊆ K' /\ registry w' K' /\ grows ∅ (rm_storage w) (rm_storage w')) as (K0 & HK0 & _ & Gr).
  { destruct res; [destruct H as (K' & ? & ? & ? & _)|destruct H as (K' & ? & ? & ?)]; eauto. }
  split.
  { exists ∅. cbn. split_and!; [done|left; by apply quiet_but_quiet|set_solver|done|]. destruct res as [r|e]; [|apply owns_refl].
    apply owns_insert; [apply owns_refl|]. destruct H as (_ & _ & _ & _ & _ & _ & _ & Hf). intros f [Hfr|Hfr]%elem_of_union.
    - right. apply Hf. by apply own_files_sub.
    - cbn in Hfr. set_solver. }
  assert (forall K', K ⊆ K' -> registry w' K' -> system_ok K' (mkRamSystem w' G)) as Hsame.
  { intros K' HK Hr. split; cbn; [done| |apply (so_apart _ _ Hsys)]. intros j gj Hj.
    apply (guest_frame K K' w w' ∅); [by apply (so_guests _ _ Hsys j)|by eapply Hq|done|done|set_solver]. }
  destruct res as [r|e].
  - destruct H as (K' & HK & Hr & _ & Hok & _ & _ & Hf). exists K'. split; [done|].
    assert (forall f, f ∈ gu_used (gu_new r) -> sto_next (rm_storage w) <= f) as Hfresh.
    { intros f [Hfr|Hfr]%elem_of_union; [by apply Hf|]. cbn in Hfr. set_solver. }
    assert (forall i gi f, G !! i = Some gi -> f ∈ gu_used gi -> f < sto_next (rm_storage w)) as Hold.
    { intros i gi f Hi. apply (used_below K). by apply (so_guests _ _ Hsys i). }
    apply insert_ok; [by apply Hsame|done|by eapply new_guest_ok|].
    assert (forall gi, gu_owned gi ⊆ gu_used gi) as Hou.
    { intros gi. apply union_mono_r, own_files_sub. }
    intros i gi Hi. split; intros f Hf1 Hf2.
    + apply Hou in Hf1. pose proof (Hold i gi f Hi Hf1). pose proof (Hfresh f Hf2). lia.
    + apply Hou in Hf1. pose proof (Hold i gi f Hi Hf2). pose proof (Hfresh f Hf1). lia.
  - destruct H as (K' & HK & Hr & _). exists K'. split; [done|]. by apply Hsame.
Qed.

Lemma forked_known Y K D V D' w r K' w' r' child : forked Y K D V D' w r K' w' r' child -> K ⊆ K'.
Proof. intros F. apply (fk_source _ _ _ _ _ _ _ _ _ _ _ F). Qed.

(** Every transition keeps the invariant. *)
Lemma trans_ok K k s s' : system_ok K s -> ram_trans k s s' -> (exists K', K ⊆ K' /\ system_ok K' s') /\ acts k s s'.
Proof.
  intros Hsys Ht. destruct Ht as [k w G len w' res Hq Hk Hf Hn|k w G gu off bytes w' r' Hk Hin Hst|
    k w G gu off bytes w' r' res Hq Hk Hw|k j w G gu bitmap w' r' res Hq Hk Hj Hf Hrep Hop|
    k w G gu captured w' r' res Hq Hk Hf Hc Hop|k j w G gu prep captured w' r' res Hq Hk Hj Hp Hf Hc Hop|
    k w G gu Hq Hk|k w G gu L Hq Hk HL|k w G gu L Hq Hk HL|k w G gu prep captured w' r' branch Hq Hk Hp Hf Hc Hop|
    k w G gu seal w' r' res Hq Hk Hf Hseal Hop|k w G Hq].
  - destruct (new_system _ _ _ _ _ _ _ Hsys Hq Hk Hf Hn) as [Ha HK]. by split.
  - pose proof (so_guests _ _ Hsys k gu Hk) as Hg. cbn in Hg.
    rewrite (run_store K (rm_storage w) (gu_differs gu)) in Hst; [|apply Hg|done]. injection Hst as <- <-.
    split; [exists K; split; [done|by apply guest_write_ok]|].
    apply acts_still, owns_insert; [apply owns_refl|]. left. eauto.
  - destruct (host_write_ok _ _ _ _ _ _ _ _ _ _ Hsys Hq Hk Hw) as [-> H]. split; [by exists K|].
    pose proof (so_guests _ _ Hsys k gu Hk) as Hg. cbn in Hg. rewrite (run_write K _ _ _ _ _ (go_ram _ _ _ Hg)) in Hw.
    apply acts_still, owns_insert; [apply owns_refl|]. intros f Hf. left. exists k, gu. split; [done|].
    unfold gu_owned, gu_prep_files in *. rewrite (Hq k gu Hk). by destruct (in_range _ _ _); injection Hw as <- _.
  - pose proof (so_guests _ _ Hsys k gu Hk) as Hg. cbn in Hg. pose proof (quiet_but_quiet k G Hq) as Hqb.
    pose proof (fork_result _ _ _ (so_registry _ _ Hsys) Hg Hf _ _ _ _ (Hq k gu Hk) Hrep Hop) as H.
    destruct res as [child|e]; destruct H as [K' H].
    + apply forked_owned in H. split; [exists K'; split; [by eapply forked_known|by eapply forked_system]|]. apply child_acts; [|apply H].
      eapply step_acts; [done|done|apply H].
    + apply ram_step_owned in H. split; [exists K'; split; [apply H|by eapply failed_system]|]. by eapply step_acts.
  - pose proof (so_guests _ _ Hsys k gu Hk) as Hg. cbn in Hg. pose proof (quiet_but_quiet k G Hq) as Hqb.
    destruct (prepare_result _ _ _ (so_registry _ _ Hsys) Hg Hf _ _ _ _ (Hq k gu Hk) Hc Hop) as [-> H].
    destruct res as [prep|e]; destruct H as [K' H].
    + split; [exists K'; split; [apply (pb_step _ _ _ _ _ _ _ _ H)|by eapply prepared_system]|by eapply prepared_acts].
    + apply ram_step_owned in H. split; [exists K'; split; [apply H|by eapply failed_system]|]. by eapply step_acts.
  - pose proof (so_guests _ _ Hsys k gu Hk) as Hg. cbn in Hg.
    pose proof (finish_result _ _ _ (so_registry _ _ Hsys) Hg Hf _ _ _ _ _ Hp Hc Hop) as H.
    destruct res as [child|e]; destruct H as [K' H].
    + split; [exists K'; split; [by eapply forked_known|by eapply forked_system]|]. apply child_acts; [|apply H]. eapply step_acts; [done|done|apply H].
    + split; [exists K'; split; [apply H|by eapply failed_system]|]. by eapply step_acts.
  - pose proof (so_guests _ _ Hsys k gu Hk) as Hg. cbn in Hg.
    split; [|eapply step_acts; [done|done|apply ram_step_refl; [apply Hsys|apply Hg]]]. exists K. split; [done|].
    eapply stepped_system; [done|done|done|apply ram_step_refl; [apply Hsys|apply Hg]|set_solver|apply Hg].
  - pose proof (so_guests _ _ Hsys k gu Hk) as Hg. cbn in Hg.
    split; [|eapply step_acts; [done|done|apply ram_step_refl; [apply Hsys|apply Hg]]]. exists K. split; [done|].
    eapply stepped_system; [done|done|done|apply ram_step_refl; [apply Hsys|apply Hg]|set_solver|]. intros i Hi. apply (go_log _ _ _ Hg). by apply HL.
  - pose proof (so_guests _ _ Hsys k gu Hk) as Hg. cbn in Hg. pose proof (quiet_but_quiet k G Hq) as Hqb.
    split; [|eapply step_acts; [done|done|apply ram_step_refl; [apply Hsys|apply Hg]]]. exists K. split; [done|].
    eapply stepped_system; [done|done|done|apply ram_step_refl; [apply Hsys|apply Hg]| |].
    + unfold gu_differs. rewrite (Hq k gu Hk). cbn. set_solver.
    + intros i [Hi|Hi]%elem_of_union; [by apply (go_log _ _ _ Hg)|by apply HL].
  - pose proof (so_guests _ _ Hsys k gu Hk) as Hg. cbn in Hg.
    destruct (publish_result _ _ _ (so_registry _ _ Hsys) Hg Hf _ _ _ _ _ Hp Hc Hop) as (K' & S & _).
    split; [|by eapply step_acts]. exists K'. split; [apply S|]. eapply stepped_system; [done|done|done|exact S|set_solver|set_solver].
  - pose proof (so_guests _ _ Hsys k gu Hk) as Hg. cbn in Hg. pose proof (quiet_but_quiet k G Hq) as Hqb.
    pose proof (seal_result _ _ _ (so_registry _ _ Hsys) Hg Hf _ _ _ _ (Hq k gu Hk) Hseal Hop) as H.
    destruct res as [[]|e]; destruct H as [K' H].
    + destruct H as [H _]. apply ram_step_owned in H. split; [|by eapply step_acts]. exists K'. split; [apply H|].
      eapply stepped_system; [done|done|done|exact H|set_solver|set_solver].
    + apply ram_step_owned in H. split; [exists K'; split; [apply H|by eapply failed_system]|]. by eapply step_acts.
  - split; [|apply acts_still; intros j gj f [_ Hj]%lookup_delete_Some Hf; left; eauto]. exists K. split; [done|]. split; cbn; [apply Hsys| |].
    + intros j gj [_ Hj]%lookup_delete_Some. by apply (so_guests _ _ Hsys j).
    + intros i j gi gj Hij [_ Hi]%lookup_delete_Some [_ Hj]%lookup_delete_Some. by apply (so_apart _ _ Hsys i j).
Qed.

Lemma ram_reachable_ok s : ram_reachable s -> exists K, system_ok K s.
Proof.
  induction 1 as [sched|k s s' _ [K IH] Ht].
  2:{ destruct (trans_ok K k s s' IH Ht) as [(K' & _ & H) _]. by exists K'. }
  exists []. split; cbn; [|set_solver|set_solver]. split; cbn; try set_solver; lia.
Qed.

(** ** Guest RAM: how many numbers an operation uses

    Generations and page objects are numbered by two counters.  [costs g p m]:
    [m] uses at most [g] generation numbers and [p] page numbers, so a run of
    operations that together fit never meets the end of a counter. *)

(** The counters moved at most so far. *)
Definition spent (g p : N) (w w' : RamWorld) : Prop :=
  next_generation_id w' <= next_generation_id w + g /\ next_page_id w' <= next_page_id w + p.

Definition costs {A} (g p : N) (m : R A) : Prop := forall s, spent g p s.1 (m s).1.1.
Definition costs_world {A} (g p : N) (m : RW A) : Prop := forall w, spent g p w (m w).1.

(** Room for [g] generations and [p] pages. *)
Definition room (g p : N) (w : RamWorld) : Prop :=
  next_generation_id w + g <= u64_MAX /\ next_page_id w + p <= u64_MAX.

Lemma room_fits g p n w : room g p w -> 1 <= g -> n <= p -> fits w n.
Proof. intros [] ? ?. split; lia. Qed.

Lemma room_spent g p g' p' w w' : room g p w -> spent g' p' w w' -> g' <= g -> p' <= p -> room (g - g') (p - p') w'.
Proof. intros [] [] ? ?. split; lia. Qed.

Lemma spent_mono g p g' p' w w' : spent g p w w' -> g <= g' -> p <= p' -> spent g' p' w w'.
Proof. intros [] ? ?. split; lia. Qed.

Section costs.
Context {A B : Type}.

Lemma costs_bind g p g' p' (m : R A) (f : A -> R B) :
  costs g p m -> (forall a, costs g' p' (f a)) -> costs (g + g') (p + p') (m ≫= f).
Proof.
  intros Hm Hf s. specialize (Hm s). unfold mbind, M_bind. destruct (m s) as [s' [a|e]]; cbn in *.
  - destruct Hm, (Hf a s'). split; lia.
  - eapply spent_mono; [exact Hm|lia|lia].
Qed.

Lemma costs_world_bind g p g' p' (m : RW A) (f : A -> RW B) :
  costs_world g p m -> (forall a, costs_world g' p' (f a)) -> costs_world (g + g') (p + p') (m ≫= f).
Proof.
  intros Hm Hf s. specialize (Hm s). unfold mbind, M_bind. destruct (m s) as [s' [a|e]]; cbn in *.
  - destruct Hm, (Hf a s'). split; lia.
  - eapply spent_mono; [exact Hm|lia|lia].
Qed.

Lemma costs_on_world g p (m : RW A) : costs_world g p m -> costs g p (on_world m).
Proof. intros Hm [w r]. specialize (Hm w). unfold on_world, zoom. cbn. by destruct (m w). Qed.

Lemma costs_mono g p g' p' (m : R A) : costs g p m -> g <= g' -> p <= p' -> costs g' p' m.
Proof. intros Hm Hg Hp s. by eapply spent_mono. Qed.

Lemma costs_then g p g' p' (gs ps : N) (m : R A) (f : A -> R B) :
  costs g p m -> (forall a, costs g' p' (f a)) -> g + g' <= gs -> p + p' <= ps -> costs gs ps (m ≫= f).
Proof. intros Hm Hf Hg Hp s. eapply spent_mono; [by apply costs_bind|done|done]. Qed.

Lemma costs_ret (a : A) : costs 0 0 (mret a).
Proof. intros s. split; cbn; lia. Qed.
Lemma costs_throw (e : VmmError) : costs (A := A) 0 0 (throw e).
Proof. intros s. split; cbn; lia. Qed.
Lemma costs_lift (r : result VmmError A) : costs 0 0 (lift r).
Proof. intros s. split; cbn; lia. Qed.
Lemma costs_sys op (m : SIO A) : costs_world 0 0 (sys op m).
Proof. intros w. unfold sys, zoom, with_err. destruct (m (rm_storage w)). split; cbn; lia. Qed.
End costs.

Lemma costs_get : costs 0 0 get.
Proof. intros s. split; cbn; lia. Qed.
Lemma costs_gets {A} (f : RamWorld * KvmGuestRam -> A) : costs 0 0 (gets f).
Proof. intros s. split; cbn; lia. Qed.
Lemma costs_on_ram f : costs 0 0 (on_ram f).
Proof. intros s. split; cbn; lia. Qed.

(** A computation without cost, step by step. *)
Ltac free_step :=
  lazymatch goal with
  | |- costs 0 0 (mbind _ _) => apply (costs_bind 0 0 0 0); [|intros ?]
  | |- costs_world 0 0 (mbind _ _) => apply (costs_world_bind 0 0 0 0); [|intros ?]
  | |- costs 0 0 (mret _) => apply costs_ret
  | |- costs 0 0 (throw _) => apply costs_throw
  | |- costs 0 0 (lift _) => apply costs_lift
  | |- costs 0 0 get => apply costs_get
  | |- costs 0 0 (gets _) => apply costs_gets
  | |- costs 0 0 (on_ram _) => apply costs_on_ram
  | |- costs 0 0 (on_world _) => apply costs_on_world
  | |- costs_world 0 0 (sys _ _) => apply costs_sys
  | |- costs_world 0 0 (mret _) => intros ?; split; cbn; lia
  | |- costs_world 0 0 (throw _) => intros ?; split; cbn; lia
  | |- costs _ _ (match ?x with _ => _ end) => destruct x
  | |- costs_world _ _ (match ?x with _ => _ end) => destruct x
  end.
Ltac free_steps := repeat (free_step; cbv beta zeta).

Lemma costs_copy_page i f off : costs 0 0 (copy_page_to i f off).
Proof.
  unfold copy_page_to. free_steps. generalize page_nat as fuel; intros fuel.
  generalize 0 at 3. induction fuel as [|fuel IH]; intros written; cbn [copy_rounds]; free_steps; auto.
Qed.

Lemma costs_for_each {A} (f : A -> R unit) l : (forall a, costs 0 0 (f a)) -> costs 0 0 (for_each f l).
Proof. intros Hf. induction l as [|a l IH]; cbn; free_steps; auto. Qed.

Lemma costs_copy_home i : costs 0 0 (copy_home i).
Proof. unfold copy_home. free_steps. apply costs_copy_page. Qed.

Lemma costs_map_run start count g off priv : costs 0 0 (map_run start count g off priv).
Proof. unfold map_run. free_steps. Qed.

Lemma costs_map_all priv : costs 0 0 (map_all_pages priv).
Proof.
  unfold map_all_pages. free_steps. generalize (length (pages a.2)) as fuel, 0%nat. intros fuel.
  induction fuel as [|fuel IH]; intros n; cbn [map_all_rounds]; free_steps; auto using costs_map_run.
Qed.

Lemma costs_map_selected sel priv : costs 0 0 (map_selected_pages sel priv).
Proof.
  unfold map_selected_pages. generalize (size sel) as fuel, (btree_elems sel) as l. intros fuel.
  induction fuel as [|fuel IH]; intros l; cbn [map_selected_rounds]; free_steps; auto using costs_map_run.
Qed.

Lemma wrapping_add_grows a b : wrapping_add a b <= a + b.
Proof. unfold wrapping_add. apply N.Div0.mod_le. Qed.

Lemma costs_new_page g off : costs 0 1 (on_world (new_page g off)).
Proof.
  apply costs_on_world. intros w. unfold new_page, mbind, M_bind. split; cbn; [lia|]. apply wrapping_add_grows.
Qed.

Lemma costs_zeroed len : costs 1 0 (on_world (zeroed len)).
Proof.
  apply costs_on_world. unfold zeroed. apply (costs_world_bind 0 0 1 0); [apply costs_sys|]. intros file.
  apply (costs_world_bind 0 0 1 0); [apply costs_sys|]. intros _ w. unfold mbind, M_bind. split; cbn; [apply wrapping_add_grows|lia].
Qed.

Lemma costs_prepare_pages g (n : nat) l prepared : costs 0 (lenN l) (prepare_pages g n l prepared).
Proof.
  revert n prepared. induction l as [|i l IH]; intros n prepared; cbn [prepare_pages]; [apply costs_ret|].
  apply (costs_then 0 0 0 (1 + lenN l)); [apply costs_copy_page|intros _|lia|unfold lenN; cbn [length]; lia].
  apply (costs_then 0 1 0 (lenN l)); [apply costs_new_page|intros p; apply IH|lia|lia].
Qed.

Lemma costs_finish_dirty g l off prepared : costs 0 (lenN l) (finish_dirty g l off prepared).
Proof.
  revert off prepared. induction l as [|i l IH]; intros off prepared; cbn [finish_dirty]; [apply costs_ret|].
  assert (1 + lenN l <= lenN (i :: l)) by (unfold lenN; cbn [length]; lia). destruct (prepared !! i) as [p|].
  - apply (costs_then 0 0 0 (lenN l)); [apply costs_copy_page|intros _; apply IH|lia|lia].
  - apply (costs_then 0 0 0 (1 + lenN l)); [apply costs_on_world, costs_sys|intros _|lia|lia].
    apply (costs_then 0 1 0 (lenN l)); [apply costs_new_page|intros p|lia|lia].
    apply (costs_then 0 0 0 (lenN l)); [apply costs_copy_page|intros _; apply IH|lia|lia].
Qed.

Lemma lenN_btree_elems (X : gset nat) : lenN (btree_elems X) = N.of_nat (size X).
Proof. unfold lenN, btree_elems. by rewrite merge_sort_Permutation. Qed.

Lemma costs_prepare l : costs 1 (N.of_nat (size (list_to_set l : gset nat))) (prepare_fork l).
Proof.
  unfold prepare_fork. set (X := list_to_set l : gset nat).
  apply (costs_then 0 0 1 (N.of_nat (size X))); [apply costs_get|intros s; cbv zeta|lia|lia].
  apply (costs_then 0 0 1 (N.of_nat (size X))); [apply costs_lift|intros _|lia|lia]. destruct (negb _).
  - apply (costs_then 0 0 0 0); [apply costs_for_each, costs_copy_home|intros _; apply costs_ret|lia|lia].
  - rewrite <-lenN_btree_elems. apply (costs_then 1 0 0 (lenN (btree_elems X))); [apply costs_zeroed|intros g|lia|lia].
    apply (costs_then 0 (lenN (btree_elems X)) 0 0); [apply costs_prepare_pages|intros p; apply costs_ret|lia|lia].
Qed.

Lemma costs_publish_branch : costs 0 0 publish_branch.
Proof. unfold publish_branch. free_steps. Qed.

Lemma costs_finish prep dirty : costs 0 (N.of_nat (size dirty)) (finish_prepared_pages prep dirty).
Proof.
  unfold finish_prepared_pages. destruct (seals_existing_generation prep).
  - apply (costs_then 0 0 0 0); [apply costs_for_each, costs_copy_home|intros _|lia|lia].
    unfold discard_private_pages. free_steps. apply costs_publish_branch.
  - apply (costs_then 0 0 0 (N.of_nat (size dirty))); [apply costs_get|intros s|lia|lia]. destruct (private s.2).
    + rewrite <-lenN_btree_elems.
      apply (costs_then 0 (lenN (btree_elems dirty)) 0 0); [apply costs_finish_dirty|intros p|lia|lia].
      free_steps; [apply costs_map_selected|apply costs_publish_branch].
    + eapply (costs_mono 0 0); [|lia|lia]. free_steps; [apply costs_map_all|apply costs_publish_branch].
Qed.

Lemma costs_seal dirty : costs 1 (N.of_nat (size dirty)) (seal_pages dirty).
Proof.
  unfold seal_pages. apply (costs_then 1 0 0 (N.of_nat (size dirty))); [apply (costs_prepare [])|intros prep|lia|lia].
  apply (costs_then 0 (N.of_nat (size dirty)) 0 0); [apply costs_finish|intros b; apply costs_ret|lia|lia].
Qed.

Lemma range_lenN {A} (X : gset nat) (l : list A) : (forall i, i ∈ X -> i < length l)%nat -> N.of_nat (size X) <= lenN l.
Proof. intros H%range_size. unfold lenN. lia. Qed.

(** Sealing a guest uses one generation and at most its pages. *)
Lemma sealing_spent K w gu seal w' r' res :
  guest_ok K w gu -> sealing gu seal -> seal (w, gu_ram gu) = ((w', r'), res) -> spent 1 (lenN (pages (gu_ram gu))) w w'.
Proof.
  intros Hg Hs Hop. rewrite (sealing_pages K w gu Hg seal Hs) in Hop.
  pose proof (costs_seal (host_dirty (gu_ram gu) ∪ gu_log gu) (w, gu_ram gu)) as Hc. rewrite Hop in Hc. cbn in Hc.
  eapply spent_mono; [exact Hc|done|]. apply range_lenN. intros i Hi. by eapply host_dirty_range.
Qed.

Lemma prepare_spent K w gu captured w' r' res :
  guest_ok K w gu -> captures captured (gu_log gu) -> prepare_fork captured (w, gu_ram gu) = ((w', r'), res) ->
  spent 1 (lenN (pages (gu_ram gu))) w w'.
Proof.
  intros Hg Hc Hop. pose proof (costs_prepare captured (w, gu_ram gu)) as Hs. rewrite Hop, Hc in Hs. cbn in Hs.
  eapply spent_mono; [exact Hs|done|]. apply range_lenN. intros i Hi. by apply (go_log _ _ _ Hg).
Qed.
