(* ===== verification/RamSafety.v ===== *)
(** * Guest RAM: what a guest sees

    The theorems about the memory of running, forked and checkpointed guests,
    for every state the system of branches can reach. *)

From S2P Require Import Prelude Host CacheTypes Storage VmmTypes Ram RamInv RamMap RamFork RamOps RamBranch RamMemory RamSpec.
Import Ram.

#[local] Opaque slot_at slice.

Implicit Types (w : RamWorld) (r : KvmGuestRam) (gu : Guest) (G : gmap N Guest) (k j : N).

(** The memory a guest sees. *)
Definition guest_memory w gu : list byte := ram_bytes (rm_storage w) (gu_ram gu).

(** The guest map after a transition of [k] still has the others. *)
Lemma trans_others k s s' j gj :
  ram_trans k s s' -> j <> k -> sm_guests s !! j = Some gj -> sm_guests s' !! j = Some gj.
Proof.
  intros Ht Hne Hj. destruct Ht; cbn in *; try destruct res;
    rewrite ?lookup_insert_ne, ?lookup_delete_ne by congruence; done.
Qed.

Lemma trans_isolated K k j s s' gj :
  system_ok K s -> ram_trans k s s' -> j <> k -> sm_guests s !! j = Some gj ->
  sm_guests s' !! j = Some gj /\ guest_memory (sm_world s') gj = guest_memory (sm_world s) gj.
Proof.
  intros Hsys Ht Hne Hj. split; [by eapply trans_others|].
  destruct (trans_ok K k s s' Hsys Ht) as [_ (Y & Gr & Hq & HY & Hnone & _)].
  destruct s as [w G], s' as [w' G']. cbn in *. destruct Hq as [Hq| ->]; [|done].
  destruct (G !! k) as [gu|] eqn:Hk.
  - by apply (others_same K w G k gu Hsys Hk w' Y j gj Hq Gr (HY gu eq_refl)).
  - rewrite Hnone in Gr by done. apply (guest_frame K K w w' ∅);
      [by apply (so_guests _ _ Hsys j)| |done|done|set_solver]. apply (Hq j gj). by rewrite lookup_delete_ne.
Qed.

(** C9. Isolation of guest memory.  Whatever a guest does or the supervisor
    does to it -- it writes, the host writes into it, it is forked (with the
    source paused or running), checkpointed or removed, and also when the host
    fails a call in the middle -- the memory every other guest sees does not
    change. *)
Theorem ram_guests_isolated k j s s' gj :
  ram_reachable s -> ram_trans k s s' -> j <> k -> sm_guests s !! j = Some gj ->
  sm_guests s' !! j = Some gj /\ guest_memory (sm_world s') gj = guest_memory (sm_world s) gj.
Proof. intros [K Hsys]%ram_reachable_ok Ht Hne Hj. by eapply trans_isolated. Qed.

(** The memory after an operation that changed no view. *)
Lemma step_memory Y V K D w r K' D' w' r' :
  ram_ok K (rm_storage w) D r -> ram_step Y V K D w r K' D' w' r' -> V = ∅ ->
  ram_bytes (rm_storage w') r' = ram_bytes (rm_storage w) r.
Proof.
  intros Hok S ->. apply ram_bytes_views.
  - rewrite (ok_memory _ _ _ _ Hok), (ok_memory _ _ _ _ (rs_ok _ _ _ _ _ _ _ _ _ _ S)). apply S.
  - intros i _. apply (rs_views _ _ _ _ _ _ _ _ _ _ S). set_solver.
Qed.

(** ... and of the child of a fork that lost no page. *)
Lemma forked_memory Y K D V w r K' w' r' child :
  ram_ok K (rm_storage w) D r -> forked Y K D V ∅ w r K' w' r' child ->
  ram_bytes (rm_storage w') child = ram_bytes (rm_storage w) r.
Proof.
  intros Hok F. destruct (fk_source _ _ _ _ _ _ _ _ _ _ _ F) as (S & _). apply ram_bytes_views.
  - rewrite (ok_memory _ _ _ _ Hok), (ok_memory _ _ _ _ (fk_child _ _ _ _ _ _ _ _ _ _ _ F)).
    rewrite (fk_pages _ _ _ _ _ _ _ _ _ _ _ F). apply S.
  - intros i _. apply (fk_views _ _ _ _ _ _ _ _ _ _ _ F). set_solver.
Qed.

Lemma nothing_lost gu : gu_lost gu = ∅ -> still_lost gu = ∅ /\ reverted (gu_ram gu) (still_lost gu) = ∅.
Proof.
  intros Hl. assert (still_lost gu = ∅) as Hs by (unfold still_lost; set_solver).
  split; [done|]. rewrite Hs. unfold reverted. by destruct (sealed _).
Qed.

(** Two branches with the same pages share all of them. *)
Lemma same_pages_shared r child :
  pages child = pages r ->
  let n := size (branch_page_ids child) in
  ram_resident_pages (page_accounting [r; child]) = n /\ ram_shared_pages (page_accounting [r; child]) = n.
Proof.
  intros Hp n. unfold page_accounting. cbn [ram_resident_pages ram_shared_pages].
  assert (branch_page_ids <$> [r; child] = [branch_page_ids child; branch_page_ids child]) as ->
    by (cbn; unfold branch_page_ids; by rewrite Hp).
  assert (dom (count_refs [branch_page_ids child; branch_page_ids child]) = branch_page_ids child) as Hdom
    by (rewrite dom_count_refs; cbn; set_solver).
  split; [by rewrite <-size_dom, Hdom|]. unfold count_shared. rewrite <-size_dom. unfold n. f_equal.
  apply set_eq. intros id. rewrite dom_shared_refs. unfold holders. rewrite filter_cons, filter_cons, filter_nil.
  destruct (decide (id ∈ branch_page_ids child)); cbn; split; lia || done.
Qed.

(** What a fork promises of the source and of the child. *)
Definition fork_promise w gu w' r' (res : result VmmError KvmGuestRam) : Prop :=
  ram_bytes (rm_storage w') r' = guest_memory w gu /\
  match res with
  | Ok child => ram_bytes (rm_storage w') child = guest_memory w gu /\ pages child = pages r' /\
      ram_len child = ram_len (gu_ram gu) /\ sealed r' = true /\
      ram_resident_pages (page_accounting [r'; child]) = size (branch_page_ids child) /\
      ram_shared_pages (page_accounting [r'; child]) = size (branch_page_ids child)
  | Err _ => True
  end.

Lemma forked_promise K D V w gu K' w' r' child Y :
  ram_ok K (rm_storage w) D (gu_ram gu) -> gu_lost gu = ∅ -> V = reverted (gu_ram gu) (still_lost gu) ->
  forked Y K D V (still_lost gu) w (gu_ram gu) K' w' r' child -> fork_promise w gu w' r' (Ok child).
Proof.
  intros Hok Hl HV F. destruct (nothing_lost gu Hl) as [Hs Hr]. rewrite Hs in F.
  destruct (fk_source _ _ _ _ _ _ _ _ _ _ _ F) as (S & H1 & H2). split; [eapply step_memory; [exact Hok|exact S|congruence]|].
  split_and!; [by eapply forked_memory|apply F|apply F|done|apply same_pages_shared, F..].
Qed.

Lemma fork_keeps_promise K w G k gu bitmap w' r' res :
  system_ok K (mkRamSystem w G) -> gu_prep gu = None -> G !! k = Some gu -> gu_lost gu = ∅ ->
  fits w (lenN (pages (gu_ram gu))) -> reports bitmap (length (pages (gu_ram gu))) (gu_log gu) ->
  fork (Ok bitmap) (w, gu_ram gu) = ((w', r'), res) -> fork_promise w gu w' r' res.
Proof.
  intros Hsys Hq Hk Hl Hf Hrep Hop. pose proof (so_guests _ _ Hsys k gu Hk) as Hg. cbn in Hg.
  pose proof (fork_result _ _ _ (so_registry _ _ Hsys) Hg Hf _ _ _ _ Hq Hrep Hop) as H.
  destruct res as [child|e]; destruct H as [K' H].
  - eapply forked_promise; [apply Hg|done|reflexivity|exact H].
  - split; [|done]. eapply step_memory; [apply Hg|exact H|by apply nothing_lost].
Qed.

Lemma finish_keeps_promise K w G k gu prep captured w' r' res :
  system_ok K (mkRamSystem w G) -> G !! k = Some gu -> gu_lost gu = ∅ ->
  gu_prep gu = Some prep -> fits w (lenN (pages (gu_ram gu))) -> captures captured (gu_log gu) ->
  finish_fork prep captured (w, gu_ram gu) = ((w', r'), res) -> fork_promise w gu w' r' res.
Proof.
  intros Hsys Hk Hl Hp Hf Hc Hop. pose proof (so_guests _ _ Hsys k gu Hk) as Hg. cbn in Hg.
  pose proof (finish_result _ _ _ (so_registry _ _ Hsys) Hg Hf _ _ _ _ _ Hp Hc Hop) as H.
  destruct res as [child|e]; destruct H as [K' H].
  - eapply forked_promise; [apply Hg|done|reflexivity|exact H].
  - split; [|done]. eapply step_memory; [apply Hg|exact H|by apply nothing_lost].
Qed.

(** C20. A fork is a snapshot, for a guest that has lost no pages ([gu_lost]: no
    earlier fork or checkpoint of it failed after its log was read).  When it is
    forked with the pages KVM logged since its log was last read, then on success the child's memory is byte for byte the source's at the
    fork, both hold the same page objects (so the accounting counts every page
    of the child once and as shared), and the source is sealed; the source sees
    the same memory as before whether or not the fork succeeds. *)
Theorem ram_fork_is_snapshot w G k gu bitmap w' r' res :
  ram_reachable (mkRamSystem w G) -> quiet G -> G !! k = Some gu -> gu_lost gu = ∅ ->
  fits w (lenN (pages (gu_ram gu))) -> reports bitmap (length (pages (gu_ram gu))) (gu_log gu) ->
  fork (Ok bitmap) (w, gu_ram gu) = ((w', r'), res) -> fork_promise w gu w' r' res.
Proof. intros [K Hsys]%ram_reachable_ok Hq Hk. eapply fork_keeps_promise; [exact Hsys|by eapply Hq|exact Hk]. Qed.

(** C12. A fork prepared while the guest runs is a snapshot of the pause, for a
    guest that has lost no pages ([gu_lost]: no earlier fork or checkpoint of it
    failed after its log was read).  The pages copied ahead may be overwritten
    by the guest before the fork is finished; with the pages KVM logged in
    between, the child nevertheless gets the memory of the source at the moment
    of [finish_prepared_branch], never a mixture of the two times, and the
    source keeps its memory, also when the host fails the fork. *)
Theorem live_fork_is_snapshot w G k gu prep captured w' r' res :
  ram_reachable (mkRamSystem w G) -> quiet_but k G -> G !! k = Some gu -> gu_lost gu = ∅ ->
  gu_prep gu = Some prep -> fits w (lenN (pages (gu_ram gu))) -> captures captured (gu_log gu) ->
  finish_fork prep captured (w, gu_ram gu) = ((w', r'), res) -> fork_promise w gu w' r' res.
Proof. intros [K Hsys]%ram_reachable_ok Hq. by apply (finish_keeps_promise K). Qed.

(** The bytes of the page objects of a RAM. *)
Definition page_contents w r : list byte := mjoin (page_bytes (rm_storage w) <$> pages r).

Lemma clean_contents K D w r :
  ram_ok K (rm_storage w) D r -> D = ∅ -> host_dirty r = ∅ -> page_contents w r = ram_bytes (rm_storage w) r.
Proof.
  intros Hok -> Hd. unfold page_contents, ram_bytes. apply (f_equal mjoin), list_eq. intros i. rewrite !list_lookup_fmap.
  destruct (pages r !! i) as [p|] eqn:Hp, (memory r !! i) as [m|] eqn:Hm; cbn; [|..|done].
  - f_equal. symmetry. apply (ok_clean _ _ _ _ Hok i); [done|done|rewrite Hd|]; set_solver.
  - apply lookup_ge_None in Hm. apply lookup_lt_Some in Hp. pose proof (ok_memory _ _ _ _ Hok). lia.
  - apply lookup_ge_None in Hp. apply lookup_lt_Some in Hm. pose proof (ok_memory _ _ _ _ Hok). lia.
Qed.

(** C23. A checkpoint seals the memory into page objects, for a guest that has
    lost no pages ([gu_lost]: no earlier fork or checkpoint of it failed after
    its log was read).  After
    [seal_for_checkpoint] or [seal_dirty_pages], with the pages logged, the
    page objects of the branch, which the durable state is written from, hold
    the guest's whole memory, and the guest sees the memory it saw before, also
    when the host fails the sealing. *)
Theorem seal_captures_memory w G k gu seal w' r' res :
  ram_reachable (mkRamSystem w G) -> quiet G -> G !! k = Some gu -> gu_lost gu = ∅ ->
  fits w (lenN (pages (gu_ram gu))) -> sealing gu seal -> seal (w, gu_ram gu) = ((w', r'), res) ->
  ram_bytes (rm_storage w') r' = guest_memory w gu /\
  match res with Ok _ => sealed r' = true /\ page_contents w' r' = guest_memory w gu | Err _ => True end.
Proof.
  intros [K Hsys]%ram_reachable_ok Hq Hk Hl Hf Hseal Hop. pose proof (so_guests _ _ Hsys k gu Hk) as Hg. cbn in Hg.
  pose proof (seal_result _ _ _ (so_registry _ _ Hsys) Hg Hf _ _ _ _ (Hq k gu Hk) Hseal Hop) as H.
  destruct (nothing_lost gu Hl) as [Hs Hr].
  destruct res as [[]|e]; destruct H as [K' H].
  - destruct H as (S & H1 & H2). assert (ram_bytes (rm_storage w') r' = guest_memory w gu) as Hm
      by (eapply step_memory; [apply Hg|exact S|done]).
    split; [exact Hm|]. split; [exact H1|]. rewrite <-Hm. eapply clean_contents; [apply S|exact Hs|exact H2].
  - split; [|done]. eapply step_memory; [apply Hg|exact H|done].
Qed.

Lemma slice_spliced off (bytes c : list byte) : off + lenN bytes <= lenN c -> slice off (lenN bytes) (splice off bytes c) = bytes.
Proof.
  intros Hle. apply list_eq_nthN. intros a. rewrite nthN_slice, nthN_splice by done.
  destruct (N.ltb_spec a (lenN bytes)) as [Ha|Ha].
  - rewrite (proj2 (N.leb_le _ _)), (proj2 (N.ltb_lt _ _)) by lia. cbn. f_equal. lia.
  - symmetry. by apply nthN_ge.
Qed.

(** C34. Host access to guest memory.  [write] accepts exactly the ranges inside
    the memory (the sum computed without overflow), replaces those bytes and no
    others, and a following [read] of the range returns what was written; any
    other range is refused with [RamRange] by both and changes nothing. *)
Theorem ram_write_read s k gu off bytes :
  ram_reachable s -> sm_guests s !! k = Some gu ->
  let w := sm_world s in
  exists r', write off bytes (w, gu_ram gu) =
      ((w, r'), if in_range (gu_ram gu) off (lenN bytes) then Ok tt else Err (RamRange off (lenN bytes))) /\
    ram_bytes (rm_storage w) r' =
      (if in_range (gu_ram gu) off (lenN bytes) then splice off bytes (guest_memory w gu) else guest_memory w gu) /\
    read off (lenN bytes) (w, r') =
      ((w, r'), if in_range (gu_ram gu) off (lenN bytes) then Ok bytes else Err (RamRange off (lenN bytes))).
Proof.
  intros [K Hsys]%ram_reachable_ok Hk w. pose proof (so_guests _ _ Hsys k gu Hk) as Hg. fold w in Hg.
  rewrite (run_write K w _ _ _ _ (go_ram _ _ _ Hg)). unfold read, get, lift, mbind, M_bind. cbn [fst snd].
  destruct (in_range (gu_ram gu) off (lenN bytes)) eqn:Hin.
  - exists (marked (rm_storage w) (gu_ram gu) off bytes). split; [done|]. pose proof (in_range_le _ _ _ Hin) as Hle.
    pose proof (ram_bytes_stored K (rm_storage w) _ (gu_ram gu) off bytes (go_ram _ _ _ Hg) Hle) as Hb.
    split; [exact Hb|]. rewrite checked_range_spec. unfold in_range in Hin. cbn [marked stored ram_len set_host_dirty set_memory].
    rewrite Hin. cbn [fst]. change (ram_bytes _ (marked _ _ _ _)) with (ram_bytes (rm_storage w) (stored (rm_storage w) (gu_ram gu) off bytes)).
    rewrite Hb. unfold mret, M_ret. rewrite slice_spliced; [done|]. rewrite (lenN_ram_bytes K _ (gu_differs gu)); [done|apply Hg].
  - exists (gu_ram gu). split; [done|]. split; [done|]. rewrite checked_range_spec. unfold in_range in Hin. by rewrite Hin.
Qed.

(** ** Mapping in runs *)

(** Map the pages one by one. *)
Definition map_each_page : R unit :=
  s ← get;
  for_each (fun i => match pages s.2 !! i with
                     | Some p => map_run i 1 (p_generation p) (p_offset p) true
                     | None => mret tt
                     end) (seq 0 (length (pages s.2))).

Lemma run_map_run start count g off priv w r :
  sto_sched (rm_storage w) = [] ->
  map_run start count g off priv (w, r) = ((w, set_memory (imap (mapped_at start count g off priv) (memory r)) r), Ok tt).
Proof.
  intros Hs. unfold map_run, on_world, sys, with_err, zoom, mbind, M_bind. cbn. unfold Sto.call. rewrite Hs. cbn. by destruct w.
Qed.

(** On a host that fails nothing, mapping succeeds and leaves the files alone. *)
Lemma calm_map_all fuel start priv w r :
  sto_sched (rm_storage w) = [] -> exists r', map_all_rounds fuel start priv (w, r) = ((w, r'), Ok tt).
Proof.
  intros Hs. revert start r. induction fuel as [|fuel IH]; intros start r; cbn [map_all_rounds]; [by eexists|].
  unfold get, mbind, M_bind. cbn [snd]. destruct (drop start (pages r)) as [|p rest]; [by eexists|].
  rewrite run_map_run by done. apply IH.
Qed.

Lemma run_map_all w r :
  sto_sched (rm_storage w) = [] -> consistent (pages r) ->
  map_all_pages true (w, r) = ((w, remap (seq 0 (length (pages r))) r), Ok tt).
Proof.
  intros Hs HK. pose proof (wp_map_all_pages (pages r) w r HK (reflexivity _)) as Hwp.
  destruct (calm_map_all (length (pages r)) 0 true w r Hs) as [r' Hr].
  assert (map_all_pages true (w, r) = ((w, r'), Ok tt)) as Hrun by exact Hr. rewrite Hrun.
  pose proof (wp_elim _ _ _ _ _ _ Hwp Hrun) as (st' & _ & _ & Hr'). cbn in Hr'. by rewrite Hr'.
Qed.

Lemma run_map_each K w l start r :
  sto_sched (rm_storage w) = [] -> consistent K -> pages r ⊆ K -> l = pages r ->
  forall n, (start + n <= length l)%nat ->
  for_each (fun i => match l !! i with
                     | Some p => map_run i 1 (p_generation p) (p_offset p) true
                     | None => mret tt
                     end) (seq start n) (w, r) = ((w, remap (seq start n) r), Ok tt).
Proof.
  intros Hs HK HrK Hl n. revert start r HrK Hl. induction n as [|n IH]; intros start r HrK Hl Hn; cbn [seq for_each].
  { by rewrite remap_nil. }
  assert (is_Some (pages r !! start)) as [p Hp] by (apply lookup_lt_is_Some; subst l; lia).
  unfold mbind, M_bind. rewrite Hl, Hp, <-Hl, run_map_run by done.
  rewrite (map_run_remap K); [|done|done|done|lia|intros j Hj; lia].
  rewrite IH; [|done|done|lia]. by rewrite remap_app.
Qed.

(** C36. Mapping runs is mapping pages.  [map_all_pages] joins pages that lie
    behind each other in one generation into one [mmap].  On a host that fails
    no call, and for pages in which a generation's number stands for one file
    only, it does exactly what mapping every page by itself does, so the loop
    neither skips a page nor lets a run reach into another generation, and the
    rounds given to it are enough. *)
Theorem map_all_pages_equiv w r :
  sto_sched (rm_storage w) = [] -> consistent (pages r) -> map_all_pages true (w, r) = map_each_page (w, r).
Proof.
  intros Hs HK. assert (map_each_page (w, r) = ((w, remap (seq 0 (length (pages r))) r), Ok tt)) as ->.
  { unfold map_each_page, get, mbind, M_bind. cbn [snd]. by apply (run_map_each (pages r)). }
  by apply run_map_all.
Qed.
