(* ===== verification/RamOrigin.v ===== *)
(** * Guest RAM: where pages come from

    The operations on RAM name no file, and a page object a guest did not have
    before belongs to a generation made since, or to the one of the fork in
    progress. *)

From S2P Require Import Prelude Host CacheTypes Storage VmmTypes Ram RamInv RamMap RamFork RamOps RamBranch RamMemory RamSpec.
Import Ram.

(** ** Relations *)

(** The directories are as they were. *)
Record still (st st' : Storage) : Prop := {
  still_names : sto_names st' = sto_names st;
  still_stable_names : sto_stable_names st' = sto_stable_names st;
  still_dirs : sto_dirs st' = sto_dirs st
}.

#[export] Instance still_preorder : PreOrder still.
Proof. split; [by intros st|]. intros st1 st2 st3 [] []. split; congruence. Qed.

(** ... and no generation was made. *)
Record hush (w w' : RamWorld) : Prop := {
  hush_still : still (rm_storage w) (rm_storage w');
  hush_next : next_generation_id w' = next_generation_id w;
  hush_page : next_page_id w <= u64_MAX -> next_page_id w' <= u64_MAX
}.

#[export] Instance hush_preorder : PreOrder hush.
Proof. split; [by intros w|]. intros w1 w2 w3 [S1 ??] [S2 ??]. split; [by etrans|congruence|auto]. Qed.

(** ... and the RAM has the pages it had. *)
Record hush_ram (s s' : RamWorld * KvmGuestRam) : Prop := {
  hr_world : hush s.1 s'.1;
  hr_pages : pages s'.2 = pages s.2
}.

#[export] Instance hush_ram_preorder : PreOrder hush_ram.
Proof. split; [by intros [w r]|]. intros s1 s2 s3 [S1 ?] [S2 ?]. split; [by etrans|congruence]. Qed.

(** At most one generation was made, and the counter did not wrap. *)
Record moved (w w' : RamWorld) : Prop := {
  mv_still : still (rm_storage w) (rm_storage w');
  mv_next : next_generation_id w <= next_generation_id w';
  mv_max : next_generation_id w <= u64_MAX -> next_generation_id w' <= u64_MAX;
  mv_page : next_page_id w <= u64_MAX -> next_page_id w' <= u64_MAX
}.

#[export] Instance moved_preorder : PreOrder moved.
Proof.
  split; [by intros w|]. intros w1 w2 w3 [S1 N1 M1 P1] [S2 N2 M2 P2]. split; [by etrans|lia|auto|auto].
Qed.

Lemma hush_moved w w' : hush w w' -> moved w w'.
Proof. intros [S E P]. split; [done|lia|by rewrite E|done]. Qed.

(** ** Operations *)

Lemma still_call : keeps still Sto.call.
Proof. intros st. unfold Sto.call. by destruct (sto_sched st) as [|[e|n|] rest]. Qed.
Lemma still_modify_data f : keeps (E := io_error) still (modify (fun st => set_data (f st) st)).
Proof. by apply keeps_modify. Qed.
Lemma still_tempfile : keeps still Fd.tempfile.
Proof. unfold Fd.tempfile. keeps_steps; [apply still_call|by apply keeps_modify]. Qed.
Lemma still_set_len i n : keeps still (Fd.set_len i n).
Proof. unfold Fd.set_len. keeps_steps; [apply still_call|apply still_modify_data]. Qed.
Lemma still_pwrite i bytes off : keeps still (Fd.pwrite i bytes off).
Proof. unfold Fd.pwrite. keeps_steps; [apply still_call|apply still_modify_data]. Qed.

Lemma hush_sys {A} op (m : SIO A) : keeps still m -> keeps hush (sys op m).
Proof. intros Hm. eapply keeps_zoom; [|by apply keeps_with_err]. by intros w st Hst. Qed.

Lemma hush_on_world {A} (m : RW A) : keeps hush m -> keeps hush_ram (on_world m).
Proof. apply keeps_zoom. by intros [w r] w' Hw. Qed.

Lemma hush_on_ram f : (forall r, pages (f r) = pages r) -> keeps hush_ram (on_ram f).
Proof. intros Hf. apply keeps_modify. intros [w r]. split; cbn; [reflexivity|apply Hf]. Qed.

Lemma wrapping_add_bound a b : wrapping_add a b <= u64_MAX.
Proof. unfold wrapping_add. pose proof (N.mod_lt (a + b) (u64_MAX + 1)). lia. Qed.

Lemma hush_bump (w : RamWorld) :
  hush w (mkRamWorld (rm_storage w) (wrapping_add (next_page_id w) 1) (next_generation_id w)).
Proof. split; [done|done|]. intros _. apply wrapping_add_bound. Qed.

Lemma hush_new_page g off : keeps hush (new_page g off).
Proof. unfold new_page. keeps_steps. apply keeps_modify, hush_bump. Qed.

Lemma hush_copy_rounds fuel f bytes off written : keeps hush (copy_rounds fuel f bytes off written).
Proof.
  revert written. induction fuel as [|fuel IH]; intros written; cbn [copy_rounds]; [keeps_step|].
  keeps_steps; [apply hush_sys, still_pwrite|apply IH].
Qed.

Lemma hush_copy_page i f off : keeps hush_ram (copy_page_to i f off).
Proof. unfold copy_page_to. keeps_steps. apply hush_on_world, hush_copy_rounds. Qed.

Lemma hush_copy_home i : keeps hush_ram (copy_home i).
Proof. unfold copy_home. keeps_steps. apply hush_copy_page. Qed.

Lemma hush_map_run start count g off priv : keeps hush_ram (map_run start count g off priv).
Proof. unfold map_run. keeps_steps; [apply hush_on_world, hush_sys, still_call|by apply hush_on_ram]. Qed.

Lemma hush_map_all_rounds fuel start priv : keeps hush_ram (map_all_rounds fuel start priv).
Proof.
  revert start. induction fuel as [|fuel IH]; intros start; cbn [map_all_rounds]; [keeps_step|].
  keeps_steps; [apply hush_map_run|apply IH].
Qed.

Lemma hush_map_all priv : keeps hush_ram (map_all_pages priv).
Proof. unfold map_all_pages. keeps_steps. apply hush_map_all_rounds. Qed.

Lemma hush_map_selected_rounds fuel l priv : keeps hush_ram (map_selected_rounds fuel l priv).
Proof.
  revert l. induction fuel as [|fuel IH]; intros l; cbn [map_selected_rounds]; [keeps_step|].
  keeps_steps; [apply hush_map_run|apply IH].
Qed.

Lemma hush_discard : keeps hush_ram discard_private_pages.
Proof. unfold discard_private_pages. keeps_steps; [apply hush_on_world, hush_sys, still_call|by apply hush_on_ram]. Qed.

Lemma hush_reserve len : keeps hush (reserve len).
Proof. unfold reserve. keeps_steps. apply hush_sys, still_call. Qed.

Lemma hush_construct r m : keeps hush_ram m -> keeps hush (construct r m).
Proof. intros Hm w. specialize (Hm (w, r)). unfold construct. destruct (m (w, r)) as [[w' r'] res]. apply Hm. Qed.

Lemma hush_from_pages len l : keeps hush (from_pages len l).
Proof. unfold from_pages. keeps_steps; [apply hush_reserve|apply hush_construct, hush_map_all]. Qed.

Lemma hush_prepare_pages g n l prepared : keeps hush_ram (prepare_pages g n l prepared).
Proof.
  revert n prepared. induction l as [|i l IH]; intros n prepared; cbn [prepare_pages]; [keeps_step|].
  keeps_steps; [apply hush_copy_page|apply hush_on_world, hush_new_page|apply IH].
Qed.

Lemma hush_finish_dirty g l off prepared : keeps hush_ram (finish_dirty g l off prepared).
Proof.
  revert off prepared. induction l as [|i l IH]; intros off prepared; cbn [finish_dirty]; [keeps_step|].
  keeps_steps; [apply hush_copy_page|apply IH|apply hush_on_world, hush_sys, still_set_len|
    apply hush_on_world, hush_new_page|apply hush_copy_page|apply IH].
Qed.

(** ** Forks *)

Implicit Types (w : RamWorld) (r : KvmGuestRam) (p : RamPage) (g : RamGeneration) (gu : Guest) (G : gmap N Guest).

Lemma wp_zeroed_moved len Q (R : VmmError -> RamWorld -> Prop) w :
  next_generation_id w < u64_MAX ->
  (forall g w', moved w w' -> g_id g = next_generation_id w -> Q g w') -> (forall e w', moved w w' -> R e w') ->
  wp (zeroed len) Q R w.
Proof.
  intros Hn HQ HR. unfold zeroed. wp_steps.
  apply (wp_keeps hush); [apply hush_sys, still_tempfile| |intros e w1 H1; apply HR; by apply hush_moved].
  intros f w1 H1. wp_steps.
  apply (wp_keeps hush); [apply hush_sys, still_set_len| |].
  - intros [] w2 H2. wp_steps. assert (hush w w2) as [Hs He Hpg] by (etrans; eassumption). apply HQ; [|cbn; exact He].
    split; cbn [rm_storage next_generation_id next_page_id]; [exact Hs| | |done];
      rewrite wrapping_add_small, He; lia.
  - intros e w2 H2. apply HR. apply hush_moved. etrans; eassumption.
Qed.

(** The pages of a preparation belong to its generation. *)
Definition prep_gen (prep : RamForkPreparation) : Prop :=
  seals_existing_generation prep = false ->
  forall i p, prep_pages prep !! i = Some p -> p_generation p = prep_generation prep.

Lemma wp_prepare_pages_gen g n l prepared Q (R : VmmError -> RamWorld * KvmGuestRam -> Prop) s :
  (forall i p, prepared !! i = Some p -> p_generation p = g) ->
  (forall prepared' s', hush_ram s s' -> (forall i p, prepared' !! i = Some p -> p_generation p = g) -> Q prepared' s') ->
  (forall e s', hush_ram s s' -> R e s') -> wp (prepare_pages g n l prepared) Q R s.
Proof.
  revert n prepared s. induction l as [|i l IH]; intros n prepared s Hp HQ HR; cbn [prepare_pages].
  { wp_steps. by apply HQ. }
  wp_steps. apply (wp_keeps hush_ram); [apply hush_copy_page| |done]. intros [] s1 H1. wp_steps.
  destruct s1 as [w1 r1]. rewrite wp_on_world. unfold new_page. wp_steps. apply IH.
  - intros j q [[_ <-]|[_ Hq]]%lookup_insert_Some; [done|by eapply Hp].
  - intros prepared' s' H2 Hp'. apply HQ; [|done]. etrans; [exact H1|]. etrans; [|exact H2]. split; [apply hush_bump|done].
  - intros e s' H2. apply HR. etrans; [exact H1|]. etrans; [|exact H2]. split; [apply hush_bump|done].
Qed.

Lemma wp_finish_dirty_gen g l off prepared Q (R : VmmError -> RamWorld * KvmGuestRam -> Prop) s :
  (forall i p, prepared !! i = Some p -> p_generation p = g) ->
  (forall prepared' s', hush_ram s s' -> (forall i p, prepared' !! i = Some p -> p_generation p = g) -> Q prepared' s') ->
  (forall e s', hush_ram s s' -> R e s') -> wp (finish_dirty g l off prepared) Q R s.
Proof.
  revert off prepared s. induction l as [|i l IH]; intros off prepared s Hp HQ HR; cbn [finish_dirty].
  { wp_steps. by apply HQ. }
  destruct (prepared !! i) as [p|] eqn:Hi; wp_steps.
  - apply (wp_keeps hush_ram); [apply hush_copy_page| |done]. intros [] s1 H1. apply IH; [done| |].
    + intros prepared' s' H2 Hp'. apply HQ; [etrans; eassumption|done].
    + intros e s' H2. apply HR. etrans; eassumption.
  - apply (wp_keeps hush_ram); [apply hush_on_world, hush_sys, still_set_len| |done]. intros [] [w1 r1] H1.
    wp_steps. rewrite wp_on_world. unfold new_page. wp_steps. cbn [p_offset].
    match goal with |- wp _ _ _ ?s2 => assert (hush_ram s s2) as H2 by (etrans; [exact H1|split; [apply hush_bump|done]]) end.
    apply (wp_keeps hush_ram); [apply hush_copy_page| |].
    + intros [] s3 H3. apply IH.
      * intros j q [[_ <-]|[_ Hq]]%lookup_insert_Some; [done|by eapply Hp].
      * intros prepared' s' H4 Hp'. apply HQ; [|done]. etrans; [exact H2|]. etrans; eassumption.
      * intros e s' H4. apply HR. etrans; [exact H2|]. etrans; eassumption.
    + intros e s' H3. apply HR. etrans; eassumption.
Qed.

(** A preparation, and where its generation comes from. *)
Lemma wp_prepare_origin l Q (R : VmmError -> RamWorld * KvmGuestRam -> Prop) w r :
  next_generation_id w < u64_MAX ->
  (forall prep w' r', moved w w' -> pages r' = pages r -> prep_gen prep ->
    (seals_existing_generation prep = false -> g_id (prep_generation prep) = next_generation_id w) ->
    Q prep (w', r')) ->
  (forall e w' r', moved w w' -> pages r' = pages r -> R e (w', r')) ->
  wp (prepare_fork l) Q R (w, r).
Proof.
  intros Hn HQ HR. unfold prepare_fork. wp_steps. cbn [snd].
  destruct (check_pages _ _) as [[]|e]; [|by apply HR]. destruct (negb (sealed r)) eqn:Hs; wp_steps.
  - apply (wp_keeps hush_ram).
    + apply keeps_for_each; [apply _|intros i; apply hush_copy_home].
    + intros [] [w' r'] [H1 H2]. wp_steps. by apply HQ; [apply hush_moved| | |].
    + intros e [w' r'] [H1 H2]. by apply HR; [apply hush_moved|].
  - rewrite wp_on_world. apply wp_zeroed_moved; [done| |by intros; apply HR].
    intros g w1 H1 Hg. wp_steps. apply wp_prepare_pages_gen; [done| |].
    + intros prepared' [w' r'] [H2 H3] Hp'. wp_steps. apply HQ; [|done|by intros _|done]. etrans; [exact H1|]. by apply hush_moved.
    + intros e [w' r'] [H2 H3]. apply HR; [|done]. etrans; [exact H1|]. by apply hush_moved.
Qed.

(** The pages after a fork or checkpoint: those of before, or of the
    preparation. *)
Definition from_prep prep (l l' : list RamPage) : Prop :=
  forall p, p ∈ l' -> p ∈ l \/ (seals_existing_generation prep = false /\ p_generation p = prep_generation prep).

Lemma from_prep_same prep l : from_prep prep l l.
Proof. intros p Hp. by left. Qed.

Lemma from_prep_replaced prep (prepared : gmap nat RamPage) l :
  seals_existing_generation prep = false -> (forall i p, prepared !! i = Some p -> p_generation p = prep_generation prep) ->
  from_prep prep l (imap (fun i p => default p (prepared !! i)) l).
Proof.
  intros Hs Hp p (i & Hi)%list_elem_of_lookup_1. rewrite list_lookup_imap in Hi. apply fmap_Some in Hi as (q & Hq & ->).
  destruct (prepared !! i) as [p'|] eqn:Hpi; cbn; [right; split; [done|by eapply Hp]|left; by eapply list_elem_of_lookup_2].
Qed.

Lemma wp_finish_origin prep dirty w r :
  prep_gen prep ->
  wp (finish_prepared_pages prep dirty)
    (fun b s => hush w s.1 /\ from_prep prep (pages r) (pages s.2) /\ fb_pages b = pages s.2)
    (fun _ s => hush w s.1 /\ from_prep prep (pages r) (pages s.2)) (w, r).
Proof.
  intros Hg. unfold finish_prepared_pages. destruct (seals_existing_generation prep) eqn:Hs.
  - wp_steps. apply (wp_keeps hush_ram).
    + apply keeps_for_each; [apply _|intros i; apply hush_copy_home].
    + intros [] s1 H1. wp_steps. apply (wp_keeps hush_ram); [apply hush_discard| |].
      * intros [] [w2 r2] H2. assert (hush_ram (w, r) (w2, r2)) as [H3 H4] by (etrans; eassumption). cbn in H4.
        split_and!; [done|cbn; rewrite H4; apply from_prep_same|done].
      * intros e s2 H2. assert (hush_ram (w, r) s2) as [H3 H4] by (etrans; eassumption). rewrite H4. split; [done|apply from_prep_same].
    + intros e s1 [H3 H4]. rewrite H4. split; [done|apply from_prep_same].
  - wp_steps. cbn [snd]. destruct (private r); wp_steps.
    + apply wp_finish_dirty_gen; [by apply Hg| |].
      2:{ intros e s1 [H3 H4]. rewrite H4. split; [done|apply from_prep_same]. }
      intros prepared' [w1 r1] [H1 H1p] Hp'. wp_steps. rewrite wp_on_ram. wp_steps.
      apply (wp_keeps hush_ram); [apply hush_map_selected_rounds| |].
      * intros [] [w2 r2] [H2 H2p]. cbn in *. assert (from_prep prep (pages r) (pages r2)) as Hf
          by (rewrite H2p, H1p; by apply from_prep_replaced).
        split_and!; [etrans; eassumption|exact Hf|done].
      * intros e [w2 r2] [H2 H2p]. cbn in *. rewrite H2p, H1p. split; [etrans; eassumption|by apply from_prep_replaced].
    + apply (wp_keeps hush_ram); [apply hush_map_all| |].
      * intros [] [w2 r2] [H2 H2p]. cbn in *. split_and!; [done|cbn; rewrite H2p; apply from_prep_same|done].
      * intros e [w2 r2] [H2 H2p]. cbn in *. rewrite H2p. split; [done|apply from_prep_same].
Qed.

(** ** Transitions *)

(** Where the pages and preparations after a transition of guest [k] come from. *)
Record traced (k : N) (s s' : RamSystem) : Prop := {
  tc_moved : moved (sm_world s) (sm_world s');
  tc_pages j gj p : sm_guests s' !! j = Some gj -> p ∈ pages (gu_ram gj) ->
    (exists i gi, sm_guests s !! i = Some gi /\ p ∈ pages (gu_ram gi)) \/
    next_generation_id (sm_world s) <= g_id (p_generation p) \/
    (exists gu prep, sm_guests s !! k = Some gu /\ gu_prep gu = Some prep /\
       seals_existing_generation prep = false /\ p_generation p = prep_generation prep);
  tc_preps j gj prep : sm_guests s' !! j = Some gj -> gu_prep gj = Some prep -> seals_existing_generation prep = false ->
    (exists gi, sm_guests s !! j = Some gi /\ gu_prep gi = Some prep) \/
    next_generation_id (sm_world s) <= g_id (prep_generation prep)
}.

(** A RAM made of old pages, of pages of a new generation, or of the guest's
    preparation. *)
Definition sourced k (s : RamSystem) (l : list RamPage) : Prop := forall p, p ∈ l ->
  (exists i gi, sm_guests s !! i = Some gi /\ p ∈ pages (gu_ram gi)) \/
  next_generation_id (sm_world s) <= g_id (p_generation p) \/
  (exists gu prep, sm_guests s !! k = Some gu /\ gu_prep gu = Some prep /\
     seals_existing_generation prep = false /\ p_generation p = prep_generation prep).

Lemma sourced_old k w G j gj : G !! j = Some gj -> sourced k (mkRamSystem w G) (pages (gu_ram gj)).
Proof. intros Hj p Hp. left. eauto. Qed.

Lemma traced_insert k w G w' gu' :
  moved w w' -> sourced k (mkRamSystem w G) (pages (gu_ram gu')) ->
  (forall prep, gu_prep gu' = Some prep -> seals_existing_generation prep = false ->
     (exists gi, G !! k = Some gi /\ gu_prep gi = Some prep) \/ next_generation_id w <= g_id (prep_generation prep)) ->
  traced k (mkRamSystem w G) (mkRamSystem w' (<[k := gu']> G)).
Proof.
  intros Hm Hs Hp. split; cbn; [done| |].
  - intros j gj p [[<- <-]|[_ Hj]]%lookup_insert_Some Hpg; [by apply Hs|left; eauto].
  - intros j gj prep [[<- <-]|[_ Hj]]%lookup_insert_Some Hpr Hse; [by apply Hp|left; eauto].
Qed.

Lemma traced_child k j w G w' G' child :
  traced k (mkRamSystem w G) (mkRamSystem w' G') -> sourced k (mkRamSystem w G) (pages child) ->
  traced k (mkRamSystem w G) (mkRamSystem w' (<[j := gu_new child]> G')).
Proof.
  intros [Hm Hpg Hpr] Hs. split; cbn in *; [done| |].
  - intros i gi p [[<- <-]|[_ Hi]]%lookup_insert_Some Hp; [by apply Hs|by eapply Hpg].
  - intros i gi prep [[<- <-]|[_ Hi]]%lookup_insert_Some Hp Hse; [done|by eapply Hpr].
Qed.

Lemma moved_pages_new g i n Q (R : VmmError -> RamWorld -> Prop) w :
  (forall l w', hush w w' -> (forall p, p ∈ l -> p_generation p = g) -> Q l w') -> wp (new_pages g i n) Q R w.
Proof.
  revert i Q w. induction n as [|n IH]; intros i Q w HQ; cbn [new_pages]; wp_steps.
  { apply HQ; [done|]. intros p []%not_elem_of_nil. }
  unfold new_page. wp_steps. apply IH. intros l w' H1 Hl. wp_steps. apply HQ.
  - etrans; [|exact H1]. apply hush_bump.
  - intros p [->|Hp]%elem_of_cons; [done|by apply Hl].
Qed.

Lemma wp_new_origin len w :
  next_generation_id w < u64_MAX ->
  wp (new len) (fun r w' => moved w w' /\ forall p, p ∈ pages r -> g_id (p_generation p) = next_generation_id w)
    (fun _ w' => moved w w') w.
Proof.
  intros Hn. unfold new. destruct (_ || _); wp_steps; [done|].
  apply (wp_keeps hush); [apply hush_reserve| |by intros; apply hush_moved]. intros base w1 H1. wp_steps.
  apply wp_zeroed_moved; [by rewrite (hush_next _ _ H1)| |].
  2:{ intros e w2 H2. etrans; [by apply hush_moved|exact H2]. }
  intros g w2 H2 Hg. wp_steps. apply moved_pages_new. intros l w3 H3 Hl. cbv beta.
  assert (moved w w3) as Hm.
  { etrans; [apply hush_moved; exact H1|]. etrans; [exact H2|]. by apply hush_moved. }
  pose proof (hush_map_all true (w3, mkRam len l ∅ true false base)) as [Hw Hp].
  unfold wp, construct. destruct (map_all_pages true _) as [[w4 r4] [[]|e]]; cbn in Hw, Hp.
  - split; [etrans; [exact Hm|by apply hush_moved]|]. intros p. rewrite Hp. intros Hpl. by rewrite (Hl p Hpl), Hg, (hush_next _ _ H1).
  - etrans; [exact Hm|by apply hush_moved].
Qed.

(** Old pages, or pages of a generation made in the operation. *)
Definition renewed w (l l' : list RamPage) : Prop :=
  forall p, p ∈ l' -> p ∈ l \/ next_generation_id w <= g_id (p_generation p).

Lemma renewed_sourced k w G j gj l' :
  G !! j = Some gj -> renewed w (pages (gu_ram gj)) l' -> sourced k (mkRamSystem w G) l'.
Proof. intros Hj Hr p Hp. destruct (Hr p Hp); [left; eauto|right; by left]. Qed.

Lemma wp_seal_origin dirty w r :
  next_generation_id w < u64_MAX ->
  wp (prep ← prepare_fork []; finish_prepared_pages prep dirty)
    (fun b s => moved w s.1 /\ renewed w (pages r) (pages s.2) /\ fb_pages b = pages s.2)
    (fun _ s => moved w s.1 /\ renewed w (pages r) (pages s.2)) (w, r).
Proof.
  intros Hn. wp_steps. apply wp_prepare_origin; [done| |].
  2:{ intros e w1 r1 H1 Hp. cbn. split; [done|]. rewrite Hp. intros p. by left. }
  intros prep w1 r1 H1 Hp Hg Hid. eapply wp_mono; [by apply wp_finish_origin| |].
  - intros b s (H2 & H3 & H4). rewrite Hp in H3. split_and!; [etrans; [exact H1|by apply hush_moved]| |done].
    intros p Hpg. destruct (H3 p Hpg) as [?|[Hse Heq]]; [by left|right]. rewrite Heq, Hid by done. lia.
  - intros e s (H2 & H3). rewrite Hp in H3. split; [etrans; [exact H1|by apply hush_moved]|].
    intros p Hpg. destruct (H3 p Hpg) as [?|[Hse Heq]]; [by left|right]. rewrite Heq, Hid by done. lia.
Qed.

(** [from_pages] keeps the pages it is given. *)
Lemma wp_from_pages_origin len l (Q : KvmGuestRam -> RamWorld -> Prop) (R : VmmError -> RamWorld -> Prop) w :
  (forall r w', hush w w' -> pages r = l -> Q r w') -> (forall e w', hush w w' -> R e w') -> wp (from_pages len l) Q R w.
Proof.
  intros HQ HR. unfold from_pages. wp_steps. apply (wp_keeps hush); [apply hush_reserve| |done].
  intros base w1 H1. pose proof (hush_map_all true (w1, mkRam len l ∅ true true base)) as [Hw Hp].
  unfold wp, construct. destruct (map_all_pages true _) as [[w4 r4] [[]|e]]; cbn in Hw, Hp; [apply HQ|apply HR];
    [etrans; eassumption|exact Hp|etrans; eassumption].
Qed.

Lemma wp_fork_origin dirty w r :
  next_generation_id w < u64_MAX ->
  wp (fork_pages dirty)
    (fun child s => moved w s.1 /\ renewed w (pages r) (pages s.2) /\ pages child = pages s.2)
    (fun _ s => moved w s.1 /\ renewed w (pages r) (pages s.2)) (w, r).
Proof.
  intros Hn. unfold fork_pages. apply wp_assoc. rewrite wp_bind. eapply wp_mono; [by apply wp_seal_origin| |done].
  intros b [w1 r1] (H1 & H2 & H3). rewrite wp_on_world. apply wp_from_pages_origin.
  - intros child w2 Hw Hp. cbn in *. split_and!; [etrans; [exact H1|by apply hush_moved]|done|congruence].
  - intros e w2 Hw. split; [etrans; [exact H1|by apply hush_moved]|done].
Qed.

Lemma wp_branch_origin prep captured w r :
  prep_gen prep ->
  wp (finish_prepared_branch prep captured)
    (fun b s => hush w s.1 /\ from_prep prep (pages r) (pages s.2) /\ fb_pages b = pages s.2)
    (fun _ s => hush w s.1 /\ from_prep prep (pages r) (pages s.2)) (w, r).
Proof.
  intros Hg. unfold finish_prepared_branch. wp_steps. cbn [snd].
  destruct (add_dirty _ _ _) as [dirty|e]; [|split; [done|apply from_prep_same]].
  eapply wp_mono; [by apply wp_finish_origin|done|done].
Qed.

Lemma wp_finish_fork_origin prep captured w r :
  prep_gen prep ->
  wp (finish_fork prep captured)
    (fun child s => hush w s.1 /\ from_prep prep (pages r) (pages s.2) /\ pages child = pages s.2)
    (fun _ s => hush w s.1 /\ from_prep prep (pages r) (pages s.2)) (w, r).
Proof.
  intros Hg. unfold finish_fork. rewrite wp_bind. eapply wp_mono; [by apply wp_branch_origin| |done].
  intros b [w1 r1] (H1 & H2 & H3). rewrite wp_on_world. apply wp_from_pages_origin.
  - intros child w2 Hw Hp. cbn in *. split_and!; [etrans; eassumption|done|congruence].
  - intros e w2 Hw. split; [etrans; eassumption|done].
Qed.

(** [store] and [write] change no page object. *)
Lemma store_origin off bytes w r : pages (store off bytes (w, r)).1.2 = pages r.
Proof. done. Qed.

Lemma write_pages off bytes w r w' r' res : write off bytes (w, r) = ((w', r'), res) -> pages r' = pages r.
Proof.
  unfold write, get, lift, mbind, M_bind. cbn [fst snd]. destruct (checked_range r off (lenN bytes)) as [[a b]|e].
  - cbn [fst]. unfold store, modify, on_ram. intros [= _ <- _]. done.
  - by intros [= _ <- _].
Qed.

Lemma write_still off bytes w r K D w' r' res :
  ram_ok K (rm_storage w) D r -> write off bytes (w, r) = ((w', r'), res) -> w' = w.
Proof. intros Hok. rewrite (run_write K _ D) by done. destruct (in_range _ _ _); by intros [= <- _ _]. Qed.

(** The pages a fork in progress can end with. *)
Lemma prep_sources K w G k gu prep :
  system_ok K (mkRamSystem w G) -> G !! k = Some gu -> gu_prep gu = Some prep ->
  prep_gen prep /\
  forall l', from_prep prep (pages (gu_ram gu)) l' -> sourced k (mkRamSystem w G) l'.
Proof.
  intros Hsys Hk Hp. pose proof (so_guests _ _ Hsys k gu Hk) as Hg. cbn in Hg. split.
  - intros Hse i p Hip. pose proof (go_prep _ _ _ Hg prep Hp) as Hpo. unfold prep_ok in Hpo. rewrite Hse in Hpo.
    destruct Hpo as (_ & _ & _ & _ & Hpl & _). by eapply (pl_generation _ _ _ _ _ Hpl).
  - intros l' Hl p Hpl. destruct (Hl p Hpl) as [?|[Hse Heq]]; [left; eauto|right; right; cbn; eauto 6].
Qed.

(** Every transition is traced. *)
Lemma trans_traced K k s s' : system_ok K s -> ram_trans k s s' -> traced k s s'.
Proof.
  intros Hsys Ht. destruct Ht as [k w G len w' res Hq Hk [Hf _] Hn|k w G gu off bytes w' r' Hk Hin Hst|
    k w G gu off bytes w' r' res Hq Hk Hw|k j w G gu bitmap w' r' res Hq Hk Hj [Hf _] Hrep Hop|
    k w G gu captured w' r' res Hq Hk [Hf _] Hc Hop|k j w G gu prep captured w' r' res Hq Hk Hj Hp Hf Hc Hop|
    k w G gu Hq Hk|k w G gu L Hq Hk HL|k w G gu L Hq Hk HL|k w G gu prep captured w' r' branch Hq Hk Hp Hf Hc Hop|
    k w G gu seal w' r' res Hq Hk [Hf _] Hseal Hop|k w G Hq].
  - pose proof (wp_elim _ _ _ _ _ _ (wp_new_origin len w Hf) Hn) as H. destruct res as [r|e].
    + destruct H as [Hm Hp]. apply traced_insert; [done| |done]. intros p Hpg. right. left. cbn in *. rewrite Hp by done. done.
    + split; cbn; [done|eauto 6|eauto].
  - pose proof (so_guests _ _ Hsys k gu Hk) as Hg. cbn in Hg.
    rewrite (run_store K (rm_storage w) (gu_differs gu)) in Hst; [|apply Hg|done]. injection Hst as <- <-.
    apply traced_insert; [done|by eapply (sourced_old k w G k gu)|left; eauto].
  - pose proof (so_guests _ _ Hsys k gu Hk) as Hg. cbn in Hg. pose proof (write_pages _ _ _ _ _ _ _ Hw) as Hp.
    rewrite (write_still _ _ _ _ _ _ _ _ _ (go_ram _ _ _ Hg) Hw).
    apply traced_insert; [done| |done]. cbn. rewrite Hp. by apply (sourced_old k w G k gu).
  - unfold fork, logged_dirty in Hop. cbn in Hop. unfold gets, lift, mbind, M_bind in Hop. cbn in Hop.
    pose proof (wp_elim _ _ _ _ _ _ (wp_fork_origin _ w (gu_ram gu) Hf) Hop) as H. cbn in H.
    destruct res as [child|e]; [destruct H as (Hm & Hr & Hc)|destruct H as (Hm & Hr)].
    + apply traced_child; [apply traced_insert; [done|by eapply renewed_sourced|done]|]. rewrite Hc. by eapply renewed_sourced.
    + apply traced_insert; [done|by eapply renewed_sourced|done].
  - assert (wp (prepare_fork captured)
      (fun prep s => moved w s.1 /\ pages s.2 = pages (gu_ram gu) /\
         (seals_existing_generation prep = false -> g_id (prep_generation prep) = next_generation_id w))
      (fun _ s => moved w s.1 /\ pages s.2 = pages (gu_ram gu)) (w, gu_ram gu)) as Hwp by (by apply wp_prepare_origin).
    pose proof (wp_elim _ _ _ _ _ _ Hwp Hop) as H. cbn in H.
    destruct res as [prep|e]; [destruct H as (Hm & Hpg & Hid)|destruct H as (Hm & Hpg)];
      (apply traced_insert; [done|cbn; rewrite Hpg; by apply (sourced_old k w G k gu)|]).
    + intros prep' [= <-] Hse. right. rewrite Hid by done. lia.
    + done.
  - destruct (prep_sources _ _ _ _ _ _ Hsys Hk Hp) as [Hpg Hsrc].
    pose proof (wp_elim _ _ _ _ _ _ (wp_finish_fork_origin prep captured w (gu_ram gu) Hpg) Hop) as H. cbn in H.
    destruct res as [child|e]; [destruct H as (Hm%hush_moved & Hr & Hcp)|destruct H as (Hm%hush_moved & Hr)].
    + apply traced_child; [apply traced_insert; [done|by apply Hsrc|done]|]. rewrite Hcp. by apply Hsrc.
    + apply traced_insert; [done|by apply Hsrc|done].
  - apply traced_insert; [done|by apply (sourced_old k w G k gu)|done].
  - apply traced_insert; [done|by apply (sourced_old k w G k gu)|done].
  - apply traced_insert; [done|by apply (sourced_old k w G k gu)|done].
  - destruct (prep_sources _ _ _ _ _ _ Hsys Hk Hp) as [Hpg Hsrc].
    eapply wp_elim in Hop; [|by apply wp_branch_origin]. destruct Hop as (Hm%hush_moved & Hr & _).
    apply traced_insert; [done|by apply Hsrc|done].
  - rewrite (sealing_pages K w gu (so_guests _ _ Hsys k gu Hk) seal Hseal) in Hop.
    set (d := host_dirty _ ∪ _) in Hop.
    assert (wp (seal_pages d) (fun _ s => moved w s.1 /\ renewed w (pages (gu_ram gu)) (pages s.2))
      (fun _ s => moved w s.1 /\ renewed w (pages (gu_ram gu)) (pages s.2)) (w, gu_ram gu)) as Hwp.
    { unfold seal_pages. apply wp_assoc. rewrite wp_bind. eapply wp_mono; [by apply wp_seal_origin| |done]. by intros b s (? & ? & _). }
    pose proof (wp_elim _ _ _ _ _ _ Hwp Hop) as H. cbn in H.
    assert (moved w w' /\ renewed w (pages (gu_ram gu)) (pages r')) as [Hm Hr] by (by destruct res).
    apply traced_insert; [done|by destruct res; eapply renewed_sourced|by destruct res].
  - split; cbn; [done| |].
    + intros j gj p [_ Hj]%lookup_delete_Some Hp. left. eauto.
    + intros j gj prep [_ Hj]%lookup_delete_Some Hp _. left. eauto.
Qed.
