(* ===== verification/RamDurable.v ===== *)
(** * Durable guest RAM (crates/minidox-vmm/src/ram.rs)

    A checkpoint copies every generation file a RAM uses into the directory of
    generations, under the generation's number, and describes the RAM by the
    numbers of its pages; a restart opens the files and maps the pages again.
    This file has the operations. *)

From stdpp Require Import pretty.
From S2P Require Import Prelude Host CacheTypes Storage VmmTypes Ram.
Import Ram.

(** Where [lseek] finds the data and the holes of a file is up to the host's
    file system. *)
Class SparseFiles := {
  seek_data : Storage -> Inode -> N -> option N;
  seek_hole : Storage -> Inode -> N -> N
}.

Module RamDur.

(** ** Host calls *)

(** A call that reports its failure as a value. *)
Definition quietly {A} (m : SIO A) : RW A := sys "host call" m.

(** [ioctl(destination, FICLONE, source)]. *)
Definition ficlone (source destination : Inode) : SIO bool :=
  r ← attempt Sto.call;
  match r with
  | Err _ => mret false
  | Ok _ =>
      _ ← modify (fun st => set_data (<[destination := inode_bytes st source]> (sto_data st)) st);
      mret true
  end.

Section sparse.
Context `{SparseFiles}.

(** [lseek(file, offset, SEEK_DATA)]; without data from there on it is ENXIO. *)
Definition lseek_data (file : Inode) (offset : N) : SIO N :=
  _ ← Fd.call_but (fun e => bool_decide (e = RawOs ENXIO));
  st ← get;
  match seek_data st file offset with
  | Some data => mret data
  | None => throw (RawOs ENXIO)
  end.

(** [lseek(file, offset, SEEK_HOLE)]. *)
Definition lseek_hole (file : Inode) (offset : N) : SIO N :=
  _ ← Sto.call;
  gets (fun st => seek_hole st file offset).

(** ** Copying a generation *)

Definition COPY_BUFFER : N := 1048576.

(** The loop of [copy_generation_range]; every round but the last copies a
    whole buffer. *)
Fixpoint copy_range_rounds (fuel : nat) (source destination : Inode) (offset e : N) : RW unit :=
  match fuel with
  | O => mret tt
  | S fuel' =>
      if e <=? offset then mret tt else
      let count := N.min (e - offset) COPY_BUFFER in
      bytes ← sys "read RAM generation for persistence" (Fd.read_exact_at source count offset);
      _ ← sys "write durable RAM generation" (Fd.write_all_at destination bytes offset);
      copy_range_rounds fuel' source destination (offset + count) e
  end.

Definition copy_generation_range (source destination : Inode) (offset e : N) : RW unit :=
  copy_range_rounds (S (N.to_nat ((e - offset) / COPY_BUFFER))) source destination offset e.

(** The loop of [clone_or_copy_generation]; every round moves on by at least
    one byte. *)
Fixpoint copy_extents (fuel : nat) (source destination : Inode) (len offset : N) : RW unit :=
  match fuel with
  | O => mret tt
  | S fuel' =>
      if len <=? offset then mret tt else
      r ← quietly (attempt (lseek_data source offset));
      match r with
      | Err e =>
          if decide (e = RawOs ENXIO) then mret tt
          else if decide (e = RawOs EINVAL) then copy_generation_range source destination 0 len
          else throw (Backend "find RAM generation data extent" (CauseIo e))
      | Ok data =>
          if len <=? data then mret tt else
          h ← sys "find RAM generation hole" (lseek_hole source data);
          let hole := N.min h len in
          if hole <=? data
          then throw (Backend "copy RAM generation extent" (CauseIo (Custom InvalidData "invalid sparse-file extent")))
          else
            _ ← copy_generation_range source destination data hole;
            copy_extents fuel' source destination len hole
      end
  end.

(** [clone_or_copy_generation]. *)
Definition clone_or_copy_generation (source destination : Inode) (len : N) : RW unit :=
  cloned ← quietly (ficlone source destination);
  if cloned : bool then mret tt else
  _ ← sys "size durable RAM generation" (Fd.set_len destination len);
  copy_extents (N.to_nat len) source destination len 0.

(** ** Checkpoints *)

Definition generation_path (dir : string) (id : N) : Path := numbered dir "generation" id.

(** [persist_generation]. *)
Definition persist_generation (dir : string) (g : RamGeneration) : RW unit :=
  let destination := generation_path dir (g_id g) in
  there ← quietly (Fd.exists_path destination);
  if there : bool then mret tt else
  temporary ← sys "create durable RAM generation temporary file" (Fd.new_in dir);
  len ← sys "inspect RAM generation" (Fd.metadata_len (g_file g));
  _ ← clone_or_copy_generation (g_file g) temporary len;
  _ ← sys "sync durable RAM generation" (Sto.sync_data temporary);
  r ← quietly (attempt (Fd.persist_noclobber temporary destination));
  match r with
  | Ok _ => mret tt
  | Err e => if decide (error_kind e = AlreadyExists) then mret tt
             else throw (Backend "publish durable RAM generation" (CauseIo e))
  end.

(** The loop of [durable_state]: every generation once. *)
Fixpoint persist_pages (dir : string) (persisted : gset N) (l : list RamPage) : RW unit :=
  match l with
  | [] => mret tt
  | p :: l' =>
      let id := g_id (p_generation p) in
      if decide (id ∈ persisted) then persist_pages dir persisted l' else
      _ ← persist_generation dir (p_generation p);
      persist_pages dir ({[ id ]} ∪ persisted) l'
  end.

Definition page_state (p : RamPage) : RamPageState :=
  mkRamPageState (p_id p) (g_id (p_generation p)) (p_offset p).

(** [durable_state]. *)
Definition durable_state (dir : string) (r : KvmGuestRam) : RW RamState :=
  _ ← sys "create RAM generation directory" (Sto.create_dir_all dir);
  _ ← persist_pages dir ∅ (pages r);
  _ ← sys "sync RAM generation directory" (Sto.sync_directory dir);
  mret (mkRamState (ram_len r) (page_state <$> pages r)).

End sparse.

(** ** Restart *)

Definition invalid_data (message : string) : VmmError :=
  Backend "restore durable RAM branch" (CauseIo (Custom InvalidData message)).

(** The files of the generations in use. *)
Fixpoint open_generations (dir : string) (ids : list N) (generations : gmap N RamGeneration) :
    RW (gmap N RamGeneration) :=
  match ids with
  | [] => mret generations
  | id :: ids' =>
      file ← sys "open durable RAM generation" (Sto.open (generation_path dir id));
      open_generations dir ids' (<[id := mkRamGeneration id file]> generations)
  end.

(** What the loops of [restore] carry: the pages so far, and the largest numbers. *)
Record Restoring := mkRestoring { rs_pages : gmap N RamPage; max_page : N; max_generation : N }.

(** One page of a branch. *)
Definition restore_page (generations : gmap N RamGeneration) (s : RamPageState) (acc : Restoring) :
    RW (RamPage * Restoring) :=
  let max_page' := N.max (max_page acc) (ps_id s) in
  let max_generation' := N.max (max_generation acc) (ps_generation s) in
  match generations !! ps_generation s with
  | None => throw (invalid_data ("missing RAM generation " +:+ pretty (ps_generation s)))
  | Some g =>
      len ← sys "inspect durable RAM generation" (Fd.metadata_len (g_file g));
      if negb (ps_offset s mod RAM_PAGE_SIZE =? 0) || (len <? saturating_add (ps_offset s) RAM_PAGE_SIZE)
      then throw (invalid_data ("RAM page " +:+ pretty (ps_id s) +:+ " references an invalid range in generation "
                                +:+ pretty (ps_generation s)))
      else
        match rs_pages acc !! ps_id s with
        | Some existing =>
            if negb (g_id (p_generation existing) =? ps_generation s) || negb (p_offset existing =? ps_offset s)
            then throw (invalid_data ("RAM page " +:+ pretty (ps_id s) +:+ " has conflicting references"))
            else mret (existing, mkRestoring (rs_pages acc) max_page' max_generation')
        | None =>
            let p := mkRamPage (ps_id s) g (ps_offset s) in
            mret (p, mkRestoring (<[ps_id s := p]> (rs_pages acc)) max_page' max_generation')
        end
  end.

Fixpoint restore_pages (generations : gmap N RamGeneration) (l : list RamPageState) (acc : Restoring) :
    RW (list RamPage * Restoring) :=
  match l with
  | [] => mret ([], acc)
  | s :: l' =>
      first ← restore_page generations s acc;
      rest ← restore_pages generations l' first.2;
      mret (first.1 :: rest.1, rest.2)
  end.

Fixpoint restore_branches (generations : gmap N RamGeneration) (states : list RamState) (acc : Restoring) :
    RW (list KvmGuestRam * Restoring) :=
  match states with
  | [] => mret ([], acc)
  | s :: states' =>
      if negb (lenN (rst_pages s) * RAM_PAGE_SIZE =? rst_len s)
      then throw (invalid_data "RAM page manifest length does not match branch size")
      else
        branch ← restore_pages generations (rst_pages s) acc;
        ram ← from_pages (rst_len s) branch.1;
        rest ← restore_branches generations states' branch.2;
        mret (ram :: rest.1, rest.2)
  end.

(** [restore]. *)
Definition restore (states : list RamState) (dir : string) : RW (list KvmGuestRam) :=
  let ids : gset N := list_to_set (states ≫= fun s => ps_generation <$> rst_pages s) in
  generations ← open_generations dir (btree_elems ids) ∅;
  restored ← restore_branches generations states (mkRestoring ∅ 0 0);
  _ ← modify (fun w => mkRamWorld (rm_storage w)
        (N.max (next_page_id w) (saturating_add (max_page restored.2) 1))
        (N.max (next_generation_id w) (saturating_add (max_generation restored.2) 1)));
  mret restored.1.

(** [reserve_persisted_generation_ids]: numbers found in the directory are not
    given out again. *)
Definition persisted_id (name : string) : option N :=
  strip_prefix "generation-" name ≫= parse_u64.

Definition raise_next (next : N) (name : string) : N :=
  match persisted_id name with
  | Some id => N.max next (saturating_add id 1)
  | None => next
  end.

Definition next_free (names : list string) : N := foldl raise_next 1 names.

Definition reserve_persisted_generation_ids (dir : string) : RW unit :=
  names ← sys "scan RAM generation directory" (Fd.read_dir dir);
  modify (fun w => mkRamWorld (rm_storage w) (next_page_id w) (N.max (next_generation_id w) (next_free names))).

End RamDur.
