(* ===== verification/RamCopy.v ===== *)
(** * Durable guest RAM: copying generations

    Reads and writes of whole ranges, and the sparse copy of a generation
    file: whatever the host says about holes, a copy that succeeds has the
    bytes of the original. *)

From S2P Require Import Prelude Host CacheTypes Storage VmmTypes Ram RamInv RamDurable.
Import Ram RamDur.

Implicit Types (st : Storage) (i j : Inode) (c s bytes : list byte) (w : RamWorld).

(** ** Whole ranges *)

Lemma wp_read_exact_rounds fuel i n off Q R st :
  off + n <= lenN (inode_bytes st i) -> (N.to_nat n <= fuel)%nat ->
  (forall st', idle st st' -> Q (slice off n (inode_bytes st i)) st') ->
  (forall e st', idle st st' -> R e st') -> wp (Fd.read_exact_rounds fuel i n off) Q R st.
Proof.
  revert n off Q st. induction fuel as [|fuel IH]; intros n off Q st Hin Hf HQ HR; cbn [Fd.read_exact_rounds].
  { wp_steps. replace n with 0 in HQ by lia. apply HQ, idle_refl. }
  destruct (N.eqb_spec n 0) as [->|Hn].
  { wp_steps. apply HQ, idle_refl. }
  wp_steps. apply wp_sto_call; [|done]. intros o st1 H1. wp_steps. rewrite (idle_bytes _ _ _ H1).
  assert (0 < transfer o n <= n) as Ht by (unfold transfer; destruct o; lia).
  rewrite lenN_slice by lia. rewrite (proj2 (N.eqb_neq _ _)) by lia. wp_steps.
  apply IH; rewrite ?(idle_bytes _ _ _ H1); [lia|lia| |].
  - intros st2 H2. wp_steps. rewrite <-slice_split. replace (transfer o n + (n - transfer o n)) with n by lia.
    apply HQ. by eapply idle_trans.
  - intros e st2 H2. apply HR. by eapply idle_trans.
Qed.

Lemma wp_fd_read_exact i n off Q R st :
  off + n <= lenN (inode_bytes st i) ->
  (forall st', idle st st' -> Q (slice off n (inode_bytes st i)) st') ->
  (forall e st', idle st st' -> R e st') -> wp (Fd.read_exact_at i n off) Q R st.
Proof. intros. by apply wp_read_exact_rounds. Qed.

Lemma rewrites_lookup i c st st' : rewrites i c st st' -> sto_data st' !! i = Some c.
Proof. intros H. rewrite (rewrites_data _ _ _ _ H). apply lookup_insert_eq. Qed.

Lemma wp_write_all_rounds fuel i c bytes off Q R st :
  sto_data st !! i = Some c -> off <= lenN c -> (length bytes <= fuel)%nat ->
  (forall st', rewrites i (file_write off bytes c) st st' -> Q tt st') ->
  (forall e st' c', rewrites i c' st st' -> R e st') -> wp (Fd.write_all_rounds fuel i bytes off) Q R st.
Proof.
  revert c bytes off Q st. induction fuel as [|fuel IH]; intros c bytes off Q st Hc Hoff Hf HQ HR; cbn [Fd.write_all_rounds].
  { destruct bytes; [|cbn in Hf; lia]. wp_steps. apply HQ. rewrite file_write_nil by done. by apply idle_rewrites, idle_refl. }
  destruct (N.eqb_spec (lenN bytes) 0) as [H0|Hn].
  { destruct bytes; [|done]. wp_steps. apply HQ. rewrite file_write_nil by done. by apply idle_rewrites, idle_refl. }
  assert (bytes <> []) as Hne by (by intros ->). assert (inode_bytes st i = c) as Hb by (unfold inode_bytes; by rewrite Hc).
  wp_steps. apply wp_pwrite.
  2:{ intros e st1 H1. eapply HR. by eapply idle_rewrites. }
  intros n st1 Hle Hpos H1. rewrite Hb in H1. specialize (Hpos Hne). rewrite (proj2 (N.eqb_neq _ _)) by lia.
  assert (slice 0 n bytes = take (N.to_nat n) bytes) as Htake by done.
  assert (lenN (take (N.to_nat n) bytes) = n) as Hlt by (unfold lenN in *; rewrite length_take; lia).
  eapply IH; [by eapply rewrites_lookup| |rewrite length_drop; unfold lenN in Hle; lia| |].
  - rewrite Htake, length_file_write, Hlt. lia.
  - intros st2 H2. apply HQ. rewrite Htake in H2. pose proof (file_write_app off (take (N.to_nat n) bytes) (drop (N.to_nat n) bytes) c) as Happ.
    rewrite Hlt, take_drop in Happ. rewrite <-Happ. by eapply rewrites_trans.
  - intros e st2 c' H2. eapply HR. by eapply rewrites_trans.
Qed.

Lemma wp_fd_write_all i c bytes off Q R st :
  sto_data st !! i = Some c -> off <= lenN c ->
  (forall st', rewrites i (file_write off bytes c) st st' -> Q tt st') ->
  (forall e st' c', rewrites i c' st st' -> R e st') -> wp (Fd.write_all_at i bytes off) Q R st.
Proof. intros. by eapply wp_write_all_rounds. Qed.

Lemma wp_call_but fact Q (R : io_error -> Storage -> Prop) st :
  (forall st', idle st st' -> Q tt st') -> (forall e st', fact e = false -> idle st st' -> R e st') ->
  wp (Fd.call_but fact) Q R st.
Proof.
  intros HQ HR. unfold Fd.call_but. wp_steps. apply wp_sto_call.
  - intros o st' H. wp_steps. by apply HQ.
  - intros e st' H. destruct (fact e) eqn:He; wp_steps; auto.
Qed.

(** ** Copying a range *)

(** [c'] is [c] with the bytes of [s] from [o] to [e]. *)
Definition range_from (o e : N) s c c' : Prop :=
  lenN c' = lenN c /\ forall a, nthN c' a = if (o <=? a) && (a <? e) then nthN s a else nthN c a.

Lemma range_from_write s c o n :
  o + n <= lenN s -> lenN c = lenN s -> range_from o (o + n) s c (file_write o (slice o n s) c).
Proof.
  intros Hin Hl. assert (lenN (slice o n s) = n) as Hn by (by apply lenN_slice). split.
  - rewrite length_file_write, Hn. lia.
  - intros a. rewrite file_write_in_bounds, nthN_splice by lia. rewrite Hn. cmp; cbn; [|done..].
    rewrite nthN_slice. rewrite (proj2 (N.ltb_lt _ _)) by lia. f_equal. lia.
Qed.

Lemma range_from_trans s o m e c c1 c2 :
  o <= m -> m <= e -> range_from o m s c c1 -> range_from m e s c1 c2 -> range_from o e s c c2.
Proof.
  intros Ho Hm [L1 H1] [L2 H2]. split; [congruence|]. intros a. rewrite H2. cmp; cbn; rewrite ?H1; cmp; cbn; done || lia.
Qed.

(** A rewritten file, anything else as it was. *)
Definition rewritten j st st' : Prop := exists c, rewrites j c st st'.

Section copies.
Context (i j : Inode) (s : list byte).
Hypothesis Hij : i <> j.

Lemma rewrites_source c st st' : inode_bytes st i = s -> rewrites j c st st' -> inode_bytes st' i = s.
Proof. intros Hs H. by rewrite (rewrites_bytes _ _ _ _ i H), decide_False by congruence. Qed.

Lemma wp_copy_rounds_range fuel o e c Q (R : VmmError -> RamWorld -> Prop) w :
  inode_bytes (rm_storage w) i = s -> sto_data (rm_storage w) !! j = Some c -> lenN c = lenN s ->
  o <= e -> e <= lenN s -> (e - o <= N.of_nat fuel * COPY_BUFFER) ->
  (forall st' c', rewrites j c' (rm_storage w) st' -> range_from o e s c c' -> Q tt (set_ram_storage st' w)) ->
  (forall er st', rewritten j (rm_storage w) st' -> R er (set_ram_storage st' w)) ->
  wp (copy_range_rounds fuel i j o e) Q R w.
Proof.
  revert o c w. induction fuel as [|fuel IH]; intros o c w Hs Hc Hl Ho He Hf HQ HR; cbn [copy_range_rounds].
  { wp_steps. replace w with (set_ram_storage (rm_storage w) w) at 1 by (by destruct w).
    apply (HQ _ c); [by apply idle_rewrites, idle_refl|]. split; [done|]. intros a. cmp; cbn; done || lia. }
  destruct (N.leb_spec e o) as [Heo|Heo].
  { wp_steps. replace w with (set_ram_storage (rm_storage w) w) at 1 by (by destruct w).
    apply (HQ _ c); [by apply idle_rewrites, idle_refl|]. split; [done|]. intros a. cmp; cbn; done || lia. }
  set (count := N.min (e - o) COPY_BUFFER). assert (0 < count) as Hpos by (unfold count, COPY_BUFFER; lia).
  wp_steps. rewrite wp_sys. apply wp_fd_read_exact; [rewrite Hs; lia| |].
  2:{ intros er st' H. apply HR. exists c. by apply idle_rewrites. }
  intros st1 H1. rewrite Hs. wp_steps. rewrite wp_sys. cbn [rm_storage set_ram_storage].
  apply (wp_fd_write_all _ c); [by rewrite (idle_data _ _ H1)|lia| |].
  2:{ intros er st2 c' H2. apply HR. exists c'. eapply rewrites_trans; [by apply idle_rewrites|done]. }
  intros st2 H2. assert (rewrites j (file_write o (slice o count s) c) (rm_storage w) st2) as H2'
    by (eapply rewrites_trans; [by apply idle_rewrites|done]).
  pose proof (range_from_write s c o count ltac:(lia) Hl) as Hr.
  eapply (IH _ (file_write o (slice o count s) c)); cbn [rm_storage set_ram_storage].
  - by eapply rewrites_source.
  - by eapply rewrites_lookup.
  - destruct Hr. congruence.
  - lia.
  - done.
  - unfold count, COPY_BUFFER in *. lia.
  - intros st3 c' H3 Hr3. apply (HQ _ c'); [by eapply rewrites_trans|]. eapply range_from_trans; [| |exact Hr|exact Hr3]; lia.
  - intros er st3 [c' H3]. apply HR. exists c'. by eapply rewrites_trans.
Qed.

Lemma wp_copy_range o e c Q (R : VmmError -> RamWorld -> Prop) w :
  inode_bytes (rm_storage w) i = s -> sto_data (rm_storage w) !! j = Some c -> lenN c = lenN s ->
  o <= e -> e <= lenN s ->
  (forall st' c', rewrites j c' (rm_storage w) st' -> range_from o e s c c' -> Q tt (set_ram_storage st' w)) ->
  (forall er st', rewritten j (rm_storage w) st' -> R er (set_ram_storage st' w)) ->
  wp (copy_generation_range i j o e) Q R w.
Proof.
  intros. eapply wp_copy_rounds_range; try done. unfold COPY_BUFFER.
  pose proof (N.Div0.div_mod (e - o) 1048576). pose proof (N.mod_lt (e - o) 1048576). lia.
Qed.
End copies.

(** ** Sparse copies *)

(** What [lseek(2)] documents of SEEK_DATA: the answer is not before the
    offset asked for, and everything it skips reads as zeros. *)
Class SparseLaws `{SparseFiles} : Prop := seek_data_law st i off :
  off < lenN (inode_bytes st i) ->
  match seek_data st i off with
  | Some d => off <= d /\ forall a, off <= a < d -> a < lenN (inode_bytes st i) -> nthN (inode_bytes st i) a = Some zero_byte
  | None => forall a, off <= a < lenN (inode_bytes st i) -> nthN (inode_bytes st i) a = Some zero_byte
  end.

(** Copied up to [o], zeros from there on. *)
Definition copied_to (o : N) s c : Prop :=
  lenN c = lenN s /\ (forall a, a < o -> nthN c a = nthN s a) /\
  (forall a, o <= a < lenN s -> nthN c a = Some zero_byte).

Definition zeros (s : list byte) (o e : N) : Prop := forall a, o <= a < e -> a < lenN s -> nthN s a = Some zero_byte.

Lemma copied_to_end o s c : copied_to o s c -> zeros s o (lenN s) -> c = s.
Proof.
  intros (Hl & Hb & Hz) Hs. apply list_eq_nthN. intros a. destruct (decide (a < o)) as [Ha|Ha]; [by apply Hb|].
  destruct (decide (a < lenN s)) as [Hlt|Hge]; [|by rewrite !nthN_ge by lia]. rewrite Hz, Hs by lia. done.
Qed.

Lemma copied_to_range o d h s c c' :
  copied_to o s c -> o <= d -> d <= h -> zeros s o d -> range_from d h s c c' -> copied_to h s c'.
Proof.
  intros (Hl & Hb & Hz) Hod Hdh Hs [Hl' Hr]. split; [congruence|]. split.
  - intros a Ha. rewrite Hr. cmp; cbn; try done; try lia.
    destruct (decide (a < o)); [by apply Hb|].
    destruct (decide (a < lenN s)) as [Hlt|Hge]; [|by rewrite !nthN_ge by lia]. by rewrite Hz, Hs by lia.
  - intros a Ha. rewrite Hr. cmp; cbn; try lia; apply Hz; lia.
Qed.

Section sparse_copies.
Context `{SparseLaws} (i j : Inode) (s : list byte).
Hypothesis Hij : i <> j.

Lemma wp_lseek_data off Q (R : io_error -> Storage -> Prop) st :
  inode_bytes st i = s -> off < lenN s ->
  (forall d st', idle st st' -> off <= d -> zeros s off d -> Q d st') ->
  (forall e st', idle st st' -> (e = RawOs ENXIO -> zeros s off (lenN s)) -> R e st') ->
  wp (lseek_data i off) Q R st.
Proof.
  intros Hs Hoff HQ HR. unfold lseek_data. wp_steps. apply wp_call_but.
  - intros st' Hi. wp_steps. assert (inode_bytes st' i = s) as Hs' by (by rewrite (idle_bytes _ _ _ Hi)).
    pose proof (seek_data_law st' i off) as Hlaw. rewrite Hs' in Hlaw. specialize (Hlaw Hoff).
    destruct (seek_data st' i off) as [d|]; wp_steps.
    + destruct Hlaw. apply HQ; [done|done|]. done.
    + apply HR; [done|]. intros _ a Ha _. by apply Hlaw.
  - intros e st' He Hi. apply HR; [done|]. intros ->. by rewrite bool_decide_eq_true_2 in He.
Qed.

Lemma wp_lseek_hole off Q (R : io_error -> Storage -> Prop) st :
  (forall d st', idle st st' -> Q d st') -> (forall e st', idle st st' -> R e st') -> wp (lseek_hole i off) Q R st.
Proof.
  intros HQ HR. unfold lseek_hole. wp_steps. apply wp_sto_call; [|done]. intros o st' Hi. wp_steps. by apply HQ.
Qed.

Lemma wp_quietly {A} (m : SIO A) Q R w :
  wp m (fun a st => Q a (set_ram_storage st w)) (fun _ _ => False) (rm_storage w) -> wp (quietly m) Q R w.
Proof. intros Hm. unfold quietly. rewrite wp_sys. eapply wp_mono; [exact Hm|done|done]. Qed.

Lemma wp_copy_extents fuel o c Q (R : VmmError -> RamWorld -> Prop) w :
  inode_bytes (rm_storage w) i = s -> sto_data (rm_storage w) !! j = Some c -> copied_to o s c ->
  (N.to_nat (lenN s - o) <= fuel)%nat ->
  (forall st', rewrites j s (rm_storage w) st' -> Q tt (set_ram_storage st' w)) ->
  (forall er st', rewritten j (rm_storage w) st' -> R er (set_ram_storage st' w)) ->
  wp (copy_extents fuel i j (lenN s) o) Q R w.
Proof.
  revert o c w. induction fuel as [|fuel IH]; intros o c w Hs Hc Hco Hf HQ HR; cbn [copy_extents].
  { wp_steps. replace w with (set_ram_storage (rm_storage w) w) at 1 by (by destruct w). apply HQ.
    assert (c = s) as <- by (apply (copied_to_end o); [done|intros a Ha; lia]). by apply idle_rewrites, idle_refl. }
  destruct (N.leb_spec (lenN s) o) as [Hle|Hlt].
  { wp_steps. replace w with (set_ram_storage (rm_storage w) w) at 1 by (by destruct w). apply HQ.
    assert (c = s) as <- by (apply (copied_to_end o); [done|intros a Ha; lia]). by apply idle_rewrites, idle_refl. }
  wp_steps. apply wp_quietly. wp_steps. apply wp_lseek_data; [done|done| |].
  2:{ intros e st1 H1 Hnx. destruct (decide (e = RawOs ENXIO)) as [He|_].
      { wp_steps. apply HQ. rewrite <-(copied_to_end o s c) by auto. by apply idle_rewrites. }
      destruct (decide (e = RawOs EINVAL)) as [_|_]; wp_steps.
      - apply (wp_copy_range i j s Hij 0 (lenN s) c); cbn [rm_storage set_ram_storage];
          [by rewrite (idle_bytes _ _ _ H1)|by rewrite (idle_data _ _ H1)|apply Hco|lia|done| |].
        + intros st2 c' H2 [Hl Hr]. apply HQ. eapply rewrites_trans; [by apply idle_rewrites|].
          assert (c' = s) as <-; [|done]. apply list_eq_nthN. intros a. rewrite Hr. cmp; cbn; try done; try lia.
          destruct Hco. by rewrite !nthN_ge by lia.
        + intros er st2 [c' H2]. apply HR. exists c'. eapply rewrites_trans; [by apply idle_rewrites|done].
      - apply HR. exists c. by apply idle_rewrites. }
  intros d st1 H1 Hod Hz. destruct (N.leb_spec (lenN s) d) as [Hdl|Hdl].
  { wp_steps. apply HQ. rewrite <-(copied_to_end o s c); [by apply idle_rewrites|done|]. intros a Ha Hal. apply Hz; lia. }
  wp_steps. rewrite wp_sys. cbn [rm_storage set_ram_storage]. apply wp_lseek_hole.
  2:{ intros e st2 H2. apply HR. exists c. apply idle_rewrites; [done|by eapply idle_trans]. }
  intros h st2 H2. set (hole := N.min h (lenN s)). assert (idle (rm_storage w) st2) as H12 by (by eapply idle_trans).
  destruct (N.leb_spec hole d) as [Hhd|Hhd]; wp_steps.
  { apply HR. exists c. by apply idle_rewrites. }
  apply (wp_copy_range i j s Hij d hole c); cbn [rm_storage set_ram_storage];
    [by rewrite (idle_bytes _ _ _ H12)|by rewrite (idle_data _ _ H12)|apply Hco|lia|lia| |].
  2:{ intros er st3 [c' H3]. apply HR. exists c'. eapply rewrites_trans; [by apply idle_rewrites|done]. }
  intros st3 c' H3 Hr. assert (rewrites j c' (rm_storage w) st3) as H3' by (eapply rewrites_trans; [by apply idle_rewrites|done]).
  apply (IH hole c'); cbn [rm_storage set_ram_storage].
  - by eapply rewrites_source.
  - by eapply rewrites_lookup.
  - eapply copied_to_range; [exact Hco| | |exact Hz|exact Hr]; lia.
  - lia.
  - intros st4 H4. apply HQ. by eapply rewrites_trans.
  - intros er st4 [c4 H4]. apply HR. exists c4. by eapply rewrites_trans.
Qed.

(** [clone_or_copy_generation] into an empty file. *)
Lemma wp_clone_or_copy Q (R : VmmError -> RamWorld -> Prop) w :
  inode_bytes (rm_storage w) i = s -> sto_data (rm_storage w) !! j = Some [] ->
  (forall st', rewrites j s (rm_storage w) st' -> Q tt (set_ram_storage st' w)) ->
  (forall er st', rewritten j (rm_storage w) st' -> R er (set_ram_storage st' w)) ->
  wp (clone_or_copy_generation i j (lenN s)) Q R w.
Proof.
  intros Hs Hj HQ HR. unfold clone_or_copy_generation. wp_steps. apply wp_quietly. unfold ficlone. wp_steps. apply wp_sto_call.
  - intros o st1 H1. wp_steps. apply HQ. rewrite (idle_bytes _ _ _ H1), Hs. by apply set_data_rewrites.
  - intros e st1 H1. wp_steps. rewrite wp_sys. cbn [rm_storage set_ram_storage].
    assert (inode_bytes st1 j = []) as Hb by (unfold inode_bytes; by rewrite (idle_data _ _ H1), Hj).
    apply wp_fd_set_len; rewrite ?Hb.
    2:{ intros er st2 H2. apply HR. exists []. apply idle_rewrites; [done|by eapply idle_trans]. }
    intros st2 H2. set (c := resize_bytes (lenN s) []) in *.
    assert (rewrites j c (rm_storage w) st2) as H2' by (eapply rewrites_trans; [by apply idle_rewrites|done]).
    apply (wp_copy_extents _ 0 c); cbn [rm_storage set_ram_storage].
    + by eapply rewrites_source.
    + by eapply rewrites_lookup.
    + split_and!; [unfold c; apply lenN_resize|intros a Ha; lia|]. intros a Ha. unfold c. rewrite nthN_resize.
      rewrite (proj2 (N.ltb_lt _ _)) by lia. done.
    + lia.
    + intros st3 H3. apply HQ. by eapply rewrites_trans.
    + intros er st3 [c3 H3]. apply HR. exists c3. by eapply rewrites_trans.
Qed.
End sparse_copies.

(** C35. A persisted generation is an exact copy.  Whatever the host's file
    system says about data and holes, as long as what it skips reads as zeros,
    and whichever of the paths is taken -- a clone, the sparse copy, or the
    full copy where SEEK_DATA is not supported -- when
    [clone_or_copy_generation] reports success the new file has exactly the
    bytes of the generation, and no other file changed. *)
Theorem generation_copy_exact `{SparseLaws} (i j : Inode) (w w' : RamWorld) :
  i <> j -> sto_data (rm_storage w) !! j = Some [] ->
  clone_or_copy_generation i j (lenN (inode_bytes (rm_storage w) i)) w = (w', Ok tt) ->
  inode_bytes (rm_storage w') j = inode_bytes (rm_storage w) i /\
  forall f, f <> j -> inode_bytes (rm_storage w') f = inode_bytes (rm_storage w) f.
Proof.
  intros Hij Hj Hrun. pose proof (wp_elim _ _ _ _ _ _ (wp_clone_or_copy i j (inode_bytes (rm_storage w) i) Hij
    (fun _ w' => rewrites j (inode_bytes (rm_storage w) i) (rm_storage w) (rm_storage w')) (fun _ _ => True) w
    eq_refl Hj ltac:(by intros) ltac:(done)) Hrun) as Hr.
  split; [by rewrite (rewrites_bytes _ _ _ _ j Hr), decide_True|].
  intros f Hf. by rewrite (rewrites_bytes _ _ _ _ f Hr), decide_False.
Qed.
