(* ===== verification/RamArchive.v ===== *)
(** * Durable guest RAM: the directory of generations

    A file of the directory never changes once it has its name, and has the
    bytes of the generation whose number it bears.  What [persist_generation]
    and [durable_state] add, and how the RAM of a running process keeps it. *)

From S2P Require Import Prelude Host CacheTypes Storage VmmTypes Ram RamInv RamMap RamFork RamOps RamBranch RamMemory RamSpec RamOrigin RamDurable RamCopy.
Import Ram RamDur.

#[local] Opaque slot_at slice.

Implicit Types (st : Storage) (w : RamWorld) (p : RamPage) (g : RamGeneration) (f : Inode) (c : list byte).

(** ** Publishing a file *)

(** Files may have been added, without a name. *)
Definition adds st st' : Prop := grows ∅ st st' /\ still st st'.

Lemma adds_refl st : adds st st.
Proof. split; [apply grows_refl|done]. Qed.
Lemma adds_trans st1 st2 st3 : adds st1 st2 -> adds st2 st3 -> adds st1 st3.
Proof. intros [G1 S1] [G2 S2]. split; [by eapply grows_trans|by etrans]. Qed.
Lemma idle_adds st st' : idle st st' -> adds st st'.
Proof. intros []. by split. Qed.

(** A new file without a name that holds [c]. *)
Record nameless f c st st' : Prop := {
  nl_adds : adds st st';
  nl_new : sto_next st <= f < sto_next st';
  nl_data : sto_data st' !! f = Some c
}.

Lemma creates_nameless st st' : creates (sto_next st) st st' -> nameless (sto_next st) [] st st'.
Proof.
  intros [G Hf Hd Hn Hna Hsn Hdi]. split; [by split|lia|]. rewrite Hd. apply lookup_insert_eq.
Qed.

Lemma nameless_idle f c st1 st2 st3 : nameless f c st1 st2 -> idle st2 st3 -> nameless f c st1 st3.
Proof.
  intros [A1 A2 A3] I. split; [eapply adds_trans; [exact A1|by apply idle_adds]| |].
  - by rewrite (idle_next _ _ I).
  - by rewrite (idle_data _ _ I).
Qed.

Lemma nameless_rewrites f c c' st1 st2 st3 : nameless f c st1 st2 -> rewrites f c' st2 st3 -> nameless f c' st1 st3.
Proof.
  intros [[G1 S1] A2 A3] [G Hd Hn Hna Hsn Hdi]. split; [split| |].
  - eapply grows_fresh; [exact G1|exact G|]. intros i ->%elem_of_singleton. right. apply A2.
  - etrans; [exact S1|]. by split.
  - by rewrite Hn.
  - rewrite Hd. apply lookup_insert_eq.
Qed.

(** The path [q] names a new, synchronised file that holds [c]. *)
Record publishes (q : Path) f c st st' : Prop := {
  pub_grows : grows ∅ st st';
  pub_new : sto_next st <= f < sto_next st';
  pub_bytes : inode_bytes st' f = c;
  pub_synced : sto_stable st' !! f = sto_data st' !! f;
  pub_free : sto_names st !! q = None;
  pub_names : sto_names st' = <[q := f]> (sto_names st);
  pub_stable_names : sto_stable_names st' = sto_stable_names st
}.

Lemma wp_exists_path q Q (R : io_error -> Storage -> Prop) st :
  (forall b st', idle st st' -> (b = true -> is_Some (sto_names st !! q)) -> Q b st') -> wp (Fd.exists_path q) Q R st.
Proof.
  intros HQ. unfold Fd.exists_path. wp_steps. apply wp_sto_call.
  - intros o st' Hi. wp_steps. apply HQ; [done|]. rewrite (idle_names _ _ Hi). apply bool_decide_eq_true_1.
  - intros e st' Hi. wp_steps. by apply HQ.
Qed.

Lemma wp_metadata_len f Q (R : io_error -> Storage -> Prop) st :
  (forall st', idle st st' -> Q (lenN (inode_bytes st f)) st') -> (forall e st', idle st st' -> R e st') ->
  wp (Fd.metadata_len f) Q R st.
Proof.
  intros HQ HR. unfold Fd.metadata_len. wp_steps. apply wp_sto_call; [|done]. intros o st' Hi. wp_steps.
  rewrite (idle_bytes _ _ _ Hi). by apply HQ.
Qed.

Lemma wp_new_in dir Q (R : io_error -> Storage -> Prop) st :
  dir ∈ sto_dirs st -> (forall st', nameless (sto_next st) [] st st' -> Q (sto_next st) st') ->
  (forall e st', idle st st' -> R e st') -> wp (Fd.new_in dir) Q R st.
Proof.
  intros Hd HQ HR. unfold Fd.new_in. wp_steps. rewrite decide_False by (by intros H; apply H).
  apply wp_fd_tempfile; [|done]. intros st' C. by apply HQ, creates_nameless.
Qed.

Lemma wp_sync_nameless f c Q (R : io_error -> Storage -> Prop) st0 st :
  nameless f c st0 st ->
  (forall st', nameless f c st0 st' -> sto_stable st' !! f = sto_data st' !! f -> Q tt st') ->
  (forall e st', nameless f c st0 st' -> R e st') -> wp (Sto.sync_data f) Q R st.
Proof.
  intros N HQ HR. unfold Sto.sync_data. wp_steps. apply wp_sto_call.
  2:{ intros e st1 H1. apply HR. by eapply nameless_idle. }
  intros o st1 H1. wp_steps. pose proof (nameless_idle _ _ _ _ _ N H1) as [[G1 S1] Hnew Hdata].
  apply HQ; [|cbn; by rewrite lookup_partial_alter_eq, Hdata]. split; [split; [|by destruct S1]|done|done].
  eapply grows_trans; [exact G1|]. split; cbn; try done. intros i Hi _ Hs.
  destruct (decide (f = i)) as [<-|Hne]; [by rewrite lookup_partial_alter_eq, Hdata|by rewrite lookup_partial_alter_ne].
Qed.

(** Give a synchronised file its name. *)
Lemma wp_publish_file f c q Q (R : io_error -> Storage -> Prop) st0 st :
  nameless f c st0 st -> sto_stable st !! f = sto_data st !! f ->
  (forall st', publishes q f c st0 st' -> Q tt st') ->
  (forall e st', adds st0 st' -> (error_kind e = AlreadyExists -> is_Some (sto_names st0 !! q)) -> R e st') ->
  wp (Fd.persist_noclobber f q) Q R st.
Proof.
  intros N Hsync HQ HR. unfold Fd.persist_noclobber. wp_steps. apply wp_call_but.
  - intros st1 H1. wp_steps. pose proof (nameless_idle _ _ _ _ _ N H1) as [[G1 [S1 S2 S3]] Hnew Hdata].
    assert (sto_stable st1 !! f = sto_data st1 !! f) as Hsync1.
    { apply (grows_stable _ _ _ (idle_grows _ _ H1)); [apply N|set_solver|done]. }
    rewrite S1. destruct (sto_names st0 !! q) as [i|] eqn:Hq; wp_steps.
    + apply HR; [by split|eauto].
    + apply HQ. split; cbn; [|done|unfold inode_bytes; cbn; by rewrite Hdata|done|done|by rewrite S1|done].
      eapply grows_trans; [exact G1|]. split; cbn; try done. rewrite S1. by apply insert_subseteq.
  - intros e st1 He H1. apply HR; [apply (nl_adds _ _ _ _ (nameless_idle _ _ _ _ _ N H1))|].
    intros Hk. by rewrite bool_decide_eq_true_2 in He.
Qed.

Section persist.
Context `{SparseLaws} (dir : string).

Abbreviation gpath := (generation_path dir).

Lemma wp_persist_generation g Q (R : VmmError -> RamWorld -> Prop) w :
  dir ∈ sto_dirs (rm_storage w) -> g_file g < sto_next (rm_storage w) ->
  (forall st', adds (rm_storage w) st' -> is_Some (sto_names (rm_storage w) !! gpath (g_id g)) -> Q tt (set_ram_storage st' w)) ->
  (forall f st', publishes (gpath (g_id g)) f (inode_bytes (rm_storage w) (g_file g)) (rm_storage w) st' ->
    Q tt (set_ram_storage st' w)) ->
  (forall e st', adds (rm_storage w) st' -> R e (set_ram_storage st' w)) ->
  wp (persist_generation dir g) Q R w.
Proof.
  intros Hd Hlt HQ1 HQ2 HR. unfold persist_generation. wp_steps. apply wp_quietly, wp_exists_path.
  intros b st1 H1 Hb. destruct b; wp_steps; [apply HQ1; [by apply idle_adds|by apply Hb]|].
  rewrite wp_sys. cbn [rm_storage set_ram_storage]. apply wp_new_in; [by rewrite (idle_dirs _ _ H1)| |].
  2:{ intros e st2 H2. apply HR, idle_adds. by eapply idle_trans. }
  intros st2 N2. wp_steps. rewrite wp_sys. cbn [rm_storage set_ram_storage]. rewrite (idle_next _ _ H1) in *.
  set (f := sto_next (rm_storage w)) in *.
  assert (nameless f [] (rm_storage w) st2) as N2'.
  { destruct N2 as [A2 B2 C2]. split; [eapply adds_trans; [by apply idle_adds|exact A2]|lia|done]. }
  assert (inode_bytes st2 (g_file g) = inode_bytes (rm_storage w) (g_file g)) as Hb2.
  { unfold inode_bytes. rewrite (grows_data _ _ _ (proj1 (nl_adds _ _ _ _ N2'))); [done|exact Hlt|set_solver]. }
  apply wp_metadata_len.
  2:{ intros e st3 H3. apply HR, (nl_adds f []). by eapply nameless_idle. }
  intros st3 H3. rewrite Hb2. pose proof (nameless_idle _ _ _ _ _ N2' H3) as N3. wp_steps.
  apply (wp_clone_or_copy _ f (inode_bytes (rm_storage w) (g_file g))); cbn [rm_storage set_ram_storage];
    [unfold f; lia|by rewrite (idle_bytes _ _ _ H3)|apply N3| |].
  2:{ intros e st4 [c4 H4]. apply HR, (nl_adds f c4). by eapply nameless_rewrites. }
  intros st4 H4. pose proof (nameless_rewrites _ _ _ _ _ _ N3 H4) as N4. wp_steps. rewrite wp_sys. cbn [rm_storage set_ram_storage].
  apply (wp_sync_nameless f (inode_bytes (rm_storage w) (g_file g)) _ _ _ _ N4).
  2:{ intros e st5 N5. apply HR, N5. }
  intros st5 N5 Hs5. wp_steps. apply wp_quietly. wp_steps. cbn [rm_storage set_ram_storage].
  apply (wp_publish_file f (inode_bytes (rm_storage w) (g_file g)) (gpath (g_id g)) _ _ _ _ N5 Hs5).
  - intros st6 P6. wp_steps. by eapply HQ2.
  - intros e st6 A6 Hk. destruct (decide (error_kind e = AlreadyExists)) as [He|He]; wp_steps; [apply HQ1; auto|by apply HR].
Qed.

(** ** The archive *)

(** The directory, when [X] are the files some guest may write and [P] the
    pages guests hold: every number it has is used up, its files are never
    written and are synchronised, and a page whose generation it has can be
    read from there. *)
Record archive w (X : Inode -> Prop) (P : RamPage -> Prop) : Prop := {
  ar_wf : storage_wf (rm_storage w);
  ar_max : next_generation_id w <= u64_MAX;
  ar_page_max : next_page_id w <= u64_MAX;
  ar_id id f : sto_names (rm_storage w) !! gpath id = Some f -> id < next_generation_id w;
  ar_file id f : sto_names (rm_storage w) !! gpath id = Some f -> (~ X f) /\
    sto_stable (rm_storage w) !! f = sto_data (rm_storage w) !! f;
  ar_page p f : P p -> sto_names (rm_storage w) !! gpath (g_id (p_generation p)) = Some f ->
    (~ X (page_file p)) /\ inode_bytes (rm_storage w) f = inode_bytes (rm_storage w) (page_file p);
  ar_stable id f : sto_stable_names (rm_storage w) !! gpath id = Some f ->
    sto_names (rm_storage w) !! gpath id = Some f
}.

Lemma grows_bytes Y st st' f : grows Y st st' -> f < sto_next st -> f ∉ Y -> inode_bytes st' f = inode_bytes st f.
Proof. intros G Hf HY. unfold inode_bytes. by rewrite (grows_data _ _ _ G). Qed.

(** Guests ran: files of [X] changed, no name did. *)
Lemma archive_step Y w w' (X X' : Inode -> Prop) (P P' : RamPage -> Prop) :
  archive w X P -> grows Y (rm_storage w) (rm_storage w') -> (forall f, f ∈ Y -> X f) ->
  sto_names (rm_storage w') = sto_names (rm_storage w) ->
  sto_stable_names (rm_storage w') = sto_stable_names (rm_storage w) ->
  next_generation_id w <= next_generation_id w' <= u64_MAX -> next_page_id w' <= u64_MAX ->
  (forall f, X' f -> X f \/ sto_next (rm_storage w) <= f) ->
  (forall p, P p -> page_file p < sto_next (rm_storage w)) ->
  (forall p, P' p -> P p \/ sto_names (rm_storage w) !! gpath (g_id (p_generation p)) = None) ->
  archive w' X' P'.
Proof.
  intros A G HY Hn Hs Hg Hpm HX HP HP'.
  assert (forall id f, sto_names (rm_storage w) !! gpath id = Some f -> f < sto_next (rm_storage w) /\ (f ∉ Y) /\ (~ X' f)) as Hold.
  { intros id f Hf. pose proof (wf_names _ (ar_wf _ _ _ A) _ _ Hf) as Hlt. destruct (ar_file _ _ _ A id f Hf) as [HnX _].
    split_and!; [done|auto|]. intros [?|?]%HX; [done|lia]. }
  split.
  - destruct (ar_wf _ _ _ A) as [W1 W2]. pose proof (grows_next _ _ _ G).
    split; intros q i; rewrite ?Hn, ?Hs; intros Hq; [apply W1 in Hq|apply W2 in Hq]; lia.
  - lia.
  - done.
  - intros id f. rewrite Hn. intros Hf. pose proof (ar_id _ _ _ A id f Hf). lia.
  - intros id f. rewrite Hn. intros Hf. destruct (Hold id f Hf) as (Hlt & HfY & HfX). split; [done|].
    apply (grows_stable _ _ _ G); [done|done|]. by apply (ar_file _ _ _ A id f).
  - intros p f HpP. rewrite Hn. intros Hf. destruct (HP' p HpP) as [Hp|Hnone]; [|congruence].
    destruct (Hold _ _ Hf) as (Hlt & HfY & HfX). destruct (ar_page _ _ _ A p f Hp Hf) as [HnX Hb].
    pose proof (HP p Hp) as Hpl. split.
    + intros [?|?]%HX; [done|lia].
    + rewrite (grows_bytes _ _ _ _ G Hlt HfY), Hb. symmetry. apply (grows_bytes _ _ _ _ G Hpl). auto.
  - intros id f. rewrite Hs, Hn. apply (ar_stable _ _ _ A).
Qed.

Section persisting.
Context (X : Inode -> Prop) (P : RamPage -> Prop).

(** What guests hold is known and named apart. *)
Record held w : Prop := {
  he_file p : P p -> page_file p < sto_next (rm_storage w);
  he_id p : P p -> g_id (p_generation p) < next_generation_id w;
  he_same p q : P p -> P q -> g_id (p_generation p) = g_id (p_generation q) -> p_generation p = p_generation q;
  he_owned f : X f -> f < sto_next (rm_storage w)
}.

Lemma held_grows Y w st' : held w -> grows Y (rm_storage w) st' -> held (set_ram_storage st' w).
Proof.
  intros [H1 H2 H3 H4] G. pose proof (grows_next _ _ _ G). split; cbn; [|done|done|].
  - intros p Hp. apply H1 in Hp. lia.
  - intros f Hf. apply H4 in Hf. lia.
Qed.

Lemma archive_same w st' :
  archive w X P -> held w -> grows ∅ (rm_storage w) st' -> sto_names st' = sto_names (rm_storage w) ->
  sto_stable_names st' = sto_stable_names (rm_storage w) -> archive (set_ram_storage st' w) X P.
Proof.
  intros A Hh G Hn Hs. eapply (archive_step ∅ w); [exact A|exact G|set_solver|exact Hn|exact Hs| |apply A|by left|apply Hh|by left].
  cbn. split; [done|apply A].
Qed.

Lemma archive_publishes w p f st' :
  archive w X P -> held w -> P p -> ~ X (page_file p) ->
  publishes (gpath (g_id (p_generation p))) f (inode_bytes (rm_storage w) (page_file p)) (rm_storage w) st' ->
  archive (set_ram_storage st' w) X P.
Proof.
  intros A Hh Hp HX [G Hnew Hb Hsync Hfree Hn Hsn].
  assert (forall id f0, sto_names st' !! gpath id = Some f0 ->
    (id = g_id (p_generation p) /\ f0 = f) \/ (id <> g_id (p_generation p) /\ sto_names (rm_storage w) !! gpath id = Some f0)) as Hcases.
  { intros id f0. rewrite Hn. intros [[Hq <-]|[Hq Hf]]%lookup_insert_Some.
    - left. apply numbered_inj in Hq. by split.
    - right. split; [|done]. intros ->. congruence. }
  split; cbn.
  - destruct (ar_wf _ _ _ A) as [W1 W2]. pose proof (grows_next _ _ _ G). split; intros q i; rewrite ?Hn, ?Hsn.
    + intros [[_ <-]|[_ Hq]]%lookup_insert_Some; [lia|]. apply W1 in Hq. lia.
    + intros Hq. apply W2 in Hq. lia.
  - apply A.
  - apply A.
  - intros id f0 [[-> ->]|[_ Hf]]%Hcases; [by apply Hh|by eapply ar_id].
  - intros id f0 [[-> ->]|[_ Hf]]%Hcases.
    + split; [|done]. intros HXf. apply (he_owned _ Hh) in HXf. lia.
    + destruct (ar_file _ _ _ A _ _ Hf) as [H1 H2]. split; [done|].
      apply (grows_stable _ _ _ G); [by eapply wf_names; [apply A|]|set_solver|done].
  - intros q f0 Hq Hf0. pose proof (grows_bytes ∅ _ _ (page_file q) G (he_file _ Hh q Hq)) as Hqb.
    rewrite Hqb by set_solver. destruct (Hcases _ _ Hf0) as [[Hid ->]|[_ Hf]].
    + assert (page_file q = page_file p) as -> by (unfold page_file; by rewrite (he_same _ Hh q p)). by rewrite Hb.
    + destruct (ar_page _ _ _ A _ _ Hq Hf) as [H1 H2]. split; [done|]. rewrite <-H2.
      apply (grows_bytes ∅ _ _ _ G); [by eapply wf_names; [apply A|]|set_solver].
  - intros id f0. rewrite Hsn. intros Hf%(ar_stable _ _ _ A). by eapply grows_name.
Qed.

(** The state between two generations. *)
Definition archiving w w' : Prop :=
  exists st', w' = set_ram_storage st' w /\ grows ∅ (rm_storage w) st' /\ archive w' X P.

Lemma wp_persist_pages seen l w w0 :
  dir ∈ sto_dirs (rm_storage w) -> held w0 -> archiving w0 w ->
  (forall p, p ∈ l -> P p /\ (~ X (page_file p))) ->
  (forall id, id ∈ seen -> is_Some (sto_names (rm_storage w) !! gpath id)) ->
  wp (persist_pages dir seen l)
    (fun _ w' => archiving w0 w' /\ sto_names (rm_storage w) ⊆ sto_names (rm_storage w') /\
       forall p, p ∈ l -> is_Some (sto_names (rm_storage w') !! gpath (g_id (p_generation p))))
    (fun _ w' => archiving w0 w') w.
Proof.
  revert seen w. induction l as [|p l IH]; intros seen w Hd Hh0 Ha Hl Hseen; cbn [persist_pages].
  { wp_steps. split_and!; [done|done|]. intros p []%not_elem_of_nil. }
  destruct (Hl p) as [Hp HX]; [left|]. destruct Ha as (st & -> & G & A). pose proof (held_grows _ _ _ Hh0 G) as Hh.
  set (w := set_ram_storage st w0) in *.
  assert (forall w', archiving w0 w' -> sto_names (rm_storage w) ⊆ sto_names (rm_storage w') ->
    dir ∈ sto_dirs (rm_storage w') -> (forall id, id ∈ ({[ g_id (p_generation p) ]} ∪ seen) -> is_Some (sto_names (rm_storage w') !! gpath id)) ->
    wp (persist_pages dir ({[ g_id (p_generation p) ]} ∪ seen) l)
      (fun _ w' => archiving w0 w' /\ sto_names (rm_storage w) ⊆ sto_names (rm_storage w') /\
         forall q, q ∈ p :: l -> is_Some (sto_names (rm_storage w') !! gpath (g_id (p_generation q))))
      (fun _ w' => archiving w0 w') w') as Hnext.
  { intros w' Ha' Hn' Hd' Hs'. eapply wp_mono; [apply IH; [done|done|done| |done]| |done].
    - intros q Hq. apply Hl. by right.
    - intros [] w2 (H1 & H2 & H3). split_and!; [done|by etrans|]. intros q [->|Hq]%elem_of_cons; [|by apply H3].
      destruct (Hs' (g_id (p_generation p))) as [i Hi]; [set_solver|]. exists i. by eapply lookup_weaken. }
  case_decide as Hin.
  { assert ({[ g_id (p_generation p) ]} ∪ seen = seen) as Heq by set_solver. rewrite <-Heq at 1.
    apply Hnext; [by exists st|done|done|]. rewrite Heq. exact Hseen. }
  wp_steps. apply wp_persist_generation; [done|by apply (he_file _ Hh)| | |].
  - intros st' [G' [N1 N2 N3]] Hsome. apply Hnext; cbn.
    + exists st'. split_and!; [done|by eapply grows_trans|]. by apply (archive_same w).
    + by rewrite N1.
    + by rewrite N3.
    + intros id [->%elem_of_singleton|Hid]%elem_of_union; rewrite N1; [done|by apply Hseen].
  - intros f st' Pb. pose proof (pub_grows _ _ _ _ _ Pb) as G'. pose proof (pub_names _ _ _ _ _ Pb) as N1. apply Hnext; cbn.
    + exists st'. split_and!; [done|by eapply grows_trans|]. by eapply (archive_publishes w).
    + apply G'.
    + by apply G'.
    + intros id [->%elem_of_singleton|Hid]%elem_of_union; [rewrite N1, lookup_insert_eq; by eexists|].
      destruct (Hseen id Hid) as [i Hi]. exists i. by eapply grows_name.
  - intros e st' [G' [N1 N2 N3]]. exists st'. split_and!; [done|by eapply grows_trans|]. by apply (archive_same w).
Qed.

Lemma wp_create_dir Q (R : io_error -> Storage -> Prop) st :
  (forall st', grows ∅ st st' -> sto_names st' = sto_names st -> sto_stable_names st' = sto_stable_names st ->
    dir ∈ sto_dirs st' -> Q tt st') ->
  (forall e st', idle st st' -> R e st') -> wp (Sto.create_dir_all dir) Q R st.
Proof.
  intros HQ HR. unfold Sto.create_dir_all. wp_steps. apply wp_sto_call; [|done].
  intros o st1 [G1 D1 X1 N1 S1 E1]. wp_steps. apply HQ; cbn; [|done|done|set_solver].
  eapply grows_trans; [exact G1|]. split; cbn; try done. set_solver.
Qed.

(** The names of the directory become durable. *)
Lemma wp_sync_archive w0 w (Q : unit -> RamWorld -> Prop) (R : VmmError -> RamWorld -> Prop) op :
  held w0 -> archiving w0 w ->
  (forall w', archiving w0 w' -> sto_names (rm_storage w') = sto_names (rm_storage w) ->
    (forall q i, sto_names (rm_storage w) !! q = Some i -> q.1 = dir -> sto_stable_names (rm_storage w') !! q = Some i) ->
    Q tt w') ->
  (forall e w', archiving w0 w' -> R e w') ->
  wp (sys op (Sto.sync_directory dir)) Q R w.
Proof.
  intros Hh0 (st & -> & G & A) HQ HR. pose proof (held_grows _ _ _ Hh0 G) as Hh. rewrite wp_sys. cbn [rm_storage set_ram_storage].
  unfold Sto.sync_directory. wp_steps. apply wp_sto_call.
  2:{ intros e st1 [G1 D1 X1 N1 S1 E1]. apply HR. exists st1. split_and!; [done|by eapply grows_trans|].
      by apply (archive_same (set_ram_storage st w0)). }
  intros o st1 [G1 D1 X1 N1 S1 E1]. wp_steps.
  assert (forall q i, sto_names st1 !! q = Some i -> q.1 = dir -> Sto.sync_names dir st1 !! q = Some i) as Hdir.
  { intros q i Hq Hqd. rewrite lookup_sync_names; [done|congruence|done]. }
  set (st2 := set_stable_names (Sto.sync_names dir st1) st1).
  assert (grows ∅ st st2) as G2.
  { eapply grows_trans; [exact G1|]. split; cbn; try done. intros q i Hq Hsp. destruct (decide (q.1 = dir)); [by apply Hdir|].
    unfold Sto.sync_names. apply lookup_union_Some_raw. right. rewrite map_lookup_filter_None, map_lookup_filter_Some.
    split; [|done]. right. by intros ? _. }
  assert (forall q i, Sto.sync_names dir st1 !! q = Some i ->
    (q.1 = dir /\ sto_names st !! q = Some i) \/ sto_stable_names st !! q = Some i) as Hinv.
  { intros q i. unfold Sto.sync_names. rewrite N1, S1.
    intros [[Hq Hqd]%map_lookup_filter_Some|[_ [Hq _]%map_lookup_filter_Some]]%lookup_union_Some_raw; [left|right]; done. }
  apply HQ; cbn; [|done|intros q i; rewrite <-N1; apply Hdir].
  exists st2. split_and!; [done|by eapply grows_trans|].
  assert (archive (set_ram_storage st1 (set_ram_storage st w0)) X P) as A1 by (by apply (archive_same (set_ram_storage st w0))).
  destruct A1 as [[W1 W2] A2 A2' A3 A4 A5 A6]. split; cbn in *; try done.
  - split; cbn; [done|]. intros q i [[_ Hq]|Hq]%Hinv; [apply (W1 q)|apply (W2 q)]; by rewrite ?N1, ?S1.
  - intros id f [[_ Hq]|Hq]%Hinv; [by rewrite N1|]. apply A6. by rewrite S1.
Qed.

(** [durable_state]: every generation of the RAM is in the archive for good. *)
Lemma wp_ram_state r w :
  held w -> archive w X P -> (forall p, p ∈ pages r -> P p /\ (~ X (page_file p))) ->
  wp (durable_state dir r)
    (fun s w' => archiving w w' /\ s = mkRamState (ram_len r) (page_state <$> pages r) /\
       forall p, p ∈ pages r -> exists f, sto_names (rm_storage w') !! gpath (g_id (p_generation p)) = Some f /\
         sto_stable_names (rm_storage w') !! gpath (g_id (p_generation p)) = Some f)
    (fun _ w' => archiving w w') w.
Proof.
  intros Hh A Hr. unfold durable_state. wp_steps. rewrite wp_sys. apply wp_create_dir.
  2:{ intros e st1 [G1 D1 X1 N1 S1 E1]. exists st1. split_and!; [done|done|by apply archive_same]. }
  intros st1 G1 N1 S1 D1. wp_steps.
  assert (archiving w (set_ram_storage st1 w)) as H1 by (exists st1; split_and!; [done|done|by apply archive_same]).
  eapply wp_mono; [apply (wp_persist_pages ∅ (pages r) _ w); [done|done|done|done|set_solver]| |done].
  intros [] w2 (H2 & _ & Hall). wp_steps. apply (wp_sync_archive w); [done|done| |done].
  intros w3 H3 N3 Hst. wp_steps. split_and!; [done|done|]. intros p Hp. destruct (Hall p Hp) as [f Hf].
  exists f. rewrite N3. split; [done|]. by apply Hst.
Qed.
End persisting.
End persist.
