(* ===== verification/RamRestore.v ===== *)
(** * Durable guest RAM: the restart

    The numbers in the directory are read back, and restoring descriptions
    whose files are there gives the RAM they describe. *)

From stdpp Require Import pretty.
From Stdlib Require Import Ascii.
From S2P Require Import Prelude Host CacheTypes Storage VmmTypes Ram RamInv RamMap RamFork RamOps RamBranch RamMemory RamSpec RamSafety RamOrigin RamDurable RamCopy RamArchive.
Import Ram RamDur.

#[local] Opaque slot_at slice.

Implicit Types (st : Storage) (w : RamWorld) (p : RamPage) (g : RamGeneration) (f : Inode).

(** ** Numbers in names *)

Lemma digit_pretty n : n < 10 -> digit (pretty_N_char n) = Some n.
Proof.
  intros Hn.
  assert (Forall (fun d => digit (pretty_N_char d) = Some d) (N.of_nat <$> seq 0 10)) as Hall
    by (by repeat constructor).
  apply (proj1 (Forall_forall _ _) Hall n). apply list_elem_of_fmap.
  exists (N.to_nat n). split; [lia|]. apply elem_of_seq. lia.
Qed.

Lemma parse_digit acc n s :
  n < 10 -> acc * 10 + n <= u64_MAX -> parse_digits acc (String (pretty_N_char n) s) = parse_digits (acc * 10 + n) s.
Proof.
  intros Hn Hb. cbn [parse_digits]. rewrite digit_pretty by done. unfold checked_mul, checked_add.
  rewrite (proj2 (N.leb_le (acc * 10) u64_MAX)) by lia. by rewrite (proj2 (N.leb_le _ u64_MAX)) by lia.
Qed.

(** The digits of a number are read back. *)
Lemma parse_pretty_go n s : n <= u64_MAX -> parse_digits 0 (pretty_N_go n s) = parse_digits n s.
Proof.
  revert s. induction (N.lt_wf_0 n) as [n _ IH]; intros s Hn.
  destruct (decide (n = 0)) as [->|Hnz]; [by rewrite pretty_N_go_0|].
  pose proof (N.Div0.div_mod n 10) as Hdm. pose proof (N.mod_lt n 10 ltac:(lia)) as Hm.
  rewrite pretty_N_go_step by lia. set (q := n / 10) in *. set (d := n mod 10) in *.
  assert (q < n) as Hlt by lia. clearbody q d.
  rewrite IH; [|done|lia]. rewrite parse_digit by lia. f_equal. lia.
Qed.

(** They do not start with a sign. *)
Lemma pretty_go_head n s : 0 < n -> exists d s', d < 10 /\ pretty_N_go n s = String (pretty_N_char d) s'.
Proof.
  revert s. induction (N.lt_wf_0 n) as [n _ IH]; intros s Hn. rewrite pretty_N_go_step by done.
  destruct (decide (0 < n / 10)) as [Hd|Hd]; [by apply IH; [apply N.div_lt; lia|]|].
  apply N.nlt_ge, N.le_0_r in Hd. rewrite Hd, pretty_N_go_0. exists (n mod 10), s. split; [apply N.mod_lt; lia|done].
Qed.

Lemma parse_u64_digit d s : d < 10 -> parse_u64 (String (pretty_N_char d) s) = parse_digits 0 (String (pretty_N_char d) s).
Proof.
  intros Hd. assert (d = 0 \/ d = 1 \/ d = 2 \/ d = 3 \/ d = 4 \/ d = 5 \/ d = 6 \/ d = 7 \/ d = 8 \/ d = 9) as Hc by lia.
  by destruct_or! Hc; subst.
Qed.

Lemma parse_u64_pretty n : n <= u64_MAX -> parse_u64 (pretty n) = Some n.
Proof.
  intros Hn. unfold pretty, pretty_N. case_decide as Hz; [by subst|].
  destruct (pretty_go_head n EmptyString) as (d & s' & Hd & Hs); [lia|].
  rewrite Hs, parse_u64_digit, <-Hs, parse_pretty_go by done. done.
Qed.

Lemma persisted_generation id : id <= u64_MAX -> persisted_id (generation_path EmptyString id).2 = Some id.
Proof.
  intros Hid. unfold persisted_id, generation_path, numbered. cbn [snd].
  change (strip_prefix "generation-" ("generation" +:+ "-" +:+ pretty id)) with (Some (pretty id)). cbn. by apply parse_u64_pretty.
Qed.

(** ** The numbers in use *)

Lemma raise_next_ge names n : n <= foldl raise_next n names.
Proof.
  revert n. induction names as [|nm names IH]; intros n; cbn [foldl]; [done|]. etrans; [|apply IH].
  unfold raise_next. destruct (persisted_id nm); [apply N.le_max_l|done].
Qed.

Lemma next_free_bound names nm id :
  nm ∈ names -> persisted_id nm = Some id -> saturating_add id 1 <= next_free names.
Proof.
  intros Hin Hid. unfold next_free.
  enough (forall n, saturating_add id 1 <= foldl raise_next n names) as H by apply H. revert Hin.
  induction names as [|nm' names IH]; intros Hin n; [by apply not_elem_of_nil in Hin|].
  apply elem_of_cons in Hin as [<-|Hin]; cbn [foldl]; [|by apply IH]. etrans; [|apply raise_next_ge].
  unfold raise_next. rewrite Hid. apply N.le_max_r.
Qed.

Lemma next_free_max names : next_free names <= u64_MAX.
Proof.
  unfold next_free. assert (forall n, n <= u64_MAX -> foldl raise_next n names <= u64_MAX) as H; [|by apply H].
  induction names as [|nm names IH]; intros n Hn; cbn [foldl]; [done|]. apply IH. unfold raise_next.
  destruct (persisted_id nm); [|done]. unfold saturating_add. lia.
Qed.

Lemma elem_of_names_in dir nm st f : sto_names st !! (dir, nm) = Some f -> nm ∈ Fd.names_in dir st.
Proof.
  intros Hf. unfold Fd.names_in. apply list_elem_of_fmap. exists (dir, nm). split; [done|].
  apply list_elem_of_filter. split; [done|]. apply list_elem_of_fmap. exists ((dir, nm), f). split; [done|].
  by apply elem_of_map_to_list.
Qed.

Section restoring.
Context (dir : string).

Abbreviation gpath := (generation_path dir).

(** Nothing but the host's schedule changed. *)
Definition rests w w' : Prop := exists st', idle (rm_storage w) st' /\ w' = set_ram_storage st' w.

Lemma rests_refl w : rests w w.
Proof. exists (rm_storage w). split; [apply idle_refl|by destruct w]. Qed.
Lemma rests_trans w1 w2 w3 : rests w1 w2 -> rests w2 w3 -> rests w1 w3.
Proof. intros (st2 & H2 & ->) (st3 & H3 & ->). exists st3. split; [by eapply idle_trans|done]. Qed.

(** A failure, which a calm host does not report. *)
Definition faults w w' : Prop := rests w w' /\ sto_sched (rm_storage w) <> [].

Lemma faults_trans w1 w2 w3 : rests w1 w2 -> faults w2 w3 -> faults w1 w3.
Proof.
  intros H12 [H23 Hs]. split; [by eapply rests_trans|]. destruct H12 as (st2 & I & ->). intros Hc. apply Hs. cbn.
  by apply (grows_calm _ _ _ (idle_grows _ _ I)).
Qed.

Lemma wp_call_faults op (Q : outcome -> RamWorld -> Prop) (R : VmmError -> RamWorld -> Prop) w :
  (forall o st', idle (rm_storage w) st' -> Q o (set_ram_storage st' w)) -> (forall e w', faults w w' -> R e w') ->
  wp (sys op Sto.call) Q R w.
Proof.
  intros HQ HR. rewrite wp_sys. unfold wp, Sto.call. destruct (sto_sched (rm_storage w)) as [|[e|n|] rest] eqn:Hs.
  1,3,4: apply HQ; split; try done; by apply call_grows; rewrite Hs.
  apply HR. split; [|by rewrite Hs]. exists (set_sched rest (rm_storage w)). split; [|done].
  split; try done. by apply call_grows; rewrite Hs.
Qed.

(** A call that only asks. *)
Lemma wp_ask {A} op (m : outcome -> SIO A) (Q : A -> RamWorld -> Prop) (R : VmmError -> RamWorld -> Prop) w :
  (forall o st', idle (rm_storage w) st' ->
     wp (m o) (fun a st2 => Q a (set_ram_storage st2 w)) (fun e st2 => R (Backend op (CauseIo e)) (set_ram_storage st2 w)) st') ->
  (forall e w', faults w w' -> R e w') -> wp (sys op (o ← Sto.call; m o)) Q R w.
Proof.
  intros HQ HR. rewrite wp_sys. wp_steps.
  pose proof (wp_call_faults op (fun o w' => wp (m o) (fun a st2 => Q a (set_ram_storage st2 w))
    (fun e st2 => R (Backend op (CauseIo e)) (set_ram_storage st2 w)) (rm_storage w')) R w HQ HR) as H.
  by rewrite wp_sys in H.
Qed.

Definition reserved w : RamWorld :=
  mkRamWorld (rm_storage w) (next_page_id w) (N.max (next_generation_id w) (next_free (Fd.names_in dir (rm_storage w)))).

Lemma wp_reserve (Q : unit -> RamWorld -> Prop) (R : VmmError -> RamWorld -> Prop) w :
  dir ∈ sto_dirs (rm_storage w) ->
  (forall w', rests w w' -> Q tt (reserved w')) -> (forall e w', faults w w' -> R e w') ->
  wp (reserve_persisted_generation_ids dir) Q R w.
Proof.
  intros Hd HQ HR. unfold reserve_persisted_generation_ids, Fd.read_dir. wp_steps. apply wp_ask; [|exact HR].
  intros o st' Hi. wp_steps. rewrite (idle_dirs _ _ Hi), decide_False by (by intros H; apply H). wp_steps.
  apply (HQ (set_ram_storage st' w)). by exists st'.
Qed.

(** A number of the directory is not given out again. *)
Lemma reserved_bound w id f :
  id < u64_MAX -> sto_names (rm_storage w) !! gpath id = Some f -> id < next_generation_id (reserved w).
Proof.
  intros Hid Hf. pose proof (elem_of_names_in _ _ _ _ Hf) as Hin.
  pose proof (next_free_bound _ _ id Hin) as Hb. cbn in Hb. pose proof (persisted_generation id) as Hp. cbn in Hp.
  specialize (Hb (Hp ltac:(lia))). cbn. unfold saturating_add in Hb. lia.
Qed.

(** ** Restoring *)

Definition file_of st (id : N) : Inode := default 0 (sto_names st !! gpath id).
Definition gen_of st (id : N) : RamGeneration := mkRamGeneration id (file_of st id).
Definition page_of st (s : RamPageState) : RamPage := mkRamPage (ps_id s) (gen_of st (ps_generation s)) (ps_offset s).
Definition mapped_ram (len : N) (l : list RamPage) : KvmGuestRam := mkRam len l ∅ true true (page_slot <$> l).
Definition ram_of st (s : RamState) : KvmGuestRam := mapped_ram (rst_len s) (page_of st <$> rst_pages s).

(** The file a page description needs is there. *)
Record found st (s : RamPageState) : Prop := {
  fo_name : sto_names st !! gpath (ps_generation s) = Some (file_of st (ps_generation s));
  fo_aligned : ps_offset s mod PAGE_SIZE = 0;
  fo_inside : ps_offset s + PAGE_SIZE <= lenN (inode_bytes st (file_of st (ps_generation s)))
}.

(** A number stands for one page. *)
Definition agree (l : list RamPageState) : Prop := forall s s', s ∈ l -> s' ∈ l -> ps_id s = ps_id s' -> s = s'.

Section reading.
Context (st : Storage).

(** The storage is as at the start. *)
Definition reads w : Prop := idle st (rm_storage w).

Lemma reads_rests w w' : reads w -> rests w w' -> reads w'.
Proof. intros Hr (st' & Hi & ->). by eapply idle_trans. Qed.

Lemma wp_open_generations ids acc (Q : gmap N RamGeneration -> RamWorld -> Prop) (R : VmmError -> RamWorld -> Prop) w :
  reads w -> (forall id, id ∈ ids -> sto_names st !! gpath id = Some (file_of st id)) ->
  (forall m w', rests w w' -> (forall id, id ∈ ids -> m !! id = Some (gen_of st id)) ->
    (forall id, acc !! id = Some (gen_of st id) -> m !! id = Some (gen_of st id)) -> Q m w') ->
  (forall e w', faults w w' -> R e w') ->
  wp (open_generations dir ids acc) Q R w.
Proof.
  revert acc w. induction ids as [|id ids IH]; intros acc w Hr Hids HQ HR; cbn [open_generations].
  { wp_steps. apply HQ; [apply rests_refl|by intros id []%not_elem_of_nil|done]. }
  wp_steps. unfold Sto.open. apply wp_ask; [|exact HR]. intros o st' Hi. wp_steps.
  rewrite (idle_names _ _ Hi), (idle_names _ _ Hr), (Hids id) by left. wp_steps.
  assert (rests w (set_ram_storage st' w)) as H1 by (by exists st').
  apply IH; [by eapply reads_rests|intros id' Hid'; apply Hids; by right| |].
  - intros m w' H2 Hm Hacc. apply HQ; [by eapply rests_trans| |].
    + intros id' [->|Hid']%elem_of_cons; [apply Hacc, lookup_insert_eq|by apply Hm].
    + intros id' Hid'. apply Hacc. destruct (decide (id = id')) as [<-|Hne]; [apply lookup_insert_eq|by rewrite lookup_insert_ne].
  - intros e w' H2. apply HR. by eapply faults_trans.
Qed.

(** What the loops carry after the pages of [done]. *)
Record carried (seen : list RamPageState) (acc : Restoring) : Prop := {
  ca_pages id p : rs_pages acc !! id = Some p -> exists s, s ∈ seen /\ ps_id s = id /\ p = page_of st s;
  ca_page s : s ∈ seen -> ps_id s <= max_page acc;
  ca_generation s : s ∈ seen -> ps_generation s <= max_generation acc;
  ca_bound n : (forall s, s ∈ seen -> ps_id s <= n) -> max_page acc <= n;
  ca_bound_generation n : (forall s, s ∈ seen -> ps_generation s <= n) -> max_generation acc <= n
}.

Lemma wp_restore_page gens seen s acc (Q : RamPage * Restoring -> RamWorld -> Prop) (R : VmmError -> RamWorld -> Prop) w :
  reads w -> gens !! ps_generation s = Some (gen_of st (ps_generation s)) -> found st s -> agree (s :: seen) -> carried seen acc ->
  (forall acc' w', rests w w' -> carried (s :: seen) acc' -> Q (page_of st s, acc') w') ->
  (forall e w', faults w w' -> R e w') -> wp (restore_page gens s acc) Q R w.
Proof.
  intros Hr Hg [Hn Ha Hi] Hagree [C1 C2 C3 C4 C5] HQ HR. unfold restore_page. rewrite Hg. wp_steps.
  unfold Fd.metadata_len. apply wp_ask; [|exact HR]. intros o st' Hi'. wp_steps.
  assert (rests w (set_ram_storage st' w)) as H1 by (by exists st').
  rewrite (idle_bytes _ _ _ Hi'), (idle_bytes _ _ _ Hr). cbn [g_file gen_of].
  rewrite (proj2 (N.eqb_eq _ _) Ha). cbn [negb orb].
  rewrite (proj2 (N.ltb_ge _ _)) by (unfold saturating_add; lia).
  assert (forall m, (forall id p, m !! id = Some p -> exists s', s' ∈ s :: seen /\ ps_id s' = id /\ p = page_of st s') ->
    carried (s :: seen) (mkRestoring m (N.max (max_page acc) (ps_id s)) (N.max (max_generation acc) (ps_generation s)))) as Hc.
  { intros m Hm. split; cbn; [exact Hm| | | |].
    - intros s' [->|Hs']%elem_of_cons; [lia|]. specialize (C2 s' Hs'). lia.
    - intros s' [->|Hs']%elem_of_cons; [lia|]. specialize (C3 s' Hs'). lia.
    - intros n Hb. assert (max_page acc <= n) by (apply C4; intros s' Hs'; apply Hb; by right). specialize (Hb s). 
      assert (ps_id s <= n) by (apply Hb; left). lia.
    - intros n Hb. assert (max_generation acc <= n) by (apply C5; intros s' Hs'; apply Hb; by right).
      assert (ps_generation s <= n) by (apply Hb; left). lia. }
  destruct (rs_pages acc !! ps_id s) as [existing|] eqn:He.
  - destruct (C1 _ _ He) as (s' & Hs' & Hid & ->). assert (s' = s) as -> by (apply Hagree; [by right|left|done]).
    cbn [p_generation page_of gen_of g_id p_offset]. rewrite !N.eqb_refl. cbn [negb orb]. wp_steps. apply HQ; [done|].
    apply Hc. intros id p Hp. destruct (C1 _ _ Hp) as (s'' & ? & ? & ?). exists s''. split; [by right|done].
  - wp_steps. apply HQ; [done|]. apply Hc. intros id p [[<- <-]|[_ Hp]]%lookup_insert_Some; [exists s; split; [left|done]|].
    destruct (C1 _ _ Hp) as (s'' & ? & ? & ?). exists s''. split; [by right|done].
Qed.

Lemma agree_sub (l l' : list RamPageState) : l ⊆ l' -> agree l' -> agree l.
Proof. intros Hl Ha s s' Hs Hs'. apply Ha; by apply Hl. Qed.

Lemma carried_ext seen seen' acc : (forall s, s ∈ seen <-> s ∈ seen') -> carried seen acc -> carried seen' acc.
Proof.
  intros He [C1 C2 C3 C4 C5]. split.
  - intros id p Hp. destruct (C1 id p Hp) as (s & Hs & ?). exists s. by rewrite <-He.
  - intros s. rewrite <-He. apply C2.
  - intros s. rewrite <-He. apply C3.
  - intros n Hn. apply C4. intros s. rewrite He. apply Hn.
  - intros n Hn. apply C5. intros s. rewrite He. apply Hn.
Qed.

Lemma wp_restore_pages gens seen l acc (Q : list RamPage * Restoring -> RamWorld -> Prop) (R : VmmError -> RamWorld -> Prop) w :
  reads w -> (forall s, s ∈ l -> gens !! ps_generation s = Some (gen_of st (ps_generation s)) /\ found st s) ->
  agree (seen ++ l) -> carried seen acc ->
  (forall acc' w', rests w w' -> carried (seen ++ l) acc' -> Q (page_of st <$> l, acc') w') ->
  (forall e w', faults w w' -> R e w') -> wp (restore_pages gens l acc) Q R w.
Proof.
  revert seen acc Q w. induction l as [|s l IH]; intros seen acc Q w Hr Hl Ha C HQ HR; cbn [restore_pages].
  { wp_steps. apply HQ; [apply rests_refl|by rewrite app_nil_r]. }
  destruct (Hl s) as [Hg Hf]; [left|]. wp_steps. eapply wp_restore_page; [done|done|done| |exact C| |exact HR].
  { eapply agree_sub; [|exact Ha]. intros x. rewrite elem_of_cons, elem_of_app, elem_of_cons. tauto. }
  intros acc1 w1 H1 C1. wp_steps. cbn [fst snd]. apply (IH (seen ++ [s])).
  - by eapply reads_rests.
  - intros s' Hs'. apply Hl. by right.
  - by rewrite <-app_assoc.
  - eapply carried_ext; [|exact C1]. intros x. rewrite elem_of_cons, elem_of_app, list_elem_of_singleton. tauto.
  - intros acc2 w2 H2 C2. wp_steps. rewrite <-app_assoc in C2. apply HQ; [by eapply rests_trans|exact C2].
  - intros e w2 H2. apply HR. by eapply faults_trans.
Qed.

(** [from_pages] maps the pages, or the host failed a call. *)
Lemma wp_from_pages_rests len l (Q : KvmGuestRam -> RamWorld -> Prop) (R : VmmError -> RamWorld -> Prop) w :
  consistent l -> l <> [] -> len = lenN l * PAGE_SIZE ->
  (forall w', rests w w' -> Q (mapped_ram len l) w') -> (forall e w', faults w w' -> R e w') ->
  wp (from_pages len l) Q R w.
Proof.
  intros HK Hne -> HQ HR. unfold from_pages, reserve. wp_steps.
  assert (0 < lenN l) as Hpos by (unfold lenN; destruct l; [done|cbn; lia]).
  apply wp_call_faults; [|exact HR]. intros o st1 Hi1.
  rewrite (proj2 (N.eqb_neq (lenN l * PAGE_SIZE) 0)) by (unfold PAGE_SIZE; lia). wp_steps.
  rewrite N.div_mul by done. unfold lenN at 2. rewrite Nat2N.id.
  set (r0 := mkRam _ _ _ _ _ _). set (w1 := set_ram_storage st1 w).
  pose proof (wp_map_all_pages l w1 r0 HK (reflexivity _)) as Hm.
  assert (rests w w1) as H1 by (by exists st1).
  unfold construct. unfold wp in Hm |- *. destruct (map_all_pages true (w1, r0)) as [[w2 r2] [[]|e]] eqn:Hrun; cbn [fst snd] in Hm.
  - destruct Hm as (st2 & Hi2 & -> & ->). replace (remap _ r0) with (mapped_ram (lenN l * PAGE_SIZE) l).
    { apply HQ. eapply rests_trans; [exact H1|by exists st2]. }
    unfold mapped_ram, remap, set_memory. cbn. f_equal. symmetry.
    apply (remap_all l r0 eq_refl). apply length_replicate.
  - destruct Hm as (Z & _ & st2 & Hi2 & -> & _). apply HR. eapply faults_trans; [exact H1|]. split; [by exists st2|].
    intros Hc. destruct (calm_map_all (length l) 0 true w1 r0 Hc) as [r' Hr'].
    assert (map_all_pages true (w1, r0) = ((w1, r'), Ok tt)) as Hok by exact Hr'. congruence.
Qed.

(** A description that can be restored. *)
Record state_ok (s : RamState) : Prop := {
  so_len : rst_len s = lenN (rst_pages s) * PAGE_SIZE;
  so_nonempty : rst_pages s <> [];
  so_found ps : ps ∈ rst_pages s -> found st ps
}.

Lemma pages_consistent l : consistent (page_of st <$> l).
Proof.
  intros p q (s & -> & _)%list_elem_of_fmap (s' & -> & _)%list_elem_of_fmap. cbn. intros Heq. by rewrite Heq.
Qed.

Lemma wp_restore_branches gens seen states acc (Q : list KvmGuestRam * Restoring -> RamWorld -> Prop)
    (R : VmmError -> RamWorld -> Prop) w :
  reads w -> Forall state_ok states ->
  (forall s ps, s ∈ states -> ps ∈ rst_pages s -> gens !! ps_generation ps = Some (gen_of st (ps_generation ps))) ->
  agree (seen ++ (states ≫= rst_pages)) -> carried seen acc ->
  (forall acc' w', rests w w' -> carried (seen ++ (states ≫= rst_pages)) acc' -> Q (ram_of st <$> states, acc') w') ->
  (forall e w', faults w w' -> R e w') -> wp (restore_branches gens states acc) Q R w.
Proof.
  revert seen acc Q w. induction states as [|s states IH]; intros seen acc Q w Hr Hok Hg Ha C HQ HR;
    cbn [restore_branches mbind list_bind] in *.
  { wp_steps. apply HQ; [apply rests_refl|by rewrite app_nil_r]. }
  apply Forall_cons in Hok as [[Hlen Hne Hfound] Hok].
  rewrite (proj2 (N.eqb_eq (lenN (rst_pages s) * PAGE_SIZE) (rst_len s))) by done. cbn [negb]. rewrite app_assoc in Ha. wp_steps.
  apply (wp_restore_pages gens seen); [done| | |done| |exact HR].
  { intros ps Hps. split; [apply (Hg s); [left|done]|by apply Hfound]. }
  { eapply agree_sub; [|exact Ha]. intros x Hx. apply elem_of_app. by left. }
  intros acc1 w1 H1 C1. wp_steps. cbn [fst snd]. apply wp_from_pages_rests; [apply pages_consistent|by destruct (rst_pages s)| | |].
  { rewrite Hlen. unfold lenN. by rewrite length_fmap. }
  2:{ intros e w2 H2. apply HR. by eapply faults_trans. }
  intros w2 H2. assert (rests w w2) as H12 by (by eapply rests_trans). wp_steps. apply (IH (seen ++ rst_pages s)).
  - by eapply reads_rests.
  - done.
  - intros s' ps Hs' Hps. apply (Hg s'); [by right|done].
  - done.
  - done.
  - intros acc2 w3 H3 C2. rewrite <-app_assoc in C2. wp_steps. apply HQ; [by eapply rests_trans|exact C2].
  - intros e w3 H3. apply HR. by eapply faults_trans.
Qed.

(** The counters after a restart. *)
Record restarted (states : list RamState) w w' : Prop := {
  re_storage : idle (rm_storage w) (rm_storage w');
  re_generation : next_generation_id w <= next_generation_id w' <= u64_MAX;
  re_page : next_page_id w' <= u64_MAX;
  re_ids ps : ps ∈ states ≫= rst_pages -> ps_id ps < next_page_id w' /\ ps_generation ps < next_generation_id w'
}.

Lemma wp_restore_rams states (Q : list KvmGuestRam -> RamWorld -> Prop) (R : VmmError -> RamWorld -> Prop) w :
  st = rm_storage w -> Forall state_ok states -> agree (states ≫= rst_pages) ->
  (forall ps, ps ∈ states ≫= rst_pages -> ps_id ps < u64_MAX /\ ps_generation ps < u64_MAX) ->
  next_page_id w <= u64_MAX -> next_generation_id w <= u64_MAX ->
  (forall w', restarted states w w' -> Q (ram_of st <$> states) w') -> (forall e w', faults w w' -> R e w') ->
  wp (restore states dir) Q R w.
Proof.
  intros Hst Hok Ha Hb Hp Hg HQ HR. unfold restore. cbv zeta. set (ids := btree_elems _).
  assert (reads w) as Hr by (unfold reads; rewrite Hst; apply idle_refl).
  assert (forall ps, ps ∈ states ≫= rst_pages -> ps_generation ps ∈ ids) as Hids.
  { intros ps (s & Hs & Hps)%list_elem_of_bind. unfold ids. rewrite elem_of_btree_elems, elem_of_list_to_set, list_elem_of_bind.
    exists s. split; [|done]. apply list_elem_of_fmap. eauto. }
  wp_steps. apply wp_open_generations; [done| | |exact HR].
  { intros id. unfold ids. rewrite elem_of_btree_elems, elem_of_list_to_set, list_elem_of_bind.
    intros (s & (ps & -> & Hps)%list_elem_of_fmap & Hs). rewrite Forall_forall in Hok.
    by apply (fo_name _ _ (so_found _ (Hok s Hs) ps Hps)). }
  intros gens w1 H1 Hgens _. wp_steps. apply (wp_restore_branches gens []); [by eapply reads_rests|done| |done| | |].
  { intros s ps Hs Hps. apply Hgens, Hids, list_elem_of_bind. eauto. }
  { split; cbn; [done|by intros s []%not_elem_of_nil|by intros s []%not_elem_of_nil|lia|lia]. }
  2:{ intros e w2 H2. apply HR. by eapply faults_trans. }
  intros acc w2 H2 [C1 C2 C3 C4 C5]. cbn [app] in *. wp_steps. cbn [fst snd]. apply HQ.
  assert (rests w w2) as (st2 & Hi & ->) by (by eapply rests_trans).
  unfold saturating_add. split; cbn [rm_storage next_generation_id next_page_id set_ram_storage]; [done|lia|lia|].
  intros ps Hps. destruct (Hb ps Hps). pose proof (C2 ps Hps). pose proof (C3 ps Hps). lia.
Qed.
End reading.
End restoring.
