(* ===== verification/RamRecovery.v ===== *)
(** * Durable guest RAM: checkpoints, crashes and restarts

    The system of guests with checkpoints, crashes of the host and restarts,
    the invariant that ties the directory of generations to the running guests
    and to every checkpoint taken, and the theorem that a checkpoint can be
    restored after any crash. *)

From S2P Require Import Prelude Host CacheTypes Storage VmmTypes Ram RamInv RamMap RamFork RamOps RamBranch RamMemory RamSpec RamSafety RamOrigin RamDurable RamCopy RamArchive RamRestore.
Import Ram RamDur.

#[local] Opaque slot_at slice.

(** A checkpoint of one RAM and the memory its guest saw. *)
Abbreviation RamCheckpoint := (RamState * list byte)%type.

Record RamHistory := mkRamHistory {
  hi_sys : RamSystem;
  hi_run : list RamCheckpoint;
  hi_past : list (list RamCheckpoint)
}.

Implicit Types (st : Storage) (w : RamWorld) (p : RamPage) (f : Inode) (G : gmap N Guest) (gu : Guest) (s : RamSystem)
  (c : RamCheckpoint) (K : list RamPage) (h : RamHistory).

(** What the guests hold, and the files they may write. *)
Definition live s p : Prop := exists k gu, sm_guests s !! k = Some gu /\ p ∈ pages (gu_ram gu).
Definition owned s f : Prop := exists k gu, sm_guests s !! k = Some gu /\ f ∈ gu_owned gu.

(** The guests a restart begins with, under the numbers it gives them. *)
Definition guests_at (ids : list N) (l : list KvmGuestRam) : gmap N Guest :=
  list_to_map (zip ids (gu_new <$> l)).

(** The memory a checkpoint of [gu] stands for, once it is sealed as [r1]: what
    the guest sees, unless an earlier failure lost pages; then it is what the
    page objects hold. *)
Definition checkpoint_memory w gu w1 (r1 : KvmGuestRam) : list byte :=
  if decide (gu_lost gu = ∅) then guest_memory w gu else page_contents w1 r1.

Section recovery.
Context `{SparseFiles} (dir : string).

Abbreviation gpath := (generation_path dir).

(** What [KvmSupervisor::open] does with the RAM of its manifest. *)
Definition restart (states : list RamState) : RW (list KvmGuestRam) :=
  _ ← reserve_persisted_generation_ids dir;
  restore states dir.

(** The directory is made if it is missing. *)
Definition with_dir st : Storage := set_dirs ({[ dir ]} ∪ sto_dirs st) st.

(** A guest is sealed and then written out while it is paused; a restart
    begins with nothing but the directory.  A restart that fails leaves the
    directory as it was and is tried again. *)
Inductive history_step : RamHistory -> RamHistory -> Prop :=
  | hs_run k s s' run past :
      ram_trans k s s' -> history_step (mkRamHistory s run past) (mkRamHistory s' run past)
  | hs_checkpoint k w G gu seal w1 r1 w2 res run past :
      quiet G -> G !! k = Some gu -> fits w (lenN (pages (gu_ram gu))) -> sealing gu seal ->
      seal (w, gu_ram gu) = ((w1, r1), Ok tt) -> durable_state dir r1 w1 = (w2, res) ->
      history_step (mkRamHistory (mkRamSystem w G) run past)
        (mkRamHistory (mkRamSystem w2 (<[k := gu_copied r1 gu]> G))
           (match res with Ok state => (state, checkpoint_memory w gu w1 r1) :: run | Err _ => run end) past)
  | hs_restart s run past st group sel w' rams ids :
      crash_to (rm_storage (sm_world s)) st -> group ∈ run :: past -> sel ⊆ group ->
      restart sel.*1 (mkRamWorld (with_dir st) 1 1) = (w', Ok rams) ->
      history_step (mkRamHistory s run past)
        (mkRamHistory (mkRamSystem w' (guests_at ids rams)) [] (run :: past)).

Definition history_reachable h : Prop :=
  exists sched, rtc history_step (mkRamHistory (initial_system sched) [] []) h.

(** ** The invariant *)

(** The directory has what a checkpoint needs, durably. *)
Record checkpoint_ok st c : Prop := {
  ck_len : rst_len c.1 = lenN (rst_pages c.1) * PAGE_SIZE;
  ck_bytes : lenN c.2 = rst_len c.1;
  ck_nonempty : rst_pages c.1 <> [];
  ck_ids ps : ps ∈ rst_pages c.1 -> ps_id ps < u64_MAX /\ ps_generation ps < u64_MAX;
  ck_page i ps : rst_pages c.1 !! i = Some ps -> exists f,
    sto_names st !! gpath (ps_generation ps) = Some f /\ sto_stable_names st !! gpath (ps_generation ps) = Some f /\
    ps_offset ps mod PAGE_SIZE = 0 /\ ps_offset ps + PAGE_SIZE <= lenN (inode_bytes st f) /\
    slice (ps_offset ps) PAGE_SIZE (inode_bytes st f) = slice (N.of_nat i * PAGE_SIZE) PAGE_SIZE c.2
}.

Definition group_pages (g : list RamCheckpoint) : list RamPageState := g.*1 ≫= rst_pages.

Record history_ok K h : Prop := {
  ho_sys : system_ok K (hi_sys h);
  ho_archive : archive dir (sm_world (hi_sys h)) (owned (hi_sys h)) (live (hi_sys h));
  ho_preps k gu prep : sm_guests (hi_sys h) !! k = Some gu -> gu_prep gu = Some prep ->
    seals_existing_generation prep = false ->
    sto_names (rm_storage (sm_world (hi_sys h))) !! gpath (g_id (prep_generation prep)) = None;
  ho_run : Forall (checkpoint_ok (rm_storage (sm_world (hi_sys h)))) (hi_run h);
  ho_known ps : ps ∈ group_pages (hi_run h) -> exists p, p ∈ K /\ ps = page_state p;
  ho_past : Forall (fun g => Forall (checkpoint_ok (rm_storage (sm_world (hi_sys h)))) g /\ agree (group_pages g)) (hi_past h)
}.

(** A checkpoint needs only files that guests do not write. *)
Lemma checkpoint_grows Y st st' c :
  checkpoint_ok st c -> grows Y st st' -> storage_wf st ->
  (forall id f, sto_names st !! gpath id = Some f -> f ∉ Y) -> checkpoint_ok st' c.
Proof.
  intros C Gr Hwf HY. split; try apply C. intros i ps Hps. destruct (ck_page _ _ C i ps Hps) as (f & Hn & Hs & Ha & Hl & Hb).
  assert (inode_bytes st' f = inode_bytes st f) as Hbytes by (eapply grows_bytes; [exact Gr|by eapply wf_names|by eapply HY]).
  exists f. rewrite Hbytes. split_and!; [by eapply grows_name|by eapply (grows_stable_names _ _ _ Gr)|done|done|done].
Qed.

Lemma checkpoints_grow Y st st' h K :
  history_ok K h -> st = rm_storage (sm_world (hi_sys h)) -> grows Y st st' -> (forall f, f ∈ Y -> owned (hi_sys h) f) ->
  Forall (checkpoint_ok st') (hi_run h) /\
  Forall (fun g => Forall (checkpoint_ok st') g /\ agree (group_pages g)) (hi_past h).
Proof.
  intros I -> Gr HY. pose proof (ho_archive _ _ I) as A.
  assert (forall id f, sto_names (rm_storage (sm_world (hi_sys h))) !! gpath id = Some f -> f ∉ Y) as Hf.
  { intros id f Hf HfY. destruct (ar_file _ _ _ _ A id f Hf) as [Hn _]. by apply Hn, HY. }
  split.
  - eapply Forall_impl; [apply I|]. intros c C. eapply checkpoint_grows; [done|done|apply A|done].
  - eapply Forall_impl; [apply I|]. intros g [Hg Ha]. split; [|done]. eapply Forall_impl; [exact Hg|].
    intros c C. eapply checkpoint_grows; [done|done|apply A|done].
Qed.

Lemma system_held K s : system_ok K s -> held (owned s) (live s) (sm_world s).
Proof.
  intros Hs. split.
  - intros p (k & gu & Hk & Hp). pose proof (so_guests _ _ Hs k gu Hk) as Hg.
    pose proof (ok_pages _ _ _ _ (go_ram _ _ _ Hg)) as Hpo. rewrite Forall_forall in Hpo. by apply Hpo.
  - intros p (k & gu & Hk & Hp). pose proof (so_guests _ _ Hs k gu Hk) as Hg.
    apply (reg_generation _ _ (so_registry _ _ Hs)). by apply (ok_known _ _ _ _ (go_ram _ _ _ Hg)).
  - intros p q (k & gu & Hk & Hp) (j & gj & Hj & Hq). apply (reg_same_generation _ _ (so_registry _ _ Hs)).
    + by apply (ok_known _ _ _ _ (go_ram _ _ _ (so_guests _ _ Hs k gu Hk))).
    + by apply (ok_known _ _ _ _ (go_ram _ _ _ (so_guests _ _ Hs j gj Hj))).
  - intros f (k & gu & Hk & Hf). eapply (used_below K); [by apply (so_guests _ _ Hs k)|].
    unfold gu_owned, gu_used in *. apply elem_of_union in Hf as [Hf|Hf]; [|by apply elem_of_union_r].
    apply elem_of_union_l. by apply own_files_sub.
Qed.

(** A transition of the running system. *)
Lemma run_keeps K k s s' run past :
  history_ok K (mkRamHistory s run past) -> ram_trans k s s' ->
  exists K', K ⊆ K' /\ history_ok K' (mkRamHistory s' run past).
Proof.
  intros I Ht. destruct (trans_ok K k s s' (ho_sys _ _ I) Ht) as [(K' & HK & Hs') (Y & Gr & _ & HY & HYn & Ho)].
  pose proof (trans_traced K k s s' (ho_sys _ _ I) Ht) as [Hm Hpg Hpr]. exists K'. split; [done|].
  assert (forall f, f ∈ Y -> owned s f) as HYo.
  { intros f Hf. destruct (sm_guests s !! k) as [gu|] eqn:Hk; [exists k, gu; split; [done|by apply HY]|].
    rewrite HYn in Hf by done. set_solver. }
  pose proof (ho_archive _ _ I) as A. cbn in A. destruct Hm as [[N1 N2 N3] M1 M2 M3].
  destruct (checkpoints_grow Y _ (rm_storage (sm_world s')) _ _ I eq_refl Gr HYo) as [Hrun Hpast].
  assert (forall id f, sto_names (rm_storage (sm_world s)) !! gpath id = Some f -> next_generation_id (sm_world s) <= id -> False) as Hfresh.
  { intros id f Hf Hle. pose proof (ar_id _ _ _ _ A id f Hf). lia. }
  split; cbn; [done| | |done| |done].
  - eapply (archive_step dir Y (sm_world s)); [exact A|exact Gr|exact HYo|exact N1|exact N2| | | |apply (system_held K), (ho_sys _ _ I)|].
    + split; [done|]. apply M2, A.
    + apply M3, A.
    + intros f (j & gj & Hj & Hf). destruct (Ho j gj f Hj Hf) as [(i & gi & Hi & Hfi)|?]; [left; by exists i, gi|by right].
    + intros p (j & gj & Hj & Hp). destruct (Hpg j gj p Hj Hp) as [Hold|[Hnew|(gu & prep & Hk & Hpk & Hse & Heq)]]; [by left|right..].
      * destruct (sto_names _ !! _) as [f|] eqn:Hf; [|done]. by destruct (Hfresh _ _ Hf Hnew).
      * rewrite Heq. by apply (ho_preps _ _ I k gu).
  - intros j gj prep Hj Hpj Hse. rewrite N1. destruct (Hpr j gj prep Hj Hpj Hse) as [(gi & Hi & Hpi)|Hnew].
    + by apply (ho_preps _ _ I j gi).
    + destruct (sto_names _ !! _) as [f|] eqn:Hf; [|done]. by destruct (Hfresh _ _ Hf Hnew).
  - intros ps Hps. destruct (ho_known _ _ I ps Hps) as (p & Hp & ->). exists p. split; [by apply HK|done].
Qed.

(** Files were added to the directory while no fork was in progress. *)
Lemma system_grows K w G st' :
  system_ok K (mkRamSystem w G) -> quiet G -> grows ∅ (rm_storage w) st' ->
  system_ok K (mkRamSystem (set_ram_storage st' w) G).
Proof.
  intros Hs Hq Gr. split; cbn; [apply registry_storage, Hs| |apply (so_apart _ _ Hs)].
  intros k gu Hk. apply (guest_frame K K w (set_ram_storage st' w) ∅); [by apply (so_guests _ _ Hs k)|by eapply Hq|done|done|set_solver].
Qed.

(** A sealed guest's pages are in files nobody writes. *)
Lemma sealed_pages_kept K s k gu p :
  system_ok K s -> sm_guests s !! k = Some gu -> gu_prep gu = None -> sealed (gu_ram gu) = true ->
  p ∈ pages (gu_ram gu) -> ~ owned s (page_file p).
Proof.
  intros Hs Hk Hp Hse Hpg (j & gj & Hj & Hf). destruct (decide (j = k)) as [->|Hne].
  - rewrite Hj in Hk. injection Hk as ->. unfold gu_owned, own_files, gu_prep_files in Hf. rewrite Hse, Hp in Hf. set_solver.
  - apply (so_apart _ _ Hs j k gj gu Hne Hj Hk (page_file p) Hf). apply elem_of_union_l.
    apply list_elem_of_lookup_1 in Hpg as [i Hi]. by eapply elem_of_page_files.
Qed.

Context {Hlaws : SparseLaws}.

(** What sealing leaves. *)
Lemma seal_facts K w G k gu seal w1 r1 :
  system_ok K (mkRamSystem w G) -> quiet G -> G !! k = Some gu -> fits w (lenN (pages (gu_ram gu))) ->
  sealing gu seal -> seal (w, gu_ram gu) = ((w1, r1), Ok tt) ->
  sealed r1 = true /\ host_dirty r1 = ∅ /\ checkpoint_memory w gu w1 r1 = page_contents w1 r1.
Proof.
  intros Hs Hq Hk Hf Hseal Hop. pose proof (so_guests _ _ Hs k gu Hk) as Hg. cbn in Hg.
  destruct (seal_result _ _ _ (so_registry _ _ Hs) Hg Hf _ _ _ _ (Hq k gu Hk) Hseal Hop) as (K' & S & H1 & H2).
  split_and!; [done|done|]. unfold checkpoint_memory. case_decide as Hl; [|done]. destruct (nothing_lost gu Hl) as [Hsl Hr].
  rewrite (clean_contents K' (still_lost gu)); [|apply S|done|done]. symmetry. eapply step_memory; [apply Hg|exact S|exact Hr].
Qed.

(** The bytes of the page objects, page by page. *)
Lemma page_contents_lens K st D r : ram_ok K st D r -> Forall (fun b : list byte => lenN b = PAGE_SIZE) (page_bytes st <$> pages r).
Proof.
  intros Hok. apply Forall_fmap, Forall_lookup. intros i p Hp. destruct (ok_page _ _ _ _ _ _ Hok Hp) as (_ & Hin & _).
  by apply lenN_slice.
Qed.

Lemma slice_page_contents K D w r i p :
  ram_ok K (rm_storage w) D r -> pages r !! i = Some p ->
  slice (N.of_nat i * PAGE_SIZE) PAGE_SIZE (page_contents w r) = page_bytes (rm_storage w) p.
Proof.
  intros Hok Hp. pose proof (page_contents_lens _ _ _ _ Hok) as Hl.
  assert (lenN (page_bytes (rm_storage w) p) = PAGE_SIZE) as Hlen.
  { rewrite Forall_fmap, Forall_lookup in Hl. by apply (Hl i p). }
  apply list_eq_nthN. intros a. rewrite nthN_slice. destruct (N.ltb_spec a PAGE_SIZE) as [Ha|Ha]; [|symmetry; apply nthN_ge; lia].
  unfold page_contents. rewrite nthN_pages by done.
  rewrite N.div_add_l, N.div_small, N.add_0_r, Nat2N.id by done.
  rewrite N.add_comm, N.Div0.mod_add, N.mod_small by done. by rewrite list_lookup_fmap, Hp.
Qed.

(** The checkpoint that [durable_state] wrote. *)
Lemma new_checkpoint_ok K D w r st' (X : Inode -> Prop) (P : RamPage -> Prop) :
  registry w K -> ram_ok K (rm_storage w) D r -> grows ∅ (rm_storage w) st' ->
  archive dir (set_ram_storage st' w) X P -> (forall p, p ∈ pages r -> P p) ->
  (forall p, p ∈ pages r -> exists f, sto_names st' !! gpath (g_id (p_generation p)) = Some f /\
     sto_stable_names st' !! gpath (g_id (p_generation p)) = Some f) ->
  checkpoint_ok st' (mkRamState (ram_len r) (page_state <$> pages r), page_contents w r).
Proof.
  intros HK Hok Gr A HP Hn. split; cbn.
  - rewrite (ok_len _ _ _ _ Hok). unfold lenN. by rewrite length_fmap.
  - unfold page_contents. rewrite length_pages by (by eapply page_contents_lens).
    rewrite (ok_len _ _ _ _ Hok). unfold lenN. by rewrite length_fmap.
  - intros Hnil%fmap_nil_inv. by apply (ok_nonempty _ _ _ _ Hok).
  - intros ps (p & -> & Hp)%list_elem_of_fmap. apply (ok_known _ _ _ _ Hok) in Hp as HpK. cbn.
    pose proof (reg_page _ _ HK p HpK). pose proof (reg_generation _ _ HK p HpK).
    pose proof (ar_max _ _ _ _ A) as M1. pose proof (ar_page_max _ _ _ _ A) as M2. cbn in M1, M2. lia.
  - intros i ps. rewrite list_lookup_fmap. intros (p & Hpi & ->)%fmap_Some. cbn.
    assert (p ∈ pages r) as Hp by (by eapply list_elem_of_lookup_2). destruct (Hn p Hp) as (f & Hf & Hsf).
    destruct (ar_page _ _ _ _ A p f (HP p Hp) Hf) as [_ Hb]. cbn in Hb.
    pose proof (ok_page _ _ _ _ _ _ Hok Hpi) as (Hlt & Hin & Hal).
    rewrite (grows_bytes ∅ _ _ (page_file p) Gr Hlt) in Hb by set_solver.
    exists f. rewrite Hb. split_and!; [done|done|done|done|]. by rewrite (slice_page_contents K D w r i p).
Qed.

(** A guest was sealed and is written out. *)
Lemma written_out K k w G gu seal w1 r1 w2 res run past :
  history_ok K (mkRamHistory (mkRamSystem w G) run past) ->
  quiet G -> G !! k = Some gu -> fits w (lenN (pages (gu_ram gu))) -> sealing gu seal ->
  seal (w, gu_ram gu) = ((w1, r1), Ok tt) -> durable_state dir r1 w1 = (w2, res) ->
  let s1 := mkRamSystem w1 (<[k := gu_copied r1 gu]> G) in
  exists K1 st2, history_ok K1 (mkRamHistory s1 run past) /\ w2 = set_ram_storage st2 w1 /\ grows ∅ (rm_storage w1) st2 /\
    archive dir w2 (owned s1) (live s1) /\ (forall p, p ∈ pages r1 -> live s1 p) /\
    match res with
    | Ok state => state = mkRamState (ram_len r1) (page_state <$> pages r1) /\
        forall p, p ∈ pages r1 -> exists f, sto_names st2 !! gpath (g_id (p_generation p)) = Some f /\
          sto_stable_names st2 !! gpath (g_id (p_generation p)) = Some f
    | Err _ => True
    end.
Proof.
  intros I Hq Hk Hf Hseal Hop Hdur s1.
  destruct (seal_facts _ _ _ _ _ _ _ _ (ho_sys _ _ I) Hq Hk Hf Hseal Hop) as (Hse & Hd & _).
  destruct (run_keeps K k (mkRamSystem w G) s1 run past I) as (K1 & _ & I1).
  { exact (tr_seal k w G gu seal w1 r1 (Ok tt) Hq Hk Hf Hseal Hop). }
  pose proof (ho_sys _ _ I1) as Hs1. pose proof (ho_archive _ _ I1) as A1. cbn [hi_sys] in Hs1, A1.
  assert (sm_guests s1 !! k = Some (gu_copied r1 gu)) as Hk1 by apply lookup_insert_eq.
  assert (forall p, p ∈ pages r1 -> live s1 p /\ (~ owned s1 (page_file p))) as Hpages.
  { intros p Hp. split; [by exists k, (gu_copied r1 gu)|]. by eapply (sealed_pages_kept K1 _ k (gu_copied r1 gu)). }
  pose proof (wp_elim _ _ _ _ _ _ (wp_ram_state dir _ _ r1 w1 (system_held K1 _ Hs1) A1 Hpages) Hdur) as Hres.
  assert (exists st2, w2 = set_ram_storage st2 w1 /\ grows ∅ (rm_storage w1) st2 /\ archive dir w2 (owned s1) (live s1)) as (st2 & -> & Gr & A2).
  { destruct res; [by destruct Hres as [? _]|exact Hres]. }
  exists K1, st2. split_and!; [done|done|done|done|by intros p Hp; apply Hpages|]. destruct res as [state|e]; [|done].
  by destruct Hres as (_ & -> & Hnames).
Qed.

(** A checkpoint, whether or not it succeeds. *)
Lemma checkpoint_keeps K k w G gu seal w1 r1 w2 res run past :
  history_ok K (mkRamHistory (mkRamSystem w G) run past) ->
  quiet G -> G !! k = Some gu -> fits w (lenN (pages (gu_ram gu))) -> sealing gu seal ->
  seal (w, gu_ram gu) = ((w1, r1), Ok tt) -> durable_state dir r1 w1 = (w2, res) ->
  exists K', history_ok K' (mkRamHistory (mkRamSystem w2 (<[k := gu_copied r1 gu]> G))
    (match res with Ok state => (state, checkpoint_memory w gu w1 r1) :: run | Err _ => run end) past).
Proof.
  intros I Hq Hk Hf Hseal Hop Hdur.
  destruct (seal_facts _ _ _ _ _ _ _ _ (ho_sys _ _ I) Hq Hk Hf Hseal Hop) as (_ & _ & Hmem).
  destruct (written_out K k w G gu seal w1 r1 w2 res run past I Hq Hk Hf Hseal Hop Hdur) as (K1 & st2 & I1 & -> & Gr & A2 & Hlive & Hres).
  set (G1 := <[k := gu_copied r1 gu]> G) in *. pose proof (ho_sys _ _ I1) as Hs1.
  assert (G1 !! k = Some (gu_copied r1 gu)) as Hk1 by apply lookup_insert_eq.
  assert (quiet G1) as Hq1.
  { intros j gj [[<- <-]|[_ Hj]]%lookup_insert_Some; [done|by eapply Hq]. }
  destruct (checkpoints_grow ∅ _ st2 _ _ I1 eq_refl Gr) as [Hrun Hpast]; [set_solver|].
  exists K1. pose proof (so_guests _ _ Hs1 k _ Hk1) as Hg1. cbn in Hg1, Hrun, Hpast. split; cbn.
  - by apply system_grows.
  - exact A2.
  - intros j gj prep Hj Hpj. pose proof (Hq1 j gj Hj). congruence.
  - destruct res as [state|e]; [|done]. destruct Hres as (-> & Hnames). apply Forall_cons. split; [|done].
    rewrite Hmem. eapply (new_checkpoint_ok K1); [apply Hs1|apply Hg1|exact Gr|exact A2|exact Hlive|exact Hnames].
  - destruct res as [state|e]; [|apply I1]. destruct Hres as (-> & _). intros ps. unfold group_pages. cbn.
    intros [(p & -> & Hp)%list_elem_of_fmap|Hps]%elem_of_app; [|by apply (ho_known _ _ I1)].
    exists p. split; [|done]. by apply (ok_known _ _ _ _ (go_ram _ _ _ Hg1)).
  - done.
Qed.

(** The other guests see what they saw, and no number was used to write the
    RAM out. *)
Lemma checkpoint_isolated K k w G gu seal w1 r1 w2 res run past :
  history_ok K (mkRamHistory (mkRamSystem w G) run past) ->
  quiet G -> G !! k = Some gu -> fits w (lenN (pages (gu_ram gu))) -> sealing gu seal ->
  seal (w, gu_ram gu) = ((w1, r1), Ok tt) -> durable_state dir r1 w1 = (w2, res) ->
  next_generation_id w2 = next_generation_id w1 /\ next_page_id w2 = next_page_id w1 /\
  forall j gj, j <> k -> G !! j = Some gj -> guest_memory w2 gj = guest_memory w gj.
Proof.
  intros I Hq Hk Hf Hseal Hop Hdur.
  destruct (written_out K k w G gu seal w1 r1 w2 res run past I Hq Hk Hf Hseal Hop Hdur) as (K1 & st2 & I1 & -> & Gr & _).
  split_and!; [done|done|]. intros j gj Hne Hj.
  destruct (trans_isolated K k j (mkRamSystem w G) _ gj (ho_sys _ _ I) (tr_seal k w G gu seal w1 r1 (Ok tt) Hq Hk Hf Hseal Hop) Hne Hj) as [Hj1 Hm].
  cbn [sm_world] in Hm. rewrite <-Hm. apply (guest_frame K1 K1 w1 (set_ram_storage st2 w1) ∅);
    [by apply (so_guests _ _ (ho_sys _ _ I1) j)|by eapply Hq|done|done|set_solver].
Qed.

(** ** Crashes and restarts *)

Lemma crash_bytes st st' f :
  crash_to st st' -> sto_stable st !! f = sto_data st !! f -> inode_bytes st' f = inode_bytes st f.
Proof. intros C Hf. unfold inode_bytes. by rewrite (crash_data _ _ C). Qed.

Lemma checkpoint_crash st st' c :
  crash_to st st' -> (forall id f, sto_names st !! gpath id = Some f -> sto_stable st !! f = sto_data st !! f) ->
  checkpoint_ok st c -> checkpoint_ok st' c.
Proof.
  intros C Hsync Ck. split; try apply Ck. intros i ps Hps. destruct (ck_page _ _ Ck i ps Hps) as (f & Hn & Hs & Ha & Hl & Hb).
  assert (sto_names st' !! gpath (ps_generation ps) = Some f) as Hn'
    by (destruct (crash_names _ _ C (gpath (ps_generation ps))) as [-> | ->]; done).
  exists f. rewrite (crash_bytes _ _ _ C (Hsync _ _ Hn)), (crash_stable_names _ _ C). by split_and!.
Qed.

Lemma checkpoint_state st c : checkpoint_ok st c -> state_ok dir st c.1.
Proof.
  intros C. split; [apply C|apply C|]. intros ps (i & Hi)%list_elem_of_lookup_1.
  destruct (ck_page _ _ C i ps Hi) as (f & Hn & _ & Ha & Hl & _).
  split; [|done|]; unfold file_of; by rewrite Hn.
Qed.

Lemma group_pages_sub (g g' : list RamCheckpoint) : g ⊆ g' -> group_pages g ⊆ group_pages g'.
Proof.
  intros Hg ps. unfold group_pages. rewrite !list_elem_of_bind. intros (s & Hps & (c & -> & Hc)%list_elem_of_fmap).
  exists c.1. split; [done|]. apply list_elem_of_fmap. exists c. split; [done|by apply Hg].
Qed.

(** The checkpoints of a run name pages consistently. *)
Lemma run_agrees K h : history_ok K h -> agree (group_pages (hi_run h)).
Proof.
  intros I ps ps' H1 H2 Hid. destruct (ho_known _ _ I ps H1) as (p & Hp & ->), (ho_known _ _ I ps' H2) as (p' & Hp' & ->).
  by rewrite (reg_same _ _ (so_registry _ _ (ho_sys _ _ I)) p p').
Qed.

(** The directory a restart finds, and what it may restore. *)
Record found_after st (sel : list RamCheckpoint) : Prop := {
  fa_wf : storage_wf st;
  fa_stable : sto_stable_names st = sto_names st;
  fa_synced : sto_stable st = sto_data st;
  fa_ids id f : sto_names st !! gpath id = Some f -> id < u64_MAX;
  fa_sel : Forall (checkpoint_ok st) sel;
  fa_agree : agree (group_pages sel)
}.

Lemma crash_found K h st group sel :
  history_ok K h -> crash_to (rm_storage (sm_world (hi_sys h))) st -> group ∈ hi_run h :: hi_past h -> sel ⊆ group ->
  found_after st sel /\ Forall (fun g => Forall (checkpoint_ok st) g /\ agree (group_pages g)) (hi_run h :: hi_past h).
Proof.
  intros I C Hgr Hsel. pose proof (ho_archive _ _ I) as A.
  assert (Forall (fun g => Forall (checkpoint_ok st) g /\ agree (group_pages g)) (hi_run h :: hi_past h)) as Hall.
  { assert (forall c, checkpoint_ok (rm_storage (sm_world (hi_sys h))) c -> checkpoint_ok st c) as Hck.
    { intros c. apply checkpoint_crash; [done|]. intros id f Hf. by apply (ar_file _ _ _ _ A id f). }
    apply Forall_cons. split; [split; [eapply Forall_impl; [apply I|done]|by eapply run_agrees]|].
    eapply Forall_impl; [apply I|]. intros g [Hg Ha]. split; [by eapply Forall_impl|done]. }
  split; [|done]. rewrite Forall_forall in Hall. destruct (Hall group Hgr) as [Hg Ha]. split.
  - eapply crash_wf; [apply A|done].
  - apply C.
  - apply C.
  - intros id f Hf. assert (id < next_generation_id (sm_world (hi_sys h))) as Hid.
    { destruct (crash_names _ _ C (gpath id)) as [E|E]; rewrite E in Hf; [by eapply ar_id|]. eapply ar_id; [exact A|].
      by eapply ar_stable. }
    pose proof (ar_max _ _ _ _ A). lia.
  - rewrite Forall_forall in *. intros c Hc. by apply Hg, Hsel.
  - eapply agree_sub; [by apply group_pages_sub|done].
Qed.

(** What a restart leaves. *)
Record revived st (sel : list RamCheckpoint) w' (rams : list KvmGuestRam) : Prop := {
  rv_storage : idle st (rm_storage w');
  rv_rams : rams = ram_of dir st <$> sel.*1;
  rv_max : next_generation_id w' <= u64_MAX;
  rv_page_max : next_page_id w' <= u64_MAX;
  rv_names id f : sto_names st !! gpath id = Some f -> id < next_generation_id w';
  rv_ids ps : ps ∈ group_pages sel -> ps_id ps < next_page_id w' /\ ps_generation ps < next_generation_id w'
}.

Lemma wp_restart_rams st sel :
  found_after st sel -> dir ∈ sto_dirs st ->
  wp (restart sel.*1) (fun rams w' => revived st sel w' rams) (fun _ _ => sto_sched st <> []) (mkRamWorld st 1 1).
Proof.
  intros F Hd. unfold restart. wp_steps. apply wp_reserve; [done| |].
  2:{ intros e w' [_ Hs]. exact Hs. }
  intros w1 (st1 & Hi1 & ->).
  assert (Forall (checkpoint_ok st1) sel) as Hck.
  { eapply Forall_impl; [apply F|]. intros c Hc. eapply (checkpoint_grows ∅); [done|apply Hi1|apply F|set_solver]. }
  assert (forall id, file_of dir st1 id = file_of dir st id) as Hfile by (intros id; unfold file_of; by rewrite (idle_names _ _ Hi1)).
  assert (ram_of dir st1 <$> sel.*1 = ram_of dir st <$> sel.*1) as Hrams.
  { apply list_fmap_ext. intros i s _. unfold ram_of. assert (page_of dir st1 <$> rst_pages s = page_of dir st <$> rst_pages s) as ->; [|done].
    apply list_fmap_ext. intros j ps _. unfold page_of, gen_of. by rewrite Hfile. }
  set (w1 := reserved dir (set_ram_storage st1 (mkRamWorld st 1 1))).
  apply (wp_restore_rams dir st1 sel.*1 _ _ w1).
  - done.
  - apply Forall_fmap. eapply Forall_impl; [exact Hck|]. intros c. apply checkpoint_state.
  - apply F.
  - intros ps (s & Hps & (c & -> & Hc)%list_elem_of_fmap)%list_elem_of_bind. rewrite Forall_forall in Hck. by apply (ck_ids _ _ (Hck c Hc)).
  - done.
  - cbn. pose proof (next_free_max (Fd.names_in dir st1)). assert (1 <= u64_MAX) by done. lia.
  - intros w2 [Hs Hg Hp Hids]. split.
    + eapply idle_trans; [exact Hi1|exact Hs].
    + exact Hrams.
    + apply Hg.
    + done.
    + intros id f Hf. assert (id < next_generation_id w1) as Hid; [|lia]. apply (reserved_bound dir _ id f); cbn.
      * by eapply fa_ids.
      * by rewrite (idle_names _ _ Hi1).
    + exact Hids.
  - intros e w2 [_ Hs]. intros Hc. apply Hs. cbn. by apply (grows_calm _ _ _ (idle_grows _ _ Hi1)).
Qed.

Lemma guests_at_lookup ids rams k gu :
  guests_at ids rams !! k = Some gu -> exists r, r ∈ rams /\ gu = gu_new r.
Proof.
  unfold guests_at. intros Hk%elem_of_list_to_map_2. apply elem_of_zip_r, list_elem_of_fmap in Hk as (r & -> & Hr). by exists r.
Qed.

Lemma checkpoint_with_dir st c : checkpoint_ok st c -> checkpoint_ok (with_dir st) c.
Proof. intros []. by split. Qed.

Lemma found_with_dir st sel : found_after st sel -> found_after (with_dir st) sel.
Proof.
  intros [[] ? ? ? Hsel ?]. split; try done. eapply Forall_impl; [exact Hsel|]. intros c. apply checkpoint_with_dir.
Qed.

Section revival.
Context st sel w' rams (ids : list N) (F : found_after st sel) (V : revived st sel w' rams).

Definition revived_pages : list RamPage := page_of dir st <$> group_pages sel.

Lemma revived_registry : registry w' revived_pages.
Proof.
  split.
  - intros p (ps & -> & Hps)%list_elem_of_fmap. by apply (rv_ids _ _ _ _ V).
  - intros p (ps & -> & Hps)%list_elem_of_fmap. by apply (rv_ids _ _ _ _ V).
  - intros p q (ps & -> & Hps)%list_elem_of_fmap (qs & -> & Hqs)%list_elem_of_fmap Hid. cbn in Hid.
    by rewrite (fa_agree _ _ F ps qs Hps Hqs Hid).
  - apply pages_consistent.
Qed.

Lemma revived_checkpoint c : c ∈ sel -> checkpoint_ok (rm_storage w') c.
Proof.
  intros Hc. pose proof (fa_sel _ _ F) as Hs. rewrite Forall_forall in Hs.
  eapply (checkpoint_grows ∅); [by apply Hs|apply (rv_storage _ _ _ _ V)|apply F|set_solver].
Qed.

Lemma revived_file id : file_of dir (rm_storage w') id = file_of dir st id.
Proof. unfold file_of. by rewrite (idle_names _ _ (rv_storage _ _ _ _ V)). Qed.

Lemma revived_wf : storage_wf (rm_storage w').
Proof.
  destruct (fa_wf _ _ F) as [W1 W2]. destruct (rv_storage _ _ _ _ V) as [_ _ Hn Hna Hsn _].
  split; intros q i; rewrite ?Hna, ?Hsn, Hn; eauto.
Qed.

(** Every restored RAM, with its memory. *)
Lemma revived_ram c :
  c ∈ sel -> ram_ok revived_pages (rm_storage w') ∅ (ram_of dir st c.1) /\ ram_bytes (rm_storage w') (ram_of dir st c.1) = c.2.
Proof.
  intros Hc. pose proof (revived_checkpoint c Hc) as Ck. set (l := page_of dir st <$> rst_pages c.1).
  assert (lenN l = lenN (rst_pages c.1)) as Hlen by (unfold lenN, l; by rewrite length_fmap).
  assert (forall i ps, rst_pages c.1 !! i = Some ps -> page_ok (rm_storage w') (page_of dir st ps) /\
    page_bytes (rm_storage w') (page_of dir st ps) = slice (N.of_nat i * PAGE_SIZE) PAGE_SIZE c.2) as Hpage.
  { intros i ps Hps. destruct (ck_page _ _ Ck i ps Hps) as (f & Hn & _ & Ha & Hl & Hb).
    assert (file_of dir st (ps_generation ps) = f) as Hf by (rewrite <-revived_file; unfold file_of; by rewrite Hn).
    unfold page_ok, page_bytes, page_file, file_page. cbn [page_of gen_of p_generation g_file p_offset]. rewrite Hf.
    split; [|done]. split_and!; [by eapply wf_names; [apply revived_wf|]|done|done]. }
  assert (built revived_pages l w' (set_ram_storage (rm_storage w') w') (ram_of dir st c.1)) as B.
  { apply built_intro; try done.
    - apply revived_registry.
    - intros p (ps & -> & Hps)%list_elem_of_fmap. apply list_elem_of_fmap. exists ps. split; [done|].
      apply list_elem_of_bind. exists c.1. split; [done|]. apply list_elem_of_fmap. by exists c.
    - unfold l. intros Hnil%fmap_nil_inv. by apply (ck_nonempty _ _ Ck).
    - apply Forall_lookup. intros i p. unfold l. rewrite list_lookup_fmap. intros (ps & Hps & ->)%fmap_Some. by eapply Hpage.
    - cbn [ram_of mapped_ram ram_len]. rewrite Hlen. apply Ck. }
  pose proof (bu_ok _ _ _ _ _ B) as Hok. cbn [rm_storage set_ram_storage] in Hok. split; [exact Hok|].
  apply (ram_bytes_of_pages revived_pages _ ∅); [exact Hok|apply Ck|]. intros i Hi. cbn [ram_of mapped_ram pages] in Hi.
  rewrite length_fmap in Hi. apply lookup_lt_is_Some in Hi as [ps Hps].
  pose proof (bu_views _ _ _ _ _ B i (page_of dir st ps)) as Hv. cbn [rm_storage set_ram_storage] in Hv.
  rewrite Hv by (unfold l; by rewrite list_lookup_fmap, Hps). by apply Hpage.
Qed.

Lemma revived_guest k gu :
  guests_at ids rams !! k = Some gu -> exists c, c ∈ sel /\ gu = gu_new (ram_of dir st c.1).
Proof.
  intros (r & Hr & ->)%guests_at_lookup. rewrite (rv_rams _ _ _ _ V) in Hr.
  apply list_elem_of_fmap in Hr as (s & -> & (c & -> & Hc)%list_elem_of_fmap). by exists c.
Qed.

Lemma revived_owned f : ~ owned (mkRamSystem w' (guests_at ids rams)) f.
Proof. intros (k & gu & (c & _ & ->)%revived_guest & Hf). unfold gu_owned in Hf. cbn in Hf. set_solver. Qed.

Lemma revived_live p : live (mkRamSystem w' (guests_at ids rams)) p -> p ∈ revived_pages.
Proof.
  intros (k & gu & (c & Hc & ->)%revived_guest & Hp). by apply (ok_known _ _ _ _ (proj1 (revived_ram c Hc))).
Qed.

Lemma revived_ok past :
  Forall (fun g => Forall (checkpoint_ok st) g /\ agree (group_pages g)) past ->
  history_ok revived_pages (mkRamHistory (mkRamSystem w' (guests_at ids rams)) [] past).
Proof.
  intros Hpast. pose proof (rv_storage _ _ _ _ V) as Hi. split; cbn.
  - split; cbn; [apply revived_registry| |].
    + intros k gu (c & Hc & ->)%revived_guest. eapply new_guest_ok; [reflexivity|by apply revived_ram].
    + intros k j gu gu' _ Hk _ f Hf. exfalso. apply (revived_owned f). by exists k, gu.
  - split; cbn.
    + apply revived_wf.
    + apply V.
    + apply V.
    + intros id f. rewrite (idle_names _ _ Hi). apply V.
    + intros id f. rewrite (idle_names _ _ Hi). intros Hf. split; [apply revived_owned|].
      apply (grows_stable _ _ _ (idle_grows _ _ Hi)); [by eapply wf_names; [apply F|]|set_solver|by rewrite (fa_synced _ _ F)].
    + intros p f Hp. rewrite (idle_names _ _ Hi). intros Hf. split; [apply revived_owned|].
      apply revived_live, list_elem_of_fmap in Hp as (ps & -> & _). cbn in *. unfold page_file. cbn. unfold file_of. by rewrite Hf.
    + intros id f. rewrite (idle_names _ _ Hi), (idle_stable_names _ _ Hi), (fa_stable _ _ F). done.
  - intros k gu prep (c & _ & ->)%revived_guest. done.
  - done.
  - intros ps Hps. by apply not_elem_of_nil in Hps.
  - eapply Forall_impl; [exact Hpast|]. intros g [Hg Ha]. split; [|done]. eapply Forall_impl; [exact Hg|].
    intros c Hc. eapply (checkpoint_grows ∅); [done|apply Hi|apply F|set_solver].
Qed.
End revival.

(** ** Theorems *)

Lemma initial_history sched : history_ok [] (mkRamHistory (initial_system sched) [] []).
Proof.
  split; cbn; try (by intros; set_solver).
  - split; cbn; [|set_solver|set_solver]. split; cbn; try set_solver; lia.
  - by split.
Qed.

Lemma history_reachable_ok h : history_reachable h -> exists K, history_ok K h.
Proof.
  intros [sched Hr]. remember (mkRamHistory (initial_system sched) [] []) as h0 eqn:Hh0.
  assert (exists K, history_ok K h0) as HI by (subst; exists []; apply initial_history).
  clear Hh0. induction Hr as [h|h0 h1 h2 Hstep _ IH]; [done|]. apply IH. destruct HI as [K I].
  destruct Hstep as [k s s' run past Ht|k w G gu seal w1 r1 w2 res run past Hq Hk Hf Hseal Hop Hdur|
    s run past st group sel w' rams ids C Hg Hsel Hrun].
  - destruct (run_keeps K k s s' run past I Ht) as (K' & _ & I'). by exists K'.
  - by eapply checkpoint_keeps.
  - destruct (crash_found K (mkRamHistory s run past) st group sel I C Hg Hsel) as [F Hall].
    apply found_with_dir in F. assert (dir ∈ sto_dirs (with_dir st)) as Hd by (cbn; set_solver).
    pose proof (wp_elim _ _ _ _ _ _ (wp_restart_rams (with_dir st) sel F Hd) Hrun) as V. cbn in V. eexists. eapply revived_ok; [done|done|].
    eapply Forall_impl; [exact Hall|]. intros g [Hck Ha]. split; [|done]. eapply Forall_impl; [exact Hck|]. intros c. apply checkpoint_with_dir.
Qed.

(** C8. RAM checkpoints survive crashes.  After any history of guests running,
    forks, checkpoints, host failures, crashes and restarts, and one more crash
    that loses whatever was not synchronised, a restart on a working host
    restores every selection of the checkpoints of any one run: each guest gets
    back, byte for byte, the memory it saw when it was checkpointed; a guest
    that had lost pages when an earlier fork or checkpoint of it failed gets
    what its page objects held. *)
Theorem ram_checkpoints_survive_crashes h group sel st :
  history_reachable h -> group ∈ hi_run h :: hi_past h -> sel ⊆ group ->
  crash_to (rm_storage (sm_world (hi_sys h))) st -> sto_sched st = [] -> dir ∈ sto_dirs st ->
  exists w' rams, restart sel.*1 (mkRamWorld st 1 1) = (w', Ok rams) /\
    Forall2 (fun c r => ram_bytes (rm_storage w') r = c.2 /\ ram_len r = rst_len c.1 /\ sealed r = true) sel rams.
Proof.
  intros [K I]%history_reachable_ok Hg Hsel C Hcalm Hd.
  destruct (crash_found K h st group sel I C Hg Hsel) as [F _].
  pose proof (wp_restart_rams st sel F Hd) as Hwp. destruct (restart sel.*1 (mkRamWorld st 1 1)) as [w' [rams|e]] eqn:Hrun.
  - pose proof (wp_elim _ _ _ _ _ _ Hwp Hrun) as V. cbn in V. exists w', rams. split; [done|].
    rewrite (rv_rams _ _ _ _ V). apply Forall2_fmap_r, Forall2_fmap_r, Forall_Forall2_diag, Forall_forall. intros c Hc.
    split; [by eapply revived_ram|done].
  - pose proof (wp_elim _ _ _ _ _ _ Hwp Hrun) as Hf. done.
Qed.
End recovery.
