(* ===== verification/RamExample.v ===== *)
(** * Guest RAM: concrete runs

    Runs of the RAM model on a memory of two pages: the witnesses of the RAM
    theorems, and a fork whose failure costs the source its memory. *)

From S2P Require Import Prelude Host CacheTypes Storage VmmTypes Ram RamInv RamMap RamFork RamOps RamBranch RamMemory RamSpec RamSafety RamOrigin RamDurable RamCopy RamArchive RamRestore RamRecovery.
Import Ram.

Module RamExample.

(** ** Transitions as functions *)

Definition no_guest : Guest := gu_new (mkRam 0 [] ∅ true true []).
Definition guest_at (k : N) (s : RamSystem) : Guest := default no_guest (sm_guests s !! k).

Definition do_new (k len : N) (s : RamSystem) : RamSystem :=
  let out := new len (sm_world s) in
  mkRamSystem out.1 (match out.2 with Ok r => <[k := gu_new r]> (sm_guests s) | Err _ => sm_guests s end).

Definition do_write (k off : N) (bytes : list byte) (s : RamSystem) : RamSystem :=
  let gu := guest_at k s in
  let out := store off bytes (sm_world s, gu_ram gu) in
  mkRamSystem out.1.1 (<[k := mkGuest out.1.2 (gu_log gu ∪ list_to_set (touched_pages off (lenN bytes)))
                                (gu_lost gu) (gu_prep gu)]> (sm_guests s)).

Definition forked_guests (k j : N) (gu : Guest) (r' : KvmGuestRam) (res : result VmmError KvmGuestRam)
    (G : gmap N Guest) : gmap N Guest :=
  match res with
  | Ok child => <[j := gu_new child]> (<[k := gu_copied r' gu]> G)
  | Err _ => <[k := gu_failed r' gu]> G
  end.

Definition do_fork (k j : N) (bitmap : list N) (s : RamSystem) : RamSystem :=
  let gu := guest_at k s in
  let out := fork (Ok bitmap) (sm_world s, gu_ram gu) in
  mkRamSystem out.1.1 (forked_guests k j gu out.1.2 out.2 (sm_guests s)).

Definition do_prepare (k : N) (captured : list nat) (s : RamSystem) : RamSystem :=
  let gu := guest_at k s in
  let out := prepare_fork captured (sm_world s, gu_ram gu) in
  mkRamSystem out.1.1 (<[k := match out.2 with
                              | Ok prep => mkGuest out.1.2 ∅ (gu_lost gu) (Some prep)
                              | Err _ => gu_failed out.1.2 gu
                              end]> (sm_guests s)).

(** ** Their side conditions, decided *)

Definition quiet_b (G : gmap N Guest) : bool :=
  forallb (fun kg : N * Guest => match gu_prep kg.2 with None => true | Some _ => false end) (map_to_list G).
Definition fits_b (w : RamWorld) (n : N) : bool :=
  (next_generation_id w <? u64_MAX) && (next_page_id w + n <=? u64_MAX).
Definition there (k : N) (s : RamSystem) : bool := bool_decide (is_Some (sm_guests s !! k)).
Definition absent (k : N) (s : RamSystem) : bool := bool_decide (sm_guests s !! k = None).
Definition room (k : N) (s : RamSystem) : bool := fits_b (sm_world s) (lenN (pages (gu_ram (guest_at k s)))).
Definition log_is (k : N) (l : list nat) (s : RamSystem) : bool := bool_decide (list_to_set l = gu_log (guest_at k s)).
Definition report_is (k : N) (bitmap : list N) (s : RamSystem) : bool :=
  log_is k (bitmap_pages bitmap (length (pages (gu_ram (guest_at k s))))) s.

Lemma quiet_b_spec G : quiet_b G = true -> quiet G.
Proof.
  unfold quiet_b. rewrite forallb_forall. intros H j gu Hj. specialize (H (j, gu)).
  rewrite <-list_elem_of_In, elem_of_map_to_list in H. specialize (H Hj). cbn in H. by destruct (gu_prep gu).
Qed.

Lemma fits_b_spec w n : fits_b w n = true -> fits w n.
Proof. unfold fits_b, fits. rewrite andb_true_iff, N.ltb_lt, N.leb_le. done. Qed.

Lemma there_spec k s : there k s = true -> sm_guests s !! k = Some (guest_at k s).
Proof. unfold there, guest_at. intros [gu Hg]%bool_decide_eq_true. by rewrite Hg. Qed.

Lemma do_new_trans k len s :
  quiet_b (sm_guests s) && absent k s && fits_b (sm_world s) (len / PAGE_SIZE) = true -> ram_trans k s (do_new k len s).
Proof.
  intros [[Hq Ha]%andb_true_iff Hf]%andb_true_iff. destruct s as [w G].
  apply (tr_new k w G len); [by apply quiet_b_spec|by apply bool_decide_eq_true in Ha|by apply fits_b_spec|apply surjective_pairing].
Qed.

Lemma do_write_trans k off bytes s :
  there k s && (off + lenN bytes <=? ram_len (gu_ram (guest_at k s))) = true -> ram_trans k s (do_write k off bytes s).
Proof.
  intros [Ht Hl%N.leb_le]%andb_true_iff. destruct s as [w G].
  apply (tr_guest_write k w G (guest_at k (mkRamSystem w G))); [exact (there_spec k (mkRamSystem w G) Ht)|done|]. reflexivity.
Qed.

Lemma do_fork_trans k j bitmap s :
  quiet_b (sm_guests s) && there k s && absent j s && room k s && report_is k bitmap s = true ->
  ram_trans k s (do_fork k j bitmap s).
Proof.
  rewrite !andb_true_iff. intros [[[[Hq Ht] Ha] Hf] Hrep]. destruct s as [w G].
  eapply (tr_fork k j w G (guest_at k (mkRamSystem w G)) bitmap); [by apply quiet_b_spec|exact (there_spec k (mkRamSystem w G) Ht)|
    by apply bool_decide_eq_true in Ha|by apply fits_b_spec|by apply bool_decide_eq_true in Hrep|].
  unfold do_fork. cbn [sm_world]. destruct (fork _ _) as [[w' r'] res]. reflexivity.
Qed.

Lemma do_prepare_trans k captured s :
  quiet_b (sm_guests s) && there k s && room k s && log_is k captured s = true ->
  ram_trans k s (do_prepare k captured s).
Proof.
  rewrite !andb_true_iff. intros [[[Hq Ht] Hf] Hrep]. destruct s as [w G].
  eapply (tr_prepare k w G (guest_at k (mkRamSystem w G)) captured); [by apply quiet_b_spec|exact (there_spec k (mkRamSystem w G) Ht)|
    by apply fits_b_spec|by apply bool_decide_eq_true in Hrep|].
  unfold do_prepare. cbn [sm_world]. destruct (prepare_fork _ _) as [[w' r'] res]. reflexivity.
Qed.

(** ** A run *)

(** A guest with two pages writes across the page boundary, is forked, writes
    again, is copied ahead and writes once more. *)
Definition s_new : RamSystem := do_new 0 8192 (initial_system []).
Definition s_written : RamSystem := do_write 0 4095 [Byte.x61; Byte.x62] s_new.
Definition s_forked : RamSystem := do_fork 0 1 [3] s_written.
Definition s_again : RamSystem := do_write 0 10 [Byte.x63] s_forked.
Definition s_prepared : RamSystem := do_prepare 0 [0%nat] s_again.
Definition s_racing : RamSystem := do_write 0 11 [Byte.x64] s_prepared.

Lemma new_reachable : ram_reachable s_new.
Proof. eapply (rr_step 0); [apply (rr_initial [])|]. apply do_new_trans. vm_compute. reflexivity. Qed.

Lemma written_reachable : ram_reachable s_written.
Proof. eapply rr_step; [apply new_reachable|]. apply (do_write_trans 0). vm_compute. reflexivity. Qed.

Lemma fork_step : ram_trans 0 s_written s_forked.
Proof. apply (do_fork_trans 0). vm_compute. reflexivity. Qed.

Lemma forked_reachable : ram_reachable s_forked.
Proof. eapply rr_step; [apply written_reachable|apply fork_step]. Qed.

Lemma racing_reachable : ram_reachable s_racing.
Proof.
  eapply rr_step; [|apply (do_write_trans 0); vm_compute; reflexivity].
  eapply rr_step; [|apply (do_prepare_trans 0); vm_compute; reflexivity].
  eapply rr_step; [apply forked_reachable|apply (do_write_trans 0); vm_compute; reflexivity].
Qed.

(** ** Witnesses *)

Lemma triple_eta {A B C} (x : (A * B) * C) : x = ((x.1.1, x.1.2), x.2).
Proof. by destruct x as [[a b] c]. Qed.

Lemma is_Some_default {A} (o : option A) d : bool_decide (is_Some o) = true -> o = Some (default d o).
Proof. by intros [a ->]%bool_decide_eq_true. Qed.

Lemma ram_guests_isolated_witness :
  sm_guests s_again !! 1 = Some (guest_at 1 s_forked) /\
  guest_memory (sm_world s_again) (guest_at 1 s_forked) = guest_memory (sm_world s_forked) (guest_at 1 s_forked).
Proof.
  apply (ram_guests_isolated 0 1 s_forked s_again).
  - exact forked_reachable.
  - apply (do_write_trans 0). vm_compute. reflexivity.
  - discriminate.
  - apply there_spec. vm_compute. reflexivity.
Defined.

Definition fork_out := fork (Ok [3]) (sm_world s_written, gu_ram (guest_at 0 s_written)).

Lemma ram_fork_is_snapshot_witness : fork_promise (sm_world s_written) (guest_at 0 s_written) fork_out.1.1 fork_out.1.2 fork_out.2.
Proof.
  apply (ram_fork_is_snapshot (sm_world s_written) (sm_guests s_written) 0 (guest_at 0 s_written) [3]).
  - exact written_reachable.
  - apply quiet_b_spec. vm_compute. reflexivity.
  - apply (there_spec 0 s_written). vm_compute. reflexivity.
  - apply (bool_decide_eq_true_1 _). vm_compute. reflexivity.
  - apply fits_b_spec. vm_compute. reflexivity.
  - unfold reports. apply (bool_decide_eq_true_1 _). vm_compute. reflexivity.
  - exact (triple_eta fork_out).
Defined.

(** The child of the fork prepared ahead has what the guest wrote before and
    after the copies. *)
Definition the_prep : RamForkPreparation := default (mkPreparation (mkRamGeneration 0 0) ∅ true) (gu_prep (guest_at 0 s_racing)).
Definition finish_out := finish_fork the_prep [0%nat] (sm_world s_racing, gu_ram (guest_at 0 s_racing)).

Lemma live_fork_is_snapshot_witness :
  fork_promise (sm_world s_racing) (guest_at 0 s_racing) finish_out.1.1 finish_out.1.2 finish_out.2 /\
  is_ok finish_out.2 = true /\ slice 10 2 (guest_memory (sm_world s_racing) (guest_at 0 s_racing)) = [Byte.x63; Byte.x64].
Proof.
  split; [|split; vm_compute; reflexivity].
  apply (live_fork_is_snapshot (sm_world s_racing) (sm_guests s_racing) 0 (guest_at 0 s_racing) the_prep [0%nat]).
  - exact racing_reachable.
  - apply quiet_b_spec. vm_compute. reflexivity.
  - apply (there_spec 0 s_racing). vm_compute. reflexivity.
  - apply (bool_decide_eq_true_1 _). vm_compute. reflexivity.
  - apply is_Some_default. vm_compute. reflexivity.
  - apply fits_b_spec. vm_compute. reflexivity.
  - unfold captures. apply (bool_decide_eq_true_1 _). vm_compute. reflexivity.
  - exact (triple_eta finish_out).
Defined.

Definition seal_out := seal_for_checkpoint (Ok [3]) (sm_world s_written, gu_ram (guest_at 0 s_written)).

Lemma seal_captures_memory_witness :
  ram_bytes (rm_storage seal_out.1.1) seal_out.1.2 = guest_memory (sm_world s_written) (guest_at 0 s_written) /\
  match seal_out.2 with
  | Ok _ => sealed seal_out.1.2 = true /\
      page_contents seal_out.1.1 seal_out.1.2 = guest_memory (sm_world s_written) (guest_at 0 s_written)
  | Err _ => True
  end.
Proof.
  apply (seal_captures_memory (sm_world s_written) (sm_guests s_written) 0 (guest_at 0 s_written) (seal_for_checkpoint (Ok [3]))).
  - exact written_reachable.
  - apply quiet_b_spec. vm_compute. reflexivity.
  - apply (there_spec 0 s_written). vm_compute. reflexivity.
  - apply (bool_decide_eq_true_1 _). vm_compute. reflexivity.
  - apply fits_b_spec. vm_compute. reflexivity.
  - apply seal_logged. unfold reports. apply (bool_decide_eq_true_1 _). vm_compute. reflexivity.
  - exact (triple_eta seal_out).
Defined.

(** A write up to the end of the memory, and one beyond it. *)
Lemma ram_write_read_witness :
  (exists r', write 8190 [Byte.x61; Byte.x62] (sm_world s_new, gu_ram (guest_at 0 s_new)) = ((sm_world s_new, r'), Ok tt) /\
     read 8190 2 (sm_world s_new, r') = ((sm_world s_new, r'), Ok [Byte.x61; Byte.x62])) /\
  (exists r', write 8191 [Byte.x61; Byte.x62] (sm_world s_new, gu_ram (guest_at 0 s_new)) =
     ((sm_world s_new, r'), Err (RamRange 8191 2))).
Proof.
  assert (sm_guests s_new !! 0 = Some (guest_at 0 s_new)) as Hg by (apply there_spec; vm_compute; reflexivity).
  split.
  - destruct (ram_write_read s_new 0 (guest_at 0 s_new) 8190 [Byte.x61; Byte.x62] new_reachable Hg) as (r' & H1 & _ & H2).
    by exists r'.
  - destruct (ram_write_read s_new 0 (guest_at 0 s_new) 8191 [Byte.x61; Byte.x62] new_reachable Hg) as (r' & H1 & _).
    by exists r'.
Defined.

(** Three pages: two behind each other in one generation, which are mapped as
    one run, and one of another generation at the offset that would follow. *)
Definition run_pages : list RamPage :=
  [mkRamPage 1 (mkRamGeneration 1 0) 0; mkRamPage 2 (mkRamGeneration 1 0) 4096; mkRamPage 3 (mkRamGeneration 2 1) 8192].
Definition two_generations : KvmGuestRam := mkRam 12288 run_pages ∅ true true [Reserved; Reserved; Reserved].

Lemma map_all_pages_equiv_witness :
  run_length (mkRamGeneration 1 0) 0 1 (tail run_pages) = 2%nat /\
  map_all_pages true (sm_world s_new, two_generations) = map_each_page (sm_world s_new, two_generations) /\
  memory (map_all_pages true (sm_world s_new, two_generations)).1.2 =
    [MappedPage 0 0 true None; MappedPage 0 4096 true None; MappedPage 1 8192 true None].
Proof.
  split; [reflexivity|]. split; [|vm_compute; reflexivity]. apply map_all_pages_equiv; [vm_compute; reflexivity|].
  intros p q Hp Hq. unfold two_generations, run_pages in *. cbn [pages] in Hp, Hq. rewrite !elem_of_cons in Hp, Hq.
  destruct Hp as [->|[->|[->|[]%elem_of_nil]]], Hq as [->|[->|[->|[]%elem_of_nil]]]; reflexivity || discriminate.
Defined.

(** ** A failed fork loses the dirty log *)

(** The guest writes; the host fails the copy of the first fork. *)
Definition l_new : RamSystem := do_new 0 8192 (initial_system [Full; Full; Full; Full; Fault (RawOs 28)]).
Definition l_written : RamSystem := do_write 0 0 [Byte.x61] l_new.
Definition l_failed : RamSystem := do_fork 0 1 [1] l_written.
Definition l_forked : RamSystem := do_fork 0 1 [0] l_failed.

Definition first_byte (k : N) (s : RamSystem) : list byte := slice 0 1 (guest_memory (sm_world s) (guest_at k s)).

(** A failed fork can cost the source its memory.  [fork] reads, and
    thereby clears, the dirty log of KVM before it copies the pages, and keeps
    what it read in no place that survives an error.  When the copy fails (here
    with ENOSPC) the guest still sees its byte, but the next fork, which
    succeeds, does not copy the page and drops the private copy: the running
    source loses a write it had made, and the child never gets it. *)
Theorem failed_fork_loses_writes :
  ram_reachable l_failed /\ ram_trans 0 l_failed l_forked /\
  there 1 l_failed = false /\ first_byte 0 l_failed = [Byte.x61] /\
  first_byte 0 l_forked = [Byte.x00] /\ there 1 l_forked = true /\ first_byte 1 l_forked = [Byte.x00].
Proof.
  split_and!; [|apply (do_fork_trans 0); vm_compute; reflexivity|vm_compute; reflexivity..].
  eapply (rr_step 0); [|apply (do_fork_trans 0); vm_compute; reflexivity].
  eapply (rr_step 0); [|apply (do_write_trans 0); vm_compute; reflexivity].
  eapply (rr_step 0); [apply rr_initial|apply do_new_trans; vm_compute; reflexivity].
Qed.

End RamExample.

(** * Durable guest RAM: concrete runs

    A guest of two pages is checkpointed on a host that cannot clone files,
    crashes and is restored: the witnesses of the theorems on durable RAM. *)

Import RamDur RamExample.

Module RamRecoveryExample.

(** A file system without holes, as [lseek] may always report. *)
#[export] Instance dense_files : SparseFiles := {|
  seek_data st i off := if off <? lenN (inode_bytes st i) then Some off else None;
  seek_hole st i _ := lenN (inode_bytes st i)
|}.

#[export] Instance dense_laws : SparseLaws.
Proof.
  intros st i off Hlt. cbn. rewrite (proj2 (N.ltb_lt _ _)) by done. split; [done|]. intros a Ha. lia.
Qed.

(** ** A checkpoint as a function *)

Definition sealed_at (k : N) (bitmap : list N) (s : RamSystem) :=
  seal_for_checkpoint (Ok bitmap) (sm_world s, gu_ram (guest_at k s)).
Definition state_at (dir : string) (k : N) (bitmap : list N) (s : RamSystem) :=
  durable_state dir (sealed_at k bitmap s).1.2 (sealed_at k bitmap s).1.1.

Definition do_checkpoint (dir : string) (k : N) (bitmap : list N) (h : RamHistory) : RamHistory :=
  let s := hi_sys h in
  mkRamHistory (mkRamSystem (state_at dir k bitmap s).1 (<[k := gu_copied (sealed_at k bitmap s).1.2 (guest_at k s)]> (sm_guests s)))
    (match (state_at dir k bitmap s).2 with
     | Ok state => (state, checkpoint_memory (sm_world s) (guest_at k s) (sealed_at k bitmap s).1.1 (sealed_at k bitmap s).1.2) :: hi_run h
     | Err _ => hi_run h
     end) (hi_past h).

Definition ok_unit {E} (r : result E unit) : bool := match r with Ok _ => true | Err _ => false end.

Lemma ok_unit_spec {E} (r : result E unit) : ok_unit r = true -> r = Ok tt.
Proof. by destruct r as [[]|]. Qed.

Lemma do_checkpoint_step dir k bitmap h :
  quiet_b (sm_guests (hi_sys h)) && there k (hi_sys h) && room k (hi_sys h) &&
    report_is k bitmap (hi_sys h) && ok_unit (sealed_at k bitmap (hi_sys h)).2 = true ->
  history_step dir h (do_checkpoint dir k bitmap h).
Proof.
  rewrite !andb_true_iff. intros [[[[Hq Ht] Hf] Hrep] Hs]. destruct h as [[w G] run past]. cbn [hi_sys] in *.
  eapply (hs_checkpoint dir k w G (guest_at k (mkRamSystem w G)) (seal_for_checkpoint (Ok bitmap))); [by apply quiet_b_spec|
    exact (there_spec k (mkRamSystem w G) Ht)|by apply fits_b_spec|apply seal_logged; by apply bool_decide_eq_true in Hrep| |apply surjective_pairing].
  apply ok_unit_spec in Hs. rewrite <-Hs. apply triple_eta.
Qed.

(** ** A run *)

(** The guest writes and is checkpointed; the host cannot clone the file. *)
Definition d_sched : list outcome := replicate 11 Full ++ [Fault (RawOs 95)].
Definition d_new : RamSystem := do_new 0 8192 (initial_system d_sched).
Definition d_written : RamSystem := do_write 0 4095 [Byte.x61; Byte.x62] d_new.
Definition d_history : RamHistory := do_checkpoint "d" 0 [3] (mkRamHistory d_written [] []).

Lemma d_history_reachable : history_reachable "d" d_history.
Proof.
  exists d_sched. apply (rtc_l _ _ (mkRamHistory d_new [] [])).
  { apply (hs_run "d" 0). apply do_new_trans. vm_compute. reflexivity. }
  apply (rtc_l _ _ (mkRamHistory d_written [] [])).
  { apply (hs_run "d" 0). apply (do_write_trans 0). vm_compute. reflexivity. }
  apply rtc_once. apply do_checkpoint_step. vm_compute. reflexivity.
Qed.

(** The memory comes back after the crash. *)
Lemma ram_checkpoints_survive_crashes_witness :
  slice 4095 2 (default [] ((hi_run d_history).*2 !! 0%nat)) = [Byte.x61; Byte.x62] /\
  exists w' rams,
    restart "d" (hi_run d_history).*1 (mkRamWorld (lose_unsynced (rm_storage (sm_world (hi_sys d_history)))) 1 1) = (w', Ok rams) /\
    Forall2 (fun c r => ram_bytes (rm_storage w') r = c.2 /\ ram_len r = rst_len c.1 /\ sealed r = true) (hi_run d_history) rams.
Proof.
  split; [vm_compute; reflexivity|].
  apply (ram_checkpoints_survive_crashes "d" d_history (hi_run d_history) (hi_run d_history)
    (lose_unsynced (rm_storage (sm_world (hi_sys d_history))))).
  - exact d_history_reachable.
  - left.
  - reflexivity.
  - apply lose_unsynced_crash.
  - reflexivity.
  - apply (bool_decide_eq_true_1 _). vm_compute. reflexivity.
Defined.

(** The copy of a file with two bytes, on the host that cannot clone. *)
Definition c_world : RamWorld :=
  mkRamWorld (mkStorage ∅ ∅ {[ 0 := [Byte.x61; Byte.x00]; 1 := [] ]} 2 ∅ ∅ [Fault (RawOs 95)]) 1 1.

Lemma generation_copy_exact_witness :
  inode_bytes (rm_storage (clone_or_copy_generation 0 1 2 c_world).1) 1 = [Byte.x61; Byte.x00].
Proof.
  destruct (generation_copy_exact 0 1 c_world (clone_or_copy_generation 0 1 2 c_world).1) as [Hc _].
  - discriminate.
  - vm_compute. reflexivity.
  - vm_compute. reflexivity.
  - exact Hc.
Defined.

End RamRecoveryExample.
