(* ===== verification/KvmVmm.v ===== *)
(** * The VMM boundary (crates/minidox-vmm/src/linux.rs, and the memory slots
    of ram.rs)

    KVM and the embedded Cloud Hypervisor are vendored; [Vmm] is what the
    supervisor uses of them, as operations on a state [H] that may fail.  On
    top of it: the adapter that owns one Cloud Hypervisor worker, and the
    registration of a RAM with a raw KVM VM. *)

From S2P Require Import Prelude Host CacheTypes Storage VmmTypes Ram.

(** [FsConfig] and [VmConfig]: the size of the memory and the file systems,
    which the supervisor reads and changes; [Opts] stands for the other fields,
    which it hands on as they are. *)
Record PciDeviceCommonConfig := mkPciCommon {
  pci_id : option string; pci_iommu : bool; pci_segment : N; pci_device_id : option N
}.

Record FsConfig := mkFsConfig {
  fc_pci_common : PciDeviceCommonConfig;
  fc_tag : string;
  fc_socket : string;
  fc_num_queues : N;
  fc_queue_size : N;
  fc_in_process_backend_id : option N;
  fc_dax_window_size : N
}.

Record VmConfig (Opts : Type) := mkVmConfig {
  vc_memory_size : N;
  vc_fs : option (list FsConfig);
  vc_options : Opts
}.
Arguments mkVmConfig {Opts}.
Arguments vc_memory_size {Opts}.
Arguments vc_fs {Opts}.
Arguments vc_options {Opts}.

(** [VmForkStateCapture]; [Snap] and [Ranges] are the state of processors and
    devices and the table of dirty ranges. *)
Record VmForkStateCapture (Opts Snap Ranges : Type) := mkCapture {
  cap_config : VmConfig Opts;
  cap_snapshot : Snap;
  cap_dirty_memory : Ranges;
  cap_dirty_ram_pages : list nat
}.
Arguments mkCapture {Opts Snap Ranges}.
Arguments cap_config {Opts Snap Ranges}.
Arguments cap_snapshot {Opts Snap Ranges}.
Arguments cap_dirty_memory {Opts Snap Ranges}.
Arguments cap_dirty_ram_pages {Opts Snap Ranges}.

(** How a worker thread ended. *)
Inductive Joined := JoinedOk | JoinedErr (message : string) | JoinPanicked.

(** A KVM VM and a VMM worker are known by numbers.  The requests of the API
    are those of [cloud_hypervisor::api]; a guest's memory is given by its
    length, its address being that of the RAM.  [api_event_clone] duplicates the
    event descriptor of a worker's API, [eventfd_clone] one that no worker has
    yet.  [clock] is [Instant::now()]. *)
Class Vmm (H Opts Snap Ranges : Type) := {
  hv_new : M H string unit;
  hv_create_vm : M H string N;
  vm_pause : N -> M H string unit;
  vm_resume : N -> M H string unit;
  vm_create_user_memory_region : N -> N -> N -> N -> M H string unit;
  vm_remove_user_memory_region : N -> N -> N -> N -> M H string unit;
  vm_start_dirty_log : N -> M H string unit;
  vm_get_dirty_log : N -> N -> N -> N -> M H string (list N);
  eventfd_new : M H string unit;
  eventfd_clone : M H string unit;
  api_event_clone : N -> M H string unit;
  start_vmm_thread : M H string N;
  api_create : N -> VmConfig Opts -> M H string unit;
  api_boot : N -> M H string unit;
  api_set_external_memory : N -> N -> M H string unit;
  api_enable_initial_fork_tracking : N -> M H string unit;
  api_pause : N -> M H string unit;
  api_resume : N -> M H string unit;
  api_begin_fork_tracking : N -> M H string unit;
  api_capture_fork_state : N -> M H string (VmForkStateCapture Opts Snap Ranges);
  api_take_dirty_ram_pages : N -> M H string (list nat);
  api_restore_fork_state : N -> VmForkStateCapture Opts Snap Ranges -> N -> M H string unit;
  api_shutdown : N -> M H string unit;
  join_worker : N -> H -> H * Joined;
  clock : H -> N
}.

(** [CloudHypervisorVm]: [worker] is gone once it was joined. *)
Record CloudHypervisorVm := mkCloudVm { ch_api : N; ch_worker : option N }.

#[export] Instance CloudHypervisorVm_eq_dec : EqDecision CloudHypervisorVm.
Proof. solve_decision. Defined.

Module ChVm.
Section cloud.
Context {H Opts Snap Ranges : Type} `{!Vmm H Opts Snap Ranges}.

Abbreviation V := (M H VmmError).

(** [Error::backend(operation, error)]. *)
Definition backend {A} (operation : string) (m : M H string A) : V A :=
  with_err (fun message => Backend operation (CauseVmm message)) m.

(** [CloudHypervisorVm::start]. *)
Definition start : V CloudHypervisorVm :=
  _ ← backend "create VMM API eventfd" eventfd_new;
  _ ← backend "create VMM exit eventfd" eventfd_new;
  _ ← backend "create KVM hypervisor" hv_new;
  _ ← backend "clone VMM API eventfd" eventfd_clone;
  _ ← backend "clone VMM exit eventfd" eventfd_clone;
  worker ← backend "start VMM worker" start_vmm_thread;
  mret (mkCloudVm worker (Some worker)).

Section requests.
Context (vm : CloudHypervisorVm).

(** [send]: the request itself is [m]. *)
Definition send {A} (m : M H string A) (operation : string) : V A :=
  _ ← backend "clone VMM API eventfd" (api_event_clone (ch_api vm));
  backend operation m.

Definition create (config : VmConfig Opts) : V unit := send (api_create (ch_api vm) config) "create VM".
Definition boot : V unit := send (api_boot (ch_api vm)) "boot VM".

Definition boot_with_ram (ram : KvmGuestRam) : V unit :=
  _ ← send (api_set_external_memory (ch_api vm) (ram_len ram)) "install external guest RAM";
  _ ← send (api_enable_initial_fork_tracking (ch_api vm)) "enable initial VM fork tracking";
  boot.

Definition pause : V unit := send (api_pause (ch_api vm)) "pause VM".
Definition begin_fork_tracking : V unit := send (api_begin_fork_tracking (ch_api vm)) "begin VM fork tracking".
Definition capture_fork_state : V (VmForkStateCapture Opts Snap Ranges) :=
  send (api_capture_fork_state (ch_api vm)) "capture VM fork state".
Definition take_dirty_ram_pages : V (list nat) :=
  send (api_take_dirty_ram_pages (ch_api vm)) "collect running VM dirty RAM pages".
Definition restore_fork_state (capture : VmForkStateCapture Opts Snap Ranges) (ram : KvmGuestRam) : V unit :=
  send (api_restore_fork_state (ch_api vm) capture (ram_len ram)) "restore VM fork state".
Definition resume : V unit := send (api_resume (ch_api vm)) "resume VM".

(** [shutdown_inner] on a value that is not used again: the worker is taken
    and joined even when the request cannot be sent. *)
Definition shutdown_inner : V unit :=
  match ch_worker vm with
  | None => mret tt
  | Some worker =>
      request_result ← attempt (send (api_shutdown (ch_api vm)) "shut down VMM");
      joined ← (fun h => let '(h', j) := join_worker worker h in (h', Ok j));
      match joined with
      | JoinPanicked => throw WorkerPanicked
      | JoinedErr message => throw (Backend "VMM worker exit" (CauseVmm message))
      | JoinedOk => lift request_result
      end
  end.

(** [shutdown], and [Drop], which ignores the result. *)
Definition shutdown : V unit := shutdown_inner.
Definition drop_cloud : V unit := _ ← attempt shutdown_inner; mret tt.

End requests.

(** ** Memory slots (ram.rs) *)

(** [KvmGuestRam::register]. *)
Definition register (ram : KvmGuestRam) (vm slot guest_phys_addr : N) : V unit :=
  _ ← backend "register KVM RAM" (vm_create_user_memory_region vm slot guest_phys_addr (ram_len ram));
  started ← attempt (backend "start KVM dirty log" (vm_start_dirty_log vm));
  match started with
  | Ok _ => mret tt
  | Err error =>
      rollback ← attempt (backend "start KVM dirty log" (vm_remove_user_memory_region vm slot guest_phys_addr (ram_len ram)));
      match rollback, error with
      | Err (Backend _ (CauseVmm rollback_error)), Backend operation (CauseVmm message) =>
          throw (Backend operation (CauseVmm (message +:+ "; memory-slot rollback also failed: " +:+ rollback_error)))
      | _, _ => throw error
      end
  end.

(** [KvmGuestRam::unregister]. *)
Definition unregister (ram : KvmGuestRam) (vm slot guest_phys_addr : N) : V unit :=
  backend "unregister KVM RAM" (vm_remove_user_memory_region vm slot guest_phys_addr (ram_len ram)).

End cloud.
End ChVm.
