(* ===== verification/KvmSupervisor.v ===== *)
(** * The KVM supervisor (crates/minidox-vmm/src/supervisor.rs)

    A [KvmSupervisor] owns the VMs of a fork forest: for each a KVM VM or an
    embedded Cloud Hypervisor, its guest RAM and its virtio-fs branch.  Every
    operation that touches a running guest's state pauses the VM around it.
    This file has the data and the operations; [KvmRecovery] has checkpoints
    and restarts. *)

From stdpp Require Import pretty.
From S2P Require Import Prelude Generations Host CacheTypes SharedCache Storage RedoxBranch VmmTypes VirtioFs Lineages Ram RamDurable KvmVmm.

Definition RAM_SLOT : N := 0.
Definition RAM_GPA : N := 0.

(** [SupervisorError]. *)
Inductive SupervisorError :=
  | KvmVmNotFound (vm : N)
  | KvmVmm (e : VmmError)
  | KvmCache (e : CacheError)
  | KvmIo (e : io_error)
  | KvmJson (message : string)
  | UnsupportedManifestVersion (version : N)
  | DurabilityRequired
  | KvmBackend (operation : string) (message : string).

#[export] Instance SupervisorError_eq_dec : EqDecision SupervisorError.
Proof. solve_decision. Defined.

(** [VmBackend] and [SupervisedVm]. *)
Inductive VmBackend := RawVm (vm : N) | CloudVm (vm : CloudHypervisorVm).

Record KvmVm := mkKvmVm { kv_backend : VmBackend; kv_ram : KvmGuestRam; kv_filesystem : VirtioFs }.

Record KvmForkAccounting := mkKvmAccounting { ka_memory : RamAccounting; ka_filesystem : CachePageAccounting }.

(** What the supervisor acts on: the world of guest RAM, the file system
    lineages, the VMM, and the directory of the forest. *)
Record KvmWorld (W S Id H : Type) `{Countable Id} := mkKvmWorld {
  kw_ram : RamWorld;
  kw_fs : Lineages W S Id;
  kw_vmm : H;
  kw_dir : Storage
}.
Arguments mkKvmWorld {W S Id H _ _}.
Arguments kw_ram {W S Id H _ _}.
Arguments kw_fs {W S Id H _ _}.
Arguments kw_vmm {W S Id H _ _}.
Arguments kw_dir {W S Id H _ _}.

(** [KvmSupervisor]. *)
Record KvmSupervisor := mkKvmSupervisor {
  ks_next_vm : N;
  ks_next_lineage : N;
  ks_vms : gmap N KvmVm;
  ks_last_fork_pause : option N;
  ks_storage : option string
}.

(** [path.join(name)]. *)
Definition join (path name : string) : string := path +:+ "/" +:+ name.

Module Kvm.
Section kvm.
Context {W S Id St H Opts Snap Ranges : Type} `{Countable Id} `{!BranchStore W S Id St} `{!Vmm H Opts Snap Ranges}.

Abbreviation world := (KvmWorld W S Id H).
Abbreviation KW := (M (KvmWorld W S Id H) (Stop SupervisorError)).
Abbreviation K := (M (KvmWorld W S Id H * KvmSupervisor) (Stop SupervisorError)).

(** ** Running the parts *)

Definition set_kw_ram (r : RamWorld) (w : world) : world := mkKvmWorld r (kw_fs w) (kw_vmm w) (kw_dir w).
Definition set_kw_fs (l : Lineages W S Id) (w : world) : world := mkKvmWorld (kw_ram w) l (kw_vmm w) (kw_dir w).
Definition set_kw_vmm (h : H) (w : world) : world := mkKvmWorld (kw_ram w) (kw_fs w) h (kw_dir w).
Definition set_kw_dir (st : Storage) (w : world) : world := mkKvmWorld (kw_ram w) (kw_fs w) (kw_vmm w) st.

Definition set_vms (vms : gmap N KvmVm) (s : KvmSupervisor) : KvmSupervisor :=
  mkKvmSupervisor (ks_next_vm s) (ks_next_lineage s) vms (ks_last_fork_pause s) (ks_storage s).
Definition set_next_vm (n : N) (s : KvmSupervisor) : KvmSupervisor :=
  mkKvmSupervisor n (ks_next_lineage s) (ks_vms s) (ks_last_fork_pause s) (ks_storage s).
Definition set_next_lineage (n : N) (s : KvmSupervisor) : KvmSupervisor :=
  mkKvmSupervisor (ks_next_vm s) n (ks_vms s) (ks_last_fork_pause s) (ks_storage s).
Definition set_last_fork_pause (d : option N) (s : KvmSupervisor) : KvmSupervisor :=
  mkKvmSupervisor (ks_next_vm s) (ks_next_lineage s) (ks_vms s) d (ks_storage s).

Definition failed_vmm (e : VmmError) : Stop SupervisorError := Failed (KvmVmm e).

(** The VMM, with [SupervisorError::backend]; the adapter of linux.rs; the
    world of guest RAM; the directory of the forest. *)
Definition in_vmm {A} (operation : string) (m : M H string A) : KW A :=
  zoom kw_vmm set_kw_vmm (with_err (fun message => Failed (KvmBackend operation message)) m).
Definition with_vmm {A} (m : M H VmmError A) : KW A := zoom kw_vmm set_kw_vmm (with_err failed_vmm m).
Definition with_ram {A} (m : Ram.RW A) : KW A := zoom kw_ram set_kw_ram (with_err failed_vmm m).
Definition with_dir {A} (m : SIO A) : KW A := zoom kw_dir set_kw_dir (with_err (fun e => Failed (KvmIo e)) m).

(** The error of a part becomes a [SupervisorError]; a panic stays one. *)
Definition stop_vmm (e : Stop VmmError) : Stop SupervisorError :=
  match e with Failed e => Failed (KvmVmm e) | Panicked => Panicked end.
Definition with_fs {A} (m : M (Lineages W S Id) (Stop VmmError) A) : KW A := zoom kw_fs set_kw_fs (with_err stop_vmm m).

(** An operation of the virtio-fs branch [v]: the branch after it. *)
Definition on_branch {A} (v : VirtioFs) (m : M (Lineage W S Id * VirtioFs) VmmError A) :
    M (Lineages W S Id) (Stop VmmError) (VirtioFs * result VmmError A) :=
  Caches.on_lineage (vf_cache_id v) (fun L => let '((L', v'), r) := m (L, v) in (L', Ok (v', r))).

(** The owner of a supervisor acts on the world. *)
Definition on_world {A} (m : KW A) : K A := zoom fst (fun w s => (w, s.2)) m.
Definition update (f : KvmSupervisor -> KvmSupervisor) : K unit := modify (fun s => (s.1, f s.2)).

(** Run a computation and keep a [Result] as a value; a panic goes on. *)
Definition catch {St' E A} (m : M St' (Stop E) A) : M St' (Stop E) (result E A) := fun s =>
  match m s with
  | (s', Ok a) => (s', Ok (Ok a))
  | (s', Err (Failed e)) => (s', Ok (Err e))
  | (s', Err Panicked) => (s', Err Panicked)
  end.
Definition rethrow {St' E A} (r : result E A) : M St' (Stop E) A := lift (map_err Failed r).

(** [m], and on its error [cleanup] before the error goes on: the values
    dropped by an early return. *)
Definition or_drop {St' E A} (cleanup : M St' (Stop E) unit) (m : M St' (Stop E) A) : M St' (Stop E) A :=
  r ← catch m;
  match r with
  | Ok a => mret a
  | Err e => _ ← cleanup; throw (Failed e)
  end.

(** ** Backends *)

(** [VmBackend::pause] and [VmBackend::resume]. *)
Definition pause_backend (b : VmBackend) : KW unit :=
  match b with
  | RawVm vm => in_vmm "pause KVM VM" (vm_pause vm)
  | CloudVm vm => with_vmm (ChVm.pause vm)
  end.
Definition resume_backend (b : VmBackend) : KW unit :=
  match b with
  | RawVm vm => in_vmm "resume KVM VM" (vm_resume vm)
  | CloudVm vm => with_vmm (ChVm.resume vm)
  end.

(** [Drop] for [VirtioFsBranch] and for [SupervisedVm]: the slot of a raw VM
    is unregistered, then the backend and the branch are dropped. *)
Definition drop_filesystem (v : VirtioFs) : KW unit :=
  with_fs (_ ← on_branch v (with_err (fun e => Backend EmptyString (CauseCache e)) Vfs.drop_branch); mret tt).

Definition ignore {A} (m : KW A) : KW unit := _ ← catch m; mret tt.

Definition drop_backend (b : VmBackend) : KW unit :=
  match b with
  | RawVm _ => mret tt
  | CloudVm vm => with_vmm (ChVm.drop_cloud vm)
  end.

Definition drop_vm (v : KvmVm) : KW unit :=
  _ ← (match kv_backend v with
       | RawVm vm => ignore (with_vmm (ChVm.unregister (kv_ram v) vm RAM_SLOT RAM_GPA))
       | CloudVm _ => mret tt
       end);
  _ ← drop_backend (kv_backend v);
  drop_filesystem (kv_filesystem v).

(** ** The forest *)

(** [KvmSupervisor::new]. *)
Definition new : KW KvmSupervisor :=
  _ ← in_vmm "create KVM hypervisor" hv_new;
  mret (mkKvmSupervisor 1 1 ∅ None None).

(** [vm] and [vm_mut]. *)
Definition find (id : N) : K KvmVm :=
  s ← get;
  lift (ok_or (Failed (KvmVmNotFound id)) (ks_vms s.2 !! id)).

Definition put_vm (id : N) (v : KvmVm) : K unit := update (fun s => set_vms (<[id := v]> (ks_vms s)) s).

(** Operations of one VM's RAM and of its virtio-fs branch; both leave their
    changes in the VM also when they fail. *)
Definition on_ram {A} (id : N) (m : Ram.R A) : K A := fun s =>
  match ks_vms s.2 !! id with
  | None => (s, Err Panicked)
  | Some v =>
      let '((w, ram), r) := m (kw_ram s.1, kv_ram v) in
      ((set_kw_ram w s.1, set_vms (<[id := mkKvmVm (kv_backend v) ram (kv_filesystem v)]> (ks_vms s.2)) s.2),
       map_err failed_vmm r)
  end.

Definition on_fs {A} (id : N) (m : M (Lineage W S Id * VirtioFs) VmmError A) : K A := fun s =>
  match ks_vms s.2 !! id with
  | None => (s, Err Panicked)
  | Some v =>
      let '(w, r) := with_fs (on_branch (kv_filesystem v) m) s.1 in
      match r with
      | Ok (fs, r') =>
          ((w, set_vms (<[id := mkKvmVm (kv_backend v) (kv_ram v) fs]> (ks_vms s.2)) s.2), map_err failed_vmm r')
      | Err e => ((w, s.2), Err e)
      end
  end.

(** [create_filesystem]. *)
Definition create_filesystem : K VirtioFs :=
  s ← get;
  match ks_storage s.2 with
  | None => on_world (with_fs (Caches.add_lineage Vfs.create))
  | Some storage =>
      let lineage := ks_next_lineage s.2 in
      _ ← update (set_next_lineage (wrapping_add lineage 1));
      on_world (with_fs (Caches.add_lineage
        (Vfs.create_durable lineage (join (join storage "filesystems") (pretty lineage)))))
  end.

(** [KvmVmId(self.next_vm)], the counter moved on, and the insertion, which
    drops a VM it replaces. *)
Definition insert_vm (v : KvmVm) : K N :=
  s ← get;
  let id := ks_next_vm s.2 in
  _ ← update (set_next_vm (wrapping_add id 1));
  _ ← put_vm id v;
  _ ← (match ks_vms s.2 !! id with Some old => on_world (drop_vm old) | None => mret tt end);
  mret id.

(** [create_vm]. *)
Definition create_vm (ram_size : N) : K N :=
  vm ← on_world (in_vmm "create KVM VM" hv_create_vm);
  ram ← on_world (with_ram (Ram.new ram_size));
  _ ← on_world (with_vmm (ChVm.register ram vm RAM_SLOT RAM_GPA));
  filesystem ← or_drop (on_world (ignore (with_vmm (ChVm.unregister ram vm RAM_SLOT RAM_GPA)))) create_filesystem;
  insert_vm (mkKvmVm (RawVm vm) ram filesystem).

Definition minidox_fs (filesystem : VirtioFs) : FsConfig :=
  mkFsConfig (mkPciCommon None false 0 None) "minidox" EmptyString 1 1024 (Some (vf_backend_id filesystem)) DAX_WINDOW_SIZE.

(** [create_cloud_vm]; [usize::try_from] of a 64-bit size does not fail on the
    64-bit hosts KVM is built for. *)
Definition create_cloud_vm (config : VmConfig Opts) : K N :=
  ram ← on_world (with_ram (Ram.new (vc_memory_size config)));
  filesystem ← create_filesystem;
  let config := mkVmConfig (vc_memory_size config) (Some (default [] (vc_fs config) ++ [minidox_fs filesystem]))
                  (vc_options config) in
  backend ← or_drop (on_world (drop_filesystem filesystem)) (on_world (with_vmm ChVm.start));
  _ ← or_drop (on_world (_ ← drop_backend (CloudVm backend); drop_filesystem filesystem))
        (on_world (_ ← with_vmm (ChVm.create backend config); with_vmm (ChVm.boot_with_ram backend ram)));
  insert_vm (mkKvmVm (CloudVm backend) ram filesystem).

(** ** Access *)

(** The frame of every access to a VM: pause, act, resume; the error of the
    act goes before that of the resume. *)
Definition while_paused {A} (id : N) (m : K A) : K A :=
  vm ← find id;
  _ ← on_world (pause_backend (kv_backend vm));
  result ← catch m;
  resume_result ← catch (on_world (resume_backend (kv_backend vm)));
  a ← rethrow result;
  _ ← rethrow resume_result;
  mret a.

Definition create_file (id : N) (name : string) (size : N) : K NodeId :=
  while_paused id (on_fs id (Vfs.create_file name size)).
Definition write_memory (id guest_address : N) (bytes : list byte) : K unit :=
  while_paused id (on_ram id (Ram.write guest_address bytes)).
Definition read_memory (id guest_address len : N) : K (list byte) :=
  while_paused id (on_ram id (Ram.read guest_address len)).
Definition write_file (id : N) (node : NodeId) (offset : N) (bytes : list byte) : K unit :=
  while_paused id (on_fs id (Vfs.write node offset bytes)).
Definition read_file (id : N) (node : NodeId) (offset len : N) : K (list byte) :=
  while_paused id (on_fs id (Vfs.read node offset len)).

(** ** Forks *)

Definition instant : K N := gets (fun s => clock (kw_vmm s.1)).

(** [vm.get_dirty_log(slot, base, len)] of a RAM's slot. *)
Definition dirty_log (ram : KvmGuestRam) (vm : N) : K (result string (list N)) := fun s =>
  let '(h, log) := vm_get_dirty_log vm RAM_SLOT RAM_GPA (ram_len ram) (kw_vmm s.1) in
  ((set_kw_vmm h s.1, s.2), Ok log).

(** The closure of [fork_vm], while the source is paused. *)
Definition fork_raw (source source_backend child_vm : N) : K (KvmGuestRam * VirtioFs) :=
  child_filesystem ← on_fs source Vfs.fork;
  child_ram ← or_drop (on_world (drop_filesystem child_filesystem))
    (source_vm ← find source;
     log ← dirty_log (kv_ram source_vm) source_backend;
     child_ram ← on_ram source (Ram.fork log);
     _ ← on_world (with_vmm (ChVm.register child_ram child_vm RAM_SLOT RAM_GPA));
     mret child_ram);
  mret (child_ram, child_filesystem).

Definition fork_raw_vm (source source_backend : N) : K N :=
  child_vm ← on_world (in_vmm "create child KVM VM" hv_create_vm);
  pause_started ← instant;
  _ ← on_world (in_vmm "pause source KVM VM" (vm_pause source_backend));
  fork_result ← catch (fork_raw source source_backend child_vm);
  resume_result ← catch (on_world (in_vmm "resume source KVM VM" (vm_resume source_backend)));
  '(child_ram, child_filesystem) ← rethrow fork_result;
  _ ← or_drop (on_world (_ ← ignore (with_vmm (ChVm.unregister child_ram child_vm RAM_SLOT RAM_GPA));
                         drop_filesystem child_filesystem))
        (rethrow resume_result);
  now ← instant;
  child ← insert_vm (mkKvmVm (RawVm child_vm) child_ram child_filesystem);
  _ ← update (set_last_fork_pause (Some (now - pause_started)));
  mret child.

(** The file systems of a captured configuration that the process serves
    itself are served by the child's branch. *)
Definition retarget (child : VirtioFs) (fs : FsConfig) : FsConfig :=
  match fc_in_process_backend_id fs with
  | None => fs
  | Some _ => mkFsConfig (fc_pci_common fs) (fc_tag fs) (fc_socket fs) (fc_num_queues fs) (fc_queue_size fs)
                (Some (vf_backend_id child)) DAX_WINDOW_SIZE
  end.

Definition with_config_fs (f : list FsConfig -> list FsConfig) (config : VmConfig Opts) : VmConfig Opts :=
  mkVmConfig (vc_memory_size config) (f <$> vc_fs config) (vc_options config).

Definition retarget_capture (child : VirtioFs) (c : VmForkStateCapture Opts Snap Ranges) :
    VmForkStateCapture Opts Snap Ranges :=
  mkCapture (with_config_fs (fmap (retarget child)) (cap_config c)) (cap_snapshot c) (cap_dirty_memory c)
    (cap_dirty_ram_pages c).

(** The closure of [fork_cloud_vm], while the source is paused. *)
Definition fork_cloud (source : N) (b : CloudHypervisorVm) (preparation : RamForkPreparation) :
    K (VmForkStateCapture Opts Snap Ranges * RamForkBranch * VirtioFs) :=
  capture ← on_world (with_vmm (ChVm.capture_fork_state b));
  child_filesystem ← on_fs source Vfs.fork;
  child_ram_branch ← or_drop (on_world (drop_filesystem child_filesystem))
    (on_ram source (Ram.finish_prepared_branch preparation (cap_dirty_ram_pages capture)));
  mret (retarget_capture child_filesystem capture, child_ram_branch, child_filesystem).

(** The backend of a VM that was captured, running. *)
Definition revive_backend (capture : VmForkStateCapture Opts Snap Ranges) (ram : KvmGuestRam) : KW CloudHypervisorVm :=
  backend ← with_vmm ChVm.start;
  _ ← or_drop (drop_backend (CloudVm backend))
        (_ ← with_vmm (ChVm.restore_fork_state backend capture ram);
         _ ← with_vmm (ChVm.begin_fork_tracking backend);
         with_vmm (ChVm.resume backend));
  mret backend.

(** The second half of [fork_cloud_vm]: the child comes to life. *)
Definition start_child (resume_result : result SupervisorError unit) (capture : VmForkStateCapture Opts Snap Ranges)
    (child_ram_branch : RamForkBranch) (child_filesystem : VirtioFs) : K (KvmVm * N) :=
  or_drop (on_world (drop_filesystem child_filesystem))
    (_ ← rethrow resume_result;
     now ← instant;
     child_ram ← on_world (with_ram (Ram.materialize child_ram_branch));
     child_backend ← on_world (revive_backend capture child_ram);
     mret (mkKvmVm (CloudVm child_backend) child_ram child_filesystem, now)).

(** [fork_cloud_vm]; the guest goes on running, as [guest], until it is
    paused. *)
Definition fork_cloud_vm (guest : K unit) (source : N) (b : CloudHypervisorVm) : K N :=
  dirty_before_copy ← on_world (with_vmm (ChVm.take_dirty_ram_pages b));
  preparation ← on_ram source (Ram.prepare_fork dirty_before_copy);
  _ ← guest;
  pause_started ← instant;
  _ ← on_world (with_vmm (ChVm.pause b));
  fork_result ← catch (fork_cloud source b preparation);
  resume_result ← catch (on_world (with_vmm (ChVm.resume b)));
  '(capture, child_ram_branch, child_filesystem) ← rethrow fork_result;
  child ← start_child resume_result capture child_ram_branch child_filesystem;
  id ← insert_vm child.1;
  _ ← update (set_last_fork_pause (Some (child.2 - pause_started)));
  mret id.

(** [fork_vm]. *)
Definition fork_vm (guest : K unit) (source : N) : K N :=
  v ← find source;
  match kv_backend v with
  | CloudVm b => fork_cloud_vm guest source b
  | RawVm vm => fork_raw_vm source vm
  end.

(** [remove_vm]. *)
Definition remove_vm (id : N) : K unit :=
  v ← find id;
  _ ← update (fun s => set_vms (delete id (ks_vms s)) s);
  on_world (drop_vm v).

(** ** Inspection *)

Definition vm_list (s : KvmSupervisor) : list (N * KvmVm) := btree_list (ks_vms s).

Definition page_accounting : K KvmForkAccounting :=
  s ← get;
  let vms := (vm_list s.2).*2 in
  filesystem ← on_world (with_fs (Caches.page_accounting (kv_filesystem <$> vms)));
  mret (mkKvmAccounting (Ram.page_accounting (kv_ram <$> vms)) filesystem).

Definition last_fork_pause (s : KvmSupervisor) : option N := ks_last_fork_pause s.
Definition vm_ids (s : KvmSupervisor) : list N := (vm_list s).*1.

End kvm.
End Kvm.
