(* ===== verification/KvmRecovery.v ===== *)
(** * Checkpoints and restarts of the KVM supervisor
    (crates/minidox-vmm/src/supervisor.rs)

    A checkpoint pauses every VM, seals its RAM, saves its file system and its
    backend, lets the VMs run again, and replaces the manifest of the forest.
    [open] brings a forest back from the manifest. *)

From stdpp Require Import pretty.
From S2P Require Import Prelude Generations Host CacheTypes SharedCache Storage RedoxBranch VmmTypes VirtioFs Lineages Ram RamDurable KvmVmm KvmSupervisor.

Definition MANIFEST_VERSION : N := 1.

(** [DurableBackend], [VmManifest] and [ForestManifest]. *)
Inductive DurableBackend (Opts Snap Ranges : Type) :=
  | DurableRaw
  | DurableCloud (config : VmConfig Opts) (snapshot : Snap) (dirty_memory : Ranges) (in_process_filesystems : list nat).
Arguments DurableRaw {Opts Snap Ranges}.
Arguments DurableCloud {Opts Snap Ranges}.

Record VmManifest (St Opts Snap Ranges : Type) := mkVmManifest {
  vmf_id : N;
  vmf_backend : DurableBackend Opts Snap Ranges;
  vmf_ram : RamState;
  vmf_filesystem : VirtioFsSnapshot St
}.
Arguments mkVmManifest {St Opts Snap Ranges}.
Arguments vmf_id {St Opts Snap Ranges}.
Arguments vmf_backend {St Opts Snap Ranges}.
Arguments vmf_ram {St Opts Snap Ranges}.
Arguments vmf_filesystem {St Opts Snap Ranges}.

Record ForestManifest (St Opts Snap Ranges : Type) := mkForestManifest {
  fm_version : N;
  fm_next_vm : N;
  fm_next_lineage : N;
  fm_vms : list (VmManifest St Opts Snap Ranges)
}.
Arguments mkForestManifest {St Opts Snap Ranges}.
Arguments fm_version {St Opts Snap Ranges}.
Arguments fm_next_vm {St Opts Snap Ranges}.
Arguments fm_next_lineage {St Opts Snap Ranges}.
Arguments fm_vms {St Opts Snap Ranges}.

(** [serde_json::to_writer] and [serde_json::from_reader] at [ForestManifest]. *)
Class ManifestCodec (St Opts Snap Ranges : Type) := {
  to_json : ForestManifest St Opts Snap Ranges -> result string (list byte);
  from_json : list byte -> result string (ForestManifest St Opts Snap Ranges)
}.

Definition io_message (e : io_error) : string :=
  match e with Custom _ message => message | RawOs code => "os error " +:+ pretty code end.

Module KvmDur.
Import Kvm.
Section kvm_durable.
Context {W S Id St H Opts Snap Ranges : Type} `{Countable Id} `{!BranchStore W S Id St} `{!Vmm H Opts Snap Ranges}.
Context `{!ManifestCodec St Opts Snap Ranges} `{!SparseFiles}.

Abbreviation KW := (M (KvmWorld W S Id H) (Stop SupervisorError)).
Abbreviation K := (M (KvmWorld W S Id H * KvmSupervisor) (Stop SupervisorError)).
Abbreviation manifest := (ForestManifest St Opts Snap Ranges).

Definition generations_dir (storage : string) : string := join storage "ram/generations".
Definition manifest_path (storage : string) : Path := (storage, "forest.json").

(** The directory of the forest under [serde_json], which reports errors of
    the file as its own. *)
Definition with_json {A} (m : SIO A) : KW A :=
  zoom kw_dir set_kw_dir (with_err (fun e => Failed (KvmJson (io_message e))) m).

(** ** Checkpoints *)

(** [publish_manifest], on the directory of the forest. *)
Definition publish_manifest (storage : string) (m : manifest) : KW unit :=
  temporary ← with_dir (Fd.new_in storage);
  bytes ← lift (map_err (fun message => Failed (KvmJson message)) (to_json m));
  _ ← with_json (Sto.write_all temporary bytes);
  _ ← with_dir (Sto.sync_data temporary);
  _ ← with_dir (Fd.persist temporary (manifest_path storage));
  with_dir (Sto.sync_directory storage).

(** [self.vms[&id]]. *)
Definition index (id : N) : K KvmVm :=
  s ← get;
  lift (ok_or Panicked (ks_vms s.2 !! id)).

Definition resume_vm (id : N) : K unit :=
  v ← index id;
  on_world (resume_backend (kv_backend v)).

(** The loop that pauses every VM; [paused] has the last one first.  If one
    cannot be paused, those before it are resumed. *)
Fixpoint pause_all (vms : list (N * KvmVm)) (paused : list N) : K (list N) :=
  match vms with
  | [] => mret paused
  | (id, v) :: rest =>
      r ← catch (on_world (pause_backend (kv_backend v)));
      match r with
      | Ok _ => pause_all rest (id :: paused)
      | Err e =>
          _ ← for_each (fun paused_id => _ ← catch (resume_vm paused_id); mret tt) paused;
          throw (Failed e)
      end
  end.

(** The loop that resumes them: every VM, the first error is kept. *)
Fixpoint resume_all (paused : list N) (resume_result : result SupervisorError unit) :
    K (result SupervisorError unit) :=
  match paused with
  | [] => mret resume_result
  | id :: rest =>
      r ← catch (resume_vm id);
      resume_all rest (match r, resume_result with Err e, Ok _ => Err e | _, _ => resume_result end)
  end.

(** The indexes of the file systems the process serves itself. *)
Definition in_process_filesystems (config : VmConfig Opts) : list nat :=
  omap id (imap (fun index fs => const index <$> fc_in_process_backend_id fs) (default [] (vc_fs config))).

(** The RAM and the backend of one VM. *)
Definition seal_backend (id : N) (v : KvmVm) : K (DurableBackend Opts Snap Ranges) :=
  match kv_backend v with
  | RawVm raw =>
      log ← dirty_log (kv_ram v) raw;
      _ ← on_ram id (Ram.seal_for_checkpoint log);
      mret DurableRaw
  | CloudVm cloud =>
      capture ← on_world (with_vmm (ChVm.capture_fork_state cloud));
      _ ← on_ram id (Ram.seal_dirty_pages (cap_dirty_ram_pages capture));
      mret (DurableCloud (cap_config capture) (cap_snapshot capture) (cap_dirty_memory capture)
              (in_process_filesystems (cap_config capture)))
  end.

(** One round of the checkpoint's loop. *)
Definition save_vm (storage : string) (id : N) : K (VmManifest St Opts Snap Ranges) :=
  v ← index id;
  backend ← seal_backend id v;
  filesystem ← on_fs id Vfs.durable_snapshot;
  v ← index id;
  ram ← on_world (with_ram (RamDur.durable_state (generations_dir storage) (kv_ram v)));
  mret (mkVmManifest id backend ram filesystem).

Fixpoint save_all (storage : string) (ids : list N) : K (list (VmManifest St Opts Snap Ranges)) :=
  match ids with
  | [] => mret []
  | id :: rest =>
      saved ← save_vm storage id;
      others ← save_all storage rest;
      mret (saved :: others)
  end.

(** The closure of [checkpoint]. *)
Definition capture_forest (storage : string) : K manifest :=
  s ← get;
  saved ← save_all storage (vm_ids s.2);
  mret (mkForestManifest MANIFEST_VERSION (ks_next_vm s.2) (ks_next_lineage s.2) saved).

(** [checkpoint]. *)
Definition checkpoint : K unit :=
  s ← get;
  storage ← lift (ok_or (Failed DurabilityRequired) (ks_storage s.2));
  paused ← pause_all (vm_list s.2) [];
  checkpoint_result ← catch (capture_forest storage);
  resume_result ← resume_all paused (Ok tt);
  m ← rethrow checkpoint_result;
  _ ← rethrow resume_result;
  on_world (publish_manifest storage m).

(** ** Restarts *)

(** [by_lineage]: the snapshots of one lineage with the indexes of their VMs. *)
Definition by_lineage (vms : list (VmManifest St Opts Snap Ranges)) : gmap N (list (nat * VirtioFsSnapshot St)) :=
  foldl (fun m entry =>
    let '(index, vm) := entry in
    let lineage := sn_lineage (vmf_filesystem vm) in
    <[lineage := default [] (m !! lineage) ++ [(index, vmf_filesystem vm)]]> m) ∅ (imap pair vms).

(** [filesystems[index] = Some(filesystem)] for the branches of a lineage. *)
Definition place (filesystems : list (option VirtioFs)) (placed : list (nat * VirtioFs)) : list (option VirtioFs) :=
  foldl (fun l entry => <[entry.1 := Some entry.2]> l) filesystems placed.

Definition drop_filesystems (l : list (option VirtioFs)) : KW unit :=
  for_each (fun o => match o with Some v => drop_filesystem v | None => mret tt end) l.

Fixpoint restore_lineages (storage : string) (lineages : list (N * list (nat * VirtioFsSnapshot St)))
    (filesystems : list (option VirtioFs)) : KW (list (option VirtioFs)) :=
  match lineages with
  | [] => mret filesystems
  | (lineage, entries) :: rest =>
      restored ← or_drop (drop_filesystems filesystems)
        (with_fs (Caches.add_lineage
          (Vfs.restore_lineage (join (join storage "filesystems") (pretty lineage)) (entries.*2))));
      restore_lineages storage rest (place filesystems (zip (entries.*1) restored))
  end.

(** The in-process file systems of a saved configuration are served by the
    restored branch; the first index that is not there is an error. *)
Fixpoint reattach (child : VirtioFs) (indexes : list nat) (configured : list FsConfig) : result SupervisorError (list FsConfig) :=
  match indexes with
  | [] => Ok configured
  | index :: rest =>
      match configured !! index with
      | None => Err (KvmIo (Custom InvalidData "in-process filesystem index is outside VM config"))
      | Some fs =>
          reattach child rest (<[index :=
            mkFsConfig (fc_pci_common fs) (fc_tag fs) (fc_socket fs) (fc_num_queues fs) (fc_queue_size fs)
              (Some (vf_backend_id child)) DAX_WINDOW_SIZE]> configured)
      end
  end.

Definition reattach_config (child : VirtioFs) (indexes : list nat) (config : VmConfig Opts) :
    result SupervisorError (VmConfig Opts) :=
  match vc_fs config with
  | None => Ok config
  | Some configured =>
      match reattach child indexes configured with
      | Ok configured' => Ok (mkVmConfig (vc_memory_size config) (Some configured') (vc_options config))
      | Err e => Err e
      end
  end.

Definition restore_backend (saved : DurableBackend Opts Snap Ranges) (ram : KvmGuestRam) (filesystem : VirtioFs) :
    KW VmBackend :=
  match saved with
  | DurableRaw =>
      vm ← in_vmm "restore KVM VM" hv_create_vm;
      _ ← with_vmm (ChVm.register ram vm RAM_SLOT RAM_GPA);
      mret (RawVm vm)
  | DurableCloud config snapshot dirty_memory indexes =>
      config' ← rethrow (reattach_config filesystem indexes config);
      vm ← revive_backend (mkCapture config' snapshot dirty_memory []) ram;
      mret (CloudVm vm)
  end.

(** What an error leaves to drop: the branches not used yet, and the VMs. *)
Definition drop_forest (filesystems : list (option VirtioFs)) (vms : gmap N KvmVm) : KW unit :=
  _ ← drop_filesystems filesystems;
  for_each (fun v => drop_vm v) (btree_list vms).*2.

(** The loop that puts the VMs together. *)
Fixpoint restore_vms (saved : list (VmManifest St Opts Snap Ranges)) (rams : list KvmGuestRam)
    (filesystems : list (option VirtioFs)) (vms : gmap N KvmVm) : KW (gmap N KvmVm) :=
  match saved, rams, filesystems with
  | vm :: saved', ram :: rams', None :: filesystems' =>
      _ ← drop_forest filesystems' vms;
      throw (Failed (KvmIo (Custom InvalidData "missing restored filesystem branch")))
  | vm :: saved', ram :: rams', Some filesystem :: filesystems' =>
      backend ← or_drop (_ ← drop_filesystem filesystem; drop_forest filesystems' vms)
                  (restore_backend (vmf_backend vm) ram filesystem);
      _ ← (match vms !! vmf_id vm with Some old => drop_vm old | None => mret tt end);
      restore_vms saved' rams' filesystems' (<[vmf_id vm := mkKvmVm backend ram filesystem]> vms)
  | _, _, _ => mret vms
  end.

(** The manifest as the directory has it. *)
Definition read_manifest (storage : string) : KW manifest :=
  file ← with_dir (Sto.open (manifest_path storage));
  bytes ← with_json (_ ← Sto.call; gets (fun st => inode_bytes st file));
  lift (map_err (fun message => Failed (KvmJson message)) (from_json bytes)).

(** [open], with a manifest. *)
Definition restore_forest (storage : string) (m : manifest) : KW KvmSupervisor :=
  if negb (fm_version m =? MANIFEST_VERSION) then throw (Failed (UnsupportedManifestVersion (fm_version m))) else
  _ ← in_vmm "create KVM hypervisor" hv_new;
  rams ← with_ram (RamDur.restore (vmf_ram <$> fm_vms m) (generations_dir storage));
  filesystems ← restore_lineages storage (btree_list (by_lineage (fm_vms m)))
                  (replicate (length (fm_vms m)) None);
  vms ← restore_vms (fm_vms m) rams filesystems ∅;
  mret (mkKvmSupervisor (fm_next_vm m) (fm_next_lineage m) vms None (Some storage)).

(** [fs::create_dir_all] of a directory in the forest's. *)
Definition create_dir_in (storage name : string) : SIO unit :=
  _ ← Sto.create_dir_all (join storage name);
  modify (fun st => set_dirs ({[ storage ]} ∪ sto_dirs st) st).

Definition with_ram_storage {A} (m : SIO A) : KW A :=
  zoom kw_ram set_kw_ram (zoom rm_storage Ram.set_ram_storage (with_err (fun e => Failed (KvmIo e)) m)).

(** [open]. *)
Definition open (storage : string) : KW KvmSupervisor :=
  _ ← with_ram_storage (Sto.create_dir_all (generations_dir storage));
  _ ← with_dir (create_dir_in storage "filesystems");
  _ ← with_ram (RamDur.reserve_persisted_generation_ids (generations_dir storage));
  there ← with_dir (Fd.exists_path (manifest_path storage));
  if there : bool then
    m ← read_manifest storage;
    restore_forest storage m
  else
    s ← new;
    mret (mkKvmSupervisor (ks_next_vm s) (ks_next_lineage s) (ks_vms s) (ks_last_fork_pause s) (Some storage)).

End kvm_durable.
End KvmDur.
