(* ===== verification/KvmRuns.v ===== *)
(** * The KVM supervisor leaves no VM paused

    What KVM and Cloud Hypervisor do to the VMs that run, as laws on the VMM
    parameter; a VMM with a record of the machines whose pause or resume
    failed; and what the requests of linux.rs do to the machines that run or
    are on that record. *)

From S2P Require Import Prelude Generations Host CacheTypes SharedCache Storage RedoxBranch VmmTypes VirtioFs Lineages LineageIds Ram RamDurable KvmVmm KvmSupervisor KvmRecovery.

(** ** VMs that run *)

Inductive Machine := RawMachine (vm : N) | Worker (worker : N).

#[export] Instance Machine_eq_dec : EqDecision Machine.
Proof. solve_decision. Defined.
#[export] Instance Machine_countable : Countable Machine.
Proof.
  apply (inj_countable' (fun m => match m with RawMachine v => inl v | Worker w => inr w end : N + N)
    (fun x => match x with inl v => RawMachine v | inr w => Worker w end)). by intros [].
Defined.

Definition machine_of (b : VmBackend) : Machine :=
  match b with RawVm vm => RawMachine vm | CloudVm c => Worker (ch_api c) end.

(** The worker a backend joins is the one it talks to. *)
Definition backend_wf (b : VmBackend) : Prop :=
  match b with RawVm _ => True | CloudVm c => ch_worker c = Some (ch_api c) end.

(** What can be seen of a VMM: the machines made so far, and those that run. *)
Class VmmRuns (H : Type) := {
  machines : H -> gset Machine;
  running : H -> gset Machine
}.

(** Nothing is forgotten, and the machines of [live] outside [X] stay in it. *)
Definition still `{!VmmRuns H} (live : H -> gset Machine) (X : gset Machine) (h h' : H) : Prop :=
  machines h ⊆ machines h' /\ live h ∖ X ⊆ live h'.

Section still.
Context {H : Type} `{!VmmRuns H} {live : H -> gset Machine}.

Implicit Types (X Y : gset Machine) (h : H).

#[export] Instance still_preorder X : PreOrder (still live X).
Proof. unfold still. split; [intros h; set_solver|]. intros h h' h'' [] []. set_solver. Qed.

Lemma still_mono X Y h h' : X ⊆ Y -> still live X h h' -> still live Y h h'.
Proof. unfold still. set_solver. Qed.

Lemma keeps_still {E A} X (m : M H E A) : keeps (still live ∅) m -> keeps (still live X) m.
Proof. intros Hm h. eapply still_mono; [|apply Hm]. set_solver. Qed.

End still.

(** What requests other than to pause or resume do to the machines of [live]:
    only its own requests touch a machine. *)
Class QuietLaws (H Opts Snap Ranges : Type) `{!Vmm H Opts Snap Ranges} `{!VmmRuns H} (live : H -> gset Machine) := {
  law_hv_new : keeps (still live ∅) hv_new;
  law_create_region vm slot gpa len : keeps (still live ∅) (vm_create_user_memory_region vm slot gpa len);
  law_remove_region vm slot gpa len : keeps (still live ∅) (vm_remove_user_memory_region vm slot gpa len);
  law_start_log vm : keeps (still live ∅) (vm_start_dirty_log vm);
  law_get_log vm slot gpa len : keeps (still live ∅) (vm_get_dirty_log vm slot gpa len);
  law_eventfd_new : keeps (still live ∅) eventfd_new;
  law_eventfd_clone : keeps (still live ∅) eventfd_clone;
  law_event_clone w : keeps (still live ∅) (api_event_clone w);
  law_begin_tracking w : keeps (still live ∅) (api_begin_fork_tracking w);
  law_capture w : keeps (still live ∅) (api_capture_fork_state w);
  law_take_dirty w : keeps (still live ∅) (api_take_dirty_ram_pages w);
  law_create w config : keeps (still live {[Worker w]}) (api_create w config);
  law_external_memory w len : keeps (still live {[Worker w]}) (api_set_external_memory w len);
  law_initial_tracking w : keeps (still live {[Worker w]}) (api_enable_initial_fork_tracking w);
  law_restore w capture len : keeps (still live {[Worker w]}) (api_restore_fork_state w capture len);
  law_shutdown w : keeps (still live {[Worker w]}) (api_shutdown w);
  law_join w h : still live {[Worker w]} h (join_worker w h).1;
  law_create_vm h : wp hv_create_vm
    (fun vm h' => still live ∅ h h' /\ (RawMachine vm ∉ machines h) /\ RawMachine vm ∈ machines h' /\ RawMachine vm ∈ live h')
    (fun _ h' => still live ∅ h h') h;
  law_start_thread h : wp start_vmm_thread
    (fun w h' => still live ∅ h h' /\ (Worker w ∉ machines h) /\ Worker w ∈ machines h') (fun _ h' => still live ∅ h h') h;
  law_boot w h : wp (api_boot w)
    (fun _ h' => still live {[Worker w]} h h' /\ Worker w ∈ live h') (fun _ h' => still live {[Worker w]} h h') h
}.

(** What the VMM does to the machines that run.  A resume starts a machine.  A
    pause or resume that fails may leave the machine stopped: Cloud Hypervisor
    parks the processors before it pauses the devices, and does not start them
    again when that fails. *)
Class VmmRunLaws (H Opts Snap Ranges : Type) `{!Vmm H Opts Snap Ranges} `{!VmmRuns H} := {
  run_quiet :: QuietLaws H Opts Snap Ranges running;
  run_pause_raw vm : keeps (still running {[RawMachine vm]}) (vm_pause vm);
  run_pause_cloud w : keeps (still running {[Worker w]}) (api_pause w);
  run_resume_raw vm h : wp (vm_resume vm)
    (fun _ h' => still running ∅ h h' /\ RawMachine vm ∈ running h') (fun _ h' => still running {[RawMachine vm]} h h') h;
  run_resume_cloud w h : wp (api_resume w)
    (fun _ h' => still running ∅ h h' /\ Worker w ∈ running h') (fun _ h' => still running {[Worker w]} h h') h
}.

(** ** Machines that run, or were refused *)

(** What the invariant of the supervisor is proved against: some machines are
    [sound], and stay so when a pause fails; every attempt to resume a machine
    makes it sound.  [undisturbed] is what guests do meanwhile. *)
Class VmmSound (H : Type) := {
  sound : H -> gset Machine;
  undisturbed : H -> H -> Prop
}.

Class VmmSoundLaws (H Opts Snap Ranges : Type) `{!Vmm H Opts Snap Ranges} `{!VmmRuns H} `{!VmmSound H} := {
  sound_quiet :: QuietLaws H Opts Snap Ranges sound;
  sound_undisturbed h h' : undisturbed h h' -> still sound ∅ h h';
  law_pause_raw vm h : wp (vm_pause vm) (fun _ h' => still sound {[RawMachine vm]} h h') (fun _ h' => still sound ∅ h h') h;
  law_pause_cloud w h : wp (api_pause w) (fun _ h' => still sound {[Worker w]} h h') (fun _ h' => still sound ∅ h h') h;
  law_refused_event w h : wp (api_event_clone w) (fun _ h' => still sound ∅ h h') (fun _ h' => still sound ∅ h h' /\ Worker w ∈ sound h') h;
  law_resume_raw vm h : wp (vm_resume vm)
    (fun _ h' => still sound ∅ h h' /\ RawMachine vm ∈ sound h') (fun _ h' => still sound ∅ h h' /\ RawMachine vm ∈ sound h') h;
  law_resume_cloud w h : wp (api_resume w)
    (fun _ h' => still sound ∅ h h' /\ Worker w ∈ sound h') (fun _ h' => still sound ∅ h h' /\ Worker w ∈ sound h') h
}.

(** A VMM with a record of the machines that were refused: a request to pause
    or to resume the machine failed, or its event descriptor could not be
    duplicated to send it one, and it was not resumed since. *)
Record Watched (H : Type) := mkWatched { vmm : H; refused : gset Machine }.
Arguments mkWatched {H}.
Arguments vmm {H}.
Arguments refused {H}.

Module Watch.
Section watch.
Context {H : Type}.

(** A request whose failure is recorded as [f] says, its success as [g]. *)
Definition record {A} (f g : gset Machine -> gset Machine) (m : M H string A) : M (Watched H) string A := fun x =>
  let '(h, r) := m (vmm x) in (mkWatched h (match r with Ok _ => g (refused x) | Err _ => f (refused x) end), r).

Definition pass {A} (m : M H string A) : M (Watched H) string A := record id id m.
Definition watch {A} (x : Machine) (m : M H string A) : M (Watched H) string A := record (union {[x]}) id m.
Definition resume {A} (x : Machine) (m : M H string A) : M (Watched H) string A := record (union {[x]}) (fun X => X ∖ {[x]}) m.

End watch.
End Watch.

Section watched.
Context {H Opts Snap Ranges : Type} `{!Vmm H Opts Snap Ranges} `{!VmmRuns H}.
Import Watch.

#[export] Instance Watched_vmm : Vmm (Watched H) Opts Snap Ranges := {
  hv_new := pass hv_new;
  hv_create_vm := pass hv_create_vm;
  vm_pause vm := watch (RawMachine vm) (vm_pause vm);
  vm_resume vm := resume (RawMachine vm) (vm_resume vm);
  vm_create_user_memory_region vm slot gpa len := pass (vm_create_user_memory_region vm slot gpa len);
  vm_remove_user_memory_region vm slot gpa len := pass (vm_remove_user_memory_region vm slot gpa len);
  vm_start_dirty_log vm := pass (vm_start_dirty_log vm);
  vm_get_dirty_log vm slot gpa len := pass (vm_get_dirty_log vm slot gpa len);
  eventfd_new := pass eventfd_new;
  eventfd_clone := pass eventfd_clone;
  api_event_clone w := watch (Worker w) (api_event_clone w);
  start_vmm_thread := pass start_vmm_thread;
  api_create w config := pass (api_create w config);
  api_boot w := pass (api_boot w);
  api_set_external_memory w len := pass (api_set_external_memory w len);
  api_enable_initial_fork_tracking w := pass (api_enable_initial_fork_tracking w);
  api_pause w := watch (Worker w) (api_pause w);
  api_resume w := resume (Worker w) (api_resume w);
  api_begin_fork_tracking w := pass (api_begin_fork_tracking w);
  api_capture_fork_state w := pass (api_capture_fork_state w);
  api_take_dirty_ram_pages w := pass (api_take_dirty_ram_pages w);
  api_restore_fork_state w capture len := pass (api_restore_fork_state w capture len);
  api_shutdown w := pass (api_shutdown w);
  join_worker w x := let '(h, j) := join_worker w (vmm x) in (mkWatched h (refused x), j);
  clock x := clock (vmm x)
}.

#[export] Instance Watched_runs : VmmRuns (Watched H) := {
  machines x := machines (vmm x);
  running x := running (vmm x)
}.

#[export] Instance Watched_sound : VmmSound (Watched H) := {
  sound x := running (vmm x) ∪ refused x;
  undisturbed x x' := still running ∅ (vmm x) (vmm x') /\ refused x' = refused x
}.

Lemma wp_record {A} f g (m : M H string A) (Q : A -> Watched H -> Prop) R x :
  wp (record f g m) Q R x <->
  wp m (fun a h => Q a (mkWatched h (g (refused x)))) (fun e h => R e (mkWatched h (f (refused x)))) (vmm x).
Proof. unfold wp, record. by destruct (m (vmm x)) as [h [a|e]]. Qed.

Lemma still_pass X x h Y : still running X (vmm x) h -> refused x ⊆ Y -> still sound X x (mkWatched h Y).
Proof. unfold still. cbn. set_solver. Qed.

(** A request whose failure is recorded. *)
Lemma still_refused y X x h Y : still running X (vmm x) h -> X ⊆ {[y]} -> refused x ⊆ {[y]} ∪ Y -> y ∈ running h ∪ Y ->
  still sound ∅ x (mkWatched h Y) /\ y ∈ sound (mkWatched h Y).
Proof.
  intros [Hm Hr] HX HY Hy. split; [|done]. split; [done|]. cbn. intros z Hz.
  destruct (decide (z = y)) as [->|Hne]; [done|]. clear Hy. set_solver.
Qed.

Lemma keeps_pass {A} X (m : M H string A) : keeps (still running X) m -> keeps (still sound X) (pass m).
Proof.
  intros Hm x. specialize (Hm (vmm x)). unfold pass, record. destruct (m (vmm x)) as [h r]. by apply still_pass; [|destruct r].
Qed.

Lemma wp_watch {A} y X (m : M H string A) x : keeps (still running X) m -> X ⊆ {[y]} ->
  wp (watch y m) (fun _ x' => still sound X x x') (fun _ x' => still sound ∅ x x' /\ y ∈ sound x') x.
Proof.
  intros Hm HX. apply wp_record. eapply wp_keeps; [exact Hm| |]; intros a h Hh.
  - by apply still_pass.
  - eapply still_refused; [exact Hh|done|set_solver|set_solver].
Qed.

Lemma wp_watched_resume {A} y (m : M H string A) x :
  wp m (fun _ h' => still running ∅ (vmm x) h' /\ y ∈ running h') (fun _ h' => still running {[y]} (vmm x) h') (vmm x) ->
  wp (resume y m) (fun _ x' => still sound ∅ x x' /\ y ∈ sound x') (fun _ x' => still sound ∅ x x' /\ y ∈ sound x') x.
Proof.
  intros Hm. apply wp_record. eapply wp_mono; [exact Hm| |].
  - intros a h [Hh Hy]. eapply still_refused; [exact Hh|set_solver| |set_solver]. intros z Hz. destruct (decide (z = y)); set_solver.
  - intros e h Hh. eapply still_refused; [exact Hh|done|set_solver|set_solver].
Qed.

Context `{!VmmRunLaws H Opts Snap Ranges}.

#[export] Instance Watched_quiet : QuietLaws (Watched H) Opts Snap Ranges sound.
Proof.
  split; try (intros; apply keeps_pass; apply run_quiet; fail).
  - intros w x. pose proof (wp_watch (Worker w) ∅ (api_event_clone w) x (law_event_clone w)) as Hw. unfold wp in Hw. cbn in *.
    destruct (watch _ _ x) as [x' [u|e]]; apply Hw; set_solver.
  - intros w x. pose proof (law_join (live := running) w (vmm x)) as Hj. cbn. destruct (join_worker w (vmm x)) as [h j].
    by apply still_pass.
  - intros x. apply wp_record. eapply wp_mono; [apply (law_create_vm (live := running))| |].
    + intros vm h (Hs & Hn & Hi & Hr). split_and!; [by apply still_pass|done|done|cbn; set_solver].
    + intros e h Hs. by apply still_pass.
  - intros x. apply wp_record. eapply wp_mono; [apply (law_start_thread (live := running))| |].
    + intros w h (Hs & Hn & Hi). split_and!; [by apply still_pass|done|done].
    + intros e h Hs. by apply still_pass.
  - intros w x. apply wp_record. eapply wp_mono; [apply (law_boot (live := running))| |].
    + intros u h [Hs Hr]. split; [by apply still_pass|cbn; set_solver].
    + intros e h Hs. by apply still_pass.
Qed.

#[export] Instance Watched_laws : VmmSoundLaws (Watched H) Opts Snap Ranges.
Proof.
  split; [apply Watched_quiet|..].
  - intros x x' [Hs Hr]. destruct x'. cbn in *. subst. by apply still_pass.
  - intros vm x. eapply wp_mono; [apply (wp_watch (RawMachine vm)); [apply run_pause_raw|done]|done|]. by intros e x' [].
  - intros w x. eapply wp_mono; [apply (wp_watch (Worker w)); [apply run_pause_cloud|done]|done|]. by intros e x' [].
  - intros w x. exact (wp_watch (Worker w) ∅ (api_event_clone w) x (law_event_clone (live := running) w) (empty_subseteq _)).
  - intros vm x. exact (wp_watched_resume (RawMachine vm) (vm_resume vm) x (run_resume_raw vm (vmm x))).
  - intros w x. exact (wp_watched_resume (Worker w) (api_resume w) x (run_resume_cloud w (vmm x))).
Qed.

End watched.

(** ** Requests *)

Section requests.
Context {H Opts Snap Ranges : Type} `{!Vmm H Opts Snap Ranges} `{!VmmRuns H} `{!VmmSound H} `{!VmmSoundLaws H Opts Snap Ranges}.

Implicit Types (X Y : gset Machine) (h : H).

Create HintDb vmm_laws.
#[local] Hint Resolve law_hv_new law_create_region law_remove_region law_start_log law_get_log law_eventfd_new
  law_eventfd_clone law_event_clone law_begin_tracking law_capture law_take_dirty law_create law_external_memory law_initial_tracking
  law_restore law_shutdown : vmm_laws.

Ltac still_step :=
  lazymatch goal with
  | |- keeps _ (ChVm.backend _ _) => apply keeps_with_err
  | |- keeps _ (ChVm.send _ _ _) => unfold ChVm.send
  | |- keeps _ (with_err _ _) => apply keeps_with_err
  | |- _ => first [keeps_step | solve [eauto with vmm_laws typeclass_instances] | solve [apply keeps_still; eauto with vmm_laws typeclass_instances]]
  end.
Ltac still_steps := repeat (still_step; cbv beta zeta).

Lemma still_register ram vm slot gpa : keeps (still sound ∅) (ChVm.register ram vm slot gpa).
Proof. unfold ChVm.register. still_steps. Qed.
Lemma still_unregister ram vm slot gpa : keeps (still sound ∅) (ChVm.unregister ram vm slot gpa).
Proof. unfold ChVm.unregister. still_steps. Qed.
Lemma still_capture c : keeps (still sound ∅) (ChVm.capture_fork_state c).
Proof. unfold ChVm.capture_fork_state. still_steps. Qed.
Lemma still_take_dirty c : keeps (still sound ∅) (ChVm.take_dirty_ram_pages c).
Proof. unfold ChVm.take_dirty_ram_pages. still_steps. Qed.
Lemma still_begin c : keeps (still sound ∅) (ChVm.begin_fork_tracking c).
Proof. unfold ChVm.begin_fork_tracking. still_steps. Qed.
Lemma still_create c config : keeps (still sound {[Worker (ch_api c)]}) (ChVm.create c config).
Proof. unfold ChVm.create. still_steps. Qed.
Lemma still_restore c capture ram : keeps (still sound {[Worker (ch_api c)]}) (ChVm.restore_fork_state c capture ram).
Proof. unfold ChVm.restore_fork_state. still_steps. Qed.

Lemma still_drop c : ch_worker c = Some (ch_api c) -> keeps (still sound {[Worker (ch_api c)]}) (ChVm.drop_cloud c).
Proof.
  intros Hc. unfold ChVm.drop_cloud, ChVm.shutdown_inner. rewrite Hc. still_steps.
  intros h. pose proof (law_join (ch_api c) h) as Hj. by destruct (join_worker _ h).
Qed.

(** [send] of a request. *)
Lemma wp_send {A} c (m : M H string A) op (Q : A -> H -> Prop) (P : H -> Prop) h :
  (forall h', still sound ∅ h h' -> P h') -> (forall h', still sound ∅ h h' -> wp m Q (fun _ => P) h') ->
  wp (ChVm.send c m op) Q (fun _ => P) h.
Proof.
  intros HP Hm. unfold ChVm.send, ChVm.backend. wp_steps. eapply wp_keeps; [apply law_event_clone| |].
  - intros _ h' Hs. wp_steps. by apply Hm.
  - intros _ h' Hs. by apply HP.
Qed.

Lemma wp_boot_with_ram c ram h : wp (ChVm.boot_with_ram c ram)
  (fun _ h' => still sound {[Worker (ch_api c)]} h h' /\ Worker (ch_api c) ∈ sound h')
  (fun _ h' => still sound {[Worker (ch_api c)]} h h') h.
Proof.
  unfold ChVm.boot_with_ram. wp_steps. eapply (wp_keeps (still sound {[Worker (ch_api c)]})); [still_steps| |done]. intros ? h1 S1. wp_steps.
  eapply (wp_keeps (still sound {[Worker (ch_api c)]})); [still_steps| |by intros ? h2 S2; etrans].
  intros ? h2 S2. apply wp_send.
  - intros h3 S3. etrans; [exact S1|]. etrans; [exact S2|]. eapply still_mono; [|exact S3]. set_solver.
  - intros h3 S3. assert (still sound {[Worker (ch_api c)]} h h3) as S.
    { etrans; [exact S1|]. etrans; [exact S2|]. eapply still_mono; [|exact S3]. set_solver. }
    eapply wp_mono; [apply law_boot| |].
    + intros ? h4 [S4 Hr]. split; [by etrans|done].
    + intros ? h4 S4. by etrans.
Qed.

Lemma wp_start_cloud h : wp ChVm.start
  (fun c h' => still sound ∅ h h' /\ ch_worker c = Some (ch_api c) /\ (Worker (ch_api c) ∉ machines h) /\ Worker (ch_api c) ∈ machines h')
  (fun _ h' => still sound ∅ h h') h.
Proof.
  unfold ChVm.start. do 5 (rewrite wp_bind; eapply (wp_keeps (still sound ∅)); [still_steps| |by intros _ ? S; repeat (etrans; [eassumption|])];
    intros _ ? ?).
  wp_steps. unfold ChVm.backend. wp_steps. eapply wp_mono; [apply law_start_thread| |].
  - intros w h6 (S & Hn & Hi). wp_steps. cbn. split_and!; [by repeat (etrans; [eassumption|])|done| |done].
    unfold still in *. set_solver.
  - intros ? h6 S. by repeat (etrans; [eassumption|]).
Qed.

Lemma wp_pause_cloud c h : wp (ChVm.pause c) (fun _ h' => still sound {[Worker (ch_api c)]} h h') (fun _ h' => still sound ∅ h h') h.
Proof.
  unfold ChVm.pause. apply wp_send; [done|]. intros h1 S1. eapply wp_mono; [apply law_pause_cloud| |].
  - intros ? h2 S2. etrans; [|exact S2]. eapply still_mono; [|exact S1]. set_solver.
  - intros ? h2 S2. by etrans.
Qed.

(** However a resume ends, the machine is sound. *)
Lemma wp_resume_cloud c h : wp (ChVm.resume c)
  (fun _ h' => still sound ∅ h h' /\ Worker (ch_api c) ∈ sound h')
  (fun _ h' => still sound ∅ h h' /\ Worker (ch_api c) ∈ sound h') h.
Proof.
  unfold ChVm.resume, ChVm.send, ChVm.backend. wp_steps. eapply wp_mono; [apply law_refused_event| |done].
  intros ? h1 S1. wp_steps. eapply wp_mono; [apply law_resume_cloud| |]; intros ? h2 [S2 Hr]; (split; [etrans; [exact S1|exact S2]|done]).
Qed.

End requests.
