(* ===== verification/KvmForest.v ===== *)
(** * The invariant of the KVM supervisor's forest

    [world_ok T X F]: the machines of [T] exist and, but for those of [X],
    are sound; the caches of [F] are there.  [state_ok T X F B]: moreover the VMs of
    the forest have the backends [B] and file systems in [F].  One lemma for
    each operation. *)

From S2P Require Import Prelude Generations Host CacheTypes SharedCache Storage RedoxBranch VmmTypes VirtioFs Lineages LineageIds Ram RamDurable KvmVmm KvmSupervisor KvmRecovery KvmRuns.
Import Kvm.

(** ** Errors held as values *)

Lemma wp_catch {St E A} (m : M St (Stop E) A) Q R s :
  wp (catch m) Q R s <->
  wp m (fun a => Q (Ok a)) (fun e s' => match e with Failed e => Q (Err e) s' | Panicked => R Panicked s' end) s.
Proof. unfold wp, catch. by destruct (m s) as [s' [a|[e|]]]. Qed.

Lemma wp_rethrow {St E A} (r : result E A) (Q : A -> St -> Prop) R s :
  wp (rethrow r) Q R s <-> match r with Ok a => Q a s | Err e => R (Failed e) s end.
Proof. unfold rethrow. rewrite wp_lift. by destruct r. Qed.

Lemma wp_or_drop {St E A} (cleanup : M St (Stop E) unit) (m : M St (Stop E) A) (Q : A -> St -> Prop) R s :
  wp (or_drop cleanup m) Q R s <->
  wp m Q (fun e s' => match e with
                      | Failed e => wp cleanup (fun _ => R (Failed e)) R s'
                      | Panicked => R Panicked s'
                      end) s.
Proof.
  unfold or_drop. rewrite wp_bind, wp_catch. split; intros Hw; (eapply wp_mono; [exact Hw| |]).
  - done.
  - intros [e|] s'; [|done]. by rewrite wp_bind.
  - done.
  - intros [e|] s'; [|done]. by rewrite wp_bind.
Qed.

Ltac kvm_step :=
  lazymatch goal with
  | |- wp (catch _) _ _ _ => rewrite wp_catch
  | |- wp (rethrow _) _ _ _ => rewrite wp_rethrow
  | |- wp (or_drop _ _) _ _ _ => rewrite wp_or_drop
  | |- wp (Kvm.update _) _ _ _ => unfold Kvm.update
  | |- wp instant _ _ _ => unfold instant
  | |- wp (ignore _) _ _ _ => unfold ignore
  | |- wp (let '(_, _) := ?x in _) _ _ _ => destruct x eqn:?
  | |- _ => wp_step
  end.
Ltac kvm_steps := repeat (kvm_step; cbn beta iota).

Section forest.
Context {W S Id St H Opts Snap Ranges : Type} `{Countable Id} `{!BranchStore W S Id St} `{!Vmm H Opts Snap Ranges}.
Context `{!VmmRuns H} `{!VmmSound H} `{!VmmSoundLaws H Opts Snap Ranges}.

Abbreviation world := (KvmWorld W S Id H).
Abbreviation KW := (M (KvmWorld W S Id H) (Stop SupervisorError)).
Abbreviation K := (M (KvmWorld W S Id H * KvmSupervisor) (Stop SupervisorError)).

Implicit Types (T X : gset Machine) (F : gset N) (B : gmap N VmBackend) (w : world) (s : world * KvmSupervisor) (v : VirtioFs).

(** ** Lineages *)

Definition named (l : Lineages W S Id) : Prop := forall cid c, li_caches l !! cid = Some c -> c_id c = cid.

Record lineages_ok F (l : Lineages W S Id) : Prop := {
  lo_named : named l;
  lo_caches : F ⊆ dom (li_caches l)
}.

Lemma insert_named F l p cid c :
  lineages_ok F l -> c_id c = cid -> lineages_ok ({[cid]} ∪ F) (mkLineages p (<[cid := c]> (li_caches l))).
Proof.
  intros [Hn HF] Hid. split.
  - intros cid' c' Hc. change (<[cid := c]> (li_caches l) !! cid' = Some c') in Hc. apply lookup_insert_Some in Hc as [[<- <-]|[_ Hc]]; [done|by apply Hn].
  - intros x Hx. apply elem_of_dom. change (is_Some (<[cid := c]> (li_caches l) !! x)). apply lookup_insert_is_Some'. apply elem_of_union in Hx as [Hx|Hx].
    + left. set_solver.
    + right. by apply elem_of_dom, HF.
Qed.

Lemma lineages_ok_mono F F' l : F' ⊆ F -> lineages_ok F l -> lineages_ok F' l.
Proof. intros HF [Hn Hd]. split; [done|set_solver]. Qed.

Lemma wp_on_branch {A} F v (m : M (Lineage W S Id * VirtioFs) VmmError A) (Q : A -> Prop) l :
  lineages_ok F l -> vf_cache_id v ∈ F ->
  (forall L, c_id (ln_cache L) = vf_cache_id v ->
    wp m (fun a lv => same_place (L, v) lv /\ Q a) (fun _ => same_place (L, v)) (L, v)) ->
  wp (on_branch v m)
    (fun p l' => lineages_ok F l' /\ vf_cache_id p.1 = vf_cache_id v /\
                 match p.2 with Ok a => Q a | Err _ => True end)
    (fun _ _ => False) l.
Proof.
  intros Hl Hv Hm. pose proof Hl as [Hn HF]. unfold on_branch, Caches.on_lineage, wp.
  destruct (li_caches l !! vf_cache_id v) as [c|] eqn:Hc.
  2: { apply HF, elem_of_dom in Hv. rewrite Hc in Hv. by destruct Hv. }
  pose proof (Hn _ _ Hc) as Hid.
  specialize (Hm (Caches.load (li_process l) c) Hid). unfold wp in Hm. cbn.
  destruct (m _) as [[L v'] r]. cbn.
  assert (same_place (Caches.load (li_process l) c, v) (L, v')) as [E1 E2] by (destruct r; tauto). cbn in E1, E2.
  split_and!; [|done|destruct r; tauto].
  eapply lineages_ok_mono; [|apply insert_named; [done|congruence]]. set_solver.
Qed.

(** A lineage that is made has a cache of its own number; its branches are in
    that cache. *)
Lemma wp_add_lineage {A} F (m : M (Process W) VmmError (Lineage W S Id * A)) (Q : N -> A -> Prop) l :
  lineages_ok F l -> wp m (fun La _ => Q (c_id (ln_cache La.1)) La.2) (fun _ _ => True) (li_process l) ->
  wp (Caches.add_lineage m) (fun a l' => exists cid, lineages_ok ({[cid]} ∪ F) l' /\ Q cid a)
    (fun e l' => e <> Panicked /\ lineages_ok F l') l.
Proof.
  intros Hl Hm. unfold Caches.add_lineage, wp in *. destruct (m (li_process l)) as [p [[L a]|e]]; cbn in *.
  - exists (c_id (ln_cache L)). split; [|done]. by apply insert_named.
  - split; [done|]. destruct Hl. by split.
Qed.

Lemma wp_new_branch c l b specs p : wp (Vfs.on_new_cache c (Vfs.from_parts l b specs))
  (fun La _ => vf_cache_id La.2 = c_id (ln_cache (W := W) (S := S) (Id := Id) La.1)) (fun _ _ => True) p.
Proof.
  pose proof (wp_from_parts_place l b specs (Vfs.enter c p)) as Hw. unfold Vfs.on_new_cache, wp in *.
  destruct (Vfs.from_parts l b specs (Vfs.enter c p)) as [L [v|e]]; [|done]. cbn in *. destruct Hw. congruence.
Qed.

Lemma wp_create_lineage p : wp (Vfs.create (W := W) (S := S) (Id := Id) (St := St))
  (fun La _ => vf_cache_id La.2 = c_id (ln_cache La.1)) (fun _ _ => True) p.
Proof.
  unfold Vfs.create, Vfs.on_world, Vfs.take_cache_id. wp_steps. apply wp_any; [|done]. intros fs p'. wp_steps. cbn.
  apply wp_new_branch.
Qed.

Lemma wp_create_durable l dir p : wp (Vfs.create_durable (W := W) (S := S) (Id := Id) (St := St) l dir)
  (fun La _ => vf_cache_id La.2 = c_id (ln_cache La.1)) (fun _ _ => True) p.
Proof.
  unfold Vfs.create_durable, Vfs.on_world, Vfs.take_cache_id. wp_steps. apply wp_any; [|done]. intros fs p'. wp_steps. cbn.
  apply wp_new_branch.
Qed.

(** ** The world *)

Record world_ok T X F w : Prop := {
  wo_machines : T ⊆ machines (kw_vmm w);
  wo_sound : T ∖ X ⊆ sound (kw_vmm w);
  wo_lineages : lineages_ok F (kw_fs w)
}.

(** How an operation may fail: with an error, not with a panic. *)
Definition ends {A} (I : A -> Prop) (e : Stop SupervisorError) (a : A) : Prop := e <> Panicked /\ I a.

Lemma world_ok_mono T X F T' X' F' w : T' ⊆ T -> T' ∩ X ⊆ X' -> F' ⊆ F -> world_ok T X F w -> world_ok T' X' F' w.
Proof.
  intros HT HX HF [Hm Hr Hl]. split; [set_solver|set_solver|]. by eapply lineages_ok_mono.
Qed.

(** A request that only stops machines nobody counts on. *)
Lemma world_ok_still T X F Y w h : world_ok T X F w -> still sound Y (kw_vmm w) h -> T ∩ Y ⊆ X -> world_ok T X F (set_kw_vmm h w).
Proof. intros [Hm Hr Hl] [Hs Hs'] HY. split; cbn; [set_solver|set_solver|done]. Qed.

Lemma world_ok_calm T X F w h : world_ok T X F w -> still sound ∅ (kw_vmm w) h -> world_ok T X F (set_kw_vmm h w).
Proof. intros Hw Hs. eapply world_ok_still; [done|done|set_solver]. Qed.

Lemma wp_calm {A} T X F (m : M H VmmError A) w :
  keeps (still sound ∅) m -> world_ok T X F w -> wp (with_vmm m) (fun _ => world_ok T X F) (ends (world_ok T X F)) w.
Proof.
  intros Hm Hw. unfold with_vmm. kvm_steps. eapply wp_keeps; [exact Hm| |].
  - intros a h Hs. by apply world_ok_calm.
  - intros e h Hs. split; [done|]. by apply world_ok_calm.
Qed.

(** A request to a machine that is being set up or taken down. *)
Lemma wp_private {A} T X F m0 (m : M H VmmError A) w :
  keeps (still sound {[m0]}) m -> T ∩ {[m0]} ⊆ X -> world_ok T X F w ->
  wp (with_vmm m) (fun _ => world_ok T X F) (ends (world_ok T X F)) w.
Proof.
  intros Hm HX Hw. unfold with_vmm. kvm_steps. eapply wp_keeps; [exact Hm| |].
  - intros a h Hs. by eapply world_ok_still.
  - intros e h Hs. split; [done|]. by eapply world_ok_still.
Qed.

Lemma wp_ram {A} T X F (m : Ram.RW A) w :
  world_ok T X F w -> wp (with_ram m) (fun _ => world_ok T X F) (ends (world_ok T X F)) w.
Proof. intros []. unfold with_ram. kvm_steps. by apply wp_any. Qed.

Lemma wp_dir {A} T X F (m : SIO A) w :
  world_ok T X F w -> wp (with_dir m) (fun _ => world_ok T X F) (ends (world_ok T X F)) w.
Proof. intros []. unfold with_dir. kvm_steps. by apply wp_any. Qed.

Lemma set_fs_ok T X F F' w l : world_ok T X F w -> lineages_ok F' l -> world_ok T X F' (set_kw_fs l w).
Proof. intros [] Hl. by split. Qed.

(** ** Backends *)

Lemma wp_pause_backend T X F b w : world_ok T X F w ->
  wp (pause_backend b) (fun _ => world_ok T (X ∪ {[machine_of b]}) F) (ends (world_ok T X F)) w.
Proof.
  intros Hw. assert (world_ok T (X ∪ {[machine_of b]}) F w) as Hw' by (eapply world_ok_mono; [..|exact Hw]; set_solver).
  destruct b as [vm|c]; cbn; unfold in_vmm, with_vmm; kvm_steps.
  - eapply wp_mono; [apply law_pause_raw| |].
    + intros ? h Hs. eapply world_ok_still; [exact Hw'|exact Hs|set_solver].
    + intros e h Hs. split; [done|]. by apply world_ok_calm.
  - eapply wp_mono; [apply wp_pause_cloud| |].
    + intros ? h Hs. eapply world_ok_still; [exact Hw'|exact Hs|set_solver].
    + intros e h Hs. split; [done|]. by apply world_ok_calm.
Qed.

Lemma wp_drop_filesystem T X F v R w : world_ok T X F w -> vf_cache_id v ∈ F ->
  wp (drop_filesystem v) (fun _ => world_ok T X F) R w.
Proof.
  intros Hw Hv. unfold drop_filesystem, with_fs. kvm_steps.
  eapply wp_mono; [eapply (wp_on_branch F v _ (fun _ => True)); [apply Hw|done|]| |done].
  - intros L HL. eapply wp_keeps; [apply keeps_with_err, place_drop|done|done].
  - intros p l (Hl & _). kvm_steps. by eapply set_fs_ok.
Qed.

Lemma wp_drop_backend T X F b R w : world_ok T X F w -> backend_wf b -> machine_of b ∉ T ->
  wp (drop_backend b) (fun _ => world_ok T X F) R w.
Proof.
  intros Hw Hb Hn. destruct b as [vm|c]; cbn; [by kvm_steps|].
  unfold with_vmm. kvm_steps. assert (keeps (still sound {[Worker (ch_api c)]}) (ChVm.drop_cloud c)) as Hd by by apply still_drop.
  specialize (Hd (kw_vmm w)). unfold wp. unfold ChVm.drop_cloud, mbind, M_bind, attempt in *.
  destruct (ChVm.shutdown_inner c (kw_vmm w)) as [h r]. cbn in *. eapply world_ok_still; [done|done|set_solver].
Qed.

Lemma wp_drop_vm T X F d R w : world_ok T X F w -> backend_wf (kv_backend d) -> machine_of (kv_backend d) ∉ T ->
  vf_cache_id (kv_filesystem d) ∈ F -> wp (drop_vm d) (fun _ => world_ok T X F) R w.
Proof.
  intros Hw Hb Hn Hf. unfold drop_vm. kvm_steps.
  assert (forall w, world_ok T X F w -> wp (drop_backend (kv_backend d))
    (fun _ => wp (drop_filesystem (kv_filesystem d)) (fun _ => world_ok T X F) R) R w) as Hrest.
  { intros w' Hw'. eapply wp_mono; [by apply (wp_drop_backend T X F _ R)| |done].
    intros ? w'' Hw''. by apply wp_drop_filesystem. }
  destruct (kv_backend d) as [vm|c]; kvm_steps; [|by apply Hrest].
  eapply wp_mono; [by apply (wp_calm T X F), Hw; apply still_unregister| |].
  - intros ? w' Hw'. kvm_steps. by apply Hrest.
  - intros [e|] w' [? Hw']; [|done]. kvm_steps. by apply Hrest.
Qed.

(** ** The forest *)

Record state_ok T X F B s : Prop := {
  st_world : world_ok T X F s.1;
  st_backends : kv_backend <$> ks_vms s.2 = B;
  st_members id d : ks_vms s.2 !! id = Some d -> vf_cache_id (kv_filesystem d) ∈ F
}.

Lemma state_world T X F T' X' F' B s w : state_ok T X F B s -> world_ok T' X' F' w -> F ⊆ F' -> state_ok T' X' F' B (w, s.2).
Proof. intros [_ HB Hm] Hw HF. split; [done|done|]. intros id d Hd. apply HF. by eapply Hm. Qed.

Lemma wp_kvm_world {A} T X F B (m : KW A) T' X' s :
  state_ok T X F B s -> wp m (fun _ => world_ok T' X' F) (ends (world_ok T X F)) s.1 ->
  wp (on_world m) (fun _ => state_ok T' X' F B) (ends (state_ok T X F B)) s.
Proof.
  intros Hs Hm. unfold on_world. kvm_steps. eapply wp_mono; [exact Hm| |].
  - intros a w Hw. by eapply state_world.
  - intros e w [? Hw]. split; [done|]. by eapply state_world.
Qed.

Lemma wp_find T X F B id s : state_ok T X F B s ->
  wp (find id : K _) (fun d s' => s' = s /\ ks_vms s.2 !! id = Some d) (ends (state_ok T X F B)) s.
Proof.
  intros Hs. unfold find. kvm_steps. unfold ok_or. by destruct (ks_vms s.2 !! id).
Qed.

(** A VM that is replaced by itself with other RAM or another state of its
    branch. *)
Lemma state_put T X F B s w id d ram v : state_ok T X F B s -> ks_vms s.2 !! id = Some d -> world_ok T X F w ->
  vf_cache_id v = vf_cache_id (kv_filesystem d) ->
  state_ok T X F B (w, set_vms (<[id := mkKvmVm (kv_backend d) ram v]> (ks_vms s.2)) s.2).
Proof.
  intros [_ HB Hm] Hd Hw Hv. split; [done| |].
  - cbn. rewrite fmap_insert, HB. apply insert_id. by rewrite <-HB, lookup_fmap, Hd.
  - intros i d'. cbn. rewrite lookup_insert_Some. intros [[<- <-]|[_ Hd']]; [|by eapply Hm].
    cbn. rewrite Hv. by eapply Hm.
Qed.

Lemma member T X F B s id b : state_ok T X F B s -> B !! id = Some b ->
  exists d, ks_vms s.2 !! id = Some d /\ kv_backend d = b.
Proof. intros [_ HB _] Hb. rewrite <-HB, lookup_fmap in Hb. by apply fmap_Some in Hb as (d & ? & ->); eauto. Qed.

Lemma wp_vm_ram {A} T X F B id (m : Ram.R A) s : state_ok T X F B s -> is_Some (B !! id) ->
  wp (on_ram id m) (fun _ => state_ok T X F B) (ends (state_ok T X F B)) s.
Proof.
  intros Hs [b Hb]. destruct (member _ _ _ _ _ _ _ Hs Hb) as (d & Hd & _). unfold on_ram, wp. rewrite Hd.
  destruct (m _) as [[rw ram] r]. assert (world_ok T X F (set_kw_ram rw s.1)) as Hw by (by destruct (st_world _ _ _ _ _ Hs)).
  destruct r as [a|e]; cbn; [|split; [done|]]; by eapply (state_put _ _ _ _ s).
Qed.

Lemma wp_on_fs {A} T X F B id (m : M (Lineage W S Id * VirtioFs) VmmError A) (Q : A -> Prop) s :
  state_ok T X F B s -> is_Some (B !! id) ->
  (forall v L, vf_cache_id v ∈ F -> c_id (ln_cache L) = vf_cache_id v ->
    wp m (fun a lv => same_place (L, v) lv /\ Q a) (fun _ => same_place (L, v)) (L, v)) ->
  wp (on_fs id m) (fun a s' => state_ok T X F B s' /\ Q a) (ends (state_ok T X F B)) s.
Proof.
  intros Hs [b Hb] Hm. destruct (member _ _ _ _ _ _ _ Hs Hb) as (d & Hd & _). unfold on_fs, wp. rewrite Hd.
  pose proof (st_members _ _ _ _ _ Hs _ _ Hd) as Hv.
  pose proof (wp_on_branch F (kv_filesystem d) m Q (kw_fs s.1) (wo_lineages _ _ _ _ (st_world _ _ _ _ _ Hs)) Hv
    (fun L => Hm _ L Hv)) as Hw.
  unfold with_fs, zoom, with_err, wp in *. destruct (on_branch _ m _) as [l [[v r]|e]]; [|done].
  destruct Hw as (Hl & Hid & Hr). cbn in *.
  assert (world_ok T X F (set_kw_fs l s.1)) as Hw by (eapply set_fs_ok; [apply Hs|done]).
  destruct r as [a|e]; cbn.
  - split; [by eapply (state_put _ _ _ _ s)|done].
  - split; [done|by eapply (state_put _ _ _ _ s)].
Qed.

Lemma wp_on_fs_keeps {A} T X F B id (m : M (Lineage W S Id * VirtioFs) VmmError A) s :
  keeps same_place m -> state_ok T X F B s -> is_Some (B !! id) ->
  wp (on_fs id m) (fun _ => state_ok T X F B) (ends (state_ok T X F B)) s.
Proof.
  intros Hm Hs Hb. eapply wp_mono; [eapply (wp_on_fs _ _ _ _ _ _ (fun _ => True)); [exact Hs|done|]| |done].
  - intros v L _ _. by eapply wp_keeps.
  - by intros a s' [? _].
Qed.

End forest.

(** * Every operation of the KVM supervisor keeps the forest lively

    [lively]: every VM of the forest has a machine of its own that is sound,
    and a file system that is there.  Operations end in such a state, with a result
    or an error, never with a panic. *)

Import Kvm.

(** The machines of a forest; no two VMs share one. *)
Definition machs (B : gmap N VmBackend) : gset Machine := map_img (machine_of <$> B).

Record forest_ok (B : gmap N VmBackend) : Prop := {
  fo_wf id b : B !! id = Some b -> backend_wf b;
  fo_apart i j b b' : B !! i = Some b -> B !! j = Some b' -> machine_of b = machine_of b' -> i = j
}.

Lemma elem_of_machs B m : m ∈ machs B <-> exists id b, B !! id = Some b /\ machine_of b = m.
Proof.
  unfold machs. rewrite elem_of_map_img. setoid_rewrite lookup_fmap. setoid_rewrite fmap_Some.
  split; [intros (i & b & ? & ->)|intros (i & b & ? & <-)]; eauto.
Qed.

Lemma forest_ok_insert B id b : forest_ok B -> backend_wf b -> machine_of b ∉ machs B -> forest_ok (<[id := b]> B).
Proof.
  intros [Hw Ha] Hb Hn. rewrite elem_of_machs in Hn. split.
  - intros i b'. rewrite lookup_insert_Some. intros [[_ <-]|[_ ?]]; [done|by eapply Hw].
  - intros i j bi bj. rewrite !lookup_insert_Some. intros [[<- <-]|[_ Hi]] [[<- <-]|[_ Hj]] E; [done|..|by eapply Ha].
    + destruct Hn. eauto.
    + destruct Hn. eauto.
Qed.

Lemma forest_ok_delete B id : forest_ok B -> forest_ok (delete id B).
Proof.
  intros [Hw Ha]. split.
  - intros i b [_ Hb]%lookup_delete_Some. by eapply Hw.
  - intros i j b b' [_ Hi]%lookup_delete_Some [_ Hj]%lookup_delete_Some. by eapply Ha.
Qed.

Lemma machs_insert B id b : machs (<[id := b]> B) ⊆ {[machine_of b]} ∪ machs B.
Proof.
  intros m (i & b' & Hb & <-)%elem_of_machs. apply lookup_insert_Some in Hb as [[_ <-]|[_ Hb]]; [set_solver|].
  apply elem_of_union_r, elem_of_machs. eauto.
Qed.

Lemma machs_delete B id : machs (delete id B) ⊆ machs B.
Proof. intros m (i & b & [_ Hb]%lookup_delete_Some & <-)%elem_of_machs. apply elem_of_machs. eauto. Qed.

(** A VM that leaves the forest takes its machine with it. *)
Lemma machs_gone B id b : forest_ok B -> B !! id = Some b -> machine_of b ∉ machs (delete id B).
Proof.
  intros HB Hb (i & b' & [Hi Hb']%lookup_delete_Some & E)%elem_of_machs. apply Hi. by eapply fo_apart.
Qed.

Lemma machs_replaced B id b old : forest_ok B -> machine_of b ∉ machs B -> B !! id = Some old ->
  machine_of old ∉ machs (<[id := b]> B).
Proof.
  intros HB Hn Ho Hin. assert (machine_of old ∈ {[machine_of b]} ∪ machs (delete id B)) as Hin'.
  { apply (machs_insert _ id). by rewrite insert_delete_eq. }
  apply elem_of_union in Hin' as [Hin'|Hin']; [|by eapply machs_gone in Hin'].
  apply elem_of_singleton in Hin'. apply Hn. rewrite <-Hin'. apply elem_of_machs. eauto.
Qed.

Section lively.
Context {W S Id St H Opts Snap Ranges : Type} `{Countable Id} `{!BranchStore W S Id St} `{!Vmm H Opts Snap Ranges}.
Context `{!VmmRuns H} `{!VmmSound H} `{!VmmSoundLaws H Opts Snap Ranges}.

Abbreviation world := (KvmWorld W S Id H).
Abbreviation KW := (M (KvmWorld W S Id H) (Stop SupervisorError)).
Abbreviation K := (M (KvmWorld W S Id H * KvmSupervisor) (Stop SupervisorError)).

Implicit Types (T X : gset Machine) (F : gset N) (B : gmap N VmBackend) (w : world) (s : world * KvmSupervisor) (v : VirtioFs).

Definition lively s : Prop := exists F B, forest_ok B /\ state_ok (machs B) ∅ F B s.

(** ** Building blocks *)

Lemma world_ok_resumed T X F m w h : world_ok T X F w -> still sound ∅ (kw_vmm w) h -> m ∈ sound h ->
  world_ok T (X ∖ {[m]}) F (set_kw_vmm h w).
Proof.
  intros [Hm Hr Hl] [Hs Hs'] Hi. split; cbn; [set_solver| |done].
  intros m' Hm'. destruct (decide (m' = m)) as [->|]; [done|set_solver].
Qed.

(** However it ends. *)
Lemma wp_resume_backend T X F b w : world_ok T X F w ->
  wp (resume_backend b) (fun _ => world_ok T (X ∖ {[machine_of b]}) F) (ends (world_ok T (X ∖ {[machine_of b]}) F)) w.
Proof.
  intros Hw. destruct b as [vm|c]; cbn; unfold in_vmm, with_vmm; wp_steps.
  - eapply wp_mono; [apply law_resume_raw| |]; intros ? h [Hs Hi]; [|split; [done|]]; by apply world_ok_resumed.
  - eapply wp_mono; [apply wp_resume_cloud| |]; intros ? h [Hs Hi]; [|split; [done|]]; by apply world_ok_resumed.
Qed.

Lemma wp_create_filesystem T X F B s : state_ok T X F B s ->
  wp (create_filesystem : K _) (fun v s' => state_ok T X ({[vf_cache_id v]} ∪ F) B s') (ends (state_ok T X F B)) s.
Proof.
  intros Hs. unfold create_filesystem.
  assert (forall m s, state_ok T X F B s ->
    (forall p, wp m (fun La _ => vf_cache_id La.2 = c_id (ln_cache (W := W) (S := S) (Id := Id) La.1)) (fun _ _ => True) p) ->
    wp (on_world (with_fs (Caches.add_lineage m)) : K _) (fun v s' => state_ok T X ({[vf_cache_id v]} ∪ F) B s')
      (ends (state_ok T X F B)) s) as Hadd.
  { clear s Hs. intros m s Hs Hm. unfold on_world, with_fs. kvm_steps.
    eapply wp_mono; [apply (wp_add_lineage F m (fun cid v => vf_cache_id v = cid)); [apply Hs|apply Hm]| |].
    - intros v l (cid & Hl & ->). eapply state_world; [exact Hs| |set_solver]. eapply set_fs_ok; [apply Hs|done].
    - intros [e|] l [He Hl]; [|done]. split; [done|]. eapply state_world; [exact Hs| |set_solver]. eapply set_fs_ok; [apply Hs|done]. }
  kvm_steps. destruct (ks_storage s.2) as [dir|].
  - kvm_steps. apply Hadd; [|intros p; apply wp_create_durable]. by destruct Hs; split.
  - apply Hadd; [done|]. intros p. apply wp_create_lineage.
Qed.

(** A VM whose machine runs joins the forest. *)
Lemma wp_insert_vm T F B d R s : forest_ok B -> state_ok T ∅ F B s -> machs B ⊆ T -> machine_of (kv_backend d) ∈ T ->
  machine_of (kv_backend d) ∉ machs B -> backend_wf (kv_backend d) -> vf_cache_id (kv_filesystem d) ∈ F ->
  wp (insert_vm d : K _) (fun _ => lively) R s.
Proof.
  intros HB Hs HT Hd Hn Hwf Hf. unfold insert_vm, put_vm. kvm_steps. set (id := ks_next_vm s.2).
  set (B' := <[id := kv_backend d]> B). assert (forest_ok B') as HB' by by apply forest_ok_insert.
  assert (forall w, world_ok (machs B') ∅ F w ->
    lively (w, set_vms (<[id := d]> (ks_vms s.2)) (set_next_vm (wrapping_add id 1) s.2))) as Hend.
  { intros w Hw. exists F, B'. split; [done|]. split; cbn; [done| |].
    - by rewrite fmap_insert, (st_backends _ _ _ _ _ Hs).
    - intros i d'. rewrite lookup_insert_Some. intros [[_ <-]|[_ Hd']]; [done|]. by eapply (st_members _ _ _ _ _ Hs). }
  assert (world_ok (machs B') ∅ F s.1) as Hw.
  { eapply world_ok_mono; [..|apply Hs]; [|set_solver|done]. etrans; [apply machs_insert|set_solver]. }
  destruct (ks_vms s.2 !! id) as [old|] eqn:Ho; kvm_steps; [|exact (Hend _ Hw)].
  unfold on_world. kvm_steps. cbn.
  assert (B !! id = Some (kv_backend old)) as Hob by by rewrite <-(st_backends _ _ _ _ _ Hs), lookup_fmap, Ho.
  eapply wp_mono; [apply (wp_drop_vm (machs B') ∅ F old (fun _ _ => False)); [exact Hw|exact (fo_wf _ HB _ _ Hob)| |exact (st_members _ _ _ _ _ Hs _ _ Ho)]| |done].
  - by apply machs_replaced.
  - intros ? w Hw'. kvm_steps. by apply Hend.
Qed.

Lemma lively_of T F B s : forest_ok B -> machs B ⊆ T -> state_ok T ∅ F B s -> lively s.
Proof.
  intros HB HT Hs. exists F, B. split; [done|]. destruct Hs as [Hw ? ?]. split; [|done|done].
  eapply (world_ok_mono T ∅ F); [exact HT|set_solver|done|exact Hw].
Qed.

Lemma ends_lively T F B e s : forest_ok B -> machs B ⊆ T -> ends (state_ok T ∅ F B) e s -> ends lively e s.
Proof. intros HB HT [He Hs]. split; [done|]. by eapply lively_of. Qed.

(** ** Machines that are set up *)

Lemma wp_new_raw op T X F w : world_ok T X F w ->
  wp (in_vmm op hv_create_vm) (fun vm w' => world_ok ({[RawMachine vm]} ∪ T) X F w' /\ RawMachine vm ∉ T)
    (ends (world_ok T X F)) w.
Proof.
  intros Hw. pose proof Hw as [Hm Hr Hl]. unfold in_vmm. kvm_steps. eapply wp_mono; [apply law_create_vm| |].
  - intros vm h ([Hs Hs'] & Hn & Hi & Hi'). split; [|set_solver]. split; cbn; [set_solver|set_solver|done].
  - intros e h Hs. split; [done|]. by apply world_ok_calm.
Qed.

Lemma wp_new_cloud T X F w : world_ok T X F w ->
  wp (with_vmm ChVm.start)
    (fun c w' => world_ok ({[Worker (ch_api c)]} ∪ T) ({[Worker (ch_api c)]} ∪ X) F w' /\ (Worker (ch_api c) ∉ T) /\
                 ch_worker c = Some (ch_api c)) (ends (world_ok T X F)) w.
Proof.
  intros Hw. pose proof Hw as [Hm Hr Hl]. unfold with_vmm. kvm_steps. eapply wp_mono; [apply wp_start_cloud| |].
  - intros c h ([Hs Hs'] & Hc & Hn & Hi). split; [|split; [set_solver|done]]. split; cbn; [set_solver|set_solver|done].
  - intros e h Hs. split; [done|]. by apply world_ok_calm.
Qed.

(** A worker that was set up runs once it is booted or resumed. *)
Lemma world_ok_started T X F c w : world_ok ({[Worker (ch_api c)]} ∪ T) (({[Worker (ch_api c)]} ∪ X) ∖ {[Worker (ch_api c)]}) F w ->
  world_ok ({[Worker (ch_api c)]} ∪ T) X F w.
Proof. intros Hw. eapply world_ok_mono; [..|exact Hw]; set_solver. Qed.

Lemma wp_discard_vm T X F c R w : ch_worker c = Some (ch_api c) -> Worker (ch_api c) ∉ T ->
  world_ok ({[Worker (ch_api c)]} ∪ T) ({[Worker (ch_api c)]} ∪ X) F w ->
  wp (drop_backend (CloudVm c) : KW unit) (fun _ => world_ok T X F) R w.
Proof. intros Hc Hn Hw. apply wp_drop_backend; [|done|done]. eapply world_ok_mono; [..|exact Hw]; set_solver. Qed.

Lemma wp_boot_new T X F c config ram w : 
  world_ok ({[Worker (ch_api c)]} ∪ T) ({[Worker (ch_api c)]} ∪ X) F w ->
  wp (_ ← with_vmm (ChVm.create c config); with_vmm (ChVm.boot_with_ram c ram) : KW unit)
    (fun _ => world_ok ({[Worker (ch_api c)]} ∪ T) X F)
    (ends (world_ok ({[Worker (ch_api c)]} ∪ T) ({[Worker (ch_api c)]} ∪ X) F)) w.
Proof.
  intros Hw. kvm_steps. eapply wp_mono; [eapply wp_private; [apply still_create| |exact Hw]; set_solver| |done].
  intros ? w1 Hw1. pose proof Hw1 as [Hm Hr Hl]. unfold with_vmm. kvm_steps. eapply wp_mono; [apply wp_boot_with_ram| |].
  - intros ? h [[Hs Hs'] Hi]. split; cbn; [set_solver|set_solver|done].
  - intros e h Hs. split; [done|]. eapply world_ok_still; [exact Hw1|exact Hs|set_solver].
Qed.

Lemma wp_revive T X F capture ram w : world_ok T X F w ->
  wp (revive_backend capture ram : KW _)
    (fun c w' => world_ok ({[Worker (ch_api c)]} ∪ T) X F w' /\ (Worker (ch_api c) ∉ T) /\ ch_worker c = Some (ch_api c))
    (ends (world_ok T X F)) w.
Proof.
  intros Hw. unfold revive_backend. kvm_steps. eapply wp_mono; [by apply wp_new_cloud| |done].
  intros c w1 (Hw1 & Hn & Hc). kvm_steps.
  assert (forall e w', ends (world_ok ({[Worker (ch_api c)]} ∪ T) ({[Worker (ch_api c)]} ∪ X) F) e w' ->
    match e with
    | Failed e => wp (drop_backend (CloudVm c) : KW unit) (fun _ => ends (world_ok T X F) (Failed e)) (ends (world_ok T X F)) w'
    | Panicked => ends (world_ok T X F) Panicked w'
    end) as Hfail.
  { intros [e|] w' [He Hw']; [|done]. eapply wp_mono; [by apply (wp_discard_vm T X F c (fun _ _ => False))| |done].
    intros ? w'' Hw''. by split. }
  eapply wp_mono; [eapply wp_private; [apply still_restore| |exact Hw1]; set_solver| |apply Hfail].
  intros ? w2 Hw2. kvm_steps. eapply wp_mono; [eapply wp_calm; [apply still_begin|exact Hw2]| |apply Hfail].
  intros ? w3 Hw3. eapply wp_mono; [apply (wp_resume_backend _ _ _ (CloudVm c) _ Hw3)| |].
  - intros ? w4 Hw4. kvm_steps. split_and!; [by apply world_ok_started|done|done].
  - intros e w4 [He Hw4]. apply Hfail. split; [done|]. eapply world_ok_mono; [..|exact Hw4]; set_solver.
Qed.

End lively.
