(* ===== verification/KvmOps.v ===== *)
(** * The operations of the KVM supervisor, one by one

    Creation, access, forks, removal, checkpoints and restarts each keep the
    forest [lively]. *)

From S2P Require Import Prelude Generations Host CacheTypes SharedCache Storage RedoxBranch VmmTypes VirtioFs Lineages LineageIds Ram RamDurable KvmVmm KvmSupervisor KvmRecovery KvmRuns KvmForest.
Import Kvm.

Section ops.
Context {W S Id St H Opts Snap Ranges : Type} `{Countable Id} `{!BranchStore W S Id St} `{!Vmm H Opts Snap Ranges}.
Context `{!VmmRuns H} `{!VmmSound H} `{!VmmSoundLaws H Opts Snap Ranges}.

Abbreviation world := (KvmWorld W S Id H).
Abbreviation KW := (M (KvmWorld W S Id H) (Stop SupervisorError)).
Abbreviation K := (M (KvmWorld W S Id H * KvmSupervisor) (Stop SupervisorError)).

Implicit Types (T X : gset Machine) (F : gset N) (B : gmap N VmBackend) (w : world) (s : world * KvmSupervisor) (v : VirtioFs).

(** An operation that ends in a forest that runs. *)
Definition keeps_lively {A} (m : K A) : Prop := forall s, lively s -> wp m (fun _ => lively) (ends lively) s.

(** A step of the supervisor on its world. *)
Lemma wp_step_world {A} T X F B (m : KW A) (Q : A -> world -> Prop) s :
  state_ok T X F B s -> wp m Q (ends (world_ok T X F)) s.1 ->
  wp (on_world m) (fun a s' => s'.2 = s.2 /\ Q a s'.1) (ends (state_ok T X F B)) s.
Proof.
  intros Hs Hm. unfold on_world. wp_steps. eapply wp_mono; [exact Hm| |].
  - done.
  - intros e w [He Hw]. split; [done|]. by eapply state_world.
Qed.

Lemma step_state T X F B T' X' F' s s' : state_ok T X F B s -> s'.2 = s.2 -> world_ok T' X' F' s'.1 -> F ⊆ F' ->
  state_ok T' X' F' B s'.
Proof. intros Hs E Hw HF. destruct s' as [w k]. cbn in *. subst k. by eapply state_world. Qed.

(** [or_drop] whose cleanup always works. *)
Lemma wp_or_drop_ends {A} (cleanup : K unit) (m : K A) (Q : A -> world * KvmSupervisor -> Prop) (I I' : world * KvmSupervisor -> Prop) s :
  wp m Q (ends I) s -> (forall s', I s' -> wp cleanup (fun _ => I') (fun _ _ => False) s') ->
  wp (or_drop cleanup m) Q (ends I') s.
Proof.
  intros Hm Hc. rewrite wp_or_drop. eapply wp_mono; [exact Hm|done|]. intros [e|] s' [He HI]; [|done].
  eapply wp_mono; [by apply Hc| |done]. by intros.
Qed.

Lemma wp_drop_fs T X F B v s : state_ok T X F B s -> vf_cache_id v ∈ F ->
  wp (on_world (drop_filesystem v) : K unit) (fun _ => state_ok T X F B) (fun _ _ => False) s.
Proof.
  intros Hs Hv. unfold on_world. wp_steps. eapply wp_mono; [by apply (wp_drop_filesystem T X F v (fun _ _ => False)), Hv; apply Hs| |done].
  intros ? w Hw. by eapply state_world.
Qed.

Lemma wp_unregister_ignored T X F B ram vm s : state_ok T X F B s ->
  wp (on_world (ignore (with_vmm (ChVm.unregister ram vm RAM_SLOT RAM_GPA))) : K unit) (fun _ => state_ok T X F B) (fun _ _ => False) s.
Proof.
  intros Hs. unfold on_world, ignore. kvm_steps. eapply wp_mono; [eapply wp_calm; [apply still_unregister|apply Hs]| |].
  - intros ? w Hw. kvm_steps. by eapply state_world.
  - intros [e|] w [? Hw]; [|done]. kvm_steps. by eapply state_world.
Qed.

(** ** Creation *)

Lemma state_subset T X F F' B s : state_ok T X F B s -> world_ok T X F' s.1 -> F ⊆ F' -> state_ok T X F' B s.
Proof. intros Hs Hw HF. by eapply step_state. Qed.

Lemma create_vm_lively n : keeps_lively (create_vm n : K _).
Proof.
  intros s (F & B & HB & Hs). unfold create_vm. wp_steps.
  eapply wp_mono; [eapply wp_step_world; [exact Hs|apply wp_new_raw, Hs]| |by intros e s'; apply ends_lively].
  intros vm s1 (E1 & Hw1 & Hn). set (T := {[RawMachine vm]} ∪ machs B) in *.
  assert (state_ok T ∅ F B s1) as H1 by by eapply step_state. assert (machs B ⊆ T) as HT by set_solver.
  wp_steps. eapply wp_mono; [eapply wp_kvm_world; [exact H1|apply wp_ram, H1]| |by intros e s'; apply ends_lively].
  intros ram s2 H2. wp_steps. eapply wp_mono; [eapply wp_kvm_world; [exact H2|eapply wp_calm, H2; apply still_register]| |by intros e s'; apply ends_lively].
  intros ? s3 H3. wp_steps. eapply wp_mono; [eapply (wp_or_drop_ends _ _ _ _ (state_ok T ∅ F B)); [apply wp_create_filesystem, H3|]| |by intros e s'; apply ends_lively].
  - intros s' Hs'. by apply wp_unregister_ignored.
  - intros v s4 H4. eapply (wp_insert_vm T); [exact HB|exact H4|done|set_solver|done|done|set_solver].
Qed.

Lemma create_cloud_vm_lively config : keeps_lively (create_cloud_vm config : K _).
Proof.
  intros s (F & B & HB & Hs). unfold create_cloud_vm. wp_steps.
  eapply wp_mono; [eapply wp_kvm_world; [exact Hs|apply wp_ram, Hs]| |by intros e s'; apply ends_lively].
  intros ram s1 H1. wp_steps. eapply wp_mono; [apply wp_create_filesystem, H1| |by intros e s'; apply ends_lively].
  intros v s2 H2. wp_steps.
  eapply wp_mono; [eapply (wp_or_drop_ends _ _ _ _ (state_ok (machs B) ∅ ({[vf_cache_id v]} ∪ F) B)); [eapply wp_step_world; [exact H2|apply wp_new_cloud, H2]|]| |by intros e s'; apply ends_lively].
  { intros s' Hs'. apply wp_drop_fs; [done|set_solver]. }
  intros c s3 (E3 & Hw3 & Hn & Hc). wp_steps. set (F' := {[vf_cache_id v]} ∪ F) in *.
  assert (state_ok ({[Worker (ch_api c)]} ∪ machs B) ({[Worker (ch_api c)]} ∪ ∅) F' B s3) as H3 by by eapply step_state; [exact H2|..].
  eapply wp_mono; [eapply (wp_or_drop_ends _ _ _ _ (state_ok (machs B) ∅ F' B)); [eapply wp_step_world; [exact H3|apply wp_boot_new, Hw3]|]| |by intros e s'; apply ends_lively].
  - intros s' Hs'. unfold on_world. wp_steps. eapply wp_mono; [apply (wp_discard_vm (machs B) ∅ F' c (fun _ _ => False)); [done|done|apply Hs']| |done].
    intros ? w Hw. eapply wp_mono; [apply (wp_drop_filesystem (machs B) ∅ F' v (fun _ _ => False)); [done|set_solver]| |done].
    intros ? w' Hw'. by eapply state_world.
  - intros ? s4 [E4 Hw4]. eapply (wp_insert_vm ({[Worker (ch_api c)]} ∪ machs B) F'); [exact HB| |set_solver|set_solver|done|done|set_solver].
    by eapply step_state; [exact H3|..].
Qed.

(** ** Access *)

(** What acts on a paused VM leaves the forest as it is. *)
Definition acts_on_vm {A} (id : N) (m : K A) : Prop := forall T X F B s,
  is_Some (B !! id) -> state_ok T X F B s -> wp m (fun _ => state_ok T X F B) (ends (state_ok T X F B)) s.

Lemma wp_pause_vm T F B b s : state_ok T ∅ F B s ->
  wp (on_world (pause_backend b) : K unit) (fun _ => state_ok T {[machine_of b]} F B) (ends (state_ok T ∅ F B)) s.
Proof.
  intros Hs. eapply wp_mono; [eapply wp_step_world; [exact Hs|apply wp_pause_backend, Hs]| |done].
  intros ? s' [E Hw]. eapply step_state; [exact Hs|done| |done]. eapply world_ok_mono; [..|exact Hw]; set_solver.
Qed.

Lemma wp_resume_vm T X F B b s : state_ok T X F B s ->
  wp (on_world (resume_backend b) : K unit) (fun _ => state_ok T (X ∖ {[machine_of b]}) F B)
    (ends (state_ok T (X ∖ {[machine_of b]}) F B)) s.
Proof.
  intros Hs. unfold on_world. wp_steps. eapply wp_mono; [apply (wp_resume_backend T X F b), Hs| |].
  - intros ? w Hw. by eapply state_world.
  - intros e w [He Hw]. split; [done|]. by eapply state_world.
Qed.

(** A resume whose error is held back. *)
Lemma wp_resume_caught T F B b (Q : result SupervisorError unit -> world * KvmSupervisor -> Prop) s :
  state_ok T {[machine_of b]} F B s -> (forall r s', state_ok T ∅ F B s' -> Q r s') ->
  wp (catch (on_world (resume_backend b)) : K _) Q (fun _ _ => False) s.
Proof.
  intros Hs HQ. kvm_steps. pose proof (wp_resume_vm _ _ _ _ b _ Hs) as Hw. rewrite difference_diag_L in Hw.
  eapply wp_mono; [exact Hw| |].
  - intros u s' Hs'. by apply HQ.
  - intros [e|] s' [He Hs']; [|done]. by apply HQ.
Qed.

Lemma while_paused_lively {A} id (m : K A) : acts_on_vm id m -> keeps_lively (while_paused id m).
Proof.
  intros Hm s (F & B & HB & Hs). unfold while_paused. kvm_steps.
  eapply wp_mono; [eapply (wp_find _ _ _ _ id), Hs| |by intros e s'; apply ends_lively].
  intros d s0 [-> Hd]. kvm_steps. eapply wp_mono; [by apply wp_pause_vm| |by intros e s'; apply ends_lively].
  intros ? s1 H1. kvm_steps.
  assert (is_Some (B !! id)) as Hid by by rewrite <-(st_backends _ _ _ _ _ Hs), lookup_fmap, Hd.
  assert (forall s', state_ok (machs B) ∅ F B s' -> lively s') as Hend by (intros s'; by eapply (lively_of (machs B))).
  eapply wp_mono; [exact (Hm _ _ _ _ _ Hid H1)| |].
  - intros x s2 H2. rewrite wp_bind. eapply wp_mono; [apply (wp_resume_caught (machs B) F B (kv_backend d) (fun _ => state_ok (machs B) ∅ F B)); [exact H2|done]| |done].
    intros [[]|e] s3 H3; kvm_steps; [by apply Hend|split; [done|by apply Hend]].
  - intros [e|] s2 [He H2]; [|done]. rewrite wp_bind.
    eapply wp_mono; [apply (wp_resume_caught (machs B) F B (kv_backend d) (fun _ => state_ok (machs B) ∅ F B)); [exact H2|done]| |done].
    intros r s3 H3. kvm_steps. split; [done|by apply Hend].
Qed.

Lemma on_ram_acts {A} id (m : Ram.R A) : acts_on_vm id (on_ram id m).
Proof. intros T X F B s Hid Hs. by apply wp_vm_ram. Qed.

Lemma on_fs_acts {A} id (m : M (Lineage W S Id * VirtioFs) VmmError A) : keeps same_place m -> acts_on_vm id (on_fs id m).
Proof. intros Hm T X F B s Hid Hs. by apply wp_on_fs_keeps. Qed.

(** ** Forks *)

Lemma wp_fork_fs T X F B id s : state_ok T X F B s -> is_Some (B !! id) ->
  wp (on_fs id Vfs.fork : K _) (fun child s' => state_ok T X F B s' /\ vf_cache_id child ∈ F) (ends (state_ok T X F B)) s.
Proof.
  intros Hs Hid. apply wp_on_fs; [done|done|]. intros v L Hv HL.
  eapply wp_mono; [apply wp_fork_place| |done]. cbn. intros child lv [Hp ->]. by rewrite HL.
Qed.

Lemma wp_dirty_log T X F B ram vm R s : state_ok T X F B s ->
  wp (dirty_log ram vm : K _) (fun _ => state_ok T X F B) R s.
Proof.
  intros Hs. unfold dirty_log, wp. pose proof (law_get_log vm RAM_SLOT RAM_GPA (ram_len ram) (kw_vmm s.1)) as Hl.
  destruct (vm_get_dirty_log _ _ _ _ _) as [h log]. eapply state_world; [exact Hs| |done]. apply world_ok_calm; [apply Hs|done].
Qed.

Lemma wp_fork_raw T X F B source backend child_vm s : state_ok T X F B s -> is_Some (B !! source) ->
  wp (fork_raw source backend child_vm : K _) (fun p s' => state_ok T X F B s' /\ vf_cache_id p.2 ∈ F)
    (ends (state_ok T X F B)) s.
Proof.
  intros Hs Hid. unfold fork_raw. kvm_steps. eapply wp_mono; [by apply wp_fork_fs| |done].
  intros child s1 [H1 Hc]. wp_steps. eapply wp_mono; [eapply (wp_or_drop_ends _ _ (fun _ => state_ok T X F B) (state_ok T X F B) (state_ok T X F B))| |done].
  - kvm_steps. eapply wp_mono; [by apply (wp_find T X F B source)| |done]. intros d s2 [-> Hd]. kvm_steps.
    eapply wp_mono; [by apply (wp_dirty_log T X F B _ _ (fun _ _ => False)), H1| |done]. intros log s3 H3. kvm_steps.
    eapply wp_mono; [by apply wp_vm_ram, Hid; apply H3| |done]. intros ram s4 H4. kvm_steps.
    eapply wp_mono; [eapply wp_kvm_world; [exact H4|eapply wp_calm, H4; apply still_register]| |done]. by intros.
  - intros s' Hs'. by apply wp_drop_fs.
  - intros ram s2 H2. kvm_steps. done.
Qed.

Lemma wp_pause_raw_vm op T F B vm s : state_ok T ∅ F B s ->
  wp (on_world (in_vmm op (vm_pause vm)) : K unit) (fun _ => state_ok T {[RawMachine vm]} F B) (ends (state_ok T ∅ F B)) s.
Proof.
  intros Hs. assert (state_ok T {[RawMachine vm]} F B s) as Hs'.
  { eapply state_subset; [|eapply world_ok_mono; [..|apply Hs]|]; [|done|set_solver|done|done].
    destruct Hs as [Hw HB Hm]. split; [|done|done]. eapply world_ok_mono; [..|exact Hw]; set_solver. }
  unfold on_world, in_vmm. kvm_steps. eapply wp_mono; [apply law_pause_raw| |].
  - intros ? h Hh. eapply state_world; [exact Hs'| |done]. eapply world_ok_still; [apply Hs'|exact Hh|set_solver].
  - intros e h Hh. split; [done|]. eapply state_world; [exact Hs| |done]. apply world_ok_calm; [apply Hs|done].
Qed.

Lemma wp_resume_raw_vm op T F B vm (Q : result SupervisorError unit -> world * KvmSupervisor -> Prop) s :
  state_ok T {[RawMachine vm]} F B s -> (forall r s', state_ok T ∅ F B s' -> Q r s') ->
  wp (catch (on_world (in_vmm op (vm_resume vm))) : K _) Q (fun _ _ => False) s.
Proof.
  intros Hs HQ. unfold on_world, in_vmm. kvm_steps.
  assert (forall r h, still sound ∅ (kw_vmm s.1) h /\ RawMachine vm ∈ sound h -> Q r (set_kw_vmm h s.1, s.2)) as Hq.
  { intros r h [Hh Hi]. apply HQ. eapply state_world; [exact Hs| |done].
    pose proof (world_ok_resumed _ _ _ _ _ _ (st_world _ _ _ _ _ Hs) Hh Hi) as Hw. by rewrite difference_diag_L in Hw. }
  eapply wp_mono; [apply law_resume_raw| |]; intros ? h Hh; by apply Hq.
Qed.

Lemma lively_set_pause d s : lively s -> lively (s.1, set_last_fork_pause d s.2).
Proof. intros (F & B & HB & [Hw Hb Hm]). exists F, B. split; [done|by split]. Qed.

Lemma fork_raw_vm_lively source vm : forall s, lively s -> (exists d, ks_vms s.2 !! source = Some d) ->
  wp (fork_raw_vm source vm : K _) (fun _ => lively) (ends lively) s.
Proof.
  intros s (F & B & HB & Hs) [d Hd]. unfold fork_raw_vm. kvm_steps.
  assert (is_Some (B !! source)) as Hid by by rewrite <-(st_backends _ _ _ _ _ Hs), lookup_fmap, Hd.
  eapply wp_mono; [eapply wp_step_world; [exact Hs|apply wp_new_raw, Hs]| |by intros e s'; apply ends_lively].
  intros child s1 (E1 & Hw1 & Hn). set (T := {[RawMachine child]} ∪ machs B) in *. assert (machs B ⊆ T) as HT by set_solver.
  assert (state_ok T ∅ F B s1) as H1 by by eapply step_state. kvm_steps.
  eapply wp_mono; [by apply wp_pause_raw_vm| |by intros e s'; apply ends_lively]. intros ? s2 H2. kvm_steps.
  eapply wp_mono; [exact (wp_fork_raw _ _ _ _ _ _ _ _ H2 Hid)| |].
  - intros [ram v] s3 [H3 Hv]. rewrite wp_bind.
    eapply wp_mono; [apply (wp_resume_raw_vm _ T F B vm (fun _ => state_ok T ∅ F B)); [exact H3|done]| |done].
    intros r s4 H4. kvm_steps. destruct r as [[]|e].
    2: { unfold on_world. kvm_steps. assert (forall w, world_ok T ∅ F w -> wp (drop_filesystem v)
           (fun _ w' => ends lively (Failed e) (w', s4.2)) (fun e' w' => ends lively e' (w', s4.2)) w) as Hdrop.
         { intros w Hw. eapply wp_mono; [by apply (wp_drop_filesystem T ∅ F v (fun _ _ => False))| |done]. intros ? w' Hw'.
           split; [done|]. eapply (lively_of T F B); [done|done|]. by eapply state_world. }
         eapply wp_mono; [eapply (wp_calm T ∅ F); [apply still_unregister|apply H4]| |].
         - intros ? w Hw. kvm_steps. by apply Hdrop.
         - intros [e'|] w [? Hw]; [|done]. kvm_steps. by apply Hdrop. }
    kvm_steps. eapply wp_mono; [apply (wp_insert_vm T F B _ (fun _ _ => False)); [exact HB|exact H4|done|set_solver|done|done|done]| |done].
    intros ? s5 H5. kvm_steps. by apply lively_set_pause.
  - intros [e|] s3 [He H3]; [|done]. rewrite wp_bind.
    eapply wp_mono; [apply (wp_resume_raw_vm _ T F B vm (fun _ => state_ok T ∅ F B)); [exact H3|done]| |done]. intros ? s4 H4. kvm_steps. split; [done|]. by eapply (lively_of T F B).
Qed.

(** What guests do while they run: they stop no machine, and neither the
    forest nor the caches change their members. *)
Record guest_runs s s' : Prop := {
  gr_vmm : undisturbed (kw_vmm s.1) (kw_vmm s'.1);
  gr_caches F : lineages_ok F (kw_fs s.1) -> lineages_ok F (kw_fs s'.1);
  gr_backends : kv_backend <$> ks_vms s'.2 = kv_backend <$> ks_vms s.2;
  gr_places : (vf_cache_id ∘ kv_filesystem) <$> ks_vms s'.2 = (vf_cache_id ∘ kv_filesystem) <$> ks_vms s.2
}.

Definition tame (guest : K unit) : Prop := forall s, wp guest (fun _ => guest_runs s) (fun _ _ => False) s.

Lemma state_guest T X F B s s' : state_ok T X F B s -> guest_runs s s' -> state_ok T X F B s'.
Proof.
  intros [[Hm Hr Hl] HB Hf] [[Hs Hs']%sound_undisturbed Hc Hb Hp]. split; [split|congruence|]; [set_solver|set_solver|by apply Hc|].
  intros id d Hd. assert (((vf_cache_id ∘ kv_filesystem) <$> ks_vms s.2) !! id = Some (vf_cache_id (kv_filesystem d))) as Hx
    by by rewrite <-Hp, lookup_fmap, Hd.
  rewrite lookup_fmap in Hx. apply fmap_Some in Hx as (d' & Hd' & E). cbn in E. rewrite E. by eapply Hf.
Qed.

Lemma wp_fork_cloud T X F B source c prep s : state_ok T X F B s -> is_Some (B !! source) ->
  wp (fork_cloud source c prep : K _) (fun p s' => state_ok T X F B s' /\ vf_cache_id p.2 ∈ F) (ends (state_ok T X F B)) s.
Proof.
  intros Hs Hid. unfold fork_cloud. kvm_steps.
  eapply wp_mono; [eapply wp_kvm_world; [exact Hs|eapply wp_calm, Hs; apply still_capture]| |done]. intros capture s1 H1. kvm_steps.
  eapply wp_mono; [exact (wp_fork_fs _ _ _ _ _ _ H1 Hid)| |done]. intros v s2 [H2 Hv]. wp_steps.
  eapply wp_mono; [eapply (wp_or_drop_ends _ _ (fun _ => state_ok T X F B) (state_ok T X F B) (state_ok T X F B))| |done].
  - by apply wp_vm_ram.
  - intros s' Hs'. by apply wp_drop_fs.
  - intros ram s3 H3. by kvm_steps.
Qed.

Lemma wp_start_child T F B branch capture v r s : forest_ok B -> state_ok T ∅ F B s -> machs B ⊆ T -> vf_cache_id v ∈ F ->
  wp (start_child r capture branch v : K _)
    (fun child s' => exists c, kv_backend child.1 = CloudVm c /\ kv_filesystem child.1 = v /\ ch_worker c = Some (ch_api c) /\
       (Worker (ch_api c) ∉ T) /\ state_ok ({[Worker (ch_api c)]} ∪ T) ∅ F B s')
    (ends (state_ok T ∅ F B)) s.
Proof.
  intros HB Hs HT Hv. apply (wp_or_drop_ends _ _ _ (state_ok T ∅ F B)).
  - kvm_steps. destruct r as [[]|e]; [|done]. kvm_steps.
    eapply wp_mono; [eapply wp_kvm_world; [exact Hs|apply wp_ram, Hs]| |done]. intros ram s1 H1. kvm_steps.
    eapply wp_mono; [eapply wp_step_world; [exact H1|apply wp_revive, H1]| |done]. intros c s2 (E2 & Hw2 & Hn & Hc). kvm_steps.
    exists c. split_and!; [done|done|done|done|]. by eapply step_state; [exact H1|..].
  - intros s' Hs'. by apply wp_drop_fs.
Qed.

Lemma fork_cloud_vm_lively guest source c : tame guest -> forall s, lively s ->
  (exists d, ks_vms s.2 !! source = Some d /\ kv_backend d = CloudVm c) ->
  wp (fork_cloud_vm guest source c : K _) (fun _ => lively) (ends lively) s.
Proof.
  intros Hg s (F & B & HB & Hs) (d & Hd & Hdc). unfold fork_cloud_vm. kvm_steps.
  assert (is_Some (B !! source)) as Hid by by rewrite <-(st_backends _ _ _ _ _ Hs), lookup_fmap, Hd.
  eapply wp_mono; [eapply wp_kvm_world; [exact Hs|eapply wp_calm, Hs; apply still_take_dirty]| |by intros e s'; apply ends_lively].
  intros dirty s1 H1. kvm_steps. eapply wp_mono; [exact (wp_vm_ram _ _ _ _ _ _ _ H1 Hid)| |by intros e s'; apply ends_lively].
  intros prep s2 H2. kvm_steps. eapply wp_mono; [apply Hg| |done]. intros ? s3 G3.
  assert (state_ok (machs B) ∅ F B s3) as H3 by exact (state_guest _ _ _ _ _ _ H2 G3). kvm_steps.
  eapply wp_mono; [exact (wp_pause_vm _ _ _ (CloudVm c) _ H3)| |by intros e s'; apply ends_lively]. intros ? s4 H4. kvm_steps.
  assert (forall s', state_ok (machs B) {[Worker (ch_api c)]} F B s' ->
    wp (catch (on_world (with_vmm (ChVm.resume c))) : K _) (fun _ => state_ok (machs B) ∅ F B) (fun _ _ => False) s') as Hres.
  { intros s' Hs'. by apply (wp_resume_caught (machs B) F B (CloudVm c)). }
  eapply wp_mono; [exact (wp_fork_cloud _ _ _ _ _ _ _ _ H4 Hid)| |].
  - intros [[capture branch] v] s5 [H5 Hv]. rewrite wp_bind. eapply wp_mono; [by apply Hres| |done]. intros r s6 H6. kvm_steps.
    eapply wp_mono; [by apply (wp_start_child (machs B) F B)| |by intros e s'; apply ends_lively].
    intros [child now] s7 (c' & Hb & Hf & Hc' & Hn & H7). cbn in Hb, Hf. kvm_steps. cbn.
    eapply wp_mono; [apply (wp_insert_vm ({[Worker (ch_api c')]} ∪ machs B) F B _ (fun _ _ => False)); rewrite ?Hb, ?Hf; [exact HB|exact H7|set_solver|set_solver|done|done|done]| |done].
    intros ? s8 H8. kvm_steps. by apply lively_set_pause.
  - intros [e|] s5 [He H5]; [|done]. rewrite wp_bind. eapply wp_mono; [by apply Hres| |done].
    intros ? s6 H6. kvm_steps. split; [done|]. by eapply (lively_of (machs B) F B).
Qed.

Lemma fork_vm_lively guest source : tame guest -> keeps_lively (fork_vm guest source).
Proof.
  intros Hg s Hs. pose proof Hs as (F & B & HB & Hst). unfold fork_vm. kvm_steps.
  eapply wp_mono; [eapply (wp_find _ _ _ _ source), Hst| |by intros e s'; apply ends_lively]. intros d s0 [-> Hd].
  destruct (kv_backend d) as [vm|c] eqn:Hb; [apply fork_raw_vm_lively|apply fork_cloud_vm_lively]; eauto.
Qed.

(** ** Removal *)

Lemma remove_vm_lively id : keeps_lively (remove_vm id : K _).
Proof.
  intros s (F & B & HB & Hs). unfold remove_vm. kvm_steps.
  eapply wp_mono; [eapply (wp_find _ _ _ _ id), Hs| |by intros e s'; apply ends_lively]. intros d s0 [-> Hd].
  assert (B !! id = Some (kv_backend d)) as Hb by by rewrite <-(st_backends _ _ _ _ _ Hs), lookup_fmap, Hd.
  kvm_steps. unfold on_world. kvm_steps. cbn.
  eapply wp_mono; [apply (wp_drop_vm (machs (delete id B)) ∅ F d (fun _ _ => False)); [|exact (fo_wf _ HB _ _ Hb)|by apply machs_gone|exact (st_members _ _ _ _ _ Hs _ _ Hd)]| |done].
  - eapply world_ok_mono; [..|apply Hs]; [apply machs_delete|set_solver|done].
  - intros ? w Hw. exists F, (delete id B). split; [by apply forest_ok_delete|]. split; cbn; [done| |].
    + by rewrite fmap_delete, (st_backends _ _ _ _ _ Hs).
    + intros i d' [_ Hd']%lookup_delete_Some. by eapply (st_members _ _ _ _ _ Hs).
Qed.

End ops.
