(* ===== verification/KvmLive.v ===== *)
(** * Checkpoints, restarts, and the liveness of the KVM supervisor's VMs *)

From S2P Require Import Prelude Generations Host CacheTypes SharedCache Storage RedoxBranch RedoxFacts VmmTypes VirtioFs Lineages LineageIds Ram RamDurable KvmVmm KvmSupervisor KvmRecovery KvmRuns KvmForest KvmOps.
Import Kvm KvmDur.

Section live.
Context {W S Id St H Opts Snap Ranges : Type} `{Countable Id} `{!BranchStore W S Id St} `{!Vmm H Opts Snap Ranges}.
Context `{!VmmRuns H} `{!VmmSound H} `{!VmmSoundLaws H Opts Snap Ranges}.
Context `{!ManifestCodec St Opts Snap Ranges} `{HSparse : !SparseFiles}.

Abbreviation world := (KvmWorld W S Id H).
Abbreviation KW := (M (KvmWorld W S Id H) (Stop SupervisorError)).
Abbreviation K := (M (KvmWorld W S Id H * KvmSupervisor) (Stop SupervisorError)).

Implicit Types (T X : gset Machine) (F : gset N) (B : gmap N VmBackend) (w : world) (s : world * KvmSupervisor) (v : VirtioFs).

(** ** Checkpoints *)

(** The machines of some of the VMs. *)
Definition machines_of B (l : list N) : gset Machine := list_to_set (omap (fun id => machine_of <$> B !! id) l).

Lemma machines_of_cons B id l b : B !! id = Some b -> machines_of B (id :: l) = {[machine_of b]} ∪ machines_of B l.
Proof. intros Hb. unfold machines_of. cbn. by rewrite Hb. Qed.

Definition members B (l : list N) : Prop := Forall (fun id => is_Some (B !! id)) l.

Lemma wp_index T X F B id b R s : state_ok T X F B s -> B !! id = Some b ->
  wp (index id : K _) (fun d s' => s' = s /\ ks_vms s.2 !! id = Some d /\ kv_backend d = b) R s.
Proof.
  intros Hs Hb. destruct (member _ _ _ _ _ _ _ Hs Hb) as (d & Hd & Hdb). unfold index. kvm_steps. by rewrite Hd.
Qed.

Lemma wp_resume_member T X F B id b s : state_ok T X F B s -> B !! id = Some b ->
  wp (resume_vm id : K unit) (fun _ => state_ok T (X ∖ {[machine_of b]}) F B) (ends (state_ok T (X ∖ {[machine_of b]}) F B)) s.
Proof.
  intros Hs Hb. unfold resume_vm. kvm_steps. eapply wp_mono; [exact (wp_index _ _ _ _ _ _ (fun _ _ => False) _ Hs Hb)| |done].
  intros d s0 (-> & _ & ->). by apply wp_resume_vm.
Qed.

Lemma wp_resume_all T X F B l r s : state_ok T X F B s -> members B l -> X ⊆ machines_of B l ->
  wp (resume_all l r : K _) (fun _ => state_ok T ∅ F B) (fun _ _ => False) s.
Proof.
  intros Hs Hl HX. revert X r s Hs HX. induction Hl as [|id l [b Hb] Hl IH]; intros X r s Hs HX; cbn; kvm_steps.
  - assert (X = ∅) as -> by set_solver. done.
  - rewrite (machines_of_cons _ _ _ _ Hb) in HX. eapply wp_mono; [exact (wp_resume_member _ _ _ _ _ _ _ Hs Hb)| |].
    + intros ? s1 H1. eapply IH; [exact H1|]. set_solver.
    + intros [e|] s1 [He H1]; [|done]. eapply IH; [exact H1|]. set_solver.
Qed.

Lemma wp_resume_each T X F B l s : state_ok T X F B s -> members B l -> X ⊆ machines_of B l ->
  wp (for_each (fun id => _ ← catch (resume_vm id); mret tt) l : K unit) (fun _ => state_ok T ∅ F B) (fun _ _ => False) s.
Proof.
  intros Hs Hl HX. revert X s Hs HX. induction Hl as [|id l [b Hb] Hl IH]; intros X s Hs HX; cbn; kvm_steps.
  - assert (X = ∅) as -> by set_solver. done.
  - rewrite (machines_of_cons _ _ _ _ Hb) in HX. eapply wp_mono; [exact (wp_resume_member _ _ _ _ _ _ _ Hs Hb)| |].
    + intros ? s1 H1. kvm_steps. eapply IH; [exact H1|]. set_solver.
    + intros [e|] s1 [He H1]; [|done]. kvm_steps. eapply IH; [exact H1|]. set_solver.
Qed.

Lemma wp_pause_all T F B vms paused s : state_ok T (machines_of B paused) F B s -> members B paused ->
  Forall (fun x : N * KvmVm => B !! x.1 = Some (kv_backend x.2)) vms ->
  wp (pause_all vms paused : K _) (fun l s' => state_ok T (machines_of B l) F B s' /\ members B l)
    (ends (state_ok T ∅ F B)) s.
Proof.
  intros Hs Hp Hv. revert paused s Hs Hp. induction Hv as [|[id d] vms Hd Hv IH]; intros paused s Hs Hp; cbn; kvm_steps; [done|].
  cbn in Hd. unfold on_world. kvm_steps. eapply wp_mono; [apply wp_pause_backend, Hs| |].
  - intros ? w Hw. apply IH; [|constructor; [by eauto|done]]. rewrite (machines_of_cons _ _ _ _ Hd), (comm_L (∪)).
    by eapply state_world.
  - intros [e|] w [He Hw]; [|done]. kvm_steps.
    eapply wp_mono; [apply (wp_resume_each T (machines_of B paused) F B); [by eapply state_world|done|done]| |done].
    intros ? s1 H1. kvm_steps. by split.
Qed.

Lemma wp_save_vm T X F B dir id s : state_ok T X F B s -> is_Some (B !! id) ->
  wp (save_vm dir id : K _) (fun _ => state_ok T X F B) (ends (state_ok T X F B)) s.
Proof.
  intros Hs [b Hb]. unfold save_vm. kvm_steps.
  eapply wp_mono; [exact (wp_index _ _ _ _ _ _ (fun _ _ => False) _ Hs Hb)| |done]. intros d s0 (-> & _ & _). kvm_steps.
  assert (wp (seal_backend id d : K _) (fun _ => state_ok T X F B) (ends (state_ok T X F B)) s) as Hseal.
  { unfold seal_backend. destruct (kv_backend d) as [vm|c]; kvm_steps.
    - eapply wp_mono; [exact (wp_dirty_log _ _ _ _ _ _ (fun _ _ => False) _ Hs)| |done]. intros log s1 H1. kvm_steps.
      eapply wp_mono; [apply (wp_vm_ram T X F B); [exact H1|by eexists]| |done]. intros ? s2 H2. by kvm_steps.
    - eapply wp_mono; [eapply wp_kvm_world; [exact Hs|eapply wp_calm, Hs; apply still_capture]| |done]. intros capture s1 H1. kvm_steps.
      eapply wp_mono; [apply (wp_vm_ram T X F B); [exact H1|by eexists]| |done]. intros ? s2 H2. by kvm_steps. }
  eapply wp_mono; [exact Hseal| |done]. intros backend s1 H1. kvm_steps.
  eapply wp_mono; [apply (wp_on_fs_keeps T X F B); [apply place_snapshot|exact H1|by eexists]| |done]. intros fs s2 H2. kvm_steps.
  eapply wp_mono; [exact (wp_index _ _ _ _ _ _ (fun _ _ => False) _ H2 Hb)| |done]. intros d2 s0 (-> & _ & _). kvm_steps.
  eapply wp_mono; [eapply wp_kvm_world; [exact H2|apply wp_ram, H2]| |done]. intros ram s3 H3. by kvm_steps.
Qed.

Lemma wp_save_all T X F B dir l s : state_ok T X F B s -> members B l ->
  wp (save_all dir l : K _) (fun _ => state_ok T X F B) (ends (state_ok T X F B)) s.
Proof.
  intros Hs Hl. revert s Hs. induction Hl as [|id l Hid Hl IH]; intros s Hs; cbn; kvm_steps; [done|].
  eapply wp_mono; [exact (wp_save_vm _ _ _ _ _ _ _ Hs Hid)| |done]. intros saved s1 H1. kvm_steps.
  eapply wp_mono; [exact (IH _ H1)| |done]. intros others s2 H2. by kvm_steps.
Qed.

Lemma wp_json {A} T X F (m : SIO A) w : world_ok T X F w ->
  wp (with_json m) (fun _ => world_ok T X F) (ends (world_ok T X F)) w.
Proof. intros []. unfold with_json. wp_steps. by apply wp_any. Qed.

Lemma wp_publish_world T X F dir m w : world_ok T X F w ->
  wp (publish_manifest dir m : KW unit) (fun _ => world_ok T X F) (ends (world_ok T X F)) w.
Proof.
  intros Hw. unfold publish_manifest. kvm_steps. eapply wp_mono; [apply wp_dir, Hw| |done]. intros i w1 H1. kvm_steps.
  destruct (to_json m) as [bytes|e]; [cbn|done]. kvm_steps.
  eapply wp_mono; [apply (wp_json T X F), H1| |done]. intros ? w2 H2. kvm_steps.
  eapply wp_mono; [apply wp_dir, H2| |done]. intros ? w3 H3. kvm_steps.
  eapply wp_mono; [apply wp_dir, H3| |done]. intros ? w4 H4. apply wp_dir, H4.
Qed.

Lemma checkpoint_lively : keeps_lively (checkpoint : K unit).
Proof.
  intros s (F & B & HB & Hs). unfold checkpoint. kvm_steps.
  destruct (ks_storage s.2) as [dir|]; cbn; [|by split; [|exists F, B]]. kvm_steps.
  assert (forall x, x ∈ vm_list s.2 -> B !! x.1 = Some (kv_backend x.2)) as Hvms.
  { intros [id d] Hx%elem_of_btree_list. cbn. by rewrite <-(st_backends _ _ _ _ _ Hs), lookup_fmap, Hx. }
  eapply wp_mono; [apply (wp_pause_all (machs B) F B); [exact Hs|constructor|by apply Forall_forall]| |by intros e s'; apply ends_lively].
  intros paused s1 [H1 Hp]. unfold capture_forest. kvm_steps.
  assert (members B (vm_ids s1.2)) as Hids.
  { apply Forall_forall. intros id ([i x] & -> & Hx%elem_of_btree_list)%list_elem_of_fmap. cbn.
    rewrite <-(st_backends _ _ _ _ _ H1), lookup_fmap, Hx. by eexists. }
  eapply wp_mono; [exact (wp_save_all _ _ _ _ _ _ _ H1 Hids)| |].
  - intros saved s2 H2. kvm_steps. eapply wp_mono; [apply (wp_resume_all _ _ _ _ _ _ _ H2 Hp); done| |done].
    intros r s3 H3. kvm_steps. destruct r as [[]|e]; [|by split; [|eapply (lively_of (machs B) F B)]].
    eapply wp_mono; [eapply wp_kvm_world; [exact H3|apply wp_publish_world, H3]| |by intros e s'; apply ends_lively].
    intros ? s4 H4. by eapply (lively_of (machs B) F B).
  - intros [e|] s2 [He H2]; [|done]. kvm_steps. eapply wp_mono; [apply (wp_resume_all _ _ _ _ _ _ _ H2 Hp); done| |done].
    intros r s3 H3. kvm_steps. split; [done|]. by eapply (lively_of (machs B) F B).
Qed.

(** ** Restarts *)

Definition all_in F (l : list (option VirtioFs)) : Prop := Forall (fun o => forall v, o = Some v -> vf_cache_id v ∈ F) l.

Lemma wp_restored_branches parts (L : Lineage W S Id) :
  wp (Vfs.restore_branches parts)
    (fun vs L' => c_id (ln_cache L') = c_id (ln_cache L) /\ Forall (fun v => vf_cache_id v = c_id (ln_cache L)) vs)
    (fun _ _ => True) L.
Proof.
  revert L. induction parts as [|[snapshot b] parts IH]; intros L; cbn; wp_steps; [done|].
  eapply wp_mono; [apply wp_from_parts_place| |done]. intros v L1 [E1 Ev]. wp_steps. eapply wp_mono; [apply IH| |done].
  intros vs L2 [E2 Hvs]. wp_steps. rewrite <-E1. split; [done|]. constructor; [congruence|done].
Qed.

Lemma wp_restore_lineage dir snapshots p :
  wp (Vfs.restore_lineage (W := W) (S := S) (Id := Id) (St := St) dir snapshots)
    (fun La _ => Forall (fun v => vf_cache_id v = c_id (ln_cache La.1)) La.2) (fun _ _ => True) p.
Proof.
  unfold Vfs.restore_lineage, Vfs.on_world, Vfs.take_cache_id. wp_steps. apply wp_any; [|done]. intros stores w. wp_steps.
  destruct (map_err _ _) as [[c branches]|e]; [|done]. wp_steps. cbn.
  set (p' := mkProcess _ _ _ _ _ _). pose proof (wp_restored_branches (zip snapshots branches) (Vfs.enter c p')) as Hw.
  unfold Vfs.on_new_cache, wp in *. destruct (Vfs.restore_branches _ _) as [L [vs|e]]; [|done]. cbn in *. destruct Hw as [-> Hvs]. done.
Qed.

Lemma wp_drop_filesystems T X F l w : world_ok T X F w -> all_in F l ->
  wp (drop_filesystems l : KW unit) (fun _ => world_ok T X F) (fun _ _ => False) w.
Proof.
  intros Hw Hl. unfold drop_filesystems. revert w Hw. induction Hl as [|o l Ho Hl IH]; intros w Hw; cbn; wp_steps; [done|].
  destruct o as [v|]; [|by wp_steps; apply IH].
  eapply wp_mono; [apply (wp_drop_filesystem T X F v (fun _ _ => False)); [done|by apply Ho]| |done]. intros ? w' Hw'. by apply IH.
Qed.

Lemma all_in_mono F F' l : F ⊆ F' -> all_in F l -> all_in F' l.
Proof. intros HF Hl. eapply Forall_impl; [exact Hl|]. intros o Ho v Hv. by apply HF, Ho. Qed.

Lemma all_in_place F l placed : all_in F l -> Forall (fun x : nat * VirtioFs => vf_cache_id x.2 ∈ F) placed -> all_in F (place l placed).
Proof.
  intros Hl Hp. revert l Hl. induction Hp as [|[i v] placed Hv Hp IH]; intros l Hl; cbn; [done|]. apply IH.
  apply Forall_insert; [done|]. intros v' [= <-]. done.
Qed.

Lemma wp_restore_lineages T X F dir ls l w : world_ok T X F w -> all_in F l ->
  wp (restore_lineages dir ls l : KW _) (fun l' w' => exists F', world_ok T X F' w' /\ all_in F' l')
    (ends (world_ok T X ∅)) w.
Proof.
  revert F l w. induction ls as [|[lineage entries] ls IH]; intros F l w Hw Hl; cbn; kvm_steps; [by exists F|].
  unfold with_fs. kvm_steps.
  eapply wp_mono; [apply (wp_add_lineage F _ (fun cid vs => Forall (fun v => vf_cache_id v = cid) vs)); [apply Hw|apply wp_restore_lineage]| |].
  - intros vs li (cid & Hli & Hvs). eapply IH; [eapply set_fs_ok; [exact Hw|exact Hli]|]. apply all_in_place.
    + eapply all_in_mono; [|exact Hl]. set_solver.
    + apply Forall_forall. intros [i v] Hi. apply elem_of_zip_r in Hi. rewrite Forall_forall in Hvs. cbn. rewrite (Hvs v Hi). set_solver.
  - intros [e|] li [He Hli]; [|done]. cbn. assert (world_ok T X F (set_kw_fs li w)) as Hw' by (eapply set_fs_ok; [exact Hw|done]).
    eapply wp_mono; [by apply (wp_drop_filesystems T X F)| |done]. intros ? w' Hw''. split; [done|].
    eapply world_ok_mono; [..|exact Hw'']; set_solver.
Qed.

Lemma wp_restore_backend T F saved ram v w : world_ok T ∅ F w ->
  wp (restore_backend saved ram v : KW _)
    (fun b w' => world_ok ({[machine_of b]} ∪ T) ∅ F w' /\ (machine_of b ∉ T) /\ backend_wf b) (ends (world_ok T ∅ F)) w.
Proof.
  intros Hw. unfold restore_backend. destruct saved as [|config snapshot dirty indexes]; kvm_steps.
  - eapply wp_mono; [apply wp_new_raw, Hw| |done]. intros vm w1 [Hw1 Hn]. kvm_steps.
    eapply wp_mono; [eapply wp_calm, Hw1; apply still_register| |].
    + intros ? w2 Hw2. by kvm_steps.
    + intros e w2 [He Hw2]. split; [done|]. eapply world_ok_mono; [..|exact Hw2]; set_solver.
  - destruct (reattach_config _ _ _) as [config'|e]; [|done]. kvm_steps.
    eapply wp_mono; [apply wp_revive, Hw| |done]. intros c w1 (Hw1 & Hn & Hc). by kvm_steps.
Qed.

(** The VMs put together so far. *)
Record restored F (vms : gmap N KvmVm) w : Prop := {
  re_forest : forest_ok (kv_backend <$> vms);
  re_world : world_ok (machs (kv_backend <$> vms)) ∅ F w;
  re_places id d : vms !! id = Some d -> vf_cache_id (kv_filesystem d) ∈ F
}.

Lemma wp_drop_vms F l w : world_ok ∅ ∅ F w ->
  Forall (fun d => backend_wf (kv_backend d) /\ vf_cache_id (kv_filesystem d) ∈ F) l ->
  wp (for_each (fun d => drop_vm d) l : KW unit) (fun _ => world_ok ∅ ∅ F) (fun _ _ => False) w.
Proof.
  intros Hw Hl. revert w Hw. induction Hl as [|d l [Hb Hf] Hl IH]; intros w Hw; cbn; wp_steps; [done|].
  eapply wp_mono; [apply (wp_drop_vm ∅ ∅ F d (fun _ _ => False)); [done|done|set_solver|done]| |done]. intros ? w' Hw'. by apply IH.
Qed.

Lemma wp_drop_forest F l vms w : restored F vms w -> all_in F l ->
  wp (drop_forest l vms : KW unit) (fun _ => world_ok ∅ ∅ ∅) (fun _ _ => False) w.
Proof.
  intros [HB Hw Hp] Hl. unfold drop_forest. wp_steps.
  assert (world_ok ∅ ∅ F w) as Hw0 by (eapply world_ok_mono; [..|exact Hw]; set_solver).
  eapply wp_mono; [by apply (wp_drop_filesystems ∅ ∅ F)| |done]. intros ? w1 Hw1.
  eapply wp_mono; [apply (wp_drop_vms F); [done|]| |done].
  - apply Forall_forall. intros d ([i x] & -> & Hx%elem_of_btree_list)%list_elem_of_fmap. split; [|by eapply Hp].
    eapply (fo_wf _ HB i). by rewrite lookup_fmap, Hx.
  - intros ? w2 Hw2. eapply world_ok_mono; [..|exact Hw2]; set_solver.
Qed.

(** A VM joins them; one with the same number is dropped. *)
Lemma wp_join F vms id b ram v w : restored F vms w -> world_ok ({[machine_of b]} ∪ machs (kv_backend <$> vms)) ∅ F w ->
  machine_of b ∉ machs (kv_backend <$> vms) -> backend_wf b -> vf_cache_id v ∈ F ->
  wp (match vms !! id with Some old => drop_vm old | None => mret tt end : KW unit)
    (fun _ => restored F (<[id := mkKvmVm b ram v]> vms)) (fun _ _ => False) w.
Proof.
  intros [HB _ Hp] Hw Hn Hb Hv. set (B := kv_backend <$> vms) in *.
  assert (world_ok (machs (<[id := b]> B)) ∅ F w) as Hw'.
  { eapply world_ok_mono; [..|exact Hw]; [apply machs_insert|set_solver|done]. }
  assert (forall w, world_ok (machs (<[id := b]> B)) ∅ F w -> restored F (<[id := mkKvmVm b ram v]> vms) w) as Hend.
  { intros w' Hw''. split; rewrite ?fmap_insert; [by apply forest_ok_insert|done|].
    intros i d [[_ <-]|[_ Hd]]%lookup_insert_Some; [done|by eapply Hp]. }
  destruct (vms !! id) as [old|] eqn:Ho; [|by wp_steps; apply Hend].
  assert (B !! id = Some (kv_backend old)) as Hob by by unfold B; rewrite lookup_fmap, Ho.
  eapply wp_mono; [apply (wp_drop_vm (machs (<[id := b]> B)) ∅ F old (fun _ _ => False)); [done|exact (fo_wf _ HB _ _ Hob)| |by eapply Hp]| |done].
  - by apply machs_replaced.
  - intros ? w1 Hw1. by apply Hend.
Qed.

Lemma wp_restore_vms F saved rams l vms w : restored F vms w -> all_in F l ->
  wp (restore_vms saved rams l vms : KW _) (fun vms' w' => restored F vms' w') (ends (world_ok ∅ ∅ ∅)) w.
Proof.
  revert rams l vms w. induction saved as [|vm saved IH]; intros [|ram rams] l vms w Hr Hl; cbn; kvm_steps; try done.
  destruct Hl as [|o l Ho Hl]; kvm_steps; [done|]. destruct o as [v|]; kvm_steps.
  - pose proof (Ho v eq_refl) as Hv. eapply wp_mono; [apply wp_restore_backend, Hr| |].
    + intros b w1 (Hw1 & Hn & Hb). kvm_steps. eapply wp_mono; [apply (wp_join F vms (vmf_id vm) b ram v)| |done].
      * destruct Hr as [? Hw0 ?]. split; [done| |done]. eapply world_ok_mono; [..|exact Hw1]; set_solver.
      * done.
      * done.
      * done.
      * done.
      * intros ? w2 Hr2. by apply IH.
    + intros [e|] w1 [He Hw1]; [|done]. kvm_steps.
      eapply wp_mono; [eapply (wp_drop_filesystem _ _ _ v (fun _ _ => False)); [exact Hw1|done]| |done]. intros ? w2 Hw2.
      eapply wp_mono; [apply (wp_drop_forest F); [|done]| |done]; [destruct Hr; by split|]. intros ? w3 Hw3. by split.
  - eapply wp_mono; [by apply (wp_drop_forest F)| |done]. intros ? w1 Hw1. kvm_steps. by split.
Qed.

Lemma wp_ram_storage {A} T X F (m : SIO A) w : world_ok T X F w ->
  wp (with_ram_storage m) (fun _ => world_ok T X F) (ends (world_ok T X F)) w.
Proof. intros []. unfold with_ram_storage. wp_steps. by apply wp_any. Qed.

Lemma wp_hv_new op T X F w : world_ok T X F w ->
  wp (in_vmm op hv_new) (fun _ => world_ok T X F) (ends (world_ok T X F)) w.
Proof.
  intros Hw. unfold in_vmm. wp_steps. eapply wp_keeps; [apply law_hv_new| |].
  - intros ? h Hh. by apply world_ok_calm.
  - intros ? h Hh. split; [done|]. by apply world_ok_calm.
Qed.

Lemma wp_restore_forest dir m w : world_ok ∅ ∅ ∅ w ->
  wp (restore_forest dir m : KW _) (fun k w' => lively (w', k)) (ends (world_ok ∅ ∅ ∅)) w.
Proof.
  intros Hw. unfold restore_forest. destruct (negb _); kvm_steps; [done|].
  eapply wp_mono; [apply wp_hv_new, Hw| |done]. intros ? w1 Hw1. kvm_steps.
  eapply wp_mono; [apply wp_ram, Hw1| |done]. intros rams w2 Hw2. kvm_steps.
  eapply wp_mono; [apply (wp_restore_lineages ∅ ∅ ∅); [exact Hw2|]| |done].
  { apply Forall_replicate. by intros. }
  intros fss w3 (F & Hw3 & Hf). kvm_steps. eapply wp_mono; [apply (wp_restore_vms F)| |done].
  - split; [by split|by rewrite fmap_empty|done].
  - done.
  - intros vms w4 [HB Hw4 Hp]. kvm_steps. by exists F, (kv_backend <$> vms).
Qed.

Lemma wp_kvm_new w : world_ok ∅ ∅ ∅ w -> wp (new : KW _) (fun k w' => world_ok ∅ ∅ ∅ w' /\ ks_vms k = ∅) (ends (world_ok ∅ ∅ ∅)) w.
Proof. intros Hw. unfold new. kvm_steps. eapply wp_mono; [apply wp_hv_new, Hw| |done]. intros ? w1 Hw1. by kvm_steps. Qed.

Lemma lively_empty w k : world_ok ∅ ∅ ∅ w -> ks_vms k = ∅ -> lively (w, k).
Proof. intros Hw Hk. exists ∅, ∅. split; [by split|]. split; [done|by cbn; rewrite Hk|by cbn; rewrite Hk]. Qed.

Lemma wp_kvm_open dir w : world_ok ∅ ∅ ∅ w -> wp (KvmDur.open dir : KW _) (fun k w' => lively (w', k)) (ends (world_ok ∅ ∅ ∅)) w.
Proof.
  intros Hw. unfold KvmDur.open. kvm_steps. eapply wp_mono; [apply wp_ram_storage, Hw| |done]. intros ? w1 Hw1. kvm_steps.
  eapply wp_mono; [apply wp_dir, Hw1| |done]. intros ? w2 Hw2. kvm_steps.
  eapply wp_mono; [apply wp_ram, Hw2| |done]. intros ? w3 Hw3. kvm_steps.
  eapply wp_mono; [apply wp_dir, Hw3| |done]. intros there w4 Hw4. destruct there; unfold read_manifest; kvm_steps.
  - eapply wp_mono; [apply wp_dir, Hw4| |done]. intros file w5 Hw5. kvm_steps.
    eapply wp_mono; [apply wp_json, Hw5| |done]. intros bytes w6 Hw6. kvm_steps.
    destruct (from_json bytes) as [m|e]; [cbn|done]. by apply wp_restore_forest.
  - eapply wp_mono; [apply wp_kvm_new, Hw4| |done]. intros k w5 [Hw5 Hk]. kvm_steps. by apply lively_empty.
Qed.

(** ** The supervisor's calls *)

Inductive kvm_op :=
  | OpCreateVm (ram_size : N)
  | OpCreateCloudVm (config : VmConfig Opts)
  | OpCreateFile (id : N) (name : string) (size : N)
  | OpForkVm (guest : K unit) (source : N)
  | OpRemoveVm (id : N)
  | OpCheckpoint
  | OpWriteMemory (id guest_address : N) (bytes : list byte)
  | OpReadMemory (id guest_address len : N)
  | OpWriteFile (id : N) (node : NodeId) (offset : N) (bytes : list byte)
  | OpReadFile (id : N) (node : NodeId) (offset len : N).

Definition discard {A} (m : K A) : K unit := _ ← m; mret tt.

Definition run_op (op : kvm_op) : K unit :=
  match op with
  | OpCreateVm n => discard (create_vm n)
  | OpCreateCloudVm config => discard (create_cloud_vm config)
  | OpCreateFile id name size => discard (create_file id name size)
  | OpForkVm guest source => discard (fork_vm guest source)
  | OpRemoveVm id => remove_vm id
  | OpCheckpoint => checkpoint
  | OpWriteMemory id addr bytes => write_memory id addr bytes
  | OpReadMemory id addr len => discard (read_memory id addr len)
  | OpWriteFile id node off bytes => write_file id node off bytes
  | OpReadFile id node off len => discard (read_file id node off len)
  end.

(** What the guest does during a fork is what guests do. *)
Definition tame_op (op : kvm_op) : Prop := match op with OpForkVm guest _ => tame guest | _ => True end.

Lemma discard_lively {A} (m : K A) : keeps_lively m -> keeps_lively (discard m).
Proof. intros Hm s Hs. unfold discard. wp_steps. eapply wp_mono; [by apply Hm| |done]. by intros. Qed.

Lemma op_lively op : tame_op op -> keeps_lively (run_op op).
Proof.
  destruct op; cbn; intros Ht; repeat apply discard_lively.
  - apply create_vm_lively.
  - apply create_cloud_vm_lively.
  - apply while_paused_lively, on_fs_acts, place_create_file.
  - by apply fork_vm_lively.
  - apply remove_vm_lively.
  - apply checkpoint_lively.
  - apply while_paused_lively, on_ram_acts.
  - apply while_paused_lively, on_ram_acts.
  - apply while_paused_lively, on_fs_acts, place_write.
  - apply while_paused_lively, on_fs_acts, place_read.
Qed.

Lemma named_world w : named (kw_fs w) -> world_ok ∅ ∅ ∅ w.
Proof. intros Hn. split; [set_solver|set_solver|by split]. Qed.

End live.

(** ** A watched VMM *)

Section watched.
Context {W S Id St H Opts Snap Ranges : Type} `{Countable Id} `{!BranchStore W S Id St} `{!Vmm H Opts Snap Ranges}.
Context `{!VmmRuns H} `{!VmmRunLaws H Opts Snap Ranges} `{!ManifestCodec St Opts Snap Ranges} `{HSparse : !SparseFiles}.

Abbreviation world := (KvmWorld W S Id (Watched H)).

Implicit Types (w : world) (s : world * KvmSupervisor).

(** A supervisor, new or opened, with nothing on the record yet; its calls one
    after another with any result; and guests that run in between. *)
Inductive kvm_reachable : world * KvmSupervisor -> Prop :=
  | kr_new w w' k : named (kw_fs w) -> refused (kw_vmm w) = ∅ -> new w = (w', Ok k) -> kvm_reachable (w', k)
  | kr_open dir w w' k : named (kw_fs w) -> refused (kw_vmm w) = ∅ -> KvmDur.open dir w = (w', Ok k) -> kvm_reachable (w', k)
  | kr_op op s s' r : kvm_reachable s -> tame_op op -> run_op op s = (s', r) -> kvm_reachable s'
  | kr_guest s s' : kvm_reachable s -> guest_runs s s' -> kvm_reachable s'.

Lemma reachable_lively s : kvm_reachable s -> lively s.
Proof.
  induction 1 as [w w' k Hn _ Hr|dir w w' k Hn _ Hr|op s s' r _ IH Ht Hr|s s' _ (F & B & HB & Hs) Hg].
  - eapply wp_elim in Hr; [|apply wp_kvm_new, named_world, Hn]. destruct Hr. by apply lively_empty.
  - eapply wp_elim in Hr; [|apply wp_kvm_open, named_world, Hn]. done.
  - eapply wp_elim in Hr; [|by apply (op_lively op Ht)]. destruct r as [|e]; [done|apply Hr].
  - exists F, B. split; [done|]. by eapply state_guest.
Qed.

(** C5. However a KVM supervisor was brought up and whatever its calls did
    before, with any failure of the host, of KVM, of Cloud Hypervisor or of a
    file system in between: whenever the supervisor is not in a call, every VM
    of the forest runs, unless a request to pause or resume that very VM
    failed, or its event descriptor could not be duplicated to send it one, and
    the VM was not resumed since.  So no failure of anything else leaves a VM
    paused; and no call panics. *)
Theorem forest_keeps_running s :
  kvm_reachable s ->
  (forall id d, ks_vms s.2 !! id = Some d ->
     machine_of (kv_backend d) ∈ running (vmm (kw_vmm s.1)) \/ machine_of (kv_backend d) ∈ refused (kw_vmm s.1)) /\
  (forall op s' r, tame_op op -> run_op op s = (s', r) -> r <> Err Panicked).
Proof.
  intros (F & B & HB & Hs)%reachable_lively. split.
  - intros id d Hd. apply elem_of_union. apply (wo_sound _ _ _ _ (st_world _ _ _ _ _ Hs)). rewrite difference_empty_L.
    apply elem_of_machs. exists id, (kv_backend d). by rewrite <-(st_backends _ _ _ _ _ Hs), lookup_fmap, Hd.
  - intros op s' r Ht Hr. assert (lively s) as HL by by exists F, B. eapply wp_elim in Hr; [|by apply (op_lively op Ht)].
    destruct r as [|e]; [done|]. destruct Hr as [He _]. congruence.
Qed.

End watched.
