(* ===== verification/KvmLogs.v ===== *)
(** * The dirty logs of the KVM supervisor's VMs

    What the supervisor relies on when it asks KVM or Cloud Hypervisor which
    pages a guest wrote: stores are logged once that was asked for, a log is
    handed out whole, reading it empties it, and only the requests of a machine
    touch its log.  Then what each request of linux.rs does to the logs. *)

From S2P Require Import Prelude Host VmmTypes Ram RamSpec KvmVmm KvmSupervisor KvmRuns.

(** What can be seen of a VMM's logs: the pages a machine has logged since its
    log was last read, the machines whose guests' stores are logged (from their
    boot on, for one that is not booted), and the number of pages of the memory
    a machine was given. *)
Class VmmLogs (H : Type) := {
  logged : Machine -> H -> gset nat;
  tracked : H -> gset Machine;
  memory_pages : Machine -> H -> nat
}.

(** No machine is forgotten, and those outside [X] have the logs and the memory
    they had, and are tracked if they were. *)
Definition calm `{!VmmRuns H} `{!VmmLogs H} (X : gset Machine) (h h' : H) : Prop :=
  machines h ⊆ machines h' /\
  forall m, m ∈ machines h -> m ∉ X ->
    logged m h' = logged m h /\ memory_pages m h' = memory_pages m h /\ (m ∈ tracked h -> m ∈ tracked h').

(** A log that was asked for and not handed out may be gone, in part (the
    memory has several regions, read one after another) or as a whole. *)
Definition shrunk `{!VmmLogs H} (m : Machine) (h h' : H) : Prop := logged m h' ⊆ logged m h.

(** A request for the log of a machine: it does not end the tracking. *)
Definition reading `{!VmmRuns H} `{!VmmLogs H} (m : Machine) (h h' : H) : Prop :=
  calm {[m]} h h' /\ (m ∈ tracked h -> m ∈ tracked h').

(** A tracked machine with what is left of its log. *)
Definition log_left `{!VmmLogs H} (m : Machine) (h h' : H) : Prop := m ∈ tracked h' /\ shrunk m h h'.

(** A machine tracked from now on. *)
Definition starts_afresh `{!VmmLogs H} (m : Machine) (h : H) : Prop := m ∈ tracked h /\ logged m h = ∅.

Section calm.
Context {H : Type} `{!VmmRuns H} `{!VmmLogs H}.

#[export] Instance calm_preorder X : PreOrder (calm (H := H) X).
Proof.
  split; [by intros h|]. intros h1 h2 h3 [M1 L1] [M2 L2]. split; [set_solver|]. intros m Hm HX.
  destruct (L1 m Hm HX) as (A1 & B1 & C1), (L2 m (M1 m Hm) HX) as (A2 & B2 & C2). split_and!; [congruence|congruence|auto].
Qed.

Lemma calm_mono X Y (h h' : H) : X ⊆ Y -> calm X h h' -> calm Y h h'.
Proof. intros HX [HM HL]. split; [done|]. intros m Hm HY. apply HL; set_solver. Qed.

Lemma calm_logged X m (h h' : H) : calm X h h' -> m ∈ machines h -> m ∉ X -> logged m h' = logged m h.
Proof. intros C Hm HX. by apply C. Qed.

Lemma calm_tracked X m (h h' : H) : calm X h h' -> m ∈ machines h -> m ∉ X -> m ∈ tracked h -> m ∈ tracked h'.
Proof. intros C Hm HX. by apply C. Qed.

Lemma calm_afresh X m (h h' : H) : calm X h h' -> m ∈ machines h -> m ∉ X -> starts_afresh m h -> starts_afresh m h'.
Proof. intros C Hm HX [Ht Hl]. split; [by eapply calm_tracked|]. by rewrite (calm_logged _ _ _ _ C Hm HX). Qed.

Lemma keeps_calm {E A} X (m : M H E A) : keeps (calm ∅) m -> keeps (calm X) m.
Proof. intros Hm h. eapply calm_mono; [|apply Hm]. set_solver. Qed.

Lemma calm_after X (h h' h'' : H) : calm ∅ h h' -> calm X h' h'' -> calm X h h''.
Proof. intros C C'. etrans; [|exact C']. eapply calm_mono; [|exact C]. set_solver. Qed.

Lemma reading_afresh m (h h' : H) : reading m h h' -> m ∈ tracked h -> logged m h' = ∅ -> starts_afresh m h'.
Proof. intros [_ T] Ht Hl. split; [by apply T|done]. Qed.

Lemma reading_left m (h h' : H) : reading m h h' -> m ∈ tracked h -> shrunk m h h' -> log_left m h h'.
Proof. intros [_ T] Ht Hl. split; [by apply T|done]. Qed.

Lemma calm_left X m (h h' : H) : calm X h h' -> m ∈ machines h -> m ∉ X -> m ∈ tracked h -> log_left m h h'.
Proof. intros C Hm HX Ht. split; [by eapply calm_tracked|]. unfold shrunk. by rewrite (calm_logged _ _ _ _ C Hm HX). Qed.

Lemma afresh_left m (h h' : H) : starts_afresh m h' -> log_left m h h'.
Proof. intros [Ht Hl]. split; [done|]. unfold shrunk. rewrite Hl. set_solver. Qed.
End calm.

(** What KVM and the embedded VMM do to the logs.  Booting a machine may fill
    its log with the pages the loader writes; it does not empty it. *)
Class VmmLogLaws (H Opts Snap Ranges : Type) `{!Vmm H Opts Snap Ranges} `{!VmmRuns H} `{!VmmLogs H} := {
  log_hv_new : keeps (calm ∅) hv_new;
  log_eventfd_new : keeps (calm ∅) eventfd_new;
  log_eventfd_clone : keeps (calm ∅) eventfd_clone;
  log_event_clone w : keeps (calm ∅) (api_event_clone w);
  log_pause_raw vm : keeps (calm ∅) (vm_pause vm);
  log_resume_raw vm : keeps (calm ∅) (vm_resume vm);
  log_pause_cloud w : keeps (calm ∅) (api_pause w);
  log_resume_cloud w : keeps (calm ∅) (api_resume w);
  log_create_region vm slot gpa len : keeps (calm {[RawMachine vm]}) (vm_create_user_memory_region vm slot gpa len);
  log_remove_region vm slot gpa len : keeps (calm {[RawMachine vm]}) (vm_remove_user_memory_region vm slot gpa len);
  log_create w config : keeps (calm {[Worker w]}) (api_create w config);
  log_restore w capture len : keeps (calm {[Worker w]}) (api_restore_fork_state w capture len);
  log_shutdown w : keeps (calm {[Worker w]}) (api_shutdown w);
  log_join w h : calm {[Worker w]} h (join_worker w h).1;
  log_external_memory w len h : wp (api_set_external_memory w len)
    (fun _ h' => calm {[Worker w]} h h' /\ memory_pages (Worker w) h' = N.to_nat (len / PAGE_SIZE))
    (fun _ h' => calm {[Worker w]} h h') h;
  log_initial_tracking w h : wp (api_enable_initial_fork_tracking w)
    (fun _ h' => calm {[Worker w]} h h' /\ Worker w ∈ tracked h' /\ memory_pages (Worker w) h' = memory_pages (Worker w) h)
    (fun _ h' => calm {[Worker w]} h h') h;
  log_boot w h : wp (api_boot w)
    (fun _ h' => calm {[Worker w]} h h' /\ (Worker w ∈ tracked h -> Worker w ∈ tracked h') /\
       forall i, i ∈ logged (Worker w) h' -> (i < memory_pages (Worker w) h)%nat)
    (fun _ h' => calm {[Worker w]} h h') h;
  log_start_log vm h : wp (vm_start_dirty_log vm)
    (fun _ h' => calm {[RawMachine vm]} h h' /\ starts_afresh (RawMachine vm) h')
    (fun _ h' => calm {[RawMachine vm]} h h') h;
  log_begin w h : wp (api_begin_fork_tracking w)
    (fun _ h' => calm {[Worker w]} h h' /\ starts_afresh (Worker w) h') (fun _ h' => calm {[Worker w]} h h') h;
  log_create_vm h : wp hv_create_vm
    (fun vm h' => calm ∅ h h' /\ (RawMachine vm ∉ machines h) /\ RawMachine vm ∈ machines h') (fun _ h' => calm ∅ h h') h;
  log_start_thread h : wp start_vmm_thread
    (fun w h' => calm ∅ h h' /\ (Worker w ∉ machines h) /\ Worker w ∈ machines h') (fun _ h' => calm ∅ h h') h;
  log_get vm slot gpa len h : wp (vm_get_dirty_log vm slot gpa len)
    (fun bitmap h' => reading (RawMachine vm) h h' /\ logged (RawMachine vm) h' = ∅ /\
       forall n, len = N.of_nat n * PAGE_SIZE -> (forall i, i ∈ logged (RawMachine vm) h -> i < n)%nat ->
         reports bitmap n (logged (RawMachine vm) h))
    (fun _ h' => reading (RawMachine vm) h h' /\ shrunk (RawMachine vm) h h') h;
  log_capture w h : wp (api_capture_fork_state w)
    (fun c h' => reading (Worker w) h h' /\ logged (Worker w) h' = ∅ /\ captures (cap_dirty_ram_pages c) (logged (Worker w) h))
    (fun _ h' => reading (Worker w) h h' /\ shrunk (Worker w) h h') h;
  log_take w h : wp (api_take_dirty_ram_pages w)
    (fun l h' => reading (Worker w) h h' /\ logged (Worker w) h' = ∅ /\ captures l (logged (Worker w) h))
    (fun _ h' => reading (Worker w) h h' /\ shrunk (Worker w) h h') h
}.

(** ** Requests *)

Section requests.
Context {H Opts Snap Ranges : Type} `{!Vmm H Opts Snap Ranges} `{!VmmRuns H} `{!VmmLogs H} `{!VmmLogLaws H Opts Snap Ranges}.

Implicit Types (X : gset Machine) (h : H).

Create HintDb vmm_logs.
#[local] Hint Resolve log_hv_new log_eventfd_new log_eventfd_clone log_event_clone log_pause_raw log_resume_raw log_pause_cloud
  log_resume_cloud log_create_region log_remove_region log_create log_restore
  log_shutdown : vmm_logs.

Ltac calm_step :=
  lazymatch goal with
  | |- keeps _ (ChVm.backend _ _) => apply keeps_with_err
  | |- keeps _ (ChVm.send _ _ _) => unfold ChVm.send
  | |- keeps _ (with_err _ _) => apply keeps_with_err
  | |- _ => first [keeps_step | solve [auto with vmm_logs] | solve [apply keeps_calm; auto with vmm_logs]]
  end.
Ltac calm_steps := repeat (calm_step; cbv beta zeta).

Lemma calm_pause c : keeps (calm ∅) (ChVm.pause c).
Proof. unfold ChVm.pause. calm_steps. Qed.
Lemma calm_resume c : keeps (calm ∅) (ChVm.resume c).
Proof. unfold ChVm.resume. calm_steps. Qed.
Lemma calm_create c config : keeps (calm {[Worker (ch_api c)]}) (ChVm.create c config).
Proof. unfold ChVm.create. calm_steps. Qed.
Lemma calm_restore c capture ram : keeps (calm {[Worker (ch_api c)]}) (ChVm.restore_fork_state c capture ram).
Proof. unfold ChVm.restore_fork_state. calm_steps. Qed.
Lemma calm_unregister ram vm slot gpa : keeps (calm {[RawMachine vm]}) (ChVm.unregister ram vm slot gpa).
Proof. unfold ChVm.unregister. calm_steps. Qed.

Lemma calm_drop c : ch_worker c = Some (ch_api c) -> keeps (calm {[Worker (ch_api c)]}) (ChVm.drop_cloud c).
Proof.
  intros Hc. unfold ChVm.drop_cloud, ChVm.shutdown_inner. rewrite Hc. calm_steps.
  intros h. pose proof (log_join (ch_api c) h) as Hj. by destruct (join_worker _ h).
Qed.

Lemma wp_register ram vm slot gpa h : wp (ChVm.register ram vm slot gpa)
  (fun _ h' => calm {[RawMachine vm]} h h' /\ starts_afresh (RawMachine vm) h')
  (fun _ h' => calm {[RawMachine vm]} h h') h.
Proof.
  unfold ChVm.register, ChVm.backend. wp_steps. eapply wp_keeps; [apply log_create_region| |done]. intros ? h1 C1. wp_steps.
  eapply wp_mono; [apply log_start_log| |].
  - intros ? h2 [C2 Hl]. wp_steps. split; [by etrans|done].
  - intros e h2 C2. wp_steps. assert (calm {[RawMachine vm]} h h2) as C by (by etrans).
    eapply wp_keeps; [apply log_remove_region| |]; intros ? h3 C3; wp_steps; by etrans.
Qed.

(** [send] of a request about a worker, and what it leaves. *)
Lemma wp_send_calm {A} c (m : M H string A) op (Q : A -> H -> Prop) (P : H -> Prop) h :
  (forall h', calm ∅ h h' -> P h') -> (forall h', calm ∅ h h' -> wp m Q (fun _ => P) h') ->
  wp (ChVm.send c m op) Q (fun _ => P) h.
Proof.
  intros HP Hm. unfold ChVm.send, ChVm.backend. wp_steps. eapply wp_keeps; [apply log_event_clone| |].
  - intros _ h' Hs. wp_steps. by apply Hm.
  - intros _ h' Hs. by apply HP.
Qed.

Lemma wp_begin c h : wp (ChVm.begin_fork_tracking c)
  (fun _ h' => calm {[Worker (ch_api c)]} h h' /\ starts_afresh (Worker (ch_api c)) h')
  (fun _ h' => calm {[Worker (ch_api c)]} h h') h.
Proof.
  apply wp_send_calm; [intros h1; apply calm_mono; set_solver|]. intros h1 C1.
  eapply wp_mono; [apply log_begin| |]; [intros ? h2 [C2 Hl]; split; [by eapply calm_after|done]|intros ? h2 C2; by eapply calm_after].
Qed.

(** A request of a worker that leaves the others alone. *)
Lemma wp_send_own {A} c (m : M H string A) op (Q : A -> H -> Prop) h0 h : calm {[Worker (ch_api c)]} h0 h ->
  (forall h', calm ∅ h h' -> wp m (fun a h'' => calm {[Worker (ch_api c)]} h' h'' /\ (calm {[Worker (ch_api c)]} h0 h'' -> Q a h''))
     (fun _ h'' => calm {[Worker (ch_api c)]} h' h'') h') ->
  wp (ChVm.send c m op) Q (fun _ h' => calm {[Worker (ch_api c)]} h0 h') h.
Proof.
  intros C0 Hm. assert (forall h' h'', calm ∅ h h' -> calm {[Worker (ch_api c)]} h' h'' -> calm {[Worker (ch_api c)]} h0 h'') as Ht.
  { intros h' h'' C C'. etrans; [exact C0|by eapply calm_after]. }
  apply wp_send_calm; [intros h' C; by eapply Ht|]. intros h' C. eapply wp_mono; [by apply Hm| |].
  - intros a h'' [C' HQ]. apply HQ. by eapply Ht.
  - intros e h'' C'. by eapply Ht.
Qed.

(** A worker that was booted is tracked, and has logged pages of its memory. *)
Lemma wp_boot_logs c ram h : Worker (ch_api c) ∈ machines h -> wp (ChVm.boot_with_ram c ram)
  (fun _ h' => calm {[Worker (ch_api c)]} h h' /\ Worker (ch_api c) ∈ tracked h' /\
     forall i, i ∈ logged (Worker (ch_api c)) h' -> (i < N.to_nat (ram_len ram / PAGE_SIZE))%nat)
  (fun _ h' => calm {[Worker (ch_api c)]} h h') h.
Proof.
  intros Hin. set (m := Worker (ch_api c)). unfold ChVm.boot_with_ram. wp_steps. apply wp_send_own; [done|]. intros h1 C1.
  eapply wp_mono; [apply log_external_memory| |done]. intros ? h2 [C2 E2]. split; [done|]. intros C. wp_steps.
  assert (m ∈ machines h2) as H2 by by apply C. apply wp_send_own; [done|]. intros h3 C3.
  eapply wp_mono; [apply log_initial_tracking| |done]. intros ? h4 (C4 & T4 & E4). split; [done|]. intros C'.
  assert (memory_pages m h4 = N.to_nat (ram_len ram / PAGE_SIZE)) as E.
  { unfold m. rewrite E4, <-E2. apply C3; [done|set_solver]. }
  assert (m ∈ machines h4) as H4 by by apply C'. apply wp_send_own; [done|]. intros h5 C5.
  eapply wp_mono; [apply log_boot| |done]. intros ? h6 (C6 & T6 & L6). split; [done|]. intros C''. split_and!; [done| |].
  - apply T6. eapply calm_tracked; [exact C5|done|set_solver|done].
  - intros i Hi. apply L6 in Hi. assert (memory_pages m h5 = memory_pages m h4) as E5 by (apply C5; [done|set_solver]).
    fold m in Hi. by rewrite E5, E in Hi.
Qed.

Lemma wp_start_logs h : wp ChVm.start
  (fun c h' => calm ∅ h h' /\ ch_worker c = Some (ch_api c) /\ (Worker (ch_api c) ∉ machines h) /\ Worker (ch_api c) ∈ machines h')
  (fun _ h' => calm ∅ h h') h.
Proof.
  unfold ChVm.start. do 5 (rewrite wp_bind; eapply (wp_keeps (calm ∅)); [calm_steps| |by intros _ ? C; repeat (etrans; [eassumption|])];
    intros _ ? ?).
  wp_steps. unfold ChVm.backend. wp_steps. eapply wp_mono; [apply log_start_thread| |].
  - intros w h6 (C & Hn & Hi). wp_steps. cbn. split_and!; [by repeat (etrans; [eassumption|])|done| |done].
    unfold calm in *. set_solver.
  - intros ? h6 C. by repeat (etrans; [eassumption|]).
Qed.

(** A log handed out by a worker, or not. *)
Definition handed {A} (m : Machine) (pages_of : A -> list nat) (r : result VmmError A) h h' : Prop :=
  reading m h h' /\
  match r with
  | Ok a => logged m h' = ∅ /\ captures (pages_of a) (logged m h)
  | Err _ => shrunk m h h'
  end.

Lemma reading_after m h h' h'' : calm ∅ h h' -> m ∈ machines h -> reading m h' h'' -> reading m h h''.
Proof. intros C Hm [C' T]. split; [by eapply calm_after|]. intros Ht. apply T. eapply calm_tracked; [exact C|done|set_solver|done]. Qed.

Lemma wp_handed {A} c (m : M H string A) op (pages_of : A -> list nat) h :
  Worker (ch_api c) ∈ machines h ->
  (forall h, wp m (fun a h' => reading (Worker (ch_api c)) h h' /\ logged (Worker (ch_api c)) h' = ∅ /\ captures (pages_of a) (logged (Worker (ch_api c)) h))
     (fun _ h' => reading (Worker (ch_api c)) h h' /\ shrunk (Worker (ch_api c)) h h') h) ->
  wp (ChVm.send c m op) (fun a h' => handed (Worker (ch_api c)) pages_of (Ok a) h h')
    (fun e h' => handed (Worker (ch_api c)) pages_of (Err e) h h') h.
Proof.
  intros Hm Hlog. set (w := Worker (ch_api c)) in *. apply (wp_send_calm _ _ _ _ (fun h' => reading w h h' /\ shrunk w h h')).
  - intros h1 C1. split; [apply (reading_after w h h1); [done|done|by split]|]. unfold shrunk. by rewrite (calm_logged _ _ _ _ C1 Hm) by set_solver.
  - intros h1 C1. pose proof (calm_logged _ w _ _ C1 Hm ltac:(set_solver)) as Hsame. eapply wp_mono; [apply Hlog| |].
    + intros a h2 (C2 & He & Hc). split; [by eapply reading_after|]. by rewrite <-Hsame.
    + intros e h2 (C2 & Hk). split; [by eapply reading_after|]. unfold shrunk in *. by rewrite <-Hsame.
Qed.

Lemma wp_capture c h : Worker (ch_api c) ∈ machines h ->
  wp (ChVm.capture_fork_state c) (fun a h' => handed (Worker (ch_api c)) cap_dirty_ram_pages (Ok a) h h')
    (fun e h' => handed (A := VmForkStateCapture Opts Snap Ranges) (Worker (ch_api c)) cap_dirty_ram_pages (Err e) h h') h.
Proof. intros Hm. apply wp_handed; [done|]. intros h1. apply log_capture. Qed.

Lemma wp_take c h : Worker (ch_api c) ∈ machines h ->
  wp (ChVm.take_dirty_ram_pages c) (fun l h' => handed (Worker (ch_api c)) id (Ok l) h h')
    (fun e h' => handed (Worker (ch_api c)) id (Err e) h h') h.
Proof. intros Hm. apply wp_handed; [done|]. intros h1. apply log_take. Qed.
End requests.
