(* ===== verification/KvmLink.v ===== *)
(** * The KVM supervisor runs the system of guest RAM

    Every call of the supervisor, and every store of a guest, is a run of the
    transition system of [RamSpec] and [RamRecovery]: the VMs of the forest are
    its guests, with the pages KVM or Cloud Hypervisor logs for each as their
    logs.  [linked] is the relation between the two; this file shows that
    creating, accessing, forking and removing VMs keeps it, whatever fails. *)

From S2P Require Import Prelude Generations Host CacheTypes SharedCache Storage RedoxBranch VmmTypes VirtioFs Lineages Ram RamInv RamSpec RamSafety RamDurable RamCopy RamRecovery KvmVmm KvmSupervisor KvmRecovery KvmRuns KvmForest KvmOps KvmLogs.
Import Kvm KvmDur.

(** What the RAM system sees of a VM. *)
Definition part (d : KvmVm) : VmBackend * KvmGuestRam := (kv_backend d, kv_ram d).

(** The preparation VM [id] has, if the one with a fork in progress is in [pr]. *)
Definition prep_for (pr : option (N * RamForkPreparation)) (id : N) : option RamForkPreparation :=
  match pr with Some (k, p) => if decide (id = k) then Some p else None | None => None end.

(** How an operation may fail: a panic ends the process. *)
Definition stops {A} (I : A -> Prop) (e : Stop SupervisorError) (a : A) : Prop :=
  match e with Failed _ => I a | Panicked => True end.

Lemma stops_mono {A} (I J : A -> Prop) e a : (I a -> J a) -> stops I e a -> stops J e a.
Proof. by destruct e; cbn; auto. Qed.

Section link.
Context {W S Id St H Opts Snap Ranges : Type} `{Countable Id} `{!BranchStore W S Id St} `{!Vmm H Opts Snap Ranges}.
Context `{!VmmRuns H} `{!VmmLogs H} `{!VmmLogLaws H Opts Snap Ranges}.

Abbreviation world := (KvmWorld W S Id H).
Abbreviation KW := (M (KvmWorld W S Id H) (Stop SupervisorError)).
Abbreviation K := (M (KvmWorld W S Id H * KvmSupervisor) (Stop SupervisorError)).

Implicit Types (w : world) (s : world * KvmSupervisor) (d : KvmVm) (gu : Guest) (G : gmap N Guest) (X Dm : gset N)
  (Y : gset Machine) (h : H) (pr : option (N * RamForkPreparation)).

(** ** What leaves guest RAM alone *)

Record mild_world Y w w' : Prop := {
  mw_ram : kw_ram w' = kw_ram w;
  mw_dir : kw_dir w' = kw_dir w;
  mw_vmm : calm Y (kw_vmm w) (kw_vmm w')
}.

Record mild Y s s' : Prop := {
  mi_world : mild_world Y s.1 s'.1;
  mi_vms : part <$> ks_vms s'.2 = part <$> ks_vms s.2;
  mi_next : ks_next_vm s'.2 = ks_next_vm s.2;
  mi_storage : ks_storage s'.2 = ks_storage s.2
}.

#[export] Instance mild_world_preorder Y : PreOrder (mild_world Y).
Proof.
  split; [by intros w; split|]. intros w w' w'' [R1 D1 V1] [R2 D2 V2]. split; [congruence|congruence|by etrans].
Qed.
#[export] Instance mild_preorder Y : PreOrder (mild Y).
Proof.
  split; [by intros s; split|]. intros s s' s'' [A1 B1 C1 D1] [A2 B2 C2 D2]. split; [by etrans|congruence..].
Qed.

Lemma mild_world_mono Y Y' w w' : Y ⊆ Y' -> mild_world Y w w' -> mild_world Y' w w'.
Proof. intros HY [? ? ?]. split; [done|done|by eapply calm_mono]. Qed.
Lemma mild_mono Y Y' s s' : Y ⊆ Y' -> mild Y s s' -> mild Y' s s'.
Proof. intros HY [? ? ? ?]. split; [by eapply mild_world_mono|done..]. Qed.
Lemma keeps_mild {E A} Y (m : M (world * KvmSupervisor) E A) : keeps (mild ∅) m -> keeps (mild Y) m.
Proof. intros Hm s. eapply mild_mono; [|apply Hm]. set_solver. Qed.
Lemma keeps_mild_world {E A} Y (m : M world E A) : keeps (mild_world ∅) m -> keeps (mild_world Y) m.
Proof. intros Hm s. eapply mild_world_mono; [|apply Hm]. set_solver. Qed.

Lemma keeps_catch_rel {St' E A} (P : relation St') (m : M St' (Stop E) A) : keeps P m -> keeps P (catch m).
Proof. intros Hm s. specialize (Hm s). unfold catch. by destruct (m s) as [s' [a|[e|]]]. Qed.

Lemma keeps_or_drop {St' E A} (P : relation St') `{!PreOrder P} (c : M St' (Stop E) unit) (m : M St' (Stop E) A) :
  keeps P m -> keeps P c -> keeps P (or_drop c m).
Proof. intros Hm Hc. unfold or_drop. apply keeps_bind; [done|by apply keeps_catch_rel|]. intros [a|e]; keeps_steps. done. Qed.

Lemma mild_vmm {A} Y (m : M H VmmError A) : keeps (calm Y) m -> keeps (mild_world Y) (with_vmm m).
Proof. intros Hm. unfold with_vmm. eapply (keeps_zoom (calm Y)); [|by apply keeps_with_err]. intros w h Hh. by split. Qed.
Lemma mild_in_vmm {A} Y op (m : M H string A) : keeps (calm Y) m -> keeps (mild_world Y) (in_vmm op m).
Proof. intros Hm. unfold in_vmm. eapply (keeps_zoom (calm Y)); [|by apply keeps_with_err]. intros w h Hh. by split. Qed.
Lemma mild_fs {A} (m : M (Lineages W S Id) (Stop VmmError) A) : keeps (mild_world ∅) (with_fs m).
Proof. intros w. unfold with_fs, zoom. destruct (with_err _ m _). by split. Qed.
Lemma mild_on_world {A} Y (m : KW A) : keeps (mild_world Y) m -> keeps (mild Y) (on_world m : K A).
Proof. intros Hm. eapply (keeps_zoom (mild_world Y)); [|exact Hm]. intros s w Hw. by split. Qed.

Lemma put_part (vms : gmap N KvmVm) id d fs : vms !! id = Some d -> part <$> <[id := mkKvmVm (kv_backend d) (kv_ram d) fs]> vms = part <$> vms.
Proof. intros Hd. rewrite fmap_insert. apply insert_id. by rewrite lookup_fmap, Hd. Qed.

Lemma mild_on_fs {A} id (m : M (Lineage W S Id * VirtioFs) VmmError A) : keeps (mild ∅) (on_fs id m : K A).
Proof.
  intros s. unfold on_fs. destruct (ks_vms s.2 !! id) as [d|] eqn:Hd; [|reflexivity].
  unfold with_fs, zoom. destruct (with_err _ _ _) as [l [[fs r]|e]]; [|by split]. split; [by split| |done|done].
  cbn. by apply put_part.
Qed.

Lemma mild_instant : keeps (mild ∅) (instant : K N).
Proof. unfold instant. keeps_steps. Qed.

Lemma mild_drop_filesystem v : keeps (mild_world ∅) (drop_filesystem v : KW unit).
Proof. apply mild_fs. Qed.

Lemma mild_create_filesystem : keeps (mild ∅) (create_filesystem : K VirtioFs).
Proof.
  unfold create_filesystem. keeps_steps; [|by apply mild_on_world, mild_fs..].
  apply keeps_modify. intros s'. by split.
Qed.

Lemma mild_ignore {A} Y (m : KW A) : keeps (mild_world Y) m -> keeps (mild_world Y) (ignore m).
Proof. intros Hm. unfold ignore. keeps_steps. by apply keeps_catch_rel. Qed.

Lemma mild_pause b : keeps (mild_world ∅) (pause_backend b : KW unit).
Proof. destruct b; [apply mild_in_vmm, log_pause_raw|apply mild_vmm, calm_pause]. Qed.
Lemma mild_resume b : keeps (mild_world ∅) (resume_backend b : KW unit).
Proof. destruct b; [apply mild_in_vmm, log_resume_raw|apply mild_vmm, calm_resume]. Qed.

Lemma mild_unregister ram vm : keeps (mild_world {[RawMachine vm]}) (ignore (with_vmm (ChVm.unregister ram vm RAM_SLOT RAM_GPA)) : KW unit).
Proof. apply mild_ignore, mild_vmm, calm_unregister. Qed.

Lemma mild_drop_backend b : backend_wf b -> keeps (mild_world {[machine_of b]}) (drop_backend b : KW unit).
Proof. intros Hb. destruct b; cbn; [keeps_steps|]. by apply mild_vmm, calm_drop. Qed.

Lemma mild_drop_vm d : backend_wf (kv_backend d) -> keeps (mild_world {[machine_of (kv_backend d)]}) (drop_vm d : KW unit).
Proof.
  intros Hb. unfold drop_vm. pose proof (mild_drop_backend _ Hb) as Hd. destruct (kv_backend d) eqn:Eb; keeps_steps;
    try done; try apply mild_unregister; apply keeps_mild_world, mild_drop_filesystem.
Qed.

(** ** The relation *)

(** A guest and the VM it stands for, whose stores are logged; [whole]: no page
    was lost. *)
Record tied (prep : option RamForkPreparation) (whole : Prop) h d gu : Prop := {
  ti_ram : gu_ram gu = kv_ram d;
  ti_log : gu_log gu = logged (machine_of (kv_backend d)) h;
  ti_tracked : machine_of (kv_backend d) ∈ tracked h;
  ti_prep : gu_prep gu = prep;
  ti_whole : whole -> gu_lost gu = ∅
}.

Definition tied_at prep whole h (o : option KvmVm) (g : option Guest) : Prop :=
  match o, g with
  | Some d, Some gu => tied prep whole h d gu
  | None, None => True
  | _, _ => False
  end.

(** The forest of [s] is the guests of [G], but for the VMs in [X], which are
    in the middle of an operation; the VMs in [Dm] may have lost pages; the
    directory of the forest is [dst]. *)
Record linked (storage : string) X pr Dm (dst : Storage) G s : Prop := {
  lk_vms id : id ∉ X -> tied_at (prep_for pr id) (id ∉ Dm) (kw_vmm s.1) (ks_vms s.2 !! id) (G !! id);
  lk_machines id d : ks_vms s.2 !! id = Some d -> machine_of (kv_backend d) ∈ machines (kw_vmm s.1);
  lk_forest : forest_ok (kv_backend <$> ks_vms s.2);
  lk_below id : is_Some (ks_vms s.2 !! id) -> id < ks_next_vm s.2;
  lk_storage : ks_storage s.2 = Some storage;
  lk_dir : kw_dir s.1 = dst
}.

(** The VMs whose log is read on their own have machines outside [Y]. *)
Definition spares Y X s : Prop := forall id d, ks_vms s.2 !! id = Some d -> id ∉ X -> machine_of (kv_backend d) ∉ Y.

Lemma part_lookup s s' id : part <$> ks_vms s'.2 = part <$> ks_vms s.2 ->
  match ks_vms s'.2 !! id, ks_vms s.2 !! id with
  | Some d', Some d => kv_backend d' = kv_backend d /\ kv_ram d' = kv_ram d
  | None, None => True
  | _, _ => False
  end.
Proof.
  intros E. assert ((part <$> ks_vms s'.2) !! id = (part <$> ks_vms s.2) !! id) as Ei by by rewrite E. rewrite !lookup_fmap in Ei.
  destruct (ks_vms s'.2 !! id) as [d'|], (ks_vms s.2 !! id) as [d|]; cbn in Ei; try done. by injection Ei.
Qed.

Lemma part_backends s s' : part <$> ks_vms s'.2 = part <$> ks_vms s.2 -> kv_backend <$> ks_vms s'.2 = kv_backend <$> ks_vms s.2.
Proof.
  intros E. apply map_eq. intros id. rewrite !lookup_fmap. pose proof (part_lookup s s' id E) as Hp.
  destruct (ks_vms s'.2 !! id), (ks_vms s.2 !! id); try done. cbn. by destruct Hp as [-> _].
Qed.

Lemma linked_mild storage X pr Dm dst G Y s s' :
  linked storage X pr Dm dst G s -> mild Y s s' -> spares Y X s -> linked storage X pr Dm dst G s'.
Proof.
  intros [Hv Hm Hf Hb Hs Hd] [[_ Ed [HM HL]] Ep En Est] HY. split; [| | | |congruence|congruence].
  - intros id HX. specialize (Hv id HX). pose proof (part_lookup s s' id Ep) as Hp.
    destruct (ks_vms s'.2 !! id) as [d'|], (ks_vms s.2 !! id) as [d|] eqn:Hid; try done. cbn in *.
    destruct (G !! id) as [gu|]; [|done]. destruct Hp as [Eb Er], Hv as [T1 T2 T3 T4 T5].
    destruct (HL (machine_of (kv_backend d))) as (HL1 & _ & HL3); [by eapply Hm|by eapply HY|].
    split; [congruence|by rewrite Eb, T2|by rewrite Eb; apply HL3|done|done].
  - intros id d' Hd'. pose proof (part_lookup s s' id Ep) as Hp. rewrite Hd' in Hp.
    destruct (ks_vms s.2 !! id) as [d|] eqn:Hid; [|done]. destruct Hp as [-> _]. apply HM. by eapply Hm.
  - by rewrite (part_backends _ _ Ep).
  - intros id [d' Hd']. rewrite En. apply Hb. pose proof (part_lookup s s' id Ep) as Hp. rewrite Hd' in Hp.
    destruct (ks_vms s.2 !! id) as [d|]; [by eexists|done].
Qed.

Lemma spares_none X s : spares ∅ X s.
Proof. intros id d _ _. set_solver. Qed.

Lemma spares_new storage X X' pr Dm dst G s m : linked storage X pr Dm dst G s -> m ∉ machines (kw_vmm s.1) -> spares {[m]} X' s.
Proof. intros L Hm id d Hd _ <-%elem_of_singleton. by eapply Hm, lk_machines. Qed.

(** The machine of a VM in the middle of an operation. *)
Lemma spares_own storage X pr Dm dst G s id d : linked storage X pr Dm dst G s -> ks_vms s.2 !! id = Some d -> id ∈ X ->
  spares {[machine_of (kv_backend d)]} X s.
Proof.
  intros L Hd HX id' d' Hd' HX' E%elem_of_singleton. apply HX'.
  assert (id' = id) as ->; [|done]. eapply (fo_apart _ (lk_forest _ _ _ _ _ _ _ L)); [..|exact E]; by rewrite lookup_fmap, ?Hd, ?Hd'.
Qed.

Lemma linked_more storage X X' pr Dm Dm' dst G s :
  linked storage X pr Dm dst G s -> X ⊆ X' -> Dm ⊆ Dm' -> linked storage X' pr Dm' dst G s.
Proof.
  intros [Hv Hm Hf Hb Hs Hd] HX HD. split; [|done..]. intros id Hid. assert (id ∉ X) as Hid' by set_solver. specialize (Hv id Hid').
  destruct (ks_vms s.2 !! id), (G !! id); try done. destruct Hv as [? ? ? ? Hw]. split; [done..|]. intros Hn. apply Hw. set_solver.
Qed.

(** The guests of [X] change. *)
Lemma linked_guests storage X pr Dm dst G G' s :
  linked storage X pr Dm dst G s -> (forall id, id ∉ X -> G' !! id = G !! id) -> linked storage X pr Dm dst G' s.
Proof. intros [Hv Hm Hf Hb Hs Hd] HG. split; [|done..]. intros id Hid. rewrite HG by done. by apply Hv. Qed.

Lemma linked_prep storage X pr pr' Dm dst G s :
  linked storage X pr Dm dst G s -> (forall id, id ∉ X -> prep_for pr' id = prep_for pr id) -> linked storage X pr' Dm dst G s.
Proof. intros [Hv Hm Hf Hb Hs Hd] Hp. split; [|done..]. intros id Hid. rewrite Hp by done. by apply Hv. Qed.

(** The operation is over for [id]. *)
Lemma linked_close storage X X' pr Dm dst G s :
  linked storage X' pr Dm dst G s ->
  (forall id, id ∉ X -> id ∈ X' -> tied_at (prep_for pr id) (id ∉ Dm) (kw_vmm s.1) (ks_vms s.2 !! id) (G !! id)) ->
  linked storage X pr Dm dst G s.
Proof.
  intros [Hv Hm Hf Hb Hs Hd] Hc. split; [|done..]. intros id Hid. destruct (decide (id ∈ X')); [by apply Hc|by apply Hv].
Qed.

(** The RAM of a VM in the middle of an operation changes. *)
Lemma linked_put storage X pr Dm dst G s w id d ram :
  linked storage X pr Dm dst G s -> ks_vms s.2 !! id = Some d -> id ∈ X -> kw_vmm w = kw_vmm s.1 -> kw_dir w = kw_dir s.1 ->
  linked storage X pr Dm dst G (w, set_vms (<[id := mkKvmVm (kv_backend d) ram (kv_filesystem d)]> (ks_vms s.2)) s.2).
Proof.
  intros [Hv Hm Hf Hb Hs Hd] Hid HX Ev Ed. split; cbn [fst snd ks_vms set_vms ks_next_vm ks_storage]; [| | | |done|congruence].
  - intros i Hi. rewrite Ev, lookup_insert_ne by set_solver. by apply Hv.
  - intros i d' [[<- <-]|[_ Hd']]%lookup_insert_Some; rewrite Ev; [by eapply (Hm id d)|by eapply Hm].
  - rewrite fmap_insert, insert_id; [done|]. cbn. by rewrite lookup_fmap, Hid.
  - intros i [<-|[_ Hi]]%lookup_insert_is_Some; [apply Hb; by eexists|by apply Hb].
Qed.

Lemma linked_quiet_but storage X pr Dm dst G s k :
  linked storage X pr Dm dst G s -> X ⊆ {[k]} -> (forall id, id <> k -> prep_for pr id = None) -> quiet_but k G.
Proof.
  intros L HX Hp j gu [Hne Hj]%lookup_delete_Some. pose proof (lk_vms _ _ _ _ _ _ _ L j ltac:(set_solver)) as Ht.
  rewrite Hj in Ht. destruct (ks_vms s.2 !! j); [|done]. rewrite (ti_prep _ _ _ _ _ Ht). by apply Hp.
Qed.

Lemma linked_quiet storage X Dm dst G s :
  linked storage X None Dm dst G s -> (forall id gu, id ∈ X -> G !! id = Some gu -> gu_prep gu = None) -> quiet G.
Proof.
  intros L HX j gu Hj. destruct (decide (j ∈ X)) as [Hx|Hx]; [by eapply HX|].
  pose proof (lk_vms _ _ _ _ _ _ _ L j Hx) as Ht. rewrite Hj in Ht. destruct (ks_vms s.2 !! j); [|done]. by apply Ht.
Qed.

Lemma linked_all_quiet storage Dm dst G s : linked storage ∅ None Dm dst G s -> quiet G.
Proof. intros L. eapply linked_quiet; [exact L|set_solver]. Qed.

(** The RAM of a VM changes. *)
Lemma linked_begin storage X pr Dm dst G s rw id d ram :
  linked storage X pr Dm dst G s -> X ⊆ {[id]} -> ks_vms s.2 !! id = Some d ->
  linked storage {[id]} pr Dm dst G
    (set_kw_ram rw s.1, set_vms (<[id := mkKvmVm (kv_backend d) ram (kv_filesystem d)]> (ks_vms s.2)) s.2).
Proof. intros L HX Hd. apply linked_put; [by eapply linked_more|done|set_solver|done|done]. Qed.

(** A VM that ends its operation as [gu]. *)
Lemma linked_settle storage pr Dm dst G s id d gu :
  linked storage {[id]} pr Dm dst G s -> ks_vms s.2 !! id = Some d ->
  tied (prep_for pr id) (id ∉ Dm) (kw_vmm s.1) d gu -> linked storage ∅ pr Dm dst (<[id := gu]> G) s.
Proof.
  intros L Hd Ht. apply (linked_close storage ∅ {[id]}).
  - eapply linked_guests; [exact L|]. intros i Hi. apply lookup_insert_ne. set_solver.
  - intros i _ ->%elem_of_singleton. by rewrite Hd, lookup_insert_eq.
Qed.

(** ** Guests that run *)

(** Guest [id] stores [bytes]: its machine logs the pages, if it is tracked. *)
Definition guest_store (id off : N) (bytes : list byte) s s' : Prop := exists d rw ram,
  ks_vms s.2 !! id = Some d /\ off + lenN bytes <= ram_len (kv_ram d) /\
  Ram.store off bytes (kw_ram s.1, kv_ram d) = ((rw, ram), Ok tt) /\
  mild {[machine_of (kv_backend d)]}
    (set_kw_ram rw s.1, set_vms (<[id := mkKvmVm (kv_backend d) ram (kv_filesystem d)]> (ks_vms s.2)) s.2) s' /\
  (machine_of (kv_backend d) ∈ tracked (kw_vmm s.1) ->
     machine_of (kv_backend d) ∈ tracked (kw_vmm s'.1) /\
     logged (machine_of (kv_backend d)) (kw_vmm s'.1) =
       logged (machine_of (kv_backend d)) (kw_vmm s.1) ∪ list_to_set (Ram.touched_pages off (lenN bytes))).

(** The guests of [A] store; besides that guests use their file systems. *)
Inductive guest_step (A : N -> Prop) s s' : Prop :=
  | gs_store id off bytes : A id -> guest_store id off bytes s s' -> guest_step A s s'
  | gs_other : mild ∅ s s' -> guest_step A s s'.

(** What guests cannot change: the counters, and which pages a RAM has. *)
Definition tally s : N * N * gmap N (list RamPage) :=
  (next_generation_id (kw_ram s.1), next_page_id (kw_ram s.1), (pages ∘ kv_ram) <$> ks_vms s.2).

Lemma mild_tally Y s s' : mild Y s s' -> tally s' = tally s.
Proof.
  intros [[E1 _ _] E2 _ _]. unfold tally. rewrite E1. f_equal. apply map_eq. intros id. rewrite !lookup_fmap.
  pose proof (part_lookup s s' id E2) as Hp. destruct (ks_vms s'.2 !! id), (ks_vms s.2 !! id); try done. cbn. by destruct Hp as [_ ->].
Qed.

Lemma guest_step_tally A s s' : guest_step A s s' -> tally s' = tally s.
Proof.
  intros [id off bytes _ (d & rw & ram & Hd & _ & Hst & Hm & _)|Hm]; [|by eapply mild_tally].
  rewrite (mild_tally _ _ _ Hm). unfold Ram.store, modify in Hst. injection Hst as <- <-. unfold tally. cbn [fst snd kw_ram set_kw_ram]. f_equal.
  cbn. rewrite fmap_insert, insert_id; [done|]. by rewrite lookup_fmap, Hd.
Qed.

End link.

(** ** Runs of the guests *)

Section runs.
Context `{HSparse : !SparseFiles} `{HLaws : !SparseLaws} (dir : string).

Implicit Types (A : N -> Prop) (hist : RamHistory).

Definition everyone (k : N) : Prop := True.

(** A step in which a guest of [A] acts or is acted upon; any step, when these
    are all guests. *)
Definition acting A hist hist' : Prop :=
  history_step dir hist hist' /\ ((forall k, A k) \/ exists k, A k /\ ram_trans k (hi_sys hist) (hi_sys hist')).

Lemma acting_steps A hist hist' : rtc (acting A) hist hist' -> rtc (history_step dir) hist hist'.
Proof. induction 1 as [|h1 h2 h3 [Hs _] _ IH]; [done|]. by eapply rtc_l. Qed.

Lemma everyone_step hist hist' : history_step dir hist hist' -> rtc (acting everyone) hist hist'.
Proof. intros Hs. apply rtc_once. split; [done|by left]. Qed.

Lemma acting_reach A hist hist' : history_reachable dir hist -> rtc (acting A) hist hist' -> history_reachable dir hist'.
Proof. intros [sched Hr] Hs%acting_steps. exists sched. by etrans. Qed.

(** The other guests keep their state and their memory. *)
Lemma acting_isolated A hist hist' j gj :
  history_reachable dir hist -> rtc (acting A) hist hist' -> ~ A j -> sm_guests (hi_sys hist) !! j = Some gj ->
  sm_guests (hi_sys hist') !! j = Some gj /\ guest_memory (sm_world (hi_sys hist')) gj = guest_memory (sm_world (hi_sys hist)) gj.
Proof.
  intros R Hs HA. induction Hs as [h|h1 h2 h3 [Hs Ht] Hrest IH] in R |- *; intros Hj; [done|].
  destruct Ht as [Hall|(k & HAk & Ht)]; [by destruct HA|]. destruct (history_reachable_ok _ _ R) as [Kn I].
  assert (j <> k) as Hne by by intros ->.
  destruct (trans_isolated Kn k j _ _ gj (ho_sys _ _ _ I) Ht Hne Hj) as [Hj2 Em2].
  destruct (IH (acting_reach everyone _ _ R (everyone_step _ _ Hs)) Hj2) as [Hj3 Em3]. split; [done|congruence].
Qed.
End runs.

(** ** The supervisor and the system of guest RAM *)

Section relation.
Context {W S Id St H Opts Snap Ranges : Type} `{Countable Id} `{!BranchStore W S Id St} `{!Vmm H Opts Snap Ranges}.
Context `{!VmmRuns H} `{!VmmLogs H} `{HSparse : !SparseFiles}.
Context (storage : string) (A : N -> Prop).

Abbreviation world := (KvmWorld W S Id H).

Implicit Types (s : world * KvmSupervisor) (X Dm : gset N) (pr : option (N * RamForkPreparation)) (hist : RamHistory) (dst : Storage).

(** The guests of [hist] are the VMs of [s], in the same world. *)
Record settled X pr Dm dst hist s : Prop := {
  se_linked : linked storage X pr Dm dst (sm_guests (hi_sys hist)) s;
  se_world : sm_world (hi_sys hist) = kw_ram s.1;
  se_reach : history_reachable (generations_dir storage) hist
}.

(** The guests of [A] brought [hist] to a history that is settled. *)
Definition reaches Dm dst hist s : Prop := exists hist',
  rtc (acting (generations_dir storage) A) hist hist' /\ settled ∅ None Dm dst hist' s.

(** A guest made for a VM that is being set up as [j]. *)
Record newcomer (j : N) Dm dst hist (gu : Guest) s : Prop := {
  nc_acts : A j;
  nc_linked : linked storage {[j]} None Dm dst (sm_guests (hi_sys hist)) s;
  nc_world : sm_world (hi_sys hist) = kw_ram s.1;
  nc_reach : history_reachable (generations_dir storage) hist;
  nc_guest : sm_guests (hi_sys hist) !! j = Some gu;
  nc_none : ks_vms s.2 !! j = None;
  nc_next : ks_next_vm s.2 = j;
  nc_quiet : quiet (sm_guests (hi_sys hist))
}.
End relation.

Section simulation.
Context {W S Id St H Opts Snap Ranges : Type} `{Countable Id} `{!BranchStore W S Id St} `{!Vmm H Opts Snap Ranges}.
Context `{!VmmRuns H} `{!VmmLogs H} `{!VmmLogLaws H Opts Snap Ranges} `{HSparse : !SparseFiles} `{HLaws : !SparseLaws}.
Context {storage : string} {A : N -> Prop}.

Abbreviation world := (KvmWorld W S Id H).
Abbreviation KW := (M (KvmWorld W S Id H) (Stop SupervisorError)).
Abbreviation K := (M (KvmWorld W S Id H * KvmSupervisor) (Stop SupervisorError)).
Abbreviation steps := (rtc (acting (generations_dir storage) A)).
Abbreviation settled := (settled storage).
Abbreviation reaches := (reaches storage A).
Abbreviation newcomer := (newcomer storage A).

Implicit Types (w : world) (s : world * KvmSupervisor) (d : KvmVm) (gu : Guest) (G : gmap N Guest) (X Dm : gset N)
  (Y : gset Machine) (h : H) (pr : option (N * RamForkPreparation)) (hist : RamHistory) (dst : Storage).

Lemma reaches_here Dm dst hist s : settled ∅ None Dm dst hist s -> reaches Dm dst hist s.
Proof. intros Hs. by exists hist. Qed.

Lemma reaches_after Dm dst hist hist' s : steps hist hist' -> reaches Dm dst hist' s -> reaches Dm dst hist s.
Proof. intros Hst (hist2 & Hst2 & Hs). exists hist2. split; [by etrans|done]. Qed.

Lemma settled_mild X pr Dm dst hist Y s s' :
  settled X pr Dm dst hist s -> mild Y s s' -> spares Y X s -> settled X pr Dm dst hist s'.
Proof. intros [L E R] Hm HY. split; [by eapply linked_mild|by rewrite (mw_ram _ _ _ (mi_world _ _ _ Hm))|done]. Qed.

Lemma reaches_mild Dm dst hist s s' : reaches Dm dst hist s -> mild ∅ s s' -> reaches Dm dst hist s'.
Proof. intros (hist' & Hst & Hs) Hm. exists hist'. split; [done|]. eapply settled_mild; [done|done|apply spares_none]. Qed.

Lemma reaches_more Dm Dm' dst hist s : reaches Dm dst hist s -> Dm ⊆ Dm' -> reaches Dm' dst hist s.
Proof. intros (hist' & Hst & [L E R]) HD. exists hist'. split; [done|]. split; [by eapply linked_more|done|done]. Qed.

Lemma settled_more X X' pr Dm dst hist s : settled X pr Dm dst hist s -> X ⊆ X' -> settled X' pr Dm dst hist s.
Proof. intros [L E R] HX. split; [by eapply linked_more|done|done]. Qed.

(** A VM of the forest and its guest. *)
Lemma settled_guest X pr Dm dst hist s id d : settled X pr Dm dst hist s -> id ∉ X -> ks_vms s.2 !! id = Some d ->
  exists gu, sm_guests (hi_sys hist) !! id = Some gu /\ tied (prep_for pr id) (id ∉ Dm) (kw_vmm s.1) d gu.
Proof.
  intros [L _ _] HX Hd. pose proof (lk_vms _ _ _ _ _ _ _ L id HX) as Ht. rewrite Hd in Ht.
  destruct (sm_guests (hi_sys hist) !! id) as [gu|]; [by exists gu|done].
Qed.

Lemma settled_ok X pr Dm dst hist s : settled X pr Dm dst hist s -> exists Kn, system_ok Kn (hi_sys hist).
Proof. intros [_ _ R]. destruct (history_reachable_ok _ _ R) as [Kn I]. exists Kn. apply I. Qed.

(** A transition of the guests, and the history after it. *)
Definition moved hist sys : RamHistory := mkRamHistory sys (hi_run hist) (hi_past hist).

Lemma moved_step k hist sys : A k -> ram_trans k (hi_sys hist) sys -> steps hist (moved hist sys).
Proof. intros HA Ht. apply rtc_once. destruct hist as [s0 run past]. split; [by apply hs_run with k|right; by exists k]. Qed.

Lemma steps_reach hist hist' : history_reachable (generations_dir storage) hist -> steps hist hist' ->
  history_reachable (generations_dir storage) hist'.
Proof. apply acting_reach. Qed.

(** VM [id], in the middle of an operation, ends it as [gu'] while the guests
    make the transition to [w'] and [gu']. *)
Lemma settle_with k Dm Dm' dst hist s id d gu' :
  linked storage {[id]} None Dm dst (sm_guests (hi_sys hist)) s -> history_reachable (generations_dir storage) hist ->
  Dm ⊆ Dm' -> ks_vms s.2 !! id = Some d -> tied None (id ∉ Dm') (kw_vmm s.1) d gu' -> A k ->
  ram_trans k (hi_sys hist) (mkRamSystem (kw_ram s.1) (<[id := gu']> (sm_guests (hi_sys hist)))) ->
  reaches Dm' dst hist s.
Proof.
  intros L R HD Hd Ht HA Htr. pose proof (moved_step _ _ _ HA Htr) as Hst. eexists. split; [exact Hst|]. split; [|done|by eapply steps_reach].
  eapply linked_settle; [by eapply linked_more|exact Hd|exact Ht].
Qed.

(** ** Stores *)

(** Guests run, also while one is being forked. *)
Lemma guest_step_linked pr Dm dst hist s s' : settled ∅ pr Dm dst hist s -> guest_step A s s' ->
  exists hist', steps hist hist' /\ settled ∅ pr Dm dst hist' s'.
Proof.
  intros Hs [id off bytes HA (d & rw & ram & Hd & Hin & Hst & Hm & Hl)|Hm].
  2: { exists hist. split; [done|]. eapply settled_mild; [done|done|apply spares_none]. }
  destruct (settled_guest _ _ _ _ _ _ _ _ Hs (not_elem_of_empty _) Hd) as (gu & Hg & [T1 T2 T3 T4 T5]).
  destruct hist as [[w0 G] run past]. destruct Hs as [L Hw R]. cbn in Hg, L, Hw. subst w0.
  set (gu' := mkGuest ram (gu_log gu ∪ list_to_set (Ram.touched_pages off (lenN bytes))) (gu_lost gu) (gu_prep gu)).
  assert (ram_trans id (mkRamSystem (kw_ram s.1) G) (mkRamSystem rw (<[id := gu']> G))) as Ht.
  { apply tr_guest_write; rewrite ?T1; done. }
  assert (kw_ram s'.1 = rw) as Hrw by by rewrite (mw_ram _ _ _ (mi_world _ _ _ Hm)).
  pose proof (moved_step _ (mkRamHistory _ run past) _ HA Ht) as Hsteps. eexists. split; [exact Hsteps|].
  split; [|done|by eapply steps_reach]. cbn.
  pose proof (linked_begin _ _ _ _ _ _ _ rw id d ram L (empty_subseteq _) Hd) as L1.
  pose proof (linked_mild _ _ _ _ _ _ _ _ _ L1 Hm (spares_own _ _ _ _ _ _ _ id (mkKvmVm (kv_backend d) ram (kv_filesystem d)) L1
    (lookup_insert_eq _ _ _) (elem_of_singleton_2 _ _ eq_refl))) as L'.
  pose proof (part_lookup _ _ id (mi_vms _ _ _ Hm)) as Hp. cbn in Hp. rewrite lookup_insert_eq in Hp.
  destruct (ks_vms s'.2 !! id) as [d'|] eqn:Hd'; [|done]. destruct Hp as [Eb Er]. cbn in Eb, Er.
  destruct (Hl T3) as [Ht' Hl']. eapply linked_settle; [exact L'|exact Hd'|]. split; cbn; [done|by rewrite Eb, Hl', T2|by rewrite Eb|done|done].
Qed.

Lemma guest_steps_linked pr Dm dst hist s s' : settled ∅ pr Dm dst hist s -> rtc (guest_step A) s s' ->
  exists hist', steps hist hist' /\ settled ∅ pr Dm dst hist' s'.
Proof.
  intros Hs Hr. revert hist Hs. induction Hr as [s|s s1 s' H1 _ IH]; intros hist Hs; [by exists hist|].
  destruct (guest_step_linked _ _ _ _ _ _ Hs H1) as (hist1 & Hst1 & Hs1). destruct (IH _ Hs1) as (hist2 & Hst2 & Hs2).
  exists hist2. split; [by etrans|done].
Qed.

(** ** Access *)

(** An operation on a paused VM. *)
Lemma wp_while_paused {B} id (m : K B) Dm dst hist s :
  (forall s, reaches Dm dst hist s -> wp m (fun _ => reaches Dm dst hist) (stops (reaches Dm dst hist)) s) ->
  reaches Dm dst hist s ->
  wp (while_paused id m) (fun _ => reaches Dm dst hist) (stops (reaches Dm dst hist)) s.
Proof.
  intros Hm Hs. unfold while_paused, find. kvm_steps. unfold ok_or. destruct (ks_vms s.2 !! id) as [d|]; [|done]. kvm_steps.
  assert (forall b s, reaches Dm dst hist s -> wp (on_world (resume_backend b) : K unit) (fun _ => reaches Dm dst hist)
    (stops (reaches Dm dst hist)) s) as Hres.
  { intros b s1 H1. eapply wp_keeps; [apply mild_on_world, mild_resume| |]; [|intros [e|]]; intros; cbn; try done; by eapply reaches_mild. }
  eapply wp_keeps; [apply mild_on_world, mild_pause| |intros [e|] s1 M1; [by eapply reaches_mild|done]].
  intros _ s1 M1. kvm_steps. eapply wp_mono; [apply Hm; by eapply reaches_mild| |].
  - intros a s2 H2. kvm_steps. eapply wp_mono; [by apply Hres| |]; [|intros [e|]]; intros; by kvm_steps.
  - intros [e|] s2 H2; [|done]. kvm_steps. eapply wp_mono; [by apply Hres| |]; [|intros [e'|]]; intros; by kvm_steps.
Qed.

Lemma access_files {B} id (m : M (Lineage W S Id * VirtioFs) VmmError B) Dm dst hist s :
  reaches Dm dst hist s -> wp (while_paused id (on_fs id m)) (fun _ => reaches Dm dst hist) (stops (reaches Dm dst hist)) s.
Proof.
  apply wp_while_paused. intros s1 H1. eapply wp_keeps; [apply mild_on_fs| |]; [|intros [e|]]; intros; cbn; try done; by eapply reaches_mild.
Qed.

(** A RAM operation that is a transition of its own. *)
Lemma wp_on_vm_ram {B} id (m : Ram.R B) (Q : B -> world * KvmSupervisor -> Prop) (I : world * KvmSupervisor -> Prop) s :
  (forall d rw ram r, ks_vms s.2 !! id = Some d -> m (kw_ram s.1, kv_ram d) = ((rw, ram), r) ->
    let s' := (set_kw_ram rw s.1, set_vms (<[id := mkKvmVm (kv_backend d) ram (kv_filesystem d)]> (ks_vms s.2)) s.2) in
    match r with Ok a => Q a s' | Err _ => I s' end) ->
  wp (on_ram id m : K B) Q (stops I) s.
Proof.
  intros Hm. unfold on_ram, wp. destruct (ks_vms s.2 !! id) as [d|]; [|done].
  destruct (m _) as [[rw ram] r] eqn:Hr. specialize (Hm d rw ram r eq_refl Hr). by destruct r.
Qed.

Lemma access_memory {B} id (m : Ram.R B) Dm dst hist s : A id ->
  (forall k rw G gu rw' ram r, G !! k = Some gu -> quiet G -> m (rw, gu_ram gu) = ((rw', ram), r) ->
    ram_trans k (mkRamSystem rw G) (mkRamSystem rw' (<[k := mkGuest ram (gu_log gu) (gu_lost gu) None]> G))) ->
  reaches Dm dst hist s -> wp (while_paused id (on_ram id m)) (fun _ => reaches Dm dst hist) (stops (reaches Dm dst hist)) s.
Proof.
  intros HA Hm. apply wp_while_paused. clear s. intros s (hist1 & Hst & Hs). apply wp_on_vm_ram. intros d rw ram r Hd Hr s'.
  enough (reaches Dm dst hist s') by by destruct r. eapply reaches_after; [exact Hst|].
  destruct (settled_guest _ _ _ _ _ _ _ _ Hs (not_elem_of_empty _) Hd) as (gu & Hg & [T1 T2 T3 T4 T5]).
  destruct hist1 as [[w0 G] run past], Hs as [L Hw R]. cbn in Hg, L, Hw. subst w0.
  pose proof (linked_all_quiet _ _ _ _ _ L) as Hq. rewrite <-T1 in Hr. pose proof (Hm id _ _ _ _ _ _ Hg Hq Hr) as Ht.
  eapply (settle_with id Dm Dm dst (mkRamHistory (mkRamSystem (kw_ram s.1) G) run past) s' id (mkKvmVm (kv_backend d) ram (kv_filesystem d))
    (mkGuest ram (gu_log gu) (gu_lost gu) None)).
  - by eapply linked_begin.
  - done.
  - done.
  - unfold s'. cbn. apply lookup_insert_eq.
  - by split.
  - exact HA.
  - exact Ht.
Qed.

Lemma write_memory_linked id addr bytes Dm dst hist s : A id -> reaches Dm dst hist s ->
  wp (write_memory id addr bytes : K unit) (fun _ => reaches Dm dst hist) (stops (reaches Dm dst hist)) s.
Proof. intros HA. apply access_memory; [done|]. intros k rw G gu rw' ram r Hk Hq Hr. by eapply tr_host_write. Qed.

Lemma read_memory_linked id addr len Dm dst hist s : A id -> reaches Dm dst hist s ->
  wp (read_memory id addr len : K _) (fun _ => reaches Dm dst hist) (stops (reaches Dm dst hist)) s.
Proof.
  intros HA. apply access_memory; [done|]. intros k rw G gu rw' ram r Hk Hq Hr.
  assert ((rw', ram) = (rw, gu_ram gu)) as [= -> ->].
  { unfold Ram.read, get, lift, mbind, M_bind in Hr. cbn in Hr. by destruct (Ram.checked_range _ _ _); injection Hr as <- <- _. }
  pose proof (tr_abandon k rw G gu (quiet_but_quiet k G Hq) Hk) as Ht. rewrite (Hq k gu Hk) in Ht. cbn in Ht.
  by rewrite (right_id_L ∅ (∪)) in Ht.
Qed.

(** ** Operations given up *)

(** VM [id] goes on as it is, with what is left of its log. *)
Lemma abandon_guest Dm dst hist s id d gu : A id ->
  linked storage {[id]} None Dm dst (sm_guests (hi_sys hist)) s -> history_reachable (generations_dir storage) hist ->
  sm_world (hi_sys hist) = kw_ram s.1 -> ks_vms s.2 !! id = Some d -> sm_guests (hi_sys hist) !! id = Some gu ->
  gu_ram gu = kv_ram d -> machine_of (kv_backend d) ∈ tracked (kw_vmm s.1) ->
  logged (machine_of (kv_backend d)) (kw_vmm s.1) ⊆ gu_log gu -> reaches ({[id]} ∪ Dm) dst hist s.
Proof.
  intros HA L R Hw Hd Hg Hram Htr Hlog. destruct hist as [[w0 G] run past]. cbn in *. subst w0.
  assert (quiet_but id G) as Hq by (eapply linked_quiet_but; [exact L|done|done]).
  eapply (settle_with id Dm _ dst (mkRamHistory (mkRamSystem _ G) run past) s id d); [exact L|exact R|set_solver|exact Hd| |exact HA|by eapply tr_capture_lost].
  split; cbn; [done|done|done|done|set_solver].
Qed.

(** ** New VMs *)

(** A guest made for a VM that does not come to be. *)
Lemma drop_guest Dm dst hist s j : A j ->
  linked storage {[j]} None Dm dst (sm_guests (hi_sys hist)) s -> history_reachable (generations_dir storage) hist ->
  sm_world (hi_sys hist) = kw_ram s.1 -> ks_vms s.2 !! j = None -> quiet (sm_guests (hi_sys hist)) -> reaches Dm dst hist s.
Proof.
  intros HA L R Hw Hj Hq. destruct hist as [[w0 G] run past]. cbn in *. subst w0.
  pose proof (moved_step j (mkRamHistory (mkRamSystem (kw_ram s.1) G) run past) _ HA (tr_remove j _ _ Hq)) as Hst.
  eexists. split; [exact Hst|]. split; [|done|by eapply steps_reach]. cbn. eapply linked_close.
  - eapply linked_guests; [exact L|]. intros id Hid. apply lookup_delete_ne. set_solver.
  - intros id _ ->%elem_of_singleton. by rewrite Hj, lookup_delete_eq.
Qed.

Lemma newcomer_dropped j Dm dst hist gu s : newcomer j Dm dst hist gu s -> reaches Dm dst hist s.
Proof. intros []. by eapply drop_guest. Qed.

Lemma mild_none Y s s' id : mild Y s s' -> ks_vms s.2 !! id = None -> ks_vms s'.2 !! id = None.
Proof. intros M Hn. pose proof (part_lookup s s' id (mi_vms _ _ _ M)) as Hp. rewrite Hn in Hp. by destruct (ks_vms s'.2 !! id). Qed.

Lemma newcomer_mild j Dm dst hist gu Y s s' : newcomer j Dm dst hist gu s -> mild Y s s' -> spares Y {[j]} s ->
  newcomer j Dm dst hist gu s'.
Proof.
  intros [HA L Ew R Hg Hn Hx Hq] M HY. split; [done|by eapply linked_mild|by rewrite (mw_ram _ _ _ (mi_world _ _ _ M))|done|done| |by rewrite (mi_next _ _ _ M)|done].
  by eapply mild_none.
Qed.

(** The VMM logs pages of it on its own account. *)
Lemma newcomer_reports j Dm dst hist gu L s : newcomer j Dm dst hist gu s -> (forall i, i ∈ L -> i < length (pages (gu_ram gu)))%nat ->
  exists hist', steps hist hist' /\ newcomer j Dm dst hist' (mkGuest (gu_ram gu) (gu_log gu ∪ L) (gu_lost gu) None) s.
Proof.
  intros [HA Lk Ew R Hg Hn Hx Hq] HL. destruct hist as [[w0 G] run past]. cbn in *. subst w0.
  pose proof (moved_step j (mkRamHistory (mkRamSystem (kw_ram s.1) G) run past) _ HA (tr_report j _ _ gu L Hq Hg HL)) as Hst.
  eexists. split; [exact Hst|]. split; cbn; [done| |done|by eapply steps_reach|apply lookup_insert_eq|done|done|].
  - eapply linked_guests; [exact Lk|]. intros id Hid. apply lookup_insert_ne. set_solver.
  - intros id gi [[<- <-]|[_ Hi]]%lookup_insert_Some; [done|by eapply Hq].
Qed.

Lemma newcomer_len j Dm dst hist gu s : newcomer j Dm dst hist gu s -> length (pages (gu_ram gu)) = N.to_nat (ram_len (gu_ram gu) / PAGE_SIZE).
Proof.
  intros [_ _ _ R Hg _ _ _]. destruct (history_reachable_ok _ _ R) as [Kn I].
  pose proof (so_guests _ _ (ho_sys _ _ _ I) _ _ Hg) as Hgo. rewrite (ok_len _ _ _ _ (go_ram _ _ _ Hgo)).
  rewrite N.div_mul by done. unfold lenN. lia.
Qed.

Lemma machs_machines X pr Dm dst G s : linked storage X pr Dm dst G s -> machs (kv_backend <$> ks_vms s.2) ⊆ machines (kw_vmm s.1).
Proof.
  intros L m (id & b & Hb & <-)%elem_of_machs. rewrite lookup_fmap in Hb. apply fmap_Some in Hb as (d & Hd & ->). by eapply lk_machines.
Qed.

Lemma spares_fresh m X s : m ∉ machs (kv_backend <$> ks_vms s.2) -> spares {[m]} X s.
Proof. intros Hn id d Hd _ <-%elem_of_singleton. apply Hn, elem_of_machs. exists id, (kv_backend d). by rewrite lookup_fmap, Hd. Qed.

(** The VM joins the forest. *)
Lemma wp_insert_newcomer j Dm dst hist gu d R s :
  newcomer j Dm dst hist gu s -> j < u64_MAX -> machine_of (kv_backend d) ∈ machines (kw_vmm s.1) ->
  machine_of (kv_backend d) ∉ machs (kv_backend <$> ks_vms s.2) -> backend_wf (kv_backend d) ->
  tied None True (kw_vmm s.1) d gu ->
  wp (insert_vm d : K N) (fun id s' => id = j /\ settled ∅ None Dm dst hist s') R s.
Proof.
  intros [HA L Ew Rh Hg Hn Hx Hq] Hj Hm Hnew Hwf Hlog. unfold insert_vm, put_vm. kvm_steps. rewrite Hx, Hn. kvm_steps.
  split; [done|]. split; [|done|done]. cbn. rewrite wrapping_add_small by lia. destruct L as [Hv HM Hf Hb Hs Hd].
  split; cbn [fst snd ks_vms set_vms set_next_vm ks_next_vm ks_storage]; [| | | |done|done].
  - intros id _. destruct (decide (id = j)) as [->|Hne].
    + rewrite lookup_insert_eq, Hg. destruct Hlog. split; auto.
    + rewrite lookup_insert_ne by done. apply Hv. set_solver.
  - intros id d' [[<- <-]|[_ Hd']]%lookup_insert_Some; [done|by eapply HM].
  - rewrite fmap_insert. by apply forest_ok_insert.
  - intros id [<-|[_ Hi]]%lookup_insert_is_Some; [lia|]. apply Hb in Hi. lia.
Qed.

(** ** Requests to the VMM, with what they do to the logs *)

Lemma mild_set_vmm Y s h : calm Y (kw_vmm s.1) h -> mild Y s (set_kw_vmm h s.1, s.2).
Proof. intros C. by split. Qed.

Lemma wp_vmm_mild {B} Y (m : M H VmmError B) (Q : B -> H -> Prop) (P : H -> Prop) s :
  wp m (fun a h => calm Y (kw_vmm s.1) h /\ Q a h) (fun _ h => calm Y (kw_vmm s.1) h /\ P h) (kw_vmm s.1) ->
  wp (on_world (with_vmm m) : K B) (fun a s' => mild Y s s' /\ Q a (kw_vmm s'.1)) (stops (fun s' => mild Y s s' /\ P (kw_vmm s'.1))) s.
Proof.
  intros Hm. unfold on_world, with_vmm. wp_steps. eapply wp_mono; [exact Hm| |]; intros ? h [C HQ]; (split; [by apply mild_set_vmm|done]).
Qed.

Lemma wp_new_raw_mild op s :
  wp (on_world (in_vmm op hv_create_vm) : K N)
    (fun vm s' => mild ∅ s s' /\ (RawMachine vm ∉ machines (kw_vmm s.1)) /\ RawMachine vm ∈ machines (kw_vmm s'.1))
    (stops (mild ∅ s)) s.
Proof.
  unfold on_world, in_vmm. wp_steps. eapply wp_mono; [apply log_create_vm| |].
  - intros vm h (C & Hn & Hi). split; [by apply mild_set_vmm|done].
  - intros e h C. by apply mild_set_vmm.
Qed.

Lemma wp_new_cloud_mild s :
  wp (on_world (with_vmm ChVm.start) : K _)
    (fun c s' => mild ∅ s s' /\ ch_worker c = Some (ch_api c) /\ (Worker (ch_api c) ∉ machines (kw_vmm s.1)) /\
                 Worker (ch_api c) ∈ machines (kw_vmm s'.1)) (stops (mild ∅ s)) s.
Proof.
  eapply wp_mono; [apply (wp_vmm_mild ∅ _ (fun c h => ch_worker c = Some (ch_api c) /\ (Worker (ch_api c) ∉ machines (kw_vmm s.1)) /\
    Worker (ch_api c) ∈ machines h) (fun _ => True)); eapply wp_mono; [apply wp_start_logs|done|done]|done|].
  by intros [e|] s' Hs; [destruct Hs|].
Qed.

Lemma wp_register_mild ram vm s :
  wp (on_world (with_vmm (ChVm.register ram vm RAM_SLOT RAM_GPA)) : K unit)
    (fun _ s' => mild {[RawMachine vm]} s s' /\ starts_afresh (RawMachine vm) (kw_vmm s'.1)) (stops (mild {[RawMachine vm]} s)) s.
Proof.
  eapply wp_mono; [apply (wp_vmm_mild {[RawMachine vm]} _ (fun _ h => starts_afresh (RawMachine vm) h) (fun _ => True));
    eapply wp_mono; [apply wp_register|done|done]|done|].
  by intros [e|] s' Hs; [destruct Hs|].
Qed.

(** ** Creation *)

Lemma next_free_guest Dm dst G s : linked storage ∅ None Dm dst G s -> ks_vms s.2 !! ks_next_vm s.2 = None /\ G !! ks_next_vm s.2 = None.
Proof.
  intros L. assert (ks_vms s.2 !! ks_next_vm s.2 = None) as Hn.
  { destruct (ks_vms s.2 !! ks_next_vm s.2) eqn:E; [|done].
    assert (ks_next_vm s.2 < ks_next_vm s.2); [|lia]. eapply lk_below; [exact L|by eexists]. }
  split; [done|]. pose proof (lk_vms _ _ _ _ _ _ _ L (ks_next_vm s.2) (not_elem_of_empty _)) as Ht. rewrite Hn in Ht. by destruct (G !! _).
Qed.

Lemma wp_new_guest n Dm dst hist s : A (ks_next_vm s.2) -> settled ∅ None Dm dst hist s -> room 1 (n / PAGE_SIZE) (kw_ram s.1) ->
  wp (on_world (with_ram (Ram.new n)) : K _)
    (fun ram s' => s'.2 = s.2 /\ kw_vmm s'.1 = kw_vmm s.1 /\
       exists hist', steps hist hist' /\ newcomer (ks_next_vm s.2) Dm dst hist' (gu_new ram) s')
    (stops (reaches Dm dst hist)) s.
Proof.
  intros HA Hs Hroom. unfold on_world, with_ram, wp, zoom, with_err. destruct (Ram.new n (kw_ram s.1)) as [rw res] eqn:Hn. cbn.
  destruct hist as [[w0 G] run past], Hs as [L Hw R]. cbn in L, Hw. subst w0. set (j := ks_next_vm s.2).
  destruct (next_free_guest _ _ _ _ L) as [Hvj Hj]. fold j in Hvj, Hj.
  pose proof (linked_all_quiet _ _ _ _ _ L) as Hq.
  pose proof (tr_new j _ _ n rw res Hq Hj (room_fits _ _ _ _ Hroom (N.le_refl _) (N.le_refl _)) Hn) as Ht.
  pose proof (moved_step _ (mkRamHistory _ run past) _ HA Ht) as Hst.
  assert (forall X G', linked storage X None Dm dst G' s -> linked storage X None Dm dst G' (set_kw_ram rw s.1, s.2)) as Hl.
  { intros X G' []. by split. }
  destruct res as [ram|e]; cbn.
  - split_and!; [done|done|]. eexists. split; [exact Hst|]. split; cbn; [done| |done|by eapply steps_reach| |done|done|].
    + apply Hl. eapply linked_guests; [eapply linked_more; [exact L|set_solver|done]|]. intros id Hid. apply lookup_insert_ne. set_solver.
    + apply lookup_insert_eq.
    + intros id gu [[<- <-]|[_ Hg]]%lookup_insert_Some; [done|by eapply Hq].
  - eexists. split; [exact Hst|]. split; [by apply Hl|done|by eapply steps_reach].
Qed.

Lemma mild_machs Y s s' : mild Y s s' -> machs (kv_backend <$> ks_vms s'.2) = machs (kv_backend <$> ks_vms s.2).
Proof. intros M. by rewrite (part_backends _ _ (mi_vms _ _ _ M)). Qed.

Lemma mild_known Y s s' m : mild Y s s' -> m ∈ machines (kw_vmm s.1) -> m ∈ machines (kw_vmm s'.1).
Proof. intros M Hm. by apply (mw_vmm _ _ _ (mi_world _ _ _ M)). Qed.

Lemma mild_logged Y s s' m : mild Y s s' -> m ∈ machines (kw_vmm s.1) -> m ∉ Y -> logged m (kw_vmm s'.1) = logged m (kw_vmm s.1).
Proof. intros M Hm HY. by apply (mw_vmm _ _ _ (mi_world _ _ _ M)). Qed.

Lemma mild_afresh Y s s' m : mild Y s s' -> m ∈ machines (kw_vmm s.1) -> m ∉ Y -> starts_afresh m (kw_vmm s.1) -> starts_afresh m (kw_vmm s'.1).
Proof. intros M. apply calm_afresh, (mw_vmm _ _ _ (mi_world _ _ _ M)). Qed.

(** A VM with an empty log, and its guest. *)
Lemma tied_afresh h d r : kv_ram d = r -> starts_afresh (machine_of (kv_backend d)) h -> tied None True h d (gu_new r).
Proof. intros <- [Ht Hl]. by split. Qed.

Lemma create_vm_linked n Dm dst hist s : A (ks_next_vm s.2) ->
  settled ∅ None Dm dst hist s -> room 1 (n / PAGE_SIZE) (kw_ram s.1) -> ks_next_vm s.2 < u64_MAX ->
  wp (create_vm n : K N) (fun _ => reaches Dm dst hist) (stops (reaches Dm dst hist)) s.
Proof.
  intros HA Hs Hroom Hnext. unfold create_vm. kvm_steps.
  eapply wp_mono; [apply wp_new_raw_mild| |intros e s1; apply stops_mono; by apply reaches_mild, reaches_here].
  intros vm s1 (M1 & Hn1 & Hi1). pose proof (settled_mild _ _ _ _ _ _ _ _ Hs M1 (spares_none _ _)) as Hs1.
  rewrite <-(mw_ram _ _ _ (mi_world _ _ _ M1)) in Hroom. rewrite <-(mi_next _ _ _ M1) in Hnext, HA.
  assert (RawMachine vm ∉ machs (kv_backend <$> ks_vms s1.2)) as Hvm.
  { rewrite (mild_machs _ _ _ M1). intros Hin%(machs_machines _ _ _ _ _ _ (se_linked _ _ _ _ _ _ _ Hs)). done. }
  kvm_steps. eapply wp_mono; [by apply wp_new_guest| |done]. intros ram s2 (E2 & V2 & hist2 & Hst2 & N2).
  assert (RawMachine vm ∉ machs (kv_backend <$> ks_vms s2.2)) as Hvm2 by by rewrite E2.
  assert (RawMachine vm ∈ machines (kw_vmm s2.1)) as Hi2 by by rewrite V2.
  assert (forall s', mild {[RawMachine vm]} s2 s' -> reaches Dm dst hist s') as Hfail.
  { intros s' M. eapply reaches_after; [exact Hst2|]. eapply newcomer_dropped, newcomer_mild; [exact N2|exact M|by apply spares_fresh]. }
  kvm_steps. eapply wp_mono; [apply wp_register_mild| |intros e s3; apply stops_mono, Hfail].
  intros _ s3 [M3 Hl3]. kvm_steps. eapply wp_keeps; [apply mild_create_filesystem| |].
  - intros fs s4 M4. assert (mild {[RawMachine vm]} s2 s4) as M by (etrans; [exact M3|eapply mild_mono; [|exact M4]; set_solver]).
    pose proof (newcomer_mild _ _ _ _ _ _ _ _ N2 M (spares_fresh _ _ _ Hvm2)) as N4.
    eapply wp_mono; [eapply (wp_insert_newcomer _ Dm dst hist2 _ _ (fun _ _ => False)); [exact N4|exact Hnext| | |done|]| |done].
    + by eapply mild_known.
    + by rewrite (mild_machs _ _ _ M).
    + apply tied_afresh; [done|]. eapply mild_afresh; [exact M4|by eapply mild_known|set_solver|done].
    + intros ? s5 [_ H5]. by eapply reaches_after, reaches_here.
  - intros [e|] s4 M4; [|done]. eapply wp_keeps; [apply mild_on_world, mild_unregister| |]; intros ? s5 M5; [|destruct e0; [|done]]; cbn.
    all: apply Hfail; etrans; [exact M3|]; etrans; [eapply mild_mono; [|exact M4]; set_solver|exact M5].
Qed.

(** A cleanup that touches only [Y]. *)
Lemma wp_or_drop_mild {B} Y (c : K unit) (m : K B) Q (I J : world * KvmSupervisor -> Prop) s :
  wp m Q (stops I) s -> keeps (mild Y) c -> (forall s1 s2, I s1 -> mild Y s1 s2 -> J s2) -> wp (or_drop c m) Q (stops J) s.
Proof.
  intros Hm Hc HJ. rewrite wp_or_drop. eapply wp_mono; [exact Hm|done|]. intros [e|] s1 Hs1; [|done].
  eapply wp_keeps; [exact Hc| |]; intros ? s2 M; [|destruct e0; [|done]]; by eapply HJ.
Qed.

Lemma wp_boot_mild c config ram s : Worker (ch_api c) ∈ machines (kw_vmm s.1) ->
  wp (on_world (_ ← with_vmm (ChVm.create c config); with_vmm (ChVm.boot_with_ram c ram)) : K unit)
    (fun _ s' => mild {[Worker (ch_api c)]} s s' /\ Worker (ch_api c) ∈ tracked (kw_vmm s'.1) /\
       forall i, i ∈ logged (Worker (ch_api c)) (kw_vmm s'.1) -> (i < N.to_nat (ram_len ram / PAGE_SIZE))%nat)
    (stops (mild {[Worker (ch_api c)]} s)) s.
Proof.
  intros Hin. unfold on_world, with_vmm. wp_steps. eapply wp_keeps; [apply calm_create| |].
  - intros _ h1 C1. wp_steps. cbn. eapply wp_mono; [apply wp_boot_logs; by apply C1| |].
    + intros _ h2 [C2 Hl]. split; [|done]. apply (mild_set_vmm _ s). by etrans.
    + intros e h2 C2. apply (mild_set_vmm _ s). by etrans.
  - intros e h1 C1. by apply mild_set_vmm.
Qed.

Lemma mild_drop_cloud c v : ch_worker c = Some (ch_api c) ->
  keeps (mild {[Worker (ch_api c)]}) (on_world (_ ← drop_backend (CloudVm c); drop_filesystem v) : K unit).
Proof.
  intros Hc. apply mild_on_world. keeps_steps; [by apply (mild_drop_backend (CloudVm c))|]. apply keeps_mild_world, mild_drop_filesystem.
Qed.

Lemma create_cloud_vm_linked config Dm dst hist s : A (ks_next_vm s.2) ->
  settled ∅ None Dm dst hist s -> room 1 (vc_memory_size config / PAGE_SIZE) (kw_ram s.1) -> ks_next_vm s.2 < u64_MAX ->
  wp (create_cloud_vm config : K N) (fun _ => reaches Dm dst hist) (stops (reaches Dm dst hist)) s.
Proof.
  intros HA Hs Hroom Hnext. unfold create_cloud_vm. kvm_steps.
  eapply wp_mono; [by apply wp_new_guest| |done]. intros ram s1 (E1 & V1 & hist1 & Hst1 & N1).
  assert (forall Y s', mild Y s1 s' -> spares Y {[ks_next_vm s.2]} s1 -> reaches Dm dst hist s') as Hfail.
  { intros Y s' M HY. eapply reaches_after; [exact Hst1|]. eapply newcomer_dropped, newcomer_mild; [exact N1|exact M|done]. }
  assert (forall e s', mild ∅ s1 s' -> stops (reaches Dm dst hist) e s') as Hfail0.
  { intros [e|] s' M; [|done]. eapply Hfail; [exact M|apply spares_none]. }
  kvm_steps. eapply wp_keeps; [apply mild_create_filesystem| |done]. intros fs s2 M2. wp_steps. cbv zeta.
  eapply wp_mono; [eapply (wp_or_drop_mild ∅ _ _ _ (mild ∅ s2) (mild ∅ s2)); [apply wp_new_cloud_mild|apply mild_on_world, mild_drop_filesystem|]| |].
  { intros s' s'' M' M''. by etrans. }
  2: { intros e s' M. destruct e; [|done]. apply (Hfail0 (Failed e)). by etrans. }
  intros c s3 (M3 & Hc & Hn3 & Hi3). assert (mild ∅ s1 s3) as M13 by by etrans. wp_steps.
  assert (Worker (ch_api c) ∉ machs (kv_backend <$> ks_vms s3.2)) as Hm3.
  { rewrite (mild_machs _ _ _ M13). intros Hin%(machs_machines _ _ _ _ _ _ (nc_linked _ _ _ _ _ _ _ _ N1)). by eapply Hn3, mild_known. }
  pose proof (newcomer_mild _ _ _ _ _ _ _ _ N1 M13 (spares_none _ _)) as N3.
  eapply wp_mono; [eapply (wp_or_drop_mild {[Worker (ch_api c)]} _ _ _ (mild {[Worker (ch_api c)]} s3) (mild {[Worker (ch_api c)]} s3));
    [by apply wp_boot_mild|by apply mild_drop_cloud|]| |].
  { intros s' s'' M' M''. by etrans. }
  - intros _ s4 (M4 & Ht4 & Hl4). pose proof (newcomer_mild _ _ _ _ _ _ _ _ N3 M4 (spares_fresh _ _ _ Hm3)) as N4.
    destruct (newcomer_reports _ _ _ _ _ (logged (Worker (ch_api c)) (kw_vmm s4.1)) _ N4) as (hist2 & Hst2 & N5).
    { intros i Hi. rewrite (newcomer_len _ _ _ _ _ _ N4). by apply Hl4. }
    eapply wp_mono; [eapply (wp_insert_newcomer _ Dm dst hist2 _ _ (fun _ _ => False)); [exact N5|done| | |done|]| |done].
    + by eapply mild_known.
    + by rewrite (mild_machs _ _ _ M4).
    + split; cbn; [done|by rewrite (left_id_L ∅ (∪))|done|done|done].
    + intros ? s5 [_ H5]. eapply reaches_after; [exact Hst1|]. by eapply reaches_after, reaches_here.
  - intros e s4. apply stops_mono. intros M4. eapply reaches_after; [exact Hst1|].
    eapply newcomer_dropped, newcomer_mild; [exact N3|exact M4|by apply spares_fresh].
Qed.

(** ** Removal *)

Lemma remove_vm_linked id Dm dst hist s : A id -> settled ∅ None Dm dst hist s ->
  wp (remove_vm id : K unit) (fun _ => reaches Dm dst hist) (stops (reaches Dm dst hist)) s.
Proof.
  intros HA Hs. unfold remove_vm, find. kvm_steps. unfold ok_or. destruct (ks_vms s.2 !! id) as [d|] eqn:Hd; [|by apply reaches_here]. kvm_steps.
  destruct hist as [[w0 G] run past], Hs as [L Hw R]. cbn in L, Hw. subst w0. pose proof (linked_all_quiet _ _ _ _ _ L) as Hq.
  pose proof (moved_step id (mkRamHistory (mkRamSystem (kw_ram s.1) G) run past) _ HA (tr_remove id _ _ Hq)) as Hst.
  pose proof (lk_forest _ _ _ _ _ _ _ L) as HF.
  assert ((kv_backend <$> ks_vms s.2) !! id = Some (kv_backend d)) as Hb by by rewrite lookup_fmap, Hd.
  set (s1 := (s.1, set_vms (delete id (ks_vms s.2)) s.2)).
  assert (settled ∅ None Dm dst (moved (mkRamHistory (mkRamSystem (kw_ram s.1) G) run past) (mkRamSystem (kw_ram s.1) (delete id G))) s1) as H1.
  { split; [|done|by eapply steps_reach]. destruct L as [Hv HM Hf Hbel Hst' Hdir].
    split; cbn [s1 fst snd ks_vms set_vms ks_next_vm ks_storage moved hi_sys sm_guests]; [| | | |done|done].
    - intros i _. destruct (decide (i = id)) as [->|Hne]; [by rewrite !lookup_delete_eq|]. rewrite !lookup_delete_ne by done. apply Hv. set_solver.
    - intros i d' [_ Hd']%lookup_delete_Some. by eapply HM.
    - rewrite fmap_delete. by apply forest_ok_delete.
    - intros i [d' [_ Hd']%lookup_delete_Some]. apply Hbel. by eexists. }
  assert (spares {[machine_of (kv_backend d)]} ∅ s1) as HY.
  { apply spares_fresh. cbn. rewrite fmap_delete. by apply machs_gone. }
  eapply wp_keeps; [apply mild_on_world, mild_drop_vm, (fo_wf _ HF _ _ Hb)| |]; intros ? s2 M2; [|destruct e; [|done]].
  all: eexists; split; [exact Hst|by eapply settled_mild].
Qed.

End simulation.
