(* ===== verification/KvmForks.v ===== *)
(** * Forks by the KVM supervisor, in the system of guest RAM

    [fork_vm] of a raw KVM VM, paused for the whole fork, and of a Cloud
    Hypervisor VM, whose guest runs on during the first copy, as transitions of
    the guests they fork. *)

From S2P Require Import Prelude Generations Host CacheTypes SharedCache Storage RedoxBranch VmmTypes VirtioFs Lineages Ram RamInv RamSpec RamSafety RamDurable RamCopy RamRecovery KvmVmm KvmSupervisor KvmRecovery KvmRuns KvmForest KvmOps KvmLogs KvmLink.
Import Kvm KvmDur.

Section forks.
Context {W S Id St H Opts Snap Ranges : Type} `{Countable Id} `{!BranchStore W S Id St} `{!Vmm H Opts Snap Ranges}.
Context `{!VmmRuns H} `{!VmmLogs H} `{!VmmLogLaws H Opts Snap Ranges} `{HSparse : !SparseFiles} `{HLaws : !SparseLaws}.
Context {storage : string} {A : N -> Prop}.

Abbreviation world := (KvmWorld W S Id H).
Abbreviation KW := (M (KvmWorld W S Id H) (Stop SupervisorError)).
Abbreviation K := (M (KvmWorld W S Id H * KvmSupervisor) (Stop SupervisorError)).
Abbreviation steps := (rtc (acting (generations_dir storage) A)).
Abbreviation settled := (settled storage).
Abbreviation reaches := (reaches storage A).
Abbreviation newcomer := (newcomer storage A).

Implicit Types (w : world) (s : world * KvmSupervisor) (d : KvmVm) (gu : Guest) (G : gmap N Guest) (X Dm : gset N)
  (Y : gset Machine) (h : H) (pr : option (N * RamForkPreparation)) (hist : RamHistory) (dst : Storage).

(** ** What a fork ends with *)

(** Guests [source] and [child] both have the memory [bytes]. *)
Definition twins source child (bytes : list byte) hist : Prop := exists gs gc,
  sm_guests (hi_sys hist) !! source = Some gs /\ sm_guests (hi_sys hist) !! child = Some gc /\
  guest_memory (sm_world (hi_sys hist)) gs = bytes /\ guest_memory (sm_world (hi_sys hist)) gc = bytes.

(** The guests of [A] brought [hist] to one where [P] holds: with VM [j] still
    to come, or with all of them in the forest. *)
Definition arrives (P : RamHistory -> Prop) j Dm dst hist ram s : Prop :=
  exists hist', steps hist hist' /\ newcomer j Dm dst hist' (gu_new ram) s /\ P hist'.
Definition forked_to (P : RamHistory -> Prop) Dm dst hist s : Prop :=
  exists hist', steps hist hist' /\ settled ∅ None Dm dst hist' s /\ P hist'.

Lemma forked_to_mild P Dm dst hist s s' : forked_to P Dm dst hist s -> mild ∅ s s' -> forked_to P Dm dst hist s'.
Proof. intros (hist' & Hst & Hs & HP) M. exists hist'. split_and!; [done| |done]. eapply settled_mild; [done|done|apply spares_none]. Qed.

Lemma forked_to_after P Dm dst hist hist' s : steps hist hist' -> forked_to P Dm dst hist' s -> forked_to P Dm dst hist s.
Proof. intros Hst (hist2 & Hst2 & Hs). exists hist2. split; [by etrans|done]. Qed.

(** ** Forks of raw VMs *)

(** KVM was asked for the log of [d]'s machine. *)
Definition log_taken d (log : result string (list N)) s s' : Prop :=
  let m := machine_of (kv_backend d) in
  mild {[m]} s s' /\
  match log with
  | Ok bitmap => starts_afresh m (kw_vmm s'.1) /\ reports bitmap (length (pages (kv_ram d))) (logged m (kw_vmm s.1))
  | Err _ => log_left m (kw_vmm s.1) (kw_vmm s'.1)
  end.

Lemma wp_take_log Dm dst hist id d vm R s : settled ∅ None Dm dst hist s -> ks_vms s.2 !! id = Some d -> kv_backend d = RawVm vm ->
  wp (dirty_log (kv_ram d) vm : K _) (fun log s' => log_taken d log s s') R s.
Proof.
  intros Hs Hd Hb. destruct (settled_guest _ _ _ _ _ _ _ _ Hs (not_elem_of_empty _) Hd) as (gu & Hg & [T1 T2 T3 _ _]).
  destruct (settled_ok _ _ _ _ _ _ Hs) as [Kn Hok]. pose proof (so_guests _ _ Hok _ _ Hg) as Hgu.
  unfold dirty_log, wp, log_taken. rewrite Hb in *. cbn in T2, T3 |- *.
  pose proof (log_get vm RAM_SLOT RAM_GPA (ram_len (kv_ram d)) (kw_vmm s.1)) as Hl. unfold wp in Hl.
  destruct (vm_get_dirty_log _ _ _ _ _) as [h [bitmap|e]]; cbn.
  - destruct Hl as (C & He & Hr). split; [by apply mild_set_vmm, C|]. split; [by eapply reading_afresh|]. rewrite <-T1. apply Hr.
    + rewrite <-T1. apply (ok_len _ _ _ _ (go_ram _ _ _ Hgu)).
    + rewrite <-T2. apply (go_log _ _ _ Hgu).
  - destruct Hl as [C Hk]. split; [by apply mild_set_vmm, C|by eapply reading_left].
Qed.

(** A VM after what left its part alone. *)
Lemma mild_vm Y s s' id d : mild Y s s' -> ks_vms s.2 !! id = Some d ->
  exists d', ks_vms s'.2 !! id = Some d' /\ kv_backend d' = kv_backend d /\ kv_ram d' = kv_ram d.
Proof.
  intros M Hd. pose proof (part_lookup s s' id (mi_vms _ _ _ M)) as Hp. rewrite Hd in Hp.
  destruct (ks_vms s'.2 !! id) as [d'|]; [|done]. by exists d'.
Qed.

(** Only the machine of [id] was asked. *)
Lemma linked_asked Dm dst G s s' id d :
  linked storage ∅ None Dm dst G s -> ks_vms s.2 !! id = Some d -> mild {[machine_of (kv_backend d)]} s s' ->
  linked storage {[id]} None Dm dst G s'.
Proof.
  intros L Hd M. assert (linked storage {[id]} None Dm dst G s) as L0 by (eapply linked_more; [exact L|set_solver|done]).
  eapply linked_mild; [exact L0|exact M|]. eapply spares_own; [exact L0|exact Hd|set_solver].
Qed.

Lemma copied_whole gu r : gu_lost gu = ∅ -> gu_lost (gu_copied r gu) = ∅.
Proof. cbn. intros ->. set_solver. Qed.

(** The source of a fork went on as [gu_copied], the child is a guest. *)
Lemma forked_newcomer Dm dst hist s id d gu child k : A k -> A (ks_next_vm s.2) ->
  linked storage {[id]} None Dm dst (sm_guests (hi_sys hist)) s -> history_reachable (generations_dir storage) hist ->
  sm_guests (hi_sys hist) !! ks_next_vm s.2 = None -> quiet_but id (sm_guests (hi_sys hist)) ->
  ks_vms s.2 !! id = Some d -> ks_vms s.2 !! ks_next_vm s.2 = None ->
  starts_afresh (machine_of (kv_backend d)) (kw_vmm s.1) -> (id ∉ Dm -> gu_lost gu = ∅) ->
  (id ∉ Dm -> fork_promise (sm_world (hi_sys hist)) gu (kw_ram s.1) (kv_ram d) (Ok child)) ->
  ram_trans k (hi_sys hist) (mkRamSystem (kw_ram s.1)
    (<[ks_next_vm s.2 := gu_new child]> (<[id := gu_copied (kv_ram d) gu]> (sm_guests (hi_sys hist))))) ->
  arrives (fun hist2 => id ∉ Dm -> twins id (ks_next_vm s.2) (guest_memory (sm_world (hi_sys hist)) gu) hist2) (ks_next_vm s.2) Dm dst hist child s.
Proof.
  intros HA HAj L R Hj Hq Hd Hnj Hlog Hlost Hpr Ht. pose proof (moved_step (storage := storage) _ _ _ HA Ht) as Hst. eexists. split; [exact Hst|].
  set (G := sm_guests (hi_sys hist)) in *. assert (id <> ks_next_vm s.2) as Hne by congruence.
  split.
  2: { intros Hn. destruct (Hpr Hn) as (E1 & E2 & _). exists (gu_copied (kv_ram d) gu), (gu_new child). cbn.
       rewrite lookup_insert_ne, !lookup_insert_eq by done. done. }
  split; cbn; [done| |done|by eapply steps_reach|apply lookup_insert_eq|done|done|].
  - eapply linked_guests; [eapply linked_more; [eapply (linked_settle _ _ _ _ _ _ _ d (gu_copied (kv_ram d) gu)); [exact L|exact Hd|]|set_solver|done]|].
    + split; [done|by cbn; destruct Hlog|apply Hlog|done|]. intros Hn. by apply copied_whole, Hlost.
    + intros i Hi. apply lookup_insert_ne. set_solver.
  - intros i gi [[<- <-]|[_ Hi]]%lookup_insert_Some; [done|]. apply lookup_insert_Some in Hi as [[<- <-]|[Hi Hg]]; [done|].
    eapply Hq. by rewrite lookup_delete_ne.
Qed.

(** The child of [d] has the memory [d] had in [s], and so has [d]. *)
Definition raw_copy source d Dm s hist : Prop :=
  source ∉ Dm -> twins source (ks_next_vm s.2) (Ram.ram_bytes (rm_storage (kw_ram s.1)) (kv_ram d)) hist.

Lemma wp_fork_ram source d log Dm dst hist s0 s :
  settled ∅ None Dm dst hist s0 -> ks_vms s0.2 !! source = Some d -> log_taken d log s0 s ->
  room 1 (lenN (pages (kv_ram d))) (kw_ram s0.1) -> A source -> A (ks_next_vm s0.2) ->
  wp (on_ram source (Ram.fork log) : K _)
    (fun child s' => kw_vmm s'.1 = kw_vmm s.1 /\ kv_backend <$> ks_vms s'.2 = kv_backend <$> ks_vms s0.2 /\
       arrives (raw_copy source d Dm s0) (ks_next_vm s0.2) Dm dst hist child s')
    (stops (reaches ({[source]} ∪ Dm) dst hist)) s.
Proof.
  intros Hs Hd [M Hlog] Hroom HA HAj. destruct (settled_guest _ _ _ _ _ _ _ _ Hs (not_elem_of_empty _) Hd) as (gu & Hg & [T1 T2 T5 T3 T4]).
  destruct (settled_ok _ _ _ _ _ _ Hs) as [Kn Hok].
  destruct hist as [[w0 G] run past], Hs as [L Hw R]. cbn in Hg, L, Hw, Hok. subst w0.
  destruct (mild_vm _ _ _ _ _ M Hd) as (d' & Hd' & Eb & Er). pose proof (linked_all_quiet _ _ _ _ _ L) as Hq.
  destruct (next_free_guest _ _ _ _ L) as [Hnj Hj]. pose proof (linked_asked _ _ _ _ _ _ _ L Hd M) as L1.
  pose proof (mi_next _ _ _ M) as En. pose proof (mw_ram _ _ _ (mi_world _ _ _ M)) as Ew.
  apply wp_on_vm_ram. intros d2 rw ram r Hd2 Hr s'. rewrite Hd' in Hd2. injection Hd2 as <-. rewrite Er, <-T1, Ew in Hr.
  pose proof (linked_begin _ _ _ _ _ _ _ rw source d' ram L1 (reflexivity _) Hd') as L2. fold s' in L2.
  assert (ks_vms s'.2 !! source = Some (mkKvmVm (kv_backend d') ram (kv_filesystem d'))) as Hs' by apply lookup_insert_eq.
  destruct log as [bitmap|e].
  - destruct Hlog as [He Hrep]. rewrite <-T1 in Hrep, Hroom. rewrite <-T2 in Hrep.
    pose proof (tr_fork source (ks_next_vm s0.2) _ G gu bitmap rw ram r Hq Hg Hj (room_fits _ _ _ _ Hroom (N.le_refl _) (N.le_refl _)) Hrep Hr) as Ht.
    destruct r as [child|e].
    + split_and!; [done| |].
      { unfold s'. cbn. rewrite fmap_insert, insert_id by (by rewrite lookup_fmap, Hd'). apply part_backends, M. }
      unfold raw_copy. rewrite <-T1. rewrite <-En in *.
      eapply (forked_newcomer Dm dst (mkRamHistory (mkRamSystem (kw_ram s0.1) G) run past) s' source); [exact HA|exact HAj|exact L2|exact R|exact Hj|by apply quiet_but_quiet|exact Hs'| |by cbn; rewrite Eb|exact T4| |exact Ht].
      2: { intros Hn. eapply (fork_keeps_promise Kn); [exact Hok|exact T3|exact Hg|by apply T4|by eapply room_fits|exact Hrep|exact Hr]. }
      unfold s'. cbn. rewrite lookup_insert_ne; [|congruence]. by eapply mild_none.
    + eapply (settle_with source Dm _ dst (mkRamHistory (mkRamSystem (kw_ram s0.1) G) run past) s' source); [exact L2|exact R|set_solver|exact Hs'| |exact HA|exact Ht].
      destruct He. split; [done|by cbn; rewrite Eb|by cbn; rewrite Eb|done|set_solver].
  - unfold Ram.fork, Ram.logged_dirty, lift, mbind, M_bind in Hr. cbn in Hr. injection Hr as <- <- <-.
    eapply (abandon_guest Dm dst (mkRamHistory (mkRamSystem (kw_ram s0.1) G) run past) s' source); [exact HA|exact L2|exact R|done|exact Hs'|exact Hg|done| |].
    all: cbn; rewrite Eb, ?T2; apply Hlog.
Qed.

(** A guest made for a VM whose machine [m] is there, with an empty log. *)
Definition child_ready P m Dm dst hist j ram s : Prop :=
  arrives P j Dm dst hist ram s /\ m ∈ machines (kw_vmm s.1) /\
  (m ∉ machs (kv_backend <$> ks_vms s.2)) /\ starts_afresh m (kw_vmm s.1).

Lemma child_ready_mild P m Dm dst hist j ram s s' : child_ready P m Dm dst hist j ram s -> mild ∅ s s' -> child_ready P m Dm dst hist j ram s'.
Proof.
  intros ((hist' & Hst & N & HP) & Hi & Hn & Hl) M. split_and!.
  - exists hist'. split_and!; [done| |done]. eapply newcomer_mild; [exact N|exact M|apply spares_none].
  - by eapply mild_known.
  - by rewrite (mild_machs _ _ _ M).
  - by eapply mild_afresh; [exact M|done|set_solver|].
Qed.

Lemma child_ready_dropped P m Dm dst hist j ram s s' : child_ready P m Dm dst hist j ram s -> mild {[m]} s s' -> reaches Dm dst hist s'.
Proof.
  intros ((hist' & Hst & N & _) & Hi & Hn & Hl) M. eapply reaches_after; [exact Hst|].
  eapply newcomer_dropped, newcomer_mild; [exact N|exact M|by apply spares_fresh].
Qed.

Lemma wp_insert_child P Dm dst hist j d R s : child_ready P (machine_of (kv_backend d)) Dm dst hist j (kv_ram d) s -> j < u64_MAX ->
  backend_wf (kv_backend d) -> wp (insert_vm d : K N) (fun id s' => id = j /\ forked_to P Dm dst hist s') R s.
Proof.
  intros ((hist' & Hst & N & HP) & Hi & Hn & Hl) Hj Hb.
  eapply wp_mono; [eapply (wp_insert_newcomer j Dm dst hist' _ d (fun _ _ => False)); [exact N|done|done|done|done|by apply tied_afresh]| |done]. intros id s' [-> Hs]. split; [done|]. by exists hist'.
Qed.

Lemma wp_fork_raw_linked source d vm child_vm Dm dst hist s :
  settled ∅ None Dm dst hist s -> ks_vms s.2 !! source = Some d -> kv_backend d = RawVm vm ->
  room 1 (lenN (pages (kv_ram d))) (kw_ram s.1) ->
  RawMachine child_vm ∈ machines (kw_vmm s.1) -> RawMachine child_vm ∉ machs (kv_backend <$> ks_vms s.2) -> A source -> A (ks_next_vm s.2) ->
  wp (fork_raw source vm child_vm : K _)
    (fun p s' => child_ready (raw_copy source d Dm s) (RawMachine child_vm) Dm dst hist (ks_next_vm s.2) p.1 s')
    (stops (reaches ({[source]} ∪ Dm) dst hist)) s.
Proof.
  intros Hs Hd Hb Hroom Hci Hcn HA HAj. unfold fork_raw. wp_steps.
  eapply wp_keeps; [apply mild_on_fs| |intros [e|] s1 M1; [|done]; eapply reaches_mild; [|exact M1]; eapply reaches_more; [by apply reaches_here|set_solver]].
  intros fs s1 M1. pose proof (settled_mild _ _ _ _ _ _ _ _ Hs M1 (spares_none _ _)) as Hs1.
  destruct (mild_vm _ _ _ _ _ M1 Hd) as (d1 & Hd1 & Eb1 & Er1). wp_steps.
  eapply wp_mono; [eapply (wp_or_drop_mild ∅ _ _ (fun ram s' => child_ready (raw_copy source d Dm s) (RawMachine child_vm) Dm dst hist (ks_next_vm s.2) ram s')
    (reaches ({[source]} ∪ Dm) dst hist) (reaches ({[source]} ∪ Dm) dst hist))| |done].
  2: { apply mild_on_world, mild_drop_filesystem. }
  2: { intros s' s''. apply reaches_mild. }
  2: { intros ram s' Hr. by wp_steps. }
  unfold find. kvm_steps. rewrite Hd1. cbn. kvm_steps.
  eapply wp_mono; [eapply (wp_take_log _ _ _ _ _ _ (fun _ _ => False)); [exact Hs1|exact Hd1|congruence]| |done].
  intros log s2 Hlog. kvm_steps. eapply wp_mono; [eapply wp_fork_ram; [exact Hs1|exact Hd1|exact Hlog| |exact HA|by rewrite (mi_next _ _ _ M1)]| |done].
  { rewrite Er1. by rewrite (mw_ram _ _ _ (mi_world _ _ _ M1)). }
  intros ram s3 (V3 & B3 & hist3 & Hst3 & N3 & P3). kvm_steps. unfold raw_copy in P3.
  rewrite (mi_next _ _ _ M1), Er1, (mw_ram _ _ _ (mi_world _ _ _ M1)) in *.
  assert (RawMachine child_vm ∈ machines (kw_vmm s3.1)) as Hc3.
  { rewrite V3. eapply mild_known; [apply Hlog|]. by eapply mild_known. }
  assert (RawMachine child_vm ∉ machs (kv_backend <$> ks_vms s3.2)) as Hn3 by by rewrite B3, (mild_machs _ _ _ M1).
  eapply wp_mono; [apply wp_register_mild| |].
  - intros _ s4 [M4 Hl4]. kvm_steps. split_and!; [|by eapply mild_known|by rewrite (mild_machs _ _ _ M4)|done].
    exists hist3. split_and!; [done| |done]. eapply newcomer_mild; [exact N3|exact M4|by apply spares_fresh].
  - intros e s4. apply stops_mono. intros M4. eapply reaches_more; [|apply union_subseteq_r]. eapply reaches_after; [exact Hst3|].
    eapply newcomer_dropped, newcomer_mild; [exact N3|exact M4|by apply spares_fresh].
Qed.

Lemma forked_set_pause P Dm dst hist p s : forked_to P Dm dst hist s -> forked_to P Dm dst hist (s.1, set_last_fork_pause p s.2).
Proof. intros Hr. eapply forked_to_mild; [exact Hr|by split]. Qed.

Lemma fork_raw_vm_linked source d vm Dm dst hist s :
  settled ∅ None Dm dst hist s -> ks_vms s.2 !! source = Some d -> kv_backend d = RawVm vm ->
  room 1 (lenN (pages (kv_ram d))) (kw_ram s.1) -> ks_next_vm s.2 < u64_MAX -> A source -> A (ks_next_vm s.2) ->
  wp (fork_raw_vm source vm : K N) (fun id s' => id = ks_next_vm s.2 /\ forked_to (raw_copy source d Dm s) Dm dst hist s') (stops (reaches ({[source]} ∪ Dm) dst hist)) s.
Proof.
  intros Hs Hd Hb Hroom Hnext HA HAj. unfold fork_raw_vm. kvm_steps.
  assert (forall s' s'', settled ∅ None Dm dst hist s' -> mild ∅ s' s'' -> reaches ({[source]} ∪ Dm) dst hist s'') as Hearly.
  { intros s' s'' Hs' M. eapply reaches_mild; [|exact M]. eapply reaches_more; [by apply reaches_here|set_solver]. }
  eapply wp_mono; [apply wp_new_raw_mild| |intros e s1; apply stops_mono; intros M; by eapply Hearly].
  intros child s1 (M1 & Hn1 & Hi1). pose proof (settled_mild _ _ _ _ _ _ _ _ Hs M1 (spares_none _ _)) as Hs1.
  assert (RawMachine child ∉ machs (kv_backend <$> ks_vms s1.2)) as Hc.
  { rewrite (mild_machs _ _ _ M1). intros Hin%(machs_machines _ _ _ _ _ _ (se_linked _ _ _ _ _ _ _ Hs)). done. }
  kvm_steps. eapply wp_keeps; [apply mild_on_world, mild_in_vmm, log_pause_raw| |intros [e|] s2 M2; [exact (Hearly _ _ Hs1 M2)|done]].
  intros _ s2 M2. pose proof (settled_mild _ _ _ _ _ _ _ _ Hs1 M2 (spares_none _ _)) as Hs2. kvm_steps.
  assert (mild ∅ s s2) as M02 by by etrans. destruct (mild_vm _ _ _ _ _ M02 Hd) as (d2 & Hd2 & Eb2 & Er2).
  assert (forall s', reaches ({[source]} ∪ Dm) dst hist s' ->
    wp (on_world (in_vmm "resume source KVM VM" (vm_resume vm)) : K unit) (fun _ => reaches ({[source]} ∪ Dm) dst hist)
      (stops (reaches ({[source]} ∪ Dm) dst hist)) s') as Hres.
  { intros s' Hr. eapply wp_keeps; [apply mild_on_world, mild_in_vmm, log_resume_raw| |]; [|intros [e|]]; intros; cbn; try done; by eapply reaches_mild. }
  eapply wp_mono; [eapply (wp_fork_raw_linked source d2 vm child); [exact Hs2|exact Hd2|congruence| |exact (mild_known _ _ _ _ M2 Hi1)|by rewrite (mild_machs _ _ _ M2)|exact HA|by rewrite (mi_next _ _ _ M02)]| |].
  { rewrite Er2. by rewrite (mw_ram _ _ _ (mi_world _ _ _ M02)). }
  - intros [ram fs] s3 C3. unfold raw_copy in C3. rewrite (mi_next _ _ _ M02), Er2, (mw_ram _ _ _ (mi_world _ _ _ M02)) in C3. cbn in C3. kvm_steps.
    eapply wp_keeps; [apply mild_on_world, mild_in_vmm, log_resume_raw| |].
    + intros [] s4 M4. pose proof (child_ready_mild _ _ _ _ _ _ _ _ _ C3 M4) as C4. kvm_steps.
      eapply wp_mono; [eapply (wp_insert_child _ Dm dst hist _ (mkKvmVm (RawVm child) ram fs) (fun _ _ => False)); [exact C4|done|done]| |done].
      intros id s5 [-> H5]. kvm_steps. split; [done|]. by apply forked_set_pause.
    + intros [e|] s4 M4; [|done]. pose proof (child_ready_mild _ _ _ _ _ _ _ _ _ C3 M4) as C4. kvm_steps.
      assert (keeps (mild {[RawMachine child]}) (on_world (_ ← ignore (with_vmm (ChVm.unregister ram child RAM_SLOT RAM_GPA)); drop_filesystem fs) : K unit)) as Hk.
      { apply mild_on_world. keeps_steps; [apply mild_unregister|apply keeps_mild_world, mild_drop_filesystem]. }
      eapply wp_keeps; [exact Hk| |]; intros ? s5 M5; [|destruct e0; [|done]].
      all: eapply reaches_more; [by eapply child_ready_dropped|set_solver].
  - intros [e|] s3 H3; [|done]. kvm_steps. eapply wp_mono; [by apply Hres| |]; [|intros [e'|]]; intros; by kvm_steps.
Qed.

(** ** Forks of Cloud Hypervisor VMs *)

(** A worker was asked for its log. *)
Lemma wp_take_mild c s : Worker (ch_api c) ∈ machines (kw_vmm s.1) -> Worker (ch_api c) ∈ tracked (kw_vmm s.1) ->
  wp (on_world (with_vmm (ChVm.take_dirty_ram_pages c)) : K _)
    (fun l s' => mild {[Worker (ch_api c)]} s s' /\ starts_afresh (Worker (ch_api c)) (kw_vmm s'.1) /\
                 captures l (logged (Worker (ch_api c)) (kw_vmm s.1)))
    (stops (fun s' => mild {[Worker (ch_api c)]} s s' /\ log_left (Worker (ch_api c)) (kw_vmm s.1) (kw_vmm s'.1))) s.
Proof.
  intros Hm Ht. apply (wp_vmm_mild _ _ (fun l h => starts_afresh (Worker (ch_api c)) h /\ captures l (logged (Worker (ch_api c)) (kw_vmm s.1)))
    (fun h => log_left (Worker (ch_api c)) (kw_vmm s.1) h)). eapply wp_mono; [by apply wp_take| |].
  - intros l h [Hr [He Hc]]. split_and!; [apply Hr|by eapply reading_afresh|done].
  - intros e h [Hr Hs]. split; [apply Hr|by apply reading_left].
Qed.

Lemma wp_capture_mild c s : Worker (ch_api c) ∈ machines (kw_vmm s.1) -> Worker (ch_api c) ∈ tracked (kw_vmm s.1) ->
  wp (on_world (with_vmm (ChVm.capture_fork_state c)) : K _)
    (fun cap s' => mild {[Worker (ch_api c)]} s s' /\ starts_afresh (Worker (ch_api c)) (kw_vmm s'.1) /\
                   captures (cap_dirty_ram_pages cap) (logged (Worker (ch_api c)) (kw_vmm s.1)))
    (stops (fun s' => mild {[Worker (ch_api c)]} s s' /\ log_left (Worker (ch_api c)) (kw_vmm s.1) (kw_vmm s'.1))) s.
Proof.
  intros Hm Ht. apply (wp_vmm_mild _ _ (fun cap h => starts_afresh (Worker (ch_api c)) h /\
      captures (cap_dirty_ram_pages cap) (logged (Worker (ch_api c)) (kw_vmm s.1)))
    (fun h => log_left (Worker (ch_api c)) (kw_vmm s.1) h)). eapply wp_mono; [by apply wp_capture| |].
  - intros cap h [Hr [He Hc]]. split_and!; [apply Hr|by eapply reading_afresh|done].
  - intros e h [Hr Hs]. split; [apply Hr|by apply reading_left].
Qed.

(** The VM that is forked, with room for one more operation on its RAM. *)
Definition forkable c source s : Prop := exists d,
  ks_vms s.2 !! source = Some d /\ kv_backend d = CloudVm c /\ room 1 (lenN (pages (kv_ram d))) (kw_ram s.1).

Lemma forkable_mild Y c source s s' : forkable c source s -> mild Y s s' -> forkable c source s'.
Proof.
  intros (d & Hd & Hb & Hr) M. destruct (mild_vm _ _ _ _ _ M Hd) as (d' & Hd' & Eb & Er). exists d'. split_and!; [done|congruence|].
  by rewrite Er, (mw_ram _ _ _ (mi_world _ _ _ M)).
Qed.

Lemma forkable_guest c source s s' : forkable c source s -> guest_step A s s' -> forkable c source s'.
Proof.
  intros Hf Hg. pose proof (guest_step_tally _ _ _ Hg) as [= E1 E2 E3]. destruct Hg as [id off bytes _ (d & rw & ram & Hd & _ & Hst & M & _)|M]; [|by eapply forkable_mild].
  destruct Hf as (d0 & Hd0 & Hb & Hr).
  assert (exists d', ks_vms s'.2 !! source = Some d' /\ kv_backend d' = CloudVm c) as (d' & Hd' & Hb').
  { pose proof (part_lookup _ _ source (mi_vms _ _ _ M)) as Hp. cbn in Hp. destruct (decide (id = source)) as [->|Hne].
    - rewrite lookup_insert_eq in Hp. destruct (ks_vms s'.2 !! source) as [d'|]; [|done]. exists d'. split; [done|]. cbn in Hp. destruct Hp as [-> _]. congruence.
    - rewrite lookup_insert_ne, Hd0 in Hp by done. destruct (ks_vms s'.2 !! source) as [d'|]; [|done]. exists d'. split; [done|]. destruct Hp as [-> _]. congruence. }
  exists d'. split_and!; [done|done|]. assert (pages (kv_ram d') = pages (kv_ram d0)) as ->.
  { assert (((pages ∘ kv_ram) <$> ks_vms s'.2) !! source = ((pages ∘ kv_ram) <$> ks_vms s.2) !! source) as E by by rewrite E3.
    rewrite !lookup_fmap, Hd', Hd0 in E. by injection E. }
  unfold room. by rewrite E1, E2.
Qed.

Lemma forkable_guests c source s s' : forkable c source s -> rtc (guest_step A) s s' -> forkable c source s'.
Proof. intros Hf Hr. induction Hr as [|s s1 s' H1 _ IH]; [done|]. apply IH. by eapply forkable_guest. Qed.

Lemma linked_preparing Dm dst G s id prep : linked storage ∅ (Some (id, prep)) Dm dst G s -> linked storage {[id]} None Dm dst G s.
Proof.
  intros L. eapply linked_prep; [eapply linked_more; [exact L|set_solver|done]|]. intros i Hi. cbn. by rewrite decide_False by set_solver.
Qed.

(** The first copy, while the guest goes on. *)
Lemma wp_prepare_linked source d c captured Dm dst hist s0 s :
  settled ∅ None Dm dst hist s0 -> ks_vms s0.2 !! source = Some d -> kv_backend d = CloudVm c ->
  mild {[Worker (ch_api c)]} s0 s -> starts_afresh (Worker (ch_api c)) (kw_vmm s.1) ->
  captures captured (logged (Worker (ch_api c)) (kw_vmm s0.1)) -> room 2 (2 * lenN (pages (kv_ram d))) (kw_ram s0.1) -> A source ->
  wp (on_ram source (Ram.prepare_fork captured) : K _)
    (fun prep s' => forkable c source s' /\ ks_next_vm s'.2 = ks_next_vm s0.2 /\
       exists hist', steps hist hist' /\ settled ∅ (Some (source, prep)) Dm dst hist' s')
    (stops (reaches ({[source]} ∪ Dm) dst hist)) s.
Proof.
  intros Hs Hd Hb M Hlog Hc Hroom HA. destruct (settled_guest _ _ _ _ _ _ _ _ Hs (not_elem_of_empty _) Hd) as (gu & Hg & [T1 T2 T5 T3 T4]).
  destruct (settled_ok _ _ _ _ _ _ Hs) as [Kn Hok]. pose proof (so_guests _ _ Hok _ _ Hg) as Hgu.
  destruct hist as [[w0 G] run past], Hs as [L Hw R]. cbn in Hg, L, Hw, Hok, Hgu. subst w0. rewrite Hb in T2. cbn in T2.
  destruct (mild_vm _ _ _ _ _ M Hd) as (d' & Hd' & Eb & Er). pose proof (linked_all_quiet _ _ _ _ _ L) as Hq.
  assert (mild {[machine_of (kv_backend d)]} s0 s) as M' by by rewrite Hb.
  pose proof (linked_asked _ _ _ _ _ _ _ L Hd M') as L1. pose proof (mw_ram _ _ _ (mi_world _ _ _ M)) as Ew.
  apply wp_on_vm_ram. intros d2 rw ram r Hd2 Hr s'. rewrite Hd' in Hd2. injection Hd2 as <-. rewrite Er, <-T1, Ew in Hr.
  pose proof (linked_begin _ _ _ _ _ _ _ rw source d' ram L1 (reflexivity _) Hd') as L2. fold s' in L2.
  assert (ks_vms s'.2 !! source = Some (mkKvmVm (kv_backend d') ram (kv_filesystem d'))) as Hs' by apply lookup_insert_eq.
  rewrite <-T2 in Hc. rewrite <-T1 in Hroom. assert (fits (kw_ram s0.1) (lenN (pages (gu_ram gu)))) as Hfit by (eapply room_fits; [exact Hroom|lia|lia]).
  pose proof (tr_prepare source _ G gu captured rw ram r Hq Hg Hfit Hc Hr) as Ht.
  pose proof (prepare_spent _ _ _ _ _ _ _ Hgu Hc Hr) as Hsp.
  destruct (prepare_result _ _ _ (so_registry _ _ Hok) Hgu Hfit captured rw ram r T3 Hc Hr) as [-> _].
  destruct r as [prep|e].
  - split_and!.
    + eexists. split; [exact Hs'|]. split; [cbn; congruence|]. cbn. pose proof (room_spent _ _ _ _ _ _ Hroom Hsp) as Hr'.
      destruct Hr' as [? ?]; [lia|lia|]. split; lia.
    + apply M.
    + pose proof (moved_step (storage := storage) _ (mkRamHistory _ run past) _ HA Ht) as Hst. eexists. split; [exact Hst|]. split; [|done|by eapply steps_reach].
      cbn. eapply linked_settle; [|exact Hs'|].
      * eapply linked_prep; [exact L2|]. intros i Hi. cbn. by rewrite decide_False by set_solver.
      * destruct Hlog. split; cbn; [done|by rewrite Eb, Hb|by rewrite Eb, Hb|by rewrite decide_True|done].
  - eapply (settle_with source Dm _ dst (mkRamHistory (mkRamSystem (kw_ram s0.1) G) run past) s' source); [exact L2|exact R|set_solver|exact Hs'| |exact HA|exact Ht].
    destruct Hlog. split; [done|by cbn; rewrite Eb, Hb|by cbn; rewrite Eb, Hb|done|set_solver].
Qed.

Lemma free_in_fork Dm dst G s source d : linked storage {[source]} None Dm dst G s -> ks_vms s.2 !! source = Some d ->
  ks_vms s.2 !! ks_next_vm s.2 = None /\ G !! ks_next_vm s.2 = None.
Proof.
  intros L Hd. assert (ks_next_vm s.2 <> source) as Hne.
  { intros E. assert (source < ks_next_vm s.2); [|lia]. eapply lk_below; [exact L|by eexists]. }
  assert (ks_vms s.2 !! ks_next_vm s.2 = None) as Hn.
  { destruct (ks_vms s.2 !! ks_next_vm s.2) eqn:E; [|done].
    assert (ks_next_vm s.2 < ks_next_vm s.2); [|lia]. eapply lk_below; [exact L|by eexists]. }
  split; [done|]. pose proof (lk_vms _ _ _ _ _ _ _ L (ks_next_vm s.2)) as Ht. rewrite Hn in Ht.
  destruct (G !! ks_next_vm s.2); [|done]. exfalso. apply Ht. set_solver.
Qed.

(** The branch was made from the source's RAM; no guest stands for it yet. *)
Record pending source prep captured branch Dm dst hist gu d s : Prop := {
  pd_acts : A source;
  pd_linked : linked storage {[source]} None Dm dst (sm_guests (hi_sys hist)) s;
  pd_reach : history_reachable (generations_dir storage) hist;
  pd_guest : sm_guests (hi_sys hist) !! source = Some gu;
  pd_prep : gu_prep gu = Some prep;
  pd_whole : source ∉ Dm -> gu_lost gu = ∅;
  pd_fits : fits (sm_world (hi_sys hist)) (lenN (pages (gu_ram gu)));
  pd_captured : captures captured (gu_log gu);
  pd_vm : ks_vms s.2 !! source = Some d;
  pd_log : starts_afresh (machine_of (kv_backend d)) (kw_vmm s.1);
  pd_branch : Ram.finish_prepared_branch prep captured (sm_world (hi_sys hist), gu_ram gu) = ((kw_ram s.1, kv_ram d), Ok branch)
}.

Definition branch_made source Dm dst hist branch s : Prop := exists hist' prep captured gu d,
  steps hist hist' /\ pending source prep captured branch Dm dst hist' gu d s.

Lemma pending_mild source prep captured branch Dm dst hist gu d s s' :
  pending source prep captured branch Dm dst hist gu d s -> mild ∅ s s' ->
  exists d', pending source prep captured branch Dm dst hist gu d' s'.
Proof.
  intros [] M. destruct (mild_vm _ _ _ _ _ M pd_vm0) as (d' & Hd' & Eb & Er). exists d'. split; try done.
  - eapply linked_mild; [done|exact M|apply spares_none].
  - rewrite Eb. eapply mild_afresh; [exact M|by eapply lk_machines|set_solver|done].
  - by rewrite Er, (mw_ram _ _ _ (mi_world _ _ _ M)).
Qed.

Lemma branch_made_mild source Dm dst hist branch s s' :
  branch_made source Dm dst hist branch s -> mild ∅ s s' -> branch_made source Dm dst hist branch s'.
Proof. intros (hist' & prep & cap & gu & d & Hst & P) M. destruct (pending_mild _ _ _ _ _ _ _ _ _ _ _ P M) as [d' P']. by exists hist', prep, cap, gu, d'. Qed.

Lemma pending_quiet source prep captured branch Dm dst hist gu d s :
  pending source prep captured branch Dm dst hist gu d s -> quiet_but source (sm_guests (hi_sys hist)).
Proof. intros []. by eapply linked_quiet_but. Qed.

(** The fork is given up after that. *)
Lemma branch_made_published source Dm dst hist branch s : branch_made source Dm dst hist branch s -> reaches Dm dst hist s.
Proof.
  intros (hist' & prep & cap & gu & d & Hst & P). eapply reaches_after; [exact Hst|]. pose proof (pending_quiet _ _ _ _ _ _ _ _ _ _ P) as Hq. destruct P.
  destruct hist' as [[w0 G] run past]. cbn in *.
  eapply (settle_with source Dm Dm dst (mkRamHistory (mkRamSystem w0 G) run past) s source d (gu_copied (kv_ram d) gu)); [done|done|done|done| |done|].
  - destruct pd_log0. split; [done|by cbn|done|done|]. intros Hn. by apply copied_whole, pd_whole0.
  - by eapply tr_publish.
Qed.

(** The child has the memory the source has. *)
Definition live_copy source j Dm hist : Prop := source ∉ Dm -> exists bytes, twins source j bytes hist.

Lemma wp_materialize_linked source branch Dm dst hist s : branch_made source Dm dst hist branch s -> A (ks_next_vm s.2) ->
  wp (on_world (with_ram (Ram.materialize branch)) : K _)
    (fun child s' => s'.2 = s.2 /\ kw_vmm s'.1 = kw_vmm s.1 /\
       arrives (live_copy source (ks_next_vm s.2) Dm) (ks_next_vm s.2) Dm dst hist child s')
    (stops (reaches ({[source]} ∪ Dm) dst hist)) s.
Proof.
  intros (hist' & prep & cap & gu & d & Hst & P) HAj. pose proof (pending_quiet _ _ _ _ _ _ _ _ _ _ P) as Hq. destruct P.
  destruct (free_in_fork _ _ _ _ _ _ pd_linked0 pd_vm0) as [Hnj Hj].
  unfold on_world, with_ram, wp, zoom, with_err. destruct (Ram.materialize branch (kw_ram s.1)) as [rw res] eqn:Hm. cbn.
  destruct hist' as [[w0 G] run past]. cbn in *.
  assert (finish_fork prep cap (w0, gu_ram gu) = ((rw, kv_ram d), res)) as Hf.
  { unfold finish_fork, Ram.on_world, zoom, mbind, M_bind. rewrite pd_branch0. cbn. by rewrite Hm. }
  pose proof (tr_finish source (ks_next_vm s.2) w0 G gu prep cap rw (kv_ram d) res Hq pd_guest0 Hj pd_prep0 pd_fits0 pd_captured0 Hf) as Ht.
  set (s' := (set_kw_ram rw s.1, s.2)). assert (linked storage {[source]} None Dm dst G s') as L' by (by destruct pd_linked0; split).
  destruct res as [child|e]; cbn.
  - split_and!; [done|done|]. destruct (history_reachable_ok _ _ pd_reach0) as [Kn I].
    destruct (forked_newcomer Dm dst (mkRamHistory (mkRamSystem w0 G) run past) s' source d gu child source) as (hist2 & Hst2 & N & Ht2); try done.
    { intros Hn. eapply (finish_keeps_promise Kn w0 G source); [apply I|done|by apply pd_whole0|done|done|done|exact Hf]. }
    exists hist2. split_and!; [by etrans|exact N|]. intros Hn. eexists. by apply Ht2.
  - eapply reaches_after; [exact Hst|].
    eapply (settle_with source Dm _ dst (mkRamHistory (mkRamSystem w0 G) run past) s' source d (gu_failed (kv_ram d) gu)); [done|done|set_solver|done| |done|exact Ht].
    destruct pd_log0. split; [done|by cbn|done|done|set_solver].
Qed.

(** ** The child's backend *)

(** Only machines made since [s] were asked. *)
Definition aside s s' : Prop := exists Y, mild Y s s' /\ forall m, m ∈ Y -> m ∉ machines (kw_vmm s.1).

Lemma aside_spares X pr Dm dst G s s' : linked storage X pr Dm dst G s -> aside s s' -> exists Y, mild Y s s' /\ forall X', spares Y X' s.
Proof. intros L (Y & M & HY). exists Y. split; [done|]. intros X' id d Hd _ Hin. by eapply (HY _ Hin), lk_machines. Qed.

Lemma wp_revive_mild capture ram s :
  wp (on_world (revive_backend capture ram) : K _)
    (fun c s' => ch_worker c = Some (ch_api c) /\ (Worker (ch_api c) ∉ machines (kw_vmm s.1)) /\ mild {[Worker (ch_api c)]} s s' /\
                 Worker (ch_api c) ∈ machines (kw_vmm s'.1) /\ starts_afresh (Worker (ch_api c)) (kw_vmm s'.1))
    (stops (aside s)) s.
Proof.
  unfold on_world, revive_backend, with_vmm. kvm_steps. eapply wp_mono; [apply wp_start_logs| |].
  2: { intros e h C. exists ∅. split; [by apply mild_set_vmm|set_solver]. }
  intros c h1 (C1 & Hc & Hn & Hi). kvm_steps. cbn. set (m := Worker (ch_api c)) in *.
  assert (calm {[m]} (kw_vmm s.1) h1) as C1' by (eapply calm_mono; [|exact C1]; set_solver).
  assert (forall h2, calm {[m]} (kw_vmm s.1) h2 -> forall (e : SupervisorError),
    wp (drop_backend (CloudVm c) : KW unit) (fun _ w => stops (aside s) (Failed e) (w, s.2))
      (fun e w => stops (aside s) e (w, s.2)) (set_kw_vmm h2 s.1)) as Hdrop.
  { intros h2 C2 e. assert (mild {[m]} s (set_kw_vmm h2 s.1, s.2)) as M2 by by apply mild_set_vmm.
    eapply wp_keeps; [by apply (mild_drop_backend (CloudVm c))| |]; intros ? w Mw; [|destruct e0; [|done]]; exists {[m]}; (split; [|set_solver]).
    all: split; [etrans; [apply M2|exact Mw]|done..]. }
  eapply wp_keeps; [apply calm_restore| |].
  2: { intros e h2 C2. apply (Hdrop h2 ltac:(by etrans) (KvmVmm e)). }
  intros _ h2 C2. kvm_steps. cbn. eapply wp_mono; [apply wp_begin| |].
  2: { intros e h3 C3. apply (Hdrop h3 ltac:(do 2 (etrans; [eassumption|]); done) (KvmVmm e)). }
  intros _ h3 [C3 Hl3]. kvm_steps. cbn. assert (calm {[m]} (kw_vmm s.1) h3) as C13 by (do 2 (etrans; [eassumption|]); done).
  assert (forall h4, calm ∅ h3 h4 -> calm {[m]} (kw_vmm s.1) h4) as C14.
  { intros h4 C4. etrans; [exact C13|]. eapply calm_mono; [|exact C4]. set_solver. }
  eapply wp_keeps; [apply calm_resume| |].
  - intros _ h4 C4. kvm_steps. split_and!; [done|done|by apply (mild_set_vmm _ s), C14| |].
    + cbn. apply C4, C3, C2, Hi.
    + cbn. eapply calm_afresh; [exact C4|apply C3, C2, Hi|set_solver|exact Hl3].
  - intros e h4 C4. apply (Hdrop h4 (C14 h4 C4) (KvmVmm e)).
Qed.

(** A fork that is given up while its source is prepared. *)
Lemma preparing_given_up source prep d gu Dm dst hist s s' : A source ->
  settled ∅ (Some (source, prep)) Dm dst hist s -> ks_vms s.2 !! source = Some d -> sm_guests (hi_sys hist) !! source = Some gu ->
  tied (Some prep) (source ∉ Dm) (kw_vmm s.1) d gu -> mild {[machine_of (kv_backend d)]} s s' ->
  log_left (machine_of (kv_backend d)) (kw_vmm s.1) (kw_vmm s'.1) ->
  reaches ({[source]} ∪ Dm) dst hist s'.
Proof.
  intros HA [L Ew R] Hd Hg T M [Ht Hlog]. destruct (mild_vm _ _ _ _ _ M Hd) as (d' & Hd' & Eb & Er').
  pose proof (linked_preparing _ _ _ _ _ _ L) as L0. pose proof (mw_ram _ _ _ (mi_world _ _ _ M)) as Ew'.
  eapply (abandon_guest Dm dst hist s' source d' gu); [done| |done|congruence|done|done| |by rewrite Eb|].
  2: { rewrite Er'. apply T. }
  2: { rewrite Eb, (ti_log _ _ _ _ _ T). exact Hlog. }
  eapply linked_mild; [exact L0|exact M|]. eapply spares_own; [exact L0|exact Hd|set_solver].
Qed.

Lemma fork_state source prep c Dm dst hist s :
  settled ∅ (Some (source, prep)) Dm dst hist s -> forkable c source s ->
  exists d gu, ks_vms s.2 !! source = Some d /\ kv_backend d = CloudVm c /\ sm_guests (hi_sys hist) !! source = Some gu /\
    tied (Some prep) (source ∉ Dm) (kw_vmm s.1) d gu /\ room 1 (lenN (pages (gu_ram gu))) (kw_ram s.1) /\
    Worker (ch_api c) ∈ machines (kw_vmm s.1).
Proof.
  intros Hs (d & Hd & Hb & Hr). destruct (settled_guest _ _ _ _ _ _ _ _ Hs (not_elem_of_empty _) Hd) as (gu & Hg & T).
  cbn in T. rewrite decide_True in T by done. exists d, gu. split_and!; [done..|by rewrite (ti_ram _ _ _ _ _ T)|].
  pose proof (lk_machines _ _ _ _ _ _ _ (se_linked _ _ _ _ _ _ _ Hs) _ _ Hd) as Hm. by rewrite Hb in Hm.
Qed.

(** [finish_prepared_branch], once the VMM handed out what the guest wrote
    since the first copy. *)
Lemma wp_finish_linked source prep captured c Dm dst hist s0 s : A source ->
  settled ∅ (Some (source, prep)) Dm dst hist s0 -> forkable c source s0 -> mild {[Worker (ch_api c)]} s0 s ->
  starts_afresh (Worker (ch_api c)) (kw_vmm s.1) -> captures captured (logged (Worker (ch_api c)) (kw_vmm s0.1)) ->
  wp (on_ram source (Ram.finish_prepared_branch prep captured) : K _)
    (fun branch s' => branch_made source Dm dst hist branch s' /\ ks_next_vm s'.2 = ks_next_vm s0.2)
    (stops (reaches ({[source]} ∪ Dm) dst hist)) s.
Proof.
  intros HA Hs Hf M Hlog Hc. destruct (fork_state _ _ _ _ _ _ _ Hs Hf) as (d & gu & Hd & Hb & Hg & [T1 T2 T5 T3 T4] & Hroom & Hm).
  pose proof Hs as [L Ew R]. pose proof (linked_preparing _ _ _ _ _ _ L) as L0. rewrite Hb in T2. cbn in T2.
  destruct (mild_vm _ _ _ _ _ M Hd) as (d' & Hd' & Eb & Er). pose proof (mw_ram _ _ _ (mi_world _ _ _ M)) as Ew'.
  assert (linked storage {[source]} None Dm dst (sm_guests (hi_sys hist)) s) as L1.
  { eapply linked_mild; [exact L0|exact M|]. replace (Worker (ch_api c)) with (machine_of (kv_backend d)) by by rewrite Hb.
    eapply spares_own; [exact L0|exact Hd|set_solver]. }
  apply wp_on_vm_ram. intros d2 rw ram r Hd2 Hr s'. rewrite Hd' in Hd2. injection Hd2 as <-. rewrite Er, <-T1, Ew', <-Ew in Hr.
  pose proof (linked_begin _ _ _ _ _ _ _ rw source d' ram L1 (reflexivity _) Hd') as L2. fold s' in L2.
  assert (ks_vms s'.2 !! source = Some (mkKvmVm (kv_backend d') ram (kv_filesystem d'))) as Hs' by apply lookup_insert_eq.
  destruct (free_in_fork _ _ _ _ _ _ L2 Hs') as [Hfree Hj].
  rewrite <-T2 in Hc. rewrite <-Ew in Hroom. pose proof (room_fits _ _ _ _ Hroom (N.le_refl _) (N.le_refl _)) as Hfit.
  destruct r as [branch|e].
  - split; [|apply M]. exists hist, prep, captured, gu, (mkKvmVm (kv_backend d') ram (kv_filesystem d')). split; [done|].
    split; try done. cbn. by rewrite Eb, Hb.
  - assert (quiet_but source (sm_guests (hi_sys hist))) as Hq by (by eapply linked_quiet_but).
    destruct hist as [[w0 G] run past]. cbn in *. subst w0.
    assert (finish_fork prep captured (kw_ram s0.1, gu_ram gu) = ((rw, ram), Err e)) as Hff.
    { unfold finish_fork, mbind, M_bind. by rewrite Hr. }
    pose proof (tr_finish source _ _ G gu prep captured rw ram (Err e) Hq Hg Hj T3 Hfit Hc Hff) as Ht.
    eapply (settle_with source Dm _ dst (mkRamHistory (mkRamSystem (kw_ram s0.1) G) run past) s' source); [exact L2|exact R|set_solver|exact Hs'| |exact HA|exact Ht].
    destruct Hlog. split; [done|by cbn; rewrite Eb, Hb|by cbn; rewrite Eb, Hb|done|set_solver].
Qed.

Lemma wp_fork_cloud_linked source prep c Dm dst hist s : A source ->
  settled ∅ (Some (source, prep)) Dm dst hist s -> forkable c source s ->
  wp (fork_cloud source c prep : K _)
    (fun p s' => branch_made source Dm dst hist p.1.2 s' /\ ks_next_vm s'.2 = ks_next_vm s.2)
    (stops (reaches ({[source]} ∪ Dm) dst hist)) s.
Proof.
  intros HA Hs Hf. destruct (fork_state _ _ _ _ _ _ _ Hs Hf) as (d & gu & Hd & Hb & Hg & T & Hroom & Hm).
  pose proof (ti_tracked _ _ _ _ _ T) as T3. rewrite Hb in T3. cbn in T3.
  assert (forall s', mild {[Worker (ch_api c)]} s s' -> log_left (Worker (ch_api c)) (kw_vmm s.1) (kw_vmm s'.1) ->
    reaches ({[source]} ∪ Dm) dst hist s') as Hgive.
  { intros s' M Hl. eapply preparing_given_up; [exact HA|exact Hs|exact Hd|exact Hg|exact T|by rewrite Hb|by rewrite Hb]. }
  unfold fork_cloud. wp_steps. eapply wp_mono; [by apply wp_capture_mild| |].
  2: { intros e s1. apply stops_mono. intros [M Hk]. by apply Hgive. }
  intros cap s1 (M1 & Hl1 & Hc1). wp_steps.
  eapply wp_keeps; [apply mild_on_fs| |].
  - intros fs s2 M2. wp_steps. assert (mild {[Worker (ch_api c)]} s s2) as M02 by (etrans; [exact M1|eapply mild_mono; [|exact M2]; set_solver]).
    assert (starts_afresh (Worker (ch_api c)) (kw_vmm s2.1)) as Hl2 by (eapply mild_afresh; [exact M2|by eapply mild_known|set_solver|done]).
    eapply wp_mono; [eapply (wp_or_drop_mild ∅); [by eapply wp_finish_linked|apply mild_on_world, mild_drop_filesystem|]| |done].
    + intros s3 s4. apply reaches_mild.
    + intros branch s3 [H3 E3]. by wp_steps.
  - intros [e|] s2 M2; [|done]. apply Hgive; [etrans; [exact M1|eapply mild_mono; [|exact M2]; set_solver]|].
    apply afresh_left. eapply mild_afresh; [exact M2|by eapply mild_known|set_solver|done].
Qed.

Lemma wp_start_child_linked source r capture branch fs Dm dst hist s : branch_made source Dm dst hist branch s -> A (ks_next_vm s.2) ->
  wp (start_child r capture branch fs : K _)
    (fun child s' => backend_wf (kv_backend child.1) /\
       child_ready (live_copy source (ks_next_vm s.2) Dm) (machine_of (kv_backend child.1)) Dm dst hist (ks_next_vm s.2) (kv_ram child.1) s')
    (stops (reaches ({[source]} ∪ Dm) dst hist)) s.
Proof.
  intros Hs HAj. unfold start_child.
  apply (wp_or_drop_mild ∅ _ _ _ (reaches ({[source]} ∪ Dm) dst hist)); [|apply mild_on_world, mild_drop_filesystem|intros s1 s2; apply reaches_mild].
  kvm_steps. destruct r as [[]|e]; [|eapply reaches_more; [by eapply branch_made_published|set_solver]]. kvm_steps.
  eapply wp_mono; [by apply wp_materialize_linked| |done]. intros ram s1 (E1 & V1 & hist1 & Hst1 & N1 & P1). kvm_steps.
  pose proof (nc_linked _ _ _ _ _ _ _ _ N1) as L1. eapply wp_mono; [apply wp_revive_mild| |].
  - intros c s2 (Hc & Hn & M2 & Hi & Hl). kvm_steps. cbn. split; [done|].
    assert (Worker (ch_api c) ∉ machs (kv_backend <$> ks_vms s1.2)) as Hm by (by intros Hin%(machs_machines _ _ _ _ _ _ L1)).
    split_and!; [|done|by rewrite (mild_machs _ _ _ M2)|done]. exists hist1. split_and!; [done| |done].
    eapply newcomer_mild; [exact N1|exact M2|by apply spares_fresh].
  - intros e s2. apply stops_mono. intros Ha. destruct (aside_spares _ _ _ _ _ _ _ L1 Ha) as (Y & M & HY).
    eapply reaches_more; [|apply union_subseteq_r]. eapply reaches_after; [exact Hst1|]. by eapply newcomer_dropped, newcomer_mild.
Qed.

(** What the guest does while the source is copied. *)
Definition guest_only (guest : K unit) : Prop := forall s, wp guest (fun _ => rtc (guest_step A) s) (fun _ _ => False) s.

Lemma guest_step_next s s' : guest_step A s s' -> ks_next_vm s'.2 = ks_next_vm s.2.
Proof. intros [id off bytes _ (d & rw & ram & _ & _ & _ & M & _)|M]; by rewrite (mi_next _ _ _ M). Qed.
Lemma guest_steps_next s s' : rtc (guest_step A) s s' -> ks_next_vm s'.2 = ks_next_vm s.2.
Proof. induction 1 as [|s s1 s' H1 _ IH]; [done|]. by rewrite IH, (guest_step_next _ _ H1). Qed.

(** From the pause of the prepared source to the child. *)
Lemma wp_fork_paused source prep c started Dm dst hist s : A source -> A (ks_next_vm s.2) ->
  settled ∅ (Some (source, prep)) Dm dst hist s -> forkable c source s -> ks_next_vm s.2 < u64_MAX ->
  wp (_ ← on_world (with_vmm (ChVm.pause c));
      fork_result ← catch (fork_cloud source c prep);
      resume_result ← catch (on_world (with_vmm (ChVm.resume c)));
      '(capture, child_ram_branch, child_filesystem) ← rethrow fork_result;
      child ← start_child resume_result capture child_ram_branch child_filesystem;
      id ← insert_vm child.1;
      _ ← update (set_last_fork_pause (Some (child.2 - started)));
      mret id : K N)
    (fun id s' => id = ks_next_vm s.2 /\ forked_to (live_copy source (ks_next_vm s.2) Dm) Dm dst hist s')
    (stops (reaches ({[source]} ∪ Dm) dst hist)) s.
Proof.
  intros HA HAj Hs Hf Hnext. kvm_steps. eapply wp_keeps; [apply mild_on_world, mild_vmm, calm_pause| |].
  2: { intros [e|] s1 M1; [|done]. destruct (fork_state _ _ _ _ _ _ _ Hs Hf) as (d & gu & Hd & Hb & Hg & T & _ & Hm).
       pose proof (mild_mono _ {[machine_of (kv_backend d)]} _ _ (empty_subseteq _) M1) as M1'.
       eapply preparing_given_up; [exact HA|exact Hs|exact Hd|exact Hg|exact T|exact M1'|].
       eapply calm_left; [apply M1|by rewrite Hb|set_solver|apply T]. }
  intros [] s1 M1. pose proof (settled_mild _ _ _ _ _ _ _ _ Hs M1 (spares_none _ _)) as Hs1. kvm_steps.
  pose proof (forkable_mild _ _ _ _ _ Hf M1) as Hf1.
  eapply wp_mono; [by apply wp_fork_cloud_linked| |].
  - intros [[capture branch] fs] s2 [H2 E2]. cbn in H2. kvm_steps. rewrite (mi_next _ _ _ M1) in E2.
    assert (forall (r : result SupervisorError unit) s3, mild ∅ s2 s3 ->
      wp (child ← start_child r capture branch fs; id ← insert_vm child.1; _ ← update (set_last_fork_pause (Some (child.2 - started))); mret id : K N)
        (fun id s' => id = ks_next_vm s.2 /\ forked_to (live_copy source (ks_next_vm s.2) Dm) Dm dst hist s')
        (stops (reaches ({[source]} ∪ Dm) dst hist)) s3) as Hrest.
    { intros r s3 M3. kvm_steps.
      eapply wp_mono; [eapply (wp_start_child_linked source); [by eapply branch_made_mild|by rewrite (mi_next _ _ _ M3), E2]| |done].
      intros [child now] s4 [Hwf Hc]. kvm_steps. rewrite (mi_next _ _ _ M3), E2 in Hc. cbn in Hc, Hwf.
      eapply wp_mono; [by apply (wp_insert_child _ Dm dst hist _ child (fun _ _ => False) _ Hc)| |done].
      intros id s5 [-> H5]. kvm_steps. split; [done|]. by apply forked_set_pause. }
    eapply wp_keeps; [apply mild_on_world, mild_vmm, calm_resume| |]; [|intros [e|]]; [| |done]; intros; kvm_steps; rewrite <-wp_bind; by apply Hrest.
  - intros [e|] s2 H2; [|done]. kvm_steps. eapply wp_keeps; [apply mild_on_world, mild_vmm, calm_resume| |]; [|intros [e'|]]; [| |done];
      intros; kvm_steps; by eapply reaches_mild.
Qed.

Lemma fork_cloud_vm_linked guest source d c Dm dst hist s : guest_only guest ->
  settled ∅ None Dm dst hist s -> ks_vms s.2 !! source = Some d -> kv_backend d = CloudVm c ->
  room 2 (2 * lenN (pages (kv_ram d))) (kw_ram s.1) -> ks_next_vm s.2 < u64_MAX -> A source -> A (ks_next_vm s.2) ->
  wp (fork_cloud_vm guest source c : K N) (fun id s' => id = ks_next_vm s.2 /\ forked_to (live_copy source (ks_next_vm s.2) Dm) Dm dst hist s')
    (stops (reaches ({[source]} ∪ Dm) dst hist)) s.
Proof.
  intros Hguest Hs Hd Hb Hroom Hnext HA HAj. unfold fork_cloud_vm. wp_steps.
  pose proof (lk_machines _ _ _ _ _ _ _ (se_linked _ _ _ _ _ _ _ Hs) _ _ Hd) as Hm. rewrite Hb in Hm. cbn in Hm.
  assert (Worker (ch_api c) ∈ tracked (kw_vmm s.1)) as Htr.
  { destruct (settled_guest _ _ _ _ _ _ _ _ Hs (not_elem_of_empty _) Hd) as (gu & _ & T). pose proof (ti_tracked _ _ _ _ _ T) as Ht. by rewrite Hb in Ht. }
  eapply wp_mono; [by apply wp_take_mild| |].
  2: { intros e s1. apply stops_mono. intros [M Hk]. destruct (settled_guest _ _ _ _ _ _ _ _ Hs (not_elem_of_empty _) Hd) as (gu & Hg & T).
       destruct (mild_vm _ _ _ _ _ M Hd) as (d1 & Hd1 & Eb & Er). destruct Hs as [L Ew R].
       assert (mild {[machine_of (kv_backend d)]} s s1) as M' by by rewrite Hb. pose proof (linked_asked _ _ _ _ _ _ _ L Hd M') as L1.
       eapply (abandon_guest Dm dst hist s1 source d1 gu HA L1); [done|by rewrite (mw_ram _ _ _ (mi_world _ _ _ M))|done|done| | |].
       - rewrite Er. apply T.
       - rewrite Eb, Hb. apply Hk.
       - rewrite (ti_log _ _ _ _ _ T), Eb, Hb. apply Hk. }
  intros captured s1 (M1 & Hl1 & Hc1). wp_steps. eapply wp_mono; [by eapply (wp_prepare_linked source d c)| |done].
  intros prep s2 (Hf2 & E2 & hist2 & Hst2 & Hs2). wp_steps. eapply wp_mono; [apply Hguest| |done].
  intros [] s3 Hg3. destruct (guest_steps_linked _ _ _ _ _ _ Hs2 Hg3) as (hist3 & Hst3 & Hs3). unfold instant. wp_steps. rewrite <-wp_bind.
  assert (ks_next_vm s3.2 = ks_next_vm s.2) as E3 by by rewrite (guest_steps_next _ _ Hg3), E2.
  eapply wp_mono; [apply (wp_fork_paused source prep c); [exact HA|by rewrite E3|exact Hs3|by eapply forkable_guests|by rewrite E3]| |].
  - intros id s4 [-> H4]. rewrite E3 in *. split; [done|]. eapply forked_to_after; [|exact H4]. by etrans.
  - intros e s4. apply stops_mono. intros H4. eapply reaches_after; [|exact H4]. by etrans.
Qed.

(** After a fork the two VMs have the same memory; a raw VM, which was paused
    all along, has the memory it had. *)
Definition copy_made source Dm s hist : Prop := source ∉ Dm -> exists bytes, twins source (ks_next_vm s.2) bytes hist /\
  forall d vm, ks_vms s.2 !! source = Some d -> kv_backend d = RawVm vm -> bytes = Ram.ram_bytes (rm_storage (kw_ram s.1)) (kv_ram d).

Lemma fork_vm_linked guest source Dm dst hist s : guest_only guest -> settled ∅ None Dm dst hist s ->
  (forall d, ks_vms s.2 !! source = Some d -> room 2 (2 * lenN (pages (kv_ram d))) (kw_ram s.1)) -> ks_next_vm s.2 < u64_MAX ->
  A source -> A (ks_next_vm s.2) ->
  wp (fork_vm guest source : K N) (fun id s' => id = ks_next_vm s.2 /\ forked_to (copy_made source Dm s) Dm dst hist s')
    (stops (reaches ({[source]} ∪ Dm) dst hist)) s.
Proof.
  intros Hguest Hs Hroom Hnext HA HAj. unfold fork_vm, find. kvm_steps. unfold ok_or.
  destruct (ks_vms s.2 !! source) as [d|] eqn:Hd; [|eapply reaches_more; [by apply reaches_here|set_solver]]. specialize (Hroom d eq_refl).
  destruct (kv_backend d) as [vm|c] eqn:Hb.
  - eapply wp_mono; [eapply fork_raw_vm_linked; [done|done|done| |done|done|done]| |done]; [destruct Hroom; split; lia|].
    intros id s' (-> & hist' & Hst & Hs' & HP). split; [done|]. exists hist'. split_and!; [done|done|]. intros Hn. eexists. split; [by apply HP|].
    intros d' vm' Hd' _. congruence.
  - eapply wp_mono; [by eapply fork_cloud_vm_linked| |done].
    intros id s' (-> & hist' & Hst & Hs' & HP). split; [done|]. exists hist'. split_and!; [done|done|]. intros Hn.
    destruct (HP Hn) as [bytes Hb']. exists bytes. split; [done|]. intros d' vm' Hd' Hb2. congruence.
Qed.

End forks.
