(* ===== verification/KvmManifest.v ===== *)
(** * The manifest of a durable forest

    [forest.json] is replaced as a whole: after a crash in the middle of a
    checkpoint the forest's manifest is one that was complete, and after a
    checkpoint that succeeded it is the new one. *)

From S2P Require Import Prelude Generations Host CacheTypes SharedCache Storage RedoxBranch RedoxFacts VmmTypes VirtioFs Lineages Ram RamDurable RamArchive KvmVmm KvmSupervisor KvmRecovery KvmForest.
Import Kvm KvmDur.

(** ** What a crash may leave *)

Section directory.
Context (dir : string).
Implicit Types (st : Storage) (i : Inode) (c : option (list byte)).

(** The bytes the directory's manifest has, now or if only synchronised names
    are left. *)
Definition content st : option (list byte) := sto_names st !! manifest_path dir ≫= fun i => sto_data st !! i.
Definition stable_content st : option (list byte) := sto_stable_names st !! manifest_path dir ≫= fun i => sto_data st !! i.

Definition may_find st c : Prop := exists st', crash_to st st' /\ content st' = c.

(** What the name stands for is there and has been synchronised. *)
Definition synced st i : Prop := sto_stable st !! i = sto_data st !! i /\ is_Some (sto_data st !! i).

Record manifest_kept st : Prop := {
  mk_wf : storage_wf st;
  mk_named i : sto_names st !! manifest_path dir = Some i -> synced st i;
  mk_stable i : sto_stable_names st !! manifest_path dir = Some i -> synced st i
}.

Lemma may_find_iff st c : manifest_kept st -> may_find st c <-> c = content st \/ c = stable_content st.
Proof.
  intros [_ Hn Hs]. unfold may_find, content, stable_content. split.
  - intros (st' & C & <-). destruct (crash_names _ _ C (manifest_path dir)) as [E|E]; rewrite E; [left|right].
    + destruct (sto_names st !! _) as [i|] eqn:Hi; [|done]. cbn. by apply (crash_data _ _ C), Hn.
    + destruct (sto_stable_names st !! _) as [i|] eqn:Hi; [|done]. cbn. by apply (crash_data _ _ C), Hs.
  - intros [->| ->].
    + exists (mkStorage (sto_dirs st) (sto_names st) (sto_data st) (sto_next st) (sto_names st) (sto_data st) []).
      split; [split; cbn; auto|done].
    + exists (mkStorage (sto_dirs st) (sto_stable_names st) (sto_data st) (sto_next st) (sto_stable_names st) (sto_data st) []).
      split; [split; cbn; auto|done].
Qed.

Lemma crash_kept st st' : manifest_kept st -> crash_to st st' -> manifest_kept st'.
Proof.
  intros [Hw Hn Hs] C. assert (forall i, sto_names st' !! manifest_path dir = Some i -> synced st' i) as H.
  { intros i Hi. split; [by rewrite (crash_stable _ _ C)|]. assert (synced st i) as [E [b Hb]].
    { destruct (crash_names _ _ C (manifest_path dir)) as [E|E]; rewrite E in Hi; auto. }
    rewrite (crash_data _ _ C _ E), Hb. by eexists. }
  split; [by eapply crash_wf|done|]. by rewrite (crash_stable_names _ _ C).
Qed.

(** A directory nothing was ever published in. *)
Lemma fresh_kept st : sto_names st = ∅ -> sto_stable_names st = ∅ -> manifest_kept st.
Proof. intros Hn Hs. split; [split|..]; intros; rewrite ?Hn, ?Hs in *; done. Qed.

(** Calls that only make files without a name. *)
Lemma kept_beside st st' X : grows X st st' -> (forall i, i ∈ X -> sto_next st <= i) ->
  sto_names st' = sto_names st -> sto_stable_names st' = sto_stable_names st -> manifest_kept st ->
  manifest_kept st' /\ content st' = content st /\ stable_content st' = stable_content st.
Proof.
  intros G HX En Es [Hw Hn Hs].
  assert (forall i, i < sto_next st -> sto_data st' !! i = sto_data st !! i) as Hd.
  { intros i Hi. apply (grows_data _ _ _ G); [done|]. intros Hx%HX. lia. }
  assert (forall i, i < sto_next st -> synced st i -> synced st' i) as Hst.
  { intros i Hi [E Hb]. split; [|by rewrite Hd]. apply (grows_stable _ _ _ G); [done| |done]. intros Hx%HX. lia. }
  split; [split|].
  - destruct Hw as [Hw1 Hw2]. pose proof (grows_next _ _ _ G).
    split; intros p i; rewrite ?En, ?Es; intros Hp; [apply Hw1 in Hp|apply Hw2 in Hp]; lia.
  - intros i. rewrite En. intros Hi. apply Hst; [by eapply (wf_names _ Hw)|by apply Hn].
  - intros i. rewrite Es. intros Hi. apply Hst; [by eapply (wf_stable_names _ Hw)|by apply Hs].
  - unfold content, stable_content. rewrite En, Es. split.
    + destruct (sto_names st !! _) as [i|] eqn:Hi; [|done]. cbn. apply Hd. by eapply (wf_names _ Hw).
    + destruct (sto_stable_names st !! _) as [i|] eqn:Hi; [|done]. cbn. apply Hd. by eapply (wf_stable_names _ Hw).
Qed.

(** What publishing [bytes] may have done. *)
Record publishing st bytes st' : Prop := {
  pu_kept : manifest_kept st';
  pu_found c : may_find st' c -> may_find st c \/ c = Some bytes
}.

Lemma publishing_beside st st' X bytes : grows X st st' -> (forall i, i ∈ X -> sto_next st <= i) ->
  sto_names st' = sto_names st -> sto_stable_names st' = sto_stable_names st -> manifest_kept st -> publishing st bytes st'.
Proof.
  intros G HX En Es Hk. destruct (kept_beside _ _ _ G HX En Es Hk) as (Hk' & Ec & Ec'). split; [done|].
  intros c. rewrite !may_find_iff by done. rewrite Ec, Ec'. auto.
Qed.

(** The new file, written and synchronised, before it gets the name. *)
Record prepared st bytes i st' : Prop := {
  pr_grows : grows ∅ st st';
  pr_names : sto_names st' = sto_names st;
  pr_stable_names : sto_stable_names st' = sto_stable_names st;
  pr_file : sto_next st <= i < sto_next st';
  pr_data : sto_data st' !! i = Some bytes;
  pr_synced : sto_stable st' !! i = Some bytes
}.

(** The name is given to the new file; then the directory is synchronised. *)
Lemma prepared_renamed st bytes i st1 st' : manifest_kept st -> prepared st bytes i st1 -> idle st1 st' ->
  publishing st bytes (set_names (<[manifest_path dir := i]> (sto_names st')) st') /\
  content (set_names (<[manifest_path dir := i]> (sto_names st')) st') = Some bytes.
Proof.
  intros Hk [G En Es Hi Hd Hsy] Id. set (st2 := set_names _ st').
  assert (sto_data st' !! i = Some bytes) as Hd' by by rewrite (idle_data _ _ Id).
  assert (content st2 = Some bytes) as Hc.
  { unfold content, st2. cbn [sto_names set_names]. rewrite lookup_insert_eq. done. }
  destruct (kept_beside st st' ∅) as (Hk' & _ & Ec').
  { eapply grows_trans; [exact G|apply Id]. }
  { set_solver. }
  { by rewrite (idle_names _ _ Id). }
  { by rewrite (idle_stable_names _ _ Id). }
  { done. }
  assert (manifest_kept st2) as Hk2.
  { split.
    - eapply wf_insert; [apply Hk'|reflexivity|cbn; rewrite (idle_next _ _ Id); lia|done|done].
    - intros j. unfold st2. cbn [sto_names set_names]. rewrite lookup_insert_eq. intros [= <-]. split; [|cbn; rewrite Hd'; by eexists].
      cbn. apply (grows_stable _ _ _ (idle_grows _ _ Id)); [lia|set_solver|]. by rewrite Hd.
    - apply Hk'. }
  split; [|done]. split; [done|]. intros c. rewrite !may_find_iff by done. intros [->| ->]; [by right; rewrite Hc|].
  left. right. rewrite <-Ec'. done.
Qed.

Lemma published_synced st bytes st1 st' : publishing st bytes st1 -> content st1 = Some bytes -> grows ∅ st1 st' ->
  sto_names st' = sto_names st1 -> storage_wf st' ->
  (forall p i, sto_names st1 !! p = Some i -> p.1 = dir -> sto_stable_names st' !! p = Some i) ->
  publishing st bytes st' /\ (forall c, may_find st' c -> c = Some bytes).
Proof.
  intros [Hk Hf] Hc G En Hwf Hst. unfold content in Hc.
  destruct (sto_names st1 !! manifest_path dir) as [i|] eqn:Hi; [|done]. cbn in Hc.
  assert (i < sto_next st1) as Hlt by (eapply (wf_names _ (mk_wf _ Hk)); done).
  assert (sto_data st' !! i = Some bytes) as Hd by (rewrite (grows_data _ _ _ G); [done|done|set_solver]).
  assert (synced st' i) as Hs.
  { split; [|rewrite Hd; by eexists]. apply (grows_stable _ _ _ G); [done|set_solver|]. by destruct (mk_named _ Hk i Hi). }
  assert (sto_stable_names st' !! manifest_path dir = Some i) as Hsn by by apply Hst.
  assert (manifest_kept st') as Hk'.
  { split; [done| |]; intros j; rewrite ?En, ?Hi, ?Hsn; by intros [= <-]. }
  assert (forall c, may_find st' c -> c = Some bytes) as Hall.
  { intros c. rewrite may_find_iff by done. unfold content, stable_content. rewrite En, Hi, Hsn. cbn. rewrite Hd. by intros [->| ->]. }
  split; [|done]. split; [done|]. intros c Hx. right. by apply Hall.
Qed.

End directory.

(** ** Checkpoints *)

Section checkpoints.
Context {W S Id St H Opts Snap Ranges : Type} `{Countable Id} `{!BranchStore W S Id St} `{!Vmm H Opts Snap Ranges}.
Context `{!ManifestCodec St Opts Snap Ranges} `{HSparse : !SparseFiles}.

Abbreviation world := (KvmWorld W S Id H).
Abbreviation KW := (M (KvmWorld W S Id H) (Stop SupervisorError)).
Abbreviation K := (M (KvmWorld W S Id H * KvmSupervisor) (Stop SupervisorError)).

Implicit Types (w : world) (s : world * KvmSupervisor).

Lemma wp_publish_manifest dir m bytes w : manifest_kept dir (kw_dir w) -> (forall b, to_json m = Ok b -> b = bytes) ->
  wp (publish_manifest dir m)
    (fun _ w' => publishing dir (kw_dir w) bytes (kw_dir w') /\ to_json m = Ok bytes /\
                 forall c, may_find dir (kw_dir w') c -> c = Some bytes)
    (fun _ w' => publishing dir (kw_dir w) bytes (kw_dir w')) w.
Proof.
  intros Hk Hj. unfold publish_manifest, with_dir, with_json. set (st := kw_dir w) in *. kvm_steps. fold st.
  unfold Fd.new_in. wp_steps. case_decide.
  { wp_steps. apply (publishing_beside dir st st ∅); [apply grows_refl|set_solver|done|done|done]. }
  apply wp_fd_tempfile.
  2: { intros e st1 Hi. apply (publishing_beside dir st st1 ∅); [apply Hi|set_solver|apply Hi|apply Hi|done]. }
  intros st1 C. wp_steps.
  assert (forall st', grows ∅ st st' -> sto_names st' = sto_names st -> sto_stable_names st' = sto_stable_names st ->
    publishing dir st bytes st') as Hfail by (intros st' G En Es; by apply (publishing_beside dir st st' ∅); [|set_solver|..]).
  pose proof (creates_grows _ _ _ C) as G1. pose proof (creates_names _ _ _ C) as En1. pose proof (creates_stable_names _ _ _ C) as Es1.
  destruct (to_json m) as [b|e]; cbn; [|by apply Hfail]. specialize (Hj b eq_refl) as ->. kvm_steps. cbn.
  apply (wp_write_all _ _ []).
  { rewrite (creates_data _ _ _ C), lookup_insert_eq. done. }
  2: { intros e st2 part G2 En2 _ Es2 _ _. apply Hfail; [|congruence|congruence].
       eapply grows_fresh; [exact G1|exact G2|]. intros i ->%elem_of_singleton. right. lia. }
  intros st2 G2 En2 Ex2 Es2 Hd2. wp_steps. cbn in *.
  assert (grows ∅ st st2) as G12.
  { eapply grows_fresh; [exact G1|exact G2|]. intros i ->%elem_of_singleton. right. lia. }
  apply wp_sync_data.
  2: { intros e st3 (G3 & En3 & _ & Es3 & _) _. apply Hfail; [by eapply grows_trans|congruence|congruence]. }
  intros st3 (G3 & En3 & Ex3 & Es3 & _) Hd3 Hs3. wp_steps. cbn.
  assert (prepared st bytes (sto_next st) st3) as Hp.
  { split; [by eapply grows_trans|congruence|congruence| |by rewrite Hd3|by rewrite Hs3].
    rewrite Ex3, Ex2, (creates_next _ _ _ C). lia. }
  unfold Fd.persist. wp_steps. apply wp_sto_call.
  2: { intros e st4 Hi. apply Hfail; [eapply grows_trans; [apply Hp|apply Hi]|rewrite (idle_names _ _ Hi); apply Hp|rewrite (idle_stable_names _ _ Hi); apply Hp]. }
  intros o st4 Hi. wp_steps. cbn. destruct (prepared_renamed dir _ _ _ _ _ Hk Hp Hi) as [Hpub Hc].
  set (st5 := set_names _ st4) in *. apply wp_sync_directory; [apply (mk_wf dir), Hpub| |].
  2: { intros e st6 (G6 & En6 & _ & Es6 & _) _. destruct (kept_beside dir st5 st6 ∅ G6) as (Hk6 & Ec & Ec'); [set_solver|done|done|apply Hpub|].
       split; [done|]. intros c. rewrite may_find_iff by done. rewrite Ec, Ec'. intros Hx. apply (pu_found _ _ _ _ Hpub).
       apply may_find_iff; [apply Hpub|done]. }
  intros st6 G6 En6 Ex6 Hwf6 Hst6. pose proof (published_synced dir st bytes st5 st6 Hpub Hc G6 En6 Hwf6 Hst6) as [HA HB]. done.
Qed.

(** What [serde] does not write of a configuration, and what it puts there
    when it reads one. *)
Definition unserved (fs : FsConfig) : FsConfig :=
  mkFsConfig (fc_pci_common fs) (fc_tag fs) (fc_socket fs) (fc_num_queues fs) (fc_queue_size fs) None 0.

Definition stored_backend (b : DurableBackend Opts Snap Ranges) : DurableBackend Opts Snap Ranges :=
  match b with
  | DurableRaw => DurableRaw
  | DurableCloud config snapshot dirty_memory indexes =>
      DurableCloud (with_config_fs (fmap unserved) config) snapshot dirty_memory indexes
  end.

Definition stored (m : ForestManifest St Opts Snap Ranges) : ForestManifest St Opts Snap Ranges :=
  mkForestManifest (fm_version m) (fm_next_vm m) (fm_next_lineage m)
    ((fun vm => mkVmManifest (vmf_id vm) (stored_backend (vmf_backend vm)) (vmf_ram vm) (vmf_filesystem vm)) <$> fm_vms m).

Class ManifestCodecLaws := codec_roundtrip m bytes : to_json m = Ok bytes -> from_json bytes = Ok (stored m).

(** ** What a checkpoint leaves alone *)

Record same_dir s s' : Prop := {
  sd_dir : kw_dir s'.1 = kw_dir s.1;
  sd_vms id : is_Some (ks_vms s'.2 !! id) <-> is_Some (ks_vms s.2 !! id);
  sd_next_vm : ks_next_vm s'.2 = ks_next_vm s.2;
  sd_next_lineage : ks_next_lineage s'.2 = ks_next_lineage s.2
}.

#[export] Instance same_dir_preorder : PreOrder same_dir.
Proof.
  split; [by intros s|]. intros s s' s'' [D V A B] [D' V' A' B']. split; [congruence| |congruence|congruence].
  intros id. by rewrite V'.
Qed.

Lemma keeps_catch {E A} (m : M (world * KvmSupervisor) (Stop E) A) : keeps same_dir m -> keeps same_dir (catch m).
Proof. intros Hm s. specialize (Hm s). unfold catch. by destruct (m s) as [s' [a|[e|]]]. Qed.

Lemma same_dir_world w s : kw_dir w = kw_dir s.1 -> same_dir s (w, s.2).
Proof. by split. Qed.

Lemma keeps_dir_world {A} (m : KW A) : (forall w, kw_dir (m w).1 = kw_dir w) -> keeps same_dir (on_world m).
Proof. intros Hm s. unfold on_world, zoom. specialize (Hm s.1). destruct (m s.1) as [w r]. by apply same_dir_world. Qed.

Lemma keeps_dir_vmm {A} (m : M H VmmError A) : keeps same_dir (on_world (with_vmm m) : K A).
Proof. apply keeps_dir_world. intros w. unfold with_vmm, zoom. by destruct (with_err _ m _). Qed.
Lemma keeps_dir_in_vmm {A} op (m : M H string A) : keeps same_dir (on_world (in_vmm op m) : K A).
Proof. apply keeps_dir_world. intros w. unfold in_vmm, zoom. by destruct (with_err _ m _). Qed.
Lemma keeps_dir_ram {A} (m : Ram.RW A) : keeps same_dir (on_world (with_ram m) : K A).
Proof. apply keeps_dir_world. intros w. unfold with_ram, zoom. by destruct (with_err _ m _). Qed.

Lemma put_members (vms : gmap N KvmVm) id d d' i : vms !! id = Some d -> is_Some (<[id := d']> vms !! i) <-> is_Some (vms !! i).
Proof. intros Hd. rewrite lookup_insert_is_Some'. split; [intros [<-|?]; [by eexists|done]|auto]. Qed.

Lemma keeps_dir_on_ram {A} id (m : Ram.R A) : keeps same_dir (on_ram id m : K A).
Proof.
  intros s. unfold on_ram. destruct (ks_vms s.2 !! id) as [d|] eqn:Hd; [|reflexivity].
  destruct (m _) as [[w ram] r]. split; [done| |done|done]. intros i. by eapply put_members.
Qed.

Lemma keeps_dir_on_fs {A} id (m : M (Lineage W S Id * VirtioFs) VmmError A) : keeps same_dir (on_fs id m : K A).
Proof.
  intros s. unfold on_fs. destruct (ks_vms s.2 !! id) as [d|] eqn:Hd; [|reflexivity].
  unfold with_fs, zoom. destruct (with_err _ _ _) as [l [[fs r]|e]]; [|done]. split; [done| |done|done]. intros i. by eapply put_members.
Qed.

Lemma keeps_dir_log ram vm : keeps same_dir (dirty_log ram vm : K _).
Proof. intros s. unfold dirty_log. by destruct (vm_get_dirty_log _ _ _ _ _). Qed.

Ltac dir_step :=
  lazymatch goal with
  | |- keeps same_dir (catch _) => apply keeps_catch
  | |- keeps same_dir (on_world (with_vmm _)) => apply keeps_dir_vmm
  | |- keeps same_dir (on_world (in_vmm _ _)) => apply keeps_dir_in_vmm
  | |- keeps same_dir (on_world (with_ram _)) => apply keeps_dir_ram
  | |- keeps same_dir (on_ram _ _) => apply keeps_dir_on_ram
  | |- keeps same_dir (on_fs _ _) => apply keeps_dir_on_fs
  | |- keeps same_dir (dirty_log _ _) => apply keeps_dir_log
  | |- keeps same_dir (index _) => unfold index
  | |- _ => keeps_step
  end.
Ltac dir_steps := repeat (dir_step; cbv beta zeta).

Lemma dir_pause b : keeps same_dir (on_world (pause_backend b) : K unit).
Proof. destruct b; unfold pause_backend; dir_steps. Qed.
Lemma dir_resume id : keeps same_dir (resume_vm id : K unit).
Proof. unfold resume_vm. dir_steps. destruct (kv_backend _); unfold resume_backend; dir_steps. Qed.

Lemma dir_pause_all vms paused : keeps same_dir (pause_all vms paused : K _).
Proof.
  revert paused. induction vms as [|[id d] vms IH]; intros paused; cbn; dir_steps; auto using dir_pause, dir_resume.
Qed.

Lemma dir_resume_all l r : keeps same_dir (resume_all l r : K _).
Proof. revert r. induction l as [|id l IH]; intros r; cbn; dir_steps; auto using dir_resume. Qed.

Lemma dir_save_vm dir id : keeps same_dir (save_vm dir id : K _).
Proof. unfold save_vm, seal_backend. dir_steps. Qed.

Lemma dir_capture dir : keeps same_dir (capture_forest dir : K _).
Proof.
  unfold capture_forest. dir_steps. generalize (vm_ids a.2) as l. induction l as [|id l IH]; cbn; dir_steps; auto using dir_save_vm.
Qed.

(** ** A checkpoint replaces the manifest *)

Lemma wp_manifest_published dir m w : manifest_kept dir (kw_dir w) ->
  wp (publish_manifest dir m)
    (fun _ w' => manifest_kept dir (kw_dir w') /\
       exists bytes, to_json m = Ok bytes /\ forall c, may_find dir (kw_dir w') c -> c = Some bytes)
    (fun _ w' => manifest_kept dir (kw_dir w') /\ forall c, may_find dir (kw_dir w') c ->
       may_find dir (kw_dir w) c \/ exists bytes, to_json m = Ok bytes /\ c = Some bytes) w.
Proof.
  intros Hk. destruct (to_json m) as [b|e] eqn:Hj.
  - eapply wp_mono; [apply (wp_publish_manifest dir m b); [done|intros b' Hb'; congruence]| |].
    + intros ? w' (Hp & _ & Hall). split; [apply Hp|eauto].
    + intros ? w' Hp. split; [apply Hp|]. intros c [?| ->]%(pu_found _ _ _ _ Hp); eauto.
  - assert (forall b b', to_json m = Ok b' -> b' = b) as Hnone by (by rewrite Hj).
    pose proof (wp_publish_manifest dir m [] w Hk (Hnone [])) as H1.
    pose proof (wp_publish_manifest dir m [zero_byte] w Hk (Hnone [zero_byte])) as H2.
    unfold wp in *. destruct (publish_manifest dir m w) as [w' [?|?]]; [destruct H1 as (_ & Hx & _); congruence|].
    split; [apply H1|]. intros c Hc. left. destruct (pu_found _ _ _ _ H1 c Hc) as [?| ->]; [done|].
    by destruct (pu_found _ _ _ _ H2 _ Hc).
Qed.

(** A manifest of the forest: its counters, and one entry for each VM. *)
Record names_forest s (m : ForestManifest St Opts Snap Ranges) : Prop := {
  nf_version : fm_version m = MANIFEST_VERSION;
  nf_next_vm : fm_next_vm m = ks_next_vm s.2;
  nf_next_lineage : fm_next_lineage m = ks_next_lineage s.2;
  nf_vms id : id ∈ vmf_id <$> fm_vms m <-> is_Some (ks_vms s.2 !! id)
}.

Lemma names_forest_same s s' m : same_dir s s' -> names_forest s' m -> names_forest s m.
Proof. intros [D V A B] [Hv Hn Hl Hi]. split; [done|congruence|congruence|]. intros id. by rewrite Hi. Qed.

Lemma wp_save_all_ids dir l s : wp (save_all dir l : K _) (fun saved _ => vmf_id <$> saved = l) (fun _ _ => True) s.
Proof.
  revert s. induction l as [|id l IH]; intros s; cbn; wp_steps; [done|].
  assert (forall s, wp (save_vm dir id : K _) (fun saved _ => vmf_id saved = id) (fun _ _ => True) s) as Hid.
  { clear. intros s. unfold save_vm. wp_steps. do 5 (apply wp_any; [intros ? ?; wp_steps|done]). done. }
  eapply wp_mono; [apply Hid| |done]. intros saved s1 <-. wp_steps. eapply wp_mono; [apply IH| |done].
  intros others s2 <-. by wp_steps.
Qed.

Lemma elem_of_vm_ids (k : KvmSupervisor) id : id ∈ vm_ids k <-> is_Some (ks_vms k !! id).
Proof.
  unfold vm_ids, vm_list. rewrite list_elem_of_fmap. split.
  - intros ([i d] & -> & Hd%elem_of_btree_list). by eexists.
  - intros [d Hd]. exists (id, d). by rewrite elem_of_btree_list.
Qed.

Lemma wp_capture_forest dir s :
  wp (capture_forest dir : K _) (fun m s' => same_dir s s' /\ names_forest s m) (fun _ s' => same_dir s s') s.
Proof.
  assert (wp (capture_forest dir : K _) (fun m _ => names_forest s m) (fun _ _ => True) s) as Hn.
  { unfold capture_forest. wp_steps. eapply wp_mono; [apply wp_save_all_ids| |done]. intros saved s' Hids. wp_steps.
    split; [done|done|done|]. intros id. cbn. rewrite Hids. apply elem_of_vm_ids. }
  pose proof (dir_capture dir s) as Hd. unfold wp in *. by destruct (capture_forest dir s) as [s' [m|e]].
Qed.

(** How a checkpoint may end. *)
Definition checkpointed dir s s' (r : result (Stop SupervisorError) unit) : Prop :=
  manifest_kept dir (kw_dir s'.1) /\
  match r with
  | Ok _ => exists m bytes, names_forest s m /\ to_json m = Ok bytes /\
      forall c, may_find dir (kw_dir s'.1) c -> c = Some bytes
  | Err _ => forall c, may_find dir (kw_dir s'.1) c -> may_find dir (kw_dir s.1) c \/
      exists m bytes, names_forest s m /\ to_json m = Ok bytes /\ c = Some bytes
  end.

Lemma checkpointed_early dir s s' e : manifest_kept dir (kw_dir s.1) -> same_dir s s' -> checkpointed dir s s' (Err e).
Proof. intros Hk [D _ _ _]. unfold checkpointed. rewrite D. auto. Qed.

Lemma checkpoint_outcome dir s : ks_storage s.2 = Some dir -> manifest_kept dir (kw_dir s.1) ->
  wp (checkpoint : K unit) (fun _ s' => checkpointed dir s s' (Ok tt)) (fun e s' => checkpointed dir s s' (Err e)) s.
Proof.
  intros Hdir Hk. unfold checkpoint. wp_steps. rewrite Hdir. cbn. wp_steps.
  eapply wp_keeps; [apply dir_pause_all| |by intros; apply checkpointed_early]. intros paused s1 D1. kvm_steps.
  eapply wp_mono; [apply wp_capture_forest| |].
  - intros m s2 [D2 Hm]. wp_steps. eapply wp_keeps; [apply dir_resume_all| |].
    2: { intros e s3 D3. apply checkpointed_early; [done|]. do 2 (etrans; [done|]). done. }
    intros r s3 D3. assert (same_dir s s3) as D by (do 2 (etrans; [done|]); done). kvm_steps.
    destruct r as [[]|e]; [|by apply checkpointed_early]. assert (names_forest s m) as Hn by exact (names_forest_same _ _ _ D1 Hm).
    unfold on_world. wp_steps. rewrite <-(sd_dir _ _ D) in Hk.
    eapply wp_mono; [apply (wp_manifest_published dir m); exact Hk| |].
    + intros ? w (Hk' & bytes & Hj & Hall). split; [done|]. by exists m, bytes.
    + intros e w [Hk' Hf]. split; [done|]. intros c [Hc|(bytes & Hj & ->)]%Hf; [left; by rewrite <-(sd_dir _ _ D)|].
      right. by exists m, bytes.
  - intros [e|] s2 D2; [kvm_steps|apply checkpointed_early; [done|by etrans]]. eapply wp_keeps; [apply dir_resume_all| |].
    + intros r s3 D3. kvm_steps. apply checkpointed_early; [done|]. do 2 (etrans; [done|]). done.
    + intros e' s3 D3. apply checkpointed_early; [done|]. do 2 (etrans; [done|]). done.
Qed.

Lemma read_found `{!ManifestCodecLaws} dir m bytes st w : content dir st = Some bytes -> to_json m = Ok bytes -> sto_sched st = [] ->
  (read_manifest dir (set_kw_dir st w)).2 = Ok (stored m).
Proof.
  intros Hc Hj Hs. unfold content in Hc. destruct (sto_names st !! manifest_path dir) as [i|] eqn:Hi; [|done]. cbn in Hc.
  unfold read_manifest, with_dir, with_json, Sto.open, Sto.call, zoom, with_err, mbind, M_bind, get, gets, lift. cbn.
  rewrite Hs. cbn. rewrite Hi. cbn. rewrite Hs. cbn. unfold inode_bytes. rewrite Hc. cbn. by rewrite (codec_roundtrip _ _ Hj).
Qed.

(** C4. A checkpoint replaces the manifest of the forest as a whole.  However
    it ends, and with a crash of the host at any point after it, the manifest
    found in the directory is one that could be found before the checkpoint,
    or the complete new one, which names every VM of the forest.  After a
    checkpoint that succeeded it is the new one: opening the forest then reads
    it back, but for the fields that are not stored. *)
Theorem checkpoint_replaces_manifest `{!ManifestCodecLaws} dir s s' r :
  ks_storage s.2 = Some dir -> manifest_kept dir (kw_dir s.1) -> checkpoint s = (s', r) ->
  checkpointed dir s s' r /\
  (r = Ok tt -> exists m, names_forest s m /\
    forall st w, crash_to (kw_dir s'.1) st -> sto_sched st = [] ->
      (read_manifest dir (set_kw_dir st w)).2 = Ok (stored m)).
Proof.
  intros Hdir Hk Hr. pose proof (wp_elim _ _ _ _ _ _ (checkpoint_outcome dir s Hdir Hk) Hr) as Hc.
  destruct r as [[]|e]; [|done]. split; [done|]. intros _. destruct Hc as (_ & m & bytes & Hm & Hj & Hall).
  exists m. split; [done|]. intros st w C Hs. eapply read_found; [|exact Hj|done]. apply Hall. by exists st.
Qed.

(** ** A manifest that is there and not seen *)

Lemma wp_create_dir_in dir name e st : sto_sched st = [Full; Fault e] ->
  wp (create_dir_in dir name) (fun _ st' => sto_sched st' = [Fault e] /\ sto_names st' = sto_names st /\ sto_data st' = sto_data st)
    (fun _ _ => True) st.
Proof. intros Hs. unfold create_dir_in, Sto.create_dir_all, Sto.call, wp, mbind, M_bind. rewrite Hs. done. Qed.

Lemma wp_exists_faults p e st : sto_sched st = [Fault e] ->
  wp (Fd.exists_path p) (fun b st' => b = false /\ sto_names st' = sto_names st /\ sto_data st' = sto_data st) (fun _ _ => True) st.
Proof. intros Hs. unfold Fd.exists_path, Sto.call, wp, mbind, M_bind, attempt. rewrite Hs. done. Qed.

(** [exists] answers no also when the host cannot tell; [open] then starts a
    new forest in a directory that has one, whose manifest the next checkpoint
    replaces. *)
Theorem open_mistakes_error_for_empty dir e w w' k :
  sto_sched (kw_dir w) = [Full; Fault e] -> KvmDur.open dir w = (w', Ok k) ->
  ks_vms k = ∅ /\ ks_next_vm k = 1 /\ content dir (kw_dir w') = content dir (kw_dir w).
Proof.
  intros Hs Hr. enough (wp (KvmDur.open dir : KW _)
    (fun k w' => ks_vms k = ∅ /\ ks_next_vm k = 1 /\ content dir (kw_dir w') = content dir (kw_dir w)) (fun _ _ => True) w) as Hw
    by apply (wp_elim _ _ _ _ _ _ Hw Hr).
  unfold KvmDur.open, with_ram_storage, with_dir, with_ram. wp_steps. apply wp_any; [|done]. intros _ rs. wp_steps. cbn.
  eapply wp_mono; [apply (wp_create_dir_in dir "filesystems" e), Hs| |done]. intros _ st (H1 & H2 & H3). wp_steps. cbn.
  apply wp_any; [|done]. intros _ rw. wp_steps. cbn. eapply wp_mono; [apply (wp_exists_faults (manifest_path dir) e), H1| |done].
  intros there st' (-> & H4 & H5). unfold new, in_vmm. wp_steps. apply wp_any; [|done]. intros _ h. wp_steps. cbn.
  split_and!; [done|done|]. unfold content. by rewrite H4, H5, H2, H3.
Qed.

End checkpoints.
