(* ===== verification/KvmHistory.v ===== *)
(** * The life of a durable forest: calls, guests, crashes and restarts

    A forest is opened in a directory, its VMs run, the supervisor is called,
    the host crashes, the forest is opened again.  This file ties checkpoints
    and restarts to the system of guest RAM and to the manifest, and shows that
    a forest comes back as it was at a checkpoint, byte for byte. *)

From S2P Require Import Prelude Generations Host CacheTypes SharedCache Storage RedoxBranch VmmTypes VirtioFs Lineages Ram RamInv RamSpec RamSafety RamDurable RamCopy RamRestore RamRecovery KvmVmm KvmSupervisor KvmRecovery KvmRuns KvmForest KvmOps KvmLive KvmLogs KvmLink KvmForks KvmManifest.
Import Kvm KvmDur.

Section saving.
Context {W S Id St H Opts Snap Ranges : Type} `{Countable Id} `{!BranchStore W S Id St} `{!Vmm H Opts Snap Ranges}.
Context `{!VmmRuns H} `{!VmmLogs H} `{!VmmLogLaws H Opts Snap Ranges} `{HSparse : !SparseFiles} `{HLaws : !SparseLaws}.
Context `{!ManifestCodec St Opts Snap Ranges}.
Context (storage : string).

Abbreviation world := (KvmWorld W S Id H).
Abbreviation KW := (M (KvmWorld W S Id H) (Stop SupervisorError)).
Abbreviation K := (M (KvmWorld W S Id H * KvmSupervisor) (Stop SupervisorError)).
Abbreviation steps := (rtc (acting (generations_dir storage) everyone)).
Abbreviation settled := (settled storage).
Abbreviation reaches := (reaches storage everyone).

Implicit Types (w : world) (s : world * KvmSupervisor) (d : KvmVm) (gu : Guest) (G : gmap N Guest) (X Dm : gset N)
  (hist : RamHistory) (dst : Storage) (c : RamCheckpoint).

(** The memory of every VM. *)
Definition forest_memory s : gmap N (list byte) :=
  (fun d => Ram.ram_bytes (rm_storage (kw_ram s.1)) (kv_ram d)) <$> ks_vms s.2.

(** ** One VM *)

(** A guest was sealed; it is not written out yet. *)
Record sealed_vm id Dm dst hist gu (seal : Ram.R unit) d s : Prop := {
  sv_linked : linked storage {[id]} None Dm dst (sm_guests (hi_sys hist)) s;
  sv_reach : history_reachable (generations_dir storage) hist;
  sv_guest : sm_guests (hi_sys hist) !! id = Some gu;
  sv_whole : id ∉ Dm -> gu_lost gu = ∅;
  sv_quiet : quiet (sm_guests (hi_sys hist));
  sv_fits : fits (sm_world (hi_sys hist)) (lenN (pages (gu_ram gu)));
  sv_sealing : sealing gu seal;
  sv_vm : ks_vms s.2 !! id = Some d;
  sv_log : starts_afresh (machine_of (kv_backend d)) (kw_vmm s.1);
  sv_seal : seal (sm_world (hi_sys hist), gu_ram gu) = ((kw_ram s.1, kv_ram d), Ok tt)
}.

Lemma sealed_vm_mild id Dm dst hist gu seal d s s' : sealed_vm id Dm dst hist gu seal d s -> mild ∅ s s' ->
  exists d', sealed_vm id Dm dst hist gu seal d' s'.
Proof.
  intros [] M. destruct (mild_vm _ _ _ _ _ M sv_vm0) as (d' & Hd' & Eb & Er). exists d'. split; try done.
  - eapply linked_mild; [done|exact M|apply spares_none].
  - rewrite Eb. eapply mild_afresh; [exact M|by eapply lk_machines|set_solver|done].
  - by rewrite Er, (mw_ram _ _ _ (mi_world _ _ _ M)).
Qed.

Lemma sealed_vm_given_up id Dm dst hist gu seal d s : sealed_vm id Dm dst hist gu seal d s -> reaches Dm dst hist s.
Proof.
  intros []. destruct hist as [[w0 G] run past]. cbn in *.
  eapply (settle_with id Dm Dm dst (mkRamHistory (mkRamSystem w0 G) run past) s id d (gu_copied (kv_ram d) gu)); [done|done|done|done| |done|].
  - destruct sv_log0. split; [done|by cbn|done|done|]. intros Hn. by apply copied_whole, sv_whole0.
  - exact (tr_seal id w0 G gu seal _ _ (Ok tt) sv_quiet0 sv_guest0 sv_fits0 sv_sealing0 sv_seal0).
Qed.

(** Sealing with the pages the machine handed out. *)
Lemma wp_on_ram_seal id d seal Dm dst hist s0 s :
  settled ∅ None Dm dst hist s0 -> ks_vms s0.2 !! id = Some d -> mild {[machine_of (kv_backend d)]} s0 s ->
  starts_afresh (machine_of (kv_backend d)) (kw_vmm s.1) -> room 1 (lenN (pages (kv_ram d))) (kw_ram s0.1) ->
  (forall gu, gu_ram gu = kv_ram d -> gu_log gu = logged (machine_of (kv_backend d)) (kw_vmm s0.1) -> sealing gu seal) ->
  wp (on_ram id seal : K unit) (fun _ s' => exists gu d', sealed_vm id Dm dst hist gu seal d' s')
    (stops (reaches ({[id]} ∪ Dm) dst hist)) s.
Proof.
  intros Hs Hd M Hlog Hroom Hseal. destruct (settled_guest _ _ _ _ _ _ _ _ Hs (not_elem_of_empty _) Hd) as (gu & Hg & [T1 T2 T5 T3 T4]).
  specialize (Hseal gu T1 T2). pose proof Hs as [L Ew R]. pose proof (linked_all_quiet _ _ _ _ _ L) as Hq.
  pose proof (linked_asked _ _ _ _ _ _ _ L Hd M) as L1. destruct (mild_vm _ _ _ _ _ M Hd) as (d' & Hd' & Eb & Er).
  pose proof (mw_ram _ _ _ (mi_world _ _ _ M)) as Ew'.
  rewrite <-T1, <-Ew in Hroom. pose proof (room_fits _ _ _ _ Hroom (N.le_refl _) (N.le_refl _)) as Hfit.
  apply wp_on_vm_ram. intros d2 rw ram r Hd2 Hr s'. rewrite Hd' in Hd2. injection Hd2 as <-. rewrite Er, <-T1, Ew', <-Ew in Hr.
  pose proof (linked_begin _ _ _ _ _ _ _ rw id d' ram L1 (reflexivity _) Hd') as L2. fold s' in L2.
  assert (ks_vms s'.2 !! id = Some (mkKvmVm (kv_backend d') ram (kv_filesystem d'))) as Hs' by apply lookup_insert_eq.
  destruct r as [[]|e].
  - exists gu, (mkKvmVm (kv_backend d') ram (kv_filesystem d')). split; try done. cbn. by rewrite Eb.
  - destruct hist as [[w0 G] run past]. cbn in *. subst w0.
    pose proof (tr_seal id _ G gu seal rw ram (Err e) Hq Hg Hfit Hseal Hr) as Ht.
    eapply (settle_with id Dm _ dst (mkRamHistory (mkRamSystem (kw_ram s0.1) G) run past) s' id); [exact L2|exact R|set_solver|exact Hs'| |done|exact Ht].
    destruct Hlog. split; [done|by cbn; rewrite Eb|by cbn; rewrite Eb|done|set_solver].
Qed.

Lemma asked_given_up id d gu Dm dst hist s s' :
  settled ∅ None Dm dst hist s -> ks_vms s.2 !! id = Some d -> sm_guests (hi_sys hist) !! id = Some gu ->
  tied None (id ∉ Dm) (kw_vmm s.1) d gu -> mild {[machine_of (kv_backend d)]} s s' ->
  log_left (machine_of (kv_backend d)) (kw_vmm s.1) (kw_vmm s'.1) -> reaches ({[id]} ∪ Dm) dst hist s'.
Proof.
  intros [L Ew R] Hd Hg T M Hk. destruct (mild_vm _ _ _ _ _ M Hd) as (d1 & Hd1 & Eb & Er).
  pose proof (linked_asked _ _ _ _ _ _ _ L Hd M) as L1.
  eapply (abandon_guest Dm dst hist s' id d1 gu I L1); [done|by rewrite (mw_ram _ _ _ (mi_world _ _ _ M))|done|done| | |].
  - rewrite Er. apply T.
  - rewrite Eb. apply Hk.
  - rewrite (ti_log _ _ _ _ _ T), Eb. apply Hk.
Qed.

Lemma wp_seal_backend id d Dm dst hist s : settled ∅ None Dm dst hist s -> ks_vms s.2 !! id = Some d ->
  room 1 (lenN (pages (kv_ram d))) (kw_ram s.1) ->
  wp (seal_backend id d : K _) (fun _ s' => exists gu seal d', sealed_vm id Dm dst hist gu seal d' s')
    (stops (reaches ({[id]} ∪ Dm) dst hist)) s.
Proof.
  intros Hs Hd Hroom. destruct (settled_guest _ _ _ _ _ _ _ _ Hs (not_elem_of_empty _) Hd) as (gu & Hg & T).
  pose proof (lk_machines _ _ _ _ _ _ _ (se_linked _ _ _ _ _ _ _ Hs) _ _ Hd) as Hm.
  unfold seal_backend. destruct (kv_backend d) as [vm|cl] eqn:Hb; kvm_steps.
  - eapply wp_mono; [eapply (wp_take_log _ _ _ _ _ _ (fun _ _ => False)); [exact Hs|exact Hd|done]| |done].
    intros [bitmap|e] s1 [M1 Hlog]; rewrite Hb in M1, Hlog; kvm_steps.
    + destruct Hlog as [He Hrep]. eapply wp_mono; [eapply (wp_on_ram_seal id d); [exact Hs|exact Hd|by rewrite Hb|by rewrite Hb|done|]| |done].
      * intros gu' E1 E2. apply seal_logged. by rewrite E1, E2, Hb.
      * intros _ s2 (gu' & d' & Hsv). kvm_steps. eauto.
    + unfold on_ram, wp. destruct (mild_vm _ _ _ _ _ M1 Hd) as (d1 & Hd1 & Eb & Er). rewrite Hd1.
      unfold Ram.seal_for_checkpoint, Ram.logged_dirty, lift, mbind, M_bind. cbn.
      eapply reaches_mild; [eapply (asked_given_up id d gu); [done|done|done|done|by rewrite Hb|by rewrite Hb]|].
      split; [by split|cbn; by apply put_part|done|done].
  - pose proof (ti_tracked _ _ _ _ _ T) as Htr. rewrite Hb in Htr. eapply wp_mono; [by apply wp_capture_mild| |].
    2: { intros e s1. apply stops_mono. intros [M1 Hk]. eapply (asked_given_up id d gu); [done|done|done|done|by rewrite Hb|by rewrite Hb]. }
    intros cap s1 (M1 & Hl1 & Hc1). kvm_steps. eapply wp_mono; [eapply (wp_on_ram_seal id d); [exact Hs|exact Hd|by rewrite Hb|by rewrite Hb|done|]| |done].
    + intros gu' E1 E2. apply seal_captured. by rewrite E2, Hb.
    + intros _ s2 (gu' & d' & Hsv). kvm_steps. eauto.
Qed.

(** VM [id] was saved as [c]; the other guests are where they were. *)
Record saved_vm id Dm dst hist c hist' s : Prop := {
  sa_steps : steps hist hist';
  sa_settled : settled ∅ None Dm dst hist' s;
  sa_run : hi_run hist' = c :: hi_run hist;
  sa_memory gu : sm_guests (hi_sys hist) !! id = Some gu -> id ∉ Dm -> c.2 = guest_memory (sm_world (hi_sys hist)) gu;
  sa_spent gu : sm_guests (hi_sys hist) !! id = Some gu ->
    spent 1 (lenN (pages (gu_ram gu))) (sm_world (hi_sys hist)) (sm_world (hi_sys hist'));
  sa_others j gj : j <> id -> sm_guests (hi_sys hist) !! j = Some gj ->
    sm_guests (hi_sys hist') !! j = Some gj /\ guest_memory (sm_world (hi_sys hist')) gj = guest_memory (sm_world (hi_sys hist)) gj
}.

Lemma wp_write_out id Dm dst hist gu seal d s : sealed_vm id Dm dst hist gu seal d s ->
  wp (on_world (with_ram (RamDur.durable_state (generations_dir storage) (kv_ram d))) : K _)
    (fun state s' => exists hist' c, saved_vm id Dm dst hist c hist' s' /\ c.1 = state)
    (stops (reaches Dm dst hist)) s.
Proof.
  intros []. unfold on_world, with_ram, wp, zoom, with_err.
  destruct (RamDur.durable_state (generations_dir storage) (kv_ram d) (kw_ram s.1)) as [rw res] eqn:Hdur. cbn.
  destruct (history_reachable_ok _ _ sv_reach0) as [Kn I]. destruct hist as [[w0 G] run past]. cbn in *.
  pose proof (hs_checkpoint (generations_dir storage) id w0 G gu seal _ _ rw res run past sv_quiet0 sv_guest0 sv_fits0 sv_sealing0 sv_seal0 Hdur) as Hstep.
  destruct (checkpoint_isolated _ Kn id w0 G gu seal _ _ rw res run past I sv_quiet0 sv_guest0 sv_fits0 sv_sealing0 sv_seal0 Hdur) as (Eg & Ep & Hoth).
  set (hist' := mkRamHistory (mkRamSystem rw _) _ _) in Hstep. set (s' := (set_kw_ram rw s.1, s.2)).
  assert (settled ∅ None Dm dst hist' s') as Hs'.
  { split; [|done|by eapply steps_reach, everyone_step]. eapply (linked_settle storage None Dm dst G s' id d); [by destruct sv_linked0; split|done|].
    destruct sv_log0. split; [done|by cbn|done|done|]. intros Hn. by apply copied_whole, sv_whole0. }
  destruct res as [state|e]; cbn; [|exists hist'; by split; [apply everyone_step|]].
  exists hist', (state, checkpoint_memory w0 gu (kw_ram s.1) (kv_ram d)). split; [|done]. split; [by apply everyone_step|done|done| | |].
  - cbn. intros gu' Hg' Hn. rewrite sv_guest0 in Hg'. injection Hg' as <-. unfold checkpoint_memory. by rewrite decide_True by auto.
  - cbn. intros gu' Hg'. rewrite sv_guest0 in Hg'. injection Hg' as <-.
    pose proof (sealing_spent _ _ _ _ _ _ _ (so_guests _ _ (ho_sys _ _ _ I) _ _ sv_guest0) sv_sealing0 sv_seal0) as [? ?]. cbn in *. split; lia.
  - cbn. intros j gj Hne Hj. split; [by rewrite lookup_insert_ne|by apply (Hoth j)].
Qed.

Lemma wp_save_vm_linked id d Dm dst hist s : settled ∅ None Dm dst hist s -> ks_vms s.2 !! id = Some d ->
  room 1 (lenN (pages (kv_ram d))) (kw_ram s.1) ->
  wp (save_vm storage id : K _)
    (fun saved s' => vmf_id saved = id /\ exists hist' c, saved_vm id Dm dst hist c hist' s' /\ vmf_ram saved = c.1)
    (stops (reaches ({[id]} ∪ Dm) dst hist)) s.
Proof.
  intros Hs Hd Hroom. unfold save_vm, index. wp_steps. rewrite Hd. cbn. wp_steps.
  eapply wp_mono; [by apply wp_seal_backend| |done]. intros backend s1 (gu & seal & d1 & H1). wp_steps.
  eapply wp_keeps; [apply mild_on_fs| |].
  - intros fs s2 M2. destruct (sealed_vm_mild _ _ _ _ _ _ _ _ _ H1 M2) as [d2 H2]. wp_steps. rewrite (sv_vm _ _ _ _ _ _ _ _ H2). cbn. wp_steps.
    eapply wp_mono; [by eapply wp_write_out| |].
    + intros state s3 (hist' & c & Hsv & Hc). wp_steps. split; [done|]. by exists hist', c.
    + intros e s3. apply stops_mono. intros Hr. eapply reaches_more; [exact Hr|set_solver].
  - intros [e|] s2 M2; [|done]. eapply reaches_mild; [|exact M2]. eapply reaches_more; [by eapply sealed_vm_given_up|set_solver].
Qed.

(** ** All VMs *)

(** What is left to save: the guests are as at the beginning. *)
Definition awaits (np : N -> N) (mm : N -> list byte) hist id : Prop := exists gu,
  sm_guests (hi_sys hist) !! id = Some gu /\ np id = lenN (pages (gu_ram gu)) /\ guest_memory (sm_world (hi_sys hist)) gu = mm id.

Definition total (np : N -> N) (l : list N) : N := foldr (fun id a => np id + a) 0 l.

(** A manifest entry and the checkpoint it names. *)
Definition entry_of Dm (mm : N -> list byte) (vm : VmManifest St Opts Snap Ranges) c : Prop :=
  vmf_ram vm = c.1 /\ (vmf_id vm ∉ Dm -> c.2 = mm (vmf_id vm)).

Lemma wp_save_all_linked np mm l Dm dst hist s : settled ∅ None Dm dst hist s -> NoDup l -> Forall (awaits np mm hist) l ->
  room (lenN l) (total np l) (kw_ram s.1) ->
  wp (save_all storage l : K _)
    (fun saved s' => vmf_id <$> saved = l /\ exists hist' sel, steps hist hist' /\ settled ∅ None Dm dst hist' s' /\
       sel ⊆ hi_run hist' /\ hi_run hist ⊆ hi_run hist' /\ Forall2 (entry_of Dm mm) saved sel)
    (stops (reaches (list_to_set l ∪ Dm) dst hist)) s.
Proof.
  intros Hs Hnd Hl Hroom. revert hist s Hs Hl Hroom. induction Hnd as [|id l Hni Hnd IH]; intros hist s Hs Hl Hroom; cbn [save_all]; wp_steps.
  { split; [done|]. exists hist, []. split_and!; [done|done|set_solver|done|constructor]. }
  apply Forall_cons in Hl as [(gu & Hg & Hnp & Hmm) Hl]. pose proof (lk_vms _ _ _ _ _ _ _ (se_linked _ _ _ _ _ _ _ Hs) id (not_elem_of_empty _)) as T.
  rewrite Hg in T. destruct (ks_vms s.2 !! id) as [d|] eqn:Hd; [|done]. pose proof (ti_ram _ _ _ _ _ T) as T1. cbn in T.
  unfold room, total, lenN in Hroom. cbn [foldr length] in Hroom. fold (total np l) in Hroom.
  eapply wp_mono; [eapply (wp_save_vm_linked id d); [exact Hs|done|]| |].
  { rewrite <-T1, <-Hnp. split; lia. }
  - intros saved s1 (Eid & hist1 & c & Hsv & Hc). destruct Hsv as [Hst1 Hs1 Hrun1 Hmem1 Hsp1 Hoth1]. wp_steps.
    assert (Forall (awaits np mm hist1) l) as Hl1.
    { rewrite Forall_forall in Hl |- *. intros j Hj. destruct (Hl j Hj) as (gj & Hgj & Hnj & Hmj).
      destruct (Hoth1 j gj) as [Hgj1 Hmj1]; [by intros ->|done|]. exists gj. split_and!; [done|done|by rewrite Hmj1]. }
    assert (room (lenN l) (total np l) (kw_ram s1.1)) as Hroom1.
    { specialize (Hsp1 gu Hg) as [Hsg Hsp]. rewrite (se_world _ _ _ _ _ _ _ Hs), (se_world _ _ _ _ _ _ _ Hs1), <-?Hnp in Hsg, Hsp.
      unfold room, lenN. lia. }
    eapply wp_mono; [by apply IH| |].
    + intros others s2 (Eids & hist2 & sel & Hst2 & Hs2 & Hsel & Hrun2 & Hf). wp_steps. split; [by cbn; f_equal|].
      exists hist2, (c :: sel). split_and!; [by etrans|done| | |].
      * intros x [->|Hx]%elem_of_cons; [apply Hrun2; rewrite Hrun1; left|by apply Hsel].
      * etrans; [|exact Hrun2]. rewrite Hrun1. set_solver.
      * constructor; [|done]. split; [done|]. rewrite Eid. intros Hn. by rewrite (Hmem1 gu Hg Hn), Hmm.
    + intros e s2. apply stops_mono. intros Hr. eapply reaches_after; [exact Hst1|]. eapply reaches_more; [exact Hr|]. cbn. set_solver.
  - intros e s1. apply stops_mono. intros Hr. eapply reaches_more; [exact Hr|]. cbn. set_solver.
Qed.

(** ** Snapshots and manifests *)

(** What a checkpoint promises of each VM: its memory, unless an earlier fork
    or checkpoint of it failed. *)
Definition snapshot Dm s : gmap N (option (list byte)) :=
  map_imap (fun id bytes => Some (if decide (id ∈ Dm) then None else Some bytes)) (forest_memory s).

Implicit Types (m : ForestManifest St Opts Snap Ranges) (snap : gmap N (option (list byte))).

Definition entry_ok snap (vm : VmManifest St Opts Snap Ranges) c : Prop :=
  vmf_ram vm = c.1 /\ exists o, snap !! vmf_id vm = Some o /\ forall bytes, o = Some bytes -> c.2 = bytes.

(** The RAM that manifest [m] names is in the archive and is that of [snap]. *)
Record manifest_holds hist snap m : Prop := {
  mh_version : fm_version m = MANIFEST_VERSION;
  mh_ids : NoDup (vmf_id <$> fm_vms m);
  mh_dom id : is_Some (snap !! id) <-> id ∈ vmf_id <$> fm_vms m;
  mh_next id : id ∈ vmf_id <$> fm_vms m -> id < fm_next_vm m;
  mh_saved : exists group sel, group ∈ hi_run hist :: hi_past hist /\ sel ⊆ group /\ Forall2 (entry_ok snap) (fm_vms m) sel
}.

(** What may be found in place of the manifest. *)
Definition content_holds hist (snaps : list (gmap N (option (list byte)))) (o : option (list byte)) : Prop :=
  exists snap, snap ∈ snaps /\
    match o with
    | None => snap = ∅
    | Some bytes => exists m, to_json m = Ok bytes /\ manifest_holds hist snap m
    end.

Lemma step_groups hist hist' group : history_step (generations_dir storage) hist hist' -> group ∈ hi_run hist :: hi_past hist ->
  exists group', group' ∈ hi_run hist' :: hi_past hist' /\ group ⊆ group'.
Proof.
  intros Hs Hg. destruct Hs as [k s s' run past _|k w G gu seal w1 r1 w2 res run past _ _ _ _ _ _|s run past st gr sel w' rams ids _ _ _ _]; cbn in *.
  - by exists group.
  - apply elem_of_cons in Hg as [->|Hg]; [|exists group; split; [by right|done]]. eexists. split; [left|]. destruct res; [|done]. set_solver.
  - exists group. split; [by right|done].
Qed.

Lemma steps_groups hist hist' group : steps hist hist' -> group ∈ hi_run hist :: hi_past hist ->
  exists group', group' ∈ hi_run hist' :: hi_past hist' /\ group ⊆ group'.
Proof.
  intros Hr. revert group. induction Hr as [|h0 h1 h2 [H1 _] _ IH]; intros group Hg; [by exists group|].
  destruct (step_groups _ _ _ H1 Hg) as (g1 & Hg1 & Hs1). destruct (IH _ Hg1) as (g2 & Hg2 & Hs2). exists g2. split; [done|by etrans].
Qed.

Lemma manifest_holds_steps hist hist' snap m : manifest_holds hist snap m -> steps hist hist' -> manifest_holds hist' snap m.
Proof.
  intros [Hv Hn Hd Hx (group & sel & Hg & Hs & Hf)] Hst. split; [done..|]. destruct (steps_groups _ _ _ Hst Hg) as (g' & Hg' & Hsub).
  exists g', sel. split_and!; [done|by etrans|done].
Qed.

Lemma content_holds_steps hist hist' snaps o : content_holds hist snaps o -> steps hist hist' -> content_holds hist' snaps o.
Proof.
  intros (snap & Hin & Ho) Hst. exists snap. split; [done|]. destruct o as [bytes|]; [|done]. destruct Ho as (m & Hj & Hm).
  exists m. split; [done|]. by eapply manifest_holds_steps.
Qed.

(** ** Checkpoints *)

Lemma mild_resume_vm id : keeps (mild ∅) (resume_vm id : K unit).
Proof. unfold resume_vm, index. keeps_steps. apply mild_on_world, mild_resume. Qed.

Lemma mild_pause_all vms paused : keeps (mild ∅) (pause_all vms paused : K _).
Proof.
  revert paused. induction vms as [|[id d] vms IH]; intros paused; cbn [pause_all]; keeps_steps; try by apply IH.
  - apply keeps_catch_rel, mild_on_world, mild_pause.
  - apply keeps_catch_rel, mild_resume_vm.
Qed.

Lemma mild_resume_all l r : keeps (mild ∅) (resume_all l r : K _).
Proof.
  revert r. induction l as [|id l IH]; intros r; cbn [resume_all]; keeps_steps; [|apply IH]. apply keeps_catch_rel, mild_resume_vm.
Qed.

(** Publishing touches only the directory. *)
Definition beside w w' : Prop := kw_ram w' = kw_ram w /\ kw_vmm w' = kw_vmm w.

#[local] Instance beside_preorder : PreOrder beside.
Proof. split; [done|]. intros w1 w2 w3 [] []. split; congruence. Qed.

Lemma beside_publish m : keeps beside (publish_manifest storage m : KW unit).
Proof.
  assert (forall A (x : SIO A), keeps beside (with_dir x : KW A)) as Hd.
  { intros A x w. unfold with_dir, zoom. by destruct (with_err _ x _). }
  assert (forall A (x : SIO A), keeps beside (with_json x : KW A)) as Hj.
  { intros A x w. unfold with_json, zoom. by destruct (with_err _ x _). }
  unfold publish_manifest. keeps_steps; auto.
Qed.

Lemma vm_ids_keys (k : KvmSupervisor) : vm_ids k = btree_keys (ks_vms k).
Proof.
  assert (Forall (fun id => is_Some (ks_vms k !! id)) (btree_keys (ks_vms k))) as Hk
    by (apply Forall_forall; intros id; apply elem_of_btree_keys).
  unfold vm_ids, vm_list, btree_list. induction Hk as [|id l [d Hd] _ IH]; cbn; [done|]. rewrite Hd. cbn. by f_equal.
Qed.

Lemma vm_ids_NoDup (k : KvmSupervisor) : NoDup (vm_ids k).
Proof. rewrite vm_ids_keys. apply NoDup_btree_keys. Qed.

Lemma vm_ids_same (k k' : KvmSupervisor) : (forall id, is_Some (ks_vms k' !! id) <-> is_Some (ks_vms k !! id)) -> vm_ids k' = vm_ids k.
Proof.
  intros Hd. rewrite !vm_ids_keys. apply (StronglySorted_unique key_le); [apply btree_keys_sorted..|].
  apply NoDup_Permutation; [apply NoDup_btree_keys..|]. intros id. by rewrite !elem_of_btree_keys.
Qed.

(** The pages of all VMs together. *)
Definition pages_of s id : N := match ks_vms s.2 !! id with Some d => lenN (pages (kv_ram d)) | None => 0 end.
Definition all_pages s : N := total (pages_of s) (vm_ids s.2).

Definition memory_of s id : list byte := default [] (forest_memory s !! id).

Lemma settled_awaits Dm dst hist s : settled ∅ None Dm dst hist s -> Forall (awaits (pages_of s) (memory_of s) hist) (vm_ids s.2).
Proof.
  intros Hs. apply Forall_forall. intros id [d Hd]%elem_of_vm_ids.
  destruct (settled_guest _ _ _ _ _ _ _ _ Hs (not_elem_of_empty _) Hd) as (gu & Hg & T). exists gu.
  unfold pages_of, memory_of, forest_memory, guest_memory. rewrite lookup_fmap, Hd. cbn.
  by rewrite (ti_ram _ _ _ _ _ T), (se_world _ _ _ _ _ _ _ Hs).
Qed.

(** The manifest of a forest that was saved. *)
Lemma saved_manifest Dm dst hist hist' s next saved sel : settled ∅ None Dm dst hist s ->
  vmf_id <$> saved = vm_ids s.2 -> sel ⊆ hi_run hist' -> Forall2 (entry_of Dm (memory_of s)) saved sel ->
  manifest_holds hist' (snapshot Dm s) (mkForestManifest MANIFEST_VERSION (ks_next_vm s.2) next saved).
Proof.
  intros Hs Hids Hsel Hf.
  assert (forall id d, ks_vms s.2 !! id = Some d -> snapshot Dm s !! id = Some (if decide (id ∈ Dm) then None else Some (memory_of s id))) as Hsnap.
  { intros id d Hd. unfold snapshot, memory_of. rewrite map_lookup_imap. unfold forest_memory. by rewrite lookup_fmap, Hd. }
  split; cbn.
  - done.
  - rewrite Hids. apply vm_ids_NoDup.
  - intros id. rewrite Hids, elem_of_vm_ids. split.
    + intros [o Ho]. unfold snapshot in Ho. rewrite map_lookup_imap in Ho. unfold forest_memory in Ho. rewrite lookup_fmap in Ho.
      by destruct (ks_vms s.2 !! id).
    + intros [d Hd]. rewrite (Hsnap id d Hd). by eexists.
  - intros id. rewrite Hids, elem_of_vm_ids. apply (lk_below _ _ _ _ _ _ _ (se_linked _ _ _ _ _ _ _ Hs)).
  - exists (hi_run hist'), sel. split_and!; [left|done|].
    assert (Forall (fun vm => is_Some (ks_vms s.2 !! vmf_id vm)) saved) as Hin.
    { apply Forall_forall. intros vm Hvm. apply elem_of_vm_ids. rewrite <-Hids. by apply list_elem_of_fmap_2. }
    clear Hsel Hids. induction Hf as [|vm c saved sel [E Hc] _ IH]; [constructor|]. apply Forall_cons in Hin as [[d Hd] Hin].
    constructor; [|by apply IH]. split; [done|]. eexists. split; [by eapply Hsnap|]. intros bytes. case_decide; [done|]. intros [= <-]. auto.
Qed.

(** How a checkpoint ends. *)
Definition checkpoint_done Dm hist s s' (r : result (Stop SupervisorError) unit) : Prop := exists hist',
  steps hist hist' /\ manifest_kept storage (kw_dir s'.1) /\
  match r with
  | Ok _ => settled ∅ None Dm (kw_dir s'.1) hist' s' /\
      exists m bytes, to_json m = Ok bytes /\ manifest_holds hist' (snapshot Dm s) m /\
        forall o, may_find storage (kw_dir s'.1) o -> o = Some bytes
  | Err _ => settled ∅ None (dom (ks_vms s.2) ∪ Dm) (kw_dir s'.1) hist' s' /\
      forall o, may_find storage (kw_dir s'.1) o -> may_find storage (kw_dir s.1) o \/
        exists m bytes, to_json m = Ok bytes /\ manifest_holds hist' (snapshot Dm s) m /\ o = Some bytes
  end.

Lemma checkpoint_failed Dm dst hist s s' e : reaches (dom (ks_vms s.2) ∪ Dm) dst hist s' -> dst = kw_dir s.1 ->
  manifest_kept storage (kw_dir s.1) -> checkpoint_done Dm hist s s' (Err e).
Proof.
  intros (hist' & Hst & Hs) -> Hk. pose proof (lk_dir _ _ _ _ _ _ _ (se_linked _ _ _ _ _ _ _ Hs)) as Ed.
  exists hist'. rewrite Ed. split_and!; [done|done|done|]. auto.
Qed.

(** What leaves RAM alone leaves the forest's memory alone. *)
Lemma mild_forest Y s s' : mild Y s s' ->
  forest_memory s' = forest_memory s /\ vm_ids s'.2 = vm_ids s.2 /\ all_pages s' = all_pages s /\ dom (ks_vms s'.2) = dom (ks_vms s.2).
Proof.
  intros M. assert (forall id, pages_of s' id = pages_of s id /\ (is_Some (ks_vms s'.2 !! id) <-> is_Some (ks_vms s.2 !! id)) /\
    forest_memory s' !! id = forest_memory s !! id) as Hp.
  { intros id. unfold forest_memory, pages_of. rewrite !lookup_fmap. pose proof (part_lookup s s' id (mi_vms _ _ _ M)) as Hp.
    destruct (ks_vms s'.2 !! id), (ks_vms s.2 !! id); try done. cbn. destruct Hp as [_ ->]. rewrite (mw_ram _ _ _ (mi_world _ _ _ M)).
    split_and!; [done|split; intros; by eexists|done]. }
  assert (vm_ids s'.2 = vm_ids s.2) as Eids by (apply vm_ids_same; intros id; apply Hp).
  split_and!; [apply map_eq; intros id; apply Hp|done| |].
  - unfold all_pages, total. rewrite Eids. clear Eids. induction (vm_ids s.2) as [|id l IH]; cbn; [done|]. by rewrite (proj1 (Hp id)), IH.
  - apply set_eq. intros id. rewrite !elem_of_dom. apply Hp.
Qed.

Lemma snapshot_mild Y Dm s s' : mild Y s s' -> snapshot Dm s' = snapshot Dm s.
Proof. intros M. unfold snapshot. by destruct (mild_forest _ _ _ M) as [-> _]. Qed.

Lemma wp_capture_linked Dm dst hist s : settled ∅ None Dm dst hist s -> room (lenN (vm_ids s.2)) (all_pages s) (kw_ram s.1) ->
  wp (capture_forest storage : K _)
    (fun m s' => exists hist', steps hist hist' /\ settled ∅ None Dm dst hist' s' /\ manifest_holds hist' (snapshot Dm s) m)
    (stops (reaches (dom (ks_vms s.2) ∪ Dm) dst hist)) s.
Proof.
  intros Hs Hroom. unfold capture_forest. wp_steps.
  eapply wp_mono; [eapply wp_save_all_linked; [exact Hs|apply vm_ids_NoDup|by eapply settled_awaits|exact Hroom]| |].
  - intros saved s1 (Eids & hist1 & sel & Hst1 & Hs1 & Hsel & _ & Hf). wp_steps. exists hist1. split_and!; [done|done|by eapply saved_manifest].
  - intros e s1. apply stops_mono. intros Hr. eapply reaches_more; [exact Hr|]. intros id [Hid|Hid]%elem_of_union; [|set_solver].
    apply elem_of_union_l, elem_of_dom. apply elem_of_list_to_set in Hid. by apply elem_of_vm_ids.
Qed.

(** The manifest is published. *)
Lemma wp_publish_linked Dm dst hist hist' m s0 s : steps hist hist' -> settled ∅ None Dm dst hist' s -> dst = kw_dir s0.1 ->
  manifest_kept storage (kw_dir s0.1) -> manifest_holds hist' (snapshot Dm s0) m ->
  wp (on_world (publish_manifest storage m) : K unit) (fun _ s' => checkpoint_done Dm hist s0 s' (Ok tt))
    (stops (fun s' => forall e, checkpoint_done Dm hist s0 s' (Err e))) s.
Proof.
  intros Hst Hs -> Hk Hm. pose proof (lk_dir _ _ _ _ _ _ _ (se_linked _ _ _ _ _ _ _ Hs)) as Ed.
  rewrite <-Ed in Hk. pose proof (wp_manifest_published storage m s.1 Hk) as Hw. pose proof (beside_publish m s.1) as Hb.
  unfold on_world, wp, zoom in *. destruct (publish_manifest storage m s.1) as [w' r]. destruct Hb as [Er Ev]. cbn in Er, Ev.
  assert (forall Dm', Dm ⊆ Dm' -> settled ∅ None Dm' (kw_dir w') hist' (w', s.2)) as Hs'.
  { intros Dm' HD. destruct Hs as [L Ew R]. split; [|cbn; congruence|done].
    destruct (linked_more _ _ ∅ _ _ Dm' _ _ _ L (reflexivity _) HD) as [Hv HM Hf Hb' Hst' _]. split; cbn; rewrite ?Ev; done. }
  destruct r as [[]|e]; cbn in Hw |- *.
  - destruct Hw as (Hk' & bytes & Hj & Hall). exists hist'. split_and!; [done|done|by apply Hs'|]. by exists m, bytes.
  - destruct e as [e|]; [|done]. cbn. intros e'. destruct Hw as (Hk' & Hf). exists hist'. split_and!; [done|done|apply Hs'; set_solver|].
    intros o [Ho|(bytes & Hj & ->)]%Hf; [left; by rewrite <-Ed|right]. by exists m, bytes.
Qed.

Lemma checkpoint_linked Dm hist s : settled ∅ None Dm (kw_dir s.1) hist s -> manifest_kept storage (kw_dir s.1) ->
  room (lenN (vm_ids s.2)) (all_pages s) (kw_ram s.1) ->
  wp (checkpoint : K unit) (fun _ s' => checkpoint_done Dm hist s s' (Ok tt)) (stops (fun s' => forall e, checkpoint_done Dm hist s s' (Err e))) s.
Proof.
  intros Hs Hk Hroom. unfold checkpoint. wp_steps. rewrite (lk_storage _ _ _ _ _ _ _ (se_linked _ _ _ _ _ _ _ Hs)). cbn. wp_steps.
  assert (forall s1 s2, reaches (dom (ks_vms s.2) ∪ Dm) (kw_dir s.1) hist s1 -> mild ∅ s1 s2 -> forall e, checkpoint_done Dm hist s s2 (Err e)) as Hfail.
  { intros s1 s2 Hr M e. eapply checkpoint_failed; [by eapply reaches_mild|done|done]. }
  assert (reaches (dom (ks_vms s.2) ∪ Dm) (kw_dir s.1) hist s) as Hr0 by (eapply reaches_more; [by apply reaches_here|set_solver]).
  eapply wp_keeps; [apply mild_pause_all| |intros [e|] s1 M1; [exact (Hfail _ _ Hr0 M1)|done]].
  intros paused s1 M1. pose proof (settled_mild _ _ _ _ _ _ _ _ Hs M1 (spares_none _ _)) as Hs1. kvm_steps.
  destruct (mild_forest _ _ _ M1) as (_ & Eids & Epg & Edom).
  eapply wp_mono; [eapply wp_capture_linked; [exact Hs1|by rewrite Eids, Epg, (mw_ram _ _ _ (mi_world _ _ _ M1))]| |].
  - intros m s2 (hist2 & Hst2 & Hs2 & Hm2). rewrite (snapshot_mild _ _ _ _ M1) in Hm2. wp_steps.
    assert (reaches (dom (ks_vms s.2) ∪ Dm) (kw_dir s.1) hist s2) as Hr2.
    { eapply reaches_after; [exact Hst2|]. eapply reaches_more; [by apply reaches_here|set_solver]. }
    eapply wp_keeps; [apply mild_resume_all| |intros [e|] s3 M3; [exact (Hfail _ _ Hr2 M3)|done]].
    intros r s3 M3. kvm_steps. destruct r as [[]|e]; [|exact (Hfail _ _ Hr2 M3)].
    eapply (wp_publish_linked Dm _ hist hist2 m s); [done|by eapply settled_mild; [..|apply spares_none]|done|done|done].
  - intros [e|] s2 Hr2; [|done]. cbn in Hr2. rewrite Edom in Hr2. kvm_steps.
    eapply wp_keeps; [apply mild_resume_all| |intros [e'|] s3 M3; [exact (Hfail _ _ Hr2 M3)|done]].
    intros r s3 M3. kvm_steps. exact (Hfail _ _ Hr2 M3).
Qed.

End saving.

(** ** Restarts *)

(** Only directories and the host's schedule changed. *)
Record same_files (st st' : Storage) : Prop := {
  sf_names : sto_names st' = sto_names st;
  sf_data : sto_data st' = sto_data st;
  sf_next : sto_next st' = sto_next st;
  sf_stable_names : sto_stable_names st' = sto_stable_names st;
  sf_stable : sto_stable st' = sto_stable st
}.

#[export] Instance same_files_preorder : PreOrder same_files.
Proof. split; [by intros st|]. intros a b c [] []. split; congruence. Qed.

Lemma call_files : keeps same_files Sto.call.
Proof. intros st. unfold Sto.call. by destruct (sto_sched st) as [|[] ?]. Qed.

Lemma kept_files dir st st' : same_files st st' -> manifest_kept dir st -> manifest_kept dir st' /\ content dir st' = content dir st.
Proof.
  intros [E1 E2 E3 E4 E5] [[Hw1 Hw2] Hn Hs]. split.
  - split; [split|..]; unfold synced; rewrite ?E1, ?E2, ?E3, ?E4, ?E5; done.
  - unfold content. by rewrite E1, E2.
Qed.

(** The host fails the second call: the [exists] of [open], which then takes
    the manifest for a missing file. *)
Definition unanswered (st : Storage) : Prop := exists e, sto_sched st !! 1%nat = Some (Fault e).

Lemma wp_exists_tells q (R : io_error -> Storage -> Prop) st :
  wp (Fd.exists_path q)
    (fun b st' => (b = bool_decide (is_Some (sto_names st !! q)) \/ b = false /\ exists e, sto_sched st !! 0%nat = Some (Fault e)) /\ same_files st st') R st.
Proof.
  unfold Fd.exists_path, Sto.call, wp, attempt, gets, mbind, M_bind. destruct (sto_sched st) as [|[e|n|] rest]; cbn; try by (split; [left|split]).
  split; [|by split]. right. by eauto.
Qed.

Lemma zip_map_fmap {A B} (f : A -> B) (ids : list N) (l : list A) :
  list_to_map (zip ids (f <$> l)) =@{gmap N B} f <$> list_to_map (zip ids l).
Proof.
  revert l. induction ids as [|id ids IH]; intros [|x l]; cbn; try by rewrite fmap_empty. by rewrite fmap_insert, <-IH.
Qed.

Lemma zip_map_lookup {A} (ids : list N) (l : list A) i id x : NoDup ids -> ids !! i = Some id -> l !! i = Some x ->
  (list_to_map (zip ids l) : gmap N A) !! id = Some x.
Proof.
  intros Hnd. revert i l. induction Hnd as [|id' ids Hni _ IH]; intros [|i] [|y l] Hid Hx; try done; cbn in *.
  - injection Hid as <-. injection Hx as <-. apply lookup_insert_eq.
  - rewrite lookup_insert_ne; [by eapply IH|]. intros ->. apply Hni. by eapply list_elem_of_lookup_2.
Qed.

Lemma zip_map_some {A} (ids : list N) (l : list A) id x : (list_to_map (zip ids l) : gmap N A) !! id = Some x -> id ∈ ids.
Proof. intros Hx%elem_of_list_to_map_2. by apply elem_of_zip_l in Hx. Qed.

(** ** What an attempt to open the forest leaves alone *)

Section attempts.
Context {W S Id St H Opts Snap Ranges : Type} `{Countable Id} `{!BranchStore W S Id St} `{!Vmm H Opts Snap Ranges}.
Context `{!ManifestCodec St Opts Snap Ranges} (storage : string).

Abbreviation world := (KvmWorld W S Id H).
Abbreviation KW := (M (KvmWorld W S Id H) (Stop SupervisorError)).

Implicit Types (w : world) (st : Storage).

(** The files are the same; the directory of the generations may be new. *)
Definition same_disk st st' : Prop :=
  same_files st st' /\ {[generations_dir storage]} ∪ sto_dirs st' = {[generations_dir storage]} ∪ sto_dirs st.

Record undisturbed w w' : Prop := {
  un_ram : same_disk (rm_storage (kw_ram w)) (rm_storage (kw_ram w'));
  un_dir : same_files (kw_dir w) (kw_dir w')
}.

#[local] Instance same_disk_preorder : PreOrder same_disk.
Proof. split; [by intros st|]. intros a b c [] []. split; [by etrans|congruence]. Qed.
#[local] Instance undisturbed_preorder : PreOrder undisturbed.
Proof. split; [by intros w; split|]. intros a b c [] []. split; by etrans. Qed.

Abbreviation on_disk := (fun rw rw' => same_disk (rm_storage rw) (rm_storage rw')).
#[local] Instance on_disk_preorder : PreOrder on_disk.
Proof. split; [by intros rw|]. intros a b c H1 H2. cbn in *. by etrans. Qed.

Lemma disk_call : keeps same_disk Sto.call.
Proof. intros st. split; [apply call_files|]. unfold Sto.call. by destruct (sto_sched st) as [|[] ?]. Qed.

Lemma disk_sys {A} op (m : SIO A) : keeps same_disk m -> keeps on_disk (Ram.sys op m).
Proof. intros Hm. eapply (keeps_zoom same_disk); [|by apply keeps_with_err]. done. Qed.

Lemma disk_open path : keeps same_disk (Sto.open path).
Proof. unfold Sto.open. keeps_steps. apply disk_call. Qed.
Lemma disk_metadata i : keeps same_disk (Fd.metadata_len i).
Proof. unfold Fd.metadata_len. keeps_steps. apply disk_call. Qed.

Lemma disk_reserve dir : keeps on_disk (RamDur.reserve_persisted_generation_ids dir).
Proof.
  unfold RamDur.reserve_persisted_generation_ids. keeps_steps; [|apply keeps_modify; by intros rw].
  apply disk_sys. unfold Fd.read_dir. keeps_steps. apply disk_call.
Qed.

Lemma disk_open_generations dir ids gens : keeps on_disk (RamDur.open_generations dir ids gens).
Proof.
  revert gens. induction ids as [|id ids IH]; intros gens; cbn [RamDur.open_generations]; keeps_steps; [apply disk_sys, disk_open|apply IH].
Qed.

Lemma disk_map_all fuel start priv s : on_disk s.1 (Ram.map_all_rounds fuel start priv s).1.1.
Proof.
  assert (keeps (fun s s' => on_disk s.1 s'.1) (Ram.map_all_rounds fuel start priv)) as Hk; [|apply Hk].
  assert (PreOrder (fun s s' : RamWorld * KvmGuestRam => on_disk s.1 s'.1)) as Hp.
  { split; [by intros [rw r]|]. intros a b c H1 H2. cbn in *. by etrans. }
  revert start. induction fuel as [|fuel IH]; intros start; cbn [Ram.map_all_rounds]; keeps_steps; [|apply IH].
  unfold Ram.map_run. keeps_steps.
  - eapply (keeps_zoom on_disk); [|apply disk_sys, disk_call]. done.
  - apply keeps_modify. by intros [rw ram].
Qed.

Lemma disk_from_pages len l : keeps on_disk (Ram.from_pages len l).
Proof.
  unfold Ram.from_pages, Ram.reserve. keeps_steps; [apply disk_sys, disk_call|]. intros rw. unfold Ram.construct.
  pose proof (disk_map_all (length l) 0 true (rw, mkRam len l ∅ true true a)) as Hm. unfold Ram.map_all_pages, get, mbind, M_bind. cbn [snd pages].
  by destruct (Ram.map_all_rounds _ _ _ _) as [[rw' r'] [u|e]].
Qed.

Lemma disk_restore states dir : keeps on_disk (RamDur.restore states dir).
Proof.
  assert (forall gens s acc, keeps on_disk (RamDur.restore_page gens s acc)) as Hpage.
  { intros gens s acc. unfold RamDur.restore_page. keeps_steps. apply disk_sys, disk_metadata. }
  assert (forall gens l acc, keeps on_disk (RamDur.restore_pages gens l acc)) as Hpages.
  { intros gens l. induction l as [|s l IH]; intros acc; cbn [RamDur.restore_pages]; keeps_steps; auto. }
  unfold RamDur.restore. keeps_steps; [apply disk_open_generations| |apply keeps_modify; by intros rw].
  generalize (RamDur.mkRestoring ∅ 0 0). induction states as [|s states IH]; intros acc; cbn [RamDur.restore_branches]; keeps_steps; auto.
  apply disk_from_pages.
Qed.

(** The RAM's world, the VMM and the file systems, from the supervisor's. *)
Lemma undisturbed_ram {A} (m : Ram.RW A) : keeps on_disk m -> keeps undisturbed (with_ram m : KW A).
Proof. intros Hm. eapply (keeps_zoom on_disk); [|by apply keeps_with_err]. intros w rw Hw. by split. Qed.
Lemma undisturbed_vmm {A} (m : M H VmmError A) : keeps undisturbed (with_vmm m : KW A).
Proof. intros w. unfold with_vmm, zoom. destruct (with_err _ m _). by split. Qed.
Lemma undisturbed_in_vmm {A} op (m : M H string A) : keeps undisturbed (in_vmm op m : KW A).
Proof. intros w. unfold in_vmm, zoom. destruct (with_err _ m _). by split. Qed.
Lemma undisturbed_fs {A} (m : M (Lineages W S Id) (Stop VmmError) A) : keeps undisturbed (with_fs m : KW A).
Proof. intros w. unfold with_fs, zoom. destruct (with_err _ m _). by split. Qed.
Lemma undisturbed_dir {A} (m : SIO A) : keeps same_files m -> keeps undisturbed (Kvm.with_dir m : KW A).
Proof. intros Hm. eapply (keeps_zoom same_files); [|by apply keeps_with_err]. intros w st Hw. by split. Qed.

Lemma undisturbed_drops l (vms : gmap N KvmVm) : keeps undisturbed (drop_forest l vms : KW unit).
Proof.
  unfold drop_forest, drop_filesystems, drop_vm, ignore, drop_filesystem, drop_backend.
  keeps_steps; try apply undisturbed_fs; try apply undisturbed_vmm. apply keeps_catch_rel, undisturbed_vmm.
Qed.

Lemma undisturbed_backend saved ram v : keeps undisturbed (restore_backend saved ram v : KW VmBackend).
Proof.
  unfold restore_backend, revive_backend, rethrow.
  keeps_steps; try apply undisturbed_in_vmm; try apply undisturbed_vmm.
  apply keeps_or_drop; [apply _| |apply undisturbed_vmm]. keeps_steps; apply undisturbed_vmm.
Qed.

Lemma undisturbed_restored_vms saved rams fss (vms : gmap N KvmVm) : keeps undisturbed (restore_vms saved rams fss vms : KW _).
Proof.
  revert rams fss vms. induction saved as [|vm saved IH]; intros [|ram rams] [|[v|] fss] vms; cbn [restore_vms]; keeps_steps.
  - apply keeps_or_drop; [apply _|apply undisturbed_backend|]. keeps_steps; [apply undisturbed_fs|apply undisturbed_drops].
  - unfold drop_vm, ignore, drop_filesystem, drop_backend. keeps_steps; try apply undisturbed_fs; try apply undisturbed_vmm.
    apply keeps_catch_rel, undisturbed_vmm.
  - apply IH.
  - apply undisturbed_drops.
Qed.

Lemma undisturbed_lineages ls l : keeps undisturbed (restore_lineages storage ls l : KW _).
Proof.
  revert l. induction ls as [|[lineage entries] ls IH]; intros l; cbn [restore_lineages]; keeps_steps; [|apply IH].
  apply keeps_or_drop; [apply _|apply undisturbed_fs|]. unfold drop_filesystems, drop_filesystem. keeps_steps. apply undisturbed_fs.
Qed.

Lemma undisturbed_forest m : keeps undisturbed (restore_forest storage m : KW KvmSupervisor).
Proof.
  unfold restore_forest. keeps_steps;
    [apply undisturbed_in_vmm|apply undisturbed_ram, disk_restore|apply undisturbed_lineages|apply undisturbed_restored_vms].
Qed.

(** However opening ends, the files are as they were. *)
Lemma undisturbed_open : keeps undisturbed (KvmDur.open storage : KW KvmSupervisor).
Proof.
  unfold KvmDur.open, read_manifest, with_json, new. keeps_steps.
  - unfold with_ram_storage.
    eapply (keeps_zoom on_disk); [intros w rw Hw; by split|]. eapply (keeps_zoom same_disk); [done|]. apply keeps_with_err.
    unfold Sto.create_dir_all. keeps_steps; [apply disk_call|]. apply keeps_modify. intros st. split; [done|]. cbn. set_solver.
  - apply undisturbed_dir. unfold create_dir_in, Sto.create_dir_all. keeps_steps; [apply call_files|..]; apply keeps_modify; by intros st.
  - apply undisturbed_ram, disk_reserve.
  - apply undisturbed_dir. unfold Fd.exists_path. keeps_steps. apply call_files.
  - apply undisturbed_dir. unfold Sto.open. keeps_steps. apply call_files.
  - eapply (keeps_zoom same_files); [intros w st Hw; by split|]. apply keeps_with_err. keeps_steps. apply call_files.
  - apply undisturbed_forest.
  - apply undisturbed_in_vmm.
Qed.

(** A host that crashed, and then perhaps began to open the forest. *)
Definition crashed_disk st st' : Prop := exists st1, crash_to st st1 /\ same_disk st1 st'.

Lemma crashed_call st st' sched : crashed_disk st st' -> crashed_disk st (set_sched sched st').
Proof. intros (st1 & C & [[] E]). exists st1. split; [done|]. split; [by split|done]. Qed.

(** The directory is made, whether or not it is there. *)
Lemma crashed_with_dir st st' : crashed_disk st st' -> exists st1, crash_to st st1 /\
  RamRecovery.with_dir (generations_dir storage) st' = RamRecovery.with_dir (generations_dir storage) st1.
Proof.
  intros (st1 & C & [[E1 E2 E3 E4 E5] Ed]). exists (set_sched (sto_sched st') st1). split; [by destruct C; split|].
  unfold RamRecovery.with_dir, set_dirs, set_sched. cbn. by rewrite Ed, E1, E2, E3, E4, E5.
Qed.

(** Nothing is left to lose in another crash. *)
Lemma files_crash st st' : sto_stable_names st = sto_names st -> sto_stable st = sto_data st -> crash_to st st' -> same_files st st'.
Proof.
  intros En Ed [_ Hn Hd Hx Hsn Hs].
  assert (sto_names st' = sto_names st) as E1 by (apply map_eq; intros q; destruct (Hn q) as [->| ->]; by rewrite ?En).
  assert (sto_data st' = sto_data st) as E2 by (apply map_eq; intros i; apply Hd; by rewrite Ed).
  split; congruence.
Qed.

Lemma crashed_again st st' st'' : crashed_disk st st' -> crash_to st' st'' -> crashed_disk st st''.
Proof.
  intros (st1 & C & [F Ed]) C'. exists st1. split; [done|]. split; [|by rewrite (crash_dirs _ _ C')]. etrans; [exact F|].
  apply files_crash; [| |done]; destruct F as [E1 E2 E3 E4 E5]; [rewrite E4, E1|rewrite E5, E2]; apply C.
Qed.

End attempts.

Section restart.
Context {W S Id St H Opts Snap Ranges : Type} `{Countable Id} `{!BranchStore W S Id St} `{!Vmm H Opts Snap Ranges}.
Context `{!VmmRuns H} `{!VmmLogs H} `{!VmmLogLaws H Opts Snap Ranges} `{HSparse : !SparseFiles} `{HLaws : !SparseLaws}.
Context `{HCodec : !ManifestCodec St Opts Snap Ranges}.
Context (storage : string).

Abbreviation world := (KvmWorld W S Id H).
Abbreviation KW := (M (KvmWorld W S Id H) (Stop SupervisorError)).
Abbreviation steps := (rtc (acting (generations_dir storage) everyone)).

Implicit Types (w : world) (d : KvmVm) (vms : gmap N KvmVm) (hist : RamHistory).

(** The VMs put together so far. *)
Record assembled vms w : Prop := {
  as_forest : forest_ok (kv_backend <$> vms);
  as_machines id d : vms !! id = Some d -> machine_of (kv_backend d) ∈ machines (kw_vmm w);
  as_logs id d : vms !! id = Some d -> starts_afresh (machine_of (kv_backend d)) (kw_vmm w)
}.

Lemma assembled_mild Y vms w w' : assembled vms w -> mild_world Y w w' -> (forall m, m ∈ Y -> m ∉ machines (kw_vmm w)) -> assembled vms w'.
Proof.
  intros [Hf Hm Hl] [_ _ C] HY. split; [done|intros id d Hd; by eapply (proj1 C), Hm|].
  intros id d Hd. eapply calm_afresh; [exact C|by eapply Hm| |by eapply Hl]. intros Hin. by eapply (HY _ Hin), Hm.
Qed.

Lemma wp_restored_backend saved ram v w :
  wp (restore_backend saved ram v : KW VmBackend)
    (fun b w' => backend_wf b /\ (machine_of b ∉ machines (kw_vmm w)) /\ mild_world {[machine_of b]} w w' /\
       machine_of b ∈ machines (kw_vmm w') /\ starts_afresh (machine_of b) (kw_vmm w'))
    (fun _ _ => True) w.
Proof.
  unfold restore_backend. destruct saved as [|config snapshot dirty indexes]; wp_steps.
  - unfold in_vmm, with_vmm. wp_steps. eapply wp_mono; [apply log_create_vm| |done]. intros vm h1 (C1 & Hn & Hi). wp_steps. cbn.
    eapply wp_mono; [apply wp_register| |done]. intros _ h2 [C2 Hl]. wp_steps. cbn.
    split_and!; [done|done| |by apply C2|done]. split; [done|done|]. cbn. etrans; [|exact C2]. eapply calm_mono; [|exact C1]. set_solver.
  - unfold rethrow. destruct (reattach_config _ _ _) as [config'|e]; [|done]. wp_steps. cbn. wp_steps.
    pose proof (wp_revive_mild (mkCapture config' snapshot dirty []) ram (w, mkKvmSupervisor 0 0 ∅ None None)) as Hw.
    unfold on_world, wp, zoom in *. cbn in Hw. destruct (revive_backend _ ram w) as [w' [c|e]]; [|done]. cbn in *.
    destruct Hw as (Hc & Hn & M & Hi & Hl). split_and!; [done|done|apply M|done|done].
Qed.

Lemma wp_restored_vms saved rams (fss : list (option VirtioFs)) vms w :
  assembled vms w -> NoDup (vmf_id <$> saved) -> (forall id, id ∈ vmf_id <$> saved -> vms !! id = None) ->
  length rams = length saved -> length fss = length saved ->
  wp (restore_vms saved rams fss vms : KW _)
    (fun vms' w' => kw_ram w' = kw_ram w /\ kw_dir w' = kw_dir w /\ assembled vms' w' /\
       kv_ram <$> vms' = list_to_map (zip (vmf_id <$> saved) rams) ∪ (kv_ram <$> vms))
    (fun _ _ => True) w.
Proof.
  revert rams fss vms w. induction saved as [|vm saved IH]; intros [|ram rams] [|fs fss] vms w Ha Hnd Hfree Hr Hf; cbn [restore_vms fmap list_fmap zip];
    try done; wp_steps.
  { split_and!; [done|done|done|]. cbn. by rewrite (left_id_L ∅ (∪)). }
  destruct fs as [v|]; [|by wp_steps; apply wp_any]. wp_steps. cbn in Hnd, Hfree. apply NoDup_cons in Hnd as [Hni Hnd].
  rewrite wp_or_drop. eapply wp_mono; [apply wp_restored_backend| |].
  2: { intros [e|] w1 _; [|done]. by apply wp_any. }
  intros b w1 (Hwf & Hn & M1 & Hi & Hl). wp_steps. rewrite (Hfree (vmf_id vm)) by set_solver. wp_steps.
  assert (assembled (<[vmf_id vm := mkKvmVm b ram v]> vms) w1) as Ha1.
  { destruct (assembled_mild _ _ _ _ Ha M1) as [F1 F2 F3]; [by intros m ->%elem_of_singleton|]. split.
    - rewrite fmap_insert. apply forest_ok_insert; [done|done|]. intros (id & b' & Hb & E)%elem_of_machs.
      rewrite lookup_fmap in Hb. apply fmap_Some in Hb as (d & Hd & ->). apply Hn. cbn in E. rewrite <-E. by eapply (as_machines _ _ Ha).
    - intros id d [[_ <-]|[_ Hd]]%lookup_insert_Some; [done|by eapply F2].
    - intros id d [[_ <-]|[_ Hd]]%lookup_insert_Some; [done|by eapply F3]. }
  eapply wp_mono; [apply IH; [exact Ha1|done| |cbn in Hr; lia|cbn in Hf; lia]| |done].
  - intros id Hid. rewrite lookup_insert_ne; [apply Hfree; by right|]. intros E. apply Hni. by rewrite E.
  - intros vms' w2 (E1 & E2 & Ha2 & Em). split_and!; [by rewrite E1, (mw_ram _ _ _ M1)|by rewrite E2, (mw_dir _ _ _ M1)|done|].
    rewrite Em, fmap_insert. cbn. rewrite <-insert_union_r; [by rewrite insert_union_l|].
    destruct (list_to_map (zip (vmf_id <$> saved) rams) !! vmf_id vm) eqn:E; [|done]. apply zip_map_some in E. done.
Qed.

Lemma wp_restored_lineages ls l w :
  wp (restore_lineages storage ls l : KW _) (fun l' w' => length l' = length l /\ mild_world ∅ w w') (fun _ _ => True) w.
Proof.
  revert l w. induction ls as [|[lineage entries] ls IH]; intros l w; cbn [restore_lineages]; wp_steps; [done|].
  rewrite wp_or_drop. eapply wp_keeps; [apply mild_fs| |].
  - intros restored w1 M1. eapply wp_mono; [apply IH| |done]. intros l' w2 [El M2]. split; [|by etrans].
    rewrite El. unfold place. generalize (zip entries.*1 restored). intros placed. clear. revert l.
    induction placed as [|[i v] placed IHp]; intros l; cbn; [done|]. by rewrite IHp, length_insert.
  - intros [e|] w1 _; [|done]. by apply wp_any.
Qed.

(** The numbers of the generations found in the directory are reserved. *)
Definition reserved_from hist (rw : RamWorld) : Prop := exists st,
  crash_to (rm_storage (sm_world (hi_sys hist))) st /\
  RamDur.reserve_persisted_generation_ids (generations_dir storage) (mkRamWorld (RamRecovery.with_dir (generations_dir storage) st) 1 1) = (rw, Ok tt).

Lemma wp_ram_dir hist st_r fs h st_d : crashed_disk storage (rm_storage (sm_world (hi_sys hist))) st_r ->
  wp (with_ram_storage (Sto.create_dir_all (generations_dir storage)) : KW unit)
    (fun _ w => kw_dir w = st_d /\ exists st, crash_to (rm_storage (sm_world (hi_sys hist))) st /\
       kw_ram w = mkRamWorld (RamRecovery.with_dir (generations_dir storage) st) 1 1)
    (fun _ _ => True) (mkKvmWorld (mkRamWorld st_r 1 1) fs h st_d).
Proof.
  intros C.
  assert (forall st, crashed_disk storage (rm_storage (sm_world (hi_sys hist))) st -> exists st1, crash_to (rm_storage (sm_world (hi_sys hist))) st1 /\
    mkRamWorld (RamRecovery.with_dir (generations_dir storage) st) 1 1 = mkRamWorld (RamRecovery.with_dir (generations_dir storage) st1) 1 1) as Hd.
  { intros st (st1 & C1 & ->)%crashed_with_dir. by exists st1. }
  unfold with_ram_storage, Sto.create_dir_all, Sto.call. wp_steps. unfold wp. cbn.
  destruct (sto_sched st_r) as [|[e|n|] rest]; cbn; try done; (split; [done|]).
  - exact (Hd _ C).
  - exact (Hd _ (crashed_call storage _ _ rest C)).
  - exact (Hd _ (crashed_call storage _ _ rest C)).
Qed.

(** What [open] does before it looks at the manifest. *)
Lemma wp_open_head {A} hist st_r st_d fs h (f : bool -> KW A) (Q : A -> world -> Prop) :
  crashed_disk storage (rm_storage (sm_world (hi_sys hist))) st_r ->
  (forall b w, reserved_from hist (kw_ram w) -> same_files st_d (kw_dir w) ->
     b = bool_decide (is_Some (sto_names st_d !! manifest_path storage)) \/ b = false /\ unanswered st_d ->
     wp (f b) Q (fun _ _ => True) w) ->
  wp (_ ← with_ram_storage (Sto.create_dir_all (generations_dir storage));
      _ ← with_dir (create_dir_in storage "filesystems");
      _ ← with_ram (RamDur.reserve_persisted_generation_ids (generations_dir storage));
      there ← with_dir (Fd.exists_path (manifest_path storage));
      f there) Q (fun _ _ => True)
    (mkKvmWorld (mkRamWorld st_r 1 1) fs h st_d).
Proof.
  intros C HQ. wp_steps. eapply wp_mono; [by apply (wp_ram_dir hist)| |done]. intros _ w1 (E1 & st & Cst & Er). wp_steps.
  unfold Kvm.with_dir, create_dir_in, Sto.create_dir_all. wp_steps. rewrite E1. clear E1.
  assert (wp Sto.call (fun _ st' => same_files st_d st' /\ forall e, sto_sched st' !! 0%nat = Some (Fault e) -> unanswered st_d) (fun _ _ => True) st_d) as Hc.
  { unfold wp, Sto.call, unanswered. destruct (sto_sched st_d) as [|[e|n|] rest] eqn:Hs; cbn; try done; (split; [by split|]);
      intros e He; [by rewrite Hs in He|by exists e..]. }
  eapply wp_mono; [exact Hc| |done]. intros o st1 [Hf1 Hs1]. wp_steps. unfold with_ram. wp_steps. cbn.
  rewrite Er. unfold wp at 1. destruct (RamDur.reserve_persisted_generation_ids _ _) as [rw [[]|e]] eqn:Hr; [|done]. wp_steps. cbn.
  eapply wp_mono; [apply (wp_exists_tells _ (fun _ _ => False))| |done]. intros b st2 [Hb Hf2]. cbn in *. rewrite (sf_names _ _ Hf1) in Hb.
  apply HQ; [by exists st| |].
  - cbn. etrans; [exact Hf1|]. etrans; [|exact Hf2]. by split.
  - destruct Hb as [?|(-> & e & He)]; [by left|right; by eauto].
Qed.

(** A snapshot and the forest that came back. *)
Definition revives (snap : gmap N (option (list byte))) (mem : gmap N (list byte)) : Prop :=
  dom mem = dom snap /\ forall id bytes, snap !! id = Some (Some bytes) -> mem !! id = Some bytes.

(** What is up after [open]: the forest of one of [snaps], or no VM at all
    where the host did not answer whether there is a manifest. *)
Definition reappears (snaps : list (gmap N (option (list byte)))) (st_d : Storage) (mem : gmap N (list byte)) : Prop :=
  (exists snap, snap ∈ snaps /\ revives snap mem) \/ unanswered st_d /\ mem = ∅.

Definition came_back hist (snaps : list (gmap N (option (list byte)))) (st_d : Storage) (k : KvmSupervisor) w : Prop := exists hist',
  steps hist hist' /\ settled storage ∅ None ∅ (kw_dir w) hist' (w, k) /\ reappears snaps st_d (forest_memory (w, k)) /\
  same_files st_d (kw_dir w).

Implicit Types (m : ForestManifest St Opts Snap Ranges) (snaps : list (gmap N (option (list byte)))) (st_d : Storage).

(** A restart as a step of the history. *)
Lemma restart_step hist rw rw' group sel rams ids : history_reachable (generations_dir storage) hist -> reserved_from hist rw ->
  group ∈ hi_run hist :: hi_past hist -> sel ⊆ group -> RamDur.restore sel.*1 (generations_dir storage) rw = (rw', Ok rams) ->
  steps hist (mkRamHistory (mkRamSystem rw' (guests_at ids rams)) [] (hi_run hist :: hi_past hist)).
Proof.
  intros R (st & C & Hres) Hg Hsel Hrest. destruct hist as [sys run past]. apply everyone_step. eapply hs_restart; [exact C|exact Hg|exact Hsel|].
  unfold restart, mbind, M_bind. rewrite Hres. exact Hrest.
Qed.

(** What it restores. *)
Lemma restart_memory hist rw rw' group sel rams : history_reachable (generations_dir storage) hist -> reserved_from hist rw ->
  group ∈ hi_run hist :: hi_past hist -> sel ⊆ group -> RamDur.restore sel.*1 (generations_dir storage) rw = (rw', Ok rams) ->
  Forall2 (fun c r => Ram.ram_bytes (rm_storage rw') r = c.2) sel rams.
Proof.
  intros R (st & C & Hres) Hg Hsel Hrest. destruct (history_reachable_ok _ _ R) as [Kn I].
  destruct (crash_found _ _ _ _ _ _ I C Hg Hsel) as [F _]. apply found_with_dir in F.
  assert (generations_dir storage ∈ sto_dirs (RamRecovery.with_dir (generations_dir storage) st)) as Hd by (cbn; set_solver).
  assert (restart (generations_dir storage) sel.*1 (mkRamWorld (RamRecovery.with_dir (generations_dir storage) st) 1 1) = (rw', Ok rams)) as Hrun.
  { unfold restart, mbind, M_bind. rewrite Hres. exact Hrest. }
  pose proof (wp_elim _ _ _ _ _ _ (wp_restart_rams _ _ sel F Hd) Hrun) as V. cbn in V.
  rewrite (rv_rams _ _ _ _ _ V). apply Forall2_fmap_r, Forall2_fmap_r, Forall_Forall2_diag, Forall_forall. intros c Hc. by eapply revived_ram.
Qed.

Lemma restore_nothing hist rw : reserved_from hist rw -> RamDur.restore [] (generations_dir storage) rw = (rw, Ok []).
Proof.
  intros (st & _ & Hres). unfold RamDur.reserve_persisted_generation_ids, Ram.sys, zoom, with_err, mbind, M_bind in Hres. cbn in Hres.
  destruct (Fd.read_dir _ _) as [st' [names|e]]; [|done]. cbn in Hres. injection Hres as <-.
  unfold RamDur.restore, mbind, M_bind. cbn. unfold btree_elems. rewrite elements_empty. cbn.
  assert (saturating_add 0 1 = 1) as -> by done. unfold mret, M_ret. do 2 f_equal. lia.
Qed.

(** The forest of a manifest whose RAM was restored. *)
Lemma assembled_settled hist rw rams ids next lineage vms w :
  steps hist (mkRamHistory (mkRamSystem rw (guests_at ids rams)) [] (hi_run hist :: hi_past hist)) ->
  history_reachable (generations_dir storage) hist -> kw_ram w = rw -> assembled vms w -> kv_ram <$> vms = list_to_map (zip ids rams) ->
  (forall id, id ∈ ids -> id < next) ->
  settled storage ∅ None ∅ (kw_dir w) (mkRamHistory (mkRamSystem rw (guests_at ids rams)) [] (hi_run hist :: hi_past hist))
    (w, mkKvmSupervisor next lineage vms None (Some storage)).
Proof.
  intros Hst R Ew [Hf Hm Hl] Ev Hnext. split; [|done|by eapply steps_reach]. cbn.
  assert (forall id, guests_at ids rams !! id = gu_new <$> (kv_ram <$> vms !! id)) as Hg.
  { intros id. rewrite <-lookup_fmap, Ev. unfold guests_at. by rewrite zip_map_fmap, lookup_fmap. }
  split; cbn; [|done|done| |done|done].
  - intros id _. rewrite Hg. destruct (vms !! id) as [d|] eqn:Hd; [|done]. cbn. destruct (Hl id d Hd). split; cbn; done.
  - intros id [d Hd]. apply Hnext. apply (zip_map_some ids rams id (kv_ram d)). by rewrite <-Ev, lookup_fmap, Hd.
Qed.

Lemma wp_open_fresh hist snaps st_d w : history_reachable (generations_dir storage) hist -> reserved_from hist (kw_ram w) ->
  same_files st_d (kw_dir w) -> ∅ ∈ snaps \/ unanswered st_d ->
  wp (s ← new; mret (mkKvmSupervisor (ks_next_vm s) (ks_next_lineage s) (ks_vms s) (ks_last_fork_pause s) (Some storage)) : KW _)
    (came_back hist snaps st_d) (fun _ _ => True) w.
Proof.
  intros R Hres Hf Hin. unfold new, in_vmm. wp_steps. apply wp_any; [|done]. intros _ h. wp_steps. cbn.
  pose proof (restart_step hist _ _ _ [] [] [] R Hres (list_elem_of_here _ _) (list_subseteq_nil _) (restore_nothing _ _ Hres)) as Hst.
  eexists _. split_and!; [exact Hst| | |exact Hf].
  - eapply assembled_settled; [exact Hst|done|done| |by rewrite fmap_empty|set_solver].
    split; [by split|done|done].
  - unfold forest_memory. cbn. rewrite fmap_empty. destruct Hin as [Hin|Hu]; [left; by exists ∅|by right].
Qed.

Context `{!ManifestCodecLaws}.

Lemma wp_read_manifest m bytes w : content storage (kw_dir w) = Some bytes -> to_json m = Ok bytes ->
  wp (read_manifest storage : KW _) (fun m' w' => m' = stored m /\ kw_ram w' = kw_ram w /\ same_files (kw_dir w) (kw_dir w')) (fun _ _ => True) w.
Proof.
  intros Hc Hj. unfold content in Hc. destruct (sto_names (kw_dir w) !! manifest_path storage) as [i|] eqn:Hi; [|done]. cbn in Hc.
  unfold read_manifest, Kvm.with_dir, with_json, Sto.open. wp_steps. eapply wp_keeps; [apply call_files| |done].
  intros o st1 F1. wp_steps. rewrite (sf_names _ _ F1), Hi. wp_steps. cbn. eapply wp_keeps; [apply call_files| |done].
  intros o2 st2 F2. wp_steps. cbn. unfold inode_bytes. rewrite (sf_data _ _ F2), (sf_data _ _ F1), Hc. cbn.
  rewrite (codec_roundtrip _ _ Hj). cbn. split_and!; [done|done|by etrans].
Qed.

(** The memory of the VMs of [l], restored from the checkpoints of [snap]. *)
Lemma entries_memory snap (l : list (VmManifest St Opts Snap Ranges)) sel rams rw id bytes :
  Forall2 (entry_ok snap) l sel -> Forall2 (fun c r => Ram.ram_bytes (rm_storage rw) r = c.2) sel rams -> NoDup (vmf_id <$> l) ->
  snap !! id = Some (Some bytes) -> id ∈ vmf_id <$> l ->
  exists r, (list_to_map (zip (vmf_id <$> l) rams) : gmap N KvmGuestRam) !! id = Some r /\ Ram.ram_bytes (rm_storage rw) r = bytes.
Proof.
  intros Hl Hr Hnd Hs (vm & -> & (i & Hi)%list_elem_of_lookup_1)%list_elem_of_fmap.
  destruct (Forall2_lookup_l _ _ _ _ _ Hl Hi) as (c & Hc & _ & o & Ho & Hb). rewrite Hs in Ho. injection Ho as <-.
  destruct (Forall2_lookup_l _ _ _ _ _ Hr Hc) as (r & Hri & Hm). exists r. split.
  - eapply zip_map_lookup; [exact Hnd|by rewrite list_lookup_fmap, Hi|exact Hri].
  - rewrite Hm. by apply Hb.
Qed.

Lemma stored_entries m : vmf_id <$> fm_vms (stored m) = vmf_id <$> fm_vms m /\ vmf_ram <$> fm_vms (stored m) = vmf_ram <$> fm_vms m /\
  fm_version (stored m) = fm_version m /\ fm_next_vm (stored m) = fm_next_vm m.
Proof. cbn. rewrite <-!list_fmap_compose. done. Qed.

Lemma wp_restored_forest hist snaps snap m st_d w : history_reachable (generations_dir storage) hist -> reserved_from hist (kw_ram w) ->
  same_files st_d (kw_dir w) -> manifest_holds hist snap m -> snap ∈ snaps ->
  wp (restore_forest storage (stored m) : KW _) (came_back hist snaps st_d) (fun _ _ => True) w.
Proof.
  intros R Hres Hf [Hv Hnd Hdom Hnext (group & sel & Hg & Hsel & Hent)] Hin. destruct (stored_entries m) as (Eid & Eram & Ever & Enext).
  revert Eid Eram Ever Enext. generalize (stored m) as m'. intros m' Eid Eram Ever Enext.
  unfold restore_forest, in_vmm, with_ram. rewrite Eram, Ever, Hv. cbn. wp_steps.
  apply wp_any; [|done]. intros _ h. wp_steps. cbn.
  assert (vmf_ram <$> fm_vms m = sel.*1) as Esel.
  { clear -Hent. induction Hent as [|vm c l sel [E _] _ IH]; cbn; [done|]. by rewrite E, IH. }
  rewrite Esel. unfold wp at 1. destruct (RamDur.restore sel.*1 (generations_dir storage) (kw_ram w)) as [rw [rams|e]] eqn:Hrest; [|done]. cbn.
  pose proof (restart_step _ _ _ _ _ _ (vmf_id <$> fm_vms m) R Hres Hg Hsel Hrest) as Hst.
  pose proof (restart_memory _ _ _ _ _ _ R Hres Hg Hsel Hrest) as Hmem.
  assert (length rams = length (fm_vms m)) as Hlen by (rewrite <-(Forall2_length _ _ _ Hmem); symmetry; by apply Forall2_length in Hent).
  wp_steps. eapply wp_mono; [apply wp_restored_lineages| |done]. intros fss w1 [Hfl M1]. rewrite length_replicate in Hfl. wp_steps.
  assert (length (fm_vms m') = length (fm_vms m)) as El by (rewrite <-(length_fmap vmf_id), Eid; apply length_fmap).
  eapply wp_mono; [apply wp_restored_vms| |done].
  - split; [by rewrite fmap_empty|by intros ? ? ?|by intros ? ? ?].
  - by rewrite Eid.
  - done.
  - by rewrite El.
  - done.
  - intros vms w2 (E1 & E2 & Ha & Em). wp_steps. rewrite Eid, fmap_empty, (right_id_L ∅ (∪)) in Em.
    assert (kw_ram w2 = rw) as Erw by (rewrite E1, (mw_ram _ _ _ M1); done).
    eexists _. split_and!; [exact Hst|rewrite Enext; by eapply assembled_settled| |by rewrite E2, (mw_dir _ _ _ M1)].
    left. exists snap. split; [done|]. unfold forest_memory. cbn. rewrite Erw. split.
    + assert (dom vms = list_to_set (vmf_id <$> fm_vms m)) as Ed.
      { rewrite <-(dom_fmap_L kv_ram vms), Em, dom_list_to_map_L, fst_zip; [done|]. by rewrite length_fmap, Hlen. }
      rewrite dom_fmap_L, Ed. apply set_eq. intros id. by rewrite elem_of_list_to_set, elem_of_dom, Hdom.
    + intros id bytes Hs. destruct (entries_memory snap (fm_vms m) sel rams rw id bytes) as (r & Hr & Hb); [done|done|done|done| |].
      { apply Hdom. by eexists. }
      rewrite <-Em, lookup_fmap in Hr. rewrite lookup_fmap. apply fmap_Some in Hr as (d & -> & ->). cbn. by rewrite Hb.
Qed.

Lemma wp_open_linked hist snaps st_r st_d fs h : history_reachable (generations_dir storage) hist ->
  crashed_disk storage (rm_storage (sm_world (hi_sys hist))) st_r -> manifest_kept storage st_d -> content_holds hist snaps (content storage st_d) ->
  wp (KvmDur.open storage) (came_back hist snaps st_d) (fun _ _ => True) (mkKvmWorld (mkRamWorld st_r 1 1) fs h st_d).
Proof.
  intros R C Hk (snap & Hin & Hc). unfold KvmDur.open. apply (wp_open_head hist); [done|]. intros b w Hres Hf [->|[-> Hu]].
  2: { apply wp_open_fresh; [done|done|done|by right]. }
  destruct (sto_names st_d !! manifest_path storage) as [i|] eqn:Hi.
  - destruct (mk_named _ _ Hk i Hi) as [_ [bytes Hb]]. assert (content storage st_d = Some bytes) as Hcon by (unfold content; by rewrite Hi).
    rewrite Hcon in Hc. destruct Hc as (m & Hj & Hm). rewrite bool_decide_eq_true_2 by by eexists. wp_steps.
    eapply wp_mono; [eapply (wp_read_manifest m bytes); [|exact Hj]| |done].
    { unfold content in *. by rewrite (sf_names _ _ Hf), (sf_data _ _ Hf). }
    intros m' w1 (-> & Er & Hf1). eapply (wp_restored_forest hist snaps snap m); [done|by rewrite Er|by etrans|done|done].
  - rewrite bool_decide_eq_false_2 by (intros [? ?]; congruence). apply wp_open_fresh; [done|done|done|left].
    assert (content storage st_d = None) as Hcon by (unfold content; by rewrite Hi). rewrite Hcon in Hc. by subst.
Qed.

End restart.

(** ** Histories of a forest *)

Section history.
Context {W S Id St H Opts Snap Ranges : Type} `{Countable Id} `{!BranchStore W S Id St} `{!Vmm H Opts Snap Ranges}.
Context `{!VmmRuns H} `{!VmmLogs H} `{!VmmLogLaws H Opts Snap Ranges} `{HSparse : !SparseFiles} `{HLaws : !SparseLaws}.
Context `{HCodec : !ManifestCodec St Opts Snap Ranges} `{HCodecLaws : !ManifestCodecLaws}.
Context (storage : string).

Abbreviation world := (KvmWorld W S Id H).
Abbreviation K := (M (KvmWorld W S Id H * KvmSupervisor) (Stop SupervisorError)).

Implicit Types (w : world) (s : world * KvmSupervisor) (Dm : gset N) (hist : RamHistory)
  (snap : gmap N (option (list byte))) (snaps : list (gmap N (option (list byte)))) (op : kvm_op (W := W) (S := S) (Id := Id) (H := H) (Opts := Opts)).

(** The counters do not run out in the call. *)
Definition op_room op s : Prop :=
  match op with
  | OpCreateVm n => room 1 (n / PAGE_SIZE) (kw_ram s.1) /\ ks_next_vm s.2 < u64_MAX
  | OpCreateCloudVm config => room 1 (vc_memory_size config / PAGE_SIZE) (kw_ram s.1) /\ ks_next_vm s.2 < u64_MAX
  | OpForkVm _ source =>
      (forall d, ks_vms s.2 !! source = Some d -> room 2 (2 * lenN (pages (kv_ram d))) (kw_ram s.1)) /\ ks_next_vm s.2 < u64_MAX
  | OpCheckpoint => room (lenN (vm_ids s.2)) (all_pages s) (kw_ram s.1)
  | _ => True
  end.

(** During a fork guests of [A] run, and do what guests do. *)
Definition guests_behave (A : N -> Prop) op : Prop := match op with OpForkVm guest _ => guest_only (A := A) guest | _ => True end.

(** The VMs a call is about. *)
Definition touches op s (j : N) : Prop :=
  match op with
  | OpCreateVm _ | OpCreateCloudVm _ => j = ks_next_vm s.2
  | OpForkVm _ source => j = source \/ j = ks_next_vm s.2
  | OpRemoveVm id | OpWriteMemory id _ _ | OpReadMemory id _ _ => j = id
  | OpCheckpoint => True
  | _ => False
  end.

(** A fork or a checkpoint that fails may lose pages of the VMs it touched. *)
Definition damaged op (r : result (Stop SupervisorError) unit) s Dm : gset N :=
  match op, r with
  | OpForkVm _ source, Err _ => {[source]} ∪ Dm
  | OpCheckpoint, Err _ => dom (ks_vms s.2) ∪ Dm
  | _, _ => Dm
  end.

(** The snapshots a restart may bring back. *)
Definition kept_snapshots op (r : result (Stop SupervisorError) unit) s Dm snaps : list (gmap N (option (list byte))) :=
  match op, r with
  | OpCheckpoint, Ok _ => [snapshot Dm s]
  | OpCheckpoint, Err _ => snapshot Dm s :: snaps
  | _, _ => snaps
  end.

(** A forest is up, or there are only its directories: that of the RAM's
    generations and that of the manifest. *)
Inductive forest_state := Up (Dm : gset N) (s : world * KvmSupervisor) | Down (ram_dir dir : Storage).

Inductive forest_history : forest_state -> list (gmap N (option (list byte))) -> Prop :=
  | fh_start sched sched' : forest_history (Down (set_sched sched empty_storage) (set_sched sched' empty_storage)) [∅]
  | fh_open st_r st_d snaps fs h w k :
      forest_history (Down st_r st_d) snaps ->
      KvmDur.open storage (mkKvmWorld (mkRamWorld st_r 1 1) fs h st_d) = (w, Ok k) -> forest_history (Up ∅ (w, k)) snaps
  | fh_open_failed st_r st_d snaps fs h w e st_r' st_d' :
      forest_history (Down st_r st_d) snaps -> KvmDur.open storage (mkKvmWorld (mkRamWorld st_r 1 1) fs h st_d) = (w, Err e) ->
      crash_to (rm_storage (kw_ram w)) st_r' -> crash_to (kw_dir w) st_d' -> forest_history (Down st_r' st_d') snaps
  | fh_op Dm s snaps op s' r :
      forest_history (Up Dm s) snaps -> op_room op s -> guests_behave everyone op -> run_op op s = (s', r) -> r <> Err Panicked ->
      forest_history (Up (damaged op r s Dm) s') (kept_snapshots op r s Dm snaps)
  | fh_guest Dm s snaps s' : forest_history (Up Dm s) snaps -> guest_step everyone s s' -> forest_history (Up Dm s') snaps
  | fh_crash Dm s snaps st_r st_d :
      forest_history (Up Dm s) snaps -> crash_to (rm_storage (kw_ram s.1)) st_r -> crash_to (kw_dir s.1) st_d ->
      forest_history (Down st_r st_d) snaps.

(** The invariant: the guests of a history of the RAM system, and a manifest
    whose RAM is in that history's archive. *)
Definition durable hist snaps (dst : Storage) : Prop :=
  manifest_kept storage dst /\ forall o, may_find storage dst o -> content_holds hist snaps o.

Definition forest_ok_in (f : forest_state) snaps : Prop :=
  match f with
  | Up Dm s => exists hist, settled storage ∅ None Dm (kw_dir s.1) hist s /\ durable hist snaps (kw_dir s.1)
  | Down st_r st_d => exists hist, history_reachable (generations_dir storage) hist /\
      crashed_disk storage (rm_storage (sm_world (hi_sys hist))) st_r /\ manifest_kept storage st_d /\
      content_holds hist snaps (content storage st_d) /\ sto_stable_names st_d = sto_names st_d /\ sto_stable st_d = sto_data st_d
  end.

Lemma discard_linked {A} (m : K A) (I J : world * KvmSupervisor -> Prop) s :
  wp m (fun _ => I) (stops J) s -> wp (discard m) (fun _ => I) (stops J) s.
Proof. intros Hm. unfold discard. wp_steps. eapply wp_mono; [exact Hm| |done]. intros a s' Hs. by wp_steps. Qed.

(** Every call but a checkpoint. *)
Lemma op_linked (A : N -> Prop) op Dm dst hist s :
  settled storage ∅ None Dm dst hist s -> op_room op s -> guests_behave A op -> op <> OpCheckpoint -> (forall j, touches op s j -> A j) ->
  wp (run_op op) (fun _ => reaches storage A (damaged op (Ok tt) s Dm) dst hist)
    (stops (reaches storage A (damaged op (Err Panicked) s Dm) dst hist)) s.
Proof.
  intros Hs Hroom Hg Hop HA. pose proof (reaches_here (A := A) _ _ _ _ Hs) as Hr. destruct op; cbn in *; try apply discard_linked.
  - destruct Hroom. apply create_vm_linked; auto.
  - destruct Hroom. apply create_cloud_vm_linked; auto.
  - by apply access_files.
  - destruct Hroom. eapply wp_mono; [eapply (fork_vm_linked (A := A)); eauto| |done]. intros id s' (_ & hist' & Hst & Hs' & _). by exists hist'.
  - apply remove_vm_linked; auto.
  - done.
  - apply write_memory_linked; auto.
  - apply read_memory_linked; auto.
  - by apply access_files.
  - by apply access_files.
Qed.

Lemma durable_steps hist hist' snaps dst : durable hist snaps dst -> rtc (acting (generations_dir storage) everyone) hist hist' -> durable hist' snaps dst.
Proof. intros [Hk Hf] Hst. split; [done|]. intros o Ho. eapply content_holds_steps; [by apply Hf|done]. Qed.

Lemma reaches_ok Dm hist snaps s s' : durable hist snaps (kw_dir s.1) -> reaches storage everyone Dm (kw_dir s.1) hist s' -> forest_ok_in (Up Dm s') snaps.
Proof.
  intros Hd (hist' & Hst & Hs). pose proof (lk_dir _ _ _ _ _ _ _ (se_linked _ _ _ _ _ _ _ Hs)) as Ed.
  exists hist'. rewrite Ed. split; [done|by eapply durable_steps].
Qed.

Lemma checkpoint_ok_in Dm hist snaps s s' r : durable hist snaps (kw_dir s.1) -> checkpoint_done storage Dm hist s s' r ->
  forest_ok_in (Up (damaged OpCheckpoint r s Dm) s') (kept_snapshots OpCheckpoint r s Dm snaps).
Proof.
  intros [Hk Hf] (hist' & Hst & Hk' & Hr). destruct r as [u|e]; cbn; destruct Hr as [Hs Hfind]; exists hist'; (split; [done|split; [done|]]).
  - destruct Hfind as (m & bytes & Hj & Hm & Hall). intros o ->%Hall. exists (snapshot Dm s). split; [left|]. by exists m.
  - intros o [Ho|(m & bytes & Hj & Hm & ->)]%Hfind.
    + destruct (content_holds_steps _ _ _ _ _ (Hf o Ho) Hst) as (snap & Hin & Hc). exists snap. split; [by right|done].
    + exists (snapshot Dm s). split; [left|]. by exists m.
Qed.

Lemma op_ok_in op Dm snaps s s' r : forest_ok_in (Up Dm s) snaps -> op_room op s -> guests_behave everyone op -> run_op op s = (s', r) -> r <> Err Panicked ->
  forest_ok_in (Up (damaged op r s Dm) s') (kept_snapshots op r s Dm snaps).
Proof.
  intros (hist & Hs & Hd) Hroom Hg Hrun Hp. assert (op = OpCheckpoint \/ op <> OpCheckpoint) as [->|Hop] by (destruct op; auto).
  - pose proof (wp_elim _ _ _ _ _ _ (checkpoint_linked storage Dm hist s Hs (proj1 Hd) Hroom) Hrun) as Hc.
    eapply checkpoint_ok_in; [exact Hd|]. destruct r as [[]|[e|]]; [done|apply Hc|done].
  - pose proof (wp_elim _ _ _ _ _ _ (op_linked everyone op Dm _ hist s Hs Hroom Hg Hop (fun _ _ => I)) Hrun) as Hc.
    assert (kept_snapshots op r s Dm snaps = snaps) as -> by by destruct op.
    eapply reaches_ok; [exact Hd|]. destruct r as [u|[e|]]; [| |done]; destruct op; done.
Qed.

Lemma open_ok_in st_r st_d snaps fs h w k : forest_ok_in (Down st_r st_d) snaps ->
  KvmDur.open storage (mkKvmWorld (mkRamWorld st_r 1 1) fs h st_d) = (w, Ok k) ->
  forest_ok_in (Up ∅ (w, k)) snaps /\ reappears snaps st_d (forest_memory (w, k)).
Proof.
  intros (hist & R & C & Hk & Hc & Est & _) Hrun.
  pose proof (wp_elim _ _ _ _ _ _ (wp_open_linked storage hist snaps st_r st_d fs h R C Hk Hc) Hrun) as (hist' & Hst & Hs & Hrev & Hf).
  split; [|done]. destruct (kept_files _ _ _ Hf Hk) as [Hk' Ec]. exists hist'. split; [done|]. split; [done|]. cbn.
  intros o Ho. eapply content_holds_steps; [|exact Hst]. apply may_find_iff in Ho; [|done].
  assert (o = content storage st_d) as ->; [|done]. destruct Ho as [->| ->]; [done|].
  unfold stable_content, content. by rewrite (sf_stable_names _ _ Hf), (sf_data _ _ Hf), Est.
Qed.

Lemma open_failed_in st_r st_d snaps fs h w r st_r' st_d' : forest_ok_in (Down st_r st_d) snaps ->
  KvmDur.open storage (mkKvmWorld (mkRamWorld st_r 1 1) fs h st_d) = (w, r) ->
  crash_to (rm_storage (kw_ram w)) st_r' -> crash_to (kw_dir w) st_d' -> forest_ok_in (Down st_r' st_d') snaps.
Proof.
  intros (hist & R & (st1 & C & F1) & Hk & Hc & En & Ed) Hrun Cr Cd.
  pose proof (undisturbed_open storage (mkKvmWorld (mkRamWorld st_r 1 1) fs h st_d)) as [Ur Ud]. rewrite Hrun in Ur, Ud. cbn in Ur, Ud.
  assert (same_files st_d st_d') as Fd.
  { etrans; [exact Ud|]. apply files_crash; [| |exact Cd]; destruct Ud as [E1 E2 E3 E4 E5]; congruence. }
  destruct (kept_files _ _ _ Fd Hk) as [Hk' Ec]. exists hist. split_and!; [done| |done|by rewrite Ec|apply Cd|apply Cd].
  eapply crashed_again; [|exact Cr]. exists st1. split; [done|]. destruct F1, Ur. split; [by etrans|congruence].
Qed.

Lemma history_ok_in f snaps : forest_history f snaps -> forest_ok_in f snaps.
Proof.
  induction 1 as [sched sched'|st_r st_d snaps fs h w k _ IH Hrun|st_r st_d snaps fs h w e st_r' st_d' _ IH Hrun Cr Cd|
    Dm s snaps op s' r _ IH Hroom Hg Hrun Hp|Dm s snaps s' _ IH Hstep|Dm s snaps st_r st_d _ IH Cr Cd].
  - exists (mkRamHistory (initial_system sched) [] []). split_and!; [by exists sched| |by apply fresh_kept| |done|done].
    + eexists. split; [by split; [|left|..]|done].
    + exists ∅. split; [left|done].
  - by eapply open_ok_in.
  - by eapply open_failed_in.
  - by eapply op_ok_in.
  - destruct IH as (hist & Hs & Hd). destruct (guest_step_linked _ _ _ _ _ _ Hs Hstep) as (hist' & Hst & Hs').
    pose proof (lk_dir _ _ _ _ _ _ _ (se_linked _ _ _ _ _ _ _ Hs')) as Ed. exists hist'. rewrite Ed. split; [done|by eapply durable_steps].
  - destruct IH as (hist & Hs & Hk & Hf). exists hist. split_and!; [apply Hs| |by eapply crash_kept| |apply Cd|apply Cd].
    + exists st_r. split; [by rewrite (se_world _ _ _ _ _ _ _ Hs)|done].
    + apply Hf. by exists st_d.
Qed.

(** C1. A durable forest survives crashes.  Its VMs are created, run, are
    accessed, forked and removed, checkpoints are taken, the host fails any
    call and crashes, losing what was not synchronised, and the forest is
    opened again, any number of times, also after attempts that failed.  A
    forest that is opened has the VMs of a checkpoint that was tried since the
    last one that succeeded, or of that one: each with the memory it had, byte
    for byte, at that checkpoint, unless an earlier fork or checkpoint of that
    VM had failed.  The one exception: when the host fails the call with which
    [open] asks whether there is a manifest, the forest that is opened may have
    no VMs. *)
Theorem forest_survives_crashes st_r st_d snaps fs h w k :
  forest_history (Down st_r st_d) snaps ->
  KvmDur.open storage (mkKvmWorld (mkRamWorld st_r 1 1) fs h st_d) = (w, Ok k) ->
  (exists snap, snap ∈ snaps /\ revives snap (forest_memory (w, k))) \/
  (exists e, sto_sched st_d !! 1%nat = Some (Fault e)) /\ forest_memory (w, k) = ∅.
Proof. intros Hh%history_ok_in Hrun. by eapply open_ok_in in Hrun as [_ ?]. Qed.

(** C6. The KVM supervisor refines the system of guest RAM.  After any history
    its VMs are the guests of a reachable state of that system: the same RAM in
    the same world, with the pages KVM or Cloud Hypervisor has logged for a VM
    as the guest's log, no fork in progress, and no page lost of a VM none of
    whose forks and checkpoints failed. *)
Theorem supervisor_refines_ram Dm s snaps : forest_history (Up Dm s) snaps ->
  exists hist, history_reachable (generations_dir storage) hist /\ sm_world (hi_sys hist) = kw_ram s.1 /\
    forall id, tied_at None (id ∉ Dm) (kw_vmm s.1) (ks_vms s.2 !! id) (sm_guests (hi_sys hist) !! id).
Proof.
  intros (hist & [L Ew R] & _)%history_ok_in. exists hist. split_and!; [done|done|]. intros id. apply (lk_vms _ _ _ _ _ _ _ L). set_solver.
Qed.

(** ** One VM and the others *)

(** The memory of a VM is that of its guest. *)
Lemma settled_memory X pr Dm dst hist s j gj : settled storage X pr Dm dst hist s -> j ∉ X -> sm_guests (hi_sys hist) !! j = Some gj ->
  forest_memory s !! j = Some (guest_memory (sm_world (hi_sys hist)) gj).
Proof.
  intros [L Ew R] HX Hj. pose proof (lk_vms _ _ _ _ _ _ _ L j HX) as Ht. rewrite Hj in Ht. unfold forest_memory, guest_memory.
  rewrite lookup_fmap, Ew. destruct (ks_vms s.2 !! j) as [d|]; [|done]. cbn. by rewrite (ti_ram _ _ _ _ _ Ht).
Qed.

Lemma guests_behave_mono (A B : N -> Prop) op : (forall j, A j -> B j) -> guests_behave A op -> guests_behave B op.
Proof.
  intros HAB. destruct op as [| | |guest source| | | | | |]; cbn; try done. intros Hg s. eapply wp_mono; [apply Hg| |done].
  intros u s' Hr. eapply rtc_subrel; [|exact Hr]. intros s1 s2 [id off bytes HA Hs|M]; [eapply gs_store; [by apply HAB|exact Hs]|by apply gs_other].
Qed.

(** C2. VMs are isolated.  Whatever the supervisor is asked to do about some VM,
    and however that ends, every other VM whose guest does not store meanwhile
    is still there, and its memory is, byte for byte, what it was.  (A
    checkpoint is about all VMs.) *)
Theorem supervisor_isolates_memory (B : N -> Prop) Dm s snaps op s' r j :
  forest_history (Up Dm s) snaps -> op_room op s -> guests_behave B op -> run_op op s = (s', r) -> r <> Err Panicked ->
  ~ touches op s j -> ~ B j -> is_Some (ks_vms s.2 !! j) -> is_Some (ks_vms s'.2 !! j) /\ forest_memory s' !! j = forest_memory s !! j.
Proof.
  intros (hist & Hs & Hd)%history_ok_in Hroom Hg Hrun Hp Hj HB [d Hdj].
  assert (op <> OpCheckpoint) as Hop by (intros ->; by destruct Hj). set (A := fun i => touches op s i \/ B i).
  pose proof (wp_elim _ _ _ _ _ _ (op_linked A op Dm _ hist s Hs Hroom (guests_behave_mono B A op (fun i Hi => or_intror Hi) Hg) Hop (fun i Hi => or_introl Hi)) Hrun) as Hc.
  assert (exists Dm' hist', rtc (acting (generations_dir storage) A) hist hist' /\ settled storage ∅ None Dm' (kw_dir s.1) hist' s') as (Dm' & hist' & Hst & Hs').
  { destruct r as [u|[e|]]; [| |done]; destruct Hc as (hist' & Hst & Hs'); eauto. }
  destruct (settled_guest _ _ _ _ _ _ _ _ Hs (not_elem_of_empty _) Hdj) as (gj & Hgj & _).
  destruct (acting_isolated (generations_dir storage) A hist hist' j gj) as [Hgj' Em]; [apply Hs|exact Hst|by intros [?|?]|exact Hgj|].
  pose proof (settled_memory _ _ _ _ _ _ _ _ Hs' (not_elem_of_empty _) Hgj') as Hm'. split.
  - unfold forest_memory in Hm'. rewrite lookup_fmap in Hm'. by apply fmap_Some in Hm' as (d' & -> & _).
  - by rewrite Hm', Em, (settled_memory _ _ _ _ _ _ _ _ Hs (not_elem_of_empty _) Hgj).
Qed.

(** C3. A fork copies the memory of its source.  When [fork_vm] succeeds, for a
    VM of either kind none of whose forks and checkpoints failed before, there
    is a new VM whose memory is, byte for byte, the memory of the source, also
    when guests ran during the first copy; a raw VM, paused for the whole fork,
    has the memory it had. *)
Theorem fork_vm_copies_memory Dm s snaps guest source s' child :
  forest_history (Up Dm s) snaps -> op_room (OpForkVm guest source) s -> guests_behave everyone (OpForkVm guest source) -> source ∉ Dm ->
  fork_vm guest source s = (s', Ok child) ->
  ks_vms s.2 !! child = None /\ exists bytes, forest_memory s' !! source = Some bytes /\ forest_memory s' !! child = Some bytes /\
    forall d vm, ks_vms s.2 !! source = Some d -> kv_backend d = RawVm vm -> forest_memory s !! source = Some bytes.
Proof.
  intros (hist & Hs & Hd)%history_ok_in [Hroom Hnext] Hg HD Hrun.
  pose proof (wp_elim _ _ _ _ _ _ (fork_vm_linked (A := everyone) guest source Dm _ hist s Hg Hs Hroom Hnext I I) Hrun) as (-> & hist' & Hst & Hs' & Hcopy).
  split; [by eapply next_free_guest, Hs|]. destruct (Hcopy HD) as (bytes & (gs & gc & Hgs & Hgc & Es & Ec) & Hraw). exists bytes. split_and!.
  - by rewrite (settled_memory _ _ _ _ _ _ _ _ Hs' (not_elem_of_empty _) Hgs), Es.
  - by rewrite (settled_memory _ _ _ _ _ _ _ _ Hs' (not_elem_of_empty _) Hgc), Ec.
  - intros d vm Hds Hb. rewrite (Hraw d vm Hds Hb). unfold forest_memory. by rewrite lookup_fmap, Hds.
Qed.

End history.
