(* ===== verification/KvmExample.v ===== *)
(** * A KVM supervisor over a simple VMM

    A VMM that keeps account of its machines and of the pages they dirty, and
    may refuse any request; file systems in memory; manifests
    written with an encoding of their own.  They satisfy the laws, and the
    theorems are evaluated on a forest of two VMs. *)

From S2P Require Import Prelude Generations Host CacheTypes SharedCache Identity MemStore Storage RedoxBranch VmmTypes VirtioFs VirtioFsExample Lineages LineageIds Ram RamSpec RamDurable RamRecovery RamExample KvmVmm KvmSupervisor KvmRecovery KvmRuns KvmForest KvmOps KvmLive KvmLogs KvmLink KvmForks KvmManifest KvmHistory.
Import Kvm KvmDur RamExample.RamRecoveryExample.

(** ** The VMM *)

Record ToyVmm := mkToy {
  tv_machines : gset Machine;
  tv_running : gset Machine;
  tv_next : N;
  tv_dirty : gmap Machine (gset nat);
  tv_tracked : gset Machine;
  tv_memory : gmap Machine nat;
  tv_configs : gmap N (VmConfig unit);
  tv_clock : N;
  tv_faults : list (option string)
}.

Module Toy.

Abbreviation T := (M ToyVmm string).

Definition set_running (r : gset Machine) (h : ToyVmm) : ToyVmm :=
  mkToy (tv_machines h) r (tv_next h) (tv_dirty h) (tv_tracked h) (tv_memory h) (tv_configs h) (tv_clock h) (tv_faults h).
Definition set_dirty (d : gmap Machine (gset nat)) (h : ToyVmm) : ToyVmm :=
  mkToy (tv_machines h) (tv_running h) (tv_next h) d (tv_tracked h) (tv_memory h) (tv_configs h) (tv_clock h) (tv_faults h).
Definition set_tracked (t : gset Machine) (h : ToyVmm) : ToyVmm :=
  mkToy (tv_machines h) (tv_running h) (tv_next h) (tv_dirty h) t (tv_memory h) (tv_configs h) (tv_clock h) (tv_faults h).
Definition set_memory (m : gmap Machine nat) (h : ToyVmm) : ToyVmm :=
  mkToy (tv_machines h) (tv_running h) (tv_next h) (tv_dirty h) (tv_tracked h) m (tv_configs h) (tv_clock h) (tv_faults h).

(** A request: it takes time, and may be refused. *)
Definition tick (h : ToyVmm) : ToyVmm :=
  mkToy (tv_machines h) (tv_running h) (tv_next h) (tv_dirty h) (tv_tracked h) (tv_memory h) (tv_configs h) (tv_clock h + 1) (tail (tv_faults h)).
Definition request : T unit := fun h =>
  (tick h, match tv_faults h with Some message :: _ => Err message | _ => Ok tt end).

Definition machine (make : N -> Machine) (runs : bool) : T N :=
  _ ← request;
  h ← get;
  let m := make (tv_next h) in
  _ ← modify (fun h => mkToy ({[m]} ∪ tv_machines h) (if runs then {[m]} ∪ tv_running h else tv_running h) (tv_next h + 1)
                         (<[m := ∅]> (tv_dirty h)) (tv_tracked h) (<[m := 0%nat]> (tv_memory h)) (tv_configs h) (tv_clock h) (tv_faults h));
  mret (tv_next h).

(** The processors stop before anything can fail. *)
Definition stop (m : Machine) : T unit := _ ← modify (fun h => set_running (tv_running h ∖ {[m]}) h); request.
Definition go (m : Machine) : T unit := modify (fun h => set_running ({[m]} ∪ tv_running h) h).
Definition start (m : Machine) : T unit := _ ← request; go m.

(** The pages logged for a machine; they are forgotten. *)
Definition log_of (m : Machine) (h : ToyVmm) : gset nat := default ∅ (tv_dirty h !! m).
Definition forget (m : Machine) : T unit := modify (fun h => set_dirty (<[m := ∅]> (tv_dirty h)) h).
Definition track (m : Machine) : T unit := modify (fun h => set_tracked ({[m]} ∪ tv_tracked h) h).
Definition take_log (m : Machine) : T (list nat) :=
  _ ← request;
  l ← gets (fun h => btree_elems (log_of m h));
  _ ← forget m;
  mret l.
Definition restart_log (m : Machine) : T unit := _ ← request; _ ← forget m; track m.

(** The memory of a machine, and its first page, which the loader fills. *)
Definition pages_of (m : Machine) (h : ToyVmm) : nat := default 0%nat (tv_memory h !! m).
Definition give_memory (m : Machine) (len : N) : T unit :=
  _ ← request; modify (fun h => set_memory (<[m := N.to_nat (len / PAGE_SIZE)]> (tv_memory h)) h).
Definition boot (m : Machine) : T unit :=
  _ ← request;
  _ ← modify (fun h => set_dirty (<[m := filter (fun i => i < pages_of m h)%nat ({[0%nat]} ∪ log_of m h)]> (tv_dirty h)) h);
  go m.

(** The words of a bitmap. *)
Definition word_of (l : list nat) (w : nat) : N :=
  foldr (fun page word => if (page / 64 =? w)%nat then N.setbit word (N.of_nat (page mod 64)) else word) 0 l.
Definition bitmap_of (n : nat) (l : list nat) : list N := word_of l <$> seq 0 (S (n / 64)).

Definition capture (w : N) : T (VmForkStateCapture unit unit unit) :=
  l ← take_log (Worker w);
  gets (fun h => mkCapture (default (mkVmConfig 0 None tt) (tv_configs h !! w)) tt tt l).

Definition set_config (w : N) (config : VmConfig unit) : T unit :=
  _ ← request;
  modify (fun h => mkToy (tv_machines h) (tv_running h) (tv_next h) (tv_dirty h) (tv_tracked h) (tv_memory h) (<[w := config]> (tv_configs h)) (tv_clock h) (tv_faults h)).

End Toy.

#[export] Instance Toy_vmm : Vmm ToyVmm unit unit unit := {
  hv_new := Toy.request;
  hv_create_vm := Toy.machine RawMachine true;
  vm_pause vm := Toy.stop (RawMachine vm);
  vm_resume vm := Toy.start (RawMachine vm);
  vm_create_user_memory_region vm slot gpa len := Toy.request;
  vm_remove_user_memory_region vm slot gpa len := Toy.request;
  vm_start_dirty_log vm := Toy.restart_log (RawMachine vm);
  vm_get_dirty_log vm slot gpa len := l ← Toy.take_log (RawMachine vm); mret (Toy.bitmap_of (N.to_nat (len / PAGE_SIZE)) l);
  eventfd_new := Toy.request;
  eventfd_clone := Toy.request;
  api_event_clone w := Toy.request;
  start_vmm_thread := Toy.machine Worker false;
  api_create w config := Toy.set_config w config;
  api_boot w := Toy.boot (Worker w);
  api_set_external_memory w len := Toy.give_memory (Worker w) len;
  api_enable_initial_fork_tracking w := _ ← Toy.request; Toy.track (Worker w);
  api_pause w := Toy.stop (Worker w);
  api_resume w := Toy.start (Worker w);
  api_begin_fork_tracking w := Toy.restart_log (Worker w);
  api_capture_fork_state w := Toy.capture w;
  api_take_dirty_ram_pages w := Toy.take_log (Worker w);
  api_restore_fork_state w capture len :=
    _ ← Toy.give_memory (Worker w) len; _ ← modify (fun h => Toy.set_tracked (tv_tracked h ∖ {[Worker w]}) h); Toy.set_config w (cap_config capture);
  api_shutdown w := Toy.stop (Worker w);
  join_worker w h := (Toy.set_running (tv_running h ∖ {[Worker w]}) h, JoinedOk);
  clock := tv_clock
}.

(** ** Its machines *)

(** Numbers given out are below the next one. *)
Definition below (h : ToyVmm) (m : Machine) : bool :=
  match m with RawMachine n | Worker n => n <? tv_next h end.

#[export] Instance Toy_runs : VmmRuns ToyVmm := {
  machines h := filter (fun m => below h m = true) (tv_machines h);
  running := tv_running
}.

Lemma toy_request : keeps (still running ∅) Toy.request.
Proof. intros h. split; cbn; set_solver. Qed.

Lemma toy_modify {E} f X : (forall h, tv_machines (f h) = tv_machines h /\ tv_next (f h) = tv_next h /\ tv_running h ∖ X ⊆ tv_running (f h)) ->
  keeps (E := E) (still running X) (modify f).
Proof.
  intros Hf h. destruct (Hf h) as (Hm & Hn & Hr). split; cbn; [|done]. rewrite Hm. unfold below. rewrite Hn. done.
Qed.

Ltac toy :=
  unfold Toy.restart_log, Toy.take_log, Toy.forget, Toy.track, Toy.give_memory, Toy.set_config, Toy.stop;
  repeat (first [keeps_step | solve [apply toy_request] | solve [apply keeps_still, toy_request]
                | apply toy_modify; intros ?; split_and!; [done|done|cbn; set_solver]]; cbv beta zeta).

Lemma toy_machine make runs h : (forall h' n, below h' (make n) = (n <? tv_next h')) ->
  wp (Toy.machine make runs) (fun n h' => still running ∅ h h' /\ (make n ∉ machines h) /\ make n ∈ machines h' /\ (runs = true -> make n ∈ running h'))
    (fun _ h' => still running ∅ h h') h.
Proof.
  intros Hb. unfold Toy.machine. wp_steps. eapply wp_keeps; [apply toy_request| |done]. intros _ h1 S1. wp_steps.
  cbn. split_and!.
  - etrans; [exact S1|]. split; cbn; [|destruct runs; set_solver]. intros m [Hm Hin]%elem_of_filter. apply elem_of_filter.
    split; [|set_solver]. unfold below in *. destruct m; apply N.ltb_lt in Hm; apply N.ltb_lt; cbn; lia.
  - intros Hin. apply (proj1 S1) in Hin. cbn in Hin. apply elem_of_filter in Hin as [Hlt _]. rewrite Hb in Hlt. apply N.ltb_lt in Hlt. lia.
  - apply elem_of_filter. split; [|set_solver]. rewrite Hb. apply N.ltb_lt. cbn. lia.
  - intros ->. set_solver.
Qed.

Lemma toy_go m X h h1 : still running X h h1 ->
  wp (Toy.go m) (fun _ h' => still running X h h' /\ m ∈ running h') (fun _ h' => still running X h h') h1.
Proof. intros S1. unfold Toy.go. wp_steps. split; [|cbn; set_solver]. etrans; [exact S1|]. split; cbn; set_solver. Qed.

Lemma toy_start m h : wp (Toy.start m) (fun _ h' => still running ∅ h h' /\ m ∈ running h') (fun _ h' => still running {[m]} h h') h.
Proof.
  unfold Toy.start. wp_steps. eapply wp_keeps; [apply toy_request| |intros ? h1; apply still_mono; set_solver]. intros _ h1 S1.
  eapply wp_mono; [by apply toy_go|done|]. intros ? h2. apply still_mono. set_solver.
Qed.

#[export] Instance Toy_quiet : QuietLaws ToyVmm unit unit unit running.
Proof.
  split; try (intros; cbn; toy; fail).
  - intros w. cbn. unfold Toy.capture. toy.
  - intros w h. split; cbn; set_solver.
  - intros h. cbn. eapply wp_mono; [by apply toy_machine| |done]. naive_solver.
  - intros h. cbn. eapply wp_mono; [by apply toy_machine| |done]. naive_solver.
  - intros w h. cbn. unfold Toy.boot. wp_steps. eapply (wp_keeps (still running {[Worker w]})); [apply keeps_still, toy_request| |done].
    intros _ h1 S1. wp_steps. apply toy_go. etrans; [exact S1|]. split; cbn; set_solver.
Qed.

#[export] Instance Toy_laws : VmmRunLaws ToyVmm unit unit unit.
Proof.
  split; [apply Toy_quiet|..].
  - intros vm. cbn. toy.
  - intros w. cbn. toy.
  - intros vm h. apply toy_start.
  - intros w h. apply toy_start.
Qed.

(** ** Its logs *)

#[export] Instance Toy_logs : VmmLogs ToyVmm := {
  logged := Toy.log_of;
  tracked := tv_tracked;
  memory_pages := Toy.pages_of
}.

Lemma toy_calm_request X : keeps (calm X) Toy.request.
Proof. intros h. by split. Qed.

Lemma toy_calm_modify {E} f X :
  (forall h, tv_machines (f h) = tv_machines h /\ tv_next (f h) = tv_next h /\
     forall m, m ∉ X -> tv_dirty (f h) !! m = tv_dirty h !! m /\ tv_memory (f h) !! m = tv_memory h !! m /\
                        (m ∈ tv_tracked h -> m ∈ tv_tracked (f h))) ->
  keeps (E := E) (calm X) (modify f).
Proof.
  intros Hf h. destruct (Hf h) as (Hm & Hn & Hd). split; cbn; [rewrite Hm; unfold below; by rewrite Hn|].
  intros m _ HX. unfold Toy.log_of, Toy.pages_of. by destruct (Hd m HX) as (-> & -> & ?).
Qed.

Ltac calm_modify :=
  apply toy_calm_modify; intros ?; split_and!; [done|done|]; intros ? ?; cbn; rewrite ?lookup_insert_ne by set_solver;
  split_and!; [done|done|set_solver].

Ltac toy_calm :=
  unfold Toy.restart_log, Toy.take_log, Toy.forget, Toy.track, Toy.give_memory, Toy.set_config, Toy.stop, Toy.start, Toy.go;
  repeat (first [keeps_step | solve [apply toy_calm_request] | solve [calm_modify]]; cbv beta zeta).

Lemma toy_calm_machine make runs h : (forall h' n, below h' (make n) = (n <? tv_next h')) ->
  wp (Toy.machine make runs) (fun n h' => calm ∅ h h' /\ (make n ∉ machines h) /\ make n ∈ machines h') (fun _ h' => calm ∅ h h') h.
Proof.
  intros Hb. pose proof (toy_machine make runs h Hb) as Hm. unfold wp in *. unfold Toy.machine, Toy.request, mbind, M_bind in *.
  assert (make (tv_next h) ∉ machines h) as Hn.
  { intros [Hlt _]%elem_of_filter. rewrite Hb in Hlt. apply N.ltb_lt in Hlt. lia. }
  destruct (tv_faults h) as [|[message|] faults]; cbn in *; try done; (split; [split; [apply Hm|]|split; [apply Hm|apply Hm]]);
    intros m Hin _; cbn; unfold Toy.log_of, Toy.pages_of; cbn; by rewrite !lookup_insert_ne by (intros <-; exact (Hn Hin)).
Qed.

Lemma toy_take m h : wp (Toy.take_log m)
  (fun l h' => reading m h h' /\ logged m h' = ∅ /\ captures l (logged m h))
  (fun _ h' => reading m h h' /\ shrunk m h h') h.
Proof.
  assert (keeps (calm {[m]}) (Toy.take_log m)) as C by toy_calm. specialize (C h).
  unfold Toy.take_log, Toy.forget, Toy.request, wp, modify, gets, mbind, M_bind in *.
  destruct (tv_faults h) as [|[message|] faults]; [|split; [split; [exact C|done]|unfold shrunk; reflexivity]|]; (split; [split; [exact C|done]|]).
  all: split; [cbn; unfold Toy.log_of; cbn; by rewrite lookup_insert_eq|].
  all: apply set_eq; intros i; by rewrite elem_of_list_to_set, elem_of_btree_elems.
Qed.

(** The bitmap that [word_of] packs. *)
Lemma testbit_word_of l w b : (b < 64)%nat -> N.testbit (Toy.word_of l w) (N.of_nat b) = true <-> (w * 64 + b)%nat ∈ l.
Proof.
  intros Hb. induction l as [|page l IH]; [split; [done|by intros ?%elem_of_nil]|]. rewrite elem_of_cons, <-IH.
  unfold Toy.word_of. cbn [foldr].
  pose proof (Nat.div_mod_eq page 64). pose proof (Nat.mod_upper_bound page 64).
  destruct (Nat.eqb_spec (page / 64) w) as [<-|Hw].
  - rewrite N.setbit_eqb, orb_true_iff, N.eqb_eq. split; [intros [E|E]|intros [E|E]]; [left; lia|by right|left; lia|by right].
  - split; [by right|intros [E|E]; [|done]]. destruct Hw. lia.
Qed.

Lemma toy_reports n (l : list nat) (L : gset nat) : captures l L -> (forall i, i ∈ L -> i < n)%nat -> reports (Toy.bitmap_of n l) n L.
Proof.
  intros Hc HL. unfold captures in Hc. subst L. apply set_eq. intros i. rewrite !elem_of_list_to_set. unfold Ram.bitmap_pages. rewrite list_elem_of_filter, list_elem_of_join. split.
  - intros [Hi (pages & Hin & Hl)]. apply elem_of_lookup_imap in Hl as (w & word & -> & Hw).
    unfold Ram.word_pages in Hin. apply list_elem_of_filter in Hin as [Ht [Hlo Hhi]%elem_of_seq].
    unfold Toy.bitmap_of in Hw. apply list_lookup_fmap_Some in Hw as (w' & -> & [-> _]%lookup_seq).
    apply testbit_word_of in Ht; [|lia]. by replace i with ((0 + w) * 64 + (i - w * 64))%nat by lia.
  - intros Hi. assert (i < n)%nat as Hn by (apply HL; by apply elem_of_list_to_set). split; [done|].
    pose proof (Nat.div_mod_eq i 64). pose proof (Nat.mod_upper_bound i 64). exists (Ram.word_pages (i / 64) (Toy.word_of l (i / 64))). split.
    + apply list_elem_of_filter. split; [|apply elem_of_seq; lia].
      apply testbit_word_of; [lia|]. by replace (i / 64 * 64 + (i - i / 64 * 64))%nat with i by lia.
    + apply elem_of_lookup_imap. eexists _, _. split; [done|]. unfold Toy.bitmap_of. rewrite list_lookup_fmap, lookup_seq_lt; [done|].
      pose proof (Nat.Div0.div_le_mono i n 64). lia.
Qed.

Lemma toy_restart m h : wp (Toy.restart_log m) (fun _ h' => calm {[m]} h h' /\ starts_afresh m h') (fun _ h' => calm {[m]} h h') h.
Proof.
  assert (keeps (calm {[m]}) (Toy.restart_log m)) as C by toy_calm. specialize (C h).
  unfold Toy.restart_log, Toy.forget, Toy.track, Toy.request, wp, modify, mbind, M_bind in *.
  destruct (tv_faults h) as [|[message|] faults]; [|exact C|]; (split; [exact C|]).
  all: split; [cbn; set_solver|cbn; unfold Toy.log_of; cbn; by rewrite lookup_insert_eq].
Qed.

Lemma toy_boot m h : wp (Toy.boot m)
  (fun _ h' => calm {[m]} h h' /\ (m ∈ tracked h -> m ∈ tracked h') /\ forall i, i ∈ logged m h' -> (i < memory_pages m h)%nat)
  (fun _ h' => calm {[m]} h h') h.
Proof.
  assert (keeps (calm {[m]}) (Toy.boot m)) as C by (unfold Toy.boot; toy_calm). specialize (C h).
  unfold Toy.boot, Toy.go, Toy.request, wp, modify, mbind, M_bind in *.
  destruct (tv_faults h) as [|[message|] faults]; [|exact C|]; (split; [exact C|]; split; [done|]).
  all: intros i; cbn; unfold Toy.log_of; cbn; rewrite lookup_insert_eq; cbn; by intros [Hi _]%elem_of_filter.
Qed.

#[export] Instance Toy_log_laws : VmmLogLaws ToyVmm unit unit unit.
Proof.
  split; try (intros; cbn; toy_calm; fail).
  - intros w len h. cbn. unfold Toy.give_memory. assert (keeps (calm {[Worker w]}) (Toy.give_memory (Worker w) len)) as C by toy_calm.
    specialize (C h). unfold Toy.give_memory, Toy.request, wp, modify, mbind, M_bind in *.
    destruct (tv_faults h) as [|[message|] faults]; [|exact C|]; (split; [exact C|]); cbn; unfold Toy.pages_of; cbn; by rewrite lookup_insert_eq.
  - intros w h. cbn. assert (keeps (calm {[Worker w]}) (_ ← Toy.request; Toy.track (Worker w))) as C by toy_calm. specialize (C h).
    unfold Toy.track, Toy.request, wp, modify, mbind, M_bind in *.
    destruct (tv_faults h) as [|[message|] faults]; [|exact C|]; (split; [exact C|]; split; [cbn; set_solver|done]).
  - intros w h. apply toy_boot.
  - intros vm h. apply toy_restart.
  - intros w h. apply toy_restart.
  - intros h. by apply toy_calm_machine.
  - intros h. by apply toy_calm_machine.
  - intros vm slot gpa len h. cbn. wp_steps. eapply wp_mono; [apply toy_take| |done]. intros l h' (C & HL & Hc). wp_steps.
    split_and!; [done|done|]. intros n -> Hn.
    rewrite N.div_mul by done. rewrite Nat2N.id. by apply toy_reports.
  - intros w h. cbn. unfold Toy.capture. wp_steps. eapply wp_mono; [apply toy_take| |done]. intros l h' Hl. by wp_steps.
  - intros w h. apply toy_take.
Qed.

(** ** File systems and manifests *)

(** A store is saved as its files. *)
Abbreviation SavedFiles := (list (NodeId * list byte)).

Definition revive_store (files : SavedFiles) : MemoryStore := mkMemory (list_to_map files) 0 0 Identity.new.

#[export] Instance MemoryStore_files : BranchStore Statics MemoryStore RedoxPageIdentity SavedFiles := {
  bs_create := Shelf.create;
  bs_create_durable := Shelf.create_durable;
  bs_restore_lineage directory states := mret (revive_store <$> states);
  bs_create_file := Shelf.create_file;
  bs_lookup := Shelf.lookup;
  bs_metadata := Shelf.metadata;
  bs_entries := Shelf.entries;
  bs_durable_state := gets (fun ws => map_to_list (mem_nodes ws.2))
}.

(** Values as bytes, one after another. *)
Class Wire (A : Type) := {
  put : A -> list byte;
  take_wire : list byte -> option (A * list byte);
  wire_law a rest : take_wire (put a ++ rest) = Some (a, rest)
}.

(** A number: its bits, and an end mark. *)
Fixpoint put_pos (p : positive) : list byte :=
  match p with xH => [Byte.x02] | xO p' => Byte.x00 :: put_pos p' | xI p' => Byte.x01 :: put_pos p' end.
Fixpoint take_pos (l : list byte) : option (positive * list byte) :=
  match l with
  | Byte.x00 :: l' => '(p, rest) ← take_pos l'; Some (xO p, rest)
  | Byte.x01 :: l' => '(p, rest) ← take_pos l'; Some (xI p, rest)
  | Byte.x02 :: rest => Some (xH, rest)
  | _ => None
  end.

Lemma take_put_pos p rest : take_pos (put_pos p ++ rest) = Some (p, rest).
Proof. induction p as [p IH|p IH|]; cbn; [by rewrite IH|by rewrite IH|done]. Qed.

Definition through {A B} `{Wire B} (f : A -> B) (g : B -> A) (Hfg : forall a, g (f a) = a) : Wire A.
Proof.
  refine {| put a := put (f a); take_wire l := '(b, rest) ← take_wire l; Some (g b, rest) |}.
  abstract (intros a rest; rewrite wire_law; cbn; by rewrite Hfg).
Defined.

#[export] Instance wire_N : Wire N.
Proof.
  refine {| put n := put_pos (N.succ_pos n); take_wire l := '(p, rest) ← take_pos l; Some (Pos.pred_N p, rest) |}.
  abstract (intros n rest; rewrite take_put_pos; cbn; by rewrite N.pos_pred_succ).
Defined.
#[export] Instance wire_nat : Wire nat := through N.of_nat N.to_nat Nat2N.id.
#[export] Instance wire_bool : Wire bool.
Proof. apply (through (fun b : bool => if b then 1 else 0) (fun n => n =? 1)). by intros []. Defined.
#[export] Instance wire_byte : Wire byte.
Proof.
  apply (through Byte.to_N (fun n => default zero_byte (Byte.of_N n))). intros x. by rewrite Byte.of_to_N.
Defined.
#[export] Instance wire_prod {A B} `{Wire A} `{Wire B} : Wire (A * B).
Proof.
  refine {| put x := put x.1 ++ put x.2; take_wire l := '(a, l') ← take_wire l; '(b, rest) ← take_wire l'; Some ((a, b), rest) |}.
  abstract (intros [a b] rest; cbn; rewrite <-app_assoc, wire_law; cbn; by rewrite wire_law).
Defined.

Definition put_all {A} `{Wire A} (l : list A) : list byte := foldr (fun a rest => put a ++ rest) [] l.

Fixpoint take_list {A} `{Wire A} (n : nat) (l : list byte) : option (list A * list byte) :=
  match n with
  | O => Some ([], l)
  | Datatypes.S n' => '(a, l') ← take_wire l; '(others, rest) ← take_list n' l'; Some (a :: others, rest)
  end.

Lemma take_put_list {A} `{Wire A} (l : list A) rest : take_list (length l) (put_all l ++ rest) = Some (l, rest).
Proof. induction l as [|a l IH]; cbn; [done|]. rewrite <-app_assoc, wire_law. cbn. fold (put_all l). by rewrite IH. Qed.

#[export] Instance wire_list {A} `{Wire A} : Wire (list A).
Proof.
  refine {| put l := put (length l) ++ put_all l; take_wire l := '(n, l') ← take_wire l; take_list n l' |}.
  abstract (intros l rest; rewrite <-app_assoc, wire_law; exact (take_put_list l rest)).
Defined.
#[export] Instance wire_option {A} `{Wire A} : Wire (option A).
Proof.
  apply (through (fun o : option A => match o with Some a => [a] | None => [] end) (fun l => head l)). by intros [].
Defined.
#[export] Instance wire_string : Wire string.
Proof.
  apply (through String.list_byte_of_string String.string_of_list_byte). apply String.string_of_list_byte_of_string.
Defined.

(** A manifest as nested tuples, and back. *)
Module Plain.

Abbreviation ToyManifest := (ForestManifest SavedFiles unit unit unit).

Abbreviation plain_fs := (option string * bool * N * option N * string * string * N * N * option N * N)%type.
Abbreviation plain_backend := (option (N * option (list plain_fs) * list nat)).

Definition of_fs (fs : FsConfig) : plain_fs :=
  let p := fc_pci_common fs in
  (pci_id p, pci_iommu p, pci_segment p, pci_device_id p, fc_tag fs, fc_socket fs, fc_num_queues fs, fc_queue_size fs,
   fc_in_process_backend_id fs, fc_dax_window_size fs).
Definition to_fs (x : plain_fs) : FsConfig :=
  let '(a, b, c, d, e, f, g, h, i, j) := x in mkFsConfig (mkPciCommon a b c d) e f g h i j.

Definition of_backend (b : DurableBackend unit unit unit) : plain_backend :=
  match b with
  | DurableRaw => None
  | DurableCloud config _ _ indexes => Some (vc_memory_size config, option_map (map of_fs) (vc_fs config), indexes)
  end.
Definition to_backend (x : plain_backend) : DurableBackend unit unit unit :=
  match x with
  | None => DurableRaw
  | Some (size, fs, indexes) => DurableCloud (mkVmConfig size (option_map (map to_fs) fs) tt) tt tt indexes
  end.

Definition of_page (p : RamPageState) := (ps_id p, ps_generation p, ps_offset p).
Definition to_page (x : N * N * N) : RamPageState := let '(a, b, c) := x in mkRamPageState a b c.

Definition of_mapping (d : DurableMappingSpec) := (dms_window_offset d, dms_inode d, dms_file_offset d, dms_writable d).
Definition to_mapping (x : N * NodeId * N * bool) : DurableMappingSpec := let '(a, b, c, d) := x in mkDurableSpec a b c d.

Abbreviation plain_vm := (N * plain_backend * (N * list (N * N * N)) * (N * SavedFiles * list (N * NodeId * N * bool)))%type.

Definition of_vm (vm : VmManifest SavedFiles unit unit unit) : plain_vm :=
  (vmf_id vm, of_backend (vmf_backend vm), (rst_len (vmf_ram vm), of_page <$> rst_pages (vmf_ram vm)),
   (sn_lineage (vmf_filesystem vm), sn_filesystem (vmf_filesystem vm), of_mapping <$> sn_mappings (vmf_filesystem vm))).
Definition to_vm (x : plain_vm) : VmManifest SavedFiles unit unit unit :=
  let '(id, backend, (len, pages), (lineage, files, mappings)) := x in
  mkVmManifest id (to_backend backend) (mkRamState len (to_page <$> pages)) (mkSnapshot lineage files (to_mapping <$> mappings)).

Definition of_manifest (m : ToyManifest) : N * N * N * list plain_vm := (fm_version m, fm_next_vm m, fm_next_lineage m, of_vm <$> fm_vms m).
Definition to_manifest (x : N * N * N * list plain_vm) : ToyManifest := let '(version, next_vm, next_lineage, vms) := x in
  mkForestManifest version next_vm next_lineage (to_vm <$> vms).

Lemma fmap_back {A B} (f : A -> B) (g : B -> A) (l : list A) : (forall x, g (f x) = x) -> g <$> (f <$> l) = l.
Proof. intros Hfg. rewrite <-list_fmap_compose. rewrite <-(list_fmap_id l) at 2. by apply list_fmap_ext; intros; apply Hfg. Qed.

Lemma to_of_fs fs : to_fs (of_fs fs) = fs.
Proof. by destruct fs as [[] ?]. Qed.
Lemma to_of_backend b : to_backend (of_backend b) = b.
Proof.
  destruct b as [|[size [fs|] []] [] [] indexes]; cbn; [done| |done]. rewrite (fmap_back of_fs to_fs fs to_of_fs : map to_fs (map of_fs fs) = fs). done.
Qed.
Lemma to_of_vm vm : to_vm (of_vm vm) = vm.
Proof.
  destruct vm as [id b [len pages] [lineage files mappings]]. cbn. rewrite to_of_backend.
  rewrite (fmap_back of_page to_page) by by intros []. by rewrite (fmap_back of_mapping to_mapping) by by intros [].
Qed.
Lemma to_of_manifest m : to_manifest (of_manifest m) = m.
Proof. destruct m. cbn. by rewrite (fmap_back of_vm to_vm) by apply to_of_vm. Qed.

#[export] Instance wire_manifest : Wire ToyManifest := through of_manifest to_manifest to_of_manifest.

End Plain.
Export (hints) Plain.

#[export] Instance Toy_codec : ManifestCodec SavedFiles unit unit unit := {
  to_json m := Ok (put (stored m));
  from_json bytes := match take_wire bytes with Some (m, []) => Ok m | _ => Err "not a manifest" end
}.

#[export] Instance Toy_codec_laws : ManifestCodecLaws (St := SavedFiles) (Opts := unit) (Snap := unit) (Ranges := unit).
Proof.
  intros m bytes Hb. change (Ok (put (stored m)) = Ok (E := string) bytes) in Hb. assert (bytes = put (stored m)) as -> by congruence.
  pose proof (wire_law (stored m) []) as Hw. rewrite app_nil_r in Hw. cbn [from_json Toy_codec]. by rewrite Hw.
Qed.

(** ** A forest whose VMM is watched *)

Module ToyWatched.

Abbreviation World := (KvmWorld Statics MemoryStore RedoxPageIdentity (Watched ToyVmm)).
Abbreviation State := (KvmWorld Statics MemoryStore RedoxPageIdentity (Watched ToyVmm) * KvmSupervisor)%type.
Abbreviation Op := (kvm_op (W := Statics) (S := MemoryStore) (Id := RedoxPageIdentity) (H := Watched ToyVmm) (Opts := unit)).

(** A process with nothing in it, and a VMM that refuses as [faults] says. *)
Definition idle_world (faults : list (option string)) : World :=
  mkKvmWorld (mkRamWorld empty_storage 1 1)
    (mkLineages (mkProcess (mkHost ∅ 1 []) initial_statics 1 1 ∅ 1) ∅)
    (mkWatched (mkToy ∅ ∅ 1 ∅ ∅ ∅ ∅ 0 faults) ∅) empty_storage.

Definition opened (faults : list (option string)) : State :=
  let '(w, r) := KvmDur.open "forest" (idle_world faults) in
  (w, match r with Ok k => k | Err _ => mkKvmSupervisor 0 0 ∅ None None end).

Definition after (s : State) (ops : list Op) : State := foldl (fun s op => (run_op op s).1) s ops.

Lemma opened_reachable faults k w : KvmDur.open "forest" (idle_world faults) = (w, Ok k) -> kvm_reachable (opened faults).
Proof.
  intros Hr. unfold opened. rewrite Hr. eapply (kr_open "forest" (idle_world faults)); [|reflexivity|exact Hr].
  intros cid c Hc. by vm_compute in Hc.
Qed.

Lemma after_reachable s ops : kvm_reachable s -> Forall tame_op ops -> kvm_reachable (after s ops).
Proof.
  intros Hs Ho. revert s Hs. induction Ho as [|op ops Hop _ IH]; intros s Hs; [done|]. apply IH.
  eapply kr_op; [exact Hs|exact Hop|apply surjective_pairing].
Qed.

(** What the guest does during a fork: nothing. *)
Lemma quiet_guest : tame (mret tt : M State (Stop SupervisorError) unit).
Proof. intros s. by split. Qed.

Definition setup : list Op := [OpCreateVm 4096; OpWriteMemory 1 10 [Byte.x2a]].
Definition fork1 : Op := OpForkVm (mret tt) 1.

(** The VMM refuses the dirty log in the middle of a fork. *)
Definition refusals : list (option string) := replicate 8 None ++ [Some "no log"].

Definition machine_at (id : N) (s : State) : option Machine := (fun d => machine_of (kv_backend d)) <$> ks_vms s.2 !! id.

(** A fork that fails while the source is paused leaves the source running. *)
Lemma forest_keeps_running_witness :
  let s := after (opened refusals) setup in
  let s' := (run_op fork1 s).1 in
  (run_op fork1 s).2 = Err (Failed (KvmVmm (Backend "read KVM dirty log" (CauseVmm "no log")))) /\
  (run_op fork1 s).2 <> Err Panicked /\ machine_at 1 s' = Some (RawMachine 1) /\
  refused (kw_vmm s'.1) = ∅ /\ RawMachine 1 ∈ running (vmm (kw_vmm s'.1)).
Proof.
  intros s s'.
  assert (KvmDur.open "forest" (idle_world refusals) = ((opened refusals).1, Ok (opened refusals).2)) as Hopen by (vm_compute; reflexivity).
  assert (kvm_reachable s) as Hs by (apply after_reachable; [exact (opened_reachable _ _ _ Hopen)|repeat constructor]).
  assert (tame_op fork1) as Hf by apply quiet_guest.
  assert (kvm_reachable s') as Hs' by (exact (kr_op fork1 _ _ _ Hs Hf (surjective_pairing (run_op fork1 s)))).
  destruct (forest_keeps_running s Hs) as [_ Hno].
  destruct (forest_keeps_running s' Hs') as [Hrun _].
  destruct (ks_vms s'.2 !! 1) as [d|] eqn:Hd; [|by vm_compute in Hd].
  assert (machine_at 1 s' = Some (RawMachine 1)) as Hm by (vm_compute; reflexivity).
  assert (machine_of (kv_backend d) = RawMachine 1) as Hmd by (unfold machine_at in Hm; rewrite Hd in Hm; by injection Hm).
  assert (refused (kw_vmm s'.1) = ∅) as Hr by (vm_compute; reflexivity).
  split; [vm_compute; reflexivity|]. split; [exact (Hno fork1 _ _ Hf (surjective_pairing _))|]. split; [exact Hm|]. split; [exact Hr|].
  rewrite <-Hmd. destruct (Hrun 1 d Hd) as [H|H]; [exact H|]. rewrite Hr in H. destruct (not_elem_of_empty _ H).
Defined.

(** The exception is real: a pause that is refused leaves the VM stopped, and
    the supervisor does not resume it. *)
Lemma refused_pause_stops :
  let s := after (opened (replicate 4 None ++ [Some "no pause"])) setup in
  machine_at 1 s = Some (RawMachine 1) /\ bool_decide (RawMachine 1 ∈ running (vmm (kw_vmm s.1))) = false /\
  bool_decide (RawMachine 1 ∈ refused (kw_vmm s.1)) = true.
Proof. vm_compute. done. Qed.

End ToyWatched.

(** ** A forest *)

Module ToyForest.

Abbreviation World := (KvmWorld Statics MemoryStore RedoxPageIdentity ToyVmm).
Abbreviation State := (KvmWorld Statics MemoryStore RedoxPageIdentity ToyVmm * KvmSupervisor)%type.
Abbreviation Op := (kvm_op (W := Statics) (S := MemoryStore) (Id := RedoxPageIdentity) (H := ToyVmm) (Opts := unit)).

(** A process with nothing in it, and a VMM that refuses as [faults] says. *)
Definition idle_world (faults : list (option string)) : World :=
  mkKvmWorld (mkRamWorld empty_storage 1 1)
    (mkLineages (mkProcess (mkHost ∅ 1 []) initial_statics 1 1 ∅ 1) ∅)
    (mkToy ∅ ∅ 1 ∅ ∅ ∅ ∅ 0 faults) empty_storage.

Definition no_supervisor : KvmSupervisor := mkKvmSupervisor 0 0 ∅ None None.

Definition opened (faults : list (option string)) : State :=
  let '(w, r) := KvmDur.open "forest" (idle_world faults) in
  (w, match r with Ok k => k | Err _ => no_supervisor end).

Definition after (s : State) (ops : list Op) : State := foldl (fun s op => (run_op op s).1) s ops.

Definition setup : list Op := [OpCreateVm 4096; OpWriteMemory 1 10 [Byte.x2a]].
Definition fork1 : Op := OpForkVm (mret tt) 1.

(** ** A checkpoint *)

Definition forest : State := after (opened []) (setup ++ [fork1]).
Definition saved : State * result (Stop SupervisorError) unit := checkpoint forest.

Definition saved_ids (r : result (Stop SupervisorError) (ForestManifest SavedFiles unit unit unit)) : list N :=
  match r with Ok m => vmf_id <$> fm_vms m | Err _ => [] end.

Definition crashed : Storage := lose_unsynced (kw_dir saved.1.1).

(** Both VMs are in the manifest a restart finds after a crash. *)
Lemma checkpoint_replaces_manifest_witness :
  saved.2 = Ok tt /\
  exists m, names_forest forest m /\ (read_manifest "forest" (set_kw_dir crashed (idle_world []))).2 = Ok (stored m) /\
    saved_ids (read_manifest "forest" (set_kw_dir crashed (idle_world []))).2 = [1; 2].
Proof.
  assert (saved.2 = Ok tt) as Hok by (vm_compute; reflexivity).
  assert (ks_storage forest.2 = Some "forest") as Hdir by (vm_compute; reflexivity).
  assert (checkpoint forest = (saved.1, saved.2)) as Hrun by exact (surjective_pairing saved).
  assert (manifest_kept "forest" (kw_dir forest.1)) as Hk.
  { assert (sto_names (kw_dir forest.1) = ∅) as H1 by (vm_compute; reflexivity).
    assert (sto_stable_names (kw_dir forest.1) = ∅) as H2 by (vm_compute; reflexivity). exact (fresh_kept _ _ H1 H2). }
  assert (sto_sched crashed = []) as Hs by (vm_compute; reflexivity).
  assert (saved_ids (read_manifest "forest" (set_kw_dir crashed (idle_world []))).2 = [1; 2]) as Hids by (vm_compute; reflexivity).
  split; [exact Hok|].
  destruct (checkpoint_replaces_manifest "forest" forest saved.1 saved.2 Hdir Hk Hrun) as [_ Hm].
  destruct (Hm Hok) as (m & Hn & Hread). exists m. split; [exact Hn|]. split; [|exact Hids].
  exact (Hread crashed (idle_world []) (lose_unsynced_crash (kw_dir saved.1.1)) Hs).
Defined.

(** ** A crash *)

(** Guest [id] stores bytes, and its machine logs the pages. *)
Definition guest_stores (id off : N) (bytes : list byte) (s : State) : State :=
  match ks_vms s.2 !! id with
  | Some d =>
      let '((rw, ram), _) := Ram.store off bytes (kw_ram s.1, kv_ram d) in
      let m := machine_of (kv_backend d) in
      let h := kw_vmm s.1 in
      (set_kw_vmm (Toy.set_dirty (<[m := Toy.log_of m h ∪ list_to_set (Ram.touched_pages off (lenN bytes))]> (tv_dirty h)) h) (set_kw_ram rw s.1),
       set_vms (<[id := mkKvmVm (kv_backend d) ram (kv_filesystem d)]> (ks_vms s.2)) s.2)
  | None => s
  end.

Lemma guest_stores_step id off bytes s :
  option_map (fun d => off + lenN bytes <=? ram_len (kv_ram d)) (ks_vms s.2 !! id) = Some true -> guest_step everyone s (guest_stores id off bytes s).
Proof.
  intros Hlen. destruct (ks_vms s.2 !! id) as [d|] eqn:Hd; [|done]. injection Hlen as Hlen%N.leb_le.
  apply (gs_store _ _ _ id off bytes); [done|]. unfold guest_stores. rewrite Hd. destruct (Ram.store off bytes (kw_ram s.1, kv_ram d)) as [[rw ram] r] eqn:Hst.
  exists d, rw, ram. split_and!; [done|done| | |intros Htr; split].
  - unfold Ram.store, modify in Hst. by injection Hst as <- <- <-.
  - split; [split; [done|done|]|done|done|done]. cbn.
    refine (toy_calm_modify (E := string) (fun h => Toy.set_dirty (<[_ := _]> (tv_dirty h)) h) _ _ (kw_vmm s.1)).
    intros h. split_and!; [done|done|]. intros m Hm. cbn. split_and!; [apply lookup_insert_ne; set_solver|done|done].
  - done.
  - cbn. unfold Toy.log_of. cbn. by rewrite lookup_insert_eq.
Qed.

(** A VM is written by the host and by its guest, and forked; the child's
    guest writes; the forest is checkpointed; then the host crashes. *)
Definition live1 : State := after (opened []) setup.
Definition live2 : State := guest_stores 1 20 [Byte.x07] live1.
Definition live3 : State := (run_op fork1 live2).1.
Definition live4 : State := guest_stores 2 20 [Byte.x09] live3.
Definition live5 : State := (run_op (OpCheckpoint : Op) live4).1.
Definition left_ram : Storage := lose_unsynced (rm_storage (kw_ram live5.1)).
Definition left_dir : Storage := lose_unsynced (kw_dir live5.1).

Definition rebooted (st_r st_d : Storage) : World := mkKvmWorld (mkRamWorld st_r 1 1) (kw_fs (idle_world [])) (kw_vmm (idle_world [])) st_d.
Definition back : World * result (Stop SupervisorError) KvmSupervisor := KvmDur.open "forest" (rebooted left_ram left_dir).
Definition reopened : State := (back.1, match back.2 with Ok k => k | Err _ => no_supervisor end).

Definition memory_byte (id : N) (i : nat) (s : State) : option byte := forest_memory s !! id ≫= (fun bytes => bytes !! i).

Lemma room_by g p w : ((next_generation_id w + g <=? u64_MAX) && (next_page_id w + p <=? u64_MAX)) = true -> room g p w.
Proof. intros [?%N.leb_le ?%N.leb_le]%andb_prop. by split. Qed.

(** A step of the history that succeeds. *)
Lemma live_op (s : State) (snaps : list (gmap N (option (list byte)))) (op : Op) : forest_history "forest" (Up ∅ s) snaps -> op_room op s -> guests_behave everyone op -> (run_op op s).2 = Ok tt ->
  forest_history "forest" (Up ∅ (run_op op s).1) (kept_snapshots op (Ok tt) s ∅ snaps).
Proof.
  intros Hh Hroom Hg Hok. assert (damaged op (Ok tt) s ∅ = ∅) as Ed by by destruct op.
  rewrite <-Ed at 1. eapply fh_op; [exact Hh|exact Hroom|exact Hg| |done]. rewrite <-Hok. apply surjective_pairing.
Qed.

Lemma live1_history : forest_history "forest" (Up ∅ live1) [∅].
Proof.
  assert (KvmDur.open "forest" (idle_world []) = ((opened []).1, Ok (opened []).2)) as Hopen by (vm_compute; reflexivity).
  assert (forest_history "forest" (Up ∅ (opened [])) [∅]) as H0.
  { rewrite (surjective_pairing (opened [])). eapply fh_open; [exact (fh_start "forest" [] [])|exact Hopen]. }
  assert (forest_history "forest" (Up ∅ (run_op (OpCreateVm 4096 : Op) (opened [])).1) [∅]) as H1.
  { apply (live_op (opened []) [∅] (OpCreateVm 4096) H0); [split|exact I|vm_compute; reflexivity].
    - apply room_by. vm_compute. reflexivity.
    - apply N.ltb_lt. vm_compute. reflexivity. }
  refine (live_op _ [∅] (OpWriteMemory 1 10 [Byte.x2a]) H1 I I _). vm_compute. reflexivity.
Qed.

(** The fork has room. *)
Lemma fork_room : op_room fork1 live2.
Proof.
  assert (option_map (fun d => lenN (pages (kv_ram d))) (ks_vms live2.2 !! 1) = Some 1) as Hp by (vm_compute; reflexivity).
  assert (room 2 2 (kw_ram live2.1)) as Hr by (apply room_by; vm_compute; reflexivity).
  split; [|apply N.ltb_lt; vm_compute; reflexivity]. intros d Hd. rewrite Hd in Hp. injection Hp as Hp. rewrite Hp. exact Hr.
Qed.

Lemma quiet_behaves : guests_behave everyone fork1.
Proof. intros s. exact (rtc_refl _ _). Qed.

Lemma live2_history : forest_history "forest" (Up ∅ live2) [∅].
Proof. eapply fh_guest; [exact live1_history|]. apply guest_stores_step. vm_compute. reflexivity. Qed.

Lemma live4_history : forest_history "forest" (Up ∅ live4) [∅].
Proof.
  eapply fh_guest; [|apply (guest_stores_step 2 20 [Byte.x09]); vm_compute; reflexivity].
  refine (live_op live2 [∅] fork1 live2_history fork_room quiet_behaves _). vm_compute. reflexivity.
Qed.

Lemma live5_history : forest_history "forest" (Up ∅ live5) [snapshot ∅ live4].
Proof. apply (live_op live4 [∅] OpCheckpoint live4_history); [apply room_by; vm_compute; reflexivity|exact I|vm_compute; reflexivity]. Qed.

Lemma revives_whole (s : State) mem : revives (snapshot ∅ s) mem -> mem = forest_memory s.
Proof.
  intros [Hdom Hb]. apply map_eq. intros id. destruct (forest_memory s !! id) as [bytes|] eqn:Hid.
  - apply Hb. unfold snapshot. rewrite map_lookup_imap, Hid. cbn. by rewrite decide_False by set_solver.
  - apply not_elem_of_dom. rewrite Hdom, not_elem_of_dom. unfold snapshot. by rewrite map_lookup_imap, Hid.
Qed.

(** After the crash both VMs have the memory they had at the checkpoint. *)
Lemma forest_survives_crashes_witness :
  forest_memory reopened = forest_memory live4 /\
  memory_byte 1 10 reopened = Some Byte.x2a /\ memory_byte 1 20 reopened = Some Byte.x07 /\ memory_byte 2 20 reopened = Some Byte.x09.
Proof.
  assert (KvmDur.open "forest" (rebooted left_ram left_dir) = (reopened.1, Ok reopened.2)) as Hopen by (vm_compute; reflexivity).
  assert (forest_history "forest" (Down left_ram left_dir) [snapshot ∅ live4]) as Hh.
  { eapply fh_crash; [exact live5_history|apply lose_unsynced_crash|apply lose_unsynced_crash]. }
  pose proof (forest_survives_crashes "forest" left_ram left_dir _ _ _ _ _ Hh Hopen) as Hs.
  assert (forest_memory reopened = forest_memory live4) as Hm.
  { destruct Hs as [(snap & Hin & Hb)|[[e He] _]]; [|discriminate He]. apply list_elem_of_singleton in Hin. rewrite Hin, <-(surjective_pairing reopened) in Hb. exact (revives_whole _ _ Hb). }
  split; [exact Hm|]. split; [vm_compute; reflexivity|]. split; vm_compute; reflexivity.
Defined.

(** The guests of the RAM system behind the forest after the fork. *)
Lemma supervisor_refines_ram_witness :
  exists hist, history_reachable (generations_dir "forest") hist /\ sm_world (hi_sys hist) = kw_ram live4.1 /\
    option_map gu_log (sm_guests (hi_sys hist) !! 2) = Some {[0%nat]}.
Proof.
  destruct (supervisor_refines_ram "forest" ∅ live4 [∅] live4_history) as (hist & R & Ew & Ht).
  exists hist. split; [exact R|]. split; [exact Ew|].
  assert (option_map (fun d => logged (machine_of (kv_backend d)) (kw_vmm live4.1)) (ks_vms live4.2 !! 2) = Some {[0%nat]}) as Hl
    by (vm_compute; reflexivity).
  specialize (Ht 2). unfold tied_at in Ht. destruct (ks_vms live4.2 !! 2) as [d|]; [|discriminate].
  destruct (sm_guests (hi_sys hist) !! 2) as [gu|]; [|destruct Ht]. cbn in *. destruct Ht as [_ Hlog _ _]. rewrite Hlog. exact Hl.
Defined.

(** A write to one VM leaves the other's memory alone. *)
Definition late_write : Op := OpWriteMemory 1 20 [Byte.x63].

Lemma supervisor_isolates_memory_witness :
  forest_memory (run_op late_write live4).1 !! 2 = forest_memory live4 !! 2 /\
  memory_byte 1 20 (run_op late_write live4).1 = Some Byte.x63 /\ memory_byte 2 20 live4 = Some Byte.x09.
Proof.
  assert ((run_op late_write live4).2 = Ok tt) as Hok by (vm_compute; reflexivity).
  assert (is_Some (ks_vms live4.2 !! 2)) as Hvm by (vm_compute; by eexists).
  assert ((run_op late_write live4).2 <> Err Panicked) as Hp by (rewrite Hok; discriminate).
  assert (~ touches late_write live4 2) as Ht by (cbn; discriminate).
  pose proof (supervisor_isolates_memory "forest" (fun _ => False) ∅ live4 [∅] late_write _ _ 2 live4_history I I
    (surjective_pairing (run_op late_write live4)) Hp Ht (fun H => H) Hvm) as [_ Hm].
  split; [exact Hm|]. split; vm_compute; reflexivity.
Defined.

(** Parent and child after the fork. *)
Definition forked : State := (fork_vm (mret tt) 1 live2).1.

Lemma fork_vm_copies_memory_witness :
  ks_vms live2.2 !! 2 = None /\ exists bytes, forest_memory forked !! 1 = Some bytes /\ forest_memory forked !! 2 = Some bytes /\
    bytes !! 20%nat = Some Byte.x07.
Proof.
  assert ((fork_vm (mret tt) 1 live2).2 = Ok 2) as Hok by (vm_compute; reflexivity).
  assert (fork_vm (mret tt) 1 live2 = (forked, Ok 2)) as Hrun by (rewrite <-Hok; apply surjective_pairing).
  destruct (fork_vm_copies_memory "forest" ∅ live2 [∅] (mret tt) 1 forked 2 live2_history fork_room quiet_behaves (not_elem_of_empty _) Hrun)
    as (Hn & bytes & H1 & H2 & _).
  split; [exact Hn|]. exists bytes. split; [exact H1|]. split; [exact H2|].
  assert (memory_byte 1 20 forked = Some Byte.x07) as Hb by (vm_compute; reflexivity). unfold memory_byte in Hb. rewrite H1 in Hb. exact Hb.
Defined.

End ToyForest.
